(* ===== verification/_CoqProject ===== *)
-Q . S2P
Prelude.v
Intset.v
Util.v
Glob.v
Dict.v
Listpack.v
ListpackRun.v
Lzf.v
Rdb.v
Resp.v
Adlist.v
Skiplist.v
Multi.v
Rax.v
RaxDelete.v
RaxIter.v
Cluster.v
Election.v
Slots.v
Sds.v
SdsOps.v
SdsRun.v
Quicklist.v
QuicklistLinks.v
QuicklistNodes.v
QuicklistOps.v
QuicklistInsert.v
QuicklistRange.v
QuicklistDup.v
QuicklistLists.v
QuicklistRun.v
