(* ===== verification/Prelude.v ===== *)
(** * A verification of the core of the Redis server

    The repository is a web application that ships the sources of the Redis
    7.0 server (src/redis-stable/src), the C program verified here.  The server
    reads commands from its clients, executes them one at a time on an
    in-memory key space, and saves the key space in a compact binary format;
    several servers form a cluster that divides the keys and replaces the
    servers that fail.  The parts modelled are the data structures the key
    space is built from, the transactions that order the commands of several
    clients, the parser that turns the bytes of a connection into commands,
    the encodings of the dump file, and the elections of the cluster.

    ** Files, and the code they model

    - Prelude.v (this file): machine integers, byte buffers with checked
      accesses, lists, tactics and the hint database [redis].
    - Intset.v: intset.c.  A set of integers in a sorted byte array whose cells
      are widened when a value needs it.  The record has the header words and
      the bytes.  Every sequence of operations on sets of less than 2^29
      elements implements a finite set of integers ([intset_simulates]); above
      that a byte count wraps and an insertion loses an element
      ([intsetAdd_loses_element]); the deep integrity check accepts exactly
      well formed blobs.
    - Util.v: the decimal conversions of util.c.  Parsing accepts exactly
      canonical numerals, and printing writes them inside the buffer.
    - Glob.v: stringmatchlen of util.c.  The matcher, with its early
      termination, decides the declarative language of patterns.
    - Dict.v: dict.c.  A hash table with chaining that is rehashed one bucket
      at a time, so that two tables are live; the hash function is a parameter.
      Every sequence of operations implements a finite map through every phase
      of the rehashing ([dict_simulates]), rehashing terminates under a policy
      that allows it, a scan in
      progress misses no key that stays, whatever resizing happens between its
      calls.
    - Listpack.v: listpack.c.  A list of strings and integers in one byte array,
      each entry followed by its length written backwards.  Insertion,
      deletion, merging, seeking, searching and reading back implement lists;
      what the deep check accepts is read in bounds.  ListpackRun.v: every
      sequence of operations implements a list of strings
      ([listpack_simulates]).
    - Lzf.v: lzf_c.c and lzf_d.c.  Decompression inverts compression, whatever
      the uninitialised hash table holds, and is safe on any input.
    - Sds.v: sds.c and sds.h, the dynamic strings, and the resizing of the query
      buffers of server.c.  A string is a position in a block of memory, after a
      header with one of five layouts; the sizes the allocator rounds up to are
      a parameter.  SdsOps.v says what each operation does to the bytes.
      SdsRun.v: every sequence of operations implements a string of bytes, with
      the room the header claims inside the block ([sds_simulates]); splitting
      and joining are inverse ([sdssplitlen_joins]).  The sequences leave out
      the resizings under jemalloc that keep a block or a header the new size
      does not fit; after such a resizing an append leaves the block
      ([sdsResize_overflow]).
    - Quicklist.v: quicklist.c.  A list of strings as a chain of nodes, each with
      a listpack or one large element, and compressed away from the two ends.
      The nodes are in a heap; the listpack and the compressor are typeclasses,
      [Packed] and [Compression].  QuicklistLinks.v has the chains,
      QuicklistNodes.v the laws of the two interfaces ([PackedLaws],
      [CompressionLaws]) and the compression of the nodes, QuicklistOps.v the
      ends of the list and the iterators, QuicklistInsert.v insertion,
      splitting, merging and replacement, QuicklistRange.v the deletion of
      ranges, QuicklistDup.v copies and release; QuicklistLists.v proves the
      laws for the models of Listpack.v and Lzf.v.  QuicklistRun.v: every
      sequence of operations implements a list of strings, over the bytes of
      the listpacks and of the compressed nodes ([quicklist_simulates]), with
      the elements bounded by the 4 GB that the length field of a listpack
      counts; and a rotation of a list with a large last element after a
      compressed node leaves a compressed tail, at which a pop or a push fails
      its assertion ([rotate_strands_tail]).
    - Rdb.v: strings and lengths of rdb.c over the streams of rio.h and rio.c.
      It composes Util and Lzf.  The stream backend is a typeclass, [Backend],
      with the laws of a reliable one in [Reliable]; the buffer of rio.c is an
      instance and the round trip is proved against the interface.
    - Resp.v: networking.c from the read of a connection to the execution of a
      command, sdssplitargs and sdscatrepr of sds.c, and the encoding of a
      command in aof.c.  Quoting and splitting are inverse; however a stream is
      cut into reads, exactly the complete commands are executed, in order; a
      replica forwards exactly the bytes of the commands it applies, a
      transaction as a whole when it ends.  A command is any function that says
      whether the client is in a transaction afterwards; it does not block or
      close the client.
    - Adlist.v: adlist.c.  Doubly linked lists over a store of nodes.  Every
      sequence of operations on two lists simulates the same operations on
      sequences, with no dangling pointer followed ([adlist_simulates]).
    - Skiplist.v: the skiplist of t_zset.c.  Nodes with several levels of
      links and spans in a heap, ordered by IEEE scores and elements.  Every
      sequence of operations, from creation to release, does what it does on a
      sorted sequence, ranks and range deletions included
      ([skiplist_simulates]).
    - Multi.v: multi.c and the expiry test of db.c.  Clients, databases and the
      watchedKey objects that two indexes share.  The indexes stay consistent
      in every interleaving, also of EXEC, whose commands are any lists of
      operations of the model; a touched transaction runs nothing, a clean one
      runs its queue once in order, and the exact set of clients a change
      flags.
    - Rax.v, RaxDelete.v, RaxIter.v: rax.c.  A radix tree whose chains of
      nodes are compressed, over a heap of nodes with their layout in memory.
      The allocator chooses any free address for a block.
      Every sequence of insertions, removals and lookups implements a finite
      map from byte strings ([rax_simulates]), with removals only while the
      keys are shorter than 2^29 bytes; nodes stay well formed whatever the
      keys ([rax_layout]), iterators show the keys in lexicographic order in
      the two directions from any seek ([rax_iterates]), and the copy of a
      chain goes past its block when the merged chain is longer than a node
      can be ([raxRemove_overflows]).
    - Cluster.v: the failover elections of cluster.c: epochs, votes, requests,
      the failover itself and the assignment of slots, for one server.
      Election.v: the servers over a network that loses, delays and reorders
      messages and may write them before the configuration is saved, as a step
      relation with the history of the votes; a server votes at most once for
      an epoch, also across restarts, except one between the early writing of a
      vote and the saving ([cluster_vote_once]), after which it can vote again
      ([early_write_two_votes]); two replicas that know the same masters do not
      win the same epoch when votes are processed only while a replica waits
      for them and restarts find the last request saved
      ([cluster_unique_winner]), and without the first condition they can
      ([stale_votes_two_winners]).  CLUSTER RESET HARD is not a step.  Slots.v: the two records of the assignment
      of slots agree, and a failover moves exactly the slots of the old master.

    ** Conventions

    An integer of the code is a [Z] with the reductions to its width written
    out where the code relies on them; bytes are integers below 256; the
    machine is little endian with 64-bit long and size_t, and the locale is
    C.  [None] is an access outside an allocation, a null or dangling pointer,
    or a failed assertion, so that a theorem that an operation returns is also
    its memory safety; errors the code reports are ordinary values.
    Allocation succeeds, as the allocator of the server aborts otherwise; the
    contents of fresh memory are arbitrary (a parameter) where the code can
    see them.

    Loops that are not structural take a fuel argument computed from the data
    (the number of buckets, the bytes left, the arguments still to read), and
    the theorems state that the operation returns, which is that the fuel
    is enough: every iteration consumes a bucket, a byte or an argument.
    Randomness, hashing, the clock and executing a command are parameters.

    ** Not modelled

    The command implementations, the object layer, streams, replies, the event
    loop and its system calls, replication, the gossip and failure detection of
    the cluster, scripting and modules, configuration, the command line tools
    and the bundled libraries; of the quicklist the bookmarks, which only the
    active defragmentation sets, of sds the formatting with the printf of the C
    library and templates.  The lexicographic ranges of sorted sets, the
    identifiers of streams and the remaining object types of the dump file would
    come next. *)
From stdpp Require Import base list numbers option decidable.
From Stdlib Require Import ZArith Lia Zify ZifyBool.
From Stdlib Require String Ascii.
#[global] Open Scope Z_scope.

(** * Machine integers *)

(** Unsigned and two's-complement signed reduction to [w] bits. *)
Definition wrap (w x : Z) : Z := x mod 2 ^ w.
Definition swrap (w x : Z) : Z := (x + 2 ^ (w - 1)) mod 2 ^ w - 2 ^ (w - 1).

Abbreviation u8 := (wrap 8).
Abbreviation u16 := (wrap 16).
Abbreviation u32 := (wrap 32).
Abbreviation u64 := (wrap 64).
Abbreviation s8 := (swrap 8).
Abbreviation s16 := (swrap 16).
Abbreviation s32 := (swrap 32).
Abbreviation s64 := (swrap 64).

Definition in_u (w x : Z) : Prop := 0 <= x < 2 ^ w.
Definition in_s (w x : Z) : Prop := - 2 ^ (w - 1) <= x < 2 ^ (w - 1).

Definition INT16_MIN : Z := -32768.
Definition INT16_MAX : Z := 32767.
Definition INT32_MIN : Z := -2147483648.
Definition INT32_MAX : Z := 2147483647.
Definition INT64_MIN : Z := -9223372036854775808.
Definition INT64_MAX : Z := 9223372036854775807.
Definition UINT32_MAX : Z := 4294967295.
Definition UINT64_MAX : Z := 18446744073709551615.

(** C truth values. *)
Definition b2z (b : bool) : Z := if b then 1 else 0.

(** * Automation *)

Create HintDb redis.
Create Rewrite HintDb redis.

(** Split the boolean guards of the code into propositions. *)
Ltac bool_hyps :=
  repeat match goal with
  | H : andb _ _ = true |- _ => apply andb_prop in H; destruct H
  | H : orb _ _ = false |- _ => apply orb_false_elim in H; destruct H
  | H : negb _ = true |- _ => apply negb_true_iff in H
  | H : negb _ = false |- _ => apply negb_false_iff in H
  | H : (_ <? _) = true |- _ => apply Z.ltb_lt in H
  | H : (_ <? _) = false |- _ => apply Z.ltb_ge in H
  | H : (_ <=? _) = true |- _ => apply Z.leb_le in H
  | H : (_ <=? _) = false |- _ => apply Z.leb_gt in H
  | H : (_ =? _) = true |- _ => apply Z.eqb_eq in H
  | H : (_ =? _) = false |- _ => apply Z.eqb_neq in H
  end.

(** Destruct the innermost [if] on a boolean, in the goal. *)
Ltac case_if E :=
  match goal with
  | |- context [if ?b then _ else _] =>
      lazymatch b with
      | context [if _ then _ else _] => fail
      | _ => let H := fresh E in destruct b eqn:H; bool_hyps
      end
  end.

(** Decide the first boolean [if] of the goal with [lia]. *)
Ltac if_lia :=
  match goal with
  | |- context [if ?b then _ else _] =>
      lazymatch type of b with bool => idtac end;
      first [replace b with true by lia | replace b with false by lia]
  end; cbv iota.

(** [lia] after [div] and [mod] by constants are replaced by their equations. *)
Ltac dlia := Z.div_mod_to_equations; lia.

(** Reduce the binds of [option] computations, and nothing else. *)
Ltac bnd := cbn [mbind option_bind mret option_ret].

(** Open the binds of a successful computation. *)
Ltac inv_bind :=
  repeat match goal with
  | H : _ ≫= _ = Some _ |- _ =>
      let x := fresh "r" in let E := fresh "E" in
      apply bind_Some in H; destruct H as (x & E & H)
  | H : Some _ = Some _ |- _ => injection H as H; subst
  | H : None = Some _ |- _ => discriminate H
  | H : Some _ = None |- _ => discriminate H
  end.

Lemma wrap_small w x : 0 <= x < 2 ^ w -> wrap w x = x.
Proof. intros. unfold wrap. apply Z.mod_small; lia. Qed.

Lemma swrap_small w x : 0 < w -> in_s w x -> swrap w x = x.
Proof.
  unfold in_s, swrap. intros Hw H.
  assert (2 ^ w = 2 * 2 ^ (w - 1)) by (rewrite <- Z.pow_succ_r by lia; f_equal; lia).
  rewrite Z.mod_small; lia.
Qed.

Lemma wrap_range w x : 0 <= w -> 0 <= wrap w x < 2 ^ w.
Proof. intros. unfold wrap. apply Z.mod_pos_bound. lia. Qed.

Lemma swrap_wrap w x : 0 < w -> swrap w (wrap w x) = swrap w x.
Proof. intros. unfold swrap, wrap. rewrite Zplus_mod_idemp_l. done. Qed.

Lemma swrap_range w x : 0 < w -> in_s w (swrap w x).
Proof.
  intros Hw. unfold in_s, swrap.
  assert (2 ^ w = 2 * 2 ^ (w - 1)) by (rewrite <- Z.pow_succ_r by lia; f_equal; lia).
  pose proof (Z.mod_pos_bound (x + 2 ^ (w - 1)) (2 ^ w) ltac:(lia)). lia.
Qed.

(** * Byte buffers

    A C byte array is a [list Z] of bytes.  Every access is bounds
    checked: [None] stands for an access outside the allocation, so a
    theorem that an operation returns [Some] is also its memory safety. *)

Definition zlen {A} (l : list A) : Z := Z.of_nat (length l).

Definition ldn (m : list Z) (p n : Z) : option (list Z) :=
  if (0 <=? p) && (0 <=? n) && (p + n <=? zlen m)
  then Some (take (Z.to_nat n) (drop (Z.to_nat p) m)) else None.

Definition stn (m : list Z) (p : Z) (bs : list Z) : option (list Z) :=
  if (0 <=? p) && (p + zlen bs <=? zlen m)
  then Some (take (Z.to_nat p) m ++ bs ++ drop (Z.to_nat p + length bs) m)
  else None.

Definition ld8 (m : list Z) (p : Z) : option Z :=
  if 0 <=? p then m !! Z.to_nat p else None.

Definition st8 (m : list Z) (p v : Z) : option (list Z) := stn m p [v].

(** [memmove]/[memcpy] inside one allocation. *)
Definition memmove (m : list Z) (dst src n : Z) : option (list Z) :=
  bs ← ldn m src n; stn m dst bs.

(** [realloc]: the common prefix is kept, the fresh tail is unspecified
    and filled with the byte [junk]. *)
Definition realloc (junk : Z) (m : list Z) (n : Z) : list Z :=
  take (Z.to_nat n) m ++ replicate (Z.to_nat n - length m) junk.

(** The bytes of a string literal. *)
Definition bytes_of (s : String.string) : list Z :=
  map (fun a => Z.of_N (Ascii.N_of_ascii a)) (String.list_ascii_of_string s).

(** Little endian encoding of the low [n] bytes of an integer. *)
Fixpoint le_enc (n : nat) (v : Z) : list Z :=
  match n with
  | O => []
  | S n' => v mod 256 :: le_enc n' (v / 256)
  end.

Fixpoint le_dec (bs : list Z) : Z :=
  match bs with
  | [] => 0
  | b :: r => b + 256 * le_dec r
  end.

Definition is_byte (b : Z) : Prop := 0 <= b < 256.

Lemma zlen_nonneg {A} (l : list A) : 0 <= zlen l.
Proof. unfold zlen. lia. Qed.
Lemma zlen_app {A} (l k : list A) : zlen (l ++ k) = zlen l + zlen k.
Proof. unfold zlen. rewrite length_app. lia. Qed.
Lemma zlen_cons {A} (x : A) l : zlen (x :: l) = 1 + zlen l.
Proof. unfold zlen. simpl. lia. Qed.
Lemma zlen_nil {A} : zlen (@nil A) = 0.
Proof. done. Qed.
#[export] Hint Rewrite @zlen_app @zlen_cons @zlen_nil : redis.

Lemma length_le_enc n v : length (le_enc n v) = n.
Proof. revert v. induction n; intros; simpl; auto. Qed.
Lemma zlen_le_enc n v : zlen (le_enc n v) = Z.of_nat n.
Proof. unfold zlen. by rewrite length_le_enc. Qed.

Lemma le_dec_enc n v : le_dec (le_enc n v) = v mod 256 ^ Z.of_nat n.
Proof.
  revert v. induction n as [|n IH]; intros v.
  - simpl. by rewrite Z.mod_1_r.
  - cbn [le_enc le_dec]. rewrite IH.
    rewrite Nat2Z.inj_succ, Z.pow_succ_r by lia.
    rewrite Z.rem_mul_r by lia. lia.
Qed.

Lemma le_enc_bytes n v : Forall is_byte (le_enc n v).
Proof.
  revert v. induction n; intros; simpl; constructor; auto.
  unfold is_byte. apply Z.mod_pos_bound. lia.
Qed.

Lemma le_dec_range bs : Forall is_byte bs -> 0 <= le_dec bs < 256 ^ zlen bs.
Proof.
  induction 1 as [|b r Hb Hr IH]; [done|]. cbn [le_dec].
  rewrite zlen_cons, Z.pow_add_r by (unfold zlen; lia).
  unfold is_byte in Hb. lia.
Qed.

Lemma ldn_Some m p n bs :
  ldn m p n = Some bs <->
  0 <= p /\ 0 <= n /\ p + n <= zlen m /\ bs = take (Z.to_nat n) (drop (Z.to_nat p) m).
Proof.
  unfold ldn. case_if E; split; [intros [= <-]; auto|intros (?&?&?&->); done|done|lia].
Qed.

Lemma stn_Some m p bs m' :
  stn m p bs = Some m' <->
  0 <= p /\ p + zlen bs <= zlen m /\
  m' = take (Z.to_nat p) m ++ bs ++ drop (Z.to_nat p + length bs) m.
Proof.
  unfold stn. case_if E; split; [intros [= <-]; auto|intros (?&?&->); done|done|lia].
Qed.

Lemma ldn_zlen m p n bs : ldn m p n = Some bs -> zlen bs = n.
Proof.
  rewrite ldn_Some. intros (?&?&?&->). unfold zlen in *.
  rewrite length_take, length_drop. lia.
Qed.

Lemma ldn_bytes m p n bs : Forall is_byte m -> ldn m p n = Some bs -> Forall is_byte bs.
Proof. rewrite ldn_Some. intros Hm (?&?&?&->). by apply Forall_take, Forall_drop. Qed.

Lemma stn_zlen m p bs m' : stn m p bs = Some m' -> zlen m' = zlen m.
Proof.
  rewrite stn_Some. intros (?&?&->). unfold zlen in *.
  rewrite !length_app, length_take, length_drop. lia.
Qed.

Lemma stn_is_Some m p bs :
  0 <= p -> p + zlen bs <= zlen m -> exists m', stn m p bs = Some m'.
Proof. intros. eexists. apply stn_Some. eauto. Qed.

Lemma ldn_is_Some m p n :
  0 <= p -> 0 <= n -> p + n <= zlen m -> exists bs, ldn m p n = Some bs.
Proof. intros. eexists. apply ldn_Some. eauto. Qed.

(** The load/store algebra. *)
Lemma ldn_stn_same m p bs m' :
  stn m p bs = Some m' -> ldn m' p (zlen bs) = Some bs.
Proof.
  intros H. pose proof (stn_zlen _ _ _ _ H) as HL.
  apply stn_Some in H as (?&?&->). apply ldn_Some.
  pose proof (zlen_nonneg bs). split_and!; [lia..|].
  rewrite drop_app_length' by (rewrite length_take; unfold zlen in *; lia).
  rewrite take_app_length'; [done|]. unfold zlen. lia.
Qed.

Lemma ldn_stn_disjoint m p bs m' q n :
  stn m p bs = Some m' -> q + n <= p \/ p + zlen bs <= q ->
  ldn m' q n = ldn m q n.
Proof.
  intros H Hd. pose proof (stn_zlen _ _ _ _ H) as HL.
  apply stn_Some in H as (Hp&Hb&->).
  unfold ldn. rewrite HL. case_if E; [|done]. f_equal.
  unfold zlen in *. apply list_eq. intros i.
  destruct (decide (i < Z.to_nat n)%nat);
    [|rewrite !lookup_take_ge by lia; done].
  rewrite !lookup_take_lt, !lookup_drop by lia.
  destruct Hd.
  - rewrite lookup_app_l by (rewrite length_take; lia).
    by rewrite lookup_take_lt by lia.
  - rewrite lookup_app_r by (rewrite length_take; lia).
    rewrite lookup_app_r by (rewrite length_take; lia).
    rewrite lookup_drop, length_take. f_equal. lia.
Qed.

Lemma ldn_realloc junk m n p k :
  0 <= n -> p + k <= Z.min n (zlen m) -> ldn (realloc junk m n) p k = ldn m p k.
Proof.
  intros Hn Hk. unfold ldn, realloc, zlen in *.
  rewrite length_app, length_take, length_replicate.
  case_if E; [|case_if E2; [lia|done]].
  if_lia. f_equal.
  apply list_eq. intros i.
  destruct (decide (i < Z.to_nat k)%nat);
    [|rewrite !lookup_take_ge by lia; done].
  rewrite !lookup_take_lt, !lookup_drop by lia.
  rewrite lookup_app_l by (rewrite length_take; lia).
  by rewrite lookup_take_lt by lia.
Qed.

Lemma zlen_realloc junk m n : 0 <= n -> zlen (realloc junk m n) = n.
Proof.
  intros. unfold realloc, zlen.
  rewrite length_app, length_take, length_replicate. lia.
Qed.

(** Splitting one load into two adjacent ones. *)
Lemma ldn_app m p a b x :
  0 <= a -> 0 <= b ->
  ldn m p (a + b) = Some x ->
  ldn m p a = Some (take (Z.to_nat a) x) /\ ldn m (p + a) b = Some (drop (Z.to_nat a) x).
Proof.
  intros Ha Hb H. apply ldn_Some in H as (?&?&?&->).
  split; apply ldn_Some; split_and!; try lia.
  - rewrite take_take. f_equal. lia.
  - rewrite skipn_firstn_comm, drop_drop. f_equal; [lia|f_equal; lia].
Qed.

Lemma ldn_ldn m p n bs o k :
  ldn m p n = Some bs -> 0 <= o -> 0 <= k -> o + k <= n ->
  ldn bs o k = ldn m (p + o) k.
Proof.
  intros H Ho Hk Hn. pose proof (ldn_zlen _ _ _ _ H) as HL.
  apply ldn_Some in H as (?&?&?&->). unfold ldn at 1. rewrite HL. if_lia.
  symmetry. apply ldn_Some. split_and!; try lia.
  rewrite skipn_firstn_comm, take_take, drop_drop.
  f_equal; [lia|f_equal; lia].
Qed.

Lemma ldn_stn_sub m p bs m' o k :
  stn m p bs = Some m' -> 0 <= o -> 0 <= k -> o + k <= zlen bs ->
  ldn m' (p + o) k = ldn bs o k.
Proof.
  intros H Ho Hk Hn. symmetry. eapply ldn_ldn; eauto. by eapply ldn_stn_same.
Qed.

Lemma memmove_is_Some m dst src n :
  0 <= n -> 0 <= dst -> 0 <= src -> dst + n <= zlen m -> src + n <= zlen m ->
  exists m', memmove m dst src n = Some m'.
Proof.
  intros. unfold memmove. destruct (ldn_is_Some m src n) as [bs Hb]; [lia..|].
  rewrite Hb. simpl. apply stn_is_Some; [lia|].
  rewrite (ldn_zlen _ _ _ _ Hb). lia.
Qed.

Lemma memmove_zlen m dst src n m' :
  memmove m dst src n = Some m' -> zlen m' = zlen m.
Proof. unfold memmove. intros H. inv_bind. by eapply stn_zlen. Qed.

Lemma ldn_memmove_in m dst src n m' o k :
  memmove m dst src n = Some m' -> 0 <= o -> 0 <= k -> o + k <= n ->
  ldn m' (dst + o) k = ldn m (src + o) k.
Proof.
  unfold memmove. intros H ???. inv_bind.
  rewrite <- (ldn_ldn _ _ _ _ _ _ E) by lia.
  eapply ldn_stn_sub; eauto. rewrite (ldn_zlen _ _ _ _ E). lia.
Qed.

Lemma ldn_memmove_out m dst src n m' q k :
  memmove m dst src n = Some m' -> q + k <= dst \/ dst + n <= q ->
  ldn m' q k = ldn m q k.
Proof.
  unfold memmove. intros H ?. inv_bind.
  eapply ldn_stn_disjoint; eauto. rewrite (ldn_zlen _ _ _ _ E). lia.
Qed.

#[global] Hint Resolve zlen_nonneg : redis.

(** ** Joining loads, and single bytes *)

Lemma ldn_join m p a b x y :
  ldn m p a = Some x -> ldn m (p + a) b = Some y -> ldn m p (a + b) = Some (x ++ y).
Proof.
  intros (?&?&?&->)%ldn_Some (?&?&?&->)%ldn_Some. apply ldn_Some.
  split_and!; try lia.
  replace (Z.to_nat (p + a)) with (Z.to_nat p + Z.to_nat a)%nat by lia.
  rewrite <- drop_drop, take_take_drop. f_equal. lia.
Qed.

Lemma ld8_ldn m p b : ld8 m p = Some b <-> ldn m p 1 = Some [b].
Proof.
  unfold ld8, ldn. case_if E; case_if E2; try lia.
  - assert (m !! Z.to_nat p = drop (Z.to_nat p) m !! 0%nat) as ->
      by (rewrite lookup_drop; f_equal; lia).
    destruct (drop (Z.to_nat p) m) as [|x r]; simpl; [split; [done|intros [=]]|].
    change (Z.to_nat 1) with 1%nat. simpl. split; by intros [= ->].
  - rewrite lookup_ge_None_2 by (unfold zlen in *; lia). split; done.
  - split; done.
Qed.

Lemma ldn_cons m p n b bs :
  ld8 m p = Some b -> ldn m (p + 1) n = Some bs -> ldn m p (1 + n) = Some (b :: bs).
Proof. rewrite ld8_ldn. intros. change (b :: bs) with ([b] ++ bs). by apply ldn_join. Qed.

Lemma st8_is_Some m p v : 0 <= p < zlen m -> exists m', st8 m p v = Some m'.
Proof. intros. apply stn_is_Some; [lia|]. rewrite zlen_cons, zlen_nil. lia. Qed.

Lemma st8_zlen m p v m' : st8 m p v = Some m' -> zlen m' = zlen m.
Proof. apply stn_zlen. Qed.

Lemma ld8_st8_same m p v m' : st8 m p v = Some m' -> ld8 m' p = Some v.
Proof. intros H. apply ld8_ldn. apply (ldn_stn_same _ _ _ _ H). Qed.

Lemma ldn_st8_out m p v m' q n :
  st8 m p v = Some m' -> q + n <= p \/ p < q -> ldn m' q n = ldn m q n.
Proof. intros H ?. eapply ldn_stn_disjoint; [exact H|]. rewrite zlen_cons, zlen_nil. lia. Qed.

Lemma ld8_st8_out m p v m' q : st8 m p v = Some m' -> q <> p -> ld8 m' q = ld8 m q.
Proof.
  intros H Hq. destruct (ld8 m q) as [b|] eqn:Eb.
  - apply ld8_ldn. rewrite (ldn_st8_out _ _ _ _ _ _ H) by lia. by apply ld8_ldn.
  - destruct (ld8 m' q) as [b|] eqn:Eb'; [|done]. apply ld8_ldn in Eb'.
    rewrite (ldn_st8_out _ _ _ _ _ _ H) in Eb' by lia. apply ld8_ldn in Eb'. congruence.
Qed.

Lemma ld8_is_Some m p : 0 <= p < zlen m -> exists b, ld8 m p = Some b.
Proof.
  intros. unfold ld8. if_lia. apply lookup_lt_is_Some_2. unfold zlen in *. lia.
Qed.

(** ** Bits of machine words *)

Lemma testbit_wrap w x i : 0 <= i < w -> Z.testbit (wrap w x) i = Z.testbit x i.
Proof. intros. unfold wrap. apply Z.mod_pow2_bits_low. lia. Qed.

Lemma testbit_high w x i : 0 <= x < 2 ^ w -> w <= i -> Z.testbit x i = false.
Proof.
  intros Hx Hi. destruct (decide (x = 0)) as [->|]; [apply Z.bits_0|].
  apply Z.bits_above_log2; [lia|]. apply Z.log2_lt_pow2; [lia|].
  assert (2 ^ w <= 2 ^ i); [|lia].
  destruct (decide (w < 0)); [rewrite Z.pow_neg_r in Hx by lia; lia|]. apply Z.pow_le_mono_r; lia.
Qed.

(** Two words with the same bits are equal. *)
Lemma bits_eq w x y :
  0 <= x < 2 ^ w -> 0 <= y < 2 ^ w ->
  (forall i, 0 <= i < w -> Z.testbit x i = Z.testbit y i) -> x = y.
Proof.
  intros Hx Hy H. apply Z.bits_inj'. intros i Hi.
  destruct (decide (i < w)); [apply H; lia|]. rewrite (testbit_high w x), (testbit_high w y); auto; lia.
Qed.

Lemma lor_range w x y : 0 <= w -> 0 <= x < 2 ^ w -> 0 <= y < 2 ^ w -> 0 <= Z.lor x y < 2 ^ w.
Proof.
  intros Hw Hx Hy. assert (0 <= Z.lor x y) by (apply Z.lor_nonneg; lia). split; [done|].
  destruct (decide (Z.lor x y = 0)) as [->|]; [lia|].
  apply Z.log2_lt_pow2; [lia|]. rewrite Z.log2_lor by lia.
  destruct (decide (x = 0)) as [->|], (decide (y = 0)) as [->|]; [done|..].
  - change (Z.log2 0) with 0. pose proof (Z.log2_nonneg y). rewrite Z.max_r by lia. apply Z.log2_lt_pow2; lia.
  - change (Z.log2 0) with 0. pose proof (Z.log2_nonneg x). rewrite Z.max_l by lia. apply Z.log2_lt_pow2; lia.
  - apply Z.max_lub_lt; apply Z.log2_lt_pow2; lia.
Qed.

Lemma land_range w x y : 0 <= y < 2 ^ w -> 0 <= Z.land x y < 2 ^ w.
Proof.
  intros Hy. assert (0 <= Z.land x y) by (apply Z.land_nonneg; lia). split; [done|].
  destruct (decide (Z.land x y = 0)) as [->|]; [lia|].
  destruct (decide (y = 0)) as [->|]; [by rewrite Z.land_0_r in *|].
  destruct (decide (2 ^ w <= Z.land x y)) as [Hge|]; [|lia]. exfalso.
  destruct (decide (w < 0)); [rewrite Z.pow_neg_r in Hy by lia; lia|].
  assert (Hl : w <= Z.log2 (Z.land x y)) by (apply Z.log2_le_pow2; lia).
  pose proof (Z.bit_log2 (Z.land x y) ltac:(lia)) as Hb.
  rewrite Z.land_spec, (testbit_high w y) in Hb by lia. by rewrite andb_false_r in Hb.
Qed.

Lemma shiftl_lor_add a b k n :
  0 <= k -> 0 <= a < 2 ^ k -> 0 <= b -> n = k -> Z.lor a (Z.shiftl b n) = a + b * 2 ^ k.
Proof.
  intros Hk Ha Hb ->. rewrite <- Z.shiftl_mul_pow2 by lia.
  assert (Hd : Z.land a (Z.shiftl b k) = 0).
  { apply Z.bits_inj'. intros i Hi. rewrite Z.land_spec, Z.bits_0.
    destruct (decide (i < k)).
    - rewrite (Z.shiftl_spec_low b) by lia. apply andb_false_r.
    - rewrite (testbit_high k a) by lia. done. }
  rewrite Z.add_nocarry_lxor, Z.lxor_lor by done. done.
Qed.

Lemma lor_ones x k : 0 <= k -> Z.lor x (Z.ones k) = x / 2 ^ k * 2 ^ k + (2 ^ k - 1).
Proof.
  intros Hk. rewrite <- Z.shiftl_mul_pow2, <- Z.shiftr_div_pow2 by done.
  replace (2 ^ k - 1) with (Z.ones k) by (rewrite Z.ones_equiv; lia).
  assert (Hd : Z.land (Z.shiftl (Z.shiftr x k) k) (Z.ones k) = 0).
  { apply Z.bits_inj'. intros i Hi. rewrite Z.land_spec, Z.bits_0, Z.testbit_ones_nonneg by lia.
    destruct (i <? k) eqn:E; [|apply andb_false_r]. bool_hyps.
    rewrite Z.shiftl_spec_low by lia. done. }
  rewrite Z.add_nocarry_lxor, Z.lxor_lor by done.
  apply Z.bits_inj'. intros i Hi. rewrite !Z.lor_spec, Z.testbit_ones_nonneg by lia.
  destruct (i <? k) eqn:E; bool_hyps; [by rewrite !orb_true_r|].
  rewrite Z.shiftl_spec, Z.shiftr_spec by lia. do 2 f_equal. lia.
Qed.

(** ** Buffers as concatenations *)

Lemma ldn_at A B C : ldn (A ++ B ++ C) (zlen A) (zlen B) = Some B.
Proof.
  apply ldn_Some. rewrite !zlen_app. pose proof (zlen_nonneg C). split_and!; auto with redis; [lia|].
  unfold zlen. rewrite !Nat2Z.id, drop_app_length, take_app_length. done.
Qed.

Lemma ldn_at' m A B C p n :
  m = A ++ B ++ C -> p = zlen A -> n = zlen B -> ldn m p n = Some B.
Proof. intros -> -> ->. apply ldn_at. Qed.

Lemma ld8_at m A b C p : m = A ++ b :: C -> p = zlen A -> ld8 m p = Some b.
Proof. intros -> ->. apply ld8_ldn. by apply (ldn_at' _ A [b] C). Qed.

Lemma stn_at m A B C B' p :
  m = A ++ B ++ C -> p = zlen A -> zlen B' = zlen B -> stn m p B' = Some (A ++ B' ++ C).
Proof.
  intros -> -> HL. apply stn_Some. rewrite !zlen_app. pose proof (zlen_nonneg C).
  pose proof (zlen_nonneg A). split_and!; [lia..|]. unfold zlen in *.
  rewrite Nat2Z.id, take_app_length. do 2 f_equal.
  rewrite drop_app_ge by lia. replace (length A + length B' - length A)%nat with (length B) by lia.
  by rewrite drop_app_length.
Qed.

Lemma ldn_split m p n bs :
  ldn m p n = Some bs -> exists A C, m = A ++ bs ++ C /\ zlen A = p /\ zlen bs = n.
Proof.
  intros H. pose proof (ldn_zlen _ _ _ _ H). apply ldn_Some in H as (?&?&?&E).
  exists (take (Z.to_nat p) m), (drop (Z.to_nat n) (drop (Z.to_nat p) m)).
  split_and!; [by rewrite E, !take_drop| |done]. unfold zlen in *. rewrite length_take. lia.
Qed.

Lemma split_at {A} (m : list A) p : 0 <= p <= zlen m -> exists a b, m = a ++ b /\ zlen a = p.
Proof.
  intros. exists (take (Z.to_nat p) m), (drop (Z.to_nat p) m). rewrite take_drop. split; [done|].
  unfold zlen in *. rewrite length_take. lia.
Qed.

Lemma stn_stn m p x y m1 :
  stn m p x = Some m1 -> stn m1 (p + zlen x) y = stn m p (x ++ y).
Proof.
  intros H. pose proof (stn_zlen _ _ _ _ H). apply stn_Some in H as (?&?&E).
  unfold stn. rewrite H0, zlen_app. pose proof (zlen_nonneg x).
  case_if E1; case_if E2; try lia; [|done]. f_equal. subst m1. unfold zlen in *.
  replace (Z.to_nat (p + Z.of_nat (length x))) with (Z.to_nat p + length x)%nat by lia.
  rewrite take_app_ge, drop_app_ge by (rewrite length_take; lia).
  rewrite length_take, take_app_length', drop_app_ge by lia.
  rewrite drop_drop, length_app, <- !(assoc (++)). do 4 f_equal. lia.
Qed.

(** Moving [T] inside a block, over a gap or over what precedes it. *)
Lemma memmove_at m A R T S p q n :
  m = A ++ R ++ T ++ S -> q = zlen A + zlen R -> n = zlen T ->
  zlen A <= p <= zlen A + zlen R + zlen S ->
  exists X S', memmove m p q n = Some (A ++ X ++ T ++ S') /\
    zlen X = p - zlen A /\ zlen S' = zlen A + zlen R + zlen S - p.
Proof.
  intros -> -> -> Hp. unfold memmove.
  rewrite (ldn_at' _ (A ++ R) T S) by (rewrite ?zlen_app, <- ?(assoc (++)); done). bnd.
  destruct (split_at (R ++ T ++ S) (p - zlen A)) as (X & r & E & HX).
  { rewrite !zlen_app. pose proof (zlen_nonneg R). pose proof (zlen_nonneg T). lia. }
  assert (HL : zlen (R ++ T ++ S) = zlen (X ++ r)) by by rewrite E. rewrite !zlen_app in HL.
  destruct (split_at r (zlen T)) as (u & v & -> & Hu).
  { pose proof (zlen_nonneg T). lia. }
  rewrite zlen_app in HL. exists X, v. rewrite E. split_and!; [|lia..].
  rewrite (stn_at _ (A ++ X) u v) by (rewrite ?zlen_app, <- ?(assoc (++)); lia || done).
  by rewrite <- !(assoc (++)).
Qed.

Lemma realloc_at junk A S n :
  zlen A <= n -> exists S', realloc junk (A ++ S) n = A ++ S' /\ zlen S' = n - zlen A.
Proof.
  intros. pose proof (zlen_realloc junk (A ++ S) n) as HL. pose proof (zlen_nonneg A).
  unfold realloc in *. unfold zlen in *.
  exists (take (Z.to_nat n - length A) S ++ replicate (Z.to_nat n - length (A ++ S)) junk).
  rewrite take_app_ge, <- (assoc (++)) in * by lia. split; [done|].
  rewrite length_app in HL. lia.
Qed.
