(* ===== verification/Intset.v ===== *)
(** * Integer sets (src/redis-stable/src/intset.c)

    A set of signed integers stored as a sorted array of 16, 32 or 64 bit
    little endian cells, all of the width [encoding] says; adding a value that
    does not fit rewrites the array with wider cells.  [intset_rep] is the
    well-formedness of the record and its bytes, with the sorted list they
    hold, and [intset_repr] the finite set it stands for; the theorems relate
    every operation to the set. *)
From stdpp Require Import base list gmap sorting.
From S2P Require Import Prelude.

Module Intset.

(** ** Data *)

(** [typedef struct intset]: the two header words and the contents bytes. *)
Record intset := mkIntset {
  encoding : Z;            (* uint32_t *)
  length : Z;              (* uint32_t *)
  contents : list Z        (* int8_t contents[] *)
}.

Definition INTSET_ENC_INT16 : Z := 2.
Definition INTSET_ENC_INT32 : Z := 4.
Definition INTSET_ENC_INT64 : Z := 8.

(** [sizeof(intset)]: the two [uint32_t] header words. *)
Definition sizeof_intset : Z := 8.

(** ** Operations *)

Definition _intsetValueEncoding (v : Z) : Z :=
  if (v <? INT32_MIN) || (INT32_MAX <? v) then INTSET_ENC_INT64
  else if (v <? INT16_MIN) || (INT16_MAX <? v) then INTSET_ENC_INT32
  else INTSET_ENC_INT16.

Definition _intsetGetEncoded (s : intset) (pos enc : Z) : option Z :=
  if enc =? INTSET_ENC_INT64 then
    bs ← ldn (contents s) (8 * pos) 8; Some (s64 (le_dec bs))
  else if enc =? INTSET_ENC_INT32 then
    bs ← ldn (contents s) (4 * pos) 4; Some (s32 (le_dec bs))
  else
    bs ← ldn (contents s) (2 * pos) 2; Some (s16 (le_dec bs)).

Definition _intsetGet (s : intset) (pos : Z) : option Z :=
  _intsetGetEncoded s pos (encoding s).

Definition with_contents (s : intset) (c : list Z) : intset :=
  mkIntset (encoding s) (length s) c.

Definition _intsetSet (s : intset) (pos value : Z) : option intset :=
  let enc := encoding s in
  if enc =? INTSET_ENC_INT64 then
    c ← stn (contents s) (8 * pos) (le_enc 8 value); Some (with_contents s c)
  else if enc =? INTSET_ENC_INT32 then
    c ← stn (contents s) (4 * pos) (le_enc 4 value); Some (with_contents s c)
  else
    c ← stn (contents s) (2 * pos) (le_enc 2 value); Some (with_contents s c).

Definition intsetNew : intset := mkIntset INTSET_ENC_INT16 0 [].

Section Alloc.
(** The byte that fills memory obtained from the allocator. *)
Context (junk : Z).

(** [None] is the failed assertion on the size. *)
Definition intsetResize (s : intset) (len : Z) : option intset :=
  let size := u64 (len * encoding s) in
  if size <=? UINT64_MAX - sizeof_intset
  then Some (with_contents s (realloc junk (contents s) size))
  else None.

(** The loop of [intsetSearch], from the current [min], [max], [mid] and
    [cur]; it returns their values after the loop. *)
Fixpoint intsetSearch_loop (fuel : nat) (s : intset) (value min max mid cur : Z)
    : option (Z * Z * Z) :=
  match fuel with
  | O => None
  | S fuel' =>
      if min <=? max then
        let mid := s32 (Z.shiftr (u32 (u32 min + u32 max)) 1) in
        cur ← _intsetGet s mid;
        if cur <? value then intsetSearch_loop fuel' s value (mid + 1) max mid cur
        else if value <? cur then intsetSearch_loop fuel' s value min (mid - 1) mid cur
        else Some (min, mid, cur)
      else Some (min, mid, cur)
  end.

(** Returns the flag and the value stored through [pos]. *)
Definition intsetSearch (s : intset) (value : Z) : option (Z * Z) :=
  let max := s32 (u32 (length s - 1)) in
  if length s =? 0 then Some (0, 0)
  else
    last ← _intsetGet s max;
    if last <? value then Some (0, length s)
    else
      first ← _intsetGet s 0;
      if value <? first then Some (0, 0)
      else
        '(min, mid, cur) ← intsetSearch_loop (S (Z.to_nat (length s))) s value 0 max (-1) (-1);
        if value =? cur then Some (1, u32 mid) else Some (0, u32 min).

(** [while(length--)]: the iterations left are the value of [length]. *)
Fixpoint intsetUpgrade_loop (length : nat) (s : intset) (curenc prepend : Z)
    : option intset :=
  match length with
  | O => Some s
  | S length' =>
      v ← _intsetGetEncoded s (Z.of_nat length') curenc;
      s ← _intsetSet s (Z.of_nat length' + prepend) v;
      intsetUpgrade_loop length' s curenc prepend
  end.

Definition intsetUpgradeAndAdd (s : intset) (value : Z) : option intset :=
  let curenc := u8 (encoding s) in
  let newenc := _intsetValueEncoding value in
  let length := s32 (Intset.length s) in
  let prepend := if value <? 0 then 1 else 0 in
  let s := mkIntset newenc (Intset.length s) (contents s) in
  s ← intsetResize s (u32 (Intset.length s + 1));
  s ← intsetUpgrade_loop (Z.to_nat length) s curenc prepend;
  s ← (if prepend =? 0 then _intsetSet s (s32 (Intset.length s)) value
        else _intsetSet s 0 value);
  Some (mkIntset (encoding s) (u32 (Intset.length s + 1)) (contents s)).

(** The number of bytes [intsetMoveTail] moves, a [uint32_t]. *)
Definition intsetMoveTail_bytes (s : intset) (from : Z) : Z :=
  let bytes := u32 (length s - from) in
  if encoding s =? INTSET_ENC_INT64 then u32 (bytes * 8)
  else if encoding s =? INTSET_ENC_INT32 then u32 (bytes * 4)
  else u32 (bytes * 2).

Definition intsetMoveTail (s : intset) (from to : Z) : option intset :=
  let bytes := intsetMoveTail_bytes s from in
  let '(src, dst) :=
    if encoding s =? INTSET_ENC_INT64 then (8 * from, 8 * to)
    else if encoding s =? INTSET_ENC_INT32 then (4 * from, 4 * to)
    else (2 * from, 2 * to) in
  c ← memmove (contents s) dst src bytes;
  Some (with_contents s c).

(** Returns the set and [*success]. *)
Definition intsetAdd (s : intset) (value : Z) : option (intset * Z) :=
  let valenc := _intsetValueEncoding value in
  if encoding s <? valenc then
    s ← intsetUpgradeAndAdd s value; Some (s, 1)
  else
    '(found, pos) ← intsetSearch s value;
    if negb (found =? 0) then Some (s, 0)
    else
      s ← intsetResize s (u32 (length s + 1));
      s ← (if pos <? length s then intsetMoveTail s pos (u32 (pos + 1)) else Some s);
      s ← _intsetSet s (s32 pos) value;
      Some (mkIntset (encoding s) (u32 (length s + 1)) (contents s), 1).

Definition intsetRemove (s : intset) (value : Z) : option (intset * Z) :=
  let valenc := _intsetValueEncoding value in
  if valenc <=? encoding s then
    '(found, pos) ← intsetSearch s value;
    if negb (found =? 0) then
      let len := length s in
      s ← (if pos <? u32 (len - 1) then intsetMoveTail s (u32 (pos + 1)) pos else Some s);
      s ← intsetResize s (u32 (len - 1));
      Some (mkIntset (encoding s) (u32 (len - 1)) (contents s), 1)
    else Some (s, 0)
  else Some (s, 0).

Definition intsetFind (s : intset) (value : Z) : option Z :=
  let valenc := _intsetValueEncoding value in
  if valenc <=? encoding s then
    '(found, _) ← intsetSearch s value; Some (b2z (negb (found =? 0)))
  else Some 0.

(** [rnd] is the value of [rand()]; [None] is the failed [assert(len)]. *)
Definition intsetRandom (rnd : Z) (s : intset) : option Z :=
  let len := length s in
  if len =? 0 then None else _intsetGet s (s32 (u32 rnd mod len)).

(** The flag with the value stored through [value] when it is written. *)
Definition intsetGet (s : intset) (pos : Z) : option (Z * option Z) :=
  if pos <? length s then
    v ← _intsetGet s (s32 pos); Some (1, Some v)
  else Some (0, None).

Definition intsetLen (s : intset) : Z := length s.

Definition intsetBlobLen (s : intset) : Z :=
  u64 (sizeof_intset + u64 (length s * encoding s)).

(** The cast of a byte pointer to [intset *]: the header words are read
    from the first eight bytes, the contents are the rest. *)
Definition intset_of_blob (p : list Z) : option intset :=
  e ← ldn p 0 4; n ← ldn p 4 4;
  Some (mkIntset (le_dec e) (le_dec n) (drop 8 p)).

Fixpoint intsetValidate_loop (todo : nat) (i : Z) (s : intset) (prev : Z) : option Z :=
  match todo with
  | O => Some 1
  | S todo' =>
      cur ← _intsetGet s (s32 i);
      if cur <=? prev then Some 0 else intsetValidate_loop todo' (i + 1) s cur
  end.

Definition intsetValidateIntegrity (p : list Z) (size : Z) (deep : bool) : option Z :=
  if size <? sizeof_intset then Some 0
  else
    s ← intset_of_blob p;
    let encoding := encoding s in
    let record_size :=
      if encoding =? INTSET_ENC_INT64 then Some INTSET_ENC_INT64
      else if encoding =? INTSET_ENC_INT32 then Some INTSET_ENC_INT32
      else if encoding =? INTSET_ENC_INT16 then Some INTSET_ENC_INT16
      else None in
    match record_size with
    | None => Some 0
    | Some record_size =>
        let count := length s in
        if negb (u64 (sizeof_intset + u64 (count * record_size)) =? size) then Some 0
        else if count =? 0 then Some 0
        else if negb deep then Some 1
        else
          prev ← _intsetGet s 0;
          intsetValidate_loop (Z.to_nat (count - 1)) 1 s prev
    end.

End Alloc.

(** ** Representation *)

(** [cells e c o l]: from position [o] on, the buffer [c] seen as an array
    of [e]-byte integers holds the list [l]. *)
Definition cells (e : Z) (c : list Z) (o : Z) (l : list Z) : Prop :=
  forall i v, l !! i = Some v ->
    ldn c (e * (o + Z.of_nat i)) e = Some (le_enc (Z.to_nat e) v).

(** [intset_rep s l]: the contents of [s] are the cells of the strictly
    increasing list [l], every value fits the current encoding, and the
    number of cells fits the [int] positions the code computes with. *)
Record intset_rep (s : intset) (l : list Z) : Prop := {
  rep_enc : encoding s = 2 \/ encoding s = 4 \/ encoding s = 8;
  rep_len : length s = zlen l;
  rep_bound : zlen l < 2 ^ 31;
  rep_size : zlen (contents s) = encoding s * zlen l;
  rep_cells : cells (encoding s) (contents s) 0 l;
  rep_range : Forall (in_s (8 * encoding s)) l;
  rep_sorted : StronglySorted Z.lt l
}.

(** The abstract value: the finite set of the elements. *)
Definition intset_repr (s : intset) (X : gset Z) : Prop :=
  exists l, intset_rep s l /\ X = list_to_set l.

Definition enc_ok (e : Z) : Prop := e = 2 \/ e = 4 \/ e = 8.

(** *** Cells *)

Lemma le_dec_signed e v :
  enc_ok e -> in_s (8 * e) v ->
  swrap (8 * e) (le_dec (le_enc (Z.to_nat e) v)) = v.
Proof.
  intros He Hv. rewrite le_dec_enc, Z2Nat.id by (unfold enc_ok in *; lia).
  replace (256 ^ e) with (2 ^ (8 * e))
    by (rewrite Z.pow_mul_r by (unfold enc_ok in *; lia); done).
  fold (wrap (8 * e) v). unfold enc_ok in *. rewrite swrap_wrap by lia.
  apply swrap_small; [lia|done].
Qed.

Lemma getEncoded_eq s pos e :
  enc_ok e ->
  _intsetGetEncoded s pos e =
    (bs ← ldn (contents s) (e * pos) e; Some (swrap (8 * e) (le_dec bs))).
Proof. intros [->|[->| ->]]; reflexivity. Qed.

Lemma intsetSet_eq s pos v :
  enc_ok (encoding s) ->
  _intsetSet s pos v =
    (c ← stn (contents s) (encoding s * pos) (le_enc (Z.to_nat (encoding s)) v);
     Some (with_contents s c)).
Proof. unfold _intsetSet. intros [->|[->| ->]]; reflexivity. Qed.

Lemma moveTail_eq s from to :
  enc_ok (encoding s) -> 0 <= from <= length s -> length s < 2 ^ 29 ->
  intsetMoveTail s from to =
    (c ← memmove (contents s) (encoding s * to) (encoding s * from)
                 (encoding s * (length s - from));
     Some (with_contents s c)).
Proof.
  intros He Hf Hl. unfold intsetMoveTail, intsetMoveTail_bytes.
  destruct He as [-> |[-> | ->]]; simpl; rewrite !wrap_small;
    rewrite ?wrap_small; try lia; do 2 f_equal; lia.
Qed.

(** *** Search *)

Lemma rep_get s l i v :
  intset_rep s l -> l !! i = Some v -> _intsetGet s (Z.of_nat i) = Some v.
Proof.
  intros Hr Hi. unfold _intsetGet. rewrite getEncoded_eq by apply Hr.
  rewrite <- (Z.add_0_l (Z.of_nat i)), (rep_cells _ _ Hr i v Hi). simpl. f_equal.
  apply le_dec_signed; [apply Hr|].
  eapply Forall_lookup_1; [apply (rep_range _ _ Hr)|done].
Qed.

Lemma rep_get_Z s l p :
  intset_rep s l -> 0 <= p < zlen l ->
  exists v, l !! Z.to_nat p = Some v /\ _intsetGet s p = Some v.
Proof.
  intros Hr Hp. destruct (lookup_lt_is_Some_2 l (Z.to_nat p)) as [v Hv];
    [unfold zlen in *; lia|].
  exists v. split; [done|]. erewrite <- (Z2Nat.id p) by lia. by eapply rep_get.
Qed.

Lemma sorted_lookup_lt (l : list Z) i j x y :
  StronglySorted Z.lt l -> l !! i = Some x -> l !! j = Some y -> (i < j)%nat -> x < y.
Proof.
  intros Hs Hi Hj Hij. revert i j Hi Hj Hij.
  induction Hs as [|a l Hs IH Ha]; intros i j Hi Hj Hij; [done|].
  destruct j as [|j]; [lia|]. destruct i as [|i]; simpl in *.
  - simplify_eq. eapply Forall_lookup_1 in Ha; eauto.
  - apply (IH i j); auto with lia.
Qed.

(** [at_pos l v p]: position [p] splits [l] around the value [v]. *)
Definition at_pos (l : list Z) (v p : Z) : Prop :=
  0 <= p <= zlen l /\
  (forall i x, l !! i = Some x -> Z.of_nat i < p -> x < v) /\
  (forall i x, l !! i = Some x -> p <= Z.of_nat i -> v <= x).

Lemma mid_eq min max :
  0 <= min <= max -> max < 2 ^ 31 ->
  s32 (Z.shiftr (u32 (u32 min + u32 max)) 1) = (min + max) / 2.
Proof.
  intros. rewrite !wrap_small; rewrite ?wrap_small; try lia.
  rewrite Z.shiftr_div_pow2 by lia. change (2 ^ 1) with 2.
  apply swrap_small; [lia|]. unfold in_s. simpl. dlia.
Qed.

Lemma search_loop_spec s l v fuel min max mid cur :
  intset_rep s l ->
  0 <= min -> max < zlen l -> min <= max + 1 ->
  (Z.to_nat (max + 1 - min) < fuel)%nat ->
  (forall i x, l !! i = Some x -> Z.of_nat i < min -> x < v) ->
  (forall i x, l !! i = Some x -> max < Z.of_nat i -> v < x) ->
  (cur <> v \/ min <= max) ->
  exists min' mid' cur',
    intsetSearch_loop fuel s v min max mid cur = Some (min', mid', cur') /\
    ((cur' = v /\ 0 <= mid' < zlen l /\ l !! Z.to_nat mid' = Some v) \/
     (cur' <> v /\ 0 <= min' <= zlen l /\
      (forall i x, l !! i = Some x -> Z.of_nat i < min' -> x < v) /\
      (forall i x, l !! i = Some x -> min' <= Z.of_nat i -> v < x))).
Proof.
  intros Hr. pose proof (rep_bound _ _ Hr). pose proof (rep_sorted _ _ Hr) as Hs.
  revert min max mid cur.
  induction fuel as [|fuel IH]; intros min max mid cur Hmin Hmax Hmm Hf Hlo Hhi Hc;
    [lia|]. simpl. case_if Emm.
  - rewrite mid_eq by lia. set (m := (min + max) / 2).
    assert (min <= m <= max) by (subst m; dlia).
    destruct (rep_get_Z s l m) as (x & Hx & Hg); [done|lia|].
    rewrite Hg. simpl. case_if E1; [|case_if E2].
    + apply IH; try lia.
      * intros i y Hy Hi. destruct (decide (i = Z.to_nat m)) as [->|]; [simplify_eq; lia|].
        assert (y < x) by (eapply (sorted_lookup_lt l i (Z.to_nat m)); eauto; lia). lia.
      * intros i y Hy Hi. eapply Hhi; eauto.
    + apply IH; try lia; [intros; eapply Hlo; eauto|].
      intros i y Hy Hi. destruct (decide (i = Z.to_nat m)) as [->|]; [simplify_eq; lia|].
      assert (x < y) by (eapply (sorted_lookup_lt l (Z.to_nat m) i); eauto; lia). lia.
    + assert (x = v) by lia. subst. do 3 eexists; split; [done|]. left. repeat split; auto; lia.
  - do 3 eexists; split; [done|]. right.
    repeat split; try lia; [intros; eapply Hlo; eauto|].
    intros i x Hx Hi. eapply Hhi; eauto. lia.
Qed.

Lemma sorted_le_last (l : list Z) y i x :
  StronglySorted Z.lt l -> l !! Z.to_nat (zlen l - 1) = Some y -> l !! i = Some x -> x <= y.
Proof.
  intros Hs Hy Hi. pose proof (lookup_lt_Some _ _ _ Hi).
  destruct (decide (i = Z.to_nat (zlen l - 1))) as [->|]; [simplify_eq; lia|].
  assert (x < y); [|lia]. eapply (sorted_lookup_lt l i); eauto. unfold zlen in *; lia.
Qed.

Lemma sorted_first_le (l : list Z) z i x :
  StronglySorted Z.lt l -> l !! 0%nat = Some z -> l !! i = Some x -> z <= x.
Proof.
  intros Hs Hz Hi. destruct i; [simplify_eq; lia|].
  assert (z < x); [|lia]. eapply (sorted_lookup_lt l 0); eauto. lia.
Qed.

(** A strict split around an absent value. *)
Lemma at_pos_absent l v p :
  0 <= p <= zlen l ->
  (forall i x, l !! i = Some x -> Z.of_nat i < p -> x < v) ->
  (forall i x, l !! i = Some x -> p <= Z.of_nat i -> v < x) ->
  bool_decide (v ∈ l) = false /\ at_pos l v p.
Proof.
  intros Hp Hlo Hhi. split.
  - apply bool_decide_eq_false_2. intros (i & Hi)%list_elem_of_lookup.
    destruct (decide (Z.of_nat i < p)); [specialize (Hlo i v Hi)|specialize (Hhi i v Hi)]; lia.
  - split; [lia|]. split; [done|]. intros i x Hi Hc. specialize (Hhi i x Hi). lia.
Qed.

Lemma at_pos_present l v p :
  StronglySorted Z.lt l -> 0 <= p < zlen l -> l !! Z.to_nat p = Some v ->
  bool_decide (v ∈ l) = true /\ at_pos l v p.
Proof.
  intros Hs Hp Hv. split; [apply bool_decide_eq_true_2, list_elem_of_lookup; eauto|].
  split; [lia|]. split; intros i x Hi Hc.
  - eapply (sorted_lookup_lt l i (Z.to_nat p)); eauto. lia.
  - destruct (decide (i = Z.to_nat p)) as [->|]; [simplify_eq; lia|].
    assert (v < x); [|lia]. eapply (sorted_lookup_lt l (Z.to_nat p)); eauto. lia.
Qed.

Lemma search_spec s l v :
  intset_rep s l ->
  exists pos, intsetSearch s v = Some (b2z (bool_decide (v ∈ l)), pos) /\
    at_pos l v pos.
Proof.
  intros Hr. pose proof (rep_bound _ _ Hr). pose proof (rep_sorted _ _ Hr) as Hs.
  pose proof (rep_len _ _ Hr) as Hl. pose proof (zlen_nonneg l).
  assert (Hin : forall i x, l !! i = Some x -> Z.of_nat i < zlen l)
    by (intros i x Hi; pose proof (lookup_lt_Some _ _ _ Hi); unfold zlen; lia).
  unfold intsetSearch. rewrite Hl. case_if E0.
  { destruct (at_pos_absent l v 0) as [-> ?]; [lia|intros i x Hi..|eauto];
      specialize (Hin i x Hi); lia. }
  rewrite (wrap_small 32), swrap_small by (unfold in_s; lia).
  destruct (rep_get_Z s l (zlen l - 1)) as (y & Hy & ->); [done|lia|]. bnd.
  case_if E1.
  { destruct (at_pos_absent l v (zlen l)) as [-> ?]; [lia|intros i x Hi..|eauto].
    - pose proof (sorted_le_last l y i x Hs Hy Hi). lia.
    - specialize (Hin i x Hi); lia. }
  destruct (rep_get_Z s l 0) as (z & Hz & ->); [done|lia|]. bnd.
  case_if E2.
  { destruct (at_pos_absent l v 0) as [-> ?]; [lia|intros i x Hi..|eauto].
    - lia.
    - pose proof (sorted_first_le l z i x Hs Hz Hi). lia. }
  edestruct (search_loop_spec s l v (S (Z.to_nat (zlen l))) 0 (zlen l - 1) (-1) (-1))
    as (mn & md & cu & -> & Hres); try done; try lia.
  { intros i x Hi. specialize (Hin i x Hi). lia. }
  bnd. destruct Hres as [(-> & Hm & Hv)|(Hne & Hm & Hlo & Hhi)].
  - rewrite Z.eqb_refl, wrap_small by lia.
    destruct (at_pos_present l v md) as [-> ?]; eauto.
  - case_if E3; [lia|]. rewrite wrap_small by lia.
    destruct (at_pos_absent l v mn) as [-> ?]; eauto.
Qed.

(** *** Insertion *)

Definition list_ins (l : list Z) (p : nat) (v : Z) : list Z := take p l ++ v :: drop p l.

Lemma lookup_list_ins l p v i x :
  (p <= List.length l)%nat -> list_ins l p v !! i = Some x ->
  ((i < p)%nat /\ l !! i = Some x) \/ (i = p /\ x = v) \/ ((p < i)%nat /\ l !! (i - 1)%nat = Some x).
Proof.
  intros Hp. unfold list_ins. destruct (decide (i < p)%nat).
  - rewrite lookup_app_l, lookup_take_lt by (rewrite ?length_take; lia). auto.
  - rewrite lookup_app_r, length_take, Nat.min_l by (rewrite ?length_take; lia).
    destruct (i - p)%nat as [|k] eqn:Ek; simpl.
    + intros [= ->]. right; left. split; [lia|done].
    + rewrite lookup_drop. intros Hx. right; right. split; [lia|].
      rewrite <- Hx. f_equal. lia.
Qed.

Lemma zlen_list_ins l p v : zlen (list_ins l p v) = zlen l + 1.
Proof.
  unfold list_ins, zlen. rewrite length_app, length_take. simpl.
  rewrite length_drop. lia.
Qed.

Lemma elem_of_list_ins l p v x : x ∈ list_ins l p v <-> x = v \/ x ∈ l.
Proof.
  unfold list_ins. rewrite elem_of_app, elem_of_cons.
  rewrite <- (take_drop p l) at 3. rewrite elem_of_app. tauto.
Qed.

Lemma sorted_intro (l : list Z) :
  (forall i j x y, l !! i = Some x -> l !! j = Some y -> (i < j)%nat -> x < y) ->
  StronglySorted Z.lt l.
Proof.
  induction l as [|a l IH]; intros H; constructor.
  - apply IH. intros i j x y Hi Hj Hij. apply (H (S i) (S j) x y Hi Hj). lia.
  - apply Forall_lookup. intros i x Hi. apply (H 0%nat (S i) a x); [done|done|lia].
Qed.

Lemma sorted_list_ins l v p :
  StronglySorted Z.lt l -> at_pos l v p -> v ∉ l ->
  StronglySorted Z.lt (list_ins l (Z.to_nat p) v).
Proof.
  intros Hs (Hp & Hlo & Hhi) Hv. apply sorted_intro. intros i j x y Hi Hj Hij.
  assert (Hne : forall k, l !! k <> Some v)
    by (intros k Hk; apply Hv, list_elem_of_lookup; eauto).
  apply lookup_list_ins in Hi; [|unfold zlen in *; lia].
  apply lookup_list_ins in Hj; [|unfold zlen in *; lia].
  destruct Hi as [[? Hi]|[[? ->]|[? Hi]]], Hj as [[? Hj]|[[? ->]|[? Hj]]]; try lia.
  - by apply (sorted_lookup_lt l i j).
  - apply (Hlo i); [done|lia].
  - apply (sorted_lookup_lt l i (j - 1)); auto; lia.
  - assert (y <> v) by (intros ->; by eapply Hne).
    specialize (Hhi _ _ Hj ltac:(lia)). lia.
  - apply (sorted_lookup_lt l (i - 1) (j - 1)); auto; lia.
Qed.

(** *** Arrays of cells *)

Lemma cells_app e c o l k :
  cells e c o (l ++ k) <-> cells e c o l /\ cells e c (o + zlen l) k.
Proof.
  unfold cells. split.
  - intros H. split; intros i v Hi.
    + apply H. by apply lookup_app_l_Some.
    + replace (o + zlen l + Z.of_nat i) with (o + Z.of_nat (List.length l + i)) by (unfold zlen; lia).
      apply H. rewrite lookup_app_r by lia. rewrite <- Hi. f_equal. lia.
  - intros [H1 H2] i v [Hi|[Hl Hi]]%lookup_app_Some; [auto|].
    replace (o + Z.of_nat i) with (o + zlen l + Z.of_nat (i - List.length l)) by (unfold zlen; lia).
    auto.
Qed.

Lemma cells_one e c o v : cells e c o [v] <-> ldn c (e * o) e = Some (le_enc (Z.to_nat e) v).
Proof.
  unfold cells. split; intros H.
  - specialize (H 0%nat v eq_refl). by rewrite Z.add_0_r in H.
  - intros i x [-> [= ->]]%list_lookup_singleton_Some. by rewrite Z.add_0_r.
Qed.

(** A store, a move or a reallocation keeps the cells it does not touch. *)
Lemma cells_frame e c c' o l :
  0 < e -> cells e c o l ->
  (forall q, e * o <= q -> q + e <= e * (o + zlen l) -> ldn c' q e = ldn c q e) ->
  cells e c' o l.
Proof.
  intros He H Hf i v Hi. pose proof (lookup_lt_Some _ _ _ Hi). rewrite <- (H i v Hi).
  apply Hf; unfold zlen; nia.
Qed.

Lemma cells_memmove e c c' dst src n l :
  0 < e -> memmove c (e * dst) (e * src) (e * n) = Some c' -> zlen l <= n ->
  cells e c src l -> cells e c' dst l.
Proof.
  intros He Hm Hn H i v Hi. pose proof (lookup_lt_Some _ _ _ Hi).
  rewrite <- (H i v Hi), !Z.mul_add_distr_l.
  eapply ldn_memmove_in; [done|nia|lia|unfold zlen in *; nia].
Qed.

Lemma set_spec s pos v :
  enc_ok (encoding s) -> 0 <= pos -> encoding s * (pos + 1) <= zlen (contents s) ->
  exists c, _intsetSet s pos v = Some (with_contents s c) /\
    zlen c = zlen (contents s) /\ cells (encoding s) c pos [v] /\
    (forall q n, q + n <= encoding s * pos \/ encoding s * (pos + 1) <= q ->
       ldn c q n = ldn (contents s) q n).
Proof.
  intros He Hp Hc. assert (2 <= encoding s) by (unfold enc_ok in *; lia).
  assert (Hle : zlen (le_enc (Z.to_nat (encoding s)) v) = encoding s) by (rewrite zlen_le_enc; lia).
  rewrite intsetSet_eq by done.
  destruct (stn_is_Some (contents s) (encoding s * pos) (le_enc (Z.to_nat (encoding s)) v))
    as [c Hst]; [nia|lia|].
  rewrite Hst. exists c. split; [done|]. split; [by eapply stn_zlen|]. split.
  - apply cells_one. rewrite <- Hle at 2. by eapply ldn_stn_same.
  - intros q n Hq. eapply ldn_stn_disjoint; [done|]. lia.
Qed.

(** The representation after [v] was written at its place. *)
Lemma rep_insert s l v p e c :
  intset_rep s l -> enc_ok e -> Forall (in_s (8 * e)) l -> in_s (8 * e) v ->
  at_pos l v p -> v ∉ l -> zlen l + 1 < 2 ^ 31 ->
  zlen c = e * (zlen l + 1) ->
  cells e c 0 (take (Z.to_nat p) l) -> cells e c p [v] ->
  cells e c (p + 1) (drop (Z.to_nat p) l) ->
  intset_rep (mkIntset e (zlen l + 1) c) (list_ins l (Z.to_nat p) v).
Proof.
  intros Hr He Hall Hv Hp Hnv Hb Hc Hlo Hmid Hhi.
  assert (Hz : zlen (take (Z.to_nat p) l) = p)
    by (destruct Hp as [? _]; unfold zlen in *; rewrite length_take; lia).
  split; simpl; rewrite ?zlen_list_ins; auto.
  - apply cells_app. rewrite Hz. split; [done|].
    change (v :: ?k) with ([v] ++ k). apply cells_app. split; [done|].
    replace (0 + p + zlen [v]) with (p + 1); [done|]. unfold zlen; simpl. lia.
  - unfold list_ins. apply Forall_app. split; [by apply Forall_take|].
    constructor; [done|by apply Forall_drop].
  - apply sorted_list_ins; [apply Hr|done|done].
Qed.

Lemma resize_eq junk s n :
  enc_ok (encoding s) -> 0 <= n < 2 ^ 32 ->
  intsetResize junk s n = Some (with_contents s (realloc junk (contents s) (encoding s * n))).
Proof.
  intros He Hn. unfold intsetResize, UINT64_MAX, sizeof_intset, enc_ok in *.
  assert (0 <= n * encoding s < 2 ^ 36) by nia.
  rewrite wrap_small by lia. if_lia. do 3 f_equal. lia.
Qed.

Lemma ValueEncoding_ok v :
  in_s 64 v -> enc_ok (_intsetValueEncoding v) /\ in_s (8 * _intsetValueEncoding v) v.
Proof.
  unfold in_s, _intsetValueEncoding, enc_ok, INT32_MIN, INT32_MAX, INT16_MIN, INT16_MAX,
    INTSET_ENC_INT64, INTSET_ENC_INT32, INTSET_ENC_INT16.
  intros Hv. repeat case_if E; split; simpl in *; lia.
Qed.

Lemma in_s_weaken e e' v : 0 < e <= e' -> in_s (8 * e) v -> in_s (8 * e') v.
Proof.
  unfold in_s. intros He Hv.
  assert (2 ^ (8 * e - 1) <= 2 ^ (8 * e' - 1)) by (apply Z.pow_le_mono_r; lia). lia.
Qed.

Lemma resize_spec junk s l n :
  enc_ok (encoding s) -> 0 <= n < 2 ^ 32 ->
  cells (encoding s) (contents s) 0 l -> zlen l <= n ->
  encoding s * zlen l <= zlen (contents s) ->
  exists c, intsetResize junk s n = Some (with_contents s c) /\
    zlen c = encoding s * n /\ cells (encoding s) c 0 l.
Proof.
  intros He Hn Hc Hl Hsz. assert (2 <= encoding s) by (unfold enc_ok in *; lia).
  rewrite resize_eq by done. eexists; split; [done|].
  split; [apply zlen_realloc; nia|].
  eapply cells_frame; [lia|done|]. intros q Hq1 Hq2.
  apply ldn_realloc; [nia|]. pose proof (zlen_nonneg l). nia.
Qed.

(** Opening a gap at [pos]. *)
Lemma gap_spec s l pos :
  enc_ok (encoding s) -> 0 <= pos <= zlen l -> length s = zlen l -> zlen l < 2 ^ 29 ->
  zlen (contents s) = encoding s * (zlen l + 1) -> cells (encoding s) (contents s) 0 l ->
  exists c,
    (if pos <? length s then intsetMoveTail s pos (u32 (pos + 1)) else Some s)
      = Some (with_contents s c) /\
    zlen c = zlen (contents s) /\
    cells (encoding s) c 0 (take (Z.to_nat pos) l) /\
    cells (encoding s) c (pos + 1) (drop (Z.to_nat pos) l).
Proof.
  intros He Hp Hl Hb Hsz Hc. assert (2 <= encoding s) by (unfold enc_ok in *; lia).
  rewrite <- (take_drop (Z.to_nat pos) l) in Hc. apply cells_app in Hc as [Hc1 Hc2].
  assert (Hz : zlen (take (Z.to_nat pos) l) = pos)
    by (unfold zlen in *; rewrite length_take; lia).
  assert (Hz2 : zlen (drop (Z.to_nat pos) l) = zlen l - pos)
    by (unfold zlen in *; rewrite length_drop; lia).
  rewrite Hz, Z.add_0_l in Hc2. case_if E.
  - rewrite moveTail_eq, wrap_small by (done || lia).
    destruct (memmove_is_Some (contents s) (encoding s * (pos + 1)) (encoding s * pos)
      (encoding s * (length s - pos))) as [c Hm]; [nia..|].
    rewrite Hm. exists c. split; [done|]. split; [by eapply memmove_zlen|]. split.
    + eapply cells_frame; [lia|done|]. intros q Hq1 Hq2.
      eapply ldn_memmove_out; [done|]. nia.
    + eapply cells_memmove; [lia|done|lia|done].
  - exists (contents s). destruct s. split; [done|]. split; [done|]. split; [done|].
    intros i v Hi%lookup_lt_Some. cbn in *. unfold zlen in *. lia.
Qed.

(** In-place insertion at the position found by the search. *)
Lemma add_here_spec junk s l v pos :
  intset_rep s l -> in_s 64 v -> _intsetValueEncoding v <= encoding s ->
  at_pos l v pos -> v ∉ l -> zlen l < 2 ^ 29 ->
  exists s',
    (s ← intsetResize junk s (u32 (length s + 1));
     s ← (if pos <? length s then intsetMoveTail s pos (u32 (pos + 1)) else Some s);
     s ← _intsetSet s (s32 pos) v;
     Some (mkIntset (encoding s) (u32 (length s + 1)) (contents s), 1)) = Some (s', 1) /\
    intset_rep s' (list_ins l (Z.to_nat pos) v).
Proof.
  intros Hr Hv He Hp Hnv Hb. assert (Henc : enc_ok (encoding s)) by apply Hr.
  pose proof (rep_len _ _ Hr) as Hl. pose proof (zlen_nonneg l). pose proof (rep_size _ _ Hr) as Hsz.
  destruct (ValueEncoding_ok v Hv) as [Hve Hvr].
  assert (He0 : 2 <= encoding s <= 8) by (unfold enc_ok in *; lia).
  assert (Hvs : in_s (8 * encoding s) v) by (eapply in_s_weaken; [|done]; unfold enc_ok in *; lia).
  assert (Hpr : 0 <= pos <= zlen l) by apply Hp.
  rewrite (swrap_small 32 pos), Hl, (wrap_small 32 (zlen l + 1)) by (unfold in_s; lia).
  destruct (resize_spec junk s l (zlen l + 1)) as (c0 & -> & Hz0 & Hc0);
    [done|lia|apply Hr|lia|lia|]. bnd.
  destruct (gap_spec (with_contents s c0) l pos) as (c1 & -> & Hz1 & Hlo & Hhi); try done; [].
  bnd. destruct (set_spec (with_contents (with_contents s c0) c1) pos v) as (c2 & -> & Hz2 & Hmid & Hout);
    [done|lia|cbn in *; nia|].
  bnd. eexists. split; [done|]. cbn in *. rewrite Hl, wrap_small by lia.
  apply (rep_insert s l v pos); auto; try lia; [apply Hr|eapply cells_frame..]; eauto; try lia.
  intros q Hq1 Hq2. apply Hout. left. unfold zlen in *. rewrite length_take in Hq2. nia.
Qed.

(** *** Upgrade *)

(** The back-to-front copy: the first [k] old cells are still readable
    and the others are already in place at the new width. *)
Lemma upgrade_loop_spec l ce pre k s :
  enc_ok ce -> enc_ok (encoding s) -> 2 * ce <= encoding s -> 0 <= pre <= 1 ->
  (k <= List.length l)%nat -> Forall (in_s (8 * ce)) l ->
  zlen (contents s) = encoding s * (zlen l + 1) ->
  cells ce (contents s) 0 (take k l) ->
  cells (encoding s) (contents s) (Z.of_nat k + pre) (drop k l) ->
  exists c, intsetUpgrade_loop k s ce pre = Some (with_contents s c) /\
    zlen c = zlen (contents s) /\ cells (encoding s) c pre l.
Proof.
  intros Hce He Hlt Hpre. assert (2 <= ce) by (unfold enc_ok in *; lia).
  revert s He Hlt. induction k as [|k IH]; intros s He Hlt Hk Hr Hz Hlo Hhi.
  { exists (contents s). destruct s. split; [done|]. split; [done|]. exact Hhi. }
  destruct (lookup_lt_is_Some_2 l k ltac:(lia)) as [v Hv].
  simpl. rewrite getEncoded_eq by done.
  erewrite (take_S_r l k v) in Hlo by done. apply cells_app in Hlo as [Hlo Hone].
  assert (Hzt : zlen (take k l) = Z.of_nat k) by (unfold zlen; rewrite length_take; lia).
  rewrite Hzt, Z.add_0_l in Hone. apply cells_one in Hone. rewrite Hone. bnd.
  rewrite le_dec_signed by (done || by eapply Forall_lookup_1).
  assert (Z.of_nat k < zlen l) by (unfold zlen; lia).
  destruct (set_spec s (Z.of_nat k + pre) v) as (c & -> & Hzc & Hmid & Hout); [done|lia|nia|].
  bnd. destruct (IH (with_contents s c)) as (c' & -> & Hzc' & Hc'); cbn in *; auto; try lia.
  - eapply cells_frame; [lia|done|]. intros q Hq1 Hq2. apply Hout. left. nia.
  - rewrite (drop_S l v k) by done. change (v :: ?k) with ([v] ++ k).
    apply cells_app. split; [done|]. change (zlen [v]) with 1.
    eapply cells_frame; [lia| |].
    + replace (Z.of_nat k + pre + 1) with (Z.of_nat (S k) + pre) by lia. done.
    + intros q Hq1 Hq2. apply Hout. right. nia.
  - exists c'. split; [done|]. split; [congruence|done].
Qed.

(** A value that needs a wider encoding lies outside the current range. *)
Lemma upgrade_at_pos s l v :
  intset_rep s l -> in_s 64 v -> encoding s < _intsetValueEncoding v ->
  (v ∉ l) /\ at_pos l v (if v <? 0 then 0 else zlen l).
Proof.
  intros Hr Hv He. pose proof (rep_range _ _ Hr) as Hrg. pose proof (zlen_nonneg l).
  assert (Hx : forall i x, l !! i = Some x -> if v <? 0 then v < x else x < v).
  { intros i x Hi. eapply Forall_lookup_1 in Hrg; [|done].
    destruct (rep_enc _ _ Hr) as [Ee|[Ee|Ee]]; rewrite Ee in *; revert He Hrg;
      unfold _intsetValueEncoding, in_s, INT32_MIN, INT32_MAX, INT16_MIN, INT16_MAX,
        INTSET_ENC_INT64, INTSET_ENC_INT32, INTSET_ENC_INT16;
      repeat case_if E; simpl; lia. }
  split.
  - intros (i & Hi)%list_elem_of_lookup. specialize (Hx i v Hi). revert Hx. case_if E; lia.
  - split; [case_if E; lia|]. split; intros i x Hi; specialize (Hx i x Hi);
      pose proof (lookup_lt_Some _ _ _ Hi); revert Hx; unfold zlen; case_if E; lia.
Qed.

Lemma upgradeAndAdd_spec junk s l v :
  intset_rep s l -> in_s 64 v -> encoding s < _intsetValueEncoding v -> zlen l + 1 < 2 ^ 31 ->
  exists s', intsetUpgradeAndAdd junk s v = Some s' /\
    intset_rep s' (list_ins l (Z.to_nat (if v <? 0 then 0 else zlen l)) v).
Proof.
  intros Hr Hv He Hb. destruct (upgrade_at_pos _ _ _ Hr Hv He) as [Hnv Hp].
  assert (Henc : enc_ok (encoding s)) by apply Hr. pose proof (zlen_nonneg l).
  destruct (ValueEncoding_ok v Hv) as [Hve Hvr]. pose proof (rep_len _ _ Hr) as Hl.
  unfold intsetUpgradeAndAdd. rewrite Hl. cbn [length].
  set (ne := _intsetValueEncoding v) in *. set (pre := if v <? 0 then 1 else 0).
  assert (0 <= pre <= 1) by (subst pre; case_if E; lia).
  assert (2 * encoding s <= ne /\ 2 <= encoding s /\ ne <= 8) as (Hlt & Hce & Hne)
    by (unfold enc_ok in *; lia).
  rewrite (wrap_small 32 (zlen l + 1)), (wrap_small 8), (swrap_small 32) by (unfold in_s; lia).
  rewrite resize_eq by (done || lia). bnd. unfold with_contents at 1. cbn [encoding contents length].
  set (c0 := realloc _ _ _).
  assert (Hz0 : zlen c0 = ne * (zlen l + 1)) by (apply zlen_realloc; nia).
  assert (Hc0 : cells (encoding s) c0 0 l).
  { eapply cells_frame; [lia|apply Hr|]. intros q Hq1 Hq2. apply ldn_realloc; [nia|].
    rewrite (rep_size _ _ Hr). nia. }
  destruct (upgrade_loop_spec l (encoding s) pre (Z.to_nat (zlen l)) (mkIntset ne (zlen l) c0))
    as (c1 & -> & Hz1 & Hc1); cbn; auto.
  { unfold zlen; lia. } { apply Hr. }
  { by rewrite take_ge by (unfold zlen; lia). }
  { rewrite drop_ge by (unfold zlen; lia). intros ??. by rewrite lookup_nil. }
  bnd. unfold with_contents in *. cbn [length contents encoding] in *.
  rewrite (swrap_small 32) by (unfold in_s; lia).
  set (p := if v <? 0 then 0 else zlen l) in *.
  assert (Hpp : (pre = 0 /\ p = zlen l) \/ (pre = 1 /\ p = 0)) by (subst p pre; case_if E; auto).
  destruct (set_spec (mkIntset ne (zlen l) c1) p v) as (c2 & Hset & Hz2 & Hmid & Hout);
    [done|lia|cbn; nia|]. cbn [length with_contents contents encoding] in *.
  exists (mkIntset ne (zlen l + 1) c2). split.
  { destruct Hpp as [[-> Hp']|[-> Hp']]; rewrite Hp' in Hset; cbn [Z.eqb];
      unfold with_contents; cbn [encoding contents length]; rewrite Hset; bnd; cbn;
      by rewrite wrap_small by lia. }
  apply (rep_insert s l v p); auto; try lia.
  - eapply Forall_impl; [apply Hr|]. intros x. apply in_s_weaken. lia.
  - destruct Hpp as [[Hp0 Hp1]|[_ ->]]; [|intros ??; by rewrite take_0, lookup_nil].
    rewrite take_ge by (unfold zlen in *; lia). rewrite Hp0 in Hc1.
    eapply cells_frame; [lia|done|]. intros q Hq1 Hq2. apply Hout. nia.
  - destruct Hpp as [[Hp0 Hp1]|[Hp0 ->]].
    + rewrite drop_ge by (unfold zlen in *; lia). intros ??. by rewrite lookup_nil.
    + rewrite drop_0, Hp0 in *. eapply cells_frame; [lia|done|].
      intros q Hq1 Hq2. apply Hout. nia.
Qed.

(** *** Removal *)

Lemma sorted_delete (l : list Z) k : StronglySorted Z.lt l -> StronglySorted Z.lt (delete k l).
Proof.
  intros Hs. apply sorted_intro. intros i j x y Hi Hj Hij.
  destruct (decide (i < k)%nat); [rewrite list_lookup_delete_lt in Hi by done|rewrite list_lookup_delete_ge in Hi by lia];
  (destruct (decide (j < k)%nat); [rewrite list_lookup_delete_lt in Hj by done|rewrite list_lookup_delete_ge in Hj by lia]);
  eapply (sorted_lookup_lt l); eauto; lia.
Qed.

Lemma elem_of_sorted_delete (l : list Z) k v x :
  StronglySorted Z.lt l -> l !! k = Some v -> x ∈ delete k l <-> x ∈ l /\ x <> v.
Proof.
  intros Hs Hk. rewrite !list_elem_of_lookup. split.
  - intros [i Hi].
    destruct (decide (i < k)%nat);
      [rewrite list_lookup_delete_lt in Hi by done|rewrite list_lookup_delete_ge in Hi by lia];
      (split; [eauto|]).
    + assert (x < v) by (eapply (sorted_lookup_lt l i k); eauto). lia.
    + assert (v < x) by (eapply (sorted_lookup_lt l k (S i)); eauto; lia). lia.
  - intros [[i Hi] Hne]. destruct (decide (i < k)%nat).
    + exists i. by rewrite list_lookup_delete_lt.
    + destruct (decide (i = k)) as [->|]; [simplify_eq|].
      exists (i - 1)%nat. rewrite list_lookup_delete_ge by lia. rewrite <- Hi. f_equal. lia.
Qed.

Lemma zlen_delete (l : list Z) k v : l !! k = Some v -> zlen (delete k l) = zlen l - 1.
Proof.
  intros Hk. pose proof (lookup_lt_Some _ _ _ Hk). unfold zlen.
  rewrite length_delete by eauto. lia.
Qed.

(** Closing the cell at [pos]. *)
Lemma close_spec s l pos v :
  intset_rep s l -> 0 <= pos -> l !! Z.to_nat pos = Some v -> zlen l < 2 ^ 29 ->
  exists c,
    (if pos <? u32 (length s - 1) then intsetMoveTail s (u32 (pos + 1)) pos else Some s)
      = Some (with_contents s c) /\
    zlen c = zlen (contents s) /\ cells (encoding s) c 0 (delete (Z.to_nat pos) l).
Proof.
  intros Hr Hpos Hv Hb. assert (He : enc_ok (encoding s)) by apply Hr.
  assert (2 <= encoding s) by (unfold enc_ok in *; lia).
  pose proof (rep_len _ _ Hr) as Hl. pose proof (rep_size _ _ Hr) as Hsz.
  assert (pos < zlen l) by (apply lookup_lt_Some in Hv; unfold zlen; lia).
  pose proof (rep_cells _ _ Hr) as Hc. rewrite <- (take_drop_middle _ _ _ Hv) in Hc.
  apply cells_app in Hc as [Hc1 Hc2]. change (v :: ?k) with ([v] ++ k) in Hc2.
  apply cells_app in Hc2 as [_ Hc2]. rewrite delete_take_drop.
  assert (Hz : zlen (take (Z.to_nat pos) l) = pos) by (unfold zlen in *; rewrite length_take; lia).
  assert (Hz2 : zlen (drop (S (Z.to_nat pos)) l) = zlen l - pos - 1)
    by (unfold zlen in *; rewrite length_drop; lia).
  rewrite Hz, Z.add_0_l in Hc2. change (zlen [v]) with 1 in Hc2.
  rewrite !wrap_small by lia. case_if E.
  - rewrite moveTail_eq by (done || lia).
    destruct (memmove_is_Some (contents s) (encoding s * pos) (encoding s * (pos + 1))
      (encoding s * (length s - (pos + 1)))) as [c Hm]; [rewrite ?Hl; nia..|].
    rewrite Hm. exists c. split; [done|]. split; [by eapply memmove_zlen|].
    apply cells_app. rewrite Hz. split.
    + eapply cells_frame; [lia|done|]. intros q Hq1 Hq2. eapply ldn_memmove_out; [done|]. nia.
    + eapply cells_memmove; [lia|done|lia|done].
  - exists (contents s). destruct s. split; [done|]. split; [done|].
    apply cells_app. split; [done|]. intros i x Hi%lookup_lt_Some. cbn in *. unfold zlen in *. lia.
Qed.

Lemma remove_here_spec junk s l pos v :
  intset_rep s l -> 0 <= pos -> l !! Z.to_nat pos = Some v -> zlen l < 2 ^ 29 ->
  exists s',
    (s1 ← (if pos <? u32 (length s - 1) then intsetMoveTail s (u32 (pos + 1)) pos else Some s);
     s2 ← intsetResize junk s1 (u32 (length s - 1));
     Some (mkIntset (encoding s2) (u32 (length s - 1)) (contents s2), 1)) = Some (s', 1) /\
    intset_rep s' (delete (Z.to_nat pos) l).
Proof.
  intros Hr Hpos Hv Hb. destruct (close_spec s l pos v) as (c & -> & Hz & Hc); auto.
  assert (He : enc_ok (encoding s)) by apply Hr. pose proof (rep_len _ _ Hr) as Hl.
  assert (pos < zlen l) by (apply lookup_lt_Some in Hv; unfold zlen; lia).
  bnd. rewrite Hl, wrap_small by lia.
  pose proof (zlen_delete _ _ _ Hv) as Hzd. pose proof (rep_size _ _ Hr) as Hsz.
  destruct (resize_spec junk (with_contents s c) (delete (Z.to_nat pos) l) (zlen l - 1))
    as (c' & -> & Hz' & Hc'); cbn; auto; try lia.
  { unfold enc_ok in *. nia. }
  bnd. eexists. split; [done|]. split; cbn in *; rewrite ?Hzd; auto; try lia.
  - apply Forall_delete, Hr.
  - apply sorted_delete, Hr.
Qed.

Lemma at_pos_elem l v p :
  StronglySorted Z.lt l -> at_pos l v p -> v ∈ l -> l !! Z.to_nat p = Some v.
Proof.
  intros Hs (Hp & Hlo & Hhi) (i & Hi)%list_elem_of_lookup.
  destruct (decide (Z.of_nat i < p)) as [|Hge].
  { specialize (Hlo i v Hi). lia. }
  destruct (decide (i = Z.to_nat p)) as [->|]; [done|].
  pose proof (lookup_lt_Some _ _ _ Hi).
  destruct (lookup_lt_is_Some_2 l (Z.to_nat p)) as [y Hy]; [lia|].
  assert (y < v) by (eapply (sorted_lookup_lt l (Z.to_nat p) i); eauto; lia).
  specialize (Hhi _ _ Hy). lia.
Qed.

(** *** Specifications over the abstract set *)

(** A value wider than the current encoding is not an element. *)
Lemma wide_not_elem s l v :
  intset_rep s l -> in_s 64 v -> encoding s < _intsetValueEncoding v -> v ∉ l.
Proof. intros. by eapply upgrade_at_pos. Qed.

Lemma elem_of_repr l (X : gset Z) v :
  X = list_to_set l -> bool_decide (v ∈ X) = bool_decide (v ∈ l).
Proof. intros ->. apply bool_decide_ext. apply elem_of_list_to_set. Qed.

Lemma list_to_set_ins l p v : list_to_set (list_ins l p v) =@{gset Z} {[v]} ∪ list_to_set l.
Proof.
  apply set_eq. intros x. rewrite elem_of_union, !elem_of_list_to_set, elem_of_list_ins.
  set_solver.
Qed.

Lemma add_rep junk s l v :
  intset_rep s l -> in_s 64 v -> zlen l < 2 ^ 29 ->
  ((v ∈ l) /\ intsetAdd junk s v = Some (s, 0)) \/
  ((v ∉ l) /\ exists s' p, intsetAdd junk s v = Some (s', 1) /\ intset_rep s' (list_ins l p v)).
Proof.
  intros Hr Hv Hb. unfold intsetAdd. case_if E.
  - right. split; [by eapply wide_not_elem|].
    destruct (upgradeAndAdd_spec junk s l v) as (s' & -> & Hs'); auto; [lia|]. bnd. eauto.
  - destruct (search_spec s l v Hr) as (pos & -> & Hp). bnd.
    destruct (decide (v ∈ l)) as [Hin|Hin].
    + rewrite bool_decide_eq_true_2 by done. cbn. auto.
    + rewrite bool_decide_eq_false_2 by done. cbn [b2z Z.eqb negb]. right. split; [done|].
      destruct (add_here_spec junk s l v pos) as (s' & -> & Hs'); eauto.
Qed.

(** *** Serialized form *)

Definition intset_blob (s : intset) : list Z :=
  le_enc 4 (encoding s) ++ le_enc 4 (length s) ++ contents s.

Lemma of_blob s :
  in_u 32 (encoding s) -> in_u 32 (length s) -> intset_of_blob (intset_blob s) = Some s.
Proof.
  unfold in_u. intros He Hl. unfold intset_of_blob, intset_blob.
  pose proof (length_le_enc 4 (encoding s)) as L1. pose proof (length_le_enc 4 (length s)) as L2.
  unfold ldn. rewrite !zlen_app, !zlen_le_enc. pose proof (zlen_nonneg (contents s)).
  do 2 if_lia. bnd. change (Z.to_nat 4) with 4%nat. change (Z.to_nat 0) with 0%nat.
  rewrite drop_0, take_app_length', drop_app_length', take_app_length' by done.
  rewrite app_assoc, drop_app_length' by (rewrite length_app, L1, L2; done).
  rewrite !le_dec_enc, !Z.mod_small by lia. by destruct s.
Qed.

Lemma rep_header s l : intset_rep s l -> in_u 32 (encoding s) /\ in_u 32 (length s).
Proof.
  intros Hr. pose proof (rep_enc _ _ Hr). pose proof (rep_bound _ _ Hr).
  rewrite (rep_len _ _ Hr). pose proof (zlen_nonneg l). unfold in_u. lia.
Qed.

Lemma validate_loop_ok s l n i prev :
  intset_rep s l -> (S i + n)%nat = List.length l -> l !! i = Some prev ->
  intsetValidate_loop n (Z.of_nat (S i)) s prev = Some 1.
Proof.
  intros Hr. pose proof (rep_bound _ _ Hr).
  revert i prev. induction n as [|n IH]; intros i prev Hn Hi; [done|].
  destruct (lookup_lt_is_Some_2 l (S i)) as [cur Hcur]; [lia|].
  cbn [intsetValidate_loop]. rewrite swrap_small by (unfold in_s, zlen in *; lia).
  rewrite (rep_get s l (S i) cur) by done. bnd.
  assert (prev < cur) by (eapply (sorted_lookup_lt l i (S i)); eauto; apply Hr).
  if_lia. replace (Z.of_nat (S i) + 1) with (Z.of_nat (S (S i))) by lia.
  apply IH; [lia|done].
Qed.

(** What the deep check establishes about the cells it reads. *)
Lemma validate_loop_sound s n i prev :
  0 <= i -> i + Z.of_nat n <= 2 ^ 31 ->
  intsetValidate_loop n i s prev = Some 1 ->
  exists l, List.length l = n /\ StronglySorted Z.lt (prev :: l) /\
    forall k v, l !! k = Some v -> _intsetGet s (i + Z.of_nat k) = Some v.
Proof.
  revert i prev. induction n as [|n IH]; intros i prev Hi Hn H.
  - exists []. split; [done|]. split; [repeat constructor|]. intros k v. by rewrite lookup_nil.
  - cbn [intsetValidate_loop] in H. rewrite swrap_small in H by (unfold in_s; lia).
    destruct (_intsetGet s i) as [cur|] eqn:Ec; [|done]. cbn [mbind option_bind] in H.
    destruct (cur <=? prev) eqn:El; [done|]. bool_hyps.
    destruct (IH (i + 1) cur ltac:(lia) ltac:(lia) H) as (l & Hl & Hs & Hg).
    exists (cur :: l). split; [simpl; lia|]. split.
    + constructor; [done|]. apply StronglySorted_inv in Hs as [Hs Hf].
      constructor; [done|]. eapply Forall_impl; [done|]. intros x Hx; simpl in Hx; lia.
    + intros [|k] v Hk; simpl in Hk.
      * simplify_eq. by rewrite Z.add_0_r.
      * replace (i + Z.of_nat (S k)) with (i + 1 + Z.of_nat k) by lia. auto.
Qed.

(** The deep check on a blob with a known encoding. *)
Lemma validate_deep_eq p s :
  intset_of_blob p = Some s -> 8 <= zlen p -> enc_ok (encoding s) -> in_u 32 (length s) ->
  intsetValidateIntegrity p (zlen p) true =
    if negb (8 + encoding s * length s =? zlen p) then Some 0
    else if length s =? 0 then Some 0
    else prev ← _intsetGet s 0;
         intsetValidate_loop (Z.to_nat (length s - 1)) 1 s prev.
Proof.
  unfold in_u. intros Hb Hp He Hl. unfold intsetValidateIntegrity, sizeof_intset.
  if_lia. rewrite Hb. bnd. unfold enc_ok in He.
  destruct He as [E|[E|E]]; rewrite E;
    cbn [Z.eqb Pos.eqb negb INTSET_ENC_INT16 INTSET_ENC_INT32 INTSET_ENC_INT64];
    unfold INTSET_ENC_INT64, INTSET_ENC_INT32, INTSET_ENC_INT16;
    rewrite (wrap_small 64 (length s * _)), (wrap_small 64), Z.mul_comm by lia; done.
Qed.

Lemma validate_enc_ok p s :
  intset_of_blob p = Some s -> intsetValidateIntegrity p (zlen p) true = Some 1 ->
  8 <= zlen p /\ enc_ok (encoding s).
Proof.
  intros Hs H. unfold intsetValidateIntegrity, sizeof_intset in H.
  destruct (zlen p <? 8) eqn:E0; [done|]. bool_hyps. split; [done|].
  rewrite Hs in H. cbn [mbind option_bind] in H. unfold enc_ok.
  unfold INTSET_ENC_INT64, INTSET_ENC_INT32, INTSET_ENC_INT16 in H.
  destruct (encoding s =? 8) eqn:E8; [lia|]. destruct (encoding s =? 4) eqn:E4; [lia|].
  destruct (encoding s =? 2) eqn:E2; [lia|done].
Qed.

Lemma of_blob_inv p s :
  Forall is_byte p -> intset_of_blob p = Some s ->
  in_u 32 (length s) /\ contents s = drop 8 p.
Proof.
  intros Hp H. unfold intset_of_blob in H. inv_bind. cbn. split; [|done].
  pose proof (le_dec_range _ (ldn_bytes _ _ _ _ Hp E0)) as Hd.
  rewrite (ldn_zlen _ _ _ _ E0) in Hd. exact Hd.
Qed.

(** ** Properties *)


(** [intsetAdd] implements insertion into a finite set of 64-bit
    integers: from a well formed intset it always returns (no access
    outside the buffer, no failed assertion), the flag says whether the
    value was absent, and the result represents the set with the value. *)
Lemma intsetAdd_refines (junk : Z) (s : intset) (X : gset Z) (v : Z) :
  intset_repr s X -> in_s 64 v -> length s < 2 ^ 29 ->
  exists s', intsetAdd junk s v = Some (s', b2z (bool_decide (v ∉ X))) /\
    intset_repr s' ({[v]} ∪ X).
Proof.
  intros (l & Hr & HX) Hv Hb. rewrite (rep_len _ _ Hr) in Hb.
  destruct (add_rep junk s l v Hr Hv Hb) as [[Hin ->]|[Hin (s' & p & -> & Hs')]]; subst X.
  - exists s. rewrite bool_decide_eq_false_2 by set_solver. split; [done|].
    exists l. split; [done|]. set_solver.
  - exists s'. rewrite bool_decide_eq_true_2 by set_solver. split; [done|].
    exists (list_ins l p v). split; [done|]. by rewrite list_to_set_ins.
Qed.

(** [intsetRemove] implements removal: it returns whether the value was
    present and the result represents the set without the value. *)
Lemma intsetRemove_refines (junk : Z) (s : intset) (X : gset Z) (v : Z) :
  intset_repr s X -> in_s 64 v -> length s < 2 ^ 29 ->
  exists s', intsetRemove junk s v = Some (s', b2z (bool_decide (v ∈ X))) /\
    intset_repr s' (X ∖ {[v]}).
Proof.
  intros (l & Hr & HX) Hv Hb. rewrite (rep_len _ _ Hr) in Hb.
  rewrite (elem_of_repr l X) by done. unfold intsetRemove. case_if E; cycle 1.
  { assert (v ∉ l) by (apply (wide_not_elem s); auto; lia).
    exists s. rewrite bool_decide_eq_false_2 by done. split; [done|].
    exists l. split; [done|]. set_solver. }
  destruct (search_spec s l v Hr) as (pos & -> & Hp). bnd.
  destruct (decide (v ∈ l)) as [Hin|Hin].
  - rewrite bool_decide_eq_true_2 by done. cbn [b2z Z.eqb negb].
    pose proof (at_pos_elem l v pos (rep_sorted _ _ Hr) Hp Hin) as Hpv.
    destruct (remove_here_spec junk s l pos v) as (s' & -> & Hs'); auto; [apply Hp|].
    exists s'. split; [done|]. exists (delete (Z.to_nat pos) l). split; [done|].
    apply set_eq. intros x. subst X.
    rewrite elem_of_difference, !elem_of_list_to_set, elem_of_singleton.
    rewrite (elem_of_sorted_delete l _ v) by (done || apply Hr). done.
  - rewrite bool_decide_eq_false_2 by done. cbn. exists s. split; [done|].
    exists l. split; [done|]. set_solver.
Qed.

(** [intsetFind] decides membership, without leaving the buffer. *)
Lemma intsetFind_refines (s : intset) (X : gset Z) (v : Z) :
  intset_repr s X -> in_s 64 v -> intsetFind s v = Some (b2z (bool_decide (v ∈ X))).
Proof.
  intros (l & Hr & HX) Hv. rewrite (elem_of_repr l X) by done. unfold intsetFind. case_if E.
  - destruct (search_spec s l v Hr) as (pos & -> & Hp). bnd. by case_bool_decide.
  - rewrite bool_decide_eq_false_2; [done|]. eapply wide_not_elem; eauto; lia.
Qed.

(** C2: the deep integrity check accepts the serialized form of every well
    formed non-empty intset, and whatever blob it accepts decodes to a
    non-empty intset whose cells are strictly increasing and fill the blob
    exactly. *)
Theorem intsetValidateIntegrity_correct :
  (forall s l, intset_rep s l -> l <> [] ->
     intsetValidateIntegrity (intset_blob s) (zlen (intset_blob s)) true = Some 1) /\
  (forall p, Forall is_byte p -> zlen p < 2 ^ 31 ->
     intsetValidateIntegrity p (zlen p) true = Some 1 ->
     exists s l, intset_of_blob p = Some s /\ l <> [] /\ length s = zlen l /\
       enc_ok (encoding s) /\ StronglySorted Z.lt l /\
       zlen (contents s) = encoding s * zlen l /\
       forall i v, l !! i = Some v -> _intsetGet s (Z.of_nat i) = Some v).
Proof.
  split.
  - intros s l Hr Hne. destruct (rep_header s l Hr) as [H1 H2].
    assert (Hz : zlen (intset_blob s) = 8 + zlen (contents s))
      by (unfold intset_blob; rewrite !zlen_app, !zlen_le_enc; lia).
    pose proof (zlen_nonneg (contents s)).
    rewrite (validate_deep_eq _ s (of_blob s H1 H2)) by (done || lia || apply Hr).
    rewrite Hz, (rep_size _ _ Hr), <- (rep_len _ _ Hr), Z.eqb_refl. cbn [negb].
    destruct l as [|x l]; [done|]. rewrite (rep_len _ _ Hr), zlen_cons.
    pose proof (zlen_nonneg l). if_lia.
    change 0 with (Z.of_nat 0) at 1. rewrite (rep_get s (x :: l) 0 x Hr eq_refl). bnd.
    apply (validate_loop_ok s (x :: l) _ 0 x Hr); [unfold zlen; simpl; lia|done].
  - intros p Hb Hp H. destruct (intset_of_blob p) as [s|] eqn:Es; cycle 1.
    { unfold intsetValidateIntegrity in H. rewrite Es in H. by case_match. }
    destruct (validate_enc_ok p s Es H) as [Hp8 He]. destruct (of_blob_inv p s Hb Es) as [Hl Hc].
    rewrite (validate_deep_eq p s) in H by done.
    destruct (8 + encoding s * length s =? zlen p) eqn:E1; [|done].
    destruct (length s =? 0) eqn:E2; [done|]. cbn [negb] in H. inv_bind. bool_hyps.
    unfold in_u in Hl. assert (2 <= encoding s) by (unfold enc_ok in *; lia). assert (length s <= encoding s * length s) by nia.
    destruct (validate_loop_sound s (Z.to_nat (length s - 1)) 1 r ltac:(lia) ltac:(lia) H) as (l & Hll & Hs & Hg).
    exists s, (r :: l). split; [done|]. split; [done|].
    assert (Hzl : length s = zlen (r :: l)) by (rewrite zlen_cons; unfold zlen; lia).
    split; [done|]. split; [done|]. split; [done|]. split.
    + rewrite Hc, <- Hzl. unfold zlen in *. rewrite length_drop. lia.
    + intros [|i] v Hi; simpl in Hi; [by simplify_eq|].
      replace (Z.of_nat (S i)) with (1 + Z.of_nat i) by lia. auto.
Qed.

(** [intsetGet] enumerates the elements in increasing order: position
    [i] holds the [i]-th element for every [i] below the length, and every
    other position is refused. *)
Lemma intsetGet_enumerates (s : intset) (X : gset Z) :
  intset_repr s X ->
  exists l, StronglySorted Z.lt l /\ list_to_set l = X /\ intsetLen s = zlen l /\
    (forall pos, 0 <= pos < zlen l ->
       exists v, l !! Z.to_nat pos = Some v /\ intsetGet s pos = Some (1, Some v)) /\
    (forall pos, zlen l <= pos < 2 ^ 32 -> intsetGet s pos = Some (0, None)).
Proof.
  intros (l & Hr & ->). exists l. pose proof (rep_len _ _ Hr) as Hl. pose proof (rep_bound _ _ Hr).
  split; [apply Hr|]. split; [done|]. split; [done|]. unfold intsetGet. rewrite Hl.
  split; intros pos Hpos; if_lia; [|done].
  rewrite swrap_small by (unfold in_s; lia).
  destruct (rep_get_Z s l pos Hr Hpos) as (v & Hv & ->). exists v. by bnd.
Qed.

(** *** Sets of 2^29 elements and more *)

(** The moved tail, when its size in bytes wraps: [k] cells instead of
    [2^29 + k]. *)
Lemma wrapped_gap s l pos k :
  encoding s = 8 -> length s = zlen l -> 0 <= pos -> 0 <= k < 2 ^ 29 -> zlen l = pos + k + 2 ^ 29 -> zlen l < 2 ^ 31 ->
  zlen (contents s) = 8 * (zlen l + 1) -> cells 8 (contents s) 0 l ->
  exists c, intsetMoveTail s pos (u32 (pos + 1)) = Some (with_contents s c) /\ zlen c = zlen (contents s) /\
    cells 8 c 0 (take (Z.to_nat pos) l) /\ cells 8 c (pos + 1) (take (Z.to_nat k) (drop (Z.to_nat pos) l)) /\
    cells 8 c (pos + k + 1) (drop (Z.to_nat (pos + k + 1)) l) /\
    (forall q n, 8 * (pos + k + 1) <= q -> ldn c q n = ldn (contents s) q n).
Proof.
  intros He Hl Hp Hk Hn Hb Hz Hc. unfold intsetMoveTail, intsetMoveTail_bytes. rewrite He, Hl. cbn [Z.eqb INTSET_ENC_INT64 Pos.eqb].
  rewrite (wrap_small 32 (zlen l - pos)), (wrap_small 32 (pos + 1)) by lia.
  replace (u32 ((zlen l - pos) * 8)) with (8 * k) by (unfold wrap; replace ((zlen l - pos) * 8) with (8 * k + 1 * 2 ^ 32) by lia; rewrite Z.mod_add, Z.mod_small by lia; done).
  destruct (memmove_is_Some (contents s) (8 * (pos + 1)) (8 * pos) (8 * k)) as [c Hm]; [lia..|]. rewrite Hm. bnd. exists c.
  assert (Htake : cells 8 (contents s) 0 (take (Z.to_nat (pos + k + 1)) l)).
  { rewrite <- (take_drop (Z.to_nat (pos + k + 1)) l) in Hc. by apply cells_app in Hc as [Hc _]. }
  assert (Hz1 : zlen (take (Z.to_nat (pos + k + 1)) l) = pos + k + 1) by (unfold zlen in *; rewrite length_take; lia).
  assert (Hz2 : zlen (take (Z.to_nat pos) l) = pos) by (unfold zlen in *; rewrite length_take; lia).
  split; [done|]. split; [by eapply memmove_zlen|]. split_and!.
  - rewrite <- (take_drop (Z.to_nat pos) l) in Hc. apply cells_app in Hc as [Hc _].
    eapply cells_frame; [lia|done|]. intros q Hq1 Hq2. eapply ldn_memmove_out; [done|]. lia.
  - rewrite <- (take_drop (Z.to_nat pos) l) in Hc. apply cells_app in Hc as [_ Hc]. rewrite Hz2 in Hc.
    rewrite <- (take_drop (Z.to_nat k) (drop _ l)) in Hc. apply cells_app in Hc as [Hc _].
    eapply cells_memmove; [lia|done| |exact Hc]. unfold zlen. rewrite length_take. lia.
  - rewrite <- (take_drop (Z.to_nat (pos + k + 1)) l) in Hc. apply cells_app in Hc as [_ Hc]. rewrite Hz1, Z.add_0_l in Hc.
    eapply cells_frame; [lia|done|]. intros q Hq1 Hq2. eapply ldn_memmove_out; [done|]. lia.
  - intros q n Hq. eapply ldn_memmove_out; [done|]. lia.
Qed.

Lemma at_pos_unique l v p q : v ∉ l -> at_pos l v p -> at_pos l v q -> p = q.
Proof.
  assert (forall p q, v ∉ l -> at_pos l v p -> at_pos l v q -> p <= q) as H; [|intros Hv Hp Hq; apply Z.le_antisymm; auto].
  clear p q. intros p q Hv (Hp & Hlo & _) (Hq & _ & Hhi). apply Z.nlt_ge. intros Hlt.
  destruct (lookup_lt_is_Some_2 l (Z.to_nat q)) as [y Hy]; [unfold zlen in *; lia|].
  specialize (Hlo _ _ Hy ltac:(lia)). specialize (Hhi _ _ Hy ltac:(lia)). lia.
Qed.

Lemma cells_get s o l j w :
  encoding s = 8 -> cells 8 (contents s) o l -> Forall (in_s 64) l -> l !! j = Some w -> _intsetGet s (o + Z.of_nat j) = Some w.
Proof.
  intros He Hc Hl Hj. unfold _intsetGet. rewrite He, getEncoded_eq by (unfold enc_ok; auto). rewrite (Hc j w Hj). bnd. f_equal.
  apply le_dec_signed; [unfold enc_ok; auto|]. by eapply Forall_lookup_1 in Hl.
Qed.

(** The cells before the last after such an insertion. *)
Lemma wrapped_cells s l v pos k x :
  encoding s = 8 -> StronglySorted Z.lt l -> Forall (in_s 64) l -> in_s 64 v -> v <> x -> 0 <= pos -> 0 <= k -> pos + k < zlen l -> l !! Z.to_nat (pos + k) = Some x ->
  cells 8 (contents s) 0 (take (Z.to_nat pos) l) -> cells 8 (contents s) pos [v] ->
  cells 8 (contents s) (pos + 1) (take (Z.to_nat k) (drop (Z.to_nat pos) l)) -> cells 8 (contents s) (pos + k + 1) (drop (Z.to_nat (pos + k + 1)) l) ->
  forall i, 0 <= i < zlen l -> exists w, _intsetGet s i = Some w /\ w <> x.
Proof.
  intros He Hs Hl Hv Hvx Hp Hk Hn Hx C1 C2 C3 C4 i Hi.
  assert (Hne : forall j w, l !! j = Some w -> j <> Z.to_nat (pos + k) -> w <> x).
  { intros j w Hj Hjk ->. destruct (decide (j < Z.to_nat (pos + k))%nat); [pose proof (sorted_lookup_lt l _ _ _ _ Hs Hj Hx)|pose proof (sorted_lookup_lt l _ _ _ _ Hs Hx Hj)]; lia. }
  assert (Hsome : forall j, (j < List.length l)%nat -> j <> Z.to_nat (pos + k) -> exists w, l !! j = Some w /\ w <> x).
  { intros j Hj Hjk. destruct (lookup_lt_is_Some_2 l j Hj) as [w Hw]. eauto. }
  assert (Hzl : zlen l = Z.of_nat (List.length l)) by done.
  destruct (decide (i < pos)); [|destruct (decide (i = pos)); [|destruct (decide (i <= pos + k))]].
  - destruct (Hsome (Z.to_nat i)) as (w & Hw & ?); [lia..|]. exists w. split; [|done]. replace i with (0 + Z.of_nat (Z.to_nat i)) by lia.
    eapply cells_get; [done|exact C1|by apply Forall_take|]. rewrite lookup_take_lt by lia. done.
  - exists v. split; [|done]. subst i. rewrite <- (Z.add_0_r pos). apply (cells_get s pos [v] 0); auto.
  - destruct (Hsome (Z.to_nat (i - 1))) as (w & Hw & ?); [lia..|]. exists w. split; [|done]. replace i with (pos + 1 + Z.of_nat (Z.to_nat (i - pos - 1))) by lia.
    eapply cells_get; [done|exact C3|by apply Forall_take, Forall_drop|]. rewrite lookup_take_lt, lookup_drop by lia. rewrite <- Hw. f_equal. lia.
  - destruct (Hsome (Z.to_nat i)) as (w & Hw & ?); [lia..|]. exists w. split; [|done]. replace i with (pos + k + 1 + Z.of_nat (Z.to_nat (i - pos - k - 1))) by lia.
    eapply cells_get; [done|exact C4|by apply Forall_drop|]. rewrite lookup_drop. rewrite <- Hw. f_equal. lia.
Qed.

Lemma realloc_tail junk m k : ldn (realloc junk m (zlen m + Z.of_nat k)) (zlen m) (Z.of_nat k) = Some (replicate k junk).
Proof.
  unfold realloc. rewrite take_ge by (unfold zlen; lia). apply (ldn_at' _ m (replicate k junk) []); [|done|unfold zlen; by rewrite length_replicate].
  rewrite app_nil_r. do 2 f_equal. unfold zlen. lia.
Qed.

(** C3: an insertion in a 64-bit encoded set with 2^29 elements or more at or
    above the place of the new value loses an element, since the number of bytes
    to move is a [uint32_t] that wraps ([t_set.c] lets a set have up to 2^30
    elements).  Only the first [k] cells of the tail are moved, [2^29] too few;
    the call reports success and the length grows, but the element of index
    [pos + k] is overwritten: none of the old cells of the new set has it, and
    the last cell was never written. *)
Theorem intsetAdd_loses_element junk s l v pos k x :
  intset_rep s l -> encoding s = 8 -> in_s 64 v -> v ∉ l -> at_pos l v pos ->
  0 <= k < 2 ^ 29 -> zlen l = pos + k + 2 ^ 29 -> l !! Z.to_nat (pos + k) = Some x ->
  exists s', intsetAdd junk s v = Some (s', 1) /\ intsetLen s' = zlen l + 1 /\ v <> x /\
    (forall i, 0 <= i < zlen l -> exists w, _intsetGet s' i = Some w /\ w <> x) /\
    ldn (contents s') (8 * zlen l) 8 = Some (replicate 8 junk).
Proof.
  intros Hr He Hv Hnv Hp Hk Hn Hx. pose proof (rep_len _ _ Hr) as Hl. pose proof (rep_bound _ _ Hr) as Hb. pose proof (rep_sorted _ _ Hr) as Hs.
  pose proof (rep_range _ _ Hr) as Hrg. rewrite He in Hrg. assert (Hp0 : 0 <= pos) by apply Hp.
  assert (Hvx : v <> x) by (intros ->; apply Hnv; by eapply list_elem_of_lookup_2). assert (Hk31 : pos + k < zlen l) by lia.
  unfold intsetAdd. destruct (ValueEncoding_ok v Hv) as [Hve _]. rewrite He. replace (8 <? _intsetValueEncoding v) with false by (unfold enc_ok in Hve; lia). cbv iota.
  destruct (search_spec s l v Hr) as (p' & -> & Hp'). bnd. rewrite (at_pos_unique l v p' pos Hnv Hp' Hp), bool_decide_eq_false_2 by done. cbn [b2z Z.eqb negb].
  rewrite Hl, (wrap_small 32 (zlen l + 1)), (swrap_small 32 pos) by (unfold in_s; lia). rewrite resize_eq by (rewrite ?He; unfold enc_ok; lia). bnd. rewrite He.
  pose proof (rep_size _ _ Hr) as Hsz. rewrite He in Hsz. set (c0 := realloc junk (contents s) (8 * (zlen l + 1))).
  assert (Hz0 : zlen c0 = 8 * (zlen l + 1)) by (apply zlen_realloc; lia). cbn [length with_contents]. rewrite Hl. replace (pos <? zlen l) with true by lia. cbv iota.
  destruct (wrapped_gap (with_contents s c0) l pos k) as (c1 & -> & Hz1 & C1 & C3 & C4 & Hfr); try done; [cbn|].
  { pose proof (rep_cells _ _ Hr) as Hc. rewrite He in Hc. eapply cells_frame; [lia|exact Hc|]. intros q Hq1 Hq2. apply ldn_realloc; lia. }
  bnd. destruct (set_spec (with_contents (with_contents s c0) c1) pos v) as (c2 & -> & Hz2 & C2 & Hout); [cbn; rewrite He; unfold enc_ok; auto|lia|cbn in *; rewrite He; lia|].
  bnd. cbn [encoding length contents with_contents] in *. rewrite He in *. eexists. split; [done|]. cbn [intsetLen length contents]. split; [rewrite Hl; apply wrap_small; lia|].
  split; [done|]. split.
  - apply (wrapped_cells _ l v pos k x); cbn [encoding contents]; auto; try lia.
    + eapply cells_frame; [lia|exact C1|]. intros q Hq1 Hq2. apply Hout. left. unfold zlen in *. rewrite length_take in Hq2. lia.
    + eapply cells_frame; [lia|exact C3|]. intros q Hq1 Hq2. apply Hout. right. lia.
    + eapply cells_frame; [lia|exact C4|]. intros q Hq1 Hq2. apply Hout. right. lia.
  - rewrite Hout, Hfr by lia. unfold c0. rewrite Z.mul_add_distr_l, Z.mul_1_r, <- Hsz. apply (realloc_tail junk (contents s) 8).
Qed.

(** A set of the integers from [m] on, with 64-bit cells. *)
Definition interval (m n : Z) : intset := mkIntset INTSET_ENC_INT64 n (concat (le_enc 8 <$> seqZ m n)).

Lemma cells_concat l : forall o A, zlen A = 8 * o -> cells 8 (A ++ concat (le_enc 8 <$> l)) o l.
Proof.
  induction l as [|x l IH]; intros o A HA; [done|]. cbn [fmap list_fmap concat]. change (x :: l) with ([x] ++ l). apply cells_app. split.
  - apply cells_one. eapply ldn_at'; [done|lia|by rewrite zlen_le_enc].
  - rewrite app_assoc. apply IH. rewrite zlen_app, zlen_le_enc, HA. change (zlen [x]) with 1. lia.
Qed.

Lemma zlen_seqZ m n : 0 <= n -> zlen (seqZ m n) = n.
Proof. intros Hn. unfold zlen. rewrite length_seqZ. lia. Qed.

Lemma interval_rep m n : 0 <= n < 2 ^ 31 -> - 2 ^ 63 <= m -> m + n <= 2 ^ 63 -> intset_rep (interval m n) (seqZ m n).
Proof.
  intros Hn Hm Hmn. split; cbn [encoding length contents interval].
  - by right; right.
  - rewrite zlen_seqZ; lia.
  - rewrite zlen_seqZ; lia.
  - assert (forall l, zlen (concat (le_enc 8 <$> l)) = 8 * zlen l) as -> by (induction l as [|x l IH]; [done|]; cbn [fmap list_fmap concat]; rewrite zlen_app, zlen_le_enc, zlen_cons, IH; lia).
    done.
  - by apply (cells_concat _ 0 []).
  - apply Forall_forall. intros x Hx%elem_of_seqZ. unfold in_s, INTSET_ENC_INT64. change (8 * 8 - 1) with 63. lia.
  - apply sorted_intro. intros i j x y H1 H2 H3. rewrite ?lookup_seqZ in *. lia.
Qed.

(** The integers from 0 to 2^29 + 4: inserting -1 loses the element 5. *)
Lemma intsetAdd_loses_element_witness :
  exists s', intsetAdd 0 (interval 0 (2 ^ 29 + 5)) (-1) = Some (s', 1) /\ intsetLen s' = zlen (seqZ 0 (2 ^ 29 + 5)) + 1 /\ -1 <> 5 /\
    (forall i, 0 <= i < zlen (seqZ 0 (2 ^ 29 + 5)) -> exists w, _intsetGet s' i = Some w /\ w <> 5) /\
    ldn (contents s') (8 * zlen (seqZ 0 (2 ^ 29 + 5))) 8 = Some (replicate 8 0).
Proof.
  apply (intsetAdd_loses_element 0 (interval 0 (2 ^ 29 + 5)) (seqZ 0 (2 ^ 29 + 5)) (-1) 0 5 5).
  - apply interval_rep; lia.
  - reflexivity.
  - unfold in_s. lia.
  - intros H%elem_of_seqZ. lia.
  - split; [rewrite zlen_seqZ by lia; lia|]. split; [lia|]. intros i x [-> Hi]%lookup_seqZ _. lia.
  - lia.
  - rewrite zlen_seqZ; lia.
  - apply lookup_seqZ. lia.
Defined.

(** *** Sequences of operations *)

Inductive set_op := SAdd (v : Z) | SRemove (v : Z) | SFind (v : Z) | SGet (pos : Z) | SLen.
Inductive set_result := RFlag (b : Z) | RElem (found : Z) (v : option Z).

Definition set_run (junk : Z) (o : set_op) (s : intset) : option (set_result * intset) :=
  match o with
  | SAdd v => '(s, b) ← intsetAdd junk s v; Some (RFlag b, s)
  | SRemove v => '(s, b) ← intsetRemove junk s v; Some (RFlag b, s)
  | SFind v => b ← intsetFind s v; Some (RFlag b, s)
  | SGet pos => '(b, v) ← intsetGet s pos; Some (RElem b v, s)
  | SLen => Some (RFlag (intsetLen s), s)
  end.

Fixpoint set_runs (junk : Z) (os : list set_op) (s : intset) : option (list set_result * intset) :=
  match os with
  | [] => Some ([], s)
  | o :: os => '(r, s) ← set_run junk o s; '(rs, s) ← set_runs junk os s; Some (r :: rs, s)
  end.

(** The same operations on a finite set, whose elements are counted from the smallest. *)
Definition elems (X : gset Z) : list Z := merge_sort Z.le (elements X).

Definition op_spec (o : set_op) (X : gset Z) : set_result * gset Z :=
  match o with
  | SAdd v => (RFlag (b2z (bool_decide (v ∉ X))), {[v]} ∪ X)
  | SRemove v => (RFlag (b2z (bool_decide (v ∈ X))), X ∖ {[v]})
  | SFind v => (RFlag (b2z (bool_decide (v ∈ X))), X)
  | SGet pos => (match elems X !! Z.to_nat pos with Some v => RElem 1 (Some v) | None => RElem 0 None end, X)
  | SLen => (RFlag (Z.of_nat (size X)), X)
  end.

Fixpoint op_specs (os : list set_op) (X : gset Z) : list set_result * gset Z :=
  match os with
  | [] => ([], X)
  | o :: os => let '(r, X) := op_spec o X in let '(rs, X) := op_specs os X in (r :: rs, X)
  end.

(** Values are 64-bit integers and positions 32-bit indexes. *)
Definition set_op_ok (o : set_op) : Prop :=
  match o with SAdd v | SRemove v | SFind v => in_s 64 v | SGet pos => 0 <= pos < 2 ^ 32 | SLen => True end.

Lemma sorted_NoDup (l : list Z) : StronglySorted Z.lt l -> NoDup l.
Proof.
  induction 1 as [|x l Hs IH Hx]; constructor; [|done]. intros Hin. rewrite Forall_forall in Hx. specialize (Hx _ Hin). lia.
Qed.

Lemma elems_sorted (l : list Z) : StronglySorted Z.lt l -> elems (list_to_set l) = l.
Proof.
  intros Hl. unfold elems. apply (StronglySorted_unique Z.le).
  - apply (StronglySorted_merge_sort Z.le).
  - clear -Hl. induction Hl as [|x l Hs IH Hx]; constructor; [done|]. eapply Forall_impl; [exact Hx|]. cbn. lia.
  - rewrite merge_sort_Permutation. apply elements_list_to_set. by apply sorted_NoDup.
Qed.

Lemma repr_sizeof s X : intset_repr s X -> length s = Z.of_nat (size X).
Proof.
  intros (l & Hr & ->). rewrite (rep_len _ _ Hr). unfold size, set_size, zlen. cbn.
  by rewrite elements_list_to_set by apply sorted_NoDup, Hr.
Qed.

Lemma new_rep : intset_rep intsetNew [].
Proof. split; cbn; try done; auto. constructor. Qed.

Lemma set_run_ok junk o s X : intset_repr s X -> Z.of_nat (size X) < 2 ^ 29 -> set_op_ok o ->
  exists s', set_run junk o s = Some ((op_spec o X).1, s') /\ intset_repr s' (op_spec o X).2.
Proof.
  intros Hr Hz Ho. pose proof (repr_sizeof s X Hr) as Hl. destruct o as [v|v|v|pos|]; cbn [set_run op_spec fst snd].
  - destruct (intsetAdd_refines junk s X v Hr Ho ltac:(lia)) as (s' & -> & Hs). bnd. eauto.
  - destruct (intsetRemove_refines junk s X v Hr Ho ltac:(lia)) as (s' & -> & Hs). bnd. eauto.
  - rewrite (intsetFind_refines s X v Hr Ho). bnd. eauto.
  - destruct (intsetGet_enumerates s X Hr) as (l & Hs & <- & _ & H1 & H2). rewrite elems_sorted by done. cbn in Ho.
    destruct (Z.lt_ge_cases pos (zlen l)) as [Hp|Hp].
    + destruct (H1 pos ltac:(lia)) as (v & -> & ->). bnd. eauto.
    + rewrite (H2 pos) by lia. bnd. rewrite lookup_ge_None_2 by (unfold zlen in Hp; lia). eauto.
  - unfold intsetLen. rewrite Hl. eauto.
Qed.

(** The set has fewer than 2^29 elements when each operation starts. *)
Fixpoint sizes_ok (os : list set_op) (X : gset Z) : bool :=
  match os with [] => true | o :: os => (Z.of_nat (size X) <? 2 ^ 29) && sizes_ok os (op_spec o X).2 end.

Lemma set_runs_ok junk os : forall s X, intset_repr s X -> sizes_ok os X = true -> Forall set_op_ok os ->
  exists s', set_runs junk os s = Some ((op_specs os X).1, s') /\ intset_repr s' (op_specs os X).2.
Proof.
  induction os as [|o os IH]; intros s X Hr Hz Hos; [eauto|]. apply Forall_cons in Hos as [Ho Hos]. cbn [sizes_ok] in Hz. apply andb_true_iff in Hz as [Hz Hzs].
  cbn [set_runs op_specs]. destruct (set_run_ok junk o s X Hr ltac:(lia) Ho) as (s1 & -> & Hr1). bnd. destruct (op_spec o X) as [r X1]. cbn [fst snd] in *.
  destruct (IH s1 X1 Hr1 Hzs Hos) as (s2 & -> & Hr2). bnd. destruct (op_specs os X1) as [rs X2]. eauto.
Qed.

(** C1: Up to 2^29 elements, an intset behaves like a finite set of 64-bit
    integers.  From a new intset, every sequence of insertions (in place or with
    an upgrade of the encoding), removals, membership tests and accesses by
    position in which each operation starts with fewer than 2^29 elements
    returns, without leaving the buffer, and gives the results of the same
    operations on a finite set with its elements in increasing order.  From 2^29
    elements on an insertion can lose an element, which is the theorem on intsetAdd above. *)
Theorem intset_simulates (junk : Z) (os : list set_op) : sizes_ok os ∅ = true -> Forall set_op_ok os ->
  exists s, set_runs junk os intsetNew = Some ((op_specs os ∅).1, s) /\ intset_repr s (op_specs os ∅).2.
Proof. intros Hz Hos. apply set_runs_ok; [exists []; split; [apply new_rep|done]|done|done]. Qed.

Definition set_ops_ex : list set_op :=
  [SAdd 7; SAdd (-3); SAdd 1; SAdd 7; SAdd 70000; SFind 7; SFind 8; SGet 0; SGet 3; SGet 4; SRemove 1; SRemove 1;
   SAdd (- 2 ^ 63); SGet 0; SRemove 70000; SGet 2; SLen].

Lemma intset_simulates_witness : exists s, set_runs 0 set_ops_ex intsetNew =
    Some ([RFlag 1; RFlag 1; RFlag 1; RFlag 0; RFlag 1; RFlag 1; RFlag 0; RElem 1 (Some (-3)); RElem 1 (Some 70000); RElem 0 None; RFlag 1; RFlag 0;
           RFlag 1; RElem 1 (Some (- 2 ^ 63)); RFlag 1; RElem 1 (Some 7); RFlag 3], s) /\
  intset_repr s (op_specs set_ops_ex ∅).2.
Proof.
  apply (intset_simulates 0 set_ops_ex); [by vm_compute|]. repeat (constructor; [cbn; unfold in_s; lia || done|]). constructor.
Defined.

End Intset.
