(* ===== verification/Util.v ===== *)
(** * Decimal conversions (src/redis-stable/src/util.c)

    string2ll and string2l, digits10 and sdigits10, ull2string and ll2string,
    over byte buffers.  [decimal] is the relation between a string and the
    integer it represents; the theorems show that the functions compute
    it, with no overflow and no access outside the buffer. *)
From stdpp Require Import base list strings.
From S2P Require Import Prelude.

Module Util.

(** ** Decimal conversions of 64-bit integers (src/redis-stable/src/util.c) *)

Definition LONG_STR_SIZE : Z := 21.
Definition LLONG_MIN : Z := INT64_MIN.
Definition LLONG_MAX : Z := INT64_MAX.
Definition ULLONG_MAX : Z := UINT64_MAX.

(** The recursion of [digits10] divides by 10^12; on a [uint64_t] it is at
    most two levels deep, so three levels of fuel are enough
    ([digits10_spec]). *)
Fixpoint digits10_rec (fuel : nat) (v : Z) : Z :=
  match fuel with
  | O => 0
  | S fuel' =>
      if v <? 10 then 1
      else if v <? 100 then 2
      else if v <? 1000 then 3
      else if v <? 1000000000000 then
        if v <? 100000000 then
          if v <? 1000000 then
            if v <? 10000 then 4 else 5 + b2z (100000 <=? v)
          else 7 + b2z (10000000 <=? v)
        else if v <? 10000000000 then 9 + b2z (1000000000 <=? v)
        else 11 + b2z (100000000000 <=? v)
      else 12 + digits10_rec fuel' (v / 1000000000000)
  end.

Definition digits10 (v : Z) : Z := digits10_rec 3 v.

Definition sdigits10 (v : Z) : Z :=
  if v <? 0 then
    let uv := if negb (v =? LLONG_MIN) then u64 (- v) else u64 (LLONG_MAX + 1) in
    digits10 uv + 1
  else digits10 v.

Definition digits : list Z := Eval vm_compute in bytes_of
  (String.append "0001020304050607080910111213141516171819"
  (String.append "2021222324252627282930313233343536373839"
  (String.append "4041424344454647484950515253545556575859"
  (String.append "6061626364656667686970717273747576777879"
                 "8081828384858687888990919293949596979899"))))%string.

(** The loop of [ull2string] over the pairs of digits; [dst] is the buffer
    and [o] the offset of the pointer into it.  A [uint64_t] has at most
    twenty digits, so ten iterations are enough ([ull2string_loop_spec]). *)
Fixpoint ull2string_loop (fuel : nat) (dst : list Z) (o next value : Z)
    : option (list Z * Z * Z) :=
  match fuel with
  | O => None
  | S fuel' =>
      if 100 <=? value then
        let i := (value mod 100) * 2 in
        let value := value / 100 in
        d1 ← digits !! Z.to_nat (i + 1);
        dst ← st8 dst (o + next) d1;
        d0 ← digits !! Z.to_nat i;
        dst ← st8 dst (o + u32 (next - 1)) d0;
        ull2string_loop fuel' dst o (u32 (next - 2)) value
      else Some (dst, next, value)
  end.

(** Returns the length and the buffer after the call. *)
Definition ull2string (dst : list Z) (o dstlen value : Z) : option (Z * list Z) :=
  let length := digits10 value in
  if dstlen <=? length then Some (0, dst)
  else
    let next := u32 (length - 1) in
    dst ← st8 dst (o + u32 (next + 1)) 0;
    '(dst, next, value) ← ull2string_loop 11 dst o next value;
    if value <? 10 then
      dst ← st8 dst (o + next) (48 + u32 value);
      Some (length, dst)
    else
      let i := u32 value * 2 in
      d1 ← digits !! Z.to_nat (i + 1);
      dst ← st8 dst (o + next) d1;
      d0 ← digits !! Z.to_nat i;
      dst ← st8 dst (o + u32 (next - 1)) d0;
      Some (length, dst).

Definition ll2string (dst : list Z) (dstlen svalue : Z) : option (Z * list Z) :=
  if svalue <? 0 then
    let value := if negb (svalue =? LLONG_MIN) then u64 (- svalue) else u64 (LLONG_MAX + 1) in
    if dstlen <? 2 then Some (0, dst)
    else
      dst ← st8 dst 0 45;
      '(length, dst) ← ull2string dst 1 (dstlen - 1) value;
      if length =? 0 then Some (0, dst) else Some (length + 1, dst)
  else
    '(length, dst) ← ull2string dst 0 dstlen (u64 svalue);
    if length =? 0 then Some (0, dst) else Some (length + 0, dst).

(** The digit loop of [string2ll] from the pointer [p] (the bytes not yet
    read): [None] on overflow, otherwise the value and the bytes left. *)
Fixpoint string2ll_loop (p : list Z) (v : Z) : option (Z * list Z) :=
  match p with
  | [] => Some (v, [])
  | c :: p' =>
      if (48 <=? c) && (c <=? 57) then
        if ULLONG_MAX / 10 <? v then None
        else
          let v := u64 (v * 10) in
          if ULLONG_MAX - (c - 48) <? v then None
          else string2ll_loop p' (u64 (v + (c - 48)))
      else Some (v, p)
  end.

(** [None] is the return value 0; [slen] is the length of the list. *)
Definition string2ll (s : list Z) : option Z :=
  let slen := zlen s in
  if (slen =? 0) || (LONG_STR_SIZE <=? slen) then None
  else if (slen =? 1) && bool_decide (head s = Some 48) then Some 0
  else
    let negative := bool_decide (head s = Some 45) in
    let p := if negative then tail s else s in
    match p with
    | [] => None
    | c :: p =>
        if (49 <=? c) && (c <=? 57) then
          '(v, rest) ← string2ll_loop p (c - 48);
          if negb (zlen rest =? 0) then None
          else if negative then
            if u64 (- (LLONG_MIN + 1)) + 1 <? v then None
            else Some (s64 (u64 (- v)))
          else if LLONG_MAX <? v then None
          else Some v
        else None
    end.

(** [long] is 64 bits wide here, as [long long] is. *)
Definition string2l (s : list Z) : option Z :=
  llval ← string2ll s;
  if (llval <? INT64_MIN) || (INT64_MAX <? llval) then None else Some llval.

(** ** Decimal numerals *)

Definition is_digit (c : Z) : Prop := 48 <= c <= 57.

(** The value of a string of digits. *)
Definition dval (ds : list Z) : Z := foldl (fun a c => 10 * a + (c - 48)) 0 ds.

(** A numeral without leading zeroes. *)
Definition canonical (ds : list Z) : Prop :=
  Forall is_digit ds /\
  (ds = [48] \/ exists c r, ds = c :: r /\ c <> 48).

(** [decimal s v]: [s] is the decimal representation of the integer [v]. *)
Definition decimal (s : list Z) (v : Z) : Prop :=
  (canonical s /\ dval s = v) \/
  (exists ds, s = 45 :: ds /\ canonical ds /\ ds <> [48] /\ dval ds = - v).

Lemma foldl_dval ds a :
  foldl (fun a c => 10 * a + (c - 48)) a ds = a * 10 ^ zlen ds + dval ds.
Proof.
  unfold dval. revert a. induction ds as [|c r IH]; intros a; cbn [foldl].
  - rewrite zlen_nil. simpl. lia.
  - rewrite IH, (IH (10 * 0 + _)), zlen_cons, Z.pow_add_r by (unfold zlen; lia). ring.
Qed.

Lemma dval_app x y : dval (x ++ y) = dval x * 10 ^ zlen y + dval y.
Proof. unfold dval at 1. rewrite foldl_app. apply foldl_dval. Qed.

Lemma dval_cons c r : dval (c :: r) = (c - 48) * 10 ^ zlen r + dval r.
Proof. change (c :: r) with ([c] ++ r). rewrite dval_app. unfold dval at 1. simpl foldl. lia. Qed.

Lemma dval_range ds : Forall is_digit ds -> 0 <= dval ds < 10 ^ zlen ds.
Proof.
  induction 1 as [|c r Hc Hr IH]; [done|].
  rewrite dval_cons, zlen_cons, Z.pow_add_r by (unfold zlen; lia).
  unfold is_digit in Hc. nia.
Qed.

Lemma dval_head_ge c r :
  Forall is_digit (c :: r) -> c <> 48 -> 10 ^ zlen r <= dval (c :: r).
Proof.
  intros [Hc Hr]%Forall_cons Hne. rewrite dval_cons. pose proof (dval_range r Hr).
  unfold is_digit in Hc. nia.
Qed.

Lemma pow10_lt_inv a b : 0 <= b -> 10 ^ a < 10 ^ b -> a < b.
Proof. intros Hb H. apply (Z.pow_lt_mono_r_iff 10); lia. Qed.

(** Numerals of the same length with the same value are equal. *)
Lemma dval_inj x y :
  Forall is_digit x -> Forall is_digit y -> length x = length y -> dval x = dval y -> x = y.
Proof.
  revert y. induction x as [|c x IH]; intros [|d y] Hx Hy Hl Hv; try done.
  apply Forall_cons in Hx as [Hc Hx]. apply Forall_cons in Hy as [Hd Hy].
  injection Hl as Hl. rewrite !dval_cons in Hv.
  pose proof (dval_range x Hx). pose proof (dval_range y Hy).
  assert (Hz : zlen x = zlen y) by (unfold zlen; lia). rewrite Hz in *.
  assert (c = d) by nia. subst. f_equal. apply IH; auto. lia.
Qed.

Lemma canonical_length x y :
  canonical x -> canonical y -> dval x = dval y -> (length x <= length y)%nat.
Proof.
  intros [Hx Cx] [Hy Cy] Hv. pose proof (dval_range y Hy).
  destruct Cx as [->|(c & r & -> & Hc)].
  - destruct Cy as [->|(? & ? & -> & ?)]; simpl; lia.
  - pose proof (dval_head_ge c r Hx Hc).
    assert (zlen r < zlen y); [|unfold zlen in *; simpl; lia].
    apply pow10_lt_inv; [unfold zlen; lia|lia].
Qed.

Lemma canonical_inj x y : canonical x -> canonical y -> dval x = dval y -> x = y.
Proof.
  intros Cx Cy Hv. apply dval_inj; [apply Cx|apply Cy| |done].
  apply Nat.le_antisymm; by apply canonical_length.
Qed.

Lemma canonical_pos ds : canonical ds -> ds <> [48] -> 0 < dval ds.
Proof.
  intros [Hd [->|(c & r & -> & Hc)]] Hn; [done|].
  pose proof (dval_head_ge c r Hd Hc). pose proof (dval_range r (Forall_inv_tail Hd)). lia.
Qed.

Lemma decimal_inj x y v : decimal x v -> decimal y v -> x = y.
Proof.
  intros [[Cx Vx]|(dx & -> & Cx & Nx & Vx)] [[Cy Vy]|(dy & -> & Cy & Ny & Vy)].
  - apply canonical_inj; congruence.
  - pose proof (canonical_pos dy Cy Ny). pose proof (dval_range x (proj1 Cx)). lia.
  - pose proof (canonical_pos dx Cx Nx). pose proof (dval_range y (proj1 Cy)). lia.
  - f_equal. apply canonical_inj; congruence.
Qed.

(** ** [digits10] *)

(** [ndigits v n]: [v] is written with [n] digits. *)
Definition ndigits (v n : Z) : Prop := 1 <= n /\ v < 10 ^ n /\ (n = 1 \/ 10 ^ (n - 1) <= v).

Lemma digits10_small fuel v :
  0 <= v < 10 ^ 12 -> ndigits v (digits10_rec (S fuel) v) /\ digits10_rec (S fuel) v <= 12.
Proof.
  unfold ndigits. intros Hv. cbn [digits10_rec]. unfold b2z. repeat case_if E; simpl; lia.
Qed.

Lemma digits10_spec v : 0 <= v < 2 ^ 64 -> ndigits v (digits10 v) /\ digits10 v <= 20.
Proof.
  intros Hv. destruct (decide (v < 10 ^ 12)).
  { destruct (digits10_small 2 v) as [H1 H2]; [lia|]. split; [exact H1|]. unfold digits10. lia. }
  assert (digits10 v = 12 + digits10_rec 2 (v / 1000000000000)) as ->
    by (unfold digits10; cbn [digits10_rec]; repeat (if_lia); done).
  pose proof (Z.div_mod v (10 ^ 12) ltac:(lia)). pose proof (Z.mod_pos_bound v (10 ^ 12) ltac:(lia)).
  change 1000000000000 with (10 ^ 12). set (q := v / 10 ^ 12) in *.
  assert (1 <= q < 10 ^ 8) by lia.
  destruct (digits10_small 1 q) as [[D1 [D2 D3]] _]; [lia|]. set (k := digits10_rec 2 q) in *.
  assert (k <= 8).
  { destruct D3 as [->|D3]; [lia|]. assert (k - 1 < 8); [|lia]. apply pow10_lt_inv; lia. }
  split; [|lia]. unfold ndigits. rewrite Z.pow_add_r by lia.
  replace (12 + k - 1) with (12 + (k - 1)) by lia. rewrite Z.pow_add_r by lia.
  split; [lia|]. split; [nia|]. right. destruct D3 as [->|D3]; [simpl; lia|nia].
Qed.

Lemma ndigits_div100 v n : 100 <= v -> ndigits v n -> ndigits (v / 100) (n - 2) /\ 3 <= n.
Proof.
  intros Hv (H1 & H2 & H3).
  assert (3 <= n).
  { destruct (decide (n = 1)) as [->|]; [lia|]. destruct (decide (n = 2)) as [->|]; lia. }
  split; [|done]. split; [lia|].
  assert (Hp : 10 ^ n = 10 ^ (n - 2) * 100)
    by (replace n with (n - 2 + 2) at 1 by lia; rewrite Z.pow_add_r by lia; lia).
  split; [apply Z.div_lt_upper_bound; lia|].
  destruct (decide (n = 3)); [lia|]. right.
  assert (Hp' : 10 ^ (n - 1) = 10 ^ (n - 2 - 1) * 100)
    by (replace (n - 1) with (n - 2 - 1 + 2) by lia; rewrite Z.pow_add_r by lia; lia).
  apply Z.div_le_lower_bound; lia.
Qed.

Lemma ndigits_small v n : 0 <= v -> ndigits v n -> v < 100 -> (v < 10 -> n = 1) /\ (10 <= v -> n = 2).
Proof.
  intros H0 (H1 & H2 & H3) Hv. split; intros H.
  - destruct H3 as [|H3]; [done|]. assert (n - 1 < 1); [|lia]. apply pow10_lt_inv; lia.
  - destruct H3 as [->|H3]; [lia|].
    assert (n - 1 < 2) by (apply pow10_lt_inv; lia).
    destruct (decide (n = 1)) as [->|]; [lia|lia].
Qed.

(** The pair of digits of a number below one hundred. *)
Lemma digits_pair k :
  0 <= k < 100 ->
  digits !! Z.to_nat (k * 2) = Some (48 + k / 10) /\
  digits !! Z.to_nat (k * 2 + 1) = Some (48 + k mod 10).
Proof.
  intros Hk.
  assert (Hall : forallb (fun n => bool_decide
    (digits !! (n * 2)%nat = Some (48 + Z.of_nat n / 10) /\
     digits !! (n * 2 + 1)%nat = Some (48 + Z.of_nat n mod 10))) (seq 0 100) = true)
    by (vm_compute; reflexivity).
  rewrite forallb_forall in Hall. specialize (Hall (Z.to_nat k)).
  rewrite in_seq in Hall. specialize (Hall ltac:(lia)). apply bool_decide_eq_true_1 in Hall.
  rewrite Z2Nat.id in Hall by lia.
  replace (Z.to_nat (k * 2)) with (Z.to_nat k * 2)%nat by lia.
  replace (Z.to_nat (k * 2 + 1)) with (Z.to_nat k * 2 + 1)%nat by lia. done.
Qed.

Lemma canonical_intro ds : Forall is_digit ds -> ndigits (dval ds) (zlen ds) -> canonical ds.
Proof.
  intros Hd (H1 & H2 & H3). split; [done|]. destruct ds as [|c r]; [done|].
  destruct (decide (c = 48)) as [->|]; [|eauto]. left. f_equal.
  destruct H3 as [H3|H3]; rewrite zlen_cons in *.
  - destruct r; [done|]. rewrite zlen_cons in *. pose proof (zlen_nonneg r). lia.
  - rewrite dval_cons in H3. pose proof (dval_range r (Forall_inv_tail Hd)).
    replace (1 + zlen r - 1) with (zlen r) in H3 by lia. lia.
Qed.

(** ** [ull2string] *)

(** Writing the two digits of [k] just before a suffix already written. *)
Lemma write_pair dst o next k ds :
  0 <= k < 100 -> 0 <= o -> 1 <= next -> next < 2 ^ 32 ->
  o + next + 1 + zlen ds <= zlen dst ->
  ldn dst (o + next + 1) (zlen ds) = Some ds -> Forall is_digit ds ->
  exists dst',
    (d1 ← digits !! Z.to_nat (k * 2 + 1);
     dst ← st8 dst (o + next) d1;
     d0 ← digits !! Z.to_nat (k * 2);
     st8 dst (o + u32 (next - 1)) d0) = Some dst' /\
    exists ds', zlen ds' = zlen ds + 2 /\ zlen dst' = zlen dst /\
      ldn dst' (o + next - 1) (zlen ds') = Some ds' /\ Forall is_digit ds' /\
      dval ds' = k * 10 ^ zlen ds + dval ds /\
      (forall q n, q + n <= o + next - 1 \/ o + next + 1 <= q -> ldn dst' q n = ldn dst q n).
Proof.
  intros Hk Ho Hn Hn2 Hz Hl Hd. destruct (digits_pair k Hk) as [-> ->]. bnd.
  pose proof (zlen_nonneg ds). rewrite wrap_small by lia.
  destruct (st8_is_Some dst (o + next) (48 + k mod 10)) as [m1 E1]; [lia|]. rewrite E1. bnd.
  pose proof (st8_zlen _ _ _ _ E1) as L1.
  destruct (st8_is_Some m1 (o + (next - 1)) (48 + k / 10)) as [m2 E2]; [lia|]. rewrite E2.
  pose proof (st8_zlen _ _ _ _ E2) as L2.
  exists m2. split; [done|]. exists (48 + k / 10 :: 48 + k mod 10 :: ds).
  rewrite !zlen_cons. split; [lia|]. split; [congruence|]. split; [|split; [|split]].
  - apply ldn_cons.
    { replace (o + next - 1) with (o + (next - 1)) by lia. by eapply ld8_st8_same. }
    replace (o + next - 1 + 1) with (o + next) by lia. apply ldn_cons.
    { rewrite (ld8_st8_out _ _ _ _ _ E2) by lia. by eapply ld8_st8_same. }
    rewrite (ldn_st8_out _ _ _ _ _ _ E2) by lia. by rewrite (ldn_st8_out _ _ _ _ _ _ E1) by lia.
  - unfold is_digit. repeat constructor; try done; dlia.
  - rewrite !dval_cons, zlen_cons, Z.pow_add_r by lia.
    pose proof (Z.div_mod k 10 ltac:(lia)). nia.
  - intros q n Hq. rewrite (ldn_st8_out _ _ _ _ _ _ E2) by lia.
    by rewrite (ldn_st8_out _ _ _ _ _ _ E1) by lia.
Qed.

Lemma ull2string_loop_spec fuel dst o next value ds :
  0 <= o -> 0 <= value < 100 ^ Z.of_nat fuel -> (1 <= fuel)%nat ->
  ndigits value (next + 1) -> next < 2 ^ 32 ->
  o + next + 1 + zlen ds <= zlen dst ->
  ldn dst (o + next + 1) (zlen ds) = Some ds -> Forall is_digit ds ->
  exists dst' next' value' ds',
    ull2string_loop fuel dst o next value = Some (dst', next', value') /\
    0 <= value' < 100 /\ ndigits value' (next' + 1) /\ zlen dst' = zlen dst /\
    next' + zlen ds' = next + zlen ds /\
    ldn dst' (o + next' + 1) (zlen ds') = Some ds' /\ Forall is_digit ds' /\
    value' * 10 ^ zlen ds' + dval ds' = value * 10 ^ zlen ds + dval ds /\
    (forall q n, q + n <= o \/ o + next + 1 <= q -> ldn dst' q n = ldn dst q n).
Proof.
  intros Ho. revert dst next value ds.
  induction fuel as [|fuel IH]; intros dst next value ds Hv Hf Hnd Hn Hz Hl Hd; [lia|].
  cbn [ull2string_loop]. case_if E; cycle 1.
  { exists dst, next, value, ds. pose proof (zlen_nonneg ds). split_and!; auto; lia. }
  destruct (ndigits_div100 value (next + 1)) as [Hnd' Hn3]; [lia|done|].
  assert (Hm : 0 <= value mod 100 < 100) by (apply Z.mod_pos_bound; lia).
  pose proof (zlen_nonneg ds).
  destruct (write_pair dst o next (value mod 100) ds) as (m & Ew & ds1 & Hz1 & Hzm & Hl1 & Hd1 & Hv1 & Hfr);
    auto; try lia. inv_bind. rewrite E0. bnd. rewrite E1. bnd. rewrite E2. bnd. rewrite Ew. bnd.
  rewrite (wrap_small 32) by lia.
  assert (Hq : 0 <= value / 100 < 100 ^ Z.of_nat fuel).
  { split; [apply Z.div_pos; lia|]. apply Z.div_lt_upper_bound; [lia|].
    rewrite Nat2Z.inj_succ, Z.pow_succ_r in Hv by lia. lia. }
  destruct (IH m (next - 2) (value / 100) ds1) as (dst' & next' & value' & ds' & -> & H1 & H2 & H3 & H4 & H5 & H6 & H7 & H8);
    auto; try lia.
  { destruct fuel; [|lia]. simpl in Hq. lia. }
  { by replace (next - 2 + 1) with (next + 1 - 2) by lia. }
  { by replace (o + (next - 2) + 1) with (o + next - 1) by lia. }
  exists dst', next', value', ds'. split_and!; auto; try lia.
  - rewrite H7, Hz1, Hv1, Z.pow_add_r by lia. pose proof (Z.div_mod value 100 ltac:(lia)). nia.
  - intros q n Hqn. rewrite H8 by lia. apply Hfr. lia.
Qed.

(** [wrote dst dst' o bs]: [dst'] is [dst] with [bs] stored at [o]. *)
Definition wrote (dst dst' : list Z) (o : Z) (bs : list Z) : Prop :=
  zlen dst' = zlen dst /\ ldn dst' o (zlen bs) = Some bs /\
  forall q n, q + n <= o \/ o + zlen bs <= q -> ldn dst' q n = ldn dst q n.

(** The last one or two digits. *)
Lemma last_digits m o nx v ds L :
  0 <= o -> 0 <= v < 100 -> ndigits v (nx + 1) -> nx + 1 + zlen ds = L -> o + L <= zlen m ->
  ldn m (o + nx + 1) (zlen ds) = Some ds -> Forall is_digit ds ->
  exists ds' m', Forall is_digit ds' /\ dval ds' = v * 10 ^ zlen ds + dval ds /\ zlen ds' = L /\
    (if v <? 10 then dst ← st8 m (o + nx) (48 + u32 v); Some (L, dst)
     else d1 ← digits !! Z.to_nat (u32 v * 2 + 1); dst ← st8 m (o + nx) d1;
          d0 ← digits !! Z.to_nat (u32 v * 2); dst ← st8 dst (o + u32 (nx - 1)) d0; Some (L, dst))
      = Some (L, m') /\ zlen m' = zlen m /\ ldn m' o L = Some ds' /\
    (forall q n, q + n <= o \/ o + L <= q -> ldn m' q n = ldn m q n).
Proof.
  intros Ho Hv Hnd HL Hz Hl Hd. pose proof (zlen_nonneg ds).
  destruct (ndigits_small v (nx + 1)) as [S1 S2]; [lia|done|lia|].
  rewrite (wrap_small 32 v) by lia. case_if E.
  - assert (nx = 0) by lia. subst nx.
    destruct (st8_is_Some m (o + 0) (48 + v)) as [m' Em]; [lia|]. rewrite Em. bnd.
    exists (48 + v :: ds), m'. rewrite dval_cons, zlen_cons.
    split; [constructor; [unfold is_digit; lia|done]|]. split; [nia|]. split; [lia|].
    split; [done|]. split; [by eapply st8_zlen|]. split.
    + replace L with (1 + zlen ds) by lia. apply ldn_cons.
      * rewrite <- (Z.add_0_r o). by eapply ld8_st8_same.
      * rewrite (ldn_st8_out _ _ _ _ _ _ Em) by lia. by rewrite Z.add_0_r in Hl.
    + intros q n Hq. apply (ldn_st8_out _ _ _ _ _ _ Em). lia.
  - assert (nx = 1) by lia. subst nx.
    destruct (write_pair m o 1 v ds) as (m' & Ew & ds' & W1 & W2 & W3 & W4 & W5 & W6); auto; try lia.
    inv_bind. rewrite E0. bnd. rewrite E1. bnd. rewrite E2. bnd. rewrite Ew. bnd.
    exists ds', m'. split_and!; auto; try lia.
    + replace (o + 1 - 1) with o in W3 by lia. by replace L with (zlen ds') by lia.
    + intros q n Hq. apply W6. lia.
Qed.

Lemma ull2string_room dst o dstlen value :
  0 <= o -> 0 <= value < 2 ^ 64 -> o + dstlen <= zlen dst -> digits10 value < dstlen ->
  exists ds dst', canonical ds /\ dval ds = value /\ zlen ds = digits10 value /\
    ull2string dst o dstlen value = Some (zlen ds, dst') /\ wrote dst dst' o (ds ++ [0]).
Proof.
  intros Ho Hv Hz Hr. destruct (digits10_spec value Hv) as [Hnd H20].
  unfold ull2string. set (L := digits10 value) in *. if_lia.
  assert (1 <= L) by apply Hnd. rewrite !wrap_small by (rewrite ?wrap_small; lia).
  destruct (st8_is_Some dst (o + (L - 1 + 1)) 0) as [m0 E0]; [lia|]. rewrite E0. bnd.
  pose proof (st8_zlen _ _ _ _ E0) as Z0.
  destruct (ull2string_loop_spec 11 m0 o (L - 1) value []) as
    (m & nx & v & ds & -> & V1 & V2 & V3 & V4 & V5 & V6 & V7 & V8); auto; try (simpl; lia).
  { by replace (L - 1 + 1) with L by lia. }
  { rewrite zlen_nil. lia. }
  { rewrite zlen_nil. apply ldn_Some. split_and!; try lia. done. }
  rewrite zlen_nil in *. rewrite Z.pow_0_r in V7. change (dval []) with 0 in V7. bnd.
  assert (Hterm : ldn m (o + L) 1 = Some [0]).
  { rewrite V8 by lia. apply ld8_ldn. replace (o + L) with (o + (L - 1 + 1)) by lia.
    by eapply ld8_st8_same. }
  assert (Hfr : forall q n, q + n <= o \/ o + L + 1 <= q -> ldn m q n = ldn dst q n).
  { intros q n Hq. rewrite V8 by lia. by rewrite (ldn_st8_out _ _ _ _ _ _ E0) by lia. }
  destruct (last_digits m o nx v ds L) as (ds' & m' & F1 & F2 & F3 & -> & F5 & F6 & F7);
    auto; try lia. rewrite V7 in F2.
  assert (F2' : dval ds' = value) by lia.
  exists ds', m'. split; [apply canonical_intro; [done|by rewrite F2', F3]|].
  split; [done|]. split; [done|]. split; [by rewrite F3|].
  unfold wrote. rewrite zlen_app. change (zlen [0]) with 1. rewrite F3.
  split; [congruence|]. split.
  - apply ldn_join; [done|]. rewrite F7 by lia. done.
  - intros q n Hq. rewrite F7 by lia. apply Hfr. lia.
Qed.

Lemma numeral_exists value : 0 <= value < 2 ^ 64 ->
  exists ds, canonical ds /\ dval ds = value /\ zlen ds = digits10 value.
Proof.
  intros Hv. destruct (digits10_spec value Hv) as [_ H20].
  destruct (ull2string_room (replicate 32 0) 0 32 value) as (ds & _ & ? & ? & ? & _);
    [lia|done|done|lia|eauto].
Qed.

Lemma ull2string_spec dst o dstlen value :
  0 <= o -> 0 <= value < 2 ^ 64 -> o + dstlen <= zlen dst ->
  exists ds, canonical ds /\ dval ds = value /\ zlen ds = digits10 value /\
    if zlen ds <? dstlen
    then exists dst', ull2string dst o dstlen value = Some (zlen ds, dst') /\ wrote dst dst' o (ds ++ [0])
    else ull2string dst o dstlen value = Some (0, dst).
Proof.
  intros Ho Hv Hz. destruct (decide (digits10 value < dstlen)).
  - destruct (ull2string_room dst o dstlen value) as (ds & m & ? & ? & ? & ? & ?); auto.
    exists ds. split_and!; auto. if_lia. eauto.
  - destruct (numeral_exists value Hv) as (ds & ? & ? & ?). exists ds. split_and!; auto.
    if_lia. unfold ull2string. by if_lia.
Qed.

(** ** [string2ll] *)

Lemma string2ll_loop_sound p v r :
  0 <= v < 2 ^ 64 -> string2ll_loop p v = Some (r, []) ->
  Forall is_digit p /\ r = v * 10 ^ zlen p + dval p /\ 0 <= r < 2 ^ 64.
Proof.
  unfold ULLONG_MAX, UINT64_MAX.
  revert v. induction p as [|c p IH]; intros v Hv H; cbn [string2ll_loop] in H.
  { injection H as ->. rewrite zlen_nil, Z.pow_0_r. change (dval []) with 0. split; [done|lia]. }
  unfold ULLONG_MAX, UINT64_MAX in H. change (18446744073709551615 / 10) with 1844674407370955161 in H.
  destruct ((48 <=? c) && (c <=? 57)) eqn:Ec; [|done]. bool_hyps.
  destruct (_ <? v) eqn:E1; [done|]. bool_hyps. rewrite (wrap_small 64 (v * 10)) in H by lia.
  destruct (_ <? v * 10) eqn:E2; [done|]. bool_hyps. rewrite wrap_small in H by lia.
  apply IH in H as (Hd & -> & Hr); [|lia].
  split; [constructor; [unfold is_digit; lia|done]|].
  rewrite dval_cons, zlen_cons, Z.pow_add_r by (unfold zlen; lia). split; [ring|lia].
Qed.

Lemma string2ll_loop_complete p v :
  0 <= v -> Forall is_digit p -> v * 10 ^ zlen p + dval p < 2 ^ 64 ->
  string2ll_loop p v = Some (v * 10 ^ zlen p + dval p, []).
Proof.
  intros Hv Hp. revert v Hv. induction Hp as [|c p Hc Hp IH]; intros v Hv Hlt.
  { cbn. do 2 f_equal. rewrite zlen_nil. change (dval []) with 0. lia. }
  cbn [string2ll_loop]. unfold ULLONG_MAX, UINT64_MAX.
  change (18446744073709551615 / 10) with 1844674407370955161. unfold is_digit in Hc. if_lia.
  rewrite dval_cons, zlen_cons, Z.pow_add_r in * by (unfold zlen; lia).
  pose proof (dval_range p Hp). set (P := 10 ^ zlen p) in *. change (10 ^ 1) with 10 in *.
  assert (v * 10 + (c - 48) < 2 ^ 64) by nia.
  if_lia. rewrite (wrap_small 64 (v * 10)) by lia. if_lia. rewrite wrap_small by lia.
  rewrite IH by nia. do 2 f_equal. fold P. ring.
Qed.

Lemma canonical_zlen ds n : 0 <= n -> canonical ds -> dval ds < 10 ^ n -> ds <> [48] -> zlen ds <= n.
Proof.
  intros Hn [Hd [->|(c & r & -> & Hc)]] Hlt Hne; [done|].
  pose proof (dval_head_ge c r Hd Hc). rewrite zlen_cons.
  assert (zlen r < n); [|lia]. apply pow10_lt_inv; lia.
Qed.

Lemma canonical_head c r : canonical (c :: r) -> c :: r <> [48] ->
  49 <= c <= 57 /\ Forall is_digit r.
Proof.
  intros [Hd [[= -> ->]|(? & ? & [= <- <-] & Hc)]] Hn; [done|].
  apply Forall_cons in Hd as [Hc' Hd]. unfold is_digit in Hc'. split; [lia|done].
Qed.

(** The parse of a first digit 1-9 and the digits that follow. *)
Lemma string2ll_digits c p r :
  49 <= c <= 57 ->
  string2ll_loop p (c - 48) = Some (r, []) <->
  Forall is_digit p /\ r = dval (c :: p) /\ r < 2 ^ 64.
Proof.
  intros Hc. rewrite dval_cons. split.
  - intros H. apply string2ll_loop_sound in H as (? & ? & ?); [|lia]. split_and!; auto. lia.
  - intros (Hp & -> & Hr). apply string2ll_loop_complete; auto. lia.
Qed.

(** The parse after the optional sign, as a function of the sign. *)
Lemma string2ll_body (negative : bool) c p v :
  (if (49 <=? c) && (c <=? 57) then
     '(v, rest) ← string2ll_loop p (c - 48);
     if negb (zlen rest =? 0) then None
     else if negative then
       if u64 (- (LLONG_MIN + 1)) + 1 <? v then None else Some (s64 (u64 (- v)))
     else if LLONG_MAX <? v then None else Some v
   else None) = Some v <->
  canonical (c :: p) /\ c :: p <> [48] /\
  dval (c :: p) = (if negative then - v else v) /\ in_s 64 v.
Proof.
  change (u64 (- (LLONG_MIN + 1)) + 1) with (2 ^ 63). change LLONG_MAX with (2 ^ 63 - 1).
  unfold in_s. simpl (2 ^ (64 - 1)). split.
  - case_if Ec; [|done]. intros Hx. inv_bind. destruct r as [r rest]. revert Hx.
    case_if Er; [done|]. assert (rest = []) as -> by (destruct rest; [done|rewrite zlen_cons in Er; pose proof (zlen_nonneg rest); lia]).
    apply string2ll_digits in E as (Hp & -> & Hr); [|lia].
    assert (Hcan : canonical (c :: p)).
    { split; [constructor; [unfold is_digit; lia|done]|]. right. exists c, p. split; [done|lia]. }
    assert (Hne : c :: p <> [48]) by (intros [= -> _]; lia).
    pose proof (canonical_pos _ Hcan Hne).
    destruct negative; case_if Ev; intros [= <-]; split_and!; auto; try lia.
    + rewrite swrap_wrap, swrap_small by (unfold in_s; simpl; lia). lia.
    + rewrite swrap_wrap, swrap_small by (unfold in_s; simpl; lia). lia.
    + rewrite swrap_wrap, swrap_small by (unfold in_s; simpl; lia). lia.
  - intros (Hcan & Hne & Hv & Hr). destruct (canonical_head c p Hcan Hne) as [Hc Hp]. if_lia.
    pose proof (canonical_pos _ Hcan Hne).
    rewrite (proj2 (string2ll_digits c p (dval (c :: p)) Hc)) by (destruct negative; split_and!; auto; lia).
    bnd. rewrite zlen_nil. cbn [Z.eqb negb]. rewrite Hv. destruct negative; if_lia; [|done].
    f_equal. rewrite swrap_wrap, swrap_small by (unfold in_s; simpl; lia). lia.
Qed.

Lemma decimal_nonneg_head s v : decimal s v -> head s <> Some 45 -> canonical s /\ dval s = v.
Proof. intros [H|(ds & -> & _)] Hh; [done|]. by simpl in Hh. Qed.

Lemma canonical_no_sign p : ~ canonical (45 :: p).
Proof. intros [Hd _]. apply Forall_cons in Hd as [Hd _]. unfold is_digit in Hd. lia. Qed.

Lemma string2ll_spec (s : list Z) (v : Z) :
  string2ll s = Some v <-> decimal s v /\ in_s 64 v.
Proof.
  unfold string2ll, LONG_STR_SIZE. destruct s as [|c s].
  { split; [done|]. intros [[[[_ [H|(? & ? & H & _)]] _]|(? & H & _)] _]; done. }
  pose proof (zlen_nonneg s). rewrite !zlen_cons. case_if E0.
  { split; [done|]. intros [Hd Hr]. exfalso. assert (20 <= zlen s) by lia. unfold in_s in Hr. simpl in Hr.
    destruct Hd as [[Hc Hv]|(ds & [= -> ->] & Hc & Hn & Hv)].
    - assert (zlen (c :: s) <= 19); [|rewrite zlen_cons in *; lia].
      apply canonical_zlen; [lia|done|lia|]. intros [= -> ->]. done.
    - assert (zlen ds <= 19); [|lia]. apply canonical_zlen; [lia|done|lia|done]. }
  cbn [head tail]. destruct (_ && _) eqn:E1.
  { apply andb_prop in E1 as [E1 E2]. bool_hyps. apply bool_decide_eq_true_1 in E2 as [= ->]. destruct s; [|rewrite zlen_cons in *; pose proof (zlen_nonneg s); lia].
    split.
    - intros [= <-]. split; [|done]. left. split; [|done]. split; [repeat constructor; unfold is_digit; lia|auto].
    - intros [[[_ <-]|(? & [=] & _)] _]. done. }
  destruct (bool_decide (Some c = Some 45)) eqn:En.
  - apply bool_decide_eq_true_1 in En as [= ->]. destruct s as [|d s].
    { split; [done|]. intros [[[Hc _]|(? & [= <-] & [_ [?|(? & ? & ? & ?)]] & _)] _]; try done.
      by apply canonical_no_sign in Hc. }
    etransitivity; [apply (string2ll_body true)|]. split.
    + intros (? & ? & ? & ?). split; [|done]. right. eauto.
    + intros [[[Hc _]|(ds & [= <-] & ? & ? & ?)] ?]; [by apply canonical_no_sign in Hc|]. auto.
  - apply bool_decide_eq_false_1 in En. etransitivity; [apply (string2ll_body false)|]. split.
    + intros (? & ? & ? & ?). split; [|done]. left. auto.
    + intros [Hd ?]. apply decimal_nonneg_head in Hd as [? ?]; [|done].
      split_and!; auto. intros [= -> ->]. rewrite zlen_nil in E1. by rewrite bool_decide_eq_true_2 in E1.
Qed.

Lemma ll2string_spec (dst : list Z) (dstlen v : Z) :
  in_s 64 v -> 0 <= dstlen <= zlen dst ->
  exists s, decimal s v /\
    if zlen s <? dstlen
    then exists dst', ll2string dst dstlen v = Some (zlen s, dst') /\ wrote dst dst' 0 (s ++ [0])
    else exists dst', ll2string dst dstlen v = Some (0, dst') /\ zlen dst' = zlen dst.
Proof.
  intros Hv Hd. unfold in_s in Hv. simpl in Hv. unfold ll2string. case_if E.
  - assert ((if negb (v =? LLONG_MIN) then u64 (- v) else u64 (LLONG_MAX + 1)) = - v) as ->.
    { unfold LLONG_MIN, LLONG_MAX, INT64_MIN, INT64_MAX. case_if Ei; rewrite wrap_small; lia. }
    destruct (numeral_exists (- v)) as (ds & Hc & Hdv & Hz); [lia|].
    assert (Hne : ds <> [48]) by (intros ->; change (dval [48]) with 0 in Hdv; lia).
    exists (45 :: ds). split; [right; eauto|]. rewrite zlen_cons.
    assert (1 <= zlen ds) by (destruct (digits10_spec (- v)) as [[? _] _]; lia).
    destruct (dstlen <? 2) eqn:E2; bool_hyps.
    { if_lia. exists dst. done. }
    destruct (st8_is_Some dst 0 45) as [m1 E1]; [lia|]. rewrite E1. bnd.
    pose proof (st8_zlen _ _ _ _ E1) as L1.
    destruct (ull2string_spec m1 1 (dstlen - 1) (- v)) as (ds' & Hc' & Hdv' & Hz' & Hu); [lia|lia|lia|].
    assert (ds' = ds) as -> by (apply canonical_inj; congruence).
    case_if Er.
    + replace (zlen ds <? dstlen - 1) with true in Hu by lia. destruct Hu as (m2 & -> & W1 & W2 & W3). bnd.
      if_lia. exists m2. rewrite (Z.add_comm (zlen ds)). split; [done|].
      rewrite zlen_app in *. change (zlen [0]) with 1 in *. split; [congruence|].
      cbn [app]. rewrite zlen_cons, zlen_app. change (zlen [0]) with 1. split.
      * apply ldn_cons; [|done]. apply ld8_ldn. rewrite W3 by lia. apply ld8_ldn. by eapply ld8_st8_same.
      * intros q n Hq. rewrite W3 by lia. by rewrite (ldn_st8_out _ _ _ _ _ _ E1) by lia.
    + replace (zlen ds <? dstlen - 1) with false in Hu by lia. rewrite Hu. bnd. exists m1. done.
  - rewrite (wrap_small 64) by lia.
    destruct (ull2string_spec dst 0 dstlen v) as (ds & Hc & Hdv & Hz & Hu); [lia|lia|lia|].
    assert (1 <= zlen ds) by (destruct (digits10_spec v) as [[? _] _]; lia).
    exists ds. split; [left; auto|]. case_if Er.
    + destruct Hu as (m & -> & Hw). bnd. if_lia. rewrite Z.add_0_r. eauto.
    + rewrite Hu. bnd. eauto.
Qed.

Lemma string2ll_short s v : string2ll s = Some v -> zlen s < LONG_STR_SIZE.
Proof. unfold string2ll. destruct (_ || _) eqn:E; [done|]. intros _. lia. Qed.

(** Printing into a buffer that holds any integer. *)
Lemma ll2string_prints (dst : list Z) (v : Z) : in_s 64 v -> LONG_STR_SIZE <= zlen dst ->
  exists (s dst' : list Z), ll2string dst (zlen dst) v = Some (zlen s, dst') /\ ldn dst' 0 (zlen s) = Some s /\
    decimal s v /\ string2ll s = Some v /\ zlen s < LONG_STR_SIZE.
Proof.
  intros Hv Hd. destruct (ll2string_spec dst (zlen dst) v) as (s & Hs & Hl); [done|unfold zlen; lia|].
  pose proof (proj2 (string2ll_spec s v) (conj Hs Hv)) as Hp.
  assert (zlen s < LONG_STR_SIZE) by (by eapply string2ll_short).
  replace (zlen s <? zlen dst) with true in Hl by lia. destruct Hl as (dst' & Hll & W1 & W2 & W3).
  exists s, dst'. split; [done|]. split; [|done].
  rewrite zlen_app in W2. destruct (ldn_app _ _ _ _ _ (zlen_nonneg s) (zlen_nonneg [0]) W2) as [-> _].
  f_equal. rewrite take_app_length'; [done|]. unfold zlen. lia.
Qed.

(** ** Properties *)

(** C4: [string2ll] accepts exactly the canonical decimal representations of
    the integers a [long long] can hold, and returns that integer: no
    leading zero or sign variant, no overflow and no trailing byte passes. *)
Theorem string2ll_correct (s : list Z) (v : Z) :
  string2ll s = Some v <-> decimal s v /\ in_s 64 v.
Proof. apply string2ll_spec. Qed.

(** C5: [ll2string] writes the decimal representation of every [long long]
    (the minimum included) with its terminator when the buffer has room,
    touching nothing else, and returns its length; without room it returns
    0.  It never writes outside the buffer. *)
Theorem ll2string_correct (dst : list Z) (dstlen v : Z) :
  in_s 64 v -> 0 <= dstlen <= zlen dst ->
  exists s, decimal s v /\
    if zlen s <? dstlen
    then exists dst', ll2string dst dstlen v = Some (zlen s, dst') /\ wrote dst dst' 0 (s ++ [0])
    else exists dst', ll2string dst dstlen v = Some (0, dst') /\ zlen dst' = zlen dst.
Proof. apply ll2string_spec. Qed.

(** Printing and parsing are inverse: a [long long] printed into a
    buffer of [LONG_STR_SIZE] bytes or more parses back to itself, and a
    string that parses is the string [ll2string] prints for its value. *)
Lemma string2ll_ll2string_roundtrip (dst : list Z) (v : Z) :
  in_s 64 v -> LONG_STR_SIZE <= zlen dst ->
  exists n dst' s, ll2string dst (zlen dst) v = Some (n, dst') /\ ldn dst' 0 n = Some s /\
    string2ll s = Some v /\ (forall s', string2ll s' = Some v -> s' = s).
Proof.
  intros Hv Hd. destruct (ll2string_prints dst v Hv Hd) as (s & dst' & Hll & Hld & Hs & Hp & _).
  exists (zlen s), dst', s. split_and!; [done|done|done|].
  intros s' Hs'. apply string2ll_spec in Hs' as [Hs' _]. by eapply decimal_inj.
Qed.

(** The two-level comparison tree of [digits10] (and [sdigits10] on
    every signed value) computes the length of the decimal representation. *)
Lemma sdigits10_correct (v : Z) (s : list Z) :
  in_s 64 v -> decimal s v -> sdigits10 v = zlen s.
Proof.
  intros Hv Hs. destruct (ll2string_spec (replicate 32 0) 32 v) as (s' & Hs' & Hl); [done|done|].
  assert (s' = s) as -> by (by eapply decimal_inj).
  pose proof (proj2 (string2ll_spec s v) (conj Hs Hv)) as Hp.
  unfold in_s in Hv. simpl in Hv. unfold sdigits10. case_if E.
  - assert ((if negb (v =? LLONG_MIN) then u64 (- v) else u64 (LLONG_MAX + 1)) = - v) as ->.
    { unfold LLONG_MIN, LLONG_MAX, INT64_MIN, INT64_MAX. case_if Ei; rewrite wrap_small; lia. }
    destruct (numeral_exists (- v)) as (ds & Hc & Hdv & Hz); [lia|].
    assert (Hne : ds <> [48]) by (intros ->; change (dval [48]) with 0 in Hdv; lia).
    assert (s = 45 :: ds) as -> by (eapply decimal_inj; [done|]; right; eauto).
    rewrite zlen_cons. lia.
  - destruct (numeral_exists v) as (ds & Hc & Hdv & Hz); [lia|].
    assert (s = ds) as -> by (eapply decimal_inj; [done|]; left; auto). done.
Qed.

(** *** Witnesses *)

Lemma ll2string_correct_witness :
  exists s, decimal s (-128) /\
    if zlen s <? 8
    then exists dst', ll2string (replicate 8 0) 8 (-128) = Some (zlen s, dst') /\ wrote (replicate 8 0) dst' 0 (s ++ [0])
    else exists dst', ll2string (replicate 8 0) 8 (-128) = Some (0, dst') /\ zlen dst' = zlen (replicate 8 0).
Proof. apply (ll2string_correct (replicate 8 0) 8 (-128)); done. Defined.

End Util.
