(* ===== verification/Glob.v ===== *)
(** * Glob-style pattern matching (stringmatchlen in src/redis-stable/src/util.c)

    The pattern and string pointers with their lengths are the remaining bytes;
    the pattern is followed by the null byte that ends every sds string, which
    the code reads when it looks one byte past the end.  [skipLongerMatches],
    a variable shared by the recursive calls, is passed and returned.  The
    character set is that of the C locale, and [char] is signed.

    The reference semantics parses the pattern into tokens and gives the star
    its usual meaning, any substring, by exhaustive search; the theorem says
    that the code, which gives up early after a failed star, decides the same
    relation. *)
From stdpp Require Import base list.
From S2P Require Import Prelude.

Module Glob.

Abbreviation bytes := (list Z).

Definition ch_star : Z := 42.
Definition ch_qm : Z := 63.
Definition ch_open : Z := 91.
Definition ch_close : Z := 93.
Definition ch_caret : Z := 94.
Definition ch_bs : Z := 92.
Definition ch_dash : Z := 45.

Definition tolower (c : Z) : Z := if (65 <=? c) && (c <=? 90) then c + 32 else c.

(** [start <= c <= end], the bounds swapped if they are reversed. *)
Definition in_range (nocase : bool) (start end_ c : Z) : bool :=
  let start := s8 start in let end_ := s8 end_ in let c := s8 c in
  let '(start, end_) := if end_ <? start then (end_, start) else (start, end_) in
  let '(start, end_, c) := if nocase then (tolower start, tolower end_, tolower c) else (start, end_, c) in
  (start <=? c) && (c <=? end_).

Definition same_char (nocase : bool) (a b : Z) : bool :=
  if nocase then tolower (s8 a) =? tolower (s8 b) else a =? b.

(** The body of a character class against the character [c]; returns whether
    it matches and the pattern after the class. *)
Fixpoint class_loop (pattern : bytes) (c : Z) (nocase match_ : bool) : bool * bytes :=
  match pattern with
  | [] => (match_, [])
  | x :: r =>
      match r with
      | y :: r' =>
          if x =? ch_bs then class_loop r' c nocase (match_ || (y =? c))
          else if x =? ch_close then (match_, r)
          else
            match r' with
            | z :: r'' =>
                if y =? ch_dash then class_loop r'' c nocase (match_ || in_range nocase x z c)
                else class_loop r c nocase (match_ || same_char nocase x c)
            | [] => class_loop r c nocase (match_ || same_char nocase x c)
            end
      | [] => if x =? ch_close then (match_, r) else class_loop r c nocase (match_ || same_char nocase x c)
      end
  end.

(** [while (patternLen && pattern[1] == '*') pattern++]: the stars after the
    first one. *)
Fixpoint skip_stars (pattern : bytes) : bytes :=
  match pattern with
  | x :: r => if x =? ch_star then skip_stars r else pattern
  | [] => []
  end.

(** [while(stringLen)] in the case of a star; [rec] is the recursive call on
    the rest of the pattern. *)
Fixpoint star_loop (rec : bytes -> bool -> option (bool * bool)) (string : bytes) (skip : bool) : option (bool * bool) :=
  match string with
  | [] => Some (false, true)
  | _ :: string' =>
      '(r, skip) ← rec string skip;
      if (r : bool) then Some (true, skip)
      else if (skip : bool) then Some (false, skip)
      else star_loop rec string' skip
  end.

(** The loop and what follows it; the length of the pattern is enough fuel.
    The result is the return value and [*skipLongerMatches]. *)
Fixpoint stringmatchlen_impl (fuel : nat) (pattern string : bytes) (nocase skip : bool) : option (bool * bool) :=
  match pattern, string with
  | x :: r, c :: string' =>
      match fuel with
      | O => None
      | S fuel =>
          (* pattern++, patternLen-- and the end of the loop body *)
          let continue r' :=
            match string' with
            | [] => Some (bool_decide (skip_stars r' = []), skip)
            | _ => stringmatchlen_impl fuel r' string' nocase skip
            end in
          if x =? ch_star then
            let rest := skip_stars r in
            if bool_decide (rest = []) then Some (true, skip)
            else star_loop (fun s skip => stringmatchlen_impl fuel rest s nocase skip) string skip
          else if x =? ch_qm then continue r
          else if x =? ch_open then
            let not := (nth 0 r 0 =? ch_caret) in
            let '(match_, r') := class_loop (if not then drop 1 r else r) c nocase false in
            let match_ := if not then negb match_ else match_ in
            if negb match_ then Some (false, skip) else continue r'
          else
            let '(x, r) := if (x =? ch_bs) && (2 <=? zlen pattern) then (nth 0 r 0, drop 1 r) else (x, r) in
            if negb (same_char nocase x c) then Some (false, skip) else continue r
      end
  | _, _ => Some (bool_decide (pattern = []) && bool_decide (string = []), skip)
  end.

Definition stringmatchlen (pattern string : bytes) (nocase : bool) : option bool :=
  fst <$> stringmatchlen_impl (length pattern) pattern string nocase false.

(** Up to the first null byte. *)
Fixpoint cstring (s : bytes) : bytes :=
  match s with
  | [] => []
  | c :: s => if c =? 0 then [] else c :: cstring s
  end.
Definition stringmatch (pattern string : bytes) (nocase : bool) : option bool :=
  stringmatchlen (cstring pattern) (cstring string) nocase.

(** ** The reference semantics *)

Inductive item := Esc (c : Z) | Range (a b : Z) | Plain (c : Z).
Inductive token := TStar | TAny | TClass (negated : bool) (items : list item) | TChar (c : Z).

(** The items of a class, up to the closing bracket or the end of the pattern. *)
Fixpoint parse_items (p : bytes) : list item * bytes :=
  match p with
  | [] => ([], [])
  | x :: r =>
      let plain := let '(is_, rest) := parse_items r in (Plain x :: is_, rest) in
      match r with
      | y :: r' =>
          if x =? ch_bs then let '(is_, rest) := parse_items r' in (Esc y :: is_, rest)
          else if x =? ch_close then ([], r)
          else match r' with
               | z :: r'' => if y =? ch_dash then let '(is_, rest) := parse_items r'' in (Range x z :: is_, rest) else plain
               | [] => plain
               end
      | [] => if x =? ch_close then ([], r) else plain
      end
  end.

Definition next_token (x : Z) (r : bytes) : token * bytes :=
  if x =? ch_star then (TStar, r)
  else if x =? ch_qm then (TAny, r)
  else if x =? ch_open then
    match r with
    | y :: r' => if y =? ch_caret then let '(is_, rest) := parse_items r' in (TClass true is_, rest)
                 else let '(is_, rest) := parse_items r in (TClass false is_, rest)
    | [] => (TClass false [], [])
    end
  else match r with
       | y :: r' => if x =? ch_bs then (TChar y, r') else (TChar x, r)
       | [] => (TChar x, [])
       end.

Fixpoint parse_fuel (n : nat) (p : bytes) : list token :=
  match n, p with
  | S n, x :: r => let '(t, rest) := next_token x r in t :: parse_fuel n rest
  | _, _ => []
  end.
Definition parse (p : bytes) : list token := parse_fuel (length p) p.

Definition item_match (nocase : bool) (c : Z) (i : item) : bool :=
  match i with
  | Esc x => x =? c
  | Range a b => in_range nocase a b c
  | Plain x => same_char nocase x c
  end.

(** The tokens that stand for one character. *)
Definition token_match (nocase : bool) (t : token) (c : Z) : bool :=
  match t with
  | TStar => false
  | TAny => true
  | TClass negated items => xorb negated (existsb (item_match nocase c) items)
  | TChar x => same_char nocase x c
  end.

Inductive Match (nocase : bool) : list token -> bytes -> Prop :=
  | MNil : Match nocase [] []
  | MStar ts pre s : Match nocase ts s -> Match nocase (TStar :: ts) (pre ++ s)
  | MOne t ts c s : token_match nocase t c = true -> Match nocase ts s -> Match nocase (t :: ts) (c :: s).

(** ** Parsing *)

Lemma parse_items_length p : (length (parse_items p).2 <= length p)%nat.
Proof.
  assert (H : forall n p, (length p <= n)%nat -> (length (parse_items p).2 <= length p)%nat); [|by apply (H (length p))].
  clear p. induction n as [|n IH]; intros [|x r] Hn; simpl in Hn; try lia; [done..|]. cbn [parse_items].
  pose proof (IH r ltac:(lia)) as H1. destruct (parse_items r) as [i1 r1] eqn:E1.
  destruct r as [|y r']; [destruct (x =? ch_close); simpl in *; lia|].
  pose proof (IH r' ltac:(simpl in Hn; lia)) as H2. destruct (parse_items r') as [i2 r2] eqn:E2.
  destruct (x =? ch_bs); [simpl in *; lia|]. destruct (x =? ch_close); [simpl in *; lia|].
  destruct r' as [|z r'']; [simpl in *; lia|]. pose proof (IH r'' ltac:(simpl in Hn; lia)) as H3.
  destruct (parse_items r'') as [i3 r3] eqn:E3. destruct (y =? ch_dash); simpl in *; lia.
Qed.

Lemma next_token_length x r : (length (next_token x r).2 <= length r)%nat.
Proof.
  unfold next_token. repeat case_match; simpl; try lia; subst;
    match goal with H : parse_items ?p = (_, ?q) |- _ => pose proof (parse_items_length p) as Hl; rewrite H in Hl; simpl in * end; lia.
Qed.

Lemma parse_fuel_enough n m p : (length p <= n)%nat -> (length p <= m)%nat -> parse_fuel n p = parse_fuel m p.
Proof.
  revert m p. induction n as [|n IH]; intros m [|x r] Hn Hm; simpl in *; try lia; [by destruct m..|].
  destruct m as [|m]; [lia|]. simpl. pose proof (next_token_length x r) as Hl. destruct (next_token x r) as [t rest].
  f_equal. apply IH; simpl in Hl; lia.
Qed.

Lemma parse_cons x r : parse (x :: r) = (next_token x r).1 :: parse (next_token x r).2.
Proof.
  unfold parse. simpl. pose proof (next_token_length x r) as Hl. destruct (next_token x r) as [t rest]. simpl in *.
  f_equal. by apply parse_fuel_enough.
Qed.

(** The class as the code scans it. *)
Lemma class_loop_parse c nocase p : forall m, class_loop p c nocase m =
  (m || existsb (item_match nocase c) (parse_items p).1, (parse_items p).2).
Proof.
  assert (H : forall n p m, (length p <= n)%nat -> class_loop p c nocase m =
    (m || existsb (item_match nocase c) (parse_items p).1, (parse_items p).2)); [|intros m; by apply (H (length p))].
  clear p. induction n as [|n IH]; intros [|x r] m Hn; simpl in Hn; try lia; [simpl; by rewrite orb_false_r..|].
  cbn [class_loop parse_items].
  assert (H1 : forall m', class_loop r c nocase m' = (m' || existsb (item_match nocase c) (parse_items r).1, (parse_items r).2))
    by (intros; apply IH; lia).
  destruct r as [|y r'].
  - destruct (x =? ch_close); [by rewrite orb_false_r|]. rewrite H1. simpl. by rewrite orb_assoc.
  - destruct (x =? ch_bs).
    { rewrite IH by (simpl in Hn; lia). destruct (parse_items r'). simpl. by rewrite orb_assoc. }
    destruct (x =? ch_close); [by rewrite orb_false_r|].
    destruct r' as [|z r''].
    + rewrite H1. destruct (parse_items [y]). simpl. by rewrite orb_assoc.
    + destruct (y =? ch_dash).
      * rewrite IH by (simpl in Hn; lia). destruct (parse_items r''). simpl. by rewrite orb_assoc.
      * rewrite H1. destruct (parse_items (y :: z :: r'')). simpl. by rewrite orb_assoc.
Qed.

(** ** Matching *)

Section matching.
Context (nocase : bool).
Abbreviation M := (Match nocase).

(** No suffix of the string matches. *)
Definition hopeless (ts : list token) (s : bytes) : Prop := forall pre s', s = pre ++ s' -> ~ M ts s'.

Lemma match_nil_inv s : M [] s <-> s = [].
Proof. split; [by inversion 1|]. intros ->. constructor. Qed.

Lemma match_star_inv ts s : M (TStar :: ts) s <-> exists pre s', s = pre ++ s' /\ M ts s'.
Proof.
  split.
  - inversion 1; subst; [eauto|]. done.
  - intros (pre & s' & -> & H). by constructor.
Qed.

Lemma match_one_inv t ts s : t <> TStar ->
  M (t :: ts) s <-> exists c s', s = c :: s' /\ token_match nocase t c = true /\ M ts s'.
Proof.
  intros Ht. split.
  - inversion 1; subst; [done|]. eauto.
  - intros (c & s' & -> & ? & ?). by constructor.
Qed.

Lemma hopeless_self ts s : hopeless ts s -> ~ M ts s.
Proof. intros H. by apply (H []). Qed.

Lemma hopeless_star ts s : hopeless ts s -> hopeless (TStar :: ts) s.
Proof.
  intros H pre s' -> (pre2 & s2 & -> & Hm)%match_star_inv. apply (H (pre ++ pre2) s2); [by rewrite app_assoc|done].
Qed.

Lemma hopeless_one t ts c s : t <> TStar -> hopeless ts s -> hopeless (t :: ts) (c :: s).
Proof.
  intros Ht H pre s' E Hm. apply match_one_inv in Hm as (d & s2 & -> & _ & Hm); [|done].
  destruct pre as [|e pre]; injection E as _ ->; [by apply (H [] s2)|]. apply (H (pre ++ [d]) s2); [|done].
  by rewrite <- app_assoc.
Qed.

Lemma hopeless_step ts c s : ~ M ts (c :: s) -> hopeless ts s -> hopeless ts (c :: s).
Proof. intros Hn H [|d pre] s'; [intros E; simpl in E; by subst s'|]. intros [= _ ->]. by apply (H pre). Qed.

Lemma next_token_star x r : x <> ch_star -> (next_token x r).1 <> TStar.
Proof. intros Hx. unfold next_token. rewrite (proj2 (Z.eqb_neq _ _) Hx). by repeat case_match. Qed.

Lemma parse_star r : parse (ch_star :: r) = TStar :: parse r.
Proof. apply parse_cons. Qed.

(** A run of stars is one star. *)
Lemma skip_stars_match r s : M (TStar :: parse r) s <-> M (TStar :: parse (skip_stars r)) s.
Proof.
  revert s. induction r as [|x r IH]; intros s; [done|]. cbn [skip_stars]. destruct (Z.eqb_spec x ch_star) as [->|]; [|done].
  rewrite <- IH, parse_star, !match_star_inv. setoid_rewrite match_star_inv. split.
  - intros (p1 & s1 & -> & p2 & s2 & -> & Hm). exists (p1 ++ p2), s2. by rewrite app_assoc.
  - intros (p1 & s1 & -> & Hm). exists p1, s1. split; [done|]. by exists [], s1.
Qed.

Lemma skip_stars_length r : (length (skip_stars r) <= length r)%nat.
Proof. induction r as [|x r IH]; simpl; [lia|]. case_match; simpl; lia. Qed.

Lemma skip_stars_head r x r' : skip_stars r = x :: r' -> x <> ch_star.
Proof. induction r as [|y r IH]; [done|]. cbn [skip_stars]. destruct (Z.eqb_spec y ch_star); [done|]. by intros [= <- <-]. Qed.

(** Only stars match the empty string. *)
Lemma match_empty r : M (parse r) [] <-> skip_stars r = [].
Proof.
  induction r as [|x r IH]; [split; [done|intros _; constructor]|]. cbn [skip_stars].
  destruct (Z.eqb_spec x ch_star) as [->|Hx].
  - rewrite parse_star, match_star_inv, <- IH. split; [|by exists [], []].
    intros (pre & s' & E & Hm). symmetry in E. by apply app_nil in E as [-> ->].
  - rewrite parse_cons, match_one_inv by (by apply next_token_star). split; [|done]. by intros (c & s' & [=] & _).
Qed.

(** A call on a nonempty string: it decides the match, and when it asks to
    skip longer matches there is none. *)
Definition decides (ts : list token) (s : bytes) (r : option (bool * bool)) : Prop :=
  exists b skip, r = Some (b, skip) /\ (b = true <-> M ts s) /\ (b = false -> skip = true -> hopeless ts s).

Lemma decides_false ts s : ~ M ts s -> decides ts s (Some (false, false)).
Proof. intros H. exists false, false. split; [done|]. split; [|done]. split; [done|]. intros ?. done. Qed.

Lemma star_loop_decides ts rec s : ~ M ts [] -> (forall s, s <> [] -> decides ts s (rec s false)) ->
  decides (TStar :: ts) s (star_loop rec s false).
Proof.
  intros Hnil Hrec.
  assert (H : exists b skip, star_loop rec s false = Some (b, skip) /\
    (b = true -> M (TStar :: ts) s) /\ (b = false -> hopeless ts s)).
  { induction s as [|c s IH]; cbn [star_loop].
    - exists false, true. split; [done|]. split; [done|]. intros _ pre s' E. symmetry in E. by apply app_nil in E as [_ ->].
    - destruct (Hrec (c :: s) ltac:(done)) as (b & skip & -> & Hb & Hs). simpl. destruct b.
      + exists true, skip. split; [done|]. split; [|done]. intros _. apply match_star_inv. exists [], (c :: s). split; [done|]. by apply Hb.
      + destruct skip; [exists false, true; split; [done|]; split; [done|]; intros _; by apply Hs|].
        destruct IH as (b & skip & -> & H1 & H2). exists b, skip. split; [done|]. split.
        * intros ->. destruct (proj1 (match_star_inv ts s) (H1 eq_refl)) as (pre & s' & -> & Hm). apply match_star_inv.
          by exists (c :: pre), s'.
        * intros ->. apply hopeless_step; [|by apply H2]. intros Hm. by apply Hb in Hm. }
  destruct H as (b & skip & -> & H1 & H2). exists b, skip. split; [done|]. split.
  - split; [done|]. destruct b; [done|]. intros Hm. exfalso. by apply (hopeless_self _ _ (hopeless_star _ _ (H2 eq_refl))).
  - intros -> _. by apply hopeless_star, H2.
Qed.

(** One character token, then the rest of the loop. *)
Lemma one_decides t r' c s' k : t <> TStar -> (s' <> [] -> decides (parse r') s' k) ->
  decides (t :: parse r') (c :: s')
    (if token_match nocase t c
     then match s' with [] => Some (bool_decide (skip_stars r' = []), false) | _ => k end
     else Some (false, false)).
Proof.
  intros Ht Hk. destruct (token_match nocase t c) eqn:E.
  - assert (Hd : M (t :: parse r') (c :: s') <-> M (parse r') s').
    { rewrite match_one_inv by done. split; [intros (? & ? & [= <- <-] & _ & ?); done|eauto]. }
    destruct s' as [|d s'].
    + eexists _, false. split; [done|]. split; [|done]. by rewrite Hd, bool_decide_eq_true, match_empty.
    + destruct (Hk ltac:(done)) as (b & skip & -> & Hb & Hs). exists b, skip. split; [done|]. split; [by rewrite Hd|].
      intros H1 H2. apply hopeless_one; [done|]. by apply Hs.
  - apply decides_false. rewrite match_one_inv by done. intros (? & ? & [= <- <-] & ? & _). congruence.
Qed.

Lemma impl_one fuel x r c s' : x <> ch_star ->
  stringmatchlen_impl (S fuel) (x :: r) (c :: s') nocase false =
  if token_match nocase (next_token x r).1 c
  then match s' with
       | [] => Some (bool_decide (skip_stars (next_token x r).2 = []), false)
       | _ => stringmatchlen_impl fuel (next_token x r).2 s' nocase false
       end
  else Some (false, false).
Proof.
  intros Hx. cbn [stringmatchlen_impl]. unfold next_token. rewrite (proj2 (Z.eqb_neq _ _) Hx).
  destruct (x =? ch_qm); [done|]. destruct (x =? ch_open).
  - rewrite class_loop_parse. destruct r as [|y r]; [reflexivity|]. cbn [nth].
    destruct (y =? ch_caret);
      [change (drop 1 (y :: r)) with r; destruct (parse_items r) as [is_ rest]|destruct (parse_items (y :: r)) as [is_ rest]];
      cbn [fst snd token_match]; destruct (existsb (item_match nocase c) is_); done.
  - destruct r as [|y r]; [rewrite andb_false_r; simpl; by destruct (same_char nocase x c)|].
    assert ((2 <=? zlen (x :: y :: r)) = true) as -> by (apply Z.leb_le; rewrite !zlen_cons; pose proof (zlen_nonneg r); lia).
    rewrite andb_true_r. destruct (x =? ch_bs); simpl; [by destruct (same_char nocase y c)|by destruct (same_char nocase x c)].
Qed.

Lemma impl_decides fuel : forall p s, (length p <= fuel)%nat -> s <> [] ->
  decides (parse p) s (stringmatchlen_impl fuel p s nocase false).
Proof.
  induction fuel as [|fuel IH]; intros [|x r] s Hf Hs; try (simpl in Hf; lia);
    try (destruct s; [done|]; apply decides_false; by rewrite match_nil_inv).
  destruct s as [|c s']; [done|]. destruct (decide (x = ch_star)) as [->|Hx].
  - cbn [stringmatchlen_impl]. simpl (ch_star =? ch_star).
    pose proof (skip_stars_length r) as Hl. rewrite parse_star.
    assert (Hd : forall k, decides (TStar :: parse (skip_stars r)) (c :: s') k -> decides (TStar :: parse r) (c :: s') k).
    { intros k (b & skip & -> & Hb & Hh). exists b, skip. split; [done|]. split; [by rewrite skip_stars_match|].
      intros H1 H2 pre s2 E. rewrite skip_stars_match. by apply (Hh H1 H2 pre). }
    apply Hd. case_bool_decide as E.
    + rewrite E. exists true, false. split; [done|]. split; [|done]. split; [|done]. intros _. apply match_star_inv.
      exists (c :: s'), []. split; [by rewrite app_nil_r|constructor].
    + apply star_loop_decides.
      * rewrite match_empty. destruct (skip_stars r) as [|y r'] eqn:E2; [done|]. cbn [skip_stars].
        by rewrite (proj2 (Z.eqb_neq _ _) (skip_stars_head _ _ _ E2)).
      * intros s Hne. apply IH; [simpl in Hf; lia|done].
  - rewrite impl_one, parse_cons by done. apply one_decides; [by apply next_token_star|].
    intros Hne. apply IH; [|done]. pose proof (next_token_length x r). simpl in Hf. lia.
Qed.
End matching.

(** C26: Glob matching agrees with the declarative semantics: for every
    pattern and nonempty string, case sensitive or not, stringmatchlen returns
    and says whether the string is in the language of the parsed pattern; giving up
    after a failed star loses no match.  On the empty string it says whether
    the pattern is empty, so a lone star does not match the empty string. *)
Theorem stringmatchlen_correct p s nocase :
  exists b, stringmatchlen p s nocase = Some b /\
    (s <> [] -> b = true <-> Match nocase (parse p) s) /\ (s = [] -> b = true <-> p = []).
Proof.
  unfold stringmatchlen. destruct s as [|c s].
  - destruct p; eexists; (split; [done|split; [done|]]); done.
  - destruct (impl_decides nocase (length p) p (c :: s)) as (b & skip & -> & Hb & _); [done|done|]. exists b. by split.
Qed.

End Glob.
