(* ===== verification/Dict.v ===== *)
(** * Hash tables (src/redis-stable/src/dict.c)

    Two tables of chained buckets with a rehashing index: entries move from
    the first to the second one bucket at a time, as a side effect of the
    other operations.  The hash function and the policy on resizing are
    parameters.  The theorems relate the operations to a finite map, in
    every phase of the rehashing, bound the rehashing and prove the guarantee
    of the reverse binary cursor of dictScan. *)
From stdpp Require Import base list gmap fin_maps.
From S2P Require Import Prelude.

Module Dict.

Definition DICT_OK : Z := 0.
Definition DICT_ERR : Z := 1.
Definition DICT_HT_INITIAL_EXP : Z := 2.
Definition DICT_HT_INITIAL_SIZE : Z := Z.shiftl 1 DICT_HT_INITIAL_EXP.
Definition dict_force_resize_ratio : Z := 5.
Definition LONG_MAX : Z := INT64_MAX.
(** The size of a [dictEntry] pointer. *)
Definition sizeof_ptr : Z := 8.

Inductive dictResizeEnable : Type :=
  | DICT_RESIZE_ENABLE | DICT_RESIZE_AVOID | DICT_RESIZE_FORBID.

#[global] Instance dictResizeEnable_eq_dec : EqDecision dictResizeEnable.
Proof. solve_decision. Defined.

Definition DICTHT_SIZE (exp : Z) : Z := if exp =? -1 then 0 else u64 (Z.shiftl 1 exp).
Definition DICTHT_SIZE_MASK (exp : Z) : Z := if exp =? -1 then 0 else DICTHT_SIZE exp - 1.

(** The loop of [_dictNextExp]; below [LONG_MAX] the exponent 63 is always
    enough, so 64 iterations are. *)
Fixpoint _dictNextExp_loop (fuel : nat) (e size : Z) : option Z :=
  match fuel with
  | O => None
  | S fuel' =>
      if size <=? u64 (Z.shiftl 1 e) then Some e else _dictNextExp_loop fuel' (e + 1) size
  end.

Definition _dictNextExp (size : Z) : option Z :=
  if LONG_MAX <=? size then Some 63
  else _dictNextExp_loop 64 DICT_HT_INITIAL_EXP size.

(** *** Bit reversal and the cursor *)

Fixpoint rev_loop (fuel : nat) (s mask v : Z) : option Z :=
  match fuel with
  | O => None
  | S fuel' =>
      let s := Z.shiftr s 1 in
      if 0 <? s then
        let mask := Z.lxor mask (u64 (Z.shiftl mask s)) in
        let v := Z.lor (Z.land (Z.shiftr v s) mask)
                       (Z.land (u64 (Z.shiftl v s)) (u64 (Z.lnot mask))) in
        rev_loop fuel' s mask v
      else Some v
  end.

(** [s] is halved from 64 down to 0: seven tests. *)
Definition rev (v : Z) : option Z := rev_loop 7 64 (u64 (Z.lnot 0)) v.

(** [v |= ~m; v = rev(v); v++; v = rev(v)] *)
Definition cursor_next (v m : Z) : option Z :=
  let v := Z.lor v (u64 (Z.lnot m)) in
  v ← rev v;
  let v := u64 (v + 1) in
  rev v.

Section Dict.
Context {K V : Type} `{EqDecision K}.

(** The callbacks of [dictType] the table calls: the hash function, and
    [expandAllowed] on the bytes of the new table and the load factor (given
    as numerator and denominator).  [keyCompare] is the equality of [K];
    [keyDup] and [valDup] are [NULL]. *)
Context (hashFunction : K -> Z) (expandAllowed : option (Z -> Z * Z -> bool)).

(** The global [dict_can_resize]. *)
Context (dict_can_resize : dictResizeEnable).

(** The value field of an entry that was allocated and not yet set. *)
Context (unset : V).

Abbreviation dictEntry := (K * V)%type.

(** One of the two tables: buckets are the chains linked by [next]; a [NULL]
    table is the empty list. *)
Record dictht := mkHt {
  ht_table : list (list dictEntry);
  ht_used : Z;        (* unsigned long *)
  ht_size_exp : Z     (* signed char *)
}.

Record dict := mkDict {
  ht0 : dictht;
  ht1 : dictht;
  rehashidx : Z;      (* long *)
  pauserehash : Z     (* int16_t *)
}.

Definition _dictReset : dictht := mkHt [] 0 (-1).
Definition dictCreate : dict := mkDict _dictReset _dictReset (-1) 0.

Definition dictIsRehashing (d : dict) : bool := negb (rehashidx d =? -1).
Definition dictSize (d : dict) : Z := u64 (ht_used (ht0 d) + ht_used (ht1 d)).
Definition dictSlots (d : dict) : Z :=
  DICTHT_SIZE (ht_size_exp (ht0 d)) + DICTHT_SIZE (ht_size_exp (ht1 d)).

(** [zcalloc] of a table. *)
Definition new_table (newsize : Z) : list (list dictEntry) := replicate (Z.to_nat newsize) [].

(** [malloc] is [None] when [malloc_failed] is [NULL], otherwise it says
    whether [ztrycalloc] succeeds.  Returns the status, [*malloc_failed] and
    the dictionary. *)
Definition _dictExpand (d : dict) (size : Z) (malloc : option bool) : option (Z * bool * dict) :=
  if dictIsRehashing d || (size <? ht_used (ht0 d)) then Some (DICT_ERR, false, d)
  else
    new_ht_size_exp ← _dictNextExp size;
    let newsize := u64 (Z.shiftl 1 new_ht_size_exp) in
    if (newsize <? size) || (u64 (newsize * sizeof_ptr) <? newsize) then Some (DICT_ERR, false, d)
    else if new_ht_size_exp =? ht_size_exp (ht0 d) then Some (DICT_ERR, false, d)
    else match malloc with
    | Some false => Some (DICT_ERR, true, d)
    | _ =>
        let new_ht := mkHt (new_table newsize) 0 new_ht_size_exp in
        match ht_table (ht0 d) with
        | [] => Some (DICT_OK, false, mkDict new_ht (ht1 d) (rehashidx d) (pauserehash d))
        | _ => Some (DICT_OK, false, mkDict (ht0 d) new_ht 0 (pauserehash d))
        end
    end.

Definition dictExpand (d : dict) (size : Z) : option (Z * dict) :=
  '(r, _, d) ← _dictExpand d size None; Some (r, d).

Definition dictTryExpand (d : dict) (size : Z) (malloc_ok : bool) : option (Z * dict) :=
  '(_, failed, d) ← _dictExpand d size (Some malloc_ok);
  Some (if failed : bool then DICT_ERR else DICT_OK, d).

Definition dictResize (d : dict) : option (Z * dict) :=
  if negb (bool_decide (dict_can_resize = DICT_RESIZE_ENABLE)) || dictIsRehashing d
  then Some (DICT_ERR, d)
  else
    let minimal := ht_used (ht0 d) in
    let minimal := if minimal <? DICT_HT_INITIAL_SIZE then DICT_HT_INITIAL_SIZE else minimal in
    dictExpand d minimal.

(** *** Incremental rehashing *)

(** [while(d->ht_table[0][d->rehashidx] == NULL)]: the flag is the early
    [return 1].  Each iteration advances [rehashidx] inside the table. *)
Fixpoint skip_empty (fuel : nat) (tbl : list (list dictEntry)) (idx empty_visits : Z)
    : option (bool * Z * Z) :=
  match fuel with
  | O => None
  | S fuel' =>
      b ← (if 0 <=? idx then tbl !! Z.to_nat idx else None);
      match b with
      | [] =>
          let idx := idx + 1 in
          let empty_visits := empty_visits - 1 in
          if empty_visits =? 0 then Some (true, idx, empty_visits)
          else skip_empty fuel' tbl idx empty_visits
      | _ => Some (false, idx, empty_visits)
      end
  end.

(** [while(de)]: move the chain [de] of the old table to the new one. *)
Fixpoint move_chain (de : list dictEntry) (used0 : Z) (h1 : dictht) : option (Z * dictht) :=
  match de with
  | [] => Some (used0, h1)
  | e :: nextde =>
      let h := Z.land (hashFunction e.1) (DICTHT_SIZE_MASK (ht_size_exp h1)) in
      chain ← ht_table h1 !! Z.to_nat h;
      move_chain nextde (u64 (used0 - 1))
        (mkHt (<[Z.to_nat h := e :: chain]> (ht_table h1)) (u64 (ht_used h1 + 1)) (ht_size_exp h1))
  end.

(** The outer loop of [dictRehash]; the flag is the early [return 1]. *)
Fixpoint dictRehash_loop (n : nat) (d : dict) (empty_visits : Z) : option (bool * dict) :=
  match n with
  | O => Some (false, d)
  | S n' =>
      if ht_used (ht0 d) =? 0 then Some (false, d)
      else if negb (rehashidx d <? DICTHT_SIZE (ht_size_exp (ht0 d))) then None
      else
        '(stop, idx, empty_visits) ←
          skip_empty (S (length (ht_table (ht0 d)))) (ht_table (ht0 d)) (rehashidx d) empty_visits;
        if stop : bool then Some (true, mkDict (ht0 d) (ht1 d) idx (pauserehash d))
        else
          de ← ht_table (ht0 d) !! Z.to_nat idx;
          '(used0, h1) ← move_chain de (ht_used (ht0 d)) (ht1 d);
          dictRehash_loop n'
            (mkDict (mkHt (<[Z.to_nat idx := []]> (ht_table (ht0 d))) used0 (ht_size_exp (ht0 d)))
                    h1 (idx + 1) (pauserehash d)) empty_visits
  end.

(** The steps [n] of the callers are positive. *)
Definition dictRehash (d : dict) (n : Z) : option (Z * dict) :=
  let empty_visits := n * 10 in
  let s0 := DICTHT_SIZE (ht_size_exp (ht0 d)) in
  let s1 := DICTHT_SIZE (ht_size_exp (ht1 d)) in
  if bool_decide (dict_can_resize = DICT_RESIZE_FORBID) || negb (dictIsRehashing d) then Some (0, d)
  else if bool_decide (dict_can_resize = DICT_RESIZE_AVOID) &&
          (((s0 <? s1) && (s1 / s0 <? dict_force_resize_ratio)) ||
           ((s1 <? s0) && (s0 / s1 <? dict_force_resize_ratio))) then Some (0, d)
  else
    '(stop, d) ← dictRehash_loop (Z.to_nat n) d empty_visits;
    if stop : bool then Some (1, d)
    else if ht_used (ht0 d) =? 0 then
      Some (0, mkDict (ht1 d) _dictReset (-1) (pauserehash d))
    else Some (1, d).

Definition _dictRehashStep (d : dict) : option dict :=
  if pauserehash d =? 0 then '(_, d) ← dictRehash d 1; Some d else Some d.

(** [if (dictIsRehashing(d)) _dictRehashStep(d);] *)
Definition rehash_if_needed (d : dict) : option dict :=
  if dictIsRehashing d then _dictRehashStep d else Some d.

(** *** Lookup *)

(** The position of the entry of a key in a chain, with the entry. *)
Definition chain_find (key : K) (he : list dictEntry) : option (nat * dictEntry) :=
  list_find (fun e => e.1 = key) he.

(** A pointer to an entry: its table, bucket and position in the chain. *)
Record entryref := mkRef { er_table : Z; er_idx : Z; er_pos : nat }.

Definition get_ht (d : dict) (t : Z) : dictht := if t =? 0 then ht0 d else ht1 d.
Definition set_ht (d : dict) (t : Z) (h : dictht) : dict :=
  if t =? 0 then mkDict h (ht1 d) (rehashidx d) (pauserehash d)
  else mkDict (ht0 d) h (rehashidx d) (pauserehash d).

(** One iteration of the [for (table = 0; table <= 1; table++)] loops: the
    bucket index and what the chain holds for the key. *)
Definition find_in_table (d : dict) (key : K) (hash t : Z) : option (Z * option (nat * dictEntry)) :=
  let idx := Z.land hash (DICTHT_SIZE_MASK (ht_size_exp (get_ht d t))) in
  he ← ht_table (get_ht d t) !! Z.to_nat idx;
  Some (idx, chain_find key he).

(** Returns the entry with the reference to it. *)
Definition dictFind (d : dict) (key : K) : option (option (entryref * dictEntry) * dict) :=
  if dictSize d =? 0 then Some (None, d)
  else
    d ← rehash_if_needed d;
    let h := hashFunction key in
    '(idx, r) ← find_in_table d key h 0;
    match r with
    | Some (pos, e) => Some (Some (mkRef 0 idx pos, e), d)
    | None =>
        if negb (dictIsRehashing d) then Some (None, d)
        else
          '(idx, r) ← find_in_table d key h 1;
          match r with
          | Some (pos, e) => Some (Some (mkRef 1 idx pos, e), d)
          | None => Some (None, d)
          end
    end.

Definition dictFetchValue (d : dict) (key : K) : option (option V * dict) :=
  '(he, d) ← dictFind d key;
  Some (match he with Some (_, e) => Some e.2 | None => None end, d).

(** *** Insertion *)

Definition dictTypeExpandAllowed (d : dict) : option bool :=
  match expandAllowed with
  | None => Some true
  | Some f =>
      e ← _dictNextExp (u64 (ht_used (ht0 d) + 1));
      Some (f (u64 (DICTHT_SIZE e * sizeof_ptr))
              (ht_used (ht0 d), DICTHT_SIZE (ht_size_exp (ht0 d))))
  end.

Definition _dictExpandIfNeeded (d : dict) : option (Z * dict) :=
  if dictIsRehashing d then Some (DICT_OK, d)
  else if DICTHT_SIZE (ht_size_exp (ht0 d)) =? 0 then dictExpand d DICT_HT_INITIAL_SIZE
  else
    allowed ← dictTypeExpandAllowed d;
    if negb allowed then Some (DICT_OK, d)
    else
      let size := DICTHT_SIZE (ht_size_exp (ht0 d)) in
      if (bool_decide (dict_can_resize = DICT_RESIZE_ENABLE) && (size <=? ht_used (ht0 d))) ||
         (negb (bool_decide (dict_can_resize = DICT_RESIZE_FORBID)) &&
          (dict_force_resize_ratio <? ht_used (ht0 d) / size))
      then dictExpand d (u64 (ht_used (ht0 d) + 1))
      else Some (DICT_OK, d).

(** Returns the index (-1 when the key exists or the expansion failed), the
    entry stored through [existing] and the dictionary. *)
Definition _dictKeyIndex (d : dict) (key : K) (hash : Z) : option (Z * option entryref * dict) :=
  '(r, d) ← _dictExpandIfNeeded d;
  if r =? DICT_ERR then Some (-1, None, d)
  else
    '(idx, r) ← find_in_table d key hash 0;
    match r with
    | Some (pos, _) => Some (-1, Some (mkRef 0 idx pos), d)
    | None =>
        if negb (dictIsRehashing d) then Some (idx, None, d)
        else
          '(idx, r) ← find_in_table d key hash 1;
          match r with
          | Some (pos, _) => Some (-1, Some (mkRef 1 idx pos), d)
          | None => Some (idx, None, d)
          end
    end.

(** Returns the new entry ([None] is [NULL]), [*existing] and the
    dictionary.  The new entry is at the head of its chain. *)
Definition dictAddRaw (d : dict) (key : K) : option (option entryref * option entryref * dict) :=
  d ← rehash_if_needed d;
  '(index, existing, d) ← _dictKeyIndex d key (hashFunction key);
  if index =? -1 then Some (None, existing, d)
  else
    let htidx := if dictIsRehashing d then 1 else 0 in
    let ht := get_ht d htidx in
    chain ← ht_table ht !! Z.to_nat index;
    let ht := mkHt (<[Z.to_nat index := (key, unset) :: chain]> (ht_table ht))
                   (u64 (ht_used ht + 1)) (ht_size_exp ht) in
    Some (Some (mkRef htidx index 0), existing, set_ht d htidx ht).

(** [dictSetVal(d, entry, val)] through a reference. *)
Definition dictSetVal (d : dict) (r : entryref) (val : V) : option dict :=
  let ht := get_ht d (er_table r) in
  chain ← ht_table ht !! Z.to_nat (er_idx r);
  e ← chain !! er_pos r;
  Some (set_ht d (er_table r)
    (mkHt (<[Z.to_nat (er_idx r) := <[er_pos r := (e.1, val)]> chain]> (ht_table ht))
          (ht_used ht) (ht_size_exp ht))).

Definition dictAdd (d : dict) (key : K) (val : V) : option (Z * dict) :=
  '(entry, _, d) ← dictAddRaw d key;
  match entry with
  | None => Some (DICT_ERR, d)
  | Some entry => d ← dictSetVal d entry val; Some (DICT_OK, d)
  end.

(** [None] includes the dereference of a [NULL] [existing]. *)
Definition dictReplace (d : dict) (key : K) (val : V) : option (Z * dict) :=
  '(entry, existing, d) ← dictAddRaw d key;
  match entry with
  | Some entry => d ← dictSetVal d entry val; Some (1, d)
  | None => existing ← existing; d ← dictSetVal d existing val; Some (0, d)
  end.

Definition dictAddOrFind (d : dict) (key : K) : option (option entryref * dict) :=
  '(entry, existing, d) ← dictAddRaw d key;
  Some (match entry with Some e => Some e | None => existing end, d).

(** *** Deletion *)

(** Unlink the entry at a position of bucket [idx] of table [t]. *)
Definition unlink_at (d : dict) (t idx : Z) (pos : nat) : option dict :=
  let ht := get_ht d t in
  chain ← ht_table ht !! Z.to_nat idx;
  Some (set_ht d t (mkHt (<[Z.to_nat idx := delete pos chain]> (ht_table ht))
                         (u64 (ht_used ht - 1)) (ht_size_exp ht))).

(** Returns the unlinked entry; [nofree] only decides whether its memory is
    released. *)
Definition dictGenericDelete (d : dict) (key : K) : option (option dictEntry * dict) :=
  if dictSize d =? 0 then Some (None, d)
  else
    d ← rehash_if_needed d;
    let h := hashFunction key in
    '(idx, r) ← find_in_table d key h 0;
    match r with
    | Some (pos, he) => d ← unlink_at d 0 idx pos; Some (Some he, d)
    | None =>
        if negb (dictIsRehashing d) then Some (None, d)
        else
          '(idx, r) ← find_in_table d key h 1;
          match r with
          | Some (pos, he) => d ← unlink_at d 1 idx pos; Some (Some he, d)
          | None => Some (None, d)
          end
    end.

Definition dictDelete (d : dict) (key : K) : option (Z * dict) :=
  '(he, d) ← dictGenericDelete d key;
  Some (match he with Some _ => DICT_OK | None => DICT_ERR end, d).

Definition dictUnlink (d : dict) (key : K) : option (option dictEntry * dict) :=
  dictGenericDelete d key.

(** The loop of [_dictClear] over the buckets left: the entries freed, in
    order, and [ht_used] after it. *)
Fixpoint _dictClear_loop (buckets : list (list dictEntry)) (used : Z) : list dictEntry * Z :=
  match buckets with
  | [] => ([], used)
  | he :: rest =>
      if 0 <? used then
        let '(freed, used) := _dictClear_loop rest (u64 (used - zlen he)) in
        (he ++ freed, used)
      else ([], used)
  end.

(** The freed entries and the re-initialized table ([callback] is [NULL]). *)
Definition _dictClear (h : dictht) : list dictEntry * dictht :=
  ((_dictClear_loop (ht_table h) (ht_used h)).1, _dictReset).

Definition dictEmpty (d : dict) : list dictEntry * dict :=
  let '(f0, h0) := _dictClear (ht0 d) in
  let '(f1, h1) := _dictClear (ht1 d) in
  (f0 ++ f1, mkDict h0 h1 (-1) 0).

(** *** Scan *)

(** The bucket at the cursor, whose entries are passed to [fn] in order. *)
Definition emit (h : dictht) (v m : Z) : option (list dictEntry) :=
  ht_table h !! Z.to_nat (Z.land v m).

Section Scan.
(** How the cursor is incremented: [cursor_next] below. *)
Context (next : Z -> Z -> option Z).

(** The [do ... while] over the expansions of the cursor in the larger
    table. *)
Fixpoint dictScan_loop (fuel : nat) (h1 : dictht) (v m0 m1 : Z) : option (Z * list dictEntry) :=
  match fuel with
  | O => None
  | S fuel' =>
      de ← emit h1 v m1;
      v ← next v m1;
      if Z.land v (Z.lxor m0 m1) =? 0 then Some (v, de)
      else '(v, rest) ← dictScan_loop fuel' h1 v m0 m1; Some (v, de ++ rest)
  end.

(** Returns the next cursor and the entries passed to [fn] ([bucketfn] is
    [NULL]). [pauserehash] is incremented and decremented back. *)
Definition dictScan_with (d : dict) (v : Z) : option (Z * list dictEntry) :=
  if dictSize d =? 0 then Some (0, [])
  else if negb (dictIsRehashing d) then
    let m0 := DICTHT_SIZE_MASK (ht_size_exp (ht0 d)) in
    de ← emit (ht0 d) v m0;
    v ← next v m0;
    Some (v, de)
  else
    let '(t0, t1) :=
      if DICTHT_SIZE (ht_size_exp (ht1 d)) <? DICTHT_SIZE (ht_size_exp (ht0 d))
      then (ht1 d, ht0 d) else (ht0 d, ht1 d) in
    let m0 := DICTHT_SIZE_MASK (ht_size_exp t0) in
    let m1 := DICTHT_SIZE_MASK (ht_size_exp t1) in
    de ← emit t0 v m0;
    '(v, rest) ← dictScan_loop (S (length (ht_table t1))) t1 v m0 m1;
    Some (v, de ++ rest).
End Scan.

Definition dictScan : dict -> Z -> option (Z * list dictEntry) := dictScan_with cursor_next.

End Dict.

(** ** Bit reversal *)

(** One iteration of [rev]. *)
Definition rev_step (s mask v : Z) : Z :=
  Z.lor (Z.land (Z.shiftr v s) mask) (Z.land (u64 (Z.shiftl v s)) (u64 (Z.lnot mask))).

Definition mask32 : Z := 0x00000000FFFFFFFF.
Definition mask16 : Z := 0x0000FFFF0000FFFF.
Definition mask8 : Z := 0x00FF00FF00FF00FF.
Definition mask4 : Z := 0x0F0F0F0F0F0F0F0F.
Definition mask2 : Z := 0x3333333333333333.
Definition mask1 : Z := 0x5555555555555555.

Lemma rev_steps v :
  rev v = Some (rev_step 1 mask1 (rev_step 2 mask2 (rev_step 4 mask4
    (rev_step 8 mask8 (rev_step 16 mask16 (rev_step 32 mask32 v)))))).
Proof. reflexivity. Qed.

(** The mask selects the low half of every block of [2 * s] bits. *)
Definition mask_ok (s mask : Z) : bool :=
  forallb (fun n => let i := Z.of_nat n in
    if Z.testbit mask i then Z.lxor i s =? i + s else (s <=? i) && (Z.lxor i s =? i - s)) (seq 0 64).

Lemma rev_step_bits s mask v i :
  0 < s -> mask_ok s mask = true -> 0 <= i < 64 ->
  Z.testbit (rev_step s mask v) i = Z.testbit v (Z.lxor i s).
Proof.
  intros Hs Hm Hi. unfold mask_ok in Hm. rewrite forallb_forall in Hm.
  specialize (Hm (Z.to_nat i)). rewrite in_seq, Z2Nat.id in Hm by lia. specialize (Hm ltac:(lia)).
  unfold rev_step. rewrite Z.lor_spec, !Z.land_spec, !testbit_wrap, Z.lnot_spec by lia.
  rewrite Z.shiftr_spec by lia. cbv beta zeta in Hm.
  destruct (Z.testbit mask i); cbn [negb]; bool_hyps.
  - by rewrite andb_true_r, andb_false_r, orb_false_r, Hm.
  - rewrite andb_false_r, andb_true_r, orb_false_l.
    match goal with H : Z.lxor _ _ = _ |- _ => rewrite H end. apply Z.shiftl_spec. lia.
Qed.

Lemma rev_step_range s mask v :
  0 <= mask < 2 ^ 64 -> 0 <= rev_step s mask v < 2 ^ 64.
Proof.
  intros Hm. unfold rev_step. apply lor_range; [lia| |]; apply land_range; [done|].
  apply wrap_range. lia.
Qed.

(** The bit reversal [rev] computes, sealed: proofs use only its bits. *)
Lemma bitrev_sealed : {f : Z -> Z | forall v, rev v = Some (f v) /\ f v =
  rev_step 1 mask1 (rev_step 2 mask2 (rev_step 4 mask4
    (rev_step 8 mask8 (rev_step 16 mask16 (rev_step 32 mask32 v)))))}.
Proof. eexists. intros v. rewrite rev_steps. split; reflexivity. Qed.

Definition bitrev : Z -> Z := proj1_sig bitrev_sealed.

Lemma rev_bitrev v : rev v = Some (bitrev v).
Proof. apply (proj2_sig bitrev_sealed). Qed.

Lemma bitrev_range v : 0 <= bitrev v < 2 ^ 64.
Proof.
  unfold bitrev. rewrite (proj2 (proj2_sig bitrev_sealed v)). apply rev_step_range. done.
Qed.

Lemma bitrev_bits v i : 0 <= i < 64 -> Z.testbit (bitrev v) i = Z.testbit v (63 - i).
Proof.
  intros Hi. unfold bitrev. rewrite (proj2 (proj2_sig bitrev_sealed v)).
  assert (Hx : forall a b, 0 <= a < 64 -> 0 <= b < 64 -> 0 <= Z.lxor a b < 64).
  { intros a b Ha Hb. split; [apply Z.lxor_nonneg; lia|]. apply (Z.lt_le_trans _ (2 ^ 6)); [|lia].
    destruct (decide (Z.lxor a b = 0)) as [->|]; [lia|].
    assert (0 <= Z.lxor a b) by (apply Z.lxor_nonneg; lia).
    apply Z.log2_lt_pow2; [lia|]. eapply Z.le_lt_trans; [apply Z.log2_lxor; lia|].
    assert (forall x, 0 <= x < 64 -> Z.log2 x < 6).
    { intros x Hx. destruct (decide (x = 0)) as [->|]; [done|]. apply Z.log2_lt_pow2; lia. }
    apply Z.max_lub_lt; auto. }
  rewrite !rev_step_bits; try (vm_compute; reflexivity); try lia; repeat (apply Hx; try lia).
  f_equal. rewrite !Z.lxor_assoc. change (Z.lxor 1 _) with 63.
  assert (Hall : forallb (fun n => Z.lxor (Z.of_nat n) 63 =? 63 - Z.of_nat n) (seq 0 64) = true)
    by (vm_compute; reflexivity).
  rewrite forallb_forall in Hall. specialize (Hall (Z.to_nat i)).
  rewrite in_seq, Z2Nat.id in Hall by lia. specialize (Hall ltac:(lia)). by bool_hyps.
Qed.

Lemma bitrev_involutive v : 0 <= v < 2 ^ 64 -> bitrev (bitrev v) = v.
Proof.
  intros Hv. apply (bits_eq 64); [apply bitrev_range|done|].
  intros i Hi. rewrite !bitrev_bits by lia. f_equal. lia.
Qed.

Lemma bitrev_inj a b : 0 <= a < 2 ^ 64 -> 0 <= b < 2 ^ 64 -> bitrev a = bitrev b -> a = b.
Proof. intros Ha Hb H. rewrite <- (bitrev_involutive a), <- (bitrev_involutive b) by done. by rewrite H. Qed.

(** The low [e] bits of a word are the high bits of its reverse. *)
Lemma bitrev_prefix a b e :
  0 <= e <= 64 -> 0 <= a < 2 ^ 64 -> 0 <= b < 2 ^ 64 ->
  Z.land a (Z.ones e) = Z.land b (Z.ones e) <->
  bitrev a / 2 ^ (64 - e) = bitrev b / 2 ^ (64 - e).
Proof.
  intros He Ha Hb. rewrite <- !Z.shiftr_div_pow2 by lia. split; intros H.
  - apply Z.bits_inj'. intros i Hi. rewrite !Z.shiftr_spec by lia.
    destruct (decide (i < e)); cycle 1.
    { rewrite !(testbit_high 64) by (apply bitrev_range || lia). done. }
    rewrite !bitrev_bits by lia.
    assert (Hi' : Z.testbit (Z.land a (Z.ones e)) (63 - (i + (64 - e))) =
                  Z.testbit (Z.land b (Z.ones e)) (63 - (i + (64 - e)))) by (by rewrite H).
    rewrite !Z.land_spec, !Z.testbit_ones_nonneg in Hi' by lia.
    replace (63 - (i + (64 - e)) <? e) with true in Hi' by lia. by rewrite !andb_true_r in Hi'.
  - apply Z.bits_inj'. intros i Hi. rewrite !Z.land_spec, !Z.testbit_ones_nonneg by lia.
    destruct (i <? e) eqn:E; bool_hyps; [|by rewrite !andb_false_r]. rewrite !andb_true_r.
    assert (Hi' : Z.testbit (Z.shiftr (bitrev a) (64 - e)) (e - 1 - i) =
                  Z.testbit (Z.shiftr (bitrev b) (64 - e)) (e - 1 - i)) by (by rewrite H).
    rewrite !Z.shiftr_spec, !bitrev_bits in Hi' by lia.
    by replace (63 - (e - 1 - i + (64 - e))) with i in Hi' by lia.
Qed.

(** The cursor step increments the prefix of the reversed cursor. *)
Lemma cursor_next_spec v e :
  0 <= e <= 64 -> 0 <= v < 2 ^ 64 ->
  exists v', cursor_next v (Z.ones e) = Some v' /\ 0 <= v' < 2 ^ 64 /\
    bitrev v' = ((bitrev v / 2 ^ (64 - e) + 1) * 2 ^ (64 - e)) mod 2 ^ 64.
Proof.
  intros He Hv. unfold cursor_next. rewrite !rev_bitrev. bnd. rewrite rev_bitrev.
  eexists. split; [done|]. split; [apply bitrev_range|].
  rewrite bitrev_involutive by (apply wrap_range; lia). unfold wrap at 1. f_equal.
  assert (bitrev (Z.lor v (u64 (Z.lnot (Z.ones e)))) = Z.lor (bitrev v) (Z.ones (64 - e))) as ->.
  { apply (bits_eq 64); [apply bitrev_range| |].
    - apply lor_range; [lia|apply bitrev_range|]. rewrite Z.ones_equiv.
      assert (2 ^ (64 - e) <= 2 ^ 64) by (apply Z.pow_le_mono_r; lia). lia.
    - intros i Hi. rewrite bitrev_bits, !Z.lor_spec, bitrev_bits, testbit_wrap, Z.lnot_spec by lia.
      rewrite !Z.testbit_ones_nonneg by lia. f_equal. lia. }
  rewrite lor_ones by lia. generalize (bitrev v / 2 ^ (64 - e)) (2 ^ (64 - e)). intros; ring.
Qed.

(** *** The order of the cursors *)

Lemma mod_pow2_zero x n :
  0 <= n -> x mod 2 ^ n = 0 <-> (forall i, 0 <= i < n -> Z.testbit x i = false).
Proof.
  intros Hn. split.
  - intros Hx i Hi. rewrite <- (Z.mod_pow2_bits_low x n i) by lia. rewrite Hx. apply Z.bits_0.
  - intros Hx. apply Z.bits_inj'. intros i Hi. rewrite Z.bits_0.
    destruct (decide (i < n)); [rewrite Z.mod_pow2_bits_low by lia; apply Hx; lia|].
    apply Z.mod_pow2_bits_high. lia.
Qed.

(** The end test of the [do ... while] of [dictScan]. *)
Lemma mask_test v e0 e1 :
  0 <= e0 <= e1 -> e1 <= 64 -> 0 <= v < 2 ^ 64 -> bitrev v mod 2 ^ (64 - e1) = 0 ->
  (Z.land v (Z.lxor (Z.ones e0) (Z.ones e1)) =? 0) = (bitrev v mod 2 ^ (64 - e0) =? 0).
Proof.
  intros He He1 Hv Hm. apply eq_true_iff_eq. rewrite !Z.eqb_eq.
  rewrite mod_pow2_zero by lia. rewrite mod_pow2_zero in Hm by lia. split.
  - intros Hz i Hi. destruct (decide (i < 64 - e1)); [apply Hm; lia|].
    rewrite bitrev_bits by lia.
    assert (Hb : Z.testbit (Z.land v (Z.lxor (Z.ones e0) (Z.ones e1))) (63 - i) = false)
      by (rewrite Hz; apply Z.bits_0).
    rewrite Z.land_spec, Z.lxor_spec, !Z.testbit_ones_nonneg in Hb by lia.
    replace (63 - i <? e0) with false in Hb by lia. replace (63 - i <? e1) with true in Hb by lia.
    by rewrite andb_true_r in Hb.
  - intros Hz. apply Z.bits_inj'. intros i Hi. rewrite Z.bits_0.
    rewrite Z.land_spec, Z.lxor_spec, !Z.testbit_ones_nonneg by lia.
    destruct (i <? e0) eqn:E0, (i <? e1) eqn:E1; bool_hyps; try apply andb_false_r; [lia|].
    cbn [xorb]. rewrite andb_true_r. rewrite <- (Hz (63 - i)) by lia.
    rewrite bitrev_bits by lia. f_equal. lia.
Qed.

Lemma bitrev_0 : bitrev 0 = 0.
Proof.
  apply (bits_eq 64); [apply bitrev_range|done|]. intros i Hi.
  by rewrite bitrev_bits, !Z.bits_0 by lia.
Qed.

(** [block_end x e]: the end of the block of [x] among the [2^e] blocks of
    the reversed cursors. *)
Definition block_end (x e : Z) : Z := (x / 2 ^ (64 - e) + 1) * 2 ^ (64 - e).

Lemma pow_split e : 0 <= e <= 64 -> 2 ^ 64 = 2 ^ e * 2 ^ (64 - e) /\ 0 < 2 ^ (64 - e) /\ 0 < 2 ^ e.
Proof.
  intros He. rewrite <- Z.pow_add_r by lia. split; [f_equal; lia|].
  split; apply Z.pow_pos_nonneg; lia.
Qed.

Lemma block_end_bounds x e :
  0 <= e <= 64 -> 0 <= x < 2 ^ 64 -> x < block_end x e <= 2 ^ 64.
Proof.
  intros He Hx. unfold block_end. destruct (pow_split e He) as (Hp & HB & HE).
  set (B := 2 ^ (64 - e)) in *. set (E := 2 ^ e) in *.
  pose proof (Z.div_mod x B ltac:(lia)). pose proof (Z.mod_pos_bound x B ltac:(lia)).
  assert (x / B < E) by (apply Z.div_lt_upper_bound; lia). nia.
Qed.

Lemma block_end_le x e0 e1 :
  0 <= e0 <= e1 -> e1 <= 64 -> 0 <= x < 2 ^ 64 ->
  block_end x e1 <= block_end x e0 /\
  (block_end x e1 mod 2 ^ (64 - e0) = 0 -> block_end x e1 = block_end x e0) /\
  (block_end x e1 <> block_end x e0 -> block_end (block_end x e1) e0 = block_end x e0).
Proof.
  intros He He1 Hx. unfold block_end.
  assert (Hq : 2 ^ (64 - e0) = 2 ^ (e1 - e0) * 2 ^ (64 - e1)) by (rewrite <- Z.pow_add_r by lia; f_equal; lia).
  assert (0 < 2 ^ (e1 - e0)) by (apply Z.pow_pos_nonneg; lia).
  assert (0 < 2 ^ (64 - e1)) by (apply Z.pow_pos_nonneg; lia).
  set (B1 := 2 ^ (64 - e1)) in *. set (q := 2 ^ (e1 - e0)) in *. rewrite Hq.
  pose proof (Z.div_mod x B1 ltac:(lia)). pose proof (Z.mod_pos_bound x B1 ltac:(lia)).
  assert (Hd : x / (q * B1) = x / B1 / q) by (rewrite Z.mul_comm, Z.div_div by lia; done).
  rewrite Hd. set (a := x / B1) in *.
  pose proof (Z.div_mod a q ltac:(lia)). pose proof (Z.mod_pos_bound a q ltac:(lia)).
  assert (Hle : a + 1 <= (a / q + 1) * q) by nia.
  split; [nia|]. split.
  - rewrite Z.mul_mod_distr_r by lia. intros Hz.
    assert (Hz' : (a + 1) mod q = 0) by nia.
    assert (a + 1 = (a / q + 1) * q); [|nia].
    apply Z.mod_divide in Hz' as [c Hc]; [|lia]. assert (c = a / q + 1) by nia. nia.
  - intros Hne. rewrite Z.div_mul_cancel_r by lia.
    assert (a + 1 < (a / q + 1) * q) by (destruct (decide (a + 1 = (a / q + 1) * q)); [exfalso; apply Hne; nia|lia]).
    assert ((a + 1) / q = a / q) as -> by (symmetry; apply (Z.div_unique _ _ _ (a mod q + 1)); lia).
    done.
Qed.

(** ** Chains and tables *)

Section Invariant.
Context {K V : Type} `{Countable K}.
Context (hashFunction : K -> Z) (hash_range : forall k, 0 <= hashFunction k < 2 ^ 64).
Context (expandAllowed : option (Z -> Z * Z -> bool)).
Context (unset : V).

Abbreviation entries h := (concat (ht_table h) : list (K * V)).

(** A table that is not allocated. *)
Definition ht_null (h : @dictht K V) : Prop := h = _dictReset.

(** An allocated table: a power of two of buckets, every entry in the bucket
    of its hash, [ht_used] the number of entries. *)
Record ht_live (h : @dictht K V) : Prop := {
  live_exp : 2 <= ht_size_exp h <= 60;
  live_len : zlen (ht_table h) = 2 ^ ht_size_exp h;
  live_used : ht_used h = zlen (entries h);
  live_placed : forall i b e, ht_table h !! i = Some b -> e ∈ b ->
    Z.land (hashFunction e.1) (Z.ones (ht_size_exp h)) = Z.of_nat i
}.

Definition dict_entries (d : @dict K V) : list (K * V) := entries (ht0 d) ++ entries (ht1 d).

(** The two phases of a dictionary. *)
Definition stable_ok (d : @dict K V) : Prop :=
  rehashidx d = -1 /\ (ht_null (ht0 d) \/ ht_live (ht0 d)) /\ ht_null (ht1 d).

Definition rehashing_ok (d : @dict K V) : Prop :=
  0 <= rehashidx d <= zlen (ht_table (ht0 d)) /\ ht_live (ht0 d) /\ ht_live (ht1 d) /\
  (forall i, Z.of_nat i < rehashidx d -> ht_table (ht0 d) !! i = Some [] \/ ht_table (ht0 d) !! i = None).

Record dict_wf (d : @dict K V) : Prop := {
  wf_phase : stable_ok d \/ rehashing_ok d;
  wf_nodup : NoDup (dict_entries d).*1;
  wf_bound : zlen (dict_entries d) <= 2 ^ 60
}.

(** The abstract value of a dictionary. *)
Definition dict_repr (d : @dict K V) (m : gmap K V) : Prop :=
  dict_wf d /\ m = list_to_map (dict_entries d).

Lemma size_live e : 2 <= e <= 60 -> DICTHT_SIZE e = 2 ^ e /\ DICTHT_SIZE_MASK e = Z.ones e.
Proof.
  intros He. unfold DICTHT_SIZE_MASK, DICTHT_SIZE. if_lia.
  assert (2 ^ e <= 2 ^ 60) by (apply Z.pow_le_mono_r; lia).
  rewrite Z.shiftl_1_l, wrap_small, Z.ones_equiv by lia. lia.
Qed.

Lemma concat_split {A} (t : list (list A)) i b b' :
  t !! i = Some b ->
  concat t = concat (take i t) ++ b ++ concat (drop (S i) t) /\
  concat (<[i := b']> t) = concat (take i t) ++ b' ++ concat (drop (S i) t).
Proof.
  intros Hi. split.
  - rewrite <- (take_drop_middle t i b Hi) at 1. rewrite concat_app. done.
  - rewrite insert_take_drop by (by eapply lookup_lt_Some). rewrite concat_app. done.
Qed.

Lemma concat_insert_perm {A} (t : list (list A)) i b b' x :
  t !! i = Some b -> b' ≡ₚ x ++ b -> concat (<[i := b']> t) ≡ₚ x ++ concat t.
Proof.
  intros Hi Hb. destruct (concat_split t i b b' Hi) as [-> ->]. rewrite Hb. solve_Permutation.
Qed.

Lemma concat_remove_perm {A} (t : list (list A)) i b b' x :
  t !! i = Some b -> b ≡ₚ x ++ b' -> concat t ≡ₚ x ++ concat (<[i := b']> t).
Proof.
  intros Hi Hb. destruct (concat_split t i b b' Hi) as [-> ->]. rewrite Hb. solve_Permutation.
Qed.

Lemma zlen_perm {A} (l k : list A) : l ≡ₚ k -> zlen l = zlen k.
Proof. intros Hp. unfold zlen. by rewrite Hp. Qed.

Lemma zlen_insert {A} (l : list A) i x : zlen (<[i := x]> l) = zlen l.
Proof. unfold zlen. by rewrite length_insert. Qed.

(** Replacing a bucket keeps the table well formed. *)
Lemma live_update h i b b' u :
  ht_live h -> ht_table h !! i = Some b ->
  (forall e, e ∈ b' -> Z.land (hashFunction e.1) (Z.ones (ht_size_exp h)) = Z.of_nat i) ->
  u = ht_used h - zlen b + zlen b' ->
  ht_live (mkHt (<[i := b']> (ht_table h)) u (ht_size_exp h)).
Proof.
  intros Hl Hi Hb Hu. split; cbn; [apply Hl|rewrite zlen_insert; apply Hl| |].
  - destruct (concat_split _ i b b' Hi) as [E1 E2]. pose proof (live_used _ Hl) as Hu0.
    rewrite E1 in Hu0. rewrite E2. rewrite !zlen_app in *. lia.
  - intros j c e Hj He. destruct (decide (i = j)) as [->|].
    + rewrite list_lookup_insert_eq in Hj by (by eapply lookup_lt_Some). injection Hj as <-. auto.
    + rewrite list_lookup_insert_ne in Hj by done. by eapply (live_placed _ Hl).
Qed.

Lemma live_bucket h k :
  ht_live h ->
  let idx := Z.land (hashFunction k) (DICTHT_SIZE_MASK (ht_size_exp h)) in
  0 <= idx < 2 ^ ht_size_exp h /\ exists b, ht_table h !! Z.to_nat idx = Some b.
Proof.
  intros Hl idx. pose proof (live_exp _ Hl) as He. destruct (size_live _ He) as [_ Hm].
  assert (Hi : 0 <= idx < 2 ^ ht_size_exp h).
  { subst idx. rewrite Hm. apply land_range. rewrite Z.ones_equiv.
    assert (0 < 2 ^ ht_size_exp h) by (apply Z.pow_pos_nonneg; lia). lia. }
  split; [done|]. apply lookup_lt_is_Some_2. pose proof (live_len _ Hl) as HL. unfold zlen in HL. lia.
Qed.

Lemma elem_of_concat_lookup {A} (t : list (list A)) x :
  x ∈ concat t <-> exists i b, t !! i = Some b /\ x ∈ b.
Proof.
  rewrite list_elem_of_In, in_concat. split.
  - intros (b & Hb & Hx). apply list_elem_of_In in Hb, Hx.
    apply list_elem_of_lookup in Hb as [i Hi]. eauto.
  - intros (i & b & Hi & Hx). exists b. rewrite <- !list_elem_of_In.
    split; [|done]. apply list_elem_of_lookup. eauto.
Qed.

(** The entry of a key can only be in the bucket of its hash. *)
Lemma live_elem h k v b :
  ht_live h ->
  ht_table h !! Z.to_nat (Z.land (hashFunction k) (DICTHT_SIZE_MASK (ht_size_exp h))) = Some b ->
  (k, v) ∈ entries h <-> (k, v) ∈ b.
Proof.
  intros Hl Hb. destruct (size_live _ (live_exp _ Hl)) as [_ Hm]. rewrite elem_of_concat_lookup. split.
  - intros (i & c & Hi & Hc). pose proof (live_placed _ Hl i c (k, v) Hi Hc) as Hp. cbn in Hp.
    rewrite Hm, Hp, Nat2Z.id in Hb. congruence.
  - eauto.
Qed.

Lemma chain_find_Some k (b : list (K * V)) pos e :
  chain_find k b = Some (pos, e) -> e.1 = k /\ b !! pos = Some e /\ (k, e.2) ∈ b.
Proof.
  intros (Hb & <- & _)%list_find_Some. destruct e as [k' v]. cbn in *.
  split; [done|]. split; [done|]. apply list_elem_of_lookup. eauto.
Qed.

Lemma chain_find_None k (b : list (K * V)) : chain_find k b = None -> forall v, (k, v) ∉ b.
Proof. intros Hn%list_find_None v Hv. rewrite Forall_forall in Hn. by apply (Hn (k, v)). Qed.

(** *** Rehashing *)

Lemma move_chain_spec de used0 h1 :
  ht_live h1 -> zlen de <= used0 < 2 ^ 64 -> zlen (entries h1) + zlen de < 2 ^ 64 ->
  exists h1', move_chain hashFunction de used0 h1 = Some (used0 - zlen de, h1') /\
    ht_live h1' /\ entries h1' ≡ₚ de ++ entries h1 /\ ht_size_exp h1' = ht_size_exp h1.
Proof.
  revert used0 h1. induction de as [|e de IH]; intros used0 h1 Hl Hu Hz.
  { exists h1. rewrite zlen_nil, Z.sub_0_r. done. }
  rewrite zlen_cons in *. pose proof (zlen_nonneg de). pose proof (zlen_nonneg (entries h1)).
  destruct (live_bucket h1 e.1 Hl) as [Hi [b Hb]]. destruct (size_live _ (live_exp _ Hl)) as [_ Hm].
  cbn [move_chain]. rewrite Hb. bnd. rewrite Hm in *.
  set (i := Z.land (hashFunction e.1) (Z.ones (ht_size_exp h1))) in *.
  pose proof (live_used _ Hl) as Hused. rewrite !wrap_small by lia.
  assert (Hl' : ht_live (mkHt (<[Z.to_nat i := e :: b]> (ht_table h1)) (ht_used h1 + 1) (ht_size_exp h1))).
  { eapply live_update; [done|done| |rewrite zlen_cons; lia].
    intros e' [->|He']%elem_of_cons; [by rewrite Z2Nat.id by lia|].
    by eapply (live_placed _ Hl). }
  assert (Hp : concat (<[Z.to_nat i := e :: b]> (ht_table h1)) ≡ₚ [e] ++ entries h1)
    by (by eapply concat_insert_perm).
  destruct (IH (used0 - 1) _ Hl') as (h1' & -> & Hl1 & Hp1 & He1); cbn in *; [lia| |].
  { rewrite (zlen_perm _ _ Hp), zlen_cons. lia. }
  exists h1'. split; [do 2 f_equal; lia|]. split; [done|]. split; [|done].
  rewrite Hp1, Hp. solve_Permutation.
Qed.

(** A table in use has a non-empty bucket; while rehashing it is at or after
    [rehashidx]. *)
Lemma live_nonempty h :
  ht_live h -> ht_used h <> 0 -> exists j b, ht_table h !! j = Some b /\ b <> [].
Proof.
  intros Hl Hu. rewrite (live_used _ Hl) in Hu.
  destruct (entries h) as [|e r] eqn:E; [done|].
  assert (He : e ∈ entries h) by (rewrite E; apply elem_of_cons; auto).
  apply elem_of_concat_lookup in He as (j & b & Hj & Hb). exists j, b. split; [done|].
  intros ->. by apply elem_of_nil in Hb.
Qed.

Lemma skip_empty_spec fuel (tbl : list (list (K * V))) idx ev j b :
  0 <= idx <= Z.of_nat j -> tbl !! j = Some b -> b <> [] -> (j < Z.to_nat idx + fuel)%nat ->
  exists stop idx' ev', skip_empty fuel tbl idx ev = Some (stop, idx', ev') /\
    idx <= idx' <= Z.of_nat j /\ (stop = true -> idx < idx') /\
    (forall i, idx <= Z.of_nat i < idx' -> tbl !! i = Some []) /\
    (stop = false -> exists c, tbl !! Z.to_nat idx' = Some c).
Proof.
  intros Hidx Hj Hb. revert idx ev Hidx.
  induction fuel as [|fuel IH]; intros idx ev Hidx Hf; [lia|].
  destruct (lookup_lt_is_Some_2 tbl (Z.to_nat idx)) as [c Hc]; [apply lookup_lt_Some in Hj; lia|].
  cbn [skip_empty]. if_lia. rewrite Hc. bnd. destruct c as [|e c].
  - assert (idx <> Z.of_nat j) by (intros ->; rewrite Nat2Z.id in Hc; congruence).
    case_if E.
    + do 3 eexists. split; [done|]. split; [lia|]. split; [lia|]. split; [|done].
      intros i Hi. assert (i = Z.to_nat idx) as -> by lia. done.
    + destruct (IH (idx + 1) (ev - 1)) as (stop & idx' & ev' & -> & H1 & H2 & H3 & H4); [lia|lia|].
      do 3 eexists. split; [done|]. split; [lia|]. split; [lia|]. split; [|done].
      intros i Hi. destruct (decide (i = Z.to_nat idx)) as [->|]; [done|]. apply H3. lia.
  - do 3 eexists. split; [done|]. split; [lia|]. split; [done|]. split; [lia|eauto].
Qed.

(** What one call of the rehashing loop preserves, and its progress. *)
Definition rehash_rel (d d' : @dict K V) : Prop :=
  rehashing_ok d' /\ dict_entries d' ≡ₚ dict_entries d /\ pauserehash d' = pauserehash d /\
  ht_size_exp (ht0 d') = ht_size_exp (ht0 d) /\ ht_size_exp (ht1 d') = ht_size_exp (ht1 d) /\
  rehashidx d <= rehashidx d'.

(** Moving one bucket. *)
Lemma move_bucket_spec d idx de :
  rehashing_ok d -> zlen (dict_entries d) <= 2 ^ 60 -> rehashidx d <= idx ->
  (forall i, rehashidx d <= Z.of_nat i < idx -> ht_table (ht0 d) !! i = Some []) ->
  ht_table (ht0 d) !! Z.to_nat idx = Some de ->
  exists used0 h1, move_chain hashFunction de (ht_used (ht0 d)) (ht1 d) = Some (used0, h1) /\
    rehash_rel d (mkDict (mkHt (<[Z.to_nat idx := []]> (ht_table (ht0 d))) used0 (ht_size_exp (ht0 d)))
                         h1 (idx + 1) (pauserehash d)).
Proof.
  intros (H0 & Hl0 & Hl1 & Hpre) Hz Hle Hgap Hde. unfold dict_entries in Hz. rewrite zlen_app in Hz.
  pose proof (zlen_nonneg (entries (ht1 d))). pose proof (zlen_nonneg de).
  assert (Hp0 : entries (ht0 d) ≡ₚ de ++ concat (<[Z.to_nat idx := []]> (ht_table (ht0 d))))
    by (eapply concat_remove_perm; [done|by rewrite app_nil_r]).
  pose proof (zlen_perm _ _ Hp0) as Hz0. rewrite zlen_app in Hz0.
  set (t0' := <[Z.to_nat idx := []]> (ht_table (ht0 d))) in *. pose proof (zlen_nonneg (concat t0')).
  pose proof (live_used _ Hl0) as Hu0.
  destruct (move_chain_spec de (ht_used (ht0 d)) (ht1 d)) as (h1 & -> & Hlh & Hph & Heh); [done|lia|lia|].
  exists (ht_used (ht0 d) - zlen de), h1. split; [done|].
  split; [|split; [|split; [done|split; [done|split; [done|cbn; lia]]]]].
  - split.
    { cbn. subst t0'. rewrite zlen_insert. apply lookup_lt_Some in Hde. unfold zlen. lia. }
    split.
    { eapply live_update; [done|done|intros e He%elem_of_nil; done|]. rewrite zlen_nil. lia. }
    split; [done|]. cbn. intros i Hi. destruct (decide (i = Z.to_nat idx)) as [->|].
    { left. apply list_lookup_insert_eq. by eapply lookup_lt_Some. }
    subst t0'. rewrite list_lookup_insert_ne by lia.
    destruct (decide (Z.of_nat i < rehashidx d)); [auto|]. left. apply Hgap. lia.
  - unfold dict_entries. cbn. rewrite Hph, Hp0. solve_Permutation.
Qed.

Lemma rehash_rel_trans d1 d2 d3 : rehash_rel d1 d2 -> rehash_rel d2 d3 -> rehash_rel d1 d3.
Proof.
  intros (A1 & A2 & A3 & A4 & A5 & A6) (B1 & B2 & B3 & B4 & B5 & B6).
  split; [done|]. split; [by rewrite B2|]. split; [congruence|]. split; [congruence|].
  split; [congruence|lia].
Qed.

Lemma rehash_loop_spec n d ev :
  rehashing_ok d -> zlen (dict_entries d) <= 2 ^ 60 ->
  exists stop d', dictRehash_loop hashFunction n d ev = Some (stop, d') /\ rehash_rel d d' /\
    ((1 <= n)%nat -> ht_used (ht0 d) <> 0 -> rehashidx d < rehashidx d') /\
    (ht_used (ht0 d) = 0 -> stop = false /\ d' = d) /\
    (stop = true -> ht_used (ht0 d') <> 0).
Proof.
  revert d ev. induction n as [|n IH]; intros d ev Hr Hz.
  { exists false, d. split; [done|]. split; [|split; [lia|split; done]]. by repeat (split; [done|]). }
  cbn [dictRehash_loop]. case_if E0.
  { exists false, d. split; [done|]. split; [|split_and!; done]. by repeat (split; [done|]). }
  destruct Hr as (H0 & Hl0 & Hl1 & Hpre) eqn:EHr.
  destruct (live_nonempty _ Hl0 E0) as (j & b & Hj & Hb).
  assert (Hrj : rehashidx d <= Z.of_nat j).
  { destruct (decide (Z.of_nat j < rehashidx d)) as [Hlt|]; [|lia].
    destruct (Hpre j Hlt) as [Hn|Hn]; congruence. }
  destruct (size_live _ (live_exp _ Hl0)) as [Hsz _]. pose proof (live_len _ Hl0) as Hlen.
  pose proof (lookup_lt_Some _ _ _ Hj) as Hjl. rewrite Hsz. unfold zlen in Hlen. if_lia.
  destruct (skip_empty_spec (S (length (ht_table (ht0 d)))) (ht_table (ht0 d)) (rehashidx d) ev j b)
    as (stop & idx & ev' & -> & I1 & I2 & I3 & I4); [lia|done|done|lia|]. bnd.
  destruct stop.
  - exists true, (mkDict (ht0 d) (ht1 d) idx (pauserehash d)). split; [done|].
    split; [|split; [cbn; lia|split; [done|by cbn]]]. split; [|split; [done|repeat (split; [done|])]; cbn; lia].
    split; [cbn; unfold zlen; lia|]. split; [done|]. split; [done|]. cbn. intros i Hi.
    destruct (decide (Z.of_nat i < rehashidx d)); [auto|]. left. apply I3. lia.
  - destruct (I4 eq_refl) as [de Hde]. rewrite Hde. bnd.
    destruct (move_bucket_spec d idx de Hr Hz) as (u0 & h1 & -> & Hrel); [lia|done|done|]. bnd.
    set (d1 := mkDict _ h1 _ _) in *.
    destruct (IH d1 ev') as (stop & d' & -> & Hrel' & _ & _ & Hst); [apply Hrel| |].
    { destruct Hrel as (_ & Hp & _). by rewrite (zlen_perm _ _ Hp). }
    exists stop, d'. split; [done|]. split; [by eapply rehash_rel_trans|]. split; [|by split].
    intros _ _. destruct Hrel' as (_ & _ & _ & _ & _ & Hle). subst d1. cbn in Hle. lia.
Qed.

(** *** Representation *)

Lemma repr_lookup d m k v : dict_repr d m -> m !! k = Some v <-> (k, v) ∈ dict_entries d.
Proof.
  intros [Hw ->]. symmetry. apply elem_of_list_to_map. apply Hw.
Qed.

Lemma repr_lookup_None d m k : dict_repr d m -> (forall v, (k, v) ∉ dict_entries d) -> m !! k = None.
Proof.
  intros Hr Hn. destruct (m !! k) as [v|] eqn:E; [|done].
  apply (repr_lookup d m k v Hr) in E. by apply Hn in E.
Qed.

Lemma repr_perm d d' m :
  dict_repr d m -> (stable_ok d' \/ rehashing_ok d') -> dict_entries d' ≡ₚ dict_entries d ->
  dict_repr d' m.
Proof.
  intros [Hw ->] Hph Hp. split.
  - split; [done| |].
    + rewrite Hp. apply Hw.
    + rewrite (zlen_perm _ _ Hp). apply Hw.
  - symmetry. apply list_to_map_proper; [|done]. rewrite Hp. apply Hw.
Qed.

Lemma repr_size d m : dict_repr d m -> zlen (dict_entries d) = Z.of_nat (size m).
Proof. intros [Hw ->]. unfold zlen. by rewrite map_size_list_to_map by apply Hw. Qed.

(** The empty dictionary. *)
Lemma create_repr : dict_repr dictCreate ∅.
Proof.
  split; [|done]. split; [|constructor|done]. left. split; [done|]. split; [by left|done].
Qed.

Lemma rehash_done d :
  rehashing_ok d -> ht_used (ht0 d) = 0 ->
  stable_ok (mkDict (ht1 d) _dictReset (-1) (pauserehash d)) /\
  dict_entries (mkDict (ht1 d) _dictReset (-1) (pauserehash d)) = dict_entries d.
Proof.
  intros (H0 & Hl0 & Hl1 & _) Hu. split.
  - split; [done|]. split; [by right|done].
  - unfold dict_entries. cbn. rewrite app_nil_r.
    rewrite (live_used _ Hl0) in Hu. destruct (entries (ht0 d)); [done|].
    rewrite zlen_cons in Hu. pose proof (zlen_nonneg l). lia.
Qed.

(** Whether the policy lets the tables of [d] be rehashed: always, never, or
    only when their sizes are far apart. *)
Definition may_rehash (cr : dictResizeEnable) (d : @dict K V) : bool :=
  let s0 := DICTHT_SIZE (ht_size_exp (ht0 d)) in
  let s1 := DICTHT_SIZE (ht_size_exp (ht1 d)) in
  match cr with
  | DICT_RESIZE_ENABLE => true
  | DICT_RESIZE_AVOID => negb (((s0 <? s1) && (s1 / s0 <? dict_force_resize_ratio)) || ((s1 <? s0) && (s0 / s1 <? dict_force_resize_ratio)))
  | DICT_RESIZE_FORBID => false
  end.

(** While there is something to move, the index is in the table. *)
Lemma index_inside d : rehashing_ok d -> ht_used (ht0 d) <> 0 -> rehashidx d < zlen (ht_table (ht0 d)).
Proof.
  intros (_ & Hl & _ & Hpre) Hu. destruct (live_nonempty _ Hl Hu) as (j & b & Hj & Hb). pose proof (lookup_lt_Some _ _ _ Hj).
  destruct (decide (Z.of_nat j < rehashidx d)) as [Hlt|]; [destruct (Hpre j Hlt) as [Hn|Hn]; congruence|unfold zlen; lia].
Qed.

Lemma rehash_spec cr d m n :
  dict_repr d m -> 1 <= n ->
  exists r d', dictRehash hashFunction cr d n = Some (r, d') /\ dict_repr d' m /\
    pauserehash d' = pauserehash d /\
    (r <> 0 -> r = 1 /\ rehashing_ok d /\ rehashing_ok d' /\ rehashidx d < rehashidx d' < zlen (ht_table (ht0 d')) /\
       ht_size_exp (ht0 d') = ht_size_exp (ht0 d) /\ ht_size_exp (ht1 d') = ht_size_exp (ht1 d)) /\
    (may_rehash cr d = true -> r = 0 -> dictIsRehashing d' = false).
Proof.
  intros Hr Hn. unfold dictRehash. destruct (bool_decide _ || _) eqn:E1.
  { exists 0, d. split_and!; try done. intros Hm _. destruct cr; [|by destruct (dictIsRehashing d)..]; by destruct (dictIsRehashing d). }
  destruct (bool_decide _ && _) eqn:E2.
  { exists 0, d. split_and!; try done. intros Hm _. apply andb_true_iff in E2 as [->%bool_decide_eq_true_1 E2]. cbn [may_rehash] in Hm. by rewrite E2 in Hm. }
  assert (Hok : rehashing_ok d).
  { destruct (wf_phase _ (proj1 Hr)) as [[Hs _]|]; [|done].
    unfold dictIsRehashing in E1. rewrite Hs in E1. by destruct (bool_decide _). }
  destruct (rehash_loop_spec (Z.to_nat n) d (n * 10) Hok (wf_bound _ (proj1 Hr)))
    as (stop & d' & -> & (Hok' & Hp & Hpa & He0 & He1 & Hle) & Hprog & Hid & Hst). bnd.
  assert (Hr' : dict_repr d' m) by (eapply repr_perm; eauto).
  assert (Hnz : ht_used (ht0 d') <> 0 -> rehashidx d < rehashidx d' < zlen (ht_table (ht0 d'))).
  { intros Hs. split; [|by apply index_inside]. apply Hprog; [lia|]. intros Hz. destruct (Hid Hz) as [_ ->]. done. }
  destruct stop.
  - exists 1, d'. split; [done|]. split; [done|]. split; [done|]. split; [|done].
    intros _. split_and!; auto; by apply Hnz, Hst.
  - case_if E3.
    + destruct (rehash_done d' Hok' E3) as [Hsd He]. eexists 0, _. split; [done|].
      split; [eapply repr_perm; [done|by left|by rewrite He]|]. split; [done|]. by split.
    + exists 1, d'. split; [done|]. split; [done|]. split; [done|]. split; [|done].
      intros _. split_and!; auto; by apply Hnz.
Qed.

Lemma rehash_if_needed_spec cr d m :
  dict_repr d m -> exists d', rehash_if_needed hashFunction cr d = Some d' /\ dict_repr d' m.
Proof.
  intros Hr. unfold rehash_if_needed, _dictRehashStep. case_if E1; [|eauto]. case_if E2; [|eauto].
  destruct (rehash_spec cr d m 1 Hr ltac:(lia)) as (r & d' & -> & Hr' & _). bnd. eauto.
Qed.

(** *** Updating one bucket *)

Lemma get_set_ht (d : @dict K V) t h :
  dict_entries (set_ht d t h) =
    (if t =? 0 then entries h ++ entries (ht1 d) else entries (ht0 d) ++ entries h).
Proof. unfold set_ht. by destruct (t =? 0). Qed.

Lemma phase_update d t idx b b' u :
  stable_ok d \/ rehashing_ok d -> ht_live (get_ht d t) ->
  ht_table (get_ht d t) !! idx = Some b ->
  (forall e, e ∈ b' ->
     Z.land (hashFunction e.1) (Z.ones (ht_size_exp (get_ht d t))) = Z.of_nat idx) ->
  u = ht_used (get_ht d t) - zlen b + zlen b' ->
  (b = [] -> t <> 0 \/ rehashidx d = -1) ->
  let d' := set_ht d t (mkHt (<[idx := b']> (ht_table (get_ht d t))) u (ht_size_exp (get_ht d t))) in
  stable_ok d' \/ rehashing_ok d'.
Proof.
  intros Hph Hl Hb Hpl Hu Hne d'.
  assert (Hl' : ht_live (mkHt (<[idx := b']> (ht_table (get_ht d t))) u (ht_size_exp (get_ht d t))))
    by (by eapply live_update).
  subst d'. unfold get_ht, set_ht in *. destruct (t =? 0) eqn:Et; bool_hyps.
  - destruct Hph as [(H1 & H2 & H3)|(H1 & H2 & H3 & H4)].
    + left. split; [done|]. split; [by right|done].
    + right. split; [cbn; by rewrite zlen_insert|]. split; [done|]. split; [done|]. cbn. intros i Hi.
      destruct (decide (i = idx)) as [->|]; [|rewrite list_lookup_insert_ne by done; auto].
      destruct (H4 idx Hi) as [Hn|Hn]; [|congruence]. assert (b = []) by congruence.
      destruct (Hne ltac:(done)); lia.
  - destruct Hph as [(H1 & H2 & H3)|(H1 & H2 & H3 & H4)].
    + rewrite H3 in Hb. cbn in Hb. by rewrite lookup_nil in Hb.
    + right. by split.
Qed.

Lemma entries_update d t idx b b' u x y :
  ht_table (get_ht d t) !! idx = Some b -> x ++ b' ≡ₚ y ++ b ->
  x ++ dict_entries (set_ht d t (mkHt (<[idx := b']> (ht_table (get_ht d t))) u
                                      (ht_size_exp (get_ht d t)))) ≡ₚ y ++ dict_entries d.
Proof.
  intros Hb Hp. rewrite get_set_ht. unfold get_ht, dict_entries in *. cbn [ht_table].
  destruct (t =? 0); destruct (concat_split _ idx b b' Hb) as [-> ->].
  - transitivity ((x ++ b') ++ concat (take idx (ht_table (ht0 d))) ++
      concat (drop (S idx) (ht_table (ht0 d))) ++ entries (ht1 d)); [solve_Permutation|].
    rewrite Hp. solve_Permutation.
  - transitivity ((x ++ b') ++ concat (take idx (ht_table (ht1 d))) ++
      concat (drop (S idx) (ht_table (ht1 d))) ++ entries (ht0 d)); [solve_Permutation|].
    rewrite Hp. solve_Permutation.
Qed.

Lemma repr_insert d d' m k v :
  dict_repr d m -> (stable_ok d' \/ rehashing_ok d') -> zlen (dict_entries d) < 2 ^ 60 ->
  m !! k = None -> dict_entries d' ≡ₚ (k, v) :: dict_entries d -> dict_repr d' (<[k := v]> m).
Proof.
  intros [Hw ->] Hph Hz Hk Hp.
  assert (Hnd : NoDup (dict_entries d').*1).
  { rewrite Hp. cbn. constructor; [|apply Hw]. by apply not_elem_of_list_to_map. }
  split; [split; [done|done|]|].
  - rewrite (zlen_perm _ _ Hp), zlen_cons. lia.
  - rewrite (list_to_map_proper _ _ Hnd Hp). done.
Qed.

Lemma repr_replace d d' m k v0 v rest :
  dict_repr d m -> (stable_ok d' \/ rehashing_ok d') ->
  dict_entries d ≡ₚ (k, v0) :: rest -> dict_entries d' ≡ₚ (k, v) :: rest -> dict_repr d' (<[k := v]> m).
Proof.
  intros [Hw ->] Hph Hp Hp'. pose proof (wf_nodup _ Hw) as Hnd0.
  assert (Hnd : NoDup (dict_entries d').*1) by (rewrite Hp'; rewrite Hp in Hnd0; done).
  split; [split; [done|done|]|].
  - pose proof (wf_bound _ Hw) as Hb. rewrite (zlen_perm _ _ Hp) in Hb.
    by rewrite (zlen_perm _ _ Hp').
  - rewrite (list_to_map_proper _ _ Hnd Hp'), (list_to_map_proper _ _ Hnd0 Hp). cbn.
    by rewrite insert_insert_eq.
Qed.

Lemma repr_delete d d' m k v :
  dict_repr d m -> (stable_ok d' \/ rehashing_ok d') ->
  dict_entries d ≡ₚ (k, v) :: dict_entries d' -> dict_repr d' (delete k m).
Proof.
  intros [Hw ->] Hph Hp. pose proof (wf_nodup _ Hw) as Hnd.
  assert (Hnd' := Hnd). rewrite Hp in Hnd'. cbn in Hnd'. apply NoDup_cons in Hnd' as [Hk Hnd'].
  split; [split; [done|done|]|].
  - pose proof (wf_bound _ Hw) as Hb. rewrite (zlen_perm _ _ Hp), zlen_cons in Hb. lia.
  - rewrite (list_to_map_proper _ _ Hnd Hp). cbn. rewrite delete_insert_id; [done|].
    by apply not_elem_of_list_to_map.
Qed.

(** *** Searching *)

Lemma find_live d t k :
  ht_live (get_ht d t) ->
  exists idx b, find_in_table d k (hashFunction k) t = Some (idx, chain_find k b) /\ 0 <= idx /\
    ht_table (get_ht d t) !! Z.to_nat idx = Some b /\
    Z.land (hashFunction k) (Z.ones (ht_size_exp (get_ht d t))) = idx /\
    (forall v, (k, v) ∈ entries (get_ht d t) <-> (k, v) ∈ b).
Proof.
  intros Hl. destruct (live_bucket _ k Hl) as [Hi [b Hb]].
  destruct (size_live _ (live_exp _ Hl)) as [_ Hm].
  unfold find_in_table. rewrite Hb. bnd. do 2 eexists. split; [done|]. split; [lia|].
  split; [done|]. split; [by rewrite Hm|]. intros v. by apply live_elem.
Qed.

(** [ref_ok d t idx pos k v]: the reference points to the entry of [k]. *)
Definition ref_ok (d : @dict K V) (t idx : Z) (pos : nat) (k : K) (v : V) : Prop :=
  ht_live (get_ht d t) /\ 0 <= idx /\
  exists b, ht_table (get_ht d t) !! Z.to_nat idx = Some b /\ b !! pos = Some (k, v).

Lemma live_of_nonempty d m :
  dict_repr d m -> dictSize d <> 0 -> ht_live (ht0 d).
Proof.
  intros [Hw _] Hs. destruct (wf_phase _ Hw) as [(H1 & [H2|H2] & H3)|(_ & H2 & _)]; try done.
  unfold dictSize in Hs. rewrite H2, H3 in Hs. done.
Qed.

Lemma size_count d m : dict_repr d m -> dictSize d = zlen (dict_entries d).
Proof.
  intros [Hw _]. pose proof (wf_bound _ Hw) as Hb. pose proof (zlen_nonneg (dict_entries d)).
  unfold dictSize, dict_entries in *. rewrite zlen_app in *.
  assert (Hu : forall h, ht_null h \/ ht_live h -> ht_used h = zlen (entries h)).
  { intros h [->|Hl]; [done|]. apply (live_used _ Hl). }
  rewrite (Hu (ht0 d)), (Hu (ht1 d)), wrap_small; [done|lia|..];
    destruct (wf_phase _ Hw) as [(? & ? & ?)|(? & ? & ? & _)]; auto.
Qed.

(** The result of searching both tables, as the three callers do it. *)
Lemma search_tables d m k :
  dict_repr d m -> ht_live (ht0 d) ->
  exists idx0 b0, find_in_table d k (hashFunction k) 0 = Some (idx0, chain_find k b0) /\
    ht_table (ht0 d) !! Z.to_nat idx0 = Some b0 /\ 0 <= idx0 /\
    Z.land (hashFunction k) (Z.ones (ht_size_exp (ht0 d))) = idx0 /\
    match chain_find k b0 with
    | Some (pos, e) => e = (k, e.2) /\ m !! k = Some e.2 /\ ref_ok d 0 idx0 pos k e.2
    | None =>
        (dictIsRehashing d = false -> m !! k = None) /\
        (dictIsRehashing d = true -> ht_live (ht1 d) /\ exists idx1 b1,
           find_in_table d k (hashFunction k) 1 = Some (idx1, chain_find k b1) /\
           ht_table (ht1 d) !! Z.to_nat idx1 = Some b1 /\ 0 <= idx1 /\
           Z.land (hashFunction k) (Z.ones (ht_size_exp (ht1 d))) = idx1 /\
           match chain_find k b1 with
           | Some (pos, e) => e = (k, e.2) /\ m !! k = Some e.2 /\ ref_ok d 1 idx1 pos k e.2
           | None => m !! k = None
           end)
    end.
Proof.
  intros Hr Hl0. destruct (find_live d 0 k Hl0) as (idx0 & b0 & Hf0 & Hi0 & Hb0 & Hh0 & He0).
  exists idx0, b0. do 4 (split; [done|]).
  destruct (chain_find k b0) as [[pos e]|] eqn:Ec.
  { apply chain_find_Some in Ec as (<- & Hp & Hin). split; [by destruct e|]. split.
    - apply (repr_lookup d m _ _ Hr), elem_of_app. left. by apply He0.
    - split; [done|]. split; [done|]. exists b0. split; [done|]. by destruct e. }
  pose proof (chain_find_None _ _ Ec) as Hn0. split; intros Hreh.
  - apply (repr_lookup_None d m k Hr). intros v [Hv|Hv]%elem_of_app.
    + apply He0 in Hv. by apply Hn0 in Hv.
    + destruct (wf_phase _ (proj1 Hr)) as [(_ & _ & Hnull)|(Hge & _)].
      * rewrite Hnull in Hv. by apply elem_of_nil in Hv.
      * unfold dictIsRehashing in Hreh. lia.
  - assert (Hl1 : ht_live (ht1 d)).
    { destruct (wf_phase _ (proj1 Hr)) as [(Hm1 & _)|(_ & _ & ? & _)]; [|done].
      unfold dictIsRehashing in Hreh. lia. }
    split; [done|]. destruct (find_live d 1 k Hl1) as (idx1 & b1 & Hf1 & Hi1 & Hb1 & Hh1 & He1).
    exists idx1, b1. do 4 (split; [done|]). destruct (chain_find k b1) as [[pos e]|] eqn:Ec1.
    + apply chain_find_Some in Ec1 as (<- & Hp & Hin). split; [by destruct e|]. split.
      * apply (repr_lookup d m _ _ Hr), elem_of_app. right. by apply He1.
      * split; [done|]. split; [done|]. exists b1. split; [done|]. by destruct e.
    + pose proof (chain_find_None _ _ Ec1) as Hn1. apply (repr_lookup_None d m k Hr).
      intros v [Hv|Hv]%elem_of_app; [apply He0 in Hv; by apply Hn0 in Hv|apply He1 in Hv; by apply Hn1 in Hv].
Qed.

Lemma setval_spec d m t idx pos k v0 v :
  dict_repr d m -> ref_ok d t idx pos k v0 ->
  exists d', dictSetVal d (mkRef t idx pos) v = Some d' /\ dict_repr d' (<[k := v]> m).
Proof.
  intros Hr (Hl & Hi & b & Hb & Hp). unfold dictSetVal. cbn [er_table er_idx er_pos].
  rewrite Hb. bnd. rewrite Hp. bnd. eexists. split; [done|].
  assert (Hsplit : exists rest, b ≡ₚ (k, v0) :: rest /\ <[pos := (k, v)]> b ≡ₚ (k, v) :: rest).
  { exists (take pos b ++ drop (S pos) b). split.
    - rewrite <- (take_drop_middle b pos (k, v0) Hp) at 1. solve_Permutation.
    - rewrite insert_take_drop by (by eapply lookup_lt_Some). solve_Permutation. }
  destruct Hsplit as (rest & Hr1 & Hr2).
  pose proof (entries_update d t (Z.to_nat idx) b (<[pos := (k, v)]> b) (ht_used (get_ht d t))
    [(k, v0)] [(k, v)] Hb) as Hpe.
  assert (Hin : (k, v0) ∈ dict_entries d).
  { unfold dict_entries, get_ht in *. apply elem_of_app.
    destruct (t =? 0); [left|right]; apply elem_of_concat_lookup; exists (Z.to_nat idx), b;
      (split; [done|]); apply list_elem_of_lookup; eauto. }
  apply list_elem_of_split in Hin as (l1 & l2 & Hl12).
  eapply (repr_replace d _ m k v0 v (l1 ++ l2)); [done| | |].
  - apply (phase_update d t (Z.to_nat idx) b); [apply Hr|done|done| | |].
    + intros e He. rewrite Z2Nat.id by done.
      assert (e ∈ b \/ e.1 = k) as [He'|Hk].
      { rewrite Hr2 in He. apply elem_of_cons in He as [->|He]; [by right|].
        left. rewrite Hr1. apply elem_of_cons. auto. }
      * rewrite <- (Z2Nat.id idx) by done. by eapply (live_placed _ Hl).
      * assert (Hkb : (k, v0) ∈ b) by (apply list_elem_of_lookup; eauto).
        rewrite Hk. rewrite <- (Z2Nat.id idx) by done. apply (live_placed _ Hl _ _ _ Hb Hkb).
    + unfold zlen. rewrite length_insert. lia.
    + intros ->. by rewrite lookup_nil in Hp.
  - rewrite Hl12. solve_Permutation.
  - apply (Permutation_cons_inv (a := (k, v0))).
    change ((k, v0) :: dict_entries ?x) with ([(k, v0)] ++ dict_entries x).
    rewrite Hpe; [|rewrite Hr2, Hr1; solve_Permutation]. rewrite Hl12. solve_Permutation.
Qed.

Lemma unlink_spec d m t idx pos k v :
  dict_repr d m -> ref_ok d t idx pos k v ->
  exists d', unlink_at d t idx pos = Some d' /\ dict_repr d' (delete k m).
Proof.
  intros Hr (Hl & Hi & b & Hb & Hp). unfold unlink_at. rewrite Hb. bnd.
  eexists. split; [done|].
  assert (Hdel : b ≡ₚ (k, v) :: delete pos b).
  { rewrite <- (take_drop_middle b pos (k, v) Hp) at 1. rewrite delete_take_drop. solve_Permutation. }
  assert (Hpos : 1 <= ht_used (get_ht d t) <= 2 ^ 60).
  { rewrite (live_used _ Hl). pose proof (wf_bound _ (proj1 Hr)) as Hz.
    unfold dict_entries in Hz. rewrite zlen_app in Hz.
    pose proof (zlen_nonneg (entries (ht0 d))). pose proof (zlen_nonneg (entries (ht1 d))).
    destruct (concat_split _ _ b b Hb) as [-> _]. rewrite !zlen_app, (zlen_perm _ _ Hdel), zlen_cons.
    assert (zlen (entries (get_ht d t)) <= 2 ^ 60) by (unfold get_ht; destruct (t =? 0); lia).
    destruct (concat_split _ _ b b Hb) as [Heq _]. rewrite Heq, !zlen_app, (zlen_perm _ _ Hdel), zlen_cons in *.
    pose proof (zlen_nonneg (delete pos b)).
    pose proof (zlen_nonneg (concat (take (Z.to_nat idx) (ht_table (get_ht d t))))).
    pose proof (zlen_nonneg (concat (drop (S (Z.to_nat idx)) (ht_table (get_ht d t))))). lia. }
  rewrite wrap_small by lia. eapply (repr_delete d _ m k v); [done| |].
  - apply (phase_update d t (Z.to_nat idx) b); [apply Hr|done|done| | |].
    + intros e He. eapply (live_placed _ Hl); [done|]. rewrite Hdel. apply elem_of_cons. auto.
    + rewrite (zlen_perm _ _ Hdel), zlen_cons. lia.
    + intros ->. by rewrite lookup_nil in Hp.
  - symmetry. apply (entries_update d t (Z.to_nat idx) b (delete pos b) _ [(k, v)] [] Hb).
    cbn. by rewrite Hdel at 2.
Qed.

(** *** Expansion *)

Lemma nextExp_loop_spec fuel e size :
  2 <= e -> 0 <= size <= 2 ^ 60 -> e <= 60 -> 60 - e < Z.of_nat fuel -> (e = 2 \/ 2 ^ (e - 1) < size) ->
  exists e', _dictNextExp_loop fuel e size = Some e' /\ 2 <= e' <= 60 /\ size <= 2 ^ e' /\
    (e' = 2 \/ 2 ^ (e' - 1) < size).
Proof.
  revert e. induction fuel as [|fuel IH]; intros e He Hs He2 Hf Hlo; [lia|].
  cbn [_dictNextExp_loop]. assert (2 ^ e <= 2 ^ 60) by (apply Z.pow_le_mono_r; lia).
  assert (0 < 2 ^ e) by (apply Z.pow_pos_nonneg; lia).
  rewrite Z.shiftl_1_l, wrap_small by lia. case_if E.
  - exists e. auto with lia.
  - assert (e <> 60) by (intros ->; lia). apply IH; try lia. right. by replace (e + 1 - 1) with e by lia.
Qed.

Lemma nextExp_spec size :
  0 <= size <= 2 ^ 60 ->
  exists e, _dictNextExp size = Some e /\ 2 <= e <= 60 /\ size <= 2 ^ e /\ (e = 2 \/ 2 ^ (e - 1) < size).
Proof.
  intros Hs. unfold _dictNextExp, LONG_MAX, INT64_MAX. if_lia.
  apply nextExp_loop_spec; unfold DICT_HT_INITIAL_EXP; lia.
Qed.

Lemma new_table_live e :
  2 <= e <= 60 -> ht_live (mkHt (new_table (2 ^ e)) 0 e) /\ concat (new_table (2 ^ e)) = ([] : list (K * V)).
Proof.
  intros He. assert (Hc : concat (new_table (2 ^ e)) = ([] : list (K * V))).
  { unfold new_table. induction (Z.to_nat (2 ^ e)); [done|]. cbn. done. }
  split; [|done]. assert (0 < 2 ^ e) by (apply Z.pow_pos_nonneg; lia).
  split; cbn; [done| | |].
  - unfold new_table, zlen. rewrite length_replicate. lia.
  - by rewrite Hc.
  - intros i b x Hi Hx. apply lookup_replicate in Hi as [-> _]. by apply elem_of_nil in Hx.
Qed.

(** Expanding a stable table to a new size keeps the contents; it fails only
    when the size is below the number of elements or the table would keep
    its size. *)
Lemma expand_spec d m size :
  dict_repr d m -> 0 <= size <= 2 ^ 60 ->
  exists r d', dictExpand d size = Some (r, d') /\ dict_repr d' m /\
    (r = DICT_OK \/ r = DICT_ERR) /\
    (r = DICT_ERR <-> dictIsRehashing d = true \/ size < ht_used (ht0 d) \/
       _dictNextExp size = Some (ht_size_exp (ht0 d))) /\
    (r = DICT_OK -> ht_live (ht0 d') /\
       size <= DICTHT_SIZE (ht_size_exp (if dictIsRehashing d' then ht1 d' else ht0 d'))).
Proof.
  intros Hr Hs. unfold dictExpand, _dictExpand.
  destruct (dictIsRehashing d || (size <? ht_used (ht0 d))) eqn:E1.
  { bnd. exists DICT_ERR, d. split; [done|]. split; [done|]. split; [auto|]. split; [|done].
    split; [|done]. intros _. apply orb_prop in E1 as [?|?]; bool_hyps; auto. }
  bool_hyps. destruct (nextExp_spec size Hs) as (e & He & Hre & Hge & _). rewrite He. bnd.
  assert (2 ^ e <= 2 ^ 60) by (apply Z.pow_le_mono_r; lia). assert (0 < 2 ^ e) by lia.
  unfold sizeof_ptr. rewrite Z.shiftl_1_l, (wrap_small 64 (2 ^ e)) by lia. rewrite (wrap_small 64) by lia.
  if_lia. case_if E2.
  { bnd. exists DICT_ERR, d. split; [done|]. split; [done|]. split; [auto|]. split; [|done].
    split; [|done]. intros _. right; right. by rewrite E2. }
  destruct (new_table_live e Hre) as [Hnl Hnc]. destruct (size_live e Hre) as [Hse _].
  destruct (wf_phase _ (proj1 Hr)) as [(R1 & R2 & R3)|(R1 & _)]; [|unfold dictIsRehashing in *; lia].
  assert (Hno : DICT_OK = DICT_ERR <-> dictIsRehashing d = true \/ size < ht_used (ht0 d) \/
       Some e = Some (ht_size_exp (ht0 d))).
  { split; [done|]. intros [?|[?|[=]]]; [congruence|lia|lia]. }
  destruct (ht_table (ht0 d)) as [|b t] eqn:Et.
  - bnd. eexists DICT_OK, _. split; [done|]. split; [|split; [auto|split; [done|]]].
    + eapply repr_perm; [done|left; split; [done|split; [by right|done]]|].
      unfold dict_entries. cbn. by rewrite Hnc, Et.
    + intros _. split; [done|]. unfold dictIsRehashing. cbn [rehashidx ht0 ht_size_exp].
      rewrite R1. cbn [Z.eqb negb Pos.eqb]. cbn [ht0 ht_size_exp]. by rewrite Hse.
  - bnd. eexists DICT_OK, _. split; [done|].
    assert (Hl0 : ht_live (ht0 d)) by (destruct R2 as [R2|]; [rewrite R2 in Et; done|done]).
    split; [|split; [auto|split; [done|]]].
    + eapply repr_perm; [done|right; split; [cbn; pose proof (zlen_nonneg (ht_table (ht0 d))); lia|split; [done|split; [done|cbn; intros; lia]]]|].
      unfold dict_entries. cbn. by rewrite Hnc, R3.
    + intros _. split; [done|]. cbn [dictIsRehashing rehashidx Z.eqb negb ht1 ht_size_exp]. by rewrite Hse.
Qed.

Lemma expandIfNeeded_spec cr d m :
  dict_repr d m -> zlen (dict_entries d) < 2 ^ 60 ->
  exists d', _dictExpandIfNeeded expandAllowed cr d = Some (DICT_OK, d') /\ dict_repr d' m /\
    ht_live (ht0 d').
Proof.
  intros Hr Hz. unfold _dictExpandIfNeeded.
  destruct (wf_phase _ (proj1 Hr)) as [(R1 & R2 & R3)|Hre]; cycle 1.
  { exists d. replace (dictIsRehashing d) with true by (unfold dictIsRehashing; destruct Hre; lia).
    split; [done|]. split; [done|apply Hre]. }
  replace (dictIsRehashing d) with false by (unfold dictIsRehashing; lia).
  destruct R2 as [Hnull|Hl].
  { rewrite Hnull. cbn [ht_size_exp _dictReset DICTHT_SIZE Z.eqb].
    destruct (expand_spec d m DICT_HT_INITIAL_SIZE Hr) as (r & d' & -> & Hr' & Hor & Herr & Hok); [done|].
    destruct Hor as [->| ->]; [exists d'; by destruct (Hok eq_refl)|]. exfalso.
    destruct (proj1 Herr eq_refl) as [Hx|[Hx|Hx]].
    - unfold dictIsRehashing in Hx. lia.
    - by rewrite Hnull in Hx.
    - rewrite Hnull in Hx. by vm_compute in Hx. }
  destruct (size_live _ (live_exp _ Hl)) as [Hsz _]. rewrite Hsz. pose proof (live_exp _ Hl).
  assert (0 < 2 ^ ht_size_exp (ht0 d)) by (apply Z.pow_pos_nonneg; lia). if_lia.
  assert (Hu : 0 <= ht_used (ht0 d) < 2 ^ 60).
  { rewrite (live_used _ Hl). unfold dict_entries in Hz. rewrite zlen_app in Hz.
    pose proof (zlen_nonneg (entries (ht0 d))). pose proof (zlen_nonneg (entries (ht1 d))). lia. }
  assert (Hall : exists a, dictTypeExpandAllowed expandAllowed d = Some a).
  { unfold dictTypeExpandAllowed. destruct expandAllowed; [|eauto]. rewrite wrap_small by lia.
    destruct (nextExp_spec (ht_used (ht0 d) + 1)) as (e & -> & _); [lia|]. bnd. eauto. }
  destruct Hall as [a ->]. bnd. destruct a; cbn [negb]; [|eauto].
  destruct (_ || _) eqn:Ec; [|eauto]. rewrite wrap_small by lia.
  destruct (expand_spec d m (ht_used (ht0 d) + 1) Hr) as (r & d' & -> & Hr' & Hor & Herr & Hok); [lia|].
  destruct Hor as [->| ->]; [exists d'; by destruct (Hok eq_refl)|]. exfalso.
  assert (Hfull : 2 ^ ht_size_exp (ht0 d) <= ht_used (ht0 d)).
  { apply orb_prop in Ec as [Ec|Ec]; apply andb_prop in Ec as [_ Ec]; bool_hyps; [done|].
    unfold dict_force_resize_ratio in Ec.
    destruct (decide (2 ^ ht_size_exp (ht0 d) <= ht_used (ht0 d))); [done|].
    rewrite Z.div_small in Ec by lia. lia. }
  destruct (proj1 Herr eq_refl) as [Hx|[Hx|Hx]].
  - unfold dictIsRehashing in Hx. lia.
  - lia.
  - destruct (nextExp_spec (ht_used (ht0 d) + 1)) as (e' & He' & _ & Hge & _); [lia|].
    rewrite He' in Hx. injection Hx as ->. lia.
Qed.

Lemma insert_head_spec d m t idx chain k v :
  dict_repr d m -> zlen (dict_entries d) < 2 ^ 60 -> m !! k = None ->
  ht_live (get_ht d t) -> (t = 0 /\ rehashidx d = -1) \/ t = 1 -> 0 <= idx ->
  ht_table (get_ht d t) !! Z.to_nat idx = Some chain ->
  Z.land (hashFunction k) (Z.ones (ht_size_exp (get_ht d t))) = idx ->
  let d' := set_ht d t (mkHt (<[Z.to_nat idx := (k, v) :: chain]> (ht_table (get_ht d t)))
                             (u64 (ht_used (get_ht d t) + 1)) (ht_size_exp (get_ht d t))) in
  dict_repr d' (<[k := v]> m) /\ ref_ok d' t idx 0 k v.
Proof.
  intros Hr Hz Hk Hl Ht Hi Hb Hh.
  assert (Hu : 0 <= ht_used (get_ht d t) < 2 ^ 60).
  { rewrite (live_used _ Hl). unfold dict_entries in Hz. rewrite zlen_app in Hz.
    pose proof (zlen_nonneg (entries (ht0 d))). pose proof (zlen_nonneg (entries (ht1 d))).
    unfold get_ht. destruct (t =? 0); lia. }
  rewrite wrap_small by lia. intros d'.
  assert (Hpl : forall e, e ∈ (k, v) :: chain ->
    Z.land (hashFunction e.1) (Z.ones (ht_size_exp (get_ht d t))) = Z.of_nat (Z.to_nat idx)).
  { rewrite Z2Nat.id by done. intros e [->|He]%elem_of_cons; [done|].
    rewrite <- (Z2Nat.id idx) by done. by eapply (live_placed _ Hl). }
  assert (Hus : ht_used (get_ht d t) + 1 = ht_used (get_ht d t) - zlen chain + zlen ((k, v) :: chain))
    by (rewrite zlen_cons; lia).
  split.
  - apply (repr_insert d d' m k v); auto.
    + apply (phase_update d t (Z.to_nat idx) chain); auto; [apply Hr|]. intros _. lia.
    + apply (entries_update d t (Z.to_nat idx) chain _ _ [] [(k, v)] Hb). done.
  - pose proof (live_update _ _ _ _ _ Hl Hb Hpl Hus) as Hl'.
    assert (Hg : get_ht d' t = mkHt (<[Z.to_nat idx := (k, v) :: chain]> (ht_table (get_ht d t)))
                             (ht_used (get_ht d t) + 1) (ht_size_exp (get_ht d t))).
    { subst d'. unfold get_ht, set_ht. by destruct (t =? 0). }
    split; [by rewrite Hg|]. split; [done|]. exists ((k, v) :: chain). rewrite Hg. cbn.
    split; [|done]. apply list_lookup_insert_eq. by eapply lookup_lt_Some.
Qed.

Lemma addRaw_spec cr d m k :
  dict_repr d m -> Z.of_nat (size m) < 2 ^ 60 ->
  exists entry existing d',
    dictAddRaw hashFunction expandAllowed cr unset d k = Some (entry, existing, d') /\
    match m !! k with
    | None => existing = None /\ dict_repr d' (<[k := unset]> m) /\
        exists t idx, entry = Some (mkRef t idx 0) /\ ref_ok d' t idx 0 k unset
    | Some v => entry = None /\ dict_repr d' m /\
        exists t idx pos, existing = Some (mkRef t idx pos) /\ ref_ok d' t idx pos k v
    end.
Proof.
  intros Hr Hz. unfold dictAddRaw, _dictKeyIndex.
  destruct (rehash_if_needed_spec cr d m Hr) as (d1 & -> & Hr1). bnd.
  rewrite <- (repr_size d1 m Hr1) in Hz.
  destruct (expandIfNeeded_spec cr d1 m Hr1 Hz) as (d2 & -> & Hr2 & Hl). bnd.
  rewrite (repr_size d1 m Hr1), <- (repr_size d2 m Hr2) in Hz. change (DICT_OK =? DICT_ERR) with false.
  destruct (search_tables d2 m k Hr2 Hl) as (idx0 & b0 & -> & Hb0 & Hi0 & Hh0 & Hc0). bnd.
  destruct (chain_find k b0) as [[pos e]|].
  { destruct Hc0 as (He & -> & Href). bnd. change (-1 =? -1) with true.
    do 3 eexists. split; [done|]. split; [done|]. split; [done|]. eauto. }
  destruct Hc0 as [Hst Hre]. destruct (dictIsRehashing d2) eqn:Er; cbn [negb].
  - destruct (Hre eq_refl) as (Hl1 & idx1 & b1 & -> & Hb1 & Hi1 & Hh1 & Hc1). bnd.
    destruct (chain_find k b1) as [[pos e]|].
    { destruct Hc1 as (He & -> & Href). bnd. change (-1 =? -1) with true.
      do 3 eexists. split; [done|]. split; [done|]. split; [done|]. eauto. }
    bnd. if_lia. rewrite Er. change (get_ht d2 1) with (ht1 d2). rewrite Hb1. bnd. rewrite Hc1.
    destruct (insert_head_spec d2 m 1 idx1 b1 k unset) as [Hx Hy]; auto.
    do 3 eexists. split; [done|]. split; [done|]. eauto.
  - bnd. if_lia. rewrite Er. change (get_ht d2 0) with (ht0 d2). rewrite Hb0. bnd. rewrite (Hst eq_refl).
    destruct (insert_head_spec d2 m 0 idx0 b0 k unset) as [Hx Hy]; auto.
    { left. split; [done|]. unfold dictIsRehashing in Er. lia. }
    do 3 eexists. split; [done|]. split; [done|]. eauto.
Qed.

Lemma empty_lookup d m k : dict_repr d m -> dictSize d = 0 -> m !! k = None.
Proof.
  intros Hr H0. rewrite (size_count d m Hr), (repr_size d m Hr) in H0.
  assert (m = ∅) as -> by (apply map_size_empty_inv; lia). apply lookup_empty.
Qed.

(** The first steps of [dictFind] and [dictGenericDelete] on a non-empty
    dictionary. *)
Lemma nonempty_rehash cr d m :
  dict_repr d m -> dictSize d <> 0 ->
  exists d', rehash_if_needed hashFunction cr d = Some d' /\ dict_repr d' m /\ ht_live (ht0 d').
Proof.
  intros Hr E0. rewrite (size_count d m Hr), (repr_size d m Hr) in E0.
  destruct (rehash_if_needed_spec cr d m Hr) as (d1 & -> & Hr1). exists d1. split; [done|].
  split; [done|]. eapply live_of_nonempty; [done|].
  by rewrite (size_count d1 m Hr1), (repr_size d1 m Hr1).
Qed.

(** *** Scanning *)

(** Position of a key in the order in which cursors visit buckets. *)
Definition rank (k : K) : Z := bitrev (hashFunction k).

Lemma emit_spec h v :
  ht_live h -> 0 <= v < 2 ^ 64 ->
  exists b, emit h v (DICTHT_SIZE_MASK (ht_size_exp h)) = Some b /\
    (forall e, e ∈ b -> e ∈ entries h) /\
    (forall e, e ∈ entries h -> bitrev v <= rank e.1 < block_end (bitrev v) (ht_size_exp h) -> e ∈ b).
Proof.
  intros Hl Hv. pose proof (live_exp _ Hl) as He. destruct (size_live _ He) as [_ ->].
  assert (0 < 2 ^ ht_size_exp h) by (apply Z.pow_pos_nonneg; lia).
  assert (Hi : 0 <= Z.land v (Z.ones (ht_size_exp h)) < 2 ^ ht_size_exp h)
    by (apply land_range; rewrite Z.ones_equiv; lia).
  destruct (lookup_lt_is_Some_2 (ht_table h) (Z.to_nat (Z.land v (Z.ones (ht_size_exp h))))) as [b Hb].
  { pose proof (live_len _ Hl) as HL. unfold zlen in HL. lia. }
  exists b. split; [done|]. split.
  - intros e Hin. apply elem_of_concat_lookup. eauto.
  - intros e (i & c & Hc & Hin)%elem_of_concat_lookup Hrk.
    pose proof (live_placed _ Hl i c e Hc Hin) as Hp.
    assert (Heq : Z.land (hashFunction e.1) (Z.ones (ht_size_exp h)) = Z.land v (Z.ones (ht_size_exp h))).
    { apply bitrev_prefix; [lia|apply hash_range|done|]. fold (rank e.1). unfold block_end in Hrk.
      destruct (pow_split (ht_size_exp h) ltac:(lia)) as (_ & HB & _). set (B := 2 ^ (64 - ht_size_exp h)) in *.
      symmetry. apply (Z.div_unique _ _ _ (rank e.1 - bitrev v / B * B)); [|lia]. left.
      pose proof (Z.div_mod (bitrev v) B ltac:(lia)). pose proof (Z.mod_pos_bound (bitrev v) B ltac:(lia)). lia. }
    rewrite Heq in Hp. rewrite Hp, Nat2Z.id in Hb. congruence.
Qed.

Lemma cursor_block v e :
  0 <= e <= 64 -> 0 <= v < 2 ^ 64 ->
  exists v', cursor_next v (Z.ones e) = Some v' /\ 0 <= v' < 2 ^ 64 /\
    ((v' = 0 /\ block_end (bitrev v) e = 2 ^ 64) \/ bitrev v' = block_end (bitrev v) e).
Proof.
  intros He Hv. destruct (cursor_next_spec v e He Hv) as (v' & -> & Hv' & Hr).
  exists v'. split; [done|]. split; [done|]. fold (block_end (bitrev v) e) in Hr.
  destruct (block_end_bounds (bitrev v) e He (bitrev_range v)) as [H1 H2].
  pose proof (bitrev_range v).
  destruct (decide (block_end (bitrev v) e = 2 ^ 64)) as [Hx|].
  - left. split; [|done]. rewrite Hx, Z.mod_same in Hr by lia. apply bitrev_inj; [done|done|].
    by rewrite Hr, bitrev_0.
  - right. rewrite Hr. apply Z.mod_small. lia.
Qed.

Section WithNext.
Context (next : Z -> Z -> option Z).
Hypothesis next_block : forall v e, 0 <= e <= 64 -> 0 <= v < 2 ^ 64 ->
  exists v', next v (Z.ones e) = Some v' /\ 0 <= v' < 2 ^ 64 /\
    ((v' = 0 /\ block_end (bitrev v) e = 2 ^ 64) \/ bitrev v' = block_end (bitrev v) e).

Lemma scan_loop_step fuel (h : @dictht K V) v m0 m1 b v1 :
  emit h v m1 = Some b -> next v m1 = Some v1 ->
  dictScan_loop next (S fuel) h v m0 m1 =
    if Z.land v1 (Z.lxor m0 m1) =? 0 then Some (v1, b)
    else '(v, rest) ← dictScan_loop next fuel h v1 m0 m1; Some (v, b ++ rest).
Proof. intros Hb Hc. cbn [dictScan_loop]. rewrite Hb. bnd. by rewrite Hc. Qed.

Lemma scan_loop_spec fuel h v e0 :
  ht_live h -> 2 <= e0 <= ht_size_exp h -> 0 <= v < 2 ^ 64 ->
  block_end (bitrev v) e0 - bitrev v / 2 ^ (64 - ht_size_exp h) * 2 ^ (64 - ht_size_exp h)
    <= Z.of_nat fuel * 2 ^ (64 - ht_size_exp h) ->
  exists v' out,
    dictScan_loop next fuel h v (Z.ones e0) (DICTHT_SIZE_MASK (ht_size_exp h)) = Some (v', out) /\
    0 <= v' < 2 ^ 64 /\
    ((v' = 0 /\ block_end (bitrev v) e0 = 2 ^ 64) \/ bitrev v' = block_end (bitrev v) e0) /\
    (forall e, e ∈ out -> e ∈ entries h) /\
    (forall e, e ∈ entries h -> bitrev v <= rank e.1 < block_end (bitrev v) e0 -> e ∈ out).
Proof.
  intros Hl He0. pose proof (live_exp _ Hl) as He1. destruct (size_live _ He1) as [_ Hm].
  set (e1 := ht_size_exp h) in *. destruct (pow_split e1 ltac:(lia)) as (Hp1 & HB1 & _).
  revert v. induction fuel as [|fuel IH]; intros v Hv Hf.
  { destruct (block_end_bounds (bitrev v) e0); [lia|apply bitrev_range|].
    pose proof (Z.mul_div_le (bitrev v) (2 ^ (64 - e1)) ltac:(lia)). lia. }
  pose proof (bitrev_range v) as Hrv.
  destruct (emit_spec h v Hl Hv) as (b & Hb & Hsnd & Hcov). fold e1 in Hb, Hcov.
  destruct (next_block v e1 ltac:(lia) Hv) as (v1 & Hc1 & Hv1 & Hn1).
  destruct (block_end_le (bitrev v) e0 e1) as (Hle & Heq & Hsame); [lia|lia|done|].
  destruct (block_end_bounds (bitrev v) e1 ltac:(lia) Hrv) as [Hbb1 Hbb2].
  rewrite Hm in *. rewrite (scan_loop_step _ _ _ _ _ _ _ Hb Hc1).
  assert (Hmod1 : bitrev v1 mod 2 ^ (64 - e1) = 0).
  { destruct Hn1 as [[-> _]| ->]; [by rewrite bitrev_0|]. unfold block_end. apply Z.mod_mul. lia. }
  rewrite mask_test by lia. case_if E.
  - exists v1, b. split; [done|]. split; [done|].
    assert (block_end (bitrev v) e1 = block_end (bitrev v) e0) as Hbe.
    { destruct Hn1 as [[_ Hn1]|Hn1]; [|apply Heq; by rewrite <- Hn1].
      destruct (block_end_bounds (bitrev v) e0 ltac:(lia) Hrv). lia. }
    rewrite <- Hbe. split; [done|]. split; [done|]. done.
  - destruct Hn1 as [[-> _]|Hn1]; [by rewrite bitrev_0 in E|].
    assert (Hne : block_end (bitrev v) e1 <> block_end (bitrev v) e0).
    { intros Hx. rewrite Hn1, Hx in E. apply E. unfold block_end. apply Z.mod_mul.
      destruct (pow_split e0); lia. }
    specialize (Hsame Hne).
    destruct (IH v1 Hv1) as (v' & out & -> & Hv' & Hn' & Hsnd' & Hcov').
    { rewrite Hn1, Hsame. rewrite Nat2Z.inj_succ in Hf. unfold block_end at 2.
      rewrite Z.div_mul by lia. lia. }
    bnd. exists v', (b ++ out). rewrite Hn1, Hsame in Hn', Hcov'.
    split; [done|]. split; [done|]. split; [done|]. split.
    + intros e [?|?]%elem_of_app; auto.
    + intros e Hin Hrk. apply elem_of_app.
      destruct (decide (rank e.1 < block_end (bitrev v) e1)); [left; apply Hcov; auto; lia|].
      right. apply Hcov'; auto. lia.
Qed.

(** One call of [dictScan]: it returns, emits only entries of the
    dictionary, emits every entry ranked between the cursor and the next
    one, and moves the cursor forward in the reversed order. *)
Lemma scan_with_spec d m v :
  dict_repr d m -> 0 <= v < 2 ^ 64 ->
  exists v' out, dictScan_with next d v = Some (v', out) /\ 0 <= v' < 2 ^ 64 /\
    (v' = 0 \/ bitrev v < bitrev v') /\
    (forall k x, (k, x) ∈ out -> m !! k = Some x) /\
    (forall k x, m !! k = Some x -> bitrev v <= rank k -> v' = 0 \/ rank k < bitrev v' -> (k, x) ∈ out).
Proof.
  intros Hr Hv. pose proof (bitrev_range v) as Hrv. unfold dictScan_with. case_if E0.
  { exists 0, []. split; [done|]. split; [lia|]. split; [auto|]. split.
    - intros k x Hin. by apply elem_of_nil in Hin.
    - intros k x Hk. by rewrite (empty_lookup d m k Hr E0) in Hk. }
  pose proof (live_of_nonempty d m Hr E0) as Hl0. pose proof (live_exp _ Hl0) as He0.
  assert (Hrank : forall k, 0 <= rank k < 2 ^ 64) by (intros; apply bitrev_range).
  destruct (wf_phase _ (proj1 Hr)) as [(R1 & _ & R3)|(R1 & _ & Hl1 & _)].
  - replace (dictIsRehashing d) with false by (unfold dictIsRehashing; lia). cbn [negb].
    destruct (emit_spec (ht0 d) v Hl0 Hv) as (b & -> & Hsnd & Hcov). bnd.
    destruct (size_live _ He0) as [_ ->].
    destruct (next_block v (ht_size_exp (ht0 d)) ltac:(lia) Hv) as (v' & -> & Hv' & Hn). bnd.
    destruct (block_end_bounds (bitrev v) (ht_size_exp (ht0 d)) ltac:(lia) Hrv).
    assert (Hent : dict_entries d = entries (ht0 d)) by (unfold dict_entries; rewrite R3; apply app_nil_r).
    exists v', b. split; [done|]. split; [done|]. split; [lia|]. split.
    + intros k x Hin. apply (repr_lookup d m k x Hr). rewrite Hent. auto.
    + intros k x Hk Hge Hlt. apply (repr_lookup d m k x Hr) in Hk. rewrite Hent in Hk.
      apply Hcov; [done|]. specialize (Hrank k). cbn.
      destruct Hn as [[-> ->]|Hn]; [lia|]. destruct Hlt as [->|]; [rewrite bitrev_0 in Hn; lia|lia].
  - replace (dictIsRehashing d) with true by (unfold dictIsRehashing; lia). cbn [negb].
    pose proof (live_exp _ Hl1) as He1.
    assert (Hsel : exists t0 t1, (if DICTHT_SIZE (ht_size_exp (ht1 d)) <? DICTHT_SIZE (ht_size_exp (ht0 d))
      then (ht1 d, ht0 d) else (ht0 d, ht1 d)) = (t0, t1) /\ ht_live t0 /\ ht_live t1 /\
      ht_size_exp t0 <= ht_size_exp t1 /\ dict_entries d ≡ₚ entries t0 ++ entries t1).
    { destruct (size_live _ He0) as [-> _], (size_live _ He1) as [-> _]. unfold dict_entries. case_if E.
      - exists (ht1 d), (ht0 d). split; [done|]. split; [done|]. split; [done|].
        apply Z.pow_lt_mono_r_iff in E; [|lia|lia]. split; [lia|solve_Permutation].
      - exists (ht0 d), (ht1 d). split; [done|]. split; [done|]. split; [done|].
        apply Z.pow_le_mono_r_iff in E; [|lia|lia]. split; [lia|done]. }
    destruct Hsel as (t0 & t1 & -> & Ht0 & Ht1 & Hle & Hperm).
    pose proof (live_exp _ Ht0) as He0'. pose proof (live_exp _ Ht1) as He1'.
    destruct (emit_spec t0 v Ht0 Hv) as (b & -> & Hsnd & Hcov). bnd.
    destruct (size_live _ He0') as [_ ->].
    destruct (block_end_bounds (bitrev v) (ht_size_exp t0) ltac:(lia) Hrv) as [Hbb1 Hbb2].
    destruct (scan_loop_spec (S (length (ht_table t1))) t1 v (ht_size_exp t0)) as
      (v' & out & -> & Hv' & Hn & Hsnd1 & Hcov1); [done|lia|done| |].
    { pose proof (live_len _ Ht1) as HL. unfold zlen in HL. rewrite Nat2Z.inj_succ, HL.
      destruct (pow_split (ht_size_exp t1)) as (Hp & ? & ?); [lia|].
      assert (0 <= bitrev v / 2 ^ (64 - ht_size_exp t1)) by (apply Z.div_pos; lia). nia. }
    bnd. exists v', (b ++ out). split; [done|]. split; [done|]. split; [lia|]. split.
    + intros k x Hin. apply (repr_lookup d m k x Hr). rewrite Hperm. apply elem_of_app.
      apply elem_of_app in Hin as [?|?]; auto.
    + intros k x Hk Hge Hlt. apply (repr_lookup d m k x Hr) in Hk. rewrite Hperm in Hk.
      assert (Hrng : bitrev v <= rank k < block_end (bitrev v) (ht_size_exp t0)).
      { specialize (Hrank k). destruct Hn as [[-> ->]|Hn]; [lia|].
        destruct Hlt as [->|]; [rewrite bitrev_0 in Hn; lia|lia]. }
      apply elem_of_app. apply elem_of_app in Hk as [Hk|Hk]; [left; by apply Hcov|right; by apply Hcov1].
Qed.

End WithNext.

Lemma scan_spec d m v :
  dict_repr d m -> 0 <= v < 2 ^ 64 ->
  exists v' out, dictScan d v = Some (v', out) /\ 0 <= v' < 2 ^ 64 /\
    (v' = 0 \/ bitrev v < bitrev v') /\
    (forall k x, (k, x) ∈ out -> m !! k = Some x) /\
    (forall k x, m !! k = Some x -> bitrev v <= rank k -> v' = 0 \/ rank k < bitrev v' -> (k, x) ∈ out).
Proof. apply (scan_with_spec cursor_next cursor_block). Qed.

Lemma clear_loop_all (buckets : list (list (K * V))) :
  zlen (concat buckets) < 2 ^ 64 ->
  (_dictClear_loop buckets (zlen (concat buckets))).1 = concat buckets.
Proof.
  induction buckets as [|b r IH]; intros Hz; [done|]. cbn [_dictClear_loop concat].
  cbn [concat] in Hz. rewrite zlen_app in *.
  pose proof (zlen_nonneg b). pose proof (zlen_nonneg (concat r)). case_if E.
  - rewrite wrap_small by lia. replace (zlen b + zlen (concat r) - zlen b) with (zlen (concat r)) by lia.
    destruct (_dictClear_loop r (zlen (concat r))) as [f u] eqn:El. cbn in *. rewrite IH by lia. done.
  - destruct b; [|rewrite zlen_cons in *; pose proof (zlen_nonneg b); lia].
    destruct (concat r); [done|rewrite zlen_cons in *; pose proof (zlen_nonneg l); lia].
Qed.

(** ** Properties *)

(** [dictAdd] refines insertion of an absent key into a finite map: it
    always completes, fails with [DICT_ERR] and an unchanged map when the key
    exists, and otherwise stores the value, whatever rehashing step or
    expansion it triggers and whatever the resize policy. *)
Lemma dictAdd_refines (cr : dictResizeEnable) (d : @dict K V) (m : gmap K V) (k : K) (v : V) :
  dict_repr d m -> Z.of_nat (size m) < 2 ^ 60 ->
  exists d',
    dictAdd hashFunction expandAllowed cr unset d k v =
      Some (if m !! k is Some _ then DICT_ERR else DICT_OK, d') /\
    dict_repr d' (if m !! k is Some _ then m else <[k := v]> m).
Proof.
  intros Hr Hz. unfold dictAdd.
  destruct (addRaw_spec cr d m k Hr Hz) as (entry & existing & d1 & -> & Hm). bnd.
  destruct (m !! k) as [v0|]; destruct Hm as (-> & Hr1 & Hm); [eauto|].
  destruct Hm as (t & idx & -> & Href).
  destruct (setval_spec d1 _ t idx 0 k unset v Hr1 Href) as (d2 & -> & Hr2). bnd.
  exists d2. split; [done|]. by rewrite insert_insert_eq in Hr2.
Qed.

(** [dictReplace] refines map update: it stores the value for new and
    existing keys alike and reports which case it was. *)
Lemma dictReplace_refines (cr : dictResizeEnable) (d : @dict K V) (m : gmap K V) (k : K) (v : V) :
  dict_repr d m -> Z.of_nat (size m) < 2 ^ 60 ->
  exists d',
    dictReplace hashFunction expandAllowed cr unset d k v =
      Some (if m !! k is Some _ then 0 else 1, d') /\
    dict_repr d' (<[k := v]> m).
Proof.
  intros Hr Hz. unfold dictReplace.
  destruct (addRaw_spec cr d m k Hr Hz) as (entry & existing & d1 & -> & Hm). bnd.
  destruct (m !! k) as [v0|]; destruct Hm as (-> & Hr1 & Hm).
  - destruct Hm as (t & idx & pos & -> & Href). bnd.
    destruct (setval_spec d1 _ t idx pos k v0 v Hr1 Href) as (d2 & -> & Hr2). bnd. eauto.
  - destruct Hm as (t & idx & -> & Href).
    destruct (setval_spec d1 _ t idx 0 k unset v Hr1 Href) as (d2 & -> & Hr2). bnd.
    exists d2. split; [done|]. by rewrite insert_insert_eq in Hr2.
Qed.

(** [dictFetchValue] (and the [dictFind] it calls) returns what the map
    holds for the key and keeps the map, also when the lookup performs a
    rehashing step. *)
Lemma dictFetchValue_refines (cr : dictResizeEnable) (d : @dict K V) (m : gmap K V) (k : K) :
  dict_repr d m ->
  exists d', dictFetchValue hashFunction cr d k = Some (m !! k, d') /\ dict_repr d' m.
Proof.
  intros Hr. unfold dictFetchValue, dictFind. case_if E0.
  { bnd. exists d. split; [|done]. by rewrite (empty_lookup d m k Hr E0). }
  destruct (nonempty_rehash cr d m Hr E0) as (d1 & -> & Hr1 & Hl). bnd.
  destruct (search_tables d1 m k Hr1 Hl) as (idx0 & b0 & -> & Hb0 & Hi0 & Hh0 & Hc0). bnd.
  destruct (chain_find k b0) as [[pos e]|].
  { destruct Hc0 as (He & -> & Href). bnd. eauto. }
  destruct Hc0 as [Hst Hre]. destruct (dictIsRehashing d1); cbn [negb].
  - destruct (Hre eq_refl) as (Hl1 & idx1 & b1 & -> & Hb1 & Hi1 & Hh1 & Hc1). bnd.
    destruct (chain_find k b1) as [[pos e]|]; [destruct Hc1 as (He & -> & Href)|rewrite Hc1]; bnd; eauto.
  - bnd. rewrite (Hst eq_refl). eauto.
Qed.

(** Removal finds the entry of the key in either table and unlinks it. *)
Lemma genericDelete_refines (cr : dictResizeEnable) (d : @dict K V) (m : gmap K V) (k : K) :
  dict_repr d m ->
  exists d', dictGenericDelete hashFunction cr d k = Some (pair k <$> m !! k, d') /\ dict_repr d' (delete k m).
Proof.
  intros Hr. unfold dictGenericDelete. case_if E0.
  { exists d. rewrite (empty_lookup d m k Hr E0). split; [done|].
    by rewrite delete_id by (by apply (empty_lookup d m k Hr E0)). }
  destruct (nonempty_rehash cr d m Hr E0) as (d1 & -> & Hr1 & Hl). bnd.
  destruct (search_tables d1 m k Hr1 Hl) as (idx0 & b0 & -> & Hb0 & Hi0 & Hh0 & Hc0). bnd.
  destruct (chain_find k b0) as [[pos e]|].
  { destruct Hc0 as (He & -> & Href). destruct (unlink_spec d1 m 0 idx0 pos k e.2 Hr1 Href) as (d2 & -> & Hr2). bnd.
    exists d2. split; [|done]. cbn. by rewrite <- He. }
  destruct Hc0 as [Hst Hre]. destruct (dictIsRehashing d1); cbn [negb].
  - destruct (Hre eq_refl) as (Hl1 & idx1 & b1 & -> & Hb1 & Hi1 & Hh1 & Hc1). bnd.
    destruct (chain_find k b1) as [[pos e]|].
    + destruct Hc1 as (He & -> & Href).
      destruct (unlink_spec d1 m 1 idx1 pos k e.2 Hr1 Href) as (d2 & -> & Hr2). bnd.
      exists d2. split; [|done]. cbn. by rewrite <- He.
    + rewrite Hc1. exists d1. split; [done|]. by rewrite delete_id.
  - rewrite (Hst eq_refl). exists d1. split; [done|]. rewrite delete_id; auto.
Qed.

Lemma dictDelete_refines (cr : dictResizeEnable) (d : @dict K V) (m : gmap K V) (k : K) :
  dict_repr d m ->
  exists d',
    dictDelete hashFunction cr d k = Some (if m !! k is Some _ then DICT_OK else DICT_ERR, d') /\
    dict_repr d' (delete k m).
Proof.
  intros Hr. unfold dictDelete. destruct (genericDelete_refines cr d m k Hr) as (d' & -> & Hr'). bnd.
  exists d'. split; [|done]. by destruct (m !! k).
Qed.

(** A complete scan: the dictionary at each call (other operations may run
    between the calls), the cursors chained from [v] to 0, and everything
    passed to the callback. *)
Inductive scan_from : Z -> list (@dict K V) -> list (K * V) -> Prop :=
  | scan_last d v out : dictScan d v = Some (0, out) -> scan_from v [d] out
  | scan_more d v v' out ds outs :
      dictScan d v = Some (v', out) -> v' <> 0 -> scan_from v' ds outs ->
      scan_from v (d :: ds) (out ++ outs).

Lemma scan_from_complete v ds out k :
  scan_from v ds out -> 0 <= v < 2 ^ 64 ->
  Forall (fun d => exists m, dict_repr d m /\ is_Some (m !! k)) ds ->
  bitrev v <= rank k -> exists x, (k, x) ∈ out.
Proof.
  induction 1 as [d v out Hs|d v v' out ds outs Hs Hne Hrest IH]; intros Hv Hall Hrk;
    inversion Hall as [|? ? (m & Hr & [x Hx]) Hall']; subst;
    destruct (scan_spec d m v Hr Hv) as (v1 & out1 & Hs1 & Hv1 & Hprog & Hsnd & Hcov);
    rewrite Hs in Hs1; injection Hs1 as <- <-.
  - exists x. apply Hcov; auto.
  - destruct (decide (rank k < bitrev v')).
    + exists x. apply elem_of_app. left. apply Hcov; auto.
    + destruct IH as [y Hy]; auto; [lia|]. exists y. apply elem_of_app. by right.
Qed.

(** C9: the guarantee of [dictScan]: over a complete scan from cursor 0 back
    to 0, with arbitrary changes of the dictionary between the calls
    (insertions, deletions, expansions, shrinks and any stage of incremental
    rehashing), every key that is present at every call is passed to the
    callback. *)
Theorem dictScan_complete (ds : list (@dict K V)) (out : list (K * V)) (k : K) :
  scan_from 0 ds out ->
  Forall (fun d => exists m, dict_repr d m /\ is_Some (m !! k)) ds ->
  exists x, (k, x) ∈ out.
Proof.
  intros Hs Hall. eapply scan_from_complete; [done|lia|done|]. rewrite bitrev_0.
  apply bitrev_range.
Qed.

(** C10: every call of [dictScan] returns, passes to the callback only
    entries the dictionary holds, and either ends the scan or moves the
    cursor strictly forward in the order of reversed cursors, so a scan
    cannot loop. *)
Theorem dictScan_sound_progress (d : @dict K V) (m : gmap K V) (v : Z) :
  dict_repr d m -> 0 <= v < 2 ^ 64 ->
  exists v' out, dictScan d v = Some (v', out) /\ 0 <= v' < 2 ^ 64 /\
    (v' = 0 \/ bitrev v < bitrev v') /\ (forall k x, (k, x) ∈ out -> m !! k = Some x).
Proof.
  intros Hr Hv. destruct (scan_spec d m v Hr Hv) as (v' & out & H1 & H2 & H3 & H4 & _). eauto 6.
Qed.

(** Repeated calls of [dictRehash], as the callers interleave them. *)
Fixpoint rehash_times (cr : dictResizeEnable) (times : nat) (d : @dict K V) (n : Z) : option (@dict K V) :=
  match times with
  | O => Some d
  | S times' => '(_, d) ← dictRehash hashFunction cr d n; rehash_times cr times' d n
  end.

Lemma rehash_idle cr times d n : dictIsRehashing d = false -> rehash_times cr times d n = Some d.
Proof.
  intros Hd. induction times as [|times IH]; [done|]. cbn [rehash_times]. unfold dictRehash. rewrite Hd, orb_true_r. bnd. done.
Qed.

Lemma may_rehash_same cr (d d' : @dict K V) : ht_size_exp (ht0 d') = ht_size_exp (ht0 d) -> ht_size_exp (ht1 d') = ht_size_exp (ht1 d) -> may_rehash cr d' = may_rehash cr d.
Proof. intros H0 H1. unfold may_rehash. by rewrite H0, H1. Qed.

Lemma rehash_times_spec cr times d m n :
  dict_repr d m -> 1 <= n -> may_rehash cr d = true ->
  (dictIsRehashing d = true -> zlen (ht_table (ht0 d)) - rehashidx d <= Z.of_nat times /\ (1 <= times)%nat) ->
  exists d', rehash_times cr times d n = Some d' /\ dict_repr d' m /\ dictIsRehashing d' = false.
Proof.
  revert d. induction times as [|times IH]; intros d Hr Hn Hm Ht; cbn [rehash_times].
  { exists d. split; [done|]. split; [done|]. destruct (dictIsRehashing d) eqn:E; [|done]. specialize (Ht eq_refl). lia. }
  destruct (rehash_spec cr d m n Hr Hn) as (r & d1 & -> & Hr1 & _ & Hp & Hz). bnd.
  destruct (decide (r = 0)) as [->|Hne]; [rewrite rehash_idle by auto; eauto|].
  destruct (Hp Hne) as (_ & (Hge & Hl & _) & (_ & Hl1 & _) & Hlt & He0 & He1). apply IH; [done|done|by rewrite (may_rehash_same cr d)|]. intros Hre.
  destruct (Ht ltac:(unfold dictIsRehashing; lia)) as [Ht1 _]. rewrite (live_len _ Hl1), He0, <- (live_len _ Hl) in *. lia.
Qed.

(** C11: incremental rehashing terminates and loses nothing.  Under a policy that
    lets the tables be rehashed (always with DICT_RESIZE_ENABLE, with
    DICT_RESIZE_AVOID when one table is at least five times as large as the
    other), calling [dictRehash] as many times as the old table has buckets, with
    any positive step count, ends with a single table that represents the same
    map; under any other policy a call returns 0 and changes nothing. *)
Theorem dictRehash_terminates (cr : dictResizeEnable) (d : @dict K V) (m : gmap K V) (n : Z) :
  dict_repr d m -> 1 <= n ->
  if may_rehash cr d then
    exists d', rehash_times cr (length (ht_table (ht0 d))) d n = Some d' /\ dict_repr d' m /\ dictIsRehashing d' = false
  else dictRehash hashFunction cr d n = Some (0, d).
Proof.
  intros Hr Hn. destruct (may_rehash cr d) eqn:Hm.
  - apply rehash_times_spec; [done|done|done|]. intros Hre. destruct (wf_phase _ (proj1 Hr)) as [[R1 _]|(R1 & Hl & _)].
    + unfold dictIsRehashing in Hre. lia.
    + pose proof (live_len _ Hl) as Hz. destruct (size_live _ (live_exp _ Hl)) as [Hs _]. assert (2 ^ 2 <= 2 ^ ht_size_exp (ht0 d)) by (apply Z.pow_le_mono_r; [lia|apply (live_exp _ Hl)]).
      unfold zlen in *. lia.
  - unfold dictRehash, may_rehash in *. destruct cr; [done| |by rewrite bool_decide_eq_true_2].
    rewrite bool_decide_eq_false_2 by done. destruct (dictIsRehashing d); [|done]. cbn [orb negb]. rewrite bool_decide_eq_true_2 by done. cbn [andb]. apply negb_false_iff in Hm. by rewrite Hm.
Qed.

(** [dictExpand] keeps the map and starts a rehashing (or allocates the
    first table) with room for the requested size; it refuses exactly when a
    rehashing is in progress, the size is below the number of elements, or
    the table would keep its size. *)
Lemma dictExpand_refines (d : @dict K V) (m : gmap K V) (size : Z) :
  dict_repr d m -> 0 <= size <= 2 ^ 60 ->
  exists r d', dictExpand d size = Some (r, d') /\ dict_repr d' m /\
    (r = DICT_OK \/ r = DICT_ERR) /\
    (r = DICT_ERR <-> dictIsRehashing d = true \/ size < ht_used (ht0 d) \/
       _dictNextExp size = Some (ht_size_exp (ht0 d))) /\
    (r = DICT_OK -> size <= DICTHT_SIZE (ht_size_exp (if dictIsRehashing d' then ht1 d' else ht0 d'))).
Proof.
  intros Hr Hs. destruct (expand_spec d m size Hr Hs) as (r & d' & H1 & H2 & H3 & H4 & H5).
  exists r, d'. split_and!; auto. intros Hok. by destruct (H5 Hok).
Qed.

(** [dictEmpty] frees every entry exactly once and leaves the empty
    dictionary. *)
Lemma dictEmpty_frees_all (d : @dict K V) (m : gmap K V) :
  dict_repr d m ->
  (dictEmpty d).1 = dict_entries d /\ dict_repr (dictEmpty d).2 ∅.
Proof.
  intros [Hw _]. split; [|apply create_repr]. pose proof (wf_bound _ Hw) as Hb.
  unfold dictEmpty, _dictClear, dict_entries in *. cbn [fst snd]. rewrite zlen_app in Hb.
  pose proof (zlen_nonneg (entries (ht0 d))). pose proof (zlen_nonneg (entries (ht1 d))).
  assert (Hu : forall h, ht_null h \/ ht_live h -> ht_used h = zlen (entries h)).
  { intros h [->|Hl]; [done|]. apply (live_used _ Hl). }
  rewrite !Hu by (destruct (wf_phase _ Hw) as [(? & ? & ?)|(? & ? & ? & _)]; auto).
  rewrite !clear_loop_all by lia. done.
Qed.

(** *** Sequences of operations *)

(** The operations of the interface; the resize policy is the one in force
    when the operation runs. *)
Inductive dict_op :=
  | OpAdd (k : K) (v : V) | OpReplace (k : K) (v : V) | OpFetch (k : K) | OpDelete (k : K) | OpUnlink (k : K)
  | OpExpand (size : Z) | OpResize | OpRehash (n : Z) | OpSize | OpEmpty.

Inductive dict_result :=
  | ResStatus (r : Z) | ResValue (v : option V) | ResEntry (e : option (K * V)) | ResFreed (l : list (K * V)) | ResDone.

Definition dict_run (cr : dictResizeEnable) (o : dict_op) (d : @dict K V) : option (dict_result * @dict K V) :=
  match o with
  | OpAdd k v => '(r, d) ← dictAdd hashFunction expandAllowed cr unset d k v; Some (ResStatus r, d)
  | OpReplace k v => '(r, d) ← dictReplace hashFunction expandAllowed cr unset d k v; Some (ResStatus r, d)
  | OpFetch k => '(v, d) ← dictFetchValue hashFunction cr d k; Some (ResValue v, d)
  | OpDelete k => '(r, d) ← dictDelete hashFunction cr d k; Some (ResStatus r, d)
  | OpUnlink k => '(e, d) ← dictUnlink hashFunction cr d k; Some (ResEntry e, d)
  | OpExpand size => '(_, d) ← dictExpand d size; Some (ResDone, d)
  | OpResize => '(_, d) ← dictResize cr d; Some (ResDone, d)
  | OpRehash n => '(_, d) ← dictRehash hashFunction cr d n; Some (ResDone, d)
  | OpSize => Some (ResStatus (dictSize d), d)
  | OpEmpty => let '(l, d) := dictEmpty d in Some (ResFreed l, d)
  end.

Fixpoint dict_runs (os : list (dictResizeEnable * dict_op)) (d : @dict K V) : option (list dict_result * @dict K V) :=
  match os with
  | [] => Some ([], d)
  | (cr, o) :: os => '(r, d) ← dict_run cr o d; '(rs, d) ← dict_runs os d; Some (r :: rs, d)
  end.

(** The same operations on a finite map. *)
Definition map_run (o : dict_op) (m : gmap K V) : dict_result * gmap K V :=
  match o with
  | OpAdd k v => match m !! k with Some _ => (ResStatus DICT_ERR, m) | None => (ResStatus DICT_OK, <[k := v]> m) end
  | OpReplace k v => (ResStatus (match m !! k with Some _ => 0 | None => 1 end), <[k := v]> m)
  | OpFetch k => (ResValue (m !! k), m)
  | OpDelete k => (ResStatus (match m !! k with Some _ => DICT_OK | None => DICT_ERR end), delete k m)
  | OpUnlink k => (ResEntry (pair k <$> m !! k), delete k m)
  | OpExpand _ | OpResize | OpRehash _ => (ResDone, m)
  | OpSize => (ResStatus (Z.of_nat (size m)), m)
  | OpEmpty => (ResFreed (map_to_list m), ∅)
  end.

Fixpoint map_runs (os : list (dictResizeEnable * dict_op)) (m : gmap K V) : list dict_result * gmap K V :=
  match os with
  | [] => ([], m)
  | (_, o) :: os => let '(r, m) := map_run o m in let '(rs, m) := map_runs os m in (r :: rs, m)
  end.

(** The entries that are freed come in any order. *)
Definition same_result (r r' : dict_result) : Prop :=
  match r, r' with
  | ResFreed l, ResFreed l' => l ≡ₚ l'
  | _, _ => r = r'
  end.

(** Sizes that can be asked for and step counts that callers use. *)
Definition dict_op_ok (o : dict_op) : Prop :=
  match o with OpExpand size => 0 <= size <= 2 ^ 60 | OpRehash n => 1 <= n | _ => True end.

Lemma dictResize_spec cr d m : dict_repr d m -> exists r d', dictResize cr d = Some (r, d') /\ dict_repr d' m.
Proof.
  intros Hr. unfold dictResize. case_if E; [eauto|].
  assert (0 <= ht_used (ht0 d) <= 2 ^ 60).
  { pose proof (wf_bound _ (proj1 Hr)) as Hb. unfold dict_entries in Hb. rewrite zlen_app in Hb.
    pose proof (zlen_nonneg (entries (ht0 d))). pose proof (zlen_nonneg (entries (ht1 d))).
    destruct (wf_phase _ (proj1 Hr)) as [(_ & [->|Hl] & _)|(_ & Hl & _)]; [done|rewrite (live_used _ Hl); lia..]. }
  edestruct (expand_spec d m) as (r & d' & -> & Hr' & _); [done| |eauto]. case_if E'; [done|lia].
Qed.

Lemma dict_run_ok cr o d m : dict_repr d m -> Z.of_nat (size m) < 2 ^ 60 -> dict_op_ok o ->
  exists r d', dict_run cr o d = Some (r, d') /\ same_result r (map_run o m).1 /\ dict_repr d' (map_run o m).2.
Proof.
  intros Hr Hz Ho. destruct o as [k v|k v|k|k|k|n| |n| |]; cbn [dict_run map_run].
  - destruct (dictAdd_refines cr d m k v Hr Hz) as (d' & -> & Hr'). bnd. destruct (m !! k); by do 2 eexists.
  - destruct (dictReplace_refines cr d m k v Hr Hz) as (d' & -> & Hr'). bnd. destruct (m !! k); by do 2 eexists.
  - destruct (dictFetchValue_refines cr d m k Hr) as (d' & -> & Hr'). bnd. by do 2 eexists.
  - destruct (dictDelete_refines cr d m k Hr) as (d' & -> & Hr'). bnd. destruct (m !! k); by do 2 eexists.
  - destruct (genericDelete_refines cr d m k Hr) as (d' & Hd & Hr'). unfold dictUnlink. rewrite Hd. bnd. by do 2 eexists.
  - destruct (expand_spec d m n Hr Ho) as (r & d' & -> & Hr' & _). bnd. by do 2 eexists.
  - destruct (dictResize_spec cr d m Hr) as (r & d' & -> & Hr'). bnd. by do 2 eexists.
  - destruct (rehash_spec cr d m n Hr Ho) as (r & d' & -> & Hr' & _). bnd. by do 2 eexists.
  - rewrite (size_count d m Hr), (repr_size d m Hr). by do 2 eexists.
  - destruct (dictEmpty_frees_all d m Hr) as [H1 H2]. destruct (dictEmpty d) as [l d']. cbn in *. subst l.
    do 2 eexists. split; [done|]. split; [|done]. cbn. rewrite (proj2 Hr), map_to_list_to_map; [done|apply (proj1 Hr)].
Qed.

Lemma map_run_size o m : (size (map_run o m).2 <= S (size m))%nat.
Proof.
  destruct o as [k v|k v|k|k|k|n| |n| |]; cbn [map_run snd]; try lia.
  - destruct (m !! k) eqn:E; cbn; [lia|]. by rewrite map_size_insert_None.
  - rewrite map_size_insert. destruct (m !! k); cbn; unfold id; lia.
  - rewrite map_size_delete. destruct (m !! k); unfold id; lia.
  - rewrite map_size_delete. destruct (m !! k); unfold id; lia.
  - rewrite map_size_empty. lia.
Qed.

Lemma dict_runs_ok os : forall d m, dict_repr d m -> Z.of_nat (size m) + zlen os < 2 ^ 60 -> Forall (fun o => dict_op_ok o.2) os ->
  exists rs d', dict_runs os d = Some (rs, d') /\ Forall2 same_result rs (map_runs os m).1 /\ dict_repr d' (map_runs os m).2.
Proof.
  induction os as [|[cr o] os IH]; intros d m Hr Hz Hos; [exists [], d; split_and!; [done|constructor|done]|].
  apply Forall_cons in Hos as [Ho Hos]. rewrite zlen_cons in Hz. pose proof (zlen_nonneg os). pose proof (map_run_size o m).
  cbn [dict_runs map_runs]. destruct (dict_run_ok cr o d m Hr ltac:(lia) Ho) as (r & d1 & -> & Hs & Hr1). bnd.
  destruct (map_run o m) as [r' m1]. cbn [fst snd] in *.
  destruct (IH d1 m1 Hr1 ltac:(lia) Hos) as (rs & d2 & -> & Hs2 & Hr2). bnd. destruct (map_runs os m1) as [rs' m2].
  exists (r :: rs), d2. split; [done|]. split; [by constructor|done].
Qed.

(** C8: A hash table behaves like a finite map.  From a new dictionary, every
    sequence of insertions, updates, lookups, removals, expansions, shrinkings,
    rehashing steps and clearings, under resize policies that change at any
    time and whatever the hash function and the expansion filter, returns and
    gives the results of the same operations on a finite map; clearing frees
    exactly the entries of the map, once each. *)
Theorem dict_simulates (os : list (dictResizeEnable * dict_op)) : zlen os < 2 ^ 60 -> Forall (fun o => dict_op_ok o.2) os ->
  exists rs d, dict_runs os dictCreate = Some (rs, d) /\ Forall2 same_result rs (map_runs os ∅).1 /\ dict_repr d (map_runs os ∅).2.
Proof. intros Hz Hos. apply dict_runs_ok; [apply create_repr|by rewrite map_size_empty|done]. Qed.

End Invariant.

(** *** Witnesses *)

Definition hash_ex (k : Z) : Z := u64 k.

Lemma hash_ex_range k : 0 <= hash_ex k < 2 ^ 64.
Proof. apply wrap_range. lia. Qed.

(** A dictionary in the middle of a rehashing from 4 to 8 buckets. *)
Definition dict_ex : @dict Z Z :=
  mkDict (mkHt [[]; []; [(6, 60)]; [(3, 30); (7, 70)]] 3 2)
         (mkHt [[]; [(1, 10)]; []; []; [(4, 40)]; []; []; []] 2 3) 2 0.

Definition map_ex : gmap Z Z := list_to_map [(6, 60); (3, 30); (7, 70); (1, 10); (4, 40)].

Lemma live_ex_placed t e :
  forallb (fun ib => forallb (fun x => Z.land (hash_ex x.1) (Z.ones e) =? Z.of_nat ib.1) ib.2)
    (imap (fun i (b : list (Z * Z)) => (i, b)) t) = true ->
  forall i b x, t !! i = Some b -> x ∈ b -> Z.land (hash_ex x.1) (Z.ones e) = Z.of_nat i.
Proof.
  intros Hall i b x Hi Hx. rewrite forallb_forall in Hall.
  specialize (Hall (i, b)). rewrite forallb_forall in Hall.
  apply Z.eqb_eq, Hall; [|by apply list_elem_of_In].
  apply list_elem_of_In, list_elem_of_lookup. exists i. by rewrite list_lookup_imap, Hi.
Qed.

Lemma dict_ex_repr : dict_repr hash_ex dict_ex map_ex.
Proof.
  split; [|done]. split.
  - right. split; [done|]. split; [|split].
    + split; [done|done|done|]. apply live_ex_placed. vm_compute. reflexivity.
    + split; [done|done|done|]. apply live_ex_placed. vm_compute. reflexivity.
    + intros i Hi. destruct i as [|[|i]]; [by left|by left|]. cbn in Hi. lia.
  - apply (bool_decide_eq_true_1 _). vm_compute. reflexivity.
  - vm_compute. discriminate.
Qed.

Definition ops_ex : list (dictResizeEnable * @dict_op Z Z) :=
  [(DICT_RESIZE_ENABLE, OpAdd 6 60); (DICT_RESIZE_ENABLE, OpAdd 3 30); (DICT_RESIZE_AVOID, OpAdd 7 70); (DICT_RESIZE_ENABLE, OpReplace 1 10);
   (DICT_RESIZE_ENABLE, OpAdd 4 40); (DICT_RESIZE_ENABLE, OpAdd 3 31); (DICT_RESIZE_FORBID, OpFetch 7); (DICT_RESIZE_ENABLE, OpReplace 7 71);
   (DICT_RESIZE_ENABLE, OpDelete 9); (DICT_RESIZE_ENABLE, OpUnlink 6); (DICT_RESIZE_ENABLE, OpExpand 100); (DICT_RESIZE_ENABLE, OpRehash 10);
   (DICT_RESIZE_ENABLE, OpFetch 7); (DICT_RESIZE_ENABLE, OpResize); (DICT_RESIZE_ENABLE, OpSize); (DICT_RESIZE_ENABLE, OpEmpty)].

Lemma dict_simulates_witness :
  take 15 (map_runs ops_ex ∅).1 =
    [ResStatus 0; ResStatus 0; ResStatus 0; ResStatus 1; ResStatus 0; ResStatus 1; ResValue (Some 70); ResStatus 0; ResStatus 1;
     ResEntry (Some (6, 60)); ResDone; ResDone; ResValue (Some 71); ResDone; ResStatus 4] /\
  exists rs d, dict_runs hash_ex None 0 ops_ex dictCreate = Some (rs, d) /\ Forall2 same_result rs (map_runs ops_ex ∅).1 /\
    dict_repr hash_ex d (map_runs ops_ex ∅).2.
Proof.
  split; [by vm_compute|]. apply (dict_simulates hash_ex None 0 ops_ex); [by vm_compute|].
  repeat (constructor; [cbn; lia || done|]). constructor.
Defined.

Lemma dictScan_complete_witness :
  exists x, (7, x) ∈ [(4, 40); (6, 60); (1, 10); (3, 30); (7, 70)].
Proof.
  apply (dictScan_complete hash_ex hash_ex_range [dict_ex; dict_ex; dict_ex; dict_ex]).
  - apply (scan_more dict_ex 0 2 [(4, 40)]); [vm_compute; reflexivity|done|].
    apply (scan_more dict_ex 2 1 [(6, 60)]); [vm_compute; reflexivity|done|].
    apply (scan_more dict_ex 1 3 [(1, 10)]); [vm_compute; reflexivity|done|].
    apply scan_last. vm_compute. reflexivity.
  - repeat constructor; exists map_ex; (split; [apply dict_ex_repr|vm_compute; eauto]).
Defined.

Lemma dictScan_sound_progress_witness :
  exists v' out, dictScan dict_ex 2 = Some (v', out) /\ 0 <= v' < 2 ^ 64 /\
    (v' = 0 \/ bitrev 2 < bitrev v') /\ (forall k x, (k, x) ∈ out -> map_ex !! k = Some x).
Proof. apply (dictScan_sound_progress hash_ex hash_ex_range); [apply dict_ex_repr|lia]. Defined.

Lemma dictRehash_terminates_witness :
  if may_rehash DICT_RESIZE_ENABLE dict_ex then
    exists d', rehash_times hash_ex DICT_RESIZE_ENABLE 4 dict_ex 1 = Some d' /\ dict_repr hash_ex d' map_ex /\ dictIsRehashing d' = false
  else dictRehash hash_ex DICT_RESIZE_ENABLE dict_ex 1 = Some (0, dict_ex).
Proof. apply (dictRehash_terminates hash_ex DICT_RESIZE_ENABLE dict_ex map_ex 1); [apply dict_ex_repr|lia]. Defined.

End Dict.
