(* ===== verification/Listpack.v ===== *)
(** * Listpack (src/redis-stable/src/listpack.c)

    The listpack is the byte array of the code: a six byte header (total
    bytes, number of elements), the entries, and the terminator 0xFF.  A
    pointer into it is its offset.  Every operation is a definition over
    the bytes; [None] stands for a failed [assert] or for an access outside
    the allocation, so each theorem that an operation returns a value is
    also its memory safety.  The abstract state is the list of the encoded
    entries ([lp_rep]), and the string each entry denotes ([entry_string]). *)
From stdpp Require Import base list.
From S2P Require Import Prelude Util.

Module Listpack.
Import Util.

Definition LP_HDR_SIZE : Z := 6.
Definition LP_HDR_NUMELE_UNKNOWN : Z := 65535.
Definition LP_ENCODING_INT : Z := 0.
Definition LP_ENCODING_STRING : Z := 1.
Definition LP_EOF : Z := 255.
Definition LP_INTBUF_SIZE : Z := 21.
Definition LP_BEFORE : Z := 0.
Definition LP_AFTER : Z := 1.
Definition LP_REPLACE : Z := 2.
Definition LISTPACK_MAX_SAFETY_SIZE : Z := 1073741824.

(** The tests on the encoding byte. *)
Definition LP_ENCODING_IS_7BIT_UINT (b : Z) : bool := Z.land b 0x80 =? 0.
Definition LP_ENCODING_IS_6BIT_STR (b : Z) : bool := Z.land b 0xC0 =? 0x80.
Definition LP_ENCODING_IS_13BIT_INT (b : Z) : bool := Z.land b 0xE0 =? 0xC0.
Definition LP_ENCODING_IS_12BIT_STR (b : Z) : bool := Z.land b 0xF0 =? 0xE0.
Definition LP_ENCODING_IS_16BIT_INT (b : Z) : bool := Z.land b 0xFF =? 0xF1.
Definition LP_ENCODING_IS_24BIT_INT (b : Z) : bool := Z.land b 0xFF =? 0xF2.
Definition LP_ENCODING_IS_32BIT_INT (b : Z) : bool := Z.land b 0xFF =? 0xF3.
Definition LP_ENCODING_IS_64BIT_INT (b : Z) : bool := Z.land b 0xFF =? 0xF4.
Definition LP_ENCODING_IS_32BIT_STR (b : Z) : bool := Z.land b 0xFF =? 0xF0.

(** [n] bytes at [p], the least significant first, put together with shifts
    and [|], as the header and length macros do. *)
Fixpoint bytes_or (lp : list Z) (p : Z) (n : nat) (shift : Z) : option Z :=
  match n with
  | O => Some 0
  | S n' =>
      b ← ld8 lp p;
      r ← bytes_or lp (p + 1) n' (shift + 8);
      Some (Z.lor (Z.shiftl b shift) r)
  end.

Definition LP_ENCODING_6BIT_STR_LEN (lp : list Z) (p : Z) : option Z :=
  b ← ld8 lp p; Some (Z.land b 0x3F).
Definition LP_ENCODING_12BIT_STR_LEN (lp : list Z) (p : Z) : option Z :=
  b0 ← ld8 lp p; b1 ← ld8 lp (p + 1);
  Some (Z.lor (Z.shiftl (Z.land b0 0xF) 8) b1).
Definition LP_ENCODING_32BIT_STR_LEN (lp : list Z) (p : Z) : option Z :=
  bytes_or lp (p + 1) 4 0.
Definition lpGetTotalBytes (lp : list Z) : option Z := bytes_or lp 0 4 0.
Definition lpGetNumElements (lp : list Z) : option Z := bytes_or lp 4 2 0.

Definition lpSetTotalBytes (lp : list Z) (v : Z) : option (list Z) :=
  lp ← st8 lp 0 (Z.land v 0xff);
  lp ← st8 lp 1 (Z.land (Z.shiftr v 8) 0xff);
  lp ← st8 lp 2 (Z.land (Z.shiftr v 16) 0xff);
  st8 lp 3 (Z.land (Z.shiftr v 24) 0xff).
Definition lpSetNumElements (lp : list Z) (v : Z) : option (list Z) :=
  lp ← st8 lp 4 (Z.land v 0xff);
  st8 lp 5 (Z.land (Z.shiftr v 8) 0xff).

Definition lpBytes (lp : list Z) : option Z := lpGetTotalBytes lp.

(** [assert]: the process stops when the condition is false. *)
Definition assert_ (b : bool) : option unit := if b then Some tt else None.

Definition ASSERT_INTEGRITY (lp : list Z) (p : Z) : option unit :=
  t ← lpGetTotalBytes lp; assert_ ((LP_HDR_SIZE <=? p) && (p <? t)).
Definition ASSERT_INTEGRITY_LEN (lp : list Z) (p len : Z) : option unit :=
  t ← lpGetTotalBytes lp; assert_ ((LP_HDR_SIZE <=? p) && (p + len <? t)).

(** A null [lp] is [None]. *)
Definition lpSafeToAdd (lp : option (list Z)) (add : Z) : option Z :=
  len ← match lp with Some lp => lpGetTotalBytes lp | None => Some 0 end;
  if LISTPACK_MAX_SAFETY_SIZE <? u64 (len + add) then Some 0 else Some 1.

(** ** Integer parsing, with the loop's own overflow tests *)

Fixpoint lpStringToInt64_loop (p : list Z) (v : Z) : option (Z * list Z) :=
  match p with
  | [] => Some (v, [])
  | c :: p' =>
      if (48 <=? c) && (c <=? 57) then
        if UINT64_MAX / 10 <? v then None
        else
          let v := u64 (v * 10) in
          if UINT64_MAX - (c - 48) <? v then None
          else lpStringToInt64_loop p' (u64 (v + (c - 48)))
      else Some (v, p)
  end.

(** [None] is the return value 0; [slen] is the length of the list. *)
Definition lpStringToInt64 (s : list Z) : option Z :=
  let slen := zlen s in
  if (slen =? 0) || (LONG_STR_SIZE <=? slen) then None
  else if (slen =? 1) && bool_decide (head s = Some 48) then Some 0
  else
    let negative := bool_decide (head s = Some 45) in
    let p := if negative then tail s else s in
    match p with
    | [] => None
    | c :: p =>
        if (49 <=? c) && (c <=? 57) then
          '(v, rest) ← lpStringToInt64_loop p (c - 48);
          if negb (zlen rest =? 0) then None
          else if negative then
            if u64 (- (INT64_MIN + 1)) + 1 <? v then None
            else Some (s64 (u64 (- v)))
          else if INT64_MAX <? v then None
          else Some v
        else None
    end.

(** ** Encoding *)

(** The bytes stored in [intenc]; their number is [*enclen]. *)
Definition lpEncodeIntegerGetType (v : Z) : list Z :=
  if (0 <=? v) && (v <=? 127) then [u8 v]
  else if (-4096 <=? v) && (v <=? 4095) then
    let v := if v <? 0 then Z.shiftl 1 13 + v else v in
    [u8 (Z.lor (Z.shiftr v 8) 0xC0); Z.land v 0xff]
  else if (-32768 <=? v) && (v <=? 32767) then
    let v := if v <? 0 then Z.shiftl 1 16 + v else v in
    [0xF1; Z.land v 0xff; u8 (Z.shiftr v 8)]
  else if (-8388608 <=? v) && (v <=? 8388607) then
    let v := if v <? 0 then Z.shiftl 1 24 + v else v in
    [0xF2; Z.land v 0xff; Z.land (Z.shiftr v 8) 0xff; u8 (Z.shiftr v 16)]
  else if (-2147483648 <=? v) && (v <=? 2147483647) then
    let v := if v <? 0 then Z.shiftl 1 32 + v else v in
    [0xF3; Z.land v 0xff; Z.land (Z.shiftr v 8) 0xff; Z.land (Z.shiftr v 16) 0xff;
     u8 (Z.shiftr v 24)]
  else
    let uv := u64 v in
    [0xF4; Z.land uv 0xff; Z.land (Z.shiftr uv 8) 0xff; Z.land (Z.shiftr uv 16) 0xff;
     Z.land (Z.shiftr uv 24) 0xff; Z.land (Z.shiftr uv 32) 0xff;
     Z.land (Z.shiftr uv 40) 0xff; Z.land (Z.shiftr uv 48) 0xff; u8 (Z.shiftr uv 56)].

(** The encoding type, the contents of [intenc] and [*enclen]; [size] is the
    length of the list. *)
Definition lpEncodeGetType (ele : list Z) : Z * list Z * Z :=
  let size := zlen ele in
  match lpStringToInt64 ele with
  | Some v => let intenc := lpEncodeIntegerGetType v in (LP_ENCODING_INT, intenc, zlen intenc)
  | None =>
      (LP_ENCODING_STRING, [],
       if size <? 64 then 1 + size else if size <? 4096 then 2 + size else 5 + size)
  end.

(** The return value and the bytes stored in a non-null [buf]. *)
Definition lpEncodeBacklen (l : Z) : Z * list Z :=
  if l <=? 127 then (1, [u8 l])
  else if l <? 16383 then
    (2, [u8 (Z.shiftr l 7); Z.lor (Z.land l 127) 128])
  else if l <? 2097151 then
    (3, [u8 (Z.shiftr l 14); Z.lor (Z.land (Z.shiftr l 7) 127) 128; Z.lor (Z.land l 127) 128])
  else if l <? 268435455 then
    (4, [u8 (Z.shiftr l 21); Z.lor (Z.land (Z.shiftr l 14) 127) 128;
         Z.lor (Z.land (Z.shiftr l 7) 127) 128; Z.lor (Z.land l 127) 128])
  else
    (5, [u8 (Z.shiftr l 28); Z.lor (Z.land (Z.shiftr l 21) 127) 128;
         Z.lor (Z.land (Z.shiftr l 14) 127) 128; Z.lor (Z.land (Z.shiftr l 7) 127) 128;
         Z.lor (Z.land l 127) 128]).

(** The loop gives up when [shift] passes 28, in its fifth iteration. *)
Fixpoint lpDecodeBacklen_loop (fuel : nat) (lp : list Z) (p val shift : Z) : option Z :=
  match fuel with
  | O => None
  | S fuel' =>
      b ← ld8 lp p;
      let val := Z.lor val (u64 (Z.shiftl (Z.land b 127) shift)) in
      if Z.land b 128 =? 0 then Some val
      else
        let shift := shift + 7 in
        let p := p - 1 in
        if 28 <? shift then Some UINT64_MAX
        else lpDecodeBacklen_loop fuel' lp p val shift
  end.

Definition lpDecodeBacklen (lp : list Z) (p : Z) : option Z :=
  lpDecodeBacklen_loop 5 lp p 0 0.

(** Writes the encoded string at [buf] in [lp]. *)
Definition lpEncodeString (lp : list Z) (buf : Z) (s : list Z) : option (list Z) :=
  let len := zlen s in
  if len <? 64 then
    lp ← st8 lp buf (u8 (Z.lor len 0x80));
    stn lp (buf + 1) s
  else if len <? 4096 then
    lp ← st8 lp buf (u8 (Z.lor (Z.shiftr len 8) 0xE0));
    lp ← st8 lp (buf + 1) (Z.land len 0xff);
    stn lp (buf + 2) s
  else
    lp ← st8 lp buf 0xF0;
    lp ← st8 lp (buf + 1) (Z.land len 0xff);
    lp ← st8 lp (buf + 2) (Z.land (Z.shiftr len 8) 0xff);
    lp ← st8 lp (buf + 3) (Z.land (Z.shiftr len 16) 0xff);
    lp ← st8 lp (buf + 4) (Z.land (Z.shiftr len 24) 0xff);
    stn lp (buf + 5) s.

Definition lpCurrentEncodedSizeUnsafe (lp : list Z) (p : Z) : option Z :=
  b ← ld8 lp p;
  if LP_ENCODING_IS_7BIT_UINT b then Some 1
  else if LP_ENCODING_IS_6BIT_STR b then
    len ← LP_ENCODING_6BIT_STR_LEN lp p; Some (u32 (1 + len))
  else if LP_ENCODING_IS_13BIT_INT b then Some 2
  else if LP_ENCODING_IS_16BIT_INT b then Some 3
  else if LP_ENCODING_IS_24BIT_INT b then Some 4
  else if LP_ENCODING_IS_32BIT_INT b then Some 5
  else if LP_ENCODING_IS_64BIT_INT b then Some 9
  else if LP_ENCODING_IS_12BIT_STR b then
    len ← LP_ENCODING_12BIT_STR_LEN lp p; Some (u32 (2 + len))
  else if LP_ENCODING_IS_32BIT_STR b then
    len ← LP_ENCODING_32BIT_STR_LEN lp p; Some (u32 (5 + len))
  else if b =? LP_EOF then Some 1
  else Some 0.

Definition lpCurrentEncodedSizeBytes (lp : list Z) (p : Z) : option Z :=
  b ← ld8 lp p;
  if LP_ENCODING_IS_7BIT_UINT b then Some 1
  else if LP_ENCODING_IS_6BIT_STR b then Some 1
  else if LP_ENCODING_IS_13BIT_INT b then Some 1
  else if LP_ENCODING_IS_16BIT_INT b then Some 1
  else if LP_ENCODING_IS_24BIT_INT b then Some 1
  else if LP_ENCODING_IS_32BIT_INT b then Some 1
  else if LP_ENCODING_IS_64BIT_INT b then Some 1
  else if LP_ENCODING_IS_12BIT_STR b then Some 2
  else if LP_ENCODING_IS_32BIT_STR b then Some 5
  else if b =? LP_EOF then Some 1
  else Some 0.

Definition lpSkip (lp : list Z) (p : Z) : option Z :=
  entrylen ← lpCurrentEncodedSizeUnsafe lp p;
  let entrylen := u64 (entrylen + (lpEncodeBacklen entrylen).1) in
  Some (p + entrylen).

(** ** Validation *)

Definition OUT_OF_RANGE (lpbytes p : Z) : bool := (p <? LP_HDR_SIZE) || (lpbytes - 1 <? p).

(** The return value and the final [*pp]; a null pointer is [None]. *)
Definition lpValidateNext (lp : list Z) (pp : option Z) (lpbytes : Z) : option (Z * option Z) :=
  match pp with
  | None => Some (0, pp)
  | Some p =>
      if OUT_OF_RANGE lpbytes p then Some (0, pp)
      else
        b ← ld8 lp p;
        if b =? LP_EOF then Some (1, None)
        else
          lenbytes ← lpCurrentEncodedSizeBytes lp p;
          if lenbytes =? 0 then Some (0, pp)
          else if OUT_OF_RANGE lpbytes (p + lenbytes) then Some (0, pp)
          else
            entrylen ← lpCurrentEncodedSizeUnsafe lp p;
            let encodedBacklen := (lpEncodeBacklen entrylen).1 in
            let entrylen := u64 (entrylen + encodedBacklen) in
            if OUT_OF_RANGE lpbytes (p + entrylen) then Some (0, pp)
            else
              let p := p + entrylen in
              prevlen ← lpDecodeBacklen lp (p - 1);
              if negb (u64 (prevlen + encodedBacklen) =? entrylen) then Some (0, pp)
              else Some (1, Some p)
  end.

Definition lpAssertValidEntry (lp : list Z) (lpbytes p : Z) : option unit :=
  '(r, _) ← lpValidateNext lp (Some p) lpbytes; assert_ (negb (r =? 0)).

Definition lpValidateFirst (lp : list Z) : option (option Z) :=
  b ← ld8 lp LP_HDR_SIZE; if b =? LP_EOF then Some None else Some (Some LP_HDR_SIZE).

(** The loop of [lpValidateIntegrity]: the final [p] and [count], or [None]
    inside when the function returned 0.  Every valid entry is at least two
    bytes long, so the length of the buffer is enough fuel. *)
Fixpoint lpValidate_loop (entry_cb : option (Z -> Z -> bool)) (fuel : nat)
    (lp : list Z) (p : option Z) (bytes numele count : Z) : option (option (option Z * Z)) :=
  match fuel with
  | O => None
  | S fuel' =>
      match p with
      | None => Some (Some (None, count))
      | Some q =>
          b ← ld8 lp q;
          if b =? LP_EOF then Some (Some (p, count))
          else
            '(r, p') ← lpValidateNext lp p bytes;
            if r =? 0 then Some None
            else if match entry_cb with Some cb => negb (cb q numele) | None => false end
            then Some None
            else lpValidate_loop entry_cb fuel' lp p' bytes numele (u32 (count + 1))
      end
  end.

Definition lpValidateIntegrity (lp : list Z) (size : Z) (deep : bool)
    (entry_cb : option (Z -> Z -> bool)) : option Z :=
  if size <? LP_HDR_SIZE + 1 then Some 0
  else
    bytes ← lpGetTotalBytes lp;
    if negb (bytes =? size) then Some 0
    else
      last ← ld8 lp (size - 1);
      if negb (last =? LP_EOF) then Some 0
      else if negb deep then Some 1
      else
        numele ← lpGetNumElements lp;
        r ← lpValidate_loop entry_cb (S (length lp)) lp (Some LP_HDR_SIZE) bytes numele 0;
        match r with
        | None => Some 0
        | Some (p, count) =>
            if negb (bool_decide (p = Some (size - 1))) then Some 0
            else if negb (numele =? LP_HDR_NUMELE_UNKNOWN) && negb (numele =? count) then Some 0
            else Some 1
        end.

(** ** Traversal *)

Definition lpNext (lp : list Z) (p : Z) : option (option Z) :=
  p ← lpSkip lp p;
  b ← ld8 lp p;
  if b =? LP_EOF then Some None
  else
    bytes ← lpBytes lp;
    _ ← lpAssertValidEntry lp bytes p;
    Some (Some p).

Definition lpPrev (lp : list Z) (p : Z) : option (option Z) :=
  if p =? LP_HDR_SIZE then Some None
  else
    let p := p - 1 in
    prevlen ← lpDecodeBacklen lp p;
    let prevlen := u64 (prevlen + (lpEncodeBacklen prevlen).1) in
    let p := p - (prevlen - 1) in
    bytes ← lpBytes lp;
    _ ← lpAssertValidEntry lp bytes p;
    Some (Some p).

Definition lpFirst (lp : list Z) : option (option Z) :=
  let p := LP_HDR_SIZE in
  b ← ld8 lp p;
  if b =? LP_EOF then Some None
  else
    bytes ← lpBytes lp;
    _ ← lpAssertValidEntry lp bytes p;
    Some (Some p).

Definition lpLast (lp : list Z) : option (option Z) :=
  t ← lpGetTotalBytes lp; lpPrev lp (t - 1).

(** The counting loop of [lpLength]; each step moves at least one byte. *)
Fixpoint lpLength_loop (fuel : nat) (lp : list Z) (p : option Z) (count : Z) : option Z :=
  match p with
  | None => Some count
  | Some q =>
      match fuel with
      | O => None
      | S fuel' =>
          p' ← lpNext lp q;
          lpLength_loop fuel' lp p' (u32 (count + 1))
      end
  end.

(** The length and the listpack, whose header may have been updated. *)
Definition lpLength (lp : list Z) : option (Z * list Z) :=
  numele ← lpGetNumElements lp;
  if negb (numele =? LP_HDR_NUMELE_UNKNOWN) then Some (numele, lp)
  else
    p ← lpFirst lp;
    count ← lpLength_loop (length lp) lp p 0;
    lp ← if count <? LP_HDR_NUMELE_UNKNOWN then lpSetNumElements lp count else Some lp;
    Some (count, lp).

(** The two scanning loops of [lpSeek]; [n] is the distance to go. *)
Fixpoint lpSeek_forward (n : nat) (lp : list Z) (ele : option Z) : option (option Z) :=
  match n, ele with
  | S n', Some p => ele ← lpNext lp p; lpSeek_forward n' lp ele
  | _, _ => Some ele
  end.
Fixpoint lpSeek_backward (n : nat) (lp : list Z) (ele : option Z) : option (option Z) :=
  match n, ele with
  | S n', Some p => ele ← lpPrev lp p; lpSeek_backward n' lp ele
  | _, _ => Some ele
  end.

Definition lpSeek (lp : list Z) (index : Z) : option (option Z) :=
  let go (forward : bool) (index : Z) :=
    if forward then
      ele ← lpFirst lp; lpSeek_forward (Z.to_nat index) lp ele
    else
      ele ← lpLast lp; lpSeek_backward (Z.to_nat (-1 - index)) lp ele in
  numele ← lpGetNumElements lp;
  if negb (numele =? LP_HDR_NUMELE_UNKNOWN) then
    let index := if index <? 0 then numele + index else index in
    if index <? 0 then Some None
    else if numele <=? index then Some None
    else if Z.quot numele 2 <? index then go false (index - numele)
    else go true index
  else go (negb (index <? 0)) index.

(** ** Reading elements *)

(** What [lpGet] returns: a string inside the listpack (pointer and length),
    an integer, or the integer printed into [intbuf] (buffer and length). *)
Inductive lpret :=
  | RetStr (p count : Z)
  | RetInt (count : Z)
  | RetBuf (intbuf : list Z) (count : Z).

(** The unsigned value, the threshold and the offset of the integer
    encodings turned into the signed value. *)
Definition lpSigned (uval negstart negmax : Z) : Z :=
  if negstart <=? uval then
    let uval := u64 (negmax - uval) in
    let val := s64 uval in
    s64 (- val - 1)
  else s64 uval.

(** [entry_size] is [None] where the code does not write it. *)
Definition lpGetWithSize (lp : list Z) (p : Z) (intbuf : option (list Z))
    : option (lpret * option Z) :=
  let int (uval negstart negmax : Z) (entry_size : option Z) :=
    let val := lpSigned uval negstart negmax in
    match intbuf with
    | Some buf =>
        '(count, buf) ← ll2string buf LP_INTBUF_SIZE val;
        Some (RetBuf buf count, entry_size)
    | None => Some (RetInt val, entry_size)
    end in
  b ← ld8 lp p;
  if LP_ENCODING_IS_7BIT_UINT b then
    int (Z.land b 0x7f) UINT64_MAX 0 (Some 2)
  else if LP_ENCODING_IS_6BIT_STR b then
    count ← LP_ENCODING_6BIT_STR_LEN lp p;
    Some (RetStr (p + 1) count, Some (1 + count + (lpEncodeBacklen (count + 1)).1))
  else if LP_ENCODING_IS_13BIT_INT b then
    b1 ← ld8 lp (p + 1);
    int (Z.lor (Z.shiftl (Z.land b 0x1f) 8) b1) (Z.shiftl 1 12) 8191 (Some 3)
  else if LP_ENCODING_IS_16BIT_INT b then
    uval ← bytes_or lp (p + 1) 2 0;
    int uval (Z.shiftl 1 15) 65535 (Some 4)
  else if LP_ENCODING_IS_24BIT_INT b then
    uval ← bytes_or lp (p + 1) 3 0;
    int uval (Z.shiftl 1 23) (Z.shiftr UINT32_MAX 8) (Some 5)
  else if LP_ENCODING_IS_32BIT_INT b then
    uval ← bytes_or lp (p + 1) 4 0;
    int uval (Z.shiftl 1 31) UINT32_MAX (Some 6)
  else if LP_ENCODING_IS_64BIT_INT b then
    uval ← bytes_or lp (p + 1) 8 0;
    int uval (Z.shiftl 1 63) UINT64_MAX (Some 10)
  else if LP_ENCODING_IS_12BIT_STR b then
    count ← LP_ENCODING_12BIT_STR_LEN lp p;
    Some (RetStr (p + 2) count, Some (2 + count + (lpEncodeBacklen (count + 2)).1))
  else if LP_ENCODING_IS_32BIT_STR b then
    count ← LP_ENCODING_32BIT_STR_LEN lp p;
    Some (RetStr (p + 5) count, Some (5 + count + (lpEncodeBacklen (count + 5)).1))
  else int (12345678900000000 + b) UINT64_MAX 0 None.

Definition lpGet (lp : list Z) (p : Z) (intbuf : option (list Z)) : option lpret :=
  '(r, _) ← lpGetWithSize lp p intbuf; Some r.

(** [lpGetValue]: the string pointer and [*slen], or [*lval]. *)
Definition lpGetValue (lp : list Z) (p : Z) : option lpret :=
  r ← lpGet lp p None;
  match r with
  | RetStr q ele_len => Some (RetStr q (u32 ele_len))
  | r => Some r
  end.

(** [memcmp (lp + p, s, slen) == 0] *)
Definition mem_eq (lp : list Z) (p : Z) (s : list Z) : option bool :=
  bs ← ldn lp p (zlen s); Some (bool_decide (bs = s)).

Definition lpCompare (lp : list Z) (p : Z) (s : list Z) : option Z :=
  b ← ld8 lp p;
  if b =? LP_EOF then Some 0
  else
    r ← lpGet lp p None;
    match r with
    | RetStr value sz =>
        if zlen s =? sz then e ← mem_eq lp value s; Some (b2z e) else Some 0
    | RetInt sz =>
        match lpStringToInt64 s with
        | Some sval => Some (b2z (sz =? sval))
        | None => Some 0
        end
    | RetBuf _ _ => None
    end.

(** The state of the loop of [lpFind]: [vencoding] is 0, 1 or 255. *)
Record find_state := mkFind {
  f_p : Z; f_skipcnt : Z; f_vencoding : Z; f_vll : Z; f_entry_size : Z }.

(** The tail of an iteration: the checks on the new [p] and the test for
    the end; [None] inside means the loop ends. *)
Definition lpFind_advance (lp : list Z) (lp_bytes p : Z) : option bool :=
  _ ← (if lp_bytes <=? p + 8 then lpAssertValidEntry lp lp_bytes p
       else assert_ ((LP_HDR_SIZE <=? p) && (p <? lp_bytes)));
  b ← ld8 lp p;
  Some (b =? LP_EOF).

(** The comparison of one element: the answer and the cached encoding of
    the searched string, which is parsed at most once. *)
Definition lpFind_compare (lp : list Z) (lp_bytes : Z) (s : list Z) (st : find_state)
    : option (bool * find_state) :=
  let p := f_p st in
  '(r, es) ← lpGetWithSize lp p None;
  let entry_size := default (f_entry_size st) es in
  let st := mkFind p (f_skipcnt st) (f_vencoding st) (f_vll st) entry_size in
  match r with
  | RetStr value ll =>
      _ ← assert_ ((LP_HDR_SIZE <=? p) && (p + entry_size <? lp_bytes));
      if zlen s =? ll then e ← mem_eq lp value s; Some (e, st) else Some (false, st)
  | RetInt ll =>
      let '(venc, vll) :=
        if f_vencoding st =? 0 then
          if (32 <=? zlen s) || (zlen s =? 0) then (255, f_vll st)
          else match lpStringToInt64 s with
               | Some v => (1, v)
               | None => (255, f_vll st)
               end
        else (f_vencoding st, f_vll st) in
      Some (negb (venc =? 255) && (ll =? vll), mkFind p (f_skipcnt st) venc vll entry_size)
  | RetBuf _ _ => None
  end.

Fixpoint lpFind_loop (fuel : nat) (lp : list Z) (lp_bytes : Z) (s : list Z) (skip : Z)
    (st : find_state) : option (option Z) :=
  match fuel with
  | O => None
  | S fuel' =>
      let continue p st :=
        eof ← lpFind_advance lp lp_bytes p;
        if (eof : bool) then Some None else lpFind_loop fuel' lp lp_bytes s skip st in
      if f_skipcnt st =? 0 then
        '(found, st) ← lpFind_compare lp lp_bytes s st;
        if (found : bool) then Some (Some (f_p st))
        else
          let p := f_p st + f_entry_size st in
          continue p (mkFind p skip (f_vencoding st) (f_vll st) (f_entry_size st))
      else
        p ← lpSkip lp (f_p st);
        continue p (mkFind p (f_skipcnt st - 1) (f_vencoding st) (f_vll st) (f_entry_size st))
  end.

(** Every iteration moves [p] by at least one byte; [skip] is an [int]. *)
Definition lpFind (lp : list Z) (p : Z) (s : list Z) (skip : Z) : option (option Z) :=
  lp_bytes ← lpBytes lp;
  lpFind_loop (S (length lp)) lp lp_bytes s (s32 skip) (mkFind p 0 0 0 123456789).

(** ** Modification *)

Section alloc.

(** The allocator: [zmalloc_usable] and [zrealloc_usable] return a block of
    at least the requested size ([usable]); its fresh bytes hold anything
    ([junk]).  They abort the process instead of returning a null pointer. *)
Variable usable : Z -> Z.
Variable junk : Z.

Definition lp_malloc (sz : Z) : list Z := replicate (Z.to_nat (usable sz)) junk.
Definition lp_realloc (lp : list Z) (sz : Z) : list Z := realloc junk lp (usable sz).
Definition lp_malloc_size (lp : list Z) : Z := zlen lp.

Definition lpNew (capacity : Z) : option (list Z) :=
  let lp := lp_malloc (if LP_HDR_SIZE + 1 <? capacity then capacity else LP_HDR_SIZE + 1) in
  lp ← lpSetTotalBytes lp (LP_HDR_SIZE + 1);
  lp ← lpSetNumElements lp 0;
  st8 lp LP_HDR_SIZE LP_EOF.

Definition lpShrinkToFit (lp : list Z) : option (list Z) :=
  size ← lpGetTotalBytes lp;
  if size <? lp_malloc_size lp then Some (lp_realloc lp size) else Some lp.

(** The new listpack and [*newp], or [None] inside for the null result. *)
Definition lpInsert (lp : list Z) (elestr eleint : option (list Z)) (size p where_ : Z)
    : option (option (list Z * option Z)) :=
  let del := match elestr, eleint with None, None => true | _, _ => false end in
  let where_ := if del then LP_REPLACE else where_ in
  '(p, where_) ←
    (if where_ =? LP_AFTER then
       p ← lpSkip lp p;
       _ ← ASSERT_INTEGRITY lp p;
       Some (p, LP_BEFORE)
     else Some (p, where_));
  let poff := p in
  let '(enctype, eleint, enclen) :=
    match elestr, eleint with
    | Some s, _ =>
        let '(enctype, intenc, enclen) := lpEncodeGetType s in
        (enctype, if enctype =? LP_ENCODING_INT then Some intenc else eleint, enclen)
    | None, Some _ => (LP_ENCODING_INT, eleint, size)
    | None, None => (-1, eleint, 0)
    end in
  let '(backlen_size, backlen) := if negb del then lpEncodeBacklen enclen else (0, []) in
  old_listpack_bytes ← lpGetTotalBytes lp;
  replaced_len ←
    (if where_ =? LP_REPLACE then
       replaced_len ← lpCurrentEncodedSizeUnsafe lp p;
       let replaced_len := u32 (replaced_len + (lpEncodeBacklen replaced_len).1) in
       _ ← ASSERT_INTEGRITY_LEN lp p replaced_len;
       Some replaced_len
     else Some 0);
  let new_listpack_bytes := u64 (old_listpack_bytes + enclen + backlen_size - replaced_len) in
  if UINT32_MAX <? new_listpack_bytes then Some None
  else
    let lp := if (old_listpack_bytes <? new_listpack_bytes) &&
                 (lp_malloc_size lp <? new_listpack_bytes)
              then lp_realloc lp new_listpack_bytes else lp in
    let dst := poff in
    lp ← (if where_ =? LP_BEFORE then
            memmove lp (dst + enclen + backlen_size) dst (old_listpack_bytes - poff)
          else
            let lendiff := s64 (enclen + backlen_size - replaced_len) in
            memmove lp (dst + replaced_len + lendiff) (dst + replaced_len)
                    (old_listpack_bytes - poff - replaced_len));
    let lp := if new_listpack_bytes <? old_listpack_bytes
              then lp_realloc lp new_listpack_bytes else lp in
    newp ← (if del then b ← ld8 lp dst; Some (if b =? LP_EOF then None else Some dst)
            else Some (Some dst));
    lp ← (if negb del then
            lp ← (if enctype =? LP_ENCODING_INT
                  then src ← eleint; bs ← ldn src 0 enclen; stn lp dst bs
                  else s ← elestr; lpEncodeString lp dst s);
            bs ← ldn backlen 0 backlen_size;
            stn lp (dst + enclen) bs
          else Some lp);
    lp ← (if negb (where_ =? LP_REPLACE) || del then
            num_elements ← lpGetNumElements lp;
            if negb (num_elements =? LP_HDR_NUMELE_UNKNOWN) then
              if negb del then lpSetNumElements lp (u32 (num_elements + 1))
              else lpSetNumElements lp (u32 (num_elements - 1))
            else Some lp
          else Some lp);
    lp ← lpSetTotalBytes lp new_listpack_bytes;
    Some (Some (lp, newp)).

Definition lpInsertString (lp s : list Z) (p where_ : Z) :=
  lpInsert lp (Some s) None (zlen s) p where_.

Definition lpInsertInteger (lp : list Z) (lval p where_ : Z) :=
  let intenc := lpEncodeIntegerGetType lval in
  lpInsert lp None (Some intenc) (zlen intenc) p where_.

Definition lpAppend (lp ele : list Z) :=
  listpack_bytes ← lpGetTotalBytes lp;
  let eofptr := listpack_bytes - 1 in
  lpInsert lp (Some ele) None (zlen ele) eofptr LP_BEFORE.

Definition lpAppendInteger (lp : list Z) (lval : Z) :=
  listpack_bytes ← lpGetTotalBytes lp;
  let eofptr := listpack_bytes - 1 in
  lpInsertInteger lp lval eofptr LP_BEFORE.

Definition lpPrepend (lp s : list Z) :=
  p ← lpFirst lp;
  match p with
  | None => lpAppend lp s
  | Some p => lpInsert lp (Some s) None (zlen s) p LP_BEFORE
  end.

Definition lpPrependInteger (lp : list Z) (lval : Z) :=
  p ← lpFirst lp;
  match p with
  | None => lpAppendInteger lp lval
  | Some p => lpInsertInteger lp lval p LP_BEFORE
  end.

Definition lpReplace (lp : list Z) (p : Z) (s : list Z) :=
  lpInsert lp (Some s) None (zlen s) p LP_REPLACE.

Definition lpReplaceInteger (lp : list Z) (p lval : Z) :=
  lpInsertInteger lp lval p LP_REPLACE.

Definition lpDelete (lp : list Z) (p : Z) :=
  lpInsert lp None None 0 p LP_REPLACE.

(** The loop that looks for the end of the range: [deleted] and [tail]. *)
Fixpoint lpDeleteRange_loop (fuel : nat) (lp : list Z) (bytes num deleted tail : Z)
    : option (Z * Z) :=
  if num =? 0 then Some (deleted, tail)
  else
    match fuel with
    | O => None
    | S fuel' =>
        let deleted := u64 (deleted + 1) in
        tail ← lpSkip lp tail;
        b ← ld8 lp tail;
        if b =? LP_EOF then Some (deleted, tail)
        else
          _ ← lpAssertValidEntry lp bytes tail;
          lpDeleteRange_loop fuel' lp bytes (num - 1) deleted tail
    end.

(** The listpack and the final [*p]. *)
Definition lpDeleteRangeWithEntry (lp : list Z) (p num : Z) : option (list Z * option Z) :=
  bytes ← lpBytes lp;
  let eofptr := bytes - 1 in
  let first := p in
  if num =? 0 then Some (lp, Some p)
  else
    '(deleted, tail) ← lpDeleteRange_loop (length lp) lp bytes num 0 first;
    let poff := first in
    lp ← memmove lp first tail (eofptr - tail + 1);
    lp ← lpSetTotalBytes lp (u64 (bytes - (tail - first)));
    numele ← lpGetNumElements lp;
    lp ← (if negb (numele =? LP_HDR_NUMELE_UNKNOWN)
          then lpSetNumElements lp (u64 (numele - deleted)) else Some lp);
    lp ← lpShrinkToFit lp;
    b ← ld8 lp poff;
    Some (lp, if b =? LP_EOF then None else Some poff).

Definition lpDeleteRange (lp : list Z) (index num : Z) : option (list Z) :=
  numele ← lpGetNumElements lp;
  if num =? 0 then Some lp
  else
    p ← lpSeek lp index;
    match p with
    | None => Some lp
    | Some p =>
        let known := negb (numele =? LP_HDR_NUMELE_UNKNOWN) in
        let index := if known && (index <? 0) then numele + index else index in
        if known && (u64 (numele - u64 index) <=? num) then
          lp ← st8 lp p LP_EOF;
          lp ← lpSetTotalBytes lp (p + 1);
          lp ← lpSetNumElements lp index;
          lpShrinkToFit lp
        else
          '(lp, _) ← lpDeleteRangeWithEntry lp p num; Some lp
    end.

(** The result with the final [*first] and [*second]; [same] tells whether
    the two pointers are equal.  A null pointer is [None]. *)
Definition lpMerge (first second : option (list Z)) (same : bool)
    : option (option (list Z) * option (list Z) * option (list Z)) :=
  match first, second with
  | Some f, Some s =>
      if same then Some (None, first, second)
      else
        first_bytes ← lpBytes f;
        '(first_len, f) ← lpLength f;
        second_bytes ← lpBytes s;
        '(second_len, s) ← lpLength s;
        let '(target, target_bytes, source, source_bytes, append) :=
          if second_bytes <=? first_bytes
          then (f, first_bytes, s, second_bytes, true)
          else (s, second_bytes, f, first_bytes, false) in
        let lpbytes := u64 (first_bytes + second_bytes - LP_HDR_SIZE - 1) in
        _ ← assert_ (lpbytes <? UINT32_MAX);
        let lplength := first_len + second_len in
        let lplength := if lplength <? 65535 then lplength else 65535 in
        let target := lp_realloc target lpbytes in
        target ←
          (if (append : bool) then
             bs ← ldn source LP_HDR_SIZE (source_bytes - LP_HDR_SIZE);
             stn target (target_bytes - 1) bs
           else
             target ← memmove target (source_bytes - 1) LP_HDR_SIZE (target_bytes - LP_HDR_SIZE);
             bs ← ldn source 0 (source_bytes - 1);
             stn target 0 bs);
        target ← lpSetNumElements target lplength;
        target ← lpSetTotalBytes target lpbytes;
        Some (if (append : bool) then (Some target, Some target, None)
              else (Some target, None, Some target))
  | _, _ => Some (None, first, second)
  end.

End alloc.

(** ** The header and the backlen *)

Lemma bytes_or_spec n lp p sh bs :
  0 <= sh -> Forall is_byte bs -> ldn lp p (Z.of_nat n) = Some bs ->
  bytes_or lp p n sh = Some (Z.shiftl (le_dec bs) sh).
Proof.
  revert p sh bs. induction n as [|n IH]; intros p sh bs Hsh Hb H.
  - apply ldn_zlen in H as H'. destruct bs; [|rewrite zlen_cons in H'; pose proof (zlen_nonneg bs); lia].
    simpl. by rewrite Z.shiftl_0_l.
  - rewrite Nat2Z.inj_succ, <- Z.add_1_l in H.
    destruct bs as [|b bs]; [apply ldn_zlen in H; rewrite zlen_nil in H; lia|].
    destruct (ldn_app _ p 1 (Z.of_nat n) _ ltac:(lia) ltac:(lia) H) as [H1 H2].
    change (Z.to_nat 1) with 1%nat in *. simpl in H1, H2. apply ld8_ldn in H1.
    inversion_clear Hb. cbn [bytes_or]. rewrite H1. bnd. erewrite IH; [|lia|done|by apply H2]. bnd.
    f_equal. cbn [le_dec]. pose proof (le_dec_range bs ltac:(done)).
    replace (Z.shiftl (le_dec bs) (sh + 8)) with (Z.shiftl (Z.shiftl (le_dec bs) 8) sh)
      by (rewrite Z.shiftl_shiftl by lia; f_equal; lia).
    rewrite <- Z.shiftl_lor. f_equal.
    rewrite (shiftl_lor_add b (le_dec bs) 8); unfold is_byte in *; lia.
Qed.

Lemma land_255 v : Z.land v 255 = v mod 256.
Proof. change 255 with (Z.ones 8). by rewrite Z.land_ones by lia. Qed.

Lemma enc_bytes2 v : [Z.land v 255; Z.land (Z.shiftr v 8) 255] = le_enc 2 v.
Proof. cbn [le_enc]. by rewrite !land_255, Z.shiftr_div_pow2 by lia. Qed.

Lemma enc_bytes4 v :
  [Z.land v 255; Z.land (Z.shiftr v 8) 255; Z.land (Z.shiftr v 16) 255; Z.land (Z.shiftr v 24) 255]
  = le_enc 4 v.
Proof.
  cbn [le_enc]. rewrite !land_255, !Z.shiftr_div_pow2 by lia.
  rewrite !Z.div_div by lia. done.
Qed.

Lemma st8_st8 m p a bs m1 : st8 m p a = Some m1 -> stn m1 (p + 1) bs = stn m p (a :: bs).
Proof. apply stn_stn. Qed.

Lemma st8_chain m p a bs :
  0 <= p < zlen m -> st8 m p a ≫= (fun m => stn m (p + 1) bs) = stn m p (a :: bs).
Proof. intros. destruct (st8_is_Some m p a) as [m1 E]; [done|]. rewrite E. bnd. by apply st8_st8. Qed.

Lemma setTotal_eq lp v : 6 <= zlen lp -> lpSetTotalBytes lp v = stn lp 0 (le_enc 4 v).
Proof.
  intros H. unfold lpSetTotalBytes. rewrite <- enc_bytes4. symmetry.
  destruct (st8_is_Some lp 0 (Z.land v 255)) as [m1 E1]; [lia|]. rewrite E1. bnd.
  rewrite <- (st8_st8 _ _ _ _ _ E1). apply st8_zlen in E1 as L1.
  destruct (st8_is_Some m1 1 (Z.land (Z.shiftr v 8) 255)) as [m2 E2]; [lia|]. rewrite E2. bnd.
  rewrite <- (st8_st8 _ _ _ _ _ E2). apply st8_zlen in E2 as L2.
  destruct (st8_is_Some m2 2 (Z.land (Z.shiftr v 16) 255)) as [m3 E3]; [lia|]. rewrite E3. bnd.
  rewrite <- (st8_st8 _ _ _ _ _ E3). done.
Qed.

Lemma setNum_eq lp v : 6 <= zlen lp -> lpSetNumElements lp v = stn lp 4 (le_enc 2 v).
Proof.
  intros H. unfold lpSetNumElements. rewrite <- enc_bytes2. apply (st8_chain lp 4). lia.
Qed.

(** A listpack with header fields [t] and [n] and contents [body]. *)
Definition with_hdr (t n : Z) (body : list Z) : list Z := le_enc 4 t ++ le_enc 2 n ++ body.

Lemma zlen_with_hdr t n body : zlen (with_hdr t n body) = 6 + zlen body.
Proof. unfold with_hdr. rewrite !zlen_app, !zlen_le_enc. lia. Qed.

Lemma with_hdr_mod t n b : with_hdr (t mod 2 ^ 32) n b = with_hdr t n b.
Proof.
  unfold with_hdr. f_equal. cbn [le_enc]. 
  f_equal; [|f_equal; [|f_equal; [|f_equal]]]; dlia.
Qed.

Lemma setTotal_hdr t n b v : lpSetTotalBytes (with_hdr t n b) v = Some (with_hdr v n b).
Proof.
  rewrite setTotal_eq by (rewrite zlen_with_hdr; pose proof (zlen_nonneg b); lia).
  by apply (stn_at _ [] (le_enc 4 t) (le_enc 2 n ++ b)).
Qed.

Lemma setNum_hdr t n b v : lpSetNumElements (with_hdr t n b) v = Some (with_hdr t v b).
Proof.
  rewrite setNum_eq by (rewrite zlen_with_hdr; pose proof (zlen_nonneg b); lia).
  by apply (stn_at _ (le_enc 4 t) (le_enc 2 n) b).
Qed.

Lemma getTotal_hdr t n b : 0 <= t < 2 ^ 32 -> lpGetTotalBytes (with_hdr t n b) = Some t.
Proof.
  intros. unfold lpGetTotalBytes. rewrite (bytes_or_spec _ _ _ _ (le_enc 4 t)).
  - rewrite le_dec_enc, Z.shiftl_0_r, Z.mod_small by done. done.
  - lia.
  - apply le_enc_bytes.
  - by apply (ldn_at' _ [] _ (le_enc 2 n ++ b)).
Qed.

Lemma getNum_hdr t n b : 0 <= n < 2 ^ 16 -> lpGetNumElements (with_hdr t n b) = Some n.
Proof.
  intros. unfold lpGetNumElements. rewrite (bytes_or_spec _ _ _ _ (le_enc 2 n)).
  - rewrite le_dec_enc, Z.shiftl_0_r, Z.mod_small by done. done.
  - lia.
  - apply le_enc_bytes.
  - by apply (ldn_at' _ (le_enc 4 t) _ b).
Qed.

(** ** Backlen: what is encoded is what is decoded *)

Abbreviation backlen l := (snd (lpEncodeBacklen l)).
Abbreviation backlen_size l := (fst (lpEncodeBacklen l)).

Lemma zlen_backlen l : zlen (backlen l) = backlen_size l.
Proof. unfold lpEncodeBacklen. repeat case_if E; done. Qed.

Lemma backlen_size_range l : 1 <= backlen_size l <= 5.
Proof. unfold lpEncodeBacklen. repeat case_if E; simpl; lia. Qed.

Lemma group7 l : Z.lor (Z.land l 127) 128 = 128 + l mod 128.
Proof.
  change 127 with (Z.ones 7). rewrite Z.land_ones by lia. change 128 with (Z.shiftl 1 7) at 1.
  pose proof (Z.mod_pos_bound l (2 ^ 7) ltac:(lia)).
  rewrite (shiftl_lor_add _ 1 7) by lia. change (2 ^ 7) with 128. lia.
Qed.

Lemma group7_lo g : 0 <= g < 128 -> Z.land (128 + g) 127 = g /\ Z.land (128 + g) 128 = 128.
Proof.
  intros H. split.
  - change 127 with (Z.ones 7). rewrite Z.land_ones by lia. change (2 ^ 7) with 128. dlia.
  - replace (128 + g) with (Z.lor g (Z.shiftl 1 7)) by (rewrite (shiftl_lor_add g 1 7); lia).
    apply Z.bits_inj'. intros i Hi. rewrite Z.land_spec, Z.lor_spec.
    change (Z.shiftl 1 7) with (2 ^ 7). change 128 with (2 ^ 7).
    destruct (decide (i = 7)) as [->|]; [rewrite Z.pow2_bits_true by lia; by rewrite orb_true_r|].
    rewrite Z.pow2_bits_false by lia. apply andb_false_r.
Qed.

Lemma group7_hi g : 0 <= g < 128 -> Z.land g 127 = g /\ Z.land g 128 = 0.
Proof.
  intros H. split.
  - change 127 with (Z.ones 7). rewrite Z.land_ones by lia. apply Z.mod_small. lia.
  - apply Z.bits_inj'. intros i Hi. rewrite Z.land_spec, Z.bits_0. change 128 with (2 ^ 7).
    destruct (decide (i = 7)) as [->|]; [by rewrite (testbit_high 7 g) by lia|].
    rewrite Z.pow2_bits_false by lia. apply andb_false_r.
Qed.

Lemma decode_step fuel lp p val sh v :
  ld8 lp p = Some (128 + v mod 128) -> 0 <= sh <= 21 -> 0 <= val < 2 ^ sh ->
  lpDecodeBacklen_loop (S fuel) lp p val sh =
  lpDecodeBacklen_loop fuel lp (p - 1) (val + (v mod 128) * 2 ^ sh) (sh + 7).
Proof.
  intros Hb Hsh Hval. pose proof (Z.mod_pos_bound v 128 ltac:(lia)) as Hg.
  cbn [lpDecodeBacklen_loop]. rewrite Hb. bnd.
  destruct (group7_lo _ Hg) as [-> ->]. if_lia. if_lia.
  rewrite wrap_small; [by rewrite (shiftl_lor_add val _ sh) by lia|].
  rewrite Z.shiftl_mul_pow2 by lia. assert (2 ^ sh <= 2 ^ 21) by (apply Z.pow_le_mono_r; lia). nia.
Qed.

Lemma decode_last fuel lp p val sh b :
  ld8 lp p = Some b -> 0 <= b < 128 -> 0 <= sh <= 28 -> 0 <= val < 2 ^ sh ->
  lpDecodeBacklen_loop (S fuel) lp p val sh = Some (val + b * 2 ^ sh).
Proof.
  intros Hb Hg Hsh Hval. cbn [lpDecodeBacklen_loop]. rewrite Hb. bnd.
  destruct (group7_hi b Hg) as [-> ->]. if_lia.
  rewrite wrap_small; [by rewrite (shiftl_lor_add val b sh) by lia|].
  rewrite Z.shiftl_mul_pow2 by lia. assert (2 ^ sh <= 2 ^ 28) by (apply Z.pow_le_mono_r; lia). nia.
Qed.

Local Ltac dstep i := erewrite decode_step;
  [|match goal with H : forall (_ : nat) _, _ |- _ => eapply (H i); [reflexivity|lia] end|lia|dlia].
Local Ltac dlast i := erewrite decode_last;
  [|match goal with H : forall (_ : nat) _, _ |- _ => eapply (H i); [reflexivity|lia] end|dlia|lia|dlia].

Lemma decode_backlen lp p l :
  0 <= l < 2 ^ 35 -> ldn lp p (backlen_size l) = Some (backlen l) ->
  lpDecodeBacklen lp (p + backlen_size l - 1) = Some l.
Proof.
  intros Hl H. apply ldn_split in H as (A & C & -> & <- & _). unfold lpDecodeBacklen.
  set (m := A ++ backlen l ++ C). 
  assert (Hg : forall i b, backlen l !! i = Some b -> ld8 m (zlen A + Z.of_nat i) = Some b).
  { intros i b Hi. unfold m, ld8, zlen. if_lia.
    rewrite lookup_app_r by lia. rewrite lookup_app_l by (apply lookup_lt_Some in Hi; lia).
    rewrite <- Hi. f_equal. lia. }
  clearbody m.
  assert (Hl0 : forall i b, backlen l !! i = Some b -> forall q, q = zlen A + Z.of_nat i -> ld8 m q = Some b)
    by (intros i b Hi q ->; auto).
  clear Hg. revert Hl0. unfold lpEncodeBacklen, wrap.
  repeat case_if E; cbn [fst snd]; rewrite ?group7, ?Z.shiftr_div_pow2 by lia; intros Hg.
  - dlast 0%nat. f_equal. dlia.
  - dstep 1%nat. dlast 0%nat. f_equal. dlia.
  - dstep 2%nat. dstep 1%nat. dlast 0%nat. f_equal. dlia.
  - dstep 3%nat. dstep 2%nat. dstep 1%nat. dlast 0%nat. f_equal. dlia.
  - dstep 4%nat. dstep 3%nat. dstep 2%nat. dstep 1%nat. dlast 0%nat. f_equal. dlia.
Qed.

(** ** Entries and the representation of a list of entries *)

(** The encoded data of one entry: an encoding byte other than the
    terminator, and exactly the bytes that encoding asks for. *)
Definition data (d : list Z) : Prop :=
  Forall is_byte d /\ head d <> Some LP_EOF /\ lpCurrentEncodedSizeUnsafe d 0 = Some (zlen d).

Definition entry (d : list Z) : list Z := d ++ backlen (zlen d).
Definition body (ds : list (list Z)) : list Z := concat (map entry ds).

Definition num_ok (n : Z) (ds : list (list Z)) : Prop :=
  n = LP_HDR_NUMELE_UNKNOWN \/ (n = zlen ds /\ n < LP_HDR_NUMELE_UNKNOWN).

Definition lp_rep (lp : list Z) (ds : list (list Z)) : Prop :=
  exists n slack,
    lp = with_hdr (7 + zlen (body ds)) n (body ds ++ LP_EOF :: slack) /\
    7 + zlen (body ds) < 2 ^ 32 /\ Forall data ds /\ num_ok n ds.

(** The pointer to the entry after [pre]. *)
Definition pos (pre : list (list Z)) : Z := LP_HDR_SIZE + zlen (body pre).

(** [d] lies at [p] in [lp]. *)
Definition at_ptr (lp : list Z) (p : Z) (d : list Z) : Prop :=
  forall k b, 0 <= k -> ld8 d k = Some b -> ld8 lp (p + k) = Some b.

Lemma at_ptr_app A d C : at_ptr (A ++ d ++ C) (zlen A) d.
Proof.
  intros k b Hk H. unfold ld8 in *. pose proof (zlen_nonneg A). revert H. if_lia. intros H.
  if_lia. apply lookup_lt_Some in H as ?. unfold zlen.
  rewrite lookup_app_r by lia. rewrite lookup_app_l by lia. rewrite <- H. f_equal. lia.
Qed.

Lemma ld8_nonneg m p b : ld8 m p = Some b -> 0 <= p.
Proof. unfold ld8. case_if E; [lia|done]. Qed.

Lemma ld8_lt m p b : ld8 m p = Some b -> 0 <= p < zlen m.
Proof.
  intros H. pose proof (ld8_nonneg _ _ _ H). unfold ld8 in H. revert H. if_lia.
  intros ?%lookup_lt_Some. unfold zlen. lia.
Qed.

Lemma at_ptr_bytes_or lp p d k n sh v :
  at_ptr lp p d -> 0 <= k -> bytes_or d k n sh = Some v -> bytes_or lp (p + k) n sh = Some v.
Proof.
  intros Hp. revert k sh v. induction n as [|n IH]; intros k sh v Hk H; [done|].
  cbn [bytes_or] in *. inv_bind. rewrite (Hp k r) by done. bnd.
  rewrite <- Z.add_assoc. rewrite (IH (k + 1) (sh + 8) r0) by (lia || done). done.
Qed.

Lemma at_ptr_0 lp p d b : at_ptr lp p d -> ld8 d 0 = Some b -> ld8 lp p = Some b.
Proof. intros Hp H. rewrite <- (Z.add_0_r p). by apply Hp. Qed.


Local Ltac at_solve Hp :=
  repeat match goal with
  | H : ld8 ?d 0 = Some ?b |- context [ld8 ?lp ?p] =>
      rewrite (at_ptr_0 lp p d b Hp H); bnd
  | H : ld8 ?d ?k = Some ?b |- context [ld8 ?lp (?p + ?k)] =>
      rewrite (Hp k b ltac:(lia) H); bnd
  | H : bytes_or ?d ?k ?n ?sh = Some ?v |- context [bytes_or ?lp (?p + ?k) ?n ?sh] =>
      rewrite (at_ptr_bytes_or lp p d k n sh v Hp ltac:(lia) H); bnd
  end.

Lemma at_ptr_size lp p d n :
  at_ptr lp p d -> lpCurrentEncodedSizeUnsafe d 0 = Some n ->
  lpCurrentEncodedSizeUnsafe lp p = Some n.
Proof.
  intros Hp. unfold lpCurrentEncodedSizeUnsafe, LP_ENCODING_6BIT_STR_LEN,
    LP_ENCODING_12BIT_STR_LEN, LP_ENCODING_32BIT_STR_LEN.
  intros H. apply bind_Some in H as (b & Hb & H). rewrite Z.add_0_l in H.
  rewrite (at_ptr_0 _ _ _ _ Hp Hb). bnd. revert H.
  repeat (case_if E; [intros H; inv_bind; simplify_eq; by at_solve Hp|]). done.
Qed.

Lemma ld8_head (d : list Z) : ld8 d 0 = head d.
Proof. destruct d; done. Qed.

Local Ltac ld8_bounds :=
  repeat match goal with H : ld8 _ _ = Some _ |- _ => apply ld8_lt in H end.

(** The number of bytes that hold the length is in the entry. *)
Lemma at_ptr_sizebytes lp p d :
  at_ptr lp p d -> data d ->
  exists lb, lpCurrentEncodedSizeBytes lp p = Some lb /\ 1 <= lb <= zlen d.
Proof.
  intros Hp (Hby & Hh & H). unfold lpCurrentEncodedSizeUnsafe in H.
  apply bind_Some in H as (b & Hb & H). unfold lpCurrentEncodedSizeBytes.
  rewrite (at_ptr_0 _ _ _ _ Hp Hb). bnd. apply ld8_lt in Hb as Hl.
  assert (b <> LP_EOF) by (rewrite ld8_head in Hb; congruence).
  unfold LP_ENCODING_12BIT_STR_LEN, LP_ENCODING_32BIT_STR_LEN in H.
  revert H. repeat (case_if E; [intros H; eexists; split; [reflexivity|]; try lia|]).
  - inv_bind. ld8_bounds. lia.
  - inv_bind. cbn [bytes_or] in *. inv_bind. ld8_bounds. lia.
  - intros [= H]. lia.
Qed.

(** ** One entry in a listpack *)

Lemma zlen_entry d : zlen (entry d) = zlen d + backlen_size (zlen d).
Proof. unfold entry. by rewrite zlen_app, zlen_backlen. Qed.

Lemma zlen_body_app a b : zlen (body (a ++ b)) = zlen (body a) + zlen (body b).
Proof. unfold body. by rewrite map_app, concat_app, zlen_app. Qed.

Lemma body_app a b : body (a ++ b) = body a ++ body b.
Proof. unfold body. by rewrite map_app, concat_app. Qed.

Lemma body_cons d b : body (d :: b) = entry d ++ body b.
Proof. done. Qed.

Lemma zlen_body_cons d b : zlen (body (d :: b)) = zlen (entry d) + zlen (body b).
Proof. by rewrite body_cons, zlen_app. Qed.

Lemma data_nonempty d : data d -> 1 <= zlen d.
Proof.
  intros (_ & _ & H). unfold lpCurrentEncodedSizeUnsafe in H.
  apply bind_Some in H as (b & Hb & _). apply ld8_lt in Hb. lia.
Qed.

(** A listpack split at an entry: the bytes before it, the entry, the rest. *)
Lemma rep_split lp pre d post :
  lp_rep lp (pre ++ d :: post) ->
  exists A C, lp = A ++ entry d ++ C /\ zlen A = pos pre /\ data d /\ 1 <= zlen C /\ lpGetTotalBytes lp = Some (pos pre + zlen (entry d) + zlen (body post) + 1) /\
    pos pre + zlen (entry d) + zlen (body post) + 1 < 2 ^ 32.
Proof.
  intros (n & sl & -> & Ht & Hd & Hn).
  rewrite zlen_body_app, zlen_body_cons in Ht.
  exists (with_hdr (7 + zlen (body (pre ++ d :: post))) n (body pre)), (body post ++ LP_EOF :: sl).
  unfold pos, LP_HDR_SIZE. rewrite zlen_with_hdr. split_and!.
  - unfold with_hdr. rewrite body_app, body_cons, <- !(assoc (++)). done.
  - done.
  - apply Forall_app in Hd as [_ Hd]. by inversion Hd.
  - rewrite zlen_app, zlen_cons. pose proof (zlen_nonneg (body post)). pose proof (zlen_nonneg sl). lia.
  - rewrite getTotal_hdr; rewrite ?zlen_body_app, ?zlen_body_cons; [f_equal; lia|].
    pose proof (zlen_nonneg (body post)). pose proof (zlen_nonneg (body pre)).
    pose proof (zlen_nonneg (entry d)). lia.
  - lia.
Qed.

Lemma rep_eof lp ds : lp_rep lp ds ->
  ld8 lp (pos ds) = Some LP_EOF /\ lpGetTotalBytes lp = Some (pos ds + 1) /\ pos ds + 1 < 2 ^ 32 /\
  pos ds + 1 <= zlen lp /\ exists n, lpGetNumElements lp = Some n /\ num_ok n ds.
Proof.
  intros (n & sl & -> & Ht & Hd & Hn). unfold pos, LP_HDR_SIZE.
  pose proof (zlen_nonneg (body ds)). pose proof (zlen_nonneg sl).
  rewrite zlen_with_hdr, zlen_app, zlen_cons. split_and!.
  - eapply (ld8_at _ (with_hdr _ n (body ds))); [|by rewrite zlen_with_hdr].
    unfold with_hdr. by rewrite <- !(assoc (++)).
  - rewrite getTotal_hdr by lia. f_equal. lia.
  - lia.
  - lia.
  - exists n. split; [|done]. apply getNum_hdr. unfold num_ok, LP_HDR_NUMELE_UNKNOWN in Hn.
    pose proof (zlen_nonneg ds). lia.
Qed.

Lemma entry_at A d C : at_ptr (A ++ entry d ++ C) (zlen A) d.
Proof. unfold entry. rewrite <- (assoc (++)). apply at_ptr_app. Qed.

Lemma backlen_at A d C : zlen d < 2 ^ 32 ->
  lpDecodeBacklen (A ++ entry d ++ C) (zlen A + zlen (entry d) - 1) = Some (zlen d).
Proof.
  intros Hd. rewrite zlen_entry. 
  replace (zlen A + (zlen d + backlen_size (zlen d)) - 1)
    with ((zlen A + zlen d) + backlen_size (zlen d) - 1) by lia.
  apply decode_backlen; [pose proof (zlen_nonneg d); lia|].
  apply (ldn_at' _ (A ++ d) _ C); [|by rewrite zlen_app|by rewrite zlen_backlen].
  unfold entry. by rewrite <- !(assoc (++)).
Qed.

Lemma pos_snoc pre d : pos (pre ++ [d]) = pos pre + zlen (entry d).
Proof. unfold pos. rewrite zlen_body_app, zlen_body_cons. unfold body at 2. simpl. rewrite zlen_nil. lia. Qed.

Lemma pos_app pre d post : pos (pre ++ d :: post) = pos pre + zlen (entry d) + zlen (body post).
Proof. unfold pos. rewrite zlen_body_app, zlen_body_cons. lia. Qed.

Lemma pos_ge pre : LP_HDR_SIZE <= pos pre.
Proof. unfold pos. pose proof (zlen_nonneg (body pre)). lia. Qed.

Lemma skip_spec lp pre d post : lp_rep lp (pre ++ d :: post) ->
  lpSkip lp (pos pre) = Some (pos (pre ++ [d])).
Proof.
  intros H. apply rep_split in H as (A & C & -> & HA & Hd & HC & Ht & Hb). rewrite pos_snoc.
  unfold lpSkip. rewrite <- HA, (at_ptr_size _ _ _ _ (entry_at A d C) (proj2 (proj2 Hd))). bnd.
  rewrite zlen_entry in *. pose proof (zlen_nonneg (body post)). pose proof (pos_ge pre).
  unfold LP_HDR_SIZE in *. pose proof (data_nonempty d Hd). pose proof (backlen_size_range (zlen d)).
  rewrite wrap_small by lia. done.
Qed.

Lemma validate_next_spec lp pre d post : lp_rep lp (pre ++ d :: post) ->
  lpValidateNext lp (Some (pos pre)) (pos (pre ++ d :: post) + 1) = Some (1, Some (pos (pre ++ [d]))).
Proof.
  intros H. apply rep_split in H as (A & C & -> & HA & Hd & HC & Ht & Hb). rewrite pos_snoc, pos_app.
  pose proof (zlen_nonneg (body post)). pose proof (pos_ge pre).
  pose proof (data_nonempty d Hd). pose proof (backlen_size_range (zlen d)).
  rewrite zlen_entry in *. unfold lpValidateNext, OUT_OF_RANGE. if_lia.
  assert (exists b, ld8 d 0 = Some b /\ b <> LP_EOF) as (b & Hb0 & Hne).
  { destruct (ld8_is_Some d 0) as [b E]; [lia|]. exists b. split; [done|].
    rewrite ld8_head in E. intros ->. by apply Hd. }
  rewrite <- HA at 1. rewrite (at_ptr_0 _ _ _ _ (entry_at A d C) Hb0). bnd. if_lia.
  destruct (at_ptr_sizebytes _ _ _ (entry_at A d C) Hd) as (lb & Hlb & ?).
  rewrite <- HA at 1. rewrite Hlb. bnd. if_lia. if_lia.
  rewrite <- HA at 1. rewrite (at_ptr_size _ _ _ _ (entry_at A d C) (proj2 (proj2 Hd))). bnd.
  unfold LP_HDR_SIZE in *. rewrite (wrap_small 64 (zlen d + backlen_size (zlen d))) by lia. if_lia.
  rewrite <- HA. pose proof (backlen_at A d C ltac:(lia)) as HB. rewrite zlen_entry in HB. rewrite HB. bnd.
  rewrite wrap_small by lia. if_lia. done.
Qed.

Lemma validate_eof_spec lp ds : lp_rep lp ds ->
  lpValidateNext lp (Some (pos ds)) (pos ds + 1) = Some (1, None).
Proof.
  intros H. apply rep_eof in H as (H & ?). pose proof (pos_ge ds).
  unfold lpValidateNext, OUT_OF_RANGE. if_lia. rewrite H. bnd. by if_lia.
Qed.

Lemma assert_valid_spec lp pre post : lp_rep lp (pre ++ post) ->
  lpAssertValidEntry lp (pos (pre ++ post) + 1) (pos pre) = Some tt.
Proof.
  intros H. unfold lpAssertValidEntry. destruct post as [|d post].
  - rewrite app_nil_r in *. by rewrite validate_eof_spec.
  - by rewrite (validate_next_spec lp pre d post).
Qed.

Lemma entry_not_eof lp pre d post : lp_rep lp (pre ++ d :: post) ->
  exists b, ld8 lp (pos pre) = Some b /\ b <> LP_EOF.
Proof.
  intros H. apply rep_split in H as (A & C & -> & HA & Hd & _).
  destruct (ld8_is_Some d 0) as [b E]; [pose proof (data_nonempty d Hd); lia|]. exists b.
  split; [|rewrite ld8_head in E; intros ->; by apply Hd].
  rewrite <- HA. eapply at_ptr_0; [apply entry_at|done].
Qed.

Definition ptr (pre post : list (list Z)) : option Z :=
  match post with [] => None | _ => Some (pos pre) end.

(** Checking the element at a position, as [lpFirst] and [lpNext] do. *)
Lemma check_spec lp pre post : lp_rep lp (pre ++ post) ->
  (b ← ld8 lp (pos pre);
   if b =? LP_EOF then Some None
   else bytes ← lpBytes lp; _ ← lpAssertValidEntry lp bytes (pos pre); Some (Some (pos pre)))
  = Some (ptr pre post).
Proof.
  intros H. pose proof (rep_eof _ _ H) as (He & Ht & _). destruct post as [|d post].
  - rewrite app_nil_r in *. rewrite He. done.
  - destruct (entry_not_eof _ _ _ _ H) as (b & -> & Hb). bnd. unfold LP_EOF in *. if_lia.
    unfold lpBytes. rewrite Ht. bnd. by rewrite (assert_valid_spec _ pre).
Qed.

Lemma first_spec lp ds : lp_rep lp ds -> lpFirst lp = Some (ptr [] ds).
Proof. intros H. apply (check_spec lp [] ds H). Qed.

Lemma next_spec lp pre d post : lp_rep lp (pre ++ d :: post) ->
  lpNext lp (pos pre) = Some (ptr (pre ++ [d]) post).
Proof.
  intros H. unfold lpNext. rewrite (skip_spec _ _ _ _ H). bnd.
  apply (check_spec lp (pre ++ [d]) post). by rewrite <- (assoc (++)).
Qed.

Lemma prev_first lp : lpPrev lp (pos []) = Some None.
Proof. done. Qed.

Lemma prev_spec lp pre d post : lp_rep lp (pre ++ d :: post) ->
  lpPrev lp (pos (pre ++ [d])) = Some (Some (pos pre)).
Proof.
  intros H. pose proof (rep_eof _ _ H) as (He & Ht & Hlt & _).
  pose proof (rep_split _ _ _ _ H) as (A & C & E & HA & Hd & _ & _ & Hb).
  pose proof (data_nonempty d Hd). pose proof (backlen_size_range (zlen d)). pose proof (pos_ge pre).
  pose proof (zlen_nonneg (body post)).
  rewrite pos_snoc, zlen_entry in *. unfold lpPrev. if_lia.
  pose proof (backlen_at A d C) as HB. rewrite <- E, HA, zlen_entry in HB. 
  unfold LP_HDR_SIZE in *. rewrite HB by lia. bnd.
  rewrite wrap_small by lia.
  replace (pos pre + (zlen d + backlen_size (zlen d)) - 1 - (zlen d + backlen_size (zlen d) - 1))
    with (pos pre) by lia.
  unfold lpBytes. rewrite Ht. bnd. by rewrite (assert_valid_spec _ pre).
Qed.

(** The pointer to the last element of [pre]. *)
Definition last_ptr (pre : list (list Z)) : option Z :=
  match pre with [] => None | _ => Some (pos (removelast pre)) end.

Lemma prev_any lp pre post : lp_rep lp (pre ++ post) -> lpPrev lp (pos pre) = Some (last_ptr pre).
Proof.
  intros H. induction pre as [|d pre _] using rev_ind; [done|].
  rewrite <- (assoc (++)) in H. rewrite (prev_spec lp pre d post H). unfold last_ptr.
  rewrite removelast_last. by destruct pre.
Qed.

Lemma last_spec lp ds : lp_rep lp ds -> lpLast lp = Some (last_ptr ds).
Proof.
  intros H. unfold lpLast. pose proof (rep_eof _ _ H) as (He & Ht & _). rewrite Ht. bnd.
  replace (pos ds + 1 - 1) with (pos ds) by lia. apply (prev_any lp ds []). by rewrite app_nil_r.
Qed.

(** ** Seeking and counting *)

Lemma seek_forward lp n pre post : lp_rep lp (pre ++ post) ->
  lpSeek_forward n lp (ptr pre post) = Some (ptr (pre ++ take n post) (drop n post)).
Proof.
  revert pre post. induction n as [|n IH]; intros pre post H.
  - by rewrite take_0, app_nil_r.
  - destruct post as [|d post]; [done|]. cbn [lpSeek_forward ptr].
    rewrite (next_spec _ _ _ _ H). bnd. rewrite IH by by rewrite <- (assoc (++)).
    by rewrite <- (assoc (++)).
Qed.

Lemma removelast_take {A} (l : list A) : removelast l = take (length l - 1) l.
Proof.
  induction l as [|x l _] using rev_ind; [done|].
  rewrite removelast_last, length_app, take_app_length'; [done|]. simpl. lia.
Qed.

Lemma seek_backward lp n pre post : lp_rep lp (pre ++ post) ->
  lpSeek_backward n lp (last_ptr pre) = Some (last_ptr (take (length pre - n) pre)).
Proof.
  revert pre post. induction n as [|n IH]; intros pre post H.
  - by rewrite Nat.sub_0_r, firstn_all.
  - induction pre as [|d pre _] using rev_ind; [done|].
    assert (last_ptr (pre ++ [d]) = Some (pos pre)) as ->
      by (unfold last_ptr; rewrite removelast_last; by destruct pre).
    rewrite <- (assoc (++)) in H. cbn [lpSeek_backward].
    rewrite (prev_any _ _ _ H). bnd. rewrite (IH pre ([d] ++ post)) by done.
    rewrite length_app. rewrite take_app_le by (simpl; lia). do 3 f_equal. simpl. lia.
Qed.

(** The position an index stands for, negative ones counting from the end. *)
Definition norm_index (ds : list (list Z)) (index : Z) : Z :=
  if index <? 0 then zlen ds + index else index.
Definition seek_ptr (ds : list (list Z)) (i : Z) : option Z :=
  if (0 <=? i) && (i <? zlen ds) then Some (pos (take (Z.to_nat i) ds)) else None.

Lemma ptr_drop (ds : list (list Z)) i : 0 <= i -> ptr (take (Z.to_nat i) ds) (drop (Z.to_nat i) ds) = seek_ptr ds i.
Proof.
  intros Hi. unfold ptr, seek_ptr, zlen. destruct (drop (Z.to_nat i) ds) eqn:E.
  - apply (f_equal length) in E. rewrite length_drop in E. simpl in E. by if_lia.
  - apply (f_equal length) in E. rewrite length_drop in E. simpl in E. by if_lia.
Qed.

Lemma last_ptr_take (ds : list (list Z)) i : i < zlen ds ->
  last_ptr (take (Z.to_nat (i + 1)) ds) = seek_ptr ds i.
Proof.
  intros Hi. unfold seek_ptr. unfold zlen in *. case_if E; unfold last_ptr.
  - rewrite removelast_take, length_take, take_take.
    destruct (take (Z.to_nat (i + 1)) ds) eqn:E2.
    + apply (f_equal length) in E2. rewrite length_take in E2. simpl in E2. lia.
    + do 3 f_equal. lia.
  - destruct (decide (0 <= i)); [exfalso; apply andb_false_iff in E; lia|].
    by replace (Z.to_nat (i + 1)) with 0%nat by lia.
Qed.

Lemma go_forward lp ds i : lp_rep lp ds -> 0 <= i ->
  (ele ← lpFirst lp; lpSeek_forward (Z.to_nat i) lp ele) = Some (seek_ptr ds i).
Proof.
  intros H Hi. rewrite (first_spec _ _ H). bnd. rewrite (seek_forward lp _ [] ds H).
  by rewrite app_nil_l, ptr_drop.
Qed.

Lemma go_backward lp ds i : lp_rep lp ds -> i < 0 ->
  (ele ← lpLast lp; lpSeek_backward (Z.to_nat (-1 - i)) lp ele) = Some (seek_ptr ds (zlen ds + i)).
Proof.
  intros H Hi. rewrite (last_spec _ _ H). bnd.
  rewrite (seek_backward lp _ ds []) by by rewrite app_nil_r.
  rewrite <- last_ptr_take by lia. do 3 f_equal. unfold zlen. lia.
Qed.

Lemma seek_spec lp ds index : lp_rep lp ds ->
  lpSeek lp index = Some (seek_ptr ds (norm_index ds index)).
Proof.
  intros H. pose proof (rep_eof _ _ H) as (_ & _ & _ & _ & n & Hn & Hok). unfold lpSeek, norm_index.
  rewrite Hn. bnd. pose proof (zlen_nonneg ds). unfold num_ok in Hok.
  case_if E; bool_hyps.
  - assert (n = zlen ds) as -> by (destruct Hok as [?|[? ?]]; congruence).
    cbv zeta. generalize (if index <? 0 then zlen ds + index else index). clear index. intros i.
    assert (Hout : ~ (0 <= i < zlen ds) -> seek_ptr ds i = None)
      by (intros; unfold seek_ptr; by if_lia).
    repeat case_if E; [rewrite Hout by lia; done..| |].
    + etransitivity; [apply (go_backward lp ds); [done|lia]|]. do 2 f_equal. lia.
    + apply go_forward; [done|lia].
  - destruct (index <? 0) eqn:E2; cbn [negb]; bool_hyps.
    + apply go_backward; [done|lia].
    + apply go_forward; [done|lia].
Qed.

Lemma zlen_body_ge ds : Forall data ds -> 2 * zlen ds <= zlen (body ds).
Proof.
  induction 1 as [|d ds Hd Hds IH]; [done|]. rewrite zlen_body_cons, zlen_cons, zlen_entry.
  pose proof (data_nonempty d Hd). pose proof (backlen_size_range (zlen d)). lia.
Qed.

Lemma rep_zlen lp ds : lp_rep lp ds -> 2 * zlen ds + 7 <= zlen lp /\ 2 * zlen ds + 7 < 2 ^ 32.
Proof.
  intros (n & sl & -> & Ht & Hd & _). pose proof (zlen_body_ge ds Hd).
  rewrite zlen_with_hdr, zlen_app, zlen_cons. pose proof (zlen_nonneg sl). lia.
Qed.

Lemma length_loop lp pre post fuel count : lp_rep lp (pre ++ post) ->
  (length post <= fuel)%nat -> 0 <= count -> count + zlen post < 2 ^ 32 ->
  lpLength_loop fuel lp (ptr pre post) count = Some (count + zlen post).
Proof.
  revert pre post count. induction fuel as [|fuel IH]; intros pre post count H Hf Hc Hlt;
    destruct post as [|d post]; try (simpl in *; f_equal; rewrite ?zlen_nil; lia).
  cbn [lpLength_loop ptr]. rewrite (next_spec _ _ _ _ H). bnd. rewrite zlen_cons in *.
  pose proof (zlen_nonneg post). rewrite wrap_small by lia.
  rewrite IH; [f_equal; lia|by rewrite <- (assoc (++))|simpl in *; lia|lia|lia].
Qed.

Lemma length_spec lp ds : lp_rep lp ds ->
  exists lp', lpLength lp = Some (zlen ds, lp') /\ lp_rep lp' ds /\ zlen lp' = zlen lp.
Proof.
  intros H. pose proof (rep_eof _ _ H) as (_ & _ & _ & _ & n & Hn & Hok). unfold lpLength.
  rewrite Hn. bnd. pose proof (zlen_nonneg ds). pose proof (rep_zlen _ _ H).
  case_if E; bool_hyps.
  - exists lp. split; [|done]. destruct Hok as [?|[-> ?]]; [congruence|done].
  - rewrite (first_spec _ _ H). bnd.
    rewrite (length_loop lp [] ds) by (try done; unfold zlen in *; lia). bnd. rewrite Z.add_0_l.
    case_if E2; bool_hyps; [|by exists lp].
    destruct H as (n' & sl & -> & Ht & Hd & Hn').
    rewrite setNum_hdr. bnd. eexists. split; [done|]. split.
    + exists (zlen ds), sl. split_and!; [done..|]. right. split; [done|lia].
    + by rewrite !zlen_with_hdr.
Qed.

(** ** Reading an entry *)

Definition shift_ret (p : Z) (r : lpret) : lpret :=
  match r with RetStr q n => RetStr (p + q) n | r => r end.

Lemma at_ptr_get lp p d r es :
  at_ptr lp p d -> lpGetWithSize d 0 None = Some (r, es) ->
  lpGetWithSize lp p None = Some (shift_ret p r, es).
Proof.
  intros Hp. unfold lpGetWithSize, LP_ENCODING_6BIT_STR_LEN,
    LP_ENCODING_12BIT_STR_LEN, LP_ENCODING_32BIT_STR_LEN.
  intros H. apply bind_Some in H as (b & Hb & H). rewrite !Z.add_0_l in H.
  rewrite (at_ptr_0 _ _ _ _ Hp Hb). bnd. revert H.
  repeat (case_if E; [intros H; inv_bind; simplify_eq; by at_solve Hp|]).
  intros H. inv_bind. simplify_eq. done.
Qed.

Lemma bytes_or_total lp p n :
  Forall is_byte lp -> 0 <= p -> p + Z.of_nat n <= zlen lp ->
  exists v, bytes_or lp p n 0 = Some v /\ 0 <= v < 256 ^ Z.of_nat n.
Proof.
  intros Hb Hp Hl. destruct (ldn_is_Some lp p (Z.of_nat n)) as [bs E]; [lia..|].
  pose proof (ldn_bytes _ _ _ _ Hb E) as HB.
  rewrite (bytes_or_spec _ _ _ _ bs) by (done || lia). rewrite Z.shiftl_0_r.
  eexists. split; [done|]. rewrite <- (ldn_zlen _ _ _ _ E). by apply le_dec_range.
Qed.

Lemma land_ones_range b k n : n = Z.ones k -> 0 <= k -> 0 <= Z.land b n < 2 ^ k.
Proof. intros -> Hk. rewrite Z.land_ones by lia. apply Z.mod_pos_bound. lia. Qed.

Lemma signed_spec w u : 0 < w <= 64 -> 0 <= u < 2 ^ w -> 
  lpSigned u (Z.shiftl 1 (w - 1)) (2 ^ w - 1) = if 2 ^ (w - 1) <=? u then u - 2 ^ w else u.
Proof.
  intros Hw Hu. unfold lpSigned. rewrite Z.shiftl_1_l.
  assert (2 ^ w = 2 * 2 ^ (w - 1)) by (rewrite <- Z.pow_succ_r by lia; f_equal; lia).
  assert (2 ^ w <= 2 ^ 64) by (apply Z.pow_le_mono_r; lia).
  case_if E.
  - rewrite (wrap_small 64) by lia.
    rewrite (swrap_small 64 (2 ^ w - 1 - u)) by (unfold in_s; lia).
    rewrite swrap_small by (unfold in_s; lia). lia.
  - rewrite swrap_small by (unfold in_s; lia). done.
Qed.

Lemma signed_in w u : 0 < w <= 64 -> 0 <= u < 2 ^ w ->
  in_s 64 (lpSigned u (Z.shiftl 1 (w - 1)) (2 ^ w - 1)).
Proof.
  intros Hw Hu. rewrite signed_spec by done. unfold in_s.
  assert (2 ^ w = 2 * 2 ^ (w - 1)) by (rewrite <- Z.pow_succ_r by lia; f_equal; lia).
  assert (2 ^ (w - 1) <= 2 ^ (64 - 1)) by (apply Z.pow_le_mono_r; lia).
  case_if E; lia.
Qed.

Lemma signed_small u : 0 <= u < 128 -> lpSigned u UINT64_MAX 0 = u.
Proof. intros. unfold lpSigned, UINT64_MAX. if_lia. rewrite swrap_small by (unfold in_s; lia). done. Qed.

(** Every valid entry can be read, and the size computed on the way is the
    size of the whole entry. *)
Lemma data_get d : data d ->
  exists r, lpGetWithSize d 0 None = Some (r, Some (zlen (entry d))) /\
    match r with
    | RetStr q n => 0 <= q /\ 0 <= n /\ q + n = zlen d
    | RetInt v => in_s 64 v
    | RetBuf _ _ => False
    end.
Proof.
  intros (Hby & Hh & H). rewrite zlen_entry. unfold lpCurrentEncodedSizeUnsafe in H.
  apply bind_Some in H as (b & Hb & H). unfold lpGetWithSize. rewrite Hb. bnd.
  assert (Hb8 : is_byte b).
  { rewrite ld8_head in Hb. destruct d; [done|]. simplify_eq/=. by inversion Hby. }
  assert (b <> LP_EOF) by (rewrite ld8_head in Hb; congruence).
  pose proof (fun p n => bytes_or_total d p n Hby) as HT.
  unfold LP_ENCODING_6BIT_STR_LEN, LP_ENCODING_12BIT_STR_LEN, LP_ENCODING_32BIT_STR_LEN in *.
  rewrite Hb in H |- *. revert H. bnd. rewrite !Z.add_0_l.
  case_if E1; [|case_if E2; [|case_if E3; [|case_if E4; [|case_if E5; [|case_if E6; [|case_if E7;
    [|case_if E8; [|case_if E9; [|case_if E10]]]]]]]]]; intros H.
  - injection H as <-. eexists. split; [done|]. pose proof (land_ones_range b 7 127 eq_refl ltac:(lia)).
    simpl. rewrite signed_small by lia. unfold in_s. lia.
  - pose proof (land_ones_range b 6 63 eq_refl ltac:(lia)). injection H as H.
    rewrite wrap_small in H by lia. rewrite <- H, (Z.add_comm _ 1). eexists. split; [done|lia].
  - injection H as H. destruct (ld8_is_Some d 1) as [b1 G]; [lia|]. rewrite G. bnd. rewrite <- H.
    assert (is_byte b1) as Hb1 by (eapply Forall_lookup_1; [exact Hby|exact G]).
    pose proof (land_ones_range b 5 31 eq_refl ltac:(lia)).
    eexists. split; [done|]. apply (signed_in 13); [lia|].
    apply lor_range; [lia|rewrite Z.shiftl_mul_pow2 by lia; lia|unfold is_byte in Hb1; lia].
  - injection H as H. destruct (HT 1 2%nat) as (v & G & Hv); [lia..|]. rewrite G. bnd. rewrite <- H.
    eexists. split; [done|]. by apply (signed_in 16).
  - injection H as H. destruct (HT 1 3%nat) as (v & G & Hv); [lia..|]. rewrite G. bnd. rewrite <- H.
    eexists. split; [done|]. by apply (signed_in 24).
  - injection H as H. destruct (HT 1 4%nat) as (v & G & Hv); [lia..|]. rewrite G. bnd. rewrite <- H.
    eexists. split; [done|]. by apply (signed_in 32).
  - injection H as H. destruct (HT 1 8%nat) as (v & G & Hv); [lia..|]. rewrite G. bnd. rewrite <- H.
    eexists. split; [done|]. by apply (signed_in 64).
  - inv_bind. rewrite E0. bnd.
    assert (is_byte r0) as Hr by (eapply Forall_lookup_1; [exact Hby|exact E0]).
    pose proof (land_ones_range b 4 15 eq_refl ltac:(lia)).
    assert (0 <= Z.lor (Z.shiftl (Z.land b 15) 8) r0 < 2 ^ 12) as Hl.
    { apply lor_range; [lia|rewrite Z.shiftl_mul_pow2 by lia; lia|unfold is_byte in Hr; lia]. }
    rewrite wrap_small in H by lia. rewrite <- H, (Z.add_comm _ 2). eexists. split; [done|lia].
  - apply bind_Some in H as (len & G & H). injection H as H. rewrite G. bnd.
    assert (5 <= zlen d). { cbn [bytes_or] in G. inv_bind. ld8_bounds. lia. }
    destruct (HT 1 4%nat) as (v & G' & Hv); [lia..|]. assert (v = len) as -> by congruence.
    assert (5 + len = zlen d) as H5 by (unfold wrap in H; dlia).
    rewrite <- H5, (Z.add_comm _ 5). eexists. split; [done|lia].
  - done.
  - injection H as H. ld8_bounds. lia.
Qed.

(** ** Encoding an element *)

Lemma range_check (f : Z -> bool) n g :
  forallb f (seqZ 0 n) = true -> 0 <= g < n -> f g = true.
Proof.
  intros H Hg. rewrite forallb_forall in H. apply H. apply list_elem_of_In, elem_of_seqZ. lia.
Qed.

Lemma enc_le2 v : [Z.land v 255; u8 (Z.shiftr v 8)] = le_enc 2 v.
Proof. unfold wrap. change (2 ^ 8) with 256. rewrite <- enc_bytes2. by rewrite (land_255 (Z.shiftr v 8)). Qed.
Lemma enc_le4 v : [Z.land v 255; Z.land (Z.shiftr v 8) 255; Z.land (Z.shiftr v 16) 255; u8 (Z.shiftr v 24)]
  = le_enc 4 v.
Proof. unfold wrap. change (2 ^ 8) with 256. rewrite <- enc_bytes4. by rewrite (land_255 (Z.shiftr v 24)). Qed.
Lemma enc_le3 v : [Z.land v 255; Z.land (Z.shiftr v 8) 255; u8 (Z.shiftr v 16)] = le_enc 3 v.
Proof.
  cbn [le_enc]. unfold wrap. rewrite !land_255, !Z.shiftr_div_pow2, !Z.div_div by lia. done.
Qed.
Lemma enc_le8 v :
  [Z.land v 255; Z.land (Z.shiftr v 8) 255; Z.land (Z.shiftr v 16) 255; Z.land (Z.shiftr v 24) 255;
   Z.land (Z.shiftr v 32) 255; Z.land (Z.shiftr v 40) 255; Z.land (Z.shiftr v 48) 255; u8 (Z.shiftr v 56)]
  = le_enc 8 v.
Proof.
  cbn [le_enc]. unfold wrap. rewrite !land_255, !Z.shiftr_div_pow2, !Z.div_div by lia. done.
Qed.

Lemma bytes_or_enc x n v r :
  bytes_or (x :: le_enc n v ++ r) 1 n 0 = Some (v mod 256 ^ Z.of_nat n).
Proof.
  rewrite (bytes_or_spec _ _ _ _ (le_enc n v)); [|lia|apply le_enc_bytes|].
  - by rewrite le_dec_enc, Z.shiftl_0_r.
  - apply (ldn_at' _ [x] _ r); [done..|by rewrite zlen_le_enc].
Qed.

Definition str_hdr (n : Z) : list Z :=
  if n <? 64 then [u8 (Z.lor n 0x80)]
  else if n <? 4096 then [u8 (Z.lor (Z.shiftr n 8) 0xE0); Z.land n 0xff]
  else 0xF0 :: le_enc 4 n.

(** The data an element is stored as. *)
Definition enc_data (s : list Z) : list Z :=
  match lpStringToInt64 s with
  | Some v => lpEncodeIntegerGetType v
  | None => str_hdr (zlen s) ++ s
  end.

Lemma encodeString_eq lp p s :
  0 <= p -> p + zlen (str_hdr (zlen s) ++ s) <= zlen lp ->
  lpEncodeString lp p s = stn lp p (str_hdr (zlen s) ++ s).
Proof.
  intros Hp Hl. unfold lpEncodeString, str_hdr in *. pose proof (zlen_nonneg s).
  case_if E; [|case_if E2].
  - apply (st8_chain lp p). autorewrite with redis in Hl. lia.
  - autorewrite with redis in Hl. simpl.
    destruct (st8_is_Some lp p (u8 (Z.lor (Z.shiftr (zlen s) 8) 224))) as [m1 E1]; [lia|]. rewrite E1. bnd.
    rewrite <- (st8_st8 _ _ _ _ _ E1). apply st8_zlen in E1.
    rewrite <- (st8_chain m1) by lia. by replace (p + 1 + 1) with (p + 2) by lia.
  - rewrite zlen_app, zlen_cons, zlen_le_enc in Hl. rewrite <- enc_bytes4. simpl.
    destruct (st8_is_Some lp p 240) as [m1 E1]; [lia|]. rewrite E1. bnd.
    rewrite <- (st8_st8 _ _ _ _ _ E1). apply st8_zlen in E1.
    destruct (st8_is_Some m1 (p + 1) (Z.land (zlen s) 255)) as [m2 E3]; [lia|]. rewrite E3. bnd.
    rewrite <- (st8_st8 _ _ _ _ _ E3). apply st8_zlen in E3. replace (p + 1 + 1) with (p + 2) by lia.
    destruct (st8_is_Some m2 (p + 2) (Z.land (Z.shiftr (zlen s) 8) 255)) as [m3 E4]; [lia|]. rewrite E4. bnd.
    rewrite <- (st8_st8 _ _ _ _ _ E4). apply st8_zlen in E4. replace (p + 2 + 1) with (p + 3) by lia.
    destruct (st8_is_Some m3 (p + 3) (Z.land (Z.shiftr (zlen s) 16) 255)) as [m4 E5]; [lia|]. rewrite E5. bnd.
    rewrite <- (st8_st8 _ _ _ _ _ E5). apply st8_zlen in E5. replace (p + 3 + 1) with (p + 4) by lia.
    rewrite <- (st8_chain m4) by lia. by replace (p + 4 + 1) with (p + 5) by lia.
Qed.


(** The parser of listpack.c is the one of util.c. *)
Lemma stringToInt64_eq s : lpStringToInt64 s = string2ll s.
Proof. reflexivity. Qed.

(** The string an entry stands for. *)
Definition denotes (d s : list Z) : Prop :=
  match lpGet d 0 None with
  | Some (RetStr q n) => ldn d q n = Some s
  | Some (RetInt v) => decimal s v
  | _ => False
  end.

Lemma ld8_0 b l : ld8 (b :: l) 0 = Some b.
Proof. done. Qed.

Lemma enc_bytes_ok b l n v : l = le_enc n v -> is_byte b -> Forall is_byte (b :: l).
Proof. intros ->. constructor; [done|apply le_enc_bytes]. Qed.

Lemma signed_mod w v : 0 < w <= 64 -> in_s w v ->
  lpSigned (v mod 2 ^ w) (Z.shiftl 1 (w - 1)) (2 ^ w - 1) = v.
Proof.
  intros Hw Hv. unfold in_s in Hv.
  assert (2 ^ w = 2 * 2 ^ (w - 1)) by (rewrite <- Z.pow_succ_r by lia; f_equal; lia).
  rewrite signed_spec by (try apply Z.mod_pos_bound; lia).
  destruct (decide (0 <= v)).
  - rewrite Z.mod_small by lia. case_if E; lia.
  - replace (v mod 2 ^ w) with (v + 2 ^ w); [case_if E; lia|].
    rewrite <- (Z.mod_add _ 1), Z.mod_small by lia. lia.
Qed.

(** The negative values of the fixed width encodings, before they are cut
    into bytes. *)
Lemma neg_mod w v : 0 <= w -> (if v <? 0 then Z.shiftl 1 w + v else v) mod 2 ^ w = v mod 2 ^ w.
Proof.
  intros. case_if E; [|done]. rewrite Z.shiftl_1_l, Z.add_comm.
  rewrite <- (Z.mul_1_l (2 ^ w)) at 1. apply Z.mod_add. lia.
Qed.

Lemma enc_width_spec b l n v es :
  l = le_enc n v -> is_byte b -> b <> LP_EOF ->
  (forall d, ld8 d 0 = Some b -> lpCurrentEncodedSizeUnsafe d 0 = Some (1 + Z.of_nat n)) ->
  (forall d u, ld8 d 0 = Some b -> bytes_or d 1 n 0 = Some u ->
     lpGetWithSize d 0 None = Some (RetInt (lpSigned u (Z.shiftl 1 (8 * Z.of_nat n - 1)) (2 ^ (8 * Z.of_nat n) - 1)), es)) ->
  0 < 8 * Z.of_nat n <= 64 ->
  forall v0, in_s (8 * Z.of_nat n) v0 -> v mod 2 ^ (8 * Z.of_nat n) = v0 mod 2 ^ (8 * Z.of_nat n) ->
  data (b :: l) /\ lpGet (b :: l) 0 None = Some (RetInt v0) /\ 1 <= zlen (b :: l) <= 9.
Proof.
  intros -> Hb Hne Hsz Hget Hn v0 Hv0 Hm. split_and!.
  - split_and!; [by eapply enc_bytes_ok|simpl; congruence|].
    rewrite Hsz by done. by rewrite zlen_cons, zlen_le_enc.
  - unfold lpGet. rewrite (Hget _ (v0 mod 2 ^ (8 * Z.of_nat n)) (ld8_0 _ _)).
    + bnd. rewrite signed_mod by done. done.
    + rewrite <- (app_nil_r (le_enc n v)), bytes_or_enc, <- Hm. do 2 f_equal.
      change 256 with (2 ^ 8). by rewrite <- Z.pow_mul_r by lia.
  - rewrite zlen_cons. pose proof (zlen_nonneg (le_enc n v)). lia.
  - rewrite zlen_cons, zlen_le_enc. lia.
Qed.

Local Ltac enc_width n es :=
  cbv zeta; eapply (enc_width_spec _ _ n _ es);
  [first [apply enc_le2|apply enc_le3|apply enc_le4|apply enc_le8]|unfold is_byte; lia|done
  |intros ? G; unfold lpCurrentEncodedSizeUnsafe; rewrite G; reflexivity
  |intros ? ? G G2; unfold lpGetWithSize; rewrite G; bnd; rewrite !Z.add_0_l, G2; reflexivity
  |lia|unfold in_s; simpl; lia|].

(** The 13 bit encoding shares its first byte with the value. *)
Lemma byte13 g : 0 <= g < 32 ->
  LP_ENCODING_IS_7BIT_UINT (192 + g) = false /\ LP_ENCODING_IS_6BIT_STR (192 + g) = false /\
  LP_ENCODING_IS_13BIT_INT (192 + g) = true /\ Z.land (192 + g) 31 = g.
Proof.
  intros H.
  pose (f g := negb (LP_ENCODING_IS_7BIT_UINT (192 + g)) && negb (LP_ENCODING_IS_6BIT_STR (192 + g)) &&
               LP_ENCODING_IS_13BIT_INT (192 + g) && (Z.land (192 + g) 31 =? g)).
  pose proof (range_check f 32 g ltac:(vm_compute; reflexivity) H) as Hf. unfold f in Hf.
  bool_hyps. done.
Qed.

Lemma enc_13_spec v0 : in_s 13 v0 ->
  let v := if v0 <? 0 then Z.shiftl 1 13 + v0 else v0 in
  let d := [u8 (Z.lor (Z.shiftr v 8) 0xC0); Z.land v 0xff] in
  data d /\ lpGet d 0 None = Some (RetInt v0) /\ 1 <= zlen d <= 9.
Proof.
  intros Hv v d. pose proof (neg_mod 13 v0 ltac:(lia)) as Hm. fold v in Hm.
  assert (Hr : 0 <= v < 2 ^ 13) by (unfold v, in_s in *; change (Z.shiftl 1 13) with 8192; case_if E; lia).
  rewrite (Z.mod_small v) in Hm by lia. clearbody v.
  assert (Hs : 0 <= v / 256 < 32) by dlia.
  assert (E : d = [192 + v / 256; v mod 256]).
  { unfold d. change 0xC0 with (Z.shiftl 3 6).
    rewrite land_255, Z.shiftr_div_pow2 by lia. change (2 ^ 8) with 256.
    rewrite (shiftl_lor_add _ 3 6) by lia. change (3 * 2 ^ 6) with 192. rewrite wrap_small by lia. f_equal. change (Z.shiftl 3 6) with 192. lia. }
  clearbody d. subst d. destruct (byte13 _ Hs) as (B1 & B2 & B3 & B4).
  assert (in_b : 0 <= v mod 256 < 256) by dlia.
  unfold data, lpGet, lpGetWithSize, lpCurrentEncodedSizeUnsafe. rewrite ld8_0. bnd. rewrite B1, B2, B3.
  change (ld8 [192 + v / 256; v mod 256] (0 + 1)) with (Some (v mod 256)). bnd. rewrite B4, Z.lor_comm.
  rewrite (shiftl_lor_add _ (v / 256) 8) by lia.
  assert (v mod 256 + v / 256 * 2 ^ 8 = v0 mod 2 ^ 13) as -> by (rewrite <- Hm; dlia).
  pose proof (signed_mod 13 v0 ltac:(lia) Hv) as HS.
  change (2 ^ 13 - 1) with 8191 in HS. change (13 - 1) with 12 in HS. rewrite HS.
  split_and!; try done.
  - repeat constructor; unfold is_byte; lia.
  - simpl. injection 1. unfold LP_EOF. lia.
Qed.

Lemma enc_int_spec v : in_s 64 v ->
  data (lpEncodeIntegerGetType v) /\ lpGet (lpEncodeIntegerGetType v) 0 None = Some (RetInt v) /\
  1 <= zlen (lpEncodeIntegerGetType v) <= 9.
Proof.
  intros Hv. unfold lpEncodeIntegerGetType, in_s in Hv |- *.
  case_if E1; [|case_if E2; [|case_if E3; [|case_if E4; [|case_if E5]]]].
  - rewrite wrap_small by lia. unfold data, lpCurrentEncodedSizeUnsafe, lpGet, lpGetWithSize.
    rewrite ld8_0. bnd. unfold LP_ENCODING_IS_7BIT_UINT.
    destruct (group7_hi v) as [G1 G2]; [lia|]. rewrite G1, G2. bnd. 
    change (0 =? 0) with true. cbv iota. rewrite signed_small by lia. split_and!; try done.
    + constructor; [unfold is_byte; lia|done].
    + simpl. injection 1. unfold LP_EOF. lia.
  - apply enc_13_spec. unfold in_s. lia.
  - enc_width 2%nat (Some 4). apply (neg_mod 16). lia.
  - enc_width 3%nat (Some 5). apply (neg_mod 24). lia.
  - enc_width 4%nat (Some 6). apply (neg_mod 32). lia.
  - enc_width 8%nat (Some 10). unfold wrap. by rewrite Z.mod_mod by lia.
Qed.


(** The encoding bytes of the short strings share bits with the length. *)
Lemma byte6 g : 0 <= g < 64 ->
  LP_ENCODING_IS_7BIT_UINT (128 + g) = false /\ LP_ENCODING_IS_6BIT_STR (128 + g) = true /\
  Z.land (128 + g) 63 = g.
Proof.
  intros H.
  pose (f g := negb (LP_ENCODING_IS_7BIT_UINT (128 + g)) && LP_ENCODING_IS_6BIT_STR (128 + g) &&
               (Z.land (128 + g) 63 =? g)).
  pose proof (range_check f 64 g ltac:(vm_compute; reflexivity) H) as Hf. unfold f in Hf.
  bool_hyps. done.
Qed.

Definition int_byte (b : Z) : bool :=
  LP_ENCODING_IS_7BIT_UINT b || LP_ENCODING_IS_6BIT_STR b || LP_ENCODING_IS_13BIT_INT b ||
  LP_ENCODING_IS_16BIT_INT b || LP_ENCODING_IS_24BIT_INT b || LP_ENCODING_IS_32BIT_INT b ||
  LP_ENCODING_IS_64BIT_INT b.

Lemma byte12 g : 0 <= g < 16 ->
  int_byte (224 + g) = false /\ LP_ENCODING_IS_12BIT_STR (224 + g) = true /\ Z.land (224 + g) 15 = g.
Proof.
  intros H.
  pose (f g := negb (int_byte (224 + g)) && LP_ENCODING_IS_12BIT_STR (224 + g) &&
               (Z.land (224 + g) 15 =? g)).
  pose proof (range_check f 16 g ltac:(vm_compute; reflexivity) H) as Hf. unfold f in Hf.
  bool_hyps. done.
Qed.

Definition hdr_len (n : Z) : Z := if n <? 64 then 1 else if n <? 4096 then 2 else 5.

Lemma zlen_str_hdr n : zlen (str_hdr n) = hdr_len n.
Proof. unfold str_hdr, hdr_len. repeat case_if E; done. Qed.

(** The header of a string says how long the string is. *)
Lemma str_hdr_spec n s d :
  n = zlen s -> n < 2 ^ 32 - 5 -> d = str_hdr n ++ s ->
  lpCurrentEncodedSizeUnsafe d 0 = Some (zlen d) /\ lpGet d 0 None = Some (RetStr (hdr_len n) n) /\
  head d <> Some LP_EOF /\ Forall is_byte (str_hdr n).
Proof.
  intros Hn Hlt Hd. pose proof (zlen_nonneg s). pose proof (zlen_str_hdr n) as Hh. unfold hdr_len in *.
  assert (Hz : zlen d = hdr_len n + n) by (subst d; rewrite zlen_app, zlen_str_hdr; lia).
  unfold lpCurrentEncodedSizeUnsafe, lpGet, lpGetWithSize, LP_ENCODING_6BIT_STR_LEN,
    LP_ENCODING_12BIT_STR_LEN, LP_ENCODING_32BIT_STR_LEN, hdr_len in *. rewrite Hz. clear Hz Hh.
  unfold str_hdr in *. case_if E; [|case_if E2].
  - assert (G : u8 (Z.lor n 128) = 128 + n).
    { pose proof (shiftl_lor_add n 1 7 7) as L. change (Z.shiftl 1 7) with 128 in L.
      rewrite L, wrap_small by lia. lia. }
    rewrite G in *. destruct (byte6 n) as (B1 & B2 & B3); [lia|]. subst d.
    change ([128 + n] ++ s) with ((128 + n) :: s). rewrite ld8_0. bnd. rewrite B1, B2, B3. bnd.
    rewrite wrap_small by lia. split_and!; [done..| |repeat constructor; unfold is_byte; lia].
    simpl. injection 1. unfold LP_EOF. lia.
  - assert (Hs : 0 <= n / 256 < 16) by dlia.
    assert (G : u8 (Z.lor (Z.shiftr n 8) 224) = 224 + n / 256).
    { pose proof (shiftl_lor_add (n / 256) 7 5 5) as L. change (Z.shiftl 7 5) with 224 in L.
      rewrite Z.shiftr_div_pow2 by lia. change (2 ^ 8) with 256. rewrite L, wrap_small by lia. lia. }
    rewrite G, land_255 in *. destruct (byte12 _ Hs) as (B1 & B2 & B3). unfold int_byte in B1.
    repeat match goal with H : (_ || _) = false |- _ => apply orb_false_elim in H as [? ?] end.
    subst d. change ([224 + n / 256; n mod 256] ++ s) with ((224 + n / 256) :: n mod 256 :: s).
    rewrite ld8_0. bnd.
    repeat match goal with H : _ = false |- _ => rewrite H; clear H end. rewrite B2.
    change (ld8 _ (0 + 1)) with (Some (n mod 256)). bnd. rewrite B3, Z.lor_comm.
    rewrite (shiftl_lor_add _ (n / 256) 8) by dlia.
    replace (n mod 256 + n / 256 * 2 ^ 8) with n by dlia.
    rewrite wrap_small by lia. split_and!; [done..| |repeat constructor; unfold is_byte; dlia].
    simpl. injection 1. unfold LP_EOF. lia.
  - subst d. change ((240 :: le_enc 4 n) ++ s) with (240 :: le_enc 4 n ++ s). rewrite ld8_0. bnd.
    rewrite !Z.add_0_l, bytes_or_enc, Z.mod_small by lia. bnd. rewrite (wrap_small 32 (5 + n)) by lia.
    split_and!; [done..|]. constructor; [unfold is_byte; lia|apply le_enc_bytes].
Qed.

Definition elem_ok (s : list Z) : Prop := Forall is_byte s /\ zlen s < 2 ^ 32 - 5.

Lemma enc_data_spec s : elem_ok s ->
  data (enc_data s) /\ denotes (enc_data s) s /\
  zlen (enc_data s) = (lpEncodeGetType s).2.
Proof.
  intros [Hb Hl]. unfold enc_data, denotes, lpEncodeGetType. destruct (lpStringToInt64 s) as [v|] eqn:E.
  - rewrite stringToInt64_eq in E. apply string2ll_spec in E as [Hdec Hv].
    destruct (enc_int_spec v) as (H1 & H2 & H3); [done|]. rewrite H2. done.
  - destruct (str_hdr_spec (zlen s) s _ eq_refl Hl eq_refl) as (H1 & H2 & H3 & H4). rewrite H2.
    split_and!.
    + split_and!; [by apply Forall_app|done..].
    + rewrite <- zlen_str_hdr. rewrite <- (app_nil_r s) at 2. apply ldn_at.
    + rewrite zlen_app, zlen_str_hdr. unfold hdr_len. simpl. repeat case_if E'; lia.
Qed.


(** ** Insertion, replacement and deletion *)

Section modify.

Context (usable : Z -> Z) (junk : Z).
(** malloc_usable_size(3): the usable size of a block is at least the size
    that was requested. *)
Hypothesis usable_ge : forall n, 0 <= n -> n <= usable n.

(** The element to write: a string, or an integer already encoded. *)
Inductive writes : option (list Z) -> option (list Z) -> Z -> list Z -> Prop :=
  | writes_str s size : elem_ok s -> writes (Some s) None size (enc_data s)
  | writes_int d : data d -> writes None (Some d) (zlen d) d.

(** Making room for [e] bytes after [A] in place of [R]: the first
    reallocation, the move of the tail and the second reallocation. *)
Lemma splice_spec m A R T S e old new p q k :
  m = A ++ R ++ T ++ S ->
  old = zlen A + zlen R + zlen T -> new = zlen A + e + zlen T -> 0 <= e ->
  p = zlen A + e -> q = zlen A + zlen R -> k = zlen T ->
  exists m2 X S',
    memmove (if (old <? new) && (lp_malloc_size m <? new) then lp_realloc usable junk m new else m)
      p q k = Some m2 /\
    (if new <? old then lp_realloc usable junk m2 new else m2) = A ++ X ++ T ++ S' /\ zlen X = e.
Proof.
  intros -> -> -> He -> -> ->. unfold lp_malloc_size, lp_realloc.
  pose proof (zlen_nonneg A). pose proof (zlen_nonneg R). pose proof (zlen_nonneg T). pose proof (zlen_nonneg S).
  assert (exists S1, (if (zlen A + zlen R + zlen T <? zlen A + e + zlen T) &&
      (zlen (A ++ R ++ T ++ S) <? zlen A + e + zlen T) then realloc junk (A ++ R ++ T ++ S) (usable (zlen A + e + zlen T))
      else A ++ R ++ T ++ S) = A ++ R ++ T ++ S1 /\ zlen A + e + zlen T <= zlen A + zlen R + zlen T + zlen S1)
    as (S1 & -> & HS1).
  { case_if E.
    - pose proof (usable_ge (zlen A + e + zlen T)).
      destruct (realloc_at junk (A ++ R ++ T) S (usable (zlen A + e + zlen T))) as (S1 & E1 & HL).
      { rewrite !zlen_app. lia. }
      exists S1. rewrite <- !(assoc (++)) in E1. split; [done|]. rewrite !zlen_app in HL. lia.
    - exists S. split; [done|]. rewrite !zlen_app in E. lia. }
  destruct (memmove_at (A ++ R ++ T ++ S1) A R T S1 (zlen A + e) (zlen A + zlen R)
    (zlen T)) as (X & S' & -> & HX & HS'); [done|lia..|].
  eexists. case_if E; [|exists X, S'; split_and!; [done..|lia]].
  pose proof (usable_ge (zlen A + e + zlen T)).
  destruct (realloc_at junk (A ++ X ++ T) S' (usable (zlen A + e + zlen T))) as (S2 & E2 & _).
  { rewrite !zlen_app. lia. }
  rewrite <- !(assoc (++)) in E2. exists X, S2. split_and!; [done..|lia].
Qed.

(** Storing the encoded element and its backlen. *)
Lemma store_spec elestr eleint size d :
  writes elestr eleint size d ->
  exists et ei,
    match elestr, eleint with
    | Some s, _ =>
        let '(enctype, intenc, enclen) := lpEncodeGetType s in
        (enctype, if enctype =? LP_ENCODING_INT then Some intenc else eleint, enclen)
    | None, Some _ => (LP_ENCODING_INT, eleint, size)
    | None, None => (-1, eleint, 0)
    end = (et, ei, zlen d) /\
    data d /\
    forall m A X C, m = A ++ X ++ C -> zlen X = zlen (entry d) ->
      (lp ← (if et =? LP_ENCODING_INT then src ← ei; bs ← ldn src 0 (zlen d); stn m (zlen A) bs
             else s ← elestr; lpEncodeString m (zlen A) s);
       bs ← ldn (backlen (zlen d)) 0 (backlen_size (zlen d));
       stn lp (zlen A + zlen d) bs) = Some (A ++ entry d ++ C).
Proof.
  assert (Hfin : forall d m A X C, m = A ++ X ++ C -> zlen X = zlen (entry d) ->
    (lp ← stn m (zlen A) d; bs ← ldn (backlen (zlen d)) 0 (backlen_size (zlen d));
       stn lp (zlen A + zlen d) bs) = Some (A ++ entry d ++ C)).
  { intros d' m A X C -> HX. rewrite zlen_entry in HX. pose proof (zlen_nonneg A).
    pose proof (zlen_nonneg C). pose proof (backlen_size_range (zlen d')).
    destruct (stn_is_Some (A ++ X ++ C) (zlen A) d') as [m1 E1]; [lia|rewrite !zlen_app; lia|].
    rewrite E1. bnd.
    rewrite (ldn_at' _ [] (backlen (zlen d')) []) by (rewrite ?app_nil_r, ?zlen_backlen; done). bnd.
    rewrite (stn_stn _ _ _ _ _ E1). apply (stn_at _ A X C); [done..|].
    change (zlen (entry d') = zlen X). rewrite zlen_entry. lia. }
  assert (Hid : forall d, ldn d 0 (zlen d) = Some d)
    by (intros d'; apply (ldn_at' _ [] _ []); rewrite ?app_nil_r; done).
  intros [s size' Hs|d' Hd].
  - destruct (enc_data_spec s Hs) as (Hd & _ & Hl). unfold lpEncodeGetType, enc_data in *.
    destruct (lpStringToInt64 s) as [v|] eqn:E; simpl in Hl |- *.
    + eexists _, _. split; [done|]. split; [done|]. intros. cbn [Z.eqb LP_ENCODING_INT]. bnd.
      rewrite Hid. bnd. by eapply Hfin.
    + eexists _, _. split; [by rewrite <- Hl|]. split; [done|]. intros m A X C Hm HX. cbn [Z.eqb LP_ENCODING_INT LP_ENCODING_STRING]. bnd.
      rewrite encodeString_eq; [by eapply Hfin|auto with redis|]. subst m. rewrite zlen_entry in HX.
      pose proof (backlen_size_range (zlen (str_hdr (zlen s) ++ s))). rewrite (zlen_app A), (zlen_app X).
      pose proof (zlen_nonneg C). lia.
  - eexists _, _. split; [done|]. split; [done|]. intros. simpl. rewrite Hid. bnd. by eapply Hfin.
Qed.

Lemma lp_rep_header lp pre r post : lp_rep lp (pre ++ r ++ post) ->
  exists n sl, lp = with_hdr (pos (pre ++ r ++ post) + 1) n (body pre) ++ body r ++ (body post ++ [LP_EOF]) ++ sl /\
    num_ok n (pre ++ r ++ post) /\ Forall data pre /\ Forall data r /\ Forall data post /\
    pos (pre ++ r ++ post) + 1 < 2 ^ 32.
Proof.
  intros (n & sl & E & Ht & Hd & Hn). exists n, sl. rewrite !Forall_app in Hd.
  replace (pos (pre ++ r ++ post) + 1) with (7 + zlen (body (pre ++ r ++ post)))
    by (unfold pos, LP_HDR_SIZE; lia).
  split_and!; try tauto. rewrite E. unfold with_hdr. by rewrite !body_app, <- !(assoc (++)).
Qed.

(** Putting a listpack together from its parts. *)
Lemma rep_intro n pre ds post sl :
  Forall data pre -> Forall data ds -> Forall data post -> pos (pre ++ ds ++ post) + 1 < 2 ^ 32 ->
  num_ok n (pre ++ ds ++ post) ->
  lp_rep (with_hdr (pos (pre ++ ds ++ post) + 1) n (body pre ++ body ds ++ (body post ++ [LP_EOF]) ++ sl))
    (pre ++ ds ++ post).
Proof.
  intros. exists n, sl. unfold pos, LP_HDR_SIZE in *.
  replace (7 + zlen (body (pre ++ ds ++ post))) with (6 + zlen (body (pre ++ ds ++ post)) + 1) by lia.
  split_and!; [|lia|by rewrite !Forall_app|done]. rewrite !body_app. by rewrite <- !(assoc (++)).
Qed.

Lemma with_hdr_app t n b c : with_hdr t n b ++ c = with_hdr t n (b ++ c).
Proof. unfold with_hdr. by rewrite <- !(assoc (++)). Qed.

Definition replaced (where_ : Z) (r : list (list Z)) : Prop :=
  (where_ = LP_BEFORE /\ r = []) \/ (where_ = LP_REPLACE /\ exists d0, r = [d0]).

(** How many bytes the operation replaces. *)
Lemma replaced_spec lp pre r post where_ :
  lp_rep lp (pre ++ r ++ post) -> replaced where_ r ->
  (if where_ =? LP_REPLACE then
     replaced_len ← lpCurrentEncodedSizeUnsafe lp (pos pre);
     let replaced_len := u32 (replaced_len + (lpEncodeBacklen replaced_len).1) in
     _ ← ASSERT_INTEGRITY_LEN lp (pos pre) replaced_len;
     Some replaced_len
   else Some 0) = Some (zlen (body r)).
Proof.
  intros H [[-> ->]|[-> [d0 ->]]]; [done|]. simpl in H.
  pose proof (rep_split _ _ _ _ H) as (A & C & E & HA & Hd & HC & Ht & Hb).
  pose proof (data_nonempty d0 Hd). pose proof (backlen_size_range (zlen d0)). pose proof (pos_ge pre).
  pose proof (zlen_nonneg (body post)). rewrite zlen_entry in *.
  cbn [Z.eqb LP_REPLACE Pos.eqb]. rewrite E, <- HA, (at_ptr_size _ _ _ _ (entry_at A d0 C) (proj2 (proj2 Hd))).
  rewrite <- E. bnd. unfold LP_HDR_SIZE in *. rewrite wrap_small by lia. unfold ASSERT_INTEGRITY_LEN.
  rewrite Ht. bnd. unfold assert_, LP_HDR_SIZE. if_lia. bnd. rewrite zlen_body_cons, zlen_entry. unfold body.
  simpl. rewrite zlen_nil. f_equal. lia.
Qed.

Lemma data_lt d : data d -> zlen d < 2 ^ 32.
Proof.
  intros (_ & _ & H). unfold lpCurrentEncodedSizeUnsafe in H. apply bind_Some in H as (b & _ & H).
  revert H. repeat case_if E; intros H; inv_bind; subst; try lia;
    match goal with H : ?x = zlen d |- _ => rewrite <- H end; (apply wrap_range || idtac); lia.
Qed.

(** The move of the tail, in both modes. *)
Lemma move_args m where_ r p e t :
  replaced where_ r -> 0 <= e < 2 ^ 33 -> 0 <= zlen (body r) < 2 ^ 32 ->
  (if where_ =? LP_BEFORE then memmove m (p + e) p (t - p)
   else memmove m (p + zlen (body r) + s64 (e - zlen (body r))) (p + zlen (body r)) (t - p - zlen (body r)))
  = memmove m (p + e) (p + zlen (body r)) (t - p - zlen (body r)).
Proof.
  intros [[-> ->]|[-> _]] He Hr.
  - change (zlen (body [])) with 0. cbn [Z.eqb LP_BEFORE]. f_equal; lia.
  - cbn [Z.eqb LP_BEFORE LP_REPLACE]. rewrite swrap_small by (unfold in_s; lia). f_equal; lia.
Qed.

Lemma num_ok_range n ds : num_ok n ds -> 0 <= n < 2 ^ 16.
Proof. unfold num_ok, LP_HDR_NUMELE_UNKNOWN. pose proof (zlen_nonneg ds). lia. Qed.

(** The update of the element counter; 65535 stays and is reached by 65534. *)
Lemma num_update t n B (del : bool) ds ds' :
  num_ok n ds -> zlen ds' = zlen ds + (if del then -1 else 1) ->
  exists n', num_ok n' ds' /\
  (num_elements ← lpGetNumElements (with_hdr t n B);
   if negb (num_elements =? LP_HDR_NUMELE_UNKNOWN) then
     if negb del then lpSetNumElements (with_hdr t n B) (u32 (num_elements + 1))
     else lpSetNumElements (with_hdr t n B) (u32 (num_elements - 1))
   else Some (with_hdr t n B)) = Some (with_hdr t n' B).
Proof.
  intros Hn Hl. rewrite getNum_hdr by by eapply num_ok_range. bnd. unfold num_ok, LP_HDR_NUMELE_UNKNOWN in *.
  pose proof (zlen_nonneg ds). pose proof (zlen_nonneg ds').
  case_if E; bool_hyps; [|exists n; split; [by left|done]].
  destruct Hn as [?|[-> ?]]; [done|]. exists (zlen ds'). split; [destruct del; lia|].
  destruct del; cbn [negb] in *; cbv iota in Hl; rewrite setNum_hdr; do 2 f_equal; rewrite wrap_small; lia.
Qed.

Lemma insert_spec lp pre r post elestr eleint size where_ d :
  lp_rep lp (pre ++ r ++ post) -> replaced where_ r -> writes elestr eleint size d ->
  let r' := lpInsert usable junk lp elestr eleint size (pos pre) where_ in
  let bytes := pos (pre ++ [d] ++ post) + 1 in
  (2 ^ 32 <= bytes -> r' = Some None) /\
  (bytes < 2 ^ 32 -> exists lp', r' = Some (Some (lp', Some (pos pre))) /\ lp_rep lp' (pre ++ [d] ++ post)).
Proof.
  intros H Hr Hw. cbv zeta.
  pose proof (replaced_spec _ _ _ _ _ H Hr) as Hrep.
  destruct (store_spec _ _ _ _ Hw) as (et & ei & Hm & Hd & Hst).
  pose proof (rep_eof _ _ H) as (_ & Ht & Htl & _).
  unfold lpInsert. cbv zeta in Hrep |- *.
  assert (Hdel : match elestr, eleint with None, None => true | _, _ => false end = false) by by destruct Hw.
  rewrite Hdel. cbv iota.
  assert (Hwa : (where_ =? LP_AFTER) = false) by by destruct Hr as [[-> _]|[-> _]].
  rewrite Hwa. bnd. rewrite Hm. cbn [negb]. rewrite (surjective_pairing (lpEncodeBacklen (zlen d))).
  rewrite Ht. bnd. rewrite Hrep. bnd.
  pose proof (data_lt d Hd). pose proof (data_nonempty d Hd). pose proof (backlen_size_range (zlen d)).
  pose proof (zlen_nonneg (body r)). pose proof (zlen_nonneg (body post)). pose proof (pos_ge pre).
  assert (Ho : pos (pre ++ r ++ post) = pos pre + zlen (body r) + zlen (body post))
    by (unfold pos; rewrite !zlen_body_app; lia).
  assert (Hnew : pos (pre ++ [d] ++ post) = pos pre + (zlen d + backlen_size (zlen d)) + zlen (body post))
    by (unfold pos; rewrite !zlen_body_app, zlen_body_cons, zlen_entry; unfold body at 2; simpl; rewrite zlen_nil; lia).
  unfold LP_HDR_SIZE in *. rewrite wrap_small by lia.
  replace (pos (pre ++ r ++ post) + 1 + zlen d + backlen_size (zlen d) - zlen (body r))
    with (pos (pre ++ [d] ++ post) + 1) by lia.
  split; intros Hb; [by rewrite (proj2 (Z.ltb_lt _ _)) by (unfold UINT32_MAX; lia)|].
  rewrite (proj2 (Z.ltb_ge _ _)) by (unfold UINT32_MAX; lia).
  destruct (lp_rep_header _ _ _ _ H) as (n & sl & E & Hn & Hpre & Hdr & Hpost & _).
  set (A := with_hdr (pos (pre ++ r ++ post) + 1) n (body pre)) in E.
  assert (HA : zlen A = pos pre) by (unfold A, pos, LP_HDR_SIZE; apply zlen_with_hdr).
  destruct (splice_spec lp A (body r) (body post ++ [LP_EOF]) sl (zlen d + backlen_size (zlen d))
    (pos (pre ++ r ++ post) + 1) (pos (pre ++ [d] ++ post) + 1) (pos pre + (zlen d + backlen_size (zlen d)))
    (pos pre + zlen (body r)) (pos (pre ++ r ++ post) + 1 - pos pre - zlen (body r)))
    as (m2 & X & S' & Hmm & Hre & HX);
    [done|rewrite ?zlen_app, ?zlen_cons, ?zlen_nil; lia..|].
  rewrite <- (Z.add_assoc (pos pre) (zlen d)), move_args, Hmm by (done || lia). bnd. rewrite Hre. clear Hmm Hre m2.
  rewrite <- HA, (Hst _ A X ((body post ++ [LP_EOF]) ++ S') eq_refl) by (rewrite zlen_entry; lia). bnd.
  clear Hst Hm Hrep Hw. unfold A in HA |- *. rewrite HA, with_hdr_app, orb_false_r.
  set (B := body pre ++ entry d ++ (body post ++ [LP_EOF]) ++ S').
  assert (exists n', num_ok n' (pre ++ [d] ++ post) /\ (if negb (where_ =? LP_REPLACE) then
    num_elements ← lpGetNumElements (with_hdr (pos (pre ++ r ++ post) + 1) n B);
    if negb (num_elements =? LP_HDR_NUMELE_UNKNOWN) then
      lpSetNumElements (with_hdr (pos (pre ++ r ++ post) + 1) n B) (u32 (num_elements + 1))
    else Some (with_hdr (pos (pre ++ r ++ post) + 1) n B)
    else Some (with_hdr (pos (pre ++ r ++ post) + 1) n B)) = Some (with_hdr (pos (pre ++ r ++ post) + 1) n' B))
    as (n' & Hn' & ->).
  { destruct Hr as [[-> ->]|[-> [d0 ->]]]; cbn [Z.eqb LP_BEFORE LP_REPLACE negb Pos.eqb].
    - eapply (num_update _ _ _ false); [exact Hn|]. rewrite !zlen_app, zlen_cons, !zlen_nil. lia.
    - exists n. split; [|done]. unfold num_ok in *. by rewrite !zlen_app, !zlen_cons in *. }
  bnd. rewrite setTotal_hdr. bnd. eexists. split; [done|].
  assert (B = body pre ++ body [d] ++ (body post ++ [LP_EOF]) ++ S') as ->
    by (unfold B; replace (body [d]) with (entry d) by (symmetry; apply app_nil_r); done).
  apply rep_intro; auto.
Qed.

(** The first byte after a prefix tells whether there is an element. *)
Lemma next_byte A pre post S : Forall data post -> zlen A = pos pre ->
  (b ← ld8 (A ++ (body post ++ [LP_EOF]) ++ S) (pos pre);
   Some (if b =? LP_EOF then None else Some (pos pre))) = Some (ptr pre post).
Proof.
  intros Hpost HA. rewrite <- HA at 1. destruct post as [|d1 post].
  - by rewrite (ld8_at _ A LP_EOF S).
  - inversion Hpost as [|? ? Hd1 _]; subst. pose proof (data_nonempty d1 Hd1) as Hne.
    destruct d1 as [|b d1]; [rewrite zlen_nil in *; lia|]. rewrite body_cons. unfold entry. simpl.
    rewrite (ld8_at _ A b ((((d1 ++ backlen (zlen (b :: d1))) ++ body post) ++ [LP_EOF]) ++ S)) by done. bnd.
    destruct (b =? LP_EOF) eqn:Eb; [|done]. bool_hyps. by destruct Hd1 as (_ & Hh & _); subst.
Qed.

Local Ltac modes :=
  change (LP_REPLACE =? LP_REPLACE) with true in *; change (LP_REPLACE =? LP_AFTER) with false in *;
  change (LP_REPLACE =? LP_BEFORE) with false in *; cbv iota in *.

(** Deletion: the element is replaced by nothing. *)
Lemma delete_spec lp pre d0 post : lp_rep lp (pre ++ [d0] ++ post) ->
  exists lp', lpDelete usable junk lp (pos pre) = Some (Some (lp', ptr pre post)) /\ lp_rep lp' (pre ++ post).
Proof.
  intros H. unfold lpDelete, lpInsert. cbv zeta. bnd.
  pose proof (replaced_spec _ _ _ _ LP_REPLACE H ltac:(right; eauto)) as Hrep. cbv zeta in Hrep.
  pose proof (rep_eof _ _ H) as (_ & Ht & Htl & _).
  cbn [negb] in *. modes. bnd. modes. rewrite Ht. bnd. rewrite Hrep. bnd.
  destruct (lp_rep_header _ _ _ _ H) as (n & sl & E & Hn & Hpre & Hdr & Hpost & _).
  set (A := with_hdr (pos (pre ++ [d0] ++ post) + 1) n (body pre)) in E.
  assert (HA : zlen A = pos pre) by (unfold A, pos, LP_HDR_SIZE; apply zlen_with_hdr).
  assert (Hnew : pos (pre ++ [d0] ++ post) = pos (pre ++ post) + zlen (body [d0]))
    by (unfold pos; rewrite !zlen_body_app; lia).
  assert (Hnew2 : pos (pre ++ post) = pos pre + zlen (body post)) by (unfold pos; rewrite !zlen_body_app; lia).
  pose proof (zlen_nonneg (body [d0])). pose proof (pos_ge pre). pose proof (zlen_nonneg (body post)).
  unfold LP_HDR_SIZE in *. rewrite wrap_small by lia.
  replace (pos (pre ++ [d0] ++ post) + 1 + 0 + 0 - zlen (body [d0])) with (pos (pre ++ post) + 1) by lia.
  rewrite (proj2 (Z.ltb_ge _ _)) by (unfold UINT32_MAX; lia).
  destruct (splice_spec lp A (body [d0]) (body post ++ [LP_EOF]) sl 0
    (pos (pre ++ [d0] ++ post) + 1) (pos (pre ++ post) + 1) (pos pre + 0)
    (pos pre + zlen (body [d0])) (pos (pre ++ [d0] ++ post) + 1 - pos pre - zlen (body [d0])))
    as (m2 & X & S' & Hmm & Hre & HX);
    [done|rewrite ?(zlen_app (body post)); change (zlen [LP_EOF]) with 1; lia..|].
  rewrite swrap_small by (unfold in_s; lia).
  replace (pos pre + zlen (body [d0]) + (0 + 0 - zlen (body [d0]))) with (pos pre + 0) by lia.
  rewrite Hmm. bnd. rewrite Hre. clear Hmm Hre m2.
  assert (X = []) as -> by (destruct X; [done|rewrite zlen_cons in HX; pose proof (zlen_nonneg X); lia]).
  rewrite app_nil_l. unfold A in HA |- *.
  rewrite (next_byte _ pre post S' Hpost HA). bnd. rewrite with_hdr_app. cbn [negb orb].
  destruct (num_update (pos (pre ++ [d0] ++ post) + 1) n (body pre ++ (body post ++ [LP_EOF]) ++ S') true
    (pre ++ [d0] ++ post) (pre ++ post)) as (n' & Hn' & Hup); [done|rewrite !zlen_app, zlen_cons, zlen_nil; lia|].
  cbn [negb] in Hup. rewrite Hup. bnd. rewrite setTotal_hdr. bnd. eexists. split; [done|].
  apply (rep_intro n' pre [] post S'); auto. simpl. lia.
Qed.

End modify.

Section modify2.

Context (usable : Z -> Z) (junk : Z).
Hypothesis usable_ge : forall n, 0 <= n -> n <= usable n.

(** Inserting after an element is inserting before the next one. *)
Lemma insert_after lp pre d0 post elestr eleint size d :
  lp_rep lp (pre ++ d0 :: post) -> writes elestr eleint size d ->
  lpInsert usable junk lp elestr eleint size (pos pre) LP_AFTER =
  lpInsert usable junk lp elestr eleint size (pos (pre ++ [d0])) LP_BEFORE.
Proof.
  intros H Hw. unfold lpInsert. cbv zeta.
  assert (Hdel : match elestr, eleint with None, None => true | _, _ => false end = false) by by destruct Hw.
  rewrite Hdel. change (LP_AFTER =? LP_AFTER) with true. change (LP_BEFORE =? LP_AFTER) with false.
  cbv iota. rewrite (skip_spec _ _ _ _ H). bnd.
  pose proof (rep_split _ _ _ _ H) as (_ & _ & _ & _ & _ & _ & Ht & _).
  unfold ASSERT_INTEGRITY. rewrite Ht. bnd. pose proof (pos_ge (pre ++ [d0])).
  pose proof (zlen_nonneg (body post)).
  rewrite pos_snoc in *. unfold assert_. rewrite (proj2 (Z.leb_le _ _)), (proj2 (Z.ltb_lt _ _)) by lia. done.
Qed.

Lemma new_spec capacity : 0 <= capacity -> exists lp, lpNew usable junk capacity = Some lp /\ lp_rep lp [].
Proof.
  intros Hc. unfold lpNew, lp_malloc, LP_HDR_SIZE.
  set (k := if 6 + 1 <? capacity then capacity else 6 + 1).
  assert (7 <= k) by (unfold k; case_if E; lia). pose proof (usable_ge k ltac:(lia)) as Hu.
  set (m := replicate (Z.to_nat (usable k)) junk).
  assert (Hm : zlen m = usable k) by (unfold m, zlen; rewrite length_replicate; lia).
  destruct (split_at m 4) as (a & r & E & Ha); [lia|].
  destruct (split_at r 2) as (b & r' & -> & Hb); [rewrite E, zlen_app in Hm; lia|].
  rewrite setTotal_eq by lia. rewrite (stn_at _ [] a (b ++ r') (le_enc 4 7)) by (done || rewrite Ha; done). bnd.
  assert (Hl : zlen m = 4 + (2 + zlen r')) by (rewrite E, !zlen_app; lia).
  rewrite setNum_eq by (rewrite app_nil_l, !zlen_app, zlen_le_enc; lia).
  rewrite (stn_at _ (le_enc 4 7) b r') by (done || rewrite Hb; done). bnd.
  destruct r' as [|x r']; [rewrite zlen_nil in *; lia|].
  unfold st8. rewrite (stn_at _ (le_enc 4 7 ++ le_enc 2 0) [x] r') by done.
  eexists. split; [done|]. exists 0, r'. split_and!; [done..|by constructor|]. right. done.
Qed.

Lemma shrink_spec lp ds : lp_rep lp ds ->
  exists lp', lpShrinkToFit usable junk lp = Some lp' /\ lp_rep lp' ds.
Proof.
  intros H. pose proof (rep_eof _ _ H) as (_ & Ht & Hlt & Hl & _). unfold lpShrinkToFit. rewrite Ht. bnd.
  case_if E; [|by exists lp]. destruct H as (n & sl & -> & Ht' & Hd & Hn).
  unfold lp_realloc. pose proof (usable_ge (pos ds + 1) ltac:(unfold pos, LP_HDR_SIZE; pose proof (zlen_nonneg (body ds)); lia)).
  replace (body ds ++ LP_EOF :: sl) with ((body ds ++ [LP_EOF]) ++ sl) by by rewrite <- (assoc (++)).
  rewrite <- with_hdr_app. destruct (realloc_at junk (with_hdr (7 + zlen (body ds)) n (body ds ++ [LP_EOF])) sl (usable (pos ds + 1)))
    as (S' & -> & _).
  { rewrite zlen_with_hdr, zlen_app. change (zlen [LP_EOF]) with 1. unfold pos, LP_HDR_SIZE in *. lia. }
  eexists. split; [done|]. exists n, S'. rewrite with_hdr_app, <- (assoc (++)). done.
Qed.

Lemma append_spec lp ds s : lp_rep lp ds -> elem_ok s ->
  let r := lpAppend usable junk lp s in
  let bytes := pos (ds ++ [enc_data s]) + 1 in
  (2 ^ 32 <= bytes -> r = Some None) /\
  (bytes < 2 ^ 32 -> exists lp', r = Some (Some (lp', Some (pos ds))) /\ lp_rep lp' (ds ++ [enc_data s])).
Proof.
  intros H Hs. cbv zeta. unfold lpAppend. pose proof (rep_eof _ _ H) as (_ & Ht & _). rewrite Ht. bnd.
  replace (pos ds + 1 - 1) with (pos ds) by lia.
  pose proof (insert_spec usable junk usable_ge lp ds [] [] (Some s) None (zlen s) LP_BEFORE (enc_data s)) as HI.
  rewrite !app_nil_r in HI. apply HI; [done|by left|by constructor].
Qed.

Lemma prepend_spec lp ds s : lp_rep lp ds -> elem_ok s ->
  let r := lpPrepend usable junk lp s in
  let bytes := pos (enc_data s :: ds) + 1 in
  (2 ^ 32 <= bytes -> r = Some None) /\
  (bytes < 2 ^ 32 -> exists lp', r = Some (Some (lp', Some LP_HDR_SIZE)) /\ lp_rep lp' (enc_data s :: ds)).
Proof.
  intros H Hs. cbv zeta. unfold lpPrepend. rewrite (first_spec _ _ H). bnd. destruct ds as [|d ds].
  - by apply (append_spec lp []).
  - apply (insert_spec usable junk usable_ge lp [] [] (d :: ds) (Some s) None (zlen s) LP_BEFORE (enc_data s));
      [done|by left|by constructor].
Qed.

(** The search for the end of a range. *)
Lemma range_loop lp pre post fuel num deleted : lp_rep lp (pre ++ post) -> post <> [] ->
  (length post <= fuel)%nat -> 0 <= num -> 0 <= deleted -> deleted + zlen post < 2 ^ 64 ->
  lpDeleteRange_loop fuel lp (pos (pre ++ post) + 1) num deleted (pos pre) =
  Some (deleted + Z.min num (zlen post), pos (pre ++ take (Z.to_nat num) post)).
Proof.
  revert pre post num deleted. induction fuel as [|fuel IH]; intros pre post num deleted H Hne Hf Hn Hd Hlt.
  { destruct post; [done|]. simpl in Hf. lia. }
  cbn [lpDeleteRange_loop]. case_if E.
  { subst. rewrite take_0, app_nil_r. pose proof (zlen_nonneg post). rewrite Z.min_l by lia. by rewrite Z.add_0_r. }
  destruct post as [|d post]; [done|]. rewrite (skip_spec _ _ _ _ H). bnd. rewrite zlen_cons in *.
  pose proof (zlen_nonneg post). rewrite wrap_small by lia.
  assert (H' : lp_rep lp ((pre ++ [d]) ++ post)) by by rewrite <- (assoc (++)).
  destruct (Z.to_nat num) as [|k] eqn:Ek; [lia|]. cbn [take].
  destruct post as [|d2 post].
  - pose proof (rep_eof _ _ H') as (He & _). rewrite app_nil_r in He. rewrite He. bnd.
    change (LP_EOF =? LP_EOF) with true. cbv iota. rewrite take_nil, zlen_nil. do 2 f_equal. lia.
  - destruct (entry_not_eof _ _ _ _ H') as (b & -> & Hb). bnd. rewrite (proj2 (Z.eqb_neq _ _)) by done.
    replace (pre ++ d :: d2 :: post) with ((pre ++ [d]) ++ d2 :: post) by by rewrite <- (assoc (++)).
    rewrite (assert_valid_spec _ _ _ H'). bnd. rewrite IH; [|done|done|simpl in *; lia|lia..].
    rewrite <- (assoc (++)). replace (Z.to_nat (num - 1)) with k by lia. rewrite zlen_cons in *. do 2 f_equal; lia.
Qed.

(** Moving the tail over a range and shortening the header. *)
Lemma drop_range lp pre r post : lp_rep lp (pre ++ r ++ post) -> r <> [] ->
  exists m1 m2 m3,
    memmove lp (pos pre) (pos (pre ++ r)) (pos (pre ++ r ++ post) + 1 - 1 - pos (pre ++ r) + 1) = Some m1 /\
    lpSetTotalBytes m1 (u64 (pos (pre ++ r ++ post) + 1 - (pos (pre ++ r) - pos pre))) = Some m2 /\
    (numele ← lpGetNumElements m2;
     if negb (numele =? LP_HDR_NUMELE_UNKNOWN) then lpSetNumElements m2 (u64 (numele - zlen r)) else Some m2)
    = Some m3 /\ lp_rep m3 (pre ++ post).
Proof.
  intros H Hr. destruct (lp_rep_header _ _ _ _ H) as (n & sl & E & Hn & Hpre & Hdr & Hpost & Hlt).
  set (A := with_hdr (pos (pre ++ r ++ post) + 1) n (body pre)) in E.
  assert (HA : zlen A = pos pre) by (unfold A, pos, LP_HDR_SIZE; apply zlen_with_hdr).
  assert (Hp : pos (pre ++ r ++ post) = pos pre + zlen (body r) + zlen (body post))
    by (unfold pos; rewrite !zlen_body_app; lia).
  assert (Hp1 : pos (pre ++ r) = pos pre + zlen (body r)) by (unfold pos; rewrite !zlen_body_app; lia).
  assert (Hp2 : pos (pre ++ post) = pos pre + zlen (body post)) by (unfold pos; rewrite !zlen_body_app; lia).
  pose proof (zlen_nonneg (body r)). pose proof (zlen_nonneg (body post)). pose proof (pos_ge pre).
  pose proof (zlen_nonneg sl). unfold LP_HDR_SIZE in *.
  destruct (memmove_at lp A (body r) (body post ++ [LP_EOF]) sl (pos pre) (pos (pre ++ r))
    (pos (pre ++ r ++ post) + 1 - 1 - pos (pre ++ r) + 1)) as (X & S' & -> & HX & HS');
    [done|lia|rewrite zlen_app; change (zlen [LP_EOF]) with 1; lia|lia|].
  assert (X = []) as -> by (destruct X; [done|rewrite zlen_cons in HX; pose proof (zlen_nonneg X); lia]).
  unfold A. rewrite app_nil_l, with_hdr_app. eexists _, _.
  rewrite wrap_small by lia. rewrite setTotal_hdr.
  replace (pos (pre ++ r ++ post) + 1 - (pos (pre ++ r) - pos pre)) with (pos (pre ++ post) + 1) by lia.
  assert (exists n', num_ok n' (pre ++ post) /\ (numele ← lpGetNumElements (with_hdr (pos (pre ++ post) + 1) n (body pre ++ (body post ++ [LP_EOF]) ++ S'));
    if negb (numele =? LP_HDR_NUMELE_UNKNOWN) then lpSetNumElements (with_hdr (pos (pre ++ post) + 1) n (body pre ++ (body post ++ [LP_EOF]) ++ S')) (u64 (numele - zlen r))
    else Some (with_hdr (pos (pre ++ post) + 1) n (body pre ++ (body post ++ [LP_EOF]) ++ S'))) = Some (with_hdr (pos (pre ++ post) + 1) n' (body pre ++ (body post ++ [LP_EOF]) ++ S')))
    as (n' & Hn' & Hup).
  { rewrite getNum_hdr by by eapply num_ok_range. bnd. unfold num_ok, LP_HDR_NUMELE_UNKNOWN in *.
    case_if Eu; bool_hyps; [|exists n; split; [by left|done]]. destruct Hn as [?|[-> Hn]]; [done|].
    rewrite setNum_hdr. rewrite !zlen_app in *. pose proof (zlen_nonneg pre). pose proof (zlen_nonneg post).
    pose proof (zlen_nonneg r). eexists. split; [|done]. rewrite wrap_small by lia. lia. }
  eexists. split_and!; [done..|exact Hup|]. apply (rep_intro n' pre [] post S'); auto. simpl. lia.
Qed.

Lemma deleteRangeWithEntry_spec lp pre post num : lp_rep lp (pre ++ post) -> post <> [] -> 0 <= num ->
  let rest := drop (Z.to_nat num) post in
  exists lp', lpDeleteRangeWithEntry usable junk lp (pos pre) num = Some (lp', ptr pre rest) /\ lp_rep lp' (pre ++ rest).
Proof.
  intros H Hne Hn rest. unfold lpDeleteRangeWithEntry, lpBytes.
  pose proof (rep_eof _ _ H) as (_ & Ht & _). rewrite Ht. bnd. case_if E.
  { subst num. exists lp. unfold rest. rewrite drop_0. split; [|done]. by destruct post. }
  pose proof (rep_zlen _ _ H). rewrite zlen_app in *. pose proof (zlen_nonneg pre).
  rewrite range_loop; [|done|done|unfold zlen in *; lia|lia|lia|unfold zlen in *; lia]. bnd.
  set (r := take (Z.to_nat num) post).
  assert (Epost : post = r ++ rest) by (unfold r, rest; by rewrite take_drop).
  assert (Hr : r <> []). { destruct post; [done|]. unfold r. destruct (Z.to_nat num) eqn:En; [lia|done]. }
  assert (Hlr : 0 + Z.min num (zlen post) = zlen r) by (unfold r, zlen; rewrite length_take; lia).
  rewrite Hlr. rewrite Epost in H.
  destruct (drop_range _ _ _ _ H Hr) as (m1 & m2 & m3 & G1 & G2 & G3 & G4).
  rewrite Epost, G1. bnd. rewrite G2. bnd.
  revert G3. destruct (lpGetNumElements m2) as [ne|]; bnd; [|done]. intros ->. bnd.
  destruct (shrink_spec _ _ G4) as (lp' & -> & G5). bnd. exists lp'. split; [|done].
  destruct (lp_rep_header _ pre [] rest G5) as (n & sl & -> & _ & _ & _ & Hd & _).
  pose proof (next_byte (with_hdr (pos (pre ++ [] ++ rest) + 1) n (body pre)) pre rest sl Hd
    ltac:(unfold pos, LP_HDR_SIZE; apply zlen_with_hdr)) as HB.
  change (body []) with (@nil Z). rewrite app_nil_l.
  destruct (ld8 _ (pos pre)); [|done]. revert HB. bnd. by intros [= ->].
Qed.

Lemma deleteRange_spec lp ds index num : lp_rep lp ds -> 0 <= num < 2 ^ 64 -> in_s 64 index ->
  let i := norm_index ds index in
  exists lp', lpDeleteRange usable junk lp index num = Some lp' /\
    lp_rep lp' (if (0 <=? i) && (i <? zlen ds)
                then take (Z.to_nat i) ds ++ drop (Z.to_nat i + Z.to_nat num) ds else ds).
Proof.
  intros H Hnum Hix i. unfold lpDeleteRange.
  pose proof (rep_eof _ _ H) as (_ & Ht & Hlt & _ & n & Hn & Hok). rewrite Hn. bnd. case_if E.
  { exists lp. split; [done|]. subst num. case_if E; [|done]. by rewrite Nat.add_0_r, take_drop. }
  rewrite (seek_spec _ _ index H). bnd. fold i. unfold seek_ptr. case_if E1; [|by exists lp].
  set (k := Z.to_nat i). set (pre := take k ds). set (post := drop k ds).
  assert (Eds : ds = pre ++ post) by (unfold pre, post; by rewrite take_drop).
  assert (Hlp : zlen pre = i) by (unfold pre, k, zlen in *; rewrite length_take; lia).
  assert (Hlpost : zlen post = zlen ds - i) by (unfold post, k, zlen in *; rewrite length_drop; lia).
  assert (Hpn : post <> []) by (intros Hp; rewrite Hp, zlen_nil in Hlpost; lia).
  rewrite Eds in H. pose proof (rep_zlen _ _ H) as Hz. rewrite <- Eds in Hz.
  rewrite <- (drop_drop ds _ k). fold post.
  assert (Hslow : exists lp', ('(lp0, _) ← lpDeleteRangeWithEntry usable junk lp (pos pre) num; Some lp0) = Some lp' /\
    lp_rep lp' (pre ++ drop (Z.to_nat num) post)).
  { destruct (deleteRangeWithEntry_spec lp pre post num H Hpn ltac:(lia)) as (lp' & -> & Hlp'). bnd. by exists lp'. }
  destruct (n =? LP_HDR_NUMELE_UNKNOWN) eqn:En; cbn [negb andb]; [exact Hslow|]. bool_hyps.
  destruct Hok as [?|[-> Hok]]; [done|].
  change (if index <? 0 then zlen ds + index else index) with i. unfold in_s, LP_HDR_NUMELE_UNKNOWN in *.
  rewrite (wrap_small 64 i), wrap_small by lia. case_if E3; [|exact Hslow]. clear Hslow.
  assert (drop (Z.to_nat num) post = []) as -> by (apply drop_ge; unfold zlen in *; lia). rewrite app_nil_r.
  destruct (lp_rep_header lp pre post [] ltac:(by rewrite app_nil_r)) as (n' & sl & El & _ & Hpre & Hpo & _ & _).
  rewrite app_nil_r in El. change (body []) with (@nil Z) in El. rewrite app_nil_l in El.
  destruct (body post ++ [LP_EOF] ++ sl) as [|x rr] eqn:Er; [by destruct (body post)|].
  set (A := with_hdr (pos (pre ++ post) + 1) n' (body pre)) in El.
  assert (HA : zlen A = pos pre) by (unfold A, pos, LP_HDR_SIZE; apply zlen_with_hdr).
  unfold st8. rewrite El, (stn_at _ A [x] rr) by done. bnd. unfold A. rewrite with_hdr_app, setTotal_hdr. bnd.
  rewrite setNum_hdr. bnd. apply shrink_spec. exists i, rr. unfold pos, LP_HDR_SIZE in *.
  assert (zlen (body ds) = zlen (body pre) + zlen (body post)) by (rewrite Eds; apply zlen_body_app).
  pose proof (zlen_nonneg (body post)). split_and!; [f_equal; lia|lia|done|]. right. unfold LP_HDR_NUMELE_UNKNOWN. lia.
Qed.

End modify2.

(** ** Comparing and searching *)

(** What reading the entry after [pre] gives, in terms of its data. *)
Lemma get_spec lp pre d post : lp_rep lp (pre ++ d :: post) ->
  exists r, lpGetWithSize d 0 None = Some (r, Some (zlen (entry d))) /\
    lpGetWithSize lp (pos pre) None = Some (shift_ret (pos pre) r, Some (zlen (entry d))) /\
    match r with
    | RetStr q n => exists bs, ldn d q n = Some bs /\ ldn lp (pos pre + q) n = Some bs
    | RetInt v => in_s 64 v
    | RetBuf _ _ => False
    end.
Proof.
  intros H. apply rep_split in H as (A & C & -> & HA & Hd & _). rewrite <- HA.
  destruct (data_get d Hd) as (r & Hr & Hm). exists r.
  rewrite (at_ptr_get _ _ _ _ _ (entry_at A d C) Hr). split_and!; [done..|].
  destruct r as [q n|v|]; [|done..]. destruct Hm as (? & ? & ?).
  destruct (ldn_is_Some d q n) as [bs Hbs]; [lia..|]. exists bs. split; [done|].
  rewrite <- Hbs. symmetry. apply (ldn_ldn _ _ (zlen d)); [|lia..].
  unfold entry. rewrite <- (assoc (++)). apply ldn_at.
Qed.

Lemma mem_eq_spec lp q n bs s : ldn lp q n = Some bs -> zlen s = n ->
  mem_eq lp q s = Some (bool_decide (bs = s)).
Proof. intros H <-. unfold mem_eq. by rewrite H. Qed.

Lemma denotes_str d q n bs s : lpGet d 0 None = Some (RetStr q n) -> ldn d q n = Some bs ->
  (denotes d s <-> bs = s).
Proof. intros H Hb. unfold denotes. rewrite H, Hb. split; [by intros [= ->]|by intros ->]. Qed.

Lemma denotes_int d v s : lpGet d 0 None = Some (RetInt v) -> in_s 64 v ->
  (denotes d s <-> string2ll s = Some v).
Proof. intros H Hv. unfold denotes. rewrite H, string2ll_spec. tauto. Qed.

Lemma compare_spec lp pre d post s : lp_rep lp (pre ++ d :: post) ->
  exists b, lpCompare lp (pos pre) s = Some (b2z b) /\ (b = true <-> denotes d s).
Proof.
  intros H. unfold lpCompare. destruct (entry_not_eof _ _ _ _ H) as (b0 & -> & Hb). bnd.
  rewrite (proj2 (Z.eqb_neq _ _)) by done.
  destruct (get_spec _ _ _ _ H) as (r & Hd & Hl & Hm). unfold lpGet. rewrite Hl. bnd.
  assert (Hg : lpGet d 0 None = Some r) by (unfold lpGet; by rewrite Hd).
  destruct r as [q n|v|]; [| |done]; cbn [shift_ret].
  - destruct Hm as (bs & Hb1 & Hb2). pose proof (denotes_str d q n bs s Hg Hb1) as HD.
    pose proof (ldn_zlen _ _ _ _ Hb2). case_if E.
    + rewrite (mem_eq_spec _ _ _ _ _ Hb2 E). bnd. eexists. split; [done|]. by rewrite bool_decide_eq_true, HD.
    + exists false. split; [done|]. rewrite HD. split; [done|]. intros ->. lia.
  - rewrite stringToInt64_eq. pose proof (denotes_int d v s Hg Hm) as HD. destruct (string2ll s) as [sv|].
    + eexists. split; [done|]. rewrite HD, Z.eqb_eq. split; [by intros ->|by intros [= ->]].
    + exists false. split; [done|]. by rewrite HD.
Qed.

Lemma parse_none s : (32 <=? zlen s) || (zlen s =? 0) = true -> string2ll s = None.
Proof.
  intros E. destruct (string2ll s) eqn:Es; [|done]. apply string2ll_short in Es as Hsh.
  unfold LONG_STR_SIZE in *. apply orb_true_iff in E as [E|E]; bool_hyps; [lia|].
  destruct s; [done|]. rewrite zlen_cons in E. pose proof (zlen_nonneg s). lia.
Qed.

(** The cache of the parsed search string. *)
Definition cache_ok (s : list Z) (st : find_state) : Prop :=
  f_vencoding st = 0 \/ (f_vencoding st = 1 /\ string2ll s = Some (f_vll st)) \/
  (f_vencoding st = 255 /\ string2ll s = None).

Lemma find_compare_spec lp pre d post s st : lp_rep lp (pre ++ d :: post) ->
  f_p st = pos pre -> cache_ok s st ->
  exists b st', lpFind_compare lp (pos (pre ++ d :: post) + 1) s st = Some (b, st') /\
    (b = true <-> denotes d s) /\ cache_ok s st' /\ f_p st' = pos pre /\
    f_entry_size st' = zlen (entry d).
Proof.
  intros H Hp Hc. unfold lpFind_compare. rewrite Hp.
  destruct (get_spec _ _ _ _ H) as (r & Hd & Hl & Hm). rewrite Hl. bnd. cbn [default].
  assert (Hg : lpGet d 0 None = Some r) by (unfold lpGet; by rewrite Hd).
  destruct r as [q n|v|]; [| |done]; cbn [shift_ret].
  - destruct Hm as (bs & Hb1 & Hb2). pose proof (denotes_str d q n bs s Hg Hb1) as HD.
    pose proof (ldn_zlen _ _ _ _ Hb2). pose proof (pos_ge pre). pose proof (zlen_nonneg (body post)).
    rewrite pos_app. unfold assert_, id.
    rewrite (proj2 (Z.leb_le _ _)), (proj2 (Z.ltb_lt _ _)) by lia. bnd. case_if E.
    + rewrite (mem_eq_spec _ _ _ _ _ Hb2 E). bnd. eexists _, _. split; [done|]. by rewrite bool_decide_eq_true, HD.
    + eexists false, _. split; [done|]. split; [|done]. rewrite HD. split; [done|]. intros ->. lia.
  - pose proof (denotes_int d v s Hg Hm) as HD. cbn [f_vencoding f_vll].
    destruct Hc as [Hc|[[Hc Hs]|[Hc Hs]]]; rewrite Hc; cbn [Z.eqb Pos.eqb].
    + case_if E.
      * assert (Es : string2ll s = None) by by apply parse_none.
        eexists _, _. split; [done|]. cbn [negb andb Z.eqb Pos.eqb]. split; [by rewrite HD, Es|].
        split; [|done]. right. right. done.
      * rewrite stringToInt64_eq. destruct (string2ll s) as [sv|] eqn:Es;
          (eexists _, _; split; [done|]; cbn [negb andb Z.eqb Pos.eqb]).
        -- split; [rewrite HD, Z.eqb_eq; split; [by intros ->|by intros [= ->]]|].
           split; [|done]. right. left. done.
        -- split; [by rewrite HD|]. split; [|done]. right. right. done.
    + eexists _, _. split; [done|]. cbn [negb andb Z.eqb Pos.eqb].
      split; [rewrite HD, Hs, Z.eqb_eq; split; [by intros ->|by intros [= ->]]|].
      split; [|done]. right. left. done.
    + eexists _, _. split; [done|]. cbn [negb andb Z.eqb Pos.eqb].
      split; [by rewrite HD, Hs|]. split; [|done]. right. right. done.
Qed.

Lemma find_advance_spec lp pre post : lp_rep lp (pre ++ post) ->
  lpFind_advance lp (pos (pre ++ post) + 1) (pos pre) = Some (bool_decide (post = [])).
Proof.
  intros H. unfold lpFind_advance.
  assert ((if pos (pre ++ post) + 1 <=? pos pre + 8 then lpAssertValidEntry lp (pos (pre ++ post) + 1) (pos pre)
       else assert_ ((LP_HDR_SIZE <=? pos pre) && (pos pre <? pos (pre ++ post) + 1))) = Some tt) as ->.
  { case_if E; [by apply assert_valid_spec|]. pose proof (pos_ge pre). unfold assert_.
    rewrite (proj2 (Z.leb_le _ _)), (proj2 (Z.ltb_lt _ _)) by lia. done. }
  bnd. destruct post as [|d post].
  - rewrite app_nil_r in H. by destruct (rep_eof _ _ H) as (-> & _).
  - destruct (entry_not_eof _ _ _ _ H) as (b & -> & Hb). bnd. by rewrite (proj2 (Z.eqb_neq _ _)) by done.
Qed.

(** The first element that denotes [s] among those at distance [cnt],
    [cnt + skip + 1], ... *)
Inductive finds (s : list Z) (skip : Z) : list (list Z) -> Z -> list (list Z) -> option Z -> Prop :=
  | finds_nil pre cnt : finds s skip pre cnt [] None
  | finds_here pre d post : denotes d s -> finds s skip pre 0 (d :: post) (Some (pos pre))
  | finds_next pre d post r : ~ denotes d s -> finds s skip (pre ++ [d]) skip post r ->
      finds s skip pre 0 (d :: post) r
  | finds_skip pre cnt d post r : 0 < cnt -> finds s skip (pre ++ [d]) (cnt - 1) post r ->
      finds s skip pre cnt (d :: post) r.

Lemma find_loop_spec lp pre d post fuel s skip st :
  lp_rep lp (pre ++ d :: post) -> (length post < fuel)%nat -> 0 <= skip -> 0 <= f_skipcnt st ->
  f_p st = pos pre -> cache_ok s st ->
  exists r, lpFind_loop fuel lp (pos (pre ++ d :: post) + 1) s skip st = Some r /\
    finds s skip pre (f_skipcnt st) (d :: post) r.
Proof.
  revert pre d post st. induction fuel as [|fuel IH]; intros pre d post st H Hf Hs Hcnt Hp Hc; [lia|].
  assert (H' : lp_rep lp ((pre ++ [d]) ++ post)) by by rewrite <- (assoc (++)).
  assert (Hpos : pos (pre ++ d :: post) = pos ((pre ++ [d]) ++ post)) by by rewrite <- (assoc (++)).
  assert (Hcont : forall st', f_p st' = pos (pre ++ [d]) -> 0 <= f_skipcnt st' -> cache_ok s st' ->
    exists r, (eof ← lpFind_advance lp (pos (pre ++ d :: post) + 1) (pos (pre ++ [d]));
      if (eof : bool) then Some None else lpFind_loop fuel lp (pos (pre ++ d :: post) + 1) s skip st') = Some r /\
      finds s skip (pre ++ [d]) (f_skipcnt st') post r).
  { intros st' Hp' Hcnt' Hc'. rewrite Hpos, (find_advance_spec _ _ _ H'). bnd.
    destruct post as [|d2 post]; [exists None; split; [done|constructor]|].
    rewrite bool_decide_eq_false_2 by done. apply IH; try done. simpl in *. lia. }
  cbn [lpFind_loop]. case_if E.
  - destruct (find_compare_spec lp pre d post s st H Hp Hc) as (b & st' & -> & Hb & Hc' & Hp' & Hes). bnd.
    rewrite E. destruct b.
    + rewrite Hp'. eexists. split; [done|]. constructor. by apply Hb.
    + rewrite Hp', Hes, <- pos_snoc.
      destruct (Hcont (mkFind (pos (pre ++ [d])) skip (f_vencoding st') (f_vll st') (zlen (entry d)))) as (r & Hr & Hfr);
        [done..|]. exists r. split; [exact Hr|]. apply finds_next; [|done]. intros Hd. by apply Hb in Hd.
  - rewrite Hp, (skip_spec _ _ _ _ H). bnd.
    destruct (Hcont (mkFind (pos (pre ++ [d])) (f_skipcnt st - 1) (f_vencoding st) (f_vll st) (f_entry_size st))) as (r & Hr & Hfr);
      [done|simpl; lia|done|]. exists r. split; [exact Hr|]. apply finds_skip; [lia|done].
Qed.

Lemma find_spec lp pre d post s skip : lp_rep lp (pre ++ d :: post) -> 0 <= skip < 2 ^ 31 ->
  exists r, lpFind lp (pos pre) s skip = Some r /\ finds s skip pre 0 (d :: post) r.
Proof.
  intros H Hs. unfold lpFind, lpBytes. pose proof (rep_eof _ _ H) as (_ & -> & _). bnd.
  rewrite swrap_small by (unfold in_s; lia). pose proof (rep_zlen _ _ H) as [Hz _].
  rewrite zlen_app, zlen_cons in Hz. unfold zlen in Hz. apply find_loop_spec; try done; [lia..|by left].
Qed.

(** [finds] in terms of positions: the index found is the least multiple of
    the stride (after the initial distance) whose element denotes [s]. *)
Definition hit (skip cnt : Z) (k : nat) : Prop := exists m, 0 <= m /\ Z.of_nat k = cnt + m * (skip + 1).

Lemma finds_index s skip pre cnt post r : finds s skip pre cnt post r -> 0 <= skip -> 0 <= cnt ->
  match r with
  | Some q => exists k d, post !! k = Some d /\ q = pos (pre ++ take k post) /\ hit skip cnt k /\ denotes d s /\
      forall j d', (j < k)%nat -> hit skip cnt j -> post !! j = Some d' -> ~ denotes d' s
  | None => forall j d', hit skip cnt j -> post !! j = Some d' -> ~ denotes d' s
  end.
Proof.
  intros H Hs. induction H as [pre cnt|pre d post Hd|pre d post r Hd H IH|pre cnt d post r Hc H IH]; intros Hcnt.
  - intros j d' _ Hj. by rewrite lookup_nil in Hj.
  - exists 0%nat, d. split_and!; try done; [by rewrite take_0, app_nil_r|exists 0; lia|]. intros; lia.
  - assert (Hh : forall k, hit skip 0 (S k) <-> hit skip skip k).
    { intros k. split; intros (m & ? & ?); [|exists (m + 1); lia]. exists (m - 1).
      destruct (decide (m = 0)); [subst; lia|]. lia. }
    specialize (IH Hs). destruct r as [q|].
    + destruct IH as (k & d' & Hk & -> & Hhit & Hd' & Hmin). exists (S k), d'.
      split_and!; try done; [by rewrite <- (assoc (++))|by apply Hh|].
      intros [|j] d2 Hj Hj2 Hl; [by injection Hl as <-|]. apply (Hmin j d2); [lia|by apply Hh|done].
    + intros [|j] d2 Hj2 Hl; [by injection Hl as <-|]. apply (IH j d2); [by apply Hh|done].
  - assert (Hh : forall k, hit skip cnt (S k) <-> hit skip (cnt - 1) k).
    { intros k. split; intros (m & ? & ?); exists m; lia. }
    assert (H0 : ~ hit skip cnt 0) by (intros (m & ? & ?); nia).
    specialize (IH ltac:(lia)). destruct r as [q|].
    + destruct IH as (k & d' & Hk & -> & Hhit & Hd' & Hmin). exists (S k), d'.
      split_and!; try done; [by rewrite <- (assoc (++))|by apply Hh|].
      intros [|j] d2 Hj Hj2 Hl; [done|]. apply (Hmin j d2); [lia|by apply Hh|done].
    + intros [|j] d2 Hj2 Hl; [done|]. apply (IH j d2); [by apply Hh|done].
Qed.

(** ** Merging *)

Section merge.

Context (usable : Z -> Z) (junk : Z).
Hypothesis usable_ge : forall n, 0 <= n -> n <= usable n.

(** A listpack cut before its terminator. *)
Lemma rep_cut lp ds : lp_rep lp ds ->
  exists n sl, lp = with_hdr (pos ds + 1) n (body ds) ++ [LP_EOF] ++ sl /\ Forall data ds /\ num_ok n ds.
Proof.
  intros (n & sl & -> & Ht & Hd & Hn). exists n, sl. unfold pos, LP_HDR_SIZE. split_and!; try done.
  rewrite with_hdr_app. f_equal. lia.
Qed.

Lemma merge_num ds1 ds2 :
  num_ok (if zlen ds1 + zlen ds2 <? 65535 then zlen ds1 + zlen ds2 else 65535) (ds1 ++ ds2).
Proof. unfold num_ok, LP_HDR_NUMELE_UNKNOWN. rewrite zlen_app. case_if E; [right|left]; lia. Qed.

(** Writing [bs] over the end of a reallocated block. *)
Lemma overwrite_end A x sl bs n : 0 <= x -> zlen A + zlen bs <= n ->
  exists S', stn (realloc junk (A ++ [x] ++ sl) n) (zlen A) bs = Some (A ++ bs ++ S').
Proof.
  intros _ Hn. pose proof (zlen_nonneg bs).
  destruct (realloc_at junk A ([x] ++ sl) n) as (S1 & -> & HS1); [lia|].
  destruct (split_at S1 (zlen bs)) as (u & v & -> & Hu); [lia|]. exists v.
  by apply (stn_at _ A u v).
Qed.

Lemma merge_spec f s ds1 ds2 : lp_rep f ds1 -> lp_rep s ds2 ->
  pos (ds1 ++ ds2) + 1 < UINT32_MAX ->
  exists lp', lp_rep lp' (ds1 ++ ds2) /\
    lpMerge usable junk (Some f) (Some s) false =
    Some (if pos ds2 <=? pos ds1 then (Some lp', Some lp', None) else (Some lp', None, Some lp')).
Proof.
  intros Hf Hs Hlt. unfold lpMerge, lpBytes. unfold UINT32_MAX in *.
  pose proof (rep_eof _ _ Hf) as (_ & -> & Hl1 & _). pose proof (rep_eof _ _ Hs) as (_ & -> & Hl2 & _). bnd.
  destruct (length_spec _ _ Hf) as (f' & -> & Hf' & _). bnd.
  destruct (length_spec _ _ Hs) as (s' & -> & Hs' & _). bnd. clear Hf Hs f s.
  destruct (rep_cut _ _ Hf') as (n1 & sl1 & -> & Hd1 & _). destruct (rep_cut _ _ Hs') as (n2 & sl2 & -> & Hd2 & _).
  assert (Hp : pos (ds1 ++ ds2) = pos ds1 + pos ds2 - 6) by (unfold pos, LP_HDR_SIZE; rewrite zlen_body_app; lia).
  pose proof (pos_ge ds1). pose proof (pos_ge ds2). unfold LP_HDR_SIZE in *.
  assert (HA1 : zlen (with_hdr (pos ds1 + 1) n1 (body ds1)) = pos ds1) by (rewrite zlen_with_hdr; unfold pos, LP_HDR_SIZE; lia).
  assert (HA2 : zlen (with_hdr (pos ds2 + 1) n2 (body ds2)) = pos ds2) by (rewrite zlen_with_hdr; unfold pos, LP_HDR_SIZE; lia).
  assert (Hb1 : zlen (body ds1) = pos ds1 - 6) by (unfold pos, LP_HDR_SIZE; lia).
  assert (Hb2 : zlen (body ds2) = pos ds2 - 6) by (unfold pos, LP_HDR_SIZE; lia).
  replace (u64 (pos ds1 + 1 + (pos ds2 + 1) - 6 - 1)) with (pos (ds1 ++ ds2) + 1) by (rewrite wrap_small; lia).
  pose proof (usable_ge (pos (ds1 ++ ds2) + 1) ltac:(lia)) as Hu.
  pose proof (merge_num ds1 ds2) as Hnum. set (num := if zlen ds1 + zlen ds2 <? 65535 then _ else _) in *.
  assert (Hfin : forall t n S, exists lp', lp_rep lp' (ds1 ++ ds2) /\
    (target ← lpSetNumElements (with_hdr t n (body ds1 ++ body ds2 ++ [LP_EOF] ++ S)) num;
     lpSetTotalBytes target (pos (ds1 ++ ds2) + 1)) = Some lp').
  { intros t n S. rewrite setNum_hdr. bnd. rewrite setTotal_hdr. eexists. split; [|done].
    replace (body ds1 ++ body ds2 ++ [LP_EOF] ++ S) with (body ds1 ++ body ds2 ++ (body [] ++ [LP_EOF]) ++ S) by done.
    pose proof (rep_intro num ds1 ds2 [] S Hd1 Hd2 ltac:(by constructor)) as HR. rewrite app_nil_r in HR. apply HR; [lia|done]. }
  replace (pos ds2 + 1 <=? pos ds1 + 1) with (pos ds2 <=? pos ds1) by lia.
  unfold lp_realloc, assert_. rewrite (proj2 (Z.ltb_lt _ _)) by lia. bnd.
  destruct (pos ds2 <=? pos ds1) eqn:Eo.
  - rewrite (ldn_at' _ (le_enc 4 (pos ds2 + 1) ++ le_enc 2 n2) (body ds2 ++ [LP_EOF]) sl2);
      [|unfold with_hdr; by rewrite <- !(assoc (++))|done|rewrite zlen_app; change (zlen [LP_EOF]) with 1; lia].
    bnd. replace (pos ds1 + 1 - 1) with (zlen (with_hdr (pos ds1 + 1) n1 (body ds1))) by lia.
    destruct (overwrite_end (with_hdr (pos ds1 + 1) n1 (body ds1)) LP_EOF sl1 (body ds2 ++ [LP_EOF]) (usable (pos (ds1 ++ ds2) + 1)))
      as (S' & ->); [done|rewrite zlen_app; change (zlen [LP_EOF]) with 1; lia|]. bnd.
    rewrite with_hdr_app, <- app_assoc. destruct (Hfin (pos ds1 + 1) n1 S') as (lp' & Hr & He).
    exists lp'. split; [done|]. revert He. destruct (lpSetNumElements _ num); bnd; [|done]. by intros ->.
  - destruct (realloc_at junk (with_hdr (pos ds2 + 1) n2 (body ds2 ++ [LP_EOF])) sl2 (usable (pos (ds1 ++ ds2) + 1)))
      as (S1 & E1 & HS1); [rewrite zlen_with_hdr, zlen_app; change (zlen [LP_EOF]) with 1; lia|].
    rewrite <- with_hdr_app, <- !app_assoc in E1. rewrite E1. rewrite zlen_with_hdr, zlen_app in HS1.
    change (zlen [LP_EOF]) with 1 in HS1.
    destruct (memmove_at (with_hdr (pos ds2 + 1) n2 (body ds2) ++ [LP_EOF] ++ S1)
      (le_enc 4 (pos ds2 + 1) ++ le_enc 2 n2) [] (body ds2 ++ [LP_EOF]) S1 (pos ds1 + 1 - 1) 6 (pos ds2 + 1 - 6))
      as (X & S' & -> & HX & _).
    { unfold with_hdr. by rewrite <- !(assoc (++)). }
    { done. }
    { rewrite zlen_app. change (zlen [LP_EOF]) with 1. lia. }
    { change (zlen (le_enc 4 (pos ds2 + 1) ++ le_enc 2 n2)) with 6. rewrite zlen_nil. lia. }
    change (zlen (le_enc 4 (pos ds2 + 1) ++ le_enc 2 n2)) with 6 in HX. bnd.
    rewrite (ldn_at' _ [] (with_hdr (pos ds1 + 1) n1 (body ds1)) ([LP_EOF] ++ sl1)) by (done || lia). bnd.
    rewrite (stn_at _ [] ((le_enc 4 (pos ds2 + 1) ++ le_enc 2 n2) ++ X) ((body ds2 ++ [LP_EOF]) ++ S'));
      [|by rewrite <- !(assoc (++))|done|rewrite HA1, zlen_app, HX; change (zlen (le_enc 4 (pos ds2 + 1) ++ le_enc 2 n2)) with 6; lia].
    bnd. rewrite app_nil_l, with_hdr_app, <- app_assoc. destruct (Hfin (pos ds1 + 1) n1 S') as (lp' & Hr & He).
    exists lp'. split; [done|]. revert He. destruct (lpSetNumElements _ num); bnd; [|done]. by intros ->.
Qed.

End merge.

(** ** Validation *)

Lemma lp_validate_loop_ok lp pre post fuel n count : lp_rep lp (pre ++ post) ->
  (length post < fuel)%nat -> 0 <= count -> count + zlen post < 2 ^ 32 ->
  lpValidate_loop None fuel lp (Some (pos pre)) (pos (pre ++ post) + 1) n count =
  Some (Some (Some (pos (pre ++ post)), count + zlen post)).
Proof.
  revert pre post count. induction fuel as [|fuel IH]; intros pre post count H Hf Hc Hlt; [lia|].
  cbn [lpValidate_loop]. destruct post as [|d post].
  - rewrite app_nil_r in *. destruct (rep_eof _ _ H) as (-> & _). bnd. change (LP_EOF =? LP_EOF) with true.
    cbv iota. rewrite zlen_nil. do 3 f_equal. lia.
  - destruct (entry_not_eof _ _ _ _ H) as (b & -> & Hb). bnd. rewrite (proj2 (Z.eqb_neq _ _)) by done.
    rewrite (validate_next_spec _ _ _ _ H). bnd. change (1 =? 0) with false. cbv iota.
    rewrite zlen_cons in *. pose proof (zlen_nonneg post). rewrite wrap_small by lia.
    replace (pre ++ d :: post) with ((pre ++ [d]) ++ post) in * by by rewrite <- (assoc (++)).
    rewrite IH; [do 3 f_equal; lia|done|simpl in *; lia|lia|lia].
Qed.

Lemma validate_complete lp ds deep : lp_rep lp ds ->
  lpValidateIntegrity lp (pos ds + 1) deep None = Some 1.
Proof.
  intros H. pose proof (rep_eof _ _ H) as (He & Ht & Hlt & _ & n & Hn & Hok). pose proof (pos_ge ds).
  unfold lpValidateIntegrity. unfold LP_HDR_SIZE in *. rewrite (proj2 (Z.ltb_ge _ _)) by lia. rewrite Ht. bnd.
  rewrite Z.eqb_refl. cbn [negb]. replace (pos ds + 1 - 1) with (pos ds) by lia. rewrite He. bnd.
  change (LP_EOF =? LP_EOF) with true. cbn [negb]. destruct deep; [|done]. cbn [negb]. rewrite Hn. bnd.
  pose proof (rep_zlen _ _ H). change (Some 6) with (Some (pos [])).
  rewrite (lp_validate_loop_ok lp [] ds); [|done|unfold zlen in *; lia|lia|lia]. bnd.
  rewrite app_nil_l, bool_decide_eq_true_2 by done. cbn [negb]. rewrite Z.add_0_l.
  destruct Hok as [->|[-> _]]; [done|]. by rewrite Z.eqb_refl, andb_false_r.
Qed.

(** What the deep check establishes: a chain of entries, each inside the
    listpack and with a backlen that agrees with its header. *)
Inductive chain (lp : list Z) (bytes : Z) : Z -> list Z -> Prop :=
  | chain_eof p : p = bytes - 1 -> ld8 lp p = Some LP_EOF -> chain lp bytes p []
  | chain_next p b q ps : ld8 lp p = Some b -> b <> LP_EOF ->
      lpValidateNext lp (Some p) bytes = Some (1, Some q) -> chain lp bytes q ps ->
      chain lp bytes p (p :: ps).

Lemma validate_next_inv lp p bytes r q : lpValidateNext lp (Some p) bytes = Some (r, q) -> r <> 0 ->
  r = 1 /\ LP_HDR_SIZE <= p <= bytes - 1 /\
  ((ld8 lp p = Some LP_EOF /\ q = None) \/
   exists b n prev, ld8 lp p = Some b /\ b <> LP_EOF /\ lpCurrentEncodedSizeUnsafe lp p = Some n /\
     let l := u64 (n + backlen_size n) in
     q = Some (p + l) /\ LP_HDR_SIZE <= p + l <= bytes - 1 /\
     lpDecodeBacklen lp (p + l - 1) = Some prev /\ u64 (prev + backlen_size n) = l /\
     exists lb, lpCurrentEncodedSizeBytes lp p = Some lb /\ lb <> 0 /\ p + lb <= bytes - 1).
Proof.
  unfold lpValidateNext, OUT_OF_RANGE. intros H Hr. revert H. case_if E1; [intros [= <- <-]; done|].
  intros G. apply bind_Some in G as (b & Hb & G). rewrite Hb. revert G. case_if E2.
  { intros [= <- <-]. split_and!; [done|lia..|]. left. by subst. }
  intros G. apply bind_Some in G as (lb & Hlb & G). revert G.
  case_if E3; [intros [= <- <-]; done|]. case_if E4; [intros [= <- <-]; done|].
  intros G. apply bind_Some in G as (n & Hn & G). revert G.
  case_if E5; [intros [= <- <-]; done|]. intros G. apply bind_Some in G as (prev & Hprev & G). revert G.
  case_if E6; [intros [= <- <-]; done|]. intros [= <- <-]. bool_hyps.
  split_and!; [done|lia..|]. right. exists b, n, prev. split_and!; try done; try lia. exists lb. split_and!; try done; lia.
Qed.

Lemma lp_validate_loop_sound cb lp bytes n fuel p count e count' : 
  lpValidate_loop cb fuel lp (Some p) bytes n count = Some (Some (Some e, count')) ->
  e = bytes - 1 -> 0 <= count -> count + Z.of_nat fuel < 2 ^ 32 ->
  exists ps, chain lp bytes p ps /\ count' = count + zlen ps.
Proof.
  revert p count. induction fuel as [|fuel IH]; intros p count H He Hc Hlt; [done|].
  cbn [lpValidate_loop] in H. apply bind_Some in H as (b & Hb & H). revert H. case_if E1.
  { intros [= <- <-]. exists []. split; [constructor; [done|by subst]|]. rewrite zlen_nil. lia. }
  intros H. apply bind_Some in H as ([r p'] & Hv & H). revert H. case_if E2; [done|].
  case_if E3; [done|]. intros H. destruct (validate_next_inv _ _ _ _ _ Hv E2) as (-> & _ & [[? _]|(b' & n' & prev & _ & _ & _ & Hq & _)]).
  { simplify_eq. }
  simpl in Hq. subst p'. rewrite (wrap_small 32) in H by lia.
  apply IH in H as (ps & Hps & ->); [|done|lia|lia]. exists (p :: ps). split; [by econstructor|]. rewrite zlen_cons. lia.
Qed.

(** Following [lpNext] from a pointer. *)
Inductive visits (lp : list Z) : option Z -> list Z -> Prop :=
  | visits_end : visits lp None []
  | visits_step p q ps : lpNext lp p = Some q -> visits lp q ps -> visits lp (Some p) (p :: ps).

Definition start (ps : list Z) : option Z := head ps.

Lemma chain_assert lp bytes p ps : chain lp bytes p ps -> LP_HDR_SIZE <= p ->
  lpAssertValidEntry lp bytes p = Some tt.
Proof.
  intros H Hp. unfold lpAssertValidEntry. destruct H as [p -> He|p b q ps Hb Hne Hv _].
  - unfold lpValidateNext, OUT_OF_RANGE. rewrite (proj2 (Z.ltb_ge _ _)) by lia.
    rewrite (proj2 (Z.ltb_ge _ _)) by lia. cbn [orb]. rewrite He. done.
  - by rewrite Hv.
Qed.

Lemma chain_ptr lp bytes p ps : chain lp bytes p ps -> LP_HDR_SIZE <= p -> lpGetTotalBytes lp = Some bytes ->
  (b ← ld8 lp p;
   if b =? LP_EOF then Some None
   else bytes ← lpBytes lp; _ ← lpAssertValidEntry lp bytes p; Some (Some p)) = Some (start ps).
Proof.
  intros H Hp Ht. pose proof (chain_assert _ _ _ _ H Hp) as HA. unfold lpBytes. rewrite Ht.
  destruct H as [p -> He|p b q ps Hb Hne Hv _].
  - rewrite He. done.
  - rewrite Hb. bnd. rewrite (proj2 (Z.eqb_neq _ _)) by done. by rewrite HA.
Qed.

Lemma chain_visits lp bytes p ps : chain lp bytes p ps -> LP_HDR_SIZE <= p -> lpGetTotalBytes lp = Some bytes ->
  visits lp (start ps) ps.
Proof.
  intros H Hp Ht. induction H as [p He Hl|p b q ps Hb Hne Hv H IH]; [constructor|].
  simpl. destruct (validate_next_inv _ _ _ _ _ Hv ltac:(done)) as (_ & _ & [[? _]|(b' & n & prev & _ & _ & Hn & Hq)]);
    [simplify_eq|]. simpl in Hq. destruct Hq as ([= ->] & Hq & _).
  apply visits_step with (start ps); [|apply IH; lia].
  unfold lpNext, lpSkip. rewrite Hn. bnd. apply (chain_ptr _ bytes); [done|lia|done].
Qed.

(** The low seven bits of a decoded backlen are those of its last byte. *)
Lemma lor_low7 v x sh : 7 <= sh -> Z.lor v (u64 (Z.shiftl x sh)) mod 128 = v mod 128.
Proof.
  intros Hs. change 128 with (2 ^ 7). rewrite <- !Z.land_ones by lia. apply Z.bits_inj'. intros i Hi.
  rewrite !Z.land_spec, Z.lor_spec, Z.testbit_ones_nonneg by lia. destruct (i <? 7) eqn:E; [|by rewrite !andb_false_r].
  bool_hyps. rewrite !andb_true_r. rewrite testbit_wrap by lia. rewrite (Z.shiftl_spec_low x) by lia. apply orb_false_r.
Qed.

Lemma decode_loop_low7 fuel lp p val sh v : 7 <= sh ->
  lpDecodeBacklen_loop fuel lp p val sh = Some v -> v = UINT64_MAX \/ v mod 128 = val mod 128.
Proof.
  revert p val sh. induction fuel as [|fuel IH]; intros p val sh Hs H; [done|].
  cbn [lpDecodeBacklen_loop] in H. apply bind_Some in H as (b & _ & H). revert H.
  case_if E1; [intros [= <-]; right; by apply lor_low7|]. case_if E2; [intros [= <-]; by left|].
  intros H. apply IH in H as [-> | ->]; [by left|right; by apply lor_low7|lia].
Qed.

Lemma decode_low7 lp p v : lpDecodeBacklen lp p = Some v ->
  v = UINT64_MAX \/ exists b, ld8 lp p = Some b /\ v mod 128 = b mod 128.
Proof.
  intros H. unfold lpDecodeBacklen in H. cbn [lpDecodeBacklen_loop] in H.
  apply bind_Some in H as (b & Hb & H). rewrite Z.lor_0_l in H. revert H.
  assert (Hlow : u64 (Z.shiftl (Z.land b 127) 0) mod 128 = b mod 128).
  { rewrite Z.shiftl_0_r. pose proof (land_ones_range b 7 127 eq_refl ltac:(lia)). rewrite wrap_small by lia.
    change 127 with (Z.ones 7). rewrite Z.land_ones by lia. apply Z.mod_mod. lia. }
  case_if E1; [intros [= <-]; right; by exists b|]. change (28 <? 0 + 7) with false. cbv iota.
  intros H. apply (decode_loop_low7 4) in H as [->|H]; [by left| |lia]. right. exists b. split; [done|]. by rewrite H.
Qed.

(** A 32 bit length that makes the size of the entry wrap around is never
    accepted: the backlen would have to be inside the length itself. *)
Lemma no_wrap lp p len prev n :
  Forall is_byte lp -> ld8 lp p = Some 240 -> bytes_or lp (p + 1) 4 0 = Some len ->
  n = u32 (5 + len) -> p + 5 < zlen lp ->
  lpDecodeBacklen lp (p + u64 (n + backlen_size n) - 1) = Some prev ->
  u64 (prev + backlen_size n) = u64 (n + backlen_size n) -> 5 + len < 2 ^ 32.
Proof.
  intros Hby Hb Hlen Hn Hl Hdec Hprev. apply ld8_lt in Hb as Hp.
  destruct (ldn_is_Some lp (p + 1) 4) as [bs Hbs]; [lia..|].
  pose proof (ldn_bytes _ _ _ _ Hby Hbs) as HB. pose proof (ldn_zlen _ _ _ _ Hbs) as HL.
  rewrite (bytes_or_spec 4 _ _ _ bs) in Hlen by (done || lia). rewrite Z.shiftl_0_r in Hlen. injection Hlen as <-.
  destruct (decide (5 + le_dec bs < 2 ^ 32)) as [|Hge]; [done|exfalso].
  pose proof (le_dec_range bs HB) as Hr. rewrite HL in Hr. change (256 ^ 4) with (2 ^ 32) in Hr.
  set (k := 5 + le_dec bs - 2 ^ 32). assert (Hk : 0 <= k <= 4) by lia.
  assert (n = k) as -> by (subst n; unfold wrap; dlia).
  assert (Hbl : backlen_size k = 1) by (unfold lpEncodeBacklen; by rewrite (proj2 (Z.leb_le _ _)) by lia).
  rewrite Hbl in *. rewrite (wrap_small 64 (k + 1)) in * by lia.
  assert (Hpm : prev mod 128 = k).
  { unfold wrap in Hprev. assert (prev mod 2 ^ 64 = k) by dlia.
    assert (prev mod 128 = (prev mod 2 ^ 64) mod 128) by dlia. dlia. }
  destruct (decode_low7 _ _ _ Hdec) as [->|(b & Hbk & Hlow)]; [unfold UINT64_MAX, wrap in *; dlia|].
  replace (p + (k + 1) - 1) with (p + k) in Hbk by lia.
  do 4 (destruct bs as [|? bs]; [rewrite ?zlen_cons, ?zlen_nil in HL; lia|]).
  destruct bs; [|rewrite !zlen_cons in HL; pose proof (zlen_nonneg bs); lia].
  repeat match goal with H : Forall _ (_ :: _) |- _ => apply Forall_cons in H as [? H] end. unfold is_byte in *.
  assert (Hat : forall i, 0 < i <= 4 -> ld8 lp (p + i) = ld8 [z; z0; z1; z2] (i - 1)).
  { intros i Hi. destruct (ld8_is_Some [z; z0; z1; z2] (i - 1)) as [x Hx]; [unfold zlen; simpl; lia|].
    rewrite Hx. apply ld8_ldn. apply ld8_ldn in Hx. rewrite <- Hx. symmetry.
    replace (p + i) with (p + 1 + (i - 1)) by lia. apply (ldn_ldn _ _ 4); [done|lia..]. }
  cbn [le_dec] in *.
  assert (k = 0 \/ k = 1 \/ k = 2 \/ k = 3 \/ k = 4) as [E|[E|[E|[E|E]]]] by lia; rewrite E in *.
  { rewrite Z.add_0_r in Hbk. assert (b = 240) as -> by congruence. rewrite Hpm in Hlow. by vm_compute in Hlow. }
  all: rewrite Hat in Hbk by lia; injection Hbk as <-; unfold k in E; dlia.
Qed.

Lemma bytes_or_local lp d p n : forall k sh, 0 <= k ->
  (forall j, k <= j < k + Z.of_nat n -> ld8 d j = ld8 lp (p + j)) -> bytes_or d k n sh = bytes_or lp (p + k) n sh.
Proof.
  induction n as [|n IH]; intros k sh Hk H; [done|]. cbn [bytes_or]. rewrite H by lia.
  rewrite <- Z.add_assoc, <- (IH (k + 1)) by (try (intros; apply H); lia). done.
Qed.

(** The size of an entry only depends on its own bytes. *)
Lemma size_local lp p b n lb : Forall is_byte lp ->
  ld8 lp p = Some b -> b <> LP_EOF -> lpCurrentEncodedSizeUnsafe lp p = Some n ->
  lpCurrentEncodedSizeBytes lp p = Some lb -> lb <> 0 -> p + lb < zlen lp ->
  (forall len, b = 240 -> bytes_or lp (p + 1) 4 0 = Some len -> n = u32 (5 + len) -> 5 + len < 2 ^ 32) ->
  1 <= n < 2 ^ 32 /\
  forall d, (forall k, 0 <= k < n -> ld8 d k = ld8 lp (p + k)) -> lpCurrentEncodedSizeUnsafe d 0 = Some n.
Proof.
  intros Hby Hb Hne Hn Hlb Hlb0 Hr Hw. 
  assert (Hp : 0 <= p) by (apply ld8_lt in Hb; lia).
  unfold lpCurrentEncodedSizeUnsafe, lpCurrentEncodedSizeBytes, LP_ENCODING_6BIT_STR_LEN,
    LP_ENCODING_12BIT_STR_LEN, LP_ENCODING_32BIT_STR_LEN in *. rewrite Hb in *. cbn [mbind option_bind] in Hn, Hlb.
  assert (Hd0 : forall d, 1 <= n -> (forall k, 0 <= k < n -> ld8 d k = ld8 lp (p + k)) -> ld8 d 0 = Some b).
  { intros d H1 H. rewrite H, Z.add_0_r by lia. done. }
  revert Hn Hlb.
  case_if E1; [|case_if E2; [|case_if E3; [|case_if E4; [|case_if E5; [|case_if E6; [|case_if E7;
    [|case_if E8; [|case_if E9; [|case_if E10]]]]]]]]]; intros Hn Hlb.
  1, 3, 4, 5, 6, 7: injection Hn as <-; split; [lia|]; intros d Hd; rewrite (Hd0 d) by (lia || done); bnd;
    rewrite ?E1, ?E2, ?E3, ?E4, ?E5, ?E6, ?E7; done.
  - clear Hw. pose proof (land_ones_range b 6 63 eq_refl ltac:(lia)). revert Hn. bnd. intros [= <-].
    rewrite wrap_small in * by lia. split; [lia|]. intros d Hd. rewrite (Hd0 d) by (lia || done). bnd.
    rewrite E1, E2. rewrite wrap_small by lia. done.
  - injection Hlb as <-. clear Hw. inv_bind.
    assert (is_byte r0) as Hr0 by (unfold ld8 in E0; revert E0; if_lia; intros E0; by eapply Forall_lookup_1).
    pose proof (land_ones_range b 4 15 eq_refl ltac:(lia)).
    assert (0 <= Z.lor (Z.shiftl (Z.land b 15) 8) r0 < 2 ^ 12).
    { apply lor_range; [lia|rewrite Z.shiftl_mul_pow2 by lia; lia|unfold is_byte in Hr0; lia]. }
    rewrite wrap_small in * by lia. split; [lia|]. intros d Hd. rewrite (Hd0 d) by (lia || done). bnd.
    rewrite E1, E2, E3, E4, E5, E6, E7, E8. rewrite (Hd (0 + 1)), Z.add_0_l, E0 by lia. bnd. rewrite wrap_small by lia. done.
  - injection Hlb as <-. apply bind_Some in Hn as (len & Hlen & [= <-]).
    assert (b = 240) as Hb240. { apply Z.eqb_eq in E9. rewrite <- E9. change 255 with (Z.ones 8). rewrite Z.land_ones by lia.
      symmetry. apply Z.mod_small. assert (is_byte b) as Hb8 by (unfold ld8 in Hb; revert Hb; if_lia; intros Hb; by eapply Forall_lookup_1).
      exact Hb8. }
    pose proof (Hw len Hb240 Hlen eq_refl) as Hlt. clear Hw.
    destruct (bytes_or_total lp (p + 1) 4 Hby) as (v & Hv & Hvr); [lia..|]. assert (v = len) as -> by congruence.
    rewrite wrap_small in * by lia. split; [lia|]. intros d Hd. rewrite (Hd0 d) by (lia || done). bnd.
    rewrite E1, E2, E3, E4, E5, E6, E7, E8, E9.
    rewrite (bytes_or_local lp d p 4 (0 + 1)) by (try (intros; apply Hd); lia).
    rewrite Z.add_0_l, Hlen. bnd. rewrite wrap_small by lia. done.
  - done.
  - injection Hlb as <-. done.
Qed.

(** An accepted entry is well formed in the sense of [data]. *)
Lemma valid_data lp p bytes q : Forall is_byte lp -> bytes <= zlen lp ->
  lpValidateNext lp (Some p) bytes = Some (1, Some q) ->
  exists d, data d /\ ldn lp p (zlen d) = Some d /\ q = p + zlen (entry d) /\ q < bytes.
Proof.
  intros Hby Hbl H.
  destruct (validate_next_inv _ _ _ _ _ H ltac:(done)) as (_ & Hp & [[_ ?]|(b & n & prev & Hb & Hne & Hn & Hq)]); [done|].
  simpl in Hq. destruct Hq as ([= ->] & Hq & Hdec & Hprev & lb & Hlb & Hlb0 & Hlbr).
  unfold LP_HDR_SIZE in *.
  assert (Hlbp : 0 <= lb). { clear -Hlb. unfold lpCurrentEncodedSizeBytes in Hlb. apply bind_Some in Hlb as (b & _ & H).
    revert H. repeat case_if E; intros [= <-]; lia. }
  destruct (size_local lp p b n lb Hby Hb Hne Hn Hlb Hlb0 ltac:(lia)) as [Hnr Hloc].
  { intros len -> Hlen Hnl. eapply no_wrap; try done.
    assert (lb = 5); [|lia]. unfold lpCurrentEncodedSizeBytes in Hlb. rewrite Hb in Hlb. by injection Hlb. }
  pose proof (backlen_size_range n). rewrite wrap_small in Hq by lia.
  destruct (ldn_is_Some lp p n) as [d Hd]; [lia..|]. pose proof (ldn_zlen _ _ _ _ Hd) as Hl.
  assert (Hk : forall k, 0 <= k < n -> ld8 d k = ld8 lp (p + k)).
  { intros k Hk. destruct (ld8_is_Some d k) as [x Hx]; [lia|]. rewrite Hx. symmetry.
    apply ld8_ldn. apply ld8_ldn in Hx. rewrite <- Hx. symmetry. eapply ldn_ldn; [done|lia..]. }
  exists d. rewrite zlen_entry, Hl, wrap_small by lia. split_and!; try done; try lia. split_and!.
  - by eapply ldn_bytes.
  - rewrite <- ld8_head, Hk, Z.add_0_r by lia. congruence.
  - by rewrite Hl, Hloc.
Qed.

Lemma data_str_off d o k es : lpGetWithSize d 0 None = Some (RetStr o k, es) -> 0 < o.
Proof.
  unfold lpGetWithSize. intros H. apply bind_Some in H as (b & _ & H). revert H.
  repeat (case_if E; [intros H; inv_bind; simplify_eq; lia|]). intros H. by simplify_eq.
Qed.

Lemma chain_readable lp size p ps : Forall is_byte lp -> size <= zlen lp -> chain lp size p ps -> LP_HDR_SIZE <= p ->
  Forall (fun p => exists r, lpGet lp p None = Some r /\ LP_HDR_SIZE <= p < size - 1 /\
       match r with
       | RetStr q k => p < q /\ 0 <= k /\ q + k < size
       | RetInt v => in_s 64 v
       | RetBuf _ _ => False
       end) ps.
Proof.
  intros Hby Hsz H. induction H as [p|p b q ps Hb Hne Hv H IH]; intros Hp; [constructor|].
  destruct (valid_data _ _ _ _ Hby Hsz Hv) as (d & Hd & Hld & -> & Hq).
  pose proof (data_nonempty d Hd). pose proof (backlen_size_range (zlen d)). rewrite zlen_entry in *.
  constructor; [|apply IH; lia].
  destruct (data_get d Hd) as (r & Hr & Hm).
  assert (Hat : at_ptr lp p d). { apply ldn_split in Hld as (A & C & -> & <- & _). apply at_ptr_app. }
  unfold lpGet. rewrite (at_ptr_get _ _ _ _ _ Hat Hr). bnd. eexists. split; [done|]. split; [lia|].
  destruct r as [o k|v|]; [|done..]. simpl. destruct Hm as (? & ? & ?). split_and!; try lia.
  pose proof (data_str_off d o k _ Hr). lia.
Qed.

(** Reading with and without a buffer for the integers. *)
Lemma get_buf lp p buf r es : lpGetWithSize lp p None = Some (r, es) ->
  lpGetWithSize lp p (Some buf) =
  match r with
  | RetInt v => '(count, b) ← ll2string buf LP_INTBUF_SIZE v; Some (RetBuf b count, es)
  | r => Some (r, es)
  end.
Proof.
  unfold lpGetWithSize. intros H. apply bind_Some in H as (b & -> & H). bnd. revert H.
  repeat (case_if E; [intros H; inv_bind; simplify_eq; repeat match goal with H : ?x = Some _ |- context [?x] => rewrite H; bnd end; done|]).
  intros H. by simplify_eq.
Qed.

Lemma get_denotes lp pre d post s buf : lp_rep lp (pre ++ d :: post) -> denotes d s -> LP_INTBUF_SIZE <= zlen buf ->
  exists r, lpGet lp (pos pre) (Some buf) = Some r /\
    match r with
    | RetStr q n => n = zlen s /\ ldn lp q n = Some s
    | RetBuf buf' n => n = zlen s /\ ldn buf' 0 n = Some s
    | RetInt _ => False
    end.
Proof.
  intros H Hd Hbuf. destruct (get_spec _ _ _ _ H) as (r & Hr & Hl & Hm).
  assert (Hg : lpGet d 0 None = Some r) by (unfold lpGet; by rewrite Hr).
  unfold lpGet. rewrite (get_buf _ _ buf _ _ Hl). destruct r as [q n|v|]; [| |done]; cbn [shift_ret]; bnd.
  - destruct Hm as (bs & Hb1 & Hb2). apply (denotes_str d q n bs s Hg Hb1) in Hd as ->.
    eexists. split; [done|]. by rewrite (ldn_zlen _ _ _ _ Hb2).
  - assert (Hdec := Hd). unfold denotes in Hdec. rewrite Hg in Hdec.
    apply (denotes_int d v s Hg Hm) in Hd. apply string2ll_short in Hd. unfold LP_INTBUF_SIZE, LONG_STR_SIZE in *.
    destruct (ll2string_spec buf 21 v Hm ltac:(lia)) as (s' & Hs' & HS).
    assert (s' = s) as -> by by eapply decimal_inj. rewrite (proj2 (Z.ltb_lt _ _)) in HS by lia.
    destruct HS as (dst' & -> & _ & HW & _). bnd. eexists. split; [done|]. split; [done|].
    rewrite zlen_app in HW. change (zlen [0]) with 1 in HW.
    apply ldn_app in HW as [HW _]; [|auto with redis|lia]. rewrite HW. f_equal. unfold zlen. rewrite Nat2Z.id.
    apply take_app_length.
Qed.

(** ** Properties *)

(** The list after an insertion at the element of index [i]. *)
Definition list_after (where_ : Z) (i : nat) (d : list Z) (ds : list (list Z)) : list (list Z) :=
  if where_ =? LP_REPLACE then <[i:=d]> ds
  else if where_ =? LP_AFTER then take (S i) ds ++ d :: drop (S i) ds
  else take i ds ++ d :: drop i ds.

(** The pointer to the element of index [i]. *)
Definition elem_ptr (ds : list (list Z)) (i : nat) : Z := pos (take i ds).

Lemma split_elem {A} (l : list A) i x : l !! i = Some x ->
  l = take i l ++ x :: drop (S i) l /\ take (S i) l = take i l ++ [x].
Proof. intros H. split; [by rewrite take_drop_middle|by apply take_S_r]. Qed.

(** Insertion of any element before, after or in place of the element [i]. *)
Lemma insert_at (usable : Z -> Z) (junk : Z) (lp : list Z) (ds : list (list Z)) (i : nat) (where_ : Z) elestr eleint size d :
  (forall n, 0 <= n -> n <= usable n) ->
  lp_rep lp ds -> writes elestr eleint size d -> (i < length ds)%nat ->
  where_ = LP_BEFORE \/ where_ = LP_AFTER \/ where_ = LP_REPLACE ->
  let ds' := list_after where_ i d ds in
  let r := lpInsert usable junk lp elestr eleint size (elem_ptr ds i) where_ in
  (2 ^ 32 <= pos ds' + 1 -> r = Some None) /\
  (pos ds' + 1 < 2 ^ 32 ->
   exists lp', r = Some (Some (lp', Some (elem_ptr ds' (if where_ =? LP_AFTER then S i else i)))) /\
     lp_rep lp' ds' /\ ds' !! (if where_ =? LP_AFTER then S i else i) = Some d).
Proof.
  intros Hu H HW Hi Hw. destruct (lookup_lt_is_Some_2 ds i Hi) as [x Hx].
  destruct (split_elem ds i x Hx) as [Es Et].
  assert (Hlt : length (take i ds) = i) by (rewrite length_take; lia).
  assert (Htk : forall l : list (list Z), take i (take i ds ++ l) = take i ds) by (intros; by apply take_app_length').
  unfold elem_ptr, list_after. cbv zeta. destruct Hw as [->|[->| ->]].
  - change (LP_BEFORE =? LP_REPLACE) with false. change (LP_BEFORE =? LP_AFTER) with false. cbv iota.
    rewrite Htk. rewrite <- (take_drop i ds) in H at 1.
    destruct (insert_spec usable junk Hu lp (take i ds) [] (drop i ds) elestr eleint size LP_BEFORE d) as [H1 H2];
      [done|by left|done|]. split; [exact H1|]. intros Hb. destruct (H2 Hb) as (lp' & ? & ?). exists lp'.
    split_and!; [done..|]. rewrite lookup_app_r, Hlt, Nat.sub_diag by lia. done.
  - change (LP_AFTER =? LP_REPLACE) with false. change (LP_AFTER =? LP_AFTER) with true. cbv iota.
    rewrite Es in H. rewrite (insert_after usable junk lp _ x _ _ _ _ _ H HW), <- Et.
    assert (Htk2 : forall l : list (list Z), take (S i) (take (S i) ds ++ l) = take (S i) ds)
      by (intros; apply take_app_length'; rewrite length_take; lia). rewrite Htk2.
    destruct (insert_spec usable junk Hu lp (take (S i) ds) [] (drop (S i) ds) elestr eleint size LP_BEFORE d) as [H1 H2];
      [by rewrite app_nil_l, take_drop, Es|by left|done|]. split; [exact H1|]. intros Hb. destruct (H2 Hb) as (lp' & ? & ?). exists lp'.
    split_and!; [done..|]. rewrite lookup_app_r, length_take, Nat.min_l, Nat.sub_diag by (rewrite ?length_take; lia). done.
  - change (LP_REPLACE =? LP_REPLACE) with true. change (LP_REPLACE =? LP_AFTER) with false. cbv iota.
    rewrite Es in H. rewrite insert_take_drop by done. rewrite Htk.
    destruct (insert_spec usable junk Hu lp (take i ds) [x] (drop (S i) ds) elestr eleint size LP_REPLACE d) as [H1 H2];
      [done|right; eauto|done|]. split; [exact H1|]. intros Hb. destruct (H2 Hb) as (lp' & ? & ?). exists lp'.
    split_and!; [done..|]. rewrite lookup_app_r, Hlt, Nat.sub_diag by lia. done.
Qed.

(** [lpDeleteRange] deletes exactly the elements [index .. index+num-1]
    that exist (a negative index counts from the end) and keeps the rest, on
    its fast path that only moves the terminator as well as on the path that
    moves the tail; an index out of range changes nothing. *)
Lemma lpDeleteRange_refines (usable : Z -> Z) (junk : Z) (lp : list Z) (ds : list (list Z)) (index num : Z) :
  (forall n, 0 <= n -> n <= usable n) ->
  lp_rep lp ds -> 0 <= num < 2 ^ 64 -> in_s 64 index ->
  let i := norm_index ds index in
  exists lp', lpDeleteRange usable junk lp index num = Some lp' /\
    lp_rep lp' (if (0 <=? i) && (i <? zlen ds)
                then take (Z.to_nat i) ds ++ drop (Z.to_nat i + Z.to_nat num) ds else ds).
Proof. intros. by apply deleteRange_spec. Qed.

(** Traversal: [lpSeek] finds the element of every index, negative ones
    counting from the end, and returns null exactly when there is none,
    whether it scans forwards or backwards and whether or not the number of
    elements is known; [lpNext] and [lpPrev] move by one element and stop at
    the ends; [lpLength] counts the elements. *)
Lemma lpSeek_refines (lp : list Z) (ds : list (list Z)) (index : Z) :
  lp_rep lp ds ->
  lpSeek lp index = Some (seek_ptr ds (norm_index ds index)) /\
  (forall i, (i < length ds)%nat ->
     lpNext lp (elem_ptr ds i) = Some (if decide (S i < length ds)%nat then Some (elem_ptr ds (S i)) else None) /\
     lpPrev lp (elem_ptr ds i) = Some (match i with O => None | S j => Some (elem_ptr ds j) end)) /\
  exists lp', lpLength lp = Some (zlen ds, lp') /\ lp_rep lp' ds.
Proof.
  intros H. split_and!.
  - by apply seek_spec.
  - intros i Hi. destruct (lookup_lt_is_Some_2 ds i Hi) as [x Hx]. destruct (split_elem ds i x Hx) as [Es Et].
    assert (H' := H). rewrite Es in H'. unfold elem_ptr. split.
    + rewrite (next_spec _ _ _ _ H'), <- Et. unfold ptr. case_decide as Hd.
      * destruct (drop (S i) ds) eqn:E; [|done]. apply (f_equal length) in E. rewrite length_drop in E. simpl in E. lia.
      * by rewrite drop_ge by lia.
    + rewrite (prev_any _ _ _ H'). destruct i as [|j]; [done|]. unfold last_ptr.
      rewrite removelast_take, length_take, take_take.
      replace (Nat.min (Nat.min (S j) (length ds) - 1) (S j)) with j by lia. by destruct ds.
  - destruct (length_spec _ _ H) as (lp' & ? & ? & _). eauto.
Qed.

(** Round trip: every element written by [lpInsertString] reads back as
    the same string: [lpGet] with a buffer returns, for the entry that
    stores [s], either a pointer to the bytes of [s] inside the listpack or
    [s] printed into the buffer. *)
Lemma lpGet_roundtrip (lp s buf : list Z) (ds : list (list Z)) (i : nat) :
  lp_rep lp ds -> elem_ok s -> ds !! i = Some (enc_data s) -> LP_INTBUF_SIZE <= zlen buf ->
  exists r, lpGet lp (elem_ptr ds i) (Some buf) = Some r /\
    match r with
    | RetStr q n => n = zlen s /\ ldn lp q n = Some s
    | RetBuf buf' n => n = zlen s /\ ldn buf' 0 n = Some s
    | RetInt _ => False
    end.
Proof.
  intros H Hs Hi Hb. destruct (split_elem ds i _ Hi) as [Es _]. rewrite Es in H.
  eapply get_denotes; [exact H| |done]. by apply enc_data_spec.
Qed.

(** [lpFind] returns the first element equal to [s] among those at
    distance 0, [skip + 1], 2*([skip] + 1), ... of the start, whatever mix of
    integer and string encodings the listpack holds, and null when there is
    none. *)
Lemma lpFind_refines (lp s : list Z) (ds : list (list Z)) (i : nat) (skip : Z) :
  lp_rep lp ds -> (i < length ds)%nat -> 0 <= skip < 2 ^ 31 ->
  exists r, lpFind lp (elem_ptr ds i) s skip = Some r /\
    match r with
    | Some q => exists k d, drop i ds !! k = Some d /\ q = elem_ptr ds (i + k) /\ hit skip 0 k /\ denotes d s /\
        forall j d', (j < k)%nat -> hit skip 0 j -> drop i ds !! j = Some d' -> ~ denotes d' s
    | None => forall j d', hit skip 0 j -> drop i ds !! j = Some d' -> ~ denotes d' s
    end.
Proof.
  intros H Hi Hs. destruct (lookup_lt_is_Some_2 ds i Hi) as [x Hx]. rewrite <- (take_drop i ds) in H.
  rewrite (drop_S _ _ _ Hx) in H. destruct (find_spec _ _ _ _ s skip H Hs) as (r & Hr & Hf).
  exists r. split; [exact Hr|]. rewrite <- (drop_S _ _ _ Hx) in Hf. apply finds_index in Hf; [|lia..].
  destruct r as [q|]; [|done]. destruct Hf as (k & d & Hk & -> & ?). exists k, d. split_and!; try tauto.
  unfold elem_ptr. by rewrite take_take_drop.
Qed.

(** C16: [lpMerge] of two listpacks yields the concatenation of their lists,
    in the larger of the two allocations, and consumes the other one. *)
Theorem lpMerge_refines (usable : Z -> Z) (junk : Z) (f s : list Z) (ds1 ds2 : list (list Z)) :
  (forall n, 0 <= n -> n <= usable n) ->
  lp_rep f ds1 -> lp_rep s ds2 -> pos (ds1 ++ ds2) + 1 < UINT32_MAX ->
  exists lp', lp_rep lp' (ds1 ++ ds2) /\
    lpMerge usable junk (Some f) (Some s) false =
    Some (if pos ds2 <=? pos ds1 then (Some lp', Some lp', None) else (Some lp', None, Some lp')).
Proof. intros. by apply merge_spec. Qed.

(** C17: The deep integrity check accepts every listpack the operations
    build; and whatever bytes it accepts can be used safely: traversing them
    with [lpFirst] and [lpNext] never aborts, visits as many elements as the
    header says (when it says), and every visited element can be read with
    all its bytes inside the listpack. *)
Theorem lpValidateIntegrity_correct (lp : list Z) (size : Z) (cb : option (Z -> Z -> bool)) :
  Forall is_byte lp -> size <= zlen lp -> zlen lp < 2 ^ 32 - 1 ->
  (forall ds, lp_rep lp ds -> size = pos ds + 1 -> lpValidateIntegrity lp size true None = Some 1) /\
  (lpValidateIntegrity lp size true cb = Some 1 ->
   exists n ps, lpFirst lp = Some (head ps) /\ visits lp (head ps) ps /\
     lpGetNumElements lp = Some n /\ (n = LP_HDR_NUMELE_UNKNOWN \/ n = zlen ps) /\
     Forall (fun p => exists r, lpGet lp p None = Some r /\ LP_HDR_SIZE <= p < size - 1 /\
       match r with
       | RetStr q k => p < q /\ 0 <= k /\ q + k < size
       | RetInt v => in_s 64 v
       | RetBuf _ _ => False
       end) ps).
Proof.
  intros Hby Hsz Hlt. split; [intros ds H ->; by apply validate_complete|].
  intros H. unfold lpValidateIntegrity in H. revert H. case_if E1; [done|]. intros H.
  apply bind_Some in H as (bytes & Ht & H). revert H. case_if E2; [done|]. bool_hyps. subst bytes. intros H.
  apply bind_Some in H as (last & Hlast & H). revert H. case_if E3; [done|]. cbn [negb]. bool_hyps. intros H.
  apply bind_Some in H as (n & Hn & H). apply bind_Some in H as (r & Hr & H).
  destruct r as [[p count]|]; [|done]. revert H. case_if E4; [done|]. case_if E5; [done|]. intros _.
  apply bool_decide_eq_true_1 in E4. subst p.
  apply (lp_validate_loop_sound cb) in Hr as (ps & Hch & Hc); [|done|lia|unfold zlen in *; lia].
  exists n, ps. pose proof (chain_visits _ _ _ _ Hch ltac:(done) Ht) as HV.
  pose proof (chain_ptr _ _ _ _ Hch ltac:(done) Ht) as HF. split_and!; [done..| |].
  - destruct (n =? LP_HDR_NUMELE_UNKNOWN) eqn:E6; bool_hyps; [by left|]. right. simpl in E5. bool_hyps. lia.
  - by eapply chain_readable.
Qed.


(** ** Examples *)

(** The allocator of the examples rounds sizes up to a multiple of 8. *)
Definition round8 (n : Z) : Z := (n + 7) / 8 * 8.
Lemma round8_ge n : 0 <= n -> n <= round8 n.
Proof. unfold round8. intros. dlia. Qed.

(** The listpack of "a", 1000 and "1". *)
Definition lp_ds : list (list Z) := [[0x81; 97]; [0xC3; 0xE8]; [1]].
Definition lp_ex : list Z := [15; 0; 0; 0; 3; 0; 0x81; 97; 2; 0xC3; 0xE8; 2; 1; 1; 0xFF; 170].

Lemma lp_ex_built :
  (lp ← lpNew round8 170 0;
   r ← lpAppend round8 170 lp [97]; '(lp, _) ← r;
   r ← lpAppend round8 170 lp [49; 48; 48; 48]; '(lp, _) ← r;
   r ← lpAppend round8 170 lp [49]; '(lp, _) ← r; Some lp) = Some lp_ex.
Proof. vm_compute. reflexivity. Qed.

Lemma lp_ex_rep : lp_rep lp_ex lp_ds.
Proof.
  exists 3, [170]. split_and!; [reflexivity|done| |by right].
  repeat constructor; try (unfold is_byte; lia); done.
Qed.

Lemma elem_ok_ex : elem_ok [98].
Proof. split; [|done]. repeat constructor; unfold is_byte; lia. Qed.

Lemma lpMerge_refines_witness :
  exists lp', lp_rep lp' (lp_ds ++ lp_ds) /\
    lpMerge round8 170 (Some lp_ex) (Some lp_ex) false = Some (Some lp', Some lp', None).
Proof. apply (lpMerge_refines round8 170 lp_ex lp_ex lp_ds lp_ds round8_ge lp_ex_rep lp_ex_rep). done. Defined.

Lemma lpValidateIntegrity_correct_witness : lpValidateIntegrity lp_ex 15 true None = Some 1.
Proof.
  apply (proj1 (lpValidateIntegrity_correct lp_ex 15 None ltac:(repeat constructor; unfold is_byte; lia)
    ltac:(done) ltac:(done)) lp_ds lp_ex_rep). reflexivity.
Defined.

End Listpack.
