(* ===== verification/ListpackRun.v ===== *)
(** * Sequences of listpack operations (src/redis-stable/src/listpack.c)

    A listpack behaves like a list of strings: the operations of Listpack.v
    run in sequence on the bytes ([lp_exec]), the same operations run on a
    list of strings ([list_exec]), and the theorem that the results are the
    same.  Positions are found with lpSeek and elements are read with lpGet
    into a buffer. *)
From stdpp Require Import base list.
From S2P Require Import Prelude Util Listpack.

Module ListpackRun.
Import Util Listpack.

Inductive lp_op :=
  | OInsert (where_ index : Z) (s : list Z)
  | OInsertInteger (where_ index v : Z)
  | OAppend (s : list Z)
  | OAppendInteger (v : Z)
  | OPrepend (s : list Z)
  | OPrependInteger (v : Z)
  | ODelete (index : Z)
  | ODeleteRange (index num : Z)
  | OGet (index : Z)
  | OFind (index : Z) (s : list Z) (skip : Z)
  | ONext (index : Z)
  | OPrev (index : Z)
  | OLength
  | OShrink.

Inductive lp_result := RPtr (p : option Z) | RStr (s : option (list Z)) | RNum (n : Z) | RDone.

(** The string of an integer. *)
Definition numeral (v : Z) : list Z :=
  match ll2string (replicate 32 0) 32 v with Some (n, b) => take (Z.to_nat n) b | None => [] end.

Definition op_ok (o : lp_op) : Prop :=
  match o with
  | OInsert w index s => in_s 64 index /\ elem_ok s /\ (w = LP_BEFORE \/ w = LP_AFTER \/ w = LP_REPLACE)
  | OInsertInteger w index v => in_s 64 index /\ in_s 64 v /\ (w = LP_BEFORE \/ w = LP_AFTER \/ w = LP_REPLACE)
  | OAppend s | OPrepend s => elem_ok s
  | OAppendInteger v | OPrependInteger v => in_s 64 v
  | ODelete index | OGet index | ONext index | OPrev index => in_s 64 index
  | ODeleteRange index num => in_s 64 index /\ 0 <= num < 2 ^ 64
  | OFind index s skip => in_s 64 index /\ 0 <= skip < 2 ^ 31
  | OLength | OShrink => True
  end.

(** ** On lists of strings *)

Definition locate (l : list (list Z)) (index : Z) : option nat :=
  let i := norm_index l index in if (0 <=? i) && (i <? zlen l) then Some (Z.to_nat i) else None.

(** The pointer to an element, and whether a list fits in the 32-bit size. *)
Definition ptr_of (l : list (list Z)) (i : nat) : Z := elem_ptr (map enc_data l) i.
Definition fits (l : list (list Z)) : bool := pos (map enc_data l) + 1 <? 2 ^ 32.
Definition some_ptr (l : list (list Z)) (i : nat) : option Z := if (i <? length l)%nat then Some (ptr_of l i) else None.

(** The first of the elements at distance [cnt], [cnt + skip + 1], ... that
    is [s]. *)
Fixpoint find_stride (skip cnt : Z) (s : list Z) (l : list (list Z)) : option nat :=
  match l with
  | [] => None
  | x :: l =>
      if cnt =? 0 then if decide (x = s) then Some 0%nat else S <$> find_stride skip skip s l
      else S <$> find_stride skip (cnt - 1) s l
  end.

(** A list that takes the place of another one unless it is too large. *)
Definition written (l l' : list (list Z)) (i : nat) : lp_result * list (list Z) :=
  if fits l' then (RPtr (Some (ptr_of l' i)), l') else (RPtr None, l).
Definition put_at (w index : Z) (s : list Z) (l : list (list Z)) : lp_result * list (list Z) :=
  match locate l index with
  | None => (RPtr None, l)
  | Some i => written l (list_after w i s l) (if w =? LP_AFTER then S i else i)
  end.

Definition list_exec (o : lp_op) (l : list (list Z)) : lp_result * list (list Z) :=
  match o with
  | OInsert w index s => put_at w index s l
  | OInsertInteger w index v => put_at w index (numeral v) l
  | OAppend s => written l (l ++ [s]) (length l)
  | OAppendInteger v => written l (l ++ [numeral v]) (length l)
  | OPrepend s => written l (s :: l) 0
  | OPrependInteger v => written l (numeral v :: l) 0
  | ODelete index =>
      match locate l index with
      | None => (RPtr None, l)
      | Some i => (RPtr (some_ptr (delete i l) i), delete i l)
      end
  | ODeleteRange index num =>
      (RDone, match locate l index with None => l | Some i => take i l ++ drop (i + Z.to_nat num) l end)
  | OGet index => (RStr (i ← locate l index; l !! i), l)
  | OFind index s skip =>
      (RPtr (i ← locate l index; k ← find_stride skip 0 s (drop i l); Some (ptr_of l (i + k))), l)
  | ONext index => (RPtr (i ← locate l index; some_ptr l (S i)), l)
  | OPrev index => (RPtr (i ← locate l index; match i with O => None | S j => Some (ptr_of l j) end), l)
  | OLength => (RNum (zlen l), l)
  | OShrink => (RDone, l)
  end.

Fixpoint list_run (os : list lp_op) (l : list (list Z)) : list lp_result * list (list Z) :=
  match os with
  | [] => ([], l)
  | o :: os => let '(r, l) := list_exec o l in let '(rs, l) := list_run os l in (r :: rs, l)
  end.

(** ** On bytes *)

Section bytes.

(** The allocator: the size it grants for a request, and fresh bytes. *)
Context (usable : Z -> Z) (junk : Z).

Definition at_elem (lp : list Z) (index : Z) (other : lp_result) (k : Z -> option (lp_result * list Z)) : option (lp_result * list Z) :=
  p ← lpSeek lp index; match p with None => Some (other, lp) | Some p => k p end.

(** The listpack is kept when the call returns the null pointer. *)
Definition put (lp : list Z) (r : option (list Z * option Z)) : lp_result * list Z :=
  match r with None => (RPtr None, lp) | Some (lp', p) => (RPtr p, lp') end.

Definition read (lp : list Z) (p : Z) : option (list Z) :=
  r ← lpGet lp p (Some (replicate 21 0));
  match r with RetStr q n => ldn lp q n | RetBuf b n => ldn b 0 n | RetInt _ => None end.

Definition lp_exec (o : lp_op) (lp : list Z) : option (lp_result * list Z) :=
  match o with
  | OInsert w index s => at_elem lp index (RPtr None) (fun p => r ← lpInsertString usable junk lp s p w; Some (put lp r))
  | OInsertInteger w index v => at_elem lp index (RPtr None) (fun p => r ← lpInsertInteger usable junk lp v p w; Some (put lp r))
  | OAppend s => r ← lpAppend usable junk lp s; Some (put lp r)
  | OAppendInteger v => r ← lpAppendInteger usable junk lp v; Some (put lp r)
  | OPrepend s => r ← lpPrepend usable junk lp s; Some (put lp r)
  | OPrependInteger v => r ← lpPrependInteger usable junk lp v; Some (put lp r)
  | ODelete index => at_elem lp index (RPtr None) (fun p => r ← lpDelete usable junk lp p; Some (put lp r))
  | ODeleteRange index num => lp' ← lpDeleteRange usable junk lp index num; Some (RDone, lp')
  | OGet index => at_elem lp index (RStr None) (fun p => s ← read lp p; Some (RStr (Some s), lp))
  | OFind index s skip => at_elem lp index (RPtr None) (fun p => r ← lpFind lp p s skip; Some (RPtr r, lp))
  | ONext index => at_elem lp index (RPtr None) (fun p => r ← lpNext lp p; Some (RPtr r, lp))
  | OPrev index => at_elem lp index (RPtr None) (fun p => r ← lpPrev lp p; Some (RPtr r, lp))
  | OLength => '(n, lp') ← lpLength lp; Some (RNum n, lp')
  | OShrink => lp' ← lpShrinkToFit usable junk lp; Some (RDone, lp')
  end.

Fixpoint lp_run (os : list lp_op) (lp : list Z) : option (list lp_result * list Z) :=
  match os with
  | [] => Some ([], lp)
  | o :: os => '(r, lp) ← lp_exec o lp; '(rs, lp) ← lp_run os lp; Some (r :: rs, lp)
  end.

End bytes.

(** ** The simulation *)

(** The bytes of a list of strings. *)
Definition bytes_of (lp : list Z) (l : list (list Z)) : Prop := lp_rep lp (map enc_data l) /\ Forall elem_ok l.

Lemma numeral_spec v : in_s 64 v -> lpStringToInt64 (numeral v) = Some v /\ elem_ok (numeral v) /\ decimal (numeral v) v.
Proof.
  intros Hv. destruct (ll2string_prints (replicate 32 0) v Hv) as (s & dst' & H1 & H2 & H3 & H4 & H5); [done|].
  assert (numeral v = s) as ->.
  { unfold numeral. change (zlen (replicate 32 0)) with 32 in H1. rewrite H1. unfold ldn in H2.
    destruct (_ && _ && _); [|done]. injection H2 as H2. by rewrite drop_0 in H2. }
  split_and!; [done| |done]. split; [|unfold LONG_STR_SIZE in H5; lia].
  assert (forall ds, Forall is_digit ds -> Forall is_byte ds) as Hb by (intros ds Hd; eapply Forall_impl; [exact Hd|intros c; unfold is_digit, is_byte; lia]).
  destruct H3 as [[[Hc _] _]|(ds & -> & [Hc _] & _)]; [auto|]. constructor; [unfold is_byte; lia|auto].
Qed.

Lemma enc_numeral v : in_s 64 v -> enc_data (numeral v) = lpEncodeIntegerGetType v.
Proof. intros Hv. destruct (numeral_spec v Hv) as (H & _). unfold enc_data. by rewrite H. Qed.

Lemma map_after w i s l : map enc_data (list_after w i s l) = list_after w i (enc_data s) (map enc_data l).
Proof.
  unfold list_after. destruct (_ =? _); [apply list_fmap_insert|]. destruct (_ =? _); by rewrite map_app, map_cons, fmap_take, fmap_drop.
Qed.

Lemma norm_map l index : norm_index (map enc_data l) index = norm_index l index.
Proof. unfold norm_index, zlen. by rewrite length_map. Qed.

Lemma seek_map lp l index : bytes_of lp l -> lpSeek lp index = Some (ptr_of l <$> locate l index).
Proof.
  intros [H _]. rewrite (seek_spec _ _ _ H), norm_map. unfold seek_ptr, locate. unfold zlen. rewrite length_map. by destruct (_ && _).
Qed.

Lemma locate_lt l index i : locate l index = Some i -> (i < length l)%nat.
Proof. unfold locate, zlen. destruct (_ && _) eqn:E; [|done]. intros [= <-]. bool_hyps. lia. Qed.

Lemma split_at_elem l i x : l !! i = Some x -> map enc_data l = take i (map enc_data l) ++ enc_data x :: drop (S i) (map enc_data l).
Proof. intros H. by rewrite take_drop_middle; [|rewrite list_lookup_fmap, H]. Qed.

Lemma elem_ok_after w i s l : elem_ok s -> Forall elem_ok l -> Forall elem_ok (list_after w i s l).
Proof.
  intros Hs Hl. unfold list_after. destruct (_ =? _); [by apply Forall_insert|].
  destruct (_ =? _); (apply Forall_app; split; [by apply Forall_take|constructor; [done|by apply Forall_drop]]).
Qed.

Section proofs.

Context (usable : Z -> Z) (junk : Z) (usable_ge : forall n, 0 <= n -> n <= usable n).

Definition simulates (o : lp_op) (lp : list Z) (l : list (list Z)) : Prop :=
  exists lp', lp_exec usable junk o lp = Some ((list_exec o l).1, lp') /\ bytes_of lp' (list_exec o l).2.

(** A call of lpInsert that returns the new list or the null pointer. *)
Lemma written_ok (c : option (option (list Z * option Z))) lp l l' i : bytes_of lp l -> Forall elem_ok l' ->
  (2 ^ 32 <= pos (map enc_data l') + 1 -> c = Some None) ->
  (pos (map enc_data l') + 1 < 2 ^ 32 -> exists lp', c = Some (Some (lp', Some (ptr_of l' i))) /\ lp_rep lp' (map enc_data l')) ->
  exists lp', (r ← c; Some (put lp r)) = Some ((written l l' i).1, lp') /\ bytes_of lp' (written l l' i).2.
Proof.
  intros Hl He H1 H2. unfold written, fits. destruct (_ <? _) eqn:E; bool_hyps.
  - destruct H2 as (lp' & -> & Hr); [done|]. exists lp'. by split.
  - rewrite H1 by done. exists lp. by split.
Qed.

Lemma at_ok lp l index other k f : bytes_of lp l -> 
  (forall i, locate l index = Some i -> exists lp', k (ptr_of l i) = Some ((f i).1, lp') /\ bytes_of lp' (f i).2) ->
  exists lp', at_elem lp index other k = Some ((match locate l index with None => (other, l) | Some i => f i end).1, lp') /\
    bytes_of lp' (match locate l index with None => (other, l) | Some i => f i end).2.
Proof.
  intros Hl Hk. unfold at_elem. rewrite (seek_map lp l index Hl). bnd. destruct (locate l index) as [i|] eqn:E; [by apply Hk|]. by exists lp.
Qed.

Lemma place_ok lp l w index s elestr eleint size : bytes_of lp l -> elem_ok s -> writes elestr eleint size (enc_data s) ->
  w = LP_BEFORE \/ w = LP_AFTER \/ w = LP_REPLACE ->
  exists lp', at_elem lp index (RPtr None) (fun p => r ← lpInsert usable junk lp elestr eleint size p w; Some (put lp r)) =
    Some ((put_at w index s l).1, lp') /\ bytes_of lp' (put_at w index s l).2.
Proof.
  intros Hl Hs HW Hw. apply at_ok; [done|]. intros i Hi%locate_lt. pose proof Hl as [Hr He].
  destruct (insert_at usable junk lp (map enc_data l) i w elestr eleint size (enc_data s) usable_ge Hr HW) as [H1 H2]; [by rewrite length_map|done|].
  rewrite <- map_after in H1, H2. apply written_ok; [done|by apply elem_ok_after|done|].
  intros Hb. destruct (H2 Hb) as (lp' & H3 & H4 & _). by exists lp'.
Qed.

(** Insertion at the two ends. *)
Lemma end_ok lp l s elestr eleint size : bytes_of lp l -> elem_ok s -> writes elestr eleint size (enc_data s) ->
  (exists lp', (r ← lpInsert usable junk lp elestr eleint size (pos (map enc_data l)) LP_BEFORE; Some (put lp r)) =
    Some ((written l (l ++ [s]) (length l)).1, lp') /\ bytes_of lp' (written l (l ++ [s]) (length l)).2) /\
  (exists lp', (r ← lpInsert usable junk lp elestr eleint size LP_HDR_SIZE LP_BEFORE; Some (put lp r)) =
    Some ((written l (s :: l) 0).1, lp') /\ bytes_of lp' (written l (s :: l) 0).2).
Proof.
  intros Hl Hs HW. pose proof Hl as [Hr He]. split.
  - destruct (insert_spec usable junk usable_ge lp (map enc_data l) [] [] elestr eleint size LP_BEFORE (enc_data s)) as [H1 H2];
      [by rewrite !app_nil_r|by left|done|].
    apply written_ok; [done|apply Forall_app; split; [done|by constructor]|rewrite map_app; exact H1|].
    rewrite map_app. intros Hb. destruct (H2 Hb) as (lp' & H3 & H4). exists lp'. split; [|done]. rewrite H3. unfold ptr_of, elem_ptr.
    rewrite map_app, take_app_length'; [done|]. by rewrite length_map.
  - destruct (insert_spec usable junk usable_ge lp [] [] (map enc_data l) elestr eleint size LP_BEFORE (enc_data s)) as [H1 H2]; [done|by left|done|].
    apply written_ok; [done|by constructor|exact H1|exact H2].
Qed.

Lemma append_ptr lp l : bytes_of lp l -> lpGetTotalBytes lp = Some (pos (map enc_data l) + 1).
Proof. intros [H _]. by pose proof (rep_eof _ _ H) as (_ & ? & _). Qed.

Lemma first_ptr lp l : bytes_of lp l -> lpFirst lp = Some (match l with [] => None | _ => Some LP_HDR_SIZE end).
Proof. intros [H _]. rewrite (first_spec _ _ H). by destruct l. Qed.

Lemma append_ok lp l s elestr eleint size : bytes_of lp l -> elem_ok s -> writes elestr eleint size (enc_data s) ->
  exists lp', (n ← lpGetTotalBytes lp; r ← lpInsert usable junk lp elestr eleint size (n - 1) LP_BEFORE; Some (put lp r)) =
    Some ((written l (l ++ [s]) (length l)).1, lp') /\ bytes_of lp' (written l (l ++ [s]) (length l)).2.
Proof.
  intros Hl Hs HW. rewrite (append_ptr lp l Hl). bnd. replace (pos (map enc_data l) + 1 - 1) with (pos (map enc_data l)) by lia.
  by apply end_ok.
Qed.

Lemma prepend_ok lp l s elestr eleint size : bytes_of lp l -> elem_ok s -> writes elestr eleint size (enc_data s) ->
  exists lp', (p ← lpFirst lp; r ← (match p with
      | None => n ← lpGetTotalBytes lp; lpInsert usable junk lp elestr eleint size (n - 1) LP_BEFORE
      | Some p => lpInsert usable junk lp elestr eleint size p LP_BEFORE
      end); Some (put lp r)) =
    Some ((written l (s :: l) 0).1, lp') /\ bytes_of lp' (written l (s :: l) 0).2.
Proof.
  intros Hl Hs HW. rewrite (first_ptr lp l Hl). bnd. destruct l as [|x l].
  - rewrite (append_ptr lp [] Hl). bnd. replace (pos (map enc_data []) + 1 - 1) with LP_HDR_SIZE by done. by apply end_ok.
  - by apply end_ok.
Qed.

Lemma map_delete_mid i (l : list (list Z)) : map enc_data (delete i l) = take i (map enc_data l) ++ drop (S i) (map enc_data l).
Proof. by rewrite delete_take_drop, map_app, fmap_take, fmap_drop. Qed.

Lemma delete_ok lp l index : bytes_of lp l -> simulates (ODelete index) lp l.
Proof.
  intros Hl. unfold simulates. cbn [lp_exec list_exec]. apply at_ok; [done|]. intros i Hi%locate_lt. pose proof Hl as [Hr He].
  destruct (lookup_lt_is_Some_2 l i Hi) as [x Hx]. assert (Hr' := Hr). rewrite (split_at_elem l i x Hx) in Hr'.
  destruct (delete_spec usable junk usable_ge lp (take i (map enc_data l)) (enc_data x) (drop (S i) (map enc_data l)) Hr') as (lp' & H1 & H2).
  unfold ptr_of, elem_ptr. rewrite H1. bnd. exists lp'. cbn [put fst snd]. split.
  - do 3 f_equal. unfold some_ptr. rewrite length_delete by eauto. unfold ptr, ptr_of, elem_ptr. rewrite map_delete_mid.
    destruct (drop (S i) (map enc_data l)) as [|d ds] eqn:E.
    + apply (f_equal length) in E. rewrite length_drop, length_map in E. cbn in E. by destruct (i <? length l - 1)%nat eqn:E'; [apply Nat.ltb_lt in E'; lia|].
    + apply (f_equal length) in E. rewrite length_drop, length_map in E. cbn in E. destruct (i <? length l - 1)%nat eqn:E'; [|apply Nat.ltb_ge in E'; lia].
      rewrite take_app_length'; [done|]. rewrite length_take, length_map. lia.
  - split; [by rewrite map_delete_mid|]. by apply Forall_delete.
Qed.

Lemma range_ok lp l index num : bytes_of lp l -> in_s 64 index -> 0 <= num < 2 ^ 64 -> simulates (ODeleteRange index num) lp l.
Proof.
  intros [Hr He] Hi Hn. unfold simulates. cbn [lp_exec list_exec fst snd].
  destruct (deleteRange_spec usable junk usable_ge lp (map enc_data l) index num Hr Hn Hi) as (lp' & H1 & H2). rewrite H1. bnd.
  exists lp'. split; [done|]. rewrite norm_map in H2. unfold locate. unfold zlen in *. rewrite length_map in H2. destruct (_ && _); [|by split].
  split; [by rewrite map_app, fmap_take, fmap_drop|]. apply Forall_app. split; [by apply Forall_take|by apply Forall_drop].
Qed.

Lemma get_ok lp l index : bytes_of lp l -> simulates (OGet index) lp l.
Proof.
  intros Hl. unfold simulates. cbn [lp_exec list_exec].
  destruct (at_ok lp l index (RStr None) (fun p => s ← read lp p; Some (RStr (Some s), lp)) (fun i => (RStr (l !! i), l)) Hl) as (lp' & H1 & H2).
  - intros i Hi%locate_lt. pose proof Hl as [Hr He]. destruct (lookup_lt_is_Some_2 l i Hi) as [x Hx]. rewrite (split_at_elem l i x Hx) in Hr.
    assert (elem_ok x) as Hok by (by eapply Forall_lookup_1).
    destruct (get_denotes lp _ _ _ x (replicate 21 0) Hr) as (r & H1 & H2); [by apply enc_data_spec|done|].
    exists lp. split; [|done]. unfold read, ptr_of, elem_ptr. rewrite H1. bnd. cbn. rewrite Hx.
    destruct r as [q n|v|b n]; [destruct H2 as [_ ->]; done|done|destruct H2 as [_ ->]; done].
  - exists lp'. rewrite H1. by destruct (locate l index).
Qed.

(** The string of an encoded element. *)
Lemma denotes_enc x s : elem_ok x -> denotes (enc_data x) s <-> x = s.
Proof.
  intros Hx. destruct (enc_data_spec x Hx) as (_ & Hd & _). split; [|by intros <-]. intros Hs. unfold denotes in *.
  destruct (lpGet _ _ _) as [[q n|v|b n]|]; [congruence|by eapply decimal_inj|done|done].
Qed.

Lemma finds_stride s skip pre cnt l r : finds s skip pre cnt (map enc_data l) r -> 0 <= skip -> 0 <= cnt -> Forall elem_ok l ->
  r = (fun k => pos (pre ++ take k (map enc_data l))) <$> find_stride skip cnt s l.
Proof.
  intros H Hs. remember (map enc_data l) as ds eqn:E. revert l E.
  induction H as [pre cnt|pre d post Hd|pre d post r Hd H IH|pre cnt d post r Hc H IH]; intros l E Hcnt He; destruct l as [|x l]; try done;
    injection E as -> ->; apply Forall_cons in He as [Hx He]; cbn [find_stride].
  - rewrite (denotes_enc x s Hx) in Hd. subst s. cbn. rewrite decide_True by done. cbn. by rewrite app_nil_r.
  - rewrite (denotes_enc x s Hx) in Hd. cbn. rewrite decide_False by done. rewrite (IH l eq_refl Hs He), <- option_fmap_compose.
    destruct (find_stride skip skip s l); [|done]. cbn. by rewrite <- app_assoc.
  - if_lia. rewrite (IH l eq_refl ltac:(lia) He), <- option_fmap_compose.
    destruct (find_stride skip (cnt - 1) s l); [|done]. cbn. by rewrite <- app_assoc.
Qed.

Lemma find_ok lp l index s skip : bytes_of lp l -> 0 <= skip < 2 ^ 31 -> simulates (OFind index s skip) lp l.
Proof.
  intros Hl Hs. unfold simulates. cbn [lp_exec list_exec].
  destruct (at_ok lp l index (RPtr None) (fun p => r ← lpFind lp p s skip; Some (RPtr r, lp))
    (fun i => (RPtr (k ← find_stride skip 0 s (drop i l); Some (ptr_of l (i + k))), l)) Hl) as (lp' & H1 & H2).
  - intros i Hi%locate_lt. pose proof Hl as [Hr He]. destruct (lookup_lt_is_Some_2 l i Hi) as [x Hx]. rewrite (split_at_elem l i x Hx) in Hr.
    destruct (find_spec lp _ _ _ s skip Hr Hs) as (r & H1 & H2). exists lp. split; [|done]. unfold ptr_of, elem_ptr at 1. rewrite H1. bnd.
    do 3 f_equal.
    assert (enc_data x :: drop (S i) (map enc_data l) = map enc_data (drop i l)) as E
      by (rewrite (drop_S l x i Hx), map_cons; by rewrite fmap_drop).
    rewrite E in H2. apply finds_stride in H2; [|lia|done|by apply Forall_drop]. rewrite H2.
    destruct (find_stride skip 0 s (drop i l)) as [k|]; [|done]. cbn. do 2 f_equal. rewrite fmap_drop. unfold ptr_of, elem_ptr. by rewrite take_take_drop.
  - exists lp'. rewrite H1. by destruct (locate l index).
Qed.

Lemma next_ok lp l index : bytes_of lp l -> simulates (ONext index) lp l.
Proof.
  intros Hl. unfold simulates. cbn [lp_exec list_exec].
  destruct (at_ok lp l index (RPtr None) (fun p => r ← lpNext lp p; Some (RPtr r, lp)) (fun i => (RPtr (some_ptr l (S i)), l)) Hl) as (lp' & H1 & H2).
  - intros i Hi%locate_lt. exists lp. split; [|done]. destruct (lpSeek_refines lp (map enc_data l) 0 (proj1 Hl)) as (_ & H & _).
    destruct (H i) as [Hn _]; [by rewrite length_map|]. unfold ptr_of. rewrite Hn. bnd. do 3 f_equal. unfold some_ptr. rewrite length_map.
    destruct (S i <? length l)%nat eqn:E; [apply Nat.ltb_lt in E; by rewrite decide_True|apply Nat.ltb_ge in E; rewrite decide_False by lia; done].
  - exists lp'. rewrite H1. by destruct (locate l index).
Qed.

Lemma prev_ok lp l index : bytes_of lp l -> simulates (OPrev index) lp l.
Proof.
  intros Hl. unfold simulates. cbn [lp_exec list_exec].
  destruct (at_ok lp l index (RPtr None) (fun p => r ← lpPrev lp p; Some (RPtr r, lp))
    (fun i => (RPtr (match i with O => None | S j => Some (ptr_of l j) end), l)) Hl) as (lp' & H1 & H2).
  - intros i Hi%locate_lt. exists lp. split; [|done]. destruct (lpSeek_refines lp (map enc_data l) 0 (proj1 Hl)) as (_ & H & _).
    destruct (H i) as [_ Hp]; [by rewrite length_map|]. unfold ptr_of. rewrite Hp. done.
  - exists lp'. rewrite H1. by destruct (locate l index).
Qed.

(** What an operation writes. *)
Lemma writes_string s : elem_ok s -> writes (Some s) None (zlen s) (enc_data s).
Proof. by constructor. Qed.

Lemma writes_integer v : in_s 64 v ->
  elem_ok (numeral v) /\ writes None (Some (lpEncodeIntegerGetType v)) (zlen (lpEncodeIntegerGetType v)) (enc_data (numeral v)).
Proof.
  intros Hv. destruct (numeral_spec v Hv) as (_ & He & _). split; [done|]. rewrite (enc_numeral v Hv). constructor. by apply enc_int_spec.
Qed.

Lemma exec_ok o lp l : bytes_of lp l -> op_ok o -> simulates o lp l.
Proof.
  intros Hl Ho. destruct o as [w index s|w index v|s|v|s|v|index|index num|index|index s skip|index|index| |]; cbn [op_ok] in Ho.
  - destruct Ho as (_ & Hs & Hw). by apply place_ok; [done|done|apply writes_string|].
  - destruct Ho as (_ & Hv & Hw). destruct (writes_integer v Hv). by apply place_ok.
  - unfold simulates. cbn [lp_exec list_exec]. unfold lpAppend.
    destruct (append_ok lp l s _ _ _ Hl Ho (writes_string s Ho)) as (lp' & H1 & H2). exists lp'. split; [|done]. rewrite <- H1. by destruct (lpGetTotalBytes lp).
  - destruct (writes_integer v Ho) as [He HW]. unfold simulates. cbn [lp_exec list_exec]. unfold lpAppendInteger, lpInsertInteger.
    destruct (append_ok lp l (numeral v) _ _ _ Hl He HW) as (lp' & H1 & H2). exists lp'. split; [|done]. rewrite <- H1. by destruct (lpGetTotalBytes lp).
  - unfold simulates. cbn [lp_exec list_exec]. unfold lpPrepend, lpAppend.
    destruct (prepend_ok lp l s _ _ _ Hl Ho (writes_string s Ho)) as (lp' & H1 & H2). exists lp'. split; [|done]. rewrite <- H1. by destruct (lpFirst lp) as [[p|]|], (lpGetTotalBytes lp).
  - destruct (writes_integer v Ho) as [He HW]. unfold simulates. cbn [lp_exec list_exec]. unfold lpPrependInteger, lpAppendInteger, lpInsertInteger.
    destruct (prepend_ok lp l (numeral v) _ _ _ Hl He HW) as (lp' & H1 & H2). exists lp'. split; [|done]. rewrite <- H1. by destruct (lpFirst lp) as [[p|]|], (lpGetTotalBytes lp).
  - by apply delete_ok.
  - destruct Ho. by apply range_ok.
  - by apply get_ok.
  - destruct Ho. by apply find_ok.
  - by apply next_ok.
  - by apply prev_ok.
  - destruct (length_spec lp (map enc_data l) (proj1 Hl)) as (lp' & H1 & H2 & _). exists lp'. cbn [lp_exec list_exec]. rewrite H1. bnd.
    unfold zlen. rewrite length_map. split; [done|]. by split; [|apply Hl].
  - destruct (shrink_spec usable junk usable_ge lp (map enc_data l) (proj1 Hl)) as (lp' & H1 & H2). exists lp'. cbn [lp_exec list_exec]. rewrite H1.
    split; [done|]. by split; [|apply Hl].
Qed.

Lemma lp_run_ok os : forall lp l, bytes_of lp l -> Forall op_ok os ->
  exists lp', lp_run usable junk os lp = Some ((list_run os l).1, lp') /\ bytes_of lp' (list_run os l).2.
Proof.
  induction os as [|o os IH]; intros lp l Hl Hos; cbn [lp_run list_run]; [by exists lp|]. apply Forall_cons in Hos as [Ho Hos].
  destruct (exec_ok o lp l Hl Ho) as (lp1 & H1 & H2). rewrite H1. bnd. destruct (list_exec o l) as [r l1]. cbn [fst snd] in *.
  destruct (IH lp1 l1 H2 Hos) as (lp2 & H3 & H4). rewrite H3. bnd. destruct (list_run os l1) as [rs l2]. by exists lp2.
Qed.

(** C12: a listpack behaves like a list of strings.  From a new listpack,
    every sequence of insertions, appends, prepends and replacements of
    strings and integers, deletions, lookups by position, reads, searches with
    a stride, moves to the next and previous element and counts returns
    without an access out of bounds, over every allocator that grants at least
    the requested sizes, and gives the pointers, strings and counts of the
    same operations on a list, where an integer is its decimal string; what
    does not fit in the 32-bit size is refused and changes nothing. *)
Theorem listpack_simulates (capacity : Z) (os : list lp_op) : 0 <= capacity -> Forall op_ok os ->
  exists lp lp', lpNew usable junk capacity = Some lp /\ lp_run usable junk os lp = Some ((list_run os []).1, lp') /\
    bytes_of lp' (list_run os []).2.
Proof.
  intros Hc Hos. destruct (new_spec usable junk usable_ge capacity Hc) as (lp & H1 & H2).
  destruct (lp_run_ok os lp []) as (lp' & H3 & H4); [by split|done|]. by exists lp, lp'.
Qed.

End proofs.

(** *** Witness *)

Definition lp_ops : list lp_op :=
  [OAppend [97]; OAppendInteger 1000; OPrepend [49; 48; 48; 48]; OInsert LP_AFTER (-1) [98; 99]; OInsertInteger LP_BEFORE 1 (-7);
   OGet 0; OGet 1; OGet 9; OFind 0 [49; 48; 48; 48] 2; ONext (-1); OPrev 1; OLength; OInsert LP_REPLACE 2 [100]; OShrink;
   ODeleteRange (-2) 5; ODelete 0; OLength].

Lemma listpack_simulates_witness :
  take 9 (list_run lp_ops []).1 =
    [RPtr (Some 6); RPtr (Some 9); RPtr (Some 6); RPtr (Some 15); RPtr (Some 9); RStr (Some [49; 48; 48; 48]); RStr (Some [45; 55]); RStr None;
     RPtr (Some 6)] /\
  (list_run lp_ops []).2 = [[45; 55]; [100]] /\
  exists lp lp', lpNew round8 170 0 = Some lp /\ lp_run round8 170 lp_ops lp = Some ((list_run lp_ops []).1, lp') /\
    bytes_of lp' (list_run lp_ops []).2.
Proof.
  split; [by vm_compute|]. split; [by vm_compute|]. apply (listpack_simulates round8 170 round8_ge 0 lp_ops); [done|].
  assert (forall s, forallb (fun c => (0 <=? c) && (c <? 256)) s && (zlen s <? 100) = true -> elem_ok s) as He.
  { intros s [Hs Hz]%andb_prop. split; [|lia]. apply Forall_forall. intros c Hc%list_elem_of_In. rewrite forallb_forall in Hs.
    apply Hs in Hc. unfold is_byte. lia. }
  repeat (apply Forall_cons; split; [cbn [op_ok]; unfold in_s; split_and?; first [apply He; reflexivity | cbn; lia | tauto]|]). constructor.
Defined.

End ListpackRun.
