(* ===== verification/Lzf.v ===== *)
(** * LZF compression (src/redis-stable/src/lzf_c.c, lzf_d.c, lzfP.h)

    The compressor and the decompressor with the configuration of lzfP.h:
    HLOG 16, VERY_FAST, no ULTRA_FAST, INIT_HTAB 0, CHECK_INPUT 1, pointers
    in the hash table.  Input and output are byte arrays, the pointers [ip]
    and [op] are offsets into them, and the hash table holds the addresses
    the code stores, its initial contents being arbitrary because the table
    is not initialised.  [None] is an access outside the arrays.  The main
    theorem is the round trip through both functions; the other one is that
    the decompressor stays inside its buffers on every input. *)
From stdpp Require Import base list strings.
From S2P Require Import Prelude.

Module Lzf.

Definition HLOG : Z := 16.
Definition HSIZE : Z := 65536.
Definition MAX_LIT : Z := 32.
Definition MAX_OFF : Z := 8192.
Definition MAX_REF : Z := 264.

(** ** Compression *)

Definition FRST (inb : list Z) (p : Z) : option Z :=
  b0 ← ld8 inb p; b1 ← ld8 inb (p + 1); Some (Z.lor (Z.shiftl b0 8) b1).
Definition NEXT (inb : list Z) (v p : Z) : option Z :=
  b2 ← ld8 inb (p + 2); Some (Z.lor (u32 (Z.shiftl v 8)) b2).
Definition IDX (h : Z) : Z := Z.land (u32 (Z.shiftr h (3 * 8 - HLOG) - u32 (h * 5))) (HSIZE - 1).

(** The hash table, indexed by [IDX]. *)
Definition htab_set (htab : Z -> Z) (i v : Z) : Z -> Z := fun j => if j =? i then v else htab j.

(** The sixteen unrolled steps [len++; if (ref [len] != ip [len]) break;]:
    whether one of them broke out, and [len]. *)
Fixpoint match_unrolled (n : nat) (inb : list Z) (ref ip len : Z) : option (bool * Z) :=
  match n with
  | O => Some (false, len)
  | S n' =>
      let len := len + 1 in
      a ← ld8 inb (ref + len); b ← ld8 inb (ip + len);
      if negb (a =? b) then Some (true, len) else match_unrolled n' inb ref ip len
  end.

(** [do len++; while (len < maxlen && ref[len] == ip[len]);] *)
Fixpoint match_tail (fuel : nat) (inb : list Z) (ref ip maxlen len : Z) : option Z :=
  match fuel with
  | O => None
  | S fuel' =>
      let len := len + 1 in
      if len <? maxlen then
        a ← ld8 inb (ref + len); b ← ld8 inb (ip + len);
        if a =? b then match_tail fuel' inb ref ip maxlen len else Some len
      else Some len
  end.

(** The length of the match found at [ref]; at most MAX_REF + 2 steps. *)
Definition match_len (inb : list Z) (ref ip maxlen : Z) : option Z :=
  '(broke, len) ← (if 16 <? maxlen then match_unrolled 16 inb ref ip 2 else Some (false, 2));
  if (broke : bool) then Some len else match_tail 300 inb ref ip maxlen len.

Record cstate := mkC {
  c_ip : Z; c_op : Z; c_lit : Z; c_hval : Z; c_htab : Z -> Z; c_out : list Z }.

(** The test for a match, in the order of the conjunction; [base] is the
    address of [in_data] and [ref] the address in the slot. *)
Definition match_at (inb : list Z) (base ref ip : Z) : option (option Z) :=
  let off := u64 (base + ip - ref - 1) in
  if (off <? MAX_OFF) && (base <? ref) then
    let r := ref - base in
    r2 ← ld8 inb (r + 2); i2 ← ld8 inb (ip + 2);
    if r2 =? i2 then
      r01 ← ldn inb r 2; i01 ← ldn inb ip 2;
      Some (if bool_decide (r01 = i01) then Some off else None)
    else Some None
  else Some None.

(** [op [- lit - 1] = lit - 1;] and [lit = 0; op++;] *)
Definition flush (st : cstate) : option cstate :=
  out ← st8 (c_out st) (c_op st - c_lit st - 1) (u8 (c_lit st - 1));
  Some (mkC (c_ip st) (c_op st + 1) 0 (c_hval st) (c_htab st) out).

(** [lit++; *op++ = *ip++;] and the flush of a full run. *)
Definition literal (inb : list Z) (st : cstate) : option cstate :=
  b ← ld8 inb (c_ip st);
  out ← st8 (c_out st) (c_op st) b;
  let st := mkC (c_ip st + 1) (c_op st + 1) (c_lit st + 1) (c_hval st) (c_htab st) out in
  if c_lit st =? MAX_LIT then flush st else Some st.

(** The branch of a match with offset [off]: [None] inside is the return
    value 0; the boolean tells whether the loop is left. *)
Definition emit_match (inb : list Z) (base out_end : Z) (st : cstate) (off : Z)
    : option (option (cstate * bool)) :=
  let in_end := zlen inb in
  let ip := c_ip st in
  let ref := ip - off - 1 in
  let op := c_op st in
  let lit := c_lit st in
  let nolit := b2z (lit =? 0) in
  let len := 2 in
  let maxlen := in_end - ip - len in
  let maxlen := if MAX_REF <? maxlen then MAX_REF else maxlen in
  if (out_end <=? op + 3 + 1) && (out_end <=? op - nolit + 3 + 1) then Some None
  else
    out ← st8 (c_out st) (op - lit - 1) (u8 (lit - 1));
    let op := op - nolit in
    len ← match_len inb ref ip maxlen;
    let len := len - 2 in
    let ip := ip + 1 in
    '(out, op) ←
      (if len <? 7 then
         out ← st8 out op (u8 (Z.shiftr off 8 + Z.shiftl len 5)); Some (out, op + 1)
       else
         out ← st8 out op (u8 (Z.shiftr off 8 + Z.shiftl 7 5));
         out ← st8 out (op + 1) (u8 (len - 7)); Some (out, op + 2));
    out ← st8 out op (u8 off);
    let op := op + 1 in
    let op := op + 1 in
    let ip := ip + (len + 1) in
    if in_end - 2 <=? ip then Some (Some (mkC ip op 0 (c_hval st) (c_htab st) out, true))
    else
      let ip := ip - 1 in
      let ip := ip - 1 in
      hval ← FRST inb ip;
      hval ← NEXT inb hval ip;
      let htab := htab_set (c_htab st) (IDX hval) (base + ip) in
      let ip := ip + 1 in
      hval ← NEXT inb hval ip;
      let htab := htab_set htab (IDX hval) (base + ip) in
      let ip := ip + 1 in
      Some (Some (mkC ip op 0 hval htab out, false)).

(** The main loop; each iteration moves [ip], so the length of the input is
    enough fuel.  The left value is the buffer when 0 is returned. *)
Fixpoint compress_loop (fuel : nat) (inb : list Z) (base out_end : Z) (st : cstate)
    : option (list Z + cstate) :=
  if c_ip st <? zlen inb - 2 then
    match fuel with
    | O => None
    | S fuel' =>
        hval ← NEXT inb (c_hval st) (c_ip st);
        let slot := IDX hval in
        let ref := c_htab st slot in
        let st := mkC (c_ip st) (c_op st) (c_lit st) hval
                      (htab_set (c_htab st) slot (base + c_ip st)) (c_out st) in
        m ← match_at inb base ref (c_ip st);
        match m with
        | Some off =>
            r ← emit_match inb base out_end st off;
            match r with
            | None => Some (inl (c_out st))
            | Some (st, true) => Some (inr st)
            | Some (st, false) => compress_loop fuel' inb base out_end st
            end
        | None =>
            if out_end <=? c_op st then Some (inl (c_out st))
            else st ← literal inb st; compress_loop fuel' inb base out_end st
        end
    end
  else Some (inr st).

(** [while (ip < in_end)] over the last bytes. *)
Fixpoint tail_loop (fuel : nat) (inb : list Z) (st : cstate) : option cstate :=
  if c_ip st <? zlen inb then
    match fuel with
    | O => None
    | S fuel' => st ← literal inb st; tail_loop fuel' inb st
    end
  else Some st.

(** The return value and the output buffer, of length [out_len]; [base] and
    [htab] are the address of the input and the uninitialised table. *)
Definition lzf_compress (base : Z) (htab : Z -> Z) (inb out : list Z) : option (Z * list Z) :=
  let in_len := zlen inb in
  let out_len := zlen out in
  if (in_len =? 0) || (out_len =? 0) then Some (0, out)
  else
    hval ← FRST inb 0;
    r ← compress_loop (length inb) inb base out_len (mkC 0 1 0 hval htab out);
    match r with
    | inl out => Some (0, out)
    | inr st =>
        if out_len <? c_op st + 3 then Some (0, c_out st)
        else
          st ← tail_loop (length inb) inb st;
          out ← st8 (c_out st) (c_op st - c_lit st - 1) (u8 (c_lit st - 1));
          Some (c_op st - b2z (c_lit st =? 0), out)
    end.

(** ** Decompression *)

(** [n] times [*op++ = *ip++;] from the input. *)
Fixpoint copy_lit (n : nat) (inb : list Z) (ip : Z) (out : list Z) (op : Z) : option (list Z) :=
  match n with
  | O => Some out
  | S n' => b ← ld8 inb ip; out ← st8 out op b; copy_lit n' inb (ip + 1) out (op + 1)
  end.

(** [n] times [*op++ = *ref++;] inside the output. *)
Fixpoint copy_ref (n : nat) (out : list Z) (op ref : Z) : option (list Z) :=
  match n with
  | O => Some out
  | S n' => b ← ld8 out ref; out ← st8 out op b; copy_ref n' out (op + 1) (ref + 1)
  end.

(** The switch on [len]: the cases 9 to 0 fall through and copy [len] + 2
    bytes, the default copies [len] + 2 bytes at once when the areas are
    disjoint. *)
Definition copy_switch (out : list Z) (op ref len : Z) : option (list Z) :=
  if len <=? 9 then copy_ref (Z.to_nat (len + 2)) out op ref
  else
    let len := len + 2 in
    if ref + len <=? op then bs ← ldn out ref len; stn out op bs
    else copy_ref (Z.to_nat len) out op ref.

(** One iteration: [None] inside is an error return. *)
Definition decompress_step (inb : list Z) (ip : Z) (out : list Z) (op : Z)
    : option (option (Z * list Z * Z)) :=
  let in_end := zlen inb in
  let out_end := zlen out in
  ctrl ← ld8 inb ip;
  let ip := ip + 1 in
  if ctrl <? 32 then
    let ctrl := ctrl + 1 in
    if out_end <? op + ctrl then Some None
    else if in_end <? ip + ctrl then Some None
    else
      out ← copy_lit (Z.to_nat ctrl) inb ip out op;
      Some (Some (ip + ctrl, out, op + ctrl))
  else
    let len := Z.shiftr ctrl 5 in
    let ref := op - Z.shiftl (Z.land ctrl 0x1f) 8 - 1 in
    if in_end <=? ip then Some None
    else
      r ← (if len =? 7 then
             b ← ld8 inb ip;
             let ip := ip + 1 in
             if in_end <=? ip then Some None else Some (Some (len + b, ip))
           else Some (Some (len, ip)));
      match r with
      | None => Some None
      | Some (len, ip) =>
          b ← ld8 inb ip;
          let ref := ref - b in
          let ip := ip + 1 in
          if out_end <? op + len + 2 then Some None
          else if ref <? 0 then Some None
          else
            out ← copy_switch out op ref len;
            Some (Some (ip, out, op + (len + 2)))
      end.

Fixpoint decompress_loop (fuel : nat) (inb : list Z) (ip : Z) (out : list Z) (op : Z)
    : option (Z * list Z) :=
  if ip <? zlen inb then
    match fuel with
    | O => None
    | S fuel' =>
        r ← decompress_step inb ip out op;
        match r with
        | None => Some (0, out)
        | Some (ip, out, op) => decompress_loop fuel' inb ip out op
        end
    end
  else Some (op, out).

(** The return value and the output buffer, of length [out_len]. *)
Definition lzf_decompress (inb out : list Z) : option (Z * list Z) :=
  decompress_loop (length inb) inb 0 out 0.

(** ** What a compressed stream decodes to *)

(** Decoding [bs] from the start of the stream writes [out] at the start of
    the buffer, whatever follows in both. *)
Definition dec_to (bs out : list Z) : Prop :=
  exists k, (k <= length bs)%nat /\
  forall rest X T fuel, zlen X = zlen out ->
    decompress_loop (k + fuel) (bs ++ rest) 0 (X ++ T) 0 =
    decompress_loop fuel (bs ++ rest) (zlen bs) (out ++ T) (zlen out).

Lemma dec_nil : dec_to [] [].
Proof.
  exists 0%nat. split; [simpl; lia|]. intros rest X T fuel HX.
  destruct X; [done|]. rewrite zlen_cons, zlen_nil in HX. pose proof (zlen_nonneg X). lia.
Qed.

(** Decoding one more element. *)
Lemma dec_snoc bs out seg cpy :
  dec_to bs out -> seg <> [] ->
  (forall rest Y T, zlen Y = zlen cpy ->
    decompress_step (bs ++ seg ++ rest) (zlen bs) (out ++ Y ++ T) (zlen out) =
    Some (Some (zlen bs + zlen seg, out ++ cpy ++ T, zlen out + zlen cpy))) ->
  dec_to (bs ++ seg) (out ++ cpy).
Proof.
  intros (k & Hk & Hd) Hs Hstep. exists (k + 1)%nat.
  assert (1 <= length seg)%nat by (destruct seg; [done|simpl; lia]).
  split; [rewrite length_app; lia|]. intros rest X T fuel HX. rewrite zlen_app in HX.
  destruct (split_at X (zlen out)) as (X1 & Y & -> & HX1); [rewrite HX; pose proof (zlen_nonneg out); pose proof (zlen_nonneg cpy); lia|].
  rewrite zlen_app in HX. rewrite <- !(assoc (++)). rewrite <- Nat.add_assoc.
  rewrite Hd by done. cbn [Nat.add decompress_loop]. rewrite !zlen_app.
  pose proof (zlen_nonneg rest).
  assert (0 < zlen seg) by (unfold zlen; lia). rewrite (proj2 (Z.ltb_lt _ _)) by lia.
  rewrite Hstep by lia. bnd. done.
Qed.

Lemma copy_lit_spec l A B O Y T : zlen Y = zlen l ->
  copy_lit (length l) (A ++ l ++ B) (zlen A) (O ++ Y ++ T) (zlen O) = Some (O ++ l ++ T).
Proof.
  revert A O Y. induction l as [|b l IH]; intros A O Y HY.
  - destruct Y; [done|]. rewrite zlen_cons, zlen_nil in HY. pose proof (zlen_nonneg Y). lia.
  - destruct Y as [|y Y]; [rewrite zlen_cons, zlen_nil in HY; pose proof (zlen_nonneg l); lia|].
    rewrite !zlen_cons in HY. cbn [length copy_lit].
    rewrite (ld8_at _ A b (l ++ B)) by done. bnd. unfold st8.
    rewrite (stn_at _ O [y] (Y ++ T)) by done. bnd.
    replace (zlen A + 1) with (zlen (A ++ [b])) by by rewrite zlen_app.
    replace (zlen O + 1) with (zlen (O ++ [b])) by by rewrite zlen_app.
    replace (A ++ (b :: l) ++ B) with ((A ++ [b]) ++ l ++ B) by by rewrite <- (assoc (++)).
    replace (O ++ [b] ++ Y ++ T) with ((O ++ [b]) ++ Y ++ T) by by rewrite <- (assoc (++)).
    rewrite IH by lia. by rewrite <- (assoc (++)).
Qed.

(** [cpy] repeats, at distance [off] + 1, what precedes it. *)
Definition repeats (O cpy : list Z) (off : nat) : Prop :=
  forall j c, cpy !! j = Some c -> (O ++ cpy) !! (length O + j - (off + 1))%nat = Some c.

Lemma copy_ref_spec cpy O Y T off : (off + 1 <= length O)%nat -> repeats O cpy off -> zlen Y = zlen cpy ->
  copy_ref (length cpy) (O ++ Y ++ T) (zlen O) (zlen O - (Z.of_nat off + 1)) = Some (O ++ cpy ++ T).
Proof.
  revert O Y. induction cpy as [|c cpy IH]; intros O Y Ho Hr HY.
  - destruct Y; [done|]. rewrite zlen_cons, zlen_nil in HY. pose proof (zlen_nonneg Y). lia.
  - destruct Y as [|y Y]; [rewrite zlen_cons, zlen_nil in HY; pose proof (zlen_nonneg cpy); lia|].
    rewrite !zlen_cons in HY. cbn [length copy_ref].
    assert (ld8 (O ++ (y :: Y) ++ T) (zlen O - (Z.of_nat off + 1)) = Some c) as ->.
    { pose proof (Hr 0%nat c eq_refl) as H0. unfold ld8, zlen. if_lia.
      rewrite lookup_app_l in * by lia. rewrite <- H0. f_equal. lia. }
    bnd. unfold st8. rewrite (stn_at _ O [y] (Y ++ T)) by done. bnd.
    replace (zlen O - (Z.of_nat off + 1) + 1) with (zlen (O ++ [c]) - (Z.of_nat off + 1)) by (rewrite zlen_app; change (zlen [c]) with 1; lia).
    replace (zlen O + 1) with (zlen (O ++ [c])) by by rewrite zlen_app.
    replace (O ++ [c] ++ Y ++ T) with ((O ++ [c]) ++ Y ++ T) by by rewrite <- (assoc (++)).
    rewrite IH; [by rewrite <- (assoc (++))|rewrite length_app; simpl; lia| |lia].
    intros j c' Hj. pose proof (Hr (S j) c' Hj) as HS. rewrite <- (assoc (++)), length_app. simpl.
    rewrite <- HS. f_equal. lia.
Qed.

Lemma copy_switch_spec cpy O Y T off len : (off + 1 <= length O)%nat -> repeats O cpy off -> zlen Y = zlen cpy ->
  zlen cpy = len + 2 -> 0 <= len ->
  copy_switch (O ++ Y ++ T) (zlen O) (zlen O - (Z.of_nat off + 1)) len = Some (O ++ cpy ++ T).
Proof.
  intros Ho Hr HY Hl Hlen. unfold copy_switch.
  assert (Hn : Z.to_nat (len + 2) = length cpy) by (unfold zlen in Hl; lia). rewrite Hn.
  case_if E; [by apply copy_ref_spec|]. case_if E2; [|by apply copy_ref_spec].
  rewrite (proj2 (ldn_Some _ _ _ cpy)); [bnd; by apply (stn_at _ O Y T)|].
  rewrite !zlen_app. pose proof (zlen_nonneg T). pose proof (zlen_nonneg O). unfold zlen in *. split_and!; [lia..|].
  rewrite Hn. apply list_eq. intros j. destruct (cpy !! j) as [c|] eqn:Ej.
  - pose proof (Hr j c Ej) as Hc. apply lookup_lt_Some in Ej. rewrite lookup_take_lt, lookup_drop by lia.
    rewrite lookup_app_l in Hc by lia. rewrite lookup_app_l by lia. rewrite <- Hc. f_equal. lia.
  - apply lookup_ge_None in Ej. by rewrite lookup_take_ge by lia.
Qed.

Lemma dec_lit bs out l : dec_to bs out -> 1 <= zlen l <= 32 -> dec_to (bs ++ (zlen l - 1) :: l) (out ++ l).
Proof.
  intros Hd Hl. apply dec_snoc; [done..|]. intros rest Y T HY. unfold decompress_step.
  rewrite (ld8_at _ bs (zlen l - 1) (l ++ rest) (zlen bs)) by done. bnd. if_lia. rewrite !zlen_app, zlen_cons.
  pose proof (zlen_nonneg rest). pose proof (zlen_nonneg T). pose proof (zlen_nonneg bs). if_lia. if_lia.
  replace (Z.to_nat (zlen l - 1 + 1)) with (length l) by (unfold zlen; lia).
  replace (zlen bs + 1) with (zlen (bs ++ [zlen l - 1])) by by rewrite zlen_app.
  replace (bs ++ ((zlen l - 1) :: l) ++ rest) with ((bs ++ [zlen l - 1]) ++ l ++ rest) by by rewrite <- (assoc (++)).
  rewrite copy_lit_spec by done. bnd. rewrite zlen_app. change (zlen [zlen l - 1]) with 1. do 4 f_equal; lia.
Qed.

(** The bytes of a back reference. *)
Definition ref_bytes (off len : Z) : list Z :=
  if len <? 7 then [u8 (Z.shiftr off 8 + Z.shiftl len 5); u8 off]
  else [u8 (Z.shiftr off 8 + Z.shiftl 7 5); u8 (len - 7); u8 off].

Lemma ctrl_byte h n : 0 <= h < 32 -> 1 <= n <= 7 ->
  u8 (h + Z.shiftl n 5) = 32 * n + h /\ Z.shiftr (32 * n + h) 5 = n /\ Z.land (32 * n + h) 31 = h.
Proof.
  intros Hh Hn. rewrite Z.shiftl_mul_pow2, Z.shiftr_div_pow2 by lia. change (2 ^ 5) with 32.
  change 31 with (Z.ones 5). rewrite Z.land_ones by lia. change (2 ^ 5) with 32.
  rewrite wrap_small by lia. split_and!; dlia.
Qed.

Lemma dec_ref bs out cpy off len : dec_to bs out -> 0 <= off < 8192 -> off + 1 <= zlen out ->
  1 <= len <= 262 -> zlen cpy = len + 2 -> repeats out cpy (Z.to_nat off) ->
  dec_to (bs ++ ref_bytes off len) (out ++ cpy).
Proof.
  intros Hd Ho Hout Hlen Hc Hr. apply dec_snoc; [done|unfold ref_bytes; by case_if E|].
  intros rest Y T HY. unfold decompress_step, ref_bytes. pose proof (zlen_nonneg rest). pose proof (zlen_nonneg bs).
  pose proof (zlen_nonneg T). pose proof (zlen_nonneg out).
  assert (Hh : 0 <= off / 256 < 32) by dlia. rewrite (Z.shiftr_div_pow2 off) by lia. change (2 ^ 8) with 256.
  assert (Hcs : forall r, r = zlen out - (off + 1) -> copy_switch (out ++ Y ++ T) (zlen out) r len = Some (out ++ cpy ++ T)).
  { intros r ->. pose proof (copy_switch_spec cpy out Y T (Z.to_nat off) len) as HS. rewrite Z2Nat.id in HS by lia.
    apply HS; try done; unfold zlen in *; lia. }
  case_if E.
  - destruct (ctrl_byte (off / 256) len) as (-> & C2 & C3); [lia..|].
    rewrite (ld8_at _ bs (32 * len + off / 256) ([u8 off] ++ rest) (zlen bs)) by done. bnd. if_lia. rewrite C2, C3.
    rewrite !zlen_app. change (zlen [32 * len + off / 256; u8 off]) with 2. if_lia. if_lia. bnd.
    rewrite (ld8_at _ (bs ++ [32 * len + off / 256]) (u8 off) rest) by (rewrite <- ?(assoc (++)), ?zlen_app; done). bnd.
    unfold wrap. change (2 ^ 8) with 256. rewrite Z.shiftl_mul_pow2 by lia. if_lia.
    replace (zlen out - off / 256 * 2 ^ 8 - 1 - off mod 256) with (zlen out - (off + 1)) by dlia.
    if_lia. rewrite Hcs by done. bnd. do 4 f_equal; lia.
  - destruct (ctrl_byte (off / 256) 7) as (-> & C2 & C3); [lia..|].
    rewrite (ld8_at _ bs (32 * 7 + off / 256) ([u8 (len - 7); u8 off] ++ rest) (zlen bs)) by done. bnd. if_lia. rewrite C2, C3.
    rewrite !zlen_app. change (zlen [32 * 7 + off / 256; u8 (len - 7); u8 off]) with 3. if_lia. change (7 =? 7) with true. cbv iota.
    rewrite (ld8_at _ (bs ++ [32 * 7 + off / 256]) (u8 (len - 7)) ([u8 off] ++ rest)) by (rewrite <- ?(assoc (++)), ?zlen_app; done). bnd.
    if_lia. bnd.
    rewrite (ld8_at _ (bs ++ [32 * 7 + off / 256; u8 (len - 7)]) (u8 off) rest)
      by (rewrite <- ?(assoc (++)), ?zlen_app; try done; change (zlen [32 * 7 + off / 256; u8 (len - 7)]) with 2; lia). bnd.
    rewrite (wrap_small 8 (len - 7)) by lia. replace (7 + (len - 7)) with len by lia.
    unfold wrap. change (2 ^ 8) with 256. rewrite Z.shiftl_mul_pow2 by lia. if_lia.
    replace (zlen out - off / 256 * 2 ^ 8 - 1 - off mod 256) with (zlen out - (off + 1)) by dlia.
    if_lia. rewrite Hcs by done. bnd. do 4 f_equal; lia.
Qed.

(** ** The invariant of the compressor *)

Definition slice (I : list Z) (i n : Z) : list Z := take (Z.to_nat n) (drop (Z.to_nat i) I).

Lemma zlen_slice I i n : 0 <= i -> 0 <= n -> i + n <= zlen I -> zlen (slice I i n) = n.
Proof. unfold slice, zlen. intros. rewrite length_take, length_drop. lia. Qed.

Lemma take_slice I i n : 0 <= i -> 0 <= n ->
  take (Z.to_nat (i + n)) I = take (Z.to_nat i) I ++ slice I i n.
Proof. intros. unfold slice. rewrite Z2Nat.inj_add by lia. symmetry. apply take_take_drop. Qed.

Lemma slice_snoc I i n b : 0 <= i -> 0 <= n -> ld8 I (i + n) = Some b -> slice I i (n + 1) = slice I i n ++ [b].
Proof.
  intros Hi Hn Hb. unfold ld8 in Hb. revert Hb. if_lia. intros Hb. unfold slice.
  replace (Z.to_nat (n + 1)) with (S (Z.to_nat n)) by lia. apply take_S_r.
  rewrite lookup_drop. rewrite <- Hb. f_equal. lia.
Qed.

Lemma lookup_slice I i n j : 0 <= i -> 0 <= n -> (Z.of_nat j < n) -> slice I i n !! j = ld8 I (i + Z.of_nat j).
Proof.
  intros. unfold slice, ld8. if_lia. rewrite lookup_take_lt, lookup_drop by lia. f_equal. lia.
Qed.

(** The bytes before the current run decode to the input before it, and the
    run holds the last [lit] input bytes after its header. *)
Definition cinv (I : list Z) (st : cstate) : Prop :=
  0 <= c_lit st < 32 /\ c_lit st <= c_ip st <= zlen I /\ c_op st <= 2 * c_ip st + 1 /\
  exists bs r, c_out st = bs ++ r /\ zlen bs = c_op st - c_lit st - 1 /\
    dec_to bs (take (Z.to_nat (c_ip st - c_lit st)) I) /\
    (c_lit st = 0 \/ exists h r', r = h :: slice I (c_ip st - c_lit st) (c_lit st) ++ r').

(** Closing the current run. *)
Lemma close_run I st bs r : 0 <= c_lit st <= 32 -> c_lit st <= c_ip st <= zlen I ->
  c_out st = bs ++ r -> zlen bs = c_op st - c_lit st - 1 ->
  dec_to bs (take (Z.to_nat (c_ip st - c_lit st)) I) ->
  (c_lit st = 0 /\ r <> [] \/ 0 < c_lit st /\ exists h r', r = h :: slice I (c_ip st - c_lit st) (c_lit st) ++ r') ->
  exists out bs' r', st8 (c_out st) (c_op st - c_lit st - 1) (u8 (c_lit st - 1)) = Some out /\
    out = bs' ++ r' /\ zlen bs' = c_op st - b2z (c_lit st =? 0) /\ dec_to bs' (take (Z.to_nat (c_ip st)) I) /\
    zlen out = zlen (c_out st).
Proof.
  intros Hl Hip Ho Hb Hd Hr. rewrite Ho, <- Hb. unfold st8.
  destruct Hr as [[Hl0 Hne]|[Hl0 (h & r' & ->)]].
  - destruct r as [|x r]; [done|]. rewrite (stn_at _ bs [x] r) by done. eexists _, bs, _. split; [done|].
    rewrite Hl0 in *. cbn [b2z Z.eqb]. rewrite Z.sub_0_r in Hd. split_and!; [done|lia|done|].
    rewrite !zlen_app, ?zlen_cons, ?zlen_app, ?zlen_nil. lia.
  - rewrite (stn_at _ bs [h] (slice I (c_ip st - c_lit st) (c_lit st) ++ r')) by done.
    set (l := slice I (c_ip st - c_lit st) (c_lit st)).
    assert (Hzl : zlen l = c_lit st) by (apply zlen_slice; lia).
    eexists _, (bs ++ (zlen l - 1) :: l), r'. split; [done|]. split_and!.
    + rewrite <- !(assoc (++)). rewrite Hzl, wrap_small by lia. done.
    + rewrite zlen_app, zlen_cons, (proj2 (Z.eqb_neq _ _)) by lia. cbn [b2z]. lia.
    + pose proof (dec_lit bs _ l Hd ltac:(lia)) as HD. unfold l in HD at 3. rewrite <- take_slice in HD by lia.
      replace (c_ip st - c_lit st + c_lit st) with (c_ip st) in HD by lia. done.
    + rewrite !zlen_app, ?zlen_cons, ?zlen_app, ?zlen_nil. lia.
Qed.

Lemma literal_spec I st : cinv I st -> c_ip st < zlen I -> c_op st < zlen (c_out st) ->
  exists st', literal I st = Some st' /\ cinv I st' /\ c_ip st' = c_ip st + 1 /\ zlen (c_out st') = zlen (c_out st) /\
    ((c_op st' = c_op st + 1 /\ c_lit st' = c_lit st + 1) \/ (c_op st' = c_op st + 2 /\ c_lit st' = 0 /\ c_lit st = 31)).
Proof.
  intros (Hl & Hip & Hop & bs & r & Ho & Hb & Hd & Hr) Hlt Hrm. unfold literal.
  destruct (ld8_is_Some I (c_ip st)) as [b Eb]; [lia|]. rewrite Eb. bnd.
  assert (exists h r', r = h :: slice I (c_ip st - c_lit st) (c_lit st) ++ r' /\ 1 <= zlen r') as (h & r' & -> & Hr1).
  { rewrite Ho, zlen_app in Hrm. destruct Hr as [H0|(h & r' & ->)].
    - destruct r as [|h r]; [rewrite zlen_nil in Hrm; lia|]. exists h, r. rewrite H0. split; [done|]. rewrite zlen_cons in Hrm. lia.
    - exists h, r'. split; [done|]. rewrite zlen_cons, zlen_app, zlen_slice in Hrm by lia. lia. }
  destruct r' as [|x r']; [rewrite zlen_nil in Hr1; lia|].
  set (l := slice I (c_ip st - c_lit st) (c_lit st)) in *.
  assert (Hzl : zlen l = c_lit st) by (apply zlen_slice; lia).
  unfold st8. rewrite (stn_at _ (bs ++ h :: l) [x] r');
    [|rewrite Ho, <- (assoc (++)); done|rewrite zlen_app, zlen_cons; lia|done].
  bnd. cbn [c_lit]. set (st1 := mkC _ _ _ _ _ _).
  assert (Ho1 : c_out st1 = bs ++ h :: slice I (c_ip st1 - c_lit st1) (c_lit st1) ++ r').
  { unfold st1. cbn [c_out c_ip c_lit]. rewrite <- !(assoc (++)). do 2 f_equal. simpl. f_equal.
    replace (c_ip st + 1 - (c_lit st + 1)) with (c_ip st - c_lit st) by lia.
    rewrite (slice_snoc _ _ _ b) by (lia || (rewrite <- Eb; f_equal; lia)). fold l. by rewrite <- (assoc (++)). }
  assert (Hzo : zlen (c_out st1) = zlen (c_out st)).
  { rewrite Ho. unfold st1. cbn [c_out]. rewrite !zlen_app, !zlen_cons, !zlen_app, !zlen_cons, zlen_nil. lia. }
  assert (Hd1 : dec_to bs (take (Z.to_nat (c_ip st1 - c_lit st1)) I)).
  { unfold st1. cbn [c_ip c_lit]. by replace (c_ip st + 1 - (c_lit st + 1)) with (c_ip st - c_lit st) by lia. }
  unfold MAX_LIT. case_if E.
  - destruct (close_run I st1 bs _ ltac:(simpl; lia) ltac:(simpl; lia) Ho1 ltac:(simpl; lia) Hd1) as (out & bs' & r2 & Hst & Hout & Hzb & Hd2 & Hz2).
    { right. split; [simpl; lia|eauto]. }
    unfold flush. rewrite Hst. bnd. eexists. split; [done|]. unfold st1 in *. cbn [c_ip c_op c_lit c_hval c_htab c_out] in *.
    split_and!; [|done|congruence|right; split_and!; lia].
    split_and!; try (cbn [c_lit c_ip c_op]; lia). exists bs', r2. cbn [c_lit c_ip c_op c_out].
    rewrite (proj2 (Z.eqb_neq _ _)) in Hzb by lia. cbn [b2z] in Hzb. rewrite !Z.sub_0_r in *. split_and!; [done|lia|done|by left].
  - exists st1. split; [done|]. unfold st1 in *. cbn [c_ip c_op c_lit c_hval c_htab c_out] in *.
    split_and!; [|done|done|left; lia].
    split_and!; try (cbn [c_lit c_ip c_op]; lia). eexists bs, _. cbn [c_lit c_ip c_op c_out].
    split_and!; [exact Ho1|lia|done|]. right. eauto.
Qed.

(** ** Matches *)

(** The first [n] bytes at [ref] and at [ip] agree. *)
Definition agree (I : list Z) (ref ip n : Z) : Prop :=
  forall j, 0 <= j < n -> ld8 I (ref + j) = ld8 I (ip + j).

Lemma agree_step I ref ip n a b : agree I ref ip n -> ld8 I (ref + n) = Some a -> ld8 I (ip + n) = Some b ->
  a = b -> agree I ref ip (n + 1).
Proof.
  intros H Ha Hb -> j Hj. destruct (decide (j = n)) as [->|]; [congruence|]. apply H. lia.
Qed.

Lemma unrolled_spec n I ref ip len : 0 <= ref < ip -> 0 <= len -> agree I ref ip (len + 1) ->
  ip + len + Z.of_nat n < zlen I ->
  exists b len', match_unrolled n I ref ip len = Some (b, len') /\ len <= len' <= len + Z.of_nat n /\
    if (b : bool) then len < len' /\ agree I ref ip len' else len' = len + Z.of_nat n /\ agree I ref ip (len' + 1).
Proof.
  revert len. induction n as [|n IH]; intros len Hr Hl Ha Hin.
  - exists false, len. split; [done|]. split; [lia|]. split; [lia|done].
  - cbn [match_unrolled]. destruct (ld8_is_Some I (ref + (len + 1))) as [x Ex]; [lia|].
    destruct (ld8_is_Some I (ip + (len + 1))) as [y Ey]; [lia|]. rewrite Ex. bnd. rewrite Ey. bnd. case_if E.
    + exists true, (len + 1). split; [done|]. split; [lia|]. split; [lia|done].
    + destruct (IH (len + 1)) as (b & len' & H1 & H2 & H3); [done|lia|by eapply agree_step|lia|].
      exists b, len'. split; [done|]. split; [lia|]. destruct b; [split; [lia|tauto]|split; [lia|tauto]].
Qed.

Lemma tail_spec fuel I ref ip maxlen len : 0 <= ref < ip -> 0 <= len -> agree I ref ip (len + 1) ->
  ip + maxlen < zlen I -> maxlen - len <= Z.of_nat fuel -> (0 < fuel)%nat ->
  exists len', match_tail fuel I ref ip maxlen len = Some len' /\ len + 1 <= len' <= Z.max (len + 1) maxlen /\
    agree I ref ip len'.
Proof.
  revert len. induction fuel as [|fuel IH]; intros len Hr Hl Ha Hin Hf Hf0; [lia|]. cbn [match_tail].
  case_if E; [|exists (len + 1); split; [done|]; split; [lia|done]].
  destruct (ld8_is_Some I (ref + (len + 1))) as [x Ex]; [lia|].
  destruct (ld8_is_Some I (ip + (len + 1))) as [y Ey]; [lia|]. rewrite Ex. bnd. rewrite Ey. bnd. case_if E2.
  - destruct (IH (len + 1)) as (len' & H1 & H2 & H3); [done|lia|by eapply agree_step|lia..|].
    exists len'. split; [done|]. split; [lia|done].
  - exists (len + 1). split; [done|]. split; [lia|done].
Qed.

Lemma match_len_spec I ref ip : 0 <= ref < ip -> ip < zlen I - 2 -> agree I ref ip 3 ->
  let maxlen := if MAX_REF <? zlen I - ip - 2 then MAX_REF else zlen I - ip - 2 in
  exists len, match_len I ref ip maxlen = Some len /\ 3 <= len <= 264 /\ len <= zlen I - ip /\ agree I ref ip len.
Proof.
  intros Hr Hi Ha maxlen. assert (Hm : 1 <= maxlen <= 264 /\ maxlen <= zlen I - ip - 2)
    by (unfold maxlen, MAX_REF; case_if E; lia). clearbody maxlen. unfold match_len. case_if E.
  - destruct (unrolled_spec 16 I ref ip 2) as (b & l & -> & Hl & Hb); [lia|lia|done|lia|]. bnd. destruct b.
    + exists l. split; [done|]. split; [lia|]. split; [lia|tauto].
    + destruct Hb as [-> Hb]. destruct (tail_spec 300 I ref ip maxlen (2 + Z.of_nat 16)) as (l' & -> & ? & ?); [lia|lia|done|lia..|].
      exists l'. split; [done|]. split; [lia|]. split; [lia|done].
  - bnd. destruct (tail_spec 300 I ref ip maxlen 2) as (l' & -> & ? & ?); [lia|lia|done|lia..|].
    exists l'. split; [done|]. split; [lia|]. split; [lia|done].
Qed.

Lemma match_at_spec I base ref ip : 8192 <= base -> 0 <= ip < zlen I - 2 -> base + zlen I < 2 ^ 64 ->
  0 <= ref < 2 ^ 64 ->
  exists m, match_at I base ref ip = Some m /\
    match m with
    | Some off => 0 <= off < 8192 /\ off + 1 < ip + 1 /\ agree I (ip - off - 1) ip 3
    | None => True
    end.
Proof.
  intros Hb Hi Hl Href. unfold match_at. case_if E; [|by exists None].
  unfold MAX_OFF in *. set (off := u64 (base + ip - ref - 1)) in *.
  assert (Hro : ref - base = ip - off - 1 /\ 0 <= off) by (unfold off, wrap in *; dlia).
  destruct Hro as [Hre Ho]. rewrite Hre.
  destruct (ld8_is_Some I (ip - off - 1 + 2)) as [x Ex]; [lia|].
  destruct (ld8_is_Some I (ip + 2)) as [y Ey]; [lia|]. rewrite Ex. bnd. rewrite Ey. bnd. case_if E2; [|by exists None].
  destruct (ldn_is_Some I (ip - off - 1) 2) as [u Eu]; [lia..|].
  destruct (ldn_is_Some I ip 2) as [v Ev]; [lia..|]. rewrite Eu. bnd. rewrite Ev. bnd.
  eexists. split; [done|]. case_bool_decide as Euv; [|done]. split_and!; [lia..|].
  intros j Hj. destruct (decide (j = 2)) as [->|]; [congruence|].
  subst v. pose proof (ldn_zlen _ _ _ _ Eu). destruct (ld8_is_Some u j) as [w Ew]; [lia|].
  apply ld8_ldn in Ew. transitivity (Some w); [|symmetry]; apply ld8_ldn; rewrite <- Ew; symmetry;
    eapply ldn_ldn; (done || lia).
Qed.

Lemma agree_repeats I ip off len : 0 <= off -> off + 1 <= ip -> 0 <= len -> ip + len <= zlen I ->
  agree I (ip - off - 1) ip len -> repeats (take (Z.to_nat ip) I) (slice I ip len) (Z.to_nat off).
Proof.
  intros Ho Hip Hl Hin Ha j c Hj. assert (Hjl := lookup_lt_Some _ _ _ Hj).
  pose proof (zlen_slice I ip len ltac:(lia) Hl Hin) as Hz. unfold zlen in Hz, Hin.
  rewrite lookup_slice in Hj by lia. rewrite <- take_slice by lia. rewrite length_take.
  rewrite lookup_take_lt by lia. rewrite <- Ha in Hj by lia. unfold ld8 in Hj. revert Hj. if_lia. intros <-. f_equal. lia.
Qed.

Lemma FRST_spec I p : 0 <= p -> p + 1 < zlen I -> exists v, FRST I p = Some v.
Proof.
  intros. unfold FRST. destruct (ld8_is_Some I p) as [x ->]; [lia|].
  destruct (ld8_is_Some I (p + 1)) as [y ->]; [lia|]. bnd. eauto.
Qed.
Lemma NEXT_spec I v p : -2 <= p -> p + 2 < zlen I -> exists v', NEXT I v p = Some v'.
Proof. intros. unfold NEXT. destruct (ld8_is_Some I (p + 2)) as [x ->]; [lia|]. bnd. eauto. Qed.

(** The table holds addresses. *)
Definition htab_ok (htab : Z -> Z) : Prop := forall i, 0 <= htab i < 2 ^ 64.
Lemma htab_set_ok htab i v : htab_ok htab -> 0 <= v < 2 ^ 64 -> htab_ok (htab_set htab i v).
Proof. intros H Hv j. unfold htab_set. case_if E; [done|apply H]. Qed.

(** Writing the bytes of a back reference. *)
Lemma write_ref bs r off len : 3 <= zlen r ->
  exists r', (( '(out, op) ←
      (if len <? 7 then
         out ← st8 (bs ++ r) (zlen bs) (u8 (Z.shiftr off 8 + Z.shiftl len 5)); Some (out, zlen bs + 1)
       else
         out ← st8 (bs ++ r) (zlen bs) (u8 (Z.shiftr off 8 + Z.shiftl 7 5));
         out ← st8 out (zlen bs + 1) (u8 (len - 7)); Some (out, zlen bs + 2));
    out ← st8 out op (u8 off); Some (out, op + 1)) : option (list Z * Z))
    = Some ((bs ++ ref_bytes off len) ++ r', zlen (bs ++ ref_bytes off len)) /\
    zlen ((bs ++ ref_bytes off len) ++ r') = zlen (bs ++ r).
Proof.
  intros Hr. do 3 (destruct r as [|? r]; [rewrite ?zlen_cons, ?zlen_nil in Hr; lia|]).
  unfold ref_bytes, st8. case_if E.
  - rewrite (stn_at _ bs [z] (z0 :: z1 :: r)) by done. bnd.
    rewrite (stn_at _ (bs ++ [u8 (Z.shiftr off 8 + Z.shiftl len 5)]) [z0] (z1 :: r)) by (rewrite <- ?(assoc (++)), ?zlen_app; done). bnd.
    exists (z1 :: r). rewrite <- !(assoc (++)). split; [do 2 f_equal; rewrite zlen_app, ?zlen_cons, ?zlen_nil; lia|].
    rewrite !zlen_app, ?zlen_cons, ?zlen_nil. lia.
  - rewrite (stn_at _ bs [z] (z0 :: z1 :: r)) by done. bnd.
    rewrite (stn_at _ (bs ++ [u8 (Z.shiftr off 8 + Z.shiftl 7 5)]) [z0] (z1 :: r)) by (rewrite <- ?(assoc (++)), ?zlen_app; done). bnd.
    rewrite (stn_at _ (bs ++ [u8 (Z.shiftr off 8 + Z.shiftl 7 5); u8 (len - 7)]) [z1] r)
      by (rewrite <- ?(assoc (++)), ?zlen_app; done). bnd.
    exists r. rewrite <- !(assoc (++)). split; [do 2 f_equal; rewrite zlen_app, ?zlen_cons, ?zlen_nil; lia|].
    rewrite !zlen_app, ?zlen_cons, ?zlen_nil. lia.
Qed.

Lemma lzf_emit_spec I base st off : cinv I st -> 8192 <= base -> base + zlen I < 2 ^ 64 -> htab_ok (c_htab st) -> 0 <= c_ip st < zlen I - 2 ->
  0 <= off < 8192 -> off + 1 < c_ip st + 1 -> agree I (c_ip st - off - 1) (c_ip st) 3 ->
  exists r, emit_match I base (zlen (c_out st)) st off = Some r /\
    match r with
    | None => zlen (c_out st) <= 2 * c_ip st + 5
    | Some (st', brk) => cinv I st' /\ c_ip st < c_ip st' /\ zlen (c_out st') = zlen (c_out st) /\
        (brk = true -> zlen I - 2 <= c_ip st') /\ htab_ok (c_htab st')
    end.
Proof.
  intros (Hl & Hip & Hop & bs & r & Ho & Hb & Hd & Hr) Hbase Hbl Hht Hi Hoff Hoi Ha. unfold emit_match.
  destruct (match_len_spec I (c_ip st - off - 1) (c_ip st)) as (len & Hml & Hlen & Hlen2 & Hag); [lia|lia|done|].
  case_if E0; [exists None; split; [done|]; lia|].
  assert (Hroom : c_op st - b2z (c_lit st =? 0) + 4 < zlen (c_out st)).
  { unfold b2z in *. apply andb_false_iff in E0 as [E0|E0]; bool_hyps; [|lia]. case_if E1; lia. }
  destruct (close_run I st bs r ltac:(lia) Hip Ho Hb Hd) as (out & bs' & r' & Hst & Hout & Hzb & Hd2 & Hz).
  { destruct (decide (c_lit st = 0)) as [Hz|Hz]; [left; split; [done|]|right; split; [lia|]; destruct Hr; [lia|done]].
    intros ->. rewrite Ho, app_nil_r in Hroom. rewrite Hz in *. simpl in *. lia. }
  rewrite Hst. bnd. cbv zeta in Hml. rewrite Hml. bnd. rewrite <- Hzb, Hout.
  destruct (write_ref bs' r' off (len - 2)) as (r2 & Hw & Hz2).
  { rewrite <- Hz, Hout, zlen_app in Hroom. lia. }
  revert Hw. destruct (if len - 2 <? 7 then _ else _) as [[o1 p1]|]; bnd; [|done].
  destruct (st8 o1 p1 (u8 off)) as [o2|]; bnd; [|done]. intros [= -> Hp1].
  assert (Hcinv : forall hv ht, cinv I (mkC (c_ip st + len) (p1 + 1 + 1) 0 hv ht ((bs' ++ ref_bytes off (len - 2)) ++ r2))).
  { intros hv ht. rewrite Hp1. split_and!; try (cbn [c_ip c_op c_lit]; lia).
    - cbn [c_ip c_op c_lit]. rewrite zlen_app, Hzb. unfold ref_bytes, b2z. case_if E; case_if E2;
        rewrite ?zlen_cons; change (@zlen Z []) with 0; lia.
    - exists (bs' ++ ref_bytes off (len - 2)), r2. cbn [c_ip c_op c_lit c_out]. rewrite !Z.sub_0_r.
      split_and!; [done|lia| |by left].
      rewrite take_slice by lia. apply (dec_ref bs' _ _ off (len - 2)); try done; try lia.
      + unfold zlen. rewrite length_take. unfold zlen in Hip. lia.
      + rewrite zlen_slice by lia. lia.
      + apply agree_repeats; try done; lia. }
  replace (c_ip st + 1 + (len - 2 + 1)) with (c_ip st + len) by lia.
  case_if E.
  { eexists. split; [done|]. split_and!; [apply Hcinv|cbn [c_ip]; lia|cbn [c_out]; congruence|intros _; cbn [c_ip]; lia|done]. }
  destruct (FRST_spec I (c_ip st + len - 1 - 1)) as [h1 ->]; [lia..|]. bnd.
  destruct (NEXT_spec I h1 (c_ip st + len - 1 - 1)) as [h2 ->]; [lia..|]. bnd.
  destruct (NEXT_spec I h2 (c_ip st + len - 1 - 1 + 1)) as [h3 ->]; [lia..|]. bnd.
  replace (c_ip st + len - 1 - 1 + 1 + 1) with (c_ip st + len) by lia.
  eexists. split; [done|]. split_and!; [apply Hcinv|cbn [c_ip]; lia|cbn [c_out]; congruence|done|]. cbn [c_htab].
  repeat apply htab_set_ok; try done; lia.
Qed.

(** ** The loops *)

Lemma compress_loop_spec fuel I base st : cinv I st -> 8192 <= base -> base + zlen I < 2 ^ 64 ->
  htab_ok (c_htab st) -> zlen I - c_ip st <= Z.of_nat fuel ->
  exists r, compress_loop fuel I base (zlen (c_out st)) st = Some r /\
    match r with
    | inl out => zlen out = zlen (c_out st) /\ zlen (c_out st) <= 2 * zlen I + 5
    | inr st' => cinv I st' /\ zlen I - 2 <= c_ip st' /\ zlen (c_out st') = zlen (c_out st)
    end.
Proof.
  revert st. induction fuel as [|fuel IH]; intros st H Hb Hbl Hht Hf; cbn [compress_loop].
  { rewrite (proj2 (Z.ltb_ge _ _)) by lia. eexists. split; [done|]. split; [done|]. split; [lia|done]. }
  case_if E; [|eexists; split; [done|]; split; [done|]; split; [lia|done]].
  assert (Hip : 0 <= c_ip st) by (destruct H; lia).
  destruct (NEXT_spec I (c_hval st) (c_ip st)) as [hv ->]; [lia..|]. bnd. cbn [c_ip c_op c_lit c_hval c_htab c_out].
  set (st1 := mkC (c_ip st) (c_op st) (c_lit st) hv (htab_set (c_htab st) (IDX hv) (base + c_ip st)) (c_out st)).
  assert (H1 : cinv I st1) by exact H.
  assert (Hht1 : htab_ok (c_htab st1)) by (apply htab_set_ok; [done|lia]).
  destruct (match_at_spec I base (c_htab st (IDX hv)) (c_ip st)) as (m & -> & Hm); [done|lia|lia|apply Hht|]. bnd.
  destruct m as [off|].
  - destruct Hm as (? & ? & Ha). destruct (lzf_emit_spec I base st1 off) as (r & Hr & Hres); try done.
    change (c_out st1) with (c_out st) in Hr. rewrite Hr. bnd. destruct r as [[st' brk]|].
    + destruct Hres as (Hi & Hlt & Hz & Hbrk & Hht'). destruct brk.
      * eexists. split; [done|]. split; [done|]. split; [auto|done].
      * change (zlen (c_out st1)) with (zlen (c_out st)) in Hz. rewrite <- Hz. apply IH; try done.
        change (c_ip st1) with (c_ip st) in Hlt. lia.
    + eexists. split; [done|]. split; [done|]. change (c_out st1) with (c_out st) in Hres.
      change (c_ip st1) with (c_ip st) in Hres. lia.
  - case_if E2.
    + eexists. split; [done|]. split; [done|]. destruct H as (? & ? & ? & _). lia.
    + destruct (literal_spec I st1 H1) as (st' & Hs & Hi & Hip' & Hz & _); [simpl; lia|simpl; lia|].
      rewrite Hs. bnd. change (zlen (c_out st1)) with (zlen (c_out st)) in Hz. rewrite <- Hz.
      apply IH; try done.
      * unfold literal in Hs. inv_bind. revert Hs. case_if E3; [|by intros [= <-]].
        unfold flush. intros Hs. inv_bind. done.
      * rewrite Hip'. simpl. lia.
Qed.

Lemma tail_loop_spec fuel I st : cinv I st -> zlen I - c_ip st <= 2 -> zlen I - c_ip st <= Z.of_nat fuel ->
  c_op st + (zlen I - c_ip st) + (if 32 <=? c_lit st + (zlen I - c_ip st) then 1 else 0) <= zlen (c_out st) ->
  exists st', tail_loop fuel I st = Some st' /\ cinv I st' /\ c_ip st' = zlen I /\
    zlen (c_out st') = zlen (c_out st) /\ c_op st' <= zlen (c_out st').
Proof.
  revert st. induction fuel as [|fuel IH]; intros st H Hm Hf Hroom; cbn [tail_loop].
  { assert (c_ip st <= zlen I) by (destruct H as (_ & ? & _); lia).
    rewrite (proj2 (Z.ltb_ge _ _)) by lia. exists st. revert Hroom. case_if E; intros;
      (split; [done|]; split; [done|]; split_and!; lia). }
  case_if E.
  - destruct (literal_spec I st H) as (st' & -> & Hi & Hip & Hz & Hcase); [lia|revert Hroom; case_if E2; lia|]. bnd.
    destruct (IH st' Hi) as (st2 & H2 & H3 & H4 & H5 & H6); [lia|lia| |exists st2; split_and!; try done; congruence].
    rewrite Hz, Hip. destruct Hcase as [[-> ->]|(-> & -> & Hl)]; revert Hroom; repeat case_if E2; lia.
  - exists st. destruct (H) as (? & ? & _). split; [done|]. split; [done|]. split; [lia|]. split; [done|].
    revert Hroom. case_if E2; lia.
Qed.

Lemma decode_all bs I buf : dec_to bs I -> zlen I <= zlen buf ->
  lzf_decompress bs buf = Some (zlen I, I ++ drop (length I) buf).
Proof.
  intros (k & Hk & Hd) Hl. unfold lzf_decompress.
  assert (length I <= length buf)%nat by (unfold zlen in Hl; lia).
  replace (length bs) with (k + (length bs - k))%nat by lia.
  specialize (Hd [] (take (length I) buf) (drop (length I) buf) (length bs - k)%nat).
  rewrite app_nil_r, take_drop in Hd. rewrite Hd by (unfold zlen; rewrite length_take; lia).
  destruct (length bs - k)%nat; cbn [decompress_loop]; by rewrite (proj2 (Z.ltb_ge _ _)) by lia.
Qed.

(** ** Memory safety of the decompressor *)

Lemma copy_lit_safe n inb ip out op : 0 <= ip -> 0 <= op -> ip + Z.of_nat n <= zlen inb -> op + Z.of_nat n <= zlen out ->
  exists out', copy_lit n inb ip out op = Some out' /\ zlen out' = zlen out.
Proof.
  revert ip out op. induction n as [|n IH]; intros ip out op Hi Ho Hin Hout; [by exists out|]. cbn [copy_lit].
  destruct (ld8_is_Some inb ip) as [b ->]; [lia|]. bnd. destruct (st8_is_Some out op b) as [o1 E1]; [lia|]. rewrite E1. bnd.
  apply st8_zlen in E1. rewrite <- E1. apply IH; lia.
Qed.

Lemma copy_ref_safe n out op ref : 0 <= ref < op -> op + Z.of_nat n <= zlen out ->
  exists out', copy_ref n out op ref = Some out' /\ zlen out' = zlen out.
Proof.
  revert out op ref. induction n as [|n IH]; intros out op ref Hr Hout; [by exists out|]. cbn [copy_ref].
  destruct (ld8_is_Some out ref) as [b ->]; [lia|]. bnd. destruct (st8_is_Some out op b) as [o1 E1]; [lia|]. rewrite E1. bnd.
  apply st8_zlen in E1. rewrite <- E1. apply IH; lia.
Qed.

Lemma copy_switch_safe out op ref len : 0 <= ref < op -> 0 <= len -> op + len + 2 <= zlen out ->
  exists out', copy_switch out op ref len = Some out' /\ zlen out' = zlen out.
Proof.
  intros Hr Hl Hout. unfold copy_switch. case_if E; [apply copy_ref_safe; lia|].
  case_if E2; [|apply copy_ref_safe; lia]. destruct (ldn_is_Some out ref (len + 2)) as [bs Eb]; [lia..|]. rewrite Eb. bnd.
  apply ldn_zlen in Eb. destruct (stn_is_Some out op bs) as [o Eo]; [lia..|]. exists o. split; [done|]. by eapply stn_zlen.
Qed.

Lemma step_safe inb ip out op : Forall is_byte inb -> 0 <= ip < zlen inb -> 0 <= op <= zlen out ->
  exists r, decompress_step inb ip out op = Some r /\
    match r with
    | None => True
    | Some (ip', out', op') => ip < ip' <= zlen inb /\ op <= op' <= zlen out' /\ zlen out' = zlen out
    end.
Proof.
  intros Hby Hip Hop. unfold decompress_step. destruct (ld8_is_Some inb ip) as [c Ec]; [lia|]. rewrite Ec. bnd.
  assert (Hbyte : forall p b, ld8 inb p = Some b -> 0 <= b < 256).
  { intros p b Hb. unfold ld8 in Hb. revert Hb. case_if E; [|done]. intros Hb. exact (Forall_lookup_1 _ _ _ _ Hby Hb). }
  pose proof (Hbyte _ _ Ec). case_if E1.
  - case_if E2; [by exists None|]. case_if E3; [by exists None|].
    destruct (copy_lit_safe (Z.to_nat (c + 1)) inb (ip + 1) out op) as (o & -> & Ho); [lia..|]. bnd.
    eexists. split; [done|]. simpl. lia.
  - rewrite Z.shiftr_div_pow2 by lia. change (2 ^ 5) with 32. assert (1 <= c / 32 <= 7) by dlia.
    assert (Hlow : 0 <= Z.shiftl (Z.land c 31) 8).
    { rewrite Z.shiftl_mul_pow2 by lia. change 31 with (Z.ones 5). rewrite Z.land_ones by lia.
      pose proof (Z.mod_pos_bound c (2 ^ 5) ltac:(lia)). lia. }
    case_if E2; [by exists None|].
    assert (Hfin : forall len ip', ip < ip' < zlen inb -> 0 <= len -> exists r,
      (b ← ld8 inb ip'; if zlen out <? op + len + 2 then Some None
       else if op - Z.shiftl (Z.land c 31) 8 - 1 - b <? 0 then Some None
       else out0 ← copy_switch out op (op - Z.shiftl (Z.land c 31) 8 - 1 - b) len;
            Some (Some (ip' + 1, out0, op + (len + 2)))) = Some r /\
      match r with
      | None => True
      | Some (ip', out', op') => ip < ip' <= zlen inb /\ op <= op' <= zlen out' /\ zlen out' = zlen out
      end).
    { intros len ip' Hip' Hl. destruct (ld8_is_Some inb ip') as [b Eb]; [lia|]. rewrite Eb. bnd. pose proof (Hbyte _ _ Eb).
      case_if E3; [by exists None|]. case_if E4; [by exists None|].
      destruct (copy_switch_safe out op (op - Z.shiftl (Z.land c 31) 8 - 1 - b) len) as (o & -> & Ho); [lia..|]. bnd.
      eexists. split; [done|]. simpl. lia. }
    case_if E3.
    + destruct (ld8_is_Some inb (ip + 1)) as [b Eb]; [lia|]. rewrite Eb. bnd. pose proof (Hbyte _ _ Eb).
      case_if E4; bnd; [by exists None|]. apply Hfin; lia.
    + bnd. apply Hfin; lia.
Qed.

Lemma decompress_safe fuel inb ip out op : Forall is_byte inb -> 0 <= ip <= zlen inb -> 0 <= op <= zlen out ->
  zlen inb - ip <= Z.of_nat fuel ->
  exists n out', decompress_loop fuel inb ip out op = Some (n, out') /\ 0 <= n <= zlen out' /\ zlen out' = zlen out.
Proof.
  revert ip out op. induction fuel as [|fuel IH]; intros ip out op Hby Hip Hop Hf; cbn [decompress_loop].
  { rewrite (proj2 (Z.ltb_ge _ _)) by lia. eauto. }
  case_if E; [|eauto]. destruct (step_safe inb ip out op Hby) as (r & -> & Hr); [lia..|]. bnd.
  destruct r as [[[ip' out'] op']|]; [|exists 0, out; split; [done|lia]].
  destruct Hr as (? & ? & Hz). destruct (IH ip' out' op') as (n & o & -> & Hn & Ho); [done|lia..|].
  exists n, o. split; [done|]. split; [done|congruence].
Qed.

(** The round trip, for the clients of the compressor. *)
Lemma lzf_compress_decompress (base : Z) (htab : Z -> Z) (inb out : list Z) :
  2 <= zlen inb -> 8192 <= base -> base + zlen inb < 2 ^ 64 -> htab_ok htab ->
  exists n out', lzf_compress base htab inb out = Some (n, out') /\ zlen out' = zlen out /\
    0 <= n <= zlen out /\ (2 * zlen inb + 6 <= zlen out -> n <> 0) /\
    (n <> 0 -> exists c, ldn out' 0 n = Some c /\
       forall buf, zlen inb <= zlen buf ->
         lzf_decompress c buf = Some (zlen inb, inb ++ drop (length inb) buf)).
Proof.
  intros Hin Hb Hbl Hht. unfold lzf_compress. pose proof (zlen_nonneg out).
  case_if E0. { exists 0, out. split; [done|]. split_and!; try done; lia. }
  destruct (FRST_spec inb 0) as [hv ->]; [lia..|]. bnd.
  assert (Hinit : cinv inb (mkC 0 1 0 hv htab out)).
  { split_and!; try (cbn [c_lit c_ip c_op]; lia). exists [], out. split_and!; [done..|apply dec_nil|by left]. }
  destruct (compress_loop_spec (length inb) inb base _ Hinit Hb Hbl Hht ltac:(simpl; unfold zlen; lia)) as (r & Hr & Hres).
  cbn [c_out] in Hr, Hres. rewrite Hr. bnd. destruct r as [o|st].
  { exists 0, o. split; [done|]. split_and!; try done; lia. }
  destruct Hres as (Hi & Hip & Hz). assert (Hi' := Hi). destruct Hi' as (Hl & Hle & Hop & _).
  case_if E1. { exists 0, (c_out st). split; [done|]. split_and!; try done; lia. }
  destruct (tail_loop_spec (length inb) inb st Hi) as (st2 & -> & Hi2 & Hip2 & Hz2 & Hop2); [lia|unfold zlen in *; lia|case_if E2; lia|].
  bnd. destruct Hi2 as (Hl2 & Hle2 & Hob & bs & r & Ho & Hbs & Hd & Hrr).
  destruct (close_run inb st2 bs r ltac:(lia) Hle2 Ho Hbs Hd) as (o & bs' & r' & -> & Hout & Hzb & Hd2 & Hzo).
  { destruct (decide (c_lit st2 = 0)) as [Hz0|Hz0]; [left; split; [done|]|right; split; [lia|]; destruct Hrr; [lia|done]].
    intros ->. rewrite Ho, app_nil_r in Hop2. lia. }
  bnd. eexists _, o. split; [done|]. rewrite <- Hzb.
  assert (zlen bs' <= zlen out) by (rewrite <- Hz, <- Hz2, <- Hzo, Hout, zlen_app; pose proof (zlen_nonneg r'); lia).
  rewrite Hip2 in Hd2. replace (take (Z.to_nat (zlen inb)) inb) with inb in Hd2
    by (unfold zlen; rewrite Nat2Z.id, firstn_all; done).
  assert (zlen bs' <> 0).
  { intros Hb0. destruct bs'; [|rewrite zlen_cons in Hb0; pose proof (zlen_nonneg bs'); lia].
    pose proof (decode_all [] inb inb Hd2 ltac:(lia)) as HD. unfold lzf_decompress in HD. simpl in HD. injection HD. lia. }
  split_and!; try done; [congruence|auto with redis|]. intros _. exists bs'. split.
  - rewrite Hout. by apply (ldn_at' _ [] bs' r').
  - intros buf Hbuf. by apply decode_all.
Qed.

(** ** Properties *)

(** C18: Round trip: for every input of at least two bytes, every output
    buffer, every (uninitialised) content of the hash table and every
    address of the input above the first two pages, [lzf_compress] returns;
    when it returns 0 the output did not fit, which cannot happen with
    [2 * in_len + 6] bytes of room; otherwise the compressed bytes
    decompress, into any buffer large enough, to exactly the input. *)
Theorem lzf_roundtrip (base : Z) (htab : Z -> Z) (inb out : list Z) :
  2 <= zlen inb -> 8192 <= base -> base + zlen inb < 2 ^ 64 -> htab_ok htab ->
  exists n out', lzf_compress base htab inb out = Some (n, out') /\ zlen out' = zlen out /\
    0 <= n <= zlen out /\ (2 * zlen inb + 6 <= zlen out -> n <> 0) /\
    (n <> 0 -> exists c, ldn out' 0 n = Some c /\
       forall buf, zlen inb <= zlen buf ->
         lzf_decompress c buf = Some (zlen inb, inb ++ drop (length inb) buf)).
Proof. apply lzf_compress_decompress. Qed.

(** C19: Whatever bytes it is given, [lzf_decompress] returns and never
    reads or writes outside its two buffers. *)
Theorem lzf_decompress_safe (inb out : list Z) : Forall is_byte inb ->
  exists n out', lzf_decompress inb out = Some (n, out') /\ 0 <= n <= zlen out /\ zlen out' = zlen out.
Proof.
  intros Hby. pose proof (zlen_nonneg inb). pose proof (zlen_nonneg out).
  destruct (decompress_safe (length inb) inb 0 out 0 Hby) as (n & o & Hd & Hn & Ho); [lia|lia|unfold zlen; lia|].
  exists n, o. rewrite <- Ho. done.
Qed.

(** ** Examples *)

Definition lzf_ex : list Z := bytes_of "abcabcabcabcabcabcabcabcabcabcabcabcabcabcxyz"%string.

Lemma lzf_roundtrip_witness :
  exists n out', lzf_compress 8192 (fun _ => 0) lzf_ex (replicate 96 0) = Some (n, out') /\ zlen out' = 96 /\
    0 <= n <= 96 /\ (96 <= 96 -> n <> 0) /\
    (n <> 0 -> exists c, ldn out' 0 n = Some c /\
       forall buf, 45 <= zlen buf -> lzf_decompress c buf = Some (45, lzf_ex ++ drop 45 buf)).
Proof. apply (lzf_roundtrip 8192 (fun _ => 0) lzf_ex (replicate 96 0)); [done..|intros i; lia]. Defined.

Lemma lzf_decompress_safe_witness :
  exists n out', lzf_decompress [224; 255; 0; 7] [1; 2; 3] = Some (n, out') /\ 0 <= n <= 3 /\ zlen out' = 3.
Proof. apply (lzf_decompress_safe [224; 255; 0; 7] [1; 2; 3]). repeat constructor; lia. Defined.

End Lzf.

