(* ===== verification/Rdb.v ===== *)
(** * Strings and lengths in the RDB format
    (src/redis-stable/src/rdb.c and rdb.h, with rio.h and the buffer target of
    rio.c)

    A [rio] is a stream over a backend; the backend is an interface
    ([Backend], [Reliable]) that the in-memory buffer of rio.c implements, and
    the theorems about the format are proved against the interface.  Saving
    functions return what the code returns (a count of bytes, or -1) and the
    new stream; the stream is optional because the code accepts NULL to only
    count bytes.  Loading functions return [None] for the null pointer.  The
    outer option is [None] where a callee would go out of bounds, which the
    theorems exclude.  Strings are compressed with the LZF model of Lzf.v and
    integers printed and parsed with Util.v; the address of the input and the
    uninitialised memory that the compressor sees are arguments. *)
From stdpp Require Import base list.
From S2P Require Import Prelude Util Lzf.
Import Util Lzf.

Module Rdb.

(** ** Streams (rio.h) *)

Definition RIO_FLAG_READ_ERROR : Z := 1.
Definition RIO_FLAG_WRITE_ERROR : Z := 2.

(** The read and write methods of a stream; [None] is a return value of 0. *)
Class Backend (B : Type) := {
  bwrite : list Z -> B -> option B;
  bread : Z -> B -> option (list Z * B) }.

(** A backend that does not fail: what is written is appended to the contents,
    and reading takes from what remains. *)
Class Reliable (B : Type) `{Backend B} := {
  contents : B -> list Z;
  remaining : B -> list Z;
  bwrite_ok bs b : exists b', bwrite bs b = Some b' /\ contents b' = contents b ++ bs;
  bread_ok n b : 0 < n <= zlen (remaining b) ->
    exists b', bread n b = Some (take (Z.to_nat n) (remaining b), b') /\ remaining b' = drop (Z.to_nat n) (remaining b);
  bread_end n b : zlen (remaining b) < n -> bread n b = None }.

Section rio.
Context {B : Type} `{Backend B}.

Record rio := mkRio {
  io : B; update_cksum : option (Z -> list Z -> Z); cksum : Z; flags : Z;
  processed_bytes : Z; max_processing_chunk : Z }.

Definition chunk_of (r : rio) (len : Z) : Z :=
  if negb (max_processing_chunk r =? 0) && (max_processing_chunk r <? len) then max_processing_chunk r else len.
Definition add_cksum (r : rio) (bs : list Z) : Z :=
  match update_cksum r with Some f => f (cksum r) bs | None => cksum r end.

(** [while (len)]; every iteration handles at least one byte. *)
Fixpoint rioWrite_loop (fuel : nat) (r : rio) (buf : list Z) : bool * rio :=
  match buf, fuel with
  | [], _ => (true, r)
  | _, O => (false, r)
  | _, S fuel =>
      let n := chunk_of r (zlen buf) in
      let now := take (Z.to_nat n) buf in
      let r := mkRio (io r) (update_cksum r) (add_cksum r now) (flags r) (processed_bytes r) (max_processing_chunk r) in
      match bwrite now (io r) with
      | None => (false, mkRio (io r) (update_cksum r) (cksum r) (Z.lor (flags r) RIO_FLAG_WRITE_ERROR)
                          (processed_bytes r) (max_processing_chunk r))
      | Some b => rioWrite_loop fuel (mkRio b (update_cksum r) (cksum r) (flags r) (u64 (processed_bytes r + n))
                                        (max_processing_chunk r)) (drop (Z.to_nat n) buf)
      end
  end.

Definition rioWrite (r : rio) (buf : list Z) : bool * rio :=
  if negb (Z.land (flags r) RIO_FLAG_WRITE_ERROR =? 0) then (false, r) else rioWrite_loop (length buf) r buf.

(** The bytes read, or nothing on error. *)
Fixpoint rioRead_loop (fuel : nat) (r : rio) (len : Z) (acc : list Z) : option (list Z) * rio :=
  if len =? 0 then (Some acc, r)
  else match fuel with
  | O => (None, r)
  | S fuel =>
      let n := chunk_of r len in
      match bread n (io r) with
      | None => (None, mkRio (io r) (update_cksum r) (cksum r) (Z.lor (flags r) RIO_FLAG_READ_ERROR)
                         (processed_bytes r) (max_processing_chunk r))
      | Some (bs, b) =>
          rioRead_loop fuel (mkRio b (update_cksum r) (add_cksum r bs) (flags r) (u64 (processed_bytes r + n))
                               (max_processing_chunk r)) (len - n) (acc ++ bs)
      end
  end.

Definition rioRead (r : rio) (len : Z) : option (list Z) * rio :=
  if negb (Z.land (flags r) RIO_FLAG_READ_ERROR =? 0) then (None, r) else rioRead_loop (Z.to_nat len) r len [].

(** ** The format (rdb.h) *)

Definition RDB_6BITLEN : Z := 0.
Definition RDB_14BITLEN : Z := 1.
Definition RDB_32BITLEN : Z := 0x80.
Definition RDB_64BITLEN : Z := 0x81.
Definition RDB_ENCVAL : Z := 3.
Definition RDB_LENERR : Z := UINT64_MAX.
Definition RDB_ENC_INT8 : Z := 0.
Definition RDB_ENC_INT16 : Z := 1.
Definition RDB_ENC_INT32 : Z := 2.
Definition RDB_ENC_LZF : Z := 3.
Definition RDB_LOAD_NONE : Z := 0.
Definition RDB_LOAD_ENC : Z := 1.
Definition RDB_LOAD_PLAIN : Z := 2.
Definition RDB_LOAD_SDS : Z := 4.

(** Network byte order. *)
Definition be_enc (n : nat) (v : Z) : list Z := rev (le_enc n v).
Definition be_dec (bs : list Z) : Z := le_dec (rev bs).

(** A string object: an integer, or the bytes of an sds. *)
Inductive robj := ObjInt (v : Z) | ObjStr (s : list Z).

(** What the loading functions return, according to the flags. *)
Inductive loaded := LPlain (s : list Z) | LSds (s : list Z) | LObj (o : robj).

(** ** Saving *)

Definition rdbWriteRaw (rdb : option rio) (p : list Z) : Z * option rio :=
  match rdb with
  | None => (zlen p, None)
  | Some r => let '(ok, r) := rioWrite r p in (if (ok : bool) then zlen p else -1, Some r)
  end.

Definition rdbSaveType (rdb : option rio) (type : Z) : Z * option rio := rdbWriteRaw rdb [u8 type].

Definition rdbSaveMillisecondTime (rdb : option rio) (t : Z) : Z * option rio := rdbWriteRaw rdb (le_enc 8 t).

Definition rdbSaveLen (rdb : option rio) (len : Z) : Z * option rio :=
  if len <? Z.shiftl 1 6 then
    let '(n, rdb) := rdbWriteRaw rdb [Z.lor (Z.land len 0xFF) (Z.shiftl RDB_6BITLEN 6)] in
    (if n =? -1 then -1 else 1, rdb)
  else if len <? Z.shiftl 1 14 then
    let '(n, rdb) := rdbWriteRaw rdb [Z.lor (Z.land (Z.shiftr len 8) 0xFF) (Z.shiftl RDB_14BITLEN 6); Z.land len 0xFF] in
    (if n =? -1 then -1 else 2, rdb)
  else if len <=? UINT32_MAX then
    let '(n, rdb) := rdbWriteRaw rdb [RDB_32BITLEN] in
    if n =? -1 then (-1, rdb)
    else let '(n, rdb) := rdbWriteRaw rdb (be_enc 4 len) in (if n =? -1 then -1 else 1 + 4, rdb)
  else
    let '(n, rdb) := rdbWriteRaw rdb [RDB_64BITLEN] in
    if n =? -1 then (-1, rdb)
    else let '(n, rdb) := rdbWriteRaw rdb (be_enc 8 len) in (if n =? -1 then -1 else 1 + 8, rdb).

(** The bytes of [enc]; none for a return value of 0. *)
Definition rdbEncodeInteger (value : Z) : list Z :=
  if (- Z.shiftl 1 7 <=? value) && (value <=? Z.shiftl 1 7 - 1) then
    [Z.lor (Z.shiftl RDB_ENCVAL 6) RDB_ENC_INT8; Z.land value 0xFF]
  else if (- Z.shiftl 1 15 <=? value) && (value <=? Z.shiftl 1 15 - 1) then
    [Z.lor (Z.shiftl RDB_ENCVAL 6) RDB_ENC_INT16; Z.land value 0xFF; Z.land (Z.shiftr value 8) 0xFF]
  else if (- Z.shiftl 1 31 <=? value) && (value <=? Z.shiftl 1 31 - 1) then
    [Z.lor (Z.shiftl RDB_ENCVAL 6) RDB_ENC_INT32; Z.land value 0xFF; Z.land (Z.shiftr value 8) 0xFF;
     Z.land (Z.shiftr value 16) 0xFF; Z.land (Z.shiftr value 24) 0xFF]
  else [].

Definition rdbTryIntegerEncoding (s : list Z) : list Z :=
  match string2ll s with Some value => rdbEncodeInteger value | None => [] end.

Definition rdbSaveLzfBlob (rdb : option rio) (data : list Z) (original_len : Z) : Z * option rio :=
  let '(n, rdb) := rdbWriteRaw rdb [Z.lor (Z.shiftl RDB_ENCVAL 6) RDB_ENC_LZF] in
  if n =? -1 then (-1, rdb) else
  let nwritten := n in
  let '(n, rdb) := rdbSaveLen rdb (zlen data) in
  if n =? -1 then (-1, rdb) else
  let nwritten := nwritten + n in
  let '(n, rdb) := rdbSaveLen rdb original_len in
  if n =? -1 then (-1, rdb) else
  let nwritten := nwritten + n in
  let '(n, rdb) := rdbWriteRaw rdb data in
  if n =? -1 then (-1, rdb) else (nwritten + n, rdb).

(** The environment of the saving functions: [server.rdb_compression], and
    what the compressor sees of memory. *)
Record save_env := mkEnv { rdb_compression : bool; in_address : Z; htab0 : Z -> Z; junk : Z }.

Definition rdbSaveLzfStringObject (env : save_env) (rdb : option rio) (s : list Z) : option (Z * option rio) :=
  if zlen s <=? 4 then Some (0, rdb)
  else
    let out := repeat (junk env) (Z.to_nat (zlen s - 4)) in
    '(comprlen, out) ← lzf_compress (in_address env) (htab0 env) s out;
    if comprlen =? 0 then Some (0, rdb)
    else data ← ldn out 0 comprlen; Some (rdbSaveLzfBlob rdb data (zlen s)).

Definition rdbSaveRawString (env : save_env) (rdb : option rio) (s : list Z) : option (Z * option rio) :=
  let enc := if zlen s <=? 11 then rdbTryIntegerEncoding s else [] in
  if 0 <? zlen enc then
    let '(n, rdb) := rdbWriteRaw rdb enc in Some (if n =? -1 then -1 else zlen enc, rdb)
  else
    '(n, rdb) ← (if rdb_compression env && (20 <? zlen s) then rdbSaveLzfStringObject env rdb s else Some (0, rdb));
    if n =? -1 then Some (-1, rdb)
    else if 0 <? n then Some (n, rdb)
    else
      let '(n, rdb) := rdbSaveLen rdb (zlen s) in
      if n =? -1 then Some (-1, rdb)
      else if 0 <? zlen s then
        let '(n2, rdb) := rdbWriteRaw rdb s in
        if n2 =? -1 then Some (-1, rdb) else Some (n + zlen s, rdb)
      else Some (n, rdb).

Definition rdbSaveLongLongAsStringObject (rdb : option rio) (value : Z) : option (Z * option rio) :=
  let enc := rdbEncodeInteger value in
  if 0 <? zlen enc then Some (rdbWriteRaw rdb enc)
  else
    '(enclen, buf) ← ll2string (repeat 0 32) 32 value;
    if negb (enclen <? 32) then None
    else
      str ← ldn buf 0 enclen;
      let '(n, rdb) := rdbSaveLen rdb enclen in
      if n =? -1 then Some (-1, rdb)
      else
        let '(n2, rdb) := rdbWriteRaw rdb str in
        if n2 =? -1 then Some (-1, rdb) else Some (n + n2, rdb).

Definition rdbSaveStringObject (env : save_env) (rdb : option rio) (obj : robj) : option (Z * option rio) :=
  match obj with
  | ObjInt v => rdbSaveLongLongAsStringObject rdb v
  | ObjStr s => rdbSaveRawString env rdb s
  end.

(** ** Loading *)

(** -1 on error. *)
Definition rdbLoadType (r : rio) : Z * rio :=
  let '(buf, r) := rioRead r 1 in
  (match buf with Some [b] => b | _ => -1 end, r).

(** LLONG_MAX on error. *)
Definition rdbLoadMillisecondTime (r : rio) : Z * rio :=
  let '(buf, r) := rioRead r 8 in
  (match buf with Some bs => s64 (le_dec bs) | None => LLONG_MAX end, r).

(** [*isencoded] and [*lenptr]; [None] for -1. *)
Definition rdbLoadLenByRef (r : rio) : option (bool * Z) * rio :=
  let '(buf, r) := rioRead r 1 in
  match buf with
  | Some [b0] =>
      let type := Z.shiftr (Z.land b0 0xC0) 6 in
      if type =? RDB_ENCVAL then (Some (true, Z.land b0 0x3F), r)
      else if type =? RDB_6BITLEN then (Some (false, Z.land b0 0x3F), r)
      else if type =? RDB_14BITLEN then
        let '(buf, r) := rioRead r 1 in
        match buf with
        | Some [b1] => (Some (false, Z.lor (Z.shiftl (Z.land b0 0x3F) 8) b1), r)
        | _ => (None, r)
        end
      else if b0 =? RDB_32BITLEN then
        let '(buf, r) := rioRead r 4 in (match buf with Some bs => Some (false, be_dec bs) | None => None end, r)
      else if b0 =? RDB_64BITLEN then
        let '(buf, r) := rioRead r 8 in (match buf with Some bs => Some (false, be_dec bs) | None => None end, r)
      else (None, r)
  | _ => (None, r)
  end.

(** [isencoded] and the length, RDB_LENERR on error. *)
Definition rdbLoadLen (r : rio) : (bool * Z) * rio :=
  let '(res, r) := rdbLoadLenByRef r in
  (match res with None => (false, RDB_LENERR) | Some p => p end, r).

Definition flag_set (flags f : Z) : bool := negb (Z.land flags f =? 0).

(** sdsfromlonglong *)
Definition print_ll (val : Z) : option (list Z) :=
  '(len, buf) ← ll2string (repeat 0 (Z.to_nat LONG_STR_SIZE)) LONG_STR_SIZE val; ldn buf 0 len.

Definition rdbLoadIntegerObject (r : rio) (enctype flags : Z) : option (option loaded * rio) :=
  let '(val, r) :=
    if enctype =? RDB_ENC_INT8 then
      let '(enc, r) := rioRead r 1 in (match enc with Some [e0] => Some (s8 e0) | _ => None end, r)
    else if enctype =? RDB_ENC_INT16 then
      let '(enc, r) := rioRead r 2 in
      (match enc with Some [e0; e1] => Some (s16 (Z.lor e0 (Z.shiftl e1 8))) | _ => None end, r)
    else if enctype =? RDB_ENC_INT32 then
      let '(enc, r) := rioRead r 4 in
      (match enc with
       | Some [e0; e1; e2; e3] =>
           Some (s32 (Z.lor (Z.lor (Z.lor e0 (Z.shiftl e1 8)) (Z.shiftl e2 16)) (Z.shiftl e3 24)))
       | _ => None
       end, r)
    else (None, r) in
  match val with
  | None => Some (None, r)
  | Some val =>
      if flag_set flags RDB_LOAD_PLAIN || flag_set flags RDB_LOAD_SDS then
        s ← print_ll val; Some (Some (if flag_set flags RDB_LOAD_PLAIN then LPlain s else LSds s), r)
      else if flag_set flags RDB_LOAD_ENC then Some (Some (LObj (ObjInt val)), r)
      else s ← print_ll val; Some (Some (LObj (ObjStr s)), r)
  end.

(** Which allocations succeed (ztrymalloc, sdstrynewlen). *)
Context (can_alloc : Z -> bool) (fill : Z).

Definition rdbLoadLzfStringObject (r : rio) (flags : Z) : option (option loaded * rio) :=
  let '((_, clen), r) := rdbLoadLen r in
  if clen =? RDB_LENERR then Some (None, r) else
  let '((_, len), r) := rdbLoadLen r in
  if len =? RDB_LENERR then Some (None, r) else
  if negb (can_alloc clen) then Some (None, r) else
  if negb (can_alloc len) then Some (None, r) else
  let '(c, r) := rioRead r clen in
  match c with
  | None => Some (None, r)
  | Some c =>
      '(n, val) ← lzf_decompress c (repeat fill (Z.to_nat len));
      if negb (n =? len) then Some (None, r)
      else Some (Some (if flag_set flags RDB_LOAD_PLAIN then LPlain val
                       else if flag_set flags RDB_LOAD_SDS then LSds val else LObj (ObjStr val)), r)
  end.

Definition rdbGenericLoadStringObject (r : rio) (flags : Z) : option (option loaded * rio) :=
  let '((isencoded, len), r) := rdbLoadLen r in
  if len =? RDB_LENERR then Some (None, r)
  else if (isencoded : bool) then
    if (len =? RDB_ENC_INT8) || (len =? RDB_ENC_INT16) || (len =? RDB_ENC_INT32) then rdbLoadIntegerObject r len flags
    else if len =? RDB_ENC_LZF then rdbLoadLzfStringObject r flags
    else Some (None, r)
  else if negb (can_alloc len) then Some (None, r)
  else
    let '(buf, r) := if negb (len =? 0) then rioRead r len else (Some [], r) in
    match buf with
    | None => Some (None, r)
    | Some s => Some (Some (if flag_set flags RDB_LOAD_PLAIN then LPlain s
                            else if flag_set flags RDB_LOAD_SDS then LSds s else LObj (ObjStr s)), r)
    end.

Definition rdbLoadStringObject (r : rio) : option (option loaded * rio) := rdbGenericLoadStringObject r RDB_LOAD_NONE.
Definition rdbLoadEncodedStringObject (r : rio) : option (option loaded * rio) := rdbGenericLoadStringObject r RDB_LOAD_ENC.

End rio.

(** ** The in-memory buffer (rio.c) *)

Record buffer := mkBuffer { ptr : list Z; pos : Z }.

Definition rioBufferWrite (buf : list Z) (b : buffer) : option buffer := Some (mkBuffer (ptr b ++ buf) (pos b + zlen buf)).
Definition rioBufferRead (len : Z) (b : buffer) : option (list Z * buffer) :=
  if zlen (ptr b) - pos b <? len then None
  else bs ← ldn (ptr b) (pos b) len; Some (bs, mkBuffer (ptr b) (pos b + len)).

#[export] Instance buffer_backend : Backend buffer := { bwrite := rioBufferWrite; bread := rioBufferRead }.

Definition rioInitWithBuffer (s : list Z) : rio := mkRio (mkBuffer s 0) None 0 0 0 0.

Section rdb_proofs.
Context {B : Type} {HBackend : Backend B} {HReliable : Reliable B}.
Implicit Types (r : @rio B) (rdb : option (@rio B)) (bs enc : list Z).

(** ** Reading and writing streams *)

Definition can_write r : Prop := Z.land (flags r) RIO_FLAG_WRITE_ERROR = 0 /\ 0 <= max_processing_chunk r.
Definition can_read r : Prop := Z.land (flags r) RIO_FLAG_READ_ERROR = 0 /\ 0 <= max_processing_chunk r.

Lemma chunk_bounds r n : 0 <= max_processing_chunk r -> 0 < n -> 0 < chunk_of r n <= n.
Proof. intros. unfold chunk_of. case_match; bool_hyps; lia. Qed.

Lemma rioWrite_loop_ok fuel : forall r bs, can_write r -> (length bs <= fuel)%nat ->
  exists r', rioWrite_loop fuel r bs = (true, r') /\ can_write r' /\ contents (io r') = contents (io r) ++ bs.
Proof.
  induction fuel as [|fuel IH]; intros r [|c bs] Hw Hf; try (simpl in Hf; lia); cbn [rioWrite_loop];
    try (exists r; rewrite app_nil_r; done).
  set (buf := c :: bs) in *. pose proof (chunk_bounds r (zlen buf) (proj2 Hw)) as Hn.
  destruct Hn as [Hn1 Hn2]; [unfold buf; rewrite zlen_cons; pose proof (zlen_nonneg bs); lia|].
  set (n := chunk_of r (zlen buf)) in *. cbn [io].
  destruct (bwrite_ok (take (Z.to_nat n) buf) (io r)) as (b' & -> & Hc).
  set (r1 := mkRio b' _ _ _ _ _). destruct (IH r1 (drop (Z.to_nat n) buf)) as (r' & -> & Hw' & Hc').
  - done.
  - rewrite length_drop. unfold zlen in *. lia.
  - exists r'. split; [done|]. split; [done|]. rewrite Hc'. cbn [io r1]. by rewrite Hc, <- app_assoc, take_drop.
Qed.

Lemma rioWrite_ok r bs : can_write r ->
  exists r', rioWrite r bs = (true, r') /\ can_write r' /\ contents (io r') = contents (io r) ++ bs.
Proof. intros Hw. unfold rioWrite. rewrite (proj1 Hw). by apply rioWrite_loop_ok. Qed.

Lemma rioRead_loop_ok fuel : forall r bs rest acc, can_read r -> remaining (io r) = bs ++ rest -> (length bs <= fuel)%nat ->
  exists r', rioRead_loop fuel r (zlen bs) acc = (Some (acc ++ bs), r') /\ can_read r' /\ remaining (io r') = rest.
Proof.
  induction fuel as [|fuel IH]; intros r bs rest acc Hr Hrem Hf; cbn [rioRead_loop];
    (destruct (Z.eqb_spec (zlen bs) 0) as [E|E];
      [assert (bs = []) as -> by (destruct bs; [done|rewrite zlen_cons in E; pose proof (zlen_nonneg bs); lia]);
       exists r; by rewrite app_nil_r|]).
  - destruct bs; [done|simpl in Hf; lia].
  - pose proof (chunk_bounds r (zlen bs) (proj2 Hr)) as Hn. pose proof (zlen_nonneg bs).
    destruct Hn as [Hn1 Hn2]; [lia|]. set (n := chunk_of r (zlen bs)) in *.
    destruct (bread_ok n (io r)) as (b' & -> & Hb); [rewrite Hrem, zlen_app; pose proof (zlen_nonneg rest); lia|].
    assert (Ht : take (Z.to_nat n) (bs ++ rest) = take (Z.to_nat n) bs) by (apply take_app_le; unfold zlen in *; lia).
    assert (Hd : drop (Z.to_nat n) (bs ++ rest) = drop (Z.to_nat n) bs ++ rest) by (apply drop_app_le; unfold zlen in *; lia).
    rewrite Hrem, Ht. rewrite Hrem, Hd in Hb.
    set (r1 := mkRio b' _ _ _ _ _).
    replace (zlen bs - n) with (zlen (drop (Z.to_nat n) bs)) by (unfold zlen in *; rewrite length_drop; lia).
    destruct (IH r1 (drop (Z.to_nat n) bs) rest (acc ++ take (Z.to_nat n) bs)) as (r' & -> & ? & ?).
    + done.
    + done.
    + rewrite length_drop. unfold zlen in *. lia.
    + exists r'. by rewrite <- app_assoc, take_drop.
Qed.

Lemma rioRead_ok r n bs rest : can_read r -> remaining (io r) = bs ++ rest -> n = zlen bs ->
  exists r', rioRead r n = (Some bs, r') /\ can_read r' /\ remaining (io r') = rest.
Proof.
  intros Hr Hrem ->. unfold rioRead. rewrite (proj1 Hr). simpl.
  apply (rioRead_loop_ok _ r bs rest []); [done|done|unfold zlen; lia].
Qed.

(** The saving functions write [enc], to a stream or only counting. *)
Definition okw rdb : Prop := match rdb with Some r => can_write r | None => True end.
Definition appended rdb rdb' enc : Prop :=
  match rdb, rdb' with
  | Some r, Some r' => contents (io r') = contents (io r) ++ enc
  | None, None => True
  | _, _ => False
  end.

Lemma appended_trans a b c e1 e2 : appended a b e1 -> appended b c e2 -> appended a c (e1 ++ e2).
Proof. destruct a, b, c; simpl; try done. intros H1 H2. by rewrite H2, H1, app_assoc. Qed.

Lemma rdbWriteRaw_ok rdb bs : okw rdb ->
  exists rdb', rdbWriteRaw rdb bs = (zlen bs, rdb') /\ okw rdb' /\ appended rdb rdb' bs.
Proof.
  intros Hw. destruct rdb as [r|]; simpl; [|by exists None].
  destruct (rioWrite_ok r bs Hw) as (r' & -> & ? & ?). by exists (Some r').
Qed.

(** ** Lengths *)

Definition len_enc (len : Z) : list Z :=
  if len <? 64 then [len]
  else if len <? 16384 then [64 + len / 256; len mod 256]
  else if len <=? UINT32_MAX then RDB_32BITLEN :: be_enc 4 len
  else RDB_64BITLEN :: be_enc 8 len.

Lemma land_FF x : Z.land x 0xFF = x mod 256.
Proof. change 0xFF with (Z.ones 8). by rewrite Z.land_ones. Qed.

Lemma land_3F x : Z.land x 0x3F = x mod 64.
Proof. change 0x3F with (Z.ones 6). by rewrite Z.land_ones. Qed.

(** The two high bits of a byte. *)
Lemma type_bits b : 0 <= b < 256 -> Z.shiftr (Z.land b 0xC0) 6 = b / 64.
Proof.
  intros Hb. change 0xC0 with (Z.shiftl (Z.ones 2) 6). rewrite Z.shiftr_land.
  rewrite Z.shiftr_shiftl_l by lia. change (6 - 6) with 0. rewrite Z.shiftl_0_r, Z.land_ones, Z.shiftr_div_pow2 by lia.
  change (2 ^ 6) with 64. change (2 ^ 2) with 4. apply Z.mod_small. dlia.
Qed.


Lemma len_enc_first len : 0 <= len -> (len < 64 -> Z.lor (Z.land len 0xFF) (Z.shiftl RDB_6BITLEN 6) = len) /\
  (len < 16384 -> Z.lor (Z.land (Z.shiftr len 8) 0xFF) (Z.shiftl RDB_14BITLEN 6) = 64 + len / 256).
Proof.
  intros H0. rewrite land_FF, land_FF, Z.shiftr_div_pow2 by lia. change (2 ^ 8) with 256. split; intros Hl.
  - rewrite Z.lor_0_r. apply Z.mod_small. lia.
  - rewrite (shiftl_lor_add _ RDB_14BITLEN 6 6); unfold RDB_14BITLEN; change (2 ^ 6) with 64; try lia; dlia.
Qed.

Lemma zlen_be_enc n v : zlen (be_enc n v) = Z.of_nat n.
Proof. unfold be_enc, zlen. by rewrite length_rev, length_le_enc. Qed.

Lemma be_dec_enc n v : 0 <= v < 256 ^ Z.of_nat n -> be_dec (be_enc n v) = v.
Proof. intros Hv. unfold be_dec, be_enc. rewrite rev_involutive, le_dec_enc. by apply Z.mod_small. Qed.

(** Writing in two pieces. *)
Lemma write_two rdb e1 e2 (n1 n2 : Z) : okw rdb -> zlen e1 = n1 -> zlen e2 = n2 ->
  exists rdb', (let '(n, rdb) := rdbWriteRaw rdb e1 in
                if n =? -1 then (-1, rdb)
                else let '(n, rdb) := rdbWriteRaw rdb e2 in (if n =? -1 then -1 else n1 + n2, rdb)) = (zlen (e1 ++ e2), rdb') /\
    okw rdb' /\ appended rdb rdb' (e1 ++ e2).
Proof.
  intros Hw <- <-. destruct (rdbWriteRaw_ok rdb e1 Hw) as (rdb1 & -> & Hw1 & A1).
  destruct (Z.eqb_spec (zlen e1) (-1)); [pose proof (zlen_nonneg e1); lia|].
  destruct (rdbWriteRaw_ok rdb1 e2 Hw1) as (rdb2 & -> & Hw2 & A2).
  destruct (Z.eqb_spec (zlen e2) (-1)); [pose proof (zlen_nonneg e2); lia|].
  exists rdb2. rewrite zlen_app. split; [done|]. split; [done|]. by eapply appended_trans.
Qed.

Lemma rdbSaveLen_ok rdb len : okw rdb -> 0 <= len ->
  exists rdb', rdbSaveLen rdb len = (zlen (len_enc len), rdb') /\ okw rdb' /\ appended rdb rdb' (len_enc len).
Proof.
  intros Hw H0. unfold rdbSaveLen, len_enc. destruct (len_enc_first len H0) as [E6 E14].
  change (Z.shiftl 1 6) with 64. change (Z.shiftl 1 14) with 16384.
  destruct (Z.ltb_spec len 64); [rewrite E6 by done|destruct (Z.ltb_spec len 16384); [rewrite E14, land_FF by done|]].
  - destruct (rdbWriteRaw_ok rdb [len] Hw) as (rdb' & -> & ? & ?). by exists rdb'.
  - destruct (rdbWriteRaw_ok rdb [64 + len / 256; len mod 256] Hw) as (rdb' & -> & ? & ?). by exists rdb'.
  - destruct (len <=? UINT32_MAX).
    + apply (write_two rdb [RDB_32BITLEN] (be_enc 4 len) 1 4); [done|done|apply zlen_be_enc].
    + apply (write_two rdb [RDB_64BITLEN] (be_enc 8 len) 1 8); [done|done|apply zlen_be_enc].
Qed.

Lemma rdbLoadLenByRef_ok r len rest : can_read r -> 0 <= len <= UINT64_MAX -> remaining (io r) = len_enc len ++ rest ->
  exists r', rdbLoadLenByRef r = (Some (false, len), r') /\ can_read r' /\ remaining (io r') = rest.
Proof.
  intros Hr Hl. unfold rdbLoadLenByRef, len_enc. unfold UINT64_MAX in Hl.
  destruct (Z.ltb_spec len 64); [|destruct (Z.ltb_spec len 16384); [|destruct (Z.leb_spec len UINT32_MAX)]]; intros Hrem.
  - destruct (rioRead_ok r 1 [len] rest Hr Hrem eq_refl) as (r' & -> & ? & ?). rewrite type_bits, land_3F by lia.
    replace (len / 64) with 0 by dlia. replace (len mod 64) with len by dlia. by exists r'.
  - destruct (rioRead_ok r 1 [64 + len / 256] (len mod 256 :: rest) Hr Hrem eq_refl) as (r1 & -> & Hr1 & Hrem1).
    rewrite type_bits, land_3F by dlia. replace ((64 + len / 256) / 64) with 1 by dlia. simpl.
    destruct (rioRead_ok r1 1 [len mod 256] rest Hr1 Hrem1 eq_refl) as (r' & -> & ? & ?). exists r'. split; [|done].
    rewrite Z.lor_comm, (shiftl_lor_add _ _ 8 8) by dlia. do 3 f_equal. dlia.
  - destruct (rioRead_ok r 1 [RDB_32BITLEN] (be_enc 4 len ++ rest) Hr Hrem eq_refl) as (r1 & -> & Hr1 & Hrem1). simpl.
    destruct (rioRead_ok r1 4 _ rest Hr1 Hrem1 (eq_sym (zlen_be_enc 4 len))) as (r' & -> & ? & ?). exists r'. split; [|done].
    by rewrite be_dec_enc by (unfold UINT32_MAX in *; lia).
  - destruct (rioRead_ok r 1 [RDB_64BITLEN] (be_enc 8 len ++ rest) Hr Hrem eq_refl) as (r1 & -> & Hr1 & Hrem1). simpl.
    destruct (rioRead_ok r1 8 _ rest Hr1 Hrem1 (eq_sym (zlen_be_enc 8 len))) as (r' & -> & ? & ?). exists r'. split; [|done].
    by rewrite be_dec_enc by lia.
Qed.

Lemma rdbLoadLen_ok r len rest : can_read r -> 0 <= len < UINT64_MAX -> remaining (io r) = len_enc len ++ rest ->
  exists r', rdbLoadLen r = ((false, len), r') /\ can_read r' /\ remaining (io r') = rest.
Proof.
  intros Hr Hl Hrem. unfold rdbLoadLen. destruct (rdbLoadLenByRef_ok r len rest Hr ltac:(lia) Hrem) as (r' & -> & ? & ?). eauto.
Qed.

(** ** Special encodings *)

Lemma rdbLoadLen_enc r kind rest : can_read r -> 0 <= kind < 64 -> remaining (io r) = (192 + kind) :: rest ->
  exists r', rdbLoadLen r = ((true, kind), r') /\ can_read r' /\ remaining (io r') = rest.
Proof.
  intros Hr Hk Hrem. unfold rdbLoadLen, rdbLoadLenByRef.
  destruct (rioRead_ok r 1 [192 + kind] rest Hr Hrem eq_refl) as (r' & -> & ? & ?).
  rewrite type_bits, land_3F by lia. replace ((192 + kind) / 64) with 3 by dlia. replace ((192 + kind) mod 64) with kind by dlia.
  by exists r'.
Qed.

(** Integers of one, two and four bytes. *)
Definition int_enc (n : nat) (kind v : Z) : list Z := (192 + kind) :: le_enc n v.

Lemma rdbEncodeInteger_eq v : rdbEncodeInteger v =
  if (-128 <=? v) && (v <=? 127) then int_enc 1 0 v
  else if (-32768 <=? v) && (v <=? 32767) then int_enc 2 1 v
  else if (-2147483648 <=? v) && (v <=? 2147483647) then int_enc 4 2 v else [].
Proof.
  unfold rdbEncodeInteger, int_enc. cbn [le_enc]. rewrite !land_FF, !Z.shiftr_div_pow2 by lia.
  rewrite !Z.div_div by lia. done.
Qed.

Lemma le_bytes4 a b c d : is_byte a -> is_byte b -> is_byte c -> is_byte d ->
  Z.lor (Z.lor (Z.lor a (Z.shiftl b 8)) (Z.shiftl c 16)) (Z.shiftl d 24) = le_dec [a; b; c; d].
Proof.
  unfold is_byte. intros. rewrite (shiftl_lor_add a b 8 8) by lia. rewrite (shiftl_lor_add _ c 16 16) by lia.
  rewrite (shiftl_lor_add _ d 24 24) by lia. simpl. lia.
Qed.

Lemma print_ll_ok v : in_s 64 v -> exists s, print_ll v = Some s /\ decimal s v.
Proof.
  intros Hv. unfold print_ll. destruct (ll2string_prints (repeat 0 (Z.to_nat LONG_STR_SIZE)) v Hv) as (s & dst' & E & Hld & Hd & _).
  - done.
  - change (zlen (repeat 0 (Z.to_nat LONG_STR_SIZE))) with LONG_STR_SIZE in E. rewrite E. simpl. eauto.
Qed.

(** The loaded value is the string [s], in the form the flags ask for. *)
Definition represents (fl : Z) (ld : loaded) (s : list Z) : Prop :=
  match ld with
  | LPlain b => flag_set fl RDB_LOAD_PLAIN = true /\ b = s
  | LSds b => flag_set fl RDB_LOAD_PLAIN = false /\ flag_set fl RDB_LOAD_SDS = true /\ b = s
  | LObj o => flag_set fl RDB_LOAD_PLAIN = false /\ flag_set fl RDB_LOAD_SDS = false /\
      match o with ObjStr b => b = s | ObjInt v => flag_set fl RDB_LOAD_ENC = true /\ decimal s v end
  end.

Lemma represents_raw fl s : represents fl (if flag_set fl RDB_LOAD_PLAIN then LPlain s
  else if flag_set fl RDB_LOAD_SDS then LSds s else LObj (ObjStr s)) s.
Proof. destruct (flag_set fl RDB_LOAD_PLAIN) eqn:E1; [by split|]. destruct (flag_set fl RDB_LOAD_SDS) eqn:E2; by split_and!. Qed.

(** The integer read back, sign extended. *)
Lemma s_le n w v : (w = 8 * Z.of_nat n)%Z -> 0 < w -> in_s w v -> swrap w (le_dec (le_enc n v)) = v.
Proof.
  intros Hw Hpos Hv. rewrite le_dec_enc. replace (256 ^ Z.of_nat n) with (2 ^ w) by (rewrite Hw, Z.pow_mul_r by lia; done).
  change (v mod 2 ^ w) with (wrap w v). rewrite swrap_wrap by done. by apply swrap_small.
Qed.

Lemma le_enc_byte n v b : b ∈ le_enc n v -> is_byte b.
Proof. intros Hb. pose proof (le_enc_bytes n v) as HF. rewrite Forall_forall in HF. by apply HF. Qed.

Lemma rdbLoadIntegerObject_ok r kind v rest fl s : can_read r -> decimal s v ->
  (exists n, remaining (io r) = le_enc n v ++ rest /\
    (kind = 0 /\ n = 1%nat /\ in_s 8 v \/ kind = 1 /\ n = 2%nat /\ in_s 16 v \/ kind = 2 /\ n = 4%nat /\ in_s 32 v)) ->
  exists r' ld, rdbLoadIntegerObject r kind fl = Some (Some ld, r') /\ represents fl ld s /\ can_read r' /\ remaining (io r') = rest.
Proof.
  intros Hr Hs (n & Hrem & Hk).
  assert (Hv : in_s 64 v) by (unfold in_s in *; simpl; destruct Hk as [(_ & _ & Hk)|[(_ & _ & Hk)|(_ & _ & Hk)]]; simpl in Hk; lia).
  destruct (rioRead_ok r (Z.of_nat n) (le_enc n v) rest Hr Hrem) as (r' & Hread & Hr' & Hrem'); [by rewrite zlen_le_enc|].
  assert (Hval : rdbLoadIntegerObject r kind fl =
    if flag_set fl RDB_LOAD_PLAIN || flag_set fl RDB_LOAD_SDS then
      s ← print_ll v; Some (Some (if flag_set fl RDB_LOAD_PLAIN then LPlain s else LSds s), r')
    else if flag_set fl RDB_LOAD_ENC then Some (Some (LObj (ObjInt v)), r')
    else s ← print_ll v; Some (Some (LObj (ObjStr s)), r')).
  { unfold rdbLoadIntegerObject. destruct Hk as [(-> & -> & Hk)|[(-> & -> & Hk)|(-> & -> & Hk)]].
    - change (Z.of_nat 1) with 1 in Hread. simpl (_ =? _). cbv iota. rewrite Hread. cbn [le_enc].
      pose proof (s_le 1 8 v ltac:(done) ltac:(lia) Hk) as E. cbn [le_enc le_dec] in E. rewrite Z.mul_0_r, Z.add_0_r in E.
      by rewrite E.
    - change (Z.of_nat 2) with 2 in Hread. simpl (_ =? _). cbv iota. rewrite Hread. cbn [le_enc].
      pose proof (s_le 2 16 v ltac:(done) ltac:(lia) Hk) as E. cbn [le_enc le_dec] in E. rewrite Z.mul_0_r, Z.add_0_r, (Z.mul_comm 256) in E.
      rewrite (shiftl_lor_add _ _ 8 8) by dlia. change (2 ^ 8) with 256. by rewrite E.
    - change (Z.of_nat 4) with 4 in Hread. simpl (_ =? _). cbv iota. rewrite Hread. cbn [le_enc].
      pose proof (s_le 4 32 v ltac:(done) ltac:(lia) Hk) as E. cbn [le_enc] in E.
      rewrite le_bytes4 by (unfold is_byte; dlia). by rewrite E. }
  rewrite Hval. destruct (print_ll_ok v Hv) as (s' & -> & Hs'). assert (s' = s) as -> by (by eapply decimal_inj).
  destruct (flag_set fl RDB_LOAD_PLAIN) eqn:E1; [|destruct (flag_set fl RDB_LOAD_SDS) eqn:E2; [|destruct (flag_set fl RDB_LOAD_ENC) eqn:E3]];
    simpl; eexists r', _; (split; [done|]); (split; [|done]); simpl; by split_and!.
Qed.

(** ** Strings *)

(** A save function writes [enc]. *)
Definition saves (f : option (@rio B) -> option (Z * option (@rio B))) enc : Prop :=
  forall rdb, okw rdb -> exists rdb', f rdb = Some (zlen enc, rdb') /\ okw rdb' /\ appended rdb rdb' enc.

(** A stream that starts with [enc] loads as the string [s]. *)
Definition loads (can_alloc : Z -> bool) (fill : Z) enc (s : list Z) : Prop :=
  forall r rest fl, can_read r -> remaining (io r) = enc ++ rest ->
    exists r' ld, rdbGenericLoadStringObject can_alloc fill r fl = Some (Some ld, r') /\ represents fl ld s /\
      can_read r' /\ remaining (io r') = rest.

Lemma saves_raw bs : saves (fun rdb => Some (rdbWriteRaw rdb bs)) bs.
Proof. intros rdb Hw. destruct (rdbWriteRaw_ok rdb bs Hw) as (rdb' & -> & ?). eauto. Qed.

Definition raw_enc (s : list Z) : list Z := len_enc (zlen s) ++ s.
Definition lzf_enc (c : list Z) (len : Z) : list Z := (192 + 3) :: len_enc (zlen c) ++ len_enc len ++ c.

Context (can_alloc : Z -> bool) (fill : Z).

Lemma loads_raw s : zlen s < UINT64_MAX -> can_alloc (zlen s) = true -> loads can_alloc fill (raw_enc s) s.
Proof.
  intros Hl Ha r rest fl Hr Hrem. unfold raw_enc in Hrem. rewrite <- app_assoc in Hrem. pose proof (zlen_nonneg s).
  unfold rdbGenericLoadStringObject.
  destruct (rdbLoadLen_ok r (zlen s) (s ++ rest) Hr ltac:(lia) Hrem) as (r1 & -> & Hr1 & Hrem1).
  rewrite (proj2 (Z.eqb_neq (zlen s) RDB_LENERR)) by (unfold RDB_LENERR; lia). rewrite Ha. cbn [negb].
  destruct (Z.eqb_spec (zlen s) 0) as [E|E]; cbn [negb].
  - assert (s = []) as -> by (destruct s; [done|rewrite zlen_cons in E; pose proof (zlen_nonneg s); lia]).
    eexists r1, _. split; [done|]. split; [apply represents_raw|done].
  - destruct (rioRead_ok r1 (zlen s) s rest Hr1 Hrem1 eq_refl) as (r' & -> & ? & ?). eexists r', _.
    split; [done|]. split; [apply represents_raw|done].
Qed.

Lemma loads_int s v : decimal s v -> rdbEncodeInteger v <> [] -> loads can_alloc fill (rdbEncodeInteger v) s.
Proof.
  intros Hs Hne r rest fl Hr Hrem. rewrite rdbEncodeInteger_eq in Hne, Hrem.
  assert (exists kind n, remaining (io r) = (192 + kind) :: le_enc n v ++ rest /\ 0 <= kind <= 2 /\
    (kind = 0 /\ n = 1%nat /\ in_s 8 v \/ kind = 1 /\ n = 2%nat /\ in_s 16 v \/ kind = 2 /\ n = 4%nat /\ in_s 32 v)) as (kind & n & Hrem' & Hk & Hkind).
  { unfold in_s. simpl. repeat case_match; bool_hyps; try done; unfold int_enc in Hrem;
      [exists 0, 1%nat|exists 1, 2%nat|exists 2, 4%nat]; (split; [done|]); split; lia. }
  destruct (rdbLoadLen_enc r kind _ Hr ltac:(lia) Hrem') as (r1 & E & Hr1 & Hrem1).
  destruct (rdbLoadIntegerObject_ok r1 kind v rest fl s Hr1 Hs) as (r' & ld & E' & ? & ? & ?); [eauto|].
  exists r', ld. split; [|done]. unfold rdbGenericLoadStringObject. rewrite E.
  rewrite (proj2 (Z.eqb_neq kind RDB_LENERR)) by (unfold RDB_LENERR, UINT64_MAX; lia).
  assert ((kind =? RDB_ENC_INT8) || (kind =? RDB_ENC_INT16) || (kind =? RDB_ENC_INT32) = true) as ->
    by (unfold RDB_ENC_INT8, RDB_ENC_INT16, RDB_ENC_INT32; lia). done.
Qed.

Lemma loads_lzf c s : zlen c < UINT64_MAX -> zlen s < UINT64_MAX -> can_alloc (zlen c) = true -> can_alloc (zlen s) = true ->
  (forall buf, zlen buf = zlen s -> lzf_decompress c buf = Some (zlen s, s)) -> loads can_alloc fill (lzf_enc c (zlen s)) s.
Proof.
  intros Hc Hs Hac Has Hdec r rest fl Hr Hrem. pose proof (zlen_nonneg s). pose proof (zlen_nonneg c).
  unfold rdbGenericLoadStringObject. unfold lzf_enc in Hrem. cbn [app] in Hrem. rewrite <- !app_assoc in Hrem.
  destruct (rdbLoadLen_enc r 3 _ Hr ltac:(lia) Hrem) as (r1 & -> & Hr1 & Hrem1). simpl (_ =? _). cbv iota. cbn [orb].
  unfold rdbLoadLzfStringObject.
  destruct (rdbLoadLen_ok r1 (zlen c) _ Hr1 ltac:(lia) Hrem1) as (r2 & -> & Hr2 & Hrem2).
  rewrite (proj2 (Z.eqb_neq (zlen c) RDB_LENERR)) by (unfold RDB_LENERR; lia).
  destruct (rdbLoadLen_ok r2 (zlen s) _ Hr2 ltac:(lia) Hrem2) as (r3 & -> & Hr3 & Hrem3).
  rewrite (proj2 (Z.eqb_neq (zlen s) RDB_LENERR)) by (unfold RDB_LENERR; lia). rewrite Hac, Has. cbn [negb].
  destruct (rioRead_ok r3 (zlen c) c rest Hr3 Hrem3 eq_refl) as (r4 & -> & Hr4 & Hrem4).
  rewrite Hdec by (unfold zlen; rewrite repeat_length; lia). bnd. rewrite Z.eqb_refl. cbn [negb].
  eexists r4, _. split; [done|]. split; [apply represents_raw|done].
Qed.

(** Writing one piece after another, stopping at an error. *)
Lemma then_write rdb1 (n0 : Z) enc1 : okw rdb1 -> 0 <= n0 ->
  exists rdb2, (let '(n, rdb) := rdbWriteRaw rdb1 enc1 in if n =? -1 then (-1, rdb) else (n0 + n, rdb)) = (n0 + zlen enc1, rdb2) /\
    okw rdb2 /\ appended rdb1 rdb2 enc1.
Proof.
  intros Hw Hn. destruct (rdbWriteRaw_ok rdb1 enc1 Hw) as (rdb2 & -> & ? & ?). exists rdb2.
  rewrite (proj2 (Z.eqb_neq (zlen enc1) (-1))); [done|]. pose proof (zlen_nonneg enc1). lia.
Qed.

Lemma zlen_neq1 {A} (l : list A) : (zlen l =? -1) = false.
Proof. apply Z.eqb_neq. pose proof (zlen_nonneg l). lia. Qed.

Lemma rdbSaveLzfBlob_ok rdb c len : okw rdb -> 0 <= len ->
  exists rdb', rdbSaveLzfBlob rdb c len = (zlen (lzf_enc c len), rdb') /\ okw rdb' /\ appended rdb rdb' (lzf_enc c len).
Proof.
  intros Hw Hl. unfold rdbSaveLzfBlob, lzf_enc. change (Z.lor (Z.shiftl RDB_ENCVAL 6) RDB_ENC_LZF) with (192 + 3).
  destruct (rdbWriteRaw_ok rdb [192 + 3] Hw) as (rdb1 & -> & Hw1 & A1). change (zlen [192 + 3] =? -1) with false. cbv iota.
  destruct (rdbSaveLen_ok rdb1 (zlen c) Hw1 (zlen_nonneg c)) as (rdb2 & -> & Hw2 & A2). rewrite zlen_neq1.
  destruct (rdbSaveLen_ok rdb2 len Hw2 Hl) as (rdb3 & -> & Hw3 & A3). rewrite zlen_neq1.
  destruct (rdbWriteRaw_ok rdb3 c Hw3) as (rdb4 & -> & Hw4 & A4). rewrite zlen_neq1. exists rdb4. split; [|split; [done|]].
  - apply (f_equal (fun z => (z, rdb4))). change (zlen [192 + 3]) with 1. rewrite zlen_cons, !zlen_app. lia.
  - apply (appended_trans rdb rdb1 rdb4 [192 + 3]); [done|]. eapply appended_trans; [done|]. by eapply appended_trans.
Qed.

(** What the compressor needs to know of memory. *)
Definition env_ok (env : save_env) (s : list Z) : Prop :=
  8192 <= in_address env /\ in_address env + zlen s < 2 ^ 64 /\ htab_ok (htab0 env).

Lemma rdbSaveLzf_cases env s : env_ok env s -> 4 < zlen s ->
  (forall rdb, rdbSaveLzfStringObject env rdb s = Some (0, rdb)) \/
  exists c, zlen c <= zlen s - 4 /\ (forall rdb, rdbSaveLzfStringObject env rdb s = Some (rdbSaveLzfBlob rdb c (zlen s))) /\
    (forall buf, zlen buf = zlen s -> lzf_decompress c buf = Some (zlen s, s)).
Proof.
  intros (Hb & Hbl & Hht) Hs. unfold rdbSaveLzfStringObject. rewrite (proj2 (Z.leb_gt (zlen s) 4)) by lia.
  destruct (lzf_compress_decompress (in_address env) (htab0 env) s (repeat (junk env) (Z.to_nat (zlen s - 4))))
    as (n & out' & -> & Ho & Hn & _ & Hdec); [lia|done|done|done|]. bnd.
  destruct (Z.eqb_spec n 0) as [->|Hne]; [by left|right]. destruct (Hdec Hne) as (c & Hc & Hd). rewrite Hc. bnd.
  exists c. split_and!; [|done|].
  - apply ldn_zlen in Hc. unfold zlen in *. rewrite repeat_length in Hn. lia.
  - intros buf Hbuf. rewrite Hd by lia. do 2 f_equal. rewrite drop_ge by (unfold zlen in *; lia). apply app_nil_r.
Qed.

Lemma saves_raw_enc s : saves (fun rdb =>
  let '(n, rdb) := rdbSaveLen rdb (zlen s) in
  if n =? -1 then Some (-1, rdb)
  else if 0 <? zlen s then
    let '(n2, rdb) := rdbWriteRaw rdb s in if n2 =? -1 then Some (-1, rdb) else Some (n + zlen s, rdb)
  else Some (n, rdb)) (raw_enc s).
Proof.
  intros rdb Hw. destruct (rdbSaveLen_ok rdb (zlen s) Hw (zlen_nonneg s)) as (rdb1 & -> & Hw1 & A1). rewrite zlen_neq1.
  unfold raw_enc. rewrite zlen_app. destruct (Z.ltb_spec 0 (zlen s)).
  - destruct (rdbWriteRaw_ok rdb1 s Hw1) as (rdb2 & -> & Hw2 & A2). rewrite zlen_neq1. exists rdb2. split; [done|]. split; [done|].
    by eapply appended_trans.
  - assert (s = []) as -> by (destruct s; [done|]; rewrite zlen_cons in *; pose proof (zlen_nonneg s); lia).
    exists rdb1. rewrite app_nil_r. change (zlen (@nil Z)) with 0. rewrite Z.add_0_r. done.
Qed.

Lemma rdbSaveRawString_ok env s : env_ok env s -> zlen s < UINT64_MAX -> (forall n, 0 <= n <= zlen s -> can_alloc n = true) ->
  exists enc, saves (fun rdb => rdbSaveRawString env rdb s) enc /\ loads can_alloc fill enc s.
Proof.
  intros He Hs Ha. pose proof (zlen_nonneg s). unfold rdbSaveRawString.
  set (e := if zlen s <=? 11 then rdbTryIntegerEncoding s else []). destruct (Z.ltb_spec 0 (zlen e)) as [Hpos|Hz].
  - exists e. split.
    + intros rdb Hw. destruct (rdbWriteRaw_ok rdb e Hw) as (rdb' & -> & ? & ?). rewrite zlen_neq1. eauto.
    + unfold e in *. destruct (zlen s <=? 11); [|done]. unfold rdbTryIntegerEncoding in *.
      destruct (string2ll s) as [v|] eqn:E; [|done]. apply loads_int; [by apply string2ll_spec in E as [? _]|].
      intros E0. by rewrite E0 in Hpos.
  - assert (Hraw : exists enc, saves (fun rdb => let '(n, rdb0) := rdbSaveLen rdb (zlen s) in
        if n =? -1 then Some (-1, rdb0)
        else if 0 <? zlen s then
          let '(n2, rdb1) := rdbWriteRaw rdb0 s in if n2 =? -1 then Some (-1, rdb1) else Some (n + zlen s, rdb1)
        else Some (n, rdb0)) enc /\ loads can_alloc fill enc s).
    { exists (raw_enc s). split; [apply saves_raw_enc|]. apply loads_raw; [done|]. apply Ha. lia. }
    destruct (rdb_compression env && (20 <? zlen s)) eqn:Ec; [|exact Hraw]. bool_hyps.
    destruct (rdbSaveLzf_cases env s He ltac:(lia)) as [Hno|(c & Hc & Hsave & Hdec)].
    + destruct Hraw as (enc & Hsv & Hld). exists enc. split; [|done]. intros rdb Hw. rewrite Hno. bnd. by apply Hsv.
    + exists (lzf_enc c (zlen s)). pose proof (zlen_nonneg c). split.
      * intros rdb Hw. rewrite Hsave. destruct (rdbSaveLzfBlob_ok rdb c (zlen s) Hw ltac:(lia)) as (rdb' & -> & ? & ?). bnd.
        rewrite zlen_neq1. rewrite (proj2 (Z.ltb_lt _ _)); [eauto|]. unfold lzf_enc. rewrite zlen_cons. pose proof (zlen_nonneg (len_enc (zlen c) ++ len_enc (zlen s) ++ c)). lia.
      * apply loads_lzf; [lia|done|apply Ha; lia|apply Ha; lia|done].
Qed.

Lemma rdbSaveLongLong_ok v s : in_s 64 v -> decimal s v -> (forall n, 0 <= n <= zlen s -> can_alloc n = true) ->
  exists enc, saves (fun rdb => rdbSaveLongLongAsStringObject rdb v) enc /\ loads can_alloc fill enc s.
Proof.
  intros Hv Hs Ha. unfold rdbSaveLongLongAsStringObject. destruct (Z.ltb_spec 0 (zlen (rdbEncodeInteger v))) as [Hpos|Hz].
  - exists (rdbEncodeInteger v). split; [apply saves_raw|]. apply loads_int; [done|]. intros E0. by rewrite E0 in Hpos.
  - destruct (ll2string_prints (repeat 0 32) v Hv) as (s' & dst' & E & Hld & Hd & _ & Hlen); [done|].
    assert (s' = s) as -> by (by eapply decimal_inj). change (zlen (repeat 0 32)) with 32 in E. rewrite E. bnd.
    unfold LONG_STR_SIZE in Hlen. rewrite (proj2 (Z.ltb_lt _ _)) by lia. cbn [negb]. rewrite Hld. bnd.
    pose proof (zlen_nonneg s). exists (raw_enc s). split; [|apply loads_raw; [unfold UINT64_MAX; lia|apply Ha; lia]].
    intros rdb Hw. destruct (rdbSaveLen_ok rdb (zlen s) Hw (zlen_nonneg s)) as (rdb1 & -> & Hw1 & A1). rewrite zlen_neq1.
    destruct (rdbWriteRaw_ok rdb1 s Hw1) as (rdb2 & -> & Hw2 & A2). rewrite zlen_neq1. exists rdb2. unfold raw_enc. rewrite zlen_app.
    split; [done|]. split; [done|]. by eapply appended_trans.
Qed.

(** The bytes of a string object. *)
Definition string_value (o : robj) (s : list Z) : Prop :=
  match o with ObjStr b => b = s | ObjInt v => in_s 64 v /\ decimal s v end.

(** C27: String objects survive the RDB format, over any stream whose backend
    does not fail, whatever its chunk size and checksum: there is one encoding
    of the object (an integer of 1, 2 or 4 bytes, an LZF blob, or the bytes
    with their length in one of four forms) such that saving appends exactly
    it and returns its size, also when only counting without a stream; and
    loading from a stream that starts with it returns, in whatever form the
    flags ask for, exactly the bytes of the string, consuming nothing more. *)
Theorem rdb_string_roundtrip (env : save_env) (o : robj) (s : list Z) :
  string_value o s -> env_ok env s -> zlen s < UINT64_MAX -> (forall n, 0 <= n <= zlen s -> can_alloc n = true) ->
  exists enc, saves (fun rdb => rdbSaveStringObject env rdb o) enc /\ loads can_alloc fill enc s.
Proof.
  destruct o as [v|b]; cbn [string_value rdbSaveStringObject].
  - intros [Hv Hd] _ _. by apply rdbSaveLongLong_ok.
  - intros ->. apply rdbSaveRawString_ok.
Qed.
End rdb_proofs.

(** ** Fixed-size fields *)

Section fixed.
Context {B : Type} {HBackend : Backend B} {HReliable : Reliable B}.
Implicit Types (r : @rio B) (rdb : option (@rio B)).

Lemma rdbType_roundtrip t : 0 <= t < 256 ->
  (forall rdb, okw rdb -> exists rdb', rdbSaveType rdb t = (1, rdb') /\ okw rdb' /\ appended rdb rdb' [t]) /\
  (forall r rest, can_read r -> remaining (io r) = t :: rest ->
    exists r', rdbLoadType r = (t, r') /\ can_read r' /\ remaining (io r') = rest).
Proof.
  intros Ht. split.
  - intros rdb Hw. unfold rdbSaveType. rewrite wrap_small by lia. destruct (rdbWriteRaw_ok rdb [t] Hw) as (rdb' & -> & ?). eauto.
  - intros r rest Hr Hrem. unfold rdbLoadType. destruct (rioRead_ok r 1 [t] rest Hr Hrem eq_refl) as (r' & -> & ?). eauto.
Qed.

Lemma rdbMillisecondTime_roundtrip t : in_s 64 t ->
  (forall rdb, okw rdb -> exists rdb', rdbSaveMillisecondTime rdb t = (8, rdb') /\ okw rdb' /\ appended rdb rdb' (le_enc 8 t)) /\
  (forall r rest, can_read r -> remaining (io r) = le_enc 8 t ++ rest ->
    exists r', rdbLoadMillisecondTime r = (t, r') /\ can_read r' /\ remaining (io r') = rest).
Proof.
  intros Ht. split.
  - intros rdb Hw. unfold rdbSaveMillisecondTime. destruct (rdbWriteRaw_ok rdb (le_enc 8 t) Hw) as (rdb' & -> & ?). eauto.
  - intros r rest Hr Hrem. unfold rdbLoadMillisecondTime.
    destruct (rioRead_ok r 8 (le_enc 8 t) rest Hr Hrem eq_refl) as (r' & -> & ?). exists r'. split; [|done].
    by rewrite (s_le 8 64).
Qed.
End fixed.

(** ** The buffer implements the interface *)

Definition buffer_remaining (b : buffer) : list Z := if 0 <=? pos b then drop (Z.to_nat (pos b)) (ptr b) else [].

#[export] Instance buffer_reliable : Reliable buffer.
Proof.
  refine {| contents := ptr; remaining := buffer_remaining |}.
  - intros bs b. eexists. by split.
  - intros n b Hn. unfold buffer_remaining in *. destruct (Z.leb_spec 0 (pos b)); [|change (zlen (@nil Z)) with 0 in Hn; lia].
    unfold bread, buffer_backend, rioBufferRead. unfold zlen in *. rewrite length_drop in Hn. case_if E; [lia|].
    unfold ldn. rewrite (proj2 (Z.leb_le 0 (pos b))), (proj2 (Z.leb_le 0 n)), (proj2 (Z.leb_le (pos b + n) (zlen (ptr b)))) by (unfold zlen; lia).
    simpl. eexists. split; [done|]. simpl. rewrite (proj2 (Z.leb_le 0 (pos b + n))) by lia. rewrite drop_drop. f_equal. lia.
  - intros n b Hn. unfold buffer_remaining in Hn. unfold bread, buffer_backend, rioBufferRead.
    case_if E; [done|]. unfold ldn. destruct (Z.leb_spec 0 (pos b)); [|done].
    unfold zlen in *. rewrite length_drop in Hn. lia.
Defined.

(** ** Instances *)

Definition demo_env : save_env := mkEnv true 65536 (fun _ => 0) 170.
Definition demo_str : list Z := repeat 97 40.

Lemma rdb_string_roundtrip_witness :
  exists enc, saves (B := buffer) (fun rdb => rdbSaveStringObject demo_env rdb (ObjStr demo_str)) enc /\
    loads (B := buffer) (fun n => n <? 1000) 0 enc demo_str.
Proof.
  apply (rdb_string_roundtrip (B := buffer) (fun n => n <? 1000) 0 demo_env (ObjStr demo_str) demo_str).
  - done.
  - split_and!; [done|done|]. intros i. done.
  - done.
  - intros n. change (zlen demo_str) with 40. lia.
Defined.

End Rdb.
