(* ===== verification/Resp.v ===== *)
(** * Reading commands from a client
    (src/redis-stable/src/networking.c: processMultibulkBuffer,
    processInlineBuffer, processInputBuffer; sds.c: sdssplitargs, sdscatrepr;
    aof.c: catAppendOnlyGenericCommand)

    The part of a client that the parser of requests works on: the query
    buffer with its position, the progress in the current request and the
    arguments read so far.  A buffer is the list of its bytes; strchr stops at
    a null byte, as in the code.  Executing a command is an argument of
    [processInputBuffer]; [None] as the result of a step is an access out of
    bounds or a failed assertion.

    The theorems: however a stream of encoded commands is cut into reads,
    exactly the commands whose last byte has arrived are executed, in order;
    on the link to a master each command is also forwarded to the replicas,
    byte for byte, a transaction as a whole when it ends, and the offsets count
    what was applied and what was read; arguments quoted by sdscatrepr are
    split back by sdssplitargs. *)
From stdpp Require Import base list strings.
From Stdlib Require Ascii.
From S2P Require Import Prelude Util.
Import Util.

Module Resp.

Abbreviation bytes := (list Z).
Local Open Scope Z_scope.

Definition PROTO_IOBUF_LEN : Z := 1024 * 16.
Definition PROTO_INLINE_MAX_SIZE : Z := 1024 * 64.
Definition PROTO_MBULK_BIG_ARG : Z := 1024 * 32.
Definition PROTO_REQ_INLINE : Z := 1.
Definition PROTO_REQ_MULTIBULK : Z := 2.
Definition CLIENT_MASTER : Z := Z.shiftl 1 1.
Definition CLIENT_MULTI : Z := Z.shiftl 1 3.
Definition CLIENT_BLOCKED : Z := Z.shiftl 1 4.
Definition CLIENT_CLOSE_AFTER_REPLY : Z := Z.shiftl 1 6.
Definition CLIENT_SCRIPT : Z := Z.shiftl 1 8.
Definition CLIENT_ASKING : Z := Z.shiftl 1 9.
Definition CLIENT_CLOSE_ASAP : Z := Z.shiftl 1 10.
Definition CLIENT_REPLY_SKIP_NEXT : Z := Z.shiftl 1 23.
Definition CLIENT_REPLY_SKIP : Z := Z.shiftl 1 24.
Definition CLIENT_PENDING_COMMAND : Z := Z.shiftl 1 30.
Definition CLIENT_TRACKING_CACHING : Z := Z.shiftl 1 36.
Definition CLIENT_PROTOCOL_ERROR : Z := Z.shiftl 1 39.
Definition INT_MAX : Z := INT32_MAX.

Definition CR : Z := 13.
Definition LF : Z := 10.

(** The procedures of commands that resetClient tells apart. *)
Inductive redisCommandProc := askingCommand | clientCommand | other_proc.

Definition is_proc (p : redisCommandProc) (c : option redisCommandProc) : bool :=
  match p, c with
  | askingCommand, Some askingCommand | clientCommand, Some clientCommand | other_proc, Some other_proc => true
  | _, _ => false
  end.

(** [argc] is the length of [argv], [argv_len] its capacity; [authRequired] is
    the result of that function on the client; [replies] are the error
    messages added to the reply. *)
Record client := mkClient {
  querybuf : bytes; qb_pos : Z; reqtype : Z; multibulklen : Z; bulklen : Z;
  argv : list bytes; argv_len : Z; argv_len_sum : Z; cmd : option redisCommandProc;
  flags : Z; authRequired : bool;
  read_reploff : Z; reploff : Z; repl_applied : Z; replies : list string }.

Definition set_buf (b : bytes) (p : Z) (c : client) : client :=
  mkClient b p (reqtype c) (multibulklen c) (bulklen c) (argv c) (argv_len c) (argv_len_sum c) (cmd c) (flags c)
    (authRequired c) (read_reploff c) (reploff c) (repl_applied c) (replies c).
Definition set_reqtype (t : Z) (c : client) : client :=
  mkClient (querybuf c) (qb_pos c) t (multibulklen c) (bulklen c) (argv c) (argv_len c) (argv_len_sum c) (cmd c) (flags c)
    (authRequired c) (read_reploff c) (reploff c) (repl_applied c) (replies c).
Definition set_lens (m b : Z) (c : client) : client :=
  mkClient (querybuf c) (qb_pos c) (reqtype c) m b (argv c) (argv_len c) (argv_len_sum c) (cmd c) (flags c)
    (authRequired c) (read_reploff c) (reploff c) (repl_applied c) (replies c).
Definition set_argv (a : list bytes) (len sum : Z) (c : client) : client :=
  mkClient (querybuf c) (qb_pos c) (reqtype c) (multibulklen c) (bulklen c) a len sum (cmd c) (flags c)
    (authRequired c) (read_reploff c) (reploff c) (repl_applied c) (replies c).
Definition set_cmd (p : option redisCommandProc) (c : client) : client :=
  mkClient (querybuf c) (qb_pos c) (reqtype c) (multibulklen c) (bulklen c) (argv c) (argv_len c) (argv_len_sum c) p
    (flags c) (authRequired c) (read_reploff c) (reploff c) (repl_applied c) (replies c).
Definition set_flags (f : Z) (c : client) : client :=
  mkClient (querybuf c) (qb_pos c) (reqtype c) (multibulklen c) (bulklen c) (argv c) (argv_len c) (argv_len_sum c) (cmd c)
    f (authRequired c) (read_reploff c) (reploff c) (repl_applied c) (replies c).
Definition set_offsets (read off applied : Z) (c : client) : client :=
  mkClient (querybuf c) (qb_pos c) (reqtype c) (multibulklen c) (bulklen c) (argv c) (argv_len c) (argv_len_sum c) (cmd c)
    (flags c) (authRequired c) read off applied (replies c).
(** The message as the caller gives it; its format in the reply and the
    statistics of errors are not modelled. *)
Definition addReplyError (e : string) (c : client) : client :=
  mkClient (querybuf c) (qb_pos c) (reqtype c) (multibulklen c) (bulklen c) (argv c) (argv_len c) (argv_len_sum c) (cmd c)
    (flags c) (authRequired c) (read_reploff c) (reploff c) (repl_applied c) (replies c ++ [e]).

Definition has_flag (c : client) (f : Z) : bool := negb (Z.land (flags c) f =? 0).
Definition add_flag (f : Z) (c : client) : client := set_flags (Z.lor (flags c) f) c.
Definition clear_flag (f : Z) (c : client) : client := set_flags (Z.land (flags c) (Z.lnot f)) c.

(** The log line is not modelled. *)
Definition setProtocolError (c : client) : client :=
  add_flag (Z.lor CLIENT_CLOSE_AFTER_REPLY CLIENT_PROTOCOL_ERROR) c.
Definition protocol_error (e : string) (c : client) : client := setProtocolError (addReplyError e c).

(** addReplyErrorFormat with the character that was found instead of [$]. *)
Definition expected_dollar (first : Z) : string :=
  ("Protocol error: expected '$', got '" ++ String (Ascii.ascii_of_N (Z.to_N first)) "'")%string.

(** The offset of the first [ch] before the end of the C string. *)
Fixpoint strchr (ch : Z) (s : bytes) : option Z :=
  match s with
  | [] => None
  | x :: s => if x =? ch then Some 0 else if x =? 0 then None else i ← strchr ch s; Some (i + 1)
  end.

(** What has not been parsed yet, and its length. *)
Definition unread (c : client) : bytes := drop (Z.to_nat (qb_pos c)) (querybuf c).
Definition avail (c : client) : Z := zlen (querybuf c) - qb_pos c.

(** sdsrange(s, start, -1) *)
Definition sdsrange_from (s : bytes) (start : Z) : bytes := drop (Z.to_nat start) s.

(** ** Requests as arrays of bulk strings *)

Section multibulk.
(** server.proto_max_bulk_len *)
Context (proto_max_bulk_len : Z).

(** The bulk length line: [inl] when the function returns or leaves the loop
    ([true] for a return of C_ERR), [inr] when the length is known. *)
Definition read_bulklen (c : client) : option (client * bool + client) :=
  if negb (bulklen c =? -1) then Some (inr c)
  else
    match strchr CR (unread c) with
    | None =>
        if PROTO_INLINE_MAX_SIZE <? avail c
        then Some (inl (protocol_error "Protocol error: too big bulk count string"%string c, true))
        else Some (inl (c, false))
    | Some newline =>
        if avail c - 2 <? newline then Some (inl (c, false))
        else
          first ← unread c !! 0%nat;
          if negb (first =? 36)
          then Some (inl (protocol_error (expected_dollar first) c, true))
          else
            match string2ll (take (Z.to_nat (newline - 1)) (drop 1 (unread c))) with
            | None => Some (inl (protocol_error "Protocol error: invalid bulk length"%string c, true))
            | Some ll =>
                if (ll <? 0) || (negb (has_flag c CLIENT_MASTER) && (proto_max_bulk_len <? ll))
                then Some (inl (protocol_error "Protocol error: invalid bulk length"%string c, true))
                else if (16384 <? ll) && authRequired c
                then Some (inl (protocol_error "Protocol error: unauthenticated bulk length"%string c, true))
                else
                  let c := set_buf (querybuf c) (qb_pos c + newline + 2) c in
                  let c :=
                    if negb (has_flag c CLIENT_MASTER) && (PROTO_MBULK_BIG_ARG <=? ll) && (avail c <=? ll + 2)
                    then set_buf (sdsrange_from (querybuf c) (qb_pos c)) 0 c
                    else c in
                  Some (inr (set_lens (multibulklen c) ll c))
            end
    end.

(** Store the bulk argument; the argument vector grows when it is full. *)
Definition read_bulk (c : client) : option client :=
  let argc := zlen (argv c) in
  let cap := if argv_len c <=? argc
             then Z.min (if argv_len c <? Z.quot INT_MAX 2 then argv_len c * 2 else INT_MAX) (argc + multibulklen c)
             else argv_len c in
  if negb (argc <? cap) then None
  else
    let big := negb (has_flag c CLIENT_MASTER) && (qb_pos c =? 0) && (PROTO_MBULK_BIG_ARG <=? bulklen c) &&
               (zlen (querybuf c) =? bulklen c + 2) in
    arg ← ldn (querybuf c) (qb_pos c) (bulklen c);
    let c := set_argv (argv c ++ [arg]) cap (argv_len_sum c + bulklen c) c in
    let c := if (big : bool) then set_buf [] 0 c else set_buf (querybuf c) (qb_pos c + bulklen c + 2) c in
    Some (set_lens (multibulklen c - 1) (-1) c).

(** [while(c->multibulklen)]; the result is C_OK or not. *)
Fixpoint multibulk_loop (fuel : nat) (c : client) : option (bool * client) :=
  if multibulklen c =? 0 then Some (true, c)
  else match fuel with
  | O => None
  | S fuel =>
      r ← read_bulklen c;
      match r with
      | inl (c, _) => Some (false, c)
      | inr c =>
          if avail c <? bulklen c + 2 then Some (false, c)
          else c ← read_bulk c; multibulk_loop fuel c
      end
  end.

Definition processMultibulkBuffer (c : client) : option (bool * client) :=
  if multibulklen c =? 0 then
    if negb (zlen (argv c) =? 0) then None
    else
      match strchr CR (unread c) with
      | None => Some (false, if PROTO_INLINE_MAX_SIZE <? avail c
                             then protocol_error "Protocol error: too big mbulk count string"%string c else c)
      | Some newline =>
          if avail c - 2 <? newline then Some (false, c)
          else
            first ← unread c !! 0%nat;
            if negb (first =? 42) then None
            else
              match string2ll (take (Z.to_nat (newline - 1)) (drop 1 (unread c))) with
              | None => Some (false, protocol_error "Protocol error: invalid multibulk length"%string c)
              | Some ll =>
                  if INT_MAX <? ll then Some (false, protocol_error "Protocol error: invalid multibulk length"%string c)
                  else if (10 <? ll) && authRequired c
                  then Some (false, protocol_error "Protocol error: unauthenticated multibulk length"%string c)
                  else
                    let c := set_buf (querybuf c) (qb_pos c + newline + 2) c in
                    if ll <=? 0 then Some (true, c)
                    else
                      let c := set_lens ll (bulklen c) c in
                      let c := set_argv (argv c) (Z.min ll 1024) 0 c in
                      multibulk_loop (Z.to_nat ll) c
              end
      end
  else if multibulklen c <? 0 then None
  else multibulk_loop (Z.to_nat (multibulklen c)) c.

(** ** Inline requests *)

Definition isspace (c : Z) : bool := (c =? 32) || ((9 <=? c) && (c <=? 13)).
Definition is_hex_digit (c : Z) : bool :=
  ((48 <=? c) && (c <=? 57)) || ((97 <=? c) && (c <=? 102)) || ((65 <=? c) && (c <=? 70)).
Definition hex_digit_to_int (c : Z) : Z :=
  if (48 <=? c) && (c <=? 57) then c - 48
  else if (97 <=? c) && (c <=? 102) then c - 87
  else if (65 <=? c) && (c <=? 70) then c - 55 else 0.
Definition unescape (c : Z) : Z :=
  if c =? 110 then 10 else if c =? 114 then 13 else if c =? 116 then 9
  else if c =? 98 then 8 else if c =? 97 then 7 else c.

Inductive quoting := Unquoted | Double | Single.

(** A closing quote must be followed by a space or nothing at all. *)
Definition closes (p : bytes) : bool :=
  match p with [] => true | c :: _ => (c =? 0) || isspace c end.

(** One token: its bytes and what follows, or an error. *)
Fixpoint get_token (q : quoting) (p current : bytes) : option (bytes * bytes) :=
  match p with
  | [] => match q with Unquoted => Some (current, []) | _ => None end
  | c :: p1 =>
      match q with
      | Unquoted =>
          if c =? 0 then Some (current, p)
          else if (c =? 32) || (c =? 10) || (c =? 13) || (c =? 9) then Some (current, p1)
          else if c =? 34 then get_token Double p1 current
          else if c =? 39 then get_token Single p1 current
          else get_token Unquoted p1 (current ++ [c])
      | Double =>
          let other :=
            if c =? 34 then (if closes p1 then Some (current, p1) else None)
            else if c =? 0 then None
            else get_token Double p1 (current ++ [c]) in
          match p1 with
          | d :: p2 =>
              let escape :=
                if (c =? 92) && negb (d =? 0) then get_token Double p2 (current ++ [unescape d]) else other in
              match p2 with
              | h1 :: h2 :: p4 =>
                  if (c =? 92) && (d =? 120) && is_hex_digit h1 && is_hex_digit h2
                  then get_token Double p4 (current ++ [hex_digit_to_int h1 * 16 + hex_digit_to_int h2])
                  else escape
              | _ => escape
              end
          | [] => other
          end
      | Single =>
          let other :=
            if c =? 39 then (if closes p1 then Some (current, p1) else None)
            else if c =? 0 then None
            else get_token Single p1 (current ++ [c]) in
          match p1 with
          | d :: p2 => if (c =? 92) && (d =? 39) then get_token Single p2 (current ++ [39]) else other
          | [] => other
          end
      end
  end.

Fixpoint skip_blanks (p : bytes) : bytes :=
  match p with
  | c :: p' => if isspace c then skip_blanks p' else p
  | [] => []
  end.

(** [while(1)]; every token takes at least one byte. *)
Fixpoint split_loop (fuel : nat) (p : bytes) (vector : list bytes) : option (list bytes) :=
  match skip_blanks p with
  | [] => Some vector
  | c :: p' =>
      if c =? 0 then Some vector
      else match fuel with
           | O => None
           | S fuel => '(tok, rest) ← get_token Unquoted (c :: p') []; split_loop fuel rest (vector ++ [tok])
           end
  end.

(** [None] for the null pointer. *)
Definition sdssplitargs (line : bytes) : option (list bytes) := split_loop (length line) line [].

(** *** Quoting *)

Definition isprint (c : Z) : bool := (32 <=? c) && (c <=? 126).
Definition hex_digit (d : Z) : Z := if d <? 10 then 48 + d else 87 + d.

Definition repr_char (c : Z) : bytes :=
  if (c =? 92) || (c =? 34) then [92; c]
  else if c =? 10 then [92; 110] else if c =? 13 then [92; 114] else if c =? 9 then [92; 116]
  else if c =? 7 then [92; 97] else if c =? 8 then [92; 98]
  else if isprint c then [c]
  else [92; 120; hex_digit (c / 16); hex_digit (c mod 16)].

Fixpoint repr_loop (s p : bytes) : bytes :=
  match p with
  | [] => s
  | c :: p => repr_loop (s ++ repr_char c) p
  end.

Definition sdscatrepr (s p : bytes) : bytes := repr_loop (s ++ [34]) p ++ [34].

(** [repl_ack_time] is not modelled. *)
Definition processInlineBuffer (c : client) : option (bool * client) :=
  match strchr LF (unread c) with
  | None => Some (false, if PROTO_INLINE_MAX_SIZE <? avail c
                         then protocol_error "Protocol error: too big inline request"%string c else c)
  | Some newline =>
      let cr := (0 <? newline) && bool_decide (unread c !! Z.to_nat (newline - 1) = Some CR) in
      let querylen := if (cr : bool) then newline - 1 else newline in
      let linefeed_chars := if (cr : bool) then 2 else 1 in
      match sdssplitargs (take (Z.to_nat querylen) (unread c)) with
      | None => Some (false, protocol_error "Protocol error: unbalanced quotes in request"%string c)
      | Some args =>
          if negb (querylen =? 0) && has_flag c CLIENT_MASTER then Some (false, setProtocolError c)
          else
            let c := set_buf (querybuf c) (qb_pos c + querylen + linefeed_chars) c in
            Some (true, if bool_decide (args = []) then set_argv [] (argv_len c) (argv_len_sum c) c
                        else set_argv args (zlen args) (foldl (fun a s => a + zlen s) 0 args) c)
      end
  end.

(** ** The loop over the query buffer *)

Definition freeClientArgv (c : client) : client := set_cmd None (set_argv [] 0 0 c).

(** [cur_script], [slot] and [deferred_reply_errors] are not modelled. *)
Definition resetClient (c : client) : client :=
  let prevcmd := cmd c in
  let c := set_lens 0 (-1) (set_reqtype 0 (freeClientArgv c)) in
  let c := if negb (has_flag c CLIENT_MULTI) && negb (is_proc askingCommand prevcmd) then clear_flag CLIENT_ASKING c else c in
  let c := if negb (has_flag c CLIENT_MULTI) && negb (is_proc clientCommand prevcmd) then clear_flag CLIENT_TRACKING_CACHING c else c in
  let c := clear_flag CLIENT_REPLY_SKIP c in
  if has_flag c CLIENT_REPLY_SKIP_NEXT
  then clear_flag CLIENT_REPLY_SKIP_NEXT (add_flag CLIENT_REPLY_SKIP c) else c.

(** What processCommand does to the client: it returns C_OK, or it returns
    C_ERR, or the client has been freed. *)
Inductive outcome (S : Type) := Processed (c : client) (s : S) | Refused (c : client) (s : S) | Freed (s : S).
#[global] Arguments Processed {_} _ _.
#[global] Arguments Refused {_} _ _.
#[global] Arguments Freed {_} _.

(** [processCommand] works on the client and the rest of the server; [feed] is
    replicationFeedStreamFromMasterStream; [yielding] is
    isInsideYieldingLongCommand, [io_idle] whether the I/O threads are idle. *)
Context {S : Type} (processCommand : client -> S -> outcome S) (feed : bytes -> S -> S) (yielding io_idle : bool).

Definition commandProcessed (c : client) (s : S) : option (client * S) :=
  if has_flag c CLIENT_BLOCKED then Some (c, s)
  else
    let c := resetClient c in
    let prev_offset := reploff c in
    let c := if has_flag c CLIENT_MASTER && negb (has_flag c CLIENT_MULTI)
             then set_offsets (read_reploff c) (read_reploff c - zlen (querybuf c) + qb_pos c) (repl_applied c) c else c in
    if has_flag c CLIENT_MASTER then
      let applied := reploff c - prev_offset in
      if applied =? 0 then Some (c, s)
      else
        data ← ldn (querybuf c) (repl_applied c) applied;
        Some (set_offsets (read_reploff c) (reploff c) (repl_applied c + applied) c, feed data s)
    else Some (c, s).

(** No client in the result when it was freed.  The accounting of the memory
    of clients is not modelled. *)
Definition processCommandAndResetClient (c : client) (s : S) : option (option client * S) :=
  match processCommand c s with
  | Processed c s => '(c, s) ← commandProcessed c s; Some (Some c, s)
  | Refused c s => Some (Some c, s)
  | Freed s => Some (None, s)
  end.

(** The loop of processInputBuffer. *)
Fixpoint input_loop (fuel : nat) (c : client) (s : S) : option (option client * S) :=
  if negb (qb_pos c <? zlen (querybuf c)) then Some (Some c, s)
  else if has_flag c CLIENT_BLOCKED then Some (Some c, s)
  else if has_flag c CLIENT_PENDING_COMMAND then Some (Some c, s)
  else if yielding && has_flag c CLIENT_MASTER then Some (Some c, s)
  else if has_flag c (Z.lor CLIENT_CLOSE_AFTER_REPLY CLIENT_CLOSE_ASAP) then Some (Some c, s)
  else
    first ← unread c !! 0%nat;
    let c := if reqtype c =? 0
             then set_reqtype (if first =? 42 then PROTO_REQ_MULTIBULK else PROTO_REQ_INLINE) c else c in
    '(ok, c) ← (if reqtype c =? PROTO_REQ_INLINE then processInlineBuffer c
                else if reqtype c =? PROTO_REQ_MULTIBULK then processMultibulkBuffer c
                else None);
    if negb ok then Some (Some c, s)
    else
      match fuel with
      | O => None
      | Datatypes.S fuel =>
          if zlen (argv c) =? 0 then input_loop fuel (resetClient c) s
          else if negb io_idle then Some (Some (add_flag CLIENT_PENDING_COMMAND c), s)
          else
            '(c, s) ← processCommandAndResetClient c s;
            match c with
            | None => Some (None, s)
            | Some c => input_loop fuel c s
            end
      end.

(** A request takes at least one byte of the buffer. *)
Definition processInputBuffer (c : client) (s : S) : option (option client * S) :=
  '(c, s) ← input_loop (length (unread c)) c s;
  match c with
  | None => Some (None, s)
  | Some c =>
      if has_flag c CLIENT_MASTER then
        if negb (repl_applied c =? 0)
        then Some (Some (set_offsets (read_reploff c) (reploff c) 0
                     (set_buf (sdsrange_from (querybuf c) (repl_applied c)) (qb_pos c - repl_applied c) c)), s)
        else Some (Some c, s)
      else if negb (qb_pos c =? 0)
      then Some (Some (set_buf (sdsrange_from (querybuf c) (qb_pos c)) 0 c), s)
      else Some (Some c, s)
  end.

Definition processPendingCommandAndInputBuffer (c : client) (s : S) : option (option client * S) :=
  '(c, s) ← (if has_flag c CLIENT_PENDING_COMMAND
             then processCommandAndResetClient (clear_flag CLIENT_PENDING_COMMAND c) s
             else Some (Some c, s));
  match c with
  | None => Some (None, s)
  | Some c => if 0 <? zlen (querybuf c) then processInputBuffer c s else Some (Some c, s)
  end.

(** ** Reading from the connection *)

(** What connRead gives: -1 with the connection still up or not, or the bytes
    that were read (none when the peer has closed). *)
Inductive read_result := NotReady | Broken | Data (b : bytes).

(** The queue of clients to close is not modelled. *)
Definition freeClientAsync (c : client) : client :=
  if has_flag c CLIENT_CLOSE_ASAP || has_flag c CLIENT_SCRIPT then c else add_flag CLIENT_CLOSE_ASAP c.

(** server.client_max_querybuf_len; the result of postponeClientRead; sdsalloc
    of the query buffer, and its sdsavail after room was made for some bytes,
    which depend on the allocator. *)
Context (client_max_querybuf_len : Z) (postponed : bool) (sdsalloc : client -> Z) (sdsavail : client -> Z -> Z).

(** How many bytes are asked for. *)
Definition readlen (c : client) : Z :=
  let big := (reqtype c =? PROTO_REQ_MULTIBULK) && negb (multibulklen c =? 0) && negb (bulklen c =? -1) &&
             (PROTO_MBULK_BIG_ARG <=? bulklen c) in
  let len :=
    if (big : bool) then
      let remaining := bulklen c + 2 - (zlen (querybuf c) - qb_pos c) in
      let len := if 0 <? remaining then remaining else PROTO_IOBUF_LEN in
      if has_flag c CLIENT_MASTER && (len <? PROTO_IOBUF_LEN) then PROTO_IOBUF_LEN else len
    else PROTO_IOBUF_LEN in
  if negb (has_flag c CLIENT_MASTER) && ((big : bool) || (sdsalloc c <? PROTO_IOBUF_LEN)) then len
  else sdsavail c len.

(** Statistics and logs are not modelled; the reading at most as many bytes as
    were asked for is the connection's part. *)
Definition readQueryFromClient (connRead : Z -> read_result) (c : client) (s : S) : option (option client * S) :=
  if postponed then Some (Some c, s)
  else
    match connRead (readlen c) with
    | NotReady => Some (Some c, s)
    | Broken => Some (Some (freeClientAsync c), s)
    | Data [] => Some (Some (freeClientAsync c), s)
    | Data data =>
        let c := set_buf (querybuf c ++ data) (qb_pos c) c in
        let c := if has_flag c CLIENT_MASTER
                 then set_offsets (read_reploff c + zlen data) (reploff c) (repl_applied c) c else c in
        if negb (has_flag c CLIENT_MASTER) && (client_max_querybuf_len <? zlen (querybuf c))
        then Some (Some (freeClientAsync c), s)
        else processInputBuffer c s
    end.

End multibulk.

(** ** Writing commands *)

(** The line of a count: a prefix character, the number, CRLF. *)
Definition count_line (ch n : Z) : option bytes :=
  '(len, buf) ← ll2string (repeat 0 31) 31 n;
  digits ← ldn buf 0 len;
  Some (ch :: digits ++ [CR; LF]).

Fixpoint cat_args (dst : bytes) (args : list bytes) : option bytes :=
  match args with
  | [] => Some dst
  | a :: args => l ← count_line 36 (zlen a); cat_args (dst ++ l ++ a ++ [CR; LF]) args
  end.

Definition catAppendOnlyGenericCommand (dst : bytes) (args : list bytes) : option bytes :=
  l ← count_line 42 (zlen args); cat_args (dst ++ l) args.

(** ** Lines *)

(** What a count is written as. *)
Definition line (ch n : Z) : bytes := default [] (count_line ch n).
Definition enc_bulk (a : bytes) : bytes := line 36 (zlen a) ++ a ++ [CR; LF].
Definition enc_bulks (args : list bytes) : bytes := concat (map enc_bulk args).
Definition enc (args : list bytes) : bytes := line 42 (zlen args) ++ enc_bulks args.
Definition enc_all (cmds : list (list bytes)) : bytes := concat (map enc cmds).

Lemma digit_plain x : is_digit x -> x <> CR /\ x <> 0.
Proof. unfold is_digit, CR. lia. Qed.

Lemma count_line_spec ch n : 0 <= n <= INT64_MAX -> exists ds,
  count_line ch n = Some (line ch n) /\ line ch n = ch :: ds ++ [CR; LF] /\ string2ll ds = Some n /\
  Forall (fun x => x <> CR /\ x <> 0) ds /\ zlen ds < 21.
Proof.
  intros Hn. destruct (ll2string_prints (repeat 0 31) n) as (ds & d' & Hp & Hl & Hd & Hs & Hz);
    [unfold in_s, INT64_MAX in *; lia|done|].
  exists ds. assert (count_line ch n = Some (ch :: ds ++ [CR; LF])) as E.
  { unfold count_line. change 31%Z with (zlen (repeat 0%Z 31)). rewrite Hp. bnd. by rewrite Hl. }
  unfold line. rewrite E. split_and!; try done.
  destruct Hd as [[[Hc _] _] | (r & _ & Hc & H48 & Hv)].
  - eapply Forall_impl; [apply Hc|]. apply digit_plain.
  - pose proof (canonical_pos r Hc H48). lia.
Qed.

Lemma strchr_app ch ds r : Forall (fun x => x <> ch /\ x <> 0) ds -> strchr ch (ds ++ ch :: r) = Some (zlen ds).
Proof.
  induction 1 as [|x ds [H1 H2] Hds IH]; cbn [strchr app]; [by rewrite Z.eqb_refl|].
  rewrite (proj2 (Z.eqb_neq x ch)), (proj2 (Z.eqb_neq x 0)), IH by done. bnd. rewrite zlen_cons. f_equal. lia.
Qed.

Lemma strchr_none ch ds : Forall (fun x => x <> ch /\ x <> 0) ds -> strchr ch ds = None.
Proof.
  induction 1 as [|x ds [H1 H2] Hds IH]; cbn [strchr app]; [done|].
  by rewrite (proj2 (Z.eqb_neq x ch)), (proj2 (Z.eqb_neq x 0)), IH by done.
Qed.

(** A list that agrees with another followed by something: it has all of it,
    or it is a strict prefix. *)
Lemma split_prefix {A} (u F l X : list A) : u ++ F = l ++ X ->
  (exists u', u = l ++ u' /\ u' ++ F = X) \/ (exists l', l = u ++ l' /\ F = l' ++ X /\ l' <> []).
Proof.
  intros E. apply app_eq_inv in E as [(k & -> & ->) | (k & -> & ->)].
  - left. by exists k.
  - destruct k as [|x k]; [|by right; exists (x :: k)]. left. exists []. by rewrite !app_nil_r.
Qed.

(** The line is there, or the search for its end makes the reader wait. *)
Lemma line_prefix ch n u l' : 0 <= n <= INT64_MAX -> ch <> CR -> ch <> 0 -> line ch n = u ++ l' -> l' <> [] ->
  zlen u <= 22 /\ match strchr CR u with Some k => zlen u - 2 < k | None => True end.
Proof.
  intros Hn Hc H0 E Hl. destruct (count_line_spec ch n Hn) as (ds & _ & El & _ & Hds & Hz).
  rewrite El, app_comm_cons in E.
  assert (Forall (fun x => x <> CR /\ x <> 0) (ch :: ds)) as Hp by (constructor; [done|exact Hds]).
  apply app_eq_inv in E as [(k & Hk & ->) | (k & -> & Hk)].
  - rewrite Hk in Hp. apply Forall_app in Hp as [Hp _]. rewrite (strchr_none _ _ Hp).
    split; [|done]. apply (f_equal zlen) in Hk. rewrite zlen_cons, zlen_app in Hk. pose proof (zlen_nonneg k). lia.
  - destruct k as [|x [|y k]].
    + rewrite app_nil_r, (strchr_none _ _ Hp). rewrite zlen_cons. split; [lia|done].
    + pose proof (strchr_app CR (ch :: ds) [] Hp) as Es. simplify_eq/=. rewrite Es.
      rewrite !zlen_cons, zlen_app. change (zlen [CR]) with 1. lia.
    + exfalso. simplify_eq/=. destruct k, l'; simplify_eq.
Qed.

Lemma line_found ch n u X : 0 <= n <= INT64_MAX -> ch <> CR -> ch <> 0 -> u = line ch n ++ X -> exists k,
  strchr CR u = Some k /\ k + 2 = zlen (line ch n) /\ u !! 0%nat = Some ch /\
  string2ll (take (Z.to_nat (k - 1)) (drop 1 u)) = Some n.
Proof.
  intros Hn Hc H0 ->. destruct (count_line_spec ch n Hn) as (ds & _ & El & Hs & Hds & Hz).
  rewrite El. exists (zlen (ch :: ds)). rewrite zlen_cons.
  assert (Forall (fun x => x <> CR /\ x <> 0) (ch :: ds)) as Hp by (constructor; [done|exact Hds]).
  split_and!.
  - change (ch :: ds ++ [CR; LF]) with ((ch :: ds) ++ [CR; LF]). rewrite <-app_assoc. cbn [app].
    change (ch :: ds ++ CR :: LF :: X) with ((ch :: ds) ++ CR :: LF :: X). rewrite strchr_app by done. by rewrite zlen_cons.
  - autorewrite with redis. lia.
  - done.
  - change (drop 1 ((ch :: ds ++ [CR; LF]) ++ X)) with ((ds ++ [CR; LF]) ++ X).
    rewrite <-app_assoc, take_app_length'; [done|]. unfold zlen. lia.
Qed.

(** ** Reading a request *)

Definition pos_ok (c : client) : Prop := 0 <= qb_pos c <= zlen (querybuf c).

(** What the parser does not touch; the buffer of a master is only read. *)
Definition stable (c : client) :=
  (reqtype c, flags c, authRequired c, cmd c, (read_reploff c, reploff c, repl_applied c), replies c).
Definition frame (c c' : client) : Prop :=
  stable c' = stable c /\ (has_flag c CLIENT_MASTER = true -> querybuf c' = querybuf c /\ qb_pos c <= qb_pos c').

Lemma frame_flag c c' f : frame c c' -> has_flag c' f = has_flag c f.
Proof. intros [E _]. unfold stable in E. unfold has_flag. replace (flags c') with (flags c) by congruence. done. Qed.

#[local] Instance frame_refl : Reflexive frame.
Proof. intros c. split; [done|]. intros _. split; [done|lia]. Qed.

#[local] Instance frame_trans : Transitive frame.
Proof.
  intros a b c Hab Hbc. pose proof (frame_flag _ _ CLIENT_MASTER Hab) as Em. destruct Hab as [E1 M1], Hbc as [E2 M2].
  split; [congruence|]. intros Hm. destruct (M1 Hm) as [Eb Hb]. rewrite Em in M2. destruct (M2 Hm) as [Ec Hc].
  split; [congruence|lia].
Qed.

Lemma avail_unread c : pos_ok c -> avail c = zlen (unread c).
Proof. unfold pos_ok, avail, unread, zlen. intros H. rewrite length_drop. lia. Qed.

(** Moving the position forward over what has been read. *)
Lemma advance c l u p : pos_ok c -> unread c = l ++ u -> p = qb_pos c + zlen l ->
  unread (set_buf (querybuf c) p c) = u /\ pos_ok (set_buf (querybuf c) p c) /\ frame c (set_buf (querybuf c) p c).
Proof.
  intros Hp Hu ->. pose proof (avail_unread c Hp) as Ha. rewrite Hu, zlen_app in Ha.
  unfold pos_ok, avail in *. cbn. pose proof (zlen_nonneg l). pose proof (zlen_nonneg u). split_and!; [|lia|lia|split; [done|]].
  - unfold unread in *. cbn. rewrite Z2Nat.inj_add by lia. rewrite <-drop_drop, Hu. unfold zlen.
    rewrite Nat2Z.id, drop_app_length. done.
  - intros _. cbn. split; [done|lia].
Qed.

(** Dropping what has been read from the buffer. *)
Lemma trim c : pos_ok c -> unread (set_buf (sdsrange_from (querybuf c) (qb_pos c)) 0 c) = unread c /\
  pos_ok (set_buf (sdsrange_from (querybuf c) (qb_pos c)) 0 c).
Proof. intros Hp. split; [done|]. unfold pos_ok. cbn. split; [lia|apply zlen_nonneg]. Qed.

Section reading.
Context (proto_max_bulk_len : Z) (Hmax : proto_max_bulk_len <= INT64_MAX - 2).

(** An argument that a client may send. *)
Definition arg_ok (a : bytes) : Prop := zlen a <= proto_max_bulk_len.

Lemma arg_ok_range a : arg_ok a -> 0 <= zlen a <= INT64_MAX.
Proof using Hmax. unfold arg_ok. pose proof (zlen_nonneg a). lia. Qed.

(** The length of the next argument is read, or the reader waits for more. *)
Lemma read_bulklen_spec c a F X : pos_ok c -> authRequired c = false -> arg_ok a -> bulklen c = -1 ->
  unread c ++ F = enc_bulk a ++ X ->
  (exists c', read_bulklen proto_max_bulk_len c = Some (inr c') /\ frame c c' /\ pos_ok c' /\
     multibulklen c' = multibulklen c /\ argv c' = argv c /\ argv_len c' = argv_len c /\
     bulklen c' = zlen a /\ unread c' ++ F = a ++ [CR; LF] ++ X) \/
  (read_bulklen proto_max_bulk_len c = Some (inl (c, false)) /\ zlen (unread c) < zlen (enc_bulk a)).
Proof using Hmax.
  intros Hp Hau Ha Hb E. pose proof (arg_ok_range a Ha) as Hr. unfold read_bulklen. rewrite Hb. cbn [negb Z.eqb].
  rewrite (avail_unread c Hp). unfold enc_bulk in E. rewrite <-app_assoc in E.
  apply split_prefix in E as [(u' & Hu & E) | (l' & El & -> & Hl)].
  - left. destruct (line_found 36 (zlen a) (unread c) u' Hr) as (k & -> & Hk & -> & ->); [done|done|done|]. bnd.
    rewrite Hu, zlen_app. pose proof (zlen_nonneg u'). rewrite (proj2 (Z.ltb_ge _ k)) by lia. cbn [negb Z.eqb].
    change (36 =? 36) with true. cbn [negb]. unfold arg_ok in Ha.
    replace ((zlen a <? 0) || (negb (has_flag c CLIENT_MASTER) && (proto_max_bulk_len <? zlen a))) with false
      by (destruct (has_flag c CLIENT_MASTER); cbn; lia).
    rewrite Hau, andb_false_r.
    destruct (advance c _ _ (qb_pos c + k + 2) Hp Hu ltac:(lia)) as (Ha1 & Ha2 & Ha3).
    set (c1 := set_buf _ (qb_pos c + k + 2) c) in *. rewrite <-app_assoc in E.
    destruct (_ && (avail c1 <=? zlen a + 2)) eqn:Et; eexists; (split; [reflexivity|]); split_and!; try done.
    + split; [done|]. intros Hm. unfold c1 in Et. rewrite (frame_flag c _ _ Ha3), Hm in Et. done.
    + apply (trim c1 Ha2).
    + cbn. change (unread c1 ++ F = a ++ [CR; LF] ++ X). by rewrite Ha1.
    + cbn. change (unread c1 ++ F = a ++ [CR; LF] ++ X). by rewrite Ha1.
  - right. destruct (line_prefix 36 (zlen a) (unread c) l' Hr) as [H22 Hs]; [done|done|done|done|].
    split; [|unfold enc_bulk; rewrite El, !zlen_app; pose proof (zlen_nonneg a); change (zlen [CR; LF]) with 2;
      pose proof (zlen_nonneg l'); lia].
    destruct (strchr CR (unread c)) as [k|]; [by rewrite (proj2 (Z.ltb_lt _ _) Hs)|].
    by rewrite (proj2 (Z.ltb_ge PROTO_INLINE_MAX_SIZE _)) by (unfold PROTO_INLINE_MAX_SIZE; lia).
Qed.

(** The argument is there. *)
Lemma read_bulk_spec c a u : pos_ok c -> bulklen c = zlen a -> unread c = a ++ [CR; LF] ++ u ->
  1 <= argv_len c -> zlen (argv c) <= argv_len c -> 0 < multibulklen c -> zlen (argv c) + multibulklen c <= INT_MAX ->
  exists c', read_bulk c = Some c' /\ frame c c' /\ pos_ok c' /\ multibulklen c' = multibulklen c - 1 /\
    argv c' = argv c ++ [a] /\ 1 <= argv_len c' /\ zlen (argv c') <= argv_len c' /\ bulklen c' = -1 /\ unread c' = u.
Proof using.
  intros Hp Hb Hu Hl1 Hl2 Hm Hmx. unfold read_bulk. set (cap := if _ <=? _ then _ else _).
  pose proof (zlen_nonneg (argv c)) as Hargc.
  assert (zlen (argv c) < cap) as Hcap.
  { unfold cap. case_if E1; [|lia]. destruct (argv_len c <? Z.quot INT_MAX 2); lia. }
  rewrite (proj2 (Z.ltb_lt _ _) Hcap). cbn [negb].
  assert (ldn (querybuf c) (qb_pos c) (bulklen c) = Some a) as ->.
  { rewrite Hb. eapply (ldn_at' _ (take (Z.to_nat (qb_pos c)) (querybuf c)) a ([CR; LF] ++ u)); [|..|done].
    - rewrite <-Hu. unfold unread. by rewrite take_drop.
    - unfold pos_ok in Hp. unfold zlen in *. rewrite length_take. lia. }
  bnd. eexists. split; [reflexivity|].
  destruct (advance c (a ++ [CR; LF]) u (qb_pos c + bulklen c + 2) Hp) as (A1 & A2 & A3);
    [by rewrite <-app_assoc|rewrite zlen_app; change (zlen [CR; LF]) with 2; lia|].
  destruct (_ && (zlen (querybuf c) =? bulklen c + 2)) eqn:Eb.
  - bool_hyps. assert (u = []) as ->.
    { apply (f_equal zlen) in Hu. rewrite !zlen_app, <-(avail_unread c Hp) in Hu. unfold avail in Hu.
      change (zlen [CR; LF]) with 2 in Hu. destruct u; [done|]. rewrite zlen_cons in Hu. pose proof (zlen_nonneg u). lia. }
    split_and!; cbn; try done; try lia.
    + split; [done|]. intros Hma. cbn. congruence.
    + rewrite zlen_app. change (zlen [a]) with 1. lia.
  - split_and!; cbn; try done; try lia.
    rewrite zlen_app. change (zlen [a]) with 1. lia.
Qed.

(** What is left of a request with the arguments [todo] still to read, the
    first of them already announced when [b] is its length. *)
Definition rest_bytes (b : Z) (todo : list bytes) : bytes :=
  match todo with
  | a :: t => (if b =? -1 then enc_bulk a else a ++ [CR; LF]) ++ enc_bulks t
  | [] => []
  end.
Definition bulk_ok (b : Z) (todo : list bytes) : Prop :=
  b = -1 \/ exists a t, todo = a :: t /\ b = zlen a.

(** Within a request: [todo] is not read yet. *)
Record midway (c : client) (todo : list bytes) : Prop := {
  mid_pos : pos_ok c;
  mid_auth : authRequired c = false;
  mid_len : multibulklen c = zlen todo;
  mid_bulk : bulk_ok (bulklen c) todo;
  mid_cap : 1 <= argv_len c /\ zlen (argv c) <= argv_len c;
  mid_max : zlen (argv c) + zlen todo <= INT_MAX }.

Lemma enc_bulks_rest todo : enc_bulks todo = rest_bytes (-1) todo.
Proof. by destruct todo. Qed.

Lemma frame_auth c c' : frame c c' -> authRequired c' = authRequired c.
Proof. intros [E _]. unfold stable in E. congruence. Qed.

(** One argument more, or a wait. *)
Lemma next_arg c a t F X : midway c (a :: t) -> arg_ok a ->
  unread c ++ F = rest_bytes (bulklen c) (a :: t) ++ X ->
  exists r, read_bulklen proto_max_bulk_len c = Some r /\
  match r with
  | inl (c', _) => c' = c /\ zlen (unread c) < zlen (rest_bytes (bulklen c) (a :: t))
  | inr c1 =>
      frame c c1 /\ argv c1 = argv c /\
      if avail c1 <? bulklen c1 + 2
      then midway c1 (a :: t) /\ unread c1 ++ F = rest_bytes (bulklen c1) (a :: t) ++ X /\
           zlen (unread c1) < zlen (rest_bytes (bulklen c1) (a :: t))
      else exists c', read_bulk c1 = Some c' /\ frame c c' /\ midway c' t /\ argv c' = argv c ++ [a] /\ bulklen c' = -1 /\
           unread c' ++ F = enc_bulks t ++ X
  end.
Proof using Hmax.
  intros [Hp Hau Hl Hb [Hc1 Hc2] Hmx] Ha E. rewrite zlen_cons in *. pose proof (zlen_nonneg t).
  assert (forall c1, frame c c1 -> pos_ok c1 -> multibulklen c1 = multibulklen c -> argv c1 = argv c ->
    argv_len c1 = argv_len c -> bulklen c1 = zlen a -> unread c1 ++ F = a ++ [CR; LF] ++ enc_bulks t ++ X ->
    frame c c1 /\ argv c1 = argv c /\
      if avail c1 <? bulklen c1 + 2
      then midway c1 (a :: t) /\ unread c1 ++ F = rest_bytes (bulklen c1) (a :: t) ++ X /\
           zlen (unread c1) < zlen (rest_bytes (bulklen c1) (a :: t))
      else exists c', read_bulk c1 = Some c' /\ frame c c' /\ midway c' t /\ argv c' = argv c ++ [a] /\ bulklen c' = -1 /\
           unread c' ++ F = enc_bulks t ++ X) as Hgo.
  { intros c1 F1 P1 M1 A1 L1 B1 E1. split; [done|]. split; [done|]. rewrite (avail_unread c1 P1).
    pose proof (zlen_nonneg a). pose proof (zlen_nonneg (enc_bulks t)).
    destruct (_ <? _) eqn:Et; bool_hyps.
    - unfold rest_bytes. rewrite (proj2 (Z.eqb_neq (bulklen c1) (-1))) by lia. split_and!.
      + constructor; rewrite ?A1, ?L1, ?M1, ?zlen_cons; try done; [by rewrite (frame_auth _ _ F1)|right; eauto].
      + by rewrite <-!app_assoc.
      + rewrite !zlen_app. change (zlen [CR; LF]) with 2. lia.
    - rewrite app_assoc in E1. apply split_prefix in E1 as [(u & Hu & E1) | (l' & El & _ & Hn)].
      + rewrite <-app_assoc in Hu. destruct (read_bulk_spec c1 a u P1 B1 Hu) as
          (c' & Hr & F2 & P2 & M2 & A2 & L2 & L3 & B2 & U2); [rewrite ?L1, ?A1, ?M1; lia..|].
        exists c'. split; [done|]. split; [by etrans|]. split_and!; [|by rewrite A2, A1|done|by rewrite U2].
        constructor; try done; [by rewrite (frame_auth _ _ F2), (frame_auth _ _ F1)|lia|by left|].
        rewrite A2, A1, zlen_app. change (zlen [a]) with 1. lia.
      + exfalso. apply (f_equal zlen) in El. rewrite !zlen_app in El. change (zlen [CR; LF]) with 2 in El.
        destruct l'; [done|]. rewrite zlen_cons in El. pose proof (zlen_nonneg l'). lia. }
  unfold rest_bytes in E. destruct Hb as [Hb | (a' & t' & Ht & Hb)].
  - rewrite Hb in E. cbn [Z.eqb] in E. change (-1 =? -1) with true in E. cbn iota in E. rewrite <-app_assoc in E.
    destruct (read_bulklen_spec c a F _ Hp Hau Ha Hb E) as [(c1 & Hr & F1 & P1 & M1 & A1 & L1 & B1 & U1) | [Hr Hs]].
    + exists (inr c1). split; [done|]. by apply Hgo.
    + exists (inl (c, false)). split; [done|]. split; [done|]. unfold rest_bytes. rewrite Hb.
      change (-1 =? -1) with true. cbn iota. rewrite zlen_app. pose proof (zlen_nonneg (enc_bulks t)). lia.
  - injection Ht as <- <-. pose proof (zlen_nonneg a). rewrite (proj2 (Z.eqb_neq (bulklen c) (-1))) in E by lia.
    rewrite <-!app_assoc in E. exists (inr c). unfold read_bulklen.
    rewrite (proj2 (Z.eqb_neq (bulklen c) (-1))) by lia. split; [done|]. by apply Hgo.
Qed.

(** The loop over the arguments reads them all, or stops midway for lack of
    bytes. *)
Lemma multibulk_loop_spec todo c F X : midway c todo -> Forall arg_ok todo ->
  (todo = [] -> bulklen c = -1) ->
  unread c ++ F = rest_bytes (bulklen c) todo ++ X ->
  exists ok c', multibulk_loop proto_max_bulk_len (length todo) c = Some (ok, c') /\ frame c c' /\
    if (ok : bool)
    then midway c' [] /\ bulklen c' = -1 /\ argv c' = argv c ++ todo /\ unread c' ++ F = X
    else exists d t, todo = d ++ t /\ t <> [] /\ argv c' = argv c ++ d /\ midway c' t /\
      unread c' ++ F = rest_bytes (bulklen c') t ++ X /\ zlen (unread c') < zlen (rest_bytes (bulklen c') t).
Proof using Hmax.
  revert c. induction todo as [|a t IH]; intros c Hm Hok Hnil E.
  - exists true, c. cbn. rewrite (mid_len _ _ Hm). cbn. split; [done|].
    split; [reflexivity|]. rewrite app_nil_r. auto.
  - apply Forall_cons in Hok as [Ha Hok].
    destruct (next_arg c a t F X Hm Ha E) as (r & Hr & Hgo). cbn [multibulk_loop length].
    pose proof (mid_len _ _ Hm) as Hl. rewrite zlen_cons in Hl. pose proof (zlen_nonneg t).
    rewrite (proj2 (Z.eqb_neq (multibulklen c) 0)), Hr by lia. bnd. destruct r as [[c' b] | c1].
    + destruct Hgo as [-> Hs]. exists false, c. split; [done|]. split; [reflexivity|].
      exists [], (a :: t). rewrite app_nil_r. split_and!; done.
    + destruct Hgo as (F1 & A1 & Hgo). destruct (avail c1 <? _).
      * destruct Hgo as (M1 & U1 & Hs). exists false, c1. split; [done|]. split; [done|].
        exists [], (a :: t). rewrite app_nil_r. split_and!; done.
      * destruct Hgo as (c' & Hrb & F2 & M2 & A2 & B2 & U2). rewrite Hrb. bnd.
        rewrite enc_bulks_rest, <-B2 in U2. destruct (IH c' M2 Hok ltac:(done) U2) as (ok & c'' & Hlp & F3 & H3).
        exists ok, c''. split; [done|]. split; [by etrans|]. destruct ok.
        -- destruct H3 as (M3 & B3 & A3 & U3). split_and!; [done|done|by rewrite A3, A2, <-app_assoc|done].
        -- destruct H3 as (d & t' & -> & Ht & A3 & M3 & U3 & S3). exists (a :: d), t'.
           split_and!; [done|done|by rewrite A3, A2, <-app_assoc|done..].
Qed.

(** A command that a client may send. *)
Definition cmd_ok (args : list bytes) : Prop := args <> [] /\ zlen args <= INT_MAX /\ Forall arg_ok args.

(** Between requests. *)
Record fresh (c : client) : Prop := {
  fresh_pos : pos_ok c;
  fresh_auth : authRequired c = false;
  fresh_mbulk : multibulklen c = 0;
  fresh_bulk : bulklen c = -1;
  fresh_argv : argv c = [] }.

(** The client is reading the request [args], of which [rem] remains. *)
Definition reading (c : client) (args : list bytes) (rem : bytes) : Prop :=
  (fresh c /\ rem = enc args) \/
  (exists t, args = argv c ++ t /\ t <> [] /\ midway c t /\ rem = rest_bytes (bulklen c) t).

Lemma line_nonempty ch n : 0 <= n <= INT64_MAX -> 3 <= zlen (line ch n).
Proof using.
  intros Hn. destruct (count_line_spec ch n Hn) as (ds & _ & -> & _). rewrite zlen_cons, zlen_app.
  change (zlen [CR; LF]) with 2. pose proof (zlen_nonneg ds). lia.
Qed.

Lemma cmd_ok_range args : cmd_ok args -> 0 < zlen args <= INT64_MAX.
Proof using.
  intros (Hn & Hm & _). unfold INT_MAX, INT32_MAX, INT64_MAX in *. destruct args; [done|]. rewrite zlen_cons in *.
  pose proof (zlen_nonneg args). lia.
Qed.

Lemma rest_bytes_pos b t : Forall arg_ok t -> t <> [] -> 0 < zlen (rest_bytes b t).
Proof using Hmax.
  intros Ht Hn. destruct t as [|a t]; [done|]. apply Forall_cons in Ht as [Ha _]. cbn [rest_bytes]. rewrite zlen_app.
  pose proof (zlen_nonneg (enc_bulks t)). pose proof (zlen_nonneg a).
  pose proof (line_nonempty 36 (zlen a) (arg_ok_range a Ha)).
  destruct (b =? -1); unfold enc_bulk; rewrite ?zlen_app; change (zlen [CR; LF]) with 2; lia.
Qed.

Lemma rest_bytes_le b t : zlen (rest_bytes b t) <= zlen (enc_bulks t).
Proof using.
  destruct t as [|a t]; [done|]. cbn [rest_bytes]. unfold enc_bulks at 2. cbn [map concat]. fold (enc_bulks t).
  rewrite !zlen_app. destruct (b =? -1); [lia|]. unfold enc_bulk. rewrite !zlen_app.
  pose proof (zlen_nonneg (line 36 (zlen a))). lia.
Qed.

Lemma enc_bulks_app d t : enc_bulks (d ++ t) = enc_bulks d ++ enc_bulks t.
Proof using. unfold enc_bulks. by rewrite map_app, concat_app. Qed.

Lemma reading_bounds c args rem : cmd_ok args -> reading c args rem -> 0 < zlen rem <= zlen (enc args).
Proof using Hmax.
  intros Hok Hr. pose proof (line_nonempty 42 (zlen args)) as Hl. pose proof (cmd_ok_range _ Hok).
  specialize (Hl ltac:(lia)). unfold enc. rewrite zlen_app. destruct Hr as [[_ ->] | (t & -> & Hn & _ & ->)].
  - unfold enc. rewrite zlen_app. pose proof (zlen_nonneg (enc_bulks args)). lia.
  - destruct Hok as (_ & _ & Hok). apply Forall_app in Hok as [_ Hok]. split; [by apply rest_bytes_pos|].
    pose proof (rest_bytes_le (bulklen c) t). rewrite enc_bulks_app, (zlen_app (enc_bulks (argv c))). pose proof (zlen_nonneg (enc_bulks (argv c))). lia.
Qed.

Lemma processMultibulkBuffer_spec c args rem F X : cmd_ok args -> reading c args rem -> unread c ++ F = rem ++ X ->
  exists ok c', processMultibulkBuffer proto_max_bulk_len c = Some (ok, c') /\ frame c c' /\
    if (ok : bool) then midway c' [] /\ argv c' = args /\ unread c' ++ F = X
    else exists rem', reading c' args rem' /\ unread c' ++ F = rem' ++ X /\ zlen (unread c') < zlen rem'.
Proof using Hmax.
  intros Hok Hr E. pose proof (reading_bounds _ _ _ Hok Hr) as Hb. pose proof (cmd_ok_range _ Hok) as Hz.
  assert (forall c1, frame c c1 -> argv c1 = argv c -> forall t, args = argv c1 ++ t -> t <> [] -> midway c1 t ->
    unread c1 ++ F = rest_bytes (bulklen c1) t ++ X ->
    exists ok c', multibulk_loop proto_max_bulk_len (length t) c1 = Some (ok, c') /\ frame c c' /\
      if (ok : bool) then midway c' [] /\ argv c' = args /\ unread c' ++ F = X
      else exists rem', reading c' args rem' /\ unread c' ++ F = rem' ++ X /\ zlen (unread c') < zlen rem') as Hloop.
  { intros c1 F1 A1 t Ht Hn M1 U1. assert (Forall arg_ok t) as Ha.
    { destruct Hok as (_ & _ & Hok). rewrite Ht in Hok. by apply Forall_app in Hok as [_ ?]. }
    destruct (multibulk_loop_spec t c1 F X M1 Ha ltac:(done) U1) as (ok & c' & Hlp & F2 & H2).
    exists ok, c'. split; [done|]. split; [by etrans|]. destruct ok.
    - destruct H2 as (M2 & _ & A2 & U2). split_and!; [done|by rewrite A2|done].
    - destruct H2 as (d & t' & -> & Hn' & A2 & M2 & U2 & S2). exists (rest_bytes (bulklen c') t').
      split_and!; [|done|done]. right. exists t'. split_and!; [by rewrite A2, <-app_assoc|done|done|done]. }
  unfold processMultibulkBuffer. destruct Hr as [[[Hp Hau Hm Hbl Hav] ->] | (t & Ht & Hn & Hmid & ->)].
  - rewrite Hm, Hav. cbn [Z.eqb zlen]. change (negb (zlen (@nil bytes) =? 0)) with false. cbn iota.
    rewrite (avail_unread c Hp). unfold enc in E. rewrite <-app_assoc in E.
    apply split_prefix in E as [(u & Hu & E) | (l' & El & -> & Hl)].
    + destruct (line_found 42 (zlen args) (unread c) u) as (k & -> & Hk & -> & ->); [lia|done|done|done|]. bnd.
      rewrite Hu, zlen_app. pose proof (zlen_nonneg u). rewrite (proj2 (Z.ltb_ge _ k)) by lia.
      change (42 =? 42) with true. cbn [negb]. destruct Hok as (Hne & Hmx & Ha).
      rewrite (proj2 (Z.ltb_ge INT_MAX _)) by lia. rewrite Hau, andb_false_r. rewrite (proj2 (Z.leb_gt _ 0)) by lia.
      destruct (advance c _ _ (qb_pos c + k + 2) Hp Hu ltac:(lia)) as (A1 & A2 & A3).
      replace (Z.to_nat (zlen args)) with (length args) by (unfold zlen; lia). apply Hloop; cbn; rewrite ?Hav; try done.
      * constructor; cbn; try done; [by left|]. change (zlen (@nil bytes)) with 0. lia.
      * change (unread (set_buf (querybuf c) (qb_pos c + k + 2) c) ++ F = rest_bytes (bulklen c) args ++ X).
        by rewrite A1, Hbl, <-enc_bulks_rest.
    + destruct (line_prefix 42 (zlen args) (unread c) l') as [H22 Hs]; [lia|done|done|done|done|].
      exists false, c. split.
      * destruct (strchr CR (unread c)) as [k|]; [by rewrite (proj2 (Z.ltb_lt _ _) Hs)|].
        by rewrite (proj2 (Z.ltb_ge PROTO_INLINE_MAX_SIZE _)) by (unfold PROTO_INLINE_MAX_SIZE; lia).
      * split; [reflexivity|]. exists (enc args). split_and!; [by left|..].
        -- unfold enc. by rewrite <-app_assoc, El, <-app_assoc.
        -- unfold enc. rewrite zlen_app, El, zlen_app. destruct l'; [done|]. rewrite zlen_cons.
           pose proof (zlen_nonneg l'). pose proof (zlen_nonneg (enc_bulks args)). lia.
  - pose proof (mid_len _ _ Hmid) as Hl. destruct t as [|a t]; [done|]. rewrite zlen_cons in Hl.
    pose proof (zlen_nonneg t). rewrite (proj2 (Z.eqb_neq (multibulklen c) 0)), (proj2 (Z.ltb_ge _ 0)) by lia.
    replace (Z.to_nat (multibulklen c)) with (length (a :: t)) by (rewrite Hl; unfold zlen; cbn; lia).
    by apply Hloop.
Qed.

Section running.
(** Commands that run to completion: the client is kept, neither blocked nor
    marked to be closed; [lookupCommand] finds the command.  [exec] is its
    effect: given whether the client is in a transaction (then the command is
    queued, or it is EXEC or DISCARD), it gives whether the client is in one
    afterwards (as after MULTI) and changes the rest of the server. *)
Context {S : Type} (lookupCommand : list bytes -> option redisCommandProc) (exec : bool -> list bytes -> S -> bool * S)
  (feed : bytes -> S -> S).
Definition set_multi (m : bool) (c : client) : client :=
  set_flags (if m then Z.lor (flags c) CLIENT_MULTI else Z.land (flags c) (Z.lnot CLIENT_MULTI)) c.
Definition run_command (c : client) (s : S) : outcome S :=
  let '(m, s) := exec (has_flag c CLIENT_MULTI) (argv c) s in
  Processed (set_cmd (lookupCommand (argv c)) (set_multi m c)) s.

(** A normal client, or the link to the master, in a transaction or not. *)
Definition flag_ok (c : client) : Prop :=
  flags c ∈ [0; CLIENT_MASTER; CLIENT_MULTI; Z.lor CLIENT_MASTER CLIENT_MULTI].

(** What one command does: it is executed, and when it comes from the master
    it is forwarded to the replicas, unless the client is then in a
    transaction: its bytes are kept, and forwarded with those of the command
    that ends the transaction. *)
Definition one_command (master : bool) (st : bool * S * bytes) (args : list bytes) : bool * S * bytes :=
  let '(m, s, pend) := st in
  let '(m, s) := exec m args s in
  if negb master then (m, s, [])
  else if (m : bool) then (m, s, pend ++ enc args)
  else (m, feed (pend ++ enc args) s, []).

(** The offsets of a master, and its buffer, which holds everything since the
    last command that was applied: the commands of the current transaction and
    what is to be executed. *)
Definition master_ok (c : client) (pend : bytes) (cmds : list (list bytes)) (F : bytes) : Prop :=
  has_flag c CLIENT_MASTER = true ->
  reploff c = read_reploff c - zlen (querybuf c) + repl_applied c /\ 0 <= repl_applied c <= qb_pos c /\
  drop (Z.to_nat (repl_applied c)) (querybuf c) ++ F = pend ++ enc_all cmds.

(** [cmds] are the commands that have not been executed, [F] what has not
    arrived of them, [pend] what was executed and not forwarded. *)
Record inv (c : client) (pend : bytes) (cmds : list (list bytes)) (F : bytes) : Prop := {
  inv_flags : flag_ok c;
  inv_master : master_ok c pend cmds F;
  inv_parse : (fresh c /\ reqtype c = 0 /\ unread c ++ F = enc_all cmds) \/
    exists args rest rem, cmds = args :: rest /\ reqtype c = PROTO_REQ_MULTIBULK /\ reading c args rem /\
      unread c ++ F = rem ++ enc_all rest }.

Lemma flag_ok_cases c : flag_ok c -> flags c = 0 \/ flags c = CLIENT_MASTER \/ flags c = CLIENT_MULTI \/
  flags c = Z.lor CLIENT_MASTER CLIENT_MULTI.
Proof using. unfold flag_ok. rewrite !elem_of_cons, elem_of_nil. tauto. Qed.

Lemma set_multi_spec m c : flag_ok c -> flag_ok (set_multi m c) /\ has_flag (set_multi m c) CLIENT_MULTI = m /\
  has_flag (set_multi m c) CLIENT_MASTER = has_flag c CLIENT_MASTER.
Proof using.
  intros Hf%flag_ok_cases. unfold flag_ok, has_flag, set_multi. cbn [flags set_flags].
  destruct Hf as [-> | [-> | [-> | ->]]], m; (split; [|done]); apply (bool_decide_unpack _); done.
Qed.

Lemma resetClient_spec c : flag_ok c ->
  resetClient c = set_cmd None (set_lens 0 (-1) (set_reqtype 0 (set_argv [] 0 0 c))).
Proof using. intros Hf%flag_ok_cases. destruct c. cbn in Hf. destruct Hf as [-> | [-> | [-> | ->]]]; destruct cmd0 as [[]|]; reflexivity. Qed.

Lemma flag_ok_clear c : flag_ok c -> has_flag c CLIENT_BLOCKED = false /\ has_flag c CLIENT_PENDING_COMMAND = false /\
  has_flag c (Z.lor CLIENT_CLOSE_AFTER_REPLY CLIENT_CLOSE_ASAP) = false.
Proof using. unfold has_flag. by intros [-> | [-> | [-> | ->]]]%flag_ok_cases. Qed.

(** The bytes since the last command that was applied. *)
Lemma applied_bytes c pend args rest F : pos_ok c -> cmd_ok args -> has_flag c CLIENT_MASTER = true ->
  master_ok c pend (args :: rest) F -> unread c ++ F = enc_all rest ->
  let applied := qb_pos c - repl_applied c in
  0 < applied /\ ldn (querybuf c) (repl_applied c) applied = Some (pend ++ enc args).
Proof using.
  intros Hp Hok Em Hm Hu applied. destruct (Hm Em) as (Hoff & Hra & Hd).
  unfold enc_all in Hd. cbn [map concat] in Hd. fold (enc_all rest) in Hd. rewrite app_assoc in Hd.
  assert (zlen (drop (Z.to_nat (repl_applied c)) (querybuf c)) = applied + zlen (unread c)) as Hz.
  { unfold applied. rewrite <-(avail_unread c Hp). unfold pos_ok in Hp. unfold avail, zlen in *. rewrite length_drop. lia. }
  assert (zlen (pend ++ enc args) = applied) as Eenc.
  { apply (f_equal zlen) in Hd, Hu. rewrite !zlen_app in *. lia. }
  split.
  - rewrite <-Eenc. unfold enc. rewrite !zlen_app. pose proof (line_nonempty 42 (zlen args)) as Hl.
    pose proof (cmd_ok_range _ Hok). pose proof (zlen_nonneg (enc_bulks args)). pose proof (zlen_nonneg pend).
    specialize (Hl ltac:(lia)). lia.
  - apply split_prefix in Hd as [(u' & Hd & _) | (l' & El & _ & Hn)].
    + eapply (ldn_at' _ (take (Z.to_nat (repl_applied c)) (querybuf c)) (pend ++ enc args) u'); [|..|done].
      * by rewrite <-Hd, take_drop.
      * unfold pos_ok in Hp. unfold zlen in *. rewrite length_take. lia.
    + apply (f_equal zlen) in El. rewrite Eenc, zlen_app in El. pose proof (zlen_nonneg (unread c)).
      destruct l'; [done|]. rewrite zlen_cons in El. pose proof (zlen_nonneg l'). lia.
Qed.

(** A command that is complete is executed; what is forwarded are its bytes,
    after those of the transaction that it ends. *)
Lemma process_spec c s pend args rest F : midway c [] -> argv c = args -> cmd_ok args -> flag_ok c ->
  (has_flag c CLIENT_MASTER = false -> pend = []) ->
  master_ok c pend (args :: rest) F -> unread c ++ F = enc_all rest ->
  exists c' m' s' pend', processCommandAndResetClient run_command feed c s = Some (Some c', s') /\
    one_command (has_flag c CLIENT_MASTER) (has_flag c CLIENT_MULTI, s, pend) args = (m', s', pend') /\
    has_flag c' CLIENT_MULTI = m' /\ (has_flag c CLIENT_MASTER = false -> pend' = []) /\
    has_flag c' CLIENT_MASTER = has_flag c CLIENT_MASTER /\ inv c' pend' rest F /\ unread c' = unread c /\
    read_reploff c' = read_reploff c.
Proof using.
  intros [Hp Hau _ _ _ _] <- Hok Hf Hnp Hm Hu. set (args := argv c) in *.
  unfold processCommandAndResetClient, run_command, commandProcessed, one_command. fold args.
  destruct (exec (has_flag c CLIENT_MULTI) args s) as [m s1].
  destruct (set_multi_spec m c Hf) as (Hf1 & Em1 & Ema). destruct (flag_ok_clear _ Hf1) as (Hb & _ & _).
  set (c1 := set_cmd _ _). change (has_flag c1 CLIENT_BLOCKED) with (has_flag (set_multi m c) CLIENT_BLOCKED). rewrite Hb.
  rewrite (resetClient_spec c1) by done. set (c2 := set_cmd None _).
  change (has_flag c2 CLIENT_MULTI) with (has_flag (set_multi m c) CLIENT_MULTI). rewrite Em1.
  change (has_flag c2 CLIENT_MASTER) with (has_flag (set_multi m c) CLIENT_MASTER). rewrite Ema.
  destruct (has_flag c CLIENT_MASTER) eqn:Em; cbn [andb negb].
  - destruct (Hm Em) as (Hoff & Hra & Hd). destruct (applied_bytes c pend args rest F Hp Hok Em Hm Hu) as [Hap Hld].
    destruct m; cbn [negb].
    + change (has_flag c2 CLIENT_MASTER) with (has_flag (set_multi true c) CLIENT_MASTER). rewrite Ema.
      change (reploff c2) with (reploff c). rewrite Z.sub_diag. change (0 =? 0) with true. cbn iota. bnd.
      eexists c2, true, s1, (pend ++ enc args). split_and!; try done. constructor; [done| |by left].
      intros _. cbn. unfold pos_ok in Hp. split_and!; [done|lia|lia|]. rewrite Hd, <- app_assoc. done.
    + change (has_flag (set_offsets _ _ _ c2) CLIENT_MASTER) with (has_flag (set_multi false c) CLIENT_MASTER). rewrite Ema.
      set (applied := _ - _).
      assert (applied = qb_pos c - repl_applied c) as Eap by (unfold applied; cbn; lia).
      rewrite <- Eap in Hap, Hld. rewrite (proj2 (Z.eqb_neq applied 0)) by lia. cbn [querybuf set_offsets repl_applied].
      change (querybuf c2) with (querybuf c). change (repl_applied c2) with (repl_applied c). rewrite Hld. bnd.
      eexists _, _, _, _. split; [reflexivity|]. split; [reflexivity|]. split; [done|]. split; [done|]. split; [done|]. split; [|done].
      constructor; [done| |by left]. intros _. cbn. unfold pos_ok in Hp. split; [lia|]. split; [lia|].
      replace (repl_applied c + applied) with (qb_pos c) by lia. done.
  - change (has_flag c2 CLIENT_MASTER) with (has_flag (set_multi m c) CLIENT_MASTER). rewrite Ema. bnd.
    eexists c2, m, s1, []. split_and!; try done.
    constructor; [done| |by left]. unfold master_ok.
    change (has_flag c2 CLIENT_MASTER) with (has_flag (set_multi m c) CLIENT_MASTER). by rewrite Ema.
Qed.

(** The first command of [cmds] is not complete. *)
Definition waiting (cmds : list (list bytes)) (F : bytes) : Prop :=
  match cmds with [] => F = [] | _ :: r => zlen (enc_all r) < zlen F end.

Lemma enc_all_cons a r : enc_all (a :: r) = enc a ++ enc_all r.
Proof using. done. Qed.

Lemma frame_ok c c' pend cmds F : flag_ok c -> master_ok c pend cmds F -> frame c c' -> flag_ok c' /\ master_ok c' pend cmds F.
Proof using.
  intros Hf Hm Hfr. pose proof (frame_flag c c' CLIENT_MASTER Hfr) as Em. destruct Hfr as [E Hq].
  unfold stable in E. split.
  - unfold flag_ok. by replace (flags c') with (flags c) by congruence.
  - unfold master_ok. rewrite Em. intros Ht. destruct (Hq Ht) as [-> Hp]. destruct (Hm Ht) as (H1 & H2 & H3).
    replace (reploff c') with (reploff c) by congruence. replace (read_reploff c') with (read_reploff c) by congruence.
    replace (repl_applied c') with (repl_applied c) by congruence. split_and!; [done|lia|lia|done].
Qed.

Lemma inv_pos c pend cmds F : inv c pend cmds F -> pos_ok c.
Proof using.
  intros [_ _ [([? _ _ _ _] & _) | (? & ? & ? & _ & _ & Hr & _)]]; [done|].
  by destruct Hr as [[[? _ _ _ _] _] | (? & _ & _ & [? _ _ _ _ _] & _)].
Qed.

(** Nothing to read: the first command is not complete. *)
Lemma inv_empty c pend cmds F : Forall cmd_ok cmds -> inv c pend cmds F -> unread c = [] -> waiting cmds F.
Proof using Hmax.
  intros Hok Hi Hn. destruct (inv_parse _ _ _ _ Hi) as [(Hfr & _ & Hu) | (args & rest & rem & -> & _ & Hrd & Hu)];
    rewrite Hn in Hu; cbn [app] in Hu; subst F.
  - destruct cmds as [|args rest]; [done|]. apply Forall_cons in Hok as [Hok _]. cbn [waiting].
    assert (reading c args (enc args)) as Hrd by (left; done).
    pose proof (reading_bounds _ _ _ Hok Hrd). rewrite enc_all_cons, zlen_app. lia.
  - apply Forall_cons in Hok as [Hok _]. cbn [waiting]. pose proof (reading_bounds _ _ _ Hok Hrd). rewrite zlen_app. lia.
Qed.

Lemma input_loop_empty fuel c s : pos_ok c -> unread c = [] ->
  input_loop proto_max_bulk_len run_command feed false true fuel c s = Some (Some c, s).
Proof using.
  intros Hp Hn. pose proof (avail_unread c Hp) as Ha. rewrite Hn in Ha. unfold avail in Ha.
  change (zlen (@nil Z)) with 0 in Ha. destruct fuel; cbn [input_loop]; by rewrite (proj2 (Z.ltb_ge _ _)) by lia.
Qed.

(** A request has been started, with the type it has. *)
Lemma inv_start c pend cmds F first : Forall cmd_ok cmds -> inv c pend cmds F -> unread c !! 0%nat = Some first ->
  let c1 := if reqtype c =? 0
            then set_reqtype (if first =? 42 then PROTO_REQ_MULTIBULK else PROTO_REQ_INLINE) c else c in
  exists args rest rem, cmds = args :: rest /\ flag_ok c1 /\ reqtype c1 = PROTO_REQ_MULTIBULK /\
    master_ok c1 pend cmds F /\ reading c1 args rem /\ unread c1 ++ F = rem ++ enc_all rest /\ unread c1 = unread c /\
    read_reploff c1 = read_reploff c /\ flags c1 = flags c.
Proof using.
  intros Hok [Hf Hm [(Hfr & Hr & Hu) | (args & rest & rem & -> & Hr & Hrd & Hu)]] Hfirst; rewrite Hr; cbn zeta.
  - change (0 =? 0) with true. cbn iota. destruct cmds as [|args rest].
    + apply app_eq_nil in Hu as [Hu _]. by rewrite Hu in Hfirst.
    + apply Forall_cons in Hok as [Hok _]. pose proof (cmd_ok_range _ Hok).
      destruct (count_line_spec 42 (zlen args)) as (ds & _ & El & _); [lia|].
      assert (first = 42) as ->.
      { assert ((unread c ++ F) !! 0%nat = Some first) as Hx by (by apply lookup_app_l_Some).
        rewrite Hu, enc_all_cons in Hx. unfold enc in Hx. rewrite El in Hx. by injection Hx. }
      exists args, rest, (enc args). change (42 =? 42) with true. cbn iota.
      split_and!; try done. left. by destruct Hfr.
  - change (PROTO_REQ_MULTIBULK =? 0) with false. cbn iota. exists args, rest, rem. done.
Qed.

(** The client and the server after the commands [dn]. *)
Definition after (c : client) (s : S) (pend : bytes) (dn : list (list bytes)) (c' : client) (s' : S) (pend' : bytes) : Prop :=
  foldl (one_command (has_flag c CLIENT_MASTER)) (has_flag c CLIENT_MULTI, s, pend) dn =
    (has_flag c' CLIENT_MULTI, s', pend') /\
  has_flag c' CLIENT_MASTER = has_flag c CLIENT_MASTER /\ (has_flag c CLIENT_MASTER = false -> pend' = []).

Lemma flags_same c c' : flags c = flags c' -> forall f, has_flag c' f = has_flag c f.
Proof using. intros E f. unfold has_flag. by rewrite E. Qed.

(** The loop executes the commands that are complete, in order. *)
Lemma input_loop_spec fuel c pend cmds F s : Forall cmd_ok cmds -> inv c pend cmds F -> (length (unread c) <= fuel)%nat ->
  (has_flag c CLIENT_MASTER = false -> pend = []) ->
  exists c' s' pend' dn rest, input_loop proto_max_bulk_len run_command feed false true fuel c s = Some (Some c', s') /\
    after c s pend dn c' s' pend' /\ cmds = dn ++ rest /\ inv c' pend' rest F /\ waiting rest F /\
    read_reploff c' = read_reploff c.
Proof using Hmax.
  revert c pend cmds s. induction fuel as [|fuel IH]; intros c pend cmds s Hok Hi Hfu Hnp.
  all: pose proof (inv_pos _ _ _ _ Hi) as Hp; destruct (decide (unread c = [])) as [Hn | Hn];
    [exists c, s, pend, [], cmds; split_and!; [by apply input_loop_empty|done|done|done|by eapply inv_empty|done]|].
  - destruct (unread c); [done|cbn in Hfu; lia].
  - destruct (unread c !! 0%nat) as [first|] eqn:Hfirst; [|by destruct (unread c)].
    pose proof (inv_start c pend cmds F first Hok Hi Hfirst) as Hst. cbn zeta in Hst.
    destruct (flag_ok_clear c (inv_flags _ _ _ _ Hi)) as (Hb1 & Hb2 & Hb3).
    cbn [input_loop]. rewrite (proj2 (Z.ltb_lt (qb_pos c) _)), Hb1, Hb2, Hb3, Hfirst; cycle 1.
    { pose proof (avail_unread c Hp) as Ha. unfold avail in Ha. destruct (unread c); [done|]. rewrite zlen_cons in Ha.
      pose proof (zlen_nonneg l). lia. }
    cbn [negb andb]. bnd. set (c1 := if reqtype c =? 0 then _ else _) in *.
    destruct Hst as (args & rest & rem & -> & Hf & Hr & Hm & Hrd & Hu & Huu & Ero & Eflag).
    rewrite Hr. change (PROTO_REQ_MULTIBULK =? PROTO_REQ_INLINE) with false.
    change (PROTO_REQ_MULTIBULK =? PROTO_REQ_MULTIBULK) with true. cbn iota.
    pose proof Hok as [Hok1 Hok2]%Forall_cons. pose proof (reading_bounds _ _ _ Hok1 Hrd) as Hbd.
    destruct (processMultibulkBuffer_spec c1 args rem F (enc_all rest) Hok1 Hrd Hu) as (ok & c2 & -> & Hfr & H2). bnd.
    assert (flags c2 = flags c) as Eflag2 by (destruct Hfr as [E _]; unfold stable in E; congruence).
    pose proof (flags_same c c2 (eq_sym Eflag2)) as Eh.
    assert (read_reploff c2 = read_reploff c1) as Er2 by (destruct Hfr as [E _]; unfold stable in E; congruence).
    destruct ok; cbn [negb].
    + destruct H2 as (Hmid & Ha & Hu2). pose proof (cmd_ok_range _ Hok1).
      rewrite Ha, (proj2 (Z.eqb_neq (zlen args) 0)) by lia.
      destruct (frame_ok _ _ _ _ _ Hf Hm Hfr) as [Hf2 Hm2].
      destruct (process_spec c2 s pend args rest F Hmid Ha Hok1 Hf2) as (c3 & m3 & s3 & pend3 & -> & Eo & Em3 & Hn3 & Ef3 & Hi3 & Hu3 & Er3);
        [by rewrite Eh|done|done|]. bnd. rewrite !Eh in *.
      destruct (IH c3 pend3 rest s3 Hok2 Hi3) as (c' & s' & pend' & dn & rest' & Hlp & Hafter & -> & Hi' & Hw & Er').
      { rewrite Hu3. rewrite <-Huu in Hfu. apply (f_equal zlen) in Hu, Hu2. rewrite !zlen_app in *. unfold zlen in *. lia. }
      { by rewrite Ef3. }
      exists c', s', pend', (args :: dn), rest'. split_and!; [by rewrite Hlp| |done|done|done|congruence].
      unfold after in *. cbn [foldl]. rewrite Eo, <- Em3, <- Ef3. done.
    + destruct H2 as (rem' & Hrd2 & Hu2 & Hs). exists c2, s, pend, [], (args :: rest). split_and!; [done| |done| | |congruence].
      * unfold after. cbn [foldl]. by rewrite !Eh.
      * destruct (frame_ok _ _ _ _ _ Hf Hm Hfr) as [Hf2 Hm2]. constructor; [done|done|]. right.
        exists args, rest, rem'. split_and!; [done| |done|done]. destruct Hfr as [E _]. unfold stable in E. congruence.
      * cbn [waiting]. apply (f_equal zlen) in Hu2. rewrite !zlen_app in Hu2. lia.
Qed.

(** Changes of the buffer and the offsets that keep what is to be read. *)
Lemma inv_rebuf c b p r o a pend cmds F F' : let c' := set_offsets r o a (set_buf b p c) in
  inv c pend cmds F -> pos_ok c' -> unread c' ++ F' = unread c ++ F -> master_ok c' pend cmds F' -> inv c' pend cmds F'.
Proof using.
  cbn zeta. intros [Hf _ Hpa] Hp Hu Hm. constructor; [done|done|].
  destruct Hpa as [([H1 H2 H3 H4 H5] & Hr & E) | (args & rest & rem & -> & Hr & Hrd & E)]; [left|right].
  - split_and!; [done|done|congruence].
  - exists args, rest, rem. split_and!; [done|done| |congruence].
    destruct Hrd as [[[H1 H2 H3 H4 H5] ->] | (t & Ht & Hn & [H1 H2 H3 H4 H5 H6] & ->)]; [by left|right].
    exists t. done.
Qed.

(** Between two reads. *)
Definition settled (c : client) (pend : bytes) (cmds : list (list bytes)) (F : bytes) : Prop :=
  inv c pend cmds F /\ waiting cmds F /\ (has_flag c CLIENT_MASTER = false -> qb_pos c = 0 /\ pend = []).

Lemma processInputBuffer_spec c pend cmds F s : Forall cmd_ok cmds -> inv c pend cmds F ->
  (has_flag c CLIENT_MASTER = false -> pend = []) ->
  exists c' s' pend' dn rest, processInputBuffer proto_max_bulk_len run_command feed false true c s = Some (Some c', s') /\
    after c s pend dn c' s' pend' /\ cmds = dn ++ rest /\ settled c' pend' rest F /\ read_reploff c' = read_reploff c.
Proof using Hmax.
  intros Hok Hi Hnp. destruct (input_loop_spec (length (unread c)) c pend cmds F s Hok Hi (le_n _) Hnp)
    as (c1 & s1 & pend1 & dn & rest & Hl & Ha & -> & Hi1 & Hw & Er).
  unfold processInputBuffer. rewrite Hl. bnd. pose proof (inv_pos _ _ _ _ Hi1) as Hp. pose proof (inv_master _ _ _ _ Hi1) as Hm.
  assert (has_flag c1 CLIENT_MASTER = false -> pend1 = []) as Hn1 by (destruct Ha as (_ & Ef & Hn); by rewrite Ef).
  destruct (has_flag c1 CLIENT_MASTER) eqn:Em.
  - destruct (Hm Em) as (Hoff & Hra & Hd). destruct (repl_applied c1 =? 0) eqn:E0; cbn [negb].
    + exists c1, s1, pend1, dn, rest. split_and!; try done. split_and!; [done|done|congruence].
    + eexists _, s1, pend1, dn, rest. split_and!; [done|exact Ha|done| |done].
      assert (unread (set_buf (sdsrange_from (querybuf c1) (repl_applied c1)) (qb_pos c1 - repl_applied c1) c1) = unread c1) as Hu.
      { unfold unread, sdsrange_from. cbn. rewrite drop_drop. f_equal. lia. }
      split_and!; [|done|intros Hx; exfalso; change (has_flag c1 CLIENT_MASTER = false) in Hx; congruence].
      apply (inv_rebuf c1 _ _ _ _ _ pend1 rest F F Hi1).
      * unfold pos_ok in *. cbn. unfold sdsrange_from, zlen in *. rewrite length_drop. lia.
      * cbn. change (unread (set_buf (sdsrange_from (querybuf c1) (repl_applied c1)) (qb_pos c1 - repl_applied c1) c1) ++ F = unread c1 ++ F).
        by rewrite Hu.
      * intros _. cbn. unfold sdsrange_from. split_and!; [|lia|lia|done]. unfold pos_ok in Hp.
        unfold zlen in *. rewrite length_drop. lia.
  - specialize (Hn1 eq_refl). destruct (qb_pos c1 =? 0) eqn:E0; cbn [negb].
    + exists c1, s1, pend1, dn, rest. split_and!; try done. split_and!; [done|done|]. intros _. split; [lia|done].
    + eexists _, s1, pend1, dn, rest. split_and!; [done|exact Ha|done| |done].
      destruct (trim c1 Hp) as [Hu Hp']. split_and!; [|done|done].
      apply (inv_rebuf c1 _ _ (read_reploff c1) (reploff c1) (repl_applied c1) pend1 rest F F Hi1); [done|exact (f_equal (.++ F) Hu)|].
      intros Hx. change (has_flag c1 CLIENT_MASTER = true) in Hx. congruence.
Qed.

Section serving.
Context (client_max_querybuf_len : Z) (sdsalloc : client -> Z) (sdsavail : client -> Z -> Z).

Lemma readQueryFromClient_spec c ch pend cmds F s : Forall cmd_ok cmds -> settled c pend cmds (ch ++ F) -> ch <> [] ->
  (has_flag c CLIENT_MASTER = false -> forall a, a ∈ cmds -> zlen (enc a) + zlen ch <= client_max_querybuf_len) ->
  exists c' s' pend' dn rest, readQueryFromClient proto_max_bulk_len run_command feed false true client_max_querybuf_len false
      sdsalloc sdsavail (fun _ => Data ch) c s = Some (Some c', s') /\
    after c s pend dn c' s' pend' /\ cmds = dn ++ rest /\ settled c' pend' rest F /\
    (has_flag c CLIENT_MASTER = true -> read_reploff c' = read_reploff c + zlen ch).
Proof using Hmax.
  intros Hok (Hi & Hw & Hq) Hch Hlim. unfold readQueryFromClient.
  pose proof (inv_pos _ _ _ _ Hi) as Hp. pose proof (inv_master _ _ _ _ Hi) as Hm.
  set (c1 := set_buf (querybuf c ++ ch) (qb_pos c) c).
  assert (pos_ok c1) as Hp1 by (unfold pos_ok in *; cbn; rewrite zlen_app; pose proof (zlen_nonneg ch); lia).
  assert (unread c1 ++ F = unread c ++ ch ++ F) as Hu1.
  { unfold unread, c1. cbn. unfold pos_ok, zlen in Hp. rewrite drop_app_le by lia. by rewrite <-app_assoc. }
  change (has_flag c1 CLIENT_MASTER) with (has_flag c CLIENT_MASTER).
  set (c2 := if has_flag c CLIENT_MASTER then set_offsets _ _ _ c1 else c1).
  assert (inv c2 pend cmds F /\ flags c2 = flags c /\ zlen (querybuf c2) = zlen (querybuf c) + zlen ch /\
    (has_flag c CLIENT_MASTER = true -> read_reploff c2 = read_reploff c + zlen ch)) as (Hi2 & Efl & Hz2 & Er2).
  { unfold c2. destruct (has_flag c CLIENT_MASTER) eqn:Em; (split; [|cbn; rewrite zlen_app; done]).
    - destruct (Hm Em) as (Hoff & Hra & Hd). apply (inv_rebuf c _ _ _ _ _ pend cmds (ch ++ F) F Hi); [done|done|].
      intros _. cbn. rewrite zlen_app. unfold pos_ok, zlen in *. split_and!; [lia|lia|lia|].
      rewrite drop_app_le by lia. by rewrite <-app_assoc.
    - apply (inv_rebuf c _ _ (read_reploff c) (reploff c) (repl_applied c) pend cmds (ch ++ F) F Hi); [done|done|].
      intros Hx. change (has_flag c CLIENT_MASTER = true) in Hx. congruence. }
  pose proof (flags_same c c2 (eq_sym Efl)) as Ef2.
  destruct (processInputBuffer_spec c2 pend cmds F s Hok Hi2) as (c' & s' & pend' & dn & rest & Hpi & Ha' & -> & Hs & Er);
    [rewrite Ef2; tauto|].
  exists c', s', pend', dn, rest. unfold after in *. rewrite !Ef2 in Ha'.
  split; [|split_and!; [apply Ha'|apply Ha'|apply Ha'|done|done|intros Hx; rewrite Er; by apply Er2]].
  destruct ch as [|x ch]; [done|]. fold c1. fold c2. rewrite ?Ef2.
  assert (negb (has_flag c CLIENT_MASTER) && (client_max_querybuf_len <? zlen (querybuf c2)) = false) as ->; [|done].
  destruct (has_flag c CLIENT_MASTER); [done|]. cbn [negb andb]. apply Z.ltb_ge. rewrite Hz2.
  pose proof (avail_unread c Hp) as Ha. unfold avail in Ha. rewrite (proj1 (Hq eq_refl)) in Ha.
  destruct (dn ++ rest) as [|a r]; [done|]. specialize (Hlim eq_refl a ltac:(left)). cbn [waiting] in Hw.
  apply Forall_cons in Hok as [Hok _].
  destruct (inv_parse _ _ _ _ Hi) as [(_ & _ & E) | (args & rs & rem & Eq & _ & Hrd & E)].
  - rewrite enc_all_cons in E. apply (f_equal zlen) in E. rewrite !zlen_app in *. lia.
  - injection Eq as <- <-. pose proof (reading_bounds _ _ _ Hok Hrd). apply (f_equal zlen) in E. rewrite !zlen_app in *. lia.
Qed.

(** The connection gives these reads, one after the other. *)
Fixpoint serve (chunks : list bytes) (c : client) (s : S) : option (option client * S) :=
  match chunks with
  | [] => Some (Some c, s)
  | ch :: chunks =>
      '(c, s) ← readQueryFromClient proto_max_bulk_len run_command feed false true client_max_querybuf_len false
                  sdsalloc sdsavail (fun _ => Data ch) c s;
      match c with
      | None => Some (None, s)
      | Some c => serve chunks c s
      end
  end.

Lemma serve_spec chunks c pend cmds F s : Forall cmd_ok cmds -> settled c pend cmds (concat chunks ++ F) ->
  Forall (.≠ []) chunks ->
  (has_flag c CLIENT_MASTER = false -> forall ch a, ch ∈ chunks -> a ∈ cmds -> zlen (enc a) + zlen ch <= client_max_querybuf_len) ->
  exists c' s' pend' dn rest, serve chunks c s = Some (Some c', s') /\ after c s pend dn c' s' pend' /\
    cmds = dn ++ rest /\ settled c' pend' rest F /\
    (has_flag c CLIENT_MASTER = true -> read_reploff c' = read_reploff c + zlen (concat chunks)).
Proof using Hmax.
  revert c pend cmds s. induction chunks as [|ch chunks IH]; intros c pend cmds s Hok Hs Hne Hlim.
  - exists c, s, pend, [], cmds. split_and!; try done; [split_and!; try done; intros Hx; destruct Hs as (_ & _ & Hs); by apply Hs|].
    intros _. change (zlen (concat [])) with 0. lia.
  - cbn [concat] in Hs. rewrite <-app_assoc in Hs. apply Forall_cons in Hne as [Hch Hne].
    destruct (readQueryFromClient_spec c ch pend cmds (concat chunks ++ F) s Hok Hs Hch)
      as (c1 & s1 & pend1 & dn & rest & Hr & (Ha1 & Ef1 & Hn1) & -> & Hs1 & Er1).
    { intros Hx a Ha. apply Hlim; [done|by left|done]. }
    apply Forall_app in Hok as [_ Hok].
    destruct (IH c1 pend1 rest s1 Hok Hs1 Hne) as (c' & s' & pend' & dn' & rest' & Hr' & (Ha' & Ef' & Hn') & -> & Hs' & Er').
    { intros Hx ch' a Hch' Ha. apply Hlim; [congruence|by right|]. apply elem_of_app. by right. }
    exists c', s', pend', (dn ++ dn'), rest'. cbn [serve]. rewrite Hr. bnd. rewrite Hr'.
    split_and!; [done| |by rewrite <-app_assoc|done|].
    + split_and!; [by rewrite foldl_app, Ha1, <- Ef1|congruence|by rewrite <- Ef1].
    + intros Hx. cbn [concat]. rewrite zlen_app. rewrite Er', Er1 by congruence. lia.
Qed.

End serving.
End running.
End reading.

(** ** The commands as they are written *)

Lemma cat_args_spec args dst : Forall (fun a => zlen a <= INT64_MAX) args -> cat_args dst args = Some (dst ++ enc_bulks args).
Proof.
  intros Ha. revert dst. induction Ha as [|a args Ha _ IH]; intros dst; cbn [cat_args]; [by rewrite app_nil_r|].
  destruct (count_line_spec 36 (zlen a)) as (ds & -> & _); [pose proof (zlen_nonneg a); lia|]. bnd. rewrite IH.
  unfold enc_bulks. cbn [map concat]. unfold enc_bulk at 2. by rewrite <-!app_assoc.
Qed.

Lemma catAppendOnlyGenericCommand_spec dst args pm : pm <= INT64_MAX - 2 -> cmd_ok pm args ->
  catAppendOnlyGenericCommand dst args = Some (dst ++ enc args).
Proof.
  intros Hpm Hok. pose proof (cmd_ok_range pm _ Hok). unfold catAppendOnlyGenericCommand.
  destruct (count_line_spec 42 (zlen args)) as (ds & -> & _); [lia|]. bnd. rewrite cat_args_spec.
  - unfold enc. by rewrite <-app_assoc.
  - destruct Hok as (_ & _ & Hok). eapply Forall_impl; [apply Hok|]. unfold arg_ok. intros a Ha. lia.
Qed.

(** The encodings of the commands, one after the other. *)
Fixpoint request_stream (dst : bytes) (cmds : list (list bytes)) : option bytes :=
  match cmds with
  | [] => Some dst
  | args :: cmds => dst ← catAppendOnlyGenericCommand dst args; request_stream dst cmds
  end.

Lemma request_stream_spec dst cmds pm : pm <= INT64_MAX - 2 -> Forall (cmd_ok pm) cmds ->
  request_stream dst cmds = Some (dst ++ enc_all cmds).
Proof.
  intros Hpm Ha. revert dst. induction Ha as [|args cmds Ha _ IH]; intros dst; cbn [request_stream]; [by rewrite app_nil_r|].
  rewrite (catAppendOnlyGenericCommand_spec _ _ pm Hpm Ha). bnd. rewrite IH, enc_all_cons. by rewrite <-app_assoc.
Qed.

Lemma enc_all_app a b : enc_all (a ++ b) = enc_all a ++ enc_all b.
Proof. unfold enc_all. by rewrite map_app, concat_app. Qed.

(** How a stream is cut when the commands [dn] have been executed. *)
Lemma stream_cut R F dn rest pm c pend : pm <= INT64_MAX - 2 -> Forall (cmd_ok pm) rest -> R ++ F = enc_all (dn ++ rest) ->
  inv c pend rest F -> waiting rest F ->
  exists partial, R = enc_all dn ++ partial /\ partial ++ F = enc_all rest /\
    match rest with
    | [] => partial = []
    | next :: _ => exists missing, missing <> [] /\ enc next = partial ++ missing
    end.
Proof.
  intros Hpm Hok E Hi Hw. rewrite enc_all_app in E. apply app_eq_inv in E as [(p & -> & E) | (k & Hk & E)].
  - exists p. split_and!; [done|done|]. destruct rest as [|next r]; [by symmetry in E; apply app_eq_nil in E as [? _]|].
    rewrite enc_all_cons in E. symmetry in E. apply split_prefix in E as [(u & -> & E) | (l' & El & _ & Hn)]; [|by exists l'].
    exfalso. cbn [waiting] in Hw. rewrite <-E, zlen_app in Hw. pose proof (zlen_nonneg u). lia.
  - assert (k = []) as ->.
    { destruct (inv_parse _ _ _ _ Hi) as [(_ & _ & Hu) | (args & r & rem & -> & _ & Hrd & Hu)].
      - subst F. apply (f_equal zlen) in Hu. rewrite !zlen_app in Hu. pose proof (zlen_nonneg (unread c)).
        destruct k; [done|]. rewrite zlen_cons in Hu. pose proof (zlen_nonneg k). lia.
      - apply Forall_cons in Hok as [Hok _]. pose proof (reading_bounds pm Hpm _ _ _ Hok Hrd).
        subst F. apply (f_equal zlen) in Hu. rewrite enc_all_cons, !zlen_app in Hu. pose proof (zlen_nonneg (unread c)).
        destruct k; [done|]. rewrite zlen_cons in Hu. pose proof (zlen_nonneg k). lia. }
    exists []. rewrite app_nil_r in *. cbn [app] in *. subst R. split_and!; [done|done|].
    destruct rest as [|next r]; [done|]. exists (enc next). split; [|done].
    cbn [waiting] in Hw. rewrite E, enc_all_cons, zlen_app in Hw. intros Hx. rewrite Hx in Hw. change (zlen (@nil Z)) with 0 in Hw. lia.
Qed.

(** A client with nothing read and nothing pending. *)
Definition connected (c : client) : Prop :=
  querybuf c = [] /\ qb_pos c = 0 /\ reqtype c = 0 /\ multibulklen c = 0 /\ bulklen c = -1 /\ argv c = [] /\
  authRequired c = false.

Lemma connected_settled c cmds F pm : pm <= INT64_MAX - 2 -> Forall (cmd_ok pm) cmds -> connected c -> flag_ok c ->
  (has_flag c CLIENT_MASTER = true -> repl_applied c = 0 /\ reploff c = read_reploff c) -> F = enc_all cmds ->
  settled c [] cmds F.
Proof.
  intros Hpm Hok (Hq & Hp & Hr & Hm & Hb & Ha & Hau) Hf Hma ->.
  assert (unread c = []) as Hu by (unfold unread; by rewrite Hq, Hp).
  assert (inv c [] cmds (enc_all cmds)) as Hi.
  { constructor; [done| |left].
    - intros Hx. destruct (Hma Hx) as [-> ->]. rewrite Hq, Hp. change (zlen (@nil Z)) with 0. split_and!; [lia|lia|lia|done].
    - split_and!; [|done|by rewrite Hu]. constructor; try done. unfold pos_ok. rewrite Hq, Hp. done. }
  split_and!; [done| |done]. by eapply inv_empty.
Qed.

Lemma settled_connected c pend : settled c pend [] [] -> has_flag c CLIENT_MASTER = false -> connected c.
Proof.
  intros (Hi & _ & Hq) Hm. destruct (inv_parse _ _ _ _ Hi) as [([Hp Hau Hml Hbl Ha] & Hr & Hu) | (? & ? & ? & ? & _)]; [|done].
  destruct (Hq Hm) as [Hq' _]. clear Hq. rename Hq' into Hq. apply app_eq_nil in Hu as [Hu _]. unfold unread in Hu. rewrite Hq in Hu. by split_and!.
Qed.

(** Serving a stream of commands cut into reads. *)
Lemma serve_stream {S} lookupCommand (exec : bool -> list bytes -> S -> bool * S) feed pm maxlen alloc av cmds chunks F c s :
  pm <= INT64_MAX - 2 -> Forall (cmd_ok pm) cmds -> Forall (.≠ []) chunks ->
  (has_flag c CLIENT_MASTER = false -> forall ch a, ch ∈ chunks -> a ∈ cmds -> zlen (enc a) + zlen ch <= maxlen) ->
  request_stream [] cmds = Some (concat chunks ++ F) -> connected c -> flag_ok c ->
  (has_flag c CLIENT_MASTER = true -> repl_applied c = 0 /\ reploff c = read_reploff c) ->
  exists c' s' pend dn rest partial,
    serve pm lookupCommand exec feed maxlen alloc av chunks c s = Some (Some c', s') /\
    after exec feed c s [] dn c' s' pend /\
    cmds = dn ++ rest /\ request_stream [] dn = Some (enc_all dn) /\ concat chunks = enc_all dn ++ partial /\
    settled c' pend rest F /\
    (has_flag c CLIENT_MASTER = true -> read_reploff c' = read_reploff c + zlen (concat chunks)) /\
    partial ++ F = enc_all rest /\
    match rest with
    | [] => partial = []
    | next :: _ => exists missing, missing <> [] /\ catAppendOnlyGenericCommand [] next = Some (partial ++ missing)
    end.
Proof.
  intros Hpm Hok Hne Hlim Hst Hc Hf Hma. rewrite (request_stream_spec _ _ pm Hpm Hok) in Hst. injection Hst as Hst. cbn [app] in Hst.
  destruct (serve_spec pm Hpm lookupCommand exec feed maxlen alloc av chunks c [] cmds F s Hok) as (c' & s' & pend & dn & rest & Hs & Haf & -> & Hset & Er);
    [by eapply connected_settled|done|done|].
  apply Forall_app in Hok as [Hok1 Hok2]. destruct Hset as (Hi & Hw & Hq).
  destruct (stream_cut (concat chunks) F dn rest pm c' pend Hpm Hok2) as (p & Hp1 & Hp2 & Hp3); [done|done|done|].
  exists c', s', pend, dn, rest, p. split_and!; try done; [apply (request_stream_spec [] dn pm Hpm Hok1)|].
  destruct rest as [|next r]; [done|]. destruct Hp3 as (missing & Hmi & He). exists missing. split; [done|].
  apply Forall_cons in Hok2 as [Hn _]. by rewrite (catAppendOnlyGenericCommand_spec _ _ pm Hpm Hn), He.
Qed.

Lemma flag_master_false c : flags c = 0 -> has_flag c CLIENT_MASTER = false.
Proof. unfold has_flag. by intros ->. Qed.
Lemma flag_master_true c : flags c = CLIENT_MASTER -> has_flag c CLIENT_MASTER = true.
Proof. unfold has_flag. by intros ->. Qed.
(** Outside the master link the flags are the transaction's. *)
Lemma flag_ok_flags c : flag_ok c ->
  flags c = Z.lor (if has_flag c CLIENT_MASTER then CLIENT_MASTER else 0) (if has_flag c CLIENT_MULTI then CLIENT_MULTI else 0).
Proof. unfold has_flag. by intros [E | [E | [E | E]]]%flag_ok_cases; rewrite E. Qed.

(** A client that is not a master forwards nothing. *)
Lemma one_command_client {S} (exec : bool -> list bytes -> S -> bool * S) feed dn : forall m s m' s' pend,
  foldl (one_command exec feed false) (m, s, []) dn = (m', s', pend) ->
  foldl (fun '(m, s) args => exec m args s) (m, s) dn = (m', s').
Proof.
  induction dn as [|args dn IH]; intros m s m' s' pend; cbn [foldl]; [by intros [= -> -> _]|].
  unfold one_command at 2. destruct (exec m args s) as [m1 s1]. apply IH.
Qed.

(** Outside a transaction everything executed has been forwarded. *)
Lemma one_command_pend {S} (exec : bool -> list bytes -> S -> bool * S) feed dn : forall (m : bool) s p m' s' p',
  (m = false -> p = []) -> foldl (one_command exec feed true) (m, s, p) dn = (m', s', p') -> m' = false -> p' = [].
Proof.
  induction dn as [|args dn IH]; intros m s p m' s' p' Hp; cbn [foldl]; [by intros [= <- _ <-]|].
  unfold one_command at 2. destruct (exec m args s) as [[] s1]; cbn [negb]; apply IH; done.
Qed.

(** ** Properties *)

(** C28: commands that arrive in the format catAppendOnlyGenericCommand writes
    are executed exactly once and in order, however the stream is cut into
    reads: after any number of reads the commands executed are those whose
    last byte has arrived, what is left over is a strict prefix of the next
    command, and when nothing is left over the client is as it was.  The
    commands are any that neither block nor close the client; of its flags
    they change the one of a transaction, as MULTI, EXEC and DISCARD do. *)
Theorem commands_executed_in_order {S} (lookupCommand : list bytes -> option redisCommandProc)
    (exec : bool -> list bytes -> S -> bool * S) (feed : bytes -> S -> S) (proto_max_bulk_len client_max_querybuf_len : Z)
    (sdsalloc : client -> Z) (sdsavail : client -> Z -> Z) (cmds : list (list bytes)) (chunks : list bytes) (F : bytes)
    (c : client) (s : S) :
  proto_max_bulk_len <= INT64_MAX - 2 -> Forall (cmd_ok proto_max_bulk_len) cmds -> Forall (.≠ []) chunks ->
  (forall ch args, ch ∈ chunks -> args ∈ cmds -> zlen (enc args) + zlen ch <= client_max_querybuf_len) ->
  request_stream [] cmds = Some (concat chunks ++ F) -> connected c -> flags c = 0 ->
  exists c' s' (m : bool) dn rest received partial,
    serve proto_max_bulk_len lookupCommand exec feed client_max_querybuf_len sdsalloc sdsavail chunks c s = Some (Some c', s') /\
    foldl (fun '(m, s) args => exec m args s) (false, s) dn = (m, s') /\
    cmds = dn ++ rest /\ request_stream [] dn = Some received /\ concat chunks = received ++ partial /\
    flags c' = (if m then CLIENT_MULTI else 0) /\
    match rest with
    | [] => partial = [] /\ F = [] /\ connected c'
    | next :: _ => exists missing, missing <> [] /\ catAppendOnlyGenericCommand [] next = Some (partial ++ missing)
    end.
Proof.
  intros Hpm Hok Hne Hlim Hst Hc Hf0. assert (flag_ok c) as Hf by (unfold flag_ok; rewrite Hf0; by left).
  pose proof (flag_master_false c Hf0) as Em.
  destruct (serve_stream lookupCommand exec feed _ client_max_querybuf_len sdsalloc sdsavail cmds chunks F c s Hpm Hok Hne)
    as (c' & s' & pend & dn & rest & p & Hs & (Haf & Ef & _) & -> & Hrs & Hcut & Hset & _ & HpF & Hp); [auto|done|done|done|congruence|].
  assert (has_flag c CLIENT_MULTI = false) as Emu by (unfold has_flag; by rewrite Hf0). rewrite Em, Emu in Haf. rewrite Em in Ef.
  exists c', s', (has_flag c' CLIENT_MULTI), dn, rest, (enc_all dn), p. split_and!; [done|by eapply one_command_client|done|done|done| |].
  - destruct Hset as ([Hf' _ _] & _). rewrite (flag_ok_flags c' Hf') at 1. rewrite Ef. done.
  - destruct rest as [|next r]; [|done]. apply app_eq_nil in HpF as [-> ->]. split_and!; [done|done|].
    by eapply settled_connected.
Qed.

(** C29: a replica executes the commands of its master in order and forwards
    to its own replicas exactly their bytes, however the stream is cut into
    reads.  Outside a transaction each command is forwarded as soon as it has
    been executed and the applied offset moves to its end; from MULTI on
    nothing is forwarded and the applied offset stays where the transaction
    began ([pend] are the bytes since then, kept in the buffer), until the
    command that ends the transaction forwards all of it in one piece.  The
    offset of what has been read counts every byte.  The commands are any that
    neither block nor close the client. *)
Theorem master_stream_forwarded {S} (lookupCommand : list bytes -> option redisCommandProc)
    (exec : bool -> list bytes -> S -> bool * S) (feed : bytes -> S -> S) (proto_max_bulk_len client_max_querybuf_len : Z)
    (sdsalloc : client -> Z) (sdsavail : client -> Z -> Z) (cmds : list (list bytes)) (chunks : list bytes) (F : bytes)
    (c : client) (s : S) :
  proto_max_bulk_len <= INT64_MAX - 2 -> Forall (cmd_ok proto_max_bulk_len) cmds -> Forall (.≠ []) chunks ->
  request_stream [] cmds = Some (concat chunks ++ F) -> connected c -> flags c = CLIENT_MASTER ->
  repl_applied c = 0 -> reploff c = read_reploff c ->
  exists c' s' (m : bool) pend dn rest received partial,
    serve proto_max_bulk_len lookupCommand exec feed client_max_querybuf_len sdsalloc sdsavail chunks c s = Some (Some c', s') /\
    foldl (fun st args =>
             let '(m, s, pend) := st in
             let '(m, s) := exec m args s in
             if m : bool then (m, s, pend ++ enc args) else (m, feed (pend ++ enc args) s, []))
          (false, s, []) dn = (m, s', pend) /\
    cmds = dn ++ rest /\ request_stream [] dn = Some received /\ concat chunks = received ++ partial /\
    flags c' = (if m then Z.lor CLIENT_MASTER CLIENT_MULTI else CLIENT_MASTER) /\ (m = false -> pend = []) /\
    reploff c' = reploff c + zlen received - zlen pend /\
    read_reploff c' = reploff c' + zlen (pend ++ partial) /\
    drop (Z.to_nat (repl_applied c')) (querybuf c') = pend ++ partial.
Proof.
  intros Hpm Hok Hne Hst Hc Hfm Hra Hoff. assert (flag_ok c) as Hf by (unfold flag_ok; rewrite Hfm; right; by left).
  pose proof (flag_master_true c Hfm) as Em.
  destruct (serve_stream lookupCommand exec feed _ client_max_querybuf_len sdsalloc sdsavail cmds chunks F c s Hpm Hok Hne)
    as (c' & s' & pend & dn & rest & p & Hs & (Haf & Ef & _) & -> & Hrs & Hcut & Hset & Er & HpF & Hp); [congruence|done|done|done|done|].
  assert (has_flag c CLIENT_MULTI = false) as Emu by (unfold has_flag; by rewrite Hfm).
  rewrite Em, Emu in Haf. rewrite Em in Ef. specialize (Er Em). destruct Hset as ([Hf' Hm' Hpa] & _ & _). destruct (Hm' Ef) as (Ho & Hr & Hd).
  assert (drop (Z.to_nat (repl_applied c')) (querybuf c') = pend ++ p) as Hdp.
  { rewrite <-HpF, app_assoc in Hd. by apply app_inj_2 in Hd as [? _]. }
  assert (zlen (querybuf c') - repl_applied c' = zlen (pend ++ p)) as Hz.
  { rewrite <-Hdp. assert (pos_ok c') as Hpo by (eapply inv_pos; by constructor). unfold pos_ok in Hpo.
    unfold zlen in *. rewrite length_drop. lia. }
  rewrite Hcut, zlen_app in Er. exists c', s', (has_flag c' CLIENT_MULTI), pend, dn, rest, (enc_all dn), p.
  split_and!; [done|exact Haf|done|done|done| | | |lia|done].
  - rewrite (flag_ok_flags c' Hf') at 1. rewrite Ef. by destruct (has_flag c' CLIENT_MULTI).
  - eapply one_command_pend; [|exact Haf]. done.
  - rewrite zlen_app in Hz. lia.
Qed.

(** ** Quoted arguments *)

Lemma hex_digit_inv d : 0 <= d < 16 -> is_hex_digit (hex_digit d) = true /\ hex_digit_to_int (hex_digit d) = d.
Proof. intros Hd. unfold is_hex_digit, hex_digit_to_int, hex_digit. destruct (d <? 10) eqn:E; (split; [lia|]).
  - rewrite (proj2 (andb_true_iff _ _)); lia.
  - destruct (_ && _) eqn:E1; [lia|]. rewrite (proj2 (andb_true_iff _ _)); lia.
Qed.

(** A character that stands for itself between quotes. *)
Lemma get_token_plain c p cur : c <> 92 -> c <> 34 -> c <> 0 -> get_token Double (c :: p) cur = get_token Double p (cur ++ [c]).
Proof.
  intros H1 H2 H3. cbn [get_token]. rewrite (proj2 (Z.eqb_neq c 92)), (proj2 (Z.eqb_neq c 34)), (proj2 (Z.eqb_neq c 0)) by done.
  cbn [andb negb]. destruct p as [|d [|h1 [|h2 p]]]; done.
Qed.

Lemma get_token_escape d p cur : d <> 120 -> d <> 0 ->
  get_token Double (92 :: d :: p) cur = get_token Double p (cur ++ [unescape d]).
Proof.
  intros H1 H2. cbn [get_token]. rewrite (proj2 (Z.eqb_neq d 120)), (proj2 (Z.eqb_neq d 0)) by done.
  change (92 =? 92) with true. cbn [andb negb]. destruct p as [|h1 [|h2 p]]; done.
Qed.

Lemma get_token_repr c p cur : is_byte c -> get_token Double (repr_char c ++ p) cur = get_token Double p (cur ++ [c]).
Proof.
  unfold is_byte. intros Hc. unfold repr_char.
  destruct ((c =? 92) || (c =? 34)) eqn:E1.
  { cbn [app]. rewrite get_token_escape by lia. by assert (c = 92 \/ c = 34) as [-> | ->] by lia. }
  destruct (c =? 10) eqn:E2; [replace c with 10 by lia; cbn [app]; by rewrite get_token_escape by lia|].
  destruct (c =? 13) eqn:E3; [replace c with 13 by lia; cbn [app]; by rewrite get_token_escape by lia|].
  destruct (c =? 9) eqn:E4; [replace c with 9 by lia; cbn [app]; by rewrite get_token_escape by lia|].
  destruct (c =? 7) eqn:E5; [replace c with 7 by lia; cbn [app]; by rewrite get_token_escape by lia|].
  destruct (c =? 8) eqn:E6; [replace c with 8 by lia; cbn [app]; by rewrite get_token_escape by lia|].
  destruct (isprint c) eqn:E7; [unfold isprint in E7; apply get_token_plain; lia|].
  cbn [app get_token]. change (92 =? 92) with true. change (120 =? 120) with true. cbn [andb].
  destruct (hex_digit_inv (c / 16)) as [-> ->]; [dlia|]. destruct (hex_digit_inv (c mod 16)) as [-> ->]; [dlia|].
  cbn [andb]. replace (c / 16 * 16 + c mod 16) with c by dlia. done.
Qed.

Lemma repr_loop_app p s : repr_loop s p = s ++ concat (map repr_char p).
Proof.
  revert s. induction p as [|c p IH]; intros s; cbn [repr_loop map concat]; [by rewrite app_nil_r|]. by rewrite IH, <-app_assoc.
Qed.

(** A quoted argument is one token. *)
Lemma get_token_quoted p rest : Forall is_byte p -> closes rest = true ->
  get_token Unquoted (sdscatrepr [] p ++ rest) [] = Some (p, rest).
Proof.
  intros Hp Hr. unfold sdscatrepr. rewrite repr_loop_app. cbn [app get_token].
  change (34 =? 0) with false. change (34 =? 34) with true. cbn [orb Z.eqb].
  change ((34 =? 32) || (34 =? 10) || (34 =? 13) || (34 =? 9)) with false. cbn iota.
  enough (forall cur, get_token Double ((concat (map repr_char p) ++ [34]) ++ rest) cur = Some (cur ++ p, rest)) as He by apply He.
  induction Hp as [|c p Hc _ IH]; intros cur; cbn [map concat].
  - cbn [app get_token]. rewrite Hr. change (34 =? 92) with false. change (34 =? 34) with true. cbn [andb]. rewrite app_nil_r.
    destruct rest as [|d [|h1 [|h2 q]]]; done.
  - rewrite <-!app_assoc, get_token_repr by done. rewrite app_assoc, IH. by rewrite <-app_assoc.
Qed.

(** The arguments quoted and separated by spaces. *)
Fixpoint quote_args (args : list bytes) : bytes :=
  match args with
  | [] => []
  | [a] => sdscatrepr [] a
  | a :: args => sdscatrepr [] a ++ 32 :: quote_args args
  end.

Lemma skip_quoted a rest : skip_blanks (sdscatrepr [] a ++ rest) = sdscatrepr [] a ++ rest.
Proof. unfold sdscatrepr. by rewrite repr_loop_app. Qed.

Lemma sdscatrepr_cons a : exists r, sdscatrepr [] a = 34 :: r.
Proof. unfold sdscatrepr. rewrite repr_loop_app. by eexists. Qed.

Lemma split_loop_quoted fuel a rest v : Forall is_byte a -> closes rest = true ->
  split_loop (S fuel) (sdscatrepr [] a ++ rest) v = split_loop fuel rest (v ++ [a]).
Proof.
  intros Ha Hr. cbn [split_loop]. rewrite skip_quoted. pose proof (get_token_quoted a rest Ha Hr) as Ht.
  destruct (sdscatrepr_cons a) as [r Er]. rewrite Er in *. cbn [app]. change (34 =? 0) with false. cbn iota.
  cbn [app] in Ht. by rewrite Ht.
Qed.

Lemma split_loop_quote_args args fuel v : Forall (Forall is_byte) args -> (length (quote_args args) <= fuel)%nat ->
  split_loop fuel (quote_args args) v = Some (v ++ args).
Proof.
  revert fuel v. induction args as [|a args IH]; intros fuel v Hok Hf.
  - rewrite app_nil_r. by destruct fuel.
  - apply Forall_cons in Hok as [Ha Hok]. destruct (sdscatrepr_cons a) as [r Er]. destruct args as [|b args].
    + cbn [quote_args] in *. destruct fuel as [|fuel]; [rewrite Er in Hf; cbn in Hf; lia|].
      pose proof (split_loop_quoted fuel a [] v Ha eq_refl) as Hs. rewrite app_nil_r in Hs. rewrite Hs. by destruct fuel.
    + change (quote_args (a :: b :: args)) with (sdscatrepr [] a ++ 32 :: quote_args (b :: args)) in *.
      destruct fuel as [|fuel]; [rewrite Er in Hf; cbn in Hf; lia|].
      rewrite split_loop_quoted by done.
      assert (forall f l w, split_loop f (32 :: l) w = split_loop f l w) as -> by (by intros []).
      rewrite IH, <-app_assoc; [done|done|]. rewrite length_app, Er in Hf. cbn [length] in Hf. lia.
Qed.

(** C6: arguments quoted by sdscatrepr, whatever bytes they hold, and
    separated by spaces are split by sdssplitargs into these arguments: every
    escape is read back as the byte it was written for, and nothing of an
    argument ends it early or joins it to the next. *)
Theorem sdssplitargs_quoted (args : list bytes) :
  Forall (Forall is_byte) args -> sdssplitargs (quote_args args) = Some args.
Proof. intros Hok. unfold sdssplitargs. by rewrite split_loop_quote_args. Qed.

Lemma sdssplitargs_quoted_witness :
  sdssplitargs (quote_args [[104; 105; 32; 34]; []; [0; 255; 10; 92]]) = Some [[104; 105; 32; 34]; []; [0; 255; 10; 92]].
Proof. apply (sdssplitargs_quoted [[104; 105; 32; 34]; []; [0; 255; 10; 92]]). repeat (constructor; try (unfold is_byte; lia)). Defined.

(** A client, commands and reads to apply the theorems to. *)
Definition example_client (flags : Z) : client := mkClient [] 0 0 0 (-1) [] 0 0 None flags false 100 100 0 [].
Definition example_cmds : list (list bytes) := [[[83; 69; 84]; [97]; [49; 13; 10; 0]]; [[71; 69; 84]; [97]]].
Definition example_stream : bytes := default [] (request_stream [] example_cmds).
Definition example_reads : list bytes := [take 9 example_stream; take 33 (drop 9 example_stream)].
(** The example's commands are logged; MULTI (77) begins a transaction, EXEC
    (69) ends it. *)
Definition example_log (m : bool) (args : list bytes) (s : list (list bytes)) : bool * list (list bytes) :=
  (match args with [[77]] => true | [[69]] => false | _ => m end, s ++ [args]).

Lemma commands_executed_in_order_witness : exists c' s' (m : bool) dn rest received partial,
    serve 1000 (fun _ => None) example_log (fun _ s => s) 1000 (fun _ => 0) (fun _ n => n) example_reads (example_client 0) [] =
      Some (Some c', s') /\
    foldl (fun '(m, s) args => example_log m args s) (false, []) dn = (m, s') /\
    example_cmds = dn ++ rest /\ request_stream [] dn = Some received /\ concat example_reads = received ++ partial /\
    flags c' = (if m then CLIENT_MULTI else 0) /\
    match rest with
    | [] => partial = [] /\ drop 42 example_stream = [] /\ connected c'
    | next :: _ => exists missing, missing <> [] /\ catAppendOnlyGenericCommand [] next = Some (partial ++ missing)
    end.
Proof.
  apply commands_executed_in_order.
  - done.
  - unfold example_cmds, cmd_ok, arg_ok. repeat constructor; done.
  - repeat constructor; vm_compute; done.
  - intros ch args Hch Ha. unfold example_reads in Hch. unfold example_cmds in Ha.
    repeat (apply elem_of_cons in Hch as [-> | Hch]); [..|by apply elem_of_nil in Hch];
      (repeat (apply elem_of_cons in Ha as [-> | Ha]); [..|by apply elem_of_nil in Ha]; vm_compute; done).
  - vm_compute. done.
  - done.
  - done.
Defined.

(** A command, a transaction of one command, and a transaction that has not
    ended when the last read ends. *)
Definition master_cmds : list (list bytes) := [[[97]]; [[77]]; [[98]]; [[69]]; [[77]]; [[99]]; [[69]]].
Definition master_stream : bytes := default [] (request_stream [] master_cmds).
Definition master_reads : list bytes := [take 25 master_stream; take 41 (drop 25 master_stream)].

(** What the replicas get: the command alone, then the first transaction. *)
Lemma master_reads_forward :
  (snd <$> serve 1000 (fun _ => None) (fun m args s => ((example_log m args []).1, s)) (fun b s => s ++ [b]) 0
     (fun _ => 0) (fun _ n => n) master_reads (example_client CLIENT_MASTER) [])
  = Some [enc [[97]]; enc [[77]] ++ enc [[98]] ++ enc [[69]]].
Proof. by vm_compute. Qed.

Lemma master_stream_forwarded_witness : exists c' s' (m : bool) pend dn rest received partial,
    serve 1000 (fun _ => None) example_log (fun b s => s ++ [[b]]) 0 (fun _ => 0) (fun _ n => n) master_reads
      (example_client CLIENT_MASTER) [] = Some (Some c', s') /\
    foldl (fun st args =>
             let '(m, s, pend) := st in
             let '(m, s) := example_log m args s in
             if m : bool then (m, s, pend ++ enc args) else (m, (fun b s => s ++ [[b]]) (pend ++ enc args) s, []))
          (false, [], []) dn = (m, s', pend) /\
    master_cmds = dn ++ rest /\ request_stream [] dn = Some received /\ concat master_reads = received ++ partial /\
    flags c' = (if m then Z.lor CLIENT_MASTER CLIENT_MULTI else CLIENT_MASTER) /\ (m = false -> pend = []) /\
    reploff c' = 100 + zlen received - zlen pend /\
    read_reploff c' = reploff c' + zlen (pend ++ partial) /\
    drop (Z.to_nat (repl_applied c')) (querybuf c') = pend ++ partial.
Proof.
  apply (master_stream_forwarded (fun _ => None) example_log (fun b s => s ++ [[b]]) 1000 0 (fun _ => 0) (fun _ n => n)
    master_cmds master_reads (drop 66 master_stream) (example_client CLIENT_MASTER) []).
  - done.
  - unfold master_cmds, cmd_ok, arg_ok. repeat constructor; done.
  - repeat constructor; vm_compute; done.
  - vm_compute. done.
  - done.
  - done.
  - done.
  - done.
Defined.

End Resp.
