(* ===== verification/Adlist.v ===== *)
(** * Doubly linked lists (src/redis-stable/src/adlist.c, adlist.h)

    The list nodes live in a store that maps addresses to nodes; an address is
    a [positive] and NULL is [None].  Using an address that is not allocated is
    [None], so a theorem that says an operation returns [Some] also says that
    it follows no dangling or null pointer.  A [list] object is a record that
    the operations take and return.  The store also keeps the values handed to
    the [free] method, in order.  zmalloc does not return NULL (it aborts the
    server), and gives an address that is not in use.

    The theorems: every sequence of operations on two lists that share the
    store simulates the same operations on two mathematical sequences, and the
    searching and indexing functions return what the sequence holds. *)
From stdpp Require Import base list gmap.
From S2P Require Import Prelude.

Module Adlist.

Section adlist.
Context {V : Type} `{EqDecision V}.

Abbreviation loc := positive.

Record listNode := mkNode { prev : option loc; next : option loc; value : V }.

Record listIter := mkIter { it_next : option loc; direction : Z }.

(** The list object; [free] tells whether a free method is set. *)
Record list_ := mkList {
  head : option loc; tail : option loc;
  dup : option (V -> option V); free : bool; match_ : option (V -> V -> bool); len : Z }.

Record store := mkStore { nodes : gmap loc listNode; freed : list V }.

Definition AL_START_HEAD : Z := 0.
Definition AL_START_TAIL : Z := 1.

Definition listLength (l : list_) : Z := len l.

(** ** Access to nodes and to the fields of the list *)

Definition get (s : store) (p : option loc) : option listNode := p ← p; nodes s !! p.
Definition put (p : loc) (n : listNode) (s : store) : store := mkStore (<[p := n]> (nodes s)) (freed s).
Definition set_prev (p : option loc) (q : option loc) (s : store) : option store :=
  p ← p; n ← nodes s !! p; Some (put p (mkNode q (next n) (value n)) s).
Definition set_next (p : option loc) (q : option loc) (s : store) : option store :=
  p ← p; n ← nodes s !! p; Some (put p (mkNode (prev n) q (value n)) s).
Definition zfree (p : loc) (s : store) : store := mkStore (delete p (nodes s)) (freed s).
Definition zmalloc (s : store) : loc := fresh (dom (nodes s)).
Definition call_free (l : list_) (v : V) (s : store) : store :=
  if free l then mkStore (nodes s) (freed s ++ [v]) else s.

Definition set_head (p : option loc) (l : list_) : list_ := mkList p (tail l) (dup l) (free l) (match_ l) (len l).
Definition set_tail (p : option loc) (l : list_) : list_ := mkList (head l) p (dup l) (free l) (match_ l) (len l).
Definition set_len (n : Z) (l : list_) : list_ := mkList (head l) (tail l) (dup l) (free l) (match_ l) (u64 n).

(** ** Operations *)

Definition listCreate : list_ := mkList None None None false None 0.

(** [while(len--)]: the node count is the number of iterations. *)
Fixpoint listEmpty_loop (n : nat) (l : list_) (current : option loc) (s : store) : option store :=
  match n with
  | O => Some s
  | S n =>
      c ← get s current;
      p ← current;
      listEmpty_loop n l (next c) (zfree p (call_free l (value c) s))
  end.

Definition listEmpty (l : list_) (s : store) : option (list_ * store) :=
  s ← listEmpty_loop (Z.to_nat (len l)) l (head l) s;
  Some (set_len 0 (set_tail None (set_head None l)), s).

(** The list object itself is gone afterwards. *)
Definition listRelease (l : list_) (s : store) : option store :=
  '(_, s) ← listEmpty l s; Some s.

Definition listAddNodeHead (l : list_) (v : V) (s : store) : option (list_ * store) :=
  let node := zmalloc s in
  if len l =? 0 then
    let s := put node (mkNode None None v) s in
    Some (set_len (len l + 1) (set_tail (Some node) (set_head (Some node) l)), s)
  else
    let s := put node (mkNode None (head l) v) s in
    s ← set_prev (head l) (Some node) s;
    Some (set_len (len l + 1) (set_head (Some node) l), s).

Definition listAddNodeTail (l : list_) (v : V) (s : store) : option (list_ * store) :=
  let node := zmalloc s in
  if len l =? 0 then
    let s := put node (mkNode None None v) s in
    Some (set_len (len l + 1) (set_tail (Some node) (set_head (Some node) l)), s)
  else
    let s := put node (mkNode (tail l) None v) s in
    s ← set_next (tail l) (Some node) s;
    Some (set_len (len l + 1) (set_tail (Some node) l), s).

Definition listInsertNode (l : list_) (old_node : loc) (v : V) (after : bool) (s : store) : option (list_ * store) :=
  let node := zmalloc s in
  old ← nodes s !! old_node;
  let '(n, l) :=
    if after then
      (mkNode (Some old_node) (next old) v,
       if bool_decide (tail l = Some old_node) then set_tail (Some node) l else l)
    else
      (mkNode (prev old) (Some old_node) v,
       if bool_decide (head l = Some old_node) then set_head (Some node) l else l) in
  let s := put node n s in
  s ← (if prev n then set_next (prev n) (Some node) s else Some s);
  s ← (if next n then set_prev (next n) (Some node) s else Some s);
  Some (set_len (len l + 1) l, s).

Definition listDelNode (l : list_) (node : loc) (s : store) : option (list_ * store) :=
  n ← nodes s !! node;
  '(l, s) ← (if prev n then s ← set_next (prev n) (next n) s; Some (l, s)
             else Some (set_head (next n) l, s));
  n ← nodes s !! node;
  '(l, s) ← (if next n then s ← set_prev (next n) (prev n) s; Some (l, s)
             else Some (set_tail (prev n) l, s));
  Some (set_len (len l - 1) l, zfree node (call_free l (value n) s)).

Definition listGetIterator (l : list_) (direction : Z) : listIter :=
  mkIter (if direction =? AL_START_HEAD then head l else tail l) direction.

Definition listRewind (l : list_) : listIter := mkIter (head l) AL_START_HEAD.
Definition listRewindTail (l : list_) : listIter := mkIter (tail l) AL_START_TAIL.

Definition listNext (it : listIter) (s : store) : option (option loc * listIter) :=
  match it_next it with
  | None => Some (None, it)
  | Some p =>
      n ← nodes s !! p;
      Some (Some p, mkIter (if direction it =? AL_START_HEAD then next n else prev n) (direction it))
  end.

(** [while((node = listNext(&iter)) != NULL)]; the fuel is the number of
    allocated nodes. *)
Fixpoint listDup_loop (fuel : nat) (copy : list_) (it : listIter) (s : store) : option (option list_ * store) :=
  '(node, it) ← listNext it s;
  match node, fuel with
  | None, _ => Some (Some copy, s)
  | Some _, O => None
  | Some p, S fuel =>
      n ← nodes s !! p;
      match (match dup copy with Some f => f (value n) | None => Some (value n) end) with
      | None => s ← listRelease copy s; Some (None, s)
      | Some v => '(copy, s) ← listAddNodeTail copy v s; listDup_loop fuel copy it s
      end
  end.

Definition listDup (orig : list_) (s : store) : option (option list_ * store) :=
  let copy := mkList None None (dup orig) (free orig) (match_ orig) 0 in
  listDup_loop (size (nodes s)) copy (listRewind orig) s.

Fixpoint listSearchKey_loop (fuel : nat) (l : list_) (key : V) (it : listIter) (s : store) : option (option loc) :=
  '(node, it) ← listNext it s;
  match node, fuel with
  | None, _ => Some None
  | Some _, O => None
  | Some p, S fuel =>
      n ← nodes s !! p;
      if (match match_ l with Some f => f (value n) key | None => bool_decide (key = value n) end)
      then Some (Some p) else listSearchKey_loop fuel l key it s
  end.

Definition listSearchKey (l : list_) (key : V) (s : store) : option (option loc) :=
  listSearchKey_loop (size (nodes s)) l key (listRewind l) s.

(** [while(index-- && n) n = n->next] (or [prev]). *)
Fixpoint listIndex_loop (fuel : nat) (forward : bool) (index : Z) (n : option loc) (s : store) : option (option loc) :=
  if index =? 0 then Some n
  else match n, fuel with
       | None, _ => Some None
       | Some _, O => None
       | Some p, S fuel =>
           x ← nodes s !! p; listIndex_loop fuel forward (index - 1) (if forward then next x else prev x) s
       end.

(** [-index] overflows for the least value. *)
Definition listIndex (l : list_) (index : Z) (s : store) : option (option loc) :=
  if index =? INT64_MIN then None
  else if index <? 0 then listIndex_loop (size (nodes s)) false (- index - 1) (tail l) s
  else listIndex_loop (size (nodes s)) true index (head l) s.

Definition listRotateTailToHead (l : list_) (s : store) : option (list_ * store) :=
  if listLength l <=? 1 then Some (l, s)
  else
    let tl := tail l in
    t ← get s tl;
    let l := set_tail (prev t) l in
    s ← set_next (tail l) None s;
    s ← set_prev (head l) tl s;
    s ← set_prev tl None s;
    s ← set_next tl (head l) s;
    Some (set_head tl l, s).

Definition listRotateHeadToTail (l : list_) (s : store) : option (list_ * store) :=
  if listLength l <=? 1 then Some (l, s)
  else
    let hd := head l in
    h ← get s hd;
    let l := set_head (next h) l in
    s ← set_prev (head l) None s;
    s ← set_next (tail l) hd s;
    s ← set_next hd None s;
    s ← set_prev hd (tail l) s;
    Some (set_tail hd l, s).

Definition listJoin (l o : list_) (s : store) : option (list_ * list_ * store) :=
  if len o =? 0 then Some (l, o, s)
  else
    s ← set_prev (head o) (tail l) s;
    '(l, s) ← (if tail l then s ← set_next (tail l) (head o) s; Some (l, s)
               else Some (set_head (head o) l, s));
    let l := set_len (len l + len o) (set_tail (tail o) l) in
    Some (l, set_len 0 (set_tail None (set_head None o)), s).

End adlist.
Section adlist_proofs.
Context {V : Type} `{EqDecision V}.
Implicit Types (s : @store V) (l : @list_ V) (xs ys a b : list (positive * V)) (p q : positive) (v w : V).

(** ** Segments of a doubly linked list

    A sequence of addresses with their values; the first node points back to
    [pp], the last one points forward to [nn]. *)
Definition first_of xs (nn : option positive) : option positive := match xs with [] => nn | (p, _) :: _ => Some p end.
Definition last_of (pp : option positive) xs : option positive := foldl (fun _ x => Some x.1) pp xs.

Fixpoint dseg s (pp : option positive) xs (nn : option positive) : Prop :=
  match xs with
  | [] => True
  | (p, v) :: xs => nodes s !! p = Some (mkNode pp (first_of xs nn) v) /\ dseg s (Some p) xs nn
  end.

Lemma first_of_app xs ys nn : first_of (xs ++ ys) nn = first_of xs (first_of ys nn).
Proof. by destruct xs as [|[p v] xs]. Qed.

Lemma last_of_app xs ys pp : last_of pp (xs ++ ys) = last_of (last_of pp xs) ys.
Proof. apply foldl_app. Qed.

Lemma last_of_snoc xs x pp : last_of pp (xs ++ [x]) = Some x.1.
Proof. by rewrite last_of_app. Qed.

Lemma dseg_app s pp xs ys nn :
  dseg s pp (xs ++ ys) nn <-> dseg s pp xs (first_of ys nn) /\ dseg s (last_of pp xs) ys nn.
Proof.
  revert pp. induction xs as [|[p v] xs IH]; intros pp; simpl; [tauto|]. rewrite first_of_app, IH. tauto.
Qed.

(** Only the nodes of the segment matter. *)
Lemma dseg_ext s s' pp xs nn : (forall p, p ∈ xs.*1 -> nodes s' !! p = nodes s !! p) -> dseg s pp xs nn -> dseg s' pp xs nn.
Proof.
  revert pp. induction xs as [|[p v] xs IH]; intros pp H; simpl; [done|]. intros [Hp Hr]. split.
  - rewrite H; [done|]. left.
  - apply IH; [|done]. intros q Hq. apply H. by right.
Qed.

Lemma dseg_put s p n pp xs nn : p ∉ xs.*1 -> dseg s pp xs nn -> dseg (put p n s) pp xs nn.
Proof. intros Hp. apply dseg_ext. intros q Hq. simpl. rewrite lookup_insert_ne; [done|]. by intros ->. Qed.

Lemma dseg_zfree s p pp xs nn : p ∉ xs.*1 -> dseg s pp xs nn -> dseg (zfree p s) pp xs nn.
Proof. intros Hp. apply dseg_ext. intros q Hq. simpl. rewrite lookup_delete_ne; [done|]. by intros ->. Qed.

Lemma dseg_lookup s pp xs p v ys nn : dseg s pp (xs ++ (p, v) :: ys) nn ->
  nodes s !! p = Some (mkNode (last_of pp xs) (first_of ys nn) v).
Proof. rewrite dseg_app. simpl. tauto. Qed.

Lemma dseg_elem s pp xs nn p : dseg s pp xs nn -> p ∈ xs.*1 -> is_Some (nodes s !! p).
Proof.
  intros H Hp. apply list_elem_of_fmap in Hp as ([q v] & -> & (x1 & x2 & ->)%list_elem_of_split).
  simpl. rewrite (dseg_lookup _ _ _ _ _ _ _ H). eauto.
Qed.

(** Redirecting the pointer at either end of a segment. *)
Lemma dseg_first s p v xs pp nn (q : option positive) : NoDup ((p, v) :: xs).*1 -> dseg s pp ((p, v) :: xs) nn ->
  exists s', set_prev (Some p) q s = Some s' /\ dseg s' q ((p, v) :: xs) nn /\ freed s' = freed s /\
    (forall x, x <> p -> nodes s' !! x = nodes s !! x) /\ dom (nodes s') = dom (nodes s).
Proof.
  intros Hnd [Hp Hr]. unfold set_prev. simpl. rewrite Hp. simpl. eexists. split; [done|]. apply NoDup_cons in Hnd as [Hn _].
  split; [split; [apply lookup_insert_eq|by apply dseg_put]|]. split; [done|]. split.
  - intros x Hx. simpl. by rewrite lookup_insert_ne.
  - simpl. rewrite dom_insert_L. apply elem_of_dom_2 in Hp. set_solver.
Qed.

Lemma dseg_last s p v xs pp nn (q : option positive) : NoDup (xs ++ [(p, v)]).*1 -> dseg s pp (xs ++ [(p, v)]) nn ->
  exists s', set_next (Some p) q s = Some s' /\ dseg s' pp (xs ++ [(p, v)]) q /\ freed s' = freed s /\
    (forall x, x <> p -> nodes s' !! x = nodes s !! x) /\ dom (nodes s') = dom (nodes s).
Proof.
  intros Hnd H. pose proof (dseg_lookup _ _ _ _ _ _ _ H) as Hp. apply dseg_app in H as [H1 _]. simpl in *.
  unfold set_next. simpl. rewrite Hp. simpl. eexists. split; [done|]. rewrite fmap_app in Hnd. apply NoDup_app in Hnd as (_ & Hd & _).
  split.
  - apply dseg_app. split; [|by split; [apply lookup_insert_eq|]]. apply dseg_put; [|done]. intros Hx. apply (Hd p Hx). left.
  - split; [done|]. split.
    + intros x Hx. simpl. by rewrite lookup_insert_ne.
    + simpl. rewrite dom_insert_L. apply elem_of_dom_2 in Hp. set_solver.
Qed.

Lemma zmalloc_fresh s : nodes s !! zmalloc s = None.
Proof. apply (not_elem_of_dom (D := gset positive)). unfold zmalloc. apply is_fresh. Qed.

(** ** A list object and its nodes *)

Record rep s l xs : Prop := {
  rep_nodup : NoDup xs.*1;
  rep_dseg : dseg s None xs None;
  rep_head : head l = first_of xs None;
  rep_tail : tail l = last_of None xs;
  rep_len : len l = zlen xs;
  rep_bound : zlen xs <= UINT64_MAX }.

Definition same_methods l l' : Prop := dup l' = dup l /\ free l' = free l /\ match_ l' = match_ l.

(** What an operation on one list leaves alone: every node that is neither in
    the list nor new. *)
Definition untouched s s' xs : Prop := forall p, is_Some (nodes s !! p) -> p ∉ xs.*1 -> nodes s' !! p = nodes s !! p.

Lemma rep_other s s' l xs ys : rep s l ys -> untouched s s' xs -> (forall p, p ∈ xs.*1 -> p ∉ ys.*1) -> rep s' l ys.
Proof.
  intros [H1 H2 H3 H4 H5 H6] Hu Hd. constructor; try done. apply (dseg_ext s); [|done]. intros p Hp. apply Hu.
  - by eapply dseg_elem.
  - intros Hx. by apply (Hd p).
Qed.

(** ** Adding nodes *)

Lemma zlen_zero {A} (xs : list A) : (zlen xs =? 0) = bool_decide (xs = []).
Proof. destruct xs; [done|]. rewrite bool_decide_false by done. unfold zlen. simpl length. lia. Qed.

Lemma first_of_Some xs : xs <> [] -> exists p v ys, xs = (p, v) :: ys.
Proof. destruct xs as [|[p v] ys]; [done|]. eauto. Qed.

Lemma last_of_Some xs : xs <> [] -> exists p v ys, xs = ys ++ [(p, v)].
Proof. intros H. destruct (exists_last H) as (ys & [p v] & ->). eauto. Qed.

Lemma fresh_notin s pp xs nn : dseg s pp xs nn -> zmalloc s ∉ xs.*1.
Proof. intros H Hp. pose proof (zmalloc_fresh s) as Hf. destruct (dseg_elem _ _ _ _ _ H Hp). congruence. Qed.

Lemma untouched_put s n xs : untouched s (put (zmalloc s) n s) xs.
Proof.
  intros q [a Ha] _. simpl. rewrite lookup_insert_ne; [done|]. intros <-. pose proof (zmalloc_fresh s). congruence.
Qed.

Lemma rep_single s l n v : len l = 0 ->
  rep (put n (mkNode None None v) s) (set_len (len l + 1) (set_tail (Some n) (set_head (Some n) l))) [(n, v)].
Proof.
  intros Hl. constructor; simpl; try done.
  - apply NoDup_singleton.
  - split; [apply lookup_insert_eq|done].
  - by rewrite Hl.
Qed.

Lemma u64_len xs : zlen xs < UINT64_MAX -> u64 (zlen xs + 1) = zlen xs + 1.
Proof. intros H. unfold UINT64_MAX in H. apply Z.mod_small. pose proof (Zle_0_nat (length xs)). unfold zlen in *. lia. Qed.

Lemma listAddNodeHead_rep s l xs v : rep s l xs -> zlen xs < UINT64_MAX ->
  exists l' s' p, listAddNodeHead l v s = Some (l', s') /\ rep s' l' ((p, v) :: xs) /\
    nodes s !! p = None /\ untouched s s' xs /\ freed s' = freed s /\ same_methods l l'.
Proof.
  intros R Hb. pose proof (fresh_notin _ _ _ _ (rep_dseg _ _ _ R)) as Hf. pose proof (zmalloc_fresh s) as Hnone.
  destruct R as [Hnd Hs Hh Ht Hl Hm]. unfold listAddNodeHead. rewrite Hl, zlen_zero. case_bool_decide as E.
  - subst xs. eexists _, _, (zmalloc s). split; [done|]. rewrite <- Hl. split; [by apply rep_single|].
    split; [done|]. split; [apply untouched_put|done].
  - destruct (first_of_Some xs E) as (q & w & ys & ->). rewrite Hh. simpl first_of.
    destruct (dseg_first (put (zmalloc s) (mkNode None (Some q) v) s) q w ys None None (Some (zmalloc s)))
      as (s' & -> & Hs' & Hfr & Hx & _); [done|by apply dseg_put|]. bnd.
    eexists _, s', (zmalloc s). split; [done|]. split; [|split; [done|split; [|done]]].
    + constructor.
      * by apply NoDup_cons.
      * split; [|done]. rewrite Hx; [by apply lookup_insert_eq|]. intros E2. apply Hf. rewrite E2. left.
      * done.
      * done.
      * simpl. rewrite u64_len by done. rewrite !zlen_cons. lia.
      * rewrite !zlen_cons in *. lia.
    + intros p Hp Hq. rewrite Hx; [by apply (untouched_put s _ ((q, w) :: ys))|]. intros ->. apply Hq. left.
Qed.

Lemma adds_untouched s s' xs p : nodes s !! p = None -> (forall q, q <> p -> q ∉ xs.*1 -> nodes s' !! q = nodes s !! q) ->
  untouched s s' xs.
Proof. intros Hp H q [a Hq] Hx. apply H; [|done]. intros ->. congruence. Qed.

Lemma listAddNodeTail_rep s l xs v : rep s l xs -> zlen xs < UINT64_MAX ->
  exists l' s' p, listAddNodeTail l v s = Some (l', s') /\ rep s' l' (xs ++ [(p, v)]) /\
    nodes s !! p = None /\ (forall q, q <> p -> q ∉ xs.*1 -> nodes s' !! q = nodes s !! q) /\ freed s' = freed s /\
    same_methods l l'.
Proof.
  intros R Hb. pose proof (fresh_notin _ _ _ _ (rep_dseg _ _ _ R)) as Hf. pose proof (zmalloc_fresh s) as Hnone.
  destruct R as [Hnd Hs Hh Ht Hl Hm]. unfold listAddNodeTail. rewrite Hl, zlen_zero. case_bool_decide as E.
  - subst xs. eexists _, _, (zmalloc s). split; [done|]. rewrite <- Hl. split; [by apply rep_single|].
    split; [done|]. split; [|done]. intros q Hq _. by apply lookup_insert_ne.
  - destruct (last_of_Some xs E) as (q & w & ys & ->). rewrite Ht, last_of_snoc. simpl fst.
    destruct (dseg_last (put (zmalloc s) (mkNode (Some q) None v) s) q w ys None None (Some (zmalloc s)))
      as (s' & -> & Hs' & Hfr & Hx & _); [done|by apply dseg_put|]. bnd.
    eexists _, s', (zmalloc s). split; [done|]. split; [|split; [done|split; [|done]]].
    + constructor.
      * rewrite fmap_app. apply NoDup_app. split; [done|]. split; [|apply NoDup_singleton].
        intros x Hx1 ->%list_elem_of_singleton. done.
      * apply dseg_app. split; [done|]. rewrite last_of_snoc. split; [|done]. rewrite Hx; [by apply lookup_insert_eq|].
        intros E2. apply Hf. rewrite E2, fmap_app. set_solver.
      * simpl. rewrite Hh. by rewrite !first_of_app.
      * by rewrite last_of_snoc.
      * simpl. rewrite u64_len, !zlen_app by done. change (zlen [(zmalloc s, v)]) with 1. done.
      * rewrite zlen_app. change (zlen [(zmalloc s, v)]) with 1. lia.
    + intros p Hp Hq. rewrite Hx; [by apply lookup_insert_ne|]. intros ->. apply Hq. rewrite fmap_app. set_solver.
Qed.

(** ** Changing the links in the middle *)

(** The pointer out of the last node of a segment, if there is one. *)
Lemma relink_last s a nn (q : option positive) : NoDup a.*1 -> dseg s None a nn ->
  exists s', (if last_of None a then set_next (last_of None a) q s else Some s) = Some s' /\
    dseg s' None a q /\ freed s' = freed s /\ (forall x, x ∉ a.*1 -> nodes s' !! x = nodes s !! x).
Proof.
  intros Hnd Hs. destruct (decide (a = [])) as [->|Hne]; [by exists s|].
  destruct (last_of_Some a Hne) as (p & v & ys & ->). rewrite last_of_snoc.
  destruct (dseg_last s p v ys None nn q Hnd Hs) as (s' & ? & ? & ? & Hx & _). exists s'. split_and!; try done.
  intros x Hn. apply Hx. intros ->. apply Hn. rewrite fmap_app. set_solver.
Qed.

Lemma relink_first s b pp (q : option positive) : NoDup b.*1 -> dseg s pp b None ->
  exists s', (if first_of b None then set_prev (first_of b None) q s else Some s) = Some s' /\
    dseg s' q b None /\ freed s' = freed s /\ (forall x, x ∉ b.*1 -> nodes s' !! x = nodes s !! x).
Proof.
  intros Hnd Hs. destruct b as [|[p v] ys]; [by exists s|]. simpl first_of.
  destruct (dseg_first s p v ys pp None q Hnd Hs) as (s' & ? & ? & ? & Hx & _). exists s'. split_and!; try done.
  intros x Hn. apply Hx. intros ->. apply Hn. left.
Qed.

Lemma NoDup_app_fst a b : NoDup (a ++ b).*1 <->
  NoDup a.*1 /\ NoDup b.*1 /\ (forall p, p ∈ a.*1 -> p ∉ b.*1).
Proof. rewrite fmap_app, NoDup_app. naive_solver. Qed.

(** Both pointers between two adjacent segments. *)
Lemma relink s a b (q r : option positive) X Y : NoDup (a ++ b).*1 -> dseg s None a X -> dseg s Y b None ->
  exists s1 s2, (if last_of None a then set_next (last_of None a) q s else Some s) = Some s1 /\
    (if first_of b None then set_prev (first_of b None) r s1 else Some s1) = Some s2 /\
    dseg s2 None a q /\ dseg s2 r b None /\ freed s2 = freed s /\
    (forall x, x ∉ (a ++ b).*1 -> nodes s1 !! x = nodes s !! x /\ nodes s2 !! x = nodes s !! x).
Proof.
  intros (Ha & Hb & Hd)%NoDup_app_fst Hs Hs2.
  destruct (relink_last s a X q Ha Hs) as (s1 & E1 & D1 & F1 & X1).
  destruct (relink_first s1 b Y r Hb) as (s2 & E2 & D2 & F2 & X2).
  { apply (dseg_ext s); [|done]. intros p Hp. apply X1. intros Hp2. by apply (Hd p). }
  exists s1, s2. split_and!; try done.
  - apply (dseg_ext s1); [|done]. intros p Hp. apply X2. by apply Hd.
  - congruence.
  - intros x Hx. rewrite fmap_app, not_elem_of_app in Hx. destruct Hx. by rewrite X2, X1.
Qed.

Lemma last_of_eq a p v b : NoDup (a ++ (p, v) :: b).*1 ->
  last_of None (a ++ (p, v) :: b) = Some p <-> b = [].
Proof.
  intros (_ & [Hp _]%NoDup_cons & _)%NoDup_app_fst. split; [|intros ->; by rewrite last_of_snoc].
  destruct (decide (b = [])) as [->|Hne]; [done|]. destruct (last_of_Some b Hne) as (q & w & ys & ->).
  rewrite app_comm_cons, app_assoc, last_of_snoc. simpl. intros [= ->]. exfalso. apply Hp. apply list_elem_of_fmap. exists (p, w). set_solver.
Qed.

Lemma first_of_eq a p v b : NoDup (a ++ (p, v) :: b).*1 ->
  first_of (a ++ (p, v) :: b) None = Some p <-> a = [].
Proof.
  destruct a as [|[q w] a]; [done|]. intros (_ & _ & Hd)%NoDup_app_fst. split; [|done]. simpl. intros [= ->].
  exfalso. apply (Hd p); left.
Qed.

(** Linking a new node between two segments. *)
Lemma link_between s a b n w : NoDup (a ++ b).*1 -> n ∉ (a ++ b).*1 -> dseg s None (a ++ b) None ->
  exists s1 s2, (if last_of None a then set_next (last_of None a) (Some n) (put n (mkNode (last_of None a) (first_of b None) w) s)
                 else Some (put n (mkNode (last_of None a) (first_of b None) w) s)) = Some s1 /\
    (if first_of b None then set_prev (first_of b None) (Some n) s1 else Some s1) = Some s2 /\
    dseg s2 None (a ++ (n, w) :: b) None /\ freed s2 = freed s /\
    (forall x, x <> n -> x ∉ (a ++ b).*1 -> nodes s2 !! x = nodes s !! x).
Proof.
  intros Hnd Hn Hs. apply (dseg_put s n (mkNode (last_of None a) (first_of b None) w)) in Hs; [|done].
  apply dseg_app in Hs as [Ha Hb].
  destruct (relink _ a b (Some n) (Some n) _ _ Hnd Ha Hb) as (s1 & s2 & E1 & E2 & D1 & D2 & F & X).
  exists s1, s2. split_and!; try done.
  - apply dseg_app. split; [done|]. split; [|done]. rewrite (proj2 (X n Hn)). apply lookup_insert_eq.
  - intros x Hxn Hx. rewrite (proj2 (X x Hx)). by apply lookup_insert_ne.
Qed.

Lemma NoDup_insert a b n w : NoDup (a ++ b).*1 -> n ∉ (a ++ b).*1 -> NoDup (a ++ (n, w) :: b).*1.
Proof.
  rewrite !fmap_app, not_elem_of_app. intros Hnd [Ha Hb]. apply NoDup_app in Hnd as (? & Hd & ?). apply NoDup_app.
  split; [done|]. split; [|by apply NoDup_cons]. intros x Hx. simpl. rewrite not_elem_of_cons. split; [by intros ->|by apply Hd].
Qed.

Lemma zlen_middle {A} (a b : list A) x : zlen (a ++ x :: b) = zlen (a ++ b) + 1.
Proof. rewrite !zlen_app, zlen_cons. lia. Qed.

Lemma listInsertNode_rep s l a p v b w (after : bool) : rep s l (a ++ (p, v) :: b) -> zlen (a ++ (p, v) :: b) < UINT64_MAX ->
  exists l' s' n, listInsertNode l p w after s = Some (l', s') /\
    rep s' l' (if after then a ++ (p, v) :: (n, w) :: b else a ++ (n, w) :: (p, v) :: b) /\
    nodes s !! n = None /\ untouched s s' (a ++ (p, v) :: b) /\ freed s' = freed s /\ same_methods l l'.
Proof.
  intros R Hb. pose proof (fresh_notin _ _ _ _ (rep_dseg _ _ _ R)) as Hf. pose proof (zmalloc_fresh s) as Hnone.
  destruct R as [Hnd Hs Hh Ht Hl Hm]. unfold listInsertNode. rewrite (dseg_lookup _ _ _ _ _ _ _ Hs). bnd.
  assert (Hun : forall s', (forall x, x <> zmalloc s -> x ∉ (a ++ (p, v) :: b).*1 -> nodes s' !! x = nodes s !! x) ->
            untouched s s' (a ++ (p, v) :: b)).
  { intros s' H x [y Hx] Hxn. apply H; [|done]. intros ->. congruence. }
  destruct after; cbn [prev next].
  - pose proof Hs as Hs'. pose proof Hnd as Hnd'. pose proof Hf as Hf'.
    rewrite (cons_middle (p, v)), app_assoc in Hs', Hnd', Hf'.
    destruct (link_between s (a ++ [(p, v)]) b (zmalloc s) w Hnd' Hf' Hs') as (s1 & s2 & E1 & E2 & D & F & X).
    rewrite last_of_snoc in E1. cbn [fst] in E1. rewrite E1. bnd. rewrite E2. bnd.
    rewrite <- app_assoc in D. eexists _, s2, (zmalloc s). split; [done|]. split; [|split; [done|split; [apply Hun; by rewrite (cons_middle (p, v)), app_assoc|split; [done|by case_bool_decide]]]].
    constructor.
    + change (a ++ (p, v) :: (zmalloc s, w) :: b) with (a ++ [(p, v)] ++ (zmalloc s, w) :: b). rewrite app_assoc. by apply NoDup_insert.
    + done.
    + rewrite Ht. case_bool_decide; simpl; by rewrite Hh, !first_of_app.
    + pose proof (last_of_eq a p v b Hnd) as Hlast. rewrite Ht, (bool_decide_ext _ _ Hlast). case_bool_decide as E; simpl.
      * subst b. by rewrite (last_of_app a).
      * rewrite Ht, !(last_of_app a). destruct (last_of_Some b E) as (q & y & ys & ->). simpl.
        change (last_of ?x (?k :: ys ++ [?z])) with (last_of (Some k.1) (ys ++ [z])). unfold last_of. simpl. by rewrite !foldl_app.
    + case_bool_decide; simpl; rewrite Hl, u64_len by done; rewrite !zlen_app, !zlen_cons; lia.
    + rewrite zlen_app, !zlen_cons in *. lia.
  - destruct (link_between s a ((p, v) :: b) (zmalloc s) w Hnd Hf Hs) as (s1 & s2 & E1 & E2 & D & F & X).
    cbn [first_of] in E1, E2. rewrite E1. bnd. rewrite E2. bnd.
    eexists _, s2, (zmalloc s). split; [done|]. split; [|split; [done|split; [by apply Hun|split; [done|by case_bool_decide]]]].
    constructor.
    + by apply NoDup_insert.
    + done.
    + pose proof (first_of_eq a p v b Hnd) as Hfirst. rewrite Hh, (bool_decide_ext _ _ Hfirst). case_bool_decide as E; simpl.
      * by subst a.
      * rewrite Hh. by destruct a as [|[q y] a].
    + case_bool_decide; simpl; rewrite Ht, !(last_of_app a); done.
    + case_bool_decide; simpl; rewrite Hl, u64_len by done; rewrite !zlen_app, !zlen_cons; lia.
    + rewrite zlen_app, !zlen_cons in *. lia.
Qed.

(** ** Removing a node *)

Definition freed_by l (vs : list V) : list V := if free l then vs else [].

Lemma dseg_call_free s l v pp xs nn : dseg s pp xs nn -> dseg (call_free l v s) pp xs nn.
Proof. intros H. unfold call_free. case_match; [|done]. by apply (dseg_ext s). Qed.

Lemma nodes_call_free s l v : nodes (call_free l v s) = nodes s.
Proof. unfold call_free. by case_match. Qed.

Lemma freed_call_free s l v : freed (call_free l v s) = freed s ++ freed_by l [v].
Proof. unfold call_free, freed_by. case_match; [done|]. by rewrite app_nil_r. Qed.

Lemma u64_pred n : 0 < n <= UINT64_MAX -> u64 (n - 1) = n - 1.
Proof. unfold UINT64_MAX. intros H. apply Z.mod_small. lia. Qed.

Lemma listDelNode_rep s l a p v b : rep s l (a ++ (p, v) :: b) ->
  exists l' s', listDelNode l p s = Some (l', s') /\ rep s' l' (a ++ b) /\
    untouched s s' (a ++ (p, v) :: b) /\ freed s' = freed s ++ freed_by l [v] /\ nodes s' !! p = None /\
    same_methods l l'.
Proof.
  intros [Hnd Hs Hh Ht Hl Hm]. unfold listDelNode. pose proof (dseg_lookup _ _ _ _ _ _ _ Hs) as Hp.
  assert (Hnab : NoDup (a ++ b).*1 /\ p ∉ (a ++ b).*1).
  { apply NoDup_app_fst in Hnd as (Ha & [Hpb Hb]%NoDup_cons & Hd). split.
    - apply NoDup_app_fst. split_and!; try done. intros x Hx Hxb. apply (Hd x Hx). by right.
    - rewrite fmap_app, not_elem_of_app. split; [|done]. intros Hx. apply (Hd p Hx). left. }
  destruct Hnab as [Hnab Hpn]. pose proof Hs as Hs'. apply dseg_app in Hs' as [Ha [_ Hb]].
  destruct (relink s a b (first_of b None) (last_of None a) _ _ Hnab Ha Hb) as (s1 & s2 & E1 & E2 & D1 & D2 & F & X).
  rewrite Hp. bnd. cbn [prev next].
  set (l1 := if last_of None a then l else set_head (first_of b None) l).
  assert ((if last_of None a then s0 ← set_next (last_of None a) (first_of b None) s; Some (l, s0)
           else Some (set_head (first_of b None) l, s)) = Some (l1, s1)) as ->.
  { unfold l1. destruct (last_of None a); [by rewrite E1|by injection E1 as <-]. }
  bnd. rewrite (proj1 (X p Hpn)), Hp. bnd. cbn [prev next value].
  set (l2 := if first_of b None then l1 else set_tail (last_of None a) l1).
  assert ((if first_of b None then s0 ← set_prev (first_of b None) (last_of None a) s1; Some (l1, s0)
           else Some (set_tail (last_of None a) l1, s1)) = Some (l2, s2)) as ->.
  { unfold l2. destruct (first_of b None); [by rewrite E2|by injection E2 as <-]. }
  bnd. assert (Hl2 : dup l2 = dup l /\ free l2 = free l /\ match_ l2 = match_ l /\ len l2 = len l).
  { unfold l2, l1. by repeat case_match. }
  destruct Hl2 as (Hd2 & Hf2 & Hm2 & Hn2). eexists _, _. split; [done|]. split; [|split; [|split; [|split]]].
  - constructor.
    + done.
    + apply dseg_zfree; [done|]. apply dseg_call_free. by apply dseg_app.
    + transitivity (head l1); [unfold l2; simpl; by case_match|]. unfold l1. destruct a as [|[q w] a]; [done|].
      destruct (last_of_Some ((q, w) :: a)) as (q' & w' & ys & E); [done|]. assert (last_of None ((q, w) :: a) = Some q') as -> by (by rewrite E, last_of_snoc). rewrite Hh. done.
    + simpl. unfold l2. destruct b as [|[q w] b]; simpl.
      * by rewrite app_nil_r.
      * transitivity (tail l); [unfold l1; by destruct (last_of None a)|]. rewrite Ht, !(last_of_app a). done.
    + simpl. rewrite Hn2, Hl, zlen_middle, u64_pred; [lia|]. rewrite zlen_middle in Hm. unfold zlen in *. lia.
    + rewrite zlen_middle in Hm. lia.
  - intros x Hx Hxn. simpl. rewrite nodes_call_free, lookup_delete_ne.
    + apply X. rewrite fmap_app in *. set_solver.
    + intros <-. apply Hxn. rewrite fmap_app. set_solver.
  - simpl. rewrite freed_call_free, F. unfold freed_by. by rewrite Hf2.
  - simpl. apply lookup_delete_eq.
  - done.
Qed.

(** ** Joining and rotating *)

Lemma listJoin_rep s l o xs ys : rep s l xs -> rep s o ys -> NoDup (xs ++ ys).*1 -> zlen (xs ++ ys) <= UINT64_MAX ->
  exists l' o' s', listJoin l o s = Some (l', o', s') /\ rep s' l' (xs ++ ys) /\ rep s' o' [] /\
    untouched s s' (xs ++ ys) /\ freed s' = freed s /\
    same_methods l l' /\ same_methods o o'.
Proof.
  intros R1 R2 Hnd Hb. destruct R1 as [Hn1 Hs1 Hh1 Ht1 Hl1 Hm1], R2 as [Hn2 Hs2 Hh2 Ht2 Hl2 Hm2].
  unfold listJoin. rewrite Hl2, zlen_zero. case_bool_decide as E.
  - subst ys. rewrite app_nil_r in *. exists l, o, s. split_and!; try done; constructor; try done.
  - destruct (first_of_Some ys E) as (q & w & zs & Eys).
    destruct (relink_first s ys None (last_of None xs) Hn2 Hs2) as (s1 & E1 & D1 & F1 & X1).
    assert (Hf : first_of ys None = Some q) by (by rewrite Eys). rewrite Hf in E1.
    apply NoDup_app_fst in Hnd as (_ & _ & Hd).
    destruct (relink_last s1 xs None (first_of ys None) Hn1) as (s2 & E2 & D2 & F2 & X2).
    { apply (dseg_ext s); [|done]. intros p Hp. apply X1. by apply Hd. }
    rewrite Hh2, Hf, Ht1, E1. bnd.
    set (l1 := if last_of None xs then l else set_head (first_of ys None) l).
    assert ((if last_of None xs then s0 ← set_next (last_of None xs) (Some q) s1; Some (l, s0)
             else Some (set_head (Some q) l, s1)) = Some (l1, s2)) as ->.
    { unfold l1. rewrite Hf in *. destruct (last_of None xs); [by rewrite E2|by injection E2 as <-]. }
    bnd. assert (Hll : len l1 = len l /\ dup l1 = dup l /\ free l1 = free l /\ match_ l1 = match_ l) by (unfold l1; by case_match).
    destruct Hll as (Hlen & ? & ? & ?).
    eexists _, _, s2. split; [done|]. split; [|split; [|split; [|split; [congruence|done]]]].
    + constructor.
      * by apply NoDup_app_fst.
      * apply dseg_app. split; [done|]. apply (dseg_ext s1); [|done]. intros p Hp. apply X2. intros Hp2. by apply (Hd p).
      * unfold l1. destruct xs as [|[r y] xs]; [done|].
        destruct (last_of_Some ((r, y) :: xs)) as (q' & w' & us & E'); [done|]. assert (last_of None ((r, y) :: xs) = Some q') as -> by (by rewrite E', last_of_snoc). done.
      * simpl. rewrite Ht2, last_of_app, Eys. done.
      * simpl. rewrite Hlen, Hl1, zlen_app. apply Z.mod_small. rewrite zlen_app in Hb. unfold UINT64_MAX, zlen in *. lia.
      * done.
    + constructor; try done. apply NoDup_nil_2.
    + intros x Hx Hxn. rewrite fmap_app, not_elem_of_app in Hxn. destruct Hxn. by rewrite X2, X1.
Qed.

Lemma zlen_le_one xs : (zlen xs <=? 1) = bool_decide (length xs <= 1)%nat.
Proof. unfold zlen. case_bool_decide; lia. Qed.

Lemma rep_set_both s l xs (h t : option positive) : NoDup xs.*1 -> dseg s None xs None -> h = first_of xs None ->
  t = last_of None xs -> len l = zlen xs -> zlen xs <= UINT64_MAX ->
  rep s (mkList h t (dup l) (free l) (match_ l) (len l)) xs.
Proof. intros. by constructor. Qed.

(** A single node, both of whose links are set. *)
Lemma set_links s p v X Y (q r : option positive) : nodes s !! p = Some (mkNode X Y v) ->
  exists s1 s2, set_prev (Some p) q s = Some s1 /\ set_next (Some p) r s1 = Some s2 /\
    nodes s2 !! p = Some (mkNode q r v) /\ freed s2 = freed s /\ (forall x, x <> p -> nodes s2 !! x = nodes s !! x).
Proof.
  intros Hp. unfold set_prev, set_next. simpl. rewrite Hp. simpl. eexists _, _. split; [done|].
  simpl. rewrite lookup_insert_eq. simpl. split; [done|]. simpl. rewrite lookup_insert_eq. split_and!; try done.
  intros x Hx. by rewrite !lookup_insert_ne by done.
Qed.

Lemma set_links' s p v X Y (q r : option positive) : nodes s !! p = Some (mkNode X Y v) ->
  exists s1 s2, set_next (Some p) r s = Some s1 /\ set_prev (Some p) q s1 = Some s2 /\
    nodes s2 !! p = Some (mkNode q r v) /\ freed s2 = freed s /\ (forall x, x <> p -> nodes s2 !! x = nodes s !! x).
Proof.
  intros Hp. unfold set_prev, set_next. simpl. rewrite Hp. simpl. eexists _, _. split; [done|].
  simpl. rewrite lookup_insert_eq. simpl. split; [done|]. simpl. rewrite lookup_insert_eq. split_and!; try done.
  intros x Hx. by rewrite !lookup_insert_ne by done.
Qed.

(** Two ends of a segment. *)
Lemma set_ends s a (q r X Y : option positive) : a <> [] -> NoDup a.*1 -> dseg s X a Y ->
  (exists s1 s2, set_next (last_of None a) r s = Some s1 /\ set_prev (first_of a None) q s1 = Some s2 /\
     dseg s2 q a r /\ freed s2 = freed s /\ (forall x, x ∉ a.*1 -> nodes s2 !! x = nodes s !! x)) /\
  (exists s1 s2, set_prev (first_of a None) q s = Some s1 /\ set_next (last_of None a) r s1 = Some s2 /\
     dseg s2 q a r /\ freed s2 = freed s /\ (forall x, x ∉ a.*1 -> nodes s2 !! x = nodes s !! x)).
Proof.
  intros Hne Hnd Hs. destruct (first_of_Some a Hne) as (p1 & v1 & ys & E1). destruct (last_of_Some a Hne) as (p2 & v2 & zs & E2).
  assert (Hin1 : p1 ∈ a.*1) by (rewrite E1; left).
  assert (Hin2 : p2 ∈ a.*1) by (rewrite E2, fmap_app; set_solver).
  assert (Hf : first_of a None = Some p1) by (by rewrite E1). assert (Hl : last_of None a = Some p2) by (rewrite E2; by rewrite last_of_snoc).
  rewrite Hf, Hl. split.
  - destruct (dseg_last s p2 v2 zs X Y r) as (s1 & ? & D1 & F1 & X1 & _); [by rewrite <- E2..|]. rewrite <- E2 in D1.
    destruct (dseg_first s1 p1 v1 ys X r q) as (s2 & ? & D2 & F2 & X2 & _); [by rewrite <- E1..|]. rewrite <- E1 in D2.
    exists s1, s2. split_and!; try done; [congruence|]. intros x Hx. rewrite X2, X1; [done|by intros ->..].
  - destruct (dseg_first s p1 v1 ys X Y q) as (s1 & ? & D1 & F1 & X1 & _); [by rewrite <- E1..|]. rewrite <- E1 in D1.
    destruct (dseg_last s1 p2 v2 zs q Y r) as (s2 & ? & D2 & F2 & X2 & _); [by rewrite <- E2..|]. rewrite <- E2 in D2.
    exists s1, s2. split_and!; try done; [congruence|]. intros x Hx. rewrite X2, X1; [done|by intros ->..].
Qed.

Definition rotate_tail {A} (xs : list A) : list A := match last xs with None => [] | Some x => x :: removelast xs end.
Definition rotate_head {A} (xs : list A) : list A := match xs with [] => [] | x :: xs => xs ++ [x] end.

Lemma rotate_short {A} (xs : list A) : (length xs <= 1)%nat -> rotate_tail xs = xs /\ rotate_head xs = xs.
Proof. destruct xs as [|x [|y xs]]; simpl; [done|done|lia]. Qed.

Lemma listRotateTailToHead_rep s l xs : rep s l xs ->
  exists l' s', listRotateTailToHead l s = Some (l', s') /\ rep s' l' (rotate_tail xs) /\
    untouched s s' xs /\ freed s' = freed s /\ same_methods l l'.
Proof.
  intros R. pose proof R as [Hnd Hs Hh Ht Hl Hm]. unfold listRotateTailToHead, listLength. rewrite Hl, zlen_le_one.
  case_bool_decide as E; [exists l, s; by rewrite (proj1 (rotate_short xs E))|].
  destruct (last_of_Some xs) as (t & v & ys & ->); [by intros ->; simpl in E; lia|].
  assert (Hne : ys <> []) by (intros ->; simpl in E; lia).
  pose proof (dseg_lookup _ _ _ _ _ _ _ Hs) as Hp. rewrite Ht, last_of_snoc. simpl get. rewrite Hp. bnd. cbn [tail set_tail prev head].
  apply NoDup_app_fst in Hnd as (Hny & _ & Hd). assert (Hty : t ∉ ys.*1) by (intros Hx; apply (Hd t Hx); left).
  apply dseg_app in Hs as [Hy _].
  destruct (proj1 (set_ends s ys (Some t) None _ _ Hne Hny Hy)) as (s1 & s2 & -> & E2 & D2 & F2 & X2). bnd.
  rewrite Hh, first_of_app. change (first_of [(t, v)] None) with (Some t). destruct (first_of_Some ys Hne) as (h & w & zs & Ey).
  assert (Hfy : first_of ys (Some t) = first_of ys None) by (by rewrite Ey). change (t, v).1 with t. rewrite Hfy, E2. bnd.
  rewrite <- (X2 t Hty) in Hp.
  destruct (set_links s2 t v _ _ None (first_of ys None) Hp) as (s3 & s4 & -> & E4 & Hp4 & F4 & X4). bnd. rewrite E4. bnd.
  eexists _, s4. split; [done|]. unfold rotate_tail. rewrite last_snoc, removelast_last. split; [|split; [|split; [congruence|done]]].
  - apply rep_set_both.
    + by apply NoDup_cons.
    + split; [done|]. apply (dseg_ext s2); [|done]. intros x Hx. apply X4. by intros ->.
    + done.
    + simpl. rewrite Ey. done.
    + simpl. rewrite Hl. unfold zlen. rewrite length_app. simpl. lia.
    + unfold zlen in *. rewrite length_app in Hm. simpl in *. lia.
  - intros x Hx Hxn. rewrite fmap_app in Hxn. rewrite X4, X2; [done|set_solver|set_solver].
Qed.

Lemma listRotateHeadToTail_rep s l xs : rep s l xs ->
  exists l' s', listRotateHeadToTail l s = Some (l', s') /\ rep s' l' (rotate_head xs) /\
    untouched s s' xs /\ freed s' = freed s /\ same_methods l l'.
Proof.
  intros R. pose proof R as [Hnd Hs Hh Ht Hl Hm]. unfold listRotateHeadToTail, listLength. rewrite Hl, zlen_le_one.
  case_bool_decide as E; [exists l, s; by rewrite (proj2 (rotate_short xs E))|].
  destruct xs as [|[h v] ys]; [simpl in E; lia|].
  assert (Hne : ys <> []) by (intros ->; simpl in E; lia).
  pose proof Hs as [Hp Hy]. rewrite Hh. change (first_of ((h, v) :: ys) None) with (Some h). simpl get. rewrite Hp. bnd. cbn [tail set_head next head].
  apply NoDup_cons in Hnd as [Hty Hny].
  destruct (proj2 (set_ends s ys None (Some h) _ _ Hne Hny Hy)) as (s1 & s2 & -> & E2 & D2 & F2 & X2). bnd.
  assert (Hly : tail l = last_of None ys). { rewrite Ht. destruct (last_of_Some ys Hne) as (p & w & zs & ->).
    rewrite last_of_snoc. change ((h, v) :: zs ++ [(p, w)]) with (((h, v) :: zs) ++ [(p, w)]). by rewrite last_of_snoc. }
  rewrite Hly, E2. bnd. rewrite <- (X2 h Hty) in Hp.
  destruct (set_links' s2 h v _ _ (last_of None ys) None Hp) as (s3 & s4 & -> & E4 & Hp4 & F4 & X4). bnd. rewrite E4. bnd.
  eexists _, s4. split; [done|]. simpl rotate_head. split; [|split; [|split; [congruence|done]]].
  - apply rep_set_both.
    + apply NoDup_app_fst. split_and!; [done|apply NoDup_singleton|]. intros x Hx ->%list_elem_of_singleton. done.
    + apply dseg_app. split; [|by split]. apply (dseg_ext s2); [|done]. intros x Hx. apply X4. by intros ->.
    + destruct (first_of_Some ys Hne) as (p & w & zs & ->). done.
    + by rewrite last_of_snoc.
    + simpl. rewrite Hl. unfold zlen. rewrite length_app. simpl. lia.
    + unfold zlen in *. rewrite length_app. simpl in *. lia.
  - intros x Hx Hxn. rewrite X4, X2; [done|set_solver|set_solver].
Qed.

(** ** Emptying, copying, searching *)

Lemma listEmpty_loop_spec l xs : forall s pp, NoDup xs.*1 -> dseg s pp xs None ->
  exists s', listEmpty_loop (length xs) l (first_of xs None) s = Some s' /\
    freed s' = freed s ++ freed_by l xs.*2 /\ (forall p, nodes s' !! p = if decide (p ∈ xs.*1) then None else nodes s !! p).
Proof.
  induction xs as [|[p v] xs IH]; intros s pp Hnd Hs; cbn [length listEmpty_loop].
  - exists s. split; [done|]. split; [|done]. unfold freed_by. case_match; by rewrite app_nil_r.
  - destruct Hs as [Hp Hs]. apply NoDup_cons in Hnd as [Hpn Hnd]. simpl get. rewrite Hp. bnd. cbn [next value].
    destruct (IH (zfree p (call_free l v s)) (Some p) Hnd) as (s' & E & F & X).
    { apply dseg_zfree; [done|]. by apply dseg_call_free. }
    simpl first_of. bnd. rewrite E. exists s'. split; [done|]. split.
    + rewrite F. simpl. rewrite freed_call_free, <- app_assoc. unfold freed_by. by case_match.
    + intros q. rewrite X. simpl. rewrite nodes_call_free, lookup_delete.
      destruct (decide (p = q)) as [<-|Hne]; [rewrite decide_False by done; by rewrite decide_True by left|].
      destruct (decide (q ∈ xs.*1)); [rewrite decide_True by (by right)|rewrite decide_False by set_solver]; done.
Qed.

Lemma listEmpty_rep s l xs : rep s l xs ->
  exists l' s', listEmpty l s = Some (l', s') /\ rep s' l' [] /\ untouched s s' xs /\
    freed s' = freed s ++ freed_by l xs.*2 /\ same_methods l l' /\
    (forall p, nodes s' !! p = if decide (p ∈ xs.*1) then None else nodes s !! p).
Proof.
  intros [Hnd Hs Hh Ht Hl Hm]. unfold listEmpty. rewrite Hl, Hh. unfold zlen. rewrite Nat2Z.id.
  destruct (listEmpty_loop_spec l xs s None Hnd Hs) as (s' & -> & F & X). bnd. eexists _, s'. split; [done|].
  split; [constructor; try done; apply NoDup_nil_2|]. split; [|done]. intros p Hp Hn. by rewrite X, decide_False.
Qed.

(** The number of allocated nodes is enough fuel for a walk. *)
Lemma rep_size s l xs : rep s l xs -> (length xs <= size (nodes s))%nat.
Proof.
  intros R. rewrite <- size_dom, <- (length_fmap fst xs), <- (size_list_to_set (C := gset positive)) by apply R.
  apply subseteq_size. intros p Hp%elem_of_list_to_set. apply elem_of_dom. eapply dseg_elem; [apply R|done].
Qed.

(** The values copied before the first one that the method refuses. *)
Fixpoint dup_prefix (f : V -> option V) (vs : list V) : list V :=
  match vs with
  | [] => []
  | v :: vs => match f v with None => [] | Some w => w :: dup_prefix f vs end
  end.

Definition dup_fun l : V -> option V := match dup l with Some f => f | None => Some end.

Lemma dup_fun_eq l v : match dup l with Some f => f v | None => Some v end = dup_fun l v.
Proof. unfold dup_fun. by case_match. Qed.

Lemma listDup_loop_spec fuel ys : forall s copy zs pp, (length ys <= fuel)%nat -> dseg s pp ys None -> rep s copy zs ->
  (forall p, p ∈ ys.*1 -> p ∉ zs.*1) -> zlen zs + zlen ys <= UINT64_MAX ->
  exists s', match mapM (dup_fun copy) ys.*2 with
    | Some ws => exists copy' us, listDup_loop fuel copy (mkIter (first_of ys None) AL_START_HEAD) s = Some (Some copy', s') /\
        rep s' copy' (zs ++ us) /\ us.*2 = ws /\ untouched s s' zs /\ freed s' = freed s /\ same_methods copy copy' /\
        (forall p, p ∈ us.*1 -> nodes s !! p = None)
    | None => listDup_loop fuel copy (mkIter (first_of ys None) AL_START_HEAD) s = Some (None, s') /\
        (forall p, nodes s' !! p = if decide (p ∈ zs.*1) then None else nodes s !! p) /\
        freed s' = freed s ++ freed_by copy (zs.*2 ++ dup_prefix (dup_fun copy) ys.*2)
    end.
Proof.
  revert ys. induction fuel as [|fuel IH]; intros [|[p v] ys] s copy zs pp Hf Hs R Hd Hb; try (simpl in Hf; lia).
  - exists s. exists copy, []. rewrite app_nil_r. split_and!; try done. intros p. set_solver.
  - exists s. exists copy, []. rewrite app_nil_r. split_and!; try done. intros p. set_solver.
  - destruct Hs as [Hp Hs]. cbn [listDup_loop]. unfold listNext. cbn [it_next first_of]. rewrite Hp. bnd. rewrite Hp. bnd. cbn [value].
    rewrite dup_fun_eq. cbn [fmap list_fmap snd mapM dup_prefix]. rewrite zlen_cons in Hb.
    destruct (dup_fun copy v) as [w|]; simpl mbind.
    + destruct (listAddNodeTail_rep s copy zs w R) as (copy1 & s1 & n & -> & R1 & Hn & A1 & F1 & (Hm1 & Hm2 & Hm3));
        [pose proof (zlen_nonneg ys); lia|]. simpl. pose proof (adds_untouched s s1 zs n Hn A1) as U1.
      assert (Hext : forall q, q ∈ ys.*1 -> nodes s1 !! q = nodes s !! q).
      { intros q Hq. apply U1; [by eapply dseg_elem|apply Hd; by right]. }
      assert (HnD : forall q, q ∈ ys.*1 -> q <> n).
      { intros q Hq ->. destruct (dseg_elem _ _ _ _ _ Hs Hq). congruence. }
      destruct (IH ys s1 copy1 (zs ++ [(n, w)]) (Some p)) as (s' & H').
      * simpl in Hf. lia.
      * by apply (dseg_ext s).
      * done.
      * intros q Hq. rewrite fmap_app, not_elem_of_app. split; [apply Hd; by right|]. intros ->%list_elem_of_singleton. by apply (HnD n).
      * rewrite zlen_app. change (zlen [(n, w)]) with 1. lia.
      * assert (Hdf : dup_fun copy1 = dup_fun copy) by (unfold dup_fun; by rewrite Hm1). rewrite Hdf in H'. exists s'.
        destruct (mapM (dup_fun copy) ys.*2) as [ws|]; simpl.
        -- destruct H' as (copy' & us & E & R' & Eu & U' & F' & M' & N'). exists copy', ((n, w) :: us). split; [done|].
           rewrite <- app_assoc in R'. split; [done|]. split; [by rewrite <- Eu|]. split; [|split; [congruence|split]].
           ++ intros q Hq Hqz. destruct (decide (q = n)) as [->|Hqn]; [destruct Hq; congruence|].
              rewrite U'; [by apply U1| |]; [rewrite U1 by done; done|]. rewrite fmap_app. set_solver.
           ++ unfold same_methods in *. by rewrite <- Hm1, <- Hm2, <- Hm3.
           ++ intros q Hq. simpl in Hq. apply elem_of_cons in Hq as [->|Hq]; [done|]. pose proof (N' q Hq) as HN.
              destruct (nodes s !! q) as [x|] eqn:Ex; [|done]. destruct (decide (q ∈ zs.*1)) as [Hz|Hz].
              ** destruct (dseg_elem s1 None (zs ++ [(n, w)]) None q (rep_dseg _ _ _ R1)) as [y Hy]; [rewrite fmap_app; set_solver|congruence].
              ** rewrite U1 in HN; [congruence|by rewrite Ex|done].
        -- destruct H' as (E & X' & F'). split; [done|]. split.
           ++ intros q. rewrite X', fmap_app. destruct (decide (q ∈ zs.*1)); [by rewrite decide_True by set_solver|].
              destruct (decide (q = n)) as [->|Hqn]; [rewrite decide_True by set_solver; done|].
              rewrite decide_False by set_solver. by apply A1.
           ++ rewrite F', F1. unfold freed_by. rewrite Hm2. case_match; [|done]. rewrite fmap_app, <- !app_assoc. done.
    + destruct (listEmpty_rep s copy zs R) as (l' & s' & E & _ & _ & F & _ & X). exists s'. unfold listRelease. rewrite E.
      split; [done|]. split; [done|]. by rewrite app_nil_r.
Qed.

Definition matches l (key v : V) : bool := match match_ l with Some f => f v key | None => bool_decide (key = v) end.

Lemma listSearchKey_loop_spec fuel l key : forall ys s pp, (length ys <= fuel)%nat -> dseg s pp ys None ->
  listSearchKey_loop fuel l key (mkIter (first_of ys None) AL_START_HEAD) s =
  Some (fst <$> List.find (fun x => matches l key x.2) ys).
Proof.
  induction fuel as [|fuel IH]; intros [|[p v] ys] s pp Hf Hs; try (simpl in Hf; lia); [done..|].
  destruct Hs as [Hp Hs]. cbn [listSearchKey_loop List.find]. unfold listNext. cbn [it_next first_of]. rewrite Hp. bnd. rewrite Hp. bnd. cbn [value snd].
  change (match match_ l with Some f => f v key | None => bool_decide (key = v) end) with (matches l key v). simpl snd.
  destruct (matches l key v); [done|]. apply (IH ys s (Some p)); [simpl in Hf; lia|done].
Qed.

Lemma listIndex_forward fuel : forall ys s pp index, (length ys <= fuel)%nat -> dseg s pp ys None -> 0 <= index ->
  listIndex_loop fuel true index (first_of ys None) s = Some (fst <$> ys !! Z.to_nat index).
Proof.
  induction fuel as [|fuel IH]; intros [|[p v] ys] s pp index Hf Hs Hi; try (simpl in Hf; lia); cbn [listIndex_loop first_of].
  - rewrite lookup_nil. by case_match.
  - rewrite lookup_nil. by case_match.
  - destruct (Z.eqb_spec index 0) as [->|Hne]; [done|]. destruct Hs as [Hp Hs]. rewrite Hp. bnd. simpl next.
    rewrite (IH ys s (Some p) (index - 1) ltac:(simpl in Hf; lia) Hs ltac:(lia)). replace (Z.to_nat index) with (S (Z.to_nat (index - 1))) by lia. done.
Qed.

Lemma listIndex_backward fuel : forall ys s nn index, (length ys <= fuel)%nat -> dseg s None ys nn -> 0 <= index ->
  listIndex_loop fuel false index (last_of None ys) s = Some (fst <$> reverse ys !! Z.to_nat index).
Proof.
  induction fuel as [|fuel IH]; intros ys s nn index Hf Hs Hi; (destruct (decide (ys = [])) as [->|Hne];
    [cbn [listIndex_loop]; rewrite reverse_nil, lookup_nil; by case_match|]); destruct (last_of_Some ys Hne) as (p & v & zs & ->).
  - rewrite length_app in Hf. simpl in Hf. lia.
  - rewrite last_of_snoc, reverse_snoc. cbn [listIndex_loop fst].
    destruct (Z.eqb_spec index 0) as [->|Hi0]; [done|]. rewrite (dseg_lookup _ _ _ _ _ _ _ Hs). bnd. simpl prev.
    apply dseg_app in Hs as [Hs _]. rewrite length_app in Hf. simpl in Hf.
    rewrite (IH zs s _ (index - 1) ltac:(lia) Hs ltac:(lia)). replace (Z.to_nat index) with (S (Z.to_nat (index - 1))) by lia. done.
Qed.

Lemma listIndex_rep s l xs index : rep s l xs -> INT64_MIN < index ->
  listIndex l index s = Some (fst <$> (if index <? 0 then reverse xs !! Z.to_nat (- index - 1) else xs !! Z.to_nat index)).
Proof.
  intros R Hi. pose proof (rep_size _ _ _ R) as Hsz. destruct R as [Hnd Hs Hh Ht Hl Hm]. unfold listIndex.
  destruct (Z.eqb_spec index INT64_MIN); [lia|]. destruct (Z.ltb_spec index 0).
  - rewrite Ht. apply (listIndex_backward _ xs s None); [done|done|lia].
  - rewrite Hh. by apply (listIndex_forward _ xs s None).
Qed.

End adlist_proofs.
(** ** Simulation of sequences

    The abstract state is two sequences of values and the values freed so far;
    the operations on it are the ones a reader of adlist.h expects. *)
Section simulation.
Context {V : Type} `{EqDecision V}.
Implicit Types (s : @store V) (l : @list_ V) (vs us : list V).

(** Operations on one list; a node is designated by its index. *)
Inductive lop :=
  | AddHead (v : V) | AddTail (v : V) | Insert (i : Z) (v : V) (after : bool) | Del (i : Z)
  | RotateTailToHead | RotateHeadToTail | Empty.

Definition run1 (o : lop) l s : option (list_ * store) :=
  match o with
  | AddHead v => listAddNodeHead l v s
  | AddTail v => listAddNodeTail l v s
  | Insert i v after => n ← listIndex l i s; match n with Some p => listInsertNode l p v after s | None => Some (l, s) end
  | Del i => n ← listIndex l i s; match n with Some p => listDelNode l p s | None => Some (l, s) end
  | RotateTailToHead => listRotateTailToHead l s
  | RotateHeadToTail => listRotateHeadToTail l s
  | Empty => listEmpty l s
  end.

(** The position an index designates, negative ones counting from the end. *)
Definition position (n : nat) (i : Z) : option nat :=
  let j := if i <? 0 then Z.of_nat n + i else i in
  if (0 <=? j) && (j <? Z.of_nat n) then Some (Z.to_nat j) else None.

(** The new sequence, and the values that leave it. *)
Definition spec1 (o : lop) vs : list V * list V :=
  match o with
  | AddHead v => (v :: vs, [])
  | AddTail v => (vs ++ [v], [])
  | Insert i v after =>
      match position (length vs) i with
      | Some k => let k := if (after : bool) then S k else k in (take k vs ++ v :: drop k vs, [])
      | None => (vs, [])
      end
  | Del i =>
      match position (length vs) i with
      | Some k => (take k vs ++ drop (S k) vs, option_list (vs !! k))
      | None => (vs, [])
      end
  | RotateTailToHead => (rotate_tail vs, [])
  | RotateHeadToTail => (rotate_head vs, [])
  | Empty => ([], vs)
  end.

Definition lop_ok (o : lop) : Prop := match o with Insert i _ _ | Del i => INT64_MIN < i | _ => True end.

Lemma position_lookup {A} (xs : list A) i :
  (if i <? 0 then reverse xs !! Z.to_nat (- i - 1) else xs !! Z.to_nat i) =
  (k ← position (length xs) i; xs !! k).
Proof.
  unfold position. destruct (Z.ltb_spec i 0).
  - destruct (decide (0 <= Z.of_nat (length xs) + i)) as [Hi|Hi].
    + rewrite (proj2 (Z.leb_le _ _)), (proj2 (Z.ltb_lt _ _)) by lia. simpl.
      rewrite reverse_lookup by lia. f_equal. lia.
    + rewrite (proj2 (Z.leb_gt _ _)) by lia. simpl. apply lookup_ge_None_2. rewrite length_reverse. lia.
  - rewrite (proj2 (Z.leb_le _ _)) by lia. destruct (Z.ltb_spec i (Z.of_nat (length xs))); simpl; [done|].
    apply lookup_ge_None_2. lia.
Qed.

Lemma position_split {A} (xs : list A) i k : position (length xs) i = Some k ->
  exists x, xs !! k = Some x /\ xs = take k xs ++ x :: drop (S k) xs /\ length (take k xs) = k.
Proof.
  unfold position. intros H. assert (Hk : (k < length xs)%nat) by (repeat case_match; bool_hyps; simplify_eq; lia).
  destruct (lookup_lt_is_Some_2 xs k Hk) as [x Hx]. exists x. split; [done|]. split.
  - symmetry. by apply take_drop_middle.
  - rewrite length_take. lia.
Qed.

Lemma rotate_fmap {A B} (f : A -> B) (xs : list A) : f <$> rotate_tail xs = rotate_tail (f <$> xs) /\ f <$> rotate_head xs = rotate_head (f <$> xs).
Proof.
  split.
  - destruct (decide (xs = [])) as [->|Hne]; [done|]. destruct (exists_last Hne) as (ys & x & ->).
    unfold rotate_tail. rewrite fmap_app. change (f <$> [x]) with [f x]. by rewrite !last_snoc, !removelast_last.
  - destruct xs; [done|]. simpl. by rewrite fmap_app.
Qed.

(** What one operation on a list does, whatever else is in the store. *)
Definition sim1 s l (xs : list (positive * V)) (r : option (list_ * store)) (st : list V * list V) : Prop :=
  exists l' s' xs', r = Some (l', s') /\ rep s' l' xs' /\ xs'.*2 = st.1 /\ freed s' = freed s ++ freed_by l st.2 /\
    untouched s s' xs /\ same_methods l l' /\ (forall p, p ∈ xs'.*1 -> p ∈ xs.*1 \/ nodes s !! p = None).

Lemma freed_by_nil l (fs : list V) : fs ++ freed_by l [] = fs.
Proof. unfold freed_by. case_match; apply app_nil_r. Qed.

Lemma run1_sim o s l xs : rep s l xs -> lop_ok o -> zlen (spec1 o xs.*2).1 <= UINT64_MAX ->
  sim1 s l xs (run1 o l s) (spec1 o xs.*2).
Proof.
  intros R Hok Hb. destruct o as [v|v|i v after|i| | |]; cbn [run1 spec1 fst snd] in *.
  - destruct (listAddNodeHead_rep s l xs v R) as (l' & s' & p & -> & R' & Hp & U & F & M).
    { rewrite zlen_cons in Hb. unfold zlen in *. rewrite length_fmap in Hb. lia. }
    exists l', s', ((p, v) :: xs). rewrite freed_by_nil. split_and!; try done. set_solver.
  - destruct (listAddNodeTail_rep s l xs v R) as (l' & s' & p & -> & R' & Hp & A & F & M).
    { unfold zlen in *. rewrite length_app, length_fmap in Hb. simpl in Hb. lia. }
    exists l', s', (xs ++ [(p, v)]). rewrite freed_by_nil, fmap_app. split_and!; try done; [by eapply adds_untouched|].
    rewrite fmap_app. set_solver.
  - rewrite (listIndex_rep s l xs i R Hok), position_lookup, length_fmap. bnd. rewrite length_fmap in Hb.
    destruct (position (length xs) i) as [k|] eqn:E; simpl.
    + destruct (position_split xs i k E) as ([p w] & Hk & Hx & Hlen). rewrite Hk. simpl.
      rewrite Hx in R. destruct (listInsertNode_rep s l _ p w _ v after R) as (l' & s' & n & -> & R' & Hn & U & F & M).
      { rewrite <- Hx. simpl in Hb. destruct after; unfold zlen in *; rewrite length_app in Hb; simpl in Hb;
          rewrite length_take, length_drop, length_fmap in Hb; apply lookup_lt_Some in Hk; lia. }
      eexists l', s', _. split; [done|]. split; [exact R'|]. rewrite freed_by_nil, <- Hx in *. split_and!; try done.
      * destruct after; rewrite fmap_app; cbn [fmap list_fmap snd]; rewrite !fmap_take, !fmap_drop.
        -- rewrite (take_S_r _ _ w) by (by rewrite list_lookup_fmap, Hk). by rewrite <- app_assoc.
        -- f_equal. f_equal. rewrite (drop_S (xs.*2) w k) by (by rewrite list_lookup_fmap, Hk). done.
      * intros q Hq. destruct (decide (q = n)) as [->|Hqn]; [by right|left]. rewrite Hx.
        destruct after; rewrite !fmap_app in *; set_solver.
    + exists l, s, xs. rewrite freed_by_nil. by split_and!; [..|left].
  - rewrite (listIndex_rep s l xs i R Hok), position_lookup, length_fmap. bnd.
    destruct (position (length xs) i) as [k|] eqn:E; simpl.
    + destruct (position_split xs i k E) as ([p w] & Hk & Hx & Hlen). rewrite Hk. simpl. rewrite Hx in R.
      destruct (listDelNode_rep s l _ p w _ R) as (l' & s' & -> & R' & U & F & _ & M). rewrite <- Hx in U.
      eexists l', s', _. split; [done|]. split; [exact R'|]. rewrite list_lookup_fmap, Hk. split_and!; try done.
      * by rewrite fmap_app, fmap_take, fmap_drop.
      * intros q Hq. left. rewrite Hx. rewrite !fmap_app in *. set_solver.
    + exists l, s, xs. rewrite freed_by_nil. by split_and!; [..|left].
  - destruct (listRotateTailToHead_rep s l xs R) as (l' & s' & -> & R' & U & F & M). eexists l', s', _. split; [done|].
    split; [exact R'|]. rewrite freed_by_nil. split_and!; try done; [apply rotate_fmap|]. intros p Hp. left.
    rewrite (proj1 (rotate_fmap fst xs)) in Hp. unfold rotate_tail in Hp. destruct (last xs.*1) as [q|] eqn:E; [|set_solver].
    apply last_Some in E as (ys & E). rewrite E in *. rewrite removelast_last in Hp. set_solver.
  - destruct (listRotateHeadToTail_rep s l xs R) as (l' & s' & -> & R' & U & F & M). eexists l', s', _. split; [done|].
    split; [exact R'|]. rewrite freed_by_nil. split_and!; try done; [apply rotate_fmap|]. intros p Hp. left.
    destruct xs as [|[q w] xs]; [done|]. simpl in Hp. rewrite fmap_app in Hp. set_solver.
  - destruct (listEmpty_rep s l xs R) as (l' & s' & -> & R' & U & F & M & _). exists l', s', []. split_and!; try done. set_solver.
Qed.

(** ** Two lists in one store *)

Inductive op := On (first : bool) (o : lop) | Join | Dup.

Definition state : Type := list_ (V := V) * list_ (V := V) * store (V := V).
Definition astate : Type := list V * list V * list V.

(** [Join] moves the second list to the end of the first, [Dup] replaces the
    second list by a copy of the first (by nothing if copying fails). *)
Definition run (o : op) (st : state) : option state :=
  let '(l1, l2, s) := st in
  match o with
  | On true o => '(l1, s) ← run1 o l1 s; Some (l1, l2, s)
  | On false o => '(l2, s) ← run1 o l2 s; Some (l1, l2, s)
  | Join => listJoin l1 l2 s
  | Dup =>
      '(l2, s) ← listEmpty l2 s;
      '(copy, s) ← listDup l1 s;
      Some (l1, default l2 copy, s)
  end.

Definition spec (dupf : V -> option V) (has_free : bool) (o : op) (st : astate) : astate :=
  let '(vs, us, fs) := st in
  let fr (ws : list V) := if has_free then ws else [] in
  match o with
  | On true o => ((spec1 o vs).1, us, fs ++ fr (spec1 o vs).2)
  | On false o => (vs, (spec1 o us).1, fs ++ fr (spec1 o us).2)
  | Join => (vs ++ us, [], fs)
  | Dup =>
      match mapM dupf vs with
      | Some ws => (vs, ws, fs ++ fr us)
      | None => (vs, [], fs ++ fr us ++ fr (dup_prefix dupf vs))
      end
  end.

Definition has_methods d f m l : Prop := dup l = d /\ free l = f /\ match_ l = m.

(** The two lists represent the two sequences, with disjoint nodes. *)
Definition sim d f m (st : state) (ast : astate) : Prop :=
  let '(l1, l2, s) := st in let '(vs, us, fs) := ast in
  exists xs ys, rep s l1 xs /\ rep s l2 ys /\ (forall p, p ∈ xs.*1 -> p ∉ ys.*1) /\ xs.*2 = vs /\ ys.*2 = us /\
    freed s = fs /\ has_methods d f m l1 /\ has_methods d f m l2.

Definition fits (ast : astate) : Prop := zlen ast.1.1 <= UINT64_MAX /\ zlen ast.1.2 <= UINT64_MAX.
Definition op_ok (o : op) : Prop := match o with On _ o => lop_ok o | _ => True end.

Lemma same_has d f m l l' : has_methods d f m l -> same_methods l l' -> has_methods d f m l'.
Proof. unfold has_methods, same_methods. intros (-> & -> & ->) (-> & -> & ->). done. Qed.

Lemma freed_by_has d f m l us : has_methods d f m l -> freed_by l us = if f then us else [].
Proof. intros (_ & <- & _). done. Qed.

Lemma disjoint_step s (xs xs' ys : list (positive * V)) l : rep s l ys -> (forall p, p ∈ xs.*1 -> p ∉ ys.*1) ->
  (forall p, p ∈ xs'.*1 -> p ∈ xs.*1 \/ nodes s !! p = None) -> forall p, p ∈ xs'.*1 -> p ∉ ys.*1.
Proof.
  intros R Hd Hx p [Hp|Hp]%Hx; [by apply Hd|]. intros Hy. destruct (dseg_elem s None ys None p (rep_dseg _ _ _ R) Hy). congruence.
Qed.

Lemma listDup_rep s l xs : rep s l xs ->
  exists s', match mapM (dup_fun l) xs.*2 with
    | Some ws => exists copy (us : list (positive * V)), listDup l s = Some (Some copy, s') /\ rep s' copy us /\ us.*2 = ws /\
        untouched s s' [] /\ freed s' = freed s /\ same_methods l copy /\ (forall p, p ∈ us.*1 -> nodes s !! p = None)
    | None => listDup l s = Some (None, s') /\ untouched s s' [] /\
        freed s' = freed s ++ freed_by l (dup_prefix (dup_fun l) xs.*2)
    end.
Proof.
  intros R. pose proof (rep_size _ _ _ R) as Hsz. unfold listDup, listRewind. rewrite (rep_head _ _ _ R).
  set (copy0 := mkList None None (dup l) (free l) (match_ l) 0).
  destruct (listDup_loop_spec (size (nodes s)) xs s copy0 [] None Hsz) as (s' & H').
  - apply R.
  - constructor; try done. apply NoDup_nil_2.
  - set_solver.
  - change (zlen (@nil (positive * V))) with 0. pose proof (rep_bound _ _ _ R). lia.
  - exists s'. change (dup_fun copy0) with (dup_fun l) in H'. destruct (mapM (dup_fun l) xs.*2) as [ws|].
    + exact H'.
    + destruct H' as (E & X & F). split; [done|]. split; [|done]. intros p _ _. rewrite X. by rewrite decide_False by set_solver.
Qed.

Lemma run_sim d f m o st ast : sim d f m st ast -> op_ok o -> fits (spec (from_option id Some d) f o ast) ->
  exists st', run o st = Some st' /\ sim d f m st' (spec (from_option id Some d) f o ast).
Proof.
  destruct st as [[l1 l2] s], ast as [[vs us] fs].
  intros (xs & ys & R1 & R2 & Hd & <- & <- & <- & M1 & M2) Hok [Hb1 Hb2].
  assert (Hd' : forall p, p ∈ ys.*1 -> p ∉ xs.*1) by (intros p Hp Hx; by apply (Hd p)).
  destruct o as [[|] o| |]; cbn [run spec fst snd op_ok] in *.
  - destruct (run1_sim o s l1 xs R1 Hok Hb1) as (l' & s' & xs' & -> & R' & E' & F' & U' & M' & N'). eexists. split; [done|].
    exists xs', ys. split_and!; try done.
    + eapply rep_other; eauto.
    + eapply disjoint_step; eauto.
    + by rewrite F', (freed_by_has d f m).
    + exact (same_has d f m l1 l' M1 M').
  - destruct (run1_sim o s l2 ys R2 Hok Hb2) as (l' & s' & ys' & -> & R' & E' & F' & U' & M' & N'). eexists. split; [done|].
    exists xs, ys'. split_and!; try done.
    + eapply rep_other; [eauto|eauto|]. done.
    + intros p Hp Hy. by eapply (disjoint_step s ys ys' xs l1 R1 Hd' N' p).
    + by rewrite F', (freed_by_has d f m).
    + exact (same_has d f m l2 l' M2 M').
  - destruct (listJoin_rep s l1 l2 xs ys R1 R2) as (l' & o' & s' & -> & R' & Ro & U & F & Ml & Mo).
    + apply NoDup_app_fst. split_and!; [apply R1|apply R2|done].
    + unfold zlen in *. rewrite length_app, !length_fmap in *. done.
    + eexists. split; [done|]. exists (xs ++ ys), []. split_and!; try done; [set_solver|by rewrite fmap_app|exact (same_has d f m l1 l' M1 Ml)|exact (same_has d f m l2 o' M2 Mo)].
  - destruct (listEmpty_rep s l2 ys R2) as (l2' & s1 & -> & Re & U1 & F1 & Me & _). bnd.
    assert (R1' : rep s1 l1 xs) by (eapply rep_other; eauto).
    destruct (listDup_rep s1 l1 xs R1') as (s2 & H2).
    assert (Hdf : dup_fun l1 = from_option id Some d) by (unfold dup_fun; destruct M1 as (-> & _); by destruct d).
    rewrite Hdf in H2. rewrite (freed_by_has d f m) in F1 by done.
    destruct (mapM (from_option id Some d) xs.*2) as [ws|].
    + destruct H2 as (copy & zs & -> & Rz & Ez & U2 & F2 & Mc & N2). bnd. eexists. split; [done|]. simpl.
      exists xs, zs. split_and!; try done.
      * eapply rep_other; [eauto|eauto|]. set_solver.
      * intros p Hp Hz. pose proof (N2 p Hz). destruct (dseg_elem s1 None xs None p (rep_dseg _ _ _ R1') Hp). congruence.
      * congruence.
      * exact (same_has d f m l1 copy M1 Mc).
    + destruct H2 as (-> & U2 & F2). bnd. eexists. split; [done|]. simpl. exists xs, [].
      split_and!; try done; [eapply rep_other; [eauto|eauto|]; set_solver|eapply rep_other; [eauto|eauto|]; set_solver| | |exact (same_has d f m l2 l2' M2 Me)].
      * set_solver.
      * rewrite F2, F1, (freed_by_has d f m) by done. by rewrite app_assoc.
Qed.

Fixpoint runs (os : list op) (st : state) : option state :=
  match os with
  | [] => Some st
  | o :: os => st ← run o st; runs os st
  end.
Definition specs dupf has_free (os : list op) (ast : astate) : astate := foldl (fun a o => spec dupf has_free o a) ast os.

(** No list outgrows its counter along the way. *)
Fixpoint all_fit dupf has_free (os : list op) (ast : astate) : Prop :=
  match os with
  | [] => True
  | o :: os => fits (spec dupf has_free o ast) /\ all_fit dupf has_free os (spec dupf has_free o ast)
  end.

(** A list made by listCreate, with its methods set. *)
Definition created d f m : list_ (V := V) :=
  let l := listCreate (V := V) in mkList (head l) (tail l) d f m (len l).

(** C25: Any sequence of operations on two lists that share the store, from
    two new lists, runs without following a null or dangling pointer and has
    the result of the same operations on two sequences of values: the nodes of
    each list form the chain, in both directions, of exactly the values of its
    sequence, the lengths agree, and the free method is called with exactly
    the values that leave the lists, in order.  Covers adding at both ends and
    around a node, deletion, both rotations, emptying, joining and copying with
    a copy method that may fail. *)
Theorem adlist_simulates d f m os s0 : Forall op_ok os -> freed s0 = [] ->
  all_fit (from_option id Some d) f os ([], [], []) ->
  exists st, runs os (created d f m, created d f m, s0) = Some st /\
    sim d f m st (specs (from_option id Some d) f os ([], [], [])).
Proof.
  intros Hok Hs0 Hfit.
  assert (H0 : sim d f m (created d f m, created d f m, s0) ([], [], [])).
  { exists [], []. split_and!; try done; try (constructor; try done; apply NoDup_nil_2). set_solver. }
  revert H0 Hfit. generalize (created d f m, created d f m, s0) as st. generalize (([], [], []) : astate) as ast.
  induction Hok as [|o os Ho Hos IH]; intros ast st Hsim Hfit; cbn [runs specs foldl]; [eauto|].
  destruct Hfit as [Hf Hfit]. destruct (run_sim d f m o st ast Hsim Ho Hf) as (st' & -> & Hsim'). bnd. by apply IH.
Qed.

(** Searching and indexing: on a list that represents a sequence of
    values, listSearchKey returns the first node whose value matches (by the
    match method, or equality of pointers without one), or null; listIndex
    returns the node at the position, counted from the tail for negative
    indexes, or null when out of range; neither walks off the list. *)
Lemma adlist_search_index s l xs key index : rep s l xs -> INT64_MIN < index ->
  listSearchKey l key s = Some (fst <$> List.find (fun x => matches l key x.2) xs) /\
  listIndex l index s = Some (fst <$> (k ← position (length xs) index; xs !! k)).
Proof.
  intros R Hi. split; [|by rewrite (listIndex_rep s l xs), position_lookup].
  unfold listSearchKey, listRewind. rewrite (rep_head _ _ _ R). apply (listSearchKey_loop_spec _ _ _ _ _ None); [|apply R].
  by eapply rep_size.
Qed.
End simulation.

(** ** Instances *)

Definition demo_ops : list (@op Z) :=
  [On true (AddTail 1); On true (AddTail 2); On true (AddHead 0); On true (Insert (-1) 9 false);
   Dup; On false (Del 1); On true RotateTailToHead; On false RotateHeadToTail; Join; On true (Del 0)].

Lemma adlist_simulates_witness :
  specs (fun x => Some (x + 10)) true demo_ops ([], [], []) = ([0; 1; 9; 19; 12; 10], [], [11; 2]) /\
  exists st, runs demo_ops (created (Some (fun x => Some (x + 10))) true None, created (Some (fun x => Some (x + 10))) true None, mkStore ∅ []) = Some st /\
    sim (Some (fun x => Some (x + 10))) true None st (specs (fun x => Some (x + 10)) true demo_ops ([], [], [])).
Proof.
  split; [by vm_compute|].
  apply (adlist_simulates (Some (fun x => Some (x + 10))) true None demo_ops (mkStore ∅ [])).
  - repeat constructor.
  - done.
  - repeat split; by vm_compute.
Defined.

Definition demo_store : @store Z :=
  mkStore {[ 1%positive := mkNode None (Some 2%positive) 5; 2%positive := mkNode (Some 1%positive) None 7 ]} [].
Definition demo_list : @list_ Z := mkList (Some 1%positive) (Some 2%positive) None false None 2.

Lemma adlist_search_index_witness :
  listSearchKey demo_list 7 demo_store = Some (Some 2%positive) /\ listIndex demo_list (-2) demo_store = Some (Some 1%positive).
Proof.
  destruct (adlist_search_index demo_store demo_list [(1%positive, 5); (2%positive, 7)] 7 (-2)) as [H1 H2].
  - constructor; [apply (bool_decide_unpack _); by vm_compute|by repeat split|done|done|done|done].
  - done.
  - split; [exact H1|exact H2].
Defined.

End Adlist.
