(* ===== verification/Skiplist.v ===== *)
(** * The skiplist of sorted sets
    (src/redis-stable/src/t_zset.c: the zsl functions; sdscmp of sds.c)

    Nodes live in a heap from addresses to nodes; using an address that is not
    allocated, a level a node does not have or a null element is [None], as
    is a failed assertion.  Scores are IEEE floating point numbers with the
    comparisons of the language ([SFltb], [SFleb], [SFeqb]); the random level
    of a new node is given by the number of successful draws.  The hash table
    that range deletions update is a finite map from elements to scores.

    [zrep] relates a heap and a skiplist to the sequence of its nodes with
    their heights: the links and spans of every level of every node are those
    computed from the heights alone ([level_at]).  The theorem: every sequence
    of operations returns and simulates the same operations on a sorted
    sequence of scores and elements, ranks included. *)
From stdpp Require Import base list gmap sorting.
From Stdlib Require Import SpecFloat.
From S2P Require Import Prelude.

Module Skiplist.

Abbreviation bytes := (list Z).
Abbreviation ptr := positive.

Definition ZSKIPLIST_MAXLEVEL : nat := 32.

(** [struct zskiplistLevel] *)
Record zskiplistLevel := mkLevel { forward : option ptr; span : Z }.
Record zskiplistNode := mkNode {
  ele : option bytes; score : spec_float; backward : option ptr; levels : list zskiplistLevel }.
Record zskiplist := mkZsl { header : ptr; tail : option ptr; zlength : Z; zlevel : nat }.

Abbreviation heap := (gmap ptr zskiplistNode).

(** ** Accesses *)

Definition get_level (h : heap) (p : ptr) (i : nat) : option zskiplistLevel := n ← h !! p; levels n !! i.

Definition set_level (h : heap) (p : ptr) (i : nat) (v : zskiplistLevel) : option heap :=
  n ← h !! p; _ ← levels n !! i;
  Some (<[p := mkNode (ele n) (score n) (backward n) (<[i := v]> (levels n))]> h).

Definition set_backward (h : heap) (p : ptr) (b : option ptr) : option heap :=
  n ← h !! p; Some (<[p := mkNode (ele n) (score n) b (levels n)]> h).

Definition set_score (h : heap) (p : ptr) (s : spec_float) : option heap :=
  n ← h !! p; Some (<[p := mkNode (ele n) s (backward n) (levels n)]> h).

Definition set_tail (t : option ptr) (z : zskiplist) : zskiplist := mkZsl (header z) t (zlength z) (zlevel z).
Definition set_length (n : Z) (z : zskiplist) : zskiplist := mkZsl (header z) (tail z) n (zlevel z).
Definition set_zlevel (l : nat) (z : zskiplist) : zskiplist := mkZsl (header z) (tail z) (zlength z) l.

(** The address of a new node. *)
Definition zmalloc (h : heap) : ptr := fresh (dom h).

Fixpoint memcmp (s1 s2 : bytes) (n : nat) : Z :=
  match n, s1, s2 with
  | S n, x :: s1, y :: s2 => if x =? y then memcmp s1 s2 n else x - y
  | _, _, _ => 0
  end.

Definition sdscmp (s1 s2 : bytes) : Z :=
  let l1 := zlen s1 in
  let l2 := zlen s2 in
  let minlen := if l1 <? l2 then l1 else l2 in
  let cmp := memcmp s1 s2 (Z.to_nat minlen) in
  if cmp =? 0 then (if l2 <? l1 then 1 else if l1 <? l2 then -1 else 0) else cmp.

Definition isnan (x : spec_float) : bool := match x with S754_nan => true | _ => false end.

Definition zero : spec_float := S754_zero false.

(** ** Creation *)

Section operations.
(** What fresh memory holds. *)
Context (junk : option ptr) (junk_level : zskiplistLevel).

Definition zslCreateNode (h : heap) (level : nat) (s : spec_float) (e : option bytes) : ptr * heap :=
  let zn := zmalloc h in
  (zn, <[zn := mkNode e s junk (replicate level junk_level)]> h).

Fixpoint init_levels (n j : nat) (h : heap) (p : ptr) : option heap :=
  match n with
  | O => Some h
  | S n => h ← set_level h p j (mkLevel None 0); init_levels n (S j) h p
  end.

Definition zslCreate (h : heap) : option (heap * zskiplist) :=
  let '(hd, h) := zslCreateNode h ZSKIPLIST_MAXLEVEL zero None in
  h ← init_levels ZSKIPLIST_MAXLEVEL 0 h hd;
  h ← set_backward h hd None;
  Some (h, mkZsl hd None 0 1).

(** The element goes with its node. *)
Definition zslFreeNode (h : heap) (p : ptr) : option heap := _ ← h !! p; Some (delete p h).

Fixpoint free_loop (fuel : nat) (h : heap) (node : option ptr) : option heap :=
  match node with
  | None => Some h
  | Some p =>
      match fuel with
      | O => None
      | S fuel => lv ← get_level h p 0; h ← zslFreeNode h p; free_loop fuel h (forward lv)
      end
  end.

Definition zslFree (h : heap) (z : zskiplist) : option heap :=
  lv ← get_level h (header z) 0;
  h ← zslFreeNode h (header z);
  free_loop (size h) h (forward lv).

(** [heads] draws are below the threshold before the first that is not. *)
Definition zslRandomLevel (heads : nat) : nat :=
  let level := (1 + heads)%nat in
  if (level <? ZSKIPLIST_MAXLEVEL)%nat then level else ZSKIPLIST_MAXLEVEL.

(** ** Descending through the levels *)

(** The inner loop of the searches: go on along level [i] while [go] accepts
    the next node, given its rank.  Functions that do not count ranks ignore
    them. *)
Fixpoint walk (fuel : nat) (h : heap) (go : zskiplistNode -> Z -> option bool) (i : nat) (x : ptr) (rank : Z)
    : option (ptr * Z) :=
  lv ← get_level h x i;
  match forward lv with
  | None => Some (x, rank)
  | Some f =>
      fn ← h !! f;
      g ← go fn (rank + span lv);
      if (g : bool)
      then match fuel with O => None | S fuel => walk fuel h go i f (rank + span lv) end
      else Some (x, rank)
  end.

(** The outer loop, from level [i - 1] down to 0: the last node, and for each
    level from 0 on the node where it was left ([update]) and its rank. *)
Fixpoint descend (h : heap) (go : zskiplistNode -> Z -> option bool) (i : nat) (x : ptr) (rank : Z)
    : option (ptr * list (ptr * Z)) :=
  match i with
  | O => Some (x, [])
  | S i =>
      '(x, rank) ← walk (size h) h go i x rank;
      '(y, update) ← descend h go i x rank;
      Some (y, update ++ [(x, rank)])
  end.

(** The order of nodes, against a score and an element. *)
Definition node_before (s : spec_float) (e : bytes) (n : zskiplistNode) (_ : Z) : option bool :=
  if SFltb (score n) s then Some true
  else if SFeqb (score n) s then e' ← ele n; Some (sdscmp e' e <? 0)
  else Some false.
Definition node_upto (s : spec_float) (e : bytes) (n : zskiplistNode) (_ : Z) : option bool :=
  if SFltb (score n) s then Some true
  else if SFeqb (score n) s then e' ← ele n; Some (sdscmp e' e <=? 0)
  else Some false.

(** ** Insertion *)

Fixpoint raise_levels (n i : nat) (h : heap) (z : zskiplist) (update : list (ptr * Z)) : option (heap * list (ptr * Z)) :=
  match n with
  | O => Some (h, update)
  | S n =>
      lv ← get_level h (header z) i;
      h ← set_level h (header z) i (mkLevel (forward lv) (zlength z));
      raise_levels n (S i) h z (update ++ [(header z, 0)])
  end.

(** Link [x] after [update] at the levels from [i] on. *)
Fixpoint link_levels (n i : nat) (h : heap) (x : ptr) (update : list (ptr * Z)) (rank0 : Z) : option heap :=
  match n with
  | O => Some h
  | S n =>
      '(u, rank) ← update !! i;
      lu ← get_level h u i;
      h ← set_level h x i (mkLevel (forward lu) (span lu - (rank0 - rank)));
      h ← set_level h u i (mkLevel (Some x) (rank0 - rank + 1));
      link_levels n (S i) h x update rank0
  end.

Fixpoint stretch_levels (n i : nat) (h : heap) (update : list (ptr * Z)) : option heap :=
  match n with
  | O => Some h
  | S n =>
      '(u, _) ← update !! i;
      lu ← get_level h u i;
      h ← set_level h u i (mkLevel (forward lu) (span lu + 1));
      stretch_levels n (S i) h update
  end.

Definition zslInsert (h : heap) (z : zskiplist) (heads : nat) (s : spec_float) (e : bytes)
    : option (heap * zskiplist * ptr) :=
  if isnan s then None
  else
    '(_, update) ← descend h (node_before s e) (zlevel z) (header z) 0;
    let level := zslRandomLevel heads in
    '(h, update, z) ←
      (if (zlevel z <? level)%nat
       then '(h, update) ← raise_levels (level - zlevel z) (zlevel z) h z update; Some (h, update, set_zlevel level z)
       else Some (h, update, z));
    let '(x, h) := zslCreateNode h level s (Some e) in
    '(u0, rank0) ← update !! 0%nat;
    h ← link_levels level 0 h x update rank0;
    h ← stretch_levels (zlevel z - level) level h update;
    h ← set_backward h x (if decide (u0 = header z) then None else Some u0);
    lx ← get_level h x 0;
    '(h, z) ← match forward lx with
               | Some f => h ← set_backward h f (Some x); Some (h, z)
               | None => Some (h, set_tail (Some x) z)
               end;
    Some (h, set_length (zlength z + 1) z, x).

(** ** Deletion *)

Fixpoint unlink_levels (n i : nat) (h : heap) (x : ptr) (update : list (ptr * Z)) : option heap :=
  match n with
  | O => Some h
  | S n =>
      '(u, _) ← update !! i;
      lu ← get_level h u i;
      h ← (if decide (forward lu = Some x)
           then lx ← get_level h x i; set_level h u i (mkLevel (forward lx) (span lu + (span lx - 1)))
           else set_level h u i (mkLevel (forward lu) (span lu - 1)));
      unlink_levels n (S i) h x update
  end.

(** [while(zsl->level > 1 && ...) zsl->level--] *)
Fixpoint shrink_level (h : heap) (hd : ptr) (level : nat) : option nat :=
  match level with
  | S (S _ as l) =>
      lv ← get_level h hd l;
      match forward lv with
      | None => shrink_level h hd l
      | Some _ => Some level
      end
  | _ => Some level
  end.

Definition zslDeleteNode (h : heap) (z : zskiplist) (x : ptr) (update : list (ptr * Z)) : option (heap * zskiplist) :=
  h ← unlink_levels (zlevel z) 0 h x update;
  n ← h !! x;
  lx ← get_level h x 0;
  '(h, z) ← match forward lx with
             | Some f => h ← set_backward h f (backward n); Some (h, z)
             | None => Some (h, set_tail (backward n) z)
             end;
  l ← shrink_level h (header z) (zlevel z);
  Some (h, set_length (zlength z - 1) (set_zlevel l z)).

(** The next node at level 0 when it is the one looked for. *)
Definition matching (h : heap) (x : ptr) (s : spec_float) (e : bytes) : option (option ptr) :=
  lv ← get_level h x 0;
  match forward lv with
  | None => Some None
  | Some f =>
      n ← h !! f;
      if SFeqb s (score n) then e' ← ele n; Some (if sdscmp e' e =? 0 then Some f else None) else Some None
  end.

(** With [keep] the node is handed to the caller instead of being freed. *)
Definition zslDelete (h : heap) (z : zskiplist) (s : spec_float) (e : bytes) (keep : bool)
    : option (heap * zskiplist * Z * option ptr) :=
  '(x, update) ← descend h (node_before s e) (zlevel z) (header z) 0;
  m ← matching h x s e;
  match m with
  | Some f =>
      '(h, z) ← zslDeleteNode h z f update;
      if keep then Some (h, z, 1, Some f) else h ← zslFreeNode h f; Some (h, z, 1, None)
  | None => Some (h, z, 0, None)
  end.

Definition zslUpdateScore (h : heap) (z : zskiplist) (heads : nat) (curscore : spec_float) (e : bytes) (newscore : spec_float)
    : option (heap * zskiplist * ptr) :=
  '(x, update) ← descend h (node_before curscore e) (zlevel z) (header z) 0;
  m ← matching h x curscore e;
  x ← m;
  n ← h !! x;
  lx ← get_level h x 0;
  before ← match backward n with None => Some true | Some b => bn ← h !! b; Some (SFltb (score bn) newscore) end;
  after ← match forward lx with None => Some true | Some f => fn ← h !! f; Some (SFltb newscore (score fn)) end;
  if (before : bool) && (after : bool) then h ← set_score h x newscore; Some (h, z, x)
  else
    '(h, z) ← zslDeleteNode h z x update;
    n ← h !! x;
    e ← ele n;
    '(h, z, newnode) ← zslInsert h z heads newscore e;
    h ← zslFreeNode h x;
    Some (h, z, newnode).

(** ** Ranges of scores *)

Record zrangespec := mkRange { rmin : spec_float; rmax : spec_float; minex : bool; maxex : bool }.

Definition zslValueGteMin (value : spec_float) (spec : zrangespec) : bool :=
  if minex spec then SFltb (rmin spec) value else SFleb (rmin spec) value.
Definition zslValueLteMax (value : spec_float) (spec : zrangespec) : bool :=
  if maxex spec then SFltb value (rmax spec) else SFleb value (rmax spec).

Definition zslIsInRange (h : heap) (z : zskiplist) (range : zrangespec) : option bool :=
  if SFltb (rmax range) (rmin range) || (SFeqb (rmin range) (rmax range) && (minex range || maxex range)) then Some false
  else
    match tail z with
    | None => Some false
    | Some t =>
        tn ← h !! t;
        if negb (zslValueGteMin (score tn) range) then Some false
        else
          lv ← get_level h (header z) 0;
          match forward lv with
          | None => Some false
          | Some f => fn ← h !! f; Some (zslValueLteMax (score fn) range)
          end
    end.

Definition below_min (range : zrangespec) (n : zskiplistNode) (_ : Z) : option bool :=
  Some (negb (zslValueGteMin (score n) range)).
Definition upto_max (range : zrangespec) (n : zskiplistNode) (_ : Z) : option bool :=
  Some (zslValueLteMax (score n) range).

Definition zslFirstInRange (h : heap) (z : zskiplist) (range : zrangespec) : option (option ptr) :=
  b ← zslIsInRange h z range;
  if negb b then Some None
  else
    '(x, _) ← descend h (below_min range) (zlevel z) (header z) 0;
    lv ← get_level h x 0;
    f ← forward lv;
    n ← h !! f;
    Some (if negb (zslValueLteMax (score n) range) then None else Some f).

Definition zslLastInRange (h : heap) (z : zskiplist) (range : zrangespec) : option (option ptr) :=
  b ← zslIsInRange h z range;
  if negb b then Some None
  else
    '(x, _) ← descend h (upto_max range) (zlevel z) (header z) 0;
    n ← h !! x;
    Some (if negb (zslValueGteMin (score n) range) then None else Some x).

(** The loops that delete nodes while [go] accepts them; [dict] loses their
    elements. *)
Fixpoint delete_loop (fuel : nat) (h : heap) (z : zskiplist) (dict : gmap bytes spec_float)
    (go : zskiplistNode -> Z -> bool) (x : option ptr) (update : list (ptr * Z)) (traversed removed : Z)
    : option (heap * zskiplist * gmap bytes spec_float * Z) :=
  match x with
  | None => Some (h, z, dict, removed)
  | Some p =>
      n ← h !! p;
      if negb (go n traversed) then Some (h, z, dict, removed)
      else
        match fuel with
        | O => None
        | S fuel =>
            lv ← get_level h p 0;
            '(h, z) ← zslDeleteNode h z p update;
            e ← ele n;
            h ← zslFreeNode h p;
            delete_loop fuel h z (delete e dict) go (forward lv) update (traversed + 1) (removed + 1)
        end
  end.

Definition zslDeleteRangeByScore (h : heap) (z : zskiplist) (range : zrangespec) (dict : gmap bytes spec_float)
    : option (heap * zskiplist * gmap bytes spec_float * Z) :=
  '(x, update) ← descend h (below_min range) (zlevel z) (header z) 0;
  lv ← get_level h x 0;
  delete_loop (size h) h z dict (fun n _ => zslValueLteMax (score n) range) (forward lv) update 0 0.

Definition rank_below (start : Z) (_ : zskiplistNode) (rank : Z) : option bool := Some (rank <? start).

Definition zslDeleteRangeByRank (h : heap) (z : zskiplist) (start stop : Z) (dict : gmap bytes spec_float)
    : option (heap * zskiplist * gmap bytes spec_float * Z) :=
  '(x, update) ← descend h (rank_below start) (zlevel z) (header z) 0;
  '(_, traversed) ← update !! 0%nat;
  lv ← get_level h x 0;
  delete_loop (size h) h z dict (fun _ traversed => traversed <=? stop) (forward lv) update (traversed + 1) 0.

(** ** Ranks *)

Fixpoint rank_loop (h : heap) (s : spec_float) (e : bytes) (i : nat) (x : ptr) (rank : Z) : option Z :=
  match i with
  | O => Some 0
  | S i =>
      '(x, rank) ← walk (size h) h (node_upto s e) i x rank;
      n ← h !! x;
      if match ele n with Some e' => SFeqb (score n) s && (sdscmp e' e =? 0) | None => false end
      then Some rank
      else rank_loop h s e i x rank
  end.

Definition zslGetRank (h : heap) (z : zskiplist) (s : spec_float) (e : bytes) : option Z :=
  rank_loop h s e (zlevel z) (header z) 0.

Definition rank_upto (rank : Z) (_ : zskiplistNode) (r : Z) : option bool := Some (r <=? rank).

Fixpoint by_rank_loop (h : heap) (rank : Z) (i : nat) (x : ptr) (traversed : Z) : option (option ptr) :=
  match i with
  | O => Some None
  | S i =>
      '(x, traversed) ← walk (size h) h (rank_upto rank) i x traversed;
      if traversed =? rank then Some (Some x) else by_rank_loop h rank i x traversed
  end.

Definition zslGetElementByRank (h : heap) (z : zskiplist) (rank : Z) : option (option ptr) :=
  by_rank_loop h rank (zlevel z) (header z) 0.

End operations.

(** ** The order of scores and elements *)

(** A score as a point of a lexicographic order. *)
Definition rank3 (x : spec_float) : Z * Z * Z :=
  match x with
  | S754_zero _ => (0, 0, 0)
  | S754_infinity s => (if s then -2 else 2, 0, 0)
  | S754_nan => (3, 0, 0)
  | S754_finite s m e => if s then (-1, - e, - Zpos m) else (1, e, Zpos m)
  end.
Definition lex3 (a b : Z * Z * Z) : Prop :=
  let '(a1, a2, a3) := a in
  let '(b1, b2, b3) := b in
  a1 < b1 \/ a1 = b1 /\ (a2 < b2 \/ a2 = b2 /\ a3 < b3).

Definition num (x : spec_float) : Prop := isnan x = false.

Lemma SFcompare_spec x y : num x -> num y ->
  match SFcompare x y with
  | Some Lt => lex3 (rank3 x) (rank3 y)
  | Some Eq => rank3 x = rank3 y
  | Some Gt => lex3 (rank3 y) (rank3 x)
  | None => False
  end.
Proof.
  unfold num. destruct x as [s|s| |s m e], y as [t|t| |t n f]; try done; intros _ _; cbn.
  all: try (destruct s; cbn; lia). all: try (destruct t; cbn; lia). all: try (destruct s, t; cbn; done || lia).
  destruct s, t; cbn; try lia.
  - change (PosDef.Pos.compare_cont Eq m n) with (Pos.compare m n).
    destruct (Z.compare_spec e f); cbn; [|lia|lia]. destruct (Pos.compare_spec m n); cbn; subst; [done|lia|lia].
  - change (PosDef.Pos.compare_cont Eq m n) with (Pos.compare m n).
    destruct (Z.compare_spec e f); cbn; [|lia|lia]. destruct (Pos.compare_spec m n); cbn; subst; [done|lia|lia].
Qed.

Lemma lex3_irrefl a : ~ lex3 a a.
Proof. destruct a as [[? ?] ?]. cbn. lia. Qed.
Lemma lex3_asym a b : lex3 a b -> ~ lex3 b a.
Proof. destruct a as [[? ?] ?], b as [[? ?] ?]. cbn. lia. Qed.
Lemma lex3_trans a b c : lex3 a b -> lex3 b c -> lex3 a c.
Proof. destruct a as [[? ?] ?], b as [[? ?] ?], c as [[? ?] ?]. cbn. lia. Qed.

Lemma SFltb_lex x y : num x -> num y -> SFltb x y = true <-> lex3 (rank3 x) (rank3 y).
Proof.
  intros Hx Hy. pose proof (SFcompare_spec x y Hx Hy) as Hc. unfold SFltb.
  destruct (SFcompare x y) as [[]|]; [|done| |done]; (split; [done|intros Hl; exfalso]).
  - rewrite Hc in Hl. by apply lex3_irrefl in Hl.
  - by apply lex3_asym in Hl.
Qed.

Lemma SFeqb_lex x y : num x -> num y -> SFeqb x y = true <-> rank3 x = rank3 y.
Proof.
  intros Hx Hy. pose proof (SFcompare_spec x y Hx Hy) as Hc. unfold SFeqb.
  destruct (SFcompare x y) as [[]|]; [done| | |done]; (split; [done|intros Hl; exfalso]);
    rewrite Hl in Hc; by apply lex3_irrefl in Hc.
Qed.

Lemma SFleb_lex x y : num x -> num y -> SFleb x y = negb (SFltb y x).
Proof.
  intros Hx Hy. pose proof (SFcompare_spec x y Hx Hy) as Hc. pose proof (SFltb_lex y x Hy Hx) as Hl. unfold SFleb.
  destruct (SFltb y x).
  - destruct (SFcompare x y) as [[]|]; try done; destruct Hl as [Hl _]; specialize (Hl eq_refl).
    + rewrite Hc in Hl. by apply lex3_irrefl in Hl.
    + by apply lex3_asym in Hl.
  - destruct (SFcompare x y) as [[]|]; try done. by apply Hl in Hc.
Qed.

(** Elements are compared as words. *)
Lemma sdscmp_cons x y a b : sdscmp (x :: a) (y :: b) = if x =? y then sdscmp a b else x - y.
Proof.
  unfold sdscmp. rewrite !zlen_cons. pose proof (zlen_nonneg a). pose proof (zlen_nonneg b).
  replace (1 + zlen a <? 1 + zlen b) with (zlen a <? zlen b) by lia.
  replace (1 + zlen b <? 1 + zlen a) with (zlen b <? zlen a) by lia.
  replace (Z.to_nat (if zlen a <? zlen b then 1 + zlen a else 1 + zlen b))
    with (S (Z.to_nat (if zlen a <? zlen b then zlen a else zlen b))) by (destruct (_ <? _); lia).
  cbn [memcmp]. destruct (x =? y) eqn:E; [done|]. destruct (x - y =? 0) eqn:E2; [lia|done].
Qed.

Lemma sdscmp_nil_l b : sdscmp [] b = match b with [] => 0 | _ => -1 end.
Proof.
  destruct b as [|y b]; [done|]. unfold sdscmp. rewrite zlen_cons. change (zlen (@nil Z)) with 0.
  pose proof (zlen_nonneg b). replace (0 <? 1 + zlen b) with true by lia. replace (1 + zlen b <? 0) with false by lia. done.
Qed.
Lemma sdscmp_nil_r x a : sdscmp (x :: a) [] = 1.
Proof.
  unfold sdscmp. rewrite zlen_cons. change (zlen (@nil Z)) with 0. pose proof (zlen_nonneg a).
  replace (1 + zlen a <? 0) with false by lia. replace (0 <? 1 + zlen a) with true by lia. done.
Qed.

Lemma sdscmp_eq a b : sdscmp a b = 0 <-> a = b.
Proof.
  revert b. induction a as [|x a IH]; intros [|y b]; rewrite ?sdscmp_nil_l, ?sdscmp_nil_r, ?sdscmp_cons; [done|done|done|].
  destruct (x =? y) eqn:E; [rewrite IH|]; (split; [intros; try f_equal; try lia|intros; simplify_eq; try lia]); done.
Qed.

Lemma sdscmp_sym a b : sdscmp a b < 0 <-> 0 < sdscmp b a.
Proof.
  revert b. induction a as [|x a IH]; intros [|y b]; rewrite ?sdscmp_nil_l, ?sdscmp_nil_r, ?sdscmp_cons; [lia|lia|lia|].
  rewrite (Z.eqb_sym y x). destruct (x =? y) eqn:E; [apply IH|lia].
Qed.

Lemma sdscmp_trans a b c : sdscmp a b < 0 -> sdscmp b c < 0 -> sdscmp a c < 0.
Proof.
  revert b c. induction a as [|x a IH]; intros [|y b] [|w c]; rewrite ?sdscmp_nil_l, ?sdscmp_nil_r, ?sdscmp_cons; try lia.
  destruct (x =? y) eqn:E1, (y =? w) eqn:E2, (x =? w) eqn:E3; try lia. eauto.
Qed.

(** A score with its element. *)
Abbreviation key := (spec_float * bytes)%type.

Definition kltb (k1 k2 : key) : bool := SFltb k1.1 k2.1 || (SFeqb k1.1 k2.1 && (sdscmp k1.2 k2.2 <? 0)).
Definition keqb (k1 k2 : key) : bool := SFeqb k1.1 k2.1 && (sdscmp k1.2 k2.2 =? 0).

Lemma kltb_spec a b : num a.1 -> num b.1 ->
  kltb a b = true <-> lex3 (rank3 a.1) (rank3 b.1) \/ rank3 a.1 = rank3 b.1 /\ sdscmp a.2 b.2 < 0.
Proof.
  intros Ha Hb. unfold kltb. rewrite orb_true_iff, andb_true_iff, SFltb_lex, SFeqb_lex by done. by rewrite Z.ltb_lt.
Qed.

Lemma keqb_spec a b : num a.1 -> num b.1 -> keqb a b = true <-> rank3 a.1 = rank3 b.1 /\ a.2 = b.2.
Proof.
  intros Ha Hb. unfold keqb. rewrite andb_true_iff, SFeqb_lex by done. by rewrite Z.eqb_eq, sdscmp_eq.
Qed.

Lemma kltb_irrefl a : num a.1 -> kltb a a = false.
Proof.
  intros Ha. apply not_true_is_false. rewrite kltb_spec by done. rewrite (proj2 (sdscmp_eq a.2 a.2)) by done.
  pose proof (lex3_irrefl (rank3 a.1)). naive_solver lia.
Qed.

Lemma kltb_trans a b c : num a.1 -> num b.1 -> num c.1 -> kltb a b = true -> kltb b c = true -> kltb a c = true.
Proof.
  intros Ha Hb Hc. rewrite !kltb_spec by done. intros [H1 | [E1 H1]] [H2 | [E2 H2]].
  - left. by eapply lex3_trans.
  - left. by rewrite <-E2.
  - left. by rewrite E1.
  - right. split; [congruence|]. by eapply sdscmp_trans.
Qed.

Lemma lex3_total a b : lex3 a b \/ a = b \/ lex3 b a.
Proof.
  destruct a as [[a1 a2] a3], b as [[b1 b2] b3]. cbn.
  destruct (Z.lt_trichotomy a1 b1) as [|[->|]]; [lia| |lia]. destruct (Z.lt_trichotomy a2 b2) as [|[->|]]; [lia| |lia].
  destruct (Z.lt_trichotomy a3 b3) as [|[->|]]; [lia|auto|lia].
Qed.

Lemma kltb_total a b : num a.1 -> num b.1 -> kltb a b = true \/ keqb a b = true \/ kltb b a = true.
Proof.
  intros Ha Hb. rewrite !kltb_spec, keqb_spec by done.
  destruct (lex3_total (rank3 a.1) (rank3 b.1)) as [|[E|]]; [auto| |auto].
  destruct (Z.lt_trichotomy (sdscmp a.2 b.2) 0) as [|[H0|H0]]; [auto| |].
  - right. left. split; [done|]. by apply sdscmp_eq.
  - right. right. right. split; [done|]. by apply sdscmp_sym.
Qed.

Lemma keqb_kltb a b : num a.1 -> num b.1 -> keqb a b = true -> kltb a b = false /\ kltb b a = false.
Proof.
  intros Ha Hb. rewrite keqb_spec by done. intros [E1 E2]. split; apply not_true_is_false; rewrite kltb_spec by done;
    rewrite E1, E2, (proj2 (sdscmp_eq b.2 b.2)) by done; pose proof (lex3_irrefl (rank3 b.1)); naive_solver lia.
Qed.

(** ** Links from heights *)

#[local] Arguments Nat.ltb : simpl never.

(** The distance to the first height above [l]. *)
Fixpoint next_from (l : nat) (hs : list nat) : option nat :=
  match hs with
  | [] => None
  | x :: hs => if (l <? x)%nat then Some 1%nat else S <$> next_from l hs
  end.

(** The last position up to [pos], the header being 0, with a height above [l]. *)
Fixpoint prev_at (l : nat) (hs : list nat) (pos : nat) : nat :=
  match pos with
  | O => O
  | S p => if (l <? default 0 (hs !! p))%nat then pos else prev_at l hs p
  end.

(** A node of the list: address, key, height. *)
Record cell := mkCell { c_ptr : ptr; c_key : key; c_height : nat }.

(** Level [l] of the node at position [k], the header being 0. *)
Definition level_at (cs : list cell) (k l : nat) : zskiplistLevel :=
  match next_from l (c_height <$> drop k cs) with
  | Some d => mkLevel (c_ptr <$> cs !! (k + d - 1)%nat) (Z.of_nat d)
  | None => mkLevel None (Z.of_nat (length cs - k))
  end.

Lemma next_from_app l a b : next_from l (a ++ b) =
  match next_from l a with Some d => Some d | None => Nat.add (length a) <$> next_from l b end.
Proof.
  induction a as [|x a IH]; cbn; [by destruct (next_from l b)|]. destruct (l <? x)%nat; [done|]. rewrite IH.
  destruct (next_from l a); [done|]. by destruct (next_from l b).
Qed.

Lemma next_from_Some l hs d : next_from l hs = Some d -> (1 <= d <= length hs)%nat /\ (exists x, hs !! (d - 1)%nat = Some x /\ l < x)%nat /\
  (forall j x, (j < d - 1)%nat -> hs !! j = Some x -> (x <= l)%nat).
Proof.
  revert d. induction hs as [|x hs IH]; intros d; cbn; [done|]. destruct (l <? x)%nat eqn:E.
  - intros [= <-]. split_and!; [lia|lia| |intros; lia]. exists x. apply Nat.ltb_lt in E. done.
  - destruct (next_from l hs) as [d'|] eqn:En; [|done]. cbn. intros [= <-]. destruct (IH d' eq_refl) as (H1 & (y & Hy & Hl) & H3).
    split_and!; [lia|lia| |].
    + exists y. split; [|done]. replace (S d' - 1)%nat with (S (d' - 1)) by lia. done.
    + intros [|j] w Hj Hw; [cbn in Hw; simplify_eq; apply Nat.ltb_ge in E; lia|]. cbn in Hw. eapply H3; [|done]. lia.
Qed.

Lemma next_from_None l hs : next_from l hs = None -> Forall (fun x => (x <= l)%nat) hs.
Proof.
  induction hs as [|x hs IH]; cbn; [done|]. destruct (l <? x)%nat eqn:E; [done|]. apply Nat.ltb_ge in E.
  destruct (next_from l hs); [done|]. intros _. constructor; auto.
Qed.

Lemma next_from_None_intro l hs : Forall (fun x => (x <= l)%nat) hs -> next_from l hs = None.
Proof. induction 1 as [|x hs H _ IH]; cbn; [done|]. rewrite (proj2 (Nat.ltb_ge l x)) by done. by rewrite IH. Qed.

Lemma prev_at_le l hs pos : (prev_at l hs pos <= pos)%nat.
Proof. induction pos as [|p IH]; cbn; [done|]. destruct (_ <? _)%nat; lia. Qed.

Lemma prev_at_height l hs pos : prev_at l hs pos = O \/
  exists p x, prev_at l hs pos = S p /\ hs !! p = Some x /\ (l < x)%nat.
Proof.
  induction pos as [|p IH]; cbn; [by left|]. destruct (_ <? _)%nat eqn:E; [|done]. right.
  destruct (hs !! p) as [x|] eqn:Ex; cbn in E; [|by apply Nat.ltb_lt in E; lia]. exists p, x. apply Nat.ltb_lt in E. done.
Qed.

(** From the position where a level is left there is nothing up to [pos]. *)
Lemma next_from_prev l hs pos : (pos <= length hs)%nat -> next_from l (drop (prev_at l hs pos) (take pos hs)) = None.
Proof.
  intros Hp. apply next_from_None_intro. induction pos as [|p IH]; cbn [prev_at]; [done|].
  destruct (_ <? _)%nat eqn:E; [rewrite drop_ge by (rewrite length_take; lia); done|].
  destruct (lookup_lt_is_Some_2 hs p) as [x Hx]; [lia|]. rewrite Hx in E. cbn in E. apply Nat.ltb_ge in E.
  rewrite (take_S_r _ _ _ Hx). rewrite drop_app_le by (rewrite length_take; pose proof (prev_at_le l hs p); lia).
  apply Forall_app. split; [apply IH; lia|]. by constructor.
Qed.

(** Only there. *)
Lemma prev_at_unique l hs pos k : (k <= pos <= length hs)%nat -> (k = O \/ exists p x, k = S p /\ hs !! p = Some x /\ (l < x)%nat) ->
  next_from l (drop k (take pos hs)) = None -> k = prev_at l hs pos.
Proof.
  intros Hk Hh Hn. apply next_from_None in Hn. induction pos as [|p IH]; cbn [prev_at]; [lia|].
  destruct (lookup_lt_is_Some_2 hs p) as [x Hx]; [lia|]. rewrite Hx. cbn.
  rewrite (take_S_r _ _ _ Hx) in Hn. destruct (decide (k = S p)) as [-> | Hne].
  - destruct Hh as [|(p' & y & [= <-] & Hy & Hl)]; [done|]. rewrite Hx in Hy. injection Hy as <-.
    by rewrite (proj2 (Nat.ltb_lt l x)).
  - rewrite drop_app_le in Hn by (rewrite length_take; lia). apply Forall_app in Hn as [Hn Hx'].
    apply Forall_cons in Hx' as [Hx' _]. rewrite (proj2 (Nat.ltb_ge l x)) by done. apply IH; [lia|done].
Qed.

Lemma prev_at_take l hs hs' pos : (pos <= length hs)%nat -> take pos hs = take pos hs' -> prev_at l hs pos = prev_at l hs' pos.
Proof.
  induction pos as [|p IH]; intros Hp E; cbn; [done|].
  assert (hs !! p = hs' !! p) as ->. { rewrite <-(lookup_take_lt hs (S p) p), E, lookup_take_lt by lia. done. }
  rewrite IH; [done|lia|]. apply (f_equal (take p)) in E. rewrite !take_take in E. by replace (p `min` S p)%nat with p in E by lia.
Qed.

(** ** Inserting a node in the sequence *)

Definition ins {A} (pos : nat) (x : A) (l : list A) : list A := take pos l ++ x :: drop pos l.

Lemma length_ins {A} pos (x : A) l : length (ins pos x l) = S (length l).
Proof. unfold ins. rewrite length_app, length_take. cbn. rewrite length_drop. lia. Qed.
Lemma ins_lt {A} pos (x : A) l j : (pos <= length l)%nat -> (j < pos)%nat -> ins pos x l !! j = l !! j.
Proof. intros H1 H2. unfold ins. rewrite lookup_app_l by (rewrite length_take; lia). by apply lookup_take_lt. Qed.
Lemma ins_at {A} pos (x : A) l : (pos <= length l)%nat -> ins pos x l !! pos = Some x.
Proof. intros H1. unfold ins. rewrite lookup_app_r by (rewrite length_take; lia). rewrite length_take. by replace (pos - pos `min` length l)%nat with 0%nat by lia. Qed.
Lemma ins_gt {A} pos (x : A) l j : (pos <= length l)%nat -> (pos <= j)%nat -> ins pos x l !! S j = l !! j.
Proof.
  intros H1 H2. unfold ins. rewrite lookup_app_r by (rewrite length_take; lia). rewrite length_take.
  replace (S j - pos `min` length l)%nat with (S (j - pos)) by lia.
  change ((x :: drop pos l) !! S (j - pos)) with (drop pos l !! (j - pos)%nat). rewrite lookup_drop. f_equal. lia.
Qed.
Lemma fmap_ins {A B} (f : A -> B) pos x l : f <$> ins pos x l = ins pos (f x) (f <$> l).
Proof. unfold ins. by rewrite fmap_app, fmap_cons, fmap_take, fmap_drop. Qed.
Lemma take_ins {A} pos (x : A) l : (pos <= length l)%nat -> take pos (ins pos x l) = take pos l.
Proof. intros H. unfold ins. rewrite take_app_le by (rewrite length_take; lia). rewrite take_take. f_equal. lia. Qed.
Lemma drop_ins_le {A} pos (x : A) l k : (k <= pos <= length l)%nat -> drop k (ins pos x l) = drop k (take pos l) ++ x :: drop pos l.
Proof. intros H. unfold ins. rewrite drop_app_le by (rewrite length_take; lia). done. Qed.
Lemma drop_split {A} pos (l : list A) k : (k <= pos <= length l)%nat -> drop k l = drop k (take pos l) ++ drop pos l.
Proof. intros H. rewrite <-(take_drop pos l) at 1. rewrite drop_app_le by (rewrite length_take; lia). done. Qed.
Lemma drop_ins_gt {A} pos (x : A) l k : (pos <= k)%nat -> (pos <= length l)%nat -> drop (S k) (ins pos x l) = drop k l.
Proof.
  intros H1 H2. unfold ins. rewrite drop_app_ge by (rewrite length_take; lia). rewrite length_take.
  replace (S k - pos `min` length l)%nat with (S (k - pos)) by lia. cbn. rewrite drop_drop. f_equal. lia.
Qed.

Section inserted.
Context (cs : list cell) (pos : nat) (c : cell) (Hpos : (pos <= length cs)%nat).
Implicit Types k l : nat.

Lemma next_before k l : (k <= pos)%nat ->
  next_from l (c_height <$> drop k cs) = match next_from l (drop k (take pos (c_height <$> cs))) with
    | Some d => Some d | None => Nat.add (pos - k) <$> next_from l (c_height <$> drop pos cs) end.
Proof using Hpos.
  intros Hk. rewrite (drop_split pos cs k) by lia. rewrite fmap_app, next_from_app, fmap_drop, fmap_take.
  rewrite length_drop, length_take, length_fmap. by replace (pos `min` length cs - k)%nat with (pos - k)%nat by lia.
Qed.

Lemma next_before_ins k l : (k <= pos)%nat ->
  next_from l (c_height <$> drop k (ins pos c cs)) = match next_from l (drop k (take pos (c_height <$> cs))) with
    | Some d => Some d
    | None => if (l <? c_height c)%nat then Some (pos - k + 1)%nat
              else Nat.add (pos - k + 1) <$> next_from l (c_height <$> drop pos cs) end.
Proof using Hpos.
  intros Hk. rewrite drop_ins_le by lia. rewrite fmap_app, next_from_app, fmap_drop, fmap_take.
  rewrite length_drop, length_take, length_fmap. replace (pos `min` length cs - k)%nat with (pos - k)%nat by lia.
  destruct (next_from l (drop k _)); [done|]. cbn. destruct (_ <? _)%nat; [done|].
  destruct (next_from l (c_height <$> drop pos cs)); [|done]. cbn. f_equal. lia.
Qed.

Lemma next_after d l : next_from l (c_height <$> drop pos cs) = Some d -> (1 <= d /\ pos + d <= length cs)%nat.
Proof using Hpos. intros H. apply next_from_Some in H as [H _]. rewrite length_fmap, length_drop in H. lia. Qed.

(** The node that is left at level [l] to get past [pos]. *)
Abbreviation prv l := (prev_at l (c_height <$> cs) pos).

Lemma prv_le l : (prv l <= pos)%nat. Proof using. apply prev_at_le. Qed.

Lemma level_at_linked l : (l < c_height c)%nat ->
  level_at (ins pos c cs) (prv l) l = mkLevel (Some (c_ptr c)) (Z.of_nat pos - Z.of_nat (prv l) + 1).
Proof using Hpos.
  intros Hl. pose proof (prv_le l). unfold level_at. rewrite next_before_ins by done.
  rewrite next_from_prev by (by rewrite length_fmap). rewrite (proj2 (Nat.ltb_lt _ _) Hl).
  replace (prv l + (pos - prv l + 1) - 1)%nat with pos by lia. rewrite ins_at by done. cbn. f_equal. lia.
Qed.

Lemma level_at_new l : (l < c_height c)%nat ->
  level_at (ins pos c cs) (S pos) l =
    mkLevel (forward (level_at cs (prv l) l)) (span (level_at cs (prv l) l) - (Z.of_nat pos - Z.of_nat (prv l))).
Proof using Hpos.
  intros Hl. pose proof (prv_le l). unfold level_at. rewrite drop_ins_gt by lia. rewrite (next_before (prv l)) by done.
  rewrite next_from_prev by (by rewrite length_fmap).
  destruct (next_from l (c_height <$> drop pos cs)) as [d|] eqn:E; cbn [fmap option_fmap option_map forward span].
  - apply next_after in E. replace (S pos + d - 1)%nat with (S (pos + d - 1)) by lia. rewrite ins_gt by lia.
    f_equal; [do 2 f_equal; lia|lia].
  - rewrite length_ins. f_equal. lia.
Qed.

Lemma level_at_stretched l : (c_height c <= l)%nat ->
  level_at (ins pos c cs) (prv l) l = mkLevel (forward (level_at cs (prv l) l)) (span (level_at cs (prv l) l) + 1).
Proof using Hpos.
  intros Hl. pose proof (prv_le l). unfold level_at. rewrite next_before_ins, (next_before (prv l)) by done.
  rewrite next_from_prev by (by rewrite length_fmap). rewrite (proj2 (Nat.ltb_ge _ _) Hl).
  destruct (next_from l (c_height <$> drop pos cs)) as [d|] eqn:E; cbn [fmap option_fmap option_map forward span].
  - apply next_after in E. f_equal; [|lia]. f_equal. rewrite <-(ins_gt pos c cs) by lia. f_equal. lia.
  - rewrite length_ins. f_equal. lia.
Qed.

(** Everything else is kept, after [pos] one position further. *)
Lemma level_at_kept k l : (k <= pos)%nat -> (k = O \/ exists p x, k = S p /\ (c_height <$> cs) !! p = Some x /\ (l < x)%nat) ->
  k <> prv l -> level_at (ins pos c cs) k l = level_at cs k l.
Proof using Hpos.
  intros Hk Hh Hne. unfold level_at. rewrite next_before_ins, (next_before k) by done.
  destruct (next_from l (drop k (take pos (c_height <$> cs)))) as [d|] eqn:E.
  - apply next_from_Some in E as (Hd & _). rewrite length_drop, length_take, length_fmap in Hd.
    rewrite ins_lt by lia. done.
  - exfalso. apply Hne, prev_at_unique; [rewrite length_fmap; lia|done|done].
Qed.

Lemma level_at_shifted k l : (pos < k)%nat -> level_at (ins pos c cs) (S k) l = level_at cs k l.
Proof using Hpos.
  intros Hk. unfold level_at. rewrite drop_ins_gt by lia.
  destruct (next_from l (c_height <$> drop k cs)) as [d|] eqn:E; [|by rewrite length_ins].
  apply next_from_Some in E as (Hd & _). replace (S k + d - 1)%nat with (S (k + d - 1)) by lia. by rewrite ins_gt by lia.
Qed.
End inserted.

(** ** The heap, one level or one set of fields at a time *)

Definition info (h : heap) (p : ptr) : option (option bytes * spec_float * option ptr * nat) :=
  (fun n => (ele n, score n, backward n, length (levels n))) <$> h !! p.

Lemma set_level_spec h p i v lv : get_level h p i = Some lv -> exists h', set_level h p i v = Some h' /\
  (forall q l, get_level h' q l = if decide (q = p /\ l = i) then Some v else get_level h q l) /\
  (forall q, info h' q = info h q).
Proof.
  unfold get_level at 1, set_level. destruct (h !! p) as [n|] eqn:En; [|done]. bnd. intros Hl. rewrite Hl. bnd.
  eexists. split; [done|]. split.
  - intros q l. unfold get_level. destruct (decide (q = p)) as [-> | Hq].
    + rewrite lookup_insert_eq, En. bnd. cbn [levels]. destruct (decide (l = i)) as [-> | Hne].
      * rewrite decide_True by done. apply list_lookup_insert_eq. by eapply lookup_lt_Some.
      * rewrite decide_False by naive_solver. by apply list_lookup_insert_ne.
    + rewrite decide_False by naive_solver. by rewrite lookup_insert_ne by done.
  - intros q. unfold info. destruct (decide (q = p)) as [-> | Hq]; [|by rewrite lookup_insert_ne by done].
    rewrite lookup_insert_eq, En. cbn. by rewrite length_insert.
Qed.

Lemma set_backward_spec h p b e s b' n : info h p = Some (e, s, b', n) -> exists h', set_backward h p b = Some h' /\
  (forall q l, get_level h' q l = get_level h q l) /\
  (forall q, info h' q = if decide (q = p) then Some (e, s, b, n) else info h q).
Proof.
  unfold info at 1, set_backward. destruct (h !! p) as [x|] eqn:En; [|done]. cbn. intros [= <- <- <- <-]. bnd.
  eexists. split; [done|]. split.
  - intros q l. unfold get_level. destruct (decide (q = p)) as [-> | Hq]; [|by rewrite lookup_insert_ne by done].
    by rewrite lookup_insert_eq, En.
  - intros q. unfold info. destruct (decide (q = p)) as [-> | Hq]; [|by rewrite lookup_insert_ne by done].
    by rewrite lookup_insert_eq.
Qed.

Lemma info_node h p e s b n : info h p = Some (e, s, b, n) ->
  exists x, h !! p = Some x /\ ele x = e /\ score x = s /\ backward x = b /\ length (levels x) = n.
Proof. unfold info. destruct (h !! p) as [x|]; [|done]. cbn. intros [= <- <- <- <-]. eauto 10. Qed.

Lemma get_level_info h p l e s b n : info h p = Some (e, s, b, n) -> (l < n)%nat -> is_Some (get_level h p l).
Proof.
  intros Hi Hl. destruct (info_node _ _ _ _ _ _ Hi) as (x & Hx & _ & _ & _ & <-). unfold get_level. rewrite Hx. bnd.
  by apply lookup_lt_is_Some_2.
Qed.

(** ** Representation *)

Definition klt (a b : key) : Prop := kltb a b = true.
Definition ksorted (l : list key) : Prop :=
  forall i j a b, (i < j)%nat -> l !! i = Some a -> l !! j = Some b -> klt a b.

Definition ptr_at (z : zskiplist) (cs : list cell) (k : nat) : option ptr :=
  match k with O => Some (header z) | S k => c_ptr <$> cs !! k end.
Definition height_at (z : zskiplist) (cs : list cell) (k : nat) : nat :=
  match k with O => zlevel z | S k => default O (c_height <$> cs !! k) end.
Definition prev_ptr (cs : list cell) (k : nat) : option ptr :=
  match k with O => None | S k => c_ptr <$> cs !! k end.

(** The skiplist holds the nodes [cs], in order. *)
Record zrep (h : heap) (z : zskiplist) (cs : list cell) : Prop := {
  z_header : exists s b, info h (header z) = Some (None, s, b, ZSKIPLIST_MAXLEVEL);
  z_nodes : forall k c, cs !! k = Some c -> info h (c_ptr c) = Some (Some (c_key c).2, (c_key c).1, prev_ptr cs k, c_height c);
  z_levels : forall k p l, ptr_at z cs k = Some p -> (l < height_at z cs k)%nat -> get_level h p l = Some (level_at cs k l);
  z_upper : forall l, (zlevel z <= l < ZSKIPLIST_MAXLEVEL)%nat -> forward <$> get_level h (header z) l = Some None;
  z_nodup : NoDup (header z :: (c_ptr <$> cs));
  z_tail : tail z = c_ptr <$> last cs;
  z_length : zlength z = Z.of_nat (length cs);
  z_level : (1 <= zlevel z <= ZSKIPLIST_MAXLEVEL)%nat;
  z_heights : Forall (fun c => (1 <= c_height c <= zlevel z)%nat) cs;
  z_num : Forall (fun c => num (c_key c).1) cs;
  z_sorted : ksorted (c_key <$> cs) }.

Lemma ptr_at_lt z cs k p : ptr_at z cs k = Some p -> (k <= length cs)%nat.
Proof. destruct k; cbn; [lia|]. destruct (cs !! k) eqn:E; [|done]. intros _. apply lookup_lt_Some in E. lia. Qed.

Lemma ptr_at_is_Some z cs k : (k <= length cs)%nat -> exists p, ptr_at z cs k = Some p.
Proof. destruct k; cbn; [eauto|]. intros Hk. destruct (lookup_lt_is_Some_2 cs k) as [c ->]; [lia|]. cbn. eauto. Qed.

Lemma ptr_at_inj h z cs j k p : zrep h z cs -> ptr_at z cs j = Some p -> ptr_at z cs k = Some p -> j = k.
Proof.
  intros Hz Hj Hk. assert (forall j, ptr_at z cs j = (header z :: (c_ptr <$> cs)) !! j) as He.
  { intros [|i]; cbn; [done|]. by rewrite <-list_lookup_fmap. }
  rewrite He in *. by eapply NoDup_lookup; [apply (z_nodup _ _ _ Hz)|..].
Qed.

(** A heap has room for the nodes. *)
Lemma zrep_size h z cs : zrep h z cs -> (length cs < size h)%nat.
Proof.
  intros Hz. pose proof (z_nodup _ _ _ Hz) as Hn. rewrite <-size_dom.
  assert (size (list_to_set (header z :: (c_ptr <$> cs)) : gset ptr) = S (length cs)) as Hs.
  { rewrite size_list_to_set by done. cbn. by rewrite length_fmap. }
  assert ((list_to_set (header z :: (c_ptr <$> cs)) : gset ptr) ⊆ dom h) as Hsub; [|apply subseteq_size in Hsub; lia].
  intros p Hp. apply elem_of_list_to_set, elem_of_cons in Hp as [-> | Hp].
  - destruct (z_header _ _ _ Hz) as (s & b & Hi). destruct (info_node _ _ _ _ _ _ Hi) as (x & Hx & _). by apply elem_of_dom_2 in Hx.
  - apply list_elem_of_fmap in Hp as (c & -> & Hc). apply list_elem_of_lookup_1 in Hc as [k Hk].
    destruct (info_node _ _ _ _ _ _ (z_nodes _ _ _ Hz k c Hk)) as (x & Hx & _). by apply elem_of_dom_2 in Hx.
Qed.

Lemma zrep_height h z cs k c : zrep h z cs -> cs !! k = Some c -> (1 <= c_height c <= zlevel z)%nat.
Proof. intros Hz Hk. exact (Forall_lookup_1 _ _ _ _ (z_heights _ _ _ Hz) Hk). Qed.

Lemma prev_at_0 h z cs pos : zrep h z cs -> (pos <= length cs)%nat -> prev_at 0 (c_height <$> cs) pos = pos.
Proof.
  intros Hz Hp. destruct pos as [|p]; [done|]. cbn [prev_at]. rewrite list_lookup_fmap.
  destruct (lookup_lt_is_Some_2 cs p) as [c Hc]; [lia|]. rewrite Hc. cbn. pose proof (zrep_height _ _ _ _ _ Hz Hc).
  rewrite (proj2 (Nat.ltb_lt 0 _)) by lia. done.
Qed.

(** The position where level [l] is left has that level. *)
Lemma prev_at_level h z cs l pos : zrep h z cs -> (l < zlevel z)%nat -> (l < height_at z cs (prev_at l (c_height <$> cs) pos))%nat.
Proof.
  intros Hz Hl. destruct (prev_at_height l (c_height <$> cs) pos) as [-> | (p & x & -> & Hx & Hlt)]; [done|].
  cbn. rewrite list_lookup_fmap in Hx. by rewrite Hx.
Qed.

Lemma walk_unfold fuel h go i x rank : walk fuel h go i x rank =
  (lv ← get_level h x i;
   match forward lv with
   | None => Some (x, rank)
   | Some f =>
       fn ← h !! f; g ← go fn (rank + span lv);
       if (g : bool) then match fuel with O => None | S fuel => walk fuel h go i f (rank + span lv) end
       else Some (x, rank)
   end).
Proof. by destruct fuel. Qed.

Lemma height_at_lt z cs k i : (i < height_at z cs k)%nat -> k = O \/ exists p w, k = S p /\ (c_height <$> cs) !! p = Some w /\ (i < w)%nat.
Proof.
  destruct k as [|p]; [by left|]. cbn. intros Hi. right. destruct (cs !! p) as [c|] eqn:Ec; [|cbn in Hi; lia].
  exists p, (c_height c). by rewrite list_lookup_fmap, Ec.
Qed.

Section searching.
Context (h : heap) (z : zskiplist) (cs : list cell) (Hz : zrep h z cs).
Context (go : zskiplistNode -> Z -> option bool) (pos : nat) (Hpos : (pos <= length cs)%nat).
(** The nodes to go past are the first [pos]. *)
Context (Hgo : forall k c n, cs !! k = Some c -> h !! c_ptr c = Some n -> go n (Z.of_nat (S k)) = Some (S k <=? pos)%nat).

Abbreviation prv l := (prev_at l (c_height <$> cs) pos).

(** The node at a position beyond the current one. *)
Lemma next_node k d (c : cell) : cs !! (k + d - 1)%nat = Some c -> (1 <= d)%nat ->
  exists n, h !! c_ptr c = Some n /\ go n (Z.of_nat k + Z.of_nat d) = Some (k + d <=? pos)%nat.
Proof using Hz Hpos Hgo.
  intros Hc Hd. destruct (info_node _ _ _ _ _ _ (z_nodes _ _ _ Hz _ _ Hc)) as (n & Hn & _). exists n. split; [done|].
  pose proof (Hgo _ _ _ Hc Hn) as Hg. replace (S (k + d - 1))%nat with (k + d)%nat in Hg by lia. by rewrite <-Nat2Z.inj_add.
Qed.

Lemma walk_spec fuel i x k : (k <= pos)%nat -> ptr_at z cs k = Some x -> (i < height_at z cs k)%nat -> (pos - k <= fuel)%nat ->
  exists y, ptr_at z cs (prv i) = Some y /\ walk fuel h go i x (Z.of_nat k) = Some (y, Z.of_nat (prv i)).
Proof using Hz Hpos Hgo.
  revert x k. induction fuel as [fuel IH] using lt_wf_ind; intros x k Hk Hx Hi Hf.
  rewrite walk_unfold, (z_levels _ _ _ Hz k x i Hx Hi). bnd. unfold level_at. rewrite (next_before cs pos Hpos k i Hk).
  destruct (next_from i (drop k (take pos (c_height <$> cs)))) as [d|] eqn:Ed.
  - pose proof Ed as Ed'. apply next_from_Some in Ed as (Hd & (w & Hw & Hlt) & _). rewrite length_drop, length_take, length_fmap in Hd.
    rewrite lookup_drop, lookup_take_lt, list_lookup_fmap in Hw by lia.
    replace (k + (d - 1))%nat with (k + d - 1)%nat in Hw by lia.
    destruct (cs !! (k + d - 1)%nat) as [c|] eqn:Hc; [|done]. cbn in Hw. injection Hw as <-.
    cbn [fmap option_fmap option_map forward span].
    destruct (next_node k d c Hc) as (n & -> & Hg); [lia|]. bnd. rewrite Hg. bnd. rewrite (proj2 (Nat.leb_le _ _)) by lia.
    destruct fuel as [|fuel]; [lia|]. rewrite <-Nat2Z.inj_add.
    replace (k + d)%nat with (S (k + d - 1)) by lia. apply IH; [lia|lia|cbn; by rewrite Hc|cbn; by rewrite Hc|lia].
  - assert (k = prv i) as <- by (apply prev_at_unique; [rewrite length_fmap; lia|by apply (height_at_lt z)|done]). exists x. split; [done|].
    destruct (next_from i (c_height <$> drop pos cs)) as [d|] eqn:E2; [|done]. apply next_after in E2; [|done].
    cbn [fmap option_fmap option_map forward span]. destruct (lookup_lt_is_Some_2 cs (k + (pos - k + d) - 1)) as [c Hc]; [lia|].
    rewrite Hc. cbn [fmap option_fmap option_map].
    destruct (next_node k _ c Hc) as (n & -> & Hg); [lia|]. bnd. rewrite Hg. bnd. rewrite (proj2 (Nat.leb_gt _ _)) by lia. done.
Qed.

(** For each level the node where it is left, with its rank. *)
Definition updates (update : list (ptr * Z)) (i : nat) : Prop :=
  length update = i /\
  forall l, (l < i)%nat -> exists u, ptr_at z cs (prv l) = Some u /\ update !! l = Some (u, Z.of_nat (prv l)).

Lemma descend_spec i x k : (k <= pos)%nat -> ptr_at z cs k = Some x -> (i <= height_at z cs k)%nat -> (i <= zlevel z)%nat ->
  exists y update, descend h go i x (Z.of_nat k) = Some (y, update) /\ updates update i /\
    (if i is O then y = x else ptr_at z cs (prv 0) = Some y).
Proof using Hz Hpos Hgo.
  revert x k. induction i as [|i IH]; intros x k Hk Hx Hi Hl.
  { exists x, []. split; [done|]. split; [|done]. split; [done|]. intros l Hl0. lia. }
  destruct (walk_spec (size h) i x k Hk Hx) as (y & Hy & Hw); [lia|pose proof (zrep_size _ _ _ Hz); lia|].
  cbn [descend]. rewrite Hw. bnd.
  destruct (IH y (prv i)) as (y' & update & Hd & [Hlen Hu] & Hy'); [apply prev_at_le|done| |lia|].
  { apply Nat.lt_le_incl, (prev_at_level h); [done|lia]. }
  rewrite Hd. bnd. exists y', (update ++ [(y, Z.of_nat (prv i))]). split; [done|]. split; [split|].
  - rewrite length_app, Hlen. cbn. lia.
  - intros l Hli. destruct (decide (l = i)) as [-> | Hne].
    + exists y. split; [done|]. by rewrite lookup_app_r, Hlen, Nat.sub_diag by lia.
    + destruct (Hu l) as (u & Hpu & Hlu); [lia|]. exists u. split; [done|]. rewrite lookup_app_l by lia. done.
  - destruct i; [by subst|done].
Qed.

(** A whole search ends at position [pos]. *)
Lemma zsl_search_spec : exists y update, descend h go (zlevel z) (header z) 0 = Some (y, update) /\ updates update (zlevel z) /\
  ptr_at z cs pos = Some y.
Proof using Hz Hpos Hgo.
  destruct (descend_spec (zlevel z) (header z) 0) as (y & update & Hd & Hu & Hy); [lia|done|done|done|].
  exists y, update. split; [done|]. split; [done|]. pose proof (z_level _ _ _ Hz). destruct (zlevel z); [lia|].
  by rewrite (prev_at_0 h z) in Hy.
Qed.
End searching.

(** ** Insertion *)

Lemma ins_inv {A} pos (x : A) l i y : (pos <= length l)%nat -> ins pos x l !! i = Some y ->
  ((i < pos)%nat /\ l !! i = Some y) \/ (i = pos /\ y = x) \/ (exists i', i = S i' /\ (pos <= i')%nat /\ l !! i' = Some y).
Proof.
  intros Hp Hi. destruct (lt_eq_lt_dec i pos) as [[H | ->] | H].
  - left. by rewrite ins_lt in Hi.
  - right. left. rewrite ins_at in Hi by done. naive_solver.
  - right. right. destruct i as [|i]; [lia|]. exists i. rewrite ins_gt in Hi by lia. split_and!; [done|lia|done].
Qed.

Lemma ksorted_ins pos k l : (pos <= length l)%nat -> ksorted l ->
  (forall j a, (j < pos)%nat -> l !! j = Some a -> klt a k) -> (forall j a, (pos <= j)%nat -> l !! j = Some a -> klt k a) ->
  ksorted (ins pos k l).
Proof.
  intros Hp Hs H1 H2 i j a b Hij Ha Hb.
  apply ins_inv in Ha; [|done]. apply ins_inv in Hb; [|done].
  destruct Ha as [(? & Ha) | [(-> & ->) | (i' & -> & ? & Ha)]], Hb as [(? & Hb) | [(-> & ->) | (j' & -> & ? & Hb)]]; try lia; eauto.
  - eapply (Hs i j'); [lia|done|done].
  - eapply (Hs i' j'); [lia|done|done].
Qed.

Lemma ksorted_del pos k l : (pos <= length l)%nat -> ksorted (ins pos k l) -> ksorted l.
Proof.
  intros Hp Hs i j a b Hij Ha Hb.
  assert (forall m y, l !! m = Some y -> ins pos k l !! (if (m <? pos)%nat then m else S m) = Some y) as He.
  { intros m y Hm. destruct (m <? pos)%nat eqn:E; [apply Nat.ltb_lt in E; by rewrite ins_lt|].
    apply Nat.ltb_ge in E. by rewrite ins_gt. }
  apply (Hs _ _ a b) with (2 := He _ _ Ha) (3 := He _ _ Hb).
  destruct (i <? pos)%nat eqn:E1, (j <? pos)%nat eqn:E2; rewrite ?Nat.ltb_lt, ?Nat.ltb_ge in *; lia.
Qed.

Lemma level_at_0 h z cs k : zrep h z cs -> forward (level_at cs k 0) = c_ptr <$> cs !! k.
Proof.
  intros Hz. unfold level_at. destruct (cs !! k) as [c|] eqn:Hc.
  - rewrite (drop_S _ _ _ Hc). cbn [fmap list_fmap next_from]. pose proof (zrep_height _ _ _ _ _ Hz Hc).
    rewrite (proj2 (Nat.ltb_lt 0 _)) by lia. cbn [forward]. by replace (k + 1 - 1)%nat with k by lia; rewrite Hc.
  - apply lookup_ge_None in Hc. by rewrite drop_ge.
Qed.

(** The levels above the highest node. *)
Lemma raise_levels_spec n i h z update :
  (forall l, (i <= l < i + n)%nat -> forward <$> get_level h (header z) l = Some None) ->
  exists h', raise_levels n i h z update = Some (h', update ++ replicate n (header z, 0)) /\
    (forall q l, get_level h' q l = if decide (q = header z /\ (i <= l < i + n)%nat) then Some (mkLevel None (zlength z)) else get_level h q l) /\
    (forall q, info h' q = info h q).
Proof.
  revert i h update. induction n as [|n IH]; intros i h update Hl; cbn [raise_levels].
  - exists h. rewrite app_nil_r. split_and!; [done| |done]. intros q l. rewrite decide_False by naive_solver lia. done.
  - pose proof (Hl i ltac:(lia)) as Hi. destruct (get_level h (header z) i) as [lv|] eqn:El; [|done]. cbn in Hi. injection Hi as Hi. bnd.
    destruct (set_level_spec h (header z) i (mkLevel (forward lv) (zlength z)) lv El) as (h1 & -> & Hg1 & Hi1). bnd.
    destruct (IH (S i) h1 (update ++ [(header z, 0)])) as (h' & -> & Hg' & Hi').
    { intros l Hll. rewrite Hg1, decide_False by naive_solver lia. apply Hl. lia. }
    exists h'. split_and!; [by rewrite <-app_assoc| |intros q; by rewrite Hi', Hi1].
    intros q l. rewrite Hg', Hg1, Hi. repeat case_decide; try done; exfalso; naive_solver lia.
Qed.

Lemma level_at_above h z cs k l : zrep h z cs -> (zlevel z <= l)%nat -> level_at cs k l = mkLevel None (Z.of_nat (length cs - k)).
Proof.
  intros Hz Hl. unfold level_at. rewrite next_from_None_intro; [done|]. rewrite fmap_drop. apply Forall_drop, Forall_fmap.
  eapply Forall_impl; [apply (z_heights _ _ _ Hz)|]. intros c Hc. unfold compose. cbn in *. lia.
Qed.

Lemma prev_at_above h z cs pos l : zrep h z cs -> (pos <= length cs)%nat -> (zlevel z <= l)%nat -> prev_at l (c_height <$> cs) pos = O.
Proof.
  intros Hz Hp Hl. symmetry. apply prev_at_unique; [rewrite length_fmap; lia|by left|]. apply next_from_None_intro.
  apply Forall_drop, Forall_take, Forall_fmap. eapply Forall_impl; [apply (z_heights _ _ _ Hz)|]. intros c Hc. unfold compose. cbn in *. lia.
Qed.

Lemma raise_zrep h z cs pos update lvl : zrep h z cs -> (pos <= length cs)%nat -> updates z cs pos update (zlevel z) ->
  (zlevel z < lvl <= ZSKIPLIST_MAXLEVEL)%nat ->
  exists h1 update1, raise_levels (lvl - zlevel z) (zlevel z) h z update = Some (h1, update1) /\
    zrep h1 (set_zlevel lvl z) cs /\ updates (set_zlevel lvl z) cs pos update1 lvl /\ dom h1 = dom h.
Proof.
  intros Hz Hp [Hlen Hu] Hlvl.
  destruct (raise_levels_spec (lvl - zlevel z) (zlevel z) h z update) as (h1 & Hr & Hg & Hi).
  { intros l Hl. apply (z_upper _ _ _ Hz). lia. }
  eexists h1, _. split; [done|]. split_and!.
  - destruct Hz as [H1 H2 H3 H4 H5 H6 H7 H8 H9 H10 H11]. assert (zrep h z cs) as Hz by done. constructor; cbn; try done.
    + by rewrite Hi.
    + intros k c Hc. rewrite Hi. by apply H2.
    + intros k p l Hpt Hl. change (ptr_at z cs k = Some p) in Hpt. rewrite Hg. destruct (decide _) as [[-> Hr'] | Hne].
      * assert (k = O) as -> by (eapply (ptr_at_inj h z cs k 0); done).
        rewrite (level_at_above h z) by (done || lia). rewrite H7, Nat.sub_0_r. done.
      * apply H3; [done|]. destruct k as [|k]; [|done]. cbn in *. injection Hpt as <-. 
        destruct (decide (l < zlevel z)%nat); [done|]. exfalso. apply Hne. split; [done|lia].
    + intros l Hl. rewrite Hg, decide_False by (intros [_ ?]; lia). apply H4. lia.
    + lia.
    + eapply Forall_impl; [exact H9|]. cbn. intros c Hc. lia.
  - split; [rewrite length_app, length_replicate; lia|]. intros l Hl. destruct (decide (l < zlevel z)%nat) as [Hlt | Hge].
    + destruct (Hu l Hlt) as (u & Hpu & Hlu). exists u. split; [done|]. by rewrite lookup_app_l by lia.
    + rewrite (prev_at_above h z) by (done || lia). exists (header z). split; [done|].
      rewrite lookup_app_r by lia. apply lookup_replicate_2. lia.
  - apply set_eq. intros q. rewrite !elem_of_dom. unfold info in Hi. specialize (Hi q). destruct (h1 !! q), (h !! q); done.
Qed.

(** The loops over the levels, from what they find in [update]: at level [l]
    the node [U l], its rank [R l] and its level [L l]. *)
Section level_loops.
Context (update : list (ptr * Z)) (U : nat -> ptr) (R : nat -> Z) (L : nat -> zskiplistLevel) (x : ptr).

Definition at_levels (h : heap) (i n : nat) : Prop :=
  forall l, (i <= l < i + n)%nat -> update !! l = Some (U l, R l) /\ get_level h (U l) l = Some (L l).

Lemma link_levels_spec n i h rank0 : at_levels h i n ->
  (forall l, (i <= l < i + n)%nat -> U l <> x /\ is_Some (get_level h x l)) ->
  exists h', link_levels n i h x update rank0 = Some h' /\ (forall q, info h' q = info h q) /\
    forall q l, get_level h' q l =
      if decide (i <= l < i + n)%nat
      then if decide (q = x) then Some (mkLevel (forward (L l)) (span (L l) - (rank0 - R l)))
           else if decide (q = U l) then Some (mkLevel (Some x) (rank0 - R l + 1)) else get_level h q l
      else get_level h q l.
Proof using.
  revert i h. induction n as [|n IH]; intros i h Ha Hx; cbn [link_levels].
  - exists h. split_and!; [done|done|]. intros q l. by rewrite decide_False by lia.
  - destruct (Ha i ltac:(lia)) as [-> Hu]. destruct (Hx i ltac:(lia)) as [Hux [lx Hlx]]. bnd. rewrite Hu. bnd.
    destruct (set_level_spec h x i (mkLevel (forward (L i)) (span (L i) - (rank0 - R i))) lx Hlx) as (h1 & -> & Hg1 & Hi1). bnd.
    assert (get_level h1 (U i) i = Some (L i)) as Hu1 by (rewrite Hg1, decide_False by naive_solver; done).
    destruct (set_level_spec h1 (U i) i (mkLevel (Some x) (rank0 - R i + 1)) _ Hu1) as (h2 & -> & Hg2 & Hi2). bnd.
    destruct (IH (S i) h2) as (h' & -> & Hi' & Hg').
    { intros l Hl. destruct (Ha l ltac:(lia)) as [? ?]. split; [done|]. rewrite Hg2, decide_False, Hg1, decide_False by naive_solver lia. done. }
    { intros l Hl. destruct (Hx l ltac:(lia)) as [? ?]. split; [done|]. rewrite Hg2, decide_False, Hg1, decide_False by naive_solver lia. done. }
    exists h'. split_and!; [done|intros q; by rewrite Hi', Hi2, Hi1|]. intros q l. rewrite Hg', Hg2, Hg1.
    destruct (decide (l = i)) as [-> | Hli].
    + rewrite (decide_False (P := (S i <= i < S i + n)%nat)), (decide_True (P := (i <= i < i + S n)%nat)) by lia.
      destruct (decide (q = x)) as [-> | Hqx]; [rewrite decide_False, decide_True by naive_solver; done|].
      destruct (decide (q = U i)) as [-> | Hqu]; [by rewrite decide_True by done|].
      by rewrite !decide_False by naive_solver.
    + rewrite (decide_False (P := q = U i /\ l = i)), (decide_False (P := q = x /\ l = i)) by naive_solver.
      destruct (decide (i <= l < i + S n)%nat); [rewrite decide_True by lia; done|by rewrite decide_False by lia].
Qed.

Lemma stretch_levels_spec n i h : at_levels h i n ->
  exists h', stretch_levels n i h update = Some h' /\ (forall q, info h' q = info h q) /\
    forall q l, get_level h' q l =
      if decide ((i <= l < i + n)%nat /\ q = U l) then Some (mkLevel (forward (L l)) (span (L l) + 1)) else get_level h q l.
Proof using.
  revert i h. induction n as [|n IH]; intros i h Ha; cbn [stretch_levels].
  - exists h. split_and!; [done|done|]. intros q l. by rewrite decide_False by lia.
  - destruct (Ha i ltac:(lia)) as [-> Hu]. bnd. rewrite Hu. bnd.
    destruct (set_level_spec h (U i) i (mkLevel (forward (L i)) (span (L i) + 1)) _ Hu) as (h1 & -> & Hg1 & Hi1). bnd.
    destruct (IH (S i) h1) as (h' & -> & Hi' & Hg').
    { intros l Hl. destruct (Ha l ltac:(lia)) as [? ?]. split; [done|]. rewrite Hg1, decide_False by naive_solver lia. done. }
    exists h'. split_and!; [done|intros q; by rewrite Hi', Hi1|]. intros q l. rewrite Hg', Hg1.
    destruct (decide (l = i)) as [-> | Hli].
    + rewrite decide_False by lia. destruct (decide (q = U i)) as [-> | Hq]; [by rewrite !decide_True by lia|].
      by rewrite !decide_False by naive_solver.
    + rewrite (decide_False (P := q = U i /\ l = i)) by naive_solver.
      destruct (decide ((i <= l < i + S n)%nat /\ q = U l)) as [[? ->] | Hn]; [by rewrite decide_True by lia|].
      rewrite decide_False; [done|]. intros [? ->]. apply Hn. split; [lia|done].
Qed.

(** [X l] is the level [l] of the node to unlink. *)
Lemma unlink_levels_spec (X : nat -> zskiplistLevel) n i h : at_levels h i n ->
  (forall l, (i <= l < i + n)%nat -> U l <> x /\ (forward (L l) = Some x -> get_level h x l = Some (X l))) ->
  exists h', unlink_levels n i h x update = Some h' /\ (forall q, info h' q = info h q) /\
    forall q l, get_level h' q l =
      if decide ((i <= l < i + n)%nat /\ q = U l)
      then Some (if decide (forward (L l) = Some x) then mkLevel (forward (X l)) (span (L l) + (span (X l) - 1))
                 else mkLevel (forward (L l)) (span (L l) - 1))
      else get_level h q l.
Proof using.
  revert i h. induction n as [|n IH]; intros i h Ha Hx; cbn [unlink_levels].
  - exists h. split_and!; [done|done|]. intros q l. by rewrite decide_False by lia.
  - destruct (Ha i ltac:(lia)) as [-> Hu]. destruct (Hx i ltac:(lia)) as [Hux Hlx]. bnd. rewrite Hu. bnd.
    pose (v := if decide (forward (L i) = Some x) then mkLevel (forward (X i)) (span (L i) + (span (X i) - 1))
      else mkLevel (forward (L i)) (span (L i) - 1)).
    destruct (set_level_spec h (U i) i v _ Hu) as (h1 & Hs & Hg1 & Hi1).
    assert ((if decide (forward (L i) = Some x)
             then lx ← get_level h x i; set_level h (U i) i (mkLevel (forward lx) (span (L i) + (span lx - 1)))
             else set_level h (U i) i (mkLevel (forward (L i)) (span (L i) - 1))) = Some h1) as ->.
    { rewrite <-Hs. unfold v. destruct (decide _) as [E|]; [|done]. by rewrite (Hlx E). }
    bnd. destruct (IH (S i) h1) as (h' & -> & Hi' & Hg').
    { intros l Hl. destruct (Ha l ltac:(lia)) as [? ?]. split; [done|]. rewrite Hg1, decide_False by naive_solver lia. done. }
    { intros l Hl. destruct (Hx l ltac:(lia)) as [? ?]. split; [done|]. rewrite Hg1, decide_False by naive_solver lia. done. }
    exists h'. split_and!; [done|intros q; by rewrite Hi', Hi1|]. intros q l. rewrite Hg', Hg1.
    destruct (decide (l = i)) as [-> | Hli].
    + rewrite (decide_False (P := (S i <= i < S i + n)%nat /\ q = U i)) by lia.
      destruct (decide (q = U i)) as [-> | Hq]; [by rewrite !(decide_True (P := _ /\ _)) by lia|].
      by rewrite !(decide_False (P := _ /\ _)) by naive_solver.
    + rewrite (decide_False (P := q = U i /\ l = i)) by naive_solver.
      destruct (decide ((i <= l < i + S n)%nat /\ q = U l)) as [[? ->] | Hn]; [by rewrite decide_True by lia|].
      rewrite decide_False; [done|]. intros [? ->]. apply Hn. split; [lia|done].
Qed.
End level_loops.

Lemma ptr_at_ins_le z cs pos c k : (k <= pos <= length cs)%nat -> ptr_at z (ins pos c cs) k = ptr_at z cs k.
Proof. intros Hk. destruct k as [|k]; [done|]. cbn. by rewrite ins_lt by lia. Qed.
Lemma ptr_at_ins_gt z cs pos c k : (pos < k)%nat -> (pos <= length cs)%nat -> ptr_at z (ins pos c cs) (S k) = ptr_at z cs k.
Proof. intros Hk Hp. destruct k as [|k]; [lia|]. cbn. by rewrite ins_gt by lia. Qed.
Lemma height_at_ins_le z cs pos c k : (k <= pos <= length cs)%nat -> height_at z (ins pos c cs) k = height_at z cs k.
Proof. intros Hk. destruct k as [|k]; [done|]. cbn. by rewrite ins_lt by lia. Qed.
Lemma height_at_ins_gt z cs pos c k : (pos < k)%nat -> (pos <= length cs)%nat -> height_at z (ins pos c cs) (S k) = height_at z cs k.
Proof. intros Hk Hp. destruct k as [|k]; [lia|]. cbn. by rewrite ins_gt by lia. Qed.
Lemma last_ins {A} pos (x : A) l : (pos <= length l)%nat -> last (ins pos x l) = if decide (pos = length l) then Some x else last l.
Proof.
  intros Hp. rewrite !last_lookup, length_ins. cbn [Nat.pred]. destruct (decide (pos = length l)) as [-> | Hne]; [by rewrite ins_at|].
  destruct (length l) as [|n] eqn:E; [lia|]. cbn [Nat.pred]. rewrite ins_gt by lia. done.
Qed.
Lemma height_at_le h z cs k : zrep h z cs -> (height_at z cs k <= zlevel z)%nat.
Proof. intros Hz. destruct k as [|k]; [done|]. cbn. destruct (cs !! k) eqn:E; cbn; [|lia]. by apply (zrep_height _ _ _ _ _ Hz) in E as [_ ?]. Qed.

(** What the last fields of a node become when [x] is put at [pos]. *)
Definition relink (h : heap) (next : option ptr) (b : option ptr) (q : ptr) : option (option bytes * spec_float * option ptr * nat) :=
  if decide (next = Some q) then (fun '(e, s, _, n) => (e, s, b, n)) <$> info h q else info h q.

Section linking.
Context (z : zskiplist) (cs : list cell) (pos : nat) (c : cell) (Hpos : (pos <= length cs)%nat).
Abbreviation cs' := (ins pos c cs).
Abbreviation prv l := (prev_at l (c_height <$> cs) pos).
Definition left_at (l : nat) : ptr := default 1%positive (ptr_at z cs (prv l)).

Lemma left_at_spec l : ptr_at z cs (prv l) = Some (left_at l).
Proof using Hpos. unfold left_at. destruct (ptr_at_is_Some z cs (prv l)) as [p ->]; [pose proof (prev_at_le l (c_height <$> cs) pos); lia|done]. Qed.

Lemma zrep_link h h' z' : zrep h z cs -> c_ptr c <> header z -> (forall k d, cs !! k = Some d -> c_ptr d <> c_ptr c) ->
  (1 <= c_height c <= zlevel z)%nat -> num (c_key c).1 -> ksorted (c_key <$> cs') ->
  (forall q l, get_level h' q l =
     if decide (q = c_ptr c)
     then (if decide (l < c_height c)%nat then Some (level_at cs' (S pos) l) else get_level h' q l)
     else if decide ((l < zlevel z)%nat /\ q = left_at l) then Some (level_at cs' (prv l) l) else get_level h q l) ->
  (forall q, info h' q = if decide (q = c_ptr c) then Some (Some (c_key c).2, (c_key c).1, prev_ptr cs pos, c_height c)
                         else relink h (c_ptr <$> cs !! pos) (Some (c_ptr c)) q) ->
  z' = mkZsl (header z) (if decide (pos = length cs) then Some (c_ptr c) else tail z) (zlength z + 1) (zlevel z) ->
  zrep h' z' cs'.
Proof using Hpos.
  intros Hz Hxh Hxn Hlv Hnum Hsort Hg Hi ->. pose proof Hz as [H1 H2 H3 H4 H5 H6 H7 H8 H9 H10 H11].
  constructor; cbn [header tail zlength zlevel]; try done.
  - destruct H1 as (s & b & H1). exists s, b. rewrite Hi, decide_False by done. unfold relink.
    rewrite decide_False; [done|]. intros Hx. destruct (cs !! pos) as [d|] eqn:Ed; [|done]. cbn in Hx. injection Hx as Hx.
    assert (S pos = O) as ?; [|done]. eapply (ptr_at_inj h z cs); [done|cbn; rewrite Ed; done|cbn; by rewrite Hx].
  - intros k d Hd. apply ins_inv in Hd; [|done]. destruct Hd as [(Hk & Hd) | [(-> & ->) | (k' & -> & Hk & Hd)]].
    + rewrite Hi, decide_False by eauto. unfold relink. rewrite decide_False.
      * rewrite (H2 k d Hd). do 3 f_equal. destruct k as [|k]; [done|]. cbn. by rewrite ins_lt by lia.
      * intros Hx. destruct (cs !! pos) as [d'|] eqn:Ed; [|done]. cbn in Hx. injection Hx as Hx.
        assert (S pos = S k) as ?; [|lia]. eapply (ptr_at_inj h z cs); [done|cbn; by rewrite Ed|cbn; by rewrite Hd, Hx].
    + rewrite Hi, decide_True by done. do 3 f_equal. destruct pos as [|p]; [done|]. cbn. by rewrite ins_lt by lia.
    + rewrite Hi, decide_False by eauto. unfold relink. destruct (decide (k' = pos)) as [-> | Hne].
      * rewrite Hd, decide_True by done. rewrite (H2 _ _ Hd). cbn. do 3 f_equal. by rewrite ins_at by done.
      * rewrite decide_False; [|intros Hx; destruct (cs !! pos) as [d'|] eqn:Ed; [|done]; cbn in Hx; injection Hx as Hx;
          assert (S pos = S k') as ?; [|lia]; eapply (ptr_at_inj h z cs); [done|cbn; by rewrite Ed|cbn; by rewrite Hd, Hx]].
        rewrite (H2 _ _ Hd). do 3 f_equal. destruct k' as [|k']; [lia|]. cbn. by rewrite ins_gt by lia.
  - intros k p l Hp Hl. change (ptr_at z cs' k = Some p) in Hp. change (l < height_at z cs' k)%nat in Hl. rewrite Hg.
    destruct (lt_eq_lt_dec k (S pos)) as [[Hk | ->] | Hk].
    + rewrite ptr_at_ins_le in Hp by lia. rewrite height_at_ins_le in Hl by lia.
      rewrite decide_False; cycle 1.
      { intros ->. destruct k as [|k]; cbn in Hp; [congruence|]. destruct (cs !! k) eqn:E; [|done]. cbn in Hp. injection Hp as Hp. by apply Hxn in E. }
      destruct (decide (k = prv l)) as [-> | Hne].
      * rewrite left_at_spec in Hp. injection Hp as <-. rewrite decide_True; [done|]. split; [|done].
        pose proof (height_at_le h z cs (prv l) Hz). lia.
      * rewrite decide_False; cycle 1.
        { intros [_ ->]. apply Hne. eapply ptr_at_inj; [done|done|apply left_at_spec]. }
        rewrite (H3 k p l Hp Hl). f_equal. symmetry. apply level_at_kept; [done|lia|by apply (height_at_lt z)|done].
    + cbn in Hp, Hl. rewrite ins_at in Hp, Hl by done. cbn in Hp, Hl. injection Hp as <-. rewrite decide_True by done. by rewrite decide_True.
    + destruct k as [|k]; [lia|]. rewrite ptr_at_ins_gt in Hp by lia. rewrite height_at_ins_gt in Hl by lia.
      rewrite decide_False; cycle 1.
      { intros ->. destruct k as [|k]; [lia|]. cbn in Hp. destruct (cs !! k) eqn:E; [|done]. cbn in Hp. injection Hp as Hp. by apply Hxn in E. }
      rewrite decide_False; cycle 1.
      { intros [_ ->]. assert (k = prv l) as ?; [eapply ptr_at_inj; [done|done|apply left_at_spec]|].
        pose proof (prev_at_le l (c_height <$> cs) pos). lia. }
      rewrite (H3 k p l Hp Hl). f_equal. symmetry. apply level_at_shifted; [done|lia].
  - intros l Hl. rewrite Hg, decide_False by done. rewrite decide_False by lia. by apply H4.
  - rewrite fmap_ins. unfold ins. rewrite Permutation_app_comm. cbn. change (header z :: c_ptr c :: drop pos (c_ptr <$> cs) ++ take pos (c_ptr <$> cs)) with
      ([header z; c_ptr c] ++ drop pos (c_ptr <$> cs) ++ take pos (c_ptr <$> cs)). 
    rewrite (Permutation_app_comm (drop _ _)), take_drop. cbn. apply NoDup_cons in H5 as [H5 H5'].
    assert (c_ptr c ∉ c_ptr <$> cs) as Hni.
    { intros Hx. apply list_elem_of_fmap in Hx as (d & Hd & Hx). apply list_elem_of_lookup_1 in Hx as [k Hk]. by eapply Hxn. }
    apply NoDup_cons. split; [|by apply NoDup_cons]. rewrite not_elem_of_cons. done.
  - rewrite last_ins by done. destruct (decide _); done.
  - rewrite length_ins. lia.
  - unfold ins. apply Forall_app. split; [by apply Forall_take|]. constructor; [done|by apply Forall_drop].
  - unfold ins. apply Forall_app. split; [by apply Forall_take|]. constructor; [done|by apply Forall_drop].
Qed.

End linking.

Section insertion.
Context (junk : option ptr) (junk_level : zskiplistLevel).

Lemma zmalloc_new (h : heap) : h !! zmalloc h = None.
Proof using. apply (not_elem_of_dom (D := gset ptr)). unfold zmalloc. apply is_fresh. Qed.

(** The part of zslInsert after the levels have been raised: [x] is put after
    position [pos]. *)
Definition insert_linked (h : heap) (z : zskiplist) (update : list (ptr * Z)) (level : nat) (s : spec_float) (e : bytes)
    : option (heap * zskiplist * ptr) :=
  let '(x, h) := zslCreateNode junk junk_level h level s (Some e) in
  '(u0, rank0) ← update !! 0%nat;
  h ← link_levels level 0 h x update rank0;
  h ← stretch_levels (zlevel z - level) level h update;
  h ← set_backward h x (if decide (u0 = header z) then None else Some u0);
  lx ← get_level h x 0;
  '(h, z) ← match forward lx with
             | Some f => h ← set_backward h f (Some x); Some (h, z)
             | None => Some (h, set_tail (Some x) z)
             end;
  Some (h, set_length (zlength z + 1) z, x).

(** All the levels, once the node is there. *)
Lemma link_all h h1 z cs pos update x k level : zrep h z cs -> (pos <= length cs)%nat ->
  updates z cs pos update (zlevel z) -> (1 <= level <= zlevel z)%nat -> (forall l, left_at z cs pos l <> x) ->
  (forall q l, q <> x -> get_level h1 q l = get_level h q l) -> (forall l, (l < level)%nat -> is_Some (get_level h1 x l)) ->
  exists h2 h3, update !! 0%nat = Some (left_at z cs pos 0, Z.of_nat pos) /\
    link_levels level 0 h1 x update (Z.of_nat pos) = Some h2 /\ stretch_levels (zlevel z - level) level h2 update = Some h3 /\
    (forall q, info h3 q = info h1 q) /\
    (forall q l, get_level h3 q l = if decide (q = x)
       then (if decide (l < level)%nat then Some (level_at (ins pos (mkCell x k level) cs) (S pos) l) else get_level h3 q l)
       else if decide ((l < zlevel z)%nat /\ q = left_at z cs pos l)
       then Some (level_at (ins pos (mkCell x k level) cs) (prev_at l (c_height <$> cs) pos) l) else get_level h q l).
Proof using.
  intros Hz Hpos [Hlen Hup] Hlv Hux Hg1 Hg1x. set (c := mkCell x k level).
  pose (R := fun l => Z.of_nat (prev_at l (c_height <$> cs) pos)). pose (L := fun l => level_at cs (prev_at l (c_height <$> cs) pos) l).
  assert (at_levels update (left_at z cs pos) R L h1 0 (zlevel z)) as Hat.
  { intros l Hl. destruct (Hup l ltac:(lia)) as (u & Hu & ->). rewrite left_at_spec in Hu by done. injection Hu as <-.
    split; [done|]. rewrite Hg1 by done. apply (z_levels _ _ _ Hz); [by apply left_at_spec|]. apply (prev_at_level h); [done|lia]. }
  assert (R 0%nat = Z.of_nat pos) as Hr0 by (unfold R; by rewrite (prev_at_0 h z)).
  destruct (link_levels_spec update (left_at z cs pos) R L x level 0 h1 (R 0%nat)) as (h2 & Hl2 & Hi2 & Hg2).
  { intros l Hl. apply Hat. lia. } { intros l Hl. split; [done|]. apply Hg1x. lia. }
  destruct (stretch_levels_spec update (left_at z cs pos) R L (zlevel z - level) level h2) as (h3 & Hl3 & Hi3 & Hg3).
  { intros l Hl. destruct (Hat l ltac:(lia)) as [? ?]. split; [done|]. rewrite Hg2, decide_False by lia. done. }
  exists h2, h3. rewrite <-Hr0. split; [apply Hat; lia|]. split; [done|]. split; [done|].
  split; [intros q; by rewrite Hi3, Hi2|]. intros q l. rewrite Hg3. destruct (decide (q = x)) as [-> | Hq].
  - destruct (decide (l < level)%nat) as [Hl | Hl]; [|done]. rewrite decide_False by lia. rewrite Hg2, decide_True, decide_True by lia.
    rewrite (level_at_new cs pos c Hpos l) by done. by rewrite Hr0.
  - destruct (decide ((l < zlevel z)%nat /\ q = left_at z cs pos l)) as [[Hl ->] | Hn].
    + destruct (decide (l < level)%nat) as [Hl' | Hl'].
      * rewrite decide_False by lia. rewrite Hg2, decide_True, decide_False, decide_True by (done || lia).
        rewrite (level_at_linked cs pos c Hpos l) by done. by rewrite Hr0.
      * rewrite decide_True by (split; [lia|done]). rewrite (level_at_stretched cs pos c Hpos l) by (cbn; lia). done.
    + rewrite decide_False by (intros [? ->]; apply Hn; split; [lia|done]). rewrite Hg2.
      destruct (decide (0 <= l < 0 + level)%nat); [|by apply Hg1]. rewrite decide_False by done.
      rewrite decide_False by (intros ->; apply Hn; split; [lia|done]). by apply Hg1.
Qed.

(** The node that the new one follows. *)
Lemma left_at_0 h z cs pos : zrep h z cs -> (pos <= length cs)%nat ->
  (if decide (left_at z cs pos 0 = header z) then None else Some (left_at z cs pos 0)) = prev_ptr cs pos.
Proof using.
  intros Hz Hpos. pose proof (left_at_spec z cs pos Hpos 0) as Hu0. rewrite (prev_at_0 h z) in Hu0 by done.
  destruct pos as [|p]; cbn in Hu0; [by rewrite decide_True|]. cbn. rewrite Hu0, decide_False; [done|]. intros Heq. rewrite Heq in Hu0.
  assert (S p = O) as ?; [|done]. eapply (ptr_at_inj h z cs); [done|exact Hu0|done].
Qed.

Lemma is_Some_info (h : heap) q : is_Some (h !! q) <-> is_Some (info h q).
Proof using. unfold info. by rewrite fmap_is_Some. Qed.

Lemma insert_linked_spec h z cs pos update level s e : zrep h z cs -> (pos <= length cs)%nat ->
  updates z cs pos update (zlevel z) -> (1 <= level <= zlevel z)%nat -> num s -> ksorted (ins pos (s, e) (c_key <$> cs)) ->
  exists h' z', insert_linked h z update level s e = Some (h', z', zmalloc h) /\
    zrep h' z' (ins pos (mkCell (zmalloc h) (s, e) level) cs) /\ header z' = header z /\
    (forall q, is_Some (h' !! q) <-> q = zmalloc h \/ is_Some (h !! q)) /\
    (forall q, q <> zmalloc h -> c_ptr <$> cs !! pos <> Some q -> info h' q = info h q).
Proof using.
  intros Hz Hpos Hup Hlv Hnum Hsort. set (x := zmalloc h). set (c := mkCell x (s, e) level).
  pose proof (zmalloc_new h) as Hx. fold x in Hx.
  assert (forall q i, info h q = Some i -> q <> x) as Hfresh by (intros q i Hq ->; unfold info in Hq; by rewrite Hx in Hq).
  assert (x <> header z) as Hxh by (destruct (z_header _ _ _ Hz) as (? & ? & Hh); apply Hfresh in Hh; congruence).
  assert (forall k d, cs !! k = Some d -> c_ptr d <> x) as Hxn by (intros k d Hd; eapply Hfresh, (z_nodes _ _ _ Hz), Hd).
  assert (forall l, left_at z cs pos l <> x) as Hux.
  { intros l Hl. pose proof (left_at_spec z cs pos Hpos l) as Hp. rewrite Hl in Hp. destruct (prev_at _ _ _) as [|k]; cbn in Hp; [congruence|].
    destruct (cs !! k) eqn:E; [|done]. injection Hp as Hp. by apply Hxn in E. }
  unfold insert_linked, zslCreateNode. fold x. set (h1 := <[x := _]> h).
  assert (forall q, q <> x -> info h1 q = info h q) as Hi1 by (intros q Hq; unfold info, h1; by rewrite lookup_insert_ne).
  assert (info h1 x = Some (Some e, s, junk, level)) as Hi1x by (unfold info, h1; rewrite lookup_insert_eq; cbn; by rewrite length_replicate).
  destruct (link_all h h1 z cs pos update x (s, e) level Hz Hpos Hup Hlv Hux) as (h2 & h3 & -> & Hl2 & Hl3 & Hi3 & Hg3).
  { intros q l Hq. unfold get_level, h1. by rewrite lookup_insert_ne. } { intros l Hl. by eapply get_level_info. }
  bnd. rewrite Hl2. bnd. rewrite Hl3. bnd. rewrite <-Hi3 in Hi1x. rewrite (left_at_0 h) by done.
  destruct (set_backward_spec h3 x (prev_ptr cs pos) _ _ _ _ Hi1x) as (h4 & -> & Hg4 & Hi4). bnd. fold c in Hg3.
  assert (get_level h4 x 0 = Some (level_at (ins pos c cs) (S pos) 0)) as -> by (rewrite Hg4, Hg3, decide_True, decide_True by (done || lia); done).
  bnd. rewrite (level_at_new cs pos c Hpos 0) by (cbn; lia). cbn [forward]. rewrite (level_at_0 h z), (prev_at_0 h z) by done.
  assert (exists h5, (match c_ptr <$> cs !! pos with Some f => h ← set_backward h4 f (Some x); Some (h, z) | None => Some (h4, set_tail (Some x) z) end) =
      Some (h5, mkZsl (header z) (if decide (pos = length cs) then Some x else tail z) (zlength z) (zlevel z)) /\
      (forall q l, get_level h5 q l = get_level h4 q l) /\
      (forall q, info h5 q = if decide (q = x) then Some (Some e, s, prev_ptr cs pos, level) else relink h (c_ptr <$> cs !! pos) (Some x) q))
    as (h5 & Hset & Hg5 & Hi5).
  { destruct (cs !! pos) as [d|] eqn:Ed; cbn [fmap option_fmap option_map].
    - pose proof (z_nodes _ _ _ Hz _ _ Ed) as Hd. assert (c_ptr d <> x) as Hdx by eauto.
      assert (info h4 (c_ptr d) = Some (Some (c_key d).2, (c_key d).1, prev_ptr cs pos, c_height d)) as Hd4
        by (rewrite Hi4, decide_False, Hi3, Hi1 by done; done).
      destruct (set_backward_spec h4 (c_ptr d) (Some x) _ _ _ _ Hd4) as (h5 & -> & Hg5 & Hi5). bnd. exists h5. split_and!; [|done|].
      + rewrite decide_False; [by destruct z|]. apply lookup_lt_Some in Ed. lia.
      + intros q. rewrite Hi5. unfold relink. destruct (decide (q = c_ptr d)) as [-> | Hq]; [rewrite decide_False, decide_True, Hd by done; done|].
        rewrite (decide_False (P := Some (c_ptr d) = Some q)) by congruence. rewrite Hi4. destruct (decide (q = x)); [done|]. by rewrite Hi3, Hi1.
    - exists h4. split_and!; [|done|]; [rewrite decide_True; [done|]; apply lookup_ge_None in Ed; lia|].
      intros q. rewrite Hi4. unfold relink. cbn. destruct (decide (q = x)); [done|]. by rewrite Hi3, Hi1. }
  rewrite Hset. bnd. eexists h5, _. split; [done|]. split; [|split; [done|]].
  - eapply (zrep_link z cs pos c Hpos h); try done; [by rewrite fmap_ins|]. intros q l. rewrite Hg5, Hg4. apply Hg3.
  - split; intros q.
    + rewrite !is_Some_info, Hi5. destruct (decide (q = x)) as [-> | Hq]; [split; eauto|]. unfold relink.
      destruct (decide (c_ptr <$> cs !! pos = Some q)); [destruct (info h q)|]; naive_solver.
    + intros Hq Hn. rewrite Hi5, decide_False by done. unfold relink. by rewrite decide_False.
Qed.

(** ** Positions *)

(** How many elements of a sequence satisfy [f] before the first that does not. *)
Fixpoint prefix_len {A} (f : A -> bool) (l : list A) : nat :=
  match l with [] => O | a :: l => if f a then S (prefix_len f l) else O end.

Lemma prefix_len_le {A} (f : A -> bool) l : (prefix_len f l <= length l)%nat.
Proof using. induction l as [|a l IH]; cbn; [done|]. destruct (f a); lia. Qed.

Lemma prefix_len_spec {A} (f : A -> bool) l :
  (forall i j a b, (i < j)%nat -> l !! i = Some a -> l !! j = Some b -> f b = true -> f a = true) ->
  forall k a, l !! k = Some a -> f a = (S k <=? prefix_len f l)%nat.
Proof using.
  induction l as [|x l IH]; intros Hm k a Hk; [done|]. cbn [prefix_len]. destruct k as [|k].
  - injection Hk as ->. by destruct (f a).
  - change (l !! k = Some a) in Hk. destruct (f x) eqn:Ex.
    + rewrite (IH (fun i j a b Hij => Hm (S i) (S j) a b ltac:(lia)) k a Hk). done.
    + destruct (f a) eqn:Ea; [|done]. by rewrite (Hm 0%nat (S k) x a) in Ex by (done || lia).
Qed.

Lemma kltb_asym a b : num a.1 -> num b.1 -> kltb a b = true -> kltb b a = false.
Proof using.
  intros Ha Hb Hab. apply not_true_is_false. intros Hba. pose proof (kltb_trans a b a Ha Hb Ha Hab Hba) as Hc.
  by rewrite kltb_irrefl in Hc.
Qed.

Section keys.
Context (l : list key) (Hl : ksorted l) (Hn : forall k a, l !! k = Some a -> num a.1).

Lemma before_pos t : num t.1 -> forall k a, l !! k = Some a -> kltb a t = (S k <=? prefix_len (fun a => kltb a t) l)%nat.
Proof using Hl Hn.
  intros Ht. apply prefix_len_spec. intros i j a b Hij Ha Hb Hbt.
  eapply (kltb_trans a b t); [eauto|eauto|done| |done]. by eapply Hl.
Qed.

Lemma upto_pos t : num t.1 -> forall k a, l !! k = Some a ->
  negb (kltb t a) = (S k <=? prefix_len (fun a => negb (kltb t a)) l)%nat.
Proof using Hl Hn.
  intros Ht. apply prefix_len_spec. intros i j a b Hij Ha Hb Hbt. destruct (kltb t a) eqn:E; [|done].
  rewrite (kltb_trans t a b) in Hbt; [done|done|eauto|eauto|done|]. by eapply Hl.
Qed.

(** Scores do not decrease. *)
Lemma scores_sorted i j a b : (i < j)%nat -> l !! i = Some a -> l !! j = Some b -> SFltb b.1 a.1 = false.
Proof using Hl Hn.
  intros Hij Ha Hb. pose proof (Hl i j a b Hij Ha Hb) as Hk. unfold klt in Hk. rewrite kltb_spec in Hk by eauto.
  apply not_true_is_false. rewrite SFltb_lex by eauto. intros Hx. destruct Hk as [Hk | [Hk _]].
  - by apply lex3_asym in Hk.
  - rewrite Hk in Hx. by apply lex3_irrefl in Hx.
Qed.

(** A key that is not there has its place. *)
Lemma place t : num t.1 -> (forall a, a ∈ l -> keqb a t = false) ->
  ksorted (ins (prefix_len (fun a => kltb a t) l) t l).
Proof using Hl Hn.
  intros Ht Hnew. apply ksorted_ins; [apply prefix_len_le|done|..]; intros j a Hj Ha; pose proof (before_pos t Ht j a Ha) as Hb.
  - unfold klt. rewrite Hb. apply Nat.leb_le. lia.
  - rewrite (proj2 (Nat.leb_gt _ _)) in Hb by lia. unfold klt.
    destruct (kltb_total a t) as [H | [H | H]]; [eauto|done|congruence| |done].
    rewrite Hnew in H; [done|]. by eapply list_elem_of_lookup_2.
Qed.
End keys.

Lemma zrep_keys h z cs : zrep h z cs -> forall k a, (c_key <$> cs) !! k = Some a -> num a.1.
Proof using.
  intros Hz k a Hk. rewrite list_lookup_fmap in Hk. destruct (cs !! k) as [c|] eqn:Ec; [|done]. injection Hk as <-.
  exact (Forall_lookup_1 _ _ _ _ (z_num _ _ _ Hz) Ec).
Qed.

(** The node of a cell. *)
Lemma zrep_node h z cs k c n : zrep h z cs -> cs !! k = Some c -> h !! c_ptr c = Some n ->
  ele n = Some (c_key c).2 /\ score n = (c_key c).1 /\ backward n = prev_ptr cs k.
Proof using.
  intros Hz Hc Hn. destruct (info_node _ _ _ _ _ _ (z_nodes _ _ _ Hz _ _ Hc)) as (x & Hx & H1 & H2 & H3 & _). simplify_eq. done.
Qed.

Lemma node_before_spec h z cs s e : zrep h z cs -> num s -> forall k c n, cs !! k = Some c -> h !! c_ptr c = Some n ->
  node_before s e n (Z.of_nat (S k)) = Some (S k <=? prefix_len (fun a => kltb a (s, e)) (c_key <$> cs))%nat.
Proof using.
  intros Hz Hs k c n Hc Hn. destruct (zrep_node _ _ _ _ _ _ Hz Hc Hn) as (He & Hsc & _).
  rewrite <-(before_pos _ (z_sorted _ _ _ Hz) (zrep_keys _ _ _ Hz) (s, e) Hs k (c_key c)) by (by rewrite list_lookup_fmap, Hc).
  unfold node_before, kltb. rewrite He, Hsc. cbn. destruct (SFltb _ s); [done|]. destruct (SFeqb _ s); done.
Qed.

Lemma zslRandomLevel_range heads : (1 <= zslRandomLevel heads <= ZSKIPLIST_MAXLEVEL)%nat.
Proof using.
  unfold zslRandomLevel. destruct (_ <? _)%nat eqn:E; [apply Nat.ltb_lt in E; lia|]. unfold ZSKIPLIST_MAXLEVEL. lia.
Qed.

Lemma zslInsert_spec h z cs heads s e : zrep h z cs -> num s -> (forall c, c ∈ cs -> keqb (c_key c) (s, e) = false) ->
  let pos := prefix_len (fun a => kltb a (s, e)) (c_key <$> cs) in
  exists h' z' x level, zslInsert junk junk_level h z heads s e = Some (h', z', x) /\
    zrep h' z' (ins pos (mkCell x (s, e) level) cs) /\ header z' = header z /\
    h !! x = None /\ (forall q, is_Some (h' !! q) <-> q = x \/ is_Some (h !! q)).
Proof using.
  intros Hz Hs Hnew pos. assert (pos <= length cs)%nat as Hpos.
  { rewrite <-(length_fmap c_key cs). apply prefix_len_le. }
  assert (ksorted (ins pos (s, e) (c_key <$> cs))) as Hsort.
  { apply place; [apply (z_sorted _ _ _ Hz)|apply (zrep_keys _ _ _ Hz)|done|].
    intros a Ha. apply list_elem_of_fmap in Ha as (c & -> & Hc). by apply Hnew. }
  destruct (zsl_search_spec h z cs Hz _ pos Hpos (node_before_spec h z cs s e Hz Hs)) as (y & update & Hd & Hu & _).
  unfold zslInsert. rewrite Hs, Hd. bnd. pose proof (zslRandomLevel_range heads) as Hr. set (level := zslRandomLevel heads) in *.
  destruct (zlevel z <? level)%nat eqn:El.
  - apply Nat.ltb_lt in El. destruct (raise_zrep h z cs pos update level Hz Hpos Hu) as (h1 & u1 & -> & Hz1 & Hu1 & Hdom); [lia|]. bnd.
    destruct (insert_linked_spec h1 (set_zlevel level z) cs pos u1 level s e Hz1 Hpos Hu1) as (h' & z' & Hil & Hz' & Hh & Hd' & _);
      [cbn; lia|done|done|]. exists h', z', (zmalloc h1), level. split; [exact Hil|]. split; [done|]. split; [done|].
    assert (forall q, is_Some (h1 !! q) <-> is_Some (h !! q)) as Heq by (intros q; by rewrite <-!elem_of_dom, Hdom).
    split; [|intros q; by rewrite Hd', Heq]. apply eq_None_not_Some. rewrite <-Heq, zmalloc_new. by intros [? ?].
  - apply Nat.ltb_ge in El. bnd.
    destruct (insert_linked_spec h z cs pos update level s e Hz Hpos Hu) as (h' & z' & Hil & Hz' & Hh & Hd' & _); [lia|done|done|].
    exists h', z', (zmalloc h), level. split; [exact Hil|]. split_and!; [done|done|apply zmalloc_new|done].
Qed.
End insertion.

(** ** Deletion *)

Lemma ins_delete {A} (l : list A) pos x : l !! pos = Some x -> ins pos x (delete pos l) = l.
Proof.
  intros Hx. pose proof (lookup_lt_Some _ _ _ Hx). unfold ins. rewrite delete_take_drop.
  rewrite take_app_le by (rewrite length_take; lia). rewrite take_take, Nat.min_id.
  rewrite drop_app_ge by (rewrite length_take; lia). rewrite length_take. replace (pos - pos `min` length l)%nat with 0%nat by lia.
  rewrite drop_0. by apply take_drop_middle.
Qed.

Section unlinking.
Context (z : zskiplist) (cs : list cell) (pos : nat) (c : cell) (Hpos : (pos <= length cs)%nat).
Abbreviation cs0 := (ins pos c cs).
Abbreviation prv l := (prev_at l (c_height <$> cs) pos).

Lemma ins_elem_old k d : cs !! k = Some d -> exists k', cs0 !! k' = Some d /\ k' = (if (k <? pos)%nat then k else S k).
Proof using Hpos.
  intros Hd. destruct (k <? pos)%nat eqn:E; eexists; (split; [|done]).
  - apply Nat.ltb_lt in E. by rewrite ins_lt.
  - apply Nat.ltb_ge in E. by rewrite ins_gt.
Qed.

Lemma old_neq h k d : zrep h z cs0 -> cs !! k = Some d -> c_ptr d <> c_ptr c.
Proof using Hpos.
  intros Hz Hd Heq. destruct (ins_elem_old k d Hd) as (k' & Hk' & Ek). assert (S k' = S pos) as Hs.
  { eapply (ptr_at_inj h z cs0 (S k') (S pos) (c_ptr c)); [done|cbn; by rewrite Hk', <-Heq|cbn; by rewrite ins_at]. }
  destruct (k <? pos)%nat eqn:E; [apply Nat.ltb_lt in E; lia|apply Nat.ltb_ge in E; lia].
Qed.

Lemma ptr_at_old k : (k <= length cs)%nat -> ptr_at z cs k = ptr_at z cs0 (if (k <=? pos)%nat then k else S k).
Proof using Hpos.
  intros Hk. destruct (k <=? pos)%nat eqn:E; [apply Nat.leb_le in E|apply Nat.leb_gt in E].
  - by rewrite ptr_at_ins_le by lia.
  - by rewrite ptr_at_ins_gt by lia.
Qed.

Lemma zrep_unlink h h' : zrep h z cs0 ->
  (forall q l, q <> c_ptr c -> get_level h' q l =
     if decide ((l < zlevel z)%nat /\ q = left_at z cs pos l) then Some (level_at cs (prv l) l) else get_level h q l) ->
  (forall q, q <> c_ptr c -> info h' q = relink h (c_ptr <$> cs !! pos) (prev_ptr cs pos) q) ->
  zrep h' (mkZsl (header z) (if decide (pos = length cs) then prev_ptr cs pos else tail z) (zlength z - 1) (zlevel z)) cs.
Proof using Hpos.
  intros Hz Hg Hi. pose proof Hz as [H1 H2 H3 H4 H5 H6 H7 H8 H9 H10 H11].
  assert (header z <> c_ptr c) as Hh.
  { intros Hx. assert (O = S pos) as ?; [|done]. eapply (ptr_at_inj h z cs0 O (S pos)); [done|done|cbn; by rewrite ins_at, Hx]. }
  assert (forall k d q, cs !! pos = Some d -> ptr_at z cs k = Some q -> k <> S pos -> Some (c_ptr d) <> Some q) as Hnx.
  { intros k d q Hd Hq Hk [= Heq]. pose proof (ptr_at_lt _ _ _ _ Hq). rewrite ptr_at_old in Hq by lia.
    assert (ptr_at z cs0 (S (S pos)) = Some q) as Hq' by (cbn; rewrite ins_gt by lia; by rewrite Hd, <-Heq).
    pose proof (ptr_at_inj _ _ _ _ _ _ Hz Hq Hq') as E. destruct (k <=? pos)%nat eqn:El; [apply Nat.leb_le in El|apply Nat.leb_gt in El]; lia. }
  constructor; cbn [header tail zlength zlevel]; try done.
  - destruct H1 as (s & b & H1). exists s, b. rewrite Hi by done. unfold relink. rewrite decide_False; [done|].
    destruct (cs !! pos) as [d|] eqn:Ed; [|done]. by apply (Hnx 0%nat).
  - intros k d Hd. rewrite Hi by (by eapply old_neq). unfold relink. destruct (ins_elem_old k d Hd) as (k' & Hk' & Ek).
    destruct (decide (k = pos)) as [-> | Hne].
    + rewrite Hd, decide_True by done. by rewrite (H2 _ _ Hk').
    + rewrite decide_False; cycle 1.
      { destruct (cs !! pos) as [d'|] eqn:Ed; [|done]. apply (Hnx (S k)); [done|cbn; by rewrite Hd|lia]. }
      rewrite (H2 _ _ Hk'), Ek. do 3 f_equal. destruct (k <? pos)%nat eqn:E.
      * apply Nat.ltb_lt in E. destruct k as [|k]; [done|]. cbn. by rewrite ins_lt by lia.
      * apply Nat.ltb_ge in E. destruct k as [|k]; [lia|]. cbn. by rewrite ins_gt by lia.
  - intros k p l Hp Hl. change (ptr_at z cs k = Some p) in Hp. change (l < height_at z cs k)%nat in Hl.
    pose proof (ptr_at_lt _ _ _ _ Hp) as Hk. pose proof Hp as Hp'. rewrite ptr_at_old in Hp' by done.
    assert (p <> c_ptr c) as Hpc by (destruct k as [|k]; cbn in Hp; [congruence|]; destruct (cs !! k) eqn:E; [|done]; injection Hp as <-; by eapply old_neq).
    rewrite Hg by done. destruct (decide (k = prv l)) as [-> | Hne].
    + rewrite left_at_spec in Hp by done. injection Hp as <-. rewrite decide_True; [done|]. split; [|done].
      rewrite <-(height_at_ins_le z cs pos c) in Hl by (pose proof (prev_at_le l (c_height <$> cs) pos); lia).
      pose proof (height_at_le h z cs0 (prv l) Hz). lia.
    + rewrite decide_False; cycle 1.
      { intros [_ ->]. apply Hne. pose proof (left_at_spec z cs pos Hpos l) as Hls. rewrite <-(ptr_at_ins_le z cs pos c) in Hls
          by (pose proof (prev_at_le l (c_height <$> cs) pos); lia). pose proof (ptr_at_inj _ _ _ _ _ _ Hz Hp' Hls) as E.
        pose proof (prev_at_le l (c_height <$> cs) pos). destruct (k <=? pos)%nat eqn:El; [done|apply Nat.leb_gt in El; lia]. }
      destruct (k <=? pos)%nat eqn:El; [apply Nat.leb_le in El|apply Nat.leb_gt in El].
      * rewrite (H3 k p l Hp') by (by rewrite height_at_ins_le by lia). f_equal. apply level_at_kept; [done|done|by apply (height_at_lt z)|done].
      * rewrite (H3 (S k) p l Hp') by (by rewrite height_at_ins_gt by lia). f_equal. by apply level_at_shifted.
  - intros l Hl. rewrite Hg, decide_False by (done || lia). by apply H4.
  - rewrite fmap_ins in H5. unfold ins in H5. apply NoDup_cons in H5 as [H5 H5']. apply NoDup_app in H5' as (Ha & Hb & Hc).
    apply NoDup_cons in Hc as [Hc Hd]. apply NoDup_cons. rewrite <-(take_drop pos (c_ptr <$> cs)). split.
    + rewrite elem_of_app in *. rewrite elem_of_cons in H5. naive_solver.
    + apply NoDup_app. split_and!; [done| |done]. intros q Hq Hq'. apply (Hb q Hq). by right.
  - rewrite H6, last_ins by done. destruct (decide (pos = length cs)) as [-> | ]; [|done]. rewrite last_lookup.
    destruct cs as [|d ds] using rev_ind; [done|]. rewrite length_app, Nat.add_1_r. done.
  - rewrite H7, length_ins. lia.
  - unfold ins in H9. apply Forall_app in H9 as [Ha Hb]. apply Forall_cons in Hb as [_ Hb]. rewrite <-(take_drop pos cs). by apply Forall_app.
  - unfold ins in H10. apply Forall_app in H10 as [Ha Hb]. apply Forall_cons in Hb as [_ Hb]. rewrite <-(take_drop pos cs). by apply Forall_app.
  - rewrite fmap_ins in H11. eapply ksorted_del; [|done]. by rewrite length_fmap.
Qed.
End unlinking.

(** Dropping the top levels that no node has. *)
Lemma shrink_level_spec h z cs : zrep h z cs -> forall n, (n <= zlevel z)%nat -> (1 <= n)%nat ->
  (forall l, (n <= l < zlevel z)%nat -> forward <$> get_level h (header z) l = Some None) ->
  exists l, shrink_level h (header z) n = Some l /\ (1 <= l <= n)%nat /\
    (forall j, (l <= j < zlevel z)%nat -> forward <$> get_level h (header z) j = Some None).
Proof.
  intros Hz n. induction n as [|[|n] IH]; intros Hn H1 Hf; [lia|by exists 1%nat|].
  cbn [shrink_level]. assert (get_level h (header z) (S n) = Some (level_at cs 0 (S n))) as Hg by (by apply (z_levels _ _ _ Hz)).
  rewrite Hg. bnd. destruct (forward (level_at cs 0 (S n))) as [f|] eqn:Ef; [exists (S (S n)); split_and!; [done|lia|lia|done]|].
  destruct IH as (l & Hl & Hb & Hr); [lia|lia| |].
  - intros l Hl. destruct (decide (l = S n)) as [-> | Hne]; [by rewrite Hg, <-Ef|]. apply Hf. lia.
  - exists l. split; [done|]. split; [lia|done].
Qed.

Lemma level_at_None h z cs l : zrep h z cs -> forward (level_at cs 0 l) = None -> Forall (fun c => (c_height c <= l)%nat) cs.
Proof.
  intros Hz. unfold level_at. destruct (next_from l _) as [d|] eqn:E.
  - apply next_from_Some in E as (Hd & _). cbn [forward]. rewrite drop_0, length_fmap in Hd.
    destruct (lookup_lt_is_Some_2 cs (0 + d - 1)) as [x Hx]; [lia|]. by rewrite Hx.
  - intros _. apply next_from_None in E. by rewrite drop_0, Forall_fmap in E.
Qed.

Lemma shrink_zrep h z cs : zrep h z cs -> exists l, shrink_level h (header z) (zlevel z) = Some l /\ zrep h (set_zlevel l z) cs.
Proof.
  intros Hz. destruct (shrink_level_spec h z cs Hz (zlevel z)) as (l & Hl & Hb & Hr); [lia|apply (z_level _ _ _ Hz)|lia|].
  exists l. split; [done|]. pose proof Hz as [H1 H2 H3 H4 H5 H6 H7 H8 H9 H10 H11]. constructor; cbn; try done.
  - intros k p i Hp Hi. apply H3; [done|]. destruct k; [cbn in *; lia|done].
  - intros i Hi. destruct (decide (i < zlevel z)%nat); [apply Hr; lia|apply H4; lia].
  - lia.
  - destruct (decide (l = zlevel z)) as [-> | Hne]; [done|]. assert (Forall (fun c => (c_height c <= l)%nat) cs) as Hs.
    { eapply level_at_None; [done|]. pose proof (Hr l ltac:(lia)) as Hf. rewrite (H3 0%nat (header z) l eq_refl) in Hf by (cbn; lia). by injection Hf. }
    apply Forall_lookup_2. intros k c Hc. pose proof (Forall_lookup_1 _ _ _ _ H9 Hc). pose proof (Forall_lookup_1 _ _ _ _ Hs Hc). cbn in *. lia.
Qed.

(** The [update] vector of a position: only the nodes matter. *)
Definition upd_ok (z : zskiplist) (cs : list cell) (pos : nat) (update : list (ptr * Z)) (n : nat) : Prop :=
  forall l, (l < n)%nat -> exists r, update !! l = Some (left_at z cs pos l, r).

Lemma updates_upd_ok z cs pos update n : (pos <= length cs)%nat -> updates z cs pos update n -> upd_ok z cs pos update n.
Proof.
  intros Hp [_ Hu] l Hl. destruct (Hu l Hl) as (u & Hu' & ->). rewrite left_at_spec in Hu' by done. injection Hu' as <-. eauto.
Qed.

Lemma left_at_ins z cs pos c l : (pos <= length cs)%nat -> left_at z (ins pos c cs) pos l = left_at z cs pos l.
Proof.
  intros Hp. unfold left_at. rewrite (prev_at_take l (c_height <$> ins pos c cs) (c_height <$> cs)).
  - pose proof (prev_at_le l (c_height <$> cs) pos). by rewrite ptr_at_ins_le by lia.
  - rewrite length_fmap, length_ins. lia.
  - rewrite fmap_ins. apply take_ins. by rewrite length_fmap.
Qed.

Lemma forward_level_at cs k l : forward (level_at cs k l) = None \/ exists j d, cs !! j = Some d /\ forward (level_at cs k l) = Some (c_ptr d).
Proof.
  unfold level_at. destruct (next_from _ _) as [d|]; [|by left]. cbn [forward].
  destruct (cs !! (k + d - 1)%nat) as [x|] eqn:E; [right; eauto|by left].
Qed.

(** The nodes on the left take over the links of the one that goes. *)
Lemma unlink_all h z cs pos c update : (pos <= length cs)%nat -> zrep h z (ins pos c cs) -> upd_ok z cs pos update (zlevel z) ->
  exists h', unlink_levels (zlevel z) 0 h (c_ptr c) update = Some h' /\ (forall q, info h' q = info h q) /\
    (forall q l, get_level h' q l =
      if decide ((l < zlevel z)%nat /\ q = left_at z cs pos l) then Some (level_at cs (prev_at l (c_height <$> cs) pos) l) else get_level h q l) /\
    (forall l, left_at z cs pos l <> c_ptr c).
Proof.
  intros Hpos Hz Hup. set (cs0 := ins pos c cs) in *.
  assert (cs0 !! pos = Some c) as Hcs by (by apply ins_at).
  assert (forall l, left_at z cs pos l <> c_ptr c) as Hux.
  { intros l Hl. pose proof (left_at_spec z cs pos Hpos l) as Hp. pose proof (prev_at_le l (c_height <$> cs) pos).
    rewrite <-(ptr_at_ins_le z cs pos c), Hl in Hp by lia.
    assert (prev_at l (c_height <$> cs) pos = S pos) as ?; [|lia].
    eapply (ptr_at_inj h z cs0); [done|exact Hp|cbn; by rewrite Hcs]. }
  pose (L := fun l => level_at cs0 (prev_at l (c_height <$> cs) pos) l). pose (X := fun l => level_at cs0 (S pos) l).
  pose (R := fun l => default 0 (snd <$> update !! l)).
  assert (1 <= c_height c <= zlevel z)%nat as Hc by (eapply (zrep_height h z cs0 pos); [done|done]).
  assert (forall l, forward (L l) = Some (c_ptr c) -> (l < c_height c)%nat) as HL.
  { intros l. unfold L, cs0. destruct (decide (l < c_height c)%nat) as [|Hge]; [done|]. rewrite (level_at_stretched cs pos c Hpos l) by lia.
    cbn [forward]. destruct (forward_level_at cs (prev_at l (c_height <$> cs) pos) l) as [-> | (j & d & Hd & ->)]; [done|].
    intros [= Heq]. by eapply (old_neq z cs pos c Hpos h j d) in Heq. }
  destruct (unlink_levels_spec update (left_at z cs pos) R L (c_ptr c) X (zlevel z) 0 h) as (h' & Hu & Hi & Hg).
  { intros l Hl. destruct (Hup l ltac:(lia)) as [r Hr]. unfold R. rewrite Hr. split; [done|].
    pose proof (prev_at_le l (c_height <$> cs) pos). apply (z_levels _ _ _ Hz).
    - unfold cs0. rewrite ptr_at_ins_le by lia. by apply left_at_spec.
    - unfold cs0. rewrite height_at_ins_le by lia. destruct (prev_at_height l (c_height <$> cs) pos) as [-> | (p & x & -> & Hx & Hlt)]; [cbn; lia|].
      cbn. rewrite list_lookup_fmap in Hx. by rewrite Hx. }
  { intros l Hl. split; [done|]. intros Hf. apply HL in Hf. unfold X. apply (z_levels _ _ _ Hz); cbn; by rewrite Hcs. }
  exists h'. split_and!; [done|done| |done]. intros q l. rewrite Hg. cbn [Nat.add].
  destruct (decide ((l < zlevel z)%nat /\ q = left_at z cs pos l)) as [[Hl ->] | Hn]; cycle 1.
  { rewrite decide_False; [done|]. intros [? ->]. apply Hn. split; [lia|done]. }
  rewrite decide_True by (split; [lia|done]). f_equal. destruct (decide (l < c_height c)%nat) as [Hlt | Hge].
  - rewrite decide_True; unfold L, X, cs0; rewrite (level_at_linked cs pos c Hpos l) by done; [|done].
    rewrite (level_at_new cs pos c Hpos l) by done. cbn [forward span]. destruct (level_at cs _ l); cbn. f_equal. lia.
  - rewrite decide_False by (intros Hf; by apply HL in Hf). unfold L, cs0. rewrite (level_at_stretched cs pos c Hpos l) by lia.
    cbn [forward span]. destruct (level_at cs _ l); cbn. f_equal. lia.
Qed.

Lemma zslDeleteNode_spec h z cs pos c update : (pos <= length cs)%nat -> zrep h z (ins pos c cs) -> upd_ok z cs pos update (zlevel z) ->
  exists h' z', zslDeleteNode h z (c_ptr c) update = Some (h', z') /\ zrep h' z' cs /\ header z' = header z /\ (zlevel z' <= zlevel z)%nat /\
    info h' (c_ptr c) = info h (c_ptr c) /\ (forall q, is_Some (h' !! q) <-> is_Some (h !! q)).
Proof.
  intros Hpos Hz Hup. destruct (unlink_all h z cs pos c update Hpos Hz Hup) as (h1 & Hu & Hi1 & Hg1 & Hux).
  assert (ins pos c cs !! pos = Some c) as Hc by (by apply ins_at). pose proof (z_nodes _ _ _ Hz _ _ Hc) as Hic.
  assert (prev_ptr (ins pos c cs) pos = prev_ptr cs pos) as Epp by (destruct pos as [|p]; [done|]; cbn; by rewrite ins_lt by lia).
  rewrite Epp in Hic. unfold zslDeleteNode. rewrite Hu. bnd.
  destruct (info_node h1 (c_ptr c) _ _ _ _ ltac:(rewrite Hi1; exact Hic)) as (n & -> & _ & _ & Hb & _). bnd.
  assert (get_level h1 (c_ptr c) 0 = Some (level_at (ins pos c cs) (S pos) 0)) as ->.
  { rewrite Hg1, decide_False by (intros [_ Hx]; by apply (Hux 0%nat)). apply (z_levels _ _ _ Hz); cbn; rewrite Hc; [done|]. cbn.
    by apply (zrep_height _ _ _ _ _ Hz) in Hc as [? _]. }
  bnd. rewrite (level_at_0 h z), ins_gt, Hb by done.
  assert (exists h2, (match c_ptr <$> cs !! pos with Some f => h ← set_backward h1 f (prev_ptr cs pos); Some (h, z) | None => Some (h1, set_tail (prev_ptr cs pos) z) end) =
      Some (h2, mkZsl (header z) (if decide (pos = length cs) then prev_ptr cs pos else tail z) (zlength z) (zlevel z)) /\
      (forall q l, get_level h2 q l = get_level h1 q l) /\
      (forall q, info h2 q = relink h (c_ptr <$> cs !! pos) (prev_ptr cs pos) q)) as (h2 & Hset & Hg2 & Hi2).
  { destruct (cs !! pos) as [d|] eqn:Ed; cbn [fmap option_fmap option_map].
    - assert (ins pos c cs !! S pos = Some d) as Hd by (by rewrite ins_gt). pose proof (z_nodes _ _ _ Hz _ _ Hd) as Hid.
      destruct (set_backward_spec h1 (c_ptr d) (prev_ptr cs pos) _ _ _ _ ltac:(rewrite Hi1; exact Hid)) as (h2 & -> & Hg2 & Hi2). bnd.
      exists h2. split_and!; [|done|].
      + rewrite decide_False; [by destruct z|]. apply lookup_lt_Some in Ed. lia.
      + intros q. rewrite Hi2. unfold relink. destruct (decide (q = c_ptr d)) as [-> | Hq]; [rewrite decide_True, Hid by done; done|].
        rewrite decide_False by congruence. apply Hi1.
    - exists h1. split_and!; [|done|intros q; apply Hi1]. rewrite decide_True; [done|]. apply lookup_ge_None in Ed. lia. }
  rewrite Hset. bnd. set (z1 := mkZsl _ _ _ _).
  assert (zrep h2 (set_length (zlength z - 1) z1) cs) as Hz1.
  { apply (zrep_unlink z cs pos c Hpos h h2 Hz); [intros q l _; by rewrite Hg2, Hg1|intros q _; apply Hi2]. }
  destruct (shrink_zrep _ _ _ Hz1) as (l & Hs & Hz2). change (shrink_level h2 (header z1) (zlevel z1) = Some l) in Hs. rewrite Hs. bnd. exists h2. eexists. split; [done|].
  split; [exact Hz2|]. split; [done|]. cbn. split; [|split].
  - destruct (shrink_level_spec _ _ _ Hz1 (zlevel z)) as (l' & Hl' & Hb' & _); [cbn; lia|apply (z_level _ _ _ Hz)|cbn; lia|]. cbn in Hl', Hs. rewrite Hl' in Hs. injection Hs as <-. lia.
  - rewrite Hi2. unfold relink. rewrite decide_False; [done|]. destruct (cs !! pos) as [d|] eqn:Ed; [|done]. cbn. intros [= Hx].
    by eapply (old_neq z cs pos c Hpos h pos d) in Hx.
  - intros q. rewrite !is_Some_info, Hi2. unfold relink. destruct (decide (c_ptr <$> cs !! pos = Some q)); [|done]. by destruct (info h q).
Qed.

(** ** What the operations do to the sequence of keys *)

(** The heap holds the nodes of the skiplist and nothing else. *)
Definition owned (h : heap) (z : zskiplist) (cs : list cell) : Prop :=
  forall q, is_Some (h !! q) <-> q = header z \/ q ∈ c_ptr <$> cs.

Definition zstate (h : heap) (z : zskiplist) (l : list key) : Prop :=
  exists cs, zrep h z cs /\ owned h z cs /\ c_key <$> cs = l.

Definition pos_of (k : key) (l : list key) : nat := prefix_len (fun a => kltb a k) l.
Definition z_insert (k : key) (l : list key) : list key := ins (pos_of k l) k l.
Definition z_find (k : key) (l : list key) : option nat :=
  match l !! pos_of k l with
  | Some a => if keqb a k then Some (pos_of k l) else None
  | None => None
  end.

Lemma zrep_ext h h' z cs : zrep h z cs -> (forall q, q = header z \/ q ∈ c_ptr <$> cs -> h' !! q = h !! q) -> zrep h' z cs.
Proof.
  intros [H1 H2 H3 H4 H5 H6 H7 H8 H9 H10 H11] He.
  assert (forall k p, ptr_at z cs k = Some p -> h' !! p = h !! p) as Hp.
  { intros [|k] p Hp; cbn in Hp; [injection Hp as <-; apply He; by left|]. destruct (cs !! k) as [c|] eqn:Ec; [|done]. injection Hp as <-.
    apply He. right. apply list_elem_of_fmap. exists c. split; [done|]. by eapply list_elem_of_lookup_2. }
  constructor; try done.
  - unfold info. by rewrite (Hp 0%nat (header z)).
  - intros k c Hc. unfold info. rewrite (Hp (S k)) by (cbn; by rewrite Hc). by apply H2.
  - intros k p l Hpt Hl. unfold get_level. rewrite (Hp k) by done. by apply H3.
  - intros l Hl. unfold get_level. rewrite (Hp 0%nat (header z)) by done. by apply H4.
Qed.

(** Freeing a node that is not in the list any more. *)
Lemma zslFreeNode_spec h z cs p : zrep h z cs -> (forall q, is_Some (h !! q) <-> q = p \/ q = header z \/ q ∈ c_ptr <$> cs) ->
  p <> header z -> p ∉ c_ptr <$> cs -> zslFreeNode h p = Some (delete p h) /\ zrep (delete p h) z cs /\ owned (delete p h) z cs.
Proof.
  intros Hz Hd Hh Hn. destruct (proj2 (Hd p)) as [n Hp]; [by left|]. unfold zslFreeNode. rewrite Hp. bnd. split; [done|].
  assert (forall q, q = header z \/ q ∈ c_ptr <$> cs -> q <> p) as Hne by naive_solver. split.
  - eapply zrep_ext; [done|]. intros q Hq. apply lookup_delete_ne. intros <-. by apply (Hne p).
  - intros q. destruct (decide (q = p)) as [-> | Hq]; [rewrite lookup_delete_eq; split; [by intros [? ?]|intros Hx; by apply Hne in Hx]|].
    rewrite lookup_delete_ne by done. rewrite Hd. naive_solver.
Qed.

Lemma elem_of_ins {A} pos (x : A) l y : y ∈ ins pos x l <-> y = x \/ y ∈ l.
Proof.
  assert (y ∈ l <-> y ∈ take pos l \/ y ∈ drop pos l) as -> by (by rewrite <-elem_of_app, take_drop).
  unfold ins. rewrite elem_of_app, elem_of_cons. naive_solver.
Qed.

(** What the heap holds once a node has been unlinked. *)
Lemma unlinked_notin h z cs pos c : (pos <= length cs)%nat -> zrep h z (ins pos c cs) -> c_ptr c <> header z /\ c_ptr c ∉ c_ptr <$> cs.
Proof.
  intros Hpos Hz. pose proof (z_nodup _ _ _ Hz) as Hn. rewrite fmap_ins in Hn. apply NoDup_cons in Hn as [Hh _]. split.
  - intros Hx. apply Hh. rewrite elem_of_ins. by left.
  - intros Hx. apply list_elem_of_fmap in Hx as (d & Hd & Hx). apply list_elem_of_lookup_1 in Hx as [k Hk].
    by eapply (old_neq z cs pos c Hpos h k d).
Qed.

Section keyspecs.
Context (l : list key) (Hl : ksorted l) (Hn : forall k a, l !! k = Some a -> num a.1).

(** A key is at one position at most, the one the search gives. *)
Lemma z_find_spec t p : num t.1 -> z_find t l = Some p <-> exists a, l !! p = Some a /\ keqb a t = true.
Proof using Hl Hn.
  intros Ht. unfold z_find. split.
  - destruct (l !! pos_of t l) as [a|] eqn:Ea; [|done]. destruct (keqb a t) eqn:Ek; [|done]. intros [= <-]. eauto.
  - intros (a & Ha & Hk). assert (pos_of t l = p) as ->; [|by rewrite Ha, Hk]. unfold pos_of.
    pose proof (before_pos l Hl Hn t Ht p a Ha) as Hb. destruct (keqb_kltb a t) as [H1 H2]; [eauto|done|done|].
    rewrite H1 in Hb. symmetry in Hb. apply Nat.leb_gt in Hb. destruct p as [|p]; [lia|].
    destruct (lookup_lt_is_Some_2 l p) as [b Hb']; [apply lookup_lt_Some in Ha; lia|].
    pose proof (before_pos l Hl Hn t Ht p b Hb') as Hbb. assert (kltb b t = true) as Hbt; [|rewrite Hbt in Hbb; symmetry in Hbb; apply Nat.leb_le in Hbb; lia].
    pose proof (Hl p (S p) b a ltac:(lia) Hb' Ha) as Hlt. unfold klt in Hlt. rewrite kltb_spec in * by eauto.
    apply keqb_spec in Hk as [E1 E2]; [|eauto|done]. by rewrite <-E1, <-E2.
Qed.

Lemma delete_keys p : ksorted (delete p l) /\ (forall k a, delete p l !! k = Some a -> num a.1).
Proof using Hl Hn.
  split.
  - intros i j a b Hij. rewrite !list_lookup_delete. apply Hl. repeat case_decide; lia.
  - intros k a. rewrite list_lookup_delete. apply Hn.
Qed.
End keyspecs.

Section stateops.
Context (junk : option ptr) (junk_level : zskiplistLevel).

Definition key_of (h : heap) (p : ptr) : option key := n ← h !! p; e ← ele n; Some (score n, e).

Lemma zstate_key h z cs k c : zrep h z cs -> cs !! k = Some c -> key_of h (c_ptr c) = Some (c_key c).
Proof using.
  intros Hz Hc. destruct (info_node _ _ _ _ _ _ (z_nodes _ _ _ Hz _ _ Hc)) as (n & Hn & He & Hs & _). unfold key_of. rewrite Hn. bnd.
  rewrite He, Hs. bnd. by destruct (c_key c).
Qed.

Lemma zslInsert_state h z l heads s e : zstate h z l -> num s -> (forall a, a ∈ l -> keqb a (s, e) = false) ->
  exists h' z' x, zslInsert junk junk_level h z heads s e = Some (h', z', x) /\ zstate h' z' (z_insert (s, e) l) /\ key_of h' x = Some (s, e).
Proof using.
  intros (cs & Hz & Ho & <-) Hs Hnew.
  destruct (zslInsert_spec junk junk_level h z cs heads s e Hz Hs) as (h' & z' & x & lv & Hi & Hz' & Hh & Hf & Hd).
  { intros c Hc. apply Hnew, list_elem_of_fmap. eauto. }
  assert (pos_of (s, e) (c_key <$> cs) <= length cs)%nat by (rewrite <-(length_fmap c_key cs); apply prefix_len_le).
  exists h', z', x. split; [done|]. split; [|by apply (zstate_key _ _ _ (pos_of (s, e) (c_key <$> cs)) (mkCell x (s, e) lv) Hz'), ins_at].
  eexists. split; [done|]. split; [|by rewrite fmap_ins].
  unfold owned in Ho. intros q. rewrite Hd, Ho, Hh, fmap_ins, elem_of_ins. naive_solver.
Qed.

Lemma SFeqb_sym x y : num x -> num y -> SFeqb x y = SFeqb y x.
Proof using.
  intros Hx Hy. apply eq_true_iff_eq. rewrite !SFeqb_lex by done. split; congruence.
Qed.

Lemma matching_spec h z cs y s e pos : zrep h z cs -> num s -> ptr_at z cs pos = Some y ->
  matching h y s e = Some (match cs !! pos with Some c => if keqb (c_key c) (s, e) then Some (c_ptr c) else None | None => None end).
Proof using.
  intros Hz Hs Hy. unfold matching. rewrite (z_levels _ _ _ Hz pos y 0 Hy); cycle 1.
  { destruct pos as [|p]; [apply (z_level _ _ _ Hz)|]. cbn in *. destruct (cs !! p) eqn:E; [|done]. cbn. by apply (zrep_height _ _ _ _ _ Hz) in E as [? _]. }
  bnd. rewrite (level_at_0 h z) by done. destruct (cs !! pos) as [c|] eqn:Ec; [|done]. cbn [fmap option_fmap option_map].
  destruct (info_node _ _ _ _ _ _ (z_nodes _ _ _ Hz _ _ Ec)) as (n & -> & He & Hsc & _). bnd. rewrite He, Hsc. bnd.
  pose proof (Forall_lookup_1 _ _ _ _ (z_num _ _ _ Hz) Ec) as Hnc. unfold keqb. cbn. rewrite (SFeqb_sym _ s) by done.
  destruct (SFeqb s (c_key c).1); [|done]. cbn. by destruct (_ =? 0).
Qed.

(** The search for a key and the node found, when it is there. *)
Lemma zsl_seek_spec h z cs s e : zrep h z cs -> num s ->
  exists y update, descend h (node_before s e) (zlevel z) (header z) 0 = Some (y, update) /\
    updates z cs (pos_of (s, e) (c_key <$> cs)) update (zlevel z) /\
    matching h y s e = Some (p ← z_find (s, e) (c_key <$> cs); c_ptr <$> cs !! p).
Proof using.
  intros Hz Hs. assert (pos_of (s, e) (c_key <$> cs) <= length cs)%nat as Hpos by (rewrite <-(length_fmap c_key cs); apply prefix_len_le).
  destruct (zsl_search_spec h z cs Hz _ _ Hpos (node_before_spec h z cs s e Hz Hs)) as (y & update & Hd & Hu & Hy).
  exists y, update. split; [done|]. split; [done|]. rewrite (matching_spec h z cs y s e _ Hz Hs Hy). f_equal. unfold z_find.
  rewrite list_lookup_fmap. destruct (cs !! pos_of (s, e) (c_key <$> cs)) as [c|] eqn:Ec; [|done]. cbn [fmap option_fmap option_map].
  destruct (keqb _ _); [|done]. bnd. by rewrite Ec.
Qed.

Lemma z_find_pos k l p : z_find k l = Some p -> p = pos_of k l /\ exists a, l !! p = Some a /\ keqb a k = true.
Proof using. unfold z_find. destruct (l !! pos_of k l) as [a|] eqn:E; [|done]. destruct (keqb a k) eqn:Ek; [|done]. intros [= <-]. eauto. Qed.

(** A node found by its key is taken out. *)
Lemma remove_found h z cs p c update : zrep h z cs -> owned h z cs -> cs !! p = Some c -> updates z cs p update (zlevel z) ->
  exists h1 z1, zslDeleteNode h z (c_ptr c) update = Some (h1, z1) /\ zrep h1 z1 (delete p cs) /\ header z1 = header z /\
    info h1 (c_ptr c) = info h (c_ptr c) /\ c_ptr c <> header z1 /\ c_ptr c ∉ c_ptr <$> delete p cs /\
    (forall q, is_Some (h1 !! q) <-> q = c_ptr c \/ q = header z1 \/ q ∈ c_ptr <$> delete p cs).
Proof using.
  intros Hz Ho Hc Hu. pose proof (lookup_lt_Some _ _ _ Hc) as Hlt. set (ds := delete p cs).
  assert (ins p c ds = cs) as Hins by (by apply ins_delete).
  assert (p <= length ds)%nat as Hp by (unfold ds; rewrite length_delete by eauto; lia).
  apply updates_upd_ok in Hu; [|lia]. rewrite <-Hins in Hz, Ho, Hu.
  destruct (zslDeleteNode_spec h z ds p c update Hp Hz) as (h1 & z1 & Hd & Hz1 & Hh & _ & Hi & Hdom).
  { intros l Hl. rewrite <-(left_at_ins z ds p c) by done. by apply Hu. }
  destruct (unlinked_notin _ _ _ _ _ Hp Hz) as [Hn1 Hn2]. exists h1, z1. unfold owned in Ho. rewrite Hh.
  split_and!; try done. intros q. rewrite Hdom, Ho, fmap_ins, elem_of_ins. naive_solver.
Qed.

Lemma delete_fmap {A B} (f : A -> B) (l : list A) p : f <$> delete p l = delete p (f <$> l).
Proof using. rewrite !delete_take_drop, fmap_app. by rewrite fmap_take, fmap_drop. Qed.

Lemma zslDelete_state h z l s e : zstate h z l -> num s ->
  exists h' z', zslDelete h z s e false = Some (h', z', if z_find (s, e) l then 1 else 0, None) /\
    zstate h' z' (match z_find (s, e) l with Some p => delete p l | None => l end).
Proof using.
  intros (cs & Hz & Ho & <-) Hs. destruct (zsl_seek_spec h z cs s e Hz Hs) as (y & update & Hd & Hu & Hm).
  unfold zslDelete. rewrite Hd. bnd. rewrite Hm. bnd. destruct (z_find (s, e) (c_key <$> cs)) as [p|] eqn:Ef; bnd; cycle 1.
  { exists h, z. split; [done|]. by exists cs. }
  destruct (z_find_pos _ _ _ Ef) as (-> & a & Ha & _). set (p := pos_of (s, e) (c_key <$> cs)) in *.
  rewrite list_lookup_fmap in Ha. destruct (cs !! p) as [c|] eqn:Ec; [|done]. cbn [fmap option_fmap option_map].
  destruct (remove_found h z cs p c update Hz Ho Ec Hu) as (h1 & z1 & -> & Hz1 & Hh & _ & Hn1 & Hn2 & Hdom). bnd.
  destruct (zslFreeNode_spec h1 z1 _ (c_ptr c) Hz1 Hdom Hn1 Hn2) as (-> & Hz2 & Ho2). bnd.
  eexists _, _. split; [done|]. exists (delete p cs). split_and!; [done|done|by rewrite delete_fmap].
Qed.

(** Where a key goes when the one at [p] has been taken out. *)
Lemma prefix_len_at {A} (f : A -> bool) l p : (p <= length l)%nat -> (forall k a, (k < p)%nat -> l !! k = Some a -> f a = true) ->
  (forall a, l !! p = Some a -> f a = false) -> prefix_len f l = p.
Proof using.
  revert l. induction p as [|p IH]; intros [|x l] Hp H1 H2; cbn in *; try done; [by rewrite (H2 x)|lia|].
  rewrite (H1 0%nat x) by (done || lia). f_equal. apply IH; [lia| |done]. intros k a Hk Ha. apply (H1 (S k)); [lia|done].
Qed.

Lemma ins_replace {A} (l : list A) p x y : l !! p = Some x -> ins p y (delete p l) = <[p := y]> l.
Proof using.
  intros Hx. pose proof (lookup_lt_Some _ _ _ Hx). apply list_eq. intros i. destruct (lt_eq_lt_dec i p) as [[Hi | ->] | Hi].
  - rewrite ins_lt by (rewrite ?length_delete by eauto; lia). rewrite list_lookup_delete_lt, list_lookup_insert_ne by lia. done.
  - rewrite ins_at by (rewrite length_delete by eauto; lia). by rewrite list_lookup_insert_eq.
  - destruct i as [|i]; [lia|]. rewrite ins_gt by (rewrite ?length_delete by eauto; lia).
    rewrite list_lookup_delete_ge, list_lookup_insert_ne by lia. done.
Qed.

(** A new score that stays between its neighbours keeps the place. *)
Lemma update_in_place l p cur new e : ksorted l -> (forall k a, l !! k = Some a -> num a.1) -> num new -> l !! p = Some (cur, e) ->
  (forall a, (0 < p)%nat -> l !! (p - 1)%nat = Some a -> SFltb a.1 new = true) ->
  (forall a, l !! S p = Some a -> SFltb new a.1 = true) ->
  z_insert (new, e) (delete p l) = <[p := (new, e)]> l /\ ksorted (<[p := (new, e)]> l).
Proof using.
  intros Hl Hn Hnew Hp Hbef Haft. pose proof (lookup_lt_Some _ _ _ Hp) as Hlt.
  assert (forall k a, (k < p)%nat -> l !! k = Some a -> kltb a (new, e) = true) as H1.
  { intros k a Hk Ha. destruct (lookup_lt_is_Some_2 l (p - 1)) as [b Hb]; [lia|]. pose proof (Hbef b ltac:(lia) Hb) as Hbn.
    assert (kltb b (new, e) = true) as Hbk by (unfold kltb; cbn; by rewrite Hbn). destruct (decide (k = p - 1)%nat) as [-> | Hne]; [congruence|].
    eapply (kltb_trans a b); [eauto|eauto|done| |done]. eapply (Hl k (p - 1)%nat); [lia|done|done]. }
  assert (forall k a, (p < k)%nat -> l !! k = Some a -> kltb (new, e) a = true) as H2.
  { intros k a Hk Ha. destruct (lookup_lt_is_Some_2 l (S p)) as [b Hb]; [apply lookup_lt_Some in Ha; lia|]. pose proof (Haft b Hb) as Hbn.
    assert (kltb (new, e) b = true) as Hbk by (unfold kltb; cbn; by rewrite Hbn). destruct (decide (k = S p)%nat) as [-> | Hne]; [congruence|].
    eapply (kltb_trans _ b); [done|eauto|eauto|done|]. eapply (Hl (S p) k); [lia|done|done]. }
  split.
  - unfold z_insert, pos_of. rewrite (prefix_len_at _ _ p); [by eapply ins_replace|rewrite length_delete by eauto; lia|..].
    + intros k a Hk Ha. rewrite list_lookup_delete_lt in Ha by lia. by eapply H1.
    + intros a Ha. rewrite list_lookup_delete_ge in Ha by lia. apply kltb_asym; [done|eauto|]. eapply H2; [|done]. lia.
  - intros i j a b Hij Ha Hb. destruct (decide (i = p)) as [-> | Hi], (decide (j = p)) as [-> | Hj]; try lia;
      rewrite ?list_lookup_insert_eq, ?list_lookup_insert_ne in * by done; simplify_eq; unfold klt in *;
      [by eapply H2|by eapply H1|by eapply (Hl i j)].
Qed.

Lemma level_at_same cs ds k l : c_ptr <$> cs = c_ptr <$> ds -> c_height <$> cs = c_height <$> ds -> level_at cs k l = level_at ds k l.
Proof using.
  intros Hp Hh. unfold level_at. rewrite !fmap_drop, Hh.
  destruct (next_from _ _) as [d|]; [by rewrite <-!list_lookup_fmap, Hp|]. by rewrite <-(length_fmap c_height cs), Hh, length_fmap.
Qed.

(** Changing the score of a node where it is. *)
Lemma zrep_rescore h z cs p c new : zrep h z cs -> cs !! p = Some c -> num new ->
  ksorted (<[p := (new, (c_key c).2)]> (c_key <$> cs)) ->
  exists h', set_score h (c_ptr c) new = Some h' /\
    zrep h' z (<[p := mkCell (c_ptr c) (new, (c_key c).2) (c_height c)]> cs) /\ (forall q, is_Some (h' !! q) <-> is_Some (h !! q)).
Proof using.
  intros Hz Hc Hnew Hs. pose proof Hz as [H1 H2 H3 H4 H5 H6 H7 H8 H9 H10 H11]. pose proof (lookup_lt_Some _ _ _ Hc) as Hlt.
  destruct (info_node _ _ _ _ _ _ (H2 _ _ Hc)) as (n & Hn & He & Hsc & Hb & Hln). unfold set_score. rewrite Hn. bnd.
  set (h' := <[c_ptr c := _]> h). exists h'. split; [done|]. set (d := mkCell _ _ _). set (ds := <[p := d]> cs).
  assert (c_ptr <$> ds = c_ptr <$> cs) as Ep by (unfold ds; rewrite list_fmap_insert; apply list_insert_id; by rewrite list_lookup_fmap, Hc).
  assert (c_height <$> ds = c_height <$> cs) as Eh by (unfold ds; rewrite list_fmap_insert; apply list_insert_id; by rewrite list_lookup_fmap, Hc).
  assert (forall q, h' !! q = if decide (q = c_ptr c) then Some (mkNode (ele n) new (backward n) (levels n)) else h !! q) as Hh'.
  { intros q. unfold h'. destruct (decide (q = c_ptr c)) as [-> | Hq]; [by rewrite lookup_insert_eq|by rewrite lookup_insert_ne]. }
  assert (forall q l, get_level h' q l = get_level h q l) as Hg.
  { intros q l. unfold get_level. rewrite Hh'. destruct (decide _) as [-> | _]; [by rewrite Hn|done]. }
  assert (forall k, ptr_at z ds k = ptr_at z cs k) as Epa by (intros [|k]; cbn; [done|]; by rewrite <-!list_lookup_fmap, Ep).
  assert (forall k, height_at z ds k = height_at z cs k) as Eha by (intros [|k]; cbn; [done|]; by rewrite <-!list_lookup_fmap, Eh).
  assert (forall k, prev_ptr ds k = prev_ptr cs k) as Epp by (intros [|k]; cbn; [done|]; by rewrite <-!list_lookup_fmap, Ep).
  split; [constructor; try done|].
  - destruct H1 as (s & b & H1). exists s, b. unfold info. rewrite Hh', decide_False; [done|]. intros Hx.
    assert (S p = O) as ?; [|done]. eapply (ptr_at_inj h z cs); [done|cbn; by rewrite Hc|cbn; by rewrite Hx].
  - intros k c' Hk. rewrite Epp. destruct (decide (k = p)) as [-> | Hne].
    + unfold ds in Hk. rewrite list_lookup_insert_eq in Hk by done. injection Hk as <-. unfold info. rewrite Hh', decide_True by done.
      cbn. by rewrite He, Hb, Hln.
    + unfold ds in Hk. rewrite list_lookup_insert_ne in Hk by done. unfold info. rewrite Hh', decide_False; [by apply H2|].
      intros Hx. assert (S k = S p) as ?; [|lia]. eapply (ptr_at_inj h z cs); [done|cbn; by rewrite Hk|cbn; by rewrite Hc, Hx].
  - intros k q l Hq Hl. rewrite Hg, (level_at_same ds cs) by done. apply H3; [by rewrite <-Epa|by rewrite <-Eha].
  - intros l Hl. rewrite Hg. by apply H4.
  - by rewrite Ep.
  - rewrite H6, <-!fmap_last. by rewrite Ep.
  - rewrite H7. unfold ds. by rewrite length_insert.
  - apply Forall_insert; [done|]. cbn. by apply (zrep_height _ _ _ _ _ Hz) in Hc.
  - by apply Forall_insert.
  - unfold ds. rewrite list_fmap_insert. done.
  - intros q. rewrite Hh'. destruct (decide _) as [-> | _]; [rewrite Hn; split; eauto|done].
Qed.

(** The scores of the neighbours, as zslUpdateScore reads them. *)
Lemma neighbours h z cs p c new : zrep h z cs -> cs !! p = Some c ->
  (match prev_ptr cs p with None => Some true | Some b => bn ← h !! b; Some (SFltb (score bn) new) end) =
    Some (match p with O => true | S p' => default true ((fun d => SFltb (c_key d).1 new) <$> cs !! p') end) /\
  (match c_ptr <$> cs !! S p with None => Some true | Some f => fn ← h !! f; Some (SFltb new (score fn)) end) =
    Some (default true ((fun d => SFltb new (c_key d).1) <$> cs !! S p)).
Proof using.
  intros Hz Hc. pose proof (lookup_lt_Some _ _ _ Hc). split.
  - destruct p as [|p]; [done|]. cbn. destruct (lookup_lt_is_Some_2 cs p) as [d Hd]; [lia|]. rewrite Hd. cbn.
    destruct (info_node _ _ _ _ _ _ (z_nodes _ _ _ Hz _ _ Hd)) as (n & -> & _ & Hs & _). bnd. by rewrite Hs.
  - destruct (cs !! S p) as [d|] eqn:Hd; [|done]. cbn.
    destruct (info_node _ _ _ _ _ _ (z_nodes _ _ _ Hz _ _ Hd)) as (n & -> & _ & Hs & _). bnd. by rewrite Hs.
Qed.

Lemma zslUpdateScore_state h z l heads cur e new p : zstate h z l -> num cur -> num new -> z_find (cur, e) l = Some p ->
  (forall a, a ∈ delete p l -> keqb a (new, e) = false) ->
  exists h' z' x, zslUpdateScore junk junk_level h z heads cur e new = Some (h', z', x) /\
    zstate h' z' (z_insert (new, e) (delete p l)) /\ key_of h' x = Some (new, e).
Proof using.
  intros (cs & Hz & Ho & <-) Hcur Hnew Hf Hfree. destruct (zsl_seek_spec h z cs cur e Hz Hcur) as (y & update & Hd & Hu & Hm).
  unfold zslUpdateScore. rewrite Hd. bnd. rewrite Hm, Hf. bnd.
  destruct (z_find_pos _ _ _ Hf) as (-> & a & Ha & Hk). set (p := pos_of (cur, e) (c_key <$> cs)) in *.
  pose proof (zrep_keys _ _ _ Hz _ _ Ha) as Hna. apply keqb_spec in Hk as [_ He]; [|done|done]. cbn in He.
  pose proof Ha as Ha'. rewrite list_lookup_fmap in Ha. destruct (cs !! p) as [c|] eqn:Ec; [|done]. injection Ha as <-. cbn [fmap option_fmap option_map]. bnd.
  destruct (info_node _ _ _ _ _ _ (z_nodes _ _ _ Hz _ _ Ec)) as (n & Hn & Hne & _ & Hnb & _). rewrite Hn. bnd.
  assert (get_level h (c_ptr c) 0 = Some (level_at cs (S p) 0)) as ->.
  { apply (z_levels _ _ _ Hz); cbn; rewrite Ec; [done|]. cbn. by apply (zrep_height _ _ _ _ _ Hz) in Ec as [? _]. }
  bnd. rewrite Hnb, (level_at_0 h z) by done. destruct (neighbours h z cs p c new Hz Ec) as [-> ->]. bnd.
  set (bef := match p with O => true | S p' => _ end). set (aft := default true _). destruct (bef && aft) eqn:Eb.
  - apply andb_true_iff in Eb as [Eb Ea]. rewrite (surjective_pairing (c_key c)), He in Ha'.
    destruct (update_in_place (c_key <$> cs) p (c_key c).1 new e (z_sorted _ _ _ Hz) (zrep_keys _ _ _ Hz) Hnew Ha') as [Hins Hsrt].
    { intros b Hp0 Hb. unfold bef in Eb. destruct p as [|p']; [lia|]. replace (S p' - 1)%nat with p' in Hb by lia.
      rewrite list_lookup_fmap in Hb. destruct (cs !! p'); [|done]. injection Hb as <-. done. }
    { intros b Hb. unfold aft in Ea. rewrite list_lookup_fmap in Hb. destruct (cs !! S p); [|done]. injection Hb as <-. done. }
    rewrite <-He in Hsrt. destruct (zrep_rescore h z cs p c new Hz Ec Hnew Hsrt) as (h' & -> & Hz' & Hdom). bnd.
    exists h', z, (c_ptr c). split; [done|]. split.
    + eexists. split; [done|]. split; [|rewrite Hins, list_fmap_insert; cbn; by rewrite He].
      intros q. rewrite Hdom, list_fmap_insert. unfold owned in Ho. rewrite Ho. cbn.
      rewrite list_insert_id; [done|]. by rewrite list_lookup_fmap, Ec.
    + rewrite <-He. eapply (zstate_key _ _ _ p (mkCell (c_ptr c) (new, (c_key c).2) (c_height c)) Hz').
      apply list_lookup_insert_eq. by eapply lookup_lt_Some.
  - destruct (remove_found h z cs p c update Hz Ho Ec Hu) as (h1 & z1 & -> & Hz1 & Hh & Hi1 & Hn1 & Hn2 & Hdom). bnd.
    rewrite (z_nodes _ _ _ Hz _ _ Ec) in Hi1. destruct (info_node _ _ _ _ _ _ Hi1) as (n1 & Hn1' & He1 & _). rewrite Hn1'. bnd.
    rewrite He1. bnd. rewrite He.
    destruct (zslInsert_spec junk junk_level h1 z1 (delete p cs) heads new e Hz1 Hnew) as (h2 & z2 & x & lv & -> & Hz2 & Hh2 & Hfr & Hd2).
    { intros d Hdd. apply Hfree. rewrite <-delete_fmap. apply list_elem_of_fmap. eauto. }
    bnd. set (q := prefix_len _ _) in Hz2. assert (c_ptr c <> x) as Hcx by congruence.
    destruct (zslFreeNode_spec h2 z2 _ (c_ptr c) Hz2) as (-> & Hz3 & Ho3).
    { intros r. rewrite Hd2, Hdom, Hh2, fmap_ins, elem_of_ins. cbn. naive_solver. } { by rewrite Hh2. }
    { rewrite fmap_ins, elem_of_ins. cbn. naive_solver. }
    bnd. eexists _, _, x. split; [done|]. split.
    + eexists. split; [done|]. split; [done|]. rewrite fmap_ins. unfold z_insert, pos_of. rewrite <-delete_fmap. done.
    + apply (zstate_key _ _ _ q (mkCell x (new, e) lv) Hz3). apply ins_at. unfold q. rewrite <-(length_fmap c_key (delete p cs)). apply prefix_len_le.
Qed.

(** ** Ranks *)

Lemma node_upto_spec h z cs s e : zrep h z cs -> num s -> forall k c n, cs !! k = Some c -> h !! c_ptr c = Some n ->
  node_upto s e n (Z.of_nat (S k)) = Some (S k <=? prefix_len (fun a => negb (kltb (s, e) a)) (c_key <$> cs))%nat.
Proof using.
  intros Hz Hs k c n Hc Hn. destruct (zrep_node _ _ _ _ _ _ Hz Hc Hn) as (He & Hsc & _).
  rewrite <-(upto_pos _ (z_sorted _ _ _ Hz) (zrep_keys _ _ _ Hz) (s, e) Hs k (c_key c)) by (by rewrite list_lookup_fmap, Hc).
  pose proof (Forall_lookup_1 _ _ _ _ (z_num _ _ _ Hz) Hc) as Hnc. cbn in Hnc. unfold node_upto. rewrite He, Hsc. bnd.
  destruct (kltb_total (c_key c) (s, e)) as [H | [H | H]]; [done|done|..].
  - rewrite (kltb_asym (c_key c) (s, e) Hnc Hs H). unfold kltb in H. cbn in *. destruct (SFltb _ s); [done|]. cbn in H.
    apply andb_true_iff in H as [-> H]. f_equal. lia.
  - destruct (keqb_kltb (c_key c) (s, e) Hnc Hs H) as [_ ->]. unfold keqb in H. apply andb_true_iff in H as [H1 H2]. cbn in *. rewrite H1.
    destruct (SFltb _ s); [done|]. f_equal. cbn. lia.
  - pose proof (kltb_asym (s, e) (c_key c) Hs Hnc H) as Ha. rewrite H. cbn. unfold kltb in Ha. cbn in Ha. apply orb_false_iff in Ha as [-> Ha].
    destruct (SFeqb _ s) eqn:Eq; [|done]. cbn in Ha. f_equal. apply kltb_spec in H as [H | [H1 H2]]; [..|done|done]; cbn in *.
    + apply SFeqb_lex in Eq; [|done|done]. rewrite Eq in H. by apply lex3_irrefl in H.
    + apply sdscmp_sym in H2. lia.
Qed.

(** The key of the node a search returns. *)
Definition out_key (h : heap) (x : option ptr) : option (option key) :=
  match x with None => Some None | Some p => k ← key_of h p; Some (Some k) end.

Lemma out_key_cell h z cs k c : zrep h z cs -> cs !! k = Some c -> out_key h (Some (c_ptr c)) = Some (Some (c_key c)).
Proof using. intros Hz Hc. cbn. by rewrite (zstate_key _ _ _ _ _ Hz Hc). Qed.

Lemma zslGetRank_state h z l s e : zstate h z l -> num s ->
  zslGetRank h z s e = Some (match z_find (s, e) l with Some p => Z.of_nat (S p) | None => 0 end).
Proof using.
  intros (cs & Hz & Ho & <-) Hs. set (l := c_key <$> cs). set (pos := prefix_len (fun a => negb (kltb (s, e) a)) l).
  assert (pos <= length cs)%nat as Hpos by (rewrite <-(length_fmap c_key cs); apply prefix_len_le).
  pose proof (z_sorted _ _ _ Hz) as Hsort. pose proof (zrep_keys _ _ _ Hz) as Hnum. fold l in Hsort, Hnum.
  (** the node before [pos] is the only candidate *)
  assert (forall k c, cs !! k = Some c -> keqb (c_key c) (s, e) = true -> S k = pos /\ z_find (s, e) l = Some k) as Hfound.
  { intros k c Hc Hk. assert (l !! k = Some (c_key c)) as Hlk by (unfold l; by rewrite list_lookup_fmap, Hc).
    split; [|apply z_find_spec; eauto]. pose proof (upto_pos l Hsort Hnum (s, e) Hs k _ Hlk) as H1. fold pos in H1.
    destruct (keqb_kltb (c_key c) (s, e)) as [Ha Hb]; [by eapply Hnum|done|done|]. rewrite Hb in H1. symmetry in H1. apply Nat.leb_le in H1.
    destruct (decide (S k = pos)) as [|Hne]; [done|]. destruct (lookup_lt_is_Some_2 l (S k)) as [b Hb'].
    { unfold l. rewrite length_fmap. lia. }
    pose proof (upto_pos l Hsort Hnum (s, e) Hs (S k) _ Hb') as H2. fold pos in H2. rewrite (proj2 (Nat.leb_le _ _)) in H2 by lia.
    pose proof (Hsort k (S k) _ _ ltac:(lia) Hlk Hb') as Hlt. unfold klt in Hlt. assert (kltb (s, e) b = true) as Hx; [|by rewrite Hx in H2].
    rewrite kltb_spec in Hlt |- * by eauto. apply keqb_spec in Hk as [E1 E2]; [|by eapply Hnum|done]. cbn in *. by rewrite <-E1, <-E2. }
  unfold zslGetRank. assert (forall i x k, (k <= pos)%nat -> ptr_at z cs k = Some x -> (i <= height_at z cs k)%nat -> (i <= zlevel z)%nat ->
    (i = O -> k = pos) -> (k = pos -> (0 < k)%nat -> forall c, cs !! (k - 1)%nat = Some c -> i = O -> keqb (c_key c) (s, e) = false) ->
    rank_loop h s e i x (Z.of_nat k) = Some (match z_find (s, e) l with Some p => Z.of_nat (S p) | None => 0 end)) as Hloop; cycle 1.
  { apply (Hloop (zlevel z) (header z) 0%nat); try done; try lia; pose proof (z_level _ _ _ Hz); lia. }
  induction i as [|i IH]; intros x k Hk Hx Hh Hl H0 Hlast.
  - cbn [rank_loop]. f_equal. destruct (z_find (s, e) l) as [p|] eqn:Ef; [|done]. exfalso.
    apply z_find_spec in Ef as (a & Ha & Hka); [|done|done|done]. unfold l in Ha. rewrite list_lookup_fmap in Ha.
    destruct (cs !! p) as [c|] eqn:Ec; [|done]. injection Ha as <-. destruct (Hfound p c Ec Hka) as [Hp _]. specialize (H0 eq_refl).
    rewrite (Hlast H0 ltac:(lia) c) in Hka; [done| |done]. by replace (k - 1)%nat with p by lia.
  - destruct (walk_spec h z cs Hz _ pos Hpos (node_upto_spec h z cs s e Hz Hs) (size h) i x k Hk Hx) as (y & Hy & Hw);
      [lia|pose proof (zrep_size _ _ _ Hz); lia|].
    cbn [rank_loop]. rewrite Hw. bnd. set (k' := prev_at i (c_height <$> cs) pos) in *.
    assert (k' <= pos)%nat as Hk' by apply prev_at_le. assert (i < height_at z cs k')%nat as Hh' by (apply (prev_at_level h); [done|lia]).
    assert (i = O -> k' = pos) as Hk0 by (intros ->; by apply (prev_at_0 h z)).
    destruct k' as [|k''] eqn:Ek'.
    + cbn in Hy. injection Hy as <-. destruct (z_header _ _ _ Hz) as (sc & b & Hi). destruct (info_node _ _ _ _ _ _ Hi) as (n & Hn & He & _). rewrite Hn. bnd. rewrite He.
      apply (IH (header z) 0%nat); try done; lia.
    + cbn in Hy. destruct (cs !! k'') as [c|] eqn:Ec; [|done]. injection Hy as <-.
      destruct (info_node _ _ _ _ _ _ (z_nodes _ _ _ Hz _ _ Ec)) as (n & Hn & He & Hsc & _). rewrite Hn. bnd. rewrite He, Hsc.
      change (SFeqb (c_key c).1 s && (sdscmp (c_key c).2 e =? 0)) with (keqb (c_key c) (s, e)). destruct (keqb (c_key c) (s, e)) eqn:Ekq.
      * by destruct (Hfound k'' c Ec Ekq) as [_ ->].
      * apply (IH (c_ptr c) (S k'')); try done; try lia; [cbn; by rewrite Ec|].
        intros _ _ c' Hc' _. replace (S k'' - 1)%nat with k'' in Hc' by lia. congruence.
Qed.

Lemma zslGetElementByRank_state h z l r : zstate h z l -> 1 <= r ->
  exists x, zslGetElementByRank h z r = Some x /\ out_key h x = Some (l !! Z.to_nat (r - 1)).
Proof using.
  intros (cs & Hz & Ho & <-) Hr. set (pos := (Z.to_nat r `min` length cs)%nat). assert (pos <= length cs)%nat as Hpos by lia.
  assert (forall k c n, cs !! k = Some c -> h !! c_ptr c = Some n -> rank_upto r n (Z.of_nat (S k)) = Some (S k <=? pos)%nat) as Hgo.
  { intros k c n Hc _. apply lookup_lt_Some in Hc. unfold rank_upto. f_equal. apply eq_true_iff_eq. rewrite Z.leb_le, Nat.leb_le. lia. }
  assert (forall i x k, (k <= pos)%nat -> ptr_at z cs k = Some x -> (i <= height_at z cs k)%nat -> (i <= zlevel z)%nat ->
    (i = O -> k = pos /\ Z.of_nat k <> r) ->
    exists y, by_rank_loop h r i x (Z.of_nat k) = Some y /\
      (if decide (Z.to_nat r <= length cs)%nat then y = ptr_at z cs (Z.to_nat r) else y = None)) as Hloop.
  { induction i as [|i IH]; intros x k Hk Hx Hh Hl H0.
    - exists None. split; [done|]. destruct (H0 eq_refl) as [-> Hne]. rewrite decide_False; [done|]. lia.
    - destruct (walk_spec h z cs Hz _ pos Hpos Hgo (size h) i x k Hk Hx) as (y & Hy & Hw); [lia|pose proof (zrep_size _ _ _ Hz); lia|].
      cbn [by_rank_loop]. rewrite Hw. bnd. set (k' := prev_at i (c_height <$> cs) pos) in *.
      assert (k' <= pos)%nat as Hk' by apply prev_at_le. assert (i < height_at z cs k')%nat as Hh' by (apply (prev_at_level h); [done|lia]).
      destruct (Z.of_nat k' =? r) eqn:Ek.
      + exists (Some y). split; [done|]. rewrite decide_True by lia. rewrite <-Hy. f_equal. lia.
      + apply IH; try done; [lia|lia|]. intros ->. unfold k' in *. rewrite (prev_at_0 h z) in * by done. split; [done|lia]. }
  destruct (Hloop (zlevel z) (header z) 0%nat) as (y & Hy & Hd); [lia|done|done|done|pose proof (z_level _ _ _ Hz); lia|].
  exists y. unfold zslGetElementByRank. split; [done|]. destruct (decide _) as [Hle | Hgt].
  - replace (Z.to_nat r) with (S (Z.to_nat (r - 1))) in Hd by lia. cbn in Hd. rewrite list_lookup_fmap.
    destruct (lookup_lt_is_Some_2 cs (Z.to_nat (r - 1))) as [c Hc]; [lia|]. rewrite Hc in *. cbn in Hd. subst y.
    by rewrite (out_key_cell _ _ _ _ _ Hz Hc).
  - subst y. rewrite lookup_ge_None_2; [done|rewrite length_fmap; lia].
Qed.

(** ** Ranges *)

Definition in_range (r : zrangespec) (k : key) : bool := zslValueGteMin k.1 r && zslValueLteMax k.1 r.
Definition num_range (r : zrangespec) : Prop := num (rmin r) /\ num (rmax r).

Lemma SFltb_trans x y w : num x -> num y -> num w -> SFltb x y = true -> SFltb w y = false -> SFltb x w = true.
Proof using.
  intros Hx Hy Hw H1 H2. apply SFltb_lex in H1; [|done|done]. apply SFltb_lex; [done|done|].
  destruct (lex3_total (rank3 y) (rank3 w)) as [H | [H | H]].
  - by eapply lex3_trans.
  - by rewrite <-H.
  - apply SFltb_lex in H; [congruence|done|done].
Qed.

Lemma gte_mono r a b : num_range r -> num a -> num b -> SFltb b a = false -> zslValueGteMin a r = true -> zslValueGteMin b r = true.
Proof using.
  intros [Hmi _] Ha Hb Hab. unfold zslValueGteMin. destruct (minex r).
  - intros H. by apply (SFltb_trans _ a b).
  - rewrite !SFleb_lex by done. rewrite !negb_true_iff. intros H. apply not_true_is_false. intros Hx.
    pose proof (SFltb_trans b (rmin r) a Hb Hmi Ha Hx H). congruence.
Qed.

Lemma SFltb_trans' x y w : num x -> num y -> num w -> SFltb y x = false -> SFltb y w = true -> SFltb x w = true.
Proof using.
  intros Hx Hy Hw H1 H2. apply SFltb_lex in H2; [|done|done]. apply SFltb_lex; [done|done|].
  destruct (lex3_total (rank3 x) (rank3 y)) as [H | [H | H]].
  - by eapply lex3_trans.
  - by rewrite H.
  - apply SFltb_lex in H; [congruence|done|done].
Qed.

Lemma lte_mono r a b : num_range r -> num a -> num b -> SFltb b a = false -> zslValueLteMax b r = true -> zslValueLteMax a r = true.
Proof using.
  intros [_ Hma] Ha Hb Hab. unfold zslValueLteMax. destruct (maxex r).
  - intros H. by apply (SFltb_trans' a b).
  - rewrite !SFleb_lex by done. rewrite !negb_true_iff. intros H. apply not_true_is_false. intros Hx.
    pose proof (SFltb_trans (rmax r) a b Hma Ha Hb Hx Hab). congruence.
Qed.

(** A block of a sequence. *)
Lemma filter_block {A} (f : A -> bool) (l : list A) a b :
  (forall k x, l !! k = Some x -> f x = (a <=? k)%nat && (k <? b)%nat) ->
  List.filter f l = take (b - a) (drop a l) /\ List.filter (fun x => negb (f x)) l = take a l ++ drop (Nat.max a b) l.
Proof using.
  revert a b. induction l as [|x l IH]; intros a b Hf; [by rewrite !take_nil, !drop_nil, take_nil|].
  destruct (IH (a - 1)%nat (b - 1)%nat) as [IH1 IH2].
  { intros k y Hk. rewrite (Hf (S k) y Hk). apply eq_true_iff_eq. rewrite !andb_true_iff, !Nat.leb_le, !Nat.ltb_lt. lia. }
  cbn [List.filter]. rewrite IH1, IH2, (Hf 0%nat x eq_refl). destruct a as [|a], b as [|b]; cbn [Nat.leb andb negb Nat.max Nat.sub take drop app].
  - rewrite (proj2 (Nat.ltb_ge 0 0)) by lia. cbn [negb take]. done.
  - rewrite (proj2 (Nat.ltb_lt 0 (S b))) by lia. cbn [negb]. by rewrite !Nat.sub_0_r.
  - rewrite !Nat.sub_0_r, Nat.max_0_r. by rewrite Nat.sub_0_l.
  - by rewrite !Nat.sub_0_r.
Qed.

Section ranges.
Context (r : zrangespec) (Hr : num_range r).
Definition lo (l : list key) : nat := prefix_len (fun k => negb (zslValueGteMin k.1 r)) l.
Definition hi (l : list key) : nat := prefix_len (fun k => zslValueLteMax k.1 r) l.

Context (l : list key) (Hl : ksorted l) (Hn : forall k a, l !! k = Some a -> num a.1).

Lemma lo_spec k a : l !! k = Some a -> negb (zslValueGteMin a.1 r) = (S k <=? lo l)%nat.
Proof using Hr Hl Hn.
  apply (prefix_len_spec (fun k => negb (zslValueGteMin k.1 r))). intros i j x y Hij Hx Hy. rewrite !negb_true_iff. intros H.
  apply not_true_is_false. intros Hg. pose proof (gte_mono r x.1 y.1 Hr (Hn _ _ Hx) (Hn _ _ Hy) (scores_sorted l Hl Hn i j x y Hij Hx Hy) Hg). congruence.
Qed.
Lemma hi_spec k a : l !! k = Some a -> zslValueLteMax a.1 r = (S k <=? hi l)%nat.
Proof using Hr Hl Hn.
  apply (prefix_len_spec (fun k => zslValueLteMax k.1 r)). intros i j x y Hij Hx Hy H.
  exact (lte_mono r x.1 y.1 Hr (Hn _ _ Hx) (Hn _ _ Hy) (scores_sorted l Hl Hn i j x y Hij Hx Hy) H).
Qed.

Lemma in_range_spec k a : l !! k = Some a -> in_range r a = (lo l <=? k)%nat && (k <? hi l)%nat.
Proof using Hr Hl Hn.
  intros Ha. unfold in_range. rewrite (hi_spec k a Ha). pose proof (lo_spec k a Ha) as H. f_equal.
  apply eq_true_iff_eq. rewrite Nat.leb_le. destruct (zslValueGteMin a.1 r); cbn [negb] in H; symmetry in H.
  - apply Nat.leb_gt in H. split; [lia|done].
  - apply Nat.leb_le in H. split; [done|lia].
Qed.

Lemma filter_range : List.filter (in_range r) l = take (hi l - lo l) (drop (lo l) l) /\
  List.filter (fun k => negb (in_range r k)) l = take (lo l) l ++ drop (Nat.max (lo l) (hi l)) l.
Proof using Hr Hl Hn. apply filter_block. apply in_range_spec. Qed.

(** A range with its bounds in the wrong order. *)
Lemma empty_range : SFltb (rmax r) (rmin r) || (SFeqb (rmin r) (rmax r) && (minex r || maxex r)) = true -> (hi l <= lo l)%nat.
Proof using Hr Hl Hn.
  intros He. destruct (decide (hi l <= lo l)%nat) as [|Hlt]; [done|]. exfalso.
  assert (hi l <= length l)%nat as Hh by apply prefix_len_le. destruct (lookup_lt_is_Some_2 l (lo l)) as [a Ha]; [lia|].
  pose proof (in_range_spec _ _ Ha) as Hin. rewrite (proj2 (Nat.leb_le _ _)), (proj2 (Nat.ltb_lt _ _)) in Hin by lia.
  apply andb_true_iff in Hin as [H1 H2]. destruct Hr as [Hmi Hma]. pose proof (Hn _ _ Ha) as Hna. unfold zslValueGteMin, zslValueLteMax in *.
  rewrite !SFleb_lex in * by done. apply orb_true_iff in He as [He | He].
  - assert (SFltb a.1 (rmin r) = false) as H1'.
    { destruct (minex r); [|by apply negb_true_iff]. apply not_true_is_false. rewrite SFltb_lex in * by done. by apply lex3_asym. }
    pose proof (SFltb_trans _ _ _ Hma Hmi Hna He H1') as H3. destruct (maxex r); [|by rewrite H3 in H2].
    rewrite SFltb_lex in * by done. by apply lex3_asym in H3.
  - apply andb_true_iff in He as [He Hx]. apply SFeqb_lex in He; [|done|done].
    destruct (minex r), (maxex r); try done; rewrite ?negb_true_iff in *; rewrite <-?not_true_iff_false, ?SFltb_lex in * by done; rewrite ?He in *; eauto using lex3_asym.
    by apply lex3_asym in H2.
Qed.
End ranges.

Lemma below_min_spec h z cs r : zrep h z cs -> num_range r -> forall k c n, cs !! k = Some c -> h !! c_ptr c = Some n ->
  below_min r n (Z.of_nat (S k)) = Some (S k <=? lo r (c_key <$> cs))%nat.
Proof using.
  intros Hz Hr k c n Hc Hn. destruct (zrep_node _ _ _ _ _ _ Hz Hc Hn) as (_ & Hs & _). unfold below_min. rewrite Hs. f_equal.
  apply lo_spec; [done|apply (z_sorted _ _ _ Hz)|apply (zrep_keys _ _ _ Hz)|by rewrite list_lookup_fmap, Hc].
Qed.

Lemma upto_max_spec h z cs r : zrep h z cs -> num_range r -> forall k c n, cs !! k = Some c -> h !! c_ptr c = Some n ->
  upto_max r n (Z.of_nat (S k)) = Some (S k <=? hi r (c_key <$> cs))%nat.
Proof using.
  intros Hz Hr k c n Hc Hn. destruct (zrep_node _ _ _ _ _ _ Hz Hc Hn) as (_ & Hs & _). unfold upto_max. rewrite Hs. f_equal.
  apply hi_spec; [done|apply (z_sorted _ _ _ Hz)|apply (zrep_keys _ _ _ Hz)|by rewrite list_lookup_fmap, Hc].
Qed.

Lemma lo_le r (cs : list cell) : (lo r (c_key <$> cs) <= length cs)%nat.
Proof using. rewrite <-(length_fmap c_key cs). apply prefix_len_le. Qed.
Lemma hi_le r (cs : list cell) : (hi r (c_key <$> cs) <= length cs)%nat.
Proof using. rewrite <-(length_fmap c_key cs). apply prefix_len_le. Qed.

(** Level 0 of the node at a position leads to the next one. *)
Lemma next_0 h z cs k y : zrep h z cs -> ptr_at z cs k = Some y -> exists lv, get_level h y 0 = Some lv /\ forward lv = c_ptr <$> cs !! k.
Proof using.
  intros Hz Hy. exists (level_at cs k 0). split; [|by apply (level_at_0 h z)]. apply (z_levels _ _ _ Hz); [done|].
  destruct k as [|p]; [apply (z_level _ _ _ Hz)|]. cbn in *. destruct (cs !! p) eqn:E; [|done]. cbn. by apply (zrep_height _ _ _ _ _ Hz) in E as [? _].
Qed.

Lemma zslIsInRange_spec h z cs r : zrep h z cs -> num_range r ->
  exists b, zslIsInRange h z r = Some b /\
    if (b : bool) then (lo r (c_key <$> cs) < length cs)%nat /\ (0 < hi r (c_key <$> cs))%nat
    else (hi r (c_key <$> cs) <= lo r (c_key <$> cs))%nat.
Proof using.
  intros Hz Hr. pose proof (z_sorted _ _ _ Hz) as Hs. pose proof (zrep_keys _ _ _ Hz) as Hn. pose proof (hi_le r cs). pose proof (lo_le r cs).
  unfold zslIsInRange. destruct (_ || _) eqn:E0; [exists false; split; [done|by apply empty_range]|].
  rewrite (z_tail _ _ _ Hz). destruct (last cs) as [c|] eqn:El; cbn [fmap option_fmap option_map]; cycle 1.
  { apply last_None in El. subst cs. exists false. done. }
  rewrite last_lookup in El. destruct (info_node _ _ _ _ _ _ (z_nodes _ _ _ Hz _ _ El)) as (n & -> & _ & Hsc & _). bnd. rewrite Hsc.
  pose proof (lookup_lt_Some _ _ _ El) as Hlen. pose proof (lo_spec r Hr (c_key <$> cs) Hs Hn (pred (length cs)) (c_key c)) as Hlo.
  rewrite list_lookup_fmap, El in Hlo. rewrite (Hlo eq_refl). replace (S (pred (length cs))) with (length cs) by lia.
  destruct (length cs <=? lo r (c_key <$> cs))%nat eqn:E1; [apply Nat.leb_le in E1; exists false; split; [done|lia]|apply Nat.leb_gt in E1].
  destruct (next_0 h z cs 0 (header z) Hz eq_refl) as (lv & -> & Hf). bnd. rewrite Hf.
  destruct (lookup_lt_is_Some_2 cs 0) as [d Hd]; [lia|]. rewrite Hd. cbn [fmap option_fmap option_map].
  destruct (info_node _ _ _ _ _ _ (z_nodes _ _ _ Hz _ _ Hd)) as (n' & -> & _ & Hsc' & _). bnd. rewrite Hsc'.
  rewrite (hi_spec r Hr (c_key <$> cs) Hs Hn 0 (c_key d)) by (by rewrite list_lookup_fmap, Hd).
  eexists. split; [done|]. destruct (1 <=? hi r (c_key <$> cs))%nat eqn:E2; [apply Nat.leb_le in E2; split; lia|apply Nat.leb_gt in E2; lia].
Qed.

Lemma zslFirstInRange_state h z l r : zstate h z l -> num_range r ->
  exists x, zslFirstInRange h z r = Some x /\ out_key h x = Some (head (List.filter (in_range r) l)).
Proof using.
  intros (cs & Hz & _ & <-) Hr. pose proof (z_sorted _ _ _ Hz) as Hs. pose proof (zrep_keys _ _ _ Hz) as Hn.
  rewrite (proj1 (filter_range r Hr _ Hs Hn)). set (l := c_key <$> cs) in *. unfold zslFirstInRange.
  destruct (zslIsInRange_spec h z cs r Hz Hr) as (b & -> & Hb). bnd. fold l in Hb. destruct b; cbn [negb]; cycle 1.
  { exists None. split; [done|]. by replace (hi r l - lo r l)%nat with 0%nat by lia. }
  destruct (zsl_search_spec h z cs Hz _ _ (lo_le r cs) (below_min_spec h z cs r Hz Hr)) as (y & u & -> & _ & Hy). bnd. fold l in Hy.
  destruct (next_0 h z cs _ y Hz Hy) as (lv & -> & Hf). bnd. rewrite Hf. destruct (lookup_lt_is_Some_2 cs (lo r l)) as [c Hc]; [lia|].
  rewrite Hc. cbn [fmap option_fmap option_map]. bnd.
  destruct (info_node _ _ _ _ _ _ (z_nodes _ _ _ Hz _ _ Hc)) as (n & -> & _ & Hsc & _). bnd. rewrite Hsc.
  assert (l !! lo r l = Some (c_key c)) as Hlc by (pose proof (list_lookup_fmap c_key cs (lo r l)) as Hx; by rewrite Hc in Hx).
  rewrite (hi_spec r Hr l Hs Hn _ _ Hlc). eexists. split; [done|].
  rewrite (drop_S _ _ _ Hlc). destruct (S (lo r l) <=? hi r l)%nat eqn:E; cbn [negb].
  - apply Nat.leb_le in E. replace (hi r l - lo r l)%nat with (S (hi r l - lo r l - 1)) by lia. cbn [take head]. by apply (out_key_cell _ _ _ _ _ Hz Hc).
  - apply Nat.leb_gt in E. by replace (hi r l - lo r l)%nat with 0%nat by lia.
Qed.

Lemma zslLastInRange_state h z l r : zstate h z l -> num_range r ->
  exists x, zslLastInRange h z r = Some x /\ out_key h x = Some (last (List.filter (in_range r) l)).
Proof using.
  intros (cs & Hz & _ & <-) Hr. pose proof (z_sorted _ _ _ Hz) as Hs. pose proof (zrep_keys _ _ _ Hz) as Hn.
  rewrite (proj1 (filter_range r Hr _ Hs Hn)). set (l := c_key <$> cs) in *. unfold zslLastInRange.
  destruct (zslIsInRange_spec h z cs r Hz Hr) as (b & -> & Hb). bnd. fold l in Hb. destruct b; cbn [negb]; cycle 1.
  { exists None. split; [done|]. by replace (hi r l - lo r l)%nat with 0%nat by lia. }
  pose proof (hi_le r cs) as Hhi. fold l in Hhi. assert (length l = length cs) as Hlen by (unfold l; apply length_fmap).
  destruct (zsl_search_spec h z cs Hz _ _ (hi_le r cs) (upto_max_spec h z cs r Hz Hr)) as (y & u & -> & _ & Hy). bnd. fold l in Hy.
  destruct (hi r l) as [|q] eqn:Eh; [lia|]. cbn in Hy. destruct (cs !! q) as [c|] eqn:Hc; [|done]. injection Hy as <-.
  destruct (info_node _ _ _ _ _ _ (z_nodes _ _ _ Hz _ _ Hc)) as (n & -> & _ & Hsc & _). bnd. rewrite Hsc.
  assert (l !! q = Some (c_key c)) as Hlc by (unfold l; by rewrite list_lookup_fmap, Hc).
  rewrite (lo_spec r Hr l Hs Hn _ _ Hlc). eexists. split; [done|]. destruct (S q <=? lo r l)%nat eqn:E.
  - apply Nat.leb_le in E. by replace (S q - lo r l)%nat with 0%nat by lia.
  - apply Nat.leb_gt in E. rewrite (out_key_cell _ _ _ _ _ Hz Hc). f_equal. rewrite last_lookup, length_take, length_drop.
    rewrite lookup_take_lt, lookup_drop by lia. rewrite <-Hlc. f_equal. lia.
Qed.

(** ** Deleting a range *)

Lemma ins_app {A} (l1 l2 : list A) x : ins (length l1) x (l1 ++ l2) = l1 ++ x :: l2.
Proof using. unfold ins. by rewrite take_app_length, drop_app_length. Qed.

Lemma left_at_app z cs ds l : left_at z (cs ++ ds) (length cs) l = left_at z cs (length cs) l.
Proof using.
  unfold left_at. rewrite (prev_at_take l (c_height <$> cs ++ ds) (c_height <$> cs)).
  - pose proof (prev_at_le l (c_height <$> cs) (length cs)) as Hle. destruct (prev_at _ _ _) as [|k]; [done|]. cbn. by rewrite lookup_app_l by lia.
  - rewrite length_fmap, length_app. lia.
  - rewrite fmap_app. by rewrite <-(length_fmap c_height cs), take_app_length, firstn_all.
Qed.

Lemma delete_loop_spec go M : forall fuel h z A B dict update t rm, zrep h z (A ++ M ++ B) -> owned h z (A ++ M ++ B) ->
  upd_ok z A (length A) update (zlevel z) -> (length M <= fuel)%nat ->
  (forall i c n, M !! i = Some c -> score n = (c_key c).1 -> go n (t + Z.of_nat i) = true) ->
  (forall c n, head B = Some c -> score n = (c_key c).1 -> go n (t + Z.of_nat (length M)) = false) ->
  exists h' z', delete_loop fuel h z dict go (c_ptr <$> head (M ++ B)) update t rm =
      Some (h', z', foldl (fun D c => delete (c_key c).2 D) dict M, rm + Z.of_nat (length M)) /\
    zrep h' z' (A ++ B) /\ owned h' z' (A ++ B).
Proof using.
  induction M as [|c M IH]; intros fuel h z A B dict update t rm Hz Ho Hu Hf Hgo Hstop.
  - exists h, z. split; [|done]. cbn [foldl length app]. rewrite Z.add_0_r.
    destruct B as [|c B]; [by destruct fuel|]. cbn [head fmap option_fmap option_map].
    destruct (info_node _ _ _ _ _ _ (z_nodes _ _ _ Hz (length A) c ltac:(by rewrite lookup_app_r, Nat.sub_diag by lia))) as (n & Hn & _ & Hs & _).
    pose proof (Hstop c n eq_refl Hs) as Hg. cbn in Hg. rewrite Z.add_0_r in Hg. destruct fuel; cbn [delete_loop]; rewrite Hn; bnd; by rewrite Hg.
  - cbn [head app fmap option_fmap option_map length] in *. destruct fuel as [|fuel]; [lia|]. cbn [delete_loop].
    assert ((A ++ c :: M ++ B) !! length A = Some c) as Hc by (by rewrite lookup_app_r, Nat.sub_diag by lia).
    destruct (info_node _ _ _ _ _ _ (z_nodes _ _ _ Hz _ _ Hc)) as (n & Hn & He & Hs & _). rewrite Hn. bnd.
    pose proof (Hgo 0%nat c n eq_refl Hs) as Hg. rewrite Z.add_0_r in Hg. rewrite Hg. cbn [negb].
    destruct (next_0 h z _ (S (length A)) (c_ptr c) Hz) as (lv & -> & Hlv); [cbn; by rewrite Hc|]. bnd. rewrite Hlv.
    assert (A ++ c :: M ++ B = ins (length A) c (A ++ M ++ B)) as Ei by (by rewrite ins_app). rewrite Ei in Hz, Ho.
    assert (length A <= length (A ++ M ++ B))%nat as Hp by (rewrite length_app; lia).
    destruct (zslDeleteNode_spec h z (A ++ M ++ B) (length A) c update Hp Hz) as (h1 & z1 & -> & Hz1 & Hh & Hle & _ & Hdom).
    { intros l Hl. rewrite left_at_app. by apply Hu. }
    bnd. rewrite He. bnd. destruct (unlinked_notin _ _ _ _ _ Hp Hz) as [Hn1 Hn2]. unfold owned in Ho.
    destruct (zslFreeNode_spec h1 z1 _ (c_ptr c) Hz1) as (-> & Hz2 & Ho2); [|by rewrite Hh|done|].
    { intros q. rewrite Hdom, Ho, Hh, fmap_ins, elem_of_ins. naive_solver. }
    bnd. rewrite Ei. rewrite ins_gt by lia. rewrite lookup_app_r, Nat.sub_diag by lia.
    destruct (IH fuel (delete (c_ptr c) h1) z1 A B (delete (c_key c).2 dict) update (t + 1) (rm + 1) Hz2 Ho2) as (h' & z' & Hd & Hz' & Ho').
    + intros l Hl. destruct (Hu l ltac:(lia)) as [r Hr]. exists r. rewrite Hr. unfold left_at, ptr_at. by rewrite Hh.
    + lia.
    + intros i d m Hi Hm. replace (t + 1 + Z.of_nat i) with (t + Z.of_nat (S i)) by lia. by apply (Hgo (S i) d).
    + intros d m Hi Hm. replace (t + 1 + Z.of_nat (length M)) with (t + Z.of_nat (S (length M))) by lia. by apply (Hstop d).
    + exists h', z'. split; [|done]. rewrite head_lookup in Hd. rewrite Hd. cbn [foldl]. do 2 f_equal. lia.
Qed.

(** Deleting the cells from [a] to [b]. *)
Lemma delete_block h z cs a b go dict update y t : zrep h z cs -> owned h z cs -> (a <= length cs)%nat -> (b <= length cs)%nat ->
  updates z cs a update (zlevel z) -> ptr_at z cs a = Some y ->
  (forall k c n, cs !! k = Some c -> (a <= k)%nat -> score n = (c_key c).1 -> go n (t + Z.of_nat (k - a)) = (k <? b)%nat) ->
  exists lv h' z', get_level h y 0 = Some lv /\
    delete_loop (size h) h z dict go (forward lv) update t 0 =
      Some (h', z', foldl (fun D c => delete (c_key c).2 D) dict (take (b - a) (drop a cs)), Z.of_nat (b - a)) /\
    zstate h' z' (take a (c_key <$> cs) ++ drop (Nat.max a b) (c_key <$> cs)).
Proof using.
  intros Hz Ho Ha Hb Hu Hy Hgo. set (A := take a cs). set (M := take (b - a) (drop a cs)). set (B := drop (Nat.max a b) cs).
  assert (length A = a) as HA by (unfold A; rewrite length_take; lia).
  assert (length M = b - a)%nat as HM by (unfold M; rewrite length_take, length_drop; lia).
  assert (M ++ B = drop a cs) as HMB.
  { unfold M, B. rewrite <-(take_drop (b - a) (drop a cs)) at 2. rewrite drop_drop. do 2 f_equal. lia. }
  assert (A ++ M ++ B = cs) as Hcs by (rewrite HMB; apply take_drop).
  destruct (next_0 h z cs a y Hz Hy) as (lv & Hlv & Hf).
  destruct (delete_loop_spec go M (size h) h z A B dict update t 0) as (h' & z' & Hd & Hz' & Ho'); rewrite ?Hcs; try done.
  - intros l Hl. rewrite <-(left_at_app z A (M ++ B)), Hcs, HA. by eapply updates_upd_ok.
  - pose proof (zrep_size _ _ _ Hz). lia.
  - intros i c n Hi Hs. pose proof (lookup_lt_Some _ _ _ Hi) as Hlt. unfold M in Hi. rewrite lookup_take_lt, lookup_drop in Hi by lia.
    pose proof (Hgo _ c n Hi ltac:(lia) Hs) as Hg. replace (a + i - a)%nat with i in Hg by lia. rewrite Hg. apply Nat.ltb_lt. lia.
  - intros c n Hi Hs. rewrite head_lookup in Hi. unfold B in Hi. rewrite lookup_drop in Hi.
    pose proof (Hgo _ c n Hi ltac:(lia) Hs) as Hg. rewrite HM. replace (Nat.max a b + 0 - a)%nat with (b - a)%nat in Hg by lia.
    rewrite Hg. apply Nat.ltb_ge. lia.
  - exists lv, h', z'. split; [done|]. split.
    + rewrite Hf, <-(Nat.add_0_r a), <-lookup_drop, <-HMB, <-head_lookup, Hd, HM, Nat.add_0_r. done.
    + exists (A ++ B). split_and!; [done|done|]. unfold A, B. by rewrite fmap_app, fmap_take, fmap_drop.
Qed.

Definition forget (D : gmap bytes spec_float) (ks : list key) : gmap bytes spec_float := foldl (fun D k => delete k.2 D) D ks.

Lemma foldl_forget D cs : foldl (fun D c => delete (c_key c).2 D) D cs = forget D (c_key <$> cs).
Proof using. unfold forget. revert D. induction cs as [|c cs IH]; intros D; cbn; [done|]. by rewrite IH. Qed.

Lemma zslDeleteRangeByScore_state h z l r D : zstate h z l -> num_range r ->
  exists h' z', zslDeleteRangeByScore h z r D =
      Some (h', z', forget D (List.filter (in_range r) l), Z.of_nat (length (List.filter (in_range r) l))) /\
    zstate h' z' (List.filter (fun k => negb (in_range r k)) l).
Proof using.
  intros (cs & Hz & Ho & <-) Hr. pose proof (z_sorted _ _ _ Hz) as Hs. pose proof (zrep_keys _ _ _ Hz) as Hn.
  destruct (filter_range r Hr _ Hs Hn) as [-> ->]. unfold zslDeleteRangeByScore.
  destruct (zsl_search_spec h z cs Hz _ _ (lo_le r cs) (below_min_spec h z cs r Hz Hr)) as (y & u & -> & Hu & Hy). bnd.
  destruct (delete_block h z cs (lo r (c_key <$> cs)) (hi r (c_key <$> cs)) (fun n _ => zslValueLteMax (score n) r) D u y 0 Hz Ho
    (lo_le r cs) (hi_le r cs) Hu Hy) as (lv & h' & z' & -> & Hd & Hz').
  { intros k c n Hk _ ->. apply (hi_spec r Hr _ Hs Hn). by rewrite list_lookup_fmap, Hk. }
  bnd. rewrite Hd, foldl_forget. exists h', z'. split; [|done]. rewrite <-fmap_drop, <-fmap_take.
  rewrite length_fmap, length_take, length_drop. pose proof (hi_le r cs). do 3 f_equal. lia.
Qed.

Lemma zslDeleteRangeByRank_state h z l start stop D : zstate h z l -> 1 <= start -> 0 <= stop ->
  exists h' z', zslDeleteRangeByRank h z start stop D =
      Some (h', z', forget D (take (Z.to_nat stop - Z.to_nat (start - 1)) (drop (Z.to_nat (start - 1)) l)),
            Z.of_nat (length (take (Z.to_nat stop - Z.to_nat (start - 1)) (drop (Z.to_nat (start - 1)) l)))) /\
    zstate h' z' (take (Z.to_nat (start - 1)) l ++ drop (Nat.max (Z.to_nat (start - 1)) (Z.to_nat stop)) l).
Proof using.
  intros (cs & Hz & Ho & <-) H1 H2. set (a := Nat.min (Z.to_nat (start - 1)) (length cs)). set (b := Nat.min (Z.to_nat stop) (length cs)).
  unfold zslDeleteRangeByRank. destruct (zsl_search_spec h z cs Hz (rank_below start) a ltac:(lia)) as (y & u & -> & Hu & Hy).
  { intros k c n Hk _. apply lookup_lt_Some in Hk. unfold rank_below. f_equal. apply eq_true_iff_eq. rewrite Z.ltb_lt, Nat.leb_le. lia. }
  bnd. destruct Hu as [Hlen Hu]. destruct (Hu 0%nat) as (u0 & _ & Hu0); [apply (z_level _ _ _ Hz)|]. rewrite Hu0, (prev_at_0 h z) by (done || lia). bnd.
  destruct (delete_block h z cs a b (fun _ t => t <=? stop) D u y (Z.of_nat a + 1) Hz Ho ltac:(lia) ltac:(lia) (conj Hlen Hu) Hy) as (lv & h' & z' & -> & Hd & Hz').
  { intros k c n Hk Hak _. apply lookup_lt_Some in Hk. apply eq_true_iff_eq. rewrite Z.leb_le, Nat.ltb_lt. lia. }
  bnd. rewrite Hd, foldl_forget, fmap_take, fmap_drop. exists h', z'.
  assert (take (b - a) (drop a (c_key <$> cs)) = take (Z.to_nat stop - Z.to_nat (start - 1)) (drop (Z.to_nat (start - 1)) (c_key <$> cs)) /\
    take a (c_key <$> cs) ++ drop (Nat.max a b) (c_key <$> cs) =
    take (Z.to_nat (start - 1)) (c_key <$> cs) ++ drop (Nat.max (Z.to_nat (start - 1)) (Z.to_nat stop)) (c_key <$> cs)) as [E1 E2].
  { set (ks := c_key <$> cs). assert (length ks = length cs) as Hks by (unfold ks; apply length_fmap). split.
    - destruct (decide (length cs <= Z.to_nat (start - 1))%nat).
      + rewrite !(drop_ge ks) by lia. by rewrite !take_nil.
      + replace a with (Z.to_nat (start - 1)) by lia. destruct (decide (Z.to_nat stop <= length cs)%nat); [by replace b with (Z.to_nat stop) by lia|].
        rewrite !take_ge by (rewrite length_drop; lia). done.
    - destruct (decide (length cs <= Z.to_nat (start - 1))%nat).
      + rewrite !(take_ge ks), !(drop_ge ks) by lia. done.
      + replace a with (Z.to_nat (start - 1)) by lia. f_equal. destruct (decide (Z.to_nat stop <= length cs)%nat); [by replace b with (Z.to_nat stop) by lia|].
        rewrite !drop_ge by lia. done. }
  rewrite E2 in Hz'. split; [|done]. rewrite <-E1. do 3 f_equal. rewrite length_take, length_drop, length_fmap. lia.
Qed.

(** ** Creation and release *)

Lemma init_levels_spec n i h p : (forall l, (i <= l < i + n)%nat -> is_Some (get_level h p l)) ->
  exists h', init_levels n i h p = Some h' /\ (forall q, info h' q = info h q) /\
    forall q l, get_level h' q l = if decide (q = p /\ (i <= l < i + n)%nat) then Some (mkLevel None 0) else get_level h q l.
Proof using.
  revert i h. induction n as [|n IH]; intros i h Hl; cbn [init_levels].
  - exists h. split_and!; [done|done|]. intros q l. by rewrite decide_False by (intros [_ ?]; lia).
  - destruct (Hl i ltac:(lia)) as [lv Hlv]. destruct (set_level_spec h p i (mkLevel None 0) lv Hlv) as (h1 & -> & Hg1 & Hi1). bnd.
    destruct (IH (S i) h1) as (h' & -> & Hi' & Hg').
    { intros l Hll. rewrite Hg1, decide_False by (intros [_ ?]; lia). apply Hl. lia. }
    exists h'. split_and!; [done|intros q; by rewrite Hi', Hi1|]. intros q l. rewrite Hg', Hg1.
    repeat case_decide; try done; exfalso; naive_solver lia.
Qed.

Lemma zslCreate_state : exists h z, zslCreate junk junk_level ∅ = Some (h, z) /\ zstate h z [].
Proof using.
  unfold zslCreate, zslCreateNode. set (hd := zmalloc ∅). set (h0 := <[hd := _]> ∅).
  assert (info h0 hd = Some (None, zero, junk, ZSKIPLIST_MAXLEVEL)) as Hi0 by (unfold info, h0; by rewrite lookup_insert_eq).
  destruct (init_levels_spec ZSKIPLIST_MAXLEVEL 0 h0 hd) as (h1 & -> & Hi1 & Hg1).
  { intros l Hl. eapply get_level_info; [done|lia]. }
  bnd. rewrite <-Hi1 in Hi0. destruct (set_backward_spec h1 hd None _ _ _ _ Hi0) as (h2 & -> & Hg2 & Hi2). bnd.
  eexists _, _. split; [done|]. exists []. split_and!; [| |done].
  - constructor; cbn [header tail zlength zlevel]; try done; try (unfold ZSKIPLIST_MAXLEVEL; lia).
    + eexists _, _. rewrite Hi2, decide_True by done. done.
    + intros [|k] p l Hp Hl; [|done]. cbn in Hp, Hl. injection Hp as <-. rewrite Hg2, Hg1, decide_True; [done|].
      unfold ZSKIPLIST_MAXLEVEL. split; [done|lia].
    + intros l Hl. rewrite Hg2, Hg1, decide_True; [done|]. split; [done|lia].
    + repeat constructor. apply not_elem_of_nil.
  - intros q. rewrite is_Some_info, Hi2. cbn. destruct (decide (q = hd)) as [-> | Hq]; [split; eauto|]. rewrite Hi1. unfold info, h0.
    rewrite lookup_insert_ne, lookup_empty by done. split; [by intros [? ?]|]. intros [? | Hx]; [done|by apply elem_of_nil in Hx].
Qed.

Lemma free_loop_spec cs : forall fuel h, (length cs <= fuel)%nat -> NoDup (c_ptr <$> cs) ->
  (forall k c, cs !! k = Some c -> exists lv, get_level h (c_ptr c) 0 = Some lv /\ forward lv = c_ptr <$> cs !! S k) ->
  (forall q, is_Some (h !! q) <-> q ∈ c_ptr <$> cs) -> free_loop fuel h (c_ptr <$> head cs) = Some ∅.
Proof using.
  induction cs as [|c cs IH]; intros fuel h Hf Hn Hl Hd.
  - assert (h = ∅) as ->. { apply map_eq. intros q. rewrite lookup_empty. apply eq_None_not_Some. rewrite Hd. apply not_elem_of_nil. }
    by destruct fuel.
  - cbn [head fmap option_fmap option_map]. destruct fuel as [|fuel]; [cbn in Hf; lia|]. cbn [free_loop].
    destruct (Hl 0%nat c eq_refl) as (lv & -> & Hlv). bnd. unfold zslFreeNode.
    destruct (proj2 (Hd (c_ptr c))) as [n ->]; [by left|]. bnd. rewrite Hlv. change ((c :: cs) !! 1%nat) with (cs !! 0%nat). rewrite <-head_lookup.
    change (c_ptr <$> c :: cs) with (c_ptr c :: (c_ptr <$> cs)) in *. apply NoDup_cons in Hn as [Hc Hn].
    assert (forall k d, cs !! k = Some d -> c_ptr d <> c_ptr c) as Hne.
    { intros k d Hk Heq. apply Hc. rewrite <-Heq. apply list_elem_of_fmap. exists d. split; [done|]. by eapply list_elem_of_lookup_2. }
    apply IH; [cbn in Hf; lia|done| |].
    + intros k d Hk. destruct (Hl (S k) d Hk) as (lv' & Hg & Hf'). exists lv'. split; [|done]. unfold get_level in *.
      rewrite lookup_delete_ne; [done|]. intros Heq. by eapply Hne.
    + intros q. destruct (decide (q = c_ptr c)) as [-> | Hq]; [rewrite lookup_delete_eq; split; [by intros [? ?]|done]|].
      rewrite lookup_delete_ne by done. rewrite Hd, elem_of_cons. naive_solver.
Qed.

Lemma zslFree_state h z l : zstate h z l -> zslFree h z = Some ∅.
Proof using.
  intros (cs & Hz & Ho & _). unfold zslFree. destruct (next_0 h z cs 0 (header z) Hz eq_refl) as (lv & -> & Hf). bnd. unfold zslFreeNode.
  destruct (proj2 (Ho (header z))) as [n ->]; [by left|]. bnd. rewrite Hf, <-head_lookup.
  pose proof (z_nodup _ _ _ Hz) as Hn. apply NoDup_cons in Hn as [Hh Hn].
  assert (forall k c, cs !! k = Some c -> c_ptr c <> header z) as Hne.
  { intros k c Hc Heq. apply Hh. rewrite <-Heq. apply list_elem_of_fmap. exists c. split; [done|]. by eapply list_elem_of_lookup_2. }
  apply free_loop_spec; [|done| |].
  - pose proof (zrep_size _ _ _ Hz). destruct (proj2 (Ho (header z))) as [m Hm]; [by left|].
    rewrite map_size_delete_Some by eauto. lia.
  - intros k c Hc. destruct (next_0 h z cs (S k) (c_ptr c) Hz) as (lv' & Hg & Hf'); [cbn; by rewrite Hc|]. exists lv'. split; [|done].
    unfold get_level in *. rewrite lookup_delete_ne; [done|]. intros Heq. by eapply Hne.
  - intros q. unfold owned in Ho. destruct (decide (q = header z)) as [-> | Hq]; [rewrite lookup_delete_eq; split; [by intros [? ?]|done]|].
    rewrite lookup_delete_ne by done. rewrite Ho. naive_solver.
Qed.

(** ** Sequences of operations *)

Inductive zop :=
  | OInsert (heads : nat) (s : spec_float) (e : bytes)
  | ODelete (s : spec_float) (e : bytes)
  | OUpdateScore (heads : nat) (cur : spec_float) (e : bytes) (new : spec_float)
  | ODeleteRangeByScore (r : zrangespec)
  | ODeleteRangeByRank (start stop : Z)
  | OGetRank (s : spec_float) (e : bytes)
  | OGetElementByRank (r : Z)
  | OFirstInRange (r : zrangespec)
  | OLastInRange (r : zrangespec).

Inductive zout := OutNum (n : Z) | OutKey (k : option key).

Abbreviation zdict := (gmap bytes spec_float).

(** The operation of the code. *)
Definition run_op (op : zop) (st : heap * zskiplist * zdict) : option (heap * zskiplist * zdict * zout) :=
  let '(h, z, D) := st in
  match op with
  | OInsert heads s e => '(h, z, x) ← zslInsert junk junk_level h z heads s e; k ← out_key h (Some x); Some (h, z, D, OutKey k)
  | ODelete s e => '(h, z, n, _) ← zslDelete h z s e false; Some (h, z, D, OutNum n)
  | OUpdateScore heads cur e new =>
      '(h, z, x) ← zslUpdateScore junk junk_level h z heads cur e new; k ← out_key h (Some x); Some (h, z, D, OutKey k)
  | ODeleteRangeByScore r => '(h, z, D, n) ← zslDeleteRangeByScore h z r D; Some (h, z, D, OutNum n)
  | ODeleteRangeByRank start stop => '(h, z, D, n) ← zslDeleteRangeByRank h z start stop D; Some (h, z, D, OutNum n)
  | OGetRank s e => n ← zslGetRank h z s e; Some (h, z, D, OutNum n)
  | OGetElementByRank r => x ← zslGetElementByRank h z r; k ← out_key h x; Some (h, z, D, OutKey k)
  | OFirstInRange r => x ← zslFirstInRange h z r; k ← out_key h x; Some (h, z, D, OutKey k)
  | OLastInRange r => x ← zslLastInRange h z r; k ← out_key h x; Some (h, z, D, OutKey k)
  end.

Definition is_num (s : spec_float) : bool := negb (isnan s).
Definition absent (k : key) (l : list key) : bool := forallb (fun a => negb (keqb a k)) l.

(** The operation on a sorted sequence; [None] when a precondition of the code
    is not met: a score that is not a number, a key that is there already, or
    one that is not there to be updated. *)
Definition abs_op (op : zop) (st : list key * zdict) : option (list key * zdict * zout) :=
  let '(l, D) := st in
  match op with
  | OInsert _ s e => if is_num s && absent (s, e) l then Some (z_insert (s, e) l, D, OutKey (Some (s, e))) else None
  | ODelete s e =>
      if is_num s then Some (match z_find (s, e) l with Some p => (delete p l, D, OutNum 1) | None => (l, D, OutNum 0) end) else None
  | OUpdateScore _ cur e new =>
      if is_num cur && is_num new then
        p ← z_find (cur, e) l;
        if absent (new, e) (delete p l) then Some (z_insert (new, e) (delete p l), D, OutKey (Some (new, e))) else None
      else None
  | ODeleteRangeByScore r =>
      if is_num (rmin r) && is_num (rmax r) then
        let gone := List.filter (in_range r) l in
        Some (List.filter (fun k => negb (in_range r k)) l, forget D gone, OutNum (Z.of_nat (length gone)))
      else None
  | ODeleteRangeByRank start stop =>
      if (1 <=? start) && (0 <=? stop) then
        let a := Z.to_nat (start - 1) in
        let b := Z.to_nat stop in
        let gone := take (b - a) (drop a l) in
        Some (take a l ++ drop (Nat.max a b) l, forget D gone, OutNum (Z.of_nat (length gone)))
      else None
  | OGetRank s e =>
      if is_num s then Some (l, D, OutNum (match z_find (s, e) l with Some p => Z.of_nat (S p) | None => 0 end)) else None
  | OGetElementByRank r => if 1 <=? r then Some (l, D, OutKey (l !! Z.to_nat (r - 1))) else None
  | OFirstInRange r => if is_num (rmin r) && is_num (rmax r) then Some (l, D, OutKey (head (List.filter (in_range r) l))) else None
  | OLastInRange r => if is_num (rmin r) && is_num (rmax r) then Some (l, D, OutKey (last (List.filter (in_range r) l))) else None
  end.

Lemma is_num_spec s : is_num s = true -> num s.
Proof using. unfold is_num, num. by rewrite negb_true_iff. Qed.
Lemma absent_spec k l : absent k l = true -> forall a, a ∈ l -> keqb a k = false.
Proof using.
  unfold absent. rewrite forallb_forall. intros H a Ha. apply list_elem_of_In in Ha. apply H in Ha. by apply negb_true_iff.
Qed.

Lemma run_op_simulates op h z l D l' D' out : zstate h z l -> abs_op op (l, D) = Some (l', D', out) ->
  exists h' z', run_op op (h, z, D) = Some (h', z', D', out) /\ zstate h' z' l'.
Proof using.
  intros Hst. destruct op as [heads s e|s e|heads cur e new|r|start stop|s e|r|r|r]; cbn [abs_op run_op].
  - destruct (_ && _) eqn:E; [|done]. intros [= <- <- <-]. apply andb_true_iff in E as [E1 E2].
    destruct (zslInsert_state h z l heads s e Hst (is_num_spec _ E1) (absent_spec _ _ E2)) as (h' & z' & x & -> & Hst' & Hk). bnd.
    unfold out_key. rewrite Hk. bnd. eauto.
  - destruct (is_num s) eqn:E; [|done]. destruct (zslDelete_state h z l s e Hst (is_num_spec _ E)) as (h' & z' & -> & Hst').
    bnd. intros [= H]. exists h', z'. destruct (z_find (s, e) l); simplify_eq; done.
  - destruct (_ && _) eqn:E; [|done]. apply andb_true_iff in E as [E1 E2]. destruct (z_find (cur, e) l) as [p|] eqn:Ef; [|done]. bnd.
    destruct (absent _ _) eqn:Ea; [|done]. intros [= <- <- <-].
    destruct (zslUpdateScore_state h z l heads cur e new p Hst (is_num_spec _ E1) (is_num_spec _ E2) Ef (absent_spec _ _ Ea)) as (h' & z' & x & -> & Hst' & Hk).
    bnd. unfold out_key. rewrite Hk. bnd. eauto.
  - destruct (_ && _) eqn:E; [|done]. intros [= <- <- <-]. apply andb_true_iff in E as [E1 E2].
    destruct (zslDeleteRangeByScore_state h z l r D Hst (conj (is_num_spec _ E1) (is_num_spec _ E2))) as (h' & z' & -> & Hst'). bnd. eauto.
  - destruct (_ && _) eqn:E; [|done]. intros [= <- <- <-].
    destruct (zslDeleteRangeByRank_state h z l start stop D Hst ltac:(lia) ltac:(lia)) as (h' & z' & -> & Hst'). bnd. eauto.
  - destruct (is_num s) eqn:E; [|done]. intros [= <- <- <-]. rewrite (zslGetRank_state h z l s e Hst (is_num_spec _ E)). bnd. eauto.
  - destruct (1 <=? r) eqn:E; [|done]. intros [= <- <- <-]. destruct (zslGetElementByRank_state h z l r Hst ltac:(lia)) as (x & -> & Hk). bnd. rewrite Hk. bnd. eauto.
  - destruct (_ && _) eqn:E; [|done]. intros [= <- <- <-]. apply andb_true_iff in E as [E1 E2].
    destruct (zslFirstInRange_state h z l r Hst (conj (is_num_spec _ E1) (is_num_spec _ E2))) as (x & -> & Hk). bnd. rewrite Hk. bnd. eauto.
  - destruct (_ && _) eqn:E; [|done]. intros [= <- <- <-]. apply andb_true_iff in E as [E1 E2].
    destruct (zslLastInRange_state h z l r Hst (conj (is_num_spec _ E1) (is_num_spec _ E2))) as (x & -> & Hk). bnd. rewrite Hk. bnd. eauto.
Qed.

Fixpoint run_ops (ops : list zop) (st : heap * zskiplist * zdict) : option (heap * zskiplist * zdict * list zout) :=
  match ops with
  | [] => Some (st, [])
  | op :: ops => '(st, o) ← run_op op st; '(st, os) ← run_ops ops st; Some (st, o :: os)
  end.
Fixpoint abs_ops (ops : list zop) (st : list key * zdict) : option (list key * zdict * list zout) :=
  match ops with
  | [] => Some (st, [])
  | op :: ops => '(st, o) ← abs_op op st; '(st, os) ← abs_ops ops st; Some (st, o :: os)
  end.

Lemma run_ops_simulates ops : forall h z l D l' D' outs, zstate h z l -> abs_ops ops (l, D) = Some (l', D', outs) ->
  exists h' z', run_ops ops (h, z, D) = Some (h', z', D', outs) /\ zstate h' z' l'.
Proof using.
  induction ops as [|op ops IH]; intros h z l D l' D' outs Hst; cbn [abs_ops run_ops].
  - intros [= <- <- <-]. eauto.
  - destruct (abs_op op (l, D)) as [[[l1 D1] o]|] eqn:E1; [|done]. bnd.
    destruct (abs_ops ops (l1, D1)) as [[[l2 D2] os]|] eqn:E2; [|done]. bnd. intros [= <- <- <-].
    destruct (run_op_simulates op h z l D l1 D1 o Hst E1) as (h1 & z1 & -> & Hst1). bnd.
    destruct (IH h1 z1 l1 D1 l2 D2 os Hst1 E2) as (h2 & z2 & -> & Hst2). bnd. eauto.
Qed.

(** C7: from its creation, a skiplist does what a sorted sequence of scores
    and elements does: every sequence of insertions, deletions, updates of
    scores, range deletions and queries by rank, key or range of scores
    returns, gives the results of the sequence (ranks and counts included),
    leaves the nodes and the elements of the hash table that the sequence
    leaves, whatever levels are drawn, and releasing the skiplist frees every
    node that was allocated. *)
Theorem skiplist_simulates (ops : list zop) (D : zdict) (l' : list key) (D' : zdict) (outs : list zout) :
  abs_ops ops ([], D) = Some (l', D', outs) ->
  exists h z h' z', zslCreate junk junk_level ∅ = Some (h, z) /\ run_ops ops (h, z, D) = Some (h', z', D', outs) /\
    zstate h' z' l' /\ zslFree h' z' = Some ∅.
Proof using.
  intros Hops. destruct zslCreate_state as (h & z & Hc & Hst). destruct (run_ops_simulates ops h z [] D l' D' outs Hst Hops) as (h' & z' & Hr & Hst').
  exists h, z, h', z'. split_and!; [done|done|done|by eapply zslFree_state].
Qed.
End stateops.

(** One, two and a half. *)
Definition one : spec_float := S754_finite false 4503599627370496 (-52).
Definition two : spec_float := S754_finite false 4503599627370496 (-51).
Definition half : spec_float := S754_finite false 4503599627370496 (-53).

Lemma skiplist_simulates_witness : exists h z h' z',
  zslCreate None (mkLevel None 0) ∅ = Some (h, z) /\
  run_ops None (mkLevel None 0)
    [OInsert 0 two [98]; OInsert 2 one [97]; OInsert 1 one [99]; OGetRank two [98]; OUpdateScore 0 two [98] half;
     OGetElementByRank 1; OLastInRange (mkRange half one true false); ODelete one [97];
     ODeleteRangeByScore (mkRange one one false false)] (h, z, ∅) =
    Some (h', z', ∅, [OutKey (Some (two, [98])); OutKey (Some (one, [97])); OutKey (Some (one, [99])); OutNum 3;
      OutKey (Some (half, [98])); OutKey (Some (half, [98])); OutKey (Some (one, [99])); OutNum 1; OutNum 1]) /\
  zstate h' z' [(half, [98])] /\ zslFree h' z' = Some ∅.
Proof. apply skiplist_simulates. vm_compute. reflexivity. Defined.

End Skiplist.
