(* ===== verification/Multi.v ===== *)
(** * Transactions: MULTI, EXEC, DISCARD, WATCH and UNWATCH
    (src/redis-stable/src/multi.c, with getExpire and keyIsExpired of db.c)

    The state is the part of the server these commands touch: the clients
    with their flags, queued commands and watched keys, the databases with
    their keys, expires and watchers, and the store of the watchedKey
    objects, which the client lists and the database lists share and whose
    [expired] bit the code changes in place.  A watchedKey pointer is a
    [positive]; using a freed one is [None], as is a failed assertion.  What
    the transaction code calls in the rest of the server (executing one
    command, checking its permissions, logging a denial) is an argument.
    The dictionaries are finite maps, which is what the hash table of dict.c
    implements (file Dict.v).  The theorems: the two watch indexes stay
    consistent under every operation, EXEC with any commands made of such
    operations included, touching a key makes every watcher's
    transaction fail, EXEC runs all queued commands in order or none. *)
From stdpp Require Import base list gmap strings.
From Stdlib Require Import Ascii.
From S2P Require Import Prelude.

Module Multi.

(** Keys are byte strings; clients and databases have an identifier. *)
Abbreviation key := (list Z).
Abbreviation cid := Z.
Abbreviation dbid := Z.
Abbreviation wid := positive.

Definition CLIENT_MULTI : Z := Z.shiftl 1 3.
Definition CLIENT_BLOCKED : Z := Z.shiftl 1 4.
Definition CLIENT_DIRTY_CAS : Z := Z.shiftl 1 5.
Definition CLIENT_DIRTY_EXEC : Z := Z.shiftl 1 12.
Definition CLIENT_DENY_BLOCKING : Z := Z.shiftl 1 41.
Definition CLIENT_ID_AOF : Z := UINT64_MAX.
Definition ACL_OK : Z := 0.
Definition ACL_DENIED_CMD : Z := 1.
Definition ACL_DENIED_KEY : Z := 2.
Definition ACL_DENIED_CHANNEL : Z := 4.
Definition INT_MAX : Z := INT32_MAX.

Record multiCmd := mkCmd { mc_argv : list key; mc_argv_len : Z; mc_argc : Z; mc_cmd : Z }.

(** [commands] is the list of the [count] commands in use. *)
Record multiState := mkMS {
  commands : list multiCmd; cmd_flags : Z; cmd_inv_flags : Z; argv_len_sums : Z; alloc_count : Z }.
Definition count (ms : multiState) : Z := zlen (commands ms).

Inductive reply :=
  | ROk                          (* shared.ok *)
  | RNullArray                   (* shared.nullarray *)
  | RExecAbort                   (* shared.execaborterr *)
  | RArrayLen (n : Z)            (* addReplyArrayLen *)
  | RError (msg : string).       (* addReplyError, addReplyErrorFormat *)

Record client := mkClient {
  c_flags : Z; c_db : dbid; c_watched : list wid; c_mstate : multiState;
  c_argv : list key; c_argc : Z; c_argv_len : Z; c_argv_len_sum : Z; c_cmd : Z;
  c_reply : list reply }.

Record watchedKey := mkWK { wk_key : key; wk_db : dbid; wk_client : cid; wk_expired : bool }.

Record redisDb := mkDb { db_dict : gset key; db_expires : gmap key Z; db_watched : gmap key (list wid) }.

Record server := mkServer {
  clients : gmap cid client; dbs : gmap dbid redisDb; wks : gmap wid watchedKey;
  in_exec : bool; loading : bool; script_caller : bool; script_time : Z;
  fixed_time_expire : Z; cached_time : Z; clock : Z }.

(** ** Field updates *)

Definition set_flags (f : Z) (c : client) : client :=
  mkClient f (c_db c) (c_watched c) (c_mstate c) (c_argv c) (c_argc c) (c_argv_len c)
    (c_argv_len_sum c) (c_cmd c) (c_reply c).
Definition set_watched (l : list wid) (c : client) : client :=
  mkClient (c_flags c) (c_db c) l (c_mstate c) (c_argv c) (c_argc c) (c_argv_len c)
    (c_argv_len_sum c) (c_cmd c) (c_reply c).
Definition set_mstate (m : multiState) (c : client) : client :=
  mkClient (c_flags c) (c_db c) (c_watched c) m (c_argv c) (c_argc c) (c_argv_len c)
    (c_argv_len_sum c) (c_cmd c) (c_reply c).
Definition set_args (argv : list key) (argc argv_len argv_len_sum cmd : Z) (c : client) : client :=
  mkClient (c_flags c) (c_db c) (c_watched c) (c_mstate c) argv argc argv_len argv_len_sum cmd (c_reply c).
Definition add_reply (r : reply) (c : client) : client :=
  mkClient (c_flags c) (c_db c) (c_watched c) (c_mstate c) (c_argv c) (c_argc c) (c_argv_len c)
    (c_argv_len_sum c) (c_cmd c) (c_reply c ++ [r]).

Definition set_clients (m : gmap cid client) (s : server) : server :=
  mkServer m (dbs s) (wks s) (in_exec s) (loading s) (script_caller s) (script_time s)
    (fixed_time_expire s) (cached_time s) (clock s).
Definition set_dbs (m : gmap dbid redisDb) (s : server) : server :=
  mkServer (clients s) m (wks s) (in_exec s) (loading s) (script_caller s) (script_time s)
    (fixed_time_expire s) (cached_time s) (clock s).
Definition set_wks (m : gmap wid watchedKey) (s : server) : server :=
  mkServer (clients s) (dbs s) m (in_exec s) (loading s) (script_caller s) (script_time s)
    (fixed_time_expire s) (cached_time s) (clock s).
Definition set_in_exec (b : bool) (s : server) : server :=
  mkServer (clients s) (dbs s) (wks s) b (loading s) (script_caller s) (script_time s)
    (fixed_time_expire s) (cached_time s) (clock s).

(** Changing one client, or the watchers of one database. *)
Definition upd (c : cid) (f : client -> client) (s : server) : server :=
  set_clients (alter f c (clients s)) s.
Definition set_db_watched (d : dbid) (f : gmap key (list wid) -> gmap key (list wid)) (s : server) : server :=
  set_dbs (alter (fun db => mkDb (db_dict db) (db_expires db) (f (db_watched db))) d (dbs s)) s.
Definition addReply (c : cid) (r : reply) (s : server) : server := upd c (add_reply r) s.

Definition flag (f bit : Z) : bool := negb (Z.land f bit =? 0).

(** ** Expiration (db.c) *)

Definition getExpire (s : server) (d : dbid) (k : key) : option Z :=
  db ← dbs s !! d;
  match db_expires db !! k with
  | None => Some (-1)
  | Some v => if decide (k ∈ db_dict db) then Some v else None
  end.

Definition keyIsExpired (s : server) (d : dbid) (k : key) : option bool :=
  when ← getExpire s d k;
  if when <? 0 then Some false
  else if loading s then Some false
  else
    let now := if script_caller s then script_time s
               else if 0 <? fixed_time_expire s then cached_time s
               else clock s in
    Some (when <? now).

(** ** The transaction state of a client *)

Definition initClientMultiState : multiState := mkMS [] 0 0 0 0.

(** [size] is [sizeof(robj star)]. *)
Definition sizeof_ptr : Z := 8.

Definition queueMultiCommand (c : cid) (flags : Z) (s : server) : option server :=
  cl ← clients s !! c;
  if flag (c_flags cl) (Z.lor CLIENT_DIRTY_CAS CLIENT_DIRTY_EXEC) then Some s
  else
    let ms := c_mstate cl in
    let alloc := if count ms =? 0 then 2 else alloc_count ms in
    let alloc := if count ms =? alloc
                 then (if alloc <? Z.quot INT_MAX 2 then alloc * 2 else INT_MAX) else alloc in
    let mc := mkCmd (c_argv cl) (c_argv_len cl) (c_argc cl) (c_cmd cl) in
    let ms := mkMS (commands ms ++ [mc]) (s32 (Z.lor (cmd_flags ms) flags))
                   (s32 (Z.lor (cmd_inv_flags ms) (u64 (Z.lnot flags))))
                   (u64 (argv_len_sums ms + (c_argv_len_sum cl + sizeof_ptr * c_argc cl))) alloc in
    Some (upd c (fun cl => set_args [] 0 0 0 (c_cmd cl) (set_mstate ms cl)) s).

Definition flagTransaction (c : cid) (s : server) : server :=
  upd c (fun cl => if flag (c_flags cl) CLIENT_MULTI
                   then set_flags (Z.lor (c_flags cl) CLIENT_DIRTY_EXEC) cl else cl) s.

(** ** Watching *)

(** Whether one of the client's watchedKey objects is for this key. *)
Fixpoint is_watching (s : server) (d : dbid) (k : key) (ws : list wid) : option bool :=
  match ws with
  | [] => Some false
  | w :: ws =>
      wk ← wks s !! w;
      if bool_decide (wk_db wk = d) && bool_decide (k = wk_key wk) then Some true
      else is_watching s d k ws
  end.

(** The address of a new watchedKey is one that is not in use. *)
Definition alloc_wk (s : server) : wid := fresh (dom (wks s)).

Definition watchForKey (c : cid) (k : key) (s : server) : option server :=
  cl ← clients s !! c;
  let d := c_db cl in
  already ← is_watching s d k (c_watched cl);
  if (already : bool) then Some s
  else
    db ← dbs s !! d;
    let l := default [] (db_watched db !! k) in
    expired ← keyIsExpired s d k;
    let w := alloc_wk s in
    let s := set_wks (<[w := mkWK k d c expired]> (wks s)) s in
    let s := upd c (fun cl => set_watched (c_watched cl ++ [w]) cl) s in
    Some (set_db_watched d (<[k := l ++ [w]]>) s).

(** [listDelNode(clients, listSearchKey(clients, wk))]: the first node that
    holds the pointer is removed; a null node crashes. *)
Fixpoint list_del (w : wid) (l : list wid) : option (list wid) :=
  match l with
  | [] => None
  | x :: l' => if bool_decide (x = w) then Some l' else r ← list_del w l'; Some (x :: r)
  end.

(** One watchedKey of the client: out of both lists, and freed. *)
Definition unwatch_one (c : cid) (w : wid) (s : server) : option server :=
  wk ← wks s !! w;
  db ← dbs s !! wk_db wk;
  l ← db_watched db !! wk_key wk;
  l ← list_del w l;
  let s := set_db_watched (wk_db wk)
             (if bool_decide (l = []) then delete (wk_key wk) else <[wk_key wk := l]>) s in
  cl ← clients s !! c;
  l ← list_del w (c_watched cl);
  let s := upd c (set_watched l) s in
  Some (set_wks (delete w (wks s)) s).

Fixpoint unwatch_loop (c : cid) (ws : list wid) (s : server) : option server :=
  match ws with
  | [] => Some s
  | w :: ws => s ← unwatch_one c w s; unwatch_loop c ws s
  end.

Definition unwatchAllKeys (c : cid) (s : server) : option server :=
  cl ← clients s !! c; unwatch_loop c (c_watched cl) s.

Fixpoint expired_loop (s : server) (ws : list wid) : option bool :=
  match ws with
  | [] => Some false
  | w :: ws =>
      wk ← wks s !! w;
      if wk_expired wk then expired_loop s ws
      else
        e ← keyIsExpired s (wk_db wk) (wk_key wk);
        if (e : bool) then Some true else expired_loop s ws
  end.

Definition isWatchedKeyExpired (c : cid) (s : server) : option bool :=
  cl ← clients s !! c; expired_loop s (c_watched cl).

Definition set_expired (w : wid) (b : bool) (s : server) : server :=
  set_wks (alter (fun wk => mkWK (wk_key wk) (wk_db wk) (wk_client wk) b) w (wks s)) s.

Definition dirty_cas (c : cid) (s : server) : server :=
  upd c (fun cl => set_flags (Z.lor (c_flags cl) CLIENT_DIRTY_CAS) cl) s.

(** The loop over the watchers of the key; the iterator has read the list
    node before the body frees it. *)
Fixpoint touch_loop (d : dbid) (k : key) (ws : list wid) (s : server) : option server :=
  match ws with
  | [] => Some s
  | w :: ws =>
      wk ← wks s !! w;
      if wk_expired wk then
        db ← dbs s !! d;
        if bool_decide (d = wk_db wk) && bool_decide (k = wk_key wk) && bool_decide (k ∉ db_dict db)
        then touch_loop d k ws (set_expired w false s)
        else Some s
      else
        s ← unwatchAllKeys (wk_client wk) (dirty_cas (wk_client wk) s);
        touch_loop d k ws s
  end.

Definition touchWatchedKey (d : dbid) (k : key) (s : server) : option server :=
  db ← dbs s !! d;
  match db_watched db !! k with
  | None => Some s
  | Some l => touch_loop d k l s
  end.

(** One watcher of key [k] in touchAllWatchedKeysInDb. *)
Definition touch_all_one (k : key) (in_emptied : bool) (replaced : option dbid) (w : wid) (s : server)
    : option server :=
  wk ← wks s !! w;
  let dirty := dirty_cas (wk_client wk) s in
  if wk_expired wk then
    match replaced with
    | None => Some (set_expired w false s)
    | Some r =>
        db ← dbs s !! r;
        if decide (k ∈ db_dict db) then
          e ← keyIsExpired s r k;
          Some (if (e : bool) then s else dirty)
        else Some (set_expired w false s)
    end
  else if negb in_emptied then
    r ← replaced;
    e ← keyIsExpired s r k;
    Some (if (e : bool) then set_expired w true s else dirty)
  else Some dirty.

Fixpoint touch_all_list (k : key) (in_emptied : bool) (replaced : option dbid) (ws : list wid) (s : server)
    : option server :=
  match ws with
  | [] => Some s
  | w :: ws => s ← touch_all_one k in_emptied replaced w s; touch_all_list k in_emptied replaced ws s
  end.

(** The keys in the order of the dictionary's iterator. *)
Fixpoint touch_all_keys (emptied : redisDb) (replaced : option dbid) (kls : list (key * list wid)) (s : server)
    : option server :=
  match kls with
  | [] => Some s
  | (k, l) :: kls =>
      in_repl ← match replaced with
                | None => Some false
                | Some r => db ← dbs s !! r; Some (bool_decide (k ∈ db_dict db))
                end;
      let in_emptied := bool_decide (k ∈ db_dict emptied) in
      s ← (if in_emptied || in_repl then touch_all_list k in_emptied replaced l s else Some s);
      touch_all_keys emptied replaced kls s
  end.

Definition touchAllWatchedKeysInDb (emptied : dbid) (replaced : option dbid) (s : server) : option server :=
  db ← dbs s !! emptied; touch_all_keys db replaced (map_to_list (db_watched db)) s.

(** ** Commands *)

Definition discardTransaction (c : cid) (s : server) : option server :=
  let s := upd c (set_mstate initClientMultiState) s in
  let s := upd c (fun cl => set_flags (Z.land (c_flags cl)
             (Z.lnot (Z.lor (Z.lor CLIENT_MULTI CLIENT_DIRTY_CAS) CLIENT_DIRTY_EXEC))) cl) s in
  unwatchAllKeys c s.

Definition multiCommand (c : cid) (s : server) : option server :=
  cl ← clients s !! c;
  if flag (c_flags cl) CLIENT_MULTI
  then Some (addReply c (RError "MULTI calls can not be nested") s)
  else
    let s := upd c (fun cl => set_flags (Z.lor (c_flags cl) CLIENT_MULTI) cl) s in
    Some (addReply c ROk s).

Definition discardCommand (c : cid) (s : server) : option server :=
  cl ← clients s !! c;
  if negb (flag (c_flags cl) CLIENT_MULTI)
  then Some (addReply c (RError "DISCARD without MULTI") s)
  else s ← discardTransaction c s; Some (addReply c ROk s).

(** The arguments after the command name. *)
Fixpoint watch_loop (c : cid) (ks : list key) (s : server) : option server :=
  match ks with
  | [] => Some s
  | k :: ks => s ← watchForKey c k s; watch_loop c ks s
  end.

Definition watchCommand (c : cid) (s : server) : option server :=
  cl ← clients s !! c;
  if flag (c_flags cl) CLIENT_MULTI
  then Some (addReply c (RError "WATCH inside MULTI is not allowed") s)
  else if flag (c_flags cl) CLIENT_DIRTY_CAS then Some (addReply c ROk s)
  else s ← watch_loop c (tail (take (Z.to_nat (c_argc cl)) (c_argv cl))) s; Some (addReply c ROk s).

Definition unwatchCommand (c : cid) (s : server) : option server :=
  s ← unwatchAllKeys c s;
  let s := upd c (fun cl => set_flags (Z.land (c_flags cl) (Z.lnot CLIENT_DIRTY_CAS)) cl) s in
  Some (addReply c ROk s).

Section exec.

(** The rest of the server: [call] executes the command in the client's
    [argv] with all its effects, [acl] is ACLCheckAllPerm, [acl_log]
    addACLLogEntry. *)
Variable call : cid -> Z -> server -> option server.
Variable acl : cid -> server -> Z.
Variable acl_log : cid -> Z -> server -> server.
Variable CMD_CALL_NONE CMD_CALL_FULL : Z.

Definition acl_reason (r : Z) : string :=
  if r =? ACL_DENIED_CMD then "no permission to execute the command or subcommand"
  else if r =? ACL_DENIED_KEY then "no permission to touch the specified keys"
  else if r =? ACL_DENIED_CHANNEL then "no permission to access one of the channels used as arguments"
  else "no permission".

(** One queued command: load it into the client, check the permissions and
    call it. *)
Definition run_cmd (c : cid) (mc : multiCmd) (s : server) : option server :=
  let s := upd c (fun cl => set_args (mc_argv mc) (mc_argc mc) (mc_argv_len mc)
                              (c_argv_len_sum cl) (mc_cmd mc) cl) s in
  let r := acl c s in
  if negb (r =? ACL_OK) then
    let s := acl_log c r s in
    Some (addReply c (RError (String.append
      "-NOPERM ACLs rules changed between the moment the transaction was accumulated and the EXEC call. This command is no longer allowed for the following reason: "
      (acl_reason r))) s)
  else
    s ← call c (if c =? CLIENT_ID_AOF then CMD_CALL_NONE else CMD_CALL_FULL) s;
    cl ← clients s !! c;
    if flag (c_flags cl) CLIENT_BLOCKED then None else Some s.

(** Commands may alter argc and argv: the queue keeps what they left. *)
Definition store_back (c : cid) (j : nat) (s : server) : server :=
  upd c (fun cl =>
    let mc := mkCmd (c_argv cl) (c_argv_len cl) (c_argc cl) (c_cmd cl) in
    let ms := c_mstate cl in
    set_mstate (mkMS (<[j := mc]> (commands ms)) (cmd_flags ms) (cmd_inv_flags ms)
                  (argv_len_sums ms) (alloc_count ms)) cl) s.

Definition exec_one (c : cid) (j : nat) (s : server) : option server :=
  cl ← clients s !! c;
  mc ← commands (c_mstate cl) !! j;
  s ← run_cmd c mc s;
  Some (store_back c j s).

(** [for (j = 0; j < c->mstate.count; j++)]; the commands do not change the
    count, so the count is enough fuel. *)
Fixpoint exec_loop (fuel : nat) (c : cid) (j : nat) (s : server) : option server :=
  cl ← clients s !! c;
  if decide (j < length (commands (c_mstate cl)))%nat then
    match fuel with
    | O => None
    | S fuel' => s ← exec_one c j s; exec_loop fuel' c (S j) s
    end
  else Some s.

Definition execCommand (c : cid) (s : server) : option server :=
  cl ← clients s !! c;
  if negb (flag (c_flags cl) CLIENT_MULTI)
  then Some (addReply c (RError "EXEC without MULTI") s)
  else
    e ← isWatchedKeyExpired c s;
    let s := if (e : bool) then dirty_cas c s else s in
    cl ← clients s !! c;
    if flag (c_flags cl) (Z.lor CLIENT_DIRTY_CAS CLIENT_DIRTY_EXEC) then
      let s := if flag (c_flags cl) CLIENT_DIRTY_EXEC then addReply c RExecAbort s
               else addReply c RNullArray s in
      discardTransaction c s
    else
      let old_flags := c_flags cl in
      let s := upd c (fun cl => set_flags (Z.lor (c_flags cl) CLIENT_DENY_BLOCKING) cl) s in
      s ← unwatchAllKeys c s;
      let s := set_in_exec true s in
      let s := addReply c (RArrayLen (count (c_mstate cl))) s in
      s ← exec_loop (length (commands (c_mstate cl))) c 0 s;
      let s := if negb (flag old_flags CLIENT_DENY_BLOCKING)
               then upd c (fun cl => set_flags (Z.land (c_flags cl) (Z.lnot CLIENT_DENY_BLOCKING)) cl) s
               else s in
      let s := upd c (fun c1 => set_args (c_argv cl) (c_argc cl) (c_argv_len cl) (c_argv_len_sum c1) (c_cmd cl) c1) s in
      s ← discardTransaction c s;
      Some (set_in_exec false s).

(** [error] without its leading dash; monitors are not part of the state. *)
Definition execCommandAbort (c : cid) (error : string) (s : server) : option server :=
  s ← discardTransaction c s;
  let error := match error with
               | String.String "-"%char e => e
               | e => e
               end in
  Some (addReply c (RError (String.append "-EXECABORT Transaction discarded because of: " error)) s).

End exec.
(** ** Views of the state and the invariant *)

Definition watched_of (s : server) (c : cid) : option (list wid) := c_watched <$> clients s !! c.
Definition watchers (s : server) (d : dbid) (k : key) : list wid :=
  default [] (db ← dbs s !! d; db_watched db !! k).

(** The data of the databases, without the watchers. *)
Definition data_of (s : server) (d : dbid) : option (gset key * gmap key Z) :=
  (fun db => (db_dict db, db_expires db)) <$> dbs s !! d.

(** The two indexes of the watched keys, by client and by key, hold the same
    watchedKey objects, each exactly once; no object is leaked or dangling;
    no empty list stays in a database; a client watches a key at most once. *)
Record wf (s : server) : Prop := {
  wf_wk : forall w wk, wks s !! w = Some wk ->
    (exists l, watched_of s (wk_client wk) = Some l /\ w ∈ l) /\ w ∈ watchers s (wk_db wk) (wk_key wk);
  wf_client : forall c l, watched_of s c = Some l ->
    NoDup l /\ forall w, w ∈ l -> exists wk, wks s !! w = Some wk /\ wk_client wk = c;
  wf_db : forall d k, NoDup (watchers s d k) /\
    forall w, w ∈ watchers s d k -> exists wk, wks s !! w = Some wk /\ wk_db wk = d /\ wk_key wk = k;
  wf_nonempty : forall d db k, dbs s !! d = Some db -> db_watched db !! k <> Some [];
  wf_once : forall w1 w2 wk1 wk2, wks s !! w1 = Some wk1 -> wks s !! w2 = Some wk2 ->
    wk_client wk1 = wk_client wk2 -> wk_db wk1 = wk_db wk2 -> wk_key wk1 = wk_key wk2 -> w1 = w2;
  wf_expires : forall d db k v, dbs s !! d = Some db -> db_expires db !! k = Some v -> k ∈ db_dict db;
  wf_cdb : forall c cl, clients s !! c = Some cl -> is_Some (dbs s !! c_db cl) }.

(** A client watches a key. *)
Definition watches (s : server) (c : cid) (d : dbid) (k : key) : Prop :=
  exists w wk, wks s !! w = Some wk /\ wk_client wk = c /\ wk_db wk = d /\ wk_key wk = k.

Lemma lookup_alter' {K A} `{Countable K} (f : A -> A) (m : gmap K A) i j :
  alter f i m !! j = if decide (i = j) then f <$> m !! j else m !! j.
Proof. rewrite lookup_alter. case_decide; [by subst|done]. Qed.

Lemma lookup_upd c f s c' : clients (upd c f s) !! c' = if decide (c = c') then f <$> clients s !! c' else clients s !! c'.
Proof. apply lookup_alter'. Qed.

Lemma watchers_data d f s d' : data_of (set_db_watched d f s) d' = data_of s d'.
Proof.
  unfold data_of, set_db_watched. simpl. rewrite lookup_alter'. case_decide; [|done].
  by destruct (dbs s !! d').
Qed.

Lemma lookup_dbs_data s d db : dbs s !! d = Some db -> data_of s d = Some (db_dict db, db_expires db).
Proof. unfold data_of. by intros ->. Qed.

(** What the invariant depends on. *)
Lemma wf_ext s s' : wf s ->
  (forall c, watched_of s' c = watched_of s c) -> (forall d k, watchers s' d k = watchers s d k) ->
  (forall w, match wks s !! w, wks s' !! w with
     | Some a, Some b => wk_client a = wk_client b /\ wk_db a = wk_db b /\ wk_key a = wk_key b
     | None, None => True | _, _ => False end) ->
  (forall d db k, dbs s' !! d = Some db -> db_watched db !! k <> Some []) ->
  (forall d db k v, dbs s' !! d = Some db -> db_expires db !! k = Some v -> k ∈ db_dict db) ->
  (forall c cl, clients s' !! c = Some cl -> is_Some (dbs s' !! c_db cl)) ->
  wf s'.
Proof.
  intros [A B C D E F G] Hc Hw Hk Hn He Hf.
  assert (Hfwd : forall w wk', wks s' !! w = Some wk' -> exists wk, wks s !! w = Some wk /\
    wk_client wk = wk_client wk' /\ wk_db wk = wk_db wk' /\ wk_key wk = wk_key wk').
  { intros w wk' H. specialize (Hk w). rewrite H in Hk. destruct (wks s !! w) as [wk|]; [|done]. eauto. }
  assert (Hbwd : forall w wk, wks s !! w = Some wk -> exists wk', wks s' !! w = Some wk' /\
    wk_client wk = wk_client wk' /\ wk_db wk = wk_db wk' /\ wk_key wk = wk_key wk').
  { intros w wk H. specialize (Hk w). rewrite H in Hk. destruct (wks s' !! w) as [wk'|]; [|done]. eauto. }
  constructor; try done.
  - intros w wk' H. destruct (Hfwd _ _ H) as (wk & Hwk & <- & <- & <-). rewrite Hc, Hw. by apply A.
  - intros c l Hl. rewrite Hc in Hl. destruct (B _ _ Hl) as [? Hin]. split; [done|]. intros w Hwl.
    destruct (Hin w Hwl) as (wk & Hwk & <-). destruct (Hbwd _ _ Hwk) as (wk' & ? & -> & _). eauto.
  - intros d k. rewrite Hw. destruct (C d k) as [? Hin]. split; [done|]. intros w Hwl.
    destruct (Hin w Hwl) as (wk & Hwk & <- & <-). destruct (Hbwd _ _ Hwk) as (wk' & ? & _ & -> & ->). eauto.
  - intros w1 w2 wk1 wk2 H1 H2 ? ? ?. destruct (Hfwd _ _ H1) as (a1 & Ha1 & ? & ? & ?).
    destruct (Hfwd _ _ H2) as (a2 & Ha2 & ? & ? & ?). apply (E _ _ _ _ Ha1 Ha2); congruence.
Qed.

(** Updates of a client that leave its watched keys and database alone. *)
Definition inert (f : client -> client) : Prop :=
  forall cl, c_watched (f cl) = c_watched cl /\ c_db (f cl) = c_db cl.

Lemma watched_upd c f s c' : inert f -> watched_of (upd c f s) c' = watched_of s c'.
Proof.
  intros Hf. unfold watched_of. rewrite lookup_upd. case_decide; [|done].
  destruct (clients s !! c') as [cl|]; [|done]. simpl. f_equal. apply Hf.
Qed.

Lemma wf_upd c f s : inert f -> wf s -> wf (upd c f s).
Proof.
  intros Hf H. apply (wf_ext s); [done|intros; by apply watched_upd|done| |apply H|apply H|].
  - intros w. simpl. by destruct (wks s !! w).
  - intros c' cl. rewrite lookup_upd. simpl. case_decide; [|apply H]. destruct (clients s !! c') as [cl0|] eqn:E; [|done].
    intros [= <-]. rewrite (proj2 (Hf cl0)). by eapply wf_cdb.
Qed.

Lemma wf_set_expired w b s : wf s -> wf (set_expired w b s).
Proof.
  intros H. apply (wf_ext s); try done; try apply H. intros w'. unfold set_expired. simpl. rewrite lookup_alter'.
  destruct (wks s !! w'); case_decide; done.
Qed.

Lemma wf_set_in_exec b s : wf s -> wf (set_in_exec b s).
Proof. intros H. apply (wf_ext s); try done; try apply H. intros w. simpl. by destruct (wks s !! w). Qed.

Lemma inert_flags g : inert (fun cl => set_flags (g cl) cl). Proof. done. Qed.
Lemma inert_reply r : inert (add_reply r). Proof. done. Qed.
Lemma inert_mstate m : inert (set_mstate m). Proof. done. Qed.
#[local] Hint Resolve inert_flags inert_reply inert_mstate wf_upd wf_set_expired wf_set_in_exec : redis.

(** What the watch operations leave alone: the databases, the time and the
    execution state. *)
Definition env_of (s : server) : bool * bool * bool * Z * Z * Z * Z :=
  (in_exec s, loading s, script_caller s, script_time s, fixed_time_expire s, cached_time s, clock s).

Definition frame (s s' : server) : Prop := (forall d, data_of s' d = data_of s d) /\ env_of s' = env_of s.

#[global] Instance frame_preorder : PreOrder frame.
Proof.
  split; [done|]. intros s1 s2 s3 [H1 E1] [H2 E2]. split; [intros d; by rewrite H2|congruence].
Qed.

Lemma frame_dbs s s' d db : frame s s' -> dbs s !! d = Some db ->
  exists db', dbs s' !! d = Some db' /\ db_dict db' = db_dict db /\ db_expires db' = db_expires db.
Proof.
  intros [H _] Hd. specialize (H d). unfold data_of in H. rewrite Hd in H.
  destruct (dbs s' !! d) as [db'|]; [|done]. injection H as H1 H2. eauto.
Qed.

Lemma keyIsExpired_frame s s' d k : frame s s' -> keyIsExpired s' d k = keyIsExpired s d k.
Proof.
  intros H. unfold keyIsExpired.
  assert (getExpire s' d k = getExpire s d k) as ->.
  { unfold getExpire. destruct (dbs s !! d) as [db|] eqn:E.
    - destruct (frame_dbs _ _ _ _ H E) as (db' & -> & E1 & E2). simpl. by rewrite E1, E2.
    - pose proof (proj1 H d) as Hd. unfold data_of in Hd. rewrite E in Hd. by destruct (dbs s' !! d). }
  destruct H as [_ [= _ -> -> -> -> -> ->]]. done.
Qed.

(** A key that exists is either expired or not; no assertion fails. *)
Lemma keyIsExpired_total s d k : wf s -> is_Some (dbs s !! d) -> is_Some (keyIsExpired s d k).
Proof.
  intros H [db Hd]. unfold keyIsExpired, getExpire. rewrite Hd. simpl.
  destruct (db_expires db !! k) as [v|] eqn:E; simpl; [|eauto].
  rewrite decide_True by (by eapply wf_expires). simpl. repeat case_match; eauto.
Qed.

Lemma frame_upd c f s : frame s (upd c f s). Proof. done. Qed.
Lemma frame_set_expired w b s : frame s (set_expired w b s). Proof. done. Qed.
#[local] Hint Resolve frame_upd frame_set_expired keyIsExpired_total : redis.

(** ** Removing and adding one watchedKey *)

Lemma list_del_spec w l : w ∈ l -> NoDup l ->
  exists l', list_del w l = Some l' /\ NoDup l' /\ forall x, x ∈ l' <-> x ∈ l /\ x <> w.
Proof.
  induction l as [|y l IH]; intros Hin Hnd; [by apply elem_of_nil in Hin|]. cbn [list_del].
  apply NoDup_cons in Hnd as [Hy Hnd]. case_bool_decide as E.
  - subst y. exists l. split; [done|]. split; [done|]. intros x. rewrite elem_of_cons. split.
    + intros Hx. split; [by right|]. by intros ->.
    + intros [[->|Hx] ?]; done.
  - apply elem_of_cons in Hin as [->|Hin]; [done|]. destruct (IH Hin Hnd) as (l' & -> & Hnd' & Hl'). bnd.
    exists (y :: l'). split; [done|]. split.
    + apply NoDup_cons. split; [|done]. rewrite Hl'. tauto.
    + intros x. rewrite !elem_of_cons, Hl'. split; [|tauto]. intros [->|[? ?]]; [split; [by left|done]|split; [by right|done]].
Qed.

Definition put_watchers (k : key) (l : list wid) : gmap key (list wid) -> gmap key (list wid) :=
  if bool_decide (l = []) then delete k else <[k := l]>.

Lemma watchers_put d k l s d' k' : is_Some (dbs s !! d) ->
  watchers (set_db_watched d (put_watchers k l) s) d' k' = if decide (d = d' /\ k = k') then l else watchers s d' k'.
Proof.
  intros [db Hd]. unfold watchers, set_db_watched. simpl. rewrite lookup_alter'.
  destruct (decide (d = d')) as [<-|Hne].
  - rewrite Hd. simpl. unfold put_watchers. case_bool_decide as El.
    + rewrite lookup_delete. destruct (decide (k = k')); [rewrite decide_True by done; by subst|]. by rewrite decide_False by naive_solver.
    + rewrite lookup_insert. destruct (decide (k = k')); [by rewrite decide_True by done|]. by rewrite decide_False by naive_solver.
  - by rewrite decide_False by naive_solver.
Qed.

Lemma nonempty_put d k l s d' db k' : (forall d db k, dbs s !! d = Some db -> db_watched db !! k <> Some []) ->
  dbs (set_db_watched d (put_watchers k l) s) !! d' = Some db -> db_watched db !! k' <> Some [].
Proof.
  intros H. unfold set_db_watched. simpl. rewrite lookup_alter'. case_decide as Hd; [|by apply H].
  destruct (dbs s !! d') as [db0|] eqn:E; [|done]. simpl. intros [= <-]. simpl. unfold put_watchers. case_bool_decide as El.
  - rewrite lookup_delete. case_decide; [done|by eapply H].
  - rewrite lookup_insert. case_decide; [congruence|by eapply H].
Qed.

Lemma watchers_lookup s d k w : w ∈ watchers s d k ->
  exists db, dbs s !! d = Some db /\ db_watched db !! k = Some (watchers s d k).
Proof.
  unfold watchers. destruct (dbs s !! d) as [db|]; [|by intros ?%elem_of_nil]. intros Hin. exists db. split; [done|].
  simpl in *. destruct (db_watched db !! k) as [l|]; [done|by apply elem_of_nil in Hin].
Qed.

Lemma expires_frame s s' : wf s -> frame s s' ->
  forall d db k v, dbs s' !! d = Some db -> db_expires db !! k = Some v -> k ∈ db_dict db.
Proof.
  intros H F d db' k v Hd Hv. destruct (dbs s !! d) as [db|] eqn:E.
  - destruct (frame_dbs _ _ _ _ F E) as (db2 & Hd2 & E1 & E2). simplify_eq. rewrite E1. rewrite E2 in Hv. by eapply (wf_expires s).
  - pose proof (proj1 F d) as Hd2. unfold data_of in Hd2. by rewrite E, Hd in Hd2.
Qed.

Lemma cdb_frame s s' c l cl : wf s -> frame s s' -> clients s !! c = Some cl ->
  clients s' = <[c := set_watched l cl]> (clients s) ->
  forall c' cl', clients s' !! c' = Some cl' -> is_Some (dbs s' !! c_db cl').
Proof.
  intros H F Hcl Hcs c' cl'. rewrite Hcs, lookup_insert. intros Hc'.
  assert (exists cl0, clients s !! c' = Some cl0 /\ c_db cl' = c_db cl0) as (cl0 & Hc0 & ->).
  { revert Hc'. case_decide; [intros [= <-]; subst c'; eauto|eauto]. }
  destruct (wf_cdb s H _ _ Hc0) as [db Hd]. destruct (frame_dbs _ _ _ _ F Hd) as (db' & -> & _). eauto.
Qed.

(** The invariant after one watchedKey has left the two lists and the store. *)
Lemma wf_remove c w wk cl l s s' : wf s -> wks s !! w = Some wk -> wk_client wk = c -> clients s !! c = Some cl ->
  frame s s' -> clients s' = <[c := set_watched l cl]> (clients s) -> wks s' = delete w (wks s) ->
  NoDup l -> (forall x, x ∈ l <-> x ∈ c_watched cl /\ x <> w) ->
  (forall d k, NoDup (watchers s' d k)) ->
  (forall d k x, x ∈ watchers s' d k <-> x ∈ watchers s d k /\ x <> w) ->
  (forall d db k, dbs s' !! d = Some db -> db_watched db !! k <> Some []) -> wf s'.
Proof.
  intros H Hw Hc Hcl F Hcs Hwk Hnd Hl Hndw Hws Hne.
  assert (Hold : watched_of s c = Some (c_watched cl)) by (unfold watched_of; by rewrite Hcl).
  assert (Hwd : forall c', watched_of s' c' = if decide (c = c') then Some l else watched_of s c').
  { intros c'. unfold watched_of. rewrite Hcs, lookup_insert. by case_decide. }
  assert (Hk : forall x, x <> w -> wks s' !! x = wks s !! x) by (intros; rewrite Hwk; by apply lookup_delete_ne).
  constructor.
  - intros x a. rewrite Hwk, lookup_delete. case_decide as E; [done|]. intros Hx.
    destruct (wf_wk s H x a Hx) as [(l' & Hl' & Hin') Hin2]. split; [|apply Hws; by split; [|intros ->]].
    rewrite Hwd. case_decide as Hcc; [|by exists l']. exists l. split; [done|]. apply Hl. split; [|by intros ->].
    rewrite <- Hcc, Hold in Hl'. by injection Hl' as <-.
  - intros c' l'. rewrite Hwd. case_decide as Hcc.
    + intros [= <-]. split; [done|]. intros x Hx. apply Hl in Hx as [Hx Hxw]. rewrite Hk by done. subst c'.
      by apply (proj2 (wf_client s H c (c_watched cl) Hold)).
    + intros Hl'. destruct (wf_client s H c' l' Hl') as [? Hin']. split; [done|]. intros x Hx.
      destruct (Hin' x Hx) as (a & Ha & ?). rewrite Hk; [eauto|]. intros ->. congruence.
  - intros d k. split; [done|]. intros x Hx. apply Hws in Hx as [Hx Hxw]. rewrite Hk by done.
    by apply (proj2 (wf_db s H d k)).
  - done.
  - intros w1 w2 wk1 wk2. rewrite Hwk, !lookup_delete. repeat case_decide; try done. apply H.
  - by apply (expires_frame s).
  - by eapply (cdb_frame s).
Qed.

(** One watchedKey of a client leaves both indexes. *)
Lemma unwatch_one_spec c w s wk cl : wf s -> wks s !! w = Some wk -> wk_client wk = c -> clients s !! c = Some cl ->
  exists s' l, unwatch_one c w s = Some s' /\ wf s' /\ frame s s' /\
    clients s' = <[c := set_watched l cl]> (clients s) /\ list_del w (c_watched cl) = Some l /\
    wks s' = delete w (wks s) /\ (forall d k x, x ∈ watchers s' d k <-> x ∈ watchers s d k /\ x <> w).
Proof.
  intros H Hw Hc Hcl. destruct (wf_wk s H w wk Hw) as [(l0 & Hl0 & Hin0) Hinw].
  assert (l0 = c_watched cl) as -> by (unfold watched_of in Hl0; rewrite Hc, Hcl in Hl0; by injection Hl0).
  destruct (wf_client s H c (c_watched cl)) as [Hnd0 _]; [unfold watched_of; by rewrite Hcl|].
  destruct (wf_db s H (wk_db wk) (wk_key wk)) as [Hndw _].
  destruct (watchers_lookup s _ _ _ Hinw) as (db & Hdb & Hdw).
  unfold unwatch_one. rewrite Hw. bnd. rewrite Hdb. bnd. rewrite Hdw. bnd.
  destruct (list_del_spec w _ Hinw Hndw) as (lw & -> & Hndlw & Hlw). bnd.
  change (clients (set_db_watched ?a ?b ?s)) with (clients s). rewrite Hcl. bnd.
  destruct (list_del_spec w _ Hin0 Hnd0) as (l & Hdel & Hndl & Hl). rewrite Hdel. bnd.
  change (if bool_decide (lw = []) then delete (wk_key wk) else <[wk_key wk := lw]>) with (put_watchers (wk_key wk) lw).
  set (s1 := set_db_watched (wk_db wk) (put_watchers (wk_key wk) lw) s).
  set (s' := set_wks _ _). exists s', l.
  assert (F : frame s s') by (split; [apply watchers_data|done]).
  assert (Hcs : clients s' = <[c := set_watched l cl]> (clients s)).
  { apply map_eq. intros i. simpl. rewrite lookup_alter', lookup_insert. case_decide; [subst; by rewrite Hcl|done]. }
  assert (Hws : forall d k, watchers s' d k = if decide (wk_db wk = d /\ wk_key wk = k) then lw else watchers s d k).
  { intros d k. by rewrite <- watchers_put by eauto. }
  assert (Hwx : forall d k x, x ∈ watchers s' d k <-> x ∈ watchers s d k /\ x <> w).
  { intros d k x. rewrite Hws. case_decide as Hdk; [destruct Hdk as [<- <-]; apply Hlw|]. split; [|tauto].
    intros Hx. split; [done|]. intros ->. destruct (proj2 (wf_db s H d k) w Hx) as (a & Ha & ? & ?). simplify_eq. tauto. }
  split; [done|]. split; [|done].
  apply (wf_remove c w wk cl l s); try done.
  - intros d k. rewrite Hws. case_decide; [done|apply H].
  - intros d db' k Hd. eapply nonempty_put; [apply H|exact Hd].
Qed.


(** ** Unwatching all keys of a client *)

Lemma unwatch_loop_spec c ws : forall s cl, wf s -> clients s !! c = Some cl -> c_watched cl = ws ->
  exists s', unwatch_loop c ws s = Some s' /\ wf s' /\ frame s s' /\
    clients s' = <[c := set_watched [] cl]> (clients s) /\
    (forall w wk, wks s' !! w = Some wk <-> wks s !! w = Some wk /\ w ∉ ws) /\
    (forall d k x, x ∈ watchers s' d k <-> x ∈ watchers s d k /\ x ∉ ws).
Proof.
  induction ws as [|w ws IH]; intros s cl H Hcl Hws; cbn [unwatch_loop].
  - exists s. split; [done|]. split; [done|]. split; [done|]. split; [|split].
    + rewrite insert_id; [done|]. rewrite Hcl. destruct cl. simpl in Hws. by subst.
    + intros w wk. split; [intros ?; split; [done|apply not_elem_of_nil]|tauto].
    + intros d k x. split; [intros ?; split; [done|apply not_elem_of_nil]|tauto].
  - destruct (wf_client s H c (w :: ws)) as [Hnd Hin]; [unfold watched_of; rewrite Hcl; simpl; by rewrite Hws|].
    destruct (Hin w) as (wk & Hw & Hc); [left|].
    destruct (unwatch_one_spec c w s wk cl H Hw Hc Hcl) as (s1 & l & -> & H1 & F1 & Hc1 & Hdel & Hw1 & HW). bnd.
    rewrite Hws in Hdel. cbn [list_del] in Hdel. rewrite bool_decide_true in Hdel by done. injection Hdel as <-.
    destruct (IH s1 (set_watched ws cl) H1) as (s' & -> & H' & F' & C' & W' & X'); [rewrite Hc1; by rewrite lookup_insert_eq|done|].
    exists s'. split; [done|]. split; [done|]. split; [|split; [|split]].
    + by transitivity s1.
    + rewrite C', Hc1. by rewrite insert_insert_eq.
    + intros x a. rewrite W', Hw1, lookup_delete. rewrite not_elem_of_cons. case_decide as E; [subst; naive_solver|naive_solver].
    + intros d k x. rewrite X', HW. rewrite not_elem_of_cons. tauto.
Qed.

Lemma unwatchAllKeys_spec c s cl : wf s -> clients s !! c = Some cl ->
  exists s', unwatchAllKeys c s = Some s' /\ wf s' /\ frame s s' /\
    clients s' = <[c := set_watched [] cl]> (clients s) /\
    (forall w wk, wks s' !! w = Some wk <-> wks s !! w = Some wk /\ wk_client wk <> c).
Proof.
  intros H Hcl. unfold unwatchAllKeys. rewrite Hcl. bnd.
  destruct (unwatch_loop_spec c (c_watched cl) s cl H Hcl eq_refl) as (s' & -> & H' & F & C & W & _).
  exists s'. split_and!; try done. intros w wk. rewrite W. split; intros [Hw Hn]; (split; [done|]).
  - intros Hc. apply Hn. destruct (wf_wk s H w wk Hw) as [(l & Hl & Hin) _]. unfold watched_of in Hl.
    rewrite Hc, Hcl in Hl. by injection Hl as <-.
  - intros Hin. apply Hn. destruct (wf_client s H c (c_watched cl)) as [_ Hi]; [unfold watched_of; by rewrite Hcl|].
    destruct (Hi w Hin) as (a & Ha & ?). by simplify_eq.
Qed.

(** ** Watching a key *)

Lemma is_watching_spec s d k ws : (forall w, w ∈ ws -> is_Some (wks s !! w)) ->
  exists b : bool, is_watching s d k ws = Some b /\
    (b = true <-> exists w wk, w ∈ ws /\ wks s !! w = Some wk /\ wk_db wk = d /\ wk_key wk = k).
Proof.
  induction ws as [|w ws IH]; intros Hin; cbn [is_watching].
  - exists false. split; [done|]. split; [done|]. by intros (w & wk & ?%elem_of_nil & _).
  - destruct (Hin w) as [wk Hw]; [left|]. rewrite Hw. bnd.
    destruct IH as (b & Hb & Hspec); [intros x Hx; apply Hin; by right|].
    destruct (decide (wk_db wk = d /\ k = wk_key wk)) as [[E1 E2]|Hne].
    + rewrite !bool_decide_true by done. exists true. split; [done|]. split; [|done]. intros _. exists w, wk. by split_and!; [left|..].
    + rewrite <- bool_decide_and, bool_decide_false by done. exists b. split; [done|]. rewrite Hspec. split.
      * intros (x & a & ? & ?). exists x, a. split; [by right|done].
      * intros (x & a & Hx & Ha & ? & ?). apply elem_of_cons in Hx as [->|Hx]; [|by exists x, a].
        exfalso. apply Hne. split; congruence.
Qed.

Lemma watchers_insert d k l s d' k' : is_Some (dbs s !! d) ->
  watchers (set_db_watched d (<[k := l]>) s) d' k' = if decide (d = d' /\ k = k') then l else watchers s d' k'.
Proof.
  intros [db Hd]. unfold watchers, set_db_watched. simpl. rewrite lookup_alter'.
  destruct (decide (d = d')) as [<-|Hne].
  - rewrite Hd. simpl. rewrite lookup_insert. destruct (decide (k = k')).
    + by rewrite decide_True by done.
    + by rewrite decide_False by naive_solver.
  - by rewrite decide_False by naive_solver.
Qed.

(** The invariant after a new watchedKey has entered the two lists. *)
Lemma wf_add c w wk cl s s' : wf s -> wks s !! w = None -> clients s !! c = Some cl -> wk_client wk = c ->
  ~ watches s c (wk_db wk) (wk_key wk) -> frame s s' ->
  clients s' = <[c := set_watched (c_watched cl ++ [w]) cl]> (clients s) -> wks s' = <[w := wk]> (wks s) ->
  (forall d k, watchers s' d k =
    if decide (wk_db wk = d /\ wk_key wk = k) then watchers s d k ++ [w] else watchers s d k) ->
  (forall d db k, dbs s' !! d = Some db -> db_watched db !! k <> Some []) -> wf s'.
Proof.
  intros H Hw Hcl Hc Hnw F Hcs Hwk Hws Hne.
  assert (Hold : watched_of s c = Some (c_watched cl)) by (unfold watched_of; by rewrite Hcl).
  assert (Hwd : forall c', watched_of s' c' = if decide (c = c') then Some (c_watched cl ++ [w]) else watched_of s c').
  { intros c'. unfold watched_of. rewrite Hcs, lookup_insert. by case_decide. }
  assert (Hk : forall x, is_Some (wks s !! x) -> x <> w /\ wks s' !! x = wks s !! x).
  { intros x [a Ha]. assert (x <> w) by congruence. split; [done|]. rewrite Hwk. by apply lookup_insert_ne. }
  assert (Hf1 : forall l, (forall x, x ∈ l -> is_Some (wks s !! x)) -> NoDup l -> NoDup (l ++ [w])).
  { intros l Hl Hnd. apply NoDup_app. split; [done|]. split; [|apply NoDup_singleton].
    intros x Hx ->%list_elem_of_singleton. destruct (Hl w Hx). congruence. }
  constructor.
  - intros x a. rewrite Hwk, lookup_insert. case_decide as E.
    + intros [= <-]. subst x. split; [|rewrite Hws, decide_True by done; set_solver].
      rewrite Hc, Hwd, decide_True by done. eexists. split; [done|]. set_solver.
    + intros Hx. destruct (wf_wk s H x a Hx) as [(l' & Hl' & Hin') Hin2].
      split; [|rewrite Hws; case_decide; set_solver]. rewrite Hwd. case_decide as Hcc; [|by exists l'].
      eexists. split; [done|]. rewrite <- Hcc, Hold in Hl'. injection Hl' as <-. set_solver.
  - intros c' l'. rewrite Hwd. case_decide as Hcc.
    + destruct (wf_client s H c (c_watched cl) Hold) as [Hnd Hin]. intros [= <-]. split.
      * apply Hf1; [|done]. intros x Hx. destruct (Hin x Hx) as (a & -> & _). eauto.
      * intros x [Hx | ->%list_elem_of_singleton]%elem_of_app.
        -- destruct (Hin x Hx) as (a & Ha & ?). destruct (Hk x) as [_ ->]; [eauto|]. exists a. by split; [|congruence].
        -- exists wk. rewrite Hwk, lookup_insert_eq. by split; [|congruence].
    + intros Hl'. destruct (wf_client s H c' l' Hl') as [? Hin']. split; [done|]. intros x Hx.
      destruct (Hin' x Hx) as (a & Ha & ?). destruct (Hk x) as [_ ->]; eauto.
  - intros d k. destruct (wf_db s H d k) as [Hnd Hin]. rewrite Hws. case_decide as E.
    + split; [apply Hf1; [|done]; intros x Hx; destruct (Hin x Hx) as (a & -> & _); eauto|].
      intros x [Hx | ->%list_elem_of_singleton]%elem_of_app.
      * destruct (Hin x Hx) as (a & Ha & ?). destruct (Hk x) as [_ ->]; eauto.
      * exists wk. rewrite Hwk, lookup_insert_eq. by split.
    + split; [done|]. intros x Hx. destruct (Hin x Hx) as (a & Ha & ?). destruct (Hk x) as [_ ->]; eauto.
  - done.
  - intros w1 w2 wk1 wk2. rewrite Hwk, !lookup_insert. unfold watches in Hnw.
    repeat case_decide; intros; simplify_eq; try done; try (by eapply (wf_once s)); exfalso; apply Hnw; do 2 eexists; split_and!; eauto; congruence.
  - by apply (expires_frame s).
  - by eapply (cdb_frame s).
Qed.
Lemma alloc_wk_fresh s : wks s !! alloc_wk s = None.
Proof. apply (not_elem_of_dom (D := gset wid)). unfold alloc_wk. apply is_fresh. Qed.

Lemma watchForKey_spec c k s cl : wf s -> clients s !! c = Some cl ->
  exists s' l, watchForKey c k s = Some s' /\ wf s' /\ frame s s' /\
    clients s' = <[c := set_watched l cl]> (clients s) /\ watches s' c (c_db cl) k.
Proof.
  intros H Hcl. unfold watchForKey. rewrite Hcl. bnd.
  assert (Hold : watched_of s c = Some (c_watched cl)) by (unfold watched_of; by rewrite Hcl).
  destruct (wf_client s H c (c_watched cl) Hold) as [_ Hin].
  destruct (is_watching_spec s (c_db cl) k (c_watched cl)) as (b & -> & Hb).
  { intros w Hw. destruct (Hin w Hw) as (wk & -> & _). eauto. }
  bnd. destruct b.
  - destruct (proj1 Hb eq_refl) as (w & wk & Hw & Hwk & ? & ?). destruct (Hin w Hw) as (wk' & ? & ?). simplify_eq.
    exists s, (c_watched cl). split_and!; try done.
    + rewrite insert_id; [done|]. rewrite Hcl. by destruct cl.
    + by exists w, wk.
  - destruct (wf_cdb s H c cl Hcl) as [db Hdb]. rewrite Hdb. bnd.
    destruct (keyIsExpired_total s (c_db cl) k H) as [e He]; [eauto|]. rewrite He. bnd.
    set (w := alloc_wk s). assert (Hfresh : wks s !! w = None) by apply alloc_wk_fresh.
    set (wk := mkWK k (c_db cl) c e).
    assert (Hw0 : default [] (db_watched db !! k) = watchers s (c_db cl) k) by (unfold watchers; by rewrite Hdb).
    rewrite Hw0. set (s' := set_db_watched _ _ _). exists s', (c_watched cl ++ [w]).
    assert (F : frame s s') by (split; [intros d; unfold s'; by rewrite watchers_data|done]).
    assert (Hcs : clients s' = <[c := set_watched (c_watched cl ++ [w]) cl]> (clients s)).
    { apply map_eq. intros i. simpl. rewrite lookup_alter', lookup_insert. case_decide; [subst; by rewrite Hcl|done]. }
    split; [done|]. split; [|split; [done|]; split; [done|]].
    + apply (wf_add c w wk cl s); try done.
      * intros (x & a & Ha & Hc & ? & ?). assert (false = true) as [=]. apply Hb. exists x, a. split_and!; try done.
        destruct (wf_wk s H x a Ha) as [(l & Hl & Hx) _]. rewrite Hc, Hold in Hl. by injection Hl as <-.
      * intros d k'. unfold s'. rewrite watchers_insert by (simpl; eauto). simpl. case_decide as E; [|done]. by destruct E as [<- <-].
      * intros d db' k' Hd. simpl in Hd. rewrite lookup_alter' in Hd. case_decide; [|by eapply (wf_nonempty s)].
        destruct (dbs s !! d) as [db0|] eqn:E0; [|done]. injection Hd as <-. simpl. rewrite lookup_insert.
        case_decide; [intros Hx; injection Hx; intros [_ ?]%app_nil; done|]. by eapply (wf_nonempty s).
    + exists w, wk. split_and!; try done. simpl. by rewrite lookup_insert_eq.
Qed.

(** ** Touching a key *)

(** The clients a touch of the key flags, in the order of its watchers: those
    whose watchedKey is not marked expired, up to the first marked one when the
    key still exists. *)
Fixpoint touch_hits (s : server) (present : bool) (ws : list wid) : list cid :=
  match ws with
  | [] => []
  | w :: ws =>
      match wks s !! w with
      | None => []
      | Some wk => if wk_expired wk then (if present then [] else touch_hits s present ws)
                   else wk_client wk :: touch_hits s present ws
      end
  end.

Lemma touch_hits_ext s s' b ws : (forall w, w ∈ ws -> wks s' !! w = wks s !! w) -> touch_hits s' b ws = touch_hits s b ws.
Proof.
  induction ws as [|w ws IH]; intros H; [done|]. cbn [touch_hits]. rewrite H by left.
  rewrite IH; [done|]. intros x Hx. apply H. by right.
Qed.

Definition hit (cl : client) : client := set_watched [] (set_flags (Z.lor (c_flags cl) CLIENT_DIRTY_CAS) cl).

Lemma hit_hit cl : hit (hit cl) = hit cl.
Proof. unfold hit. simpl. by rewrite <- Z.lor_assoc, Z.lor_diag. Qed.

Lemma dirty_unwatch c s cl : wf s -> clients s !! c = Some cl ->
  exists s', unwatchAllKeys c (dirty_cas c s) = Some s' /\ wf s' /\ frame s s' /\
    clients s' = <[c := hit cl]> (clients s) /\
    (forall w wk, wks s' !! w = Some wk <-> wks s !! w = Some wk /\ wk_client wk <> c).
Proof.
  intros H Hcl.
  destruct (unwatchAllKeys_spec c (dirty_cas c s) (set_flags (Z.lor (c_flags cl) CLIENT_DIRTY_CAS) cl))
    as (s' & -> & H' & F & C & W).
  - by apply wf_upd.
  - unfold dirty_cas. by rewrite lookup_upd, decide_True, Hcl by done.
  - exists s'. split_and!; try done. rewrite C. apply map_eq. intros i. unfold dirty_cas. rewrite !lookup_insert, lookup_upd.
    by case_decide.
Qed.

Lemma touch_loop_spec d k ws : forall s db, wf s -> dbs s !! d = Some db -> NoDup ws ->
  (forall w, w ∈ ws -> exists wk, wks s !! w = Some wk /\ wk_db wk = d /\ wk_key wk = k) ->
  let present := bool_decide (k ∈ db_dict db) in
  exists s', touch_loop d k ws s = Some s' /\ wf s' /\ frame s s' /\
    (forall c, clients s' !! c =
       if decide (c ∈ touch_hits s present ws) then hit <$> clients s !! c else clients s !! c).
Proof.
  induction ws as [|w ws IH]; intros s db H Hd Hnd Hin present; cbn [touch_loop touch_hits].
  - exists s. by split_and!.
  - apply NoDup_cons in Hnd as [Hw Hnd]. destruct (Hin w) as (wk & Hwk & Hwd & Hwkk); [left|]. rewrite Hwk. bnd.
    destruct (wk_expired wk) eqn:Ee.
    + rewrite Hd. bnd. rewrite (bool_decide_true (d = _)), (bool_decide_true (k = _)) by done. simpl. unfold present in *.
      destruct (decide (k ∈ db_dict db)) as [Ep|Ep].
      * rewrite bool_decide_false by (intros X; by apply X). rewrite bool_decide_true by done. exists s. by split_and!.
      * rewrite bool_decide_true, bool_decide_false by done.
        destruct (IH (set_expired w false s) db) as (s' & -> & H' & F & C); try done.
        -- by apply wf_set_expired.
        -- intros x Hx. destruct (Hin x) as (a & Ha & ?); [by right|]. exists a. split; [|done]. simpl.
           by rewrite lookup_alter_ne by (intros ->; done).
        -- exists s'. split_and!; try done. intros c. rewrite C, bool_decide_false by done.
           rewrite (touch_hits_ext s) by (intros x Hx; simpl; rewrite lookup_alter_ne; [done|intros ->; done]). done.
    + destruct (wf_wk s H w wk Hwk) as [(l & Hl & _) _]. unfold watched_of in Hl.
      destruct (clients s !! wk_client wk) as [cl|] eqn:Hcl; [|done].
      destruct (dirty_unwatch _ _ _ H Hcl) as (s1 & -> & H1 & F1 & C1 & W1). bnd.
      destruct (frame_dbs _ _ _ _ F1 Hd) as (db1 & Hd1 & E1 & E2).
      assert (Hk : forall x, x ∈ ws -> wks s1 !! x = wks s !! x).
      { intros x Hx. destruct (Hin x) as (a & Ha & ? & ?); [by right|]. rewrite Ha. apply W1. split; [done|]. intros Hc.
        apply Hw. replace w with x; [done|]. apply (wf_once s H x w a wk); congruence. }
      destruct (IH s1 db1) as (s' & -> & H' & F & C); try done.
      { intros x Hx. rewrite Hk by done. apply Hin. by right. }
      exists s'. split_and!; [done|done|by transitivity s1|]. intros c. rewrite C, E1, C1. rewrite (touch_hits_ext s) by done.
      rewrite lookup_insert. fold present. destruct (decide (wk_client wk = c)) as [<-|Hne].
      * rewrite (decide_True (P := wk_client wk ∈ _ :: _)) by left. rewrite Hcl. destruct (decide (wk_client wk ∈ touch_hits s present ws)); [|done]. exact (f_equal Some (hit_hit cl)).
      * destruct (decide (c ∈ touch_hits s present ws)); [rewrite decide_True|rewrite decide_False]; set_solver.
Qed.

(** A touch of a key flags and unwatches exactly the clients in [touch_hits];
    nothing else changes. *)
Lemma touchWatchedKey_total d k db s : wf s -> dbs s !! d = Some db ->
  exists s', touchWatchedKey d k s = Some s' /\ wf s' /\ frame s s' /\
    (forall c, clients s' !! c =
       if decide (c ∈ touch_hits s (bool_decide (k ∈ db_dict db)) (watchers s d k)) then hit <$> clients s !! c else clients s !! c).
Proof.
  intros H Hd. destruct (wf_db s H d k) as [Hnd Hin]. unfold touchWatchedKey. rewrite Hd. bnd.
  destruct (db_watched db !! k) as [l|] eqn:E.
  - assert (Hl : watchers s d k = l) by (unfold watchers; rewrite Hd; simpl; by rewrite E). rewrite Hl in *.
    by apply touch_loop_spec.
  - exists s. split_and!; try done. intros c. unfold watchers. rewrite Hd. simpl. by rewrite E.
Qed.

(** With no watcher marked expired, the clients that watch the key. *)
Lemma touch_hits_all s b ws : (forall w, w ∈ ws -> exists wk, wks s !! w = Some wk /\ wk_expired wk = false) ->
  forall c, c ∈ touch_hits s b ws <-> exists w wk, w ∈ ws /\ wks s !! w = Some wk /\ wk_client wk = c.
Proof.
  induction ws as [|w ws IH]; intros H c; cbn [touch_hits].
  - split; [by intros ?%elem_of_nil|]. by intros (w & wk & ?%elem_of_nil & _).
  - destruct (H w) as (wk & Hw & He); [left|]. rewrite Hw, He, elem_of_cons, IH by (intros x Hx; apply H; by right). split.
    + intros [->|(x & a & ? & ? & ?)]; [exists w, wk; by split; [left|]|exists x, a; by split; [right|]].
    + intros (x & a & [->|Hx]%elem_of_cons & ? & ?); [left; congruence|right; eauto].
Qed.

Lemma watches_watchers s c d k : wf s ->
  (watches s c d k <-> exists w wk, w ∈ watchers s d k /\ wks s !! w = Some wk /\ wk_client wk = c).
Proof.
  intros H. split.
  - intros (w & wk & Hw & <- & <- & <-). exists w, wk. split_and!; try done. by apply (wf_wk s H).
  - intros (w & wk & Hin & Hw & <-). destruct (proj2 (wf_db s H d k) w Hin) as (a & ? & ? & ?). simplify_eq. by exists w, wk.
Qed.

(** ** Emptying or swapping a database *)

Definition dirtied (cl : client) : client := set_flags (Z.lor (c_flags cl) CLIENT_DIRTY_CAS) cl.

Lemma dirtied_dirtied cl : dirtied (dirtied cl) = dirtied cl.
Proof. unfold dirtied. simpl. by rewrite <- Z.lor_assoc, Z.lor_diag. Qed.

(** The key is there, and not expired, in the database that takes the place
    of the emptied one. *)
Definition live_in (s : server) (replaced : option dbid) (k : key) : bool :=
  match replaced with
  | None => false
  | Some r => match dbs s !! r with
              | None => false
              | Some db => bool_decide (k ∈ db_dict db) && negb (default true (keyIsExpired s r k))
              end
  end.

(** What the key was for its watcher (gone when it was marked expired) is not
    what it becomes. *)
Definition changed (s : server) (in_emptied : bool) (replaced : option dbid) (k : key) (wk : watchedKey) : bool :=
  live_in s replaced k || (negb (wk_expired wk) && in_emptied).

Lemma live_in_frame s s' replaced k : frame s s' -> live_in s' replaced k = live_in s replaced k.
Proof.
  intros F. destruct replaced as [r|]; [|done]. simpl. destruct (dbs s !! r) as [db|] eqn:E.
  - destruct (frame_dbs _ _ _ _ F E) as (db' & -> & -> & _). by rewrite (keyIsExpired_frame _ _ _ _ F).
  - pose proof (proj1 F r) as Hd. unfold data_of in Hd. rewrite E in Hd. by destruct (dbs s' !! r).
Qed.

Definition in_replaced (s : server) (replaced : option dbid) (k : key) : Prop :=
  exists r db, replaced = Some r /\ dbs s !! r = Some db /\ k ∈ db_dict db.

Lemma touch_all_one_spec k in_emptied replaced w wk s : wf s -> wks s !! w = Some wk ->
  (forall r, replaced = Some r -> is_Some (dbs s !! r)) -> (in_emptied = false -> in_replaced s replaced k) ->
  exists b s', touch_all_one k in_emptied replaced w s = Some s' /\
    s' = (if changed s in_emptied replaced k wk then dirty_cas (wk_client wk) s
          else if bool_decide (b = wk_expired wk) then s else set_expired w b s).
Proof.
  intros H Hw Hr Hi. unfold touch_all_one, changed, live_in. rewrite Hw. bnd.
  assert (Hrr : forall r, replaced = Some r -> exists db e, dbs s !! r = Some db /\ keyIsExpired s r k = Some e).
  { intros r ->. destruct (Hr r eq_refl) as [db Hdb]. destruct (keyIsExpired_total s r k H) as [e He]; eauto. }
  destruct replaced as [r|].
  - destruct (Hrr r eq_refl) as (db & e & Hdb & He). rewrite Hdb, He. bnd. destruct (wk_expired wk) eqn:Ee; simpl.
    + destruct (decide (k ∈ db_dict db)).
      * rewrite bool_decide_true by done. exists true. destruct e; simpl; by eexists.
      * rewrite bool_decide_false by done. exists false. by eexists.
    + destruct in_emptied; simpl; [rewrite orb_true_r; exists false; by eexists|].
      destruct (Hi eq_refl) as (r' & db' & [= <-] & ? & ?). simplify_eq. rewrite bool_decide_true by done.
      rewrite He. exists true. destruct e; simpl; by eexists.
  - destruct (wk_expired wk) eqn:Ee; simpl; [exists false; by eexists|].
    destruct in_emptied; simpl; [exists false; by eexists|]. by destruct (Hi eq_refl) as (r' & db' & [=] & _).
Qed.

(** The clients the watchers of one key make dirty. *)
Definition all_hits (s : server) (in_emptied : bool) (replaced : option dbid) (k : key) (ws : list wid) : list cid :=
  omap (fun w => wk ← wks s !! w; if changed s in_emptied replaced k wk then Some (wk_client wk) else None) ws.

Lemma all_hits_ext s s' b r k ws : frame s s' -> (forall w, w ∈ ws -> wks s' !! w = wks s !! w) ->
  all_hits s' b r k ws = all_hits s b r k ws.
Proof.
  intros F. induction ws as [|w ws IH]; intros H; [done|]. unfold all_hits in *. cbn [omap list_omap].
  rewrite IH by (intros x Hx; apply H; by right). rewrite H by left. destruct (wks s !! w) as [wk|]; [|done]. simpl.
  unfold changed. by rewrite (live_in_frame s s').
Qed.

(** What a run over some watchers does: their clients [hits] are flagged. *)
Definition flagged (s s' : server) (hits : list cid) (ws : list wid) : Prop :=
  wf s' /\ frame s s' /\ (forall w, w ∉ ws -> wks s' !! w = wks s !! w) /\
  (forall c, clients s' !! c = if decide (c ∈ hits) then dirtied <$> clients s !! c else clients s !! c).

Lemma flagged_nil s : wf s -> flagged s s [] [].
Proof. intros H. by split_and!. Qed.

Lemma flagged_app s s1 s2 h1 h2 w1 w2 : flagged s s1 h1 w1 -> flagged s1 s2 h2 w2 -> flagged s s2 (h1 ++ h2) (w1 ++ w2).
Proof.
  intros (_ & F1 & W1 & C1) (H2 & F2 & W2 & C2). split; [done|]. split; [by transitivity s1|]. split.
  - intros w [Hn1 Hn2]%not_elem_of_app. by rewrite W2, W1.
  - intros c. rewrite C2, C1.
    destruct (decide (c ∈ h1)), (decide (c ∈ h2));
      [rewrite decide_True by set_solver | rewrite decide_True by set_solver |
       rewrite decide_True by set_solver | rewrite decide_False by set_solver]; try done.
    destruct (clients s !! c) as [cl|]; [|done]. exact (f_equal Some (dirtied_dirtied cl)).
Qed.

Lemma flagged_one k b r w wk s : wf s -> wks s !! w = Some wk ->
  (forall r', r = Some r' -> is_Some (dbs s !! r')) -> (b = false -> in_replaced s r k) ->
  exists s', touch_all_one k b r w s = Some s' /\ flagged s s' (all_hits s b r k [w]) [w].
Proof.
  intros H Hw Hr Hi. destruct (touch_all_one_spec k b r w wk s H Hw Hr Hi) as (e & s' & -> & ->).
  eexists. split; [done|]. unfold all_hits. cbn [omap list_omap]. rewrite Hw. simpl.
  destruct (changed s b r k wk).
  - split_and!; try done; [by apply wf_upd|]. intros c. unfold dirty_cas. rewrite lookup_upd.
    destruct (decide (wk_client wk = c)); [rewrite decide_True by set_solver|rewrite decide_False by set_solver]; done.
  - case_bool_decide; [by split_and!|]. split_and!; try done; [by apply wf_set_expired|]. intros x Hx. simpl.
    rewrite lookup_alter_ne; [done|]. set_solver.
Qed.

Lemma dbs_frame s s' r : frame s s' -> is_Some (dbs s !! r) -> is_Some (dbs s' !! r).
Proof. intros F [db Hd]. destruct (frame_dbs _ _ _ _ F Hd) as (db' & -> & _). eauto. Qed.

Lemma in_replaced_frame s s' r k : frame s s' -> in_replaced s r k -> in_replaced s' r k.
Proof.
  intros F (r' & db & -> & Hd & Hk). destruct (frame_dbs _ _ _ _ F Hd) as (db' & Hd' & E & _).
  exists r', db'. by rewrite E.
Qed.

Lemma touch_all_list_spec k b r ws : forall s, wf s -> NoDup ws -> (forall w, w ∈ ws -> is_Some (wks s !! w)) ->
  (forall r', r = Some r' -> is_Some (dbs s !! r')) -> (b = false -> in_replaced s r k) ->
  exists s', touch_all_list k b r ws s = Some s' /\ flagged s s' (all_hits s b r k ws) ws.
Proof.
  induction ws as [|w ws IH]; intros s H Hnd Hin Hr Hi; cbn [touch_all_list].
  - exists s. split; [done|]. by apply flagged_nil.
  - apply NoDup_cons in Hnd as [Hw Hnd]. destruct (Hin w) as [wk Hwk]; [left|].
    destruct (flagged_one k b r w wk s H Hwk Hr Hi) as (s1 & -> & H1). bnd.
    destruct H1 as (Hwf1 & F1 & W1 & C1).
    assert (Hk : forall x, x ∈ ws -> wks s1 !! x = wks s !! x) by (intros x Hx; apply W1; set_solver).
    destruct (IH s1) as (s' & -> & H'); try done.
    + intros x Hx. rewrite Hk by done. apply Hin. by right.
    + intros r' ->. eapply dbs_frame; eauto.
    + intros Hb. eapply in_replaced_frame; eauto.
    + exists s'. split; [done|]. rewrite (all_hits_ext s) in H' by done.
      change (w :: ws) with ([w] ++ ws). unfold all_hits. rewrite omap_app. by apply (flagged_app s s1).
Qed.

Definition keys_hits (s : server) (dict : gset key) (r : option dbid) (kls : list (key * list wid)) : list cid :=
  concat (map (fun '(k, l) => all_hits s (bool_decide (k ∈ dict)) r k l) kls).

Lemma keys_hits_ext s s' dict r kls : frame s s' -> (forall w, w ∈ concat kls.*2 -> wks s' !! w = wks s !! w) ->
  keys_hits s' dict r kls = keys_hits s dict r kls.
Proof.
  intros F. induction kls as [|[k l] kls IH]; intros H; [done|]. unfold keys_hits in *. cbn. cbn in H.
  rewrite IH by set_solver. rewrite (all_hits_ext s s') by set_solver. done.
Qed.

(** A key that is in neither database makes nobody dirty. *)
Lemma all_hits_absent s r k ws : ~ in_replaced s r k -> all_hits s false r k ws = [].
Proof.
  intros Hn. unfold all_hits. induction ws as [|w ws IH]; [done|]. cbn [omap list_omap]. rewrite IH.
  destruct (wks s !! w) as [wk|]; [|done]. simpl. unfold changed. rewrite andb_false_r, orb_false_r.
  assert (live_in s r k = false) as ->; [|done].
  destruct r as [r|]; [|done]. simpl. destruct (dbs s !! r) as [db|] eqn:E; [|done].
  rewrite bool_decide_false; [done|]. intros Hk. apply Hn. by exists r, db.
Qed.

Lemma touch_all_keys_spec db r kls : forall s, wf s -> NoDup (concat kls.*2) ->
  (forall w, w ∈ concat kls.*2 -> is_Some (wks s !! w)) -> (forall r', r = Some r' -> is_Some (dbs s !! r')) ->
  exists s', touch_all_keys db r kls s = Some s' /\ flagged s s' (keys_hits s (db_dict db) r kls) (concat kls.*2).
Proof.
  induction kls as [|[k l] kls IH]; intros s H Hnd Hin Hr; cbn [touch_all_keys].
  - exists s. split; [done|]. by apply flagged_nil.
  - cbn in Hnd, Hin. apply NoDup_app in Hnd as (Hnl & Hdis & Hnd).
    assert (exists b : bool, match r with
                | None => Some false
                | Some r => db ← dbs s !! r; Some (bool_decide (k ∈ db_dict db))
                end = Some b /\ (b = true <-> in_replaced s r k)) as (b & -> & Hb).
    { unfold in_replaced. destruct r as [r|]; [|exists false; naive_solver]. destruct (Hr r eq_refl) as [db' Hd].
      rewrite Hd. simpl. eexists. split; [done|]. rewrite bool_decide_eq_true. naive_solver. }
    bnd. set (e := bool_decide (k ∈ db_dict db)).
    assert (exists s1, (if e || b then touch_all_list k e r l s else Some s) = Some s1 /\
              flagged s s1 (all_hits s e r k l) l) as (s1 & -> & H1).
    { destruct (e || b) eqn:Eb.
      - apply touch_all_list_spec; try done; [set_solver|]. intros He. rewrite He in Eb. by apply Hb.
      - apply orb_false_elim in Eb as [-> ->]. exists s. split; [done|]. rewrite all_hits_absent by (rewrite <- Hb; done).
        by split_and!. }
    bnd. destruct (IH s1) as (s' & -> & H').
    + by destruct H1.
    + done.
    + intros w Hw. destruct H1 as (_ & _ & W1 & _). rewrite W1 by set_solver. apply Hin. set_solver.
    + intros r' ->. eapply dbs_frame; [apply H1|eauto].
    + exists s'. split; [done|]. rewrite (keys_hits_ext s) in H'.
      * by apply (flagged_app s s1).
      * apply H1.
      * intros w Hw. apply H1. set_solver.
Qed.

Lemma watchers_map s d db k l : dbs s !! d = Some db -> db_watched db !! k = Some l -> watchers s d k = l.
Proof. intros Hd Hl. unfold watchers. rewrite Hd. simpl. by rewrite Hl. Qed.

Lemma NoDup_concat_map {A} (f : key -> list A) (ks : list key) : NoDup ks -> (forall k, NoDup (f k)) ->
  (forall k1 k2 x, x ∈ f k1 -> x ∈ f k2 -> k1 = k2) -> NoDup (concat (map f ks)).
Proof.
  intros Hnd Hf Hd. induction ks as [|k ks IH]; [constructor|]. apply NoDup_cons in Hnd as [Hk Hnd]. simpl.
  apply NoDup_app. split; [done|]. split; [|by apply IH]. intros x Hx (y & [Hy1 Hy2])%list_elem_of_In%in_concat.
  apply in_map_iff in Hy1 as (k2 & <- & Hk2). apply list_elem_of_In in Hy2, Hk2. by rewrite (Hd k k2 x) in Hk.
Qed.

Lemma watched_lists s d db : dbs s !! d = Some db ->
  (map_to_list (db_watched db)).*2 = map (watchers s d) (map_to_list (db_watched db)).*1.
Proof.
  intros Hd.
  assert (Hall : forall p, p ∈ map_to_list (db_watched db) -> p.2 = watchers s d p.1).
  { intros [k l] Hp%elem_of_map_to_list. symmetry. by apply (watchers_map s d db). }
  revert Hall. generalize (map_to_list (db_watched db)) as L. induction L as [|p L IH]; intros H; [done|]. cbn.
  rewrite H by left. f_equal. apply IH. intros q Hq. apply H. by right.
Qed.

Lemma touchAll_hits s d db r c : wf s -> dbs s !! d = Some db ->
  c ∈ keys_hits s (db_dict db) r (map_to_list (db_watched db)) <->
  exists w wk, wks s !! w = Some wk /\ wk_client wk = c /\ wk_db wk = d /\
    changed s (bool_decide (wk_key wk ∈ db_dict db)) r (wk_key wk) wk = true.
Proof.
  intros H Hd. unfold keys_hits. rewrite list_elem_of_In, in_concat. setoid_rewrite in_map_iff.
  setoid_rewrite <- list_elem_of_In. split.
  - intros (? & ([k l] & <- & Hp) & Hc). apply elem_of_map_to_list in Hp.
    apply list_elem_of_omap in Hc as (w & Hw & Hx). rewrite <- (watchers_map s d db k l Hd Hp) in Hw.
    destruct (proj2 (wf_db s H d k) w Hw) as (wk & Hwk & E1 & E2). rewrite Hwk in Hx. simpl in Hx.
    case_match eqn:E; [|done]. exists w, wk. rewrite E2. naive_solver.
  - intros (w & wk & Hwk & Hc & Hdb & Hch). destruct (wf_wk s H w wk Hwk) as [_ Hin]. rewrite Hdb in Hin.
    destruct (watchers_lookup _ _ _ _ Hin) as (db' & ? & Hl). simplify_eq.
    eexists. split; [exists (wk_key wk, watchers s (wk_db wk) (wk_key wk)); split; [done|by apply elem_of_map_to_list]|].
    simpl. apply list_elem_of_omap. exists w. split; [done|]. rewrite Hwk. simpl. by rewrite Hch.
Qed.

Lemma touchAll_total d r s db : wf s -> dbs s !! d = Some db -> (forall r', r = Some r' -> is_Some (dbs s !! r')) ->
  exists s', touchAllWatchedKeysInDb d r s = Some s' /\ wf s' /\ frame s s' /\
    (forall c, clients s' !! c =
       if decide (c ∈ keys_hits s (db_dict db) r (map_to_list (db_watched db)))
       then dirtied <$> clients s !! c else clients s !! c).
Proof.
  intros H Hd Hr. unfold touchAllWatchedKeysInDb. rewrite Hd. bnd.
  destruct (touch_all_keys_spec db r (map_to_list (db_watched db)) s) as (s' & -> & Hwf & F & _ & C); try done; [..|eauto].
  - rewrite (watched_lists s d db Hd). apply NoDup_concat_map; [apply NoDup_fst_map_to_list|intros k; apply H|].
    intros k1 k2 w H1 H2. destruct (proj2 (wf_db s H d k1) w H1) as (a & ? & ? & <-).
    destruct (proj2 (wf_db s H d k2) w H2) as (b & ? & ? & <-). by simplify_eq.
  - intros w. rewrite (watched_lists s d db Hd), list_elem_of_In, in_concat. intros (l & Hl & Hw).
    apply in_map_iff in Hl as (k & <- & _). apply list_elem_of_In in Hw.
    destruct (proj2 (wf_db s H d k) w Hw) as (a & -> & _). eauto.
Qed.

(** ** Commands *)

Lemma discardTransaction_spec c s cl : wf s -> clients s !! c = Some cl ->
  exists s', discardTransaction c s = Some s' /\ wf s' /\ frame s s' /\
    clients s' = <[c := set_watched [] (set_flags (Z.land (c_flags cl)
      (Z.lnot (Z.lor (Z.lor CLIENT_MULTI CLIENT_DIRTY_CAS) CLIENT_DIRTY_EXEC))) (set_mstate initClientMultiState cl))]> (clients s).
Proof.
  intros H Hcl. unfold discardTransaction.
  set (s1 := upd c (set_mstate initClientMultiState) s). set (s2 := upd c _ s1).
  assert (H2 : clients s2 !! c = Some (set_flags (Z.land (c_flags cl)
      (Z.lnot (Z.lor (Z.lor CLIENT_MULTI CLIENT_DIRTY_CAS) CLIENT_DIRTY_EXEC))) (set_mstate initClientMultiState cl))).
  { unfold s2, s1. by rewrite !lookup_upd, !decide_True, Hcl by done. }
  assert (Hw2 : wf s2) by (by apply wf_upd, wf_upd).
  destruct (unwatchAllKeys_spec c s2 _ Hw2 H2) as (s' & -> & H' & F & C & _).
  exists s'. split_and!; try done. rewrite C. apply map_eq. intros i. rewrite !lookup_insert. case_decide; [done|].
  unfold s2, s1. by rewrite !lookup_upd, !decide_False.
Qed.

Lemma watch_loop_spec c ks : forall s cl, wf s -> clients s !! c = Some cl ->
  exists s' l, watch_loop c ks s = Some s' /\ wf s' /\ frame s s' /\
    clients s' = <[c := set_watched l cl]> (clients s).
Proof.
  induction ks as [|k ks IH]; intros s cl H Hcl; cbn [watch_loop].
  - exists s, (c_watched cl). split_and!; try done. rewrite insert_id; [done|]. rewrite Hcl. by destruct cl.
  - destruct (watchForKey_spec c k s cl H Hcl) as (s1 & l & -> & H1 & F1 & C1 & _). bnd.
    destruct (IH s1 (set_watched l cl) H1) as (s' & l' & -> & H' & F' & C'); [rewrite C1; by rewrite lookup_insert_eq|].
    exists s', l'. split_and!; try done; [by transitivity s1|]. rewrite C', C1. by rewrite insert_insert_eq.
Qed.
(** ** Sequences of operations

    The operations of this file interleaved with what the rest of the server
    does to the state in between: a client's next command is read, it selects
    a database, it gets a reply, the contents of a database change, time
    passes.  EXEC, whose commands are such operations too, follows below. *)

Inductive op :=
  | OMulti (c : cid) | ODiscard (c : cid) | OWatch (c : cid) | OUnwatch (c : cid)
  | OQueue (c : cid) (flags : Z) | OFlag (c : cid)
  | OTouch (d : dbid) (k : key) | OTouchAll (d : dbid) (replaced : option dbid)
  | ORead (c : cid) (argv : list key) | OSelect (c : cid) (d : dbid) | OReply (c : cid) (r : reply)
  | OWrite (d : dbid) (dict : gset key) (expires : gmap key Z) | OClock (now : Z).

Definition run_op (o : op) (s : server) : option server :=
  match o with
  | OMulti c => multiCommand c s
  | ODiscard c => discardCommand c s
  | OWatch c => watchCommand c s
  | OUnwatch c => unwatchCommand c s
  | OQueue c flags => queueMultiCommand c flags s
  | OFlag c => Some (flagTransaction c s)
  | OTouch d k => touchWatchedKey d k s
  | OTouchAll d r => touchAllWatchedKeysInDb d r s
  | ORead c argv => Some (upd c (fun cl => set_args argv (zlen argv) (zlen argv) 0 (c_cmd cl) cl) s)
  | OSelect c d => Some (upd c (fun cl => mkClient (c_flags cl) d (c_watched cl) (c_mstate cl) (c_argv cl) (c_argc cl)
                     (c_argv_len cl) (c_argv_len_sum cl) (c_cmd cl) (c_reply cl)) s)
  | OReply c r => Some (addReply c r s)
  | OWrite d dict expires =>
      Some (set_dbs (alter (fun db => mkDb dict expires (db_watched db)) d (dbs s)) s)
  | OClock now =>
      Some (mkServer (clients s) (dbs s) (wks s) (in_exec s) (loading s) (script_caller s) (script_time s)
              (fixed_time_expire s) (cached_time s) now)
  end.

Fixpoint run_ops (os : list op) (s : server) : option server :=
  match os with
  | [] => Some s
  | o :: os => s ← run_op o s; run_ops os s
  end.

(** The operation names clients and databases of the server; only existing
    keys have an expire. *)
Definition op_ok (s : server) (o : op) : Prop :=
  match o with
  | OMulti c | ODiscard c | OWatch c | OUnwatch c | OQueue c _ | OFlag c | ORead c _ | OReply c _ => c ∈ dom (clients s)
  | OTouch d _ => d ∈ dom (dbs s)
  | OTouchAll d r => d ∈ dom (dbs s) /\ forall r', r = Some r' -> r' ∈ dom (dbs s)
  | OSelect c d => c ∈ dom (clients s) /\ d ∈ dom (dbs s)
  | OWrite d dict expires => d ∈ dom (dbs s) /\ dom expires ⊆ dict
  | OClock _ => True
  end.

(** Whether a client exists and is blocked. *)
Definition blocked (s : server) (c : cid) : option bool :=
  (fun cl => flag (c_flags cl) CLIENT_BLOCKED) <$> clients s !! c.

(** The same clients and databases exist, and the same clients are blocked. *)
Definition same_dom (s s' : server) : Prop :=
  (forall c, blocked s' c = blocked s c) /\ dom (dbs s') = dom (dbs s).

Lemma same_dom_clients s s' : same_dom s s' -> dom (clients s') = dom (clients s).
Proof.
  intros [H _]. apply set_eq. intros c. rewrite !elem_of_dom. specialize (H c). unfold blocked in H.
  destruct (clients s !! c), (clients s' !! c); simpl in H; split; intros [? ?]; try done; eauto.
Qed.

Lemma same_dom_op_ok s s' o : same_dom s s' -> op_ok s o -> op_ok s' o.
Proof. intros H. pose proof (same_dom_clients _ _ H) as H1. destruct H as [_ H2]. destruct o; simpl; rewrite ?H1, ?H2; done. Qed.

Lemma frame_dom s s' : frame s s' -> dom (dbs s') = dom (dbs s).
Proof.
  intros [H _]. apply set_eq. intros d. rewrite !elem_of_dom. specialize (H d). unfold data_of in H.
  destruct (dbs s !! d), (dbs s' !! d); simpl in H; split; intros [? ?]; try done; eauto.
Qed.

(** Updates of a client that do not block or unblock it. *)
Definition calm (f : client -> client) : Prop :=
  forall cl, flag (c_flags (f cl)) CLIENT_BLOCKED = flag (c_flags cl) CLIENT_BLOCKED.

Lemma flag_lor_other f a b : Z.land a b = 0 -> flag (Z.lor f a) b = flag f b.
Proof. intros H. unfold flag. by rewrite Z.land_lor_distr_l, H, Z.lor_0_r. Qed.

Lemma flag_land_other f a b : Z.land a b = b -> flag (Z.land f a) b = flag f b.
Proof. intros H. unfold flag. by rewrite <- Z.land_assoc, H. Qed.

Lemma calm_lor a (g : client -> client) : Z.land a CLIENT_BLOCKED = 0 ->
  (forall cl, c_flags (g cl) = Z.lor (c_flags cl) a) -> calm g.
Proof. intros Ha Hg cl. rewrite Hg. by apply flag_lor_other. Qed.

Lemma calm_land a (g : client -> client) : Z.land a CLIENT_BLOCKED = CLIENT_BLOCKED ->
  (forall cl, c_flags (g cl) = Z.land (c_flags cl) a) -> calm g.
Proof. intros Ha Hg cl. rewrite Hg. by apply flag_land_other. Qed.

Lemma same_dom_upd c f s : calm f -> same_dom s (upd c f s).
Proof.
  intros Hf. split; [|done]. intros c'. unfold blocked. rewrite lookup_upd. case_decide; [|done].
  destruct (clients s !! c') as [cl|]; [|done]. simpl. by rewrite Hf.
Qed.

Lemma same_dom_trans s1 s2 s3 : same_dom s1 s2 -> same_dom s2 s3 -> same_dom s1 s3.
Proof. intros [H1 E1] [H2 E2]. split; [intros c; by rewrite H2|congruence]. Qed.

(** The result of an operation is well formed and has the same clients. *)
Definition fine (s : server) (r : option server) : Prop := exists s', r = Some s' /\ wf s' /\ same_dom s s'.

Lemma fine_upd c f s : inert f -> calm f -> wf s -> fine s (Some (upd c f s)).
Proof. intros Hf Hg H. eexists. split; [done|]. split; [by apply wf_upd|by apply same_dom_upd]. Qed.

Lemma fine_client c cl cl' s s' : clients s !! c = Some cl -> wf s' -> frame s s' ->
  clients s' = <[c := cl']> (clients s) ->
  flag (c_flags cl') CLIENT_BLOCKED = flag (c_flags cl) CLIENT_BLOCKED -> fine s (Some s').
Proof.
  intros Hc H' F C B. exists s'. split; [done|]. split; [done|]. split; [|by apply frame_dom].
  intros c'. unfold blocked. rewrite C, lookup_insert. case_decide as E; [|done]. subst c'. rewrite Hc. simpl. by rewrite B.
Qed.

(** A reply after the operation. *)
Lemma fine_reply c r s o : fine s o -> fine s (s ← o; Some (addReply c r s)).
Proof.
  intros (s' & -> & H' & D). simpl. eexists. split; [done|]. split; [by apply wf_upd|].
  eapply same_dom_trans; [done|by apply same_dom_upd].
Qed.

Lemma fine_map s s' (P : cid -> Prop) `{forall c, Decision (P c)} (f : client -> client) : calm f -> wf s' -> frame s s' ->
  (forall c, clients s' !! c = if decide (P c) then f <$> clients s !! c else clients s !! c) -> fine s (Some s').
Proof.
  intros Hf H' F C. exists s'. split; [done|]. split; [done|]. split; [|by apply frame_dom].
  intros c. unfold blocked. rewrite C. case_decide; [|done]. destruct (clients s !! c) as [cl|]; [|done]. simpl. by rewrite Hf.
Qed.

Lemma wf_write s d dict expires : wf s -> dom expires ⊆ dict ->
  wf (set_dbs (alter (fun db => mkDb dict expires (db_watched db)) d (dbs s)) s).
Proof.
  intros H Hsub. apply (wf_ext s); try done.
  - intros d' k. unfold watchers. simpl. rewrite lookup_alter'. case_decide; [|done]. by destruct (dbs s !! d').
  - intros w. simpl. by destruct (wks s !! w).
  - intros d' db k. simpl. rewrite lookup_alter'. case_decide; [|apply H].
    destruct (dbs s !! d') as [db0|] eqn:E; [|done]. intros [= <-]. by apply (wf_nonempty s H d' db0).
  - intros d' db k v. simpl. rewrite lookup_alter'. case_decide; [|apply H].
    destruct (dbs s !! d') as [db0|] eqn:E; [|done]. intros [= <-]. simpl. intros Hv. apply Hsub. by apply elem_of_dom_2 in Hv.
  - intros c cl Hc. apply lookup_alter_is_Some. by eapply (wf_cdb s).
Qed.

Lemma wf_select s c d f : wf s -> is_Some (dbs s !! d) -> (forall cl, c_watched (f cl) = c_watched cl /\ c_db (f cl) = d) ->
  wf (upd c f s).
Proof.
  intros H Hd Hf. apply (wf_ext s); try done; try apply H.
  - intros c'. unfold watched_of. rewrite lookup_upd. case_decide; [|done]. destruct (clients s !! c') as [cl|]; [|done].
    simpl. f_equal. apply Hf.
  - intros w. simpl. by destruct (wks s !! w).
  - intros c' cl. rewrite lookup_upd. case_decide; [|apply H]. destruct (clients s !! c'); [|done]. intros [= <-]. simpl.
    by rewrite (proj2 (Hf _)).
Qed.

Lemma calm_hit : calm hit. Proof. by apply (calm_lor CLIENT_DIRTY_CAS). Qed.
Lemma calm_dirtied : calm dirtied. Proof. by apply (calm_lor CLIENT_DIRTY_CAS). Qed.

Lemma run_op_fine o s : wf s -> op_ok s o -> fine s (run_op o s).
Proof.
  intros H. destruct o; simpl; intros Hok; try (apply elem_of_dom in Hok as [cl Hcl]).
  - unfold multiCommand. rewrite Hcl. bnd. case_match; [by apply fine_upd|].
    apply (fine_reply c ROk s (Some _)). apply fine_upd; [done|by apply (calm_lor CLIENT_MULTI)|done].
  - unfold discardCommand. rewrite Hcl. bnd. case_match; [by apply fine_upd|]. apply fine_reply.
    destruct (discardTransaction_spec c s cl H Hcl) as (s' & -> & ? & ? & ?). eapply fine_client; try done. by apply flag_land_other.
  - unfold watchCommand. rewrite Hcl. bnd. case_match; [by apply fine_upd|]. case_match; [by apply fine_upd|]. apply fine_reply.
    destruct (watch_loop_spec c (tail (take (Z.to_nat (c_argc cl)) (c_argv cl))) s cl H Hcl) as (s' & l & -> & ? & ? & ?). by eapply fine_client.
  - unfold unwatchCommand.
    destruct (unwatchAllKeys_spec c s cl H Hcl) as (s' & -> & ? & ? & C & _). bnd.
    apply (fine_reply c ROk s (Some _)). destruct (fine_client c cl (set_watched [] cl) s s' Hcl) as (s2 & [= <-] & ? & ?); try done.
    eexists. split; [done|]. split; [by apply wf_upd|]. eapply same_dom_trans; [done|].
    by apply same_dom_upd, (calm_land (Z.lnot CLIENT_DIRTY_CAS)).
  - unfold queueMultiCommand. rewrite Hcl. bnd. case_match; [by exists s|]. by apply fine_upd.
  - apply fine_upd; [intros cl'; by case_match| |done]. intros cl'. case_match; [by apply flag_lor_other|done].
  - destruct (touchWatchedKey_total d k cl s H Hcl) as (s' & -> & ? & ? & C).
    by apply (fine_map s s' (fun c => c ∈ touch_hits s (bool_decide (k ∈ db_dict cl)) (watchers s d k)) hit calm_hit).
  - destruct Hok as [[db Hd]%elem_of_dom Hr].
    destruct (touchAll_total d replaced s db H Hd) as (s' & -> & ? & ? & C);
      [|by apply (fine_map s s' (fun c => c ∈ keys_hits s (db_dict db) replaced (map_to_list (db_watched db))) dirtied calm_dirtied)].
    intros r' Hr'. by apply elem_of_dom, Hr.
  - by apply fine_upd.
  - destruct Hok as [[cl Hcl]%elem_of_dom Hd%elem_of_dom]. eexists. split; [done|]. split; [|by apply same_dom_upd].
    by apply (wf_select s c d).
  - by apply fine_upd.
  - destruct Hok as [Hd Hsub]. eexists. split; [done|]. split; [by apply wf_write|]. split; [done|]. apply dom_alter_L.
  - eexists. split; [done|]. split; [|done]. apply (wf_ext s); try done; try apply H. intros w. simpl. by destruct (wks s !! w).
Qed.

(** ** The dirty flag stays until the client resets it *)

Definition dirty (s : server) (c : cid) : Prop :=
  exists cl, clients s !! c = Some cl /\ flag (c_flags cl) CLIENT_DIRTY_CAS = true.

(** The commands by which a client itself gives up its transaction. *)
Definition resets (c : cid) (o : op) : Prop := o = ODiscard c \/ o = OUnwatch c.

Lemma flag_lor f a b : flag f b = true -> flag (Z.lor f a) b = true.
Proof.
  unfold flag. rewrite !negb_true_iff, !Z.eqb_neq, Z.land_lor_distr_l. intros H E. apply H.
  apply Z.lor_eq_0_iff in E. tauto.
Qed.

Lemma flag_lor_same f a : a <> 0 -> flag (Z.lor f a) a = true.
Proof.
  intros H. unfold flag. rewrite negb_true_iff, Z.eqb_neq, Z.land_lor_distr_l, Z.land_diag. intros [_ ?]%Z.lor_eq_0_iff. done.
Qed.

(** Updates that leave the flag, in any client or in the clients other than [c]. *)
Lemma dirty_upd s c c' f : dirty s c ->
  (forall cl, c = c' -> flag (c_flags cl) CLIENT_DIRTY_CAS = true -> flag (c_flags (f cl)) CLIENT_DIRTY_CAS = true) ->
  dirty (upd c' f s) c.
Proof.
  intros (cl & Hc & Hf) H. unfold dirty. setoid_rewrite lookup_upd. rewrite Hc. case_decide as E; [|eauto].
  simpl. exists (f cl). split; [done|]. by apply H.
Qed.

Lemma dirty_map s s' c (P : cid -> Prop) `{forall c, Decision (P c)} f : dirty s c ->
  (forall cl, c_flags (f cl) = Z.lor (c_flags cl) CLIENT_DIRTY_CAS) ->
  (forall c, clients s' !! c = if decide (P c) then f <$> clients s !! c else clients s !! c) -> dirty s' c.
Proof.
  intros (cl & Hc & Hf) Hfl C. unfold dirty. setoid_rewrite C. rewrite Hc. case_decide; [|eauto]. simpl.
  exists (f cl). split; [done|]. rewrite Hfl. by apply flag_lor.
Qed.

Lemma dirty_insert s s' c c' cl : dirty s c -> clients s' = <[c' := cl]> (clients s) ->
  (forall cl0, c = c' -> clients s !! c = Some cl0 -> c_flags cl = c_flags cl0) -> dirty s' c.
Proof.
  intros (cl0 & Hc & Hf) C H. unfold dirty. rewrite C. setoid_rewrite lookup_insert. case_decide as E; [|eauto].
  exists cl. split; [done|]. by rewrite (H cl0).
Qed.

Lemma run_op_dirty c o s s' : wf s -> op_ok s o -> ~ resets c o -> dirty s c -> run_op o s = Some s' -> dirty s' c.
Proof.
  intros H Hok Hr Hd Hrun. unfold resets in Hr. destruct o; simpl in *; try (apply elem_of_dom in Hok as [cl Hcl]).
  - unfold multiCommand in Hrun. rewrite Hcl in Hrun. simpl in Hrun. case_match; injection Hrun as <-; repeat apply dirty_upd; try done.
    intros cl' _. apply flag_lor.
  - assert (c <> c0) by (intros ->; tauto). unfold discardCommand in Hrun. rewrite Hcl in Hrun. simpl in Hrun.
    case_match; [injection Hrun as <-; by apply dirty_upd|].
    destruct (discardTransaction_spec c0 s cl H Hcl) as (s1 & E & _ & _ & C). rewrite E in Hrun. injection Hrun as <-.
    apply dirty_upd; [|done]. by eapply dirty_insert.
  - unfold watchCommand in Hrun. rewrite Hcl in Hrun. simpl in Hrun.
    repeat (case_match; [injection Hrun as <-; by apply dirty_upd|]).
    destruct (watch_loop_spec c0 (tail (take (Z.to_nat (c_argc cl)) (c_argv cl))) s cl H Hcl) as (s1 & l & E & _ & _ & C).
    rewrite E in Hrun. injection Hrun as <-. apply dirty_upd; [|done].
    eapply dirty_insert; [done|exact C|]. intros cl0 -> ?. by simplify_eq.
  - assert (c <> c0) by (intros ->; tauto). unfold unwatchCommand in Hrun.
    destruct (unwatchAllKeys_spec c0 s cl H Hcl) as (s1 & E & _ & _ & C & _). rewrite E in Hrun. injection Hrun as <-.
    apply dirty_upd; [|done]. apply dirty_upd; [|done]. by eapply dirty_insert.
  - unfold queueMultiCommand in Hrun. rewrite Hcl in Hrun. simpl in Hrun. case_match; injection Hrun as <-; [done|]. by apply dirty_upd.
  - injection Hrun as <-. apply dirty_upd; [done|]. intros cl' _ ?. case_match; [|done]. by apply flag_lor.
  - destruct (touchWatchedKey_total d k cl s H Hcl) as (s1 & E & _ & _ & C). rewrite E in Hrun. injection Hrun as <-.
    by apply (dirty_map s _ c (fun c => c ∈ touch_hits s (bool_decide (k ∈ db_dict cl)) (watchers s d k)) hit Hd).
  - destruct Hok as [[db Hdb]%elem_of_dom Hr'].
    destruct (touchAll_total d replaced s db H Hdb) as (s1 & E & _ & _ & C); [intros r' ?; by apply elem_of_dom, Hr'|].
    rewrite E in Hrun. injection Hrun as <-. by apply (dirty_map s _ c (fun c => c ∈ keys_hits s (db_dict db) replaced (map_to_list (db_watched db))) dirtied Hd).
  - injection Hrun as <-. by apply dirty_upd.
  - injection Hrun as <-. by apply dirty_upd.
  - injection Hrun as <-. by apply dirty_upd.
  - by injection Hrun as <-.
  - by injection Hrun as <-.
Qed.

Lemma run_ops_fine os : forall s, wf s -> Forall (op_ok s) os -> fine s (run_ops os s).
Proof.
  induction os as [|o os IH]; intros s H Hok; cbn [run_ops]; [by exists s|].
  apply Forall_cons in Hok as [Ho Hos]. destruct (run_op_fine o s H Ho) as (s1 & -> & H1 & D1). bnd.
  destruct (IH s1 H1) as (s' & -> & H' & D'); [eapply Forall_impl; [exact Hos|]; intros o0; exact (same_dom_op_ok s s1 o0 D1)|].
  exists s'. split; [done|]. split; [done|]. by eapply same_dom_trans.
Qed.

Lemma run_ops_dirty c os : forall s s', wf s -> Forall (op_ok s) os -> Forall (fun o => ~ resets c o) os -> dirty s c ->
  run_ops os s = Some s' -> dirty s' c.
Proof.
  induction os as [|o os IH]; intros s s' H Hok Hr Hd; cbn [run_ops]; [by intros [= <-]|].
  apply Forall_cons in Hok as [Ho Hos], Hr as [Hr1 Hr].
  destruct (run_op_fine o s H Ho) as (s1 & E & H1 & D1). rewrite E. simpl. intros Hrun.
  apply (IH s1 s'); try done; [eapply Forall_impl; [exact Hos|]; intros o0; exact (same_dom_op_ok s s1 o0 D1)|]. by apply (run_op_dirty c o s s1).
Qed.
(** ** EXEC *)

(** The client after the end of a transaction. *)
Definition reset (cl : client) : client :=
  set_watched [] (set_flags (Z.land (c_flags cl)
    (Z.lnot (Z.lor (Z.lor CLIENT_MULTI CLIENT_DIRTY_CAS) CLIENT_DIRTY_EXEC))) (set_mstate initClientMultiState cl)).

Lemma reset_flag cl b : b ∈ [CLIENT_MULTI; CLIENT_DIRTY_CAS; CLIENT_DIRTY_EXEC] -> flag (c_flags (reset cl)) b = false.
Proof.
  intros Hb. unfold flag, reset. simpl. rewrite negb_false_iff, Z.eqb_eq, <- Z.land_assoc.
  assert (Z.land (Z.lnot (Z.lor (Z.lor CLIENT_MULTI CLIENT_DIRTY_CAS) CLIENT_DIRTY_EXEC)) b = 0) as ->; [|apply Z.land_0_r].
  repeat (apply elem_of_cons in Hb as [-> | Hb]; [done|]). by apply elem_of_nil in Hb.
Qed.

Lemma reset_dirtied cl r : reset (add_reply r (dirtied cl)) = reset (add_reply r cl).
Proof.
  unfold reset, dirtied. simpl. unfold set_watched, set_flags, set_mstate, add_reply. simpl. f_equal.
  rewrite Z.land_lor_distr_l. assert (Z.land CLIENT_DIRTY_CAS (Z.lnot (Z.lor (Z.lor CLIENT_MULTI CLIENT_DIRTY_CAS) CLIENT_DIRTY_EXEC)) = 0) as -> by done.
  apply Z.lor_0_r.
Qed.

Lemma expired_loop_total s ws : wf s ->
  (forall w, w ∈ ws -> exists wk, wks s !! w = Some wk /\ is_Some (dbs s !! wk_db wk)) -> is_Some (expired_loop s ws).
Proof.
  intros H. induction ws as [|w ws IH]; intros Hin; cbn [expired_loop]; [eauto|].
  assert (is_Some (expired_loop s ws)) by (apply IH; intros x Hx; apply Hin; by right).
  destruct (Hin w) as (wk & Hw & Hd); [left|]. rewrite Hw. bnd. case_match; [done|].
  destruct (keyIsExpired_total s (wk_db wk) (wk_key wk) H Hd) as [e ->]. bnd. destruct e; eauto.
Qed.

Lemma isWatchedKeyExpired_total c s cl : wf s -> clients s !! c = Some cl -> is_Some (isWatchedKeyExpired c s).
Proof.
  intros H Hcl. unfold isWatchedKeyExpired. rewrite Hcl. bnd. apply expired_loop_total; [done|]. intros w Hw.
  destruct (wf_client s H c (c_watched cl)) as [_ Hin]; [unfold watched_of; by rewrite Hcl|].
  destruct (Hin w Hw) as (wk & Hwk & _). exists wk. split; [done|]. destruct (wf_wk s H w wk Hwk) as [_ Hx].
  destruct (watchers_lookup _ _ _ _ Hx) as (db & -> & _). eauto.
Qed.

(** The reply of an aborted EXEC. *)
Definition abort_reply (cl : client) : reply := if flag (c_flags cl) CLIENT_DIRTY_EXEC then RExecAbort else RNullArray.

Section exec_props.
Context (call : cid -> Z -> server -> option server) (acl : cid -> server -> Z) (acl_log : cid -> Z -> server -> server).
Context (CMD_CALL_NONE CMD_CALL_FULL : Z).
Abbreviation EXEC := (execCommand call acl acl_log CMD_CALL_NONE CMD_CALL_FULL).

Lemma exec_abort c s cl e : wf s -> clients s !! c = Some cl -> flag (c_flags cl) CLIENT_MULTI = true ->
  isWatchedKeyExpired c s = Some e ->
  e || flag (c_flags cl) CLIENT_DIRTY_CAS || flag (c_flags cl) CLIENT_DIRTY_EXEC = true ->
  exists s', EXEC c s = Some s' /\ wf s' /\ frame s s' /\
    clients s' = <[c := reset (add_reply (abort_reply cl) cl)]> (clients s).
Proof.
  intros H Hcl Hm He Hd. unfold execCommand. rewrite Hcl. bnd. rewrite Hm. simpl. rewrite He. bnd.
  set (s1 := if e then dirty_cas c s else s). set (cl1 := if e then dirtied cl else cl).
  assert (Hc1 : clients s1 !! c = Some cl1) by (unfold s1, cl1, dirty_cas; destruct e; [by rewrite lookup_upd, decide_True, Hcl|done]).
  assert (Hflag : flag (c_flags cl1) (Z.lor CLIENT_DIRTY_CAS CLIENT_DIRTY_EXEC) = true /\
                  abort_reply cl1 = abort_reply cl).
  { unfold abort_reply, cl1. split.
    - unfold flag. rewrite negb_true_iff, Z.eqb_neq, Z.land_lor_distr_r. intros [E1 E2]%Z.lor_eq_0_iff. revert Hd.
      destruct e; simpl in *.
      + revert E1. rewrite Z.land_lor_distr_l. by intros [_ ?]%Z.lor_eq_0_iff.
      + unfold flag. by rewrite E1, E2.
    - destruct e; [|done]. unfold dirtied. simpl. by rewrite flag_lor_other. }
  destruct Hflag as [Hf Ha]. rewrite Hc1. bnd. rewrite Hf.
  assert ((if flag (c_flags cl1) CLIENT_DIRTY_EXEC then addReply c RExecAbort s1 else addReply c RNullArray s1)
          = addReply c (abort_reply cl1) s1) as -> by (unfold abort_reply; by case_match).
  assert (H1 : wf s1) by (unfold s1; destruct e; [by apply wf_upd|done]).
  destruct (discardTransaction_spec c (addReply c (abort_reply cl1) s1) (add_reply (abort_reply cl1) cl1)) as (s' & -> & H' & F & C).
  - by apply wf_upd.
  - unfold addReply. by rewrite lookup_upd, decide_True, Hc1.
  - exists s'. split_and!; try done.
    + transitivity s1; [unfold s1; by destruct e|done].
    + rewrite C, Ha. fold (reset (add_reply (abort_reply cl) cl1)).
      assert (reset (add_reply (abort_reply cl) cl1) = reset (add_reply (abort_reply cl) cl)) as ->
        by (unfold cl1; destruct e; [apply reset_dirtied|done]).
      apply map_eq. intros i. rewrite !lookup_insert. case_decide; [done|]. unfold addReply, s1, dirty_cas.
      by destruct e; rewrite !lookup_upd, !decide_False.
Qed.

(** The queue as a list of commands to run one after the other. *)
Fixpoint run_queue (c : cid) (j : nat) (mcs : list multiCmd) (s : server) : option server :=
  match mcs with
  | [] => Some s
  | mc :: mcs =>
      s ← run_cmd call acl acl_log CMD_CALL_NONE CMD_CALL_FULL c mc s;
      run_queue c (S j) mcs (store_back c j s)
  end.

(** What EXEC relies on in the commands: they return, keep the watch indexes
    consistent and the client's queue, and do not block a client that must not
    block. *)
Definition call_ok (c : cid) : Prop := forall fl s cl, wf s -> clients s !! c = Some cl ->
  flag (c_flags cl) CLIENT_DENY_BLOCKING = true -> flag (c_flags cl) CLIENT_BLOCKED = false ->
  exists s' cl', call c fl s = Some s' /\ wf s' /\ clients s' !! c = Some cl' /\ c_mstate cl' = c_mstate cl /\
    flag (c_flags cl') CLIENT_DENY_BLOCKING = true /\ flag (c_flags cl') CLIENT_BLOCKED = false.
Definition acl_log_ok (c : cid) : Prop := forall r s, wf s -> wf (acl_log c r s) /\ clients (acl_log c r s) = clients s.

Lemma run_cmd_ok c mc s cl : call_ok c -> acl_log_ok c -> wf s -> clients s !! c = Some cl ->
  flag (c_flags cl) CLIENT_DENY_BLOCKING = true -> flag (c_flags cl) CLIENT_BLOCKED = false ->
  exists s' cl', run_cmd call acl acl_log CMD_CALL_NONE CMD_CALL_FULL c mc s = Some s' /\ wf s' /\
    clients s' !! c = Some cl' /\ c_mstate cl' = c_mstate cl /\ flag (c_flags cl') CLIENT_DENY_BLOCKING = true /\
    flag (c_flags cl') CLIENT_BLOCKED = false.
Proof.
  intros Hcall Hlog H Hcl Hf Hb. unfold run_cmd.
  set (s1 := upd c _ s). set (cl1 := set_args (mc_argv mc) (mc_argc mc) (mc_argv_len mc) (c_argv_len_sum cl) (mc_cmd mc) cl).
  assert (Hc1 : clients s1 !! c = Some cl1) by (unfold s1; by rewrite lookup_upd, decide_True, Hcl).
  assert (H1 : wf s1) by (by apply wf_upd).
  case_match.
  - destruct (Hlog (acl c s1) s1 H1) as [H2 C2]. eexists _, _. split; [done|]. split; [by apply wf_upd|].
    unfold addReply. rewrite lookup_upd, decide_True, C2, Hc1 by done. by split_and!.
  - destruct (Hcall (if c =? CLIENT_ID_AOF then CMD_CALL_NONE else CMD_CALL_FULL) s1 cl1 H1 Hc1 Hf Hb)
      as (s2 & cl2 & -> & H2 & C2 & E2 & F2 & B2). bnd. rewrite C2. bnd. rewrite B2. by exists s2, cl2.
Qed.

Lemma exec_loop_queue c mcs : forall j s cl, call_ok c -> acl_log_ok c -> wf s -> clients s !! c = Some cl ->
  flag (c_flags cl) CLIENT_DENY_BLOCKING = true -> flag (c_flags cl) CLIENT_BLOCKED = false ->
  drop j (commands (c_mstate cl)) = mcs ->
  exists s' cl', run_queue c j mcs s = Some s' /\
    exec_loop call acl acl_log CMD_CALL_NONE CMD_CALL_FULL (length mcs) c j s = Some s' /\ wf s' /\ clients s' !! c = Some cl'.
Proof.
  induction mcs as [|mc mcs IH]; intros j s cl Hcall Hlog H Hcl Hf Hb Hq; cbn [run_queue length exec_loop]; rewrite Hcl; bnd.
  - apply (f_equal length) in Hq. rewrite length_drop in Hq. simpl in Hq. rewrite decide_False by lia. by exists s, cl.
  - assert (Hj : commands (c_mstate cl) !! j = Some mc) by (rewrite <- (Nat.add_0_r j), <- lookup_drop, Hq; done).
    rewrite decide_True by (by apply lookup_lt_Some in Hj). unfold exec_one at 1. rewrite Hcl. bnd. rewrite Hj. bnd.
    destruct (run_cmd_ok c mc s cl Hcall Hlog H Hcl Hf Hb) as (s1 & cl1 & -> & H1 & C1 & E1 & F1 & B1). bnd.
    apply IH with (cl := set_mstate (mkMS (<[j := mkCmd (c_argv cl1) (c_argv_len cl1) (c_argc cl1) (c_cmd cl1)]> (commands (c_mstate cl1)))
       (cmd_flags (c_mstate cl1)) (cmd_inv_flags (c_mstate cl1)) (argv_len_sums (c_mstate cl1)) (alloc_count (c_mstate cl1))) cl1); try done.
    + by apply wf_upd.
    + unfold store_back. by rewrite lookup_upd, decide_True, C1.
    + simpl. rewrite drop_insert_lt by lia. rewrite E1. rewrite <- Nat.add_1_r, <- drop_drop, Hq. done.
Qed.
End exec_props.

(** EXEC of a clean transaction, step by step. *)
Lemma exec_runs call acl acl_log none full c s cl : call_ok call c -> acl_log_ok acl_log c -> wf s ->
  clients s !! c = Some cl -> flag (c_flags cl) CLIENT_MULTI = true -> isWatchedKeyExpired c s = Some false ->
  flag (c_flags cl) (Z.lor CLIENT_DIRTY_CAS CLIENT_DIRTY_EXEC) = false -> flag (c_flags cl) CLIENT_BLOCKED = false ->
  exists s1 s2 s' cl2,
    (wf s1 /\ in_exec s1 = true /\ (forall d, data_of s1 d = data_of s d) /\
     clients s1 = <[c := add_reply (RArrayLen (count (c_mstate cl)))
                           (set_watched [] (set_flags (Z.lor (c_flags cl) CLIENT_DENY_BLOCKING) cl))]> (clients s)) /\
    run_queue call acl acl_log none full c 0 (commands (c_mstate cl)) s1 = Some s2 /\ clients s2 !! c = Some cl2 /\
    execCommand call acl acl_log none full c s = Some s' /\
    (wf s' /\ in_exec s' = false /\ (forall d, data_of s' d = data_of s2 d) /\
     exists f, clients s' = <[c := reset (set_args (c_argv cl) (c_argc cl) (c_argv_len cl) (c_argv_len_sum cl2) (c_cmd cl)
                                      (set_flags f cl2))]> (clients s2) /\
       f = if flag (c_flags cl) CLIENT_DENY_BLOCKING then c_flags cl2 else Z.land (c_flags cl2) (Z.lnot CLIENT_DENY_BLOCKING)).
Proof.
  intros Hcall Hlog H Hcl Hm He Hd Hb.
  set (s0 := upd c (fun cl => set_flags (Z.lor (c_flags cl) CLIENT_DENY_BLOCKING) cl) s).
  set (cl0 := set_flags (Z.lor (c_flags cl) CLIENT_DENY_BLOCKING) cl).
  assert (Hc0 : clients s0 !! c = Some cl0) by (unfold s0; by rewrite lookup_upd, decide_True, Hcl).
  assert (H0 : wf s0) by (by apply wf_upd).
  destruct (unwatchAllKeys_spec c s0 cl0 H0 Hc0) as (s0' & Eu & Hu & Fu & Cu & _).
  set (s1 := addReply c (RArrayLen (count (c_mstate cl))) (set_in_exec true s0')).
  set (cl1 := add_reply (RArrayLen (count (c_mstate cl))) (set_watched [] cl0)).
  assert (Hc1 : clients s1 !! c = Some cl1).
  { unfold s1, addReply. rewrite lookup_upd, decide_True by done. simpl. by rewrite Cu, lookup_insert_eq. }
  assert (H1 : wf s1) by (by apply wf_upd, wf_set_in_exec).
  destruct (exec_loop_queue call acl acl_log none full c (commands (c_mstate cl)) 0 s1 cl1)
    as (s2 & cl2 & Eq & El & H2 & C2); try done.
  { simpl. by apply flag_lor_same. }
  { simpl. by rewrite flag_lor_other. }
  set (f := if flag (c_flags cl) CLIENT_DENY_BLOCKING then c_flags cl2 else Z.land (c_flags cl2) (Z.lnot CLIENT_DENY_BLOCKING)).
  set (s3 := if negb (flag (c_flags cl) CLIENT_DENY_BLOCKING)
             then upd c (fun cl => set_flags (Z.land (c_flags cl) (Z.lnot CLIENT_DENY_BLOCKING)) cl) s2 else s2).
  set (s4 := upd c (fun c1 => set_args (c_argv cl) (c_argc cl) (c_argv_len cl) (c_argv_len_sum c1) (c_cmd cl) c1) s3).
  set (cl4 := set_args (c_argv cl) (c_argc cl) (c_argv_len cl) (c_argv_len_sum cl2) (c_cmd cl) (set_flags f cl2)).
  assert (Hc3 : clients s3 !! c = Some (set_flags f cl2)).
  { unfold s3, f. destruct (flag (c_flags cl) CLIENT_DENY_BLOCKING); simpl; [rewrite C2; by destruct cl2|].
    by rewrite lookup_alter', decide_True, C2. }
  assert (Hc4 : clients s4 !! c = Some cl4) by (unfold s4; by rewrite lookup_upd, decide_True, Hc3).
  assert (H4 : wf s4) by (apply wf_upd; [done|]; unfold s3; case_match; [by apply wf_upd|done]).
  destruct (discardTransaction_spec c s4 cl4 H4 Hc4) as (s' & Ed & H' & F' & C').
  exists s1, s2, (set_in_exec false s'), cl2. split; [|split; [done|split; [done|split]]].
  - split; [done|]. split; [done|]. split; [apply Fu|]. apply map_eq. intros i. unfold s1, addReply.
    rewrite lookup_upd. simpl. rewrite Cu, !lookup_insert. unfold s0. rewrite lookup_upd. by case_decide.
  - unfold execCommand. rewrite Hcl. bnd. rewrite Hm. simpl. rewrite He. bnd. rewrite Hcl. bnd. rewrite Hd.
    change (upd c (fun cl => set_flags (Z.lor (c_flags cl) CLIENT_DENY_BLOCKING) cl) s) with s0. rewrite Eu. bnd.
    change (addReply c (RArrayLen (count (c_mstate cl))) (set_in_exec true s0')) with s1. rewrite El. bnd.
    change (discardTransaction c _) with (discardTransaction c s4). rewrite Ed. done.
  - split; [by apply wf_set_in_exec|]. split; [done|]. split.
    + intros d. change (data_of (set_in_exec false s') d) with (data_of s' d). rewrite (proj1 F' d).
      change (data_of s3 d = data_of s2 d). unfold s3. by case_match.
    + exists f. split; [|done]. simpl. rewrite C'. apply map_eq. intros i. rewrite !lookup_insert. case_decide; [done|].
      unfold s4, s3. rewrite lookup_upd, decide_False by done. case_match; [|done]. by rewrite lookup_upd, decide_False.
Qed.

(** ** EXEC and execCommandAbort as operations

    What one command of a transaction does to this state is a list of the
    operations above, which may depend on the client and on the whole state
    ([prog]); the access control log is not part of the state. *)

Inductive step_op := SOp (o : op) | SExec (c : cid) | SExecAbort (c : cid) (error : string).

Section steps.
Context (prog : cid -> server -> list op) (acl : cid -> server -> Z) (CMD_CALL_NONE CMD_CALL_FULL : Z).

Definition call_prog (c : cid) (fl : Z) (s : server) : option server := run_ops (prog c s) s.

Definition run_step (o : step_op) (s : server) : option server :=
  match o with
  | SOp o => run_op o s
  | SExec c => execCommand call_prog acl (fun _ _ s => s) CMD_CALL_NONE CMD_CALL_FULL c s
  | SExecAbort c error => execCommandAbort c error s
  end.

Fixpoint run_steps (os : list step_op) (s : server) : option server :=
  match os with
  | [] => Some s
  | o :: os => s ← run_step o s; run_steps os s
  end.

(** A command run by EXEC reads, writes and touches keys, rewrites its own
    arguments, selects a database, unwatches its own keys and replies; it is
    not DISCARD, MULTI or WATCH, which processCommand does not queue, and
    queues nothing. *)
Definition own (c : cid) (o : op) : bool :=
  match o with
  | OMulti _ | ODiscard _ | OWatch _ | OQueue _ _ | OFlag _ => false
  | OUnwatch c' | ORead c' _ | OSelect c' _ => bool_decide (c' = c)
  | _ => true
  end.

Definition prog_ok : Prop := forall c s, wf s -> c ∈ dom (clients s) ->
  Forall (fun o => op_ok s o /\ own c o = true) (prog c s).

(** EXEC and its abort come from an existing client; a blocked one issues none. *)
Definition step_ok (s : server) (o : step_op) : Prop :=
  match o with
  | SOp o => op_ok s o
  | SExec c => blocked s c = Some false
  | SExecAbort c _ => c ∈ dom (clients s)
  end.

Lemma same_dom_step_ok s s' o : same_dom s s' -> step_ok s o -> step_ok s' o.
Proof.
  intros D. destruct o; simpl; [by apply same_dom_op_ok|by rewrite (proj1 D)|by rewrite (same_dom_clients _ _ D)].
Qed.

(** What the commands of a transaction keep of their client. *)
Definition queue_of (s : server) (c : cid) : option (multiState * bool) :=
  (fun cl => (c_mstate cl, flag (c_flags cl) CLIENT_DENY_BLOCKING)) <$> clients s !! c.

Definition quiet (f : client -> client) : Prop := forall cl, c_mstate (f cl) = c_mstate cl /\
  flag (c_flags (f cl)) CLIENT_DENY_BLOCKING = flag (c_flags cl) CLIENT_DENY_BLOCKING.

Lemma queue_upd c c' f s : quiet f -> queue_of (upd c' f s) c = queue_of s c.
Proof.
  intros Hf. unfold queue_of. rewrite lookup_upd. case_decide; [|done]. destruct (clients s !! c) as [cl|]; [|done].
  simpl. by rewrite (proj1 (Hf cl)), (proj2 (Hf cl)).
Qed.

Lemma queue_map s s' c (P : cid -> Prop) `{forall c, Decision (P c)} f : quiet f ->
  (forall c, clients s' !! c = if decide (P c) then f <$> clients s !! c else clients s !! c) ->
  queue_of s' c = queue_of s c.
Proof.
  intros Hf C. unfold queue_of. rewrite C. case_decide; [|done]. destruct (clients s !! c) as [cl|]; [|done].
  simpl. by rewrite (proj1 (Hf cl)), (proj2 (Hf cl)).
Qed.

Lemma queue_insert s s' c c' cl cl' : clients s !! c' = Some cl -> clients s' = <[c' := cl']> (clients s) ->
  c_mstate cl' = c_mstate cl -> c_flags cl' = c_flags cl -> queue_of s' c = queue_of s c.
Proof.
  intros Hc C E1 E2. unfold queue_of. rewrite C, lookup_insert. case_decide as E; [|done]. subst c'. rewrite Hc. simpl.
  by rewrite E1, E2.
Qed.

Lemma run_op_own c o s s' : wf s -> op_ok s o -> own c o = true -> run_op o s = Some s' -> queue_of s' c = queue_of s c.
Proof.
  intros H Hok Ho Hrun. destruct o; simpl in Hok, Ho, Hrun; try done; try (apply elem_of_dom in Hok as [cl Hcl]).
  - unfold unwatchCommand in Hrun. destruct (unwatchAllKeys_spec c0 s cl H Hcl) as (s1 & E & _ & _ & C & _).
    rewrite E in Hrun. injection Hrun as <-. unfold addReply. rewrite !queue_upd; try done.
    + by eapply queue_insert.
    + intros cl'. split; [done|]. by apply flag_land_other.
  - destruct (touchWatchedKey_total d k cl s H Hcl) as (s1 & E & _ & _ & C). rewrite E in Hrun. injection Hrun as <-.
    apply (queue_map s _ c (fun c => c ∈ touch_hits s (bool_decide (k ∈ db_dict cl)) (watchers s d k)) hit); [|done].
    intros cl'. split; [done|]. by apply flag_lor_other.
  - destruct Hok as [[db Hdb]%elem_of_dom Hr'].
    destruct (touchAll_total d replaced s db H Hdb) as (s1 & E & _ & _ & C); [intros r' ?; by apply elem_of_dom, Hr'|].
    rewrite E in Hrun. injection Hrun as <-.
    apply (queue_map s _ c (fun c => c ∈ keys_hits s (db_dict db) replaced (map_to_list (db_watched db))) dirtied); [|done].
    intros cl'. split; [done|]. by apply flag_lor_other.
  - injection Hrun as <-. by apply queue_upd.
  - injection Hrun as <-. by apply queue_upd.
  - injection Hrun as <-. by apply queue_upd.
  - by injection Hrun as <-.
  - by injection Hrun as <-.
Qed.

Lemma run_ops_own c os : forall s s', wf s -> Forall (fun o => op_ok s o /\ own c o = true) os ->
  run_ops os s = Some s' -> queue_of s' c = queue_of s c.
Proof.
  induction os as [|o os IH]; intros s s' H Hok; cbn [run_ops]; [by intros [= <-]|].
  apply Forall_cons in Hok as [[Ho1 Ho2] Hos].
  destruct (run_op_fine o s H Ho1) as (s1 & E & H1 & D1). rewrite E. simpl. intros Hrun.
  rewrite (IH s1 s' H1); [by eapply run_op_own| |done].
  eapply Forall_impl; [exact Hos|]. intros o0 [? ?]. split; [by apply (same_dom_op_ok s)|done].
Qed.

Context (Hprog : prog_ok).

Lemma prog_fine c s : wf s -> c ∈ dom (clients s) -> fine s (run_ops (prog c s) s).
Proof. intros H Hc. apply run_ops_fine; [done|]. eapply Forall_impl; [by apply Hprog|]. by intros o [? _]. Qed.

(** Commands made of the operations meet what EXEC relies on. *)
Lemma call_prog_ok c : call_ok call_prog c.
Proof.
  intros fl s cl H Hcl Hd Hb. assert (Hc : c ∈ dom (clients s)) by (by apply elem_of_dom_2 in Hcl).
  destruct (prog_fine c s H Hc) as (s' & E & H' & D).
  pose proof (run_ops_own c _ s s' H (Hprog c s H Hc) E) as Hq. pose proof (proj1 D c) as Hbl.
  unfold queue_of in Hq. unfold blocked in Hbl. rewrite Hcl in Hq, Hbl. destruct (clients s' !! c) as [cl'|] eqn:Hcl'; [|done].
  simpl in Hq, Hbl. injection Hq as Em Ed. injection Hbl as Eb. exists s', cl'. split_and!; try done; congruence.
Qed.

(** What a transaction of [c] keeps of the rest of the server. *)
Definition rest (c : cid) (s0 s : server) : Prop := wf s /\ same_dom s0 s /\
  forall c', c' <> c -> dirty s0 c' -> dirty s c'.

Lemma rest_upd c f s0 s : inert f -> calm f -> rest c s0 s -> rest c s0 (upd c f s).
Proof.
  intros Hf Hg (H & D & R). split; [by apply wf_upd|]. split; [eapply same_dom_trans; [done|by apply same_dom_upd]|].
  intros c' Hc Hd. apply dirty_upd; [by apply R|]. by intros cl ->.
Qed.

Lemma rest_call c fl s0 s s' : c ∈ dom (clients s0) -> rest c s0 s -> call_prog c fl s = Some s' -> rest c s0 s'.
Proof.
  intros Hc (H & D & R) E. rewrite <- (same_dom_clients _ _ D) in Hc. destruct (prog_fine c s H Hc) as (s1 & E1 & H1 & D1).
  unfold call_prog in E. rewrite E1 in E. injection E as <-. split; [done|]. split; [by eapply same_dom_trans|].
  intros c' Hne Hd. apply (run_ops_dirty c' (prog c s) s s1); try done; [| |by apply R].
  - eapply Forall_impl; [by apply Hprog|]. by intros o [? _].
  - eapply Forall_impl; [by apply Hprog|]. intros o [_ Ho]. intros [-> | ->]; simpl in Ho; [done|].
    apply bool_decide_eq_true in Ho. done.
Qed.

Lemma rest_queue c mcs : forall j s0 s s', c ∈ dom (clients s0) -> rest c s0 s ->
  run_queue call_prog acl (fun _ _ s => s) CMD_CALL_NONE CMD_CALL_FULL c j mcs s = Some s' -> rest c s0 s'.
Proof.
  induction mcs as [|mc mcs IH]; intros j s0 s s' Hc R; cbn [run_queue]; [by intros [= <-]|].
  destruct (run_cmd _ _ _ _ _ c mc s) as [s1|] eqn:E; [|done]. bnd. apply IH; [done|]. apply rest_upd; [done|done|].
  revert E. unfold run_cmd.
  set (s2 := upd c _ s). assert (R2 : rest c s0 s2) by (by apply rest_upd).
  case_match; [intros [= <-]; by apply rest_upd|].
  destruct (call_prog c _ s2) as [s3|] eqn:E3; [|done]. bnd. destruct (clients s3 !! c) as [cl3|]; [|done]. bnd.
  destruct (flag (c_flags cl3) CLIENT_BLOCKED); [done|]. intros [= <-]. by eapply rest_call.
Qed.

(** Changing the client of the transaction only. *)
Lemma rest_insert c cl cl' s0 s s' : clients s !! c = Some cl -> rest c s0 s -> wf s' -> (forall d, data_of s' d = data_of s d) ->
  clients s' = <[c := cl']> (clients s) ->
  flag (c_flags cl') CLIENT_BLOCKED = flag (c_flags cl) CLIENT_BLOCKED -> rest c s0 s'.
Proof.
  intros Hcl (H & D & R) H' Hd C B. split; [done|]. split.
  - eapply same_dom_trans; [done|]. split.
    + intros c'. unfold blocked. rewrite C, lookup_insert. case_decide as E; [|done]. subst c'. rewrite Hcl. simpl. by rewrite B.
    + apply set_eq. intros d. rewrite !elem_of_dom. specialize (Hd d). unfold data_of in Hd.
      destruct (dbs s !! d), (dbs s' !! d); simpl in Hd; split; intros [? ?]; try done; eauto.
  - intros c' Hne Hdc. destruct (R c' Hne Hdc) as (cl0 & Hc0 & ?). exists cl0. split; [|done]. rewrite C. by rewrite lookup_insert_ne.
Qed.

(** EXEC, whatever becomes of the transaction. *)
Lemma exec_rest c s : wf s -> blocked s c = Some false ->
  exists s', run_step (SExec c) s = Some s' /\ rest c s s'.
Proof.
  intros H Hb. unfold blocked in Hb. destruct (clients s !! c) as [cl|] eqn:Hcl; [|done]. simpl in Hb. injection Hb as Hb.
  assert (R : rest c s s) by (split; [done|split; [done|tauto]]).
  cbn [run_step]. destruct (flag (c_flags cl) CLIENT_MULTI) eqn:Hm.
  2: { unfold execCommand. rewrite Hcl. bnd. rewrite Hm. eexists. split; [done|]. by apply rest_upd. }
  destruct (isWatchedKeyExpired_total c s cl H Hcl) as [e He].
  destruct (e || flag (c_flags cl) CLIENT_DIRTY_CAS || flag (c_flags cl) CLIENT_DIRTY_EXEC) eqn:Hd.
  - destruct (exec_abort call_prog acl (fun _ _ s => s) CMD_CALL_NONE CMD_CALL_FULL c s cl e H Hcl Hm He Hd)
      as (s' & -> & H' & F & C). exists s'. split; [done|]. eapply rest_insert; try done; [apply F|].
    simpl. by apply flag_land_other.
  - apply orb_false_iff in Hd as [[-> Hd1]%orb_false_iff Hd2].
    destruct (exec_runs call_prog acl (fun _ _ s => s) CMD_CALL_NONE CMD_CALL_FULL c s cl)
      as (s1 & s2 & s' & cl2 & (H1 & _ & D1 & C1) & Eq & C2 & -> & H' & _ & D' & f & C' & Ef); try done.
    + apply call_prog_ok.
    + revert Hd1 Hd2. unfold flag. rewrite Z.land_lor_distr_r, !negb_false_iff, !Z.eqb_eq. by intros -> ->.
    + exists s'. split; [done|].
      assert (R1 : rest c s s1). { apply (rest_insert c cl _ s s s1 Hcl R H1 D1 C1). by apply flag_lor_other. }
      assert (R2 : rest c s s2) by (eapply rest_queue; [by apply elem_of_dom_2 in Hcl|exact R1|exact Eq]).
      apply (rest_insert c cl2 _ s s2 s' C2 R2 H' D' C'). simpl. rewrite flag_land_other by done. rewrite Ef.
      case_match; [done|by apply flag_land_other].
Qed.

Lemma abort_rest c error s : wf s -> c ∈ dom (clients s) ->
  exists s', run_step (SExecAbort c error) s = Some s' /\ rest c s s'.
Proof.
  intros H [cl Hcl]%elem_of_dom. cbn [run_step]. unfold execCommandAbort.
  destruct (discardTransaction_spec c s cl H Hcl) as (s' & -> & H' & F & C). bnd.
  eexists. split; [done|]. apply rest_upd; [done|done|]. eapply (rest_insert c cl _ s s s' Hcl); [by split; [|split; [|tauto]]|done|apply F|exact C|].
  by apply flag_land_other.
Qed.

Lemma run_step_fine o s : wf s -> step_ok s o -> fine s (run_step o s).
Proof.
  intros H. destruct o; intros Hok; [by apply run_op_fine| |].
  - destruct (exec_rest c s H Hok) as (s' & ? & ? & ? & _). by exists s'.
  - destruct (abort_rest c error s H Hok) as (s' & ? & ? & ? & _). by exists s'.
Qed.

Lemma run_steps_fine os : forall s, wf s -> Forall (step_ok s) os -> fine s (run_steps os s).
Proof.
  induction os as [|o os IH]; intros s H Hok; cbn [run_steps]; [by exists s|].
  apply Forall_cons in Hok as [Ho Hos]. destruct (run_step_fine o s H Ho) as (s1 & -> & H1 & D1). bnd.
  destruct (IH s1 H1) as (s' & -> & H' & D'); [eapply Forall_impl; [exact Hos|]; intros o0; exact (same_dom_step_ok s s1 o0 D1)|].
  exists s'. split; [done|]. split; [done|]. by eapply same_dom_trans.
Qed.

(** The operations by which a client itself ends its transaction or gives up
    its watches. *)
Definition ends (c : cid) (o : step_op) : Prop :=
  match o with SOp o => resets c o | SExec c' | SExecAbort c' _ => c' = c end.

Lemma run_steps_dirty c os : forall s s', wf s -> Forall (step_ok s) os -> Forall (fun o => ~ ends c o) os -> dirty s c ->
  run_steps os s = Some s' -> dirty s' c.
Proof.
  induction os as [|o os IH]; intros s s' H Hok Hr Hd; cbn [run_steps]; [by intros [= <-]|].
  apply Forall_cons in Hok as [Ho Hos], Hr as [Hr1 Hr].
  destruct (run_step_fine o s H Ho) as (s1 & E & H1 & D1). rewrite E. simpl. intros Hrun.
  apply (IH s1 s'); try done; [eapply Forall_impl; [exact Hos|]; intros o0; exact (same_dom_step_ok s s1 o0 D1)|].
  destruct o as [o|c'|c' error]; simpl in Hr1.
  - by apply (run_op_dirty c o s s1).
  - destruct (exec_rest c' s H Ho) as (s2 & E2 & _ & _ & R). rewrite E in E2. injection E2 as <-. by apply R.
  - destruct (abort_rest c' error s H Ho) as (s2 & E2 & _ & _ & R). rewrite E in E2. injection E2 as <-. by apply R.
Qed.
End steps.

(** A server where nobody watches anything yet. *)
Lemma wf_fresh s : wks s = ∅ -> map_Forall (fun _ cl => c_watched cl = [] /\ is_Some (dbs s !! c_db cl)) (clients s) ->
  map_Forall (fun _ db => db_watched db = ∅ /\ dom (db_expires db) ⊆ db_dict db) (dbs s) -> wf s.
Proof.
  intros Hw Hc Hd.
  assert (Hws : forall d k, watchers s d k = []).
  { intros d k. unfold watchers. destruct (dbs s !! d) as [db|] eqn:E; [|done]. simpl. by rewrite (proj1 (Hd _ _ E)). }
  constructor.
  - intros w wk. by rewrite Hw.
  - intros c l. unfold watched_of. destruct (clients s !! c) as [cl|] eqn:E; [|done]. simpl. intros [= <-].
    rewrite (proj1 (Hc _ _ E)). split; [constructor|]. by intros w ?%elem_of_nil.
  - intros d k. rewrite Hws. split; [constructor|]. by intros w ?%elem_of_nil.
  - intros d db k E. by rewrite (proj1 (Hd _ _ E)).
  - intros w1 w2 wk1 wk2. by rewrite Hw.
  - intros d db k v E Hv. apply (proj2 (Hd _ _ E)). by apply elem_of_dom_2 in Hv.
  - intros c cl E. by apply (proj2 (Hc _ _ E)).
Qed.


(** Touching a key of which no watch is marked expired flags its watchers. *)
Lemma touch_dirties c d k s s' db : wf s -> dbs s !! d = Some db -> watches s c d k ->
  (forall w wk, wks s !! w = Some wk -> wk_db wk = d -> wk_key wk = k -> wk_expired wk = false) ->
  touchWatchedKey d k s = Some s' -> dirty s' c.
Proof.
  intros H Hd Hw Hn E. destruct (touchWatchedKey_total d k db s H Hd) as (s0 & E0 & _ & _ & C0). rewrite E in E0. injection E0 as <-.
  unfold dirty. setoid_rewrite C0. rewrite decide_True.
  - destruct Hw as (w & wk & Hw & Hc & _). destruct (wf_wk s H w wk Hw) as [(l & Hl & _) _]. unfold watched_of in Hl.
    rewrite Hc in Hl. destruct (clients s !! c) as [cl|]; [|done]. exists (hit cl). split; [done|]. by apply flag_lor_same.
  - apply touch_hits_all; [|by apply watches_watchers]. intros w Hin.
    destruct (proj2 (wf_db s H d k) w Hin) as (wk & ? & ? & ?). eauto.
Qed.

(** ** Properties *)

(** C20: The two indexes of watched keys (the list of each client and the
    lists of each database) always hold the same watchedKey objects: from a
    consistent state, every sequence of MULTI, EXEC, DISCARD, WATCH, UNWATCH,
    queueing, touching and aborting, of any clients, interleaved with any
    changes of the databases, of the selected database and of the time, runs
    without using a freed object or failing an assertion and ends in a
    consistent state.  The commands that EXEC runs may do anything that is such
    an operation ([own]), depending on the whole state; EXEC is issued by
    clients that are not blocked.  Clients are not created or freed. *)
Theorem watch_indexes_consistent prog acl none full os s : prog_ok prog -> wf s -> Forall (step_ok s) os ->
  exists s', run_steps prog acl none full os s = Some s' /\ wf s'.
Proof. intros Hp H Hok. destruct (run_steps_fine prog acl none full Hp os s H Hok) as (s' & ? & ? & _). eauto. Qed.

(** C21: Touching a key, exactly: the clients that watch it lose all their
    watches and get CLIENT_DIRTY_CAS, in list order, up to the first watch that
    was marked expired if the key still exists; when the key is gone the
    expired watches are skipped instead.  Every other client and all data are
    unchanged.  In particular, when no watch of the key is marked expired,
    exactly the clients that watch the key are flagged. *)
Theorem touchWatchedKey_spec d k db s : wf s -> dbs s !! d = Some db ->
  exists s', touchWatchedKey d k s = Some s' /\ wf s' /\ frame s s' /\
    (forall c, clients s' !! c =
       if decide (c ∈ touch_hits s (bool_decide (k ∈ db_dict db)) (watchers s d k))
       then hit <$> clients s !! c else clients s !! c) /\
    ((forall w wk, wks s !! w = Some wk -> wk_db wk = d -> wk_key wk = k -> wk_expired wk = false) ->
     forall c, c ∈ touch_hits s (bool_decide (k ∈ db_dict db)) (watchers s d k) <-> watches s c d k).
Proof.
  intros H Hd. destruct (touchWatchedKey_total d k db s H Hd) as (s' & E & H' & F & C).
  exists s'. split_and!; try done. intros Hn c. rewrite (watches_watchers s c d k H). apply touch_hits_all.
  intros w Hw. destruct (proj2 (wf_db s H d k) w Hw) as (wk & ? & ? & ?). eauto.
Qed.

(** C22: FLUSHDB, FLUSHALL and SWAPDB: exactly the clients with a watch whose
    key logically changes are flagged CLIENT_DIRTY_CAS.  A key marked expired
    by its watcher counts as absent: it changes only if the replacing database
    has it alive; any other watched key changes if the emptied database has it
    or the replacing one has it alive. *)
Theorem touchAllWatchedKeysInDb_spec d r s db : wf s -> dbs s !! d = Some db ->
  (forall r', r = Some r' -> is_Some (dbs s !! r')) ->
  exists s' (hits : list cid), touchAllWatchedKeysInDb d r s = Some s' /\ wf s' /\ frame s s' /\
    (forall c, clients s' !! c = if decide (c ∈ hits) then dirtied <$> clients s !! c else clients s !! c) /\
    (forall c, c ∈ hits <-> exists w wk, wks s !! w = Some wk /\ wk_client wk = c /\ wk_db wk = d /\
       changed s (bool_decide (wk_key wk ∈ db_dict db)) r (wk_key wk) wk = true).
Proof.
  intros H Hd Hr. destruct (touchAll_total d r s db H Hd Hr) as (s' & E & H' & F & C).
  exists s', (keys_hits s (db_dict db) r (map_to_list (db_watched db))). split_and!; try done.
  intros c. by apply touchAll_hits.
Qed.

(** C23: Optimistic locking.  Once a key that a client watches has been
    touched, no watch of the key being marked expired, then whatever all the
    clients and the rest of the server do afterwards, EXEC of other clients
    included, short of the client's own DISCARD, UNWATCH or EXEC, its EXEC runs
    no command: for any implementation of the commands, it changes no data,
    adds exactly one reply (a null array, or EXECABORT if queueing had failed)
    and resets the client's transaction. *)
Theorem touched_exec_aborts prog call acl acl_log none full c d k os s :
  prog_ok prog -> wf s -> watches s c d k ->
  (forall w wk, wks s !! w = Some wk -> wk_db wk = d -> wk_key wk = k -> wk_expired wk = false) ->
  d ∈ dom (dbs s) -> Forall (step_ok s) os -> Forall (fun o => ~ ends c o) os ->
  exists s1 cl, run_steps prog acl none full (SOp (OTouch d k) :: os) s = Some s1 /\ clients s1 !! c = Some cl /\
    (flag (c_flags cl) CLIENT_MULTI = true ->
     exists s2, execCommand call acl acl_log none full c s1 = Some s2 /\ wf s2 /\ frame s1 s2 /\
       clients s2 = <[c := reset (add_reply (abort_reply cl) cl)]> (clients s1)).
Proof.
  intros Hp H Hw Hn [db Hd]%elem_of_dom Hok Hr. cbn [run_steps run_step run_op].
  destruct (run_op_fine (OTouch d k) s H) as (s0 & E0 & H0 & D0); [simpl; by apply elem_of_dom_2 in Hd|]. simpl in E0.
  rewrite E0. bnd. assert (Hd0 : dirty s0 c) by exact (touch_dirties c d k s s0 db H Hd Hw Hn E0).
  assert (Hok0 : Forall (step_ok s0) os) by (eapply Forall_impl; [exact Hok|]; intros o; exact (same_dom_step_ok s s0 o D0)).
  destruct (run_steps_fine prog acl none full Hp os s0 H0 Hok0) as (s1 & E1 & H1 & _). rewrite E1.
  destruct (run_steps_dirty prog acl none full Hp c os s0 s1 H0 Hok0 Hr Hd0 E1) as (cl & Hcl & Hf).
  exists s1, cl. split_and!; try done. intros Hm.
  destruct (isWatchedKeyExpired_total c s1 cl H1 Hcl) as [e He].
  eapply exec_abort; try done. by rewrite Hf, orb_true_r.
Qed.

(** C24: EXEC with a clean transaction runs the queue.  The client is
    unwatched, told the number of commands and barred from blocking; then
    exactly the commands that were queued are run, each once and in order, even
    though the loop reads them back from a queue it rewrites as it goes; at the
    end the arguments, the blocking flag and the transaction state are restored
    and the watch indexes are consistent.  What EXEC relies on is that commands
    return, keep the invariant and the queue, and do not block a client that is
    barred from blocking; a blocked client issues no EXEC. *)
Theorem exec_runs_queue call acl acl_log none full c s cl : call_ok call c -> acl_log_ok acl_log c -> wf s ->
  clients s !! c = Some cl -> flag (c_flags cl) CLIENT_MULTI = true -> isWatchedKeyExpired c s = Some false ->
  flag (c_flags cl) (Z.lor CLIENT_DIRTY_CAS CLIENT_DIRTY_EXEC) = false -> flag (c_flags cl) CLIENT_BLOCKED = false ->
  exists s1 s2 s' cl2,
    (wf s1 /\ in_exec s1 = true /\ (forall d, data_of s1 d = data_of s d) /\
     clients s1 = <[c := add_reply (RArrayLen (count (c_mstate cl)))
                           (set_watched [] (set_flags (Z.lor (c_flags cl) CLIENT_DENY_BLOCKING) cl))]> (clients s)) /\
    run_queue call acl acl_log none full c 0 (commands (c_mstate cl)) s1 = Some s2 /\ clients s2 !! c = Some cl2 /\
    execCommand call acl acl_log none full c s = Some s' /\
    (wf s' /\ in_exec s' = false /\ (forall d, data_of s' d = data_of s2 d) /\
     exists f, clients s' = <[c := reset (set_args (c_argv cl) (c_argc cl) (c_argv_len cl) (c_argv_len_sum cl2) (c_cmd cl)
                                      (set_flags f cl2))]> (clients s2) /\
       f = if flag (c_flags cl) CLIENT_DENY_BLOCKING then c_flags cl2 else Z.land (c_flags cl2) (Z.lnot CLIENT_DENY_BLOCKING)).
Proof. apply exec_runs. Qed.

(** ** Instances *)

Definition fresh_client : client := mkClient 0 0 [] initClientMultiState [] 0 0 0 0 [].

(** Two clients, two databases; key 107 of database 0 expires at time 10. *)
Definition server0 : server :=
  mkServer {[ 1 := fresh_client; 2 := fresh_client ]}
    {[ 0 := mkDb {[ [107]; [108] ]} {[ [107] := 10 ]} ∅; 1 := mkDb {[ [109] ]} ∅ ∅ ]} ∅ false false false 0 0 0 5.

Lemma server0_wf : wf server0.
Proof. apply wf_fresh; [done|apply (bool_decide_unpack _); by vm_compute|apply (bool_decide_unpack _); by vm_compute]. Qed.

Definition after (os : list op) (s : server) : server := default s (run_ops os s).

Lemma wf_after os s : wf s -> Forall (op_ok s) os -> wf (after os s).
Proof. intros H Hok. unfold after. destruct (run_ops_fine os s H Hok) as (s' & -> & ? & _). done. Qed.

(** Both clients watch key 108 of database 0, client 1 queues two commands. *)
Definition watch_trace : list op :=
  [ORead 1 [[87]; [108]]; OWatch 1; ORead 2 [[87]; [108]; [110]]; OWatch 2;
   OMulti 1; ORead 1 [[71]; [108]]; OQueue 1 0; ORead 1 [[83]; [109]]; OQueue 1 0; ORead 1 [[69]]].
Definition server1 : server := after watch_trace server0.

Lemma watch_trace_ok : Forall (op_ok server0) watch_trace.
Proof. unfold watch_trace. repeat (apply Forall_cons; split; [unfold op_ok; apply (bool_decide_unpack _); by vm_compute|]). constructor. Qed.

Lemma server1_wf : wf server1.
Proof. apply wf_after; [apply server0_wf|apply watch_trace_ok]. Qed.

Definition db_of (s : server) (d : dbid) : redisDb := default (mkDb ∅ ∅ ∅) (dbs s !! d).
Definition client_of (s : server) (c : cid) : client := default fresh_client (clients s !! c).

Lemma server1_unexpired : map_Forall (fun _ wk => wk_expired wk = false) (wks server1).
Proof. apply (bool_decide_unpack _). by vm_compute. Qed.

(** The commands of the example: GET (71) answers, SET (83) adds its key to the
    database, touches it and answers OK. *)
Definition prog0 (c : cid) (s : server) : list op :=
  match clients s !! c with
  | Some cl =>
      match c_argv cl with
      | [[83]; k] =>
          match dbs s !! c_db cl with
          | Some db => [OWrite (c_db cl) ({[k]} ∪ db_dict db) (delete k (db_expires db)); OTouch (c_db cl) k; OReply c ROk]
          | None => []
          end
      | _ => [OReply c RNullArray]
      end
  | None => []
  end.

Lemma prog0_ok : prog_ok prog0.
Proof.
  intros c s H Hc. unfold prog0. apply elem_of_dom in Hc as Hc'. destruct Hc' as [cl Hcl]. rewrite Hcl.
  repeat case_match; repeat (apply Forall_cons; split); try apply Forall_nil; split; try done; simpl;
    repeat split; try (by eapply elem_of_dom_2).
  intros x Hx. rewrite dom_delete in Hx. apply elem_of_difference in Hx as [[v Hv]%elem_of_dom _].
  apply elem_of_union_r. by eapply (wf_expires s).
Qed.

(** Client 1 executes its transaction, then client 2's EXEC is refused. *)
Definition exec_trace : list step_op :=
  (SOp <$> watch_trace) ++ [SExec 1; SOp (OMulti 2); SExecAbort 2 "-NOAUTH"].

Lemma exec_trace_ok : Forall (step_ok server0) exec_trace.
Proof.
  apply Forall_app. split; [|repeat constructor; apply (bool_decide_unpack _); by vm_compute].
  apply Forall_fmap. eapply Forall_impl; [apply watch_trace_ok|]. done.
Qed.

(** The transaction of the trace adds key 109 to the database of client 1. *)
Lemma exec_trace_runs : ([109] ∈ db_dict (db_of (default server0 (run_steps prog0 (fun _ _ => ACL_OK) 0 1 exec_trace server0)) 0)) /\
  c_reply (client_of (default server0 (run_steps prog0 (fun _ _ => ACL_OK) 0 1 exec_trace server0)) 1)
  = [ROk; ROk; RArrayLen 2; RNullArray; ROk].
Proof. split; [apply (bool_decide_unpack _); by vm_compute|by vm_compute]. Qed.

Lemma watch_indexes_consistent_witness :
  exists s', run_steps prog0 (fun _ _ => ACL_OK) 0 1 exec_trace server0 = Some s' /\ wf s'.
Proof.
  apply (watch_indexes_consistent prog0 (fun _ _ => ACL_OK) 0 1 exec_trace server0);
    [apply prog0_ok|apply server0_wf|apply exec_trace_ok].
Defined.

Lemma touchWatchedKey_spec_witness : exists s', touchWatchedKey 0 [108] server1 = Some s' /\ wf s'.
Proof.
  destruct (touchWatchedKey_spec 0 [108] (db_of server1 0) server1) as (s' & ? & ? & _);
    [apply server1_wf|by vm_compute|eauto].
Defined.

Lemma touchAllWatchedKeysInDb_spec_witness : exists s', touchAllWatchedKeysInDb 0 (Some 1) server1 = Some s' /\ wf s'.
Proof.
  destruct (touchAllWatchedKeysInDb_spec 0 (Some 1) server1 (db_of server1 0)) as (s' & _ & ? & ? & _);
    [apply server1_wf|by vm_compute| |eauto].
  intros r' [= <-]. by eexists.
Defined.

Lemma touched_exec_aborts_witness :
  exists s1 cl, run_steps prog0 (fun _ _ => ACL_OK) 0 1 (SOp (OTouch 0 [108]) :: [SOp (OMulti 2); SExec 2]) server1 = Some s1 /\
    clients s1 !! 1 = Some cl.
Proof.
  destruct (touched_exec_aborts prog0 (call_prog prog0) (fun _ _ => ACL_OK) (fun _ _ s => s) 0 1 1 0 [108]
              [SOp (OMulti 2); SExec 2] server1) as (s1 & cl & ? & ? & _).
  - apply prog0_ok.
  - apply server1_wf.
  - exists 1%positive. eexists. split; [by vm_compute|done].
  - intros w wk Hw _ _. exact (server1_unexpired w wk Hw).
  - apply (bool_decide_unpack _). by vm_compute.
  - repeat constructor; apply (bool_decide_unpack _); by vm_compute.
  - repeat constructor; [by intros [? | ?]|done].
  - eauto.
Defined.

Lemma exec_runs_queue_witness :
  exists s2, execCommand (call_prog prog0) (fun _ _ => ACL_OK) (fun _ _ s => s) 0 1 1 server1 = Some s2 /\ wf s2.
Proof.
  destruct (exec_runs_queue (call_prog prog0) (fun _ _ => ACL_OK) (fun _ _ s => s) 0 1 1 server1 (client_of server1 1))
    as (s1 & s2 & s' & cl2 & _ & _ & _ & E & (H & _)).
  - apply call_prog_ok, prog0_ok.
  - by intros r s.
  - apply server1_wf.
  - by vm_compute.
  - by vm_compute.
  - by vm_compute.
  - by vm_compute.
  - by vm_compute.
  - eauto.
Defined.

End Multi.
