(* ===== verification/Rax.v ===== *)
(** * Radix trees (src/redis-stable/src/rax.c, rax.h)

    The nodes live in a store that maps addresses to nodes; an address is a
    [positive] and NULL is [None].  A node keeps its three header bits, its
    characters (the [size] field is their number), its child pointers, its
    value slot and the number of bytes of its block.  The layout of the block
    (header, characters, padding, pointers, value) appears through its length,
    [raxNodeCurrentLength]: writing a node checks that the layout fits in the
    block.  Using a pointer that is not allocated, a child slot or a value that
    was never written, a block that is too small or a failed assertion is
    [None], so a theorem that an operation returns is also its memory safety.
    A new block may be anywhere but in a block in use, and a realloc may or may
    not move the block ([allocator] is arbitrary).  The allocator of the server aborts when memory runs out (rax_malloc.h), so the
    branches for a null result of an allocation are not reachable.

    The limit on the characters of a compressed node is a parameter
    [max_size] of the operations, RAX_NODE_MAX_SIZE in the code.

    The theorems relate the operations to finite maps from byte strings to
    values, through a tree of nodes that describes the store. *)
From stdpp Require Import base list gmap sorting.
From S2P Require Import Prelude.

Module Rax.

Abbreviation ptr := positive.
Abbreviation bytes := (list Z).

Definition RAX_NODE_MAX_SIZE : Z := 2 ^ 29 - 1.
Definition RAX_STACK_STATIC_ITEMS : Z := 32.

(** ** Nodes and their layout *)

Section nodes.
Context {V : Type}.

Record raxNode := mkNode {
  iskey : bool; isnull : bool; iscompr : bool; data : bytes;
  children : list (option ptr); val : option V; alloc : Z }.

Record rax := mkRax { mem : gmap ptr raxNode; head : ptr; numele : Z; numnodes : Z }.

Definition size (n : raxNode) : Z := zlen (data n).

Definition raxPadding (nodesize : Z) : Z := Z.land (8 - (nodesize + 4) mod 8) 7.

(** The bytes of a node with [sz] characters. *)
Definition node_length (key null compr : bool) (sz : Z) : Z :=
  4 + sz + raxPadding sz + (if compr then 8 else 8 * sz) + (if key && negb null then 8 else 0).

Definition raxNodeCurrentLength (n : raxNode) : Z :=
  node_length (iskey n) (isnull n) (iscompr n) (size n).

Definition fits (n : raxNode) : bool := raxNodeCurrentLength n <=? alloc n.

Definition set_alloc (k : Z) (n : raxNode) : raxNode :=
  mkNode (iskey n) (isnull n) (iscompr n) (data n) (children n) (val n) k.
Definition set_iskey (b : bool) (n : raxNode) : raxNode :=
  mkNode b (isnull n) (iscompr n) (data n) (children n) (val n) (alloc n).
Definition set_children (cs : list (option ptr)) (n : raxNode) : raxNode :=
  mkNode (iskey n) (isnull n) (iscompr n) (data n) cs (val n) (alloc n).
Definition set_data (d : bytes) (n : raxNode) : raxNode :=
  mkNode (iskey n) (isnull n) (iscompr n) d (children n) (val n) (alloc n).

Definition set_mem (m : gmap ptr raxNode) (r : rax) : rax := mkRax m (head r) (numele r) (numnodes r).
Definition set_head (p : ptr) (r : rax) : rax := mkRax (mem r) p (numele r) (numnodes r).
Definition add_numele (k : Z) (r : rax) : rax := mkRax (mem r) (head r) (u64 (numele r + k)) (numnodes r).
Definition add_numnodes (k : Z) (r : rax) : rax := mkRax (mem r) (head r) (numele r) (u64 (numnodes r + k)).

End nodes.
Arguments raxNode : clear implicits.
Arguments rax : clear implicits.

(** ** The stack of parent nodes *)

(** The items, the last pushed first, and the capacity of the array. *)
Record raxStack := mkStack { items : list ptr; maxitems : Z }.

Definition raxStackInit : raxStack := mkStack [] RAX_STACK_STATIC_ITEMS.

Definition raxStackPush (ts : raxStack) (p : ptr) : option raxStack :=
  let mx := if zlen (items ts) =? maxitems ts then maxitems ts * 2 else maxitems ts in
  if zlen (items ts) <? mx then Some (mkStack (p :: items ts) mx) else None.

Definition raxStackPop (ts : raxStack) : option ptr * raxStack :=
  match items ts with
  | [] => (None, ts)
  | p :: l => (Some p, mkStack l (maxitems ts))
  end.

Definition raxStackPeek (ts : raxStack) : option ptr :=
  match items ts with [] => None | p :: _ => Some p end.

(** ** Operations *)

(** Where a pointer to a node is stored: in the head of the tree, or in a
    child slot of a node. *)
Inductive link := LHead | LChild (p : ptr) (k : nat).

(** The allocator: the address of a new block, which may depend on everything
    allocated and on the size, and whether a realloc moves the block. *)
Record allocator (V : Type) := mkAllocator {
  new_block : gmap ptr (raxNode V) -> Z -> ptr;
  moves : gmap ptr (raxNode V) -> ptr -> bool;
  new_block_unused : forall m len, new_block m len ∉ dom m }.
Arguments new_block {V} _ _ _.
Arguments moves {V} _ _ _.
Arguments new_block_unused {V} _ _ _.

Section operations.
Context {V : Type}.
Context (junk : Z) (A : allocator V) (max_size : Z).

Abbreviation node := (raxNode V).
Abbreviation heap := (gmap ptr node).

Definition rax_malloc (n : node) (m : heap) : ptr * heap :=
  let p := new_block A m (alloc n) in (p, <[p := n]> m).

Definition rax_free (p : ptr) (m : heap) : option heap := _ ← m !! p; Some (delete p m).

(** The block at [p] with its new length, and the same contents. *)
Definition rax_realloc (p : ptr) (len : Z) (m : heap) : option (ptr * heap) :=
  n ← m !! p;
  let q := if moves A m p then new_block A m len else p in
  Some (q, <[q := set_alloc len n]> (delete p m)).

(** Writing a node in its block. *)
Definition put (p : ptr) (n : node) (m : heap) : option heap :=
  _ ← m !! p; if fits n then Some (<[p := n]> m) else None.

Definition write_link (l : link) (q : ptr) (r : rax V) : option (rax V) :=
  match l with
  | LHead => Some (set_head q r)
  | LChild p k =>
      n ← mem r !! p;
      if (k <? length (children n))%nat then
        Some (set_mem (<[p := set_children (<[k := Some q]> (children n)) n]> (mem r)) r)
      else None
  end.

Definition raxNewNode (nchildren : nat) (datafield : bool) (m : heap) : ptr * heap :=
  let nodesize := node_length false false false (Z.of_nat nchildren) + (if datafield then 8 else 0) in
  rax_malloc (mkNode false false false (replicate nchildren junk) (replicate nchildren None) None nodesize) m.

Definition raxNew : rax V :=
  let '(p, m) := raxNewNode 0 false ∅ in mkRax m p 0 1.

Definition raxReallocForData (p : ptr) (d : option V) (m : heap) : option (ptr * heap) :=
  match d with
  | None => Some (p, m)
  | Some _ => n ← m !! p; rax_realloc p (raxNodeCurrentLength n + 8) m
  end.

Definition raxSetData (n : node) (d : option V) : option node :=
  match d with
  | Some v =>
      let n := mkNode true false (iscompr n) (data n) (children n) (Some v) (alloc n) in
      if fits n then Some n else None
  | None => Some (mkNode true true (iscompr n) (data n) (children n) (val n) (alloc n))
  end.

Definition raxGetData (n : node) : option (option V) :=
  if isnull n then Some None else v ← val n; Some (Some v).

(** The index of the first edge greater than [c]. *)
Fixpoint add_pos (d : bytes) (c : Z) : nat :=
  match d with
  | [] => 0
  | x :: d => if c <? x then 0 else S (add_pos d c)
  end.

Definition raxAddChild (p : ptr) (c : Z) (m : heap) : option (ptr * ptr * link * heap) :=
  n ← m !! p;
  if iscompr n then None else
  let newlen := node_length (iskey n) (isnull n) (iscompr n) (size n + 1) in
  let '(child, m) := raxNewNode 0 false m in
  '(q, m) ← rax_realloc p newlen m;
  n ← m !! q;
  let pos := add_pos (data n) c in
  let n := mkNode (iskey n) (isnull n) (iscompr n)
             (take pos (data n) ++ c :: drop pos (data n))
             (take pos (children n) ++ Some child :: drop pos (children n))
             (if iskey n && negb (isnull n) then val n else None) (alloc n) in
  m ← put q n m;
  Some (q, child, LChild q pos, m).

(** raxNodeLastChildPtr *)
Definition last_child (n : node) : option ptr := c ← last (children n); c.
Definition set_last_child (q : ptr) (n : node) : option node :=
  if (0 <? length (children n))%nat then
    Some (set_children (<[(length (children n) - 1)%nat := Some q]> (children n)) n)
  else None.

Definition raxCompressNode (p : ptr) (s : bytes) (m : heap) : option (ptr * ptr * heap) :=
  n ← m !! p;
  if negb ((size n =? 0) && negb (iscompr n)) then None else
  let '(child, m) := raxNewNode 0 false m in
  d ← (if iskey n then raxGetData n else Some None);
  let newsize := node_length (iskey n) (isnull n) true (zlen s) in
  '(q, m) ← rax_realloc p newsize m;
  n ← m !! q;
  let n := mkNode (iskey n) (isnull n) true s [None] None (alloc n) in
  n ← (if iskey n then raxSetData n d else Some n);
  n ← set_last_child child n;
  m ← put q n m;
  Some (q, child, m).

(** The number of characters of a compressed node that match the key. *)
Fixpoint compr_match (v s : bytes) : nat :=
  match v, s with
  | a :: v, b :: s => if a =? b then S (compr_match v s) else 0
  | _, _ => 0
  end.

(** The index of an edge, or the number of edges. *)
Fixpoint edge_index (v : bytes) (c : Z) : nat :=
  match v with
  | [] => 0
  | a :: v => if a =? c then 0 else S (edge_index v c)
  end.

Record walked := mkWalked { w_i : nat; w_stop : ptr; w_link : link; w_split : nat; w_stack : option raxStack }.

Fixpoint low_walk (fuel : nat) (m : heap) (s : bytes) (h : ptr) (parentlink : link) (i : nat) (ts : option raxStack)
    : option walked :=
  match fuel with
  | O => None
  | S fuel =>
      n ← m !! h;
      let stop i j := Some (mkWalked i h parentlink (if iscompr n then j else 0%nat) ts) in
      let follow i j :=
        ts ← (match ts with Some ts => ts ← raxStackPush ts h; Some (Some ts) | None => Some None end);
        c ← children n !! j;
        c ← c;
        low_walk fuel m s c (LChild h j) i ts in
      if negb (size n =? 0) && (i <? length s)%nat then
        if iscompr n then
          let j := compr_match (data n) (drop i s) in
          if (j =? length (data n))%nat then follow (i + j)%nat 0%nat else stop (i + j)%nat j
        else
          c ← s !! i;
          let j := edge_index (data n) c in
          if (j =? length (data n))%nat then stop i j else follow (i + 1)%nat j
      else stop i 0%nat
  end.

(** Every step consumes a character of the key. *)
Definition raxLowWalk (r : rax V) (s : bytes) (ts : option raxStack) : option walked :=
  low_walk (S (length s)) (mem r) s (head r) LHead 0 ts.

(** An allocated block whose contents are not written yet. *)
Definition blank (len : Z) : node := mkNode false false false [] [] None len.

(** *** Insertion *)

(** ALGO 1: the walk stopped at a character of the compressed node [h] that
    differs from the key.  The result is the split node and the link to it. *)
Definition insert_split (r : rax V) (h : ptr) (parentlink : link) (j : nat) : option (rax V * ptr * link) :=
  n ← mem r !! h;
  next ← last_child n;
  let trimmedlen := j in
  let postfixlen := (length (data n) - j - 1)%nat in
  let split_node_is_key := (trimmedlen =? 0)%nat && iskey n && negb (isnull n) in
  let '(splitnode, m) := raxNewNode 1 split_node_is_key (mem r) in
  let '(trimmed, m) :=
    if (trimmedlen =? 0)%nat then (splitnode, m)
    else rax_malloc (blank (node_length (iskey n) (isnull n) true (Z.of_nat trimmedlen))) m in
  let '(postfix, m) :=
    if (postfixlen =? 0)%nat then (next, m)
    else rax_malloc (blank (node_length false false true (Z.of_nat postfixlen))) m in
  c ← data n !! j;
  sn ← m !! splitnode;
  let sn := set_data [c] sn in
  '(r, parentlink, sn) ←
    (if (trimmedlen =? 0)%nat then
       sn ← (if iskey n then d ← raxGetData n; raxSetData sn d else Some sn);
       r ← write_link parentlink splitnode (set_mem m r);
       Some (r, parentlink, sn)
     else
       tn ← m !! trimmed;
       let tn := mkNode (iskey n) (isnull n) (1 <? j)%nat (take j (data n)) [None] None (alloc tn) in
       tn ← (if iskey n && negb (isnull n) then d ← raxGetData n; raxSetData tn d else Some tn);
       tn ← set_last_child splitnode tn;
       m ← put trimmed tn m;
       r ← write_link parentlink trimmed (set_mem m r);
       Some (add_numnodes 1 r, LChild trimmed 0, sn));
  r ← (if (postfixlen =? 0)%nat then Some r
       else
         pn ← mem r !! postfix;
         let pn := mkNode false false (1 <? postfixlen)%nat (drop (j + 1) (data n)) [None] None (alloc pn) in
         pn ← set_last_child next pn;
         m ← put postfix pn (mem r);
         Some (add_numnodes 1 (set_mem m r)));
  sn ← set_last_child postfix sn;
  m ← put splitnode sn (mem r);
  m ← rax_free h m;
  Some (set_mem m r, splitnode, parentlink).

(** ALGO 2: the key ends inside the compressed node [h]. *)
Definition insert_inside (r : rax V) (h : ptr) (parentlink : link) (j : nat) (d : option V) : option (rax V) :=
  n ← mem r !! h;
  let postfixlen := (length (data n) - j)%nat in
  let '(postfix, m) := rax_malloc
    (blank (node_length (bool_decide (is_Some d)) false true (Z.of_nat postfixlen))) (mem r) in
  let '(trimmed, m) := rax_malloc (blank (node_length (iskey n) (isnull n) true (Z.of_nat j))) m in
  next ← last_child n;
  pn ← m !! postfix;
  pn ← raxSetData (mkNode true false (1 <? postfixlen)%nat (drop j (data n)) [None] None (alloc pn)) d;
  pn ← set_last_child next pn;
  m ← put postfix pn m;
  tn ← m !! trimmed;
  let tn := mkNode false false (1 <? j)%nat (take j (data n)) [None] None (alloc tn) in
  r ← write_link parentlink trimmed (add_numnodes 1 (set_mem m r));
  tn ← (if iskey n then aux ← raxGetData n; raxSetData tn aux else Some tn);
  tn ← set_last_child postfix tn;
  m ← put trimmed tn (mem r);
  m ← rax_free h m;
  Some (add_numele 1 (set_mem m r)).

(** [while(i < len)]: the nodes of the characters left. *)
Fixpoint insert_loop (fuel : nat) (r : rax V) (s : bytes) (i : nat) (h : ptr) (parentlink : link)
    : option (rax V * ptr * link) :=
  if (i <? length s)%nat then
    match fuel with
    | O => None
    | S fuel =>
        n ← mem r !! h;
        if (size n =? 0) && (1 <? length s - i)%nat then
          let comprsize := (length s - i)%nat in
          let comprsize := if max_size <? Z.of_nat comprsize then Z.to_nat max_size else comprsize in
          '(h, child, m) ← raxCompressNode h (take comprsize (drop i s)) (mem r);
          r ← write_link parentlink h (set_mem m r);
          insert_loop fuel (add_numnodes 1 r) s (i + comprsize)%nat child (LChild h 0)
        else
          c ← s !! i;
          '(h, child, new_parentlink, m) ← raxAddChild h c (mem r);
          r ← write_link parentlink h (set_mem m r);
          insert_loop fuel (add_numnodes 1 r) s (i + 1)%nat child new_parentlink
    end
  else Some (r, h, parentlink).

(** The data becomes the value of the node [h], whose pointer is at [parentlink]. *)
Definition insert_data (r : rax V) (h : ptr) (parentlink : link) (d : option V) : option (rax V) :=
  '(h, m) ← raxReallocForData h d (mem r);
  n ← m !! h;
  let r := if iskey n then set_mem m r else add_numele 1 (set_mem m r) in
  n ← raxSetData n d;
  m ← put h n (mem r);
  write_link parentlink h (set_mem m r).

(** The node [h] stands for the key: the value is set, or replaced. *)
Definition insert_existing (r : rax V) (h : ptr) (parentlink : link) (d : option V) (overwrite : bool)
    : option (rax V * Z * option (option V)) :=
  n ← mem r !! h;
  '(r, h) ← (if negb (iskey n) || (isnull n && overwrite) then
               '(h, m) ← raxReallocForData h d (mem r);
               r ← write_link parentlink h (set_mem m r);
               Some (r, h)
             else Some (r, h));
  n ← mem r !! h;
  if iskey n then
    old ← raxGetData n;
    r ← (if overwrite then n ← raxSetData n d; m ← put h n (mem r); Some (set_mem m r) else Some r);
    Some (r, 0, Some old)
  else
    n ← raxSetData n d;
    m ← put h n (mem r);
    Some (add_numele 1 (set_mem m r), 1, None).

(** The result is the returned integer, and what is stored in [*old]. *)
Definition raxGenericInsert (r : rax V) (s : bytes) (d : option V) (overwrite : bool)
    : option (rax V * Z * option (option V)) :=
  w ← raxLowWalk r s None;
  let i := w_i w in let h := w_stop w in let parentlink := w_link w in let j := w_split w in
  n ← mem r !! h;
  if (i =? length s)%nat && (negb (iscompr n) || (j =? 0)%nat) then
    insert_existing r h parentlink d overwrite
  else if iscompr n && (i =? length s)%nat then
    r ← insert_inside r h parentlink j d; Some (r, 1, None)
  else
    '(r, h, parentlink) ← (if iscompr n then insert_split r h parentlink j else Some (r, h, parentlink));
    '(r, h, parentlink) ← insert_loop (length s) r s i h parentlink;
    r ← insert_data r h parentlink d;
    Some (r, 1, None).

Definition raxInsert (r : rax V) (s : bytes) (d : option V) := raxGenericInsert r s d true.
Definition raxTryInsert (r : rax V) (s : bytes) (d : option V) := raxGenericInsert r s d false.

(** *** Lookup; the result [None] stands for raxNotFound *)
Definition raxFind (r : rax V) (s : bytes) : option (option (option V)) :=
  w ← raxLowWalk r s None;
  n ← mem r !! w_stop w;
  if negb (w_i w =? length s)%nat || (iscompr n && negb (w_split w =? 0)%nat) || negb (iskey n) then Some None
  else d ← raxGetData n; Some (Some d).

(** *** Removal *)

(** The index of a child pointer; the loop of the code has no bound. *)
Fixpoint child_index (cs : list (option ptr)) (q : ptr) : option nat :=
  match cs with
  | [] => None
  | c :: cs => c ← c; if bool_decide (c = q) then Some 0%nat else k ← child_index cs q; Some (S k)
  end.

Definition raxFindParentLink (parent child : ptr) (m : heap) : option link :=
  n ← m !! parent; k ← child_index (children n) child; Some (LChild parent k).

Definition raxRemoveChild (parent child : ptr) (m : heap) : option (ptr * heap) :=
  n ← m !! parent;
  if iscompr n then
    d ← (if iskey n then raxGetData n else Some None);
    let n := mkNode (iskey n) false false [] [] None (alloc n) in
    n ← (if iskey n then raxSetData n d else Some n);
    m ← put parent n m;
    Some (parent, m)
  else
    k ← child_index (children n) child;
    let n := mkNode (iskey n) (isnull n) false (take k (data n) ++ drop (S k) (data n))
               (take k (children n) ++ drop (S k) (children n))
               (if iskey n && negb (isnull n) then val n else None) (alloc n) in
    m ← put parent n m;
    rax_realloc parent (raxNodeCurrentLength n) m.

(** [h->iskey || (!h->iscompr && h->size != 1)]: the node is not part of a chain. *)
Definition ends_chain (n : node) : bool := iskey n || (negb (iscompr n) && negb (size n =? 1)).

(** [while(h != rax->head)]: the nodes left without keys below are freed. *)
Fixpoint remove_up (fuel : nat) (r : rax V) (h : ptr) (child : option ptr) (ts : raxStack)
    : option (rax V * ptr * option ptr * raxStack) :=
  if bool_decide (h = head r) then Some (r, h, child, ts) else
  match fuel with
  | O => None
  | S fuel =>
      let child := Some h in
      m ← rax_free h (mem r);
      let r := add_numnodes (-1) (set_mem m r) in
      let '(p, ts) := raxStackPop ts in
      h ← p;
      n ← mem r !! h;
      if ends_chain n then Some (r, h, child, ts) else remove_up fuel r h child ts
  end.

(** The first node of the chain, its parent and the stack left. *)
Fixpoint chain_up (fuel : nat) (m : heap) (h : ptr) (ts : raxStack) : option (ptr * option ptr) :=
  match fuel with
  | O => None
  | S fuel =>
      let '(parent, ts) := raxStackPop ts in
      match parent with
      | None => Some (h, None)
      | Some p =>
          n ← m !! p;
          if ends_chain n then Some (h, Some p) else chain_up fuel m p ts
      end
  end.

(** The scan that measures the chain: the characters and the nodes. *)
Fixpoint chain_scan (fuel : nat) (m : heap) (h : ptr) (comprsize nodes : Z) : option (Z * Z) :=
  match fuel with
  | O => None
  | S fuel =>
      n ← m !! h;
      if size n =? 0 then Some (comprsize, nodes) else
      h ← last_child n;
      n ← m !! h;
      if ends_chain n then Some (comprsize, nodes)
      else if max_size <? comprsize + size n then Some (comprsize, nodes)
      else chain_scan fuel m h (comprsize + size n) (nodes + 1)
  end.

(** The scan that fills the new node: the characters of the chain are copied
    at [comprsize] in its [chars], and the nodes are freed. *)
Fixpoint chain_fill (fuel : nat) (r : rax V) (h : ptr) (chars : bytes) (comprsize : Z)
    : option (rax V * ptr * bytes) :=
  match fuel with
  | O => None
  | S fuel =>
      n ← mem r !! h;
      if size n =? 0 then Some (r, h, chars) else
      chars ← stn chars comprsize (data n);
      let comprsize := comprsize + size n in
      let tofree := h in
      h ← last_child n;
      m ← rax_free tofree (mem r);
      let r := add_numnodes (-1) (set_mem m r) in
      n ← mem r !! h;
      if ends_chain n then Some (r, h, chars) else chain_fill fuel r h chars comprsize
  end.

Definition recompress (r : rax V) (h : ptr) (ts : raxStack) : option (rax V) :=
  let fuel := S (base.size (mem r)) in
  '(start, parent) ← chain_up fuel (mem r) h ts;
  n ← mem r !! start;
  '(comprsize, nodes) ← chain_scan fuel (mem r) start (size n) 1;
  if 1 <? nodes then
    let nodesize := node_length false false true comprsize in
    let '(new, m) := rax_malloc (blank nodesize) (mem r) in
    '(r, h, chars) ← chain_fill fuel (add_numnodes 1 (set_mem m r)) start (replicate (Z.to_nat comprsize) junk) 0;
    n ← mem r !! new;
    m ← put new (mkNode false false true chars [Some h] None (alloc n)) (mem r);
    let r := set_mem m r in
    match parent with
    | Some p => l ← raxFindParentLink p start (mem r); write_link l new r
    | None => Some (set_head new r)
    end
  else Some r.

(** The key was in a node without children: the nodes that lead only to it are
    removed.  The result tells whether a chain of nodes may have appeared. *)
Definition remove_leaf (r : rax V) (h : ptr) (ts : raxStack) : option (rax V * ptr * raxStack * bool) :=
  '(r, h, child, ts) ← remove_up (S (length (items ts))) r h None ts;
  match child with
  | None => Some (r, h, ts, false)
  | Some c =>
      '(new, m) ← raxRemoveChild h c (mem r);
      let r := set_mem m r in
      r ← (if bool_decide (new = h) then Some r
           else match raxStackPeek ts with
                | None => Some (set_head new r)
                | Some parent => l ← raxFindParentLink parent h (mem r); write_link l new r
                end);
      n ← mem r !! new;
      if (size n =? 1) && negb (iskey n) then Some (r, new, ts, true) else Some (r, h, ts, false)
  end.

Definition raxRemove (r : rax V) (s : bytes) : option (rax V * Z * option (option V)) :=
  w ← raxLowWalk r s (Some raxStackInit);
  let h := w_stop w in
  ts ← w_stack w;
  n ← mem r !! h;
  if negb (w_i w =? length s)%nat || (iscompr n && negb (w_split w =? 0)%nat) || negb (iskey n) then
    Some (r, 0, None)
  else
    old ← raxGetData n;
    m ← put h (set_iskey false n) (mem r);
    let r := add_numele (-1) (set_mem m r) in
    '(r, h, ts, trycompress) ←
      (if size n =? 0 then remove_leaf r h ts else Some (r, h, ts, size n =? 1));
    r ← (if (trycompress : bool) then recompress r h ts else Some r);
    Some (r, 1, Some old).

(** *** Release *)

(** The callback receives the values that are not null, in order. *)
Fixpoint raxRecursiveFree (fuel : nat) (r : rax V) (p : ptr) : option (rax V * list V) :=
  match fuel with
  | O => None
  | S fuel =>
      n ← mem r !! p;
      '(r, called) ←
        foldr (fun c (acc : option (rax V * list V)) =>
                 '(r, called) ← acc; c ← c; '(r, cl) ← raxRecursiveFree fuel r c; Some (r, called ++ cl))
              (Some (r, [])) (children n);
      called ← (if iskey n && negb (isnull n) then v ← val n; Some (called ++ [v]) else Some called);
      m ← rax_free p (mem r);
      Some (add_numnodes (-1) (set_mem m r), called)
  end.

Definition raxSize (r : rax V) : Z := numele r.

Definition raxFreeWithCallback (r : rax V) : option (rax V * list V) :=
  '(r, called) ← raxRecursiveFree (S (base.size (mem r))) r (head r);
  if numnodes r =? 0 then Some (r, called) else None.

End operations.

(** ** The tree in the store

    A tree of nodes with their addresses, keys and labelled edges; the label of
    an edge is one character, or all the characters of a compressed node. *)

Section trees.
Context {V : Type}.
Abbreviation value := (option V).
Abbreviation entry := (bytes * value)%type.

Inductive tree := TNode (p : ptr) (k : option value) (c : bool) (es : list (bytes * tree)).

Definition t_ptr (t : tree) : ptr := let 'TNode p _ _ _ := t in p.
Definition t_edges (t : tree) : list (bytes * tree) := let 'TNode _ _ _ es := t in es.

Lemma tree_nested_ind (P : tree -> Prop) :
  (forall p k c es, Forall (fun e => P e.2) es -> P (TNode p k c es)) -> forall t, P t.
Proof.
  intros H. fix IH 1. intros [p k c es]. apply H.
  induction es as [|[l t] es IHes]; constructor; [apply IH|exact IHes].
Qed.

Fixpoint subs (t : tree) : list tree :=
  match t with TNode _ _ _ es => t :: concat (map (fun e => subs e.2) es) end.
Definition esubs (es : list (bytes * tree)) : list tree := concat (map (fun e => subs e.2) es).
Definition ptrs (t : tree) : list ptr := map t_ptr (subs t).

(** The keys and values below a node, in the order of the edges. *)
Definition prep (l : bytes) (x : entry) : entry := (l ++ x.1, x.2).
Definition own (k : option value) : list entry := match k with Some d => [([], d)] | None => [] end.
Fixpoint entries (t : tree) : list entry :=
  match t with TNode _ k _ es => own k ++ concat (map (fun e => map (prep e.1) (entries e.2)) es) end.
Definition eentries (es : list (bytes * tree)) : list entry :=
  concat (map (fun e => map (prep e.1) (entries e.2)) es).

(** A node has something below it. *)
Definition live (t : tree) : Prop := match t with TNode _ k _ es => is_Some k \/ es <> [] end.

(** *** Contexts: the path from the head to a node, the innermost frame first *)

Record frame := mkF {
  f_ptr : ptr; f_key : option value; f_compr : bool;
  f_left : list (bytes * tree); f_lab : bytes; f_right : list (bytes * tree) }.

Definition fill (F : frame) (t : tree) : tree :=
  TNode (f_ptr F) (f_key F) (f_compr F) (f_left F ++ (f_lab F, t) :: f_right F).
Fixpoint plug (K : list frame) (t : tree) : tree :=
  match K with [] => t | F :: K => plug K (fill F t) end.
Fixpoint path (K : list frame) : bytes :=
  match K with [] => [] | F :: K => path K ++ f_lab F end.
Fixpoint before (K : list frame) : list entry :=
  match K with
  | [] => []
  | F :: K => before K ++ map (prep (path K)) (own (f_key F) ++ eentries (f_left F))
  end.
Fixpoint after (K : list frame) : list entry :=
  match K with
  | [] => []
  | F :: K => map (prep (path K)) (eentries (f_right F)) ++ after K
  end.
Fixpoint kptrs (K : list frame) : list ptr :=
  match K with
  | [] => []
  | F :: K => f_ptr F :: map t_ptr (esubs (f_left F ++ f_right F)) ++ kptrs K
  end.

Definition link_of (K : list frame) : link :=
  match K with [] => LHead | F :: _ => LChild (f_ptr F) (length (f_left F)) end.

Lemma prep_nil x : prep [] x = x.
Proof. by destruct x. Qed.
Lemma map_prep_nil xs : map (prep []) xs = xs.
Proof. rewrite <- (map_id xs) at 2. apply map_ext, prep_nil. Qed.
Lemma map_prep_prep a b xs : map (prep a) (map (prep b) xs) = map (prep (a ++ b)) xs.
Proof. rewrite map_map. apply map_ext. intros [x v]. unfold prep. cbn. by rewrite app_assoc. Qed.

Lemma eentries_app a b : eentries (a ++ b) = eentries a ++ eentries b.
Proof. unfold eentries. by rewrite map_app, concat_app. Qed.
Lemma eentries_cons e es : eentries (e :: es) = map (prep e.1) (entries e.2) ++ eentries es.
Proof. done. Qed.
Lemma entries_eq p k c es : entries (TNode p k c es) = own k ++ eentries es.
Proof. done. Qed.
Lemma esubs_app a b : esubs (a ++ b) = esubs a ++ esubs b.
Proof. unfold esubs. by rewrite map_app, concat_app. Qed.
Lemma esubs_cons e es : esubs (e :: es) = subs e.2 ++ esubs es.
Proof. done. Qed.
Lemma subs_eq p k c es : subs (TNode p k c es) = TNode p k c es :: esubs es.
Proof. done. Qed.
Lemma ptrs_eq p k c es : ptrs (TNode p k c es) = p :: map t_ptr (esubs es).
Proof. done. Qed.

Lemma entries_plug K t :
  entries (plug K t) = before K ++ map (prep (path K)) (entries t) ++ after K.
Proof.
  revert t. induction K as [|F K IH]; intros t; cbn [plug before after path].
  - by rewrite map_prep_nil, app_nil_r.
  - rewrite IH. unfold fill. rewrite entries_eq, eentries_app, eentries_cons. cbn [fst snd].
    rewrite !map_app, map_prep_prep, <- !app_assoc. done.
Qed.

Lemma ptrs_plug K t : ptrs (plug K t) ≡ₚ ptrs t ++ kptrs K.
Proof.
  revert t. induction K as [|F K IH]; intros t; cbn [plug kptrs]; [by rewrite app_nil_r|].
  rewrite IH. unfold fill. rewrite ptrs_eq, !esubs_app, esubs_cons, !map_app. cbn [snd].
  unfold ptrs. solve_Permutation.
Qed.

(** A property of all the nodes of a tree, seen from a context. *)
Fixpoint kall (P : tree -> Prop) (K : list frame) (t : tree) : Prop :=
  match K with
  | [] => True
  | F :: K => P (fill F t) /\ Forall P (esubs (f_left F ++ f_right F)) /\ kall P K (fill F t)
  end.

Lemma Forall_plug P K t : Forall P (subs (plug K t)) <-> Forall P (subs t) /\ kall P K t.
Proof.
  revert t. induction K as [|F K IH]; intros t; cbn [plug kall]; [tauto|].
  rewrite IH. unfold fill. rewrite subs_eq, !esubs_app, esubs_cons, Forall_cons, !Forall_app. cbn [snd]. tauto.
Qed.

Lemma plug_app K1 K2 t : plug (K1 ++ K2) t = plug K2 (plug K1 t).
Proof. revert t. induction K1; intros; cbn; auto. Qed.
Lemma path_app K1 K2 : path (K1 ++ K2) = path K2 ++ path K1.
Proof. induction K1; cbn; [by rewrite app_nil_r|]. by rewrite IHK1, app_assoc. Qed.

(** *** Order of the keys *)

(** The lexicographic order of byte strings. *)
Fixpoint lex (a b : bytes) : Prop :=
  match a, b with
  | [], _ :: _ => True
  | x :: a, y :: b => x < y \/ (x = y /\ lex a b)
  | _, [] => False
  end.

Lemma lex_irrefl a : ~ lex a a.
Proof. induction a as [|x a IH]; cbn; [tauto|]. intros [?|[_ ?]]; [lia|tauto]. Qed.
Lemma lex_trans a b c : lex a b -> lex b c -> lex a c.
Proof.
  revert b c. induction a as [|x a IH]; intros [|y b] [|z c]; cbn; try done.
  intros [?|[-> ?]] [?|[-> ?]]; try (left; lia). right. eauto.
Qed.
Lemma lex_app l a b : lex (l ++ a) (l ++ b) <-> lex a b.
Proof. induction l as [|x l IH]; [done|]. cbn. rewrite IH. split; [intros [?|[_ ?]]; [lia|done]|auto]. Qed.
Lemma lex_nil a : a <> [] -> lex [] a.
Proof. by destruct a. Qed.
Lemma lex_single x y a b : x < y -> lex ([x] ++ a) ([y] ++ b).
Proof. cbn. auto. Qed.

Abbreviation keys xs := (map fst xs).
Definition sorted_keys (xs : list entry) : Prop := StronglySorted lex (keys xs).

Lemma keys_prep l xs : keys (map (prep l) xs) = map (app l) (keys xs).
Proof. rewrite !map_map. done. Qed.

Lemma sorted_prep l xs : sorted_keys (map (prep l) xs) <-> sorted_keys xs.
Proof.
  unfold sorted_keys. rewrite keys_prep. induction (keys xs) as [|a ks IH]; cbn; [done|].
  split; intros H; apply StronglySorted_inv in H as [H1 H2]; constructor; try (by apply IH).
  - rewrite Forall_map in H2. eapply Forall_impl; [exact H2|]. intros x. cbn. apply lex_app.
  - rewrite Forall_map. eapply Forall_impl; [exact H2|]. intros x ?. cbn. by apply lex_app.
Qed.

Lemma sorted_app xs ys : sorted_keys (xs ++ ys) <->
  sorted_keys xs /\ sorted_keys ys /\ (forall x y, x ∈ xs -> y ∈ ys -> lex x.1 y.1).
Proof.
  unfold sorted_keys. rewrite map_app, StronglySorted_app. split.
  - intros (H & H1 & H2). split_and!; try done. intros x y Hx Hy. apply H; apply list_elem_of_fmap; eauto.
  - intros (H1 & H2 & H). split_and!; try done. intros x1 x2 (x & -> & Hx)%list_elem_of_fmap (y & -> & Hy)%list_elem_of_fmap.
    by apply H.
Qed.

Lemma sorted_nodup xs : sorted_keys xs -> NoDup (keys xs).
Proof.
  unfold sorted_keys. induction 1 as [|a l H IH Hl]; constructor; [|done].
  intros Ha. rewrite Forall_forall in Hl. by apply (lex_irrefl a), Hl.
Qed.

Lemma sorted_functional xs s d d' : sorted_keys xs -> (s, d) ∈ xs -> (s, d') ∈ xs -> d = d'.
Proof.
  intros H. apply sorted_nodup in H. intros H1 H2.
  apply (elem_of_list_to_map_1 (M := gmap bytes)) in H1, H2; [congruence|done..].
Qed.

Lemma elem_of_prep l xs s d : (s, d) ∈ map (prep l) xs <-> exists s', s = l ++ s' /\ (s', d) ∈ xs.
Proof.
  rewrite list_elem_of_fmap. split.
  - intros ([s' d'] & [= -> ->] & H). eauto.
  - intros (s' & -> & H). by exists (s', d).
Qed.

Lemma elem_of_eentries s d es :
  (s, d) ∈ eentries es <-> exists l t s', (l, t) ∈ es /\ s = l ++ s' /\ (s', d) ∈ entries t.
Proof.
  induction es as [|[l t] es IH].
  - split; [by intros ?%not_elem_of_nil|]. by intros (? & ? & ? & ?%not_elem_of_nil & _).
  - rewrite eentries_cons, elem_of_app, IH. cbn [fst snd]. rewrite elem_of_prep. split.
    + intros [(s' & -> & H)|(l' & t' & s' & H & H')]; [exists l, t, s'|exists l', t', s']; rewrite elem_of_cons; auto.
    + intros (l' & t' & s' & [[= -> ->]|H]%elem_of_cons & -> & H'); [left|right]; eauto 10.
Qed.

Lemma elem_of_own s d k : (s, d) ∈ own k <-> s = [] /\ k = Some d.
Proof. destruct k; cbn; [rewrite list_elem_of_singleton|rewrite elem_of_nil]; split; naive_solver. Qed.

(** *** Well formed nodes *)

Context (max_size : Z).

Definition wf_labels (c : bool) (ls : list bytes) : Prop :=
  Forall (Forall is_byte) ls /\
  if c then exists l, ls = [l] /\ (2 <= length l)%nat /\ zlen l <= max_size
  else exists cs, ls = map (fun x => [x]) cs /\ StronglySorted Z.lt cs.

Definition wf_node (t : tree) : Prop := match t with TNode _ _ c es => wf_labels c (map fst es) end.
Definition wf (t : tree) : Prop := Forall wf_node (subs t).

(** The nodes other than the head that have no children are keys. *)
Definition alive_node (t : tree) : Prop := Forall (fun e => live e.2) (t_edges t).
Definition alive (t : tree) : Prop := Forall alive_node (subs t).

Lemma wf_labels_nonempty c ls : wf_labels c ls -> Forall (fun l => l <> []) ls.
Proof.
  intros [_ H]. destruct c.
  - destruct H as (l & -> & H & _). constructor; [by destruct l; cbn in *; [lia|]|constructor].
  - destruct H as (cs & -> & _). rewrite Forall_map. by apply Forall_true.
Qed.

(** The labels before and after an edge differ from it in their first character. *)
Lemma wf_labels_lt c ls1 l ls2 : wf_labels c (ls1 ++ l :: ls2) ->
  Forall (fun l1 => forall a b, lex (l1 ++ a) (l ++ b)) ls1 /\ Forall (fun l2 => forall a b, lex (l ++ a) (l2 ++ b)) ls2.
Proof.
  intros [_ H]. destruct c.
  - destruct H as (l0 & H & _). destruct ls1 as [|? [|??]]; cbn in H; [|done..].
    injection H as _ ->. by split; constructor.
  - destruct H as (cs & H & Hs).
    symmetry in H. apply fmap_app_inv in H as (c1 & c2 & -> & H & ->). symmetry in H.
    destruct c2 as [|x c2]; [done|]. cbn in H. simplify_eq.
    apply StronglySorted_app in Hs as (H12 & _ & H2). apply StronglySorted_inv in H2 as [_ H2].
    split; rewrite Forall_map, Forall_forall; intros y Hy a b; apply lex_single.
    + apply H12; [done|]. rewrite elem_of_cons; auto.
    + by eapply Forall_forall in H2.
Qed.

Lemma eentries_sorted c es : wf_labels c (map fst es) -> Forall (fun e => sorted_keys (entries e.2)) es ->
  sorted_keys (eentries es).
Proof.
  intros Hw Hs. assert (H : exists pre, wf_labels c (pre ++ map fst es)) by (by exists []). clear Hw.
  induction Hs as [|[l t] es H1 Hs IH]; [constructor|]. destruct H as [pre H].
  rewrite eentries_cons. apply sorted_app. cbn [fst snd map] in *. split_and!.
  - by apply sorted_prep.
  - apply IH. exists (pre ++ [l]). by rewrite <- app_assoc.
  - intros [x dx] [y dy] (s1 & -> & _)%elem_of_prep (l' & t' & s2 & Hin & -> & _)%elem_of_eentries. cbn.
    apply wf_labels_lt in H as [_ H]. rewrite Forall_map, Forall_forall in H. apply (H _ Hin).
Qed.

Lemma own_eentries_sorted k es c : wf_labels c (map fst es) -> sorted_keys (eentries es) -> sorted_keys (own k ++ eentries es).
Proof.
  intros Hw Hs. apply sorted_app. split_and!; [destruct k; repeat constructor|done|].
  intros [x dx] [y dy] [-> _]%elem_of_own (l & t & s & Hin & -> & _)%elem_of_eentries. cbn.
  apply lex_nil. intros [-> _]%app_nil. apply wf_labels_nonempty in Hw. rewrite Forall_map, Forall_forall in Hw.
  by apply (Hw _ Hin).
Qed.

Lemma Forall_esubs (P : tree -> Prop) es : Forall P (esubs es) <-> Forall (fun e => Forall P (subs e.2)) es.
Proof. unfold esubs. by rewrite Forall_concat, Forall_map. Qed.

Lemma wf_eq p k c es : wf (TNode p k c es) <-> wf_labels c (map fst es) /\ Forall (fun e => wf e.2) es.
Proof. unfold wf. by rewrite subs_eq, Forall_cons, Forall_esubs. Qed.

Lemma entries_sorted t : wf t -> sorted_keys (entries t).
Proof.
  induction t as [p k c es IH] using tree_nested_ind. rewrite wf_eq. intros [Hw Hs]. rewrite entries_eq.
  eapply own_eentries_sorted; [done|]. eapply eentries_sorted; [done|].
  rewrite Forall_forall in *. eauto.
Qed.

Lemma before_lt K t : kall wf_node K t -> forall x s, x ∈ before K -> lex x.1 (path K ++ s).
Proof.
  revert t. induction K as [|F K IH]; intros t; cbn [kall before path]; [by intros _ x s ?%not_elem_of_nil|].
  intros (Hw & _ & HK) [x d] s [H|H]%elem_of_app; rewrite <- app_assoc; [by eapply (IH _ HK (x, d))|].
  apply elem_of_prep in H as (s' & -> & H). cbn. apply lex_app. cbn in Hw. rewrite map_app in Hw. cbn in Hw.
  apply elem_of_app in H as [[-> _]%elem_of_own|(l & u & s2 & Hin & -> & _)%elem_of_eentries].
  - apply lex_nil. intros [H _]%app_nil. apply wf_labels_nonempty in Hw.
    rewrite Forall_app, Forall_cons in Hw. by destruct Hw as (_ & ? & _).
  - apply wf_labels_lt in Hw as [Hw _]. rewrite Forall_map, Forall_forall in Hw. apply (Hw _ Hin).
Qed.

Lemma after_gt K t : kall wf_node K t -> forall x s, x ∈ after K -> lex (path K ++ s) x.1.
Proof.
  revert t. induction K as [|F K IH]; intros t; cbn [kall after path]; [by intros _ x s ?%not_elem_of_nil|].
  intros (Hw & _ & HK) [x d] s [H|H]%elem_of_app; rewrite <- app_assoc; [|by eapply (IH _ HK (x, d))].
  apply elem_of_prep in H as (s' & -> & (l & u & s2 & Hin & -> & _)%elem_of_eentries). cbn. apply lex_app.
  cbn in Hw. rewrite map_app in Hw. cbn in Hw. apply wf_labels_lt in Hw as [_ Hw].
  rewrite Forall_map, Forall_forall in Hw. apply (Hw _ Hin).
Qed.

Lemma elem_of_plug K t s d : wf (plug K t) -> (path K ++ s, d) ∈ entries (plug K t) <-> (s, d) ∈ entries t.
Proof.
  unfold wf. rewrite Forall_plug. intros [_ HK]. rewrite entries_plug, !elem_of_app, elem_of_prep. split.
  - intros [H|[(s' & ?%app_inv_head & H)|H]]; [|by simplify_eq|].
    + by apply (before_lt _ _ HK _ s), lex_irrefl in H.
    + by apply (after_gt _ _ HK _ s), lex_irrefl in H.
  - eauto.
Qed.

(** The key that the walk looks for is not below a node without its edge. *)
Lemma elem_of_edges es s d : s <> [] -> forall p k c, (s, d) ∈ entries (TNode p k c es) <-> (s, d) ∈ eentries es.
Proof.
  intros Hs p k c. rewrite entries_eq, elem_of_app, elem_of_own. naive_solver.
Qed.

(** *** The store holds the tree *)

Definition key_ok (n : raxNode V) (k : option value) : Prop :=
  iskey n = bool_decide (is_Some k) /\
  match k with
  | Some None => isnull n = true
  | Some (Some v) => isnull n = false /\ val n = Some v
  | None => True
  end.

Definition edge_ptrs (es : list (bytes * tree)) : list (option ptr) := map (fun e => Some (t_ptr e.2)) es.

Definition matches (n : raxNode V) (t : tree) : Prop :=
  match t with
  | TNode _ k c es =>
      key_ok n k /\ iscompr n = c /\ data n = concat (map fst es) /\ children n = edge_ptrs es /\ fits n = true
  end.

Definition node_ok (m : gmap ptr (raxNode V)) (t : tree) : Prop :=
  exists n, m !! t_ptr t = Some n /\ matches n t.

Record rep (r : rax V) (t : tree) : Prop := {
  rep_head : head r = t_ptr t;
  rep_nodes : Forall (node_ok (mem r)) (subs t);
  rep_nodup : NoDup (ptrs t);
  rep_dom : dom (mem r) = list_to_set (ptrs t);
  rep_wf : wf t;
  rep_numnodes : numnodes r = u64 (zlen (ptrs t));
  rep_numele : numele r = u64 (zlen (entries t)) }.

Lemma node_ok_agree m m' t : m' !! t_ptr t = m !! t_ptr t -> node_ok m t -> node_ok m' t.
Proof. unfold node_ok. by intros ->. Qed.

Lemma nodes_agree m m' ts : (forall p, p ∈ map t_ptr ts -> m' !! p = m !! p) ->
  Forall (node_ok m) ts -> Forall (node_ok m') ts.
Proof.
  intros H Ht. induction Ht as [|t ts Ht Hts IH]; constructor.
  - eapply node_ok_agree; [|done]. apply H. cbn. rewrite elem_of_cons. auto.
  - apply IH. intros p Hp. apply H. cbn. rewrite elem_of_cons. auto.
Qed.

Lemma t_ptr_in_ptrs t : t_ptr t ∈ ptrs t.
Proof. destruct t. rewrite ptrs_eq, elem_of_cons. auto. Qed.

(** Storing a pointer at a link, without the checks of [write_link]. *)
Definition upd_link (l : link) (q : ptr) (r : rax V) : rax V :=
  match l with
  | LHead => set_head q r
  | LChild p k => set_mem (alter (fun n => set_children (<[k := Some q]> (children n)) n) p (mem r)) r
  end.

Definition kmem (K : list frame) (m : gmap ptr (raxNode V)) (q : ptr) : gmap ptr (raxNode V) :=
  match K with
  | [] => m
  | F :: _ => alter (fun n => set_children (<[length (f_left F) := Some q]> (children n)) n) (f_ptr F) m
  end.

Lemma mem_upd_link K q r : mem (upd_link (link_of K) q r) = kmem K (mem r) q.
Proof. by destruct K. Qed.

Lemma matches_fill n F t t' : matches n (fill F t) ->
  matches (set_children (<[length (f_left F) := Some (t_ptr t')]> (children n)) n) (fill F t').
Proof.
  intros (Hk & Hc & Hd & Hch & Hf). unfold fill, matches. split_and!; try done.
  - cbn. by rewrite Hd, !map_app.
  - cbn. rewrite Hch. unfold edge_ptrs. rewrite !map_app. cbn.
    rewrite <- (length_map (fun e => Some (t_ptr e.2)) (f_left F)). by rewrite insert_app_r_alt, Nat.sub_diag by lia.
Qed.

Lemma kall_agree K m m' t t' : (forall p, p ∈ kptrs K -> m' !! p = m !! p) -> t_ptr t = t_ptr t' ->
  kall (node_ok m) K t -> kall (node_ok m') K t'.
Proof.
  revert t t'. induction K as [|F K IH]; intros t t' Ha Ht; cbn [kall kptrs] in *; [done|].
  intros ((n & Hn & Hm) & Hs & HK). cbn in Hn. split_and!.
  - exists n. cbn. split; [rewrite Ha by (rewrite elem_of_cons; auto); done|].
    destruct Hm as (Hk & Hc & Hd & Hch & Hf). unfold fill, matches, edge_ptrs in *. rewrite !map_app in *. cbn in *.
    by rewrite <- Ht.
  - eapply nodes_agree; [|exact Hs]. intros p Hp. apply Ha. rewrite elem_of_cons, elem_of_app. auto.
  - apply (IH (fill F t)); [|done|exact HK]. intros p Hp. apply Ha. rewrite elem_of_cons, elem_of_app. auto.
Qed.

(** A context whose innermost node is relinked still describes the store. *)
Lemma kall_relink K m m' t t' : kall (node_ok m) K t -> NoDup (kptrs K) ->
  (forall p, p ∈ kptrs K -> m' !! p = m !! p) -> kall (node_ok (kmem K m' (t_ptr t'))) K t'.
Proof.
  destruct K as [|F K]; cbn [kall kptrs kmem]; [done|]. intros ((n & Hn & Hm) & Hs & HK) Hnd Ha. cbn in Hn.
  apply NoDup_cons in Hnd as [HF Hnd].
  set (m1 := alter _ _ _).
  assert (Hm1 : forall p, p ∈ map t_ptr (esubs (f_left F ++ f_right F)) ++ kptrs K -> m1 !! p = m !! p).
  { intros p Hp. unfold m1. rewrite lookup_alter_ne by (intros <-; done). apply Ha. rewrite elem_of_cons. auto. }
  split_and!.
  - eexists. cbn. split; [unfold m1; rewrite lookup_alter_eq, Ha, Hn by (rewrite elem_of_cons; auto); done|]. by apply (matches_fill _ _ t).
  - eapply nodes_agree; [|exact Hs]. intros p Hp. apply Hm1. rewrite elem_of_app. auto.
  - apply (kall_agree K m _ (fill F t)); [|done|exact HK]. intros p Hp. apply Hm1. rewrite elem_of_app. auto.
Qed.

Lemma kall_wf K t t' : kall wf_node K t -> kall wf_node K t'.
Proof.
  revert t t'. induction K as [|F K IH]; intros t t'; cbn [kall]; [done|]. intros (H & Hs & HK).
  split_and!; [|done|by eapply IH]. unfold wf_node, fill in *. rewrite map_app in *. done.
Qed.

Lemma wf_plug K t : wf (plug K t) <-> wf t /\ kall wf_node K t.
Proof. apply Forall_plug. Qed.

Lemma rep_focus r K h k c es : rep r (plug K (TNode h k c es)) ->
  exists n, mem r !! h = Some n /\ matches n (TNode h k c es) /\
    Forall (node_ok (mem r)) (esubs es) /\ NoDup (h :: map t_ptr (esubs es) ++ kptrs K) /\
    dom (mem r) = list_to_set (h :: map t_ptr (esubs es) ++ kptrs K) /\
    wf (TNode h k c es) /\ kall wf_node K (TNode h k c es) /\ kall (node_ok (mem r)) K (TNode h k c es).
Proof.
  intros [Hh Hn Hnd Hd Hw _ _]. apply Forall_plug in Hn as [Hn HK]. apply wf_plug in Hw as [Hw HKw].
  rewrite subs_eq, Forall_cons in Hn. destruct Hn as [(n & Hn & Hm) Hs].
  rewrite ptrs_plug, ptrs_eq in Hnd. exists n. split_and!; try done.
  rewrite Hd, (list_to_set_perm_L _ _ (ptrs_plug K _)), ptrs_eq. done.
Qed.

(** What a change below a context needs of the store. *)
Definition ctx_ok (r : rax V) (K : list frame) (t : tree) : Prop :=
  head r = t_ptr (plug K t) /\ kall (node_ok (mem r)) K t /\ kall wf_node K t.

Lemma rep_ctx r K t : rep r (plug K t) -> ctx_ok r K t.
Proof.
  intros [Hh Hn _ _ Hw _ _]. apply Forall_plug in Hn as [_ Hn]. apply wf_plug in Hw as [_ Hw]. done.
Qed.

Lemma ctx_write_link r K t m q hd ne nn : ctx_ok r K t -> (forall p, p ∈ kptrs K -> m !! p = mem r !! p) ->
  write_link (link_of K) q (mkRax m hd ne nn) = Some (upd_link (link_of K) q (mkRax m hd ne nn)).
Proof.
  intros R Ha. destruct K as [|F K]; [done|]. cbn [link_of write_link mem upd_link].
  destruct R as (_ & [(n & Hn & Hm) _] & _). cbn in Hn.
  rewrite Ha, Hn by (cbn; rewrite elem_of_cons; auto). bnd.
  destruct Hm as (_ & _ & _ & Hch & _).
  assert ((length (f_left F) <? length (children n))%nat = true) as ->.
  { rewrite Hch. unfold edge_ptrs. rewrite length_map, length_app. cbn. apply Nat.ltb_lt. lia. }
  unfold upd_link. f_equal. unfold set_mem. cbn. f_equal. apply map_eq. intros p.
  destruct (decide (p = f_ptr F)) as [->|Hp].
  - rewrite lookup_insert_eq, lookup_alter_eq, Ha, Hn by (cbn; rewrite elem_of_cons; auto). done.
  - by rewrite lookup_insert_ne, lookup_alter_ne.
Qed.

(** Replacing the subtree in a context: the new subtree is in the store, and the
    nodes of the context are untouched but for the pointer to the subtree. *)
Lemma ctx_relink r K t t' m hd ne nn : ctx_ok r K t ->
  Forall (node_ok m) (subs t') -> NoDup (ptrs t' ++ kptrs K) -> wf t' ->
  (forall p, p ∈ kptrs K -> m !! p = mem r !! p) ->
  dom m = list_to_set (ptrs t' ++ kptrs K) ->
  hd = head r -> nn = u64 (zlen (ptrs t' ++ kptrs K)) -> ne = u64 (zlen (entries (plug K t'))) ->
  rep (upd_link (link_of K) (t_ptr t') (mkRax m hd ne nn)) (plug K t').
Proof.
  intros (Rh & HK & HKw) Hn Hnd Hw Ha Hd -> Hnn Hne.
  assert (Hk : NoDup (kptrs K)) by (by apply NoDup_app in Hnd as (_ & _ & ?)).
  assert (Hkm : forall p, p ∈ ptrs t' -> kmem K m (t_ptr t') !! p = m !! p).
  { intros p Hp. destruct K as [|F K]; [done|]. apply lookup_alter_ne. intros <-.
    apply NoDup_app in Hnd as (_ & Hdis & _). apply (Hdis _ Hp). cbn. rewrite elem_of_cons. auto. }
  split.
  - destruct K as [|F K]; [done|]. cbn [link_of upd_link head set_mem]. rewrite Rh. cbn [plug].
    clear. generalize (fill F t), (fill F t'), (eq_refl : t_ptr (fill F t) = t_ptr (fill F t')).
    induction K as [|G K IH]; intros u u'; cbn; auto.
  - rewrite mem_upd_link. apply Forall_plug. split; [eapply nodes_agree; [|exact Hn]; exact Hkm|].
    by eapply kall_relink.
  - by rewrite ptrs_plug.
  - rewrite mem_upd_link, (list_to_set_perm_L _ _ (ptrs_plug K t')), <- Hd. destruct K; [done|]. cbn [kmem mem].
    apply dom_alter_L.
  - apply wf_plug. split; [done|]. by eapply kall_wf.
  - replace (numnodes _) with nn by (by destruct K). rewrite Hnn. f_equal. unfold zlen. by rewrite (ptrs_plug K t').
  - by replace (numele _) with ne by (by destruct K).
Qed.

(** Storing the pointer that is already there changes nothing. *)
Lemma ctx_link_same r K t m hd ne nn : ctx_ok r K t -> hd = head r ->
  (forall p, p ∈ kptrs K -> m !! p = mem r !! p) ->
  upd_link (link_of K) (t_ptr t) (mkRax m hd ne nn) = mkRax m hd ne nn.
Proof.
  intros R Hh Ha. destruct K as [|F K].
  - cbn. unfold set_head. cbn. destruct R as (Rh & _). by rewrite Hh, Rh.
  - cbn. unfold set_mem. cbn. f_equal. apply map_eq. intros p.
    destruct (decide (p = f_ptr F)) as [->|Hpf]; [|by rewrite lookup_alter_ne].
    destruct R as (_ & [(n & Hfn & _ & _ & _ & Hch & _) _] & _). cbn in Hfn.
    rewrite lookup_alter_eq, Ha, Hfn by (cbn; rewrite elem_of_cons; auto). cbn. f_equal.
    destruct n as [a b c d ch e f]. cbn in *. unfold set_children. cbn. f_equal. apply list_insert_id.
    rewrite Hch. unfold edge_ptrs. rewrite map_app. cbn. rewrite lookup_app_r by (rewrite length_map; lia).
    by rewrite length_map, Nat.sub_diag.
Qed.

(** *** The walk *)

(** Where a walk for [s] stops: at the node of the key, at a node without an
    edge for the next character, or inside a compressed node. *)
Inductive stop_at (s : bytes) (K : list frame) : tree -> nat -> nat -> Prop :=
| stop_end t : path K = s -> stop_at s K t (length s) 0
| stop_miss p k es c rest : s = path K ++ c :: rest -> c ∉ concat (map fst es) ->
    stop_at s K (TNode p k false es) (length (path K)) 0
| stop_inside p k l u rest : s = path K ++ rest -> rest <> [] -> (compr_match l rest < length l)%nat ->
    stop_at s K (TNode p k true [(l, u)]) (length (path K) + compr_match l rest) (compr_match l rest).

Lemma compr_match_spec v s : exists a v' s', v = a ++ v' /\ s = a ++ s' /\ length a = compr_match v s /\
  match v', s' with x :: _, y :: _ => x <> y | _, _ => True end.
Proof.
  revert s. induction v as [|x v IH]; intros s; [by exists [], [], s|].
  destruct s as [|y s]; [by exists [], (x :: v), []|]. cbn. destruct (x =? y) eqn:E; bool_hyps.
  - subst. destruct (IH s) as (a & v' & s' & -> & -> & Hl & H). exists (y :: a), v', s'. cbn. by rewrite Hl.
  - by exists [], (x :: v), (y :: s).
Qed.

Lemma edge_index_miss v c : c ∉ v -> edge_index v c = length v.
Proof.
  induction v as [|x v IH]; cbn; [done|]. rewrite not_elem_of_cons. intros [H1 H2].
  case_if E; [done|]. by rewrite IH.
Qed.

Lemma edge_index_app a c b : c ∉ a -> edge_index (a ++ c :: b) c = length a.
Proof.
  induction a as [|x a IH]; cbn; [by rewrite Z.eqb_refl|]. rewrite not_elem_of_cons. intros [H1 H2].
  case_if E; [done|]. by rewrite IH.
Qed.

Lemma concat_singles (cs : list Z) : concat (map (fun x => [x]) cs) = cs.
Proof. induction cs; cbn; congruence. Qed.

(** The edges of a node that is not compressed, around one of its characters. *)
Lemma edges_split (es : list (bytes * tree)) cs c : map fst es = map (fun x : Z => [x]) cs -> c ∈ cs ->
  exists left u right, es = left ++ ([c], u) :: right /\ edge_index cs c = length left.
Proof.
  intros H Hc. apply list_elem_of_split_l in Hc as (a & b & -> & Ha).
  rewrite map_app in H. apply fmap_app_inv in H as (e1 & e2 & H1 & H2 & ->).
  destruct e2 as [|[l u] e2]; [done|]. cbn in H2. injection H2 as <- H2.
  exists e1, u, e2. split; [done|]. rewrite edge_index_app by done.
  apply (f_equal length) in H1. rewrite ?length_fmap, ?length_map in H1. lia.
Qed.

Lemma raxStackPush_ok ts p : zlen (items ts) <= maxitems ts -> 0 < maxitems ts ->
  exists ts', raxStackPush ts p = Some ts' /\ items ts' = p :: items ts /\ zlen (items ts') <= maxitems ts' /\ 0 < maxitems ts'.
Proof.
  intros H1 H2. unfold raxStackPush. destruct (_ =? _) eqn:E; bool_hyps; if_lia; eexists; split_and!; try done; cbn;
    rewrite ?zlen_cons; lia.
Qed.

(** The stack holds the nodes of the context. *)
Definition stack_ok (ts : option raxStack) (K : list frame) : Prop :=
  match ts with
  | Some ts => items ts = map f_ptr K /\ zlen (items ts) <= maxitems ts /\ 0 < maxitems ts
  | None => True
  end.

Definition walk_ok (s : bytes) (K0 : list frame) (t0 : tree) (ts : option raxStack) (w : walked) : Prop :=
  exists K t, plug K t = plug K0 t0 /\ w_stop w = t_ptr t /\ w_link w = link_of K /\
    stop_at s K t (w_i w) (w_split w) /\ stack_ok (w_stack w) K /\ (is_Some ts <-> is_Some (w_stack w)).

Lemma follow_ok s fuel (m : gmap ptr (raxNode V)) h n F K t ts i :
  (forall ts, stack_ok ts (F :: K) -> (length s - length (path (F :: K)) < fuel)%nat ->
     (exists rest, s = path (F :: K) ++ rest) ->
     exists w, low_walk fuel m s (t_ptr t) (link_of (F :: K)) (length (path (F :: K))) ts = Some w /\
       walk_ok s (F :: K) t ts w) ->
  matches n (fill F t) -> h = f_ptr F -> stack_ok ts K ->
  (length s - i < fuel)%nat -> i = length (path (F :: K)) -> (exists rest, s = path (F :: K) ++ rest) ->
  exists w,
  (ts ← (match ts with Some ts => ts ← raxStackPush ts h; Some (Some ts) | None => Some None end);
   c ← children n !! length (f_left F);
   c ← c;
   low_walk fuel m s c (LChild h (length (f_left F))) i ts) = Some w /\ walk_ok s K (fill F t) ts w.
Proof.
  intros IH (_ & _ & _ & Hch & _) -> Hts Hf -> Hs.
  assert (Hc : children n !! length (f_left F) = Some (Some (t_ptr t))).
  { rewrite Hch. unfold edge_ptrs. rewrite map_app. cbn. rewrite lookup_app_r by (rewrite length_map; lia).
    by rewrite length_map, Nat.sub_diag. }
  destruct ts as [ts|].
  - destruct Hts as (H1 & H2 & H3).
    destruct (raxStackPush_ok ts (f_ptr F) H2 H3) as (ts' & -> & Hi & H4 & H5). bnd. rewrite Hc. bnd.
    destruct (IH (Some ts')) as (w & Hw & K' & t' & H); [|done..|].
    { split; [|done]. by rewrite Hi, H1. }
    exists w. split; [done|]. exists K', t'. destruct H as (? & ? & ? & ? & ? & H). split_and!; try done.
    rewrite <- H. split; eauto.
  - bnd. rewrite Hc. bnd. destruct (IH None) as (w & Hw & K' & t' & H); [done..|]. exists w. split; [done|]. by exists K', t'.
Qed.

Lemma low_walk_ok (m : gmap ptr (raxNode V)) s fuel K t ts :
  Forall (node_ok m) (subs t) -> wf t -> stack_ok ts K -> (length s - length (path K) < fuel)%nat ->
  (exists rest, s = path K ++ rest) ->
  exists w, low_walk fuel m s (t_ptr t) (link_of K) (length (path K)) ts = Some w /\ walk_ok s K t ts w.
Proof.
  revert K t ts. induction fuel as [|fuel IH]; intros K t ts Hn Hw Hts Hf [rest Hs]; [lia|].
  destruct t as [p k c es]. cbn [low_walk t_ptr].
  rewrite subs_eq, Forall_cons in Hn. destruct Hn as [(n & Hnp & Hm) Hns]. cbn in Hnp. rewrite Hnp. bnd.
  apply wf_eq in Hw as [Hl Hws]. pose proof Hm as (_ & Hc & Hd & _). rewrite Hc.
  assert (Hend : path K = s -> walk_ok s K (TNode p k c es) ts (mkWalked (length s) p (link_of K) 0 ts)).
  { intros Hp. exists K, (TNode p k c es). split_and!; try done. by constructor. }
  unfold size, zlen. rewrite Hd.
  destruct (decide (rest = [])) as [->|Hrest].
  { rewrite app_nil_r in Hs. subst s. rewrite Nat.ltb_irrefl, andb_false_r. eexists. split; [done|].
    destruct c; by apply Hend. }
  assert (Hlt : (length (path K) <? length s)%nat = true).
  { apply Nat.ltb_lt. rewrite Hs, length_app. destruct rest; [done|]. cbn. lia. }
  rewrite Hlt, andb_true_r. destruct c.
  - destruct Hl as (_ & l & Hes & Hl2 & _). destruct es as [|[l' u] [|? ?]]; try done. cbn in Hes. injection Hes as ->.
    cbn [map concat fst]. rewrite app_nil_r. if_lia. replace (drop (length (path K)) s) with rest by (by rewrite Hs, drop_app_length).
    destruct (compr_match_spec l rest) as (a & v' & s' & Hv & Hr & Hlen & Hne).
    destruct (_ =? _)%nat eqn:E; [apply Nat.eqb_eq in E|apply Nat.eqb_neq in E].
    + assert (v' = []) as -> by (apply (f_equal length) in Hv; rewrite length_app in Hv; destruct v'; [done|cbn in Hv; lia]).
      rewrite app_nil_r in Hv. subst a.
      pose (F := mkF p k true [] l []).
      change (TNode p k true [(l, u)]) with (fill F u). apply (follow_ok s fuel m p n F K u ts); try done.
      * intros ts' Hts' Hf' Hs'. apply IH; try done.
        -- rewrite Forall_esubs in Hns. by inv Hns.
        -- by inv Hws.
      * apply Nat.ltb_lt in Hlt. lia.
      * cbn. rewrite length_app. lia.
      * exists s'. cbn. by rewrite Hs, Hr, <- app_assoc.
    + eexists. split; [done|]. exists K, (TNode p k true [(l, u)]). split_and!; try done. cbn [w_i w_split].
      apply (stop_inside s K p k l u rest); try done.
      apply (f_equal length) in Hv. rewrite length_app in Hv. lia.
  - destruct Hl as (_ & cs & Hes & Hso). rewrite Hes, concat_singles.
    destruct rest as [|c rest]; [done|].
    assert (Hmiss : c ∉ cs -> walk_ok s K (TNode p k false es) ts (mkWalked (length (path K)) p (link_of K) 0 ts)).
    { intros Hc'. exists K, (TNode p k false es). split_and!; try done. eapply stop_miss; [exact Hs|]. by rewrite Hes, concat_singles. }
    destruct (decide (cs = [])) as [->|Hcs]; [cbn; eexists; split; [done|]; apply Hmiss; by intros ?%not_elem_of_nil|].
    replace (negb _) with true by (destruct cs; [done|]; cbn [length]; lia).
    replace (s !! length (path K)) with (Some c) by (by rewrite Hs, lookup_app_r, Nat.sub_diag by lia). bnd.
    destruct (decide (c ∈ cs)) as [Hin|Hin].
    + destruct (edges_split es cs c Hes Hin) as (left & u & right & -> & Hei).
      assert (Hlen : (length left < length cs)%nat).
      { apply (f_equal length) in Hes. rewrite !length_map, length_app in Hes. cbn in Hes. lia. }
      rewrite Hei. replace (_ =? _)%nat with false by (symmetry; apply Nat.eqb_neq; lia).
      pose (F := mkF p k false left [c] right).
      change (TNode p k false _) with (fill F u) in *. apply (follow_ok s fuel m p n F K u ts); try done.
      * intros ts' Hts' Hf' Hs'. apply IH; try done.
        -- rewrite Forall_esubs, Forall_app, Forall_cons in Hns. by destruct Hns as (_ & ? & _).
        -- rewrite Forall_app, Forall_cons in Hws. by destruct Hws as (_ & ? & _).
      * apply Nat.ltb_lt in Hlt. lia.
      * cbn. rewrite length_app. cbn. lia.
      * exists rest. cbn. by rewrite Hs, <- app_assoc.
    + rewrite edge_index_miss, Nat.eqb_refl by done. eexists. split; [done|]. by apply Hmiss.
Qed.

Lemma raxLowWalk_ok r s t ts : rep r t -> match ts with Some ts => ts = raxStackInit | None => True end ->
  exists w, raxLowWalk r s ts = Some w /\ walk_ok s [] t ts w.
Proof.
  intros R Hts. unfold raxLowWalk. rewrite (rep_head _ _ R).
  apply (low_walk_ok (mem r) s (S (length s)) [] t ts); [apply R|apply R| |cbn; lia|by exists s].
  destruct ts as [ts|]; [|done]. subst. split; [done|]. cbn. unfold RAX_STACK_STATIC_ITEMS. rewrite zlen_nil. lia.
Qed.

(** *** Lookup *)

Lemma get_data_ok n k d : key_ok n k -> k = Some d -> raxGetData n = Some d.
Proof. intros [_ H] ->. unfold raxGetData. destruct d as [v|]; [destruct H as [-> ->]|rewrite H]; done. Qed.

Lemma iskey_ok n k : key_ok n k -> iskey n = match k with Some _ => true | None => false end.
Proof. intros [-> _]. destruct k; [by rewrite bool_decide_true|by rewrite bool_decide_false by (by intros [? ?])]. Qed.

Lemma elem_of_eentries_nil d es c : wf_labels c (map fst es) -> ([], d) ∈ eentries es -> False.
Proof.
  intros Hw (l & t & s & Hin & H & _)%elem_of_eentries. symmetry in H. apply app_nil in H as [-> _].
  apply wf_labels_nonempty in Hw. rewrite Forall_map, Forall_forall in Hw. by apply (Hw _ Hin).
Qed.

Lemma elem_of_path K p k c es d : wf (plug K (TNode p k c es)) ->
  (path K, d) ∈ entries (plug K (TNode p k c es)) <-> k = Some d.
Proof.
  intros Hw. rewrite <- (app_nil_r (path K)) at 1. rewrite elem_of_plug by done.
  rewrite entries_eq, elem_of_app, elem_of_own. apply wf_plug in Hw as [[Hw _]%wf_eq _].
  split; [intros [[_ ?]|?%(elem_of_eentries_nil _ _ _ Hw)]; done|auto].
Qed.

(** A walk that does not stop at the node of the key proves its absence. *)
Lemma stop_absent s K t i j d : wf (plug K t) -> stop_at s K t i j -> path K <> s -> (s, d) ∉ entries (plug K t).
Proof.
  intros Hw Hst Hp Hin. destruct Hst as [t Hs|p k es c rest Hs Hc|p k l u rest Hs Hr Hj]; [done| |]; rewrite Hs in Hin;
    rewrite elem_of_plug in Hin by done; apply wf_plug in Hw as [[Hl _]%wf_eq _].
  - rewrite elem_of_edges in Hin by done. apply elem_of_eentries in Hin as (l & t & s' & Hin & Heq & _).
    destruct Hl as (_ & cs & Hes & _). assert (Hl : l ∈ map fst es) by (apply list_elem_of_fmap; by exists (l, t)).
    rewrite Hes in Hl, Hc. rewrite concat_singles in Hc. apply list_elem_of_fmap in Hl as (x & -> & Hx).
    cbn in Heq. by injection Heq as -> ->.
  - rewrite elem_of_edges in Hin by done. apply elem_of_eentries in Hin as (l' & t & s' & Hin & Heq & _).
    apply list_elem_of_singleton in Hin as [= -> ->].
    destruct (compr_match_spec l rest) as (a & v' & s2 & Hv & Hr2 & Hlen & Hne).
    rewrite Hr2, Hv, <- app_assoc in Heq. apply app_inv_head in Heq.
    destruct v' as [|x v']; [rewrite Hv, app_nil_r in Hj; rewrite Hv, app_nil_r in Hlen; lia|].
    cbn in Heq. subst s2. done.
Qed.

(** The store represents a finite map. *)
Definition denotes (xs : list entry) (f : gmap bytes value) : Prop := forall s d, f !! s = Some d <-> (s, d) ∈ xs.

Definition rep_map (r : rax V) (f : gmap bytes value) : Prop :=
  exists t, rep r t /\ alive t /\ denotes (entries t) f.

Lemma stop_inside_absent s K t i j : stop_at s K t i j ->
  path K = s /\ i = length s /\ j = 0%nat \/
  path K <> s /\ (i <> length s \/ (j <> 0%nat /\ exists p k l u, t = TNode p k true [(l, u)])).
Proof.
  intros [t' ->|p k es c rest -> _|p k l u rest -> Hr Hj]; [by left|right|right].
  - split; [|left; rewrite length_app; cbn; lia]. intros E. apply (f_equal length) in E. rewrite length_app in E. cbn in E. lia.
  - split.
    + intros E. rewrite <- (app_nil_r (path K)) in E at 1. by apply app_inv_head in E.
    + destruct (decide (compr_match l rest = 0)%nat) as [E|E]; [|right; eauto 10].
      left. rewrite length_app. destruct rest; [done|]. cbn [length]. lia.
Qed.

Lemma raxFind_ok r f s : rep_map r f -> raxFind r s = Some (f !! s).
Proof.
  intros (t & R & _ & Hf). unfold raxFind.
  destruct (raxLowWalk_ok r s t None R I) as (w & -> & K & u & Hpl & Hstop & Hlink & Hst & _ & _). cbn in Hpl. bnd. subst t.
  destruct u as [p k c es]. destruct (rep_focus _ _ _ _ _ _ R) as (n & Hn & Hm & _). cbn in Hstop. rewrite Hstop, Hn. bnd.
  destruct Hm as (Hk & Hc & _).
  destruct (stop_inside_absent _ _ _ _ _ Hst) as [(Hp & -> & ->)|(Hp & Hij)].
  - rewrite Nat.eqb_refl, andb_false_r. cbn [negb orb]. rewrite (iskey_ok _ _ Hk). subst s. destruct k as [d|]; cbn.
    + rewrite (get_data_ok _ _ d Hk) by done. bnd. f_equal. symmetry. apply Hf. by apply elem_of_path; [apply R|].
    + f_equal. symmetry. apply eq_None_not_Some. intros [d Hd%Hf]. by apply elem_of_path in Hd; [|apply R].
  - assert (f !! s = None) as ->.
    { apply eq_None_not_Some. intros [d Hd%Hf]. by eapply stop_absent in Hst; [apply Hst in Hd| apply R|]. }
    destruct Hij as [Hi|(Hj & _ & _ & l & v & [= _ _ -> _])].
    + replace (_ =? _)%nat with false by (symmetry; by apply Nat.eqb_neq). done.
    + rewrite Hc. replace (w_split w =? 0)%nat with false by (symmetry; by apply Nat.eqb_neq). cbn. by rewrite orb_true_r.
Qed.

(** *** Writing nodes *)

Context (junk : Z) (A : allocator V).

Lemma u64_add x y : u64 (u64 x + y) = u64 (x + y).
Proof. unfold wrap. apply Zplus_mod_idemp_l. Qed.

Lemma realloc_ok p len m n : m !! p = Some n ->
  exists q, rax_realloc A p len m = Some (q, <[q := set_alloc len n]> (delete p m)) /\ (q = p \/ q ∉ dom m).
Proof.
  intros H. unfold rax_realloc. rewrite H. bnd. destruct (moves A m p); eexists; split; try done; [right|by left].
  apply new_block_unused.
Qed.

Lemma put_ok p (n x : raxNode V) m : m !! p = Some x -> fits n = true -> put p n m = Some (<[p := n]> m).
Proof. intros H Hf. unfold put. by rewrite H, Hf. Qed.

Lemma node_length_key key null c sz :
  node_length key null c sz = node_length false false c sz + (if key && negb null then 8 else 0).
Proof. unfold node_length. cbn. lia. Qed.

Lemma set_data_ok n h k c es d h' : matches n (TNode h k c es) ->
  (is_Some d -> node_length true false c (size n) <= alloc n) ->
  exists n', raxSetData n d = Some n' /\ matches n' (TNode h' (Some d) c es).
Proof.
  intros (_ & <- & Hd & Hch & Hf) Ha. unfold fits, raxNodeCurrentLength in Hf. rewrite node_length_key in Hf.
  assert (He : node_length false false (iscompr n) (size n) <= alloc n) by (destruct (_ && _); lia).
  destruct d as [v|]; cbn [raxSetData].
  - specialize (Ha (ltac:(eauto))).
    assert (Hf' : fits (mkNode true false (iscompr n) (data n) (children n) (Some v) (alloc n)) = true)
      by (apply Z.leb_le; exact Ha).
    rewrite Hf'. eexists. by split_and!.
  - eexists. split; [done|]. split_and!; try done. by apply Z.leb_le.
Qed.

Lemma kmem_insert K m q p n : p ∉ kptrs K -> <[p := n]> (kmem K m q) = kmem K (<[p := n]> m) q.
Proof.
  intros H. destruct K as [|F K]; [done|]. cbn. symmetry. apply alter_insert_ne. intros <-. apply H. cbn. rewrite elem_of_cons. auto.
Qed.

Lemma kmem_lookup K m q p : p ∉ kptrs K -> kmem K m q !! p = m !! p.
Proof.
  intros H. destruct K as [|F K]; [done|]. cbn. apply lookup_alter_ne. intros <-. apply H. cbn. rewrite elem_of_cons. auto.
Qed.

Lemma kmem_delete K m q p : p ∉ kptrs K -> delete p (kmem K m q) = kmem K (delete p m) q.
Proof.
  intros H. destruct K as [|F K]; [done|]. cbn. apply map_eq. intros i.
  assert (p <> f_ptr F) by (intros ->; apply H; cbn; rewrite elem_of_cons; auto).
  destruct (decide (i = p)) as [->|]; [rewrite lookup_delete_eq, lookup_alter_ne by done; by rewrite lookup_delete_eq|].
  rewrite lookup_delete_ne by done. destruct (decide (i = f_ptr F)) as [->|]; [by rewrite !lookup_alter_eq, lookup_delete_ne|].
  by rewrite !lookup_alter_ne, lookup_delete_ne.
Qed.

(** Later changes of a tree whose link was updated. *)
Lemma set_mem_upd K q r m : set_mem (kmem K m q) (upd_link (link_of K) q r) = upd_link (link_of K) q (set_mem m r).
Proof. by destruct K. Qed.
Lemma add_numnodes_upd l q r k : add_numnodes k (upd_link l q r) = upd_link l q (add_numnodes k r).
Proof. by destruct l. Qed.
Lemma add_numele_upd l q r k : add_numele k (upd_link l q r) = upd_link l q (add_numele k r).
Proof. by destruct l. Qed.

Ltac elts := rewrite ?elem_of_cons, ?elem_of_app in *.
Ltac doms := rewrite ?dom_insert_L, ?dom_delete_L; set_solver.

(** The node of the focus is rewritten, and maybe moved. *)
Lemma rep_node r K h k c es q n k' ne :
  rep r (plug K (TNode h k c es)) -> matches n (TNode q k' c es) -> q = h \/ q ∉ dom (mem r) ->
  ne = u64 (zlen (entries (plug K (TNode q k' c es)))) ->
  rep (upd_link (link_of K) q (mkRax (<[q := n]> (delete h (mem r))) (head r) ne (numnodes r))) (plug K (TNode q k' c es)).
Proof.
  intros R Hm Hq Hne. pose proof (rep_focus _ _ _ _ _ _ R) as (n0 & Hn0 & _ & Hs & Hnd & Hd & Hw & HKw & HK).
  apply NoDup_cons in Hnd as [Hh Hnd].
  assert (Hqn : q ∉ map t_ptr (esubs es) ++ kptrs K) by (destruct Hq as [->|Hq]; [done|rewrite Hd in Hq; set_solver]).
  assert (Hag : forall p, p ∈ map t_ptr (esubs es) ++ kptrs K -> <[q:=n]> (delete h (mem r)) !! p = mem r !! p).
  { intros p Hp. rewrite lookup_insert_ne, lookup_delete_ne by (intros ->; done). done. }
  apply (ctx_relink r K (TNode h k c es) (TNode q k' c es)); try done; [by apply rep_ctx|..].
  - rewrite subs_eq. constructor; [exists n; by rewrite lookup_insert_eq|]. eapply nodes_agree; [|exact Hs].
    intros p Hp. apply Hag. elts. auto.
  - rewrite ptrs_eq. cbn. constructor; done.
  - apply wf_eq. by apply wf_eq in Hw.
  - intros p Hp. apply Hag. elts. auto.
  - rewrite ptrs_eq. rewrite dom_insert_L, dom_delete_L, Hd. cbn [list_to_set app]. clear -Hh Hqn. set_solver.
  - rewrite (rep_numnodes _ _ R). f_equal. unfold zlen. by rewrite (ptrs_plug K (TNode h k c es)).
Qed.

Lemma rep_node_in_place r K h k c es n k' ne :
  rep r (plug K (TNode h k c es)) -> matches n (TNode h k' c es) ->
  ne = u64 (zlen (entries (plug K (TNode h k' c es)))) ->
  rep (mkRax (<[h := n]> (mem r)) (head r) ne (numnodes r)) (plug K (TNode h k' c es)).
Proof.
  intros R Hm Hne. pose proof (rep_focus _ _ _ _ _ _ R) as (_ & _ & _ & _ & [Hh _]%NoDup_cons & _).
  rewrite <- (ctx_link_same r K (TNode h k c es)); [|by apply rep_ctx|done|].
  - rewrite <- insert_delete_eq. apply (rep_node r K h k c es); auto.
  - intros p Hp. rewrite lookup_insert_ne; [done|]. intros ->. apply Hh. elts. auto.
Qed.

(** *** Setting the value of a node *)

Lemma zlen_entries_plug K t : zlen (entries (plug K t)) = zlen (entries t) + zlen (before K) + zlen (after K).
Proof. rewrite entries_plug, !zlen_app. unfold zlen. rewrite length_map. lia. Qed.

Lemma matches_alloc n p k c es len : matches n (TNode p k c es) -> raxNodeCurrentLength n <= len ->
  forall q, matches (set_alloc len n) (TNode q k c es).
Proof.
  intros (Hk & Hc & Hd & Hch & _) Hl q. split_and!; try done. unfold fits, raxNodeCurrentLength, size in *. cbn in *. lia.
Qed.

Lemma realloc_for_data_ok r K h k c es d : rep r (plug K (TNode h k c es)) ->
  exists q n m, raxReallocForData A h d (mem r) = Some (q, m) /\ m !! q = Some n /\ (q = h \/ q ∉ dom (mem r)) /\
    matches n (TNode q k c es) /\ (is_Some d -> node_length true false c (size n) <= alloc n) /\
    (forall x, <[q := x]> m = <[q := x]> (delete h (mem r))) /\
    (forall p, p ∈ kptrs K -> m !! p = mem r !! p).
Proof.
  intros R. pose proof (rep_focus _ _ _ _ _ _ R) as (n & Hn & Hm & _ & Hnd & Hd & _).
  destruct d as [v|]; cbn [raxReallocForData].
  - rewrite Hn. bnd. destruct (realloc_ok h (raxNodeCurrentLength n + 8) (mem r) n Hn) as (q & -> & Hq).
    eexists q, _, _. split; [done|]. rewrite lookup_insert_eq. split_and!; try done.
    + eapply matches_alloc; [done|lia].
    + intros _. unfold raxNodeCurrentLength, size. cbn. destruct Hm as (_ & -> & _). rewrite node_length_key.
      rewrite (node_length_key (iskey n)). cbn. destruct (_ && _); lia.
    + intros x. apply insert_insert_eq.
    + intros p Hp. apply NoDup_cons in Hnd as [Hh _]. rewrite Hd in Hq.
      rewrite lookup_insert_ne, lookup_delete_ne; [done| |]; intros ->; [set_solver|].
      destruct Hq as [->|Hq]; set_solver.
  - eexists h, n, _. split; [done|]. split_and!; try done; try (by left); try (intros [? ?]; done).
    intros x. by rewrite insert_delete_eq.
Qed.

Lemma kptrs_fresh r K h k c es q : rep r (plug K (TNode h k c es)) -> q = h \/ q ∉ dom (mem r) -> q ∉ kptrs K.
Proof.
  intros R. pose proof (rep_focus _ _ _ _ _ _ R) as (_ & _ & _ & _ & [Hh _]%NoDup_cons & Hd & _). rewrite Hd.
  intros [->|Hq]; set_solver.
Qed.

Lemma insert_data_ok r K h c es d : rep r (plug K (TNode h None c es)) ->
  exists r' q, insert_data A r h (link_of K) d = Some r' /\ rep r' (plug K (TNode q (Some d) c es)).
Proof.
  intros R. unfold insert_data.
  destruct (realloc_for_data_ok _ _ _ _ _ _ d R) as (q & n & m & -> & Hq & Hqf & Hm & Ha & Hx & Hk). bnd. rewrite Hq. bnd.
  assert (iskey n = false) as -> by (by destruct Hm as [[-> _] _]).
  destruct (set_data_ok _ _ _ _ _ d q Hm Ha) as (n' & -> & Hm'). bnd. cbn [mem add_numele set_mem].
  rewrite (put_ok _ _ n) by (done || by destruct Hm' as (_ & _ & _ & _ & ?)). bnd. rewrite Hx.
  unfold add_numele, set_mem. cbn [mem head numele numnodes].
  pose proof (kptrs_fresh _ _ _ _ _ _ _ R Hqf) as Hqk.
  rewrite (ctx_write_link r K (TNode h None c es)); [|by apply rep_ctx|].
  - eexists _, q. split; [done|]. apply (rep_node r K h None c es); try done.
    rewrite (rep_numele _ _ R), u64_add, !zlen_entries_plug, !entries_eq, !zlen_app. cbn. f_equal. rewrite zlen_cons. lia.
  - intros p Hp. rewrite <- Hx, lookup_insert_ne by (by intros ->). by apply Hk.
Qed.

Lemma insert_existing_ok r K h k c es d ow : rep r (plug K (TNode h k c es)) ->
  exists r' q, insert_existing A r h (link_of K) d ow = Some (r', match k with Some _ => 0 | None => 1 end, k) /\
    rep r' (plug K (TNode q (Some (match k with Some d0 => if ow then d else d0 | None => d end)) c es)).
Proof.
  intros R. unfold insert_existing.
  pose proof (rep_focus _ _ _ _ _ _ R) as (n & Hn & Hm & _ & Hnd & Hd & _). rewrite Hn. bnd.
  pose proof (rep_numele _ _ R) as Hne. rewrite zlen_entries_plug, entries_eq, zlen_app in Hne.
  destruct (realloc_for_data_ok _ _ _ _ _ _ d R) as (q & n1 & m & Hr & Hq & Hqf & Hm1 & Ha & Hx & Hk).
  pose proof (kptrs_fresh _ _ _ _ _ _ _ R Hqf) as Hqk.
  destruct (set_data_ok _ _ _ _ _ d q Hm1 Ha) as (n1' & Hs1 & Hm1').
  assert (Hf1 : fits n1' = true) by (by destruct Hm1' as (_ & _ & _ & _ & ?)).
  assert (Hw : write_link (link_of K) q (set_mem m r) = Some (upd_link (link_of K) q (set_mem m r)))
    by (by apply (ctx_write_link r K (TNode h k c es)); [apply rep_ctx|]).
  assert (Hfin : forall ne, ne = u64 (zlen (entries (plug K (TNode q (Some d) c es)))) ->
    rep (upd_link (link_of K) q (mkRax (<[q:=n1']> m) (head r) ne (numnodes r))) (plug K (TNode q (Some d) c es))).
  { intros ne ->. rewrite Hx. by apply (rep_node r K h k c es). }
  rewrite zlen_entries_plug, entries_eq, zlen_app in Hfin.
  destruct k as [d0|].
  - pose proof Hm as ([Hik Hval] & Hc & _ & _ & Hf). rewrite bool_decide_true in Hik by eauto. rewrite Hik. cbn [negb orb].
    destruct (isnull n && ow) eqn:E.
    + rewrite Hr. bnd. rewrite Hw. bnd. rewrite mem_upd_link, kmem_lookup by done. cbn [mem set_mem]. rewrite Hq. bnd.
      pose proof Hm1 as (Hk1 & _). rewrite (iskey_ok _ _ Hk1).
      rewrite (get_data_ok n1 (Some d0) d0) by done. bnd.
      apply andb_prop in E as [_ ->]. rewrite Hs1. bnd.
      rewrite (put_ok _ _ n1) by (by rewrite ?kmem_lookup). bnd. rewrite kmem_insert, set_mem_upd by done.
      eexists _, q. split; [done|]. by apply Hfin.
    + bnd. rewrite Hn. bnd. rewrite Hik, (get_data_ok n (Some d0) d0) by (done || by destruct Hm). bnd. destruct ow.
      * destruct (set_data_ok n h (Some d0) c es d h Hm) as (n' & -> & Hm').
        { intros _. unfold fits, raxNodeCurrentLength in Hf. rewrite Hik, Hc in Hf.
          rewrite andb_true_r in E. rewrite E in Hf. lia. }
        bnd. rewrite (put_ok _ _ n) by (done || by destruct Hm' as (_ & _ & _ & _ & ?)). bnd.
        eexists _, h. split; [done|]. apply (rep_node_in_place r K h (Some d0) c es); try done.
        by rewrite zlen_entries_plug, entries_eq, zlen_app.
      * eexists r, h. by split.
  - pose proof Hm as (Hk0 & _). rewrite (iskey_ok _ _ Hk0). cbn [negb orb].
    rewrite Hr. bnd. rewrite Hw. bnd. rewrite mem_upd_link, kmem_lookup by done. cbn [mem set_mem]. rewrite Hq. bnd.
    pose proof Hm1 as (Hk1 & _). rewrite (iskey_ok _ _ Hk1). rewrite Hs1. bnd.
    rewrite (put_ok _ _ n1) by (by rewrite ?kmem_lookup). bnd. rewrite kmem_insert, set_mem_upd, add_numele_upd by done.
    eexists _, q. split; [done|]. apply Hfin. unfold set_mem. cbn [numele]. rewrite Hne, u64_add. cbn [own]. unfold zlen. cbn [length].
    f_equal. lia.
Qed.

(** *** Adding nodes *)

(** The context is alive around any live tree. *)
Definition some_key : tree := TNode 1 (Some None) false [].
Definition kalive (K : list frame) : Prop := kall alive_node K some_key.

Lemma alive_eq p k c es : alive (TNode p k c es) <-> Forall (fun e => live e.2) es /\ Forall (fun e => alive e.2) es.
Proof. unfold alive. by rewrite subs_eq, Forall_cons, Forall_esubs. Qed.

Lemma kall_alive K t t' : live t' -> kall alive_node K t -> kall alive_node K t'.
Proof.
  revert t t'. induction K as [|F K IH]; intros t t' Hl; cbn [kall]; [done|]. intros (H & Hs & HK). split_and!; [|done|].
  - unfold alive_node, fill in *. cbn in *. rewrite Forall_app, Forall_cons in *. by destruct H as (? & _ & ?).
  - eapply IH; [|exact HK]. right. by destruct (f_left F).
Qed.

Lemma alive_plug K t : live t \/ K = [] -> alive (plug K t) <-> alive t /\ kalive K.
Proof.
  intros Hl. unfold alive. rewrite Forall_plug. split; (intros [H1 H2]; split; [done|]).
  - eapply kall_alive; [|exact H2]. left. eauto.
  - destruct Hl as [Hl| ->]; [|done]. by eapply kall_alive.
Qed.

Lemma alive_plug_inv K t : alive (plug K t) -> alive t /\ kalive K /\ (K = [] \/ live t).
Proof.
  unfold alive. rewrite Forall_plug. intros [H1 H2]. split_and!; [done| |].
  - eapply kall_alive; [|exact H2]. left. eauto.
  - destruct K as [|F K]; [by left|right]. destruct H2 as (H2 & _). unfold alive_node, fill in H2. cbn in H2.
    rewrite Forall_app, Forall_cons in H2. by destruct H2 as (_ & ? & _).
Qed.

Lemma new_node_ok m : exists p, raxNewNode junk A 0 false m = (p, <[p := mkNode false false false [] [] None 8]> m) /\ p ∉ dom m.
Proof. eexists. split; [done|]. apply new_block_unused. Qed.

Lemma leaf_matches p : matches (mkNode false false false [] [] None 8) (TNode p None false []).
Proof. by split_and!. Qed.

(** A leaf and a node above it that replace the node of the focus. *)
Lemma rep_new_child r K h k c es q n child c' left l right :
  rep r (plug K (TNode h k c es)) -> es = left ++ right ->
  q = h \/ q ∉ dom (<[child := mkNode false false false [] [] None 8]> (mem r)) -> child ∉ dom (mem r) ->
  matches n (TNode q k c' (left ++ (l, TNode child None false []) :: right)) ->
  wf_labels c' (map fst left ++ l :: map fst right) ->
  let m := <[q := n]> (delete h (<[child := mkNode false false false [] [] None 8]> (mem r))) in
  exists r1, write_link (link_of K) q (set_mem m r) = Some r1 /\
    rep (add_numnodes 1 r1) (plug (mkF q k c' left l right :: K) (TNode child None false [])).
Proof.
  intros R -> Hq Hch Hm Hl m. pose proof (rep_focus _ _ _ _ _ _ R) as (n0 & Hn0 & _ & Hs & Hnd & Hd & Hw & HKw & HK).
  apply NoDup_cons in Hnd as [Hh Hnd]. rewrite dom_insert_L in Hq.
  assert (Hchh : child <> h) by (intros ->; apply Hch; rewrite Hd; set_solver).
  assert (Hqn : q ∉ child :: map t_ptr (esubs (left ++ right)) ++ kptrs K) by (rewrite Hd in *; set_solver).
  assert (Hag : forall p, p ∈ map t_ptr (esubs (left ++ right)) ++ kptrs K -> m !! p = mem r !! p).
  { intros p Hp. unfold m. rewrite lookup_insert_ne, lookup_delete_ne, lookup_insert_ne; [done|..]; intros ->.
    - apply Hch. rewrite Hd. clear -Hp. set_solver.
    - done.
    - apply Hqn. elts. auto. }
  unfold set_mem at 1. rewrite (ctx_write_link r K (TNode h k c (left ++ right))); [|by apply rep_ctx|intros p Hp; apply Hag; elts; auto].
  eexists. split; [done|]. rewrite add_numnodes_upd.
  pose (t' := TNode q k c' (left ++ (l, TNode child None false []) :: right)).
  change (plug (_ :: K) _) with (plug K t').
  assert (Hpt : ptrs t' ≡ₚ q :: child :: map t_ptr (esubs (left ++ right))).
  { unfold t'. rewrite ptrs_eq, !esubs_app, esubs_cons, !map_app. cbn. solve_Permutation. }
  unfold add_numnodes. cbn [mem head numele numnodes].
  apply (ctx_relink r K (TNode h k c (left ++ right)) t'); try done; [by apply rep_ctx|..].
  - unfold t'. rewrite subs_eq. constructor; [exists n; cbn; unfold m; by rewrite lookup_insert_eq|].
    rewrite esubs_app, esubs_cons. rewrite esubs_app, Forall_app in Hs. rewrite !Forall_app. cbn [snd subs map concat].
    destruct Hs as [Hs1 Hs2]. split_and!.
    + eapply nodes_agree; [|exact Hs1]. intros p Hp. apply Hag. rewrite esubs_app, map_app. elts. auto.
    + repeat constructor. eexists. split; [|apply leaf_matches]. cbn. unfold m.
      rewrite lookup_insert_ne, lookup_delete_ne by (done || (intros ->; apply Hqn; elts; auto)). by rewrite lookup_insert_eq.
    + eapply nodes_agree; [|exact Hs2]. intros p Hp. apply Hag. rewrite esubs_app, map_app. elts. auto.
  - rewrite Hpt. cbn. constructor; [done|]. constructor; [|done]. intros Hc. apply Hch. rewrite Hd. clear -Hc. set_solver.
  - unfold t'. apply wf_eq in Hw as [_ Hw]. apply wf_eq. rewrite map_app. split; [done|].
    rewrite Forall_app in *. destruct Hw as [Hw1 Hw2]. split; [done|]. constructor; [|done].
    apply wf_eq. split; [|done]. split; [done|]. exists []. split; [done|constructor].
  - intros p Hp. apply Hag. elts. auto.
  - rewrite list_to_set_app_L, (list_to_set_perm_L _ _ Hpt). unfold m. rewrite dom_insert_L, dom_delete_L, dom_insert_L, Hd.
    cbn [list_to_set]. rewrite !list_to_set_app_L. clear -Hchh Hh Hqn Hq. set_solver.
  - rewrite (rep_numnodes _ _ R), u64_add. f_equal. unfold zlen. rewrite (ptrs_plug K (TNode h k c (left ++ right))), !length_app, Hpt, ptrs_eq. cbn. lia.
  - rewrite (rep_numele _ _ R). f_equal. rewrite !zlen_entries_plug. unfold t'. rewrite !entries_eq, !eentries_app, eentries_cons.
    cbn. done.
Qed.

Definition nullb (d : value) : bool := match d with Some _ => false | None => true end.

Lemma isnull_ok n d : key_ok n (Some d) -> isnull n = nullb d.
Proof. intros [_ H]. destruct d; [by destruct H|done]. Qed.

(** Setting the value of a node that is being built. *)
Lemma set_data_fresh (x : raxNode V) d : node_length true (nullb d) (iscompr x) (size x) <= alloc x ->
  exists x', raxSetData x d = Some x' /\ key_ok x' (Some d) /\ iscompr x' = iscompr x /\ data x' = data x /\
    children x' = children x /\ alloc x' = alloc x /\ fits x' = true.
Proof.
  intros H. destruct d as [v|]; cbn [raxSetData].
  - assert (Hf : fits (mkNode true false (iscompr x) (data x) (children x) (Some v) (alloc x)) = true) by (apply Z.leb_le; exact H).
    rewrite Hf. eexists. by split_and!.
  - eexists. split_and!; try done. by apply Z.leb_le.
Qed.

Lemma set_last_child_one (x : raxNode V) q c0 : children x = [c0] -> set_last_child q x = Some (set_children [Some q] x).
Proof. intros H. unfold set_last_child. by rewrite H. Qed.

Lemma matches_built (x : raxNode V) k c l p q u : key_ok x k -> iscompr x = c -> data x = l -> fits x = true ->
  p = t_ptr u -> matches (set_children [Some p] x) (TNode q k c [(l, u)]).
Proof. intros Hk Hc Hd Hf ->. split_and!; try done. cbn. by rewrite app_nil_r. Qed.

Lemma compress_ok r K h k l : rep r (plug K (TNode h k false [])) ->
  (2 <= length l)%nat -> zlen l <= max_size -> Forall is_byte l ->
  exists q child m r1, raxCompressNode junk A h l (mem r) = Some (q, child, m) /\
    write_link (link_of K) q (set_mem m r) = Some r1 /\
    rep (add_numnodes 1 r1) (plug (mkF q k true [] l [] :: K) (TNode child None false [])).
Proof.
  intros R Hl Hmax Hb. pose proof (rep_focus _ _ _ _ _ _ R) as (n & Hn & Hm & _ & Hnd & Hd & _).
  unfold raxCompressNode. rewrite Hn. bnd. pose proof Hm as (Hk & Hc & Hdt & Hch & _).
  unfold size. rewrite Hdt, Hc. cbn [map concat zlen length Z.of_nat Z.eqb negb andb].
  destruct (new_node_ok (mem r)) as (child & -> & Hcf).
  set (m0 := <[child := _]> (mem r)).
  assert (Hm0 : m0 !! h = Some n).
  { unfold m0. rewrite lookup_insert_ne; [done|]. intros ->. apply Hcf. apply elem_of_dom. eauto. }
  destruct (realloc_ok h (node_length (iskey n) (isnull n) true (zlen l)) m0 n Hm0) as (q & Hr & Hq).
  assert (Hgo : forall x, key_ok x k -> iscompr x = true -> data x = l -> children x = [None] -> fits x = true ->
    exists q0 child0 m r1, (x ← set_last_child child x; m ← put q x (<[q := set_alloc (node_length (iskey n) (isnull n) true (zlen l)) n]> (delete h m0));
       Some (q, child, m)) = Some (q0, child0, m) /\ write_link (link_of K) q0 (set_mem m r) = Some r1 /\
      rep (add_numnodes 1 r1) (plug (mkF q0 k true [] l [] :: K) (TNode child0 None false []))).
  { intros x Hkx Hcx Hdx Hchx Hfx. rewrite (set_last_child_one x child None Hchx). bnd.
    rewrite (put_ok _ _ _ _ (lookup_insert_eq _ _ _)) by done. bnd. rewrite insert_insert_eq.
    destruct (rep_new_child r K h k false [] q (set_children [Some child] x) child true [] l []) as (r1 & H1 & H2); try done.
    - by apply matches_built.
    - split; [by repeat constructor|]. by exists l.
    - eexists q, child, _, r1. by split_and!. }
  rewrite (iskey_ok _ _ Hk) in *. destruct k as [d|].
  - rewrite (get_data_ok _ _ d Hk) by done. bnd. rewrite Hr. bnd. rewrite lookup_insert_eq. bnd.
    cbn [iskey isnull set_alloc alloc]. rewrite (iskey_ok _ _ Hk).
    edestruct (set_data_fresh (mkNode true (isnull n) true l [None] None (node_length true (isnull n) true (zlen l))) d)
      as (x & -> & Hkx & Hcx & Hdx & Hchx & _ & Hfx); [cbn; by rewrite (isnull_ok _ _ Hk)|]. bnd. by apply Hgo.
  - bnd. rewrite Hr. bnd. rewrite lookup_insert_eq. bnd. cbn [iskey isnull set_alloc alloc].
    rewrite (iskey_ok _ _ Hk). bnd. apply Hgo; try done. apply Z.leb_refl.
Qed.

Lemma add_pos_spec cs c : StronglySorted Z.lt cs -> c ∉ cs ->
  StronglySorted Z.lt (take (add_pos cs c) cs ++ c :: drop (add_pos cs c) cs) /\ (add_pos cs c <= length cs)%nat.
Proof.
  induction 1 as [|x cs Hs IH Hx]; intros Hc; cbn; [by split; [repeat constructor|]|].
  apply not_elem_of_cons in Hc as [Hc1 Hc2]. case_if E; cbn.
  - split; [|lia]. constructor; [by constructor|]. constructor; [done|]. eapply Forall_impl; [exact Hx|]. intros. lia.
  - destruct (IH Hc2) as [IH1 IH2]. split; [|lia]. constructor; [done|].
    rewrite Forall_app, Forall_cons. split_and!; [by apply Forall_take|lia|by apply Forall_drop].
Qed.

Lemma add_child_ok r K h k es c : rep r (plug K (TNode h k false es)) -> c ∉ concat (map fst es) -> is_byte c ->
  exists q child left right m r1, es = left ++ right /\
    raxAddChild junk A h c (mem r) = Some (q, child, LChild q (length left), m) /\
    write_link (link_of K) q (set_mem m r) = Some r1 /\
    rep (add_numnodes 1 r1) (plug (mkF q k false left [c] right :: K) (TNode child None false [])).
Proof.
  intros R Hc Hb. pose proof (rep_focus _ _ _ _ _ _ R) as (n & Hn & Hm & _ & Hnd & Hd & [[Hlb (cs & Hes & Hso)] _]%wf_eq & _).
  pose proof Hm as (Hk & Hic & Hdt & Hch & _). rewrite Hes, concat_singles in Hc, Hdt.
  unfold raxAddChild. rewrite Hn. bnd. rewrite Hic.
  destruct (new_node_ok (mem r)) as (child & -> & Hcf).
  set (m0 := <[child := _]> (mem r)).
  assert (Hm0 : m0 !! h = Some n).
  { unfold m0. rewrite lookup_insert_ne; [done|]. intros ->. apply Hcf. apply elem_of_dom. eauto. }
  destruct (realloc_ok h (node_length (iskey n) (isnull n) false (size n + 1)) m0 n Hm0) as (q & -> & Hq).
  bnd. rewrite lookup_insert_eq. bnd. cbn [set_alloc iskey isnull iscompr data children val alloc].
  destruct (add_pos_spec cs c Hso Hc) as [Hso' Hpos]. rewrite Hdt. set (pos := add_pos cs c) in *.
  assert (Hlen : length es = length cs) by (apply (f_equal length) in Hes; by rewrite !length_map in Hes).
  set (x := mkNode _ _ _ _ _ _ _).
  assert (Hfst : map fst (take pos es ++ ([c], TNode child None false []) :: drop pos es) =
    map (fun x => [x]) (take pos cs ++ c :: drop pos cs)).
  { rewrite !map_app. cbn. by rewrite <- !firstn_map, <- !skipn_map, Hes. }
  assert (Hx : matches x (TNode q k false (take pos es ++ ([c], TNode child None false []) :: drop pos es))).
  { split_and!.
    - destruct Hk as [Hk1 Hk2]. split; [done|]. destruct k as [[v|]|]; try done. destruct Hk2 as [Hk2 Hk3]. cbn. rewrite Hk1, Hk2, bool_decide_true by eauto. done.
    - done.
    - rewrite Hfst, concat_singles. done.
    - cbn. rewrite Hch. unfold edge_ptrs. by rewrite map_app, !firstn_map, !skipn_map.
    - apply Z.leb_le. unfold raxNodeCurrentLength, size, zlen. cbn. rewrite length_app. cbn. rewrite length_take, length_drop, ?Hdt, ?Hic.
      assert (size n = Z.of_nat (length cs)) as -> by (unfold size, zlen; by rewrite Hdt).
      match goal with |- node_length _ _ _ ?a <= node_length _ _ _ ?b => replace a with b by lia end. done. }
  rewrite (put_ok _ _ _ _ (lookup_insert_eq _ _ _)) by (by destruct Hx as (_ & _ & _ & _ & ?)). bnd. rewrite insert_insert_eq.
  destruct (rep_new_child r K h k false es q x child false (take pos es) [c] (drop pos es)) as (r1 & H1 & H2); try done.
  - by rewrite take_drop.
  - rewrite <- (map_cons fst ([c], TNode child None false [])), <- map_app, Hfst. split.
    + rewrite Hes in Hlb. rewrite Forall_map. rewrite Forall_map in Hlb. rewrite Forall_app, Forall_cons. split_and!.
      * by apply Forall_take.
      * constructor; [done|constructor].
      * by apply Forall_drop.
    + eauto.
  - eexists q, child, (take pos es), (drop pos es), _, r1. split_and!; try done; [by rewrite take_drop|].
    rewrite length_take. by replace (Nat.min pos (length es)) with pos by lia.
Qed.

(** *** The insertion of the characters left *)

Lemma entries_new_leaf q k c c' left l right child K h : 
  entries (plug (mkF q k c left l right :: K) (TNode child None false [])) = entries (plug K (TNode h k c' (left ++ right))).
Proof.
  cbn [plug]. unfold fill. cbn [f_ptr f_key f_compr f_left f_lab f_right].
  rewrite !entries_plug, !entries_eq, !eentries_app, eentries_cons. done.
Qed.

Lemma kalive_cons q k c h c' left l right K : alive (TNode h k c' (left ++ right)) -> kalive K ->
  kalive (mkF q k c left l right :: K).
Proof.
  intros [Hl Ha]%alive_eq HK. unfold kalive. cbn [kall]. rewrite Forall_app in Hl. destruct Hl as [Hl1 Hl2]. split_and!.
  - unfold alive_node, fill. cbn. rewrite Forall_app, Forall_cons. split_and!; try done. left. eauto.
  - cbn [f_left f_right]. by rewrite Forall_esubs.
  - eapply kall_alive; [|exact HK]. right. cbn. by destruct left.
Qed.

Lemma insert_loop_ok s : forall fuel rest r K h k es,
  rep r (plug K (TNode h k false es)) -> s = path K ++ rest ->
  match rest with [] => k = None | c :: _ => c ∉ concat (map fst es) end -> Forall is_byte rest -> (length rest <= fuel)%nat ->
  2 <= max_size -> kalive K -> alive (TNode h k false es) ->
  exists r' K' h' es', insert_loop junk A max_size fuel r s (length (path K)) h (link_of K) = Some (r', h', link_of K') /\
    rep r' (plug K' (TNode h' None false es')) /\ path K' = s /\
    entries (plug K' (TNode h' None false es')) = entries (plug K (TNode h k false es)) /\
    kalive K' /\ alive (TNode h' None false es').
Proof.
  induction fuel as [|fuel IH]; intros rest r K h k es R Hs Hrest Hb Hf Hmax HK Ha.
  - destruct rest; [|cbn in Hf; lia]. rewrite app_nil_r in Hs. subst. cbn [insert_loop]. rewrite Nat.ltb_irrefl.
    by exists r, K, h, es.
  - cbn [insert_loop]. destruct rest as [|c rest].
    { rewrite app_nil_r in Hs. subst. rewrite Nat.ltb_irrefl. by exists r, K, h, es. }
    assert (Hlen : (length s = length (path K) + S (length rest))%nat) by (by rewrite Hs, length_app).
    replace (_ <? _)%nat with true by (symmetry; apply Nat.ltb_lt; lia).
    pose proof (rep_focus _ _ _ _ _ _ R) as (n & Hn & Hm & _ & _ & _ & [[_ (cs & Hes & _)] _]%wf_eq & _). rewrite Hn. bnd.
    destruct Hm as (_ & _ & Hd & _). unfold size. rewrite Hd.
    replace (length s - length (path K))%nat with (S (length rest)) by lia.
    assert (Hnext : forall F child r1 rest', rep (add_numnodes 1 r1) (plug (F :: K) (TNode child None false [])) ->
      F = mkF (f_ptr F) k (f_compr F) (f_left F) (f_lab F) (f_right F) -> es = f_left F ++ f_right F -> c :: rest = f_lab F ++ rest' ->
      (length rest' <= fuel)%nat ->
      exists r' K' h' es', insert_loop junk A max_size fuel (add_numnodes 1 r1) s (length (path (F :: K))) child (link_of (F :: K)) = Some (r', h', link_of K') /\
        rep r' (plug K' (TNode h' None false es')) /\ path K' = s /\
        entries (plug K' (TNode h' None false es')) = entries (plug K (TNode h k false es)) /\
        kalive K' /\ alive (TNode h' None false es')).
    { intros F child r1 rest' R1 HF He Hr Hf'. destruct (IH rest' _ _ _ _ _ R1) as (r' & K' & h' & es' & H1 & H2 & H3 & H4 & H5); try done.
      - cbn. by rewrite Hs, Hr, <- app_assoc.
      - destruct rest'; [done|]. apply not_elem_of_nil.
      - rewrite Hr, Forall_app in Hb. apply Hb.
      - rewrite HF. apply (kalive_cons _ _ _ h false); [by rewrite <- He|done].
      - apply alive_eq. by split.
      - exists r', K', h', es'. split_and!; try done; try apply H5. rewrite H4, HF, He. apply entries_new_leaf. }
    destruct (_ && _)%bool eqn:E.
    + apply andb_prop in E as [E1 E2%Nat.ltb_lt]. apply Z.eqb_eq in E1.
      assert (es = []) as -> by (rewrite Hes, concat_singles in E1; destruct es; [done|]; destruct cs; [done|unfold zlen in E1; cbn in E1; lia]).
      set (cz := if max_size <? Z.of_nat (S (length rest)) then Z.to_nat max_size else S (length rest)).
      assert (Hcz : (2 <= cz <= S (length rest))%nat /\ Z.of_nat cz <= max_size) by (unfold cz; destruct (max_size <? Z.of_nat (S (length rest))) eqn:Em; bool_hyps; lia).
      cbn zeta. fold cz.
      replace (drop (length (path K)) s) with (c :: rest) by (by rewrite Hs, drop_app_length).
      destruct (compress_ok r K h k (take cz (c :: rest)) R) as (q & child & m & r1 & Hc1 & Hw & R1).
      * rewrite length_take. cbn [length]. lia.
      * unfold zlen. rewrite length_take. cbn [length]. lia.
      * by apply Forall_take.
      * rewrite Hc1. bnd. rewrite Hw. bnd.
        destruct (Hnext _ _ _ (drop cz (c :: rest)) R1) as (r' & K' & h' & es' & H1 & H2); try done.
        -- cbn [f_lab]. by rewrite take_drop.
        -- rewrite length_drop. cbn [length] in *. lia.
        -- exists r', K', h', es'. split; [|done]. rewrite <- H1. cbn [path f_lab link_of f_ptr f_left]. f_equal.
           rewrite length_app, length_take. cbn [length]. lia.
    + replace (s !! length (path K)) with (Some c) by (by rewrite Hs, lookup_app_r, Nat.sub_diag by lia). bnd.
      destruct (add_child_ok r K h k es c R Hrest) as (q & child & left & right & m & r1 & He & Hac & Hw & R1); [by inv Hb|].
      rewrite Hac. bnd. rewrite Hw. bnd.
      destruct (Hnext _ _ _ rest R1) as (r' & K' & h' & es' & H1 & H2); try done; [cbn in Hf; lia|].
      exists r', K', h', es'. split; [|done]. rewrite <- H1. cbn [path f_lab link_of f_ptr f_left]. f_equal.
      rewrite length_app. done.
Qed.

(** *** Splitting a compressed node *)

(** A subtree made of new nodes and of the children of the node of the focus,
    which is freed. *)
Lemma rep_rebuild r K h k c es t' news m nn ne : rep r (plug K (TNode h k c es)) ->
  ptrs t' ≡ₚ news ++ map t_ptr (esubs es) -> NoDup news -> (forall p, p ∈ news -> p ∉ dom (mem r)) ->
  (forall p, p ∈ map t_ptr (esubs es) ++ kptrs K -> m !! p = mem r !! p) ->
  dom m = list_to_set news ∪ (dom (mem r) ∖ {[h]}) ->
  Forall (node_ok m) (subs t') -> wf t' -> nn = u64 (numnodes r + zlen news - 1) ->
  ne = u64 (zlen (entries (plug K t'))) ->
  rep (upd_link (link_of K) (t_ptr t') (mkRax m (head r) ne nn)) (plug K t').
Proof.
  intros R Hp Hnd Hfr Hag Hdm Hn Hw Hnn Hne.
  pose proof (rep_focus _ _ _ _ _ _ R) as (n0 & _ & _ & _ & Hnd0 & Hd & _).
  apply NoDup_cons in Hnd0 as [Hh Hnd0]. rewrite Hd in Hfr, Hdm.
  apply (ctx_relink r K (TNode h k c es) t'); try done; [by apply rep_ctx|..].
  - rewrite Hp, <- app_assoc. apply NoDup_app. split_and!; try done. intros p Hpn Hpo. apply (Hfr p Hpn).
    apply elem_of_list_to_set. elts. auto.
  - intros p Hp'. apply Hag. elts. auto.
  - rewrite Hdm, list_to_set_app_L, (list_to_set_perm_L _ _ Hp). clear -Hh. set_solver.
  - rewrite Hnn, (rep_numnodes _ _ R). unfold zlen. rewrite (ptrs_plug K (TNode h k c es)), Hp, ptrs_eq.
    replace (u64 (Z.of_nat (length ((h :: map t_ptr (esubs es)) ++ kptrs K))) + Z.of_nat (length news) - 1) with
      (u64 (Z.of_nat (length ((h :: map t_ptr (esubs es)) ++ kptrs K))) + (Z.of_nat (length news) - 1)) by lia.
    rewrite u64_add. f_equal. rewrite !length_app. cbn [length]. lia.
Qed.

Lemma malloc_ok (n : raxNode V) m : exists p, rax_malloc A n m = (p, <[p := n]> m) /\ p ∉ dom m.
Proof. eexists. split; [done|]. apply new_block_unused. Qed.

(** The rest of a compressed node after the split character. *)
Definition rest_tree (pf : ptr) (b : bytes) (u : tree) : tree :=
  match b with [] => u | _ => TNode pf None (1 <? length b)%nat [(b, u)] end.

Lemma wf_label_one b : Forall is_byte b -> b <> [] -> zlen b <= max_size -> wf_labels (1 <? length b)%nat [b].
Proof.
  intros Hb Hn Hm. split; [by repeat constructor|]. destruct (_ <? _)%nat eqn:E.
  - apply Nat.ltb_lt in E. exists b. split_and!; [done|lia|done].
  - apply Nat.ltb_ge in E. destruct b as [|x [|]]; cbn in E; try lia; [done|]. exists [x]. by repeat constructor.
Qed.

Lemma node_length_one (key null : bool) (b : bytes) :
  b <> [] -> node_length key null (1 <? length b)%nat (zlen b) = node_length key null true (zlen b).
Proof.
  intros Hb. unfold node_length. destruct (_ <? _)%nat eqn:E; [done|]. apply Nat.ltb_ge in E.
  destruct b as [|x [|]]; cbn in E; try lia; done.
Qed.

Lemma last_child_one (n : raxNode V) h k c l u : matches n (TNode h k c [(l, u)]) -> last_child n = Some (t_ptr u).
Proof. intros (_ & _ & _ & Hch & _). unfold last_child. by rewrite Hch. Qed.

Lemma entries_rest pf b u : entries (rest_tree pf b u) = map (prep b) (entries u).
Proof.
  unfold rest_tree. destruct b as [|x b]; [by rewrite map_prep_nil|].
  rewrite entries_eq, eentries_cons. cbn [own fst snd]. unfold eentries. cbn. by rewrite app_nil_r.
Qed.

Lemma entries_one p k c l u : entries (TNode p k c [(l, u)]) = own k ++ map (prep l) (entries u).
Proof. rewrite entries_eq, eentries_cons. unfold eentries. cbn. by rewrite app_nil_r. Qed.

Lemma ptrs_one p k c l u : ptrs (TNode p k c [(l, u)]) = p :: ptrs u.
Proof. rewrite ptrs_eq, esubs_cons. unfold esubs. cbn [map concat]. by rewrite app_nil_r. Qed.

Lemma esubs_one l u : esubs [(l, u)] = subs u.
Proof. unfold esubs. cbn. by rewrite app_nil_r. Qed.

Lemma subs_one p k c l u : subs (TNode p k c [(l, u)]) = TNode p k c [(l, u)] :: subs u.
Proof. by rewrite subs_eq, esubs_one. Qed.

Ltac slook := repeat first [rewrite lookup_insert_eq | rewrite lookup_insert_ne by congruence | rewrite lookup_delete_ne by congruence].

(** Copying the key of a node to a node that is being built. *)
Definition built (x : raxNode V) (k : option value) (c : bool) (l : bytes) : Prop :=
  key_ok x k /\ iscompr x = c /\ data x = l /\ children x = [None] /\ fits x = true.

Lemma restore_key n k c l a : key_ok n k -> node_length (iskey n) (isnull n) c (zlen l) <= a ->
  exists x, (if iskey n then d ← raxGetData n; raxSetData (mkNode false false c l [None] None a) d
             else Some (mkNode false false c l [None] None a)) = Some x /\ built x k c l.
Proof.
  intros Hk Ha. rewrite (iskey_ok _ _ Hk) in *. destruct k as [d|].
  - rewrite (get_data_ok _ _ d Hk) by done. bnd. rewrite (isnull_ok _ _ Hk) in Ha.
    destruct (set_data_fresh (mkNode false false c l [None] None a) d Ha) as (x & -> & H1 & H2 & H3 & H4 & _ & H5).
    exists x. by split_and!.
  - eexists. split; [done|]. split_and!; try done. apply Z.leb_le. exact Ha.
Qed.

Lemma restore_key_flags n k c l a : key_ok n k -> node_length (iskey n) (isnull n) c (zlen l) <= a ->
  exists x, (if iskey n && negb (isnull n) then d ← raxGetData n; raxSetData (mkNode (iskey n) (isnull n) c l [None] None a) d
             else Some (mkNode (iskey n) (isnull n) c l [None] None a)) = Some x /\ built x k c l.
Proof.
  intros Hk Ha. destruct (iskey n && negb (isnull n)) eqn:E.
  - apply andb_prop in E as [E1 E2]. rewrite (iskey_ok _ _ Hk) in *. destruct k as [d|]; [|done].
    rewrite (get_data_ok _ _ d Hk) by done. bnd. rewrite (isnull_ok _ _ Hk) in *.
    destruct (set_data_fresh (mkNode true (nullb d) c l [None] None a) d Ha) as (x & -> & H1 & H2 & H3 & H4 & _ & H5).
    exists x. by split_and!.
  - eexists. split; [done|]. split_and!; try done; [|apply Z.leb_le; exact Ha].
    destruct Hk as [Hk1 Hk2]. split; [done|]. destruct k as [[v|]|]; try done. destruct Hk2 as [Hk2 _].
    rewrite Hk1, Hk2, bool_decide_true in E by eauto. done.
Qed.

Lemma built_matches x k c l p u : built x k c l -> matches (set_children [Some (t_ptr u)] x) (TNode p k c [(l, u)]).
Proof. intros (H1 & H2 & H3 & H4 & H5). by apply matches_built. Qed.

Lemma built_link x k c l q : built x k c l -> set_last_child q x = Some (set_children [Some q] x).
Proof. intros (_ & _ & _ & H & _). by eapply set_last_child_one. Qed.

Lemma built_put x k c l p q (y : raxNode V) m : built x k c l -> m !! p = Some y ->
  put p (set_children [Some q] x) m = Some (<[p := set_children [Some q] x]> m).
Proof. intros (_ & _ & _ & _ & H) Hp. eapply put_ok; [done|]. exact H. Qed.

(** The split node in the context, with what is left of the node below it. *)
Definition split_ctx (K : list frame) (k : option value) (a : bytes) (tr : ptr) : list frame :=
  match a with [] => K | _ => mkF tr k (1 <? length a)%nat [] a [] :: K end.
Definition split_tree (k : option value) (a : bytes) (x : Z) (b : bytes) (u : tree) (sp pf : ptr) : tree :=
  TNode sp (match a with [] => k | _ => None end) false [([x], rest_tree pf b u)].

Lemma split_entries K k a x b u h tr sp pf :
  entries (plug (split_ctx K k a tr) (split_tree k a x b u sp pf)) = entries (plug K (TNode h k true [(a ++ x :: b, u)])).
Proof.
  unfold split_ctx, split_tree. destruct a as [|y a].
  - by rewrite !entries_plug, !entries_one, entries_rest, map_prep_prep.
  - cbn [plug]. unfold fill. cbn [f_ptr f_key f_compr f_left f_lab f_right app].
    rewrite !entries_plug, !entries_one, entries_rest. cbn [own app]. by rewrite !map_prep_prep, <- ?app_assoc.
Qed.

Lemma split_wf h k a x b u sp pf tr : wf (TNode h k true [(a ++ x :: b, u)]) ->
  wf (plug (split_ctx [] k a tr) (split_tree k a x b u sp pf)).
Proof.
  intros [[Hb (l & [= <-] & Hl & Hm)] Hu]%wf_eq. apply Forall_cons in Hb as [Hb _]. apply Forall_cons in Hu as [Hu _]. cbn in Hu.
  cbn [fst] in Hb. rewrite Forall_app, Forall_cons in Hb. destruct Hb as (Hb1 & Hb2 & Hb3).
  rewrite zlen_app, zlen_cons in Hm. pose proof (zlen_nonneg a). pose proof (zlen_nonneg b).
  assert (Hs : wf (split_tree k a x b u sp pf)).
  { unfold split_tree. apply wf_eq. split.
    - split; [constructor; [constructor; [done|constructor]|constructor]|]. exists [x]. split; [done|]. repeat constructor.
    - constructor; [|done]. cbn. unfold rest_tree. destruct b as [|y b]; [done|]. apply wf_eq. split; [|by constructor].
      apply wf_label_one; [done|done|lia]. }
  unfold split_ctx. destruct a as [|y a]; [done|]. cbn [plug]. unfold fill. cbn [f_ptr f_key f_compr f_left f_lab f_right app]. apply wf_eq. split; [|by constructor].
  apply wf_label_one; [done|done|lia].
Qed.

Lemma new_node_one (m : gmap ptr (raxNode V)) b : exists p,
  raxNewNode junk A 1 b m = (p, <[p := mkNode false false false [junk] [None] None (node_length b false true 1)]> m) /\ p ∉ dom m.
Proof. destruct b; (eexists; split; [unfold raxNewNode, rax_malloc; cbn [replicate]; reflexivity|apply new_block_unused]). Qed.

Lemma split_ctx_plug K k a tr t : plug (split_ctx K k a tr) t = plug K (plug (split_ctx [] k a tr) t).
Proof. by destruct a. Qed.

Lemma rebuild_split r K h k a x b u sp pf tr m :
  let t' := plug (split_ctx [] k a tr) (split_tree k a x b u sp pf) in
  let news := sp :: (match a with [] => [] | _ => [tr] end) ++ (match b with [] => [] | _ => [pf] end) in
  rep r (plug K (TNode h k true [(a ++ x :: b, u)])) -> NoDup news -> (forall p, p ∈ news -> p ∉ dom (mem r)) ->
  (forall p, p ∈ ptrs u ++ kptrs K -> m !! p = mem r !! p) ->
  dom m = list_to_set news ∪ (dom (mem r) ∖ {[h]}) ->
  node_ok m (split_tree k a x b u sp pf) ->
  (a <> [] -> node_ok m t') -> (b <> [] -> node_ok m (rest_tree pf b u)) ->
  rep (upd_link (link_of K) (t_ptr t') (mkRax m (head r) (numele r) (u64 (numnodes r + zlen news - 1)))) (plug K t').
Proof.
  intros t' news R Hnd Hfr Hag Hdm H1 H2 H3. pose proof (rep_focus _ _ _ _ _ _ R) as (n0 & _ & _ & Hs & _ & _ & Hw & _).
  rewrite esubs_one in Hs.
  assert (Hu : Forall (node_ok m) (subs u)) by (eapply nodes_agree; [|exact Hs]; intros p Hp; apply Hag; elts; auto).
  assert (Hrt : Forall (node_ok m) (subs (rest_tree pf b u))).
  { destruct b as [|y b]; [done|]. unfold rest_tree in *. rewrite subs_one. constructor; [by apply H3|done]. }
  assert (Hst : Forall (node_ok m) (subs (split_tree k a x b u sp pf))).
  { unfold split_tree in *. rewrite subs_one. by constructor. }
  apply (rep_rebuild r K h k true [(a ++ x :: b, u)] t' news); try done.
  - unfold t', news, split_ctx, split_tree, rest_tree. rewrite esubs_one. destruct a, b; cbn [plug]; unfold fill;
      cbn [f_ptr f_key f_compr f_left f_lab f_right app]; rewrite !ptrs_one; try done. apply perm_swap.
    etrans; [apply perm_swap|]. done.
  - rewrite esubs_one. exact Hag.
  - unfold t'. destruct a as [|y a]; [done|]. cbn [split_ctx plug]. unfold fill. cbn [f_ptr f_key f_compr f_left f_lab f_right app].
    rewrite subs_one. constructor; [by apply H2|done].
  - by eapply split_wf.
  - rewrite (rep_numele _ _ R). unfold t'. rewrite <- split_ctx_plug. by rewrite (split_entries K k a x b u h tr sp pf).
Qed.

(** The end of the split: the postfix node, the child of the split node, and
    the release of the old node. *)
Definition rest_node (b : bytes) (u : tree) : raxNode V :=
  mkNode false false (1 <? length b)%nat b [Some (t_ptr u)] None (node_length false false true (zlen b)).
Definition rest_mem (pf : ptr) (b : bytes) (u : tree) (m : gmap ptr (raxNode V)) : gmap ptr (raxNode V) :=
  match b with [] => m | _ => <[pf := rest_node b u]> m end.

Lemma rest_node_ok pf b u : b <> [] -> matches (rest_node b u) (rest_tree pf b u).
Proof.
  intros Hb. destruct b as [|y b]; [done|]. split_and!; try done; [cbn; by rewrite app_nil_r|].
  apply Z.leb_le. unfold raxNodeCurrentLength, size, rest_node. cbn [iskey isnull iscompr data alloc].
  by rewrite node_length_one.
Qed.

Lemma split_finish K top m hd ne nn b u pf sp h sn k0 x (lnk : link) (ysp yh : raxNode V) :
  built sn k0 false [x] -> sp ∉ kptrs K -> h ∉ kptrs K -> sp <> h -> m !! sp = Some ysp -> m !! h = Some yh ->
  (b = [] -> pf = t_ptr u) ->
  (b <> [] -> pf ∉ kptrs K /\ pf <> sp /\ pf <> h /\ m !! pf = Some (blank (node_length false false true (zlen b)))) ->
  (r ← (if (length b =? 0)%nat then Some (upd_link (link_of K) top (mkRax m hd ne nn))
        else
          pn ← mem (upd_link (link_of K) top (mkRax m hd ne nn)) !! pf;
          pn ← set_last_child (t_ptr u) (mkNode false false (1 <? length b)%nat b [None] None (alloc pn));
          m0 ← put pf pn (mem (upd_link (link_of K) top (mkRax m hd ne nn)));
          Some (add_numnodes 1 (set_mem m0 (upd_link (link_of K) top (mkRax m hd ne nn)))));
   sn ← set_last_child pf sn;
   m ← put sp sn (mem r);
   m ← rax_free h m;
   Some (set_mem m r, sp, lnk)) =
  Some (upd_link (link_of K) top (mkRax (delete h (<[sp := set_children [Some pf] sn]> (rest_mem pf b u m))) hd ne
          (match b with [] => nn | _ => u64 (nn + 1) end)), sp, lnk).
Proof.
  intros Hsn Hsp Hh Hne Hms Hmh Hb0 Hb1.
  assert (Hlast : forall m' nn', m' !! sp = Some ysp -> m' !! h = Some yh ->
    (sn ← set_last_child pf sn; m ← put sp sn (mem (upd_link (link_of K) top (mkRax m' hd ne nn')));
     m ← rax_free h m; Some (set_mem m (upd_link (link_of K) top (mkRax m' hd ne nn')), sp, lnk)) =
    Some (upd_link (link_of K) top (mkRax (delete h (<[sp := set_children [Some pf] sn]> m')) hd ne nn'), sp, lnk)).
  { intros m' nn' H1 H2. rewrite (built_link _ _ _ _ _ Hsn). bnd.
    rewrite (built_put _ _ _ _ _ _ ysp _ Hsn) by (by rewrite mem_upd_link, kmem_lookup). bnd.
    unfold rax_free. rewrite lookup_insert_ne, mem_upd_link, kmem_lookup by done. cbn [mem]. rewrite H2. bnd.
    rewrite kmem_insert, kmem_delete, set_mem_upd by done. done. }
  destruct b as [|y b].
  - cbn [length Nat.eqb]. bnd. by apply Hlast.
  - destruct (Hb1 ltac:(done)) as (H1 & H2 & H3 & H4). cbn [length Nat.eqb].
    rewrite mem_upd_link, kmem_lookup by done. cbn [mem]. rewrite H4. bnd.
    rewrite (set_last_child_one (mkNode _ _ _ _ _ _ _) _ None) by done. bnd.
    pose proof (rest_node_ok pf (y :: b) u ltac:(done)) as (_ & _ & _ & _ & Hf).
    rewrite (put_ok _ _ (blank (node_length false false true (zlen (y :: b))))) by (done || by rewrite kmem_lookup). bnd.
    rewrite kmem_insert, set_mem_upd, add_numnodes_upd by done. unfold add_numnodes, set_mem. cbn [mem head numele numnodes].
    apply Hlast; unfold rest_mem; by slook.
Qed.

Lemma insert_split_ok r K h k a x b u :
  rep r (plug K (TNode h k true [(a ++ x :: b, u)])) ->
  exists r' sp pf tr, insert_split junk A r h (link_of K) (length a) = Some (r', sp, link_of (split_ctx K k a tr)) /\
    rep r' (plug (split_ctx K k a tr) (split_tree k a x b u sp pf)).
Proof.
  intros R. pose proof (rep_focus _ _ _ _ _ _ R) as (n & Hn & Hm & _ & Hnd & Hd & _).
  rewrite esubs_one in Hnd, Hd. apply NoDup_cons in Hnd as [Hh Hnd].
  unfold insert_split. rewrite Hn. bnd. rewrite (last_child_one _ _ _ _ _ _ Hm). bnd.
  pose proof Hm as (Hk & _ & Hdt & _). cbn in Hdt. rewrite app_nil_r in Hdt. rewrite Hdt.
  rewrite lookup_app_r, Nat.sub_diag by lia. replace (drop (length a + 1) (a ++ x :: b)) with b
    by (rewrite drop_app_ge by lia; by replace (length a + 1 - length a)%nat with 1%nat by lia).
  replace (length (a ++ x :: b) - length a - 1)%nat with (length b) by (rewrite length_app; cbn; lia).
  rewrite take_app_length.
  destruct (new_node_one (mem r) ((length a =? 0)%nat && iskey n && negb (isnull n))) as (sp & -> & Hsp).
  set (m1 := <[sp := _]> (mem r)).
  (* the trimmed node *)
  assert (exists tr m2, (if (length a =? 0)%nat then (sp, m1)
      else rax_malloc A (blank (node_length (iskey n) (isnull n) true (Z.of_nat (length a)))) m1) = (tr, m2) /\
      m2 = (match a with [] => m1 | _ => <[tr := blank (node_length (iskey n) (isnull n) true (zlen a))]> m1 end) /\
      match a with [] => tr = sp | _ => tr ∉ dom m1 end) as (tr & m2 & -> & Hm2 & Htr).
  { destruct a as [|y a]; [by eexists _, _|]. cbn [length Nat.eqb]. destruct (malloc_ok (blank (node_length (iskey n) (isnull n) true (Z.of_nat (S (length a))))) m1) as (tr & -> & ?). by eexists _, _. }
  assert (exists pf m3, (if (length b =? 0)%nat then (t_ptr u, m2)
      else rax_malloc A (blank (node_length false false true (Z.of_nat (length b)))) m2) = (pf, m3) /\
      m3 = (match b with [] => m2 | _ => <[pf := blank (node_length false false true (zlen b))]> m2 end) /\
      match b with [] => pf = t_ptr u | _ => pf ∉ dom m2 end) as (pf & m3 & -> & Hm3 & Hpf).
  { destruct b as [|y b]; [by eexists _, _|]. cbn [length Nat.eqb]. destruct (malloc_ok (blank (node_length false false true (Z.of_nat (S (length b))))) m2) as (pf & -> & ?). by eexists _, _. }
  cbn [lookup list_lookup]. bnd.
  assert (Hdm : forall p, p = h \/ p ∈ ptrs u ++ kptrs K -> p ∈ dom (mem r)).
  { intros p Hp. rewrite Hd. apply elem_of_list_to_set. elts. unfold ptrs in Hp. tauto. }
  assert (Hspd : forall p, p ∈ dom (mem r) -> p <> sp) by (by intros p Hp ->).
  assert (Htrd : a <> [] -> tr <> sp /\ forall p, p ∈ dom (mem r) -> p <> tr).
  { intros Ha. destruct a; [done|]. unfold m1 in Htr. rewrite dom_insert_L in Htr. split; [set_solver|]. intros p Hp ->. set_solver. }
  assert (Hpfd : b <> [] -> pf <> sp /\ (a <> [] -> pf <> tr) /\ forall p, p ∈ dom (mem r) -> p <> pf).
  { intros Hb. destruct b; [done|]. subst m2. destruct a; unfold m1 in Hpf; rewrite ?dom_insert_L in Hpf; split_and!; try set_solver; intros p Hp ->; set_solver. }
  assert (Hm3a : forall p, p ∈ dom (mem r) -> m3 !! p = mem r !! p).
  { intros p Hp. pose proof (Hspd p Hp). subst m3 m2. unfold m1. destruct a, b;
      try (pose proof (proj2 (Htrd ltac:(done)) p Hp)); try (pose proof (proj2 (proj2 (Hpfd ltac:(done))) p Hp)); by slook. }
  assert (Hm3s : m3 !! sp = m1 !! sp).
  { subst m3 m2. destruct a, b; try (pose proof (Htrd ltac:(done)) as [? _]); try (pose proof (Hpfd ltac:(done)) as (? & _)); by slook. }
  rewrite Hm3s. unfold m1 at 1. rewrite lookup_insert_eq. bnd. unfold set_data. cbn [iskey isnull iscompr children val alloc].
  assert (Hwl : forall m' q, (forall p, p ∈ kptrs K -> m' !! p = m3 !! p) -> write_link (link_of K) q (set_mem m' r) = Some (upd_link (link_of K) q (set_mem m' r))).
  { intros m' q Hm'. apply (ctx_write_link r K (TNode h k true [(a ++ x :: b, u)])); [by apply rep_ctx|]. intros p Hp. rewrite Hm' by done. apply Hm3a, Hdm. elts. auto. }
  set (news := sp :: (match a with [] => [] | _ => [tr] end) ++ (match b with [] => [] | _ => [pf] end)).
  set (st := split_tree k a x b u sp pf). set (t' := plug (split_ctx [] k a tr) st).
  assert (Hpt : t_ptr (rest_tree pf b u) = pf) by (by destruct b).
  assert (Hnf : forall p, p ∈ news -> p ∉ dom (mem r)).
  { clear -Hspd Htrd Hpfd news. unfold news. intros p Hp Hin.
    destruct a, b; try (destruct (Htrd ltac:(done)) as [? ?]); try (destruct (Hpfd ltac:(done)) as (? & ? & ?));
      cbn [app] in Hp; rewrite ?elem_of_cons, ?elem_of_nil in Hp; naive_solver. }
  assert (Hnn : numnodes r = u64 (numnodes r)) by (rewrite (rep_numnodes _ _ R); symmetry; apply wrap_small, wrap_range; lia).
  assert (Hhd : h ∈ dom (mem r)) by (apply Hdm; auto).
  assert (Hkh : h ∉ kptrs K) by (intros ?; apply Hh; elts; auto).
  assert (Hkd : forall p, p ∉ dom (mem r) -> p ∉ kptrs K) by (intros p Hp Hk'; apply Hp, Hdm; elts; auto).
  assert (Hpfb : b <> [] -> pf ∉ kptrs K /\ pf <> sp /\ pf <> h /\ m3 !! pf = Some (blank (node_length false false true (zlen b)))).
  { intros Hb. destruct (Hpfd Hb) as (H1 & H2 & H3). split_and!; try done.
    - apply Hkd, Hnf. unfold news. destruct b; [done|]. clear. set_solver.
    - symmetry. by apply H3.
    - subst m3. destruct b; [done|]. by slook. }
  assert (Hfin : forall m' sn, (forall p, p ∈ dom (mem r) -> m' !! p = mem r !! p) -> dom m' = dom m3 ->
    matches (set_children [Some pf] sn) st -> (a <> [] -> exists tn, m' !! tr = Some tn /\ matches tn t') ->
    rep (upd_link (link_of K) (t_ptr t') (mkRax (delete h (<[sp := set_children [Some pf] sn]> (rest_mem pf b u m')))
      (head r) (numele r) (u64 (numnodes r + zlen news - 1)))) (plug K t')).
  { intros m' sn Hm'a Hm'd Hsn Htn. pose proof (Hspd h (Hdm h (or_introl eq_refl))) as Hsph.
    apply (rebuild_split r K h k a x b u sp pf tr); try done.
    - clear -Htrd Hpfd news. unfold news. destruct a, b; try (destruct (Htrd ltac:(done)) as [? _]); try (destruct (Hpfd ltac:(done)) as (? & ? & _));
        cbn [app]; rewrite ?NoDup_cons, ?elem_of_cons, ?elem_of_nil; split_and!; try apply NoDup_nil_2; naive_solver.
    - intros p Hp. pose proof (Hdm p (or_intror Hp)) as Hpd. pose proof (Hspd p Hpd). rewrite <- (Hm'a p Hpd).
      assert (p <> h) by (intros ->; done). slook. unfold rest_mem. destruct b; [done|].
      pose proof (proj2 (proj2 (Hpfd ltac:(done))) p Hpd). by slook.
    - rewrite dom_delete_L, dom_insert_L. transitivity (list_to_set news ∪ dom (mem r) ∖ {[h]} : gset ptr); [|done].
      assert (Hdn : dom (rest_mem pf b u m') = list_to_set news ∪ dom (mem r)).
      { unfold rest_mem. transitivity (dom m3); [destruct b; [done|]; rewrite dom_insert_L, Hm'd; subst m3; rewrite dom_insert_L; set_solver|].
        subst m3 m2. unfold m1, news. destruct a, b; rewrite ?dom_insert_L; cbn; set_solver. }
      rewrite Hdn. assert (Hhn : h ∉ news) by (intros Hhn; by apply (Hnf h)). clear -Hhn. unfold news in *. set_solver.
    - exists (set_children [Some pf] sn). split; [|done]. cbn. by slook.
    - intros Ha. destruct (Htn Ha) as (tn & H1 & H2). exists tn. split; [|done].
      replace (t_ptr _) with tr by (by destruct a). destruct (Htrd Ha) as [H3 H4].
      pose proof (H4 h (Hdm h (or_introl eq_refl))). slook. unfold rest_mem. destruct b; [done|].
      pose proof (proj1 (proj2 (Hpfd ltac:(done))) Ha). by slook.
    - intros Hb. exists (rest_node b u). split; [|by apply rest_node_ok]. rewrite Hpt. destruct (Hpfd Hb) as (H1 & H2 & H3).
      pose proof (H3 h (Hdm h (or_introl eq_refl))). unfold rest_mem. destruct b; [done|]. by slook. }
  assert (Hms : m3 !! sp = Some (mkNode false false false [junk] [None] None
    (node_length ((length a =? 0)%nat && iskey n && negb (isnull n)) false true 1))) by (rewrite Hm3s; unfold m1; by slook).
  assert (Hmh : m3 !! h = Some n) by (by rewrite Hm3a).
  pose proof (Hspd h Hhd) as Hsph.
  destruct a as [|y a].
  - cbn [length Nat.eqb andb].
    destruct (restore_key n k false [x] (node_length (iskey n && negb (isnull n)) false true 1) Hk) as (sn & -> & Hsn).
    { by destruct (iskey n), (isnull n). }
    bnd. rewrite Hwl by done. bnd. change (set_mem m3 r) with (mkRax m3 (head r) (numele r) (numnodes r)).
    rewrite (split_finish K sp m3 (head r) (numele r) (numnodes r) b u pf sp h sn k x _ _ n Hsn (Hkd _ Hsp) Hkh
      (not_eq_sym Hsph) Hms Hmh); [|by destruct b|done].
    eexists _, sp, pf, sp. split; [done|].
    replace (match b with [] => _ | _ => _ end) with (u64 (numnodes r + zlen news - 1)).
    + apply (Hfin m3 sn Hm3a); [done| |done]. rewrite <- Hpt at 1. by apply built_matches.
    + unfold news. destruct b; [rewrite Hnn at 2|]; f_equal; unfold zlen; cbn; lia.
  - cbn [length Nat.eqb andb]. destruct (Htrd ltac:(done)) as [Htr1 Htr2].
    assert (Hmt : m3 !! tr = Some (blank (node_length (iskey n) (isnull n) true (zlen (y :: a))))).
    { subst m3 m2. destruct b; [by slook|]. pose proof (proj1 (proj2 (Hpfd ltac:(done))) ltac:(done)). by slook. }
    rewrite Hmt. bnd. cbn [alloc blank].
    destruct (restore_key_flags n k (1 <? S (length a))%nat (y :: a) (node_length (iskey n) (isnull n) true (zlen (y :: a))) Hk) as (tn & -> & Htn).
    { change (S (length a)) with (length (y :: a)). by rewrite node_length_one. }
    bnd. rewrite (built_link _ _ _ _ _ Htn). bnd. rewrite (built_put _ _ _ _ _ _ _ _ Htn Hmt). bnd.
    set (m4 := <[tr := _]> m3).
    assert (Hm4 : forall p, p <> tr -> m4 !! p = m3 !! p) by (intros p Hp; unfold m4; by slook).
    assert (Htrk : tr ∉ kptrs K) by (apply Hkd, Hnf; unfold news; clear; set_solver).
    rewrite Hwl by (intros p Hp; apply Hm4; by intros ->). bnd. rewrite add_numnodes_upd.
    change (add_numnodes 1 (set_mem m4 r)) with (mkRax m4 (head r) (numele r) (u64 (numnodes r + 1))).
    set (sn := mkNode false false false [x] [None] None _).
    assert (Hsn : built sn None false [x]) by (by split_and!).
    rewrite (split_finish K tr m4 (head r) (numele r) (u64 (numnodes r + 1)) b u pf sp h sn None x _ _ n Hsn (Hkd _ Hsp) Hkh (not_eq_sym Hsph)
      (eq_trans (Hm4 sp (not_eq_sym Htr1)) Hms) (eq_trans (Hm4 h (Htr2 h Hhd)) Hmh)).
    + eexists _, sp, pf, tr. split; [done|].
      replace (match b with [] => _ | _ => _ end) with (u64 (numnodes r + zlen news - 1)).
      * apply (Hfin m4 sn).
        -- intros p Hp. rewrite Hm4 by (by apply Htr2). by apply Hm3a.
        -- unfold m4. rewrite dom_insert_L. apply (f_equal (fun o => is_Some o)) in Hmt. 
           assert (tr ∈ dom m3) by (apply elem_of_dom; rewrite Hmt; eauto). set_solver.
        -- rewrite <- Hpt at 1. by apply built_matches.
        -- intros _. eexists. split; [unfold m4; by slook|]. exact (built_matches tn k _ _ tr st Htn).
      * unfold news. destruct b; [|rewrite u64_add]; f_equal; unfold zlen; cbn; lia.
    + by destruct b.
    + intros Hb. destruct (Hpfb Hb) as (H1 & H2 & H3 & H4). split_and!; try done. rewrite Hm4; [done|].
      apply Hpfd; done.
Qed.

(** *** A key that ends inside a compressed node *)

Definition inside_ctx (K : list frame) (k : option value) (a : bytes) (tr : ptr) : list frame :=
  mkF tr k (1 <? length a)%nat [] a [] :: K.
Definition inside_tree (pf : ptr) (k : option value) (b : bytes) (u : tree) : tree :=
  TNode pf k (1 <? length b)%nat [(b, u)].

Lemma inside_entries K k a b u h tr pf :
  entries (plug (inside_ctx K k a tr) (inside_tree pf None b u)) = entries (plug K (TNode h k true [(a ++ b, u)])).
Proof.
  unfold inside_ctx, inside_tree. cbn [plug]. unfold fill. cbn [f_ptr f_key f_compr f_left f_lab f_right app].
  rewrite !entries_plug, !entries_one. cbn [own app]. by rewrite map_prep_prep.
Qed.

Lemma insert_inside_ok r K h k a b u d : a <> [] -> b <> [] ->
  rep r (plug K (TNode h k true [(a ++ b, u)])) ->
  exists r' pf tr, insert_inside A r h (link_of K) (length a) d = Some r' /\
    rep r' (plug (inside_ctx K k a tr) (inside_tree pf (Some d) b u)).
Proof.
  intros Ha Hb R. pose proof (rep_focus _ _ _ _ _ _ R) as (n & Hn & Hm & Hs & Hnd & Hd & Hw & _).
  rewrite esubs_one in Hs, Hnd, Hd. apply NoDup_cons in Hnd as [Hh Hnd].
  unfold insert_inside. rewrite Hn. bnd.
  pose proof Hm as (Hk & _ & Hdt & _). cbn in Hdt. rewrite app_nil_r in Hdt. rewrite Hdt.
  rewrite take_app_length, drop_app_length. replace (length (a ++ b) - length a)%nat with (length b) by (rewrite length_app; lia).
  destruct (malloc_ok (blank (node_length (bool_decide (is_Some d)) false true (Z.of_nat (length b)))) (mem r)) as (pf & -> & Hpf).
  set (m1 := <[pf := _]> (mem r)).
  destruct (malloc_ok (blank (node_length (iskey n) (isnull n) true (Z.of_nat (length a)))) m1) as (tr & -> & Htr).
  set (m2 := <[tr := _]> m1). rewrite (last_child_one _ _ _ _ _ _ Hm). bnd.
  assert (Hdm : forall p, p = h \/ p ∈ ptrs u ++ kptrs K -> p ∈ dom (mem r)).
  { intros p Hp. rewrite Hd. apply elem_of_list_to_set. elts. unfold ptrs in Hp. tauto. }
  assert (Hpfd : forall p, p ∈ dom (mem r) -> p <> pf) by (by intros p Hp ->).
  assert (Htrd : tr <> pf /\ forall p, p ∈ dom (mem r) -> p <> tr).
  { unfold m1 in Htr. rewrite dom_insert_L in Htr. split; [set_solver|]. intros p Hp ->. set_solver. }
  destruct Htrd as [Htp Htrd].
  assert (Hm2 : m2 !! pf = Some (blank (node_length (bool_decide (is_Some d)) false true (zlen b)))) by (unfold m2, m1; by slook).
  rewrite Hm2. bnd. cbn [alloc blank].
  destruct (set_data_fresh (mkNode true false (1 <? length b)%nat b [None] None (node_length (bool_decide (is_Some d)) false true (zlen b))) d)
    as (pn & -> & Hk1 & Hc1 & Hd1 & Hch1 & Ha1 & Hf1).
  { cbn [iscompr size alloc]. unfold size. cbn [data]. rewrite node_length_one by done.
    destruct d; [rewrite bool_decide_true by eauto; done|rewrite bool_decide_false by (by intros [? ?]); done]. }
  assert (Hpn : built pn (Some d) (1 <? length b)%nat b) by (by split_and!).
  bnd. rewrite (built_link _ _ _ _ _ Hpn). bnd. rewrite (built_put _ _ _ _ _ _ _ _ Hpn Hm2). bnd.
  set (m3 := <[pf := _]> m2).
  assert (Hm3t : m3 !! tr = Some (blank (node_length (iskey n) (isnull n) true (zlen a)))) by (unfold m3, m2; by slook).
  rewrite Hm3t. bnd. cbn [alloc blank].
  assert (Hag : forall p, p ∈ dom (mem r) -> m3 !! p = mem r !! p).
  { intros p Hp. pose proof (Hpfd p Hp). pose proof (Htrd p Hp). unfold m3, m2, m1. by slook. }
  assert (Hkd : forall p, p ∉ dom (mem r) -> p ∉ kptrs K) by (intros p Hp Hk'; apply Hp, Hdm; elts; auto).
  assert (Htrm : tr ∉ dom (mem r)) by (intros ?; by apply (Htrd tr)).
  change (add_numnodes 1 (set_mem m3 r)) with (mkRax m3 (head r) (numele r) (u64 (numnodes r + 1))).
  rewrite (ctx_write_link r K (TNode h k true [(a ++ b, u)])); [|by apply rep_ctx|intros p Hp; apply Hag, Hdm; elts; auto]. bnd.
  destruct (restore_key n k (1 <? length a)%nat a (node_length (iskey n) (isnull n) true (zlen a)) Hk) as (tn & -> & Htn).
  { by rewrite node_length_one. }
  bnd. rewrite (built_link _ _ _ _ _ Htn). bnd.
  rewrite (built_put _ _ _ _ _ _ _ _ Htn) by (rewrite mem_upd_link, kmem_lookup by (by apply Hkd); exact Hm3t). bnd.
  assert (Hhd : h ∈ dom (mem r)) by (apply Hdm; auto).
  assert (Hkh : h ∉ kptrs K) by (intros ?; apply Hh; elts; auto).
  pose proof (Htrd h Hhd). pose proof (Hpfd h Hhd).
  unfold rax_free. rewrite lookup_insert_ne, mem_upd_link, kmem_lookup by done. cbn [mem]. rewrite Hag, Hn by done. bnd.
  rewrite kmem_insert, kmem_delete, set_mem_upd, add_numele_upd by (done || by apply Hkd).
  unfold add_numele, set_mem. cbn [mem head numele numnodes].
  eexists _, pf, tr. split; [done|].
  change (plug (inside_ctx K k a tr) (inside_tree pf (Some d) b u)) with
    (plug K (TNode tr k (1 <? length a)%nat [(a, inside_tree pf (Some d) b u)])).
  set (t' := TNode tr k (1 <? length a)%nat [(a, inside_tree pf (Some d) b u)]).
  apply (rep_rebuild r K h k true [(a ++ b, u)] t' [tr; pf]); try done.
  - unfold t', inside_tree. by rewrite !ptrs_one, esubs_one.
  - rewrite !NoDup_cons, elem_of_cons, elem_of_nil. split_and!; [naive_solver|apply not_elem_of_nil|apply NoDup_nil_2].
  - intros p [->|[->|?%not_elem_of_nil]%elem_of_cons]%elem_of_cons; done.
  - rewrite esubs_one. intros p Hp. pose proof (Hdm p (or_intror Hp)) as Hp'. pose proof (Htrd p Hp').
    assert (p <> h) by (by intros ->). slook. by apply Hag.
  - rewrite dom_delete_L, dom_insert_L. unfold m3, m2, m1. rewrite !dom_insert_L. cbn. clear -H H0. set_solver.
  - unfold t', inside_tree. rewrite !subs_one. constructor; [|constructor].
    + eexists. cbn [t_ptr]. split; [by slook|]. exact (built_matches tn k _ a tr (inside_tree pf (Some d) b u) Htn).
    + eexists. cbn [t_ptr]. split; [slook; unfold m3; by slook|]. exact (built_matches pn (Some d) _ b pf u Hpn).
    + eapply nodes_agree; [|exact Hs]. intros p Hp. assert (Hp1 : p ∈ ptrs u ++ kptrs K) by (rewrite elem_of_app; auto).
      pose proof (Hdm p (or_intror Hp1)) as Hp'. pose proof (Htrd p Hp'). assert (p <> h) by (by intros ->). slook. by apply Hag.
  - apply wf_eq in Hw as [[Hby (l & [= <-] & _ & Hmx)] Hu]. apply Forall_cons in Hby as [Hby _]. cbn [fst] in Hby.
    rewrite Forall_app in Hby. destruct Hby as [Hb1 Hb2]. rewrite zlen_app in Hmx. pose proof (zlen_nonneg a). pose proof (zlen_nonneg b).
    unfold t', inside_tree. rewrite !wf_eq. split; [apply wf_label_one; [done|done|lia]|]. constructor; [|constructor]. cbn [snd].
    rewrite wf_eq. split; [apply wf_label_one; [done|done|lia]|]. apply Forall_cons in Hu as [Hu _]. by constructor.
  - f_equal. unfold zlen. cbn. lia.
  - rewrite (rep_numele _ _ R), u64_add. f_equal. rewrite !zlen_entries_plug. unfold t', inside_tree. rewrite !entries_one.
    cbn [own]. rewrite !zlen_app, ?map_app. cbn [map]. unfold zlen. cbn [length app]. rewrite !length_map. lia.
Qed.

(** *** Insertion in the map *)

Lemma elem_of_key K p k c es s d : wf (plug K (TNode p k c es)) ->
  (s, d) ∈ entries (plug K (TNode p k c es)) <->
  (s = path K /\ k = Some d) \/ (s <> path K /\ (s, d) ∈ before K ++ map (prep (path K)) (eentries es) ++ after K).
Proof.
  intros Hw. destruct (decide (s = path K)) as [->|Hs]; [rewrite elem_of_path by done; tauto|].
  rewrite entries_plug, entries_eq, map_app, !elem_of_app, elem_of_prep. split; [|naive_solver].
  intros [H|[[(s' & -> & [-> _]%elem_of_own)|H]|H]]; [auto| |auto|auto]. by rewrite app_nil_r in Hs.
Qed.

Lemma denotes_key K p k c es q d f : wf (plug K (TNode p k c es)) -> wf (plug K (TNode q (Some d) c es)) ->
  denotes (entries (plug K (TNode p k c es))) f -> denotes (entries (plug K (TNode q (Some d) c es))) (<[path K := d]> f).
Proof.
  intros Hw1 Hw2 Hf s d'. rewrite elem_of_key by done. destruct (decide (s = path K)) as [->|Hs].
  - rewrite lookup_insert_eq. split; [intros [= ->]; auto|naive_solver].
  - rewrite lookup_insert_ne by done. rewrite (Hf s d'), elem_of_key by done. naive_solver.
Qed.

Lemma live_rest pf b u : live u -> live (rest_tree pf b u).
Proof. destruct b; [done|]. by right. Qed.

Lemma alive_split h k a x b u K sp pf tr : alive (TNode h k true [(a ++ x :: b, u)]) -> kalive K ->
  kalive (split_ctx K k a tr) /\ alive (split_tree k a x b u sp pf).
Proof.
  intros [Hl Ha]%alive_eq HK. apply Forall_cons in Hl as [Hl _]. apply Forall_cons in Ha as [Ha _]. cbn in Hl, Ha. split.
  - unfold split_ctx. destruct a as [|y a]; [done|]. eapply (kalive_cons _ _ _ h true); [|done]. by apply alive_eq.
  - apply alive_eq. split; (constructor; [cbn|done]); [by apply live_rest|].
    unfold rest_tree. destruct b as [|y b]; [done|]. apply alive_eq. split; by constructor.
Qed.

Lemma alive_key K p d c es : kalive K -> Forall (fun e => live e.2) es -> Forall (fun e => alive e.2) es -> alive (plug K (TNode p (Some d) c es)).
Proof. intros HK Hl Ha. apply alive_plug; [left; left; eauto|]. split; [by apply alive_eq|done]. Qed.

Lemma denotes_absent xs f s : denotes xs f -> (forall d, (s, d) ∉ xs) -> f !! s = None.
Proof. intros Hf H. apply eq_None_not_Some. intros [d Hd%Hf]. by apply (H d). Qed.

Lemma insert_rest_ok r K h k es s rest d f :
  rep r (plug K (TNode h k false es)) -> s = path K ++ rest -> rest <> [] ->
  match rest with [] => k = None | c :: _ => c ∉ concat (map fst es) end -> Forall is_byte rest ->
  2 <= max_size -> kalive K -> alive (TNode h k false es) -> denotes (entries (plug K (TNode h k false es))) f ->
  exists r', ('(r, h, parentlink) ← insert_loop junk A max_size (length s) r s (length (path K)) h (link_of K);
    r ← insert_data A r h parentlink d; Some (r, 1, None)) = Some (r', 1, @None value) /\ rep_map r' (<[s := d]> f).
Proof.
  intros R Hs Hr Hrest Hb Hm HK Ha Hf.
  destruct (insert_loop_ok s (length s) rest r K h k es) as (r1 & K1 & h1 & es1 & -> & R1 & Hp & He & HK1 & [Hl1 Ha1]%alive_eq); try done.
  { rewrite Hs, length_app. lia. }
  bnd. destruct (insert_data_ok _ _ _ _ _ d R1) as (r2 & q & -> & R2). bnd. eexists. split; [done|].
  exists (plug K1 (TNode q (Some d) false es1)). split_and!; [done|by apply alive_key|].
  rewrite <- Hp. eapply denotes_key; [apply R1|apply R2|]. by rewrite He.
Qed.

Lemma raxGenericInsert_ok r f s d ow : rep_map r f -> Forall is_byte s -> 2 <= max_size ->
  exists r', raxGenericInsert junk A max_size r s d ow = Some (r', match f !! s with Some _ => 0 | None => 1 end, f !! s) /\
    rep_map r' (match f !! s with Some _ => if ow then <[s := d]> f else f | None => <[s := d]> f end).
Proof.
  intros (t & R & Hal & Hf) Hb Hmax. unfold raxGenericInsert.
  destruct (raxLowWalk_ok r s t None R I) as (w & -> & K & u & Hpl & Hstop & Hlink & Hst & _ & _). cbn in Hpl. bnd. subst t.
  apply alive_plug_inv in Hal as (Hu & HK & Hlv).
  pose proof (fun d => stop_absent _ _ _ _ _ d (rep_wf _ _ R) Hst) as Habs.
  destruct u as [p k c es]. destruct (rep_focus _ _ _ _ _ _ R) as (n & Hn & Hm & _). cbn in Hstop. rewrite Hstop, Hlink, Hn. bnd.
  pose proof Hm as (_ & Hc & _). rewrite Hc.
  clear Hstop Hlink Hc. inv Hst.
  - (* the node of the key *)
    rewrite Nat.eqb_refl. replace (_ =? 0)%nat with true by (symmetry; by apply Nat.eqb_eq). rewrite orb_true_r. cbn [andb].
    destruct (insert_existing_ok r K p k c es d ow R) as (r' & q & -> & R').
    assert (Hfk : f !! path K = k).
    { destruct k as [d0|]; [apply Hf; by apply elem_of_path; [apply R|]|].
      apply (denotes_absent _ _ _ Hf). intros d' Hd'. by apply elem_of_path in Hd'; [|apply R]. }
    rewrite Hfk. eexists. split; [done|]. eexists. apply alive_eq in Hu as [Hl1 Ha1].
    split_and!; [exact R'|by apply alive_key|].
    pose proof (denotes_key _ _ _ _ _ _ _ _ (rep_wf _ _ R) (rep_wf _ _ R') Hf) as HD.
    destruct k as [d0|]; [|done]. destruct ow; [done|]. by rewrite insert_id in HD.
  - (* no edge for the next character *)
    assert (f !! (path K ++ c0 :: rest) = None) as ->.
    { apply (denotes_absent _ _ _ Hf). intros d'. apply Habs. intros E. apply (f_equal length) in E. rewrite length_app in E. cbn in E. lia. }
    replace (_ =? _)%nat with false by (symmetry; apply Nat.eqb_neq; rewrite length_app; cbn; lia). cbn [andb]. bnd.
    eapply (insert_rest_ok r K p k es _ (c0 :: rest)); try done. by apply Forall_app in Hb as [_ ?].
  - (* inside a compressed node *)
    assert (f !! (path K ++ rest) = None) as ->.
    { apply (denotes_absent _ _ _ Hf). intros d'. apply Habs. intros E. apply (f_equal length) in E. rewrite length_app in E.
      destruct rest; [done|cbn in E; lia]. }
    destruct (compr_match_spec l rest) as (a & v' & s' & Hv & Hr & Hlen & Hne). rewrite <- Hlen.
    assert (Hv' : v' <> []) by (intros ->; rewrite app_nil_r in Hv; subst l; lia).
    assert (Hlr : length rest = (length a + length s')%nat) by (by rewrite Hr, length_app).
    assert ((length (path K) + length a =? length (path K ++ rest))%nat = (length s' =? 0)%nat) as ->.
    { destruct s'; [apply Nat.eqb_eq|apply Nat.eqb_neq]; rewrite length_app, Hlr; cbn; lia. }
    destruct s' as [|c s'].
    + (* the key ends there *)
      rewrite app_nil_r in Hr. cbn [length Nat.eqb]. assert (Ha : a <> []) by (by subst rest).
      replace (length a =? 0)%nat with false by (symmetry; apply Nat.eqb_neq; by destruct a). cbn [andb negb orb].
      subst l. destruct (insert_inside_ok r K p k a v' u d Ha Hv' R) as (r' & pf & tr & -> & R'). bnd.
      eexists. split; [done|]. exists (plug (inside_ctx K k a tr) (inside_tree pf (Some d) v' u)).
      apply alive_eq in Hu as [Hl1 Ha1]. apply Forall_cons in Hl1 as [Hl1 _]. apply Forall_cons in Ha1 as [Ha1 _].
      split_and!; [done| |].
      * apply alive_key; [|by constructor..]. apply (kalive_cons _ _ _ p true); [by apply alive_eq|done].
      * subst rest. change (path K ++ a) with (path (inside_ctx K k a tr)).
        apply (denotes_key _ pf None); [|apply R'|exact (eq_ind_r (fun xs => denotes xs f) Hf (inside_entries K k a v' u p tr pf))].
        apply wf_plug. apply rep_wf, wf_plug in R' as [Hw HKw]. split; [|by eapply kall_wf].
        apply wf_eq. by apply wf_eq in Hw.
    + (* a different character *)
      cbn [length Nat.eqb andb].
      destruct v' as [|x b]; [done|]. subst l.
      destruct (insert_split_ok r K p k a x b u R) as (r1 & sp & pf & tr & -> & R1). bnd.
      destruct (alive_split p k a x b u K sp pf tr Hu HK) as [HK1 Ha1].
      assert (Hpath : path (split_ctx K k a tr) = path K ++ a) by (destruct a; [by rewrite app_nil_r|done]).
      replace (length (path K) + length a)%nat with (length (path (split_ctx K k a tr))) by (by rewrite Hpath, length_app).
      replace (path K ++ rest) with (path (split_ctx K k a tr) ++ c :: s') by (by rewrite Hpath, Hr, <- app_assoc).
      eapply (insert_rest_ok r1 _ sp _ _ _ (c :: s')); try done.
      * cbn. rewrite ?app_nil_r. intros ?%list_elem_of_singleton. congruence.
      * rewrite Hr, !Forall_app in Hb. by destruct Hb as (_ & _ & ?).
      * exact (eq_ind_r (fun xs => denotes xs f) Hf (split_entries K k a x b u p tr sp pf)).
Qed.

End trees.

End Rax.
