(* ===== verification/RaxDelete.v ===== *)
(** * Radix trees: removal, release and the operations as a finite map

    The removal of src/redis-stable/src/rax.c frees the nodes that lead only to
    the removed key and merges the chain of nodes around them.  While nodes are
    freed the store holds a tree with a hole, described by [hole].  The file
    ends with the theorems on sequences of operations. *)
From stdpp Require Import base list gmap sorting strings.
From S2P Require Import Prelude Rax.

Module RaxDelete.
Import Rax.

Section delete.
Context {V : Type}.
Context (max_size junk : Z) (A : allocator V).

Abbreviation rep := (Rax.rep max_size).
Abbreviation wf := (Rax.wf max_size).
Abbreviation wf_node := (Rax.wf_node max_size).
Abbreviation frame := (@Rax.frame V).
Abbreviation tree := (@Rax.tree V).

Ltac elts := rewrite ?elem_of_cons, ?elem_of_app in *.
Ltac slook := repeat first [rewrite lookup_insert_eq | rewrite lookup_insert_ne by congruence | rewrite lookup_delete_ne by congruence].

(** The store holds the context, and the subtree [t] is gone. *)
Record hole (r : rax V) (K : list frame) (t : tree) : Prop := {
  hole_ctx : ctx_ok max_size r K t;
  hole_nodup : NoDup (t_ptr t :: kptrs K);
  hole_dom : dom (mem r) = list_to_set (kptrs K);
  hole_numnodes : numnodes r = u64 (zlen (kptrs K));
  hole_numele : numele r = u64 (zlen (entries (plug K t))) }.

Lemma hole_free r K h : rep r (plug K (TNode h None false [])) ->
  exists m, rax_free h (mem r) = Some m /\ hole (add_numnodes (-1) (set_mem m r)) K (TNode h None false []).
Proof.
  intros R. pose proof (rep_focus _ _ _ _ _ _ _ R) as (n & Hn & _ & _ & Hnd & Hd & _ & HKw & HK).
  unfold rax_free. rewrite Hn. bnd. eexists. split; [done|]. cbn [esubs map concat app] in *.
  apply NoDup_cons in Hnd as [Hh Hnd]. split.
  - split_and!; [apply R| |done]. cbn [mem set_mem add_numnodes]. eapply kall_agree; [|done|exact HK].
    intros p Hp. apply lookup_delete_ne. by intros ->.
  - cbn. by constructor.
  - cbn. rewrite dom_delete_L, Hd. clear -Hh. set_solver.
  - cbn. rewrite (rep_numnodes _ _ _ R), u64_add. f_equal. unfold zlen. rewrite (ptrs_plug K (TNode h None false [])), length_app. cbn. lia.
  - cbn. apply R.
Qed.

(** A frame of a chain: not a key, and no other edge. *)
Definition chain_frame (F : frame) : Prop := f_key F = None /\ f_left F = [] /\ f_right F = [].

Lemma hole_up r F K t : hole r (F :: K) t -> f_left F = [] -> f_right F = [] ->
  exists m, rax_free (f_ptr F) (mem r) = Some m /\ hole (add_numnodes (-1) (set_mem m r)) K (fill F t).
Proof.
  intros [(Hh & ((n & Hn & Hm) & Hs & HK) & (Hwn & _ & HKw)) Hnd Hd Hnn Hne] HL HR.
  cbn in Hn. unfold rax_free. rewrite Hn. bnd. eexists. split; [done|].
  assert (Hkp : kptrs (F :: K) = f_ptr F :: kptrs K) by (cbn [kptrs]; by rewrite HL, HR).
  rewrite Hkp in *. apply NoDup_cons in Hnd as [_ Hnd]. pose proof Hnd as [HF Hnd']%NoDup_cons. split.
  - split_and!; [done| |done]. cbn [mem set_mem add_numnodes]. eapply kall_agree; [|done|exact HK].
    intros p Hp. apply lookup_delete_ne. by intros <-.
  - done.
  - cbn. rewrite dom_delete_L, Hd. clear -HF. set_solver.
  - cbn. rewrite Hnn, u64_add. f_equal. rewrite zlen_cons. lia.
  - done.
Qed.

(** The nodes that end a chain are keys, or do not have one edge. *)
Lemma ends_chain_ok (n : raxNode V) p k c es : matches n (TNode p k c es) -> wf_labels max_size c (map fst es) ->
  ends_chain n = negb (match k with None => (length es =? 1)%nat | Some _ => false end).
Proof.
  intros (Hk & Hc & Hd & _) Hw. unfold ends_chain. rewrite (iskey_ok _ _ Hk), Hc. destruct k as [d|]; [done|]. cbn.
  destruct Hw as [_ Hw]. destruct c; cbn.
  - destruct Hw as (l & Hl & _). destruct es as [|? [|]]; try done.
  - destruct Hw as (cs & Hcs & _). unfold size, zlen. rewrite Hd, Hcs, concat_singles.
    assert (length es = length cs) as <- by (apply (f_equal length) in Hcs; by rewrite !length_map in Hcs).
    f_equal. destruct (Nat.eqb_spec (length es) 1); lia.
Qed.

Lemma fill_chain F t : chain_frame F \/ f_key F <> None \/ (2 <= length (t_edges (fill F t)))%nat.
Proof.
  unfold chain_frame. cbn [fill t_edges]. rewrite length_app. cbn. destruct (f_key F), (f_left F), (f_right F); cbn; try (by left); right; try (by left); right; lia.
Qed.

Lemma ends_chain_frame (n : raxNode V) F t : matches n (fill F t) -> wf_node (fill F t) ->
  (ends_chain n = false /\ chain_frame F) \/ (ends_chain n = true /\ (f_key F <> None \/ (2 <= length (t_edges (fill F t)))%nat)).
Proof.
  intros Hm Hw. pose proof (ends_chain_ok _ _ _ _ _ Hm Hw) as ->. destruct (fill_chain F t) as [(H1 & H2 & H3)|H].
  - left. split; [|done]. by rewrite H1, H2, H3.
  - right. split; [|done]. cbn [fill t_edges] in H. destruct (f_key F); [done|]. destruct H as [|H]; [done|].
    destruct (Nat.eqb_spec (length (f_left F ++ (f_lab F, t) :: f_right F)) 1); [lia|done].
Qed.

(** *** Freeing the nodes above the removed key *)

Lemma head_in_kptrs (F : frame) K (t : tree) : t_ptr (plug (F :: K) t) ∈ kptrs (F :: K).
Proof.
  revert F t. induction K as [|G K IH]; intros F t; [cbn; rewrite elem_of_cons; auto|].
  change (plug (F :: G :: K) t) with (plug (G :: K) (fill F t)). cbn [kptrs]. rewrite elem_of_cons, elem_of_app. right. right. apply IH.
Qed.

(** The frame where the removal stops, with the edge to cut. *)
Definition stop_frame (F : frame) (K : list frame) (t : tree) : Prop :=
  K = [] \/ f_key F <> None \/ (2 <= length (t_edges (fill F t)))%nat.

Definition stopped_at (T : tree) (r' : rax V) (h' : ptr) (c' : option ptr) (ts' : raxStack) : Prop :=
  exists F K t, h' = f_ptr F /\ c' = Some (t_ptr t) /\ hole r' (F :: K) t /\ items ts' = map f_ptr K /\
    plug (F :: K) t = T /\ entries t = [] /\ kalive (F :: K) /\ stop_frame F K t.

Lemma entries_fill F t : chain_frame F -> entries t = [] -> entries (fill F t) = [].
Proof. intros (H1 & H2 & H3) H. unfold fill. rewrite H1, H2, H3. cbn [app]. by rewrite entries_one, H. Qed.

Lemma kalive_tail (F : frame) K : kalive (F :: K) -> kalive K.
Proof. intros (_ & _ & H). eapply kall_alive; [|exact H]. left. eauto. Qed.

Lemma remove_up_hole : forall K F t r fuel ts, hole r (F :: K) t -> items ts = map f_ptr K -> (length K < fuel)%nat ->
  chain_frame F -> entries t = [] -> kalive (F :: K) ->
  exists r' h' c' ts', remove_up fuel r (f_ptr F) (Some (t_ptr t)) ts = Some (r', h', c', ts') /\
    stopped_at (plug (F :: K) t) r' h' c' ts'.
Proof.
  induction K as [|G K IH]; intros F t r fuel ts H Hts Hf HF He HK.
  - pose proof (hole_ctx _ _ _ H) as (Hh & _). destruct fuel; cbn [remove_up]; rewrite bool_decide_true by done;
      (eexists _, _, _, _; split; [done|]; exists F, [], t; split_and!; try done; by left).
  - destruct fuel as [|fuel]; [cbn in Hf; lia|]. cbn [remove_up].
    pose proof (hole_ctx _ _ _ H) as (Hh & _). pose proof HF as (HF1 & HF2 & HF3).
    rewrite bool_decide_false.
    2:{ pose proof (hole_nodup _ _ _ H) as [_ Hnd]%NoDup_cons. cbn [kptrs] in Hnd. apply NoDup_cons in Hnd as [Hnd _].
        intros E. apply Hnd. rewrite E, Hh. rewrite elem_of_app. right. change (plug _ t) with (plug (G :: K) (fill F t)). apply head_in_kptrs. }
    destruct (hole_up _ _ _ _ H HF2 HF3) as (m & -> & H1). bnd.
    set (r1 := add_numnodes (-1) (set_mem m r)) in *.
    pose proof (hole_ctx _ _ _ H1) as (_ & ((n & Hn & Hm) & _) & (Hw & _)). change (mem r1 !! f_ptr G = Some n) in Hn.
    unfold raxStackPop. rewrite Hts. cbn [map]. bnd. rewrite Hn. bnd.
    destruct (ends_chain_frame n G (fill F t) Hm Hw) as [[-> HG]|[-> HG]].
    + apply (IH G (fill F t) r1 fuel); try done; [cbn in Hf; lia|by apply entries_fill|by eapply kalive_tail].
    + eexists _, _, _, _. split; [done|]. exists G, K, (fill F t). split_and!; try done; [by apply entries_fill|by eapply kalive_tail|].
      by right.
Qed.

Lemma remove_up_ok r F K h ts : rep r (plug (F :: K) (TNode h None false [])) -> items ts = map f_ptr (F :: K) ->
  kalive (F :: K) ->
  exists r' h' c' ts', remove_up (S (length (items ts))) r h None ts = Some (r', h', c', ts') /\
    stopped_at (plug (F :: K) (TNode h None false [])) r' h' c' ts'.
Proof.
  intros R Hts HK. pose proof (rep_focus _ _ _ _ _ _ _ R) as (n0 & _ & _ & _ & Hnd & _).
  cbn [remove_up]. rewrite bool_decide_false.
  2:{ intros E. apply NoDup_cons in Hnd as [Hnd _]. apply Hnd. rewrite E, (rep_head _ _ _ R), elem_of_app. right. apply head_in_kptrs. }
  destruct (hole_free _ _ _ R) as (m & -> & H1). bnd. set (r1 := add_numnodes (-1) (set_mem m r)) in *.
  pose proof (hole_ctx _ _ _ H1) as (_ & ((n & Hn & Hm) & _) & (Hw & _)). change (mem r1 !! f_ptr F = Some n) in Hn.
  unfold raxStackPop. rewrite Hts. cbn [map]. bnd. rewrite Hn. bnd.
  destruct (ends_chain_frame n F _ Hm Hw) as [[-> HG]|[-> HG]].
  - apply (remove_up_hole K F (TNode h None false []) r1); try done. cbn. rewrite length_map. lia.
  - eexists _, _, _, _. split; [done|]. exists F, K, (TNode h None false []). split_and!; try done. by right.
Qed.

(** *** Cutting the edge *)

Lemma raxPadding_spec sz : 4 + sz + raxPadding sz = 8 * ((sz + 11) / 8).
Proof.
  unfold raxPadding. change 7 with (Z.ones 3). rewrite Z.land_ones by lia. change (2 ^ 3) with 8. dlia.
Qed.

Lemma node_length_mono key null a b : a <= b -> node_length key null false a <= node_length key null false b.
Proof. intros H. unfold node_length. pose proof (raxPadding_spec a). pose proof (raxPadding_spec b).
  assert ((a + 11) / 8 <= (b + 11) / 8) by (apply Z.div_le_mono; lia). lia. Qed.

Lemma node_length_zero key null sz : 0 <= sz -> node_length key null false 0 <= node_length key null true sz.
Proof. intros H. unfold node_length. pose proof (raxPadding_spec sz). pose proof (raxPadding_spec 0). change ((0 + 11) / 8) with 1 in *.
  assert (1 <= (sz + 11) / 8) by (apply Z.div_le_lower_bound; lia). lia. Qed.

Lemma child_index_ok (left right : list (bytes * tree)) l t : Forall (fun e => t_ptr e.2 <> t_ptr t) left ->
  child_index (edge_ptrs (left ++ (l, t) :: right)) (t_ptr t) = Some (length left).
Proof.
  induction 1 as [|e left He _ IH]; cbn; [by rewrite bool_decide_true|].
  rewrite bool_decide_false by done. fold (edge_ptrs (left ++ (l, t) :: right)). by rewrite IH.
Qed.

Lemma in_esubs (es : list (bytes * tree)) e : e ∈ es -> t_ptr e.2 ∈ map t_ptr (esubs es).
Proof.
  induction es as [|x es IH]; [by intros ?%not_elem_of_nil|]. rewrite esubs_cons, map_app, elem_of_app.
  intros [->|H]%elem_of_cons; [left; apply t_ptr_in_ptrs|auto].
Qed.

Lemma left_differs (F : frame) K q : q ∉ kptrs (F :: K) -> Forall (fun e => t_ptr e.2 <> q) (f_left F).
Proof.
  intros H. apply Forall_forall. intros e He <-. apply H. cbn [kptrs]. elts. right. left. apply in_esubs. elts. auto.
Qed.

Lemma find_parent_ok m (F : frame) K t n : m !! f_ptr F = Some n -> matches n (fill F t) -> t_ptr t ∉ kptrs (F :: K) ->
  raxFindParentLink (f_ptr F) (t_ptr t) m = Some (link_of (F :: K)).
Proof.
  intros Hn (_ & _ & _ & Hch & _) Hq. unfold raxFindParentLink. rewrite Hn. bnd. rewrite Hch, child_index_ok; [done|].
  by eapply left_differs.
Qed.

Lemma drop_label (es es' : list (bytes * tree)) l u cs : map fst (es ++ (l, u) :: es') = map (fun x : Z => [x]) cs ->
  map fst (es ++ es') = map (fun x : Z => [x]) (take (length es) cs ++ drop (S (length es)) cs) /\
  (length es < length cs)%nat.
Proof.
  intros H. pose proof (f_equal length H) as Hl. rewrite !length_map, length_app in Hl. cbn in Hl. split; [|lia].
  rewrite !map_app in *. rewrite <- firstn_map, <- skipn_map, <- H.
  rewrite take_app_length' by (by rewrite length_map). rewrite drop_app_ge by (rewrite length_map; lia).
  rewrite length_map. by replace (S (length es) - length es)%nat with 1%nat by lia.
Qed.

Lemma remove_child_ok r F K t : hole r (F :: K) t -> exists new n',
  raxRemoveChild A (f_ptr F) (t_ptr t) (mem r) = Some (new, <[new := n']> (delete (f_ptr F) (mem r))) /\
  (new = f_ptr F \/ new ∉ dom (mem r)) /\ matches n' (TNode new (f_key F) false (f_left F ++ f_right F)) /\
  wf_labels max_size false (map fst (f_left F ++ f_right F)).
Proof.
  intros H. pose proof (hole_ctx _ _ _ H) as (_ & ((n & Hn & Hm) & _) & (Hw & _)). cbn in Hn.
  pose proof (hole_nodup _ _ _ H) as [Hq _]%NoDup_cons.
  unfold raxRemoveChild. rewrite Hn. bnd. pose proof Hm as (Hk & Hc & Hd & Hch & Hf). rewrite Hc.
  unfold wf_node, Rax.wf_node, fill in Hw. unfold fits, raxNodeCurrentLength in Hf. rewrite Hc in Hf.
  destruct (f_compr F).
  - destruct Hw as [_ (l & Hl & _)]. rewrite map_app in Hl. destruct (f_left F) as [|? [|]]; [|done..].
    destruct (f_right F); [|done]. cbn [app].
    assert (Hx : exists x, (if iskey n then d ← raxGetData n; raxSetData (mkNode (iskey n) false false [] [] None (alloc n)) d
      else Some (mkNode (iskey n) false false [] [] None (alloc n))) = Some x /\ matches x (TNode (f_ptr F) (f_key F) false [])).
    { pose proof (node_length_zero (iskey n) (isnull n) (size n) (zlen_nonneg _)) as Hz.
      rewrite (iskey_ok _ _ Hk) in *. destruct (f_key F) as [d|].
      - rewrite (get_data_ok _ _ d Hk) by done. bnd. rewrite (isnull_ok _ _ Hk) in *.
        destruct (set_data_fresh (mkNode true false false [] [] None (alloc n)) d) as (x & -> & H1 & H2 & H3 & H4 & _ & H5).
        { cbn. unfold size. cbn. rewrite zlen_nil. lia. }
        exists x. by split_and!.
      - eexists. split; [done|]. split_and!; try done. apply Z.leb_le. unfold raxNodeCurrentLength, size. cbn.
        rewrite zlen_nil. unfold node_length in *. cbn in *. lia. }
    destruct Hx as (x & Hx & Hmx).
    assert (Hgo : (d ← (if iskey n then raxGetData n else Some None);
       x ← (if iskey n then raxSetData (mkNode (iskey n) false false [] [] None (alloc n)) d else Some (mkNode (iskey n) false false [] [] None (alloc n)));
       m ← put (f_ptr F) x (mem r); Some (f_ptr F, m)) = Some (f_ptr F, <[f_ptr F := x]> (mem r))).
    { assert (Hp : put (f_ptr F) x (mem r) = Some (<[f_ptr F := x]> (mem r))) by (eapply put_ok; [done|]; by destruct Hmx as (_ & _ & _ & _ & ?)).
      destruct (iskey n); [apply bind_Some in Hx as (d & -> & Hx); bnd|bnd]; rewrite ?Hx; bnd; [by rewrite Hp|]. injection Hx as ->. by rewrite Hp. }
    eexists _, x. split; [etrans; [exact Hgo|]; by rewrite insert_delete_eq|]. split_and!; [by left|done|].
    split; [constructor|]. exists []. split; [done|constructor].
  - pose proof Hw as [Hby (cs & Hcs & Hso)]. cbn [fill t_edges] in Hch. rewrite Hch, child_index_ok by (by eapply left_differs). bnd.
    destruct (drop_label _ _ _ _ _ Hcs) as [Hcs' Hlt]. rewrite Hcs, concat_singles in Hd. rewrite Hd.
    set (x := mkNode _ _ _ _ _ _ _).
    assert (Hx : forall new len, raxNodeCurrentLength x <= len -> matches (set_alloc len x) (TNode new (f_key F) false (f_left F ++ f_right F))).
    { intros new len Hlen. split_and!.
      - destruct Hk as [Hk1 Hk2]. split; [done|]. destruct (f_key F) as [[v|]|]; try done. destruct Hk2 as [Hk2 Hk3]. cbn. rewrite Hk1, Hk2, bool_decide_true by eauto. done.
      - done.
      - cbn. by rewrite Hcs', concat_singles.
      - cbn. unfold edge_ptrs. rewrite !map_app. cbn [map].
        rewrite take_app_length' by (by rewrite length_map). rewrite drop_app_ge by (rewrite length_map; lia).
        rewrite length_map. by replace (S (length (f_left F)) - length (f_left F))%nat with 1%nat by lia.
      - apply Z.leb_le. exact Hlen. }
    assert (Hfx : fits x = true).
    { apply Z.leb_le. apply Z.leb_le in Hf. etrans; [|exact Hf]. apply node_length_mono. unfold size, zlen. cbn. rewrite Hd, length_app, length_take, length_drop. lia. }
    rewrite (put_ok _ _ _ _ Hn) by done. bnd.
    destruct (realloc_ok A (f_ptr F) (raxNodeCurrentLength x) (<[f_ptr F := x]> (mem r)) x (lookup_insert_eq _ _ _)) as (q & -> & Hqd).
    rewrite delete_insert_eq. eexists q, _. split; [done|]. split_and!.
    + destruct Hqd as [->|Hqd]; [by left|right]. rewrite dom_insert_L in Hqd. set_solver.
    + by apply Hx.
    + split; [rewrite map_app in *; rewrite Forall_app in *; cbn in Hby; rewrite Forall_cons in Hby; naive_solver|].
      eexists. split; [exact Hcs'|].
      destruct (lookup_lt_is_Some_2 cs _ Hlt) as [c0 Hc0]. rewrite <- (take_drop_middle cs _ c0 Hc0) in Hso.
      rewrite StronglySorted_app in *. destruct Hso as (H1 & H2 & [H3 _]%StronglySorted_inv). split_and!; try done.
      intros a b Ha Hb. apply H1; [done|]. elts. auto.
Qed.

Lemma hole_outer r F K t : hole r (F :: K) t -> ctx_ok max_size r K (fill F t).
Proof. intros H. destruct (hole_ctx _ _ _ H) as (Hh & (_ & _ & HK) & (_ & _ & Hw)). done. Qed.

(** The node of the frame, without the edge, is linked in the context. *)
Lemma cut_ok r F K t new n' : hole r (F :: K) t -> entries t = [] ->
  new = f_ptr F \/ new ∉ dom (mem r) -> matches n' (TNode new (f_key F) false (f_left F ++ f_right F)) ->
  wf_labels max_size false (map fst (f_left F ++ f_right F)) ->
  rep (upd_link (link_of K) new (set_mem (<[new := n']> (delete (f_ptr F) (mem r))) r))
    (plug K (TNode new (f_key F) false (f_left F ++ f_right F))).
Proof.
  intros H He Hnew Hm Hl. pose proof (hole_ctx _ _ _ H) as (_ & (_ & Hs & _) & (_ & Hws & _)).
  pose proof (hole_dom _ _ _ H) as Hd. pose proof (hole_nodup _ _ _ H) as [_ Hnd]%NoDup_cons. cbn [kptrs] in Hnd, Hd.
  apply NoDup_cons in Hnd as [HF Hnd].
  assert (Hq : new ∉ map t_ptr (esubs (f_left F ++ f_right F)) ++ kptrs K) by (destruct Hnew as [->|Hnew]; [done|rewrite Hd in Hnew; set_solver]).
  assert (Hag : forall p, p ∈ map t_ptr (esubs (f_left F ++ f_right F)) ++ kptrs K ->
    <[new:=n']> (delete (f_ptr F) (mem r)) !! p = mem r !! p).
  { intros p Hp. rewrite lookup_insert_ne, lookup_delete_ne by (intros <-; done). done. }
  apply (ctx_relink max_size r K (fill F t) (TNode new (f_key F) false (f_left F ++ f_right F))); try done.
  - by apply hole_outer.
  - rewrite subs_eq. constructor; [exists n'; by rewrite lookup_insert_eq|]. eapply nodes_agree; [|exact Hs].
    intros p Hp. apply Hag. elts. auto.
  - rewrite ptrs_eq. cbn. by constructor.
  - apply wf_eq. split; [done|]. by rewrite Forall_esubs in Hws.
  - intros p Hp. apply Hag. elts. auto.
  - rewrite ptrs_eq, dom_insert_L, dom_delete_L, Hd. cbn [list_to_set app]. clear -HF Hq. set_solver.
  - rewrite (hole_numnodes _ _ _ H). f_equal.
  - rewrite (hole_numele _ _ _ H). f_equal. cbn [plug]. unfold fill. rewrite !zlen_entries_plug, !entries_eq, !eentries_app, eentries_cons.
    cbn [fst snd]. by rewrite He.
Qed.

Lemma live_cut (F : frame) K t p : stop_frame F K t -> K = [] \/ live (TNode p (f_key F) false (f_left F ++ f_right F)).
Proof.
  intros [H|[H|H]]; [by left|right; left|right; right].
  - by destruct (f_key F); [eauto|].
  - cbn [fill t_edges] in H. rewrite length_app in H. cbn in H. rewrite Nat.add_succ_r, <- length_app in H. intros E. rewrite E in H. cbn in H. lia.
Qed.

Lemma remove_leaf_ok r K h ts : rep r (plug K (TNode h None false [])) -> items ts = map f_ptr K -> kalive K ->
  exists r' h' ts' b, remove_leaf A r h ts = Some (r', h', ts', b) /\
    exists K1 p k es, rep r' (plug K1 (TNode p k false es)) /\ items ts' = map f_ptr K1 /\
      entries (plug K1 (TNode p k false es)) = entries (plug K (TNode h None false [])) /\
      alive (plug K1 (TNode p k false es)) /\ (b = true -> h' = p /\ k = None /\ length es = 1%nat).
Proof.
  intros R Hts HK. unfold remove_leaf. destruct K as [|F0 K0].
  - cbn [remove_up]. rewrite bool_decide_true by (symmetry; apply R). bnd. eexists _, _, _, _. split; [done|].
    exists [], h, None, []. split_and!; try done. apply alive_plug; [by right|]. split; [by apply alive_eq|done].
  - destruct (remove_up_ok r F0 K0 h ts R Hts HK) as (r1 & h1 & c1 & ts1 & -> & F & K & t & -> & -> & H & Hts1 & Hpl & He & HKa & Hstop).
    bnd. destruct (remove_child_ok _ _ _ _ H) as (new & n' & -> & Hnew & Hm & Hl). bnd.
    pose proof (cut_ok _ _ _ _ _ _ H He Hnew Hm Hl) as R2. set (m2 := <[new := n']> _) in *.
    assert (Hag : forall p, p ∈ kptrs K -> m2 !! p = mem r1 !! p).
    { intros p Hp. pose proof (hole_nodup _ _ _ H) as [_ Hnd]%NoDup_cons. cbn [kptrs] in Hnd. apply NoDup_cons in Hnd as [HF Hnd].
      pose proof (hole_dom _ _ _ H) as Hd. cbn [kptrs] in Hd. unfold m2. rewrite lookup_insert_ne, lookup_delete_ne; [done| |]; intros <-.
      - apply HF. elts. auto.
      - destruct Hnew as [->|Hnew]; [apply HF; elts; auto|]. apply Hnew. rewrite Hd. apply elem_of_list_to_set. elts. auto. }
    assert (Hlink : (if bool_decide (new = f_ptr F) then Some (set_mem m2 r1)
       else match raxStackPeek ts1 with
            | None => Some (set_head new (set_mem m2 r1))
            | Some parent => l ← raxFindParentLink parent (f_ptr F) (mem (set_mem m2 r1)); write_link l new (set_mem m2 r1)
            end) = Some (upd_link (link_of K) new (set_mem m2 r1))).
    { case_bool_decide as E.
      - subst new. f_equal. symmetry. apply (ctx_link_same max_size r1 K (fill F t)); [by apply hole_outer|done|done].
      - unfold raxStackPeek. rewrite Hts1. destruct K as [|G K]; cbn [map]; [done|].
        pose proof (hole_outer _ _ _ _ H) as Hctx. pose proof Hctx as (_ & ((n & Hn & Hmn) & _) & _). cbn [t_ptr fill] in Hn.
        pose proof (hole_nodup _ _ _ H) as [_ Hnd]%NoDup_cons. cbn [kptrs] in Hnd. apply NoDup_cons in Hnd as [HF Hnd].
        cbn [mem set_mem]. change (f_ptr F) with (t_ptr (fill F t)). rewrite (find_parent_ok m2 G K (fill F t) n); [|rewrite Hag by (cbn; elts; auto); done|done|].
        + bnd. by apply (ctx_write_link max_size r1 (G :: K) (fill F t)).
        + cbn [t_ptr fill]. intros Hin. apply HF. rewrite elem_of_app. auto. }
    rewrite Hlink. bnd.
    pose proof (rep_focus _ _ _ _ _ _ _ R2) as (n & Hn & Hmn & _ & _ & _ & [[_ (cs & Hcs & _)] _]%wf_eq & _). rewrite Hn. bnd.
    assert (Hal : alive (plug K (TNode new (f_key F) false (f_left F ++ f_right F)))).
    { destruct HKa as (HF & HFs & HKa). apply alive_plug; [by destruct (live_cut F K t new Hstop); auto|]. split.
      - apply alive_eq. unfold alive_node in HF. cbn [fill t_edges] in HF. rewrite Forall_esubs in HFs. rewrite !Forall_app, Forall_cons in *. naive_solver.
      - eapply kall_alive; [|exact HKa]. left. eauto. }
    assert (Hent : entries (plug K (TNode new (f_key F) false (f_left F ++ f_right F))) = entries (plug (F0 :: K0) (TNode h None false []))).
    { rewrite <- Hpl. cbn [plug]. unfold fill. rewrite !entries_plug, !entries_eq, !eentries_app, eentries_cons. cbn [fst snd]. by rewrite He. }
    destruct (_ && _) eqn:E; (eexists _, _, _, _; split; [done|]; exists K, new, (f_key F), (f_left F ++ f_right F); split_and!; try done).
    intros _. apply andb_prop in E as [E1 E2]. pose proof Hmn as (Hk & _ & Hd & _). rewrite (iskey_ok _ _ Hk) in E2.
    split_and!; [done|by destruct (f_key F)|]. unfold size, zlen in E1. rewrite Hd, Hcs, concat_singles in E1.
    apply (f_equal length) in Hcs. rewrite !length_map in Hcs. lia.
Qed.

(** *** Merging a chain of nodes *)

(** A chain of nodes that are not keys and have one edge. *)
Abbreviation chain := (list (ptr * bool * bytes)).
Fixpoint unchain (cs : chain) (u : tree) : tree :=
  match cs with [] => u | (p, c, l) :: cs => TNode p None c [(l, unchain cs u)] end.
Definition labels (cs : chain) : bytes := concat (map snd cs).
Lemma labels_cons p c l (cs : chain) : labels ((p, c, l) :: cs) = l ++ labels cs.
Proof. done. Qed.
Definition cptrs (cs : chain) : list ptr := map (fun x => x.1.1) cs.

Definition chain_end (u : tree) : Prop := match u with TNode _ k _ es => is_Some k \/ length es <> 1%nat end.

Lemma chain_down t : exists cs u, t = unchain cs u /\ chain_end u.
Proof.
  induction t as [p k c es IH] using tree_nested_ind.
  assert (Hend : chain_end (TNode p k c es) -> exists cs u, TNode p k c es = unchain cs u /\ chain_end u) by (by exists [], (TNode p k c es)).
  destruct k as [d|]; [apply Hend; left; eauto|].
  destruct es as [|[l t] [|e es]]; [apply Hend; right; done| |apply Hend; right; cbn; lia].
  apply Forall_cons in IH as [(cs & u & Ht & Hu) _]. cbn in Ht. exists ((p, c, l) :: cs), u. cbn. by rewrite Ht.
Qed.

Lemma ptrs_unchain cs u : ptrs (unchain cs u) = cptrs cs ++ ptrs u.
Proof. induction cs as [|[[p c] l] cs IH]; [done|]. cbn [unchain]. rewrite ptrs_one, IH. done. Qed.

Lemma entries_unchain cs u : entries (unchain cs u) = map (prep (labels cs)) (entries u).
Proof.
  induction cs as [|[[p c] l] cs IH]; [by rewrite map_prep_nil|]. cbn [unchain]. rewrite entries_one, IH, map_prep_prep. done.
Qed.

Lemma Forall_unchain (P : tree -> Prop) cs u : Forall P (subs (unchain cs u)) -> Forall P (subs u).
Proof. induction cs as [|[[p c] l] cs IH]; [done|]. cbn [unchain]. rewrite subs_one, Forall_cons. intros [_ ?]. auto. Qed.

(** A node of a chain in the store. *)
Lemma chain_node (m : gmap ptr (raxNode V)) p c l t : Forall (node_ok m) (subs (TNode p None c [(l, t)])) -> wf (TNode p None c [(l, t)]) ->
  exists n, m !! p = Some n /\ data n = l /\ size n = zlen l /\ 0 < zlen l /\ last_child n = Some (t_ptr t) /\ ends_chain n = false.
Proof.
  rewrite subs_one, Forall_cons. intros [(n & Hn & Hm) _] [Hl _]%wf_eq. exists n.
  pose proof (ends_chain_ok _ _ _ _ _ Hm Hl) as He. pose proof Hm as (_ & _ & Hd & _). cbn in Hd. rewrite app_nil_r in Hd.
  split_and!; try done; [unfold size; by rewrite Hd| |by eapply last_child_one].
  apply wf_labels_nonempty, Forall_cons in Hl as [Hl _]. destruct l; [done|]. rewrite zlen_cons. pose proof (zlen_nonneg l). lia.
Qed.

Lemma end_node (m : gmap ptr (raxNode V)) u : Forall (node_ok m) (subs u) -> wf u -> chain_end u -> exists n, m !! t_ptr u = Some n /\ ends_chain n = true.
Proof.
  destruct u as [p k c es]. rewrite subs_eq, Forall_cons. intros [(n & Hn & Hm) _] [Hl _]%wf_eq He. exists n. split; [done|].
  rewrite (ends_chain_ok _ _ _ _ _ Hm Hl). destruct k as [d|]; [done|]. destruct He as [[? ?]|He]; [done|].
  by destruct (Nat.eqb_spec (length es) 1).
Qed.

Lemma wf_one p (k : option (option V)) c l t : wf (TNode p k c [(l, t)]) -> wf t.
Proof. intros [_ H]%wf_eq. by apply Forall_cons in H as [? _]. Qed.

(** The scan counts the nodes of the chain up to the limit. *)
Lemma chain_scan_prefix (m : gmap ptr (raxNode V)) : forall cs p c l u fuel comprsize nodes,
  Forall (node_ok m) (subs (unchain ((p, c, l) :: cs) u)) -> wf (unchain ((p, c, l) :: cs) u) -> chain_end u ->
  (length cs < fuel)%nat ->
  exists cs1 cs2, cs = cs1 ++ cs2 /\
    chain_scan max_size fuel m p comprsize nodes = Some (comprsize + zlen (labels cs1), nodes + zlen cs1) /\
    (cs1 <> [] -> comprsize + zlen (labels cs1) <= max_size) /\
    match cs2 with [] => True | x :: _ => max_size < comprsize + zlen (labels cs1) + zlen x.2 end.
Proof.
  induction cs as [|[[q c'] l'] cs IH]; intros p c l u fuel comprsize nodes Hn Hw Hu Hf; (destruct fuel as [|fuel]; [cbn in Hf; lia|]);
    cbn [chain_scan unchain] in *; destruct (chain_node m p c l _ Hn Hw) as (n & -> & Hd & Hsz & Hpos & Hlast & _); bnd;
    rewrite Hsz; replace (zlen l =? 0) with false by lia; rewrite Hlast; bnd;
    rewrite subs_one, Forall_cons in Hn; destruct Hn as [_ Hn]; apply wf_one in Hw.
  - destruct (end_node m u Hn Hw Hu) as (n' & -> & He). bnd. rewrite He. exists [], []. unfold labels. cbn. by rewrite !Z.add_0_r.
  - cbn [t_ptr]. destruct (chain_node m q c' l' _ Hn Hw) as (n' & -> & Hd' & Hsz' & Hpos' & Hlast' & He). bnd. rewrite He, Hsz'.
    destruct (max_size <? comprsize + zlen l') eqn:Em; bool_hyps.
    + exists [], ((q, c', l') :: cs). change (labels []) with (@nil Z). rewrite !zlen_nil, !Z.add_0_r. split_and!; done.
    + destruct (IH q c' l' u fuel (comprsize + zlen l') (nodes + 1) Hn Hw Hu) as (cs1 & cs2 & -> & -> & H1 & H2); [cbn in Hf; lia|].
      exists ((q, c', l') :: cs1), cs2. rewrite labels_cons, zlen_app.
      split_and!; [done|rewrite zlen_cons; do 2 f_equal; lia| |destruct cs2; [done|lia]].
      intros _. destruct cs1 as [|x cs1]; [change (labels []) with (@nil Z); rewrite zlen_nil; lia|]. specialize (H1 ltac:(done)). lia.
Qed.

Lemma stn_mid a b c (l : bytes) : zlen l = zlen b -> stn (a ++ b ++ c) (zlen a) l = Some (a ++ l ++ c).
Proof. intros H. by apply (stn_at _ a b c l (zlen a)). Qed.

Lemma chain_fill_ok : forall cs p c l u fuel r pre suf,
  Forall (node_ok (mem r)) (subs (unchain ((p, c, l) :: cs) u)) -> wf (unchain ((p, c, l) :: cs) u) -> chain_end u ->
  NoDup (ptrs (unchain ((p, c, l) :: cs) u)) -> (length cs < fuel)%nat -> zlen suf = zlen (l ++ labels cs) ->
  exists m, chain_fill fuel r p (pre ++ suf) (zlen pre) =
      Some (mkRax m (head r) (numele r) (u64 (numnodes r - zlen ((p, c, l) :: cs))), t_ptr u, pre ++ l ++ labels cs) /\
    (forall q, q ∉ cptrs ((p, c, l) :: cs) -> m !! q = mem r !! q) /\ dom m = dom (mem r) ∖ list_to_set (cptrs ((p, c, l) :: cs)).
Proof.
  induction cs as [|[[q c'] l'] cs IH]; intros p c l u fuel r pre suf Hn Hw Hu Hnd Hf Hsuf; (destruct fuel as [|fuel]; [cbn in Hf; lia|]);
    cbn [chain_fill unchain] in *; destruct (chain_node _ p c l _ Hn Hw) as (n & Hnp & Hd & Hsz & Hpos & Hlast & _); rewrite Hnp; bnd;
    rewrite Hsz, Hd; replace (zlen l =? 0) with false by lia;
    rewrite subs_one, Forall_cons in Hn; destruct Hn as [_ Hn]; apply wf_one in Hw; rewrite ptrs_one in Hnd; apply NoDup_cons in Hnd as [Hp Hnd].
  - unfold labels in *. cbn [map concat] in *. rewrite app_nil_r in *.
    rewrite <- (app_nil_r suf), (stn_mid pre suf [] l) by done. bnd. rewrite Hlast. bnd. unfold rax_free. rewrite Hnp. bnd.
    cbn [mem set_mem add_numnodes].
    destruct (end_node (delete p (mem r)) u) as (n' & -> & He); [|done|done|].
    { eapply nodes_agree; [|exact Hn]. intros q Hq. apply lookup_delete_ne. intros ->. done. }
    bnd. rewrite He. eexists. split; [by rewrite app_nil_r|]. cbn. split.
    + intros q Hq. apply lookup_delete_ne. set_solver.
    + rewrite dom_delete_L. set_solver.
  - destruct (split_at suf (zlen l)) as (s1 & s2 & -> & Hs1).
    { rewrite zlen_app in Hsuf. pose proof (zlen_nonneg (labels ((q, c', l') :: cs))). lia. }
    rewrite (stn_mid pre s1 s2 l) by done. bnd. rewrite Hlast. bnd. unfold rax_free. rewrite Hnp. bnd. cbn [t_ptr].
    set (r1 := add_numnodes (-1) (set_mem (delete p (mem r)) r)).
    assert (Hn1 : Forall (node_ok (mem r1)) (subs (unchain ((q, c', l') :: cs) u))).
    { eapply nodes_agree; [|exact Hn]. intros x Hx. apply lookup_delete_ne. intros ->. done. }
    destruct (chain_node (mem r1) q c' l' _ Hn1 Hw) as (n' & -> & _ & _ & _ & _ & He). bnd. rewrite He.
    destruct (IH q c' l' u fuel r1 (pre ++ l) s2) as (m & Hm & Hag & Hdm); try done; [cbn in Hf; lia| |].
    { rewrite !zlen_app in Hsuf. rewrite zlen_app. unfold labels in Hsuf. cbn in Hsuf. rewrite zlen_app in Hsuf. fold (labels cs) in Hsuf. lia. }
    exists m. split_and!.
    + rewrite <- app_assoc, zlen_app in Hm. rewrite Hm. unfold r1. cbn [head numele numnodes add_numnodes set_mem].
      rewrite <- app_assoc. unfold labels. cbn [map concat snd]. do 3 f_equal. f_equal.
      replace (u64 (numnodes r + -1) - zlen ((q, c', l') :: cs)) with (u64 (numnodes r + -1) + - zlen ((q, c', l') :: cs)) by lia.
      rewrite u64_add. f_equal. rewrite !zlen_cons. lia.
    + intros x Hx. cbn [cptrs map fst] in Hx. apply not_elem_of_cons in Hx as [Hx1 Hx2]. rewrite Hag by done. unfold r1. cbn. by apply lookup_delete_ne.
    + rewrite Hdm. unfold r1. cbn [mem add_numnodes set_mem]. rewrite dom_delete_L. cbn [cptrs map list_to_set fst]. set_solver.
Qed.

(** The copy needs room for the whole chain. *)
Lemma chain_fill_overrun : forall cs p c l u fuel r pre suf,
  Forall (node_ok (mem r)) (subs (unchain ((p, c, l) :: cs) u)) -> wf (unchain ((p, c, l) :: cs) u) -> chain_end u ->
  NoDup (ptrs (unchain ((p, c, l) :: cs) u)) -> zlen suf < zlen (l ++ labels cs) ->
  chain_fill fuel r p (pre ++ suf) (zlen pre) = None.
Proof.
  induction cs as [|[[q c'] l'] cs IH]; intros p c l u fuel r pre suf Hn Hw Hu Hnd Hsuf; (destruct fuel as [|fuel]; [done|]);
    cbn [chain_fill unchain] in *; destruct (chain_node _ p c l _ Hn Hw) as (n & Hnp & Hd & Hsz & Hpos & Hlast & _); rewrite Hnp; bnd;
    rewrite Hsz, Hd; replace (zlen l =? 0) with false by lia;
    (destruct (Z.lt_ge_cases (zlen suf) (zlen l)) as [Hlt|Hge];
      [assert (stn (pre ++ suf) (zlen pre) l = None) as ->; [|done]; unfold stn; rewrite zlen_app; pose proof (zlen_nonneg pre); case_if E; [lia|done]|]).
  - unfold labels in Hsuf. cbn [map concat] in Hsuf. rewrite app_nil_r in Hsuf. lia.
  - rewrite subs_one, Forall_cons in Hn; destruct Hn as [_ Hn]; apply wf_one in Hw; rewrite ptrs_one in Hnd; apply NoDup_cons in Hnd as [Hp Hnd].
    destruct (split_at suf (zlen l)) as (s1 & s2 & -> & Hs1); [lia|].
    rewrite (stn_mid pre s1 s2 l) by done. bnd. rewrite Hlast. bnd. unfold rax_free. rewrite Hnp. bnd. cbn [t_ptr].
    set (r1 := add_numnodes (-1) (set_mem (delete p (mem r)) r)).
    assert (Hn1 : Forall (node_ok (mem r1)) (subs (unchain ((q, c', l') :: cs) u))).
    { eapply nodes_agree; [|exact Hn]. intros x Hx. apply lookup_delete_ne. intros ->. done. }
    destruct (chain_node (mem r1) q c' l' _ Hn1 Hw) as (n' & -> & _ & _ & _ & _ & He). bnd. rewrite He.
    pose proof (IH q c' l' u fuel r1 (pre ++ l) s2 Hn1 Hw Hu Hnd) as Hih. rewrite (zlen_app pre l), <- app_assoc in Hih. apply Hih.
    rewrite !zlen_app, labels_cons, zlen_app in Hsuf. rewrite zlen_app. lia.
Qed.

(** The context of a chain begins at the head of the tree or at a node that is
    not part of it. *)
Definition chain_top (K : list frame) : Prop := match K with [] => True | F :: _ => ~ chain_frame F end.

#[local] Instance chain_frame_dec F : Decision (chain_frame F).
Proof.
  unfold chain_frame. destruct (f_key F), (f_left F), (f_right F); (right; by intros (? & ? & ?)) || by left.
Defined.

Lemma chain_split (K : list frame) : exists K2 K1, K = K2 ++ K1 /\ Forall chain_frame K2 /\ chain_top K1.
Proof.
  induction K as [|F K (K2 & K1 & -> & H2 & H1)]; [by exists [], []|].
  destruct (decide (chain_frame F)); [exists (F :: K2), K1; by split_and!; [|constructor|]|by exists [], (F :: K2 ++ K1)].
Qed.

Lemma chain_up_ok (m : gmap ptr (raxNode V)) K1 : forall K2 t fuel ts, kall (node_ok m) (K2 ++ K1) t -> kall wf_node (K2 ++ K1) t ->
  items ts = map f_ptr (K2 ++ K1) -> (length (K2 ++ K1) < fuel)%nat -> Forall chain_frame K2 -> chain_top K1 ->
  chain_up fuel m (t_ptr t) ts = Some (t_ptr (plug K2 t), match K1 with [] => None | F :: _ => Some (f_ptr F) end).
Proof.
  induction K2 as [|F K IH]; intros t fuel ts Hn Hw Hts Hf HK Htop; (destruct fuel as [|fuel]; [cbn in Hf; lia|]);
    cbn [chain_up app] in *; unfold raxStackPop; rewrite Hts.
  - destruct K1 as [|F K1]; cbn [map]; [done|]. destruct Hn as ((n & Hfn & Hm) & _). destruct Hw as (Hwn & _). cbn in Hfn. rewrite Hfn. bnd.
    destruct (ends_chain_frame n F t Hm Hwn) as [[_ HF]|[-> _]]; [by destruct Htop|done].
  - cbn [map]. apply Forall_cons in HK as [HF HK]. destruct Hn as ((n & Hfn & Hm) & _ & Hn). destruct Hw as (Hwn & _ & Hw). cbn in Hfn. rewrite Hfn. bnd.
    assert (ends_chain n = false) as ->.
    { destruct (ends_chain_frame n F t Hm Hwn) as [[-> _]|[_ H]]; [done|]. destruct HF as (H1 & H2 & H3). cbn [fill t_edges] in H.
      rewrite H2, H3 in H. cbn in H. destruct H; [done|lia]. }
    apply (IH (fill F t)); try done. cbn in Hf. lia.
Qed.

(** The tree above is one edge without a key. *)
Definition chain_start (t : tree) : Prop := match t with TNode _ k _ es => k = None /\ length es = 1%nat end.

Lemma chain_start_plug (K : list frame) t : Forall chain_frame K -> chain_start t -> chain_start (plug K t).
Proof.
  revert t. induction K as [|F K IH]; intros t H Ht; [done|]. apply Forall_cons in H as [(H1 & H2 & H3) H]. cbn. apply IH; [done|].
  cbn. by rewrite H1, H2, H3.
Qed.

Lemma alive_entries (t : tree) : alive t -> live t -> exists x, x ∈ entries t.
Proof.
  induction t as [p k c es IH] using tree_nested_ind. intros [Hl Ha]%alive_eq Hlv. rewrite entries_eq.
  destruct k as [d|]; [exists ([], d); cbn; rewrite elem_of_cons; auto|]. destruct Hlv as [[? ?]|Hlv]; [done|].
  destruct es as [|[l t] es]; [done|]. apply Forall_cons in Hl as [Hl _], Ha as [Ha _], IH as [IH _].
  destruct (IH Ha Hl) as ([s d] & Hs). exists (l ++ s, d). cbn [own app]. rewrite eentries_cons, elem_of_app, elem_of_prep. left. eauto.
Qed.

Lemma size_ptrs (r : rax V) t : rep r t -> base.size (mem r) = length (ptrs t).
Proof.
  intros R. rewrite <- (size_dom (D:=gset ptr) (mem r)), (rep_dom _ _ _ R). apply size_list_to_set, R.
Qed.

Lemma length_kptrs (K : list frame) : (length K <= length (kptrs K))%nat.
Proof. induction K as [|F K IH]; [done|]. cbn. rewrite length_app. lia. Qed.

Lemma alive_unchain cs u : alive (unchain cs u) -> alive u /\ (cs = [] \/ live u).
Proof.
  induction cs as [|[[p c] l] cs IH]; [auto|]. cbn [unchain]. intros [Hl Ha]%alive_eq.
  apply Forall_cons in Hl as [Hl _], Ha as [Ha _]. cbn in Hl, Ha. destruct (IH Ha) as [H1 [->|H2]]; split; auto.
Qed.

Lemma alive_merge K cs u new : cs <> [] -> alive (plug K (unchain cs u)) -> alive (plug K (TNode new None true [(labels cs, u)])).
Proof.
  intros Hcs (Ha & HK & _)%alive_plug_inv. destruct (alive_unchain _ _ Ha) as [Hu [?|Hl]]; [done|].
  apply alive_plug; [left; by right|]. split; [|done]. apply alive_eq. split; by constructor.
Qed.

Lemma unchain_bytes cs u : wf (unchain cs u) -> Forall is_byte (labels cs).
Proof.
  induction cs as [|[[p c] l] cs IH]; [by constructor|]. cbn [unchain]. intros Hw. pose proof (wf_one _ _ _ _ _ Hw) as Hw'.
  apply wf_eq in Hw as [[Hb _] _]. apply Forall_cons in Hb as [Hb _]. unfold labels. cbn [map concat snd]. apply Forall_app. split; [done|]. by apply IH.
Qed.

(** The node that replaces a chain of at least two nodes. *)
Lemma wf_merge new p c l cs u : cs <> [] -> zlen (labels ((p, c, l) :: cs)) <= max_size -> wf (unchain ((p, c, l) :: cs) u) ->
  wf (TNode new None true [(labels ((p, c, l) :: cs), u)]).
Proof.
  intros Hcs Hmax Hw. apply wf_eq. split; [|constructor; [exact (Forall_unchain _ _ _ Hw)|done]].
  split; [constructor; [by apply (unchain_bytes _ u)|done]|]. exists (labels ((p, c, l) :: cs)). split_and!; [done| |done].
  destruct cs as [|[[q c2] l2] cs]; [done|]. cbn [unchain] in Hw. pose proof (wf_one _ _ _ _ _ Hw) as Hw2.
  apply wf_eq in Hw as [[Hl _]%wf_labels_nonempty%Forall_cons _], Hw2 as [[Hl2 _]%wf_labels_nonempty%Forall_cons _].
  unfold labels. cbn [map concat snd fst] in *. rewrite !length_app. destruct l, l2; cbn; try done; lia.
Qed.

Lemma dom_merge (new : ptr) (C U K : gset ptr) : new ∉ C -> C ## U ∪ K -> {[new]} ∪ ({[new]} ∪ (C ∪ (U ∪ K))) ∖ C = {[new]} ∪ U ∪ K.
Proof. intros H1 H2. apply set_eq. intros x. set_solver. Qed.

(** The copy of a chain into a new node with room for some characters. *)
Definition copy_chain (r : rax V) (p : ptr) (room : Z) : option (rax V * ptr * bytes) :=
  chain_fill (S (base.size (mem r))) (add_numnodes 1 (set_mem (rax_malloc A (blank (node_length false false true room)) (mem r)).2 r))
    p (replicate (Z.to_nat room) junk) 0.

(** The scan measures fewer characters than the copy writes: the copy fails in
    a block of the size measured, and goes through in a block with room for
    the whole chain. *)
Definition copy_overruns (r : rax V) (C : chain) (u : tree) : Prop :=
  match C with
  | [] => False
  | (p, _, l) :: _ => exists comprsize nodes,
      chain_scan max_size (S (base.size (mem r))) (mem r) p (zlen l) 1 = Some (comprsize, nodes) /\
      1 < nodes /\ comprsize <= max_size < zlen (labels C) /\
      copy_chain r p comprsize = None /\
      exists r', copy_chain r p (zlen (labels C)) = Some (r', t_ptr u, labels C)
  end.

Section chains.
Context (r : rax V) (K1 : list frame) (p : ptr) (c : bool) (l : bytes) (cs : chain) (u : tree).
Let C : chain := (p, c, l) :: cs.
Context (R : rep r (plug K1 (unchain C u))) (Hu : chain_end u).

Lemma chain_facts : Forall (node_ok (mem r)) (subs (unchain C u)) /\ wf (unchain C u) /\
  NoDup (cptrs C ++ ptrs u ++ kptrs K1) /\ dom (mem r) = list_to_set (cptrs C ++ ptrs u ++ kptrs K1) /\
  (length C < S (base.size (mem r)))%nat.
Proof.
  pose proof (rep_nodes _ _ _ R) as [Hn _]%Forall_plug. pose proof (rep_wf _ _ _ R) as [Hw _]%wf_plug.
  pose proof (ptrs_plug K1 (unchain C u)) as Hp. rewrite ptrs_unchain, <- app_assoc in Hp. split_and!; [done|done| | |].
  - rewrite <- Hp. apply R.
  - rewrite (rep_dom _ _ _ R). by apply list_to_set_perm_L.
  - rewrite (size_ptrs _ _ R), Hp, !length_app. unfold cptrs. rewrite length_map. lia.
Qed.

(** The nodes of the chain after the new node was allocated. *)
Lemma chain_malloc nd : let r1 := add_numnodes 1 (set_mem (rax_malloc A nd (mem r)).2 r) in
  Forall (node_ok (mem r1)) (subs (unchain C u)) /\ NoDup (ptrs (unchain C u)).
Proof.
  destruct chain_facts as (Hn & _ & Hnd & Hd & _). rewrite app_assoc in Hnd. split.
  - eapply nodes_agree; [|exact Hn]. intros q Hq. cbn. apply lookup_insert_ne. intros Hx.
    apply (new_block_unused A (mem r) (alloc nd)). rewrite Hx, Hd. apply elem_of_list_to_set.
    change (map t_ptr _) with (ptrs (unchain C u)) in Hq. rewrite ptrs_unchain in Hq. elts. tauto.
  - rewrite ptrs_unchain. by apply NoDup_app in Hnd as (? & _).
Qed.

Lemma copy_chain_ok : exists m, copy_chain r p (zlen (labels C)) =
    Some (mkRax m (head r) (numele r) (u64 (u64 (numnodes r + 1) - zlen C)), t_ptr u, labels C) /\
  (forall q, q ∉ cptrs C -> m !! q = (rax_malloc A (blank (node_length false false true (zlen (labels C)))) (mem r)).2 !! q) /\
  dom m = dom (rax_malloc A (blank (V:=V) (node_length false false true (zlen (labels C)))) (mem r)).2 ∖ list_to_set (cptrs C).
Proof.
  destruct chain_facts as (_ & Hw & _ & _ & Hlen). set (nd := blank _). destruct (chain_malloc nd) as [Hn Hnd].
  destruct (chain_fill_ok cs p c l u (S (base.size (mem r))) (add_numnodes 1 (set_mem (rax_malloc A nd (mem r)).2 r)) []
    (replicate (Z.to_nat (zlen (labels C))) junk) Hn Hw Hu Hnd) as (m & Hfill & Hag & Hdm); [cbn in Hlen; lia| |].
  - unfold zlen at 1. rewrite length_replicate. unfold C, labels. cbn [map concat snd]. pose proof (zlen_nonneg (l ++ concat (map snd cs))). lia.
  - exists m. cbn [app] in Hfill. change (zlen (@nil Z)) with 0 in Hfill. split_and!; [exact Hfill|exact Hag|exact Hdm].
Qed.

Lemma copy_chain_overrun room : 0 <= room < zlen (labels C) -> copy_chain r p room = None.
Proof.
  intros Hroom. destruct chain_facts as (_ & Hw & _). set (nd := blank (V:=V) (node_length false false true room)).
  destruct (chain_malloc nd) as [Hn Hnd].
  refine (chain_fill_overrun cs p c l u (S (base.size (mem r))) (add_numnodes 1 (set_mem (rax_malloc A nd (mem r)).2 r)) []
    (replicate (Z.to_nat room) junk) Hn Hw Hu Hnd _).
  unfold zlen at 1. rewrite length_replicate. change (l ++ labels cs) with (labels C). lia.
Qed.

(** Recompression from a node of the chain. *)
Context (K2 : list frame) (t : tree) (ts : raxStack).
Context (Ht : plug K2 t = unchain C u) (Hts : items ts = map f_ptr (K2 ++ K1)) (HK2 : Forall chain_frame K2) (Htop : chain_top K1).

Lemma recompress_unfold : recompress junk A max_size r (t_ptr t) ts =
  ('(comprsize, nodes) ← chain_scan max_size (S (base.size (mem r))) (mem r) p (zlen l) 1;
   if 1 <? nodes then
     '(r1, h, chars) ← copy_chain r p comprsize;
     n ← mem r1 !! (rax_malloc A (blank (node_length false false true comprsize)) (mem r)).1;
     m ← put (rax_malloc A (blank (node_length false false true comprsize)) (mem r)).1
           (mkNode false false true chars [Some h] None (alloc n)) (mem r1);
     match match K1 with [] => None | F :: _ => Some (f_ptr F) end with
     | Some q => k ← raxFindParentLink q p (mem (set_mem m r1));
                 write_link k (rax_malloc A (blank (node_length false false true comprsize)) (mem r)).1 (set_mem m r1)
     | None => Some (set_head (rax_malloc A (blank (node_length false false true comprsize)) (mem r)).1 (set_mem m r1))
     end
   else Some r).
Proof.
  assert (R' : rep r (plug (K2 ++ K1) t)) by (by rewrite plug_app, Ht).
  pose proof (rep_nodes _ _ _ R') as [_ HKn]%Forall_plug. pose proof (rep_wf _ _ _ R') as [_ HKw]%wf_plug.
  unfold recompress. rewrite (chain_up_ok (mem r) K1 K2 t _ ts HKn HKw Hts); [|rewrite (size_ptrs _ _ R'), (ptrs_plug (K2 ++ K1) t), (length_app (ptrs t)); pose proof (length_kptrs (K2 ++ K1)); lia|done|done].
  bnd. rewrite Ht. change (t_ptr (unchain C u)) with p. destruct chain_facts as (Hn & Hw & _).
  destruct (chain_node (mem r) p c l _ Hn Hw) as (n & Hnp & Hdn & Hsn & _). rewrite Hnp. bnd. rewrite Hsn.
  destruct (chain_scan _ _ _ _ _ _) as [[comprsize nodes]|]; [|done]. bnd. destruct (1 <? nodes); done.
Qed.

Lemma recompress_stops x cs' : cs = x :: cs' -> max_size < zlen l + zlen x.2 -> recompress junk A max_size r (t_ptr t) ts = Some r.
Proof.
  intros Hcs Hx. rewrite recompress_unfold. destruct chain_facts as (Hn & Hw & _). unfold C in Hn, Hw. rewrite Hcs in Hn, Hw. destruct x as [[q c'] l'].
  cbn [unchain] in Hn, Hw. destruct (chain_node (mem r) p c l _ Hn Hw) as (n & Hnp & _ & Hsn & Hpos & Hlast & _).
  cbn [chain_scan]. rewrite Hnp. bnd. rewrite Hsn. replace (zlen l =? 0) with false by lia. rewrite Hlast. bnd. cbn [t_ptr].
  rewrite subs_one, Forall_cons in Hn. destruct Hn as [_ Hn]. apply wf_one in Hw.
  destruct (chain_node (mem r) q c' l' _ Hn Hw) as (n' & -> & _ & Hsn' & _ & _ & He). bnd. rewrite He, Hsn'. cbn [snd] in Hx.
  replace (max_size <? zlen l + zlen l') with true by lia. bnd. done.
Qed.

Lemma recompress_overruns x cs' : cs = x :: cs' -> zlen l + zlen x.2 <= max_size < zlen (labels C) ->
  copy_overruns r C u /\ recompress junk A max_size r (t_ptr t) ts = None.
Proof.
  intros Hcs Hx. rewrite recompress_unfold. destruct chain_facts as (Hn & Hw & _ & _ & Hlen).
  destruct (chain_scan_prefix (mem r) cs p c l u (S (base.size (mem r))) (zlen l) 1 Hn Hw Hu) as (cs1 & cs2 & Hsp & Hscan & H1 & H2); [cbn in Hlen; lia|].
  assert (cs1 <> []) as Hne.
  { intros ->. cbn [app] in Hsp. subst cs2. rewrite Hcs in H2. change (labels []) with (@nil Z) in H2. rewrite zlen_nil in H2. lia. }
  assert (1 < 1 + zlen cs1) as Hnodes by (destruct cs1; [done|]; rewrite zlen_cons; pose proof (zlen_nonneg cs1); lia).
  specialize (H1 Hne). pose proof (zlen_nonneg l). pose proof (zlen_nonneg (labels cs1)).
  assert (copy_chain r p (zlen l + zlen (labels cs1)) = None) as Hover by (apply copy_chain_overrun; lia).
  split.
  - exists (zlen l + zlen (labels cs1)), (1 + zlen cs1). split_and!; [exact Hscan|done|lia|lia|done|].
    destruct copy_chain_ok as (m & Hm & _). eauto.
  - rewrite Hscan. bnd. replace (1 <? 1 + zlen cs1) with true by lia. by rewrite Hover.
Qed.

Lemma recompress_merges : zlen (labels C) <= max_size -> alive (plug K1 (unchain C u)) ->
  exists r' T, recompress junk A max_size r (t_ptr t) ts = Some r' /\ rep r' T /\ alive T /\ entries T = entries (plug K1 (unchain C u)).
Proof.
  intros Hbound Hal. rewrite recompress_unfold. destruct chain_facts as (Hn & Hw & Hnd & Hd & Hlen). pose proof (rep_ctx _ _ _ _ R) as Hctx.
  destruct (chain_scan_prefix (mem r) cs p c l u (S (base.size (mem r))) (zlen l) 1 Hn Hw Hu) as (cs1 & cs2 & Hsp & -> & H1 & H2); [cbn in Hlen; lia|]. bnd.
  assert (Hlab : zlen l + zlen (labels cs) = zlen (labels C)) by (unfold C, labels; cbn [map concat snd]; by rewrite zlen_app).
  assert (cs2 = []) as ->.
  { destruct cs2 as [|x cs2]; [done|]. exfalso. rewrite Hsp in Hlab. unfold labels in *. rewrite map_app, concat_app, zlen_app in Hlab.
    cbn [map concat] in Hlab. rewrite zlen_app in Hlab. pose proof (zlen_nonneg (concat (map snd cs2))). lia. }
  rewrite app_nil_r in Hsp. subst cs1. clear H1 H2. rewrite Hlab.
  destruct (1 <? 1 + zlen cs) eqn:E; [|eexists _, (plug K1 (unchain C u)); by split_and!]. bool_hyps.
  destruct copy_chain_ok as (m2 & -> & Hag & Hdm). bnd. cbn [mem].
  destruct (malloc_ok A (blank (node_length false false true (zlen (labels C)))) (mem r)) as (new & Hmal & Hnew).
  rewrite Hmal in *. cbn [fst snd] in *.
  assert (Hnewp : forall q, q ∈ dom (mem r) -> q <> new) by (by intros q Hq ->).
  assert (Hin : forall q, q ∈ cptrs C \/ q ∈ ptrs u \/ q ∈ kptrs K1 -> q ∈ dom (mem r)).
  { intros q Hq. rewrite Hd. apply elem_of_list_to_set. elts. tauto. }
  assert (Hm2n : m2 !! new = Some (blank (node_length false false true (zlen (labels C))))).
  { rewrite Hag by (intros Hc; by apply (Hnewp new); [apply Hin; auto|]). by slook. }
  rewrite Hm2n. bnd. set (x := mkNode _ _ _ _ _ _ _).
  assert (Hx : matches x (TNode new None true [(labels C, u)])).
  { split_and!; try done; [cbn; by rewrite app_nil_r|]. apply Z.leb_refl. }
  rewrite (put_ok _ _ _ _ Hm2n) by (by destruct Hx as (_ & _ & _ & _ & ?)). bnd. unfold set_mem. cbn [mem head numele numnodes].
  set (m3 := <[new := x]> m2). apply NoDup_app in Hnd as (Hnd1 & Hnd2 & Hnd3).
  assert (Hag3 : forall q, q ∈ ptrs u ++ kptrs K1 -> m3 !! q = mem r !! q).
  { intros q Hq. assert (Hqn : q <> new) by (apply Hnewp, Hin; elts; tauto). unfold m3. rewrite lookup_insert_ne by done.
    rewrite Hag by (intros Hc; by apply (Hnd2 q Hc)). by slook. }
  set (r3 := mkRax m3 (head r) (numele r) (u64 (u64 (numnodes r + 1) - zlen C))).
  assert (Hlink : match match K1 with [] => None | F :: _ => Some (f_ptr F) end with
      | Some p0 => l0 ← raxFindParentLink p0 p (mem r3); write_link l0 new r3
      | None => Some (set_head new r3) end = Some (upd_link (link_of K1) new r3)).
  { destruct K1 as [|F K1']; [done|]. pose proof Hctx as (Hh & ((nf & Hnf & Hmf) & Hctx1) & Hctx2). cbn [fill t_ptr] in Hnf.
    change p with (t_ptr (unchain C u)). rewrite (find_parent_ok _ F K1' (unchain C u) nf); [|cbn [mem r3]; rewrite Hag3 by (cbn [kptrs]; rewrite elem_of_app, elem_of_cons; auto); done|done|].
    - bnd. apply (ctx_write_link max_size r (F :: K1') (unchain C u)); [exact Hctx|]. intros q Hq. apply Hag3. elts. auto.
    - intros Hc. apply (Hnd2 p); [cbn; elts; auto|]. rewrite elem_of_app. auto. }
  eexists _, (plug K1 (TNode new None true [(labels C, u)])). split; [exact Hlink|]. split_and!.
  - unfold r3. apply (ctx_relink max_size r K1 (unchain C u) (TNode new None true [(labels C, u)])); try done.
    + rewrite subs_one. constructor; [exists x; split; [cbn; unfold m3; by slook|done]|].
      eapply nodes_agree; [|exact (Forall_unchain _ _ _ Hn)]. intros q Hq. apply Hag3. elts. auto.
    + rewrite ptrs_one. cbn. constructor; [|done]. intros Hc. apply (Hnewp new); [|done]. apply Hin. rewrite elem_of_app in Hc. tauto.
    + apply wf_merge; [|done|done]. intros ->. rewrite zlen_nil in E. lia.
    + intros q Hq. apply Hag3. elts. auto.
    + unfold m3. rewrite dom_insert_L, Hdm, dom_insert_L, Hd, ptrs_one.
      rewrite !list_to_set_app_L. cbn [list_to_set].
      apply dom_merge; [intros Hc%elem_of_list_to_set; apply (Hnewp new); [apply Hin; auto|done]|].
      intros q Hq1%elem_of_list_to_set Hq2. apply (Hnd2 q Hq1). set_solver.
    + rewrite (rep_numnodes _ _ _ R).
      replace (u64 (u64 (zlen (ptrs (plug K1 (unchain C u)))) + 1) - zlen C) with (u64 (u64 (zlen (ptrs (plug K1 (unchain C u)))) + 1) + - zlen C) by lia.
      rewrite u64_add, <- Z.add_assoc, u64_add. f_equal. unfold zlen. rewrite (ptrs_plug K1 (unchain C u)), ptrs_unchain, ptrs_one.
      cbn [app]. rewrite !length_app. cbn [length]. rewrite !length_app. unfold cptrs. rewrite length_map. lia.
    + rewrite (entries_plug K1 (TNode _ _ _ _)), entries_one. cbn [own app]. rewrite <- entries_unchain, <- entries_plug. apply R.
  - by apply alive_merge.
  - rewrite !entries_plug, entries_one, entries_unchain. done.
Qed.
End chains.

(** Recompression keeps the tree, or the copy overruns the new block. *)
Lemma recompress_ok r K t ts : 2 <= max_size -> rep r (plug K t) -> alive (plug K t) -> chain_start t -> items ts = map f_ptr K ->
  (exists r' T, recompress junk A max_size r (t_ptr t) ts = Some r' /\ rep r' T /\ alive T /\ entries T = entries (plug K t)) \/
  (recompress junk A max_size r (t_ptr t) ts = None /\ exists s d, (s, d) ∈ entries (plug K t) /\ max_size < zlen s).
Proof.
  intros Hm2 R Hal Hst Hts. destruct (chain_split K) as (K2 & K1 & -> & HK2 & Htop). rewrite plug_app in *.
  pose proof (chain_start_plug K2 t HK2 Hst) as HT. destruct (chain_down (plug K2 t)) as (C & u & HTe & Hu). rewrite HTe in *.
  destruct C as [|[[p c] l] cs]; [exfalso; destruct u; cbn in *; destruct Hu as [[? ?]|?]; destruct HT; congruence|].
  destruct (Z.le_gt_cases (zlen (labels ((p, c, l) :: cs))) max_size) as [Hle|Hgt].
  { left. by apply (recompress_merges r K1 p c l cs u R Hu K2 t ts HTe Hts HK2 Htop). }
  destruct cs as [|x cs].
  { exfalso. pose proof (rep_wf _ _ _ R) as [Hw _]%wf_plug. cbn [unchain] in Hw. apply wf_eq in Hw as [[_ Hw] _]. unfold labels in Hgt. cbn in Hgt.
    rewrite app_nil_r in Hgt. destruct c; [destruct Hw as (l0 & [= <-] & _ & ?); lia|]. destruct Hw as ([|a [|]] & Hl & _); try done.
    injection Hl as ->. change (zlen [a]) with 1 in Hgt. lia. }
  destruct (Z.le_gt_cases (zlen l + zlen x.2) max_size) as [Hle|Hgt2].
  - right. split; [by eapply recompress_overruns; try done; lia|].
    apply alive_plug_inv in Hal as (Ha & _). destruct (alive_unchain _ _ Ha) as [Hua [?|Hul]]; [done|].
    destruct (alive_entries u Hua Hul) as ([s d] & Hs). exists (path K1 ++ labels ((p, c, l) :: x :: cs) ++ s), d. split.
    + rewrite entries_plug, !elem_of_app, elem_of_prep, entries_unchain. right. left. eexists. split; [done|]. rewrite elem_of_prep. eauto.
    + rewrite !zlen_app. pose proof (zlen_nonneg (path K1)). pose proof (zlen_nonneg s). lia.
  - left. eexists r, _. split; [by eapply recompress_stops|]. done.
Qed.

(** *** Removal from the map *)

Lemma denotes_unkey (K : list frame) p k c es q f : wf (plug K (TNode p k c es)) -> wf (plug K (TNode q None c es)) ->
  denotes (entries (plug K (TNode p k c es))) f -> denotes (entries (plug K (TNode q None c es))) (delete (path K) f).
Proof.
  intros Hw1 Hw2 Hf s d. rewrite (elem_of_key max_size) by done. destruct (decide (s = path K)) as [->|Hs].
  - rewrite lookup_delete_eq. naive_solver.
  - rewrite lookup_delete_ne by done. rewrite (Hf s d), (elem_of_key max_size) by done. naive_solver.
Qed.

Definition bounded (f : gmap bytes (option V)) : Prop := forall s d, f !! s = Some d -> zlen s <= max_size.

Lemma unkey_ok (r : rax V) K h d c es n : rep r (plug K (TNode h (Some d) c es)) -> mem r !! h = Some n ->
  put h (set_iskey false n) (mem r) = Some (<[h := set_iskey false n]> (mem r)) /\
  rep (add_numele (-1) (set_mem (<[h := set_iskey false n]> (mem r)) r)) (plug K (TNode h None c es)).
Proof.
  intros R Hn. pose proof (rep_focus _ _ _ _ _ _ _ R) as (n' & Hn' & Hm & _). rewrite Hn in Hn'. injection Hn' as <-.
  destruct Hm as (Hk & Hc & Hd & Hch & Hf).
  assert (Hf' : fits (set_iskey false n) = true).
  { apply Z.leb_le in Hf. apply Z.leb_le. etrans; [|exact Hf]. unfold raxNodeCurrentLength, size. cbn.
    rewrite (node_length_key (iskey n)), node_length_key. cbn. destruct (_ && _); lia. }
  split; [by apply (put_ok _ _ n)|]. apply (rep_node_in_place max_size r K h (Some d) c es); [done|by split_and!|].
  cbn. rewrite (rep_numele _ _ _ R), u64_add. f_equal. rewrite !zlen_entries_plug, !entries_eq, !zlen_app. unfold zlen. cbn. lia.
Qed.

(** A removal succeeds, or the copy of a chain overruns its block: then a key
    is longer than a node can be. *)
Lemma raxRemove_cases (r : rax V) f s : 2 <= max_size -> rep_map max_size r f ->
  (exists r', raxRemove junk A max_size r s = Some (r', match f !! s with Some _ => 1 | None => 0 end, f !! s) /\
    rep_map max_size r' (delete s f)) \/
  (raxRemove junk A max_size r s = None /\ ~ bounded f).
Proof.
  intros Hm2 (t & R & Hal & Hf). unfold raxRemove.
  destruct (raxLowWalk_ok max_size r s t (Some raxStackInit) R eq_refl) as (w & -> & K & u & Hpl & Hstop & Hlink & Hst & Hstk & Hsome).
  cbn in Hpl. bnd. subst t. destruct (w_stack w) as [ts|]; [|by destruct Hsome as [[? ?] _]; eauto]. bnd. destruct Hstk as (Hts & _).
  apply alive_plug_inv in Hal as (Hu & HK & Hlv). destruct u as [p k c es].
  destruct (rep_focus _ _ _ _ _ _ _ R) as (n & Hn & Hm & _ & _ & _ & Hwn & _). cbn in Hstop. rewrite Hstop, Hn. bnd.
  pose proof Hm as (Hk & Hc & Hd & _). pose proof (fun d => stop_absent max_size _ _ _ _ _ d (rep_wf _ _ _ R) Hst) as Habs.
  destruct (stop_inside_absent _ _ _ _ _ Hst) as [(Hp & -> & ->)|(Hp & Hij)].
  2:{ assert (f !! s = None) as Hs by (apply (denotes_absent _ _ _ Hf); intros d; by apply Habs).
      rewrite Hs, delete_id by done. left. exists r. split; [|by exists (plug K (TNode p k c es)); split_and!; [|apply alive_plug; [tauto|]|]].
      destruct Hij as [Hi|(Hj & _ & _ & l & v & [= _ _ -> _])].
      - by replace (_ =? _)%nat with false by (symmetry; by apply Nat.eqb_neq).
      - rewrite Hc. replace (w_split w =? 0)%nat with false by (symmetry; by apply Nat.eqb_neq). cbn. by rewrite orb_true_r. }
  rewrite Nat.eqb_refl, andb_false_r. cbn [negb orb]. rewrite (iskey_ok _ _ Hk). subst s.
  destruct k as [d|]; cbn [negb].
  2:{ assert (f !! path K = None) as Hs by (apply (denotes_absent _ _ _ Hf); intros d Hd'; by apply (elem_of_path max_size) in Hd'; [|apply R]).
      rewrite Hs, delete_id by done. left. exists r. split; [done|]. exists (plug K (TNode p None c es)). split_and!; try done. apply alive_plug; tauto. }
  assert (f !! path K = Some d) as -> by (apply Hf; by apply (elem_of_path max_size); [apply R|]).
  rewrite (get_data_ok _ _ d Hk) by done. bnd. destruct (unkey_ok _ _ _ _ _ _ n R Hn) as [-> R1]. bnd.
  set (r1 := add_numele (-1) _) in *.
  pose proof (denotes_unkey _ _ _ _ _ _ _ (rep_wf _ _ _ R) (rep_wf _ _ _ R1) Hf) as Hf1.
  assert (Hlong : forall T, entries T = entries (plug K (TNode p None c es)) ->
    (exists s d, (s, d) ∈ entries T /\ max_size < zlen s) -> ~ bounded f).
  { intros T He (s & d' & Hs & Hlt) Hbd. rewrite He in Hs. apply Hf1, lookup_delete_Some in Hs as [_ Hs]. specialize (Hbd _ _ Hs). lia. }
  assert (Hfin : forall r' T, rep r' T -> alive T -> entries T = entries (plug K (TNode p None c es)) -> rep_map max_size r' (delete (path K) f)).
  { intros r' T RT HT He. exists T. split_and!; try done. by rewrite He. }
  assert (Hes : es = [] \/ 0 < size n).
  { destruct es as [|[l u] es]; [by left|right]. apply wf_eq in Hwn as [Hwn _]. apply wf_labels_nonempty, Forall_cons in Hwn as [Hwn _].
    unfold size. rewrite Hd. cbn [map concat]. rewrite zlen_app. cbn [fst] in *. destruct l; [done|]. rewrite zlen_cons.
    pose proof (zlen_nonneg l). pose proof (zlen_nonneg (concat (map fst es))). lia. }
  destruct (size n =? 0) eqn:E; bool_hyps.
  - destruct Hes as [->|]; [|lia]. assert (c = false) as -> by (destruct c; [|done]; by apply wf_eq in Hwn as [[_ (? & ? & _)] _]).
    destruct (remove_leaf_ok r1 K p ts R1 Hts HK) as (r2 & h2 & ts2 & b & -> & K1 & q & k & es & R2 & Hts2 & He & Ha & Hb). bnd.
    destruct b.
    + destruct (Hb eq_refl) as (-> & -> & Hl). 
      destruct (recompress_ok r2 K1 (TNode q None false es) ts2 Hm2 R2 Ha) as [(r3 & T & Hr & R3 & Ha3 & He3)|[Hr Hx]]; [done|done| |].
      * cbn [t_ptr] in Hr. rewrite Hr. bnd. left. eexists. split; [done|]. apply (Hfin r3 T); try done. by rewrite He3.
      * cbn [t_ptr] in Hr. rewrite Hr. right. split; [done|]. by apply (Hlong (plug K1 (TNode q None false es))).
    + bnd. left. eexists. split; [done|]. by eapply Hfin.
  - destruct Hes as [->|Hsz]; [unfold size in E; rewrite Hd in E; done|]. bnd.
    assert (Ha1 : alive (plug K (TNode p None c es))).
    { apply alive_plug; [left; right; intros ->; unfold size in E; rewrite Hd in E; done|]. split; [by apply alive_eq; apply alive_eq in Hu|done]. }
    destruct (size n =? 1) eqn:E1; bool_hyps.
    + destruct (recompress_ok r1 K (TNode p None c es) ts Hm2 R1 Ha1) as [(r3 & T & Hr & R3 & Ha3 & He3)|[Hr Hx]]; try done.
      { split; [done|]. apply wf_eq in Hwn as [[_ Hwn] _]. unfold size, zlen in E1. rewrite Hd in E1. destruct c.
        - destruct Hwn as (l & Hl & _). apply (f_equal length) in Hl. by rewrite length_map in Hl.
        - destruct Hwn as (cs & Hcs & _). rewrite Hcs, concat_singles in E1. apply (f_equal length) in Hcs. rewrite !length_map in Hcs. lia. }
      * cbn [t_ptr] in Hr. rewrite Hr. bnd. left. eexists. split; [done|]. by apply (Hfin r3 T).
      * cbn [t_ptr] in Hr. rewrite Hr. right. split; [done|]. by apply (Hlong (plug K (TNode p None c es))).
    + bnd. left. eexists. split; [done|]. by eapply Hfin.
Qed.


(** *** Release *)

Definition vals (xs : list (bytes * option V)) : list V := omap snd xs.

Lemma vals_app xs ys : vals (xs ++ ys) = vals xs ++ vals ys.
Proof. apply omap_app. Qed.
Lemma vals_prep l xs : vals (map (prep l) xs) = vals xs.
Proof. unfold vals. induction xs as [|[s [v|]] xs IH]; cbn; [done|f_equal; exact IH|exact IH]. Qed.
#[export] Instance vals_proper : Proper (Permutation ==> Permutation) vals.
Proof.
  intros xs ys H. unfold vals. induction H as [|[s [v|]] xs ys H IH|[s [v|]] [s' [v'|]] xs|xs ys zs H1 IH1 H2 IH2]; cbn; try done.
  - by constructor.
  - constructor.
  - by etrans.
Qed.
Lemma vals_own (n : raxNode V) k : key_ok n k ->
  (if iskey n && negb (isnull n) then v ← val n; Some [v] else Some []) = Some (vals (own k)).
Proof.
  intros Hk. rewrite (iskey_ok _ _ Hk). destruct k as [d|]; [|done]. rewrite (isnull_ok _ _ Hk). cbn.
  destruct d as [v|]; [|done]. destruct Hk as (_ & _ & Hv). cbn. by rewrite Hv.
Qed.

Definition freed (r r' : rax V) (ps : list ptr) : Prop :=
  head r' = head r /\ numele r' = numele r /\ (numnodes r = u64 (numnodes r) -> numnodes r' = u64 (numnodes r - zlen ps)) /\
  (forall q, q ∉ ps -> mem r' !! q = mem r !! q) /\ (forall q, q ∈ ps -> mem r' !! q = None).

Lemma u64_u64 x : u64 (u64 x) = u64 x.
Proof. apply wrap_small, wrap_range. lia. Qed.

Lemma freed_nil r : freed r r [].
Proof. split_and!; try done; [rewrite zlen_nil; by rewrite Z.sub_0_r|by intros ? ?%not_elem_of_nil]. Qed.

Lemma freed_trans r r' r'' ps qs : freed r r' ps -> freed r' r'' qs -> freed r r'' (qs ++ ps).
Proof.
  intros (H1 & H2 & H3 & H4 & H5) (H1' & H2' & H3' & H4' & H5'). split_and!; [congruence..| | |].
  - intros Hr. specialize (H3 Hr). rewrite H3' by (by rewrite H3, u64_u64). rewrite H3, <- Z.add_opp_r, u64_add. f_equal. rewrite zlen_app. lia.
  - intros q Hq. rewrite elem_of_app in Hq. rewrite H4', H4; [done|tauto|tauto].
  - intros q Hq. destruct (decide (q ∈ qs)); [by apply H5'|]. rewrite H4' by done. apply H5. apply elem_of_app in Hq. tauto.
Qed.

Lemma recursive_free_ok t : forall fuel r, Forall (node_ok (mem r)) (subs t) -> NoDup (ptrs t) -> (length (subs t) <= fuel)%nat ->
  exists r', raxRecursiveFree fuel r (t_ptr t) = Some (r', rev (vals (entries t))) /\ freed r r' (ptrs t).
Proof.
  induction t as [p k c es IH] using tree_nested_ind. intros fuel r Hn Hnd Hf. rewrite subs_eq in Hn, Hf.
  destruct fuel as [|fuel]; [cbn in Hf; lia|]. cbn [raxRecursiveFree t_ptr].
  apply Forall_cons in Hn as [(n & Hnp & Hk & _ & _ & Hch & _) Hn]. cbn in Hnp. rewrite Hnp. bnd. rewrite Hch.
  rewrite ptrs_eq in *. apply NoDup_cons in Hnd as [Hp Hnd]. cbn [length] in Hf. apply le_S_n in Hf.
  assert (Hes : exists r', foldr (fun c (acc : option (rax V * list V)) =>
      '(r, called) ← acc; c ← c; '(r, cl) ← raxRecursiveFree fuel r c; Some (r, called ++ cl)) (Some (r, [])) (edge_ptrs es) =
      Some (r', rev (vals (eentries es))) /\ freed r r' (map t_ptr (esubs es))).
  { clear Hch Hp. induction es as [|[l t] es IHes]; [by exists r; split; [|apply freed_nil]|].
    apply Forall_cons in IH as [IHt IH]. rewrite esubs_cons in *. apply Forall_app in Hn as [Hn1 Hn2]. rewrite map_app in *.
    apply NoDup_app in Hnd as (Hnd1 & Hnd2 & Hnd3). rewrite length_app in Hf.
    destruct (IHes IH Hn2 Hnd3) as (r1 & Hr1 & Hfr1); [lia|]. cbn [edge_ptrs map foldr]. fold (edge_ptrs es). rewrite Hr1. bnd. cbn [snd] in *.
    destruct (IHt fuel r1) as (r2 & -> & Hfr2); [|done|lia|].
    - eapply nodes_agree; [|exact Hn1]. intros q Hq. apply Hfr1. intros Hq'. by apply (Hnd2 q Hq).
    - bnd. exists r2. split; [|by eapply freed_trans]. rewrite eentries_cons. cbn [fst snd]. by rewrite vals_app, vals_prep, rev_app_distr. }
  destruct Hes as (r1 & -> & Hfr). bnd.
  pose proof (vals_own n k Hk) as Hv. pose proof Hfr as (H1 & H2 & H3 & H4 & H5).
  assert (Hown : (if iskey n && negb (isnull n) then v ← val n; Some (rev (vals (eentries es)) ++ [v]) else Some (rev (vals (eentries es)))) =
    Some (rev (vals (entries (TNode p k c es))))).
  { rewrite entries_eq, vals_app, rev_app_distr. destruct (_ && _).
    - apply bind_Some in Hv as (v & -> & [= <-]). done.
    - injection Hv as <-. by rewrite app_nil_r. }
  rewrite Hown. bnd. unfold rax_free. rewrite H4, Hnp by done. bnd. eexists. split; [done|].
  change (p :: map t_ptr (esubs es)) with ([p] ++ map t_ptr (esubs es)). apply (freed_trans _ r1); [done|].
  split_and!; try done; cbn.
  - intros q Hq. apply lookup_delete_ne. intros ->. apply Hq. rewrite elem_of_cons. auto.
  - intros q [->|?%not_elem_of_nil]%elem_of_cons; [|done]. apply lookup_delete_eq.
Qed.

Lemma raxFree_ok r t : rep r t -> exists r', raxFreeWithCallback r = Some (r', rev (vals (entries t))) /\ mem r' = ∅.
Proof.
  intros R. unfold raxFreeWithCallback. rewrite (rep_head _ _ _ R).
  destruct (recursive_free_ok t (S (base.size (mem r))) r) as (r' & -> & H1 & H2 & H3 & H4 & H5); [apply R|apply R| |].
  { rewrite (size_ptrs _ _ R). unfold ptrs. rewrite length_map. lia. }
  bnd. rewrite H3 by (by rewrite (rep_numnodes _ _ _ R), u64_u64).
  rewrite (rep_numnodes _ _ _ R), <- Z.add_opp_r, u64_add, Z.add_opp_diag_r. cbn. eexists. split; [done|].
  apply map_eq. intros q. rewrite lookup_empty. destruct (decide (q ∈ ptrs t)) as [Hq|Hq]; [by apply H5|].
  rewrite H4 by done. apply not_elem_of_dom. rewrite (rep_dom _ _ _ R). by rewrite elem_of_list_to_set.
Qed.


(** ** Sequences of operations *)

Inductive op := Insert (s : bytes) (d : option V) | TryInsert (s : bytes) (d : option V) | Remove (s : bytes) | Find (s : bytes) | Size.

(** What an operation returns: an integer and the old value, the value found,
    or the number of keys. *)
Inductive result := Ret (ret : Z) (old : option (option V)) | Found (v : option (option V)) | Count (n : Z).

Definition run (o : op) (r : rax V) : option (rax V * result) :=
  match o with
  | Insert s d => '(r, ret, old) ← raxInsert junk A max_size r s d; Some (r, Ret ret old)
  | TryInsert s d => '(r, ret, old) ← raxTryInsert junk A max_size r s d; Some (r, Ret ret old)
  | Remove s => '(r, ret, old) ← raxRemove junk A max_size r s; Some (r, Ret ret old)
  | Find s => v ← raxFind r s; Some (r, Found v)
  | Size => Some (r, Count (raxSize r))
  end.

Fixpoint runs (os : list op) (r : rax V) : option (rax V * list result) :=
  match os with
  | [] => Some (r, [])
  | o :: os => '(r, x) ← run o r; '(r, xs) ← runs os r; Some (r, x :: xs)
  end.

(** The same operations on a finite map. *)
Definition spec (o : op) (f : gmap bytes (option V)) : gmap bytes (option V) * result :=
  match o with
  | Insert s d => (<[s := d]> f, Ret (match f !! s with Some _ => 0 | None => 1 end) (f !! s))
  | TryInsert s d =>
      (match f !! s with Some _ => f | None => <[s := d]> f end, Ret (match f !! s with Some _ => 0 | None => 1 end) (f !! s))
  | Remove s => (delete s f, Ret (match f !! s with Some _ => 1 | None => 0 end) (f !! s))
  | Find s => (f, Found (f !! s))
  | Size => (f, Count (u64 (Z.of_nat (base.size f))))
  end.

Fixpoint specs (os : list op) (f : gmap bytes (option V)) : gmap bytes (option V) * list result :=
  match os with
  | [] => (f, [])
  | o :: os => let '(f, x) := spec o f in let '(f, xs) := specs os f in (f, x :: xs)
  end.

(** The keys inserted are byte strings. *)
Definition op_bytes (o : op) : Prop :=
  match o with Insert s _ | TryInsert s _ => Forall is_byte s | _ => True end.

(** The keys inserted also fit in a node. *)
Definition op_ok (o : op) : Prop :=
  match o with Insert s _ | TryInsert s _ => Forall is_byte s /\ zlen s <= max_size | _ => True end.

(** When a key is removed, no key of the tree is longer than a node can be. *)
Fixpoint removals_fit (os : list op) (f : gmap bytes (option V)) : Prop :=
  match os with
  | [] => True
  | o :: os => match o with Remove _ => bounded f | _ => True end /\ removals_fit os (spec o f).1
  end.

Lemma denotes_perm (t : tree) f : wf t -> denotes (entries t) f -> entries t ≡ₚ map_to_list f.
Proof.
  intros Hw Hf. apply NoDup_Permutation.
  - by eapply NoDup_fmap_1, sorted_nodup, entries_sorted.
  - apply NoDup_map_to_list.
  - intros [s d]. rewrite elem_of_map_to_list. symmetry. apply Hf.
Qed.

Lemma bounded_empty : bounded ∅.
Proof. intros s d H. by rewrite lookup_empty in H. Qed.

Lemma bounded_insert f s d : bounded f -> zlen s <= max_size -> bounded (<[s := d]> f).
Proof. intros Hf Hs s' d' [[<- _]|[_ H]]%lookup_insert_Some; [done|by eapply Hf]. Qed.

Lemma removals_fit_ok os : forall f, bounded f -> Forall op_ok os -> removals_fit os f.
Proof.
  induction os as [|o os IH]; intros f Hf Hos; [done|]. apply Forall_cons in Hos as [Ho Hos]. split; [by destruct o|]. apply IH; [|done].
  destruct o as [s d|s d|s|s|]; cbn [spec fst]; try done.
  - by apply bounded_insert; [|apply Ho].
  - destruct (f !! s); [done|]. by apply bounded_insert; [|apply Ho].
  - intros s' d [_ H]%lookup_delete_Some. by eapply Hf.
Qed.

Lemma op_ok_bytes o : op_ok o -> op_bytes o.
Proof. destruct o; cbn; tauto. Qed.

Lemma run_cases o r f : 2 <= max_size -> rep_map max_size r f -> op_bytes o ->
  (exists r', run o r = Some (r', (spec o f).2) /\ rep_map max_size r' (spec o f).1) \/
  (run o r = None /\ ~ bounded f /\ exists s, o = Remove s).
Proof.
  intros Hmax R Ho. destruct o as [s d|s d|s|s|]; cbn [run spec fst snd] in *.
  - left. unfold raxInsert. destruct (raxGenericInsert_ok max_size junk A r f s d true R Ho Hmax) as (r' & -> & R'). bnd.
    eexists. split; [done|]. by destruct (f !! s).
  - left. unfold raxTryInsert. destruct (raxGenericInsert_ok max_size junk A r f s d false R Ho Hmax) as (r' & -> & R'). bnd. eauto.
  - destruct (raxRemove_cases r f s Hmax R) as [(r' & -> & R')|[-> Hb]]; bnd; [left|right]; eauto.
  - left. rewrite (raxFind_ok max_size r f s R). bnd. eauto.
  - left. destruct R as (t & R & Ha & Hf). eexists. split; [|by exists t]. unfold raxSize. rewrite (rep_numele _ _ _ R).
    do 4 f_equal. unfold zlen. rewrite (denotes_perm t f) by (done || apply R). by rewrite length_map_to_list.
Qed.

Lemma runs_ok os : forall r f, 2 <= max_size -> rep_map max_size r f -> Forall op_bytes os -> removals_fit os f ->
  exists r', runs os r = Some (r', (specs os f).2) /\ rep_map max_size r' (specs os f).1.
Proof.
  induction os as [|o os IH]; intros r f Hmax R Hos Hfit; [by exists r|]. apply Forall_cons in Hos as [Ho Hos]. destruct Hfit as [Hfo Hfit].
  destruct (run_cases o r f Hmax R Ho) as [(r1 & H1 & R1)|(_ & Hb & s & ->)]; [|done]. cbn [runs specs]. rewrite H1. bnd.
  destruct (spec o f) as [f1 x]. cbn [fst snd] in *. destruct (IH r1 f1 Hmax R1 Hos Hfit) as (r2 & -> & R2). bnd.
  destruct (specs os f1) as [f2 xs]. by exists r2.
Qed.

(** Whatever the lengths of the keys, a run that returns gives a well-formed tree. *)
Lemma runs_safe os : forall r f r' xs, 2 <= max_size -> rep_map max_size r f -> Forall op_bytes os ->
  runs os r = Some (r', xs) -> rep_map max_size r' (specs os f).1 /\ xs = (specs os f).2.
Proof.
  induction os as [|o os IH]; intros r f r' xs Hmax R Hos; cbn [runs specs]; [by intros [= <- <-]|]. apply Forall_cons in Hos as [Ho Hos].
  destruct (run_cases o r f Hmax R Ho) as [(r1 & -> & R1)|(-> & _)]; [|done]. bnd.
  destruct (spec o f) as [f1 x]. cbn [fst snd] in *. destruct (runs os r1) as [[r2 xs2]|] eqn:E; [|done]. bnd. intros [= <- <-].
  destruct (IH r1 f1 r2 xs2 Hmax R1 Hos E) as [R2 ->]. by destruct (specs os f1).
Qed.

Lemma sorted_bytes cs lo : StronglySorted Z.lt cs -> Forall (fun x => lo <= x < 256) cs -> lo <= 256 -> zlen cs <= 256 - lo.
Proof.
  intros Hs. revert lo. induction Hs as [|x cs Hs IH Hx]; intros lo Hb Hlo; [rewrite zlen_nil; lia|].
  apply Forall_cons in Hb as [Hb1 Hb2]. rewrite zlen_cons. enough (zlen cs <= 256 - (x + 1)) by lia.
  apply IH; [|lia]. rewrite Forall_forall in *. intros y Hy. specialize (Hx y Hy). specialize (Hb2 y Hy). lia.
Qed.

Lemma raxNew_ok : rep_map max_size (raxNew junk A) ∅.
Proof.
  unfold raxNew. destruct (new_node_ok junk A ∅) as (p & -> & _). exists (TNode p None false []). split_and!.
  - split; try done.
    + constructor; [|done]. eexists. cbn. by rewrite lookup_insert_eq.
    + apply NoDup_singleton.
    + cbn. rewrite dom_insert_L, dom_empty_L. set_solver.
    + apply wf_eq. split; [|done]. split; [done|]. exists []. split; [done|constructor].
  - by apply alive_eq.
  - intros s d. cbn. rewrite lookup_empty, elem_of_nil. naive_solver.
Qed.

End delete.

Arguments op : clear implicits.
Arguments result : clear implicits.

(** C30: Every sequence of insertions, removals and lookups of byte strings on a
    new radix tree returns and gives the results of the same operations on a
    finite map from byte strings to values; the release of the tree then frees
    every node and calls the callback once on each value that is not null.
    The allocator may put a new block at any address not in use, and a realloc
    may or may not move the block.  Keys of any length are inserted and looked
    up; a key is removed only while no key has 2^29 bytes or more (beyond that a
    removal can overrun a block, see the limit on the size of a node below). *)
Theorem rax_simulates {V} junk (A : allocator V) (os : list (op V)) :
  Forall op_bytes os -> removals_fit RAX_NODE_MAX_SIZE os ∅ ->
  exists r r' called, runs RAX_NODE_MAX_SIZE junk A os (raxNew junk A) = Some (r, (specs os ∅).2) /\
    raxFreeWithCallback r = Some (r', called) /\ mem r' = ∅ /\ called ≡ₚ vals (map_to_list (specs os ∅).1).
Proof.
  intros Hos Hfit. destruct (runs_ok RAX_NODE_MAX_SIZE junk A os (raxNew junk A) ∅) as (r & H1 & (t & R & _ & Hf)); [by unfold RAX_NODE_MAX_SIZE|apply raxNew_ok|done|done|].
  destruct (raxFree_ok RAX_NODE_MAX_SIZE r t R) as (r' & H2 & H3). exists r, r', (rev (vals (entries t))). split_and!; try done.
  rewrite <- (denotes_perm RAX_NODE_MAX_SIZE t) by (done || apply R). symmetry. apply Permutation_rev.
Qed.

(** C32: Whatever the lengths of the keys, after every sequence of operations
    that returns (a removal that overruns a block does not) every node of
    the tree is well formed in memory: the number of its characters fits in the
    29 bits of the size field, a compressed node has at least two characters
    and one child pointer, another node one per character, in increasing order,
    and the layout of the node fits in its block. *)
Theorem rax_layout {V} junk (A : allocator V) (os : list (op V)) r xs :
  Forall op_bytes os -> runs RAX_NODE_MAX_SIZE junk A os (raxNew junk A) = Some (r, xs) ->
  forall p n, mem r !! p = Some n ->
    0 <= size n < 2 ^ 29 /\ raxNodeCurrentLength n <= alloc n /\ Forall is_Some (children n) /\
    if iscompr n then 2 <= size n /\ zlen (children n) = 1
    else zlen (children n) = size n /\ StronglySorted Z.lt (data n).
Proof.
  intros Hos Hr p n Hp. destruct (runs_safe RAX_NODE_MAX_SIZE junk A os (raxNew junk A) ∅ r xs) as [(t & R & _) _]; [by unfold RAX_NODE_MAX_SIZE|apply raxNew_ok|done|done|].
  assert (Hpt : p ∈ ptrs t) by (apply (elem_of_list_to_set (C:=gset ptr)); rewrite <- (rep_dom _ _ _ R); apply elem_of_dom; eauto).
  unfold ptrs in Hpt. apply list_elem_of_fmap in Hpt as ([q k c es] & -> & Ht).
  pose proof (rep_nodes _ _ _ R) as Hn. rewrite Forall_forall in Hn. destruct (Hn _ Ht) as (n' & Hn' & _ & Hc & Hd & Hch & Hfit).
  rewrite Hp in Hn'. injection Hn' as <-. pose proof (rep_wf _ _ _ R) as Hw. unfold Rax.wf in Hw. rewrite Forall_forall in Hw.
  destruct (Hw _ Ht) as [Hby Hw']. rewrite Hc, Hch. apply Z.leb_le in Hfit.
  assert (Hsome : Forall is_Some (edge_ptrs es)) by (unfold edge_ptrs; rewrite Forall_map; apply Forall_true; eauto).
  unfold size in *. destruct c.
  - destruct Hw' as (l & Hl & Hl2 & Hlm). rewrite Hl in Hd. cbn in Hd. rewrite app_nil_r in Hd. rewrite Hd.
    unfold edge_ptrs, zlen in *. rewrite length_map. apply (f_equal length) in Hl. rewrite length_map in Hl. rewrite Hl.
    unfold RAX_NODE_MAX_SIZE in Hlm. split_and!; try done; cbn in *; lia.
  - destruct Hw' as (cs & Hcs & Hso). rewrite Hcs, concat_singles in Hd. rewrite Hd. rewrite Hcs, Forall_map in Hby.
    assert (zlen cs <= 256 - 0).
    { apply sorted_bytes; [done| |lia]. eapply Forall_impl; [exact Hby|]. intros x Hx. by apply Forall_cons in Hx as [Hx _]. }
    pose proof (zlen_nonneg cs). split_and!; try done; [lia|].
    unfold edge_ptrs, zlen. rewrite length_map. apply (f_equal length) in Hcs. rewrite !length_map in Hcs. lia.
Qed.

(** ** The limit on the size of a node *)

Lemma sorted_chars_NoDup cs : StronglySorted Z.lt cs -> NoDup cs.
Proof.
  induction 1 as [|x cs _ IH Hx]; constructor; [|done]. intros Hin. rewrite Forall_forall in Hx. specialize (Hx x Hin). lia.
Qed.

(** The labels of a node tell which edge a path takes. *)
Lemma edge_unique {V} L c (l1 r1 l2 r2 : list (bytes * @tree V)) a b x y p q :
  wf_labels L c (map fst (l1 ++ (a, x) :: r1)) -> l1 ++ (a, x) :: r1 = l2 ++ (b, y) :: r2 -> a ++ p = b ++ q ->
  l1 = l2 /\ a = b /\ x = y /\ r1 = r2 /\ p = q.
Proof.
  intros [_ Hl] E Hp. assert (length l1 = length l2 -> l1 = l2 /\ a = b /\ x = y /\ r1 = r2 /\ p = q) as Hlen.
  { intros Hlen. apply app_inj_1 in E as [-> [= -> -> ->]]; [|done]. apply app_inv_head in Hp. by split_and!. }
  apply Hlen. assert (map fst (l1 ++ (a, x) :: r1) !! length l1 = Some a) as H1 by (rewrite list_lookup_fmap, list_lookup_middle by done; done).
  assert (map fst (l1 ++ (a, x) :: r1) !! length l2 = Some b) as H2 by (rewrite E, list_lookup_fmap, list_lookup_middle by done; done).
  destruct c.
  - destruct Hl as (l & Hl & _). rewrite Hl in H1, H2. destruct (length l1), (length l2); done.
  - destruct Hl as (cs & Hl & Hs). rewrite Hl, list_lookup_fmap in H1, H2.
    destruct (cs !! length l1) as [i|] eqn:E1; [|done]. destruct (cs !! length l2) as [j|] eqn:E2; [|done].
    injection H1 as <-. injection H2 as <-. injection Hp as -> _. by apply (NoDup_lookup _ _ _ _ (sorted_chars_NoDup _ Hs) E1 E2).
Qed.

Lemma path_snoc {V} (K : list (@frame V)) F : path (K ++ [F]) = f_lab F ++ path K.
Proof. by rewrite path_app. Qed.

(** A path leads to one place of the tree. *)
Lemma focus_unique {V} L (K : list (@frame V)) : forall K' t t', Rax.wf L (plug K t) -> plug K t = plug K' t' -> path K = path K' ->
  K = K' /\ t = t'.
Proof.
  assert (Hne : forall (F : @frame V) t, Rax.wf L (fill F t) -> f_lab F <> []).
  { intros F t [Hl _]%wf_eq. apply wf_labels_nonempty in Hl. rewrite map_app, Forall_app, map_cons, Forall_cons in Hl. apply Hl. }
  induction K as [|F K IH] using rev_ind; intros K' t t' Hw E Hp; destruct K' as [|F' K' _] using rev_ind; [done|..].
  - exfalso. rewrite path_snoc in Hp. rewrite plug_app in E. cbn in Hp, E. rewrite E in Hw. apply Hne in Hw. by destruct (f_lab F').
  - exfalso. rewrite path_snoc in Hp. rewrite plug_app in Hw. cbn in Hp, Hw. apply Hne in Hw. by destruct (f_lab F).
  - rewrite !path_snoc in Hp. rewrite plug_app in E, Hw. rewrite (plug_app K') in E. cbn [plug] in E, Hw. unfold fill in E, Hw.
    injection E as E1 E2 E3 E4. apply wf_eq in Hw as [Hl Hw].
    destruct (edge_unique L _ _ _ _ _ _ _ _ _ _ _ Hl E4 Hp) as (H1 & H2 & H3 & H4 & H5).
    assert (Hk : K = K' /\ t = t').
    { apply IH; [|done|done]. rewrite !Forall_app, Forall_cons in Hw. apply Hw. }
    destruct Hk as [-> ->]. split; [|done]. f_equal. destruct F, F'. cbn in *. by subst.
Qed.

Section limit.
Context {V : Type} (L junk : Z) (A : allocator V).

(** C33: The scan that measures a chain of nodes stops before the merged node
    would exceed the limit of the size field, but the scan that copies the
    characters does not stop there.  So whenever a key is removed from a node
    with one child, so that the node joins a chain whose first two nodes fit
    in one and which is longer than the limit in all, the new block has room
    for the characters that were measured, at most the limit, while the copy
    writes those of the whole chain: it runs past the end of the block (and
    would go through in a block with room for the whole chain). *)
Theorem raxRemove_overflows (r : rax V) K2 K1 h d x t p c l y cs u n :
  rep L r (plug (K2 ++ K1) (TNode h (Some d) false [([x], t)])) -> mem r !! h = Some n -> 2 <= L ->
  Forall chain_frame K2 -> chain_top K1 ->
  plug K2 (TNode h None false [([x], t)]) = unchain ((p, c, l) :: y :: cs) u -> chain_end u ->
  zlen l + zlen y.2 <= L < zlen (labels ((p, c, l) :: y :: cs)) ->
  copy_overruns L junk A (add_numele (-1) (set_mem (<[h := set_iskey false n]> (mem r)) r)) ((p, c, l) :: y :: cs) u /\
  raxRemove junk A L r (path (K2 ++ K1)) = None.
Proof.
  intros R Hn Hm2 HK2 Htop Hch Hu Hlen. set (K := K2 ++ K1) in *.
  destruct (unkey_ok L _ _ _ _ _ _ n R Hn) as [Hput R1]. set (r1 := add_numele (-1) _) in *.
  assert (R2 : rep L r1 (plug K1 (unchain ((p, c, l) :: y :: cs) u))) by (rewrite <- Hch, <- plug_app; done).
  pose proof (recompress_overruns L junk A r1 K1 p c l (y :: cs) u R2 Hu K2 (TNode h None false [([x], t)])) as Hover.
  pose proof (rep_focus _ _ _ _ _ _ _ R) as (n' & Hn' & (Hk & Hc & Hd & _) & _). rewrite Hn in Hn'. injection Hn' as <-.
  unfold raxRemove. destruct (raxLowWalk_ok L r (path K) _ (Some raxStackInit) R eq_refl) as (w & -> & K' & u' & Hpl & Hstop & _ & Hst & Hstk & Hsome).
  bnd. cbn [app plug] in Hpl. pose proof (rep_wf _ _ _ R) as Hw.
  destruct (stop_inside_absent _ _ _ _ _ Hst) as [(Hp & Hi & Hj)|(Hp & _)].
  2:{ exfalso. destruct u' as [p' k' c' es']. rewrite <- Hpl in Hw.
      apply (stop_absent L (path K) K' _ _ _ d Hw Hst Hp). rewrite Hpl. by apply (elem_of_path L); [rewrite <- Hpl|]. }
  rewrite <- Hpl in Hw. destruct (focus_unique L K' K u' (TNode h (Some d) false [([x], t)]) Hw Hpl Hp) as [-> ->].
  destruct (w_stack w) as [ts|]; [|by destruct Hsome as [[? ?] _]; eauto]. bnd. destruct Hstk as (Hts & _).
  cbn in Hstop. rewrite Hstop, Hn. bnd. rewrite Hi, Hj, Nat.eqb_refl, andb_false_r, (iskey_ok _ _ Hk). cbn [negb orb].
  rewrite (get_data_ok _ _ d Hk) by done. bnd. rewrite Hput. bnd. fold r1.
  assert (size n = 1) as -> by (unfold size; rewrite Hd; done). cbn [Z.eqb Pos.eqb]. bnd.
  destruct (Hover ts Hch Hts HK2 Htop y cs eq_refl Hlen) as [Hcopy Hre]. split; [exact Hcopy|]. cbn [t_ptr] in Hre. by rewrite Hre.
Qed.

End limit.

(** ** Instances *)

(** A realloc moves the blocks at even addresses; new blocks are at the first
    free address. *)
Definition demo_allocator : allocator Z :=
  mkAllocator Z (fun m _ => fresh (dom m)) (fun m p => Z.even (Zpos p)) (fun m _ => is_fresh (dom m)).

Definition demo_ops : list (op Z) :=
  [Insert (bytes_of "annibale"%string) (Some 1); Insert (bytes_of "annientare"%string) (Some 2); TryInsert (bytes_of "anni"%string) (Some 3);
   Insert (bytes_of "ago"%string) None; Find (bytes_of "ago"%string); TryInsert (bytes_of "anni"%string) (Some 4); Insert (bytes_of ""%string) (Some 5);
   Remove (bytes_of "annibale"%string); Remove (bytes_of "an"%string); Insert (bytes_of "anni"%string) (Some 6); Remove (bytes_of "ago"%string); Size].

Lemma demo_ops_ok : Forall (op_ok RAX_NODE_MAX_SIZE) demo_ops.
Proof. repeat (constructor; [try (split; [repeat (constructor; [by vm_compute|]); constructor|by vm_compute]); try done|]). constructor. Qed.

Lemma demo_ops_bytes : Forall op_bytes demo_ops.
Proof. eapply Forall_impl; [exact demo_ops_ok|]. apply op_ok_bytes. Qed.

Lemma demo_ops_fit : removals_fit RAX_NODE_MAX_SIZE demo_ops ∅.
Proof. apply removals_fit_ok; [apply bounded_empty|exact demo_ops_ok]. Qed.

Lemma rax_simulates_witness :
  (specs demo_ops ∅).2 = [Ret 1 None; Ret 1 None; Ret 1 None; Ret 1 None; Found (Some None); Ret 0 (Some (Some 3)); Ret 1 None;
    Ret 1 (Some (Some 1)); Ret 0 None; Ret 0 (Some (Some 3)); Ret 1 (Some None); Count 3] /\
  exists r r' called, runs RAX_NODE_MAX_SIZE 7 demo_allocator demo_ops (raxNew 7 demo_allocator) = Some (r, (specs demo_ops ∅).2) /\
    raxFreeWithCallback r = Some (r', called) /\ mem r' = ∅ /\ called ≡ₚ vals (map_to_list (specs demo_ops ∅).1).
Proof. split; [by vm_compute|]. apply (rax_simulates 7 demo_allocator demo_ops demo_ops_bytes demo_ops_fit). Defined.

Lemma rax_layout_witness : exists r xs,
  runs RAX_NODE_MAX_SIZE 7 demo_allocator demo_ops (raxNew 7 demo_allocator) = Some (r, xs) /\
  forall p n, mem r !! p = Some n ->
    0 <= size n < 2 ^ 29 /\ raxNodeCurrentLength n <= alloc n /\ Forall is_Some (children n) /\
    if iscompr n then 2 <= size n /\ zlen (children n) = 1
    else zlen (children n) = size n /\ StronglySorted Z.lt (data n).
Proof.
  destruct (runs RAX_NODE_MAX_SIZE 7 demo_allocator demo_ops (raxNew 7 demo_allocator)) as [[r xs]|] eqn:E; [|vm_compute in E; discriminate E].
  exists r, xs. split; [done|]. apply (rax_layout 7 demo_allocator demo_ops r xs demo_ops_bytes E).
Defined.

(** A tree with the keys "ab" and "abcxxxxxx", when a node holds 6 characters. *)
Definition long_tree : @tree Z :=
  TNode 1 None true [(bytes_of "ab"%string, TNode 2 (Some (Some 1)) false
    [(bytes_of "c"%string, TNode 3 None true [(bytes_of "xxxxxx"%string, TNode 4 (Some (Some 3)) false [])])])].
Definition long_rax : rax Z :=
  mkRax {[ 1%positive := mkNode false false true (bytes_of "ab"%string) [Some 2%positive] None 24;
           2%positive := mkNode true false false (bytes_of "c"%string) [Some 3%positive] (Some 1) 24;
           3%positive := mkNode false false true (bytes_of "xxxxxx"%string) [Some 4%positive] None 24;
           4%positive := mkNode true false false [] [] (Some 3) 16 ]} 1 2 4.

Lemma long_rep : rep 6 long_rax long_tree.
Proof.
  split; try done.
  - repeat (constructor; [eexists; split; [by vm_compute|by split_and!; vm_compute]|]). constructor.
  - apply (bool_decide_unpack _). by vm_compute.
  - unfold Rax.wf. cbn [long_tree subs map concat app snd].
    repeat (apply Forall_cons; split; [split; [repeat (constructor; [repeat (constructor; [by vm_compute|]); constructor|]); constructor|]|]); [..|constructor].
    + eexists. split; [done|]. split; [cbn; lia|by vm_compute].
    + exists (bytes_of "c"%string). split; [done|]. repeat constructor.
    + eexists. split; [done|]. split; [cbn; lia|by vm_compute].
    + exists []. split; [done|constructor].
Qed.

Lemma raxRemove_overflows_witness : raxRemove 7 demo_allocator 6 long_rax (bytes_of "ab"%string) = None.
Proof.
  apply (raxRemove_overflows 6 7 demo_allocator long_rax [mkF 1 None true [] (bytes_of "ab"%string) []] [] 2 (Some 1) 99
    (TNode 3 None true [(bytes_of "xxxxxx"%string, TNode 4 (Some (Some 3)) false [])]) 1 true (bytes_of "ab"%string)
    (2%positive, false, [99]) [(3%positive, true, bytes_of "xxxxxx"%string)] (TNode 4 (Some (Some 3)) false [])
    (mkNode true false false (bytes_of "c"%string) [Some 3%positive] (Some 1) 24)).
  - exact long_rep.
  - done.
  - lia.
  - repeat constructor.
  - done.
  - done.
  - left. eauto.
  - by vm_compute.
Defined.

(** The comment of raxRemove says that after the removal of "FOO" from a tree
    with "FOO" and "FOOBAR" one compressed node is left; the two nodes stay,
    because the test for a single child looks at the characters of the node. *)
Lemma removal_leaves_chain :
  match runs RAX_NODE_MAX_SIZE 7 demo_allocator
    [Insert (bytes_of "FOO"%string) (Some 1); Insert (bytes_of "FOOBAR"%string) (Some 2); Remove (bytes_of "FOO"%string)] (raxNew 7 demo_allocator) with
  | Some (r, _) => numele r = 1 /\ numnodes r = 3
  | None => False
  end.
Proof. by vm_compute. Qed.

End RaxDelete.
