(* ===== verification/RaxIter.v ===== *)
(** * Iterators of radix trees (src/redis-stable/src/rax.c, raxStart to raxPrev)

    An iterator keeps the node it is at, the stack of the nodes above and the
    key of the node.  The key buffer and the array of the stack are modelled
    with what they hold above their current length, because a step that
    reaches the end restores the two lengths.  There is no node callback.

    The theorem: seeking and stepping enumerate the keys of the tree in
    lexicographic order, in both directions, from the place the seek asks for. *)
From stdpp Require Import base list gmap sorting strings.
From S2P Require Import Prelude Rax RaxDelete.

Module RaxIter.
Import Rax RaxDelete.

Definition RAX_ITER_STATIC_LEN : Z := 128.
Definition RAX_ITER_JUST_SEEKED : Z := 1.
Definition RAX_ITER_EOF : Z := 2.

(** Set and clear a flag, and test it. *)
Definition fset (b f : Z) : Z := Z.lor f b.
Definition fclear (b f : Z) : Z := Z.land f (Z.lnot b).
Definition fhas (b f : Z) : bool := negb (Z.land f b =? 0).

Section iterators.
Context {V : Type}.
Abbreviation value := (option V).

(** [kbuf] is the key buffer and [key_len] the length of the key; [popped] is
    what the array of the stack holds above its items. *)
Record raxIterator := mkIt {
  flags : Z; kbuf : bytes; key_len : nat; key_max : Z; it_data : option value;
  node : option ptr; stack : raxStack; popped : list ptr }.

Definition key (it : raxIterator) : bytes := take (key_len it) (kbuf it).

Definition set_flags (f : Z) (it : raxIterator) : raxIterator :=
  mkIt f (kbuf it) (key_len it) (key_max it) (it_data it) (node it) (stack it) (popped it).
Definition set_data (d : option value) (it : raxIterator) : raxIterator :=
  mkIt (flags it) (kbuf it) (key_len it) (key_max it) d (node it) (stack it) (popped it).
Definition set_node (p : option ptr) (it : raxIterator) : raxIterator :=
  mkIt (flags it) (kbuf it) (key_len it) (key_max it) (it_data it) p (stack it) (popped it).
Definition set_key_len (k : nat) (it : raxIterator) : raxIterator :=
  mkIt (flags it) (kbuf it) k (key_max it) (it_data it) (node it) (stack it) (popped it).
Definition set_stack (s : raxStack) (l : list ptr) (it : raxIterator) : raxIterator :=
  mkIt (flags it) (kbuf it) (key_len it) (key_max it) (it_data it) (node it) s l.

(** [it->stack.items = n]: the array is the items, the oldest first, and what
    was popped. *)
Definition set_items (k : nat) (it : raxIterator) : raxIterator :=
  let array := rev (items (stack it)) ++ popped it in
  set_stack (mkStack (rev (take k array)) (maxitems (stack it))) (drop k array) it.

Definition it_push (p : ptr) (it : raxIterator) : option raxIterator :=
  s ← raxStackPush (stack it) p; Some (set_stack s (drop 1 (popped it)) it).
Definition it_pop (it : raxIterator) : option ptr * raxIterator :=
  let '(p, s) := raxStackPop (stack it) in
  (p, set_stack s (match p with Some p => p :: popped it | None => popped it end) it).

Definition raxStart (junk : bytes) : raxIterator :=
  mkIt RAX_ITER_EOF junk 0 RAX_ITER_STATIC_LEN None None raxStackInit [].

Definition raxIteratorAddChars (it : raxIterator) (s : bytes) : option raxIterator :=
  if zlen s =? 0 then Some it else
  let len := Z.of_nat (key_len it) + zlen s in
  let mx := if key_max it <? len then len * 2 else key_max it in
  if len <=? mx then
    Some (mkIt (flags it) (take (key_len it) (kbuf it) ++ s ++ drop (key_len it + length s) (kbuf it))
            (key_len it + length s) mx (it_data it) (node it) (stack it) (popped it))
  else None.

(** The key length is unsigned: removing more than there is would wrap. *)
Definition raxIteratorDelChars (it : raxIterator) (count : nat) : option raxIterator :=
  if (count <=? key_len it)%nat then Some (set_key_len (key_len it - count) it) else None.

(** [it->key[it->key_len-1]] *)
Definition last_char (it : raxIterator) : option Z :=
  if (key_len it =? 0)%nat then None else kbuf it !! (key_len it - 1)%nat.

Section steps.
Context (r : rax V).

Definition node_of (it : raxIterator) : option (raxNode V) := p ← node it; mem r !! p.

(** [it->data = raxGetData(it->node)] *)
Definition load_data (it : raxIterator) : option raxIterator :=
  n ← node_of it; d ← raxGetData n; Some (set_data (Some d) it).

(** The end of the iteration: the lengths and the node are restored. *)
Definition restore (orig it : raxIterator) : raxIterator :=
  set_node (node orig) (set_key_len (key_len orig) (set_items (length (items (stack orig)))
    (set_flags (fset RAX_ITER_EOF (flags it)) it))).

(** Enter the child of [n], the current node, at index [i] through the characters [s]. *)
Definition enter (n : raxNode V) (i : nat) (s : bytes) (it : raxIterator) : option raxIterator :=
  it ← raxIteratorAddChars it s;
  p ← node it;
  it ← it_push p it;
  c ← children n !! i;
  Some (set_node c it).

(** The body of the way up of raxIteratorNextStep, at a node: the next edge
    after [prevchild] is taken, and the boolean tells that the step is finished. *)
Definition next_scan (it : raxIterator) (noup : bool) (prevchild : Z) : option (raxIterator * option bool) :=
  n ← node_of it;
  it ← raxIteratorDelChars it (if iscompr n then length (data n) else 1);
  let i := add_pos (data n) prevchild in
  if negb (iscompr n) && ((if noup then 0 else 1) <? size n) && negb (i =? length (data n))%nat then
    c ← data n !! i;
    it ← enter n i [c] it;
    n ← node_of it;
    if iskey n then it ← load_data it; Some (it, Some true) else Some (it, Some false)
  else Some (it, None).

(** The way up: to the parent, or not when [noup]. *)
Fixpoint next_up (fuel : nat) (orig it : raxIterator) (noup : bool) : option (raxIterator * bool) :=
  match fuel with
  | O => None
  | S fuel =>
      p ← node it;
      if negb noup && bool_decide (p = head r) then Some (restore orig it, true) else
      prevchild ← last_char it;
      let it := if noup then it else let '(p, it) := it_pop it in set_node p it in
      '(it, res) ← next_scan it noup prevchild;
      match res with
      | Some fin => Some (it, fin)
      | None => next_up fuel orig it false
      end
  end.

Fixpoint next_loop (fuel : nat) (orig it : raxIterator) (noup : bool) : option raxIterator :=
  match fuel with
  | O => None
  | S fuel =>
      n ← node_of it;
      let nchildren := if iscompr n then 1 else size n in
      if negb noup && negb (nchildren =? 0) then
        it ← enter n 0 (take (if iscompr n then length (data n) else 1) (data n)) it;
        n ← node_of it;
        if iskey n then load_data it else next_loop fuel orig it false
      else
        '(it, fin) ← next_up (S (S (length (items (stack it))))) orig it noup;
        if (fin : bool) then Some it else next_loop fuel orig it false
  end.

(** Every node is entered at most once. *)
Definition raxIteratorNextStep (it : raxIterator) (noup : bool) : option raxIterator :=
  if fhas RAX_ITER_EOF (flags it) then Some it
  else if fhas RAX_ITER_JUST_SEEKED (flags it) then Some (set_flags (fclear RAX_ITER_JUST_SEEKED (flags it)) it)
  else next_loop (S (base.size (mem r))) it it noup.

Fixpoint seek_greatest (fuel : nat) (it : raxIterator) : option raxIterator :=
  match fuel with
  | O => None
  | S fuel =>
      n ← node_of it;
      if size n =? 0 then Some it else
      it ← (if iscompr n then raxIteratorAddChars it (data n)
            else c ← last (data n); raxIteratorAddChars it [c]);
      p ← node it;
      it ← it_push p it;
      c ← last (children n);
      seek_greatest fuel (set_node c it)
  end.

Definition raxSeekGreatest (it : raxIterator) : option raxIterator := seek_greatest (S (base.size (mem r))) it.

(** The number of edges smaller than [c]: one more than the index of the last
    one in the code's scan from the end. *)
Fixpoint scan_prev (d : list Z) (c : Z) : nat :=
  match d with
  | [] => 0
  | x :: d => if x <? c then length (x :: d) else scan_prev d c
  end.

(** The body of the loop of raxIteratorPrevStep after the way up: the greatest
    key below the edge before [prevchild], or the node itself. *)
Definition prev_scan (it : raxIterator) (noup : bool) (prevchild : Z) : option raxIterator :=
  n ← node_of it;
  it ← raxIteratorDelChars it (if iscompr n then length (data n) else 1);
  if negb (iscompr n) && ((if noup then 0 else 1) <? size n) then
    match scan_prev (rev (data n)) prevchild with
    | O => Some it
    | S i =>
        c ← data n !! i;
        it ← enter n i [c] it;
        raxSeekGreatest it
    end
  else Some it.

Fixpoint prev_loop (fuel : nat) (orig it : raxIterator) (noup : bool) : option raxIterator :=
  match fuel with
  | O => None
  | S fuel =>
      p ← node it;
      if negb noup && bool_decide (p = head r) then Some (restore orig it) else
      prevchild ← last_char it;
      let it := if noup then it else let '(p, it) := it_pop it in set_node p it in
      it ← prev_scan it noup prevchild;
      n ← node_of it;
      if iskey n then load_data it else prev_loop fuel orig it false
  end.

Definition raxIteratorPrevStep (it : raxIterator) (noup : bool) : option raxIterator :=
  if fhas RAX_ITER_EOF (flags it) then Some it
  else if fhas RAX_ITER_JUST_SEEKED (flags it) then Some (set_flags (fclear RAX_ITER_JUST_SEEKED (flags it)) it)
  else prev_loop (S (S (length (items (stack it))))) it it noup.

(** *** Seeking *)

(** The operators of raxSeek: the comparison, with equality or not, and the
    first and the last key. *)
Inductive seek_op := SGt (eq : bool) | SLt (eq : bool) | SEq | SFirst | SLast.

Definition seek_flags (it : raxIterator) : raxIterator :=
  set_node None (set_key_len 0 (set_flags (fclear RAX_ITER_EOF (fset RAX_ITER_JUST_SEEKED (flags it))) (set_items 0 it))).

Definition just_seeked (it : raxIterator) : raxIterator := set_flags (fset RAX_ITER_JUST_SEEKED (flags it)) it.
Definition not_seeked (it : raxIterator) : raxIterator := set_flags (fclear RAX_ITER_JUST_SEEKED (flags it)) it.

(** The walk of the seek, with the iterator's stack. *)
Definition seek_walk (it : raxIterator) (ele : bytes) : option (raxIterator * nat * nat) :=
  w ← raxLowWalk r ele (Some (stack it));
  s ← w_stack w;
  Some (set_node (Some (w_stop w)) (set_stack s (drop (length (items s)) (popped it)) it), w_i w, w_split w).

(** After the walk: the operator is a comparison, [eq], [lt] and [gt] its parts. *)
Definition seek_from (it : raxIterator) (i splitpos : nat) (eq lt gt : bool) (ele : bytes) : option raxIterator :=
  n ← node_of it;
  let len := length ele in
  if eq && (i =? len)%nat && (negb (iscompr n) || (splitpos =? 0)%nat) && iskey n then
    it ← raxIteratorAddChars it ele;
    load_data it
  else if lt || gt then
    it ← raxIteratorAddChars it (take (i - splitpos) ele);
    if negb (i =? len)%nat && negb (iscompr n) then
      c ← ele !! i;
      it ← raxIteratorAddChars it [c];
      let it := not_seeked it in
      it ← (if lt then raxIteratorPrevStep it true else Some it);
      it ← (if gt then raxIteratorNextStep it true else Some it);
      Some (just_seeked it)
    else if negb (i =? len)%nat && iscompr n then
      nodechar ← data n !! splitpos;
      keychar ← ele !! i;
      let it := not_seeked it in
      it ← (if gt then
              if keychar <? nodechar then raxIteratorNextStep it false
              else it ← raxIteratorAddChars it (data n); raxIteratorNextStep it true
            else Some it);
      it ← (if lt then
              if nodechar <? keychar then it ← raxSeekGreatest it; load_data it
              else it ← raxIteratorAddChars it (data n); raxIteratorPrevStep it true
            else Some it);
      Some (just_seeked it)
    else
      let it := not_seeked it in
      it ← (if iscompr n && iskey n && negb (splitpos =? 0)%nat && lt then load_data it
            else
              it ← (if gt then raxIteratorNextStep it false else Some it);
              if lt then raxIteratorPrevStep it false else Some it);
      Some (just_seeked it)
  else Some (set_flags (fset RAX_ITER_EOF (flags it)) it).

Definition seek_key (it : raxIterator) (eq lt gt : bool) (ele : bytes) : option raxIterator :=
  '(it, i, splitpos) ← seek_walk it ele; seek_from it i splitpos eq lt gt ele.

(** The operator from its two characters; the rest of the string is ignored. *)
Definition parse_op (op0 op1 : Z) : option seek_op :=
  if op0 =? 62 then Some (SGt (op1 =? 61))
  else if op0 =? 60 then Some (SLt (op1 =? 61))
  else if op0 =? 61 then Some SEq
  else if op0 =? 94 then Some SFirst
  else if op0 =? 36 then Some SLast
  else None.

(** The boolean is the returned value, false for an operator that is not one. *)
Definition raxSeek (it : raxIterator) (op0 op1 : Z) (ele : bytes) : option (raxIterator * bool) :=
  let it := seek_flags it in
  match parse_op op0 op1 with
  | None => Some (it, false)
  | Some op =>
      it ← (if numele r =? 0 then Some (set_flags (fset RAX_ITER_EOF (flags it)) it)
            else match op with
                 | SFirst => seek_key (seek_flags it) true false true []
                 | SLast =>
                     it ← raxSeekGreatest (set_node (Some (head r)) it);
                     n ← node_of it;
                     if iskey n then load_data it else None
                 | SGt e => seek_key it e false true ele
                 | SLt e => seek_key it e true false ele
                 | SEq => seek_key it true false false ele
                 end);
      Some (it, true)
  end.

(** The result is whether there is an element. *)
Definition raxNext (it : raxIterator) : option (raxIterator * bool) :=
  it ← raxIteratorNextStep it false; Some (it, negb (fhas RAX_ITER_EOF (flags it))).
Definition raxPrev (it : raxIterator) : option (raxIterator * bool) :=
  it ← raxIteratorPrevStep it false; Some (it, negb (fhas RAX_ITER_EOF (flags it))).

Definition raxEOF (it : raxIterator) : bool := fhas RAX_ITER_EOF (flags it).

End steps.

Fixpoint key_memcmp (a b : bytes) (n : nat) : Z :=
  match n, a, b with
  | S n, x :: a, y :: b => if x =? y then key_memcmp a b n else x - y
  | _, _, _ => 0
  end.

(** raxCompare: [op] is the two characters of the operator. *)
Definition raxCompare (it : raxIterator) (op0 op1 : Z) (k : bytes) : bool :=
  let eq := (op0 =? 61) || (op1 =? 61) in
  let gt := op0 =? 62 in
  let lt := negb gt && (op0 =? 60) in
  if negb gt && negb lt && negb (op1 =? 61) then false else
  let minlen := Nat.min (length k) (key_len it) in
  let cmp := key_memcmp (key it) k minlen in
  if negb lt && negb gt then (cmp =? 0) && (length k =? key_len it)%nat else
  if cmp =? 0 then
    if eq && (length k =? key_len it)%nat then true
    else if lt then (key_len it <? length k)%nat
    else if gt then (length k <? key_len it)%nat
    else false
  else if 0 <? cmp then gt else lt.

(** ** Positions *)

Abbreviation frame := (@Rax.frame V).
Abbreviation tree := (@Rax.tree V).
Abbreviation entry := (bytes * value)%type.

(** The key and the stack of an iterator. *)
Definition holds (it : raxIterator) (s : bytes) (ps : list ptr) : Prop :=
  key it = s /\ key_len it = length s /\ items (stack it) = ps /\ zlen ps <= maxitems (stack it) /\ 0 < maxitems (stack it).

(** The iterator is at the node [t] below the frames [K]. *)
Definition at_pos (it : raxIterator) (K : list frame) (t : tree) : Prop :=
  node it = Some (t_ptr t) /\ holds it (path K) (map f_ptr K).

Lemma holds_prefix it s ps : holds it s ps -> exists rest, kbuf it = s ++ rest.
Proof.
  intros (H1 & H2 & _). exists (drop (length s) (kbuf it)). rewrite <- H1 at 1. unfold key. rewrite H2. symmetry. apply take_drop.
Qed.

Lemma last_char_ok it s c ps : holds it (s ++ [c]) ps -> last_char it = Some c.
Proof.
  intros H. destruct (holds_prefix _ _ _ H) as [rest Hk]. destruct H as (_ & H2 & _). unfold last_char. rewrite H2, length_app. cbn.
  replace (length s + 1 =? 0)%nat with false by (symmetry; apply Nat.eqb_neq; lia).
  rewrite Hk, <- app_assoc, lookup_app_r by lia. by replace (length s + 1 - 1 - length s)%nat with 0%nat by lia.
Qed.

Lemma add_chars_ok it s l ps : holds it s ps -> exists it', raxIteratorAddChars it l = Some it' /\ holds it' (s ++ l) ps /\
  node it' = node it /\ flags it' = flags it.
Proof.
  intros H. pose proof H as (H1 & H2 & H3). unfold raxIteratorAddChars.
  destruct (zlen l =? 0) eqn:E; bool_hyps.
  - destruct l; [|rewrite zlen_cons in E; pose proof (zlen_nonneg l); lia]. exists it. rewrite app_nil_r. done.
  - set (len := _ + _). assert (0 <= len) by (unfold len; pose proof (zlen_nonneg l); lia).
    assert (len <= (if key_max it <? len then len * 2 else key_max it)) by (destruct (_ <? _) eqn:Em; bool_hyps; lia).
    replace (len <=? _) with true by lia. eexists. split; [done|]. split_and!; try done.
    unfold holds, key in *. cbn. rewrite H1. split_and!; try apply H3; rewrite H2.
    + rewrite app_assoc, <- length_app. apply take_app_length.
    + by rewrite length_app.
Qed.

Lemma del_chars_ok it s l ps : holds it (s ++ l) ps -> exists it', raxIteratorDelChars it (length l) = Some it' /\ holds it' s ps /\
  node it' = node it /\ flags it' = flags it.
Proof.
  intros H. destruct (holds_prefix _ _ _ H) as [rest Hk]. destruct H as (H1 & H2 & H3). unfold raxIteratorDelChars.
  rewrite H2, length_app. replace (_ <=? _)%nat with true by (symmetry; apply Nat.leb_le; lia). eexists. split; [done|]. split_and!; try done.
  unfold holds, key. cbn. replace (length s + length l - length l)%nat with (length s) by lia. split_and!; try apply H3; [|done].
  rewrite Hk, <- app_assoc. apply take_app_length.
Qed.

Lemma it_push_ok it s ps p : holds it s ps -> exists it', it_push p it = Some it' /\ holds it' s (p :: ps) /\ flags it' = flags it.
Proof.
  intros (H1 & H2 & H3 & H4 & H5). unfold it_push. rewrite <- H3 in H4.
  destruct (raxStackPush_ok (stack it) p H4 H5) as (s' & -> & Hi & Hm & Hp). bnd. eexists. split; [done|]. split_and!; try done.
  unfold holds. cbn. rewrite <- H3. split_and!; try done. by rewrite <- Hi.
Qed.

Lemma it_pop_ok it s ps p : holds it s (p :: ps) -> exists it', it_pop it = (Some p, it') /\ holds it' s ps /\ flags it' = flags it.
Proof.
  intros (H1 & H2 & H3 & H4 & H5). unfold it_pop, raxStackPop. rewrite H3. eexists. split; [done|]. split_and!; try done.
  unfold holds. cbn. rewrite zlen_cons in H4. split_and!; try done. lia.
Qed.

(** *** The specification: a cursor in the sorted list of the entries *)

Fixpoint lexb (a b : bytes) : bool :=
  match a, b with
  | [], _ :: _ => true
  | x :: a, y :: b => (x <? y) || (x =? y) && lexb a b
  | _, [] => false
  end.

Lemma lexb_lex a b : lexb a b = true <-> lex a b.
Proof.
  revert b. induction a as [|x a IH]; intros [|y b]; cbn; try done. rewrite orb_true_iff, andb_true_iff, IH, Z.ltb_lt, Z.eqb_eq. tauto.
Qed.

Fixpoint span (p : entry -> bool) (xs : list entry) : list entry * list entry :=
  match xs with
  | [] => ([], [])
  | x :: xs => if p x then let '(a, b) := span p xs in (x :: a, b) else ([], x :: xs)
  end.

(** An entry of the list with the entries before and after it. *)
Definition place : Type := list entry * entry * list entry.

Definition first_of (B A : list entry) : option place := match A with [] => None | x :: A => Some (B, x, A) end.
Definition last_of (B A : list entry) : option place := x ← last B; Some (removelast B, x, A).

Definition seek_spec (op : seek_op) (s : bytes) (xs : list entry) : option place :=
  let '(lt, ge) := span (fun x => lexb x.1 s) xs in
  let '(le, gt) := span (fun x => lexb x.1 s || bool_decide (x.1 = s)) xs in
  match op with
  | SGt e => if e then first_of lt ge else first_of le gt
  | SLt e => if e then last_of le gt else last_of lt ge
  | SEq => match first_of lt ge with Some (B, x, A) => if bool_decide (x.1 = s) then Some (B, x, A) else None | None => None end
  | SFirst => first_of [] xs
  | SLast => last_of xs []
  end.

(** A cursor at an entry, with a boolean that tells that it was just placed by
    a seek, or at the end. *)
Definition cursor : Type := option (bool * place).

Definition cursor_step (forward : bool) (c : cursor) : cursor :=
  match c with
  | None => None
  | Some (true, z) => Some (false, z)
  | Some (false, (B, x, A)) => pair false <$> (if forward then first_of (B ++ [x]) A else last_of B (x :: A))
  end.

(** The flags and the stack after a step that finds no entry. *)
Definition ended (f : Z) (it : raxIterator) : Prop := flags it = fset RAX_ITER_EOF f /\ 0 < maxitems (stack it).

Section positions.
Context (max_size : Z) (r : rax V) (T : tree).
Context (R : Rax.rep max_size r T) (Halive : alive T).

Lemma node_at it K t : plug K t = T -> at_pos it K t ->
  exists n, node_of r it = Some n /\ matches n t /\ Rax.wf max_size t.
Proof.
  intros <- [Hn _]. destruct t as [p k c es]. destruct (rep_focus _ _ _ _ _ _ _ R) as (n & H & Hm & _ & _ & _ & Hw & _).
  exists n. unfold node_of. by rewrite Hn.
Qed.

Lemma alive_at K t : plug K t = T -> alive t /\ (K = [] \/ live t).
Proof. intros <-. by destruct (alive_plug_inv _ _ Halive) as (? & _ & ?). Qed.

(** The iterator is at an entry, with the entries before and after it. *)
Definition found (it : raxIterator) (B : list entry) (x : entry) (A : list entry) : Prop :=
  exists K p d c es, plug K (TNode p (Some d) c es) = T /\ at_pos it K (TNode p (Some d) c es) /\ it_data it = Some d /\
    B = before K /\ x = (path K, d) /\ A = map (prep (path K)) (eentries es) ++ after K.

Lemma found_entries it B x A : found it B x A -> entries T = B ++ x :: A.
Proof.
  intros (K & p & d & c & es & <- & _ & _ & -> & -> & ->). rewrite entries_plug, entries_eq. cbn. unfold prep at 1. cbn. by rewrite app_nil_r.
Qed.

Lemma load_ok it K p d c es : plug K (TNode p (Some d) c es) = T -> at_pos it K (TNode p (Some d) c es) ->
  exists it', load_data r it = Some it' /\ flags it' = flags it /\
    found it' (before K) (path K, d) (map (prep (path K)) (eentries es) ++ after K).
Proof.
  intros HT Hp. destruct (node_at it K _ HT Hp) as (n & Hn & (Hk & _) & _). unfold load_data. rewrite Hn. bnd.
  rewrite (get_data_ok _ _ _ Hk eq_refl). bnd. eexists. split_and!; [done..|]. exists K, p, d, c, es. split_and!; try done.
Qed.

Lemma enter_ok it n K p k c L l u Rt i : matches n (TNode p k c (L ++ (l, u) :: Rt)) ->
  at_pos it K (TNode p k c (L ++ (l, u) :: Rt)) -> i = length L ->
  exists it', enter n i l it = Some it' /\ flags it' = flags it /\ at_pos it' (mkF p k c L l Rt :: K) u.
Proof.
  intros (_ & _ & _ & Hch & _) [Hn Hh] ->. unfold enter. destruct (add_chars_ok it _ l _ Hh) as (it1 & -> & H1 & N1 & F1). bnd.
  rewrite N1, Hn. bnd. cbn [t_ptr]. destruct (it_push_ok it1 _ _ p H1) as (it2 & -> & H2 & F2). bnd.
  rewrite Hch. unfold edge_ptrs. rewrite map_app, lookup_app_r, length_map, Nat.sub_diag by (rewrite length_map; lia). cbn.
  eexists. split_and!; [done|cbn; congruence|]. split; [done|]. exact H2.
Qed.

(** Where a forward step gets to, for the entries [X] that come next: the
    first of them, or a node above it that is not a key. *)
Definition reached (it : raxIterator) (fin : bool) (X : list entry) : Prop :=
  if fin then exists B x A, found it B x A /\ X = x :: A
  else exists K p c es, plug K (TNode p None c es) = T /\ K <> [] /\ at_pos it K (TNode p None c es) /\
    X = map (prep (path K)) (eentries es) ++ after K.

(** After entering a child. *)
Lemma reach_child it K t : plug K t = T -> K <> [] -> at_pos it K t ->
  exists n it' fin, node_of r it = Some n /\
    (if iskey n then it ← load_data r it; Some (it, Some true) else Some (it, Some false)) = Some (it', Some fin) /\
    flags it' = flags it /\ reached it' fin (map (prep (path K)) (entries t) ++ after K).
Proof.
  intros HT HK Hp. destruct (node_at it K t HT Hp) as (n & Hn & Hm & _). exists n. destruct t as [p k c es]. destruct Hm as [Hk _].
  rewrite (iskey_ok _ _ Hk). destruct k as [d|].
  - destruct (load_ok it K p d c es HT Hp) as (it' & -> & Hf & Hx). exists it', true. split_and!; try done.
    do 3 eexists. split; [exact Hx|]. rewrite entries_eq. cbn. unfold prep at 1. cbn. by rewrite app_nil_r.
  - exists it, false. split_and!; try done. by exists K, p, c, es.
Qed.

Lemma length_singles (es : list (bytes * tree)) cs : map fst es = map (fun x : Z => [x]) cs -> length cs = length es.
Proof. intros H. apply (f_equal length) in H. by rewrite !length_map in H. Qed.

(** The character at the index of an edge. *)
Lemma single_at (L Rt : list (bytes * tree)) l u cs : map fst (L ++ (l, u) :: Rt) = map (fun x : Z => [x]) cs ->
  exists x, l = [x] /\ cs !! length L = Some x.
Proof.
  intros H. apply (f_equal (fun l => l !! length L)) in H. rewrite map_app, lookup_app_r, length_map, Nat.sub_diag in H by (rewrite length_map; lia).
  cbn in H. symmetry in H. rewrite list_lookup_fmap_Some in H. destruct H as (x & -> & H). eauto.
Qed.

Lemma next_scan_ok it K p k c es lab pc noup L Rt : plug K (TNode p k c es) = T -> node it = Some p ->
  holds it (path K ++ lab) (map f_ptr K) -> es = L ++ Rt ->
  (if c then Rt = [] /\ length lab = length (concat (map fst es))
   else length lab = 1%nat /\ add_pos (concat (map fst es)) pc = length L /\ (noup = true \/ L <> [])) ->
  exists it' res, next_scan r it noup pc = Some (it', res) /\ flags it' = flags it /\
    match res with
    | None => Rt = [] /\ at_pos it' K (TNode p k c es)
    | Some fin => reached it' fin (map (prep (path K)) (eentries Rt) ++ after K)
    end.
Proof.
  intros HT Hn Hh Hes Hc. unfold next_scan.
  assert (exists n, node_of r it = Some n /\ matches n (TNode p k c es) /\ Rax.wf max_size (TNode p k c es)) as (n & Hno & Hm & [[_ Hw] _]%wf_eq).
  { pose proof R as R'. rewrite <- HT in R'. destruct (rep_focus _ _ _ _ _ _ _ R') as (n & H & Hm & _ & _ & _ & Hw & _). exists n. unfold node_of. by rewrite Hn. }
  rewrite Hno. bnd. pose proof Hm as (_ & Hcn & Hd & _). rewrite Hcn.
  destruct (del_chars_ok it _ lab _ Hh) as (it1 & Hdel & H1 & N1 & F1).
  assert (Hlen : (if c then length (data n) else 1%nat) = length lab) by (rewrite Hd; destruct c; destruct Hc; congruence).
  assert (Hp1 : at_pos it1 K (TNode p k c es)) by (split; [cbn; congruence|done]).
  rewrite Hlen, Hdel. bnd. destruct c.
  { destruct Hc as [-> _]. cbn [negb andb]. by exists it1, None. }
  destruct Hc as (_ & Hpos & HL). destruct Hw as (cs & Hcs & _). pose proof (length_singles _ _ Hcs) as Hl.
  unfold size, zlen. rewrite Hd, Hpos, Hcs, concat_singles, Hl, Hes, length_app. destruct Rt as [|[l u] Rt].
  { replace (negb (_ =? _)%nat) with false by (cbn; rewrite Nat.add_0_r, Nat.eqb_refl; done). rewrite andb_false_r. exists it1, None. done. }
  replace (negb (_ =? _)%nat) with true by (symmetry; apply negb_true_iff, Nat.eqb_neq; cbn; lia).
  replace ((if noup then 0 else 1) <? _) with true by (destruct HL as [->|HL]; [cbn [length]; lia|destruct L; [done|]; destruct noup; cbn [length]; lia]).
  cbn [negb andb]. rewrite Hes in Hcs. destruct (single_at _ _ _ _ _ Hcs) as (x & -> & ->). bnd. subst es.
  destruct (enter_ok it1 n K p k false L [x] u Rt (length L) Hm Hp1 eq_refl) as (it2 & -> & F2 & Hp2). bnd.
  destruct (reach_child it2 (mkF p k false L [x] Rt :: K) u HT ltac:(done) Hp2) as (n2 & it3 & fin & -> & Hl3 & F3 & Hre). bnd. rewrite Hl3.
  exists it3, (Some fin). split_and!; [done|congruence|]. rewrite eentries_cons, map_app, <- app_assoc, map_prep_prep. exact Hre.
Qed.

Lemma plug_head (K : list frame) t : t_ptr (plug K t) ∈ t_ptr t :: kptrs K.
Proof.
  revert t. induction K as [|F K IH]; intros t; cbn [plug kptrs]; [rewrite elem_of_cons; auto|].
  specialize (IH (fill F t)). cbn [t_ptr fill] in IH. rewrite elem_of_cons in IH. rewrite !elem_of_cons, elem_of_app. tauto.
Qed.

Lemma not_head F K t : plug (F :: K) t = T -> t_ptr t <> head r.
Proof.
  intros HT Heq. pose proof (rep_nodup _ _ _ R) as Hnd. rewrite (rep_head _ _ _ R) in Heq. rewrite <- HT in Hnd, Heq. rewrite ptrs_plug in Hnd.
  apply NoDup_app in Hnd as (_ & Hnd & _). apply (Hnd (t_ptr t)); [apply t_ptr_in_ptrs|]. rewrite Heq. cbn [plug kptrs].
  pose proof (plug_head K (fill F t)) as H. rewrite elem_of_cons, elem_of_app. rewrite elem_of_cons in H. cbn in H. tauto.
Qed.

Lemma head_at t : plug [] t = T -> t_ptr t = head r.
Proof. cbn. intros ->. symmetry. apply R. Qed.

(** The label of a frame and the last character of a path. *)
Lemma frame_label F K t : plug (F :: K) t = T ->
  exists s x, path (F :: K) = s ++ [x] /\
    if f_compr F then f_left F = [] /\ f_right F = []
    else f_lab F = [x] /\ exists cl cr, StronglySorted Z.lt (cl ++ x :: cr) /\
      map fst (f_left F) = map (fun x => [x]) cl /\ map fst (f_right F) = map (fun x => [x]) cr.
Proof.
  intros HT. pose proof (rep_wf _ _ _ R) as Hw. rewrite <- HT in Hw. cbn [plug] in Hw. apply wf_plug in Hw as [[[_ Hw] _]%wf_eq _].
  rewrite map_app in Hw. cbn [map fst] in Hw. cbn [path]. destruct (f_compr F).
  - destruct Hw as (l & Hl & Hl2 & _). destruct (f_left F) as [|? [|??]]; cbn in Hl; [|done..]. injection Hl as Hl Hr.
    destruct (exists_last (l := f_lab F)) as (s & x & Hs); [intros H; rewrite <- Hl, H in Hl2; cbn in Hl2; lia|].
    exists (path K ++ s), x. rewrite Hs, app_assoc. split_and!; try done. by destruct (f_right F).
  - destruct Hw as (cs & Hcs & Hso). symmetry in Hcs. apply fmap_app_inv in Hcs as (cl & cr & Hl & Hr & ->). symmetry in Hr.
    destruct cr as [|x cr]; [done|]. cbn in Hr. injection Hr as Hx Hr. exists (path K), x. rewrite <- Hx. split_and!; try done.
    by exists cl, cr.
Qed.

Lemma add_pos_here cl x cr : StronglySorted Z.lt (cl ++ x :: cr) -> add_pos (cl ++ x :: cr) x = S (length cl).
Proof.
  induction cl as [|y cl IH]; cbn; intros H; apply StronglySorted_inv in H as [H1 H2].
  - if_lia. f_equal. destruct cr as [|z cr]; [done|]. apply Forall_cons in H2 as [H2 _]. cbn. by if_lia.
  - rewrite Forall_app, Forall_cons in H2. if_lia. by rewrite IH.
Qed.

Lemma next_up_ok : forall K t it fuel orig, (length K < fuel)%nat -> plug K t = T -> at_pos it K t ->
  exists it' fin, next_up r fuel orig it false = Some (it', fin) /\
    (after K = [] /\ fin = true /\ ended (flags it) it' \/ flags it' = flags it /\ reached it' fin (after K)).
Proof.
  induction K as [|F K IH]; intros t it [|fuel] orig Hf HT [Hn Hh]; try (cbn in Hf; lia); cbn [next_up]; rewrite Hn; bnd; cbn [negb andb].
  { rewrite bool_decide_true by (by apply head_at). do 2 eexists. split; [done|]. left. split_and!; try done. split; [done|]. apply Hh. }
  rewrite bool_decide_false by (by apply (not_head F K)). destruct (frame_label F K t HT) as (s & x & Hs & Hw).
  rewrite Hs in Hh. rewrite (last_char_ok _ _ _ _ Hh). bnd. rewrite <- Hs in Hh. cbn [map] in Hh.
  destruct (it_pop_ok it _ _ _ Hh) as (it1 & -> & H1 & F1). set (it2 := set_node _ _).
  destruct (next_scan_ok it2 K (f_ptr F) (f_key F) (f_compr F) (f_left F ++ (f_lab F, t) :: f_right F) (f_lab F) x false
    (f_left F ++ [(f_lab F, t)]) (f_right F) HT eq_refl H1) as (it3 & res & -> & F3 & Hres).
  { by rewrite <- app_assoc. }
  { rewrite map_app. cbn [map fst]. destruct (f_compr F).
    - destruct Hw as [-> ->]. cbn. by rewrite app_nil_r.
    - destruct Hw as (-> & cl & cr & Hso & Hcl & ->). pose proof (length_singles _ _ Hcl) as Hl. rewrite Hcl. split_and!; [done| |right; by destruct (f_left F)].
      change ([x] :: map _ cr) with (map (fun x => [x]) (x :: cr)). rewrite <- map_app, concat_singles, add_pos_here, length_app by done. cbn. lia. }
  bnd. change (flags it2) with (flags it1) in F3. destruct res as [fin|].
  - exists it3, fin. split; [done|]. right. split; [congruence|done].
  - destruct Hres as [Hr Hp]. destruct (IH (fill F t) it3 fuel orig) as (it' & fin & H & H'); [cbn in Hf; lia|done..|].
    exists it', fin. split; [done|]. cbn [after]. rewrite Hr, F3, F1 in *. exact H'.
Qed.

(** The way down to the first key below a node. *)
Lemma descend_ok : forall fuel t K it orig, (length (subs t) <= fuel)%nat -> plug K t = T -> at_pos it K t -> t_edges t <> [] ->
  exists it' B x A, next_loop r fuel orig it false = Some it' /\ flags it' = flags it /\ found it' B x A /\
    map (prep (path K)) (eentries (t_edges t)) ++ after K = x :: A.
Proof.
  induction fuel as [|fuel IH]; intros [p k c es] K it orig Hf HT Hp He; [cbn in Hf; lia|].
  destruct (node_at it K _ HT Hp) as (n & Hn & Hm & [[_ Hw] _]%wf_eq). destruct (alive_at K _ HT) as [[Hl Ha]%alive_eq _].
  cbn [next_loop t_edges] in *. destruct es as [|[l u] es]; [done|]. pose proof Hm as (_ & Hc & Hd & _). rewrite Hn. bnd. rewrite Hc.
  assert (take (if c then length (data n) else 1%nat) (data n) = l /\ negb ((if c then 1 else size n) =? 0) = true) as [-> ->].
  { rewrite Hd. unfold size. rewrite Hd. destruct c.
    - destruct Hw as (l' & Hw & _). destruct es; [|done]. cbn. rewrite app_nil_r. split; [by apply take_ge|done].
    - destruct Hw as ([|x cs] & Hw & _); cbn in Hw; [done|]. injection Hw as -> Hw. cbn. rewrite take_0, zlen_cons. split; [done|].
      pose proof (zlen_nonneg (concat (map fst es))). apply negb_true_iff. lia. }
  cbn [negb andb].
  destruct (enter_ok it n K p k c [] l u es 0 Hm Hp eq_refl) as (it1 & -> & F1 & Hp1). bnd.
  destruct (reach_child it1 (mkF p k c [] l es :: K) u HT ltac:(done) Hp1) as (n1 & it2 & fin & Hn1 & Hl2 & F2 & Hre). rewrite Hn1. bnd.
  rewrite eentries_cons, map_app, map_prep_prep, <- app_assoc. cbn [fst snd].
  change (map (prep (path K)) (eentries es) ++ after K) with (after (mkF p k c [] l es :: K)).
  change (path K ++ l) with (path (mkF p k c [] l es :: K)). set (K' := mkF p k c [] l es :: K) in *.
  assert (Hsz : (length (subs u) <= fuel)%nat) by (rewrite subs_eq, esubs_cons in Hf; cbn in Hf; rewrite length_app in Hf; lia).
  rewrite Forall_cons in Hl. destruct Hl as [Hl _]. cbn [snd] in Hl. destruct (iskey n1) eqn:Ek.
  - destruct (load_data r it1) as [it3|]; [|done]. cbn in Hl2. injection Hl2 as -> <-. destruct Hre as (B & x & A & Hx & HX).
    exists it2, B, x, A. split_and!; try done. congruence.
  - injection Hl2 as <- <-. destruct (node_at it1 K' u HT Hp1) as (n' & Hn' & Hm' & _). simplify_eq. destruct u as [pu ku cu eu].
    destruct Hm' as [Hk' _]. rewrite (iskey_ok _ _ Hk') in Ek. destruct ku as [|]; [done|]. destruct Hl as [[? ?]|Hl]; [done|].
    destruct (IH _ K' it1 orig Hsz HT Hp1 Hl) as (it' & B & x & A & -> & Ff & Hx & HX). exists it', B, x, A. split_and!; try done. congruence.
Qed.

Lemma subs_le K t : plug K t = T -> (length (subs t) <= base.size (mem r))%nat.
Proof.
  intros HT. rewrite (size_ptrs _ _ _ R), <- HT, ptrs_plug, length_app. unfold ptrs. rewrite length_map. lia.
Qed.

(** The next entry is the first of [X], or there is none. *)
Definition stepped (it it' : raxIterator) (X : list entry) : Prop :=
  X = [] /\ ended (flags it) it' \/
  flags it' = flags it /\ exists B x A, found it' B x A /\ X = x :: A.

(** The end of a way up that is not the end of the step. *)
Lemma finish_ok fuel orig it it1 fin K t X : plug K t = T -> (base.size (mem r) <= fuel)%nat ->
  X = [] /\ fin = true /\ ended (flags it) it1 \/ flags it1 = flags it /\ reached it1 fin X ->
  exists it', (if fin then Some it1 else next_loop r fuel orig it1 false) = Some it' /\ stepped it it' X.
Proof.
  intros HT Hf [(-> & -> & Hfl)|[Hfl Hre]]; [exists it1; split; [done|by left]|]. destruct fin.
  - exists it1. split; [done|]. right. split; [done|]. exact Hre.
  - destruct Hre as (K' & p & c & es & HT' & HK & Hp & ->). destruct (alive_at K' _ HT') as [_ Hl].
    destruct Hl as [?|[[? ?]|Hl]]; [done..|]. pose proof (subs_le _ _ HT') as Hs.
    destruct (descend_ok fuel (TNode p None c es) K' it1 orig ltac:(lia) HT' Hp Hl) as (it' & B & x & A & -> & Ff & Hx & HX).
    exists it'. split; [done|]. right. split; [congruence|]. by exists B, x, A.
Qed.

Lemma next_loop_ok it K t : plug K t = T -> at_pos it K t ->
  exists it', next_loop r (S (base.size (mem r))) it it false = Some it' /\
    stepped it it' (map (prep (path K)) (eentries (t_edges t)) ++ after K).
Proof.
  intros HT Hp. pose proof (subs_le _ _ HT) as Hs. destruct t as [p k c es]. destruct (decide (es = [])) as [->|He].
  - destruct (node_at it K _ HT Hp) as (n & Hn & (_ & Hc & Hd & _) & [[_ Hw] _]%wf_eq). cbn [next_loop t_edges]. rewrite Hn. bnd.
    assert ((if iscompr n then 1 else size n) = 0) as ->.
    { rewrite Hc. destruct c; [by destruct Hw as (? & ? & _)|]. unfold size. by rewrite Hd. }
    cbn [negb andb Z.eqb].
    destruct (next_up_ok K _ it (S (S (length (items (stack it))))) it ltac:(destruct Hp as (_ & _ & _ & -> & _); rewrite length_map; lia) HT Hp) as (it1 & fin & -> & H). bnd.
    by apply (finish_ok _ _ _ _ _ K (TNode p k c [])).
  - destruct (descend_ok (S (base.size (mem r))) (TNode p k c es) K it it ltac:(lia) HT Hp He) as (it' & B & x & A & -> & Ff & Hx & HX).
    exists it'. split; [done|]. right. split; [done|]. by exists B, x, A.
Qed.

(** Without going up: the key goes on with a character that is not an edge. *)
Lemma next_noup_ok it K p k c es lab pc s L Rt : plug K (TNode p k c es) = T -> node it = Some p ->
  holds it (path K ++ lab) (map f_ptr K) -> lab = s ++ [pc] -> es = L ++ Rt ->
  (if c then Rt = [] /\ length lab = length (concat (map fst es))
   else length lab = 1%nat /\ add_pos (concat (map fst es)) pc = length L) ->
  exists it', next_loop r (S (base.size (mem r))) it it true = Some it' /\
    stepped it it' (map (prep (path K)) (eentries Rt) ++ after K).
Proof.
  intros HT Hn Hh Hlab Hes Hc. cbn [next_loop].
  assert (exists n, node_of r it = Some n) as [n Hno].
  { pose proof R as R'. rewrite <- HT in R'. destruct (rep_focus _ _ _ _ _ _ _ R') as (n & H & _). exists n. unfold node_of. by rewrite Hn. }
  rewrite Hno. bnd. cbn [negb andb].
  cut (exists it1 fin, next_up r (S (S (length (items (stack it))))) it it true = Some (it1, fin) /\
    (map (prep (path K)) (eentries Rt) ++ after K = [] /\ fin = true /\ ended (flags it) it1 \/
     flags it1 = flags it /\ reached it1 fin (map (prep (path K)) (eentries Rt) ++ after K))).
  { intros (it1 & fin & -> & H). bnd. by apply (finish_ok _ _ _ _ _ K (TNode p k c es)). }
  set (fuel := S (length _)). cbn [next_up]. rewrite Hn. bnd. cbn [negb andb].
  rewrite Hlab, app_assoc in Hh. rewrite (last_char_ok _ _ _ _ Hh). bnd. rewrite <- app_assoc, <- Hlab in Hh.
  destruct (next_scan_ok it K p k c es lab pc true L Rt HT Hn Hh Hes) as (it1 & res & -> & F1 & Hres).
  { destruct c; [done|]. destruct Hc. auto. }
  bnd. destruct res as [fin|]; [exists it1, fin; auto|]. destruct Hres as [-> Hp].
  destruct (next_up_ok K _ it1 fuel it ltac:(unfold fuel; destruct Hh as (_ & _ & -> & _); rewrite length_map; lia) HT Hp) as (it2 & fin & -> & H).
  exists it2, fin. split; [done|]. by rewrite F1 in H.
Qed.

(** *** Backwards *)

Lemma seek_greatest_ok : forall fuel t K it, (length (subs t) <= fuel)%nat -> plug K t = T -> at_pos it K t ->
  exists it' K' p k c, seek_greatest r fuel it = Some it' /\ flags it' = flags it /\ plug K' (TNode p k c []) = T /\
    at_pos it' K' (TNode p k c []) /\ after K' = after K.
Proof.
  induction fuel as [|fuel IH]; intros [p k c es] K it Hf HT Hp; [cbn in Hf; lia|].
  destruct (node_at it K _ HT Hp) as (n & Hn & Hm & [[_ Hw] _]%wf_eq). cbn [seek_greatest]. rewrite Hn. bnd.
  pose proof Hm as (_ & Hc & Hd & Hch & _). destruct (decide (es = [])) as [->|He].
  { unfold size. rewrite Hd. cbn. by exists it, K, p, k, c. }
  destruct (exists_last He) as (L & [l u] & ->). rewrite Hc, Hch.
  assert (Hadd : (size n =? 0) = false /\ (if c then raxIteratorAddChars it (data n) else x ← last (data n); raxIteratorAddChars it [x]) = raxIteratorAddChars it l).
  { unfold size. rewrite Hd. destruct c.
    - destruct Hw as (l' & Hw & Hl & _). destruct L as [|? [|??]]; [|done..]. cbn in *. injection Hw as ->. rewrite app_nil_r. split; [|done]. unfold zlen. lia.
    - destruct Hw as (cs & Hw & _). rewrite Hw, concat_singles. destruct (single_at L [] l u cs Hw) as (x & -> & Hx).
      rewrite last_lookup, (length_singles _ _ Hw), length_app. cbn. rewrite Nat.add_1_r. cbn. rewrite Hx. split; [|done].
      apply lookup_lt_Some in Hx. unfold zlen. lia. }
  destruct Hadd as [-> ->]. destruct (add_chars_ok it _ l _ (proj2 Hp)) as (it1 & -> & H1 & N1 & F1). bnd. rewrite N1, (proj1 Hp). bnd. cbn [t_ptr].
  destruct (it_push_ok it1 _ _ p H1) as (it2 & -> & H2 & F2). bnd.
  unfold edge_ptrs. rewrite map_app. cbn [map snd]. rewrite last_snoc. bnd.
  destruct (IH u (mkF p k c L l [] :: K) (set_node (Some (t_ptr u)) it2)) as (it' & K' & p' & k' & c' & -> & Ff & HT' & Hp' & Ha').
  - rewrite subs_eq, esubs_app, esubs_cons in Hf. cbn in Hf. rewrite !length_app in Hf. lia.
  - done.
  - split; [done|]. exact H2.
  - exists it', K', p', k', c'. split_and!; try done. cbn in Ff. congruence.
Qed.

Definition greatest (it : raxIterator) (Y : list entry) : Prop :=
  exists K p d c, plug K (TNode p (Some d) c []) = T /\ at_pos it K (TNode p (Some d) c []) /\ after K = Y.

Lemma raxSeekGreatest_ok it K t : entries T <> [] -> plug K t = T -> at_pos it K t ->
  exists it', raxSeekGreatest r it = Some it' /\ flags it' = flags it /\ greatest it' (after K).
Proof.
  intros HE HT Hp. pose proof (subs_le _ _ HT). unfold raxSeekGreatest.
  destruct (seek_greatest_ok (S (base.size (mem r))) t K it ltac:(lia) HT Hp) as (it' & K' & p & k & c & -> & Hf & HT' & Hp' & Ha).
  exists it'. split_and!; try done. destruct k as [d|]; [by exists K', p, d, c|]. exfalso.
  destruct (alive_at _ _ HT') as [_ [->|[[? ?]|?]]]; [|done..]. apply HE. by rewrite <- HT'.
Qed.

Lemma add_pos_split (cl cr : bytes) c : Forall (fun x => x <= c) cl -> Forall (fun x => c < x) cr -> add_pos (cl ++ cr) c = length cl.
Proof.
  intros H1 H2. induction H1 as [|x cl Hx H1 IH]; cbn.
  - destruct H2; cbn; [done|]. by if_lia.
  - if_lia. by rewrite IH.
Qed.

Lemma scan_prev_split (cl cr : bytes) c : Forall (fun x => x < c) cl -> Forall (fun x => c <= x) cr -> scan_prev (rev (cl ++ cr)) c = length cl.
Proof.
  intros H1 H2. rewrite rev_app_distr. assert (Forall (fun x => c <= x) (rev cr)) as H3 by (by apply List.Forall_rev). clear H2.
  induction H3 as [|x l Hx H3 IH]; cbn; [|by if_lia].
  destruct (rev cl) as [|y l] eqn:E; [by apply (f_equal length) in E; rewrite length_rev in E; cbn in *; lia|].
  assert (y ∈ cl) as Hy by (apply list_elem_of_In, in_rev; rewrite E; by left). rewrite Forall_forall in H1. specialize (H1 _ Hy). cbn [scan_prev]. if_lia.
  by rewrite <- E, length_rev.
Qed.

Lemma scan_prev_here cl x cr : StronglySorted Z.lt (cl ++ x :: cr) -> scan_prev (rev (cl ++ x :: cr)) x = length cl.
Proof.
  intros H. apply StronglySorted_app in H as (H & _ & [_ H2]%StronglySorted_inv). apply scan_prev_split.
  - apply Forall_forall. intros y Hy. apply H; [done|]. rewrite elem_of_cons. auto.
  - constructor; [lia|]. eapply Forall_impl; [exact H2|]. cbn. lia.
Qed.

Lemma prev_scan_ok it K p k c es lab pc noup L Rt : entries T <> [] -> plug K (TNode p k c es) = T -> node it = Some p ->
  holds it (path K ++ lab) (map f_ptr K) -> es = L ++ Rt ->
  (if c then L = [] /\ length lab = length (concat (map fst es))
   else length lab = 1%nat /\ scan_prev (rev (concat (map fst es))) pc = length L /\ (noup = true \/ Rt <> [])) ->
  exists it', prev_scan r it noup pc = Some it' /\ flags it' = flags it /\
    (L = [] /\ at_pos it' K (TNode p k c es) \/ greatest it' (map (prep (path K)) (eentries Rt) ++ after K)).
Proof.
  intros HE HT Hn Hh Hes Hc. unfold prev_scan.
  assert (exists n, node_of r it = Some n /\ matches n (TNode p k c es) /\ Rax.wf max_size (TNode p k c es)) as (n & Hno & Hm & [[_ Hw] _]%wf_eq).
  { pose proof R as R'. rewrite <- HT in R'. destruct (rep_focus _ _ _ _ _ _ _ R') as (n & H & Hm & _ & _ & _ & Hw & _). exists n. unfold node_of. by rewrite Hn. }
  rewrite Hno. bnd. pose proof Hm as (_ & Hcn & Hd & _). rewrite Hcn.
  destruct (del_chars_ok it _ lab _ Hh) as (it1 & Hdel & H1 & N1 & F1).
  assert (Hlen : (if c then length (data n) else 1%nat) = length lab) by (rewrite Hd; destruct c; destruct Hc; congruence).
  assert (Hp1 : at_pos it1 K (TNode p k c es)) by (split; [cbn; congruence|done]).
  rewrite Hlen, Hdel. bnd. destruct c.
  { destruct Hc as [-> _]. cbn [negb andb]. exists it1. auto. }
  destruct Hc as (_ & Hpos & HR). destruct Hw as (cs & Hcs & _). pose proof (length_singles _ _ Hcs) as Hl.
  rewrite Hd, Hpos. destruct (decide (L = [])) as [->|HL].
  { exists it1. cbn [length]. destruct (negb _ && _); auto. }
  destruct (exists_last HL) as (L' & [l u] & ->). rewrite <- app_assoc in Hes. cbn [app] in Hes.
  unfold size, zlen. rewrite Hd, Hcs, concat_singles, Hl, Hes, !length_app. cbn [length].
  replace ((if noup then 0 else 1) <? _) with true by (destruct HR as [->|HR]; [lia|destruct Rt; [done|]; destruct noup; cbn [length]; lia]).
  cbn [negb andb]. rewrite Nat.add_1_r. rewrite Hes in Hcs. destruct (single_at _ _ _ _ _ Hcs) as (x & -> & ->). bnd. rewrite Hes in Hm, Hp1, HT.
  destruct (enter_ok it1 n K p k false L' [x] u Rt (length L') Hm Hp1 eq_refl) as (it2 & -> & F2 & Hp2). bnd.
  destruct (raxSeekGreatest_ok it2 (mkF p k false L' [x] Rt :: K) u HE HT Hp2) as (it3 & -> & F3 & Hg).
  exists it3. split_and!; [done|congruence|by right].
Qed.

(** The previous entry is the last one before the entries [Y], or there is none. *)
Definition stepped_back (it it' : raxIterator) (Y : list entry) : Prop :=
  entries T = Y /\ ended (flags it) it' \/
  flags it' = flags it /\ exists B x, found it' B x Y.

Lemma greatest_load it Y : greatest it Y -> exists n it', node_of r it = Some n /\ iskey n = true /\
  load_data r it = Some it' /\ flags it' = flags it /\ exists B x, found it' B x Y.
Proof.
  intros (K & p & d & c & HT & Hp & <-). destruct (node_at it K _ HT Hp) as (n & Hn & (Hk & _) & _).
  destruct (load_ok it K p d c [] HT Hp) as (it' & H & Hf & Hx). exists n, it'. split_and!; try done; [by rewrite (iskey_ok _ _ Hk)|].
  by do 2 eexists.
Qed.

(** The rest of an iteration of the loop, after the scan of a node. *)
Lemma prev_rest_ok it it1 K p k c L Rt fuel orig : plug K (TNode p k c (L ++ Rt)) = T ->
  (L = [] /\ at_pos it1 K (TNode p k c (L ++ Rt)) \/ greatest it1 (map (prep (path K)) (eentries Rt) ++ after K)) -> flags it1 = flags it ->
  (L = [] -> k = None -> at_pos it1 K (TNode p k c (L ++ Rt)) -> exists it', prev_loop r fuel orig it1 false = Some it' /\ stepped_back it1 it' (map (prep (path K)) (entries (TNode p k c Rt)) ++ after K)) ->
  exists it', (n ← node_of r it1; if iskey n then load_data r it1 else prev_loop r fuel orig it1 false) = Some it' /\
    stepped_back it it' (map (prep (path K)) (eentries Rt) ++ after K).
Proof.
  intros HT [[-> Hp]|Hg] Hf IH.
  - cbn [app] in *. destruct (node_at it1 K _ HT Hp) as (n & -> & (Hk & _) & _). bnd. rewrite (iskey_ok _ _ Hk). destruct k as [d|].
    + destruct (load_ok it1 K p d c Rt HT Hp) as (it' & -> & Ff & Hx). exists it'. split; [done|]. right. split; [congruence|]. by do 2 eexists.
    + destruct (IH eq_refl eq_refl Hp) as (it' & -> & H). exists it'. split; [done|]. unfold stepped_back in *. by rewrite Hf in H.
  - destruct (greatest_load _ _ Hg) as (n & it' & -> & Hk & Hl & Ff & Hx). bnd. rewrite Hk, Hl. exists it'. split; [done|]. right. split; [congruence|done].
Qed.

Lemma prev_loop_ok : entries T <> [] -> forall K t it fuel orig, (length K < fuel)%nat -> plug K t = T -> at_pos it K t ->
  exists it', prev_loop r fuel orig it false = Some it' /\ stepped_back it it' (map (prep (path K)) (entries t) ++ after K).
Proof.
  intros HE. induction K as [|F K IH]; intros t it [|fuel] orig Hf HT [Hn Hh]; try (cbn in Hf; lia); cbn [prev_loop]; rewrite Hn; bnd; cbn [negb andb].
  { rewrite bool_decide_true by (by apply head_at). eexists. split; [done|]. left. split; [cbn in *; by rewrite map_prep_nil, app_nil_r, HT|]. split; [done|]. apply Hh. }
  rewrite bool_decide_false by (by apply (not_head F K)). destruct (frame_label F K t HT) as (s & x & Hs & Hw).
  rewrite Hs in Hh. rewrite (last_char_ok _ _ _ _ Hh). bnd. rewrite <- Hs in Hh. cbn [map] in Hh.
  destruct (it_pop_ok it _ _ _ Hh) as (it1 & -> & H1 & F1). set (it2 := set_node _ _).
  destruct (prev_scan_ok it2 K (f_ptr F) (f_key F) (f_compr F) (f_left F ++ (f_lab F, t) :: f_right F) (f_lab F) x false
    (f_left F) ((f_lab F, t) :: f_right F) HE HT eq_refl H1 eq_refl) as (it3 & -> & F3 & Hres).
  { rewrite map_app. cbn [map fst]. destruct (f_compr F).
    - destruct Hw as [-> ->]. cbn. by rewrite app_nil_r.
    - destruct Hw as (-> & cl & cr & Hso & Hcl & ->). pose proof (length_singles _ _ Hcl) as Hl. rewrite Hcl. split_and!; [done| |by right].
      change ([x] :: map _ cr) with (map (fun x => [x]) (x :: cr)). by rewrite <- map_app, concat_singles, scan_prev_here. }
  bnd. replace (map (prep (path (F :: K))) (entries t) ++ after (F :: K)) with (map (prep (path K)) (eentries ((f_lab F, t) :: f_right F)) ++ after K)
    by (cbn [path after]; by rewrite eentries_cons, map_app, map_prep_prep, <- app_assoc).
  apply (prev_rest_ok it it3 K (f_ptr F) (f_key F) (f_compr F) (f_left F)); [done|done|cbn in F3; congruence|].
  intros HL Hk Hp. destruct (IH (fill F t) it3 fuel orig) as (it' & H & H'); [cbn in Hf; lia|done..|].
  exists it'. split; [done|]. unfold fill in H'. by rewrite HL in H'.
Qed.

Lemma prev_noup_ok it K p k c lab pc s L Rt : entries T <> [] -> plug K (TNode p k c (L ++ Rt)) = T -> node it = Some p ->
  holds it (path K ++ lab) (map f_ptr K) -> lab = s ++ [pc] ->
  (if c then L = [] /\ length lab = length (concat (map fst (L ++ Rt)))
   else length lab = 1%nat /\ scan_prev (rev (concat (map fst (L ++ Rt)))) pc = length L) ->
  exists it', prev_loop r (S (S (length (items (stack it))))) it it true = Some it' /\
    stepped_back it it' (map (prep (path K)) (eentries Rt) ++ after K).
Proof.
  intros HE HT Hn Hh Hlab Hc. set (fuel := S (length _)). cbn [prev_loop]. rewrite Hn. bnd. cbn [negb andb].
  rewrite Hlab, app_assoc in Hh. rewrite (last_char_ok _ _ _ _ Hh). bnd. rewrite <- app_assoc, <- Hlab in Hh.
  destruct (prev_scan_ok it K p k c (L ++ Rt) lab pc true L Rt HE HT Hn Hh eq_refl) as (it1 & -> & F1 & Hres).
  { destruct c; [done|]. destruct Hc. auto. }
  bnd. apply (prev_rest_ok it it1 K p k c L); try done. intros -> Hk Hp.
  apply (prev_loop_ok HE); [|done..]. unfold fuel. destruct Hh as (_ & _ & -> & _). rewrite length_map. lia.
Qed.

(** *** Steps *)

Lemma next_step_ok it B x A : flags it = 0 -> found it B x A ->
  exists it', raxIteratorNextStep r it false = Some it' /\
    match A with
    | [] => ended 0 it'
    | y :: A' => flags it' = 0 /\ found it' (B ++ [x]) y A'
    end.
Proof.
  intros Hf Hx. pose proof (found_entries _ _ _ _ Hx) as HE. destruct Hx as (K & p & d & c & es & HT & Hp & _ & -> & -> & ->).
  unfold raxIteratorNextStep. rewrite Hf. change (fhas RAX_ITER_EOF 0) with false. change (fhas RAX_ITER_JUST_SEEKED 0) with false.
  destruct (next_loop_ok it K _ HT Hp) as (it' & -> & H). exists it'. split; [done|]. unfold stepped in H. cbn [t_edges] in H. rewrite Hf in H.
  destruct H as [[-> Hfl]|(Hfl & B' & y & A' & Hx & HX)]; [done|]. rewrite HX in *. split; [congruence|].
  pose proof (found_entries _ _ _ _ Hx) as HE'. rewrite HE in HE'. change (before K ++ (path K, d) :: y :: A') with (before K ++ [(path K, d)] ++ y :: A') in HE'.
  rewrite app_assoc in HE'. by apply app_inv_tail in HE' as ->.
Qed.

Lemma prev_step_ok it B x A : flags it = 0 -> found it B x A ->
  exists it', raxIteratorPrevStep r it false = Some it' /\
    match last B with
    | None => ended 0 it'
    | Some y => flags it' = 0 /\ exists B', B = B' ++ [y] /\ found it' B' y (x :: A)
    end.
Proof.
  intros Hf Hx. pose proof (found_entries _ _ _ _ Hx) as HE. destruct Hx as (K & p & d & c & es & HT & Hp & _ & -> & -> & ->).
  unfold raxIteratorPrevStep. rewrite Hf. change (fhas RAX_ITER_EOF 0) with false. change (fhas RAX_ITER_JUST_SEEKED 0) with false. cbv iota.
  destruct (prev_loop_ok ltac:(rewrite HE; by destruct (before K)) K _ it (S (S (length (items (stack it))))) it ltac:(destruct Hp as (_ & _ & _ & -> & _); rewrite length_map; lia) HT Hp) as (it' & -> & H).
  exists it'. split; [done|]. unfold stepped_back in H. rewrite Hf, entries_eq in H. cbn [own map app] in H.
  replace (prep (path K) ([], d)) with (path K, d) in H by (unfold prep; cbn; by rewrite app_nil_r).
  destruct H as [[H Hfl]|(Hfl & B' & y & Hx)].
  - rewrite H in HE. change (_ :: _) with ([] ++ (path K, d) :: map (prep (path K)) (eentries es) ++ after K) in HE at 1. by apply app_inv_tail in HE as <-.
  - pose proof (found_entries _ _ _ _ Hx) as HE'. rewrite HE in HE'. 
    replace (B' ++ y :: (path K, d) :: _) with ((B' ++ [y]) ++ (path K, d) :: (map (prep (path K)) (eentries es) ++ after K)) in HE' by (by rewrite <- app_assoc).
    apply app_inv_tail in HE' as ->. rewrite last_snoc. split; [congruence|]. by exists B'.
Qed.

(** *** Seeks *)

Lemma span_app p xs ys : Forall (fun x => p x = true) xs -> Forall (fun x => p x = false) ys -> span p (xs ++ ys) = (xs, ys).
Proof.
  intros H1 H2. induction H1 as [|x xs Hx H1 IH]; cbn.
  - destruct H2 as [|y ys Hy H2]; [done|]. cbn. by rewrite Hy.
  - by rewrite Hx, IH.
Qed.

(** The entries with smaller keys, the key itself and greater keys. *)
Definition parted (s : bytes) (Lt Eq Gt : list entry) : Prop :=
  entries T = Lt ++ Eq ++ Gt /\ Forall (fun x => lex x.1 s) Lt /\ Forall (fun x => x.1 = s) Eq /\ Forall (fun x => lex s x.1) Gt.

Lemma span_lt s Lt Eq Gt : parted s Lt Eq Gt -> span (fun x => lexb x.1 s) (entries T) = (Lt, Eq ++ Gt).
Proof.
  intros (-> & H1 & H2 & H3). apply span_app.
  - eapply Forall_impl; [exact H1|]. intros x Hx. by apply lexb_lex.
  - apply Forall_app. split; [eapply Forall_impl; [exact H2|]; intros x ->; cbn|eapply Forall_impl; [exact H3|]; intros x Hx]; cbn;
      apply not_true_iff_false; rewrite lexb_lex; intros H; [|apply (lex_trans _ _ _ Hx) in H]; by apply lex_irrefl in H.
Qed.

Lemma span_le s Lt Eq Gt : parted s Lt Eq Gt -> span (fun x => lexb x.1 s || bool_decide (x.1 = s)) (entries T) = (Lt ++ Eq, Gt).
Proof.
  intros (-> & H1 & H2 & H3). rewrite app_assoc. apply span_app.
  - apply Forall_app. split; [eapply Forall_impl; [exact H1|]; intros x Hx; cbn|eapply Forall_impl; [exact H2|]; intros x Hx; cbn].
    + rewrite (proj2 (lexb_lex _ _)) by done. done.
    + rewrite bool_decide_true by done. by rewrite orb_true_r.
  - eapply Forall_impl; [exact H3|]. intros x Hx. cbn in *. rewrite bool_decide_false by (intros H; rewrite H in Hx; by apply lex_irrefl in Hx). rewrite orb_false_r.
    apply not_true_iff_false. rewrite lexb_lex. intros H. apply (lex_trans _ _ _ Hx) in H. by apply lex_irrefl in H.
Qed.

(** The iterator is at the cursor. *)
Definition sim (it : raxIterator) (c : cursor) : Prop :=
  match c with
  | None => fhas RAX_ITER_EOF (flags it) = true /\ 0 <= flags it < 4 /\ 0 < maxitems (stack it)
  | Some (fresh, (B, x, A)) => flags it = (if fresh then RAX_ITER_JUST_SEEKED else 0) /\ found it B x A
  end.

Lemma found_flags it f B x A : found it B x A -> found (set_flags f it) B x A.
Proof. intros (K & p & d & c & es & H). by exists K, p, d, c, es. Qed.

Lemma sim_fwd it1 it' X Gt : flags it1 = 0 -> entries T = X ++ Gt -> stepped it1 it' Gt -> sim (just_seeked it') (pair true <$> first_of X Gt).
Proof.
  intros Hf HE [[-> [Hfl Hm]]|(Hfl & B & x & A & Hx & ->)]; rewrite Hf in Hfl.
  - cbn. rewrite Hfl. done.
  - cbn. rewrite Hfl. split; [done|]. apply found_flags. pose proof (found_entries _ _ _ _ Hx) as HE'. rewrite HE in HE'. by apply app_inv_tail in HE' as ->.
Qed.

Lemma sim_back it1 it' X Y : flags it1 = 0 -> entries T = X ++ Y -> stepped_back it1 it' Y -> sim (just_seeked it') (pair true <$> last_of X Y).
Proof.
  intros Hf HE [[HY [Hfl Hm]]|(Hfl & B & x & Hx)]; rewrite Hf in Hfl.
  - rewrite HY in HE. change Y with ([] ++ Y) in HE at 1. apply app_inv_tail in HE as <-. cbn. rewrite Hfl. done.
  - pose proof (found_entries _ _ _ _ Hx) as HE'. rewrite HE in HE'. change (x :: Y) with ([x] ++ Y) in HE'. rewrite app_assoc in HE'.
    apply app_inv_tail in HE' as ->. unfold last_of. rewrite last_snoc. cbn. rewrite removelast_last, Hfl. split; [done|]. by apply found_flags.
Qed.

Lemma seek_walk_ok it s : holds it [] [] -> exists it' K t i j, seek_walk r it s = Some (it', i, j) /\ flags it' = flags it /\
  plug K t = T /\ stop_at s K t i j /\ node it' = Some (t_ptr t) /\ holds it' [] (map f_ptr K).
Proof.
  intros (H1 & H2 & H3 & H4 & H5). unfold seek_walk, raxLowWalk. rewrite (rep_head _ _ _ R).
  destruct (low_walk_ok max_size (mem r) s (S (length s)) [] T (Some (stack it))) as (w & Hlw & K & t & HT & Hst & _ & Hs & Hts & Hso).
  - apply R.
  - apply R.
  - cbn. rewrite H3. done.
  - cbn. lia.
  - by exists s.
  - cbn [link_of path length] in Hlw. rewrite Hlw. bnd. destruct (w_stack w) as [ts|]; [|destruct Hso as [Hso _]; by destruct (Hso ltac:(eauto))]. bnd. destruct Hts as (Hi & Hm & Hp).
    eexists _, K, t, _, _. split; [done|]. split_and!; try done; [cbn; by rewrite Hst|].
    rewrite Hi in Hm. by split_and!.
Qed.

Lemma parted_at K t rest Lt Eq Gt : plug K t = T -> entries t = Lt ++ Eq ++ Gt ->
  Forall (fun x => lex x.1 rest) Lt -> Forall (fun x => x.1 = rest) Eq -> Forall (fun x => lex rest x.1) Gt ->
  parted (path K ++ rest) (before K ++ map (prep (path K)) Lt) (map (prep (path K)) Eq) (map (prep (path K)) Gt ++ after K).
Proof.
  intros HT HE H1 H2 H3. pose proof (rep_wf _ _ _ R) as Hw. rewrite <- HT in Hw. apply wf_plug in Hw as [_ HK]. split_and!.
  - by rewrite <- HT, entries_plug, HE, !map_app, <- !app_assoc.
  - apply Forall_app. split; [apply Forall_forall; intros x Hx; by eapply before_lt|]. rewrite Forall_map. eapply Forall_impl; [exact H1|].
    intros x Hx. cbn. by apply lex_app.
  - rewrite Forall_map. eapply Forall_impl; [exact H2|]. intros x Hx. cbn. by rewrite Hx.
  - apply Forall_app. split; [|apply Forall_forall; intros x Hx; by eapply after_gt]. rewrite Forall_map. eapply Forall_impl; [exact H3|].
    intros x Hx. cbn. by apply lex_app.
Qed.

Lemma own_lt k rest : rest <> [] -> Forall (fun x => lex x.1 rest) (own (V:=V) k).
Proof. intros Hr. destruct k; constructor; [|constructor]. by apply lex_nil. Qed.

(** The edges around a character that is none of them. *)
Lemma edges_around (es : list (bytes * tree)) c rest : wf_labels max_size false (map fst es) -> c ∉ concat (map fst es) ->
  exists L Rt, es = L ++ Rt /\ add_pos (concat (map fst es)) c = length L /\ scan_prev (rev (concat (map fst es))) c = length L /\
    Forall (fun x => lex x.1 (c :: rest)) (eentries L) /\ Forall (fun x => lex (c :: rest) x.1) (eentries Rt).
Proof.
  intros (_ & cs & Hcs & Hso). rewrite Hcs, concat_singles. intros Hc.
  assert (exists cl cr, cs = cl ++ cr /\ Forall (fun x => x < c) cl /\ Forall (fun x => c < x) cr) as (cl & cr & -> & H1 & H2).
  { clear Hcs. induction Hso as [|x cs Hso IH Hx]; [by exists [], []|]. rewrite not_elem_of_cons in Hc. destruct Hc as [Hne Hc].
    destruct (Z.ltb_spec x c).
    - destruct (IH Hc) as (cl & cr & -> & H1 & H2). exists (x :: cl), cr. split_and!; try done. by constructor.
    - exists [], (x :: cs). split_and!; try done. constructor; [lia|]. eapply Forall_impl; [exact Hx|]. cbn. lia. }
  symmetry in Hcs. rewrite map_app in Hcs. symmetry in Hcs. apply fmap_app_inv in Hcs as (L & Rt & HL & HR & ->).
  change (map (fun x => [x]) cl = map fst L) in HL. change (map (fun x => [x]) cr = map fst Rt) in HR.
  pose proof (length_singles _ _ (eq_sym HL)) as Hl. exists L, Rt. rewrite add_pos_split, scan_prev_split; try done.
  2,3: eapply Forall_impl; [eassumption|]; cbn; lia.
  split_and!; try done; apply Forall_forall; intros [s d] (l & u & s' & Hin & -> & _)%elem_of_eentries; cbn.
  - assert (l ∈ map fst L) as Hl1 by (apply list_elem_of_fmap; by exists (l, u)). rewrite <- HL in Hl1. apply list_elem_of_fmap in Hl1 as (x & -> & Hx).
    rewrite Forall_forall in H1. left. auto.
  - assert (l ∈ map fst Rt) as Hl1 by (apply list_elem_of_fmap; by exists (l, u)). rewrite <- HR in Hl1. apply list_elem_of_fmap in Hl1 as (x & -> & Hx).
    rewrite Forall_forall in H2. left. auto.
Qed.

(** What a seek with a comparison does. *)
Definition sought (eq lt gt : bool) (s : bytes) (it : raxIterator) : Prop :=
  exists Lt Eq Gt, parted s Lt Eq Gt /\
    if eq && negb (bool_decide (Eq = [])) then exists x, Eq = [x] /\ sim it (Some (true, (Lt, x, Gt)))
    else sim it (pair true <$> (if gt then first_of (Lt ++ Eq) Gt else if lt then last_of Lt (Eq ++ Gt) else None)).

Lemma steps_flags it noup : flags it = 0 -> raxIteratorNextStep r it noup = next_loop r (S (base.size (mem r))) it it noup /\
  raxIteratorPrevStep r it noup = prev_loop r (S (S (length (items (stack it))))) it it noup.
Proof. intros Hf. unfold raxIteratorNextStep, raxIteratorPrevStep. by rewrite Hf. Qed.

Lemma seek_miss_ok it K p k es c rest eq lt gt : entries T <> [] -> plug K (TNode p k false es) = T -> c ∉ concat (map fst es) ->
  node it = Some p -> holds it [] (map f_ptr K) -> flags it = 1 -> lt && gt = false ->
  exists it', seek_from r it (length (path K)) 0 eq lt gt (path K ++ c :: rest) = Some it' /\ sought eq lt gt (path K ++ c :: rest) it'.
Proof.
  intros HE HT Hc Hn Hh Hf Hlg. unfold seek_from. pose proof R as R'. rewrite <- HT in R'.
  destruct (rep_focus _ _ _ _ _ _ _ R') as (n & Hno & (_ & Hcn & _) & _ & _ & _ & [Hw _]%wf_eq & _).
  assert (node_of r it = Some n) as -> by (unfold node_of; by rewrite Hn). bnd. rewrite length_app. cbn [length].
  replace (length (path K) =? _)%nat with false by (symmetry; apply Nat.eqb_neq; lia). rewrite andb_false_r, Hcn. cbn [andb negb].
  destruct (edges_around es c rest Hw Hc) as (L & Rt & -> & Ha & Hs & H1 & H2).
  pose proof (parted_at K _ (c :: rest) (own k ++ eentries L) [] (eentries Rt) HT) as Hpart.
  rewrite entries_eq, eentries_app, <- app_assoc, Forall_app in Hpart. specialize (Hpart eq_refl (conj (own_lt k (c :: rest) ltac:(done)) H1) (Forall_nil_2 _) H2).
  assert (forall it', sim it' (pair true <$> (if gt then first_of (before K ++ map (prep (path K)) (own k ++ eentries L)) (map (prep (path K)) (eentries Rt) ++ after K)
    else if lt then last_of (before K ++ map (prep (path K)) (own k ++ eentries L)) (map (prep (path K)) (eentries Rt) ++ after K) else None)) ->
    sought eq lt gt (path K ++ c :: rest) it') as Hso.
  { intros it' H. do 3 eexists. split; [exact Hpart|]. rewrite andb_false_r. cbn [map]. rewrite app_nil_r. exact H. }
  destruct Hpart as (HEn & _). cbn [map app] in HEn.
  destruct (lt || gt) eqn:Elg; [|destruct lt, gt; try done; eexists; split; [done|]; apply Hso; cbn; rewrite Hf; split_and!; try done; apply Hh].
  rewrite Nat.sub_0_r, take_app_length. destruct (add_chars_ok it [] (path K) _ Hh) as (it1 & -> & Hh1 & N1 & F1). bnd.
  rewrite lookup_app_r, Nat.sub_diag by lia. cbn [lookup list_lookup]. bnd.
  destruct (add_chars_ok it1 (path K) [c] _ Hh1) as (it2 & -> & Hh2 & N2 & F2). bnd.
  assert (F3 : flags (not_seeked it2) = 0) by (cbn; by rewrite F2, F1, Hf).
  assert (N3 : node (not_seeked it2) = Some p) by (cbn; congruence). destruct (steps_flags _ true F3) as [Sn Sp].
  destruct lt, gt; try done; rewrite ?Sn, ?Sp; bnd.
  - destruct (prev_noup_ok (not_seeked it2) K p k false [c] c [] L Rt HE HT N3 Hh2 eq_refl) as (it' & -> & H); [done|]. bnd.
    eexists. split; [done|]. apply Hso. by eapply sim_back.
  - destruct (next_noup_ok (not_seeked it2) K p k false (L ++ Rt) [c] c [] L Rt HT N3 Hh2 eq_refl eq_refl) as (it' & Hit & H); [done|]. rewrite Sn, Hit. bnd.
    eexists. split; [done|]. apply Hso. by eapply sim_fwd.
Qed.

(** The steps of a seek from a node that is on the way of the key. *)
Lemma step_next it K t X : flags it = 0 -> plug K t = T -> at_pos it K t ->
  entries T = X ++ map (prep (path K)) (eentries (t_edges t)) ++ after K ->
  exists it', raxIteratorNextStep r it false = Some it' /\
    sim (just_seeked it') (pair true <$> first_of X (map (prep (path K)) (eentries (t_edges t)) ++ after K)).
Proof.
  intros Hf HT Hp HE. rewrite (proj1 (steps_flags it false Hf)). destruct (next_loop_ok it K t HT Hp) as (it' & -> & H).
  exists it'. split; [done|]. by eapply sim_fwd.
Qed.

Lemma step_prev it K t X : entries T <> [] -> flags it = 0 -> plug K t = T -> at_pos it K t ->
  entries T = X ++ map (prep (path K)) (entries t) ++ after K ->
  exists it', raxIteratorPrevStep r it false = Some it' /\
    sim (just_seeked it') (pair true <$> last_of X (map (prep (path K)) (entries t) ++ after K)).
Proof.
  intros HE0 Hf HT Hp HE. rewrite (proj2 (steps_flags it false Hf)).
  destruct (prev_loop_ok HE0 K t it (S (S (length (items (stack it))))) it) as (it' & -> & H); [|done..|].
  { destruct Hp as (_ & _ & _ & -> & _). rewrite length_map. lia. }
  exists it'. split; [done|]. by eapply sim_back.
Qed.

Lemma seek_end_ok it K t eq lt gt : entries T <> [] -> plug K t = T -> node it = Some (t_ptr t) -> holds it [] (map f_ptr K) ->
  flags it = 1 -> lt && gt = false ->
  exists it', seek_from r it (length (path K)) 0 eq lt gt (path K) = Some it' /\ sought eq lt gt (path K) it'.
Proof.
  intros HE HT Hn Hh Hf Hlg. unfold seek_from. pose proof R as R'. rewrite <- HT in R'. destruct t as [p k c es].
  destruct (rep_focus _ _ _ _ _ _ _ R') as (n & Hno & (Hk & Hcn & _) & _ & _ & _ & [Hw _]%wf_eq & _). cbn [t_ptr] in Hn.
  assert (node_of r it = Some n) as -> by (unfold node_of; by rewrite Hn). bnd. rewrite Nat.eqb_refl, orb_true_r, andb_true_r, andb_true_r, (iskey_ok _ _ Hk).
  assert (Ho : Forall (fun x => x.1 = []) (own k)) by (destruct k; repeat constructor).
  assert (Hg : Forall (fun x => lex [] x.1) (eentries es)).
  { apply Forall_forall. intros [s d] Hin. cbn. apply lex_nil. intros ->. by eapply elem_of_eentries_nil. }
  pose proof (parted_at K _ [] [] (own k) (eentries es) HT eq_refl (Forall_nil_2 _) Ho Hg) as Hpart. cbn [map] in Hpart. rewrite !app_nil_r in Hpart.
  destruct (add_chars_ok it [] (path K) _ Hh) as (it1 & Had & Hh1 & N1 & F1).
  destruct (eq && _) eqn:Eeq.
  - destruct eq, k as [d|]; try done. rewrite Had. bnd. destruct (load_ok it1 K p d c es HT) as (it' & -> & Ff & Hx); [split; [cbn; congruence|done]|].
    exists it'. split; [done|]. do 3 eexists. split; [exact Hpart|]. cbn [own map andb]. rewrite bool_decide_false by done. cbn [negb].
    exists (path K, d). split; [unfold prep; cbn; by rewrite app_nil_r|]. split; [rewrite Ff, F1, Hf; done|done].
  - assert (Hso : forall it', sim it' (pair true <$> (if gt then first_of (before K ++ map (prep (path K)) (own k)) (map (prep (path K)) (eentries es) ++ after K)
      else if lt then last_of (before K) (map (prep (path K)) (own k) ++ map (prep (path K)) (eentries es) ++ after K) else None)) -> sought eq lt gt (path K) it').
    { intros it' H. do 3 eexists. split; [exact Hpart|]. replace (eq && _) with false; [done|]. destruct eq, k; done. }
    destruct Hpart as (HEn & _).
    destruct (lt || gt) eqn:Elg; [|destruct lt, gt; try done; eexists; split; [done|]; apply Hso; cbn; rewrite Hf; split_and!; try done; apply Hh].
    rewrite Nat.sub_0_r, firstn_all, Had. bnd. cbn [negb andb Nat.eqb]. rewrite andb_false_r. cbn [andb].
    assert (F3 : flags (not_seeked it1) = 0) by (cbn; by rewrite F1, Hf).
    assert (Hp : at_pos (not_seeked it1) K (TNode p k c es)) by (split; [cbn; congruence|done]).
    destruct lt, gt; try done; bnd.
    + destruct (step_prev _ K _ (before K) HE F3 HT Hp) as (it' & -> & Hs).
      { by rewrite entries_eq, map_app, <- app_assoc. }
      bnd. eexists. split; [done|]. apply Hso. by rewrite entries_eq, map_app, <- app_assoc in Hs.
    + destruct (step_next _ K _ (before K ++ map (prep (path K)) (own k)) F3 HT Hp) as (it' & -> & Hs).
      { by rewrite <- app_assoc. }
      bnd. eexists. split; [done|]. by apply Hso.
Qed.

Lemma sought_of (eq lt gt : bool) s X Y it : parted s X [] Y ->
  sim it (pair true <$> (if gt then first_of X Y else if lt then last_of X Y else None)) -> sought eq lt gt s it.
Proof. intros H Hs. exists X, [], Y. split; [done|]. rewrite andb_false_r, app_nil_r. exact Hs. Qed.

(** The entries around a key that leaves a compressed node after [a]. *)
Lemma inside_parts K p k (a : bytes) (x : Z) v u s' : plug K (TNode p k true [(a ++ x :: v, u)]) = T -> a ++ s' <> [] ->
  (match s' with [] => True | y :: _ => y < x end ->
    parted (path K ++ a ++ s') (before K ++ map (prep (path K)) (own k)) [] (map (prep (path K)) (eentries [(a ++ x :: v, u)]) ++ after K)) /\
  (match s' with [] => False | y :: _ => x < y end ->
    parted (path K ++ a ++ s') (before K ++ map (prep (path K)) (entries (TNode p k true [(a ++ x :: v, u)]))) [] (after K)).
Proof.
  intros HT Hne.
  assert (Hel : forall e, e ∈ eentries [(a ++ x :: v, u)] -> exists s0, e.1 = a ++ x :: v ++ s0).
  { intros [s0 d0] (l' & u' & s2 & Hin & -> & _)%elem_of_eentries. apply list_elem_of_singleton in Hin as [= -> ->]. exists s2. cbn. by rewrite <- app_assoc. }
  split; intros Hy.
  - apply (parted_at K _ (a ++ s') (own k) [] (eentries [(a ++ x :: v, u)]) HT eq_refl); [by apply own_lt|constructor|].
    apply Forall_forall. intros e (s0 & ->)%Hel. apply lex_app. destruct s'; [done|]. by left.
  - apply (parted_at K _ (a ++ s') (entries (TNode p k true [(a ++ x :: v, u)])) [] [] HT); [by rewrite app_nil_r| |constructor..].
    rewrite entries_eq, Forall_app. split; [by apply own_lt|]. apply Forall_forall. intros e (s0 & ->)%Hel. apply lex_app. destruct s'; [done|]. by left.
Qed.

(** A key that ends inside a compressed node. *)
Lemma inside_end_ok it n K p k l u s : entries T <> [] -> plug K (TNode p k true [(l, u)]) = T -> node_of r it = Some n ->
  at_pos it K (TNode p k true [(l, u)]) -> flags it = 0 ->
  parted s (before K ++ map (prep (path K)) (own k)) [] (map (prep (path K)) (eentries [(l, u)]) ++ after K) ->
  forall eq lt gt, lt && gt = false -> lt || gt = true ->
  exists it', (if iskey n && lt then load_data r it
    else it ← (if gt then raxIteratorNextStep r it false else Some it); if lt then raxIteratorPrevStep r it false else Some it) = Some it' /\
    sought eq lt gt s (just_seeked it').
Proof.
  intros HE HT Hn Hp Hf Hpart eq lt gt Hlg Elg. destruct (node_at it K _ HT Hp) as (n' & Hn' & (Hk & _) & _). simplify_eq.
  pose proof Hpart as (HEn & _). cbn [app] in HEn. rewrite (iskey_ok _ _ Hk). destruct lt, gt; try done.
  - rewrite andb_true_r. destruct k as [d|].
    + destruct (load_ok it K p d true [(l, u)] HT Hp) as (it' & -> & Ff & Hx). exists it'. split; [done|]. eapply sought_of; [exact Hpart|].
      apply (sim_back it); [done..|]. right. split; [done|]. eauto.
    + bnd. destruct (step_prev it K _ (before K) HE Hf HT Hp) as (it' & -> & Hs); [by cbn [own map] in HEn; rewrite app_nil_r in HEn|].
      exists it'. split; [done|]. eapply sought_of; [exact Hpart|]. cbn [own map]. by rewrite app_nil_r.
  - rewrite andb_false_r. destruct (step_next it K _ _ Hf HT Hp HEn) as (it' & -> & Hs). bnd. exists it'. split; [done|]. by eapply sought_of.
Qed.

(** A key that differs from the characters of a compressed node. *)
Lemma inside_diff_ok it n K p k l u s (x y : Z) : entries T <> [] -> plug K (TNode p k true [(l, u)]) = T -> node_of r it = Some n ->
  at_pos it K (TNode p k true [(l, u)]) -> flags it = 0 -> x <> y ->
  (y < x -> parted s (before K ++ map (prep (path K)) (own k)) [] (map (prep (path K)) (eentries [(l, u)]) ++ after K)) ->
  (x < y -> parted s (before K ++ map (prep (path K)) (entries (TNode p k true [(l, u)]))) [] (after K)) ->
  forall eq lt gt, lt && gt = false -> lt || gt = true ->
  exists it', (it ← (if gt then if y <? x then raxIteratorNextStep r it false
                     else it ← raxIteratorAddChars it (data n); raxIteratorNextStep r it true
                   else Some it);
      it ← (if lt then if x <? y then it ← raxSeekGreatest r it; load_data r it
                       else it ← raxIteratorAddChars it (data n); raxIteratorPrevStep r it true
            else Some it);
      Some (just_seeked it)) = Some it' /\
    sought eq lt gt s it'.
Proof.
  intros HE HT Hn Hp Hf Hxy Hlow Hhigh eq lt gt Hlg Elg. destruct (node_at it K _ HT Hp) as (n' & Hn' & (Hk & _ & Hd & _) & [[_ Hw] _]%wf_eq). simplify_eq.
  cbn [map fst concat] in Hd. rewrite app_nil_r in Hd. rewrite Hd.
  assert (exists l0 x0, l = l0 ++ [x0]) as (l0 & x0 & Hl).
  { destruct Hw as (l' & [= ->] & Hl & _). destruct (exists_last (l := l')) as (l0 & x0 & H); [by intros ->; cbn in Hl; lia|]. eauto. }
  destruct (add_chars_ok it (path K) l _ (proj2 Hp)) as (it2 & Had & Hh2 & N2 & F2). rewrite (proj1 Hp) in N2. rewrite Hf in F2.
  destruct (steps_flags _ true F2) as [Sn Sp].
  assert (Hcat : length l = length (concat (map fst [(l, u)]))) by (cbn; by rewrite app_nil_r).
  destruct (Z.ltb_spec y x) as [Hy|Hy], (Z.ltb_spec x y) as [Hx|Hx]; try lia; destruct lt, gt; try done; bnd.
  - specialize (Hlow Hy). rewrite Had. bnd. rewrite Sp.
    destruct (prev_noup_ok it2 K p k true l x0 l0 [] [(l, u)] HE HT N2 Hh2 Hl (conj eq_refl Hcat)) as (it' & -> & H).
    bnd; eexists; split; [done|]. eapply sought_of; [exact Hlow|]. apply (sim_back it2); [done|apply Hlow|done].
  - specialize (Hlow Hy). pose proof Hlow as (HEn & _). destruct (step_next it K _ _ Hf HT Hp HEn) as (it' & -> & Hs). bnd.
    bnd; eexists; split; [done|]. by eapply sought_of.
  - specialize (Hhigh Hx). destruct (raxSeekGreatest_ok it K _ HE HT Hp) as (it3 & -> & F3 & Hg). bnd.
    destruct (greatest_load _ _ Hg) as (_ & it' & _ & _ & -> & F4 & Hf'). bnd; eexists; split; [done|]. eapply sought_of; [exact Hhigh|].
    apply (sim_back it); [done|apply Hhigh|]. right. split; [congruence|done].
  - specialize (Hhigh Hx). bnd. rewrite Had. bnd. rewrite Sn.
    destruct (next_noup_ok it2 K p k true [(l, u)] l x0 l0 [(l, u)] [] HT N2 Hh2 Hl eq_refl (conj eq_refl Hcat)) as (it' & -> & H). bnd.
    bnd; eexists; split; [done|]. eapply sought_of; [exact Hhigh|]. apply (sim_fwd it2); [done|apply Hhigh|done].
Qed.

(** A walk that stops inside a compressed node. *)
Lemma seek_inside_ok it K p k (a : bytes) (x : Z) v u s' eq lt gt : entries T <> [] -> plug K (TNode p k true [(a ++ x :: v, u)]) = T ->
  node it = Some p -> holds it [] (map f_ptr K) -> flags it = 1 -> lt && gt = false -> a ++ s' <> [] ->
  match s' with [] => True | y :: _ => x <> y end ->
  exists it', seek_from r it (length (path K) + length a) (length a) eq lt gt (path K ++ a ++ s') = Some it' /\ sought eq lt gt (path K ++ a ++ s') it'.
Proof.
  intros HE HT Hn Hh Hf Hlg Hne Hxy. unfold seek_from. destruct (inside_parts K p k a x v u s' HT Hne) as [Hlow Hhigh].
  pose proof R as R'. rewrite <- HT in R'. destruct (rep_focus _ _ _ _ _ _ _ R') as (n & Hno & (Hk & Hcn & Hd & _) & _). cbn [map fst concat] in Hd. rewrite app_nil_r in Hd.
  assert (node_of r it = Some n) as -> by (unfold node_of; by rewrite Hn). bnd. rewrite Hcn. cbn [negb orb].
  replace (eq && _ && (length a =? 0)%nat && iskey n) with false.
  2: { symmetry. destruct a as [|a0 a]; [|by rewrite andb_false_r]. rewrite Nat.add_0_r. cbn [app] in *. rewrite length_app.
       destruct s'; [done|]. replace (_ =? _)%nat with false by (symmetry; apply Nat.eqb_neq; cbn; lia). by rewrite andb_false_r. }
  destruct (lt || gt) eqn:Elg.
  2: { destruct lt, gt; try done. eexists. split; [done|]. assert (sim (set_flags (fset RAX_ITER_EOF (flags it)) it) None) by (cbn; rewrite Hf; split_and!; try done; apply Hh).
       destruct s' as [|y s']; [eapply sought_of; [by apply Hlow|done]|]. destruct (Z.lt_total x y) as [?|[?|?]]; [|done|]; (eapply sought_of; [by apply Hhigh + by apply Hlow|done]). }
  destruct (add_chars_ok it [] (path K) _ Hh) as (it1 & Had & Hh1 & N1 & F1). replace (length (path K) + length a - length a)%nat with (length (path K)) by lia.
  rewrite take_app_length, Had. bnd. rewrite andb_false_r.
  assert (F3 : flags (not_seeked it1) = 0) by (cbn; by rewrite F1, Hf).
  assert (Hp : at_pos (not_seeked it1) K (TNode p k true [(a ++ x :: v, u)])) by (split; [cbn; congruence|done]).
  assert (Hn1 : node_of r (not_seeked it1) = Some n) by (unfold node_of; by rewrite (proj1 Hp)).
  destruct s' as [|y s'].
  - rewrite !app_nil_r in *. rewrite length_app, Nat.eqb_refl. cbn [negb andb].
    replace (negb (length a =? 0)%nat) with true by (by destruct a). rewrite andb_true_r.
    destruct (inside_end_ok _ n K p k _ u _ HE HT Hn1 Hp F3 (Hlow I) eq lt gt Hlg Elg) as (it' & -> & Hs). bnd. eauto.
  - replace (_ =? _)%nat with false by (symmetry; apply Nat.eqb_neq; rewrite !length_app; cbn; lia). cbn [negb andb].
    assert ((a ++ x :: v) !! length a = Some x) as Hx by (by rewrite lookup_app_r, Nat.sub_diag).
    assert ((path K ++ a ++ y :: s') !! (length (path K) + length a)%nat = Some y) as Hy.
    { rewrite app_assoc, lookup_app_r, length_app, Nat.sub_diag by (rewrite length_app; lia). done. }
    rewrite Hd, Hx. bnd. rewrite Hy. bnd. rewrite <- Hd. destruct (inside_diff_ok _ n K p k _ u _ x y HE HT Hn1 Hp F3 Hxy Hlow Hhigh eq lt gt Hlg Elg) as (it' & -> & Hs). eauto.
Qed.

Lemma seek_key_ok it eq lt gt s : entries T <> [] -> holds it [] [] -> flags it = 1 -> lt && gt = false ->
  exists it', seek_key r it eq lt gt s = Some it' /\ sought eq lt gt s it'.
Proof.
  intros HE Hh Hf Hlg. unfold seek_key. destruct (seek_walk_ok it s Hh) as (it1 & K & t & i & j & -> & F1 & HT & Hst & Hn & Hh1). bnd. rewrite <- F1 in Hf.
  destruct Hst as [t <-|p k es c rest -> Hc|p k l u rest -> Hr Hj].
  - by apply (seek_end_ok it1 K t).
  - by apply (seek_miss_ok it1 K p k es c rest).
  - destruct (compr_match_spec l rest) as (a & v & s' & Hl & -> & Ha & Hne). rewrite <- Ha in *.
    destruct v as [|x v]; [rewrite app_nil_r in Hl; subst; lia|]. subst l. apply (seek_inside_ok it1 K p k a x v u s'); done.
Qed.

Lemma sought_spec e lt gt s it op : sought e lt gt s it ->
  match lt, gt with
  | false, true => op = SGt e
  | true, false => op = SLt e
  | false, false => e = true /\ op = SEq
  | true, true => False
  end -> sim it (pair true <$> seek_spec op s (entries T)).
Proof.
  intros (Lt & Eq & Gt & Hpart & H) Hop. unfold seek_spec. rewrite (span_lt _ _ _ _ Hpart), (span_le _ _ _ _ Hpart).
  destruct Hpart as (_ & _ & He & Hg). destruct e; cbn [andb] in H.
  - destruct (decide (Eq = [])) as [->|Hne].
    + rewrite bool_decide_true in H by done. cbn [negb] in H. rewrite app_nil_r in *. destruct lt, gt; try done; [by rewrite Hop..|].
      destruct Hop as [_ ->]. cbn [app]. destruct Gt as [|x Gt]; [done|]. cbn [first_of]. apply Forall_cons in Hg as [Hx _].
      rewrite bool_decide_false; [done|]. intros Hk. rewrite Hk in Hx. by apply lex_irrefl in Hx.
    + rewrite bool_decide_false in H by done. destruct H as (x & -> & H). apply Forall_cons in He as [Hx _].
      destruct lt, gt; try done; [rewrite Hop..|destruct Hop as [_ ->]]; cbn [app first_of].
      * unfold last_of. rewrite last_snoc. cbn. by rewrite removelast_last.
      * done.
      * by rewrite bool_decide_true.
  - destruct lt, gt; try done; [by rewrite Hop..|]. by destruct Hop.
Qed.

Definition sane (it : raxIterator) : Prop := 0 <= flags it < 4 /\ 0 < maxitems (stack it).

Lemma sim_sane it c : sim it c -> sane it.
Proof.
  destruct c as [[fresh [[B x] A]]|]; [|by intros (_ & ? & ?)]. intros [Hf (K & p & d & cc & es & _ & [_ H] & _)].
  split; [rewrite Hf; by destruct fresh|apply H].
Qed.

Lemma seek_flags_ok it : sane it -> holds (seek_flags it) [] [] /\ flags (seek_flags it) = 1 /\ sane (seek_flags it).
Proof.
  intros [Hf Hm]. assert (flags (seek_flags it) = 1) as H1.
  { cbn. assert (flags it = 0 \/ flags it = 1 \/ flags it = 2 \/ flags it = 3) as [->|[->|[->| ->]]] by lia; done. }
  split_and!; [|done|split; [rewrite H1; lia|done]]. unfold holds, key. cbn. rewrite take_0. split_and!; try done. rewrite zlen_nil. lia.
Qed.

Lemma raxSeek_ok it op0 op1 op s : sane it -> parse_op op0 op1 = Some op -> zlen (entries T) < 2 ^ 64 ->
  exists it', raxSeek r it op0 op1 s = Some (it', true) /\ sim it' (pair true <$> seek_spec op s (entries T)).
Proof.
  intros Hs Hop Hlen. unfold raxSeek. rewrite Hop. destruct (seek_flags_ok it Hs) as (Hh & Hf & Hs1). set (it1 := seek_flags it) in *.
  rewrite (rep_numele _ _ _ R), wrap_small by (pose proof (zlen_nonneg (entries T)); lia).
  destruct (zlen (entries T) =? 0) eqn:E; bool_hyps.
  { assert (entries T = []) as -> by (destruct (entries T); [done|rewrite zlen_cons in E; pose proof (zlen_nonneg l); lia]). bnd.
    eexists. split; [done|]. replace (seek_spec op s []) with (@None place) by (by destruct op as [[]|[]| | |]).
    split_and!; cbn [set_flags flags stack]; try (by rewrite Hf). apply Hs1. }
  assert (HE : entries T <> []) by (intros H; rewrite H in E; done).
  destruct op as [e|e| | |].
  - destruct (seek_key_ok it1 e false true s HE Hh Hf eq_refl) as (it' & -> & H). bnd. eexists. split; [done|]. by eapply sought_spec.
  - destruct (seek_key_ok it1 e true false s HE Hh Hf eq_refl) as (it' & -> & H). bnd. eexists. split; [done|]. by eapply sought_spec.
  - destruct (seek_key_ok it1 true false false s HE Hh Hf eq_refl) as (it' & -> & H). bnd. eexists. split; [done|]. by eapply sought_spec.
  - destruct (seek_flags_ok it1 Hs1) as (Hh2 & Hf2 & _).
    destruct (seek_key_ok (seek_flags it1) true false true [] HE Hh2 Hf2 eq_refl) as (it' & -> & H). bnd. eexists. split; [done|].
    apply (sought_spec _ _ _ _ _ (SGt true)) in H; [|done]. unfold seek_spec in *.
    replace (span (fun x => lexb x.1 []) (entries T)) with (@nil entry, entries T) in H; [by repeat match goal with |- context [span ?p ?l] => destruct (span p l) | H : context [span ?p ?l] |- _ => destruct (span p l) end|].
    symmetry. apply (span_app _ [] (entries T)); [constructor|]. apply Forall_true. intros [[|??] ?]; done.
  - destruct (raxSeekGreatest_ok (set_node (Some (head r)) it1) [] T HE eq_refl) as (it2 & -> & F2 & Hg).
    { split; [cbn; by rewrite (rep_head _ _ _ R)|done]. }
    bnd. destruct (greatest_load _ _ Hg) as (n & it' & -> & Hk & Hl & Fl & B & x & Hx). bnd. rewrite Hk, Hl. bnd. eexists. split; [done|].
    unfold seek_spec. destruct (span _ _), (span _ _). rewrite (found_entries _ _ _ _ Hx). unfold last_of. cbn [after]. rewrite last_snoc. cbn.
    rewrite removelast_last. split; [|done]. rewrite Fl, F2. done.
Qed.

Lemma ended_sim it : ended 0 it -> sim it None.
Proof. intros [H Hm]. cbn. by rewrite H. Qed.

Lemma step_ok (forward : bool) it c : sim it c -> exists it',
  (if forward then raxNext r it else raxPrev r it) = Some (it', negb (raxEOF it')) /\ sim it' (cursor_step forward c).
Proof.
  intros H. cut (exists it', (if forward then raxIteratorNextStep r it false else raxIteratorPrevStep r it false) = Some it' /\ sim it' (cursor_step forward c)).
  { intros (it' & H1 & H2). exists it'. split; [|done]. unfold raxNext, raxPrev. destruct forward; by rewrite H1. }
  destruct c as [[fresh [[B x] A]]|].
  2: { exists it. split; [|done]. destruct H as (H & _). unfold raxIteratorNextStep, raxIteratorPrevStep. rewrite H. by destruct forward. }
  destruct H as [Hf Hx]. destruct fresh.
  { unfold raxIteratorNextStep, raxIteratorPrevStep. rewrite Hf. eexists. split; [by destruct forward|]. split; [done|]. by apply found_flags. }
  destruct forward; cbn [cursor_step].
  - destruct (next_step_ok it B x A Hf Hx) as (it' & -> & H). exists it'. split; [done|]. destruct A as [|y A]; [by apply ended_sim|done].
  - destruct (prev_step_ok it B x A Hf Hx) as (it' & -> & H). exists it'. split; [done|]. unfold last_of. destruct (last B) as [y|] eqn:E.
    + destruct H as (Hf' & B' & -> & Hx'). cbn. by rewrite removelast_last.
    + by apply ended_sim.
Qed.

Lemma sim_eof it c : sim it c -> raxEOF it = bool_decide (c = None).
Proof.
  destruct c as [[fresh [[B x] A]]|]; [|by intros [H _]]. intros [H _]. unfold raxEOF. rewrite H. by destruct fresh.
Qed.

Lemma sim_entry it fresh B x A : sim it (Some (fresh, (B, x, A))) -> key it = x.1 /\ it_data it = Some x.2.
Proof. intros [_ (K & p & d & c & es & _ & (_ & Hk & _) & Hd & _ & -> & _)]. done. Qed.

End positions.

(** *** Sessions *)

Inductive command := Seek (op0 op1 : Z) (ele : bytes) | Next | Prev.

(** What the caller of an iterator sees: whether a seek found an element, and
    the key and the data when a step returns that there is an element. *)
Inductive event := Sought (eof : bool) | Stepped (x : option (bytes * option value)).

Definition command_ok (c : command) : Prop :=
  match c with Seek op0 op1 _ => is_Some (parse_op op0 op1) | _ => True end.

Definition execute (r : rax V) (it : raxIterator) (c : command) : option (raxIterator * event) :=
  match c with
  | Seek op0 op1 ele => '(it, ok) ← raxSeek r it op0 op1 ele; if (ok : bool) then Some (it, Sought (raxEOF it)) else None
  | Next => '(it, some) ← raxNext r it; Some (it, Stepped (if (some : bool) then Some (key it, it_data it) else None))
  | Prev => '(it, some) ← raxPrev r it; Some (it, Stepped (if (some : bool) then Some (key it, it_data it) else None))
  end.

Fixpoint session (r : rax V) (it : raxIterator) (cs : list command) : option (list event) :=
  match cs with
  | [] => Some []
  | c :: cs => '(it, e) ← execute r it c; es ← session r it cs; Some (e :: es)
  end.

Definition shown (c : cursor) : event := Stepped ((fun z => (z.2.1.2.1, Some z.2.1.2.2)) <$> c).

Definition cursor_command (xs : list entry) (c : cursor) (cmd : command) : cursor * event :=
  match cmd with
  | Seek op0 op1 ele =>
      let c := match parse_op op0 op1 with Some op => pair true <$> seek_spec op ele xs | None => None end in
      (c, Sought (bool_decide (c = None)))
  | Next => let c := cursor_step true c in (c, shown c)
  | Prev => let c := cursor_step false c in (c, shown c)
  end.

Fixpoint cursor_session (xs : list entry) (c : cursor) (cs : list command) : list event :=
  match cs with
  | [] => []
  | cmd :: cs => let '(c, e) := cursor_command xs c cmd in e :: cursor_session xs c cs
  end.

Lemma session_ok max_size (r : rax V) T : Rax.rep max_size r T -> alive T -> zlen (entries T) < 2 ^ 64 -> forall cs it c,
  sim T it c -> Forall command_ok cs -> session r it cs = Some (cursor_session (entries T) c cs).
Proof.
  intros R Ha Hl. induction cs as [|cmd cs IH]; intros it c Hs Hcs; [done|]. apply Forall_cons in Hcs as [Hc Hcs]. cbn [session cursor_session].
  cut (exists it', execute r it cmd = Some (it', (cursor_command (entries T) c cmd).2) /\ sim T it' (cursor_command (entries T) c cmd).1).
  { intros (it' & -> & Hs'). bnd. destruct (cursor_command _ c cmd) as [c' e]. by rewrite (IH it' c' Hs' Hcs). }
  assert (Hstep : forall fwd it', sim T it' (cursor_step fwd c) ->
    Stepped (if negb (raxEOF it') then Some (key it', it_data it') else None) = shown (cursor_step fwd c)).
  { intros fwd it' H. rewrite (sim_eof T _ _ H). destruct (cursor_step fwd c) as [[fresh [[B x] A]]|]; [|done].
    destruct (sim_entry T _ _ _ _ _ H) as [-> ->]. done. }
  destruct cmd as [op0 op1 ele| |]; cbn [execute cursor_command fst snd].
  - destruct Hc as [op Hop]. rewrite Hop. destruct (raxSeek_ok max_size r T R Ha it op0 op1 op ele (sim_sane _ _ _ Hs) Hop Hl) as (it' & -> & H). bnd.
    exists it'. split; [by rewrite (sim_eof T _ _ H)|done].
  - destruct (step_ok max_size r T R Ha true it c Hs) as (it' & -> & H). bnd. exists it'. split; [|done]. by rewrite (Hstep true).
  - destruct (step_ok max_size r T R Ha false it c Hs) as (it' & -> & H). bnd. exists it'. split; [|done]. by rewrite (Hstep false).
Qed.

(** The comparison of the current key with another one. *)
Lemma key_memcmp_ok a : forall b, let c := key_memcmp a b (Nat.min (length b) (length a)) in
  lexb a b = (if c =? 0 then (length a <? length b)%nat else c <? 0) /\ bool_decide (a = b) = (c =? 0) && (length b =? length a)%nat.
Proof.
  induction a as [|x a IH]; intros [|y b]; cbn; try done. destruct (x =? y) eqn:E; bool_hyps.
  - subst y. rewrite Z.ltb_irrefl. cbn. destruct (IH b) as [-> IH2]. split; [done|].
    rewrite <- IH2. apply bool_decide_ext. split; congruence.
  - replace (x - y =? 0) with false by lia. rewrite orb_false_r. cbn. split; [lia|]. apply bool_decide_false. congruence.
Qed.

Lemma lexb_total a b : lexb b a = negb (lexb a b) && negb (bool_decide (a = b)).
Proof.
  revert b. induction a as [|x a IH]; intros [|y b]; cbn; try done. rewrite IH.
  replace (bool_decide (x :: a = y :: b)) with ((x =? y) && bool_decide (a = b)) by (apply eq_bool_prop_intro; destruct (x =? y) eqn:E; bool_hyps; rewrite ?andb_false_l, ?andb_true_l, !bool_decide_spec || rewrite bool_decide_spec; naive_solver).
  rewrite (Z.eqb_sym y x). destruct (Z.ltb_spec x y), (Z.ltb_spec y x), (x =? y) eqn:E; bool_hyps; try lia; cbn; done.
Qed.

Lemma raxCompare_ok it op0 op1 k : key_len it = length (key it) -> raxCompare it op0 op1 k =
  (if op0 =? 62 then lexb k (key it) || (op1 =? 61) && bool_decide (key it = k)
   else if op0 =? 60 then lexb (key it) k || (op1 =? 61) && bool_decide (key it = k)
   else (op1 =? 61) && bool_decide (key it = k)).
Proof.
  intros Hk. unfold raxCompare. rewrite Hk. destruct (key_memcmp_ok (key it) k) as [H1 H2]. rewrite (lexb_total (key it) k), H1, H2.
  set (c := key_memcmp _ _ _). clearbody c. clear H1 H2 Hk. set (a := key it). clearbody a.
  destruct (op0 =? 61) eqn:E0; bool_hyps; [subst op0; cbn; by destruct (op1 =? 61)|].
  destruct (op0 =? 62), (op0 =? 60), (op1 =? 61); cbn [negb andb orb]; try done; destruct (Z.eqb_spec c 0), (Nat.eqb_spec (length k) (length a)), (Nat.ltb_spec (length a) (length k)), (Nat.ltb_spec (length k) (length a)), (Z.ltb_spec 0 c), (Z.ltb_spec c 0); cbn [negb andb orb]; try done; lia.
Qed.

End iterators.

Arguments command : clear implicits.

(** C31: An iterator enumerates the keys of a radix tree in lexicographic
    order.  After any insertions, and any removals while no key has 2^29 bytes
    or more, any sequence of seeks with any
    of the operators and of steps in the two directions returns and shows
    what a cursor in the sorted list of the entries shows: a seek goes to the
    first or the last entry that satisfies the comparison, the first step after
    a seek shows that entry, each other step shows the next or the previous
    one, and there is none after the end is reached. *)
Theorem rax_iterates {V} junk kjunk (A : allocator V) (os : list (op V)) (cs : list command) :
  Forall op_bytes os -> removals_fit RAX_NODE_MAX_SIZE os ∅ -> Z.of_nat (base.size (specs os ∅).1) < 2 ^ 64 -> Forall command_ok cs ->
  exists r out xs, runs RAX_NODE_MAX_SIZE junk A os (raxNew junk A) = Some (r, out) /\
    StronglySorted lex (map fst xs) /\ xs ≡ₚ map_to_list (specs os ∅).1 /\
    session r (raxStart kjunk) cs = Some (cursor_session xs None cs).
Proof.
  intros Hos Hfit Hn Hcs. destruct (runs_ok RAX_NODE_MAX_SIZE junk A os (raxNew junk A) ∅) as (r & H1 & (t & R & Ha & Hf));
    [by unfold RAX_NODE_MAX_SIZE|apply raxNew_ok|done|done|].
  pose proof (denotes_perm RAX_NODE_MAX_SIZE t _ (rep_wf _ _ _ R) Hf) as Hp. exists r, (specs os ∅).2, (entries t). split_and!; try done.
  - by eapply entries_sorted, R.
  - eapply session_ok; [done|done| |by split_and!|done]. unfold zlen. by rewrite Hp, length_map_to_list.
Qed.

Definition demo_commands : list command :=
  [Seek 62 61 (bytes_of "an"%string); Next; Prev; Prev; Next; Seek 60 0 (bytes_of "annib"%string); Prev; Next; Next; Seek 36 0 []; Prev; Next;
   Seek 61 0 (bytes_of "anni"%string); Next; Seek 94 0 []; Next; Next].

Lemma demo_commands_ok : Forall command_ok demo_commands.
Proof. repeat constructor; by eexists. Qed.

Lemma rax_iterates_witness : exists r out xs,
  runs RAX_NODE_MAX_SIZE 7 demo_allocator demo_ops (raxNew 7 demo_allocator) = Some (r, out) /\
  StronglySorted lex (map fst xs) /\ xs ≡ₚ map_to_list (specs demo_ops ∅).1 /\
  session r (raxStart [7; 7]) demo_commands = Some (cursor_session xs None demo_commands).
Proof.
  apply (rax_iterates 7 [7; 7] demo_allocator demo_ops demo_commands).
  - apply demo_ops_bytes.
  - apply demo_ops_fit.
  - by vm_compute.
  - apply demo_commands_ok.
Defined.

(** The events of that session. *)
Example demo_session :
  match runs RAX_NODE_MAX_SIZE 7 demo_allocator demo_ops (raxNew 7 demo_allocator) with
  | Some (r, _) => session r (raxStart [7; 7]) demo_commands =
      let anni := (bytes_of "anni"%string, Some (Some 6)) in
      let annientare := (bytes_of "annientare"%string, Some (Some 2)) in
      let empty := ([], Some (Some 5)) in
      Some [Sought false; Stepped (Some anni); Stepped (Some empty); Stepped None; Stepped None;
            Sought false; Stepped (Some anni); Stepped (Some annientare); Stepped None;
            Sought false; Stepped (Some annientare); Stepped None;
            Sought false; Stepped (Some anni); Sought false; Stepped (Some empty); Stepped (Some anni)]
  | None => False
  end.
Proof. by vm_compute. Qed.

End RaxIter.
