(* ===== verification/Cluster.v ===== *)
(** * Failover elections of the cluster (src/redis-stable/src/cluster.c)

    A cluster is a set of servers that exchange messages.  When a master fails
    one of its replicas is elected by the other masters to replace it.  Each
    server has its own view of the cluster ([clusterState]), of which this file
    models what elections read and write: the epochs, the nodes with their
    flags and slots, the state of the current election and of a manual
    failover, the send buffers, and the epochs saved on disk.

    One call reads the clock once; the inputs of a call that are not part of
    the cluster state (clock, random number, replication offsets,
    configuration) are the record [env].

    Left out: logging and the reason why a replica cannot fail over, statistics,
    the shard channels that clusterDelSlot unsubscribes, the switch of the
    replication when a replica becomes a master, the clients that a manual
    failover pauses, the gossip of PING and PONG messages, and what clusterCron
    does outside failovers. *)
From stdpp Require Import base list gmap sorting.
From S2P Require Import Prelude.

Module Cluster.

Definition CLUSTER_SLOTS : Z := 16384.

Definition CLUSTER_NODE_MASTER : Z := 1.
Definition CLUSTER_NODE_SLAVE : Z := 2.
Definition CLUSTER_NODE_PFAIL : Z := 4.
Definition CLUSTER_NODE_FAIL : Z := 8.
Definition CLUSTER_NODE_MYSELF : Z := 16.
Definition CLUSTER_NODE_HANDSHAKE : Z := 32.
Definition CLUSTER_NODE_MIGRATE_TO : Z := 256.
Definition CLUSTER_NODE_NOFAILOVER : Z := 512.

Definition CLUSTER_TODO_HANDLE_FAILOVER : Z := Z.shiftl 1 0.
Definition CLUSTER_TODO_UPDATE_STATE : Z := Z.shiftl 1 1.
Definition CLUSTER_TODO_SAVE_CONFIG : Z := Z.shiftl 1 2.
Definition CLUSTER_TODO_FSYNC_CONFIG : Z := Z.shiftl 1 3.
Definition CLUSTER_TODO_HANDLE_MANUALFAILOVER : Z := Z.shiftl 1 4.

Definition CLUSTERMSG_FLAG0_PAUSED : Z := Z.shiftl 1 0.
Definition CLUSTERMSG_FLAG0_FORCEACK : Z := Z.shiftl 1 1.

Definition CLUSTER_MAX_REJOIN_DELAY : Z := 5000.
Definition CLUSTER_MIN_REJOIN_DELAY : Z := 500.
Definition CLUSTER_WRITABLE_DELAY : Z := 2000.

Definition has (flags bits : Z) : bool := negb (Z.land flags bits =? 0).
Definition clear_bits (flags bits : Z) : Z := Z.land flags (Z.lnot bits).

(** The name of a node; the code compares the 40 bytes of two names. *)
Abbreviation name := Z.

(** What a server knows of a node.  The bitmap of its slots is the set of the
    slots whose bit is set; [link] tells that there is a connection to it. *)
Record clusterNode := mkNode {
  flags : Z; configEpoch : Z; slots : gset Z; numslots : Z; slaves : list name;
  slaveof : option name; voted_time : Z; repl_offset : Z; link : bool }.

Definition set_flags (f : Z) (n : clusterNode) : clusterNode :=
  mkNode f (configEpoch n) (slots n) (numslots n) (slaves n) (slaveof n) (voted_time n) (repl_offset n) (link n).
Definition set_configEpoch (e : Z) (n : clusterNode) : clusterNode :=
  mkNode (flags n) e (slots n) (numslots n) (slaves n) (slaveof n) (voted_time n) (repl_offset n) (link n).
Definition set_slots (s : gset Z) (k : Z) (n : clusterNode) : clusterNode :=
  mkNode (flags n) (configEpoch n) s k (slaves n) (slaveof n) (voted_time n) (repl_offset n) (link n).
Definition set_slaves (l : list name) (n : clusterNode) : clusterNode :=
  mkNode (flags n) (configEpoch n) (slots n) (numslots n) l (slaveof n) (voted_time n) (repl_offset n) (link n).
Definition set_slaveof (m : option name) (n : clusterNode) : clusterNode :=
  mkNode (flags n) (configEpoch n) (slots n) (numslots n) (slaves n) m (voted_time n) (repl_offset n) (link n).
Definition set_voted_time (t : Z) (n : clusterNode) : clusterNode :=
  mkNode (flags n) (configEpoch n) (slots n) (numslots n) (slaves n) (slaveof n) t (repl_offset n) (link n).
Definition set_repl_offset (o : Z) (n : clusterNode) : clusterNode :=
  mkNode (flags n) (configEpoch n) (slots n) (numslots n) (slaves n) (slaveof n) (voted_time n) o (link n).

Definition nodeIsMaster (n : clusterNode) : bool := has (flags n) CLUSTER_NODE_MASTER.
Definition nodeIsSlave (n : clusterNode) : bool := has (flags n) CLUSTER_NODE_SLAVE.
Definition nodeInHandshake (n : clusterNode) : bool := has (flags n) CLUSTER_NODE_HANDSHAKE.
Definition nodeFailed (n : clusterNode) : bool := has (flags n) CLUSTER_NODE_FAIL.
Definition nodeCantFailover (n : clusterNode) : bool := has (flags n) CLUSTER_NODE_NOFAILOVER.

Inductive msg_type := PING | PONG | FAILOVER_AUTH_REQUEST | FAILOVER_AUTH_ACK.

#[export] Instance msg_type_eq_dec : EqDecision msg_type.
Proof. solve_decision. Defined.

(** The header of a message. *)
Record clusterMsg := mkMsg {
  m_type : msg_type; m_sender : name; m_currentEpoch : Z; m_configEpoch : Z; m_offset : Z; m_slots : gset Z; m_mflags : Z }.

Record election := mkElection {
  failover_auth_time : Z; failover_auth_count : Z; failover_auth_sent : Z; failover_auth_rank : Z; failover_auth_epoch : Z }.

Record manual := mkManual { mf_end : Z; mf_slave : option name; mf_master_offset : Z; mf_can_start : bool }.

(** [sndbuf] is what waits in the send buffers of the links, with the node it
    goes to; [disk] the two epochs of the saved configuration; the last two
    fields before them are the static variables of clusterUpdateState. *)
Record clusterState := mkCluster {
  myself : name; currentEpoch : Z; lastVoteEpoch : Z; cluster_ok : bool; csize : Z; nodes : gmap name clusterNode;
  slot_owner : gmap Z name; auth : election; mf : manual; todo_before_sleep : Z;
  first_call_time : Z; among_minority_time : Z; sndbuf : list (name * clusterMsg); disk : Z * Z }.

Definition set_epoch (e : Z) (s : clusterState) : clusterState :=
  mkCluster (myself s) e (lastVoteEpoch s) (cluster_ok s) (csize s) (nodes s) (slot_owner s) (auth s) (mf s) (todo_before_sleep s)
    (first_call_time s) (among_minority_time s) (sndbuf s) (disk s).
Definition set_vote (e : Z) (s : clusterState) : clusterState :=
  mkCluster (myself s) (currentEpoch s) e (cluster_ok s) (csize s) (nodes s) (slot_owner s) (auth s) (mf s) (todo_before_sleep s)
    (first_call_time s) (among_minority_time s) (sndbuf s) (disk s).
Definition set_nodes (m : gmap name clusterNode) (s : clusterState) : clusterState :=
  mkCluster (myself s) (currentEpoch s) (lastVoteEpoch s) (cluster_ok s) (csize s) m (slot_owner s) (auth s) (mf s) (todo_before_sleep s)
    (first_call_time s) (among_minority_time s) (sndbuf s) (disk s).
Definition set_owner (o : gmap Z name) (s : clusterState) : clusterState :=
  mkCluster (myself s) (currentEpoch s) (lastVoteEpoch s) (cluster_ok s) (csize s) (nodes s) o (auth s) (mf s) (todo_before_sleep s)
    (first_call_time s) (among_minority_time s) (sndbuf s) (disk s).
Definition set_auth (a : election) (s : clusterState) : clusterState :=
  mkCluster (myself s) (currentEpoch s) (lastVoteEpoch s) (cluster_ok s) (csize s) (nodes s) (slot_owner s) a (mf s) (todo_before_sleep s)
    (first_call_time s) (among_minority_time s) (sndbuf s) (disk s).
Definition set_mf (m : manual) (s : clusterState) : clusterState :=
  mkCluster (myself s) (currentEpoch s) (lastVoteEpoch s) (cluster_ok s) (csize s) (nodes s) (slot_owner s) (auth s) m (todo_before_sleep s)
    (first_call_time s) (among_minority_time s) (sndbuf s) (disk s).
Definition set_todo (t : Z) (s : clusterState) : clusterState :=
  mkCluster (myself s) (currentEpoch s) (lastVoteEpoch s) (cluster_ok s) (csize s) (nodes s) (slot_owner s) (auth s) (mf s) t
    (first_call_time s) (among_minority_time s) (sndbuf s) (disk s).
Definition set_sndbuf (l : list (name * clusterMsg)) (s : clusterState) : clusterState :=
  mkCluster (myself s) (currentEpoch s) (lastVoteEpoch s) (cluster_ok s) (csize s) (nodes s) (slot_owner s) (auth s) (mf s) (todo_before_sleep s)
    (first_call_time s) (among_minority_time s) l (disk s).
Definition set_disk (d : Z * Z) (s : clusterState) : clusterState :=
  mkCluster (myself s) (currentEpoch s) (lastVoteEpoch s) (cluster_ok s) (csize s) (nodes s) (slot_owner s) (auth s) (mf s) (todo_before_sleep s)
    (first_call_time s) (among_minority_time s) (sndbuf s) d.
(** The fields that only clusterUpdateState writes. *)
Definition set_state (ok : bool) (size first minority : Z) (s : clusterState) : clusterState :=
  mkCluster (myself s) (currentEpoch s) (lastVoteEpoch s) ok size (nodes s) (slot_owner s) (auth s) (mf s) (todo_before_sleep s)
    first minority (sndbuf s) (disk s).

(** Inputs of a call: the clock in milliseconds, the result of random(), the
    replication link and offsets, and the configuration. *)
Record env := mkEnv {
  now : Z; random : Z; repl_connected : bool; unixtime : Z; lastinteraction : Z; repl_down_since : Z;
  slave_offset : Z; master_repl_offset : Z; cluster_node_timeout : Z; cluster_slave_validity_factor : Z;
  repl_ping_slave_period : Z; cluster_slave_no_failover : bool; cluster_require_full_coverage : bool;
  module_no_failover : bool }.

Definition node_of (x : name) (s : clusterState) : option clusterNode := nodes s !! x.
Definition upd_node (x : name) (f : clusterNode -> clusterNode) (s : clusterState) : option clusterState :=
  n ← nodes s !! x; Some (set_nodes (<[x := f n]> (nodes s)) s).

Definition clusterDoBeforeSleep (f : Z) (s : clusterState) : clusterState := set_todo (Z.lor (todo_before_sleep s) f) s.

(** ** Slots *)

Definition clusterMastersHaveSlaves (s : clusterState) : bool :=
  negb (sum_list_with (fun '(_, n) => if nodeIsSlave n then 0%nat else length (slaves n)) (map_to_list (nodes s)) =? 0)%nat.

(** Set the bit of a slot of a node. *)
Definition clusterNodeSetSlotBit (x : name) (slot : Z) (s : clusterState) : option clusterState :=
  n ← node_of x s;
  if bool_decide (slot ∈ slots n) then Some s else
  s ← upd_node x (set_slots ({[slot]} ∪ slots n) (numslots n + 1)) s;
  if (numslots n + 1 =? 1) && clusterMastersHaveSlaves s
  then upd_node x (set_flags (Z.lor (flags n) CLUSTER_NODE_MIGRATE_TO)) s
  else Some s.

(** Clear the bit of a slot of a node, and its old value. *)
Definition clusterNodeClearSlotBit (x : name) (slot : Z) (s : clusterState) : option (clusterState * bool) :=
  n ← node_of x s;
  let old := bool_decide (slot ∈ slots n) in
  s ← upd_node x (set_slots (slots n ∖ {[slot]}) (if old then numslots n - 1 else numslots n)) s;
  Some (s, old).

(** The boolean is whether the slot was free. *)
Definition clusterAddSlot (x : name) (slot : Z) (s : clusterState) : option (clusterState * bool) :=
  match slot_owner s !! slot with
  | Some _ => Some (s, false)
  | None => s ← clusterNodeSetSlotBit x slot s; Some (set_owner (<[slot := x]> (slot_owner s)) s, true)
  end.

(** The boolean is whether the slot was assigned.  [None] is also the failed
    assertion that the bit of the owner is set. *)
Definition clusterDelSlot (slot : Z) (s : clusterState) : option (clusterState * bool) :=
  match slot_owner s !! slot with
  | None => Some (s, false)
  | Some x =>
      '(s, old) ← clusterNodeClearSlotBit x slot s;
      if (old : bool) then Some (set_owner (delete slot (slot_owner s)) s, true) else None
  end.

(** The values of the counter of a loop over the slots. *)
Fixpoint count_up (j : Z) (n : nat) : list Z := match n with O => [] | S n => j :: count_up (j + 1) n end.
Definition slot_range : list Z := count_up 0 (Z.to_nat CLUSTER_SLOTS).

(** Run a step for each slot. *)
Fixpoint for_slots (l : list Z) (f : Z -> clusterState -> option clusterState) (s : clusterState) : option clusterState :=
  match l with [] => Some s | j :: l => s ← f j s; for_slots l f s end.

(** ** Messages *)

Definition clusterBuildMessageHdr (e : env) (t : msg_type) (s : clusterState) : option clusterMsg :=
  me ← node_of (myself s) s;
  master ← (match slaveof me with
            | Some m => if nodeIsSlave me then node_of m s else Some me
            | None => Some me
            end);
  Some (mkMsg t (myself s) (currentEpoch s) (configEpoch master) (if nodeIsSlave me then slave_offset e else master_repl_offset e)
          (slots master) (if nodeIsMaster me && negb (mf_end (mf s) =? 0) then CLUSTERMSG_FLAG0_PAUSED else 0)).

Definition clusterSendMessage (to : name) (linked : bool) (msg : clusterMsg) (s : clusterState) : clusterState :=
  if linked then set_sndbuf (sndbuf s ++ [(to, msg)]) s else s.

Definition clusterBroadcastMessage (msg : clusterMsg) (s : clusterState) : clusterState :=
  set_sndbuf (sndbuf s ++ map (fun '(x, _) => (x, msg))
    (filter (fun '(x, n) => has (flags n) (Z.lor CLUSTER_NODE_MYSELF CLUSTER_NODE_HANDSHAKE) = false /\ link n = true)
      (map_to_list (nodes s)))) s.

(** A PONG to every node, or only to the replicas of the same master. *)
Definition clusterBroadcastPong (e : env) (local_slaves : bool) (s : clusterState) : option clusterState :=
  msg ← clusterBuildMessageHdr e PONG s;
  me ← node_of (myself s) s;
  Some (set_sndbuf (sndbuf s ++ map (fun '(x, _) => (x, msg))
    (filter (fun '(x, n) => x <> myself s /\ nodeInHandshake n = false /\ link n = true /\
      (local_slaves = true -> nodeIsSlave n = true /\ slaveof n <> None /\ (slaveof n = Some (myself s) \/ slaveof n = slaveof me)))
      (map_to_list (nodes s)))) s).

Definition clusterRequestFailoverAuth (e : env) (s : clusterState) : option clusterState :=
  hdr ← clusterBuildMessageHdr e FAILOVER_AUTH_REQUEST s;
  let hdr := if mf_end (mf s) =? 0 then hdr
             else mkMsg (m_type hdr) (m_sender hdr) (m_currentEpoch hdr) (m_configEpoch hdr) (m_offset hdr) (m_slots hdr)
                    (Z.lor (m_mflags hdr) CLUSTERMSG_FLAG0_FORCEACK) in
  Some (clusterBroadcastMessage hdr s).

Definition clusterSendFailoverAuth (e : env) (x : name) (s : clusterState) : option clusterState :=
  n ← node_of x s;
  if negb (link n) then Some s else
  hdr ← clusterBuildMessageHdr e FAILOVER_AUTH_ACK s;
  Some (clusterSendMessage x (link n) hdr s).

(** Writes the configuration file. *)
Definition clusterSaveConfig (s : clusterState) : clusterState :=
  set_disk (currentEpoch s, lastVoteEpoch s) (set_todo (clear_bits (todo_before_sleep s) CLUSTER_TODO_SAVE_CONFIG) s).

(** ** Voting *)

(** The test of the claimed slots: none is served, in this server's view, by a
    node with a greater configuration epoch.  [None] is a dangling owner. *)
Fixpoint claims_ok (l : list Z) (claimed : gset Z) (requestConfigEpoch : Z) (s : clusterState) : option bool :=
  match l with
  | [] => Some true
  | j :: l =>
      if negb (bool_decide (j ∈ claimed)) then claims_ok l claimed requestConfigEpoch s else
      match slot_owner s !! j with
      | None => claims_ok l claimed requestConfigEpoch s
      | Some x => n ← node_of x s; if configEpoch n <=? requestConfigEpoch then claims_ok l claimed requestConfigEpoch s else Some false
      end
  end.

Definition clusterSendFailoverAuthIfNeeded (e : env) (x : name) (request : clusterMsg) (s : clusterState) : option clusterState :=
  n ← node_of x s;
  me ← node_of (myself s) s;
  if nodeIsSlave me || (numslots me =? 0) then Some s else
  if m_currentEpoch request <? currentEpoch s then Some s else
  if lastVoteEpoch s =? currentEpoch s then Some s else
  if nodeIsMaster n then Some s else
  match slaveof n with
  | None => Some s
  | Some m =>
      master ← node_of m s;
      if negb (nodeFailed master) && negb (has (m_mflags request) CLUSTERMSG_FLAG0_FORCEACK) then Some s else
      if now e - voted_time master <? cluster_node_timeout e * 2 then Some s else
      ok ← claims_ok slot_range (m_slots request) (m_configEpoch request) s;
      if negb ok then Some s else
      let s := set_vote (currentEpoch s) s in
      s ← upd_node m (set_voted_time (now e)) s;
      clusterSendFailoverAuth e x (clusterDoBeforeSleep (Z.lor CLUSTER_TODO_SAVE_CONFIG CLUSTER_TODO_FSYNC_CONFIG) s)
  end.

(** ** The state of the cluster *)

(** All the slots are served by nodes that are not failing. *)
Fixpoint covered (l : list Z) (s : clusterState) : option bool :=
  match l with
  | [] => Some true
  | j :: l =>
      match slot_owner s !! j with
      | None => Some false
      | Some x => n ← node_of x s; if has (flags n) CLUSTER_NODE_FAIL then Some false else covered l s
      end
  end.

Definition count_nodes (p : clusterNode -> bool) (s : clusterState) : Z :=
  zlen (filter (fun '(_, n) => p n = true) (map_to_list (nodes s))).
Definition serves (n : clusterNode) : bool := nodeIsMaster n && negb (numslots n =? 0).

Definition clusterUpdateState (e : env) (s : clusterState) : option clusterState :=
  let s := set_todo (clear_bits (todo_before_sleep s) CLUSTER_TODO_UPDATE_STATE) s in
  me ← node_of (myself s) s;
  let first := if first_call_time s =? 0 then now e else first_call_time s in
  let s := set_state (cluster_ok s) (csize s) first (among_minority_time s) s in
  if nodeIsMaster me && negb (cluster_ok s) && (now e - first <? CLUSTER_WRITABLE_DELAY) then Some s else
  new_state ← (if cluster_require_full_coverage e then covered slot_range s else Some true);
  let size := count_nodes serves s in
  let reachable := count_nodes (fun n => serves n && negb (has (flags n) (Z.lor CLUSTER_NODE_FAIL CLUSTER_NODE_PFAIL))) s in
  let needed_quorum := size / 2 + 1 in
  let minority := if reachable <? needed_quorum then now e else among_minority_time s in
  let new_state := if reachable <? needed_quorum then false else new_state in
  let s := set_state (cluster_ok s) size first minority s in
  if Bool.eqb new_state (cluster_ok s) then Some s else
  let rejoin_delay := Z.max CLUSTER_MIN_REJOIN_DELAY (Z.min (cluster_node_timeout e) CLUSTER_MAX_REJOIN_DELAY) in
  if new_state && nodeIsMaster me && (now e - minority <? rejoin_delay) then Some s else
  Some (set_state new_state size first minority s).

(** ** Failover of the master of a replica *)

Definition clusterNodeRemoveSlave (m x : name) (s : clusterState) : option clusterState :=
  upd_node m (fun n =>
    match list_find (eq x) (slaves n) with
    | None => n
    | Some (j, _) =>
        let n := set_slaves (delete j (slaves n)) n in
        if (length (slaves n) =? 0)%nat then set_flags (clear_bits (flags n) CLUSTER_NODE_MIGRATE_TO) n else n
    end) s.

Definition clusterSetNodeAsMaster (x : name) (s : clusterState) : option clusterState :=
  n ← node_of x s;
  if nodeIsMaster n then Some s else
  s ← (match slaveof n with
       | Some m =>
           s ← clusterNodeRemoveSlave m x s;
           if bool_decide (x = myself s) then Some s
           else upd_node x (fun n => set_flags (Z.lor (flags n) CLUSTER_NODE_MIGRATE_TO) n) s
       | None => Some s
       end);
  s ← upd_node x (fun n => set_slaveof None (set_flags (Z.lor (clear_bits (flags n) CLUSTER_NODE_SLAVE) CLUSTER_NODE_MASTER) n)) s;
  Some (clusterDoBeforeSleep (Z.lor CLUSTER_TODO_SAVE_CONFIG CLUSTER_TODO_UPDATE_STATE) s).

Definition resetManualFailover (s : clusterState) : clusterState := set_mf (mkManual 0 None (-1) false) s.

(** Take the slot [j] from the old master. *)
Definition take_slot (oldmaster j : Z) (s : clusterState) : option clusterState :=
  old ← node_of oldmaster s;
  if bool_decide (j ∈ slots old) then
    '(s, _) ← clusterDelSlot j s;
    '(s, _) ← clusterAddSlot (myself s) j s;
    Some s
  else Some s.

Definition clusterFailoverReplaceYourMaster (e : env) (s : clusterState) : option clusterState :=
  me ← node_of (myself s) s;
  match slaveof me with
  | None => Some s
  | Some oldmaster =>
      if nodeIsMaster me then Some s else
      s ← clusterSetNodeAsMaster (myself s) s;
      s ← for_slots slot_range (take_slot oldmaster) s;
      s ← clusterUpdateState e s;
      s ← clusterBroadcastPong e false (clusterSaveConfig s);
      Some (resetManualFailover s)
  end.

Definition clusterGetSlaveRank (e : env) (s : clusterState) : option Z :=
  me ← node_of (myself s) s;
  if negb (nodeIsSlave me) then None else
  match slaveof me with
  | None => Some 0
  | Some m =>
      master ← node_of m s;
      (fix count (l : list name) (rank : Z) : option Z :=
         match l with
         | [] => Some rank
         | x :: l =>
             n ← node_of x s;
             count l (if negb (bool_decide (x = myself s)) && negb (nodeCantFailover n) && (slave_offset e <? repl_offset n) then rank + 1 else rank)
         end) (slaves master) 0
  end.

(** What a call of clusterHandleSlaveFailover does. *)
Inductive outcome := NoFailover | DataAge | Scheduled | WaitingDelay | Expired | Asked | Won | WaitingVotes.

#[export] Instance outcome_eq_dec : EqDecision outcome.
Proof. solve_decision. Defined.

Definition clusterHandleSlaveFailover (e : env) (s : clusterState) : option (clusterState * outcome) :=
  let auth_age := now e - failover_auth_time (auth s) in
  let needed_quorum := csize s / 2 + 1 in
  let manual_failover := negb (mf_end (mf s) =? 0) && mf_can_start (mf s) in
  let s := set_todo (clear_bits (todo_before_sleep s) CLUSTER_TODO_HANDLE_FAILOVER) s in
  let auth_timeout := Z.max (cluster_node_timeout e * 2) 2000 in
  let auth_retry_time := auth_timeout * 2 in
  me ← node_of (myself s) s;
  if nodeIsMaster me then Some (s, NoFailover) else
  match slaveof me with
  | None => Some (s, NoFailover)
  | Some m =>
  master ← node_of m s;
  if (negb (nodeFailed master) && negb manual_failover) || (cluster_slave_no_failover e && negb manual_failover) || (numslots master =? 0)
  then Some (s, NoFailover) else
  let data_age := (unixtime e - (if repl_connected e then lastinteraction e else repl_down_since e)) * 1000 in
  let data_age := if cluster_node_timeout e <? data_age then data_age - cluster_node_timeout e else data_age in
  if negb (cluster_slave_validity_factor e =? 0) &&
     (repl_ping_slave_period e * 1000 + cluster_node_timeout e * cluster_slave_validity_factor e <? data_age) && negb manual_failover
  then Some (s, DataAge) else
  if auth_retry_time <? auth_age then
    rank ← clusterGetSlaveRank e s;
    let time := now e + 500 + random e mod 500 + rank * 1000 in
    let s := if mf_end (mf s) =? 0 then set_auth (mkElection time 0 0 rank (failover_auth_epoch (auth s))) s
             else clusterDoBeforeSleep CLUSTER_TODO_HANDLE_FAILOVER
                    (set_auth (mkElection (now e) 0 0 0 (failover_auth_epoch (auth s))) s) in
    s ← clusterBroadcastPong e true s;
    Some (s, Scheduled)
  else
  s ← (if (failover_auth_sent (auth s) =? 0) && (mf_end (mf s) =? 0) then
         newrank ← clusterGetSlaveRank e s;
         let a := auth s in
         if failover_auth_rank a <? newrank
         then Some (set_auth (mkElection (failover_auth_time a + (newrank - failover_auth_rank a) * 1000) (failover_auth_count a)
                (failover_auth_sent a) newrank (failover_auth_epoch a)) s)
         else Some s
       else Some s);
  if now e <? failover_auth_time (auth s) then Some (s, WaitingDelay) else
  if auth_timeout <? auth_age then Some (s, Expired) else
  if failover_auth_sent (auth s) =? 0 then
    let s := set_epoch (u64 (currentEpoch s + 1)) s in
    let a := auth s in
    let s := set_auth (mkElection (failover_auth_time a) (failover_auth_count a) (failover_auth_sent a) (failover_auth_rank a) (currentEpoch s)) s in
    s ← clusterRequestFailoverAuth e s;
    let a := auth s in
    let s := set_auth (mkElection (failover_auth_time a) (failover_auth_count a) 1 (failover_auth_rank a) (failover_auth_epoch a)) s in
    Some (clusterDoBeforeSleep (Z.lor CLUSTER_TODO_SAVE_CONFIG (Z.lor CLUSTER_TODO_UPDATE_STATE CLUSTER_TODO_FSYNC_CONFIG)) s, Asked)
  else if needed_quorum <=? failover_auth_count (auth s) then
    s ← (if configEpoch me <? failover_auth_epoch (auth s)
         then upd_node (myself s) (set_configEpoch (failover_auth_epoch (auth s))) s else Some s);
    s ← clusterFailoverReplaceYourMaster e s;
    Some (s, Won)
  else Some (s, WaitingVotes)
  end.

(** ** Packets, timers and the end of an event loop iteration *)

(** What clusterProcessPacket does with the header of a message of a sender
    [x] that is known. *)
Definition update_from_sender (x : name) (sender me : clusterNode) (msg : clusterMsg) (s : clusterState) : option clusterState :=
  if nodeInHandshake sender then Some s else
  let s := if currentEpoch s <? m_currentEpoch msg then set_epoch (m_currentEpoch msg) s else s in
  s ← (if configEpoch sender <? m_configEpoch msg then
         s ← upd_node x (set_configEpoch (m_configEpoch msg)) s;
         Some (clusterDoBeforeSleep (Z.lor CLUSTER_TODO_SAVE_CONFIG CLUSTER_TODO_FSYNC_CONFIG) s)
       else Some s);
  s ← upd_node x (set_repl_offset (m_offset msg)) s;
  if negb (mf_end (mf s) =? 0) && nodeIsSlave me && bool_decide (slaveof me = Some x) &&
     has (m_mflags msg) CLUSTERMSG_FLAG0_PAUSED && (mf_master_offset (mf s) =? -1)
  then Some (clusterDoBeforeSleep CLUSTER_TODO_HANDLE_MANUALFAILOVER
         (set_mf (mkManual (mf_end (mf s)) (mf_slave (mf s)) (m_offset msg) (mf_can_start (mf s))) s))
  else Some s.

(** clusterProcessPacket for the messages of elections: the header, then the
    request or the vote.  What PING and PONG messages say of the other nodes
    is left to the reconfigurations of the network model. *)
Definition clusterProcessPacket (e : env) (msg : clusterMsg) (s : clusterState) : option clusterState :=
  let x := m_sender msg in
  match node_of x s with
  | None => Some s
  | Some sender =>
      me ← node_of (myself s) s;
      s ← update_from_sender x sender me msg s;
      let senderCurrentEpoch := if nodeInHandshake sender then 0 else m_currentEpoch msg in
      match m_type msg with
      | FAILOVER_AUTH_REQUEST => clusterSendFailoverAuthIfNeeded e x msg s
      | FAILOVER_AUTH_ACK =>
          if nodeIsMaster sender && (0 <? numslots sender) && (failover_auth_epoch (auth s) <=? senderCurrentEpoch) then
            let a := auth s in
            Some (clusterDoBeforeSleep CLUSTER_TODO_HANDLE_FAILOVER
              (set_auth (mkElection (failover_auth_time a) (failover_auth_count a + 1) (failover_auth_sent a) (failover_auth_rank a)
                 (failover_auth_epoch a)) s))
          else Some s
      | PING | PONG => Some s
      end
  end.

Definition manualFailoverCheckTimeout (e : env) (s : clusterState) : clusterState :=
  if negb (mf_end (mf s) =? 0) && (mf_end (mf s) <? now e) then resetManualFailover s else s.

Definition clusterHandleManualFailover (e : env) (s : clusterState) : clusterState :=
  if mf_end (mf s) =? 0 then s else
  if mf_can_start (mf s) then s else
  if mf_master_offset (mf s) =? -1 then s else
  if mf_master_offset (mf s) =? slave_offset e
  then clusterDoBeforeSleep CLUSTER_TODO_HANDLE_FAILOVER
         (set_mf (mkManual (mf_end (mf s)) (mf_slave (mf s)) (mf_master_offset (mf s)) true) s)
  else clusterDoBeforeSleep CLUSTER_TODO_HANDLE_MANUALFAILOVER s.

(** The failover of a replica, unless a module disabled it. *)
Definition slave_failover (e : env) (s : clusterState) : option (clusterState * outcome) :=
  let s := clusterHandleManualFailover e s in
  if module_no_failover e then Some (s, NoFailover) else clusterHandleSlaveFailover e s.

(** The part of clusterCron about failovers; [update] is its update_state. *)
Definition clusterCron (e : env) (update : bool) (s : clusterState) : option (clusterState * outcome) :=
  let s := manualFailoverCheckTimeout e s in
  me ← node_of (myself s) s;
  '(s, o) ← (if nodeIsSlave me then slave_failover e s else Some (s, NoFailover));
  s ← (if update || negb (cluster_ok s) then clusterUpdateState e s else Some s);
  Some (s, o).

Definition clusterBeforeSleep (e : env) (s : clusterState) : option (clusterState * outcome) :=
  let f := todo_before_sleep s in
  let s := set_todo 0 s in
  me ← node_of (myself s) s;
  '(s, o) ← (if has f CLUSTER_TODO_HANDLE_MANUALFAILOVER then
               if nodeIsSlave me then slave_failover e s else Some (s, NoFailover)
             else if has f CLUSTER_TODO_HANDLE_FAILOVER then clusterHandleSlaveFailover e s
             else Some (s, NoFailover));
  s ← (if has f CLUSTER_TODO_UPDATE_STATE then clusterUpdateState e s else Some s);
  Some (if has f CLUSTER_TODO_SAVE_CONFIG then clusterSaveConfig s else s, o).

(** ** Epochs without an election *)

Definition clusterGetMaxEpoch (s : clusterState) : Z :=
  Z.max (foldr (fun '(_, n) m => Z.max (configEpoch n) m) 0 (map_to_list (nodes s))) (currentEpoch s).

(** The boolean is whether there is a new epoch. *)
Definition clusterBumpConfigEpochWithoutConsensus (s : clusterState) : option (clusterState * bool) :=
  me ← node_of (myself s) s;
  if (configEpoch me =? 0) || negb (configEpoch me =? clusterGetMaxEpoch s) then
    let s := set_epoch (u64 (currentEpoch s + 1)) s in
    s ← upd_node (myself s) (set_configEpoch (currentEpoch s)) s;
    Some (clusterDoBeforeSleep (Z.lor CLUSTER_TODO_SAVE_CONFIG CLUSTER_TODO_FSYNC_CONFIG) s, true)
  else Some (s, false).

Definition clusterHandleConfigEpochCollision (x : name) (s : clusterState) : option clusterState :=
  sender ← node_of x s;
  me ← node_of (myself s) s;
  if negb (configEpoch sender =? configEpoch me) || negb (nodeIsMaster sender) || negb (nodeIsMaster me) then Some s else
  if x <=? myself s then Some s else
  let s := set_epoch (u64 (currentEpoch s + 1)) s in
  s ← upd_node (myself s) (set_configEpoch (currentEpoch s)) s;
  Some (clusterSaveConfig s).

(** A server that starts: [d] are the epochs of its configuration file, [sent]
    the contents of the field that clusterInit does not initialise. *)
Definition clusterInit (x : name) (m : gmap name clusterNode) (o : gmap Z name) (sent : Z) (d : Z * Z) : clusterState :=
  let s := mkCluster x d.1 d.2 false 1 m o (mkElection 0 0 sent 0 0) (mkManual 0 None (-1) false) 0 0 0 [] d in
  set_epoch (clusterGetMaxEpoch s) s.

End Cluster.
