(* ===== verification/Election.v ===== *)
(** * Elections over a network (src/redis-stable/src/cluster.c)

    The servers of Cluster.v exchange messages over a network that delays,
    reorders and drops them.  A step is a message that a server processes, a
    timer, the end of an event loop iteration (the configuration is saved when
    needed, then the send buffers can be written), a write of the send buffers
    before the end of the iteration, a new epoch without an election, a
    restart from the saved configuration, or any reconfiguration of a server's
    view of the others (gossip, failure detection, updates of slots, commands
    of the administrator).  The early write is there because the barrier that
    clusterSendMessage asks for holds a message back until the next iteration
    only when the connection it is written to is the one that was read
    (aeProcessEvents of ae.c): a vote goes to the link to the replica, whose
    write handler may already be pending, and the request came on another
    connection.  CLUSTER RESET HARD, which takes the epochs back, is not a step.

    The theorems: a master never sends two votes for one epoch, also across
    restarts, unless it restarts between an early write and the saving of its
    configuration, and then it can; two replicas do not win the same epoch when
    every vote is counted in the election it was given for; and the code does
    not always do that: a vote that arrives after a new election was scheduled
    is counted in it. *)
From stdpp Require Import base list gmap sorting.
From S2P Require Import Prelude Cluster.

Module Election.
Import Cluster.

(** A vote: who voted, the epoch and the replica voted for. *)
Abbreviation vote := (name * Z * name)%type.

(** A win: the replica, the epoch, the voters it counted and the size of the
    cluster it knew. *)
Record win := mkWin { w_node : name; w_epoch : Z; w_votes : list name; w_size : Z }.

(** The servers and the messages on the wire with their destinations.  The
    other fields are history: the votes sent, those that left the wire,
    the voters each server counted since it scheduled its election, the
    servers that asked for votes since then, the wins, and the votes that were
    written before the end of the iteration that gave them. *)
Record network := mkNet {
  servers : gmap name clusterState; wire : list (name * clusterMsg);
  granted : list vote; consumed : list vote; tally : name -> list name; asking : gset name; wins : list win; early : list vote }.

Definition ack (p : name * clusterMsg) : option vote :=
  if decide (m_type p.2 = FAILOVER_AUTH_ACK) then Some (m_sender p.2, m_currentEpoch p.2, p.1) else None.
Definition acks (l : list (name * clusterMsg)) : list vote := omap ack l.

Definition fupd (f : name -> list name) (x : name) (l : list name) : name -> list name := fun y => if decide (y = x) then l else f y.

(** The history after a server went through clusterHandleSlaveFailover. *)
Definition record_outcome (x : name) (s : clusterState) (o : outcome) (g : network) : network :=
  match o with
  | Scheduled => mkNet (servers g) (wire g) (granted g) (consumed g) (fupd (tally g) x []) (asking g ∖ {[x]}) (wins g) (early g)
  | Asked => mkNet (servers g) (wire g) (granted g) (consumed g) (tally g) ({[x]} ∪ asking g) (wins g) (early g)
  | Won => mkNet (servers g) (wire g) (granted g) (consumed g) (tally g) (asking g)
             (mkWin x (failover_auth_epoch (auth s)) (tally g x) (csize s) :: wins g) (early g)
  | _ => g
  end.

Definition set_server (x : name) (s : clusterState) (g : network) : network :=
  mkNet (<[x := s]> (servers g)) (wire g) (granted g) (consumed g) (tally g) (asking g) (wins g) (early g).

(** Messages that are neither a request nor a vote. *)
Definition plain (p : name * clusterMsg) : Prop := m_type p.2 = PING \/ m_type p.2 = PONG.

(** A change of what a server knows of the others. *)
Definition reconfigured (s s' : clusterState) : Prop :=
  myself s' = myself s /\ currentEpoch s' = currentEpoch s /\ lastVoteEpoch s' = lastVoteEpoch s /\ auth s' = auth s /\ disk s' = disk s /\
  (has (todo_before_sleep s) CLUSTER_TODO_SAVE_CONFIG = true -> has (todo_before_sleep s') CLUSTER_TODO_SAVE_CONFIG = true) /\
  exists l, sndbuf s' = sndbuf s ++ l /\ Forall plain l.

(** When [strict], a vote is only processed by a server that waits for votes
    (not between the scheduling of its next election and the request), and a
    server restarts when the epoch of its last request is saved.  When
    [careful], a server does not restart between the early writing of a vote
    and the saving of the configuration. *)
Inductive step (strict careful : bool) : network -> network -> Prop :=
| step_deliver e x msg pre post g s s' :
    wire g = pre ++ (x, msg) :: post -> servers g !! x = Some s -> clusterProcessPacket e msg s = Some s' ->
    (strict = true -> m_type msg = FAILOVER_AUTH_ACK -> x ∈ asking g) ->
    step strict careful g (mkNet (<[x := s']> (servers g)) (pre ++ post) (granted g) (consumed g ++ acks [(x, msg)])
      (if decide (failover_auth_count (auth s') = failover_auth_count (auth s)) then tally g else fupd (tally g) x (m_sender msg :: tally g x))
      (asking g) (wins g) (early g))
| step_drop p pre post g :
    wire g = pre ++ p :: post ->
    step strict careful g (mkNet (servers g) (pre ++ post) (granted g) (consumed g ++ acks [p]) (tally g) (asking g) (wins g) (early g))
| step_cron e update x g s s' o :
    servers g !! x = Some s -> clusterCron e update s = Some (s', o) ->
    step strict careful g (record_outcome x s o (set_server x s' g))
| step_sleep e x g s s' o sent kept :
    servers g !! x = Some s -> clusterBeforeSleep e s = Some (s', o) -> sndbuf s' ≡ₚ sent ++ kept ->
    step strict careful g (record_outcome x s o (mkNet (<[x := set_sndbuf kept s']> (servers g)) (wire g ++ sent) (granted g ++ acks sent)
      (consumed g) (tally g) (asking g) (wins g) (early g)))
| step_write x g s sent kept :
    servers g !! x = Some s -> sndbuf s ≡ₚ sent ++ kept ->
    step strict careful g (mkNet (<[x := set_sndbuf kept s]> (servers g)) (wire g ++ sent) (granted g ++ acks sent)
      (consumed g) (tally g) (asking g) (wins g) (early g ++ acks sent))
| step_bump x g s s' b :
    servers g !! x = Some s -> clusterBumpConfigEpochWithoutConsensus s = Some (s', b) -> step strict careful g (set_server x s' g)
| step_collision x y g s s' :
    servers g !! x = Some s -> clusterHandleConfigEpochCollision y s = Some s' -> step strict careful g (set_server x s' g)
| step_reconfigure x g s s' :
    servers g !! x = Some s -> reconfigured s s' -> step strict careful g (set_server x s' g)
| step_restart x m o sent g s :
    servers g !! x = Some s -> (strict = true -> failover_auth_epoch (auth s) <= (disk s).1) ->
    (careful = true -> forall v, v ∈ early g -> v.1.1 = x -> v.1.2 <= (disk s).2) ->
    step strict careful g (mkNet (<[x := clusterInit x m o sent (disk s)]> (servers g)) (filter (fun p => p.1 <> x) (wire g)) (granted g)
      (consumed g ++ acks (filter (fun p => p.1 = x) (wire g))) (fupd (tally g) x []) (asking g ∖ {[x]}) (wins g) (early g)).

(** The epochs are far from the end of their 64 bits. *)
Definition bounded (g : network) : Prop := map_Forall (fun _ s => currentEpoch s < 2 ^ 64 - 1) (servers g).

(** A network that starts: no message, no vote, no election under way. *)
Definition initial (g : network) : Prop :=
  bounded g /\ wire g = [] /\ granted g = [] /\ consumed g = [] /\ (forall x, tally g x = []) /\ asking g = ∅ /\ wins g = [] /\ early g = [] /\
  map_Forall (fun x s => myself s = x /\ 0 <= lastVoteEpoch s <= currentEpoch s /\ 0 <= failover_auth_epoch (auth s) <= currentEpoch s /\
    failover_auth_count (auth s) = 0 /\ sndbuf s = [] /\ 0 <= (disk s).2 <= (disk s).1 /\ (disk s).1 <= currentEpoch s /\ (disk s).2 <= lastVoteEpoch s) (servers g).

Inductive reachable (strict careful : bool) (g0 : network) : network -> Prop :=
| reach_start : reachable strict careful g0 g0
| reach_step g g' : reachable strict careful g0 g -> step strict careful g g' -> bounded g' -> reachable strict careful g0 g'.

(** ** What a call keeps *)

Lemma has_lor f g b : has f b = true -> has (Z.lor f g) b = true.
Proof.
  unfold has. rewrite !negb_true_iff, !Z.eqb_neq. intros H H'. apply H. rewrite Z.land_lor_distr_l in H'.
  by apply Z.lor_eq_0_iff in H' as [? _].
Qed.

Lemma has_clear f a b : Z.land (Z.lnot a) b = b -> has (clear_bits f a) b = has f b.
Proof. intros H. unfold has, clear_bits. by rewrite <- Z.land_assoc, H. Qed.

(** From [s] to [s'] no vote is given, and only messages in [P] are sent. *)
Record keeps (P : name * clusterMsg -> Prop) (s s' : clusterState) : Prop := {
  k_my : myself s' = myself s;
  k_vote : lastVoteEpoch s' = lastVoteEpoch s;
  k_epoch : currentEpoch s <= currentEpoch s';
  k_buf : exists l, sndbuf s' = sndbuf s ++ l /\ Forall P l;
  k_disk : disk s' = disk s \/ currentEpoch s <= (disk s').1 <= currentEpoch s' /\ (disk s').2 = lastVoteEpoch s;
  k_save : has (todo_before_sleep s) CLUSTER_TODO_SAVE_CONFIG = true ->
    has (todo_before_sleep s') CLUSTER_TODO_SAVE_CONFIG = true \/ (disk s').2 = lastVoteEpoch s }.

(** The election of the server is the same. *)
Definition same_auth (s s' : clusterState) : Prop := auth s' = auth s.

Lemma keeps_refl P s : keeps P s s.
Proof. split; auto; [lia|]. exists []. by rewrite app_nil_r. Qed.

Lemma keeps_trans P s1 s2 s3 : keeps P s1 s2 -> keeps P s2 s3 -> keeps P s1 s3.
Proof.
  intros [A1 A2 A3 (l1 & A4 & A4') A5 A6] [B1 B2 B3 (l2 & B4 & B4') B5 B6]. split.
  - congruence.
  - congruence.
  - lia.
  - exists (l1 ++ l2). rewrite B4, A4, app_assoc. split; [done|]. by apply Forall_app.
  - destruct B5 as [->|[? ?]]; [destruct A5 as [->|[? ?]]; [by left|right; split; [lia|done]]|right]. split; [lia|congruence].
  - intros H. destruct (A6 H) as [H'|H']; [destruct (B6 H'); [auto|right; congruence]|].
    right. destruct B5 as [->|[_ ->]]; [done|congruence].
Qed.

Lemma keeps_weaken (P Q : name * clusterMsg -> Prop) s s' : (forall p, P p -> Q p) -> keeps P s s' -> keeps Q s s'.
Proof. intros H [A1 A2 A3 (l & A4 & A4') A5 A6]. split; try done. exists l. split; [done|]. eapply Forall_impl; eauto. Qed.

(** Changes of the other fields. *)
Lemma keeps_eq P s s' : myself s' = myself s -> lastVoteEpoch s' = lastVoteEpoch s -> currentEpoch s' = currentEpoch s ->
  sndbuf s' = sndbuf s -> disk s' = disk s ->
  (has (todo_before_sleep s) CLUSTER_TODO_SAVE_CONFIG = true -> has (todo_before_sleep s') CLUSTER_TODO_SAVE_CONFIG = true) -> keeps P s s'.
Proof. intros H1 H2 H3 H4 H5 H6. split; auto; [lia|]. exists []. by rewrite app_nil_r. Qed.

Ltac kept := first [apply keeps_refl | apply keeps_eq; cbn; first [done | intros ?; done | by apply has_lor | by rewrite has_clear]].

Lemma upd_node_keeps P x f s s' : upd_node x f s = Some s' -> keeps P s s' /\ same_auth s s'.
Proof. unfold upd_node. intros H. inv_bind. split; [kept|done]. Qed.

Lemma keeps_todo P f s : keeps P s (clusterDoBeforeSleep f s).
Proof. kept. Qed.

Definition both P (s s' : clusterState) : Prop := keeps P s s' /\ same_auth s s'.

Lemma both_refl P s : both P s s.
Proof. split; [apply keeps_refl|done]. Qed.
Lemma both_trans P s1 s2 s3 : both P s1 s2 -> both P s2 s3 -> both P s1 s3.
Proof. intros [A1 A2] [B1 B2]. split; [by eapply keeps_trans|]. unfold same_auth in *. congruence. Qed.

Lemma for_slots_both P l f s s' : (forall j s s', f j s = Some s' -> both P s s') -> for_slots l f s = Some s' -> both P s s'.
Proof.
  intros Hf. revert s. induction l as [|j l IH]; intros s H; cbn in H; [injection H as <-; apply both_refl|].
  inv_bind. eapply both_trans; eauto.
Qed.

(** Case analysis of a successful call. *)
Ltac cases H :=
  repeat (inv_bind;
    match type of H with
    | context [match ?b with _ => _ end] =>
        lazymatch b with
        | context [match _ with _ => _ end] => fail
        | _ => let E := fresh "E" in destruct b eqn:E
        end
    end); inv_bind; simplify_eq.

(** Facts of the calls in the context, from the lemmas on them. *)
Ltac facts lem := repeat match goal with H : _ = Some _ |- _ => apply lem in H end.

Lemma set_bit_both P x j s s' : clusterNodeSetSlotBit x j s = Some s' -> both P s s'.
Proof.
  unfold clusterNodeSetSlotBit. intros H. inv_bind. destruct (bool_decide _); [simplify_eq; apply both_refl|]. inv_bind.
  apply (upd_node_keeps P) in E0. destruct (_ && _); [apply (upd_node_keeps P) in H; by eapply both_trans|]. by injection H as <-.
Qed.

Lemma clear_bit_both P x j s s' b : clusterNodeClearSlotBit x j s = Some (s', b) -> both P s s'.
Proof. unfold clusterNodeClearSlotBit. intros H. inv_bind. by apply (upd_node_keeps P) in E0. Qed.

Lemma add_slot_both P x j s s' b : clusterAddSlot x j s = Some (s', b) -> both P s s'.
Proof.
  unfold clusterAddSlot. intros H. destruct (_ !! _); [simplify_eq; apply both_refl|]. inv_bind.
  apply (set_bit_both P) in E. eapply both_trans; [exact E|]. split; [kept|done].
Qed.

Lemma del_slot_both P j s s' b : clusterDelSlot j s = Some (s', b) -> both P s s'.
Proof.
  unfold clusterDelSlot. intros H. destruct (_ !! _); [|simplify_eq; apply both_refl]. apply bind_Some in H as ([s1 old] & E & H).
  apply (clear_bit_both P) in E. destruct old; [|done]. simplify_eq. eapply both_trans; [exact E|]. split; [kept|done].
Qed.

Lemma take_slot_both P x j s s' : take_slot x j s = Some s' -> both P s s'.
Proof.
  unfold take_slot. intros H. inv_bind. destruct (bool_decide _); [|simplify_eq; apply both_refl].
  apply bind_Some in H as ([s1 b1] & E1 & H). apply bind_Some in H as ([s2 b2] & E2 & H). simplify_eq.
  eapply both_trans; [by eapply del_slot_both|by eapply add_slot_both].
Qed.

Lemma remove_slave_both P m x s s' : clusterNodeRemoveSlave m x s = Some s' -> both P s s'.
Proof. apply upd_node_keeps. Qed.

Lemma set_master_both P x s s' : clusterSetNodeAsMaster x s = Some s' -> both P s s'.
Proof.
  unfold clusterSetNodeAsMaster. intros H. inv_bind. destruct (nodeIsMaster _); [simplify_eq; apply both_refl|]. inv_bind.
  apply (upd_node_keeps P) in E1. eapply both_trans; [|split; [apply keeps_todo|done]]. eapply both_trans; [|exact E1].
  destruct (slaveof r); [|simplify_eq; apply both_refl]. inv_bind. apply (remove_slave_both P) in E2.
  destruct (bool_decide _); [by injection E0 as <-|]. apply (upd_node_keeps P) in E0. by eapply both_trans.
Qed.

Lemma update_state_both P e s s' : clusterUpdateState e s = Some s' -> both P s s'.
Proof.
  unfold clusterUpdateState. intros H. inv_bind.
  assert (forall ok k f m, both P s (set_state ok k f m (set_todo (clear_bits (todo_before_sleep s) CLUSTER_TODO_UPDATE_STATE) s))) as Hb
    by (intros; split; [kept|done]).
  destruct (_ && _ && _); [injection H as <-; apply Hb|]. inv_bind. destruct (Bool.eqb _ _); [injection H as <-; apply Hb|].
  destruct (_ && _ && _); injection H as <-; apply Hb.
Qed.

Lemma save_config_both P s : lastVoteEpoch s <= currentEpoch s -> both P s (clusterSaveConfig s).
Proof.
  intros H. split; [|done]. split; cbn; [done|done|lia|exists []; by rewrite app_nil_r|right; split; [lia|done]|by right].
Qed.

Lemma header_ok e t s m : clusterBuildMessageHdr e t s = Some m -> m_type m = t /\ m_sender m = myself s /\ m_currentEpoch m = currentEpoch s.
Proof. unfold clusterBuildMessageHdr. intros H. inv_bind. done. Qed.

Lemma pong_both e b s s' : clusterBroadcastPong e b s = Some s' -> both plain s s'.
Proof.
  unfold clusterBroadcastPong. intros H. inv_bind. apply header_ok in E as (Ht & _). split; [|done].
  split; cbn; [done|done|lia| |by left|by left]. eexists. split; [done|]. rewrite Forall_map. apply Forall_true. intros [x n]. by right.
Qed.

Lemma replace_master_both e s s' : lastVoteEpoch s <= currentEpoch s -> clusterFailoverReplaceYourMaster e s = Some s' -> both plain s s'.
Proof.
  unfold clusterFailoverReplaceYourMaster. intros Hv H. inv_bind. destruct (slaveof r); [|simplify_eq; apply both_refl].
  destruct (nodeIsMaster r); [simplify_eq; apply both_refl|]. inv_bind. rename r0 into s1, r1 into s2, r2 into s3, r3 into s4.
  apply (set_master_both plain) in E0. apply (for_slots_both plain) in E1; [|intros ???; apply take_slot_both].
  apply (update_state_both plain) in E2. apply pong_both in E3.
  assert (both plain s s3) as H3 by (do 2 (eapply both_trans; [eassumption|]); done).
  eapply both_trans; [exact H3|]. eapply both_trans; [apply save_config_both|]. { destruct H3 as [[] _]. lia. }
  eapply both_trans; [exact E3|]. split; [kept|done].
Qed.

(** A request for votes, and the election but for its time and rank. *)
Definition request_of (x : name) (epoch : Z) (p : name * clusterMsg) : Prop :=
  m_type p.2 = FAILOVER_AUTH_REQUEST /\ m_sender p.2 = x /\ m_currentEpoch p.2 = epoch.

Definition same_votes (s s' : clusterState) : Prop :=
  failover_auth_epoch (auth s') = failover_auth_epoch (auth s) /\ failover_auth_count (auth s') = failover_auth_count (auth s) /\
  failover_auth_sent (auth s') = failover_auth_sent (auth s).

(** The effect of a call of clusterHandleSlaveFailover. *)
Definition summary (s s' : clusterState) (o : outcome) : Prop :=
  match o with
  | Scheduled => keeps plain s s' /\ failover_auth_epoch (auth s') = failover_auth_epoch (auth s) /\
      failover_auth_count (auth s') = 0 /\ failover_auth_sent (auth s') = 0
  | Asked =>
      keeps (fun p => plain p \/ request_of (myself s) (currentEpoch s + 1) p) s s' /\ currentEpoch s + 1 <= currentEpoch s' /\
      failover_auth_epoch (auth s') = currentEpoch s + 1 /\ failover_auth_count (auth s') = failover_auth_count (auth s) /\
      failover_auth_sent (auth s) = 0 /\ failover_auth_sent (auth s') = 1
  | Won => keeps plain s s' /\ same_votes s s' /\ csize s / 2 + 1 <= failover_auth_count (auth s) /\ failover_auth_sent (auth s) <> 0
  | _ => keeps plain s s' /\ same_votes s s'
  end.

Lemma same_votes_refl s : same_votes s s.
Proof. done. Qed.

Lemma both_votes P s s' : both P s s' -> keeps P s s' /\ same_votes s s'.
Proof. intros [H1 H2]. split; [done|]. unfold same_votes. by rewrite H2. Qed.

(** A summary after a change that keeps the election and before another one. *)
Lemma summary_both s0 s s' s'' o : both plain s0 s -> currentEpoch s = currentEpoch s0 -> csize s = csize s0 ->
  summary s s' o -> both plain s' s'' -> summary s0 s'' o.
Proof.
  intros H0 Hc Hz Hs H1. destruct H0 as [K0 A0], H1 as [K1 A1]. unfold same_auth in *. pose proof (k_my _ _ _ K0) as Hm.
  pose proof (k_epoch _ _ _ K1).
  destruct o; cbn [summary] in *; rewrite ?Hc, ?Hz, ?Hm, ?A0 in Hs; unfold same_votes in *; rewrite ?A0, ?A1 in *; destruct Hs as [K Hs];
    (split; [|first [done | (destruct Hs as (H2 & H3); split; [lia|exact H3])]]).
  6: eapply keeps_trans; [eapply keeps_weaken; [|exact K0]; auto|]; eapply keeps_trans; [exact K|]; eapply keeps_weaken; [|exact K1]; auto.
  all: eapply keeps_trans; [exact K0|]; eapply keeps_trans; [exact K|exact K1].
Qed.

Lemma handle_failover_ok e s s' o : 0 <= currentEpoch s < 2 ^ 64 - 1 -> lastVoteEpoch s <= currentEpoch s ->
  clusterHandleSlaveFailover e s = Some (s', o) -> summary s s' o.
Proof.
  intros Hb Hv H. unfold clusterHandleSlaveFailover in H. set (s1 := set_todo _ s) in H. inv_bind. rename r into me.
  assert (K1 : both plain s s1) by (split; [unfold s1; kept|done]).
  pose proof (both_votes _ _ _ K1) as V1.
  destruct (nodeIsMaster me); [by injection H as <- <-|]. destruct (slaveof me) as [m|]; [|by injection H as <- <-].
  apply bind_Some in H as (master & Em & H).
  destruct (_ || _ || _); [by injection H as <- <-|].
  destruct (_ && _ && _); [by injection H as <- <-|].
  destruct (_ <? now e - _).
  - apply bind_Some in H as (rank & Er & H). apply bind_Some in H as (s2 & Ep & H). injection H as <- <-. apply pong_both in Ep as [Kp Ap].
    unfold summary. unfold same_auth in Ap. rewrite Ap. destruct (mf_end _ =? 0).
    + split; [|done]. eapply keeps_trans; [|exact Kp]. unfold s1. kept.
    + split; [|done]. eapply keeps_trans; [|exact Kp]. eapply keeps_trans; [exact (proj1 K1)|]. eapply keeps_trans; [|apply keeps_todo]. kept.
  - apply bind_Some in H as (s2 & E2 & H).
    assert (keeps plain s s2 /\ same_votes s s2 /\ currentEpoch s2 = currentEpoch s /\ csize s2 = csize s) as (K2 & V2 & C2 & Z2).
    { destruct (_ && _); [|by injection E2 as <-; destruct V1]. apply bind_Some in E2 as (rank & Er & E2). destruct (_ <? rank); injection E2 as <-.
      - split_and!; try done. unfold s1. kept.
      - by destruct V1. }
    destruct (now e <? _); [by injection H as <- <-|]. destruct (_ <? now e - _); [by injection H as <- <-|].
    destruct (failover_auth_sent (auth s2) =? 0) eqn:Es; bool_hyps.
    + apply bind_Some in H as (s3 & E3 & H). injection H as <- <-. unfold clusterRequestFailoverAuth in E3. cbn [auth set_auth set_epoch currentEpoch mf] in E3.
      rewrite C2, wrap_small in E3 by lia.
      apply bind_Some in E3 as (hdr & Eh & E3). apply header_ok in Eh as (Ht & Hs & He). cbn in Hs, He. injection E3 as <-.
      destruct V2 as (V2a & V2b & V2c). destruct K2 as [A1 A2 A3 (l & A4 & A4') A5 A6]. cbn [summary]. split.
      * split; cbn; [done|done|lia| |destruct A5 as [?|[? ?]]; [by left|right; split; [lia|done]]|intros; destruct A6; [done|left; by apply has_lor|by right]].
        rewrite A4, <- app_assoc. eexists. split; [done|]. apply Forall_app. split; [eapply Forall_impl; [exact A4'|auto]|].
        rewrite Forall_map. apply Forall_true. intros [x n]. right. clear E2. destruct (mf_end (mf s2) =? 0); unfold request_of; cbn; split_and!; congruence.
      * cbn. split_and!; try done; try lia; congruence.
    + destruct (_ <=? failover_auth_count _) eqn:Eq; bool_hyps; [|by injection H as <- <-].
      apply bind_Some in H as (s3 & E3 & H). apply bind_Some in H as (s4 & E4 & H). injection H as <- <-.
      assert (both plain s2 s3) as B3 by (destruct (_ <? _); [by apply (upd_node_keeps plain) in E3|by injection E3 as <-; apply both_refl]).
      assert (both plain s3 s4) as B4.
      { eapply replace_master_both; [|exact E4]. destruct B3 as [[] _], K2. lia. }
      destruct V2 as (V2a & V2b & V2c). cbn [summary]. pose proof (both_trans _ _ _ _ B3 B4) as [B A]. split; [by eapply keeps_trans|].
      unfold same_votes. unfold same_auth in A. rewrite A. split_and!; try done; [|congruence]. lia.
Qed.

Lemma manual_both e s : both plain s (clusterHandleManualFailover e s) /\
  currentEpoch (clusterHandleManualFailover e s) = currentEpoch s /\ csize (clusterHandleManualFailover e s) = csize s.
Proof. unfold clusterHandleManualFailover. repeat case_match; (split_and!; [|done|done]; split; [kept|done]). Qed.

Lemma slave_failover_ok e s s' o : 0 <= currentEpoch s < 2 ^ 64 - 1 -> lastVoteEpoch s <= currentEpoch s ->
  slave_failover e s = Some (s', o) -> summary s s' o.
Proof.
  intros Hb Hv H. unfold slave_failover in H. destruct (manual_both e s) as (B & C & Z0). destruct (module_no_failover e).
  - injection H as <- <-. by apply both_votes in B.
  - eapply summary_both; [exact B|done|done| |apply both_refl]. eapply handle_failover_ok; [lia| |exact H]. destruct B as [[] _]. lia.
Qed.

Lemma cron_ok e update s s' o : 0 <= currentEpoch s < 2 ^ 64 - 1 -> lastVoteEpoch s <= currentEpoch s ->
  clusterCron e update s = Some (s', o) -> summary s s' o.
Proof.
  intros Hb Hv H. unfold clusterCron in H. set (s1 := manualFailoverCheckTimeout e s) in H.
  assert (both plain s s1 /\ currentEpoch s1 = currentEpoch s /\ csize s1 = csize s) as (B & C & Z1).
  { unfold s1, manualFailoverCheckTimeout. destruct (_ && _); (split_and!; [|done|done]; split; [kept|done]). }
  apply bind_Some in H as (me & Em & H). apply bind_Some in H as ([s2 o2] & E2 & H). apply bind_Some in H as (s3 & E3 & H). injection H as <- <-.
  eapply summary_both; [exact B|done|done| |].
  - destruct (nodeIsSlave me); [|injection E2 as <- <-; by apply both_votes, both_refl].
    eapply slave_failover_ok; [lia| |exact E2]. destruct B as [[] _]. lia.
  - destruct (_ || _); [by eapply update_state_both|injection E3 as <-; apply both_refl].
Qed.

(** The configuration is saved at the end of the iteration when it has to be. *)
Lemma keeps_sleep P s s2 : lastVoteEpoch s <= currentEpoch s -> keeps P (set_todo 0 s) s2 ->
  keeps P s (if has (todo_before_sleep s) CLUSTER_TODO_SAVE_CONFIG then clusterSaveConfig s2 else s2).
Proof.
  intros Hv [A1 A2 A3 A4 A5 _]. cbn in *. destruct (has _ _) eqn:E.
  - split; cbn; try done; by right.
  - split; cbn; try done. intros H. congruence.
Qed.

Lemma summary_sleep s s2 o : lastVoteEpoch s <= currentEpoch s -> summary (set_todo 0 s) s2 o ->
  summary s (if has (todo_before_sleep s) CLUSTER_TODO_SAVE_CONFIG then clusterSaveConfig s2 else s2) o.
Proof.
  intros Hv H.
  assert (auth (if has (todo_before_sleep s) CLUSTER_TODO_SAVE_CONFIG then clusterSaveConfig s2 else s2) = auth s2 /\
    currentEpoch (if has (todo_before_sleep s) CLUSTER_TODO_SAVE_CONFIG then clusterSaveConfig s2 else s2) = currentEpoch s2) as [Ha Hc]
    by (by destruct (has _ _)).
  destruct o; cbn [summary] in *; unfold same_votes in *; rewrite ?Ha, ?Hc; destruct H as [K H]; (split; [by apply keeps_sleep|exact H]).
Qed.

Lemma sleep_ok e s s' o : 0 <= currentEpoch s < 2 ^ 64 - 1 -> lastVoteEpoch s <= currentEpoch s ->
  clusterBeforeSleep e s = Some (s', o) -> summary s s' o.
Proof.
  intros Hb Hv H. unfold clusterBeforeSleep in H. set (s1 := set_todo 0 s) in H.
  apply bind_Some in H as (me & Em & H). apply bind_Some in H as ([s2 o2] & E2 & H). apply bind_Some in H as (s3 & E3 & H). injection H as <- <-.
  apply summary_sleep; [done|]. eapply summary_both; [apply both_refl|done|done| |].
  - destruct (has _ _); [destruct (nodeIsSlave me); [by eapply slave_failover_ok; [| |exact E2]|injection E2 as <- <-; by apply both_votes, both_refl]|].
    destruct (has _ _); [by eapply handle_failover_ok; [| |exact E2]|injection E2 as <- <-; by apply both_votes, both_refl].
  - destruct (has _ CLUSTER_TODO_UPDATE_STATE); [by eapply update_state_both|injection E3 as <-; apply both_refl].
Qed.

(** A vote. *)
Record voted (x : name) (epoch : Z) (s s' : clusterState) : Prop := {
  v_my : myself s' = myself s;
  v_fresh : lastVoteEpoch s < currentEpoch s';
  v_epoch : currentEpoch s <= currentEpoch s' <= epoch;
  v_vote : lastVoteEpoch s' = currentEpoch s';
  v_buf : exists l, sndbuf s' = sndbuf s ++ l /\
    (l = [] \/ exists m, l = [(x, m)] /\ m_type m = FAILOVER_AUTH_ACK /\ m_sender m = myself s /\ m_currentEpoch m = currentEpoch s');
  v_disk : disk s' = disk s;
  v_save : has (todo_before_sleep s') CLUSTER_TODO_SAVE_CONFIG = true;
  v_auth : auth s' = auth s }.

Lemma auth_if_needed_ok e x m s s' : lastVoteEpoch s <= currentEpoch s -> clusterSendFailoverAuthIfNeeded e x m s = Some s' ->
  s' = s \/ voted x (m_currentEpoch m) s s'.
Proof.
  intros Hv H. unfold clusterSendFailoverAuthIfNeeded in H.
  apply bind_Some in H as (n & En & H). apply bind_Some in H as (me & Em & H).
  destruct (_ || _); [injection H as <-; by left|]. destruct (_ <? currentEpoch s) eqn:E1; [injection H as <-; by left|].
  destruct (_ =? currentEpoch s) eqn:E2; [injection H as <-; by left|]. bool_hyps.
  destruct (nodeIsMaster n); [injection H as <-; by left|]. destruct (slaveof n) as [ma|]; [|injection H as <-; by left].
  apply bind_Some in H as (master & Ema & H). destruct (_ && _); [injection H as <-; by left|].
  destruct (_ <? cluster_node_timeout e * 2); [injection H as <-; by left|]. apply bind_Some in H as (ok & Eok & H).
  destruct (negb ok); [injection H as <-; by left|]. apply bind_Some in H as (s1 & Es1 & H). right.
  unfold upd_node in Es1. apply bind_Some in Es1 as (mn & Emn & Es1). injection Es1 as <-.
  unfold clusterSendFailoverAuth in H. apply bind_Some in H as (n' & En' & H).
  destruct (link n') eqn:El; cbn [negb] in H.
  - apply bind_Some in H as (hdr & Eh & H). injection H as <-. apply header_ok in Eh as (Ht & Hs & He). cbn in Hs, He.
    split; cbn; try done; [lia| |by rewrite Z.lor_comm; apply has_lor].
    eexists. split; [done|]. right. by exists hdr.
  - injection H as <-. split; cbn; try done; [lia| |by rewrite Z.lor_comm; apply has_lor]. exists []. rewrite app_nil_r. auto.
Qed.

(** The disk and the send buffers are the same. *)
Definition calm (s s' : clusterState) : Prop := disk s' = disk s /\ sndbuf s' = sndbuf s.

(** Processing a message: a vote, or a vote that is counted, or neither. *)
Lemma packet_ok e m s s' : lastVoteEpoch s <= currentEpoch s -> clusterProcessPacket e m s = Some s' ->
  m_type m = FAILOVER_AUTH_REQUEST /\ voted (m_sender m) (m_currentEpoch m) s s' \/
  keeps plain s s' /\ failover_auth_epoch (auth s') = failover_auth_epoch (auth s) /\ failover_auth_sent (auth s') = failover_auth_sent (auth s) /\
  (failover_auth_count (auth s') = failover_auth_count (auth s) \/
   m_type m = FAILOVER_AUTH_ACK /\ failover_auth_count (auth s') = failover_auth_count (auth s) + 1 /\
   failover_auth_epoch (auth s) <= Z.max 0 (m_currentEpoch m)).
Proof.
  intros Hv H. unfold clusterProcessPacket in H. destruct (node_of _ s) as [sender|] eqn:Es; [|injection H as <-; right; split; [apply keeps_refl|auto]].
  apply bind_Some in H as (me & Em & H). apply bind_Some in H as (s1 & E1 & H).
  assert (both plain s s1 /\ calm s s1) as [[K1 A1] D1].
  { unfold update_from_sender in E1. destruct (nodeInHandshake sender); [injection E1 as <-; split; [apply both_refl|done]|]. set (s0 := if currentEpoch s <? _ then _ else _) in E1.
    assert (both plain s s0 /\ calm s s0) as [B0 D0].
    { unfold s0. destruct (currentEpoch s <? _) eqn:Ec; bool_hyps; [|split; [apply both_refl|done]]. split; [|done]. split; [|done].
      split; cbn; auto; [lia|]. exists []. by rewrite app_nil_r. }
    apply bind_Some in E1 as (s2 & E2 & E1). apply bind_Some in E1 as (s3 & E3 & E1).
    assert (both plain s0 s2 /\ calm s0 s2) as [B2 D2].
    { destruct (_ <? m_configEpoch m); [|injection E2 as <-; split; [apply both_refl|done]]. apply bind_Some in E2 as (s4 & E4 & E2). injection E2 as <-.
      unfold upd_node in E4. apply bind_Some in E4 as (? & ? & E4). injection E4 as <-. split; [|done]. split; [kept|done]. }
    unfold upd_node in E3. apply bind_Some in E3 as (? & ? & E3). injection E3 as <-.
    assert (forall s4, both plain s2 s4 -> calm s2 s4 -> both plain s s4 /\ calm s s4) as Hfin.
    { intros s4 B4 D4. split; [|unfold calm in *; intuition congruence]. by do 2 (eapply both_trans; [eassumption|]). }
    destruct (_ && _ && _ && _ && _); injection E1 as <-; (apply Hfin; [split; [kept|done]|done]). }
  pose proof (k_epoch _ _ _ K1). pose proof (k_vote _ _ _ K1). unfold same_auth in A1.
  destruct (m_type m) eqn:Et.
  - injection H as <-. right. rewrite A1. auto.
  - injection H as <-. right. rewrite A1. auto.
  - apply auth_if_needed_ok in H as [->|[B1 B2 B3 B4 (l & B5 & B6) B7 B8 B9]]; [right; rewrite A1; auto| |lia]. left. split; [done|].
    destruct D1 as [D1 D2]. destruct K1 as [C1 _ _ _ _ _]. split; try congruence; [lia|]. exists l. rewrite B5, D2. split; [done|].
    destruct B6 as [?|(hdr & -> & ? & ? & ?)]; [by left|right]. exists hdr. split_and!; congruence.
  - destruct (_ && _ && _) eqn:Ec; [|injection H as <-; right; rewrite A1; auto]. bool_hyps. right. injection H as <-.
    split; [eapply keeps_trans; [exact K1|]; eapply keeps_trans; [|apply keeps_todo]; kept|]. cbn. rewrite A1 in *. split_and!; [done|done|].
    right. split_and!; [done|done|]. destruct (nodeInHandshake sender); lia.
Qed.

Lemma bump_both s s' b : 0 <= currentEpoch s < 2 ^ 64 - 1 -> clusterBumpConfigEpochWithoutConsensus s = Some (s', b) -> both plain s s'.
Proof.
  intros Hb H. unfold clusterBumpConfigEpochWithoutConsensus in H. apply bind_Some in H as (me & Em & H).
  destruct (_ || _); [|injection H as <- <-; apply both_refl]. apply bind_Some in H as (s1 & E1 & H). injection H as <- <-.
  apply (upd_node_keeps plain) in E1. eapply both_trans; [|split; [apply keeps_todo|done]]. eapply both_trans; [|exact E1].
  split; [|done]. split; cbn; auto; [rewrite wrap_small by lia; lia|]. exists []. by rewrite app_nil_r.
Qed.

Lemma collision_both x s s' : 0 <= currentEpoch s < 2 ^ 64 - 1 -> lastVoteEpoch s <= currentEpoch s ->
  clusterHandleConfigEpochCollision x s = Some s' -> both plain s s'.
Proof.
  intros Hb Hv H. unfold clusterHandleConfigEpochCollision in H. apply bind_Some in H as (sender & Es & H). apply bind_Some in H as (me & Em & H).
  destruct (_ || _ || _); [injection H as <-; apply both_refl|]. destruct (_ <=? _); [injection H as <-; apply both_refl|].
  apply bind_Some in H as (s1 & E1 & H). injection H as <-. apply (upd_node_keeps plain) in E1.
  assert (both plain s s1) as B.
  { eapply both_trans; [|exact E1]. split; [|done]. split; cbn; auto; [rewrite wrap_small by lia; lia|]. exists []. by rewrite app_nil_r. }
  eapply both_trans; [exact B|]. apply save_config_both. destruct B as [[] _]. lia.
Qed.

(** ** The votes of a server *)

Lemma acks_app l k : acks (l ++ k) = acks l ++ acks k.
Proof. apply omap_app. Qed.

Lemma acks_none (P : name * clusterMsg -> Prop) l : (forall p, P p -> m_type p.2 <> FAILOVER_AUTH_ACK) -> Forall P l -> acks l = [].
Proof.
  intros HP. induction 1 as [|p l Hp Hl IH]; [done|]. unfold acks in *. cbn. unfold ack at 1. rewrite decide_False by auto. exact IH.
Qed.

Lemma acks_plain l : Forall plain l -> acks l = [].
Proof. apply acks_none. intros p [->| ->]; done. Qed.

Definition epochs (x : name) (l : list vote) : list Z := map (fun v => v.1.2) (filter (fun v => v.1.1 = x) l).

Lemma epochs_app x l k : epochs x (l ++ k) = epochs x l ++ epochs x k.
Proof. unfold epochs. by rewrite filter_app, map_app. Qed.

Lemma elem_of_epochs x l e : e ∈ epochs x l <-> exists c, (x, e, c) ∈ l.
Proof.
  unfold epochs. rewrite list_elem_of_fmap. split.
  - intros ([[y e'] c] & -> & [Hy H]%list_elem_of_filter). cbn in *. subst. eauto.
  - intros (c & H). exists (x, e, c). split; [done|]. by apply list_elem_of_filter.
Qed.

Lemma submseteq_split {A} (l k : list A) : l ⊆+ k -> exists r, k ≡ₚ l ++ r.
Proof.
  induction 1 as [|a l k _ (r & IH)|a b l|a l k _ (r & IH)|l k m _ (r & IH) _ (r' & IH')].
  - by exists [].
  - exists r. by rewrite IH.
  - exists []. rewrite app_nil_r. apply perm_swap.
  - exists (a :: r). by rewrite IH, Permutation_middle.
  - exists (r ++ r'). by rewrite IH', IH, app_assoc.
Qed.

Lemma nodup_submseteq {A} (l k : list A) : l ⊆+ k -> NoDup k -> NoDup l.
Proof. intros (r & ->)%submseteq_split H. by apply NoDup_app in H as (? & _). Qed.

Lemma epochs_submseteq x l k : l ⊆+ k -> epochs x l ⊆+ epochs x k.
Proof.
  intros (r & H)%submseteq_split. unfold epochs. rewrite H, filter_app, map_app. apply submseteq_inserts_r. done.
Qed.

Lemma epochs_others y l : (forall v, v ∈ l -> v.1.1 <> y) -> epochs y l = [].
Proof.
  intros H. unfold epochs. induction l as [|v l IH]; [done|]. cbn. rewrite decide_False by (apply H; constructor).
  apply IH. intros w Hw. apply H. by constructor.
Qed.

Definition save_due (s : clusterState) : Prop := has (todo_before_sleep s) CLUSTER_TODO_SAVE_CONFIG = true.

Record server_ok (x : name) (s : clusterState) : Prop := {
  so_my : myself s = x;
  so_vote : 0 <= lastVoteEpoch s <= currentEpoch s;
  so_disk : 0 <= (disk s).2 <= (disk s).1 /\ (disk s).2 <= lastVoteEpoch s;
  so_buf : forall v, v ∈ acks (sndbuf s) -> v.1.1 = x /\ v.1.2 <= lastVoteEpoch s /\ (v.1.2 <= (disk s).2 \/ save_due s) }.

(** The votes sent are saved or were written early, and no two votes of a
    server are for one epoch. *)
Record votes_ok (g : network) : Prop := {
  vo_server : forall x s, servers g !! x = Some s -> server_ok x s;
  vo_granted : forall v, v ∈ granted g -> exists s, servers g !! v.1.1 = Some s /\ v.1.2 <= lastVoteEpoch s /\
    (v.1.2 <= (disk s).2 \/ v ∈ early g);
  vo_nodup : forall x s, servers g !! x = Some s -> NoDup (epochs x (granted g ++ acks (sndbuf s))) }.

Lemma votes_update g g' x s s' sent new : votes_ok g -> servers g !! x = Some s ->
  servers g' = <[x := s']> (servers g) -> granted g' = granted g ++ acks sent ->
  server_ok x s' -> (disk s).2 <= (disk s').2 -> acks sent ++ acks (sndbuf s') ⊆+ acks (sndbuf s) ++ new ->
  (new = [] \/ exists e c, new = [(x, e, c)] /\ lastVoteEpoch s < e) ->
  (forall v, v ∈ acks sent -> v.1.2 <= lastVoteEpoch s' /\ (v.1.2 <= (disk s').2 \/ v ∈ early g')) ->
  (forall v, v ∈ granted g -> v.1.1 = x -> v.1.2 <= lastVoteEpoch s') -> (forall v, v ∈ early g -> v ∈ early g') ->
  votes_ok g'.
Proof.
  intros [V1 V2 V3] Hs Hg Hgr Hok Hd Hsub Hnew Hsent Hold Hearly. pose proof (V1 _ _ Hs) as Hsx.
  assert (Hx : forall v, v ∈ acks sent -> v.1.1 = x).
  { intros v Hv. assert (v ∈ acks (sndbuf s) ++ new) as Hv' by (eapply elem_of_submseteq; [|exact Hsub]; apply elem_of_app; by left).
    apply elem_of_app in Hv' as [Hv'|Hv']; [by apply (so_buf _ _ Hsx)|]. destruct Hnew as [->|(e & c & -> & _)]; [by apply not_elem_of_nil in Hv'|].
    by apply list_elem_of_singleton in Hv' as ->. }
  split.
  - intros y s0. rewrite Hg, lookup_insert_Some. intros [[<- <-]|[_ H]]; auto.
  - intros v. rewrite Hgr, elem_of_app, Hg. intros [Hv|Hv].
    + destruct (V2 v Hv) as (s0 & H0 & Hle & Hsv). destruct (decide (v.1.1 = x)) as [Heq|Hne].
      * pose proof (Hold v Hv Heq). rewrite Heq in *. rewrite Hs in H0. injection H0 as <-. exists s'. rewrite lookup_insert_eq.
        split_and!; [done|done|]. destruct Hsv; [left; lia|right; auto].
      * exists s0. rewrite lookup_insert_ne by done. split_and!; [done|done|]. destruct Hsv; auto.
    + exists s'. rewrite (Hx v Hv), lookup_insert_eq. auto.
  - intros y s0. rewrite Hg, lookup_insert_Some, Hgr. intros [[<- <-]|[Hne H]].
    + rewrite <- app_assoc. specialize (V3 x s Hs).
      assert (NoDup (epochs x (granted g ++ acks (sndbuf s) ++ new))) as Hnd.
      { rewrite app_assoc, epochs_app. apply NoDup_app. split_and!; [done| |].
        - intros e (c & He)%elem_of_epochs Hn. destruct Hnew as [->|(e' & c' & -> & Hlt)]; [by apply elem_of_nil in Hn|].
          apply elem_of_epochs in Hn as (c2 & Hn). apply list_elem_of_singleton in Hn as [= -> ->].
          apply elem_of_app in He as [He|He].
          + destruct (V2 _ He) as (s0 & H0 & Hle & _). cbn in *. rewrite Hs in H0. injection H0 as <-. lia.
          + destruct (so_buf _ _ Hsx _ He) as (_ & Hle & _). cbn in Hle. lia.
        - destruct Hnew as [->|(e' & c' & -> & _)]; [constructor|]. unfold epochs. cbn. case_decide; [apply NoDup_singleton|constructor]. }
      revert Hnd. rewrite (epochs_app x (granted g)), (epochs_app x (granted g)). apply nodup_submseteq.
      apply submseteq_app; [done|]. by apply epochs_submseteq.
    + rewrite <- app_assoc, !epochs_app. specialize (V3 y s0 H). rewrite epochs_app in V3.
      rewrite (epochs_others y (acks sent)); [done|]. intros v Hv Hy. apply Hne. by rewrite <- Hy, (Hx v Hv).
Qed.

(** No message in [P] is a vote. *)
Definition voteless (P : name * clusterMsg -> Prop) : Prop := forall p, P p -> m_type p.2 <> FAILOVER_AUTH_ACK.

Lemma plain_voteless : voteless plain.
Proof. intros p [->| ->]; done. Qed.
Lemma request_voteless x e : voteless (fun p => plain p \/ request_of x e p).
Proof. intros p [[->| ->]|[-> _]]; done. Qed.

Lemma acks_perm l k : l ≡ₚ k -> acks l ≡ₚ acks k.
Proof. intros H. unfold acks. by rewrite H. Qed.

Lemma keeps_acks P s s' sent kept : voteless P -> keeps P s s' -> sndbuf s' ≡ₚ sent ++ kept -> acks sent ++ acks kept ≡ₚ acks (sndbuf s).
Proof.
  intros HP [_ _ _ (l & H & Hl) _ _] Hb. rewrite <- acks_app, <- (acks_perm _ _ Hb), H, acks_app.
  by rewrite (acks_none P l HP Hl), app_nil_r.
Qed.

Lemma keeps_disk P x s s' : server_ok x s -> keeps P s s' -> (disk s).2 <= (disk s').2.
Proof. intros [_ _ H _] [_ _ _ _ [->|[_ ->]] _]; lia. Qed.

Lemma keeps_server P x s s' sent kept : voteless P -> server_ok x s -> keeps P s s' -> sndbuf s' ≡ₚ sent ++ kept ->
  server_ok x (set_sndbuf kept s').
Proof.
  intros HP Hs K Hb. pose proof (keeps_acks P s s' sent kept HP K Hb) as Ha. pose proof (keeps_disk P x s s' Hs K) as Hd.
  destruct Hs as [S1 S2 S3 S4], K as [K1 K2 K3 _ K5 K6]. split; cbn.
  - congruence.
  - lia.
  - destruct K5 as [->|[? ->]]; lia.
  - intros v Hv. destruct (S4 v) as (H1 & H2 & H3); [rewrite <- Ha; apply elem_of_app; by right|]. split_and!; [done|lia|].
    destruct H3 as [H3|H3]; [left; lia|]. destruct (K6 H3) as [?|?]; [by right|left; lia].
Qed.

Lemma granted_le g x s v : votes_ok g -> servers g !! x = Some s -> v ∈ granted g -> v.1.1 = x -> v.1.2 <= lastVoteEpoch s.
Proof. intros V Hs Hv Hx. destruct (vo_granted _ V v Hv) as (s0 & H0 & Hle & _). rewrite Hx, Hs in H0. by injection H0 as <-. Qed.

(** A call that gives no vote, after which [sent] is written to the links. *)
Lemma keeps_votes P g g' x s s' sent kept : voteless P -> votes_ok g -> servers g !! x = Some s -> keeps P s s' ->
  sndbuf s' ≡ₚ sent ++ kept -> ((forall v, v ∈ acks sent -> v ∈ early g') \/ (save_due s -> (disk s').2 = lastVoteEpoch s')) ->
  servers g' = <[x := set_sndbuf kept s']> (servers g) -> granted g' = granted g ++ acks sent ->
  (forall v, v ∈ early g -> v ∈ early g') -> votes_ok g'.
Proof.
  intros HP V Hs K Hb Hsv Hg Hgr Hearly. pose proof (vo_server _ V _ _ Hs) as So. pose proof (keeps_acks P s s' sent kept HP K Hb) as Ha.
  pose proof (keeps_disk P x s s' So K) as Hd.
  eapply (votes_update g g' x s (set_sndbuf kept s') sent []); eauto using keeps_server.
  - cbn. by rewrite app_nil_r, Ha.
  - intros v Hv. cbn. destruct (so_buf _ _ So v) as (_ & H2 & H3); [rewrite <- Ha; apply elem_of_app; by left|].
    rewrite (k_vote _ _ _ K). split; [done|]. destruct Hsv as [Hsv|Hsv]; [right; auto|left].
    destruct H3 as [H3|H3]; [lia|]. rewrite (Hsv H3), (k_vote _ _ _ K). done.
  - intros v Hv Hx. cbn. rewrite (k_vote _ _ _ K). by apply (granted_le g x s).
Qed.

Lemma set_sndbuf_same s : set_sndbuf (sndbuf s) s = s.
Proof. by destruct s. Qed.

(** The same without any writing. *)
Lemma keeps_votes_nil P g g' x s s' : voteless P -> votes_ok g -> servers g !! x = Some s -> keeps P s s' ->
  servers g' = <[x := s']> (servers g) -> granted g' = granted g -> early g' = early g -> votes_ok g'.
Proof.
  intros HP V Hs K Hg Hgr He. eapply (keeps_votes P g g' x s s' [] (sndbuf s')); eauto.
  - left. intros v Hv. by apply elem_of_nil in Hv.
  - by rewrite set_sndbuf_same.
  - by rewrite Hgr, app_nil_r.
  - by rewrite He.
Qed.

Lemma summary_keeps s s' o : summary s s' o -> exists P, voteless P /\ keeps P s s'.
Proof.
  destruct o; cbn; intros [K _]; (eexists; split; [|exact K]); first [exact plain_voteless | apply request_voteless].
Qed.

Lemma sleep_saves e s s' o : clusterBeforeSleep e s = Some (s', o) -> save_due s -> (disk s').2 = lastVoteEpoch s'.
Proof.
  intros H Hs. unfold clusterBeforeSleep in H. apply bind_Some in H as (me & _ & H). apply bind_Some in H as ([s2 o2] & _ & H).
  apply bind_Some in H as (s3 & _ & H). injection H as <- _. unfold save_due in Hs. by rewrite Hs.
Qed.

Lemma record_granted x s o g : granted (record_outcome x s o g) = granted g.
Proof. by destruct o. Qed.
Lemma record_early x s o g : early (record_outcome x s o g) = early g.
Proof. by destruct o. Qed.
Lemma record_servers x s o g : servers (record_outcome x s o g) = servers g.
Proof. by destruct o. Qed.
Lemma record_wire x s o g : wire (record_outcome x s o g) = wire g.
Proof. by destruct o. Qed.

(** Two networks with the same servers and votes. *)
Lemma votes_same g g' : servers g' = servers g -> granted g' = granted g -> early g' = early g -> votes_ok g -> votes_ok g'.
Proof. intros H1 H2 H3 [A B C]. split; rewrite ?H1, ?H2, ?H3; auto. Qed.

Lemma voted_votes g g' x c ep s s' : votes_ok g -> servers g !! x = Some s -> voted c ep s s' ->
  servers g' = <[x := s']> (servers g) -> granted g' = granted g -> early g' = early g -> votes_ok g'.
Proof.
  intros V Hs [A1 A2 A3 A4 (l & A5 & A6) A7 A8 A9] Hg Hgr He. pose proof (vo_server _ V _ _ Hs) as [S1 S2 S3 S4].
  eapply (votes_update g g' x s s' [] (acks l)); eauto.
  - by rewrite Hgr, app_nil_r.
  - split; [congruence|lia|rewrite A7; lia|]. intros v. rewrite A5, acks_app, elem_of_app. intros [Hv|Hv].
    + destruct (S4 v Hv) as (? & ? & _). split_and!; [done|lia|by right].
    + destruct A6 as [->|(m & -> & H1 & H2 & H3)]; [by apply elem_of_nil in Hv|]. unfold acks, ack in Hv. cbn in Hv. rewrite decide_True in Hv by done.
      apply list_elem_of_singleton in Hv as ->. cbn. split_and!; [congruence|lia|by right].
  - by rewrite A7.
  - by rewrite A5, acks_app.
  - destruct A6 as [->|(m & -> & H1 & H2 & H3)]; [by left|right]. unfold acks, ack. cbn. rewrite decide_True by done.
    eexists _, _. split; [by rewrite H2, S1|lia].
  - intros v Hv. by apply elem_of_nil in Hv.
  - intros v Hv Hx. pose proof (granted_le g x s v V Hs Hv Hx). lia.
  - by rewrite He.
Qed.

Lemma restart_votes g g' x m o sent s : votes_ok g -> servers g !! x = Some s ->
  (forall v, v ∈ early g -> v.1.1 = x -> v.1.2 <= (disk s).2) ->
  servers g' = <[x := clusterInit x m o sent (disk s)]> (servers g) -> granted g' = granted g -> early g' = early g -> votes_ok g'.
Proof.
  intros V Hs Hsaved Hg Hgr He. pose proof (vo_server _ V _ _ Hs) as [S1 S2 S3 S4].
  eapply (votes_update g g' x s _ [] []); eauto.
  - by rewrite Hgr, app_nil_r.
  - split; cbn; [done| |lia|intros v Hv; by apply elem_of_nil in Hv]. unfold clusterGetMaxEpoch. cbn. lia.
  - done.
  - cbn. apply submseteq_nil_l.
  - intros v Hv. by apply elem_of_nil in Hv.
  - intros v Hv Hx. cbn. destruct (vo_granted _ V v Hv) as (s0 & H0 & _ & [Hle|Hin]); [|by apply Hsaved].
    rewrite Hx, Hs in H0. by injection H0 as <-.
  - by rewrite He.
Qed.

Lemma reconfigured_keeps s s' : reconfigured s s' -> both plain s s'.
Proof. intros (H1 & H2 & H3 & H4 & H5 & H6 & H7). split; [|done]. split; auto. lia. Qed.

Lemma bounded_at g x s : bounded g -> votes_ok g -> servers g !! x = Some s ->
  0 <= currentEpoch s < 2 ^ 64 - 1 /\ lastVoteEpoch s <= currentEpoch s.
Proof. intros B V H. pose proof (B _ _ H) as Hb. cbn in Hb. destruct (vo_server _ V _ _ H) as [_ ? _ _]. lia. Qed.

Lemma step_votes strict g g' : bounded g -> votes_ok g -> step strict true g g' -> votes_ok g'.
Proof.
  intros B V H. destruct H as [e x msg pre post g s s' Hw Hs Hp _|p pre post g Hw|e u x g s s' o Hs Hc|e x g s s' o sent kept Hs Hc Hb|
    x g s sent kept Hs Hb|x g s s' b Hs Hc|x y g s s' Hs Hc|x g s s' Hs Hr|x m o sent g s Hs _ Hsaved].
  - destruct (bounded_at g x s B V Hs) as [Hb Hv]. destruct (packet_ok e msg s s' Hv Hp) as [[_ Hvt]|[K _]].
    + by eapply voted_votes.
    + eapply keeps_votes_nil; [exact plain_voteless|exact V|exact Hs|exact K|done..].
  - by eapply votes_same; [| | |exact V].
  - destruct (bounded_at g x s B V Hs) as [Hb Hv]. destruct (summary_keeps _ _ _ (cron_ok e u s s' o Hb Hv Hc)) as (P & HP & K).
    eapply keeps_votes_nil; [exact HP|exact V|exact Hs|exact K|by rewrite record_servers|by rewrite record_granted|by rewrite record_early].
  - destruct (bounded_at g x s B V Hs) as [Hb' Hv]. destruct (summary_keeps _ _ _ (sleep_ok e s s' o Hb' Hv Hc)) as (P & HP & K).
    eapply keeps_votes; [exact HP|exact V|exact Hs|exact K|exact Hb| |by rewrite record_servers|by rewrite record_granted|by rewrite record_early].
    right. by eapply sleep_saves.
  - eapply (keeps_votes plain g _ x s s sent kept); [exact plain_voteless|exact V|exact Hs|apply keeps_refl|exact Hb| |done|done|].
    + left. intros v Hv. cbn. apply elem_of_app. by right.
    + intros v Hv. cbn. apply elem_of_app. by left.
  - destruct (bounded_at g x s B V Hs) as [Hb Hv]. pose proof (bump_both s s' b Hb Hc) as [K _].
    eapply keeps_votes_nil; [exact plain_voteless|exact V|exact Hs|exact K|done..].
  - destruct (bounded_at g x s B V Hs) as [Hb Hv]. pose proof (collision_both y s s' Hb Hv Hc) as [K _].
    eapply keeps_votes_nil; [exact plain_voteless|exact V|exact Hs|exact K|done..].
  - pose proof (reconfigured_keeps s s' Hr) as [K _].
    eapply keeps_votes_nil; [exact plain_voteless|exact V|exact Hs|exact K|done..].
  - eapply restart_votes; [exact V|exact Hs|by apply Hsaved|done..].
Qed.

Lemma initial_votes g : initial g -> votes_ok g.
Proof.
  intros (_ & _ & Hg & _ & _ & _ & _ & _ & Hm). split.
  - intros x s Hs. destruct (Hm x s Hs) as (H1 & H2 & _ & _ & H5 & H6 & H7 & H8). split; auto. intros v. rewrite H5. intros Hv. by apply elem_of_nil in Hv.
  - intros v. rewrite Hg. intros Hv. by apply elem_of_nil in Hv.
  - intros x s Hs. destruct (Hm x s Hs) as (_ & _ & _ & _ & H5 & _). rewrite Hg, H5. constructor.
Qed.

Lemma reachable_votes strict g0 g : initial g0 -> reachable strict true g0 g -> bounded g /\ votes_ok g.
Proof.
  intros Hi. induction 1 as [|g g' _ [IHb IHv] Hst Hb]; [split; [apply Hi|by apply initial_votes]|].
  split; [done|]. exact (step_votes strict g g' IHb IHv Hst).
Qed.

Lemma nodup_voters (l : list vote) : (forall x, NoDup (epochs x l)) -> NoDup (map fst l).
Proof.
  induction l as [|[[x e] c] l IH]; intros H; cbn; constructor.
  - intros Hx. apply list_elem_of_fmap in Hx as ([[y e'] c'] & Heq & Hin). cbn in Heq. injection Heq as <- <-. specialize (H x). unfold epochs in H. cbn in H. rewrite decide_True in H by done.
    apply NoDup_cons in H as [H _]. apply H. apply elem_of_epochs. eauto.
  - apply IH. intros y. specialize (H y). unfold epochs in *. cbn in H. case_decide; [by apply NoDup_cons in H as [_ ?]|done].
Qed.

Lemma granted_nodup g : votes_ok g -> NoDup (map fst (granted g)).
Proof.
  intros V. apply nodup_voters. intros x. destruct (servers g !! x) as [s|] eqn:Hs.
  - pose proof (vo_nodup _ V _ _ Hs) as H. rewrite epochs_app in H. by apply NoDup_app in H as [? _].
  - rewrite epochs_others; [constructor|]. intros v Hv <-. destruct (vo_granted _ V _ Hv) as (s & Hs' & _). congruence.
Qed.

(** C34: a server votes at most once for an epoch: in every state the network
    reaches, with messages lost, delayed and reordered, written at any time,
    also before the configuration that records a vote is saved, and servers
    restarted from their configuration file at any moment but one, no two of
    the votes that were sent have the same voter and the same epoch.  The
    moment excluded is between the early writing of a vote and the saving of
    the configuration at the end of the iteration (an execution below shows
    that two votes are possible then);
    CLUSTER RESET HARD is not a step either. *)
Theorem cluster_vote_once strict g0 g : initial g0 -> reachable strict true g0 g -> NoDup (map fst (granted g)).
Proof. intros Hi Hr. apply granted_nodup. by eapply reachable_votes. Qed.

(** ** Votes and winners *)

Abbreviation last_request s := (failover_auth_epoch (auth s)).

(** The election that a request or a vote belongs to. *)
Definition claim (p : name * clusterMsg) : option (name * Z) :=
  match m_type p.2 with
  | FAILOVER_AUTH_REQUEST => Some (m_sender p.2, m_currentEpoch p.2)
  | FAILOVER_AUTH_ACK => Some (p.1, m_currentEpoch p.2)
  | PING | PONG => None
  end.

(** The elections of a server are not of greater epochs than its last one. *)
Definition limit (g : network) (c : name) (e : Z) : Prop :=
  exists s, servers g !! c = Some s /\ e <= Z.max (last_request s) (disk s).1 /\ (c ∈ asking g -> e <= last_request s).

Definition travels (g : network) (p : name * clusterMsg) : Prop := p ∈ wire g \/ exists y s, servers g !! y = Some s /\ p ∈ sndbuf s.

(** What a server counted. *)
Record tally_ok (g : network) (x : name) (s : clusterState) : Prop := {
  t_count : failover_auth_count (auth s) = zlen (tally g x);
  t_nodup : NoDup (tally g x);
  t_voters : forall v, v ∈ tally g x -> (v, last_request s, x) ∈ consumed g;
  t_asking : x ∈ asking g -> failover_auth_sent (auth s) <> 0 /\ 1 <= last_request s;
  t_idle : x ∉ asking g -> tally g x = [] }.

Definition win_ok (g : network) (w : win) : Prop :=
  w_size w / 2 + 1 <= zlen (w_votes w) /\ NoDup (w_votes w) /\ forall v, v ∈ w_votes w -> (v, w_epoch w, w_node w) ∈ granted g.

Record ballot_ok (g : network) : Prop := {
  b_epoch : forall x s, servers g !! x = Some s -> 0 <= last_request s <= currentEpoch s /\ (disk s).1 <= currentEpoch s;
  b_limit : forall p c e, travels g p -> claim p = Some (c, e) -> limit g c e;
  b_pool : acks (wire g) ++ consumed g ≡ₚ granted g;
  b_tally : forall x s, servers g !! x = Some s -> tally_ok g x s;
  b_wins : forall w, w ∈ wins g -> win_ok g w }.

Lemma limit_update g g' x s s' c e : servers g !! x = Some s -> servers g' = <[x := s']> (servers g) ->
  Z.max (last_request s) (disk s).1 <= Z.max (last_request s') (disk s').1 ->
  (forall y, y <> x -> y ∈ asking g' -> y ∈ asking g) ->
  (x ∈ asking g' -> x ∈ asking g /\ last_request s <= last_request s' \/ Z.max (last_request s) (disk s).1 <= last_request s') ->
  limit g c e -> limit g' c e.
Proof.
  intros Hs Hg Hmax Hoth Hx (s0 & H0 & H1 & H2). unfold limit. rewrite Hg. destruct (decide (c = x)) as [->|Hne].
  - rewrite Hs in H0. injection H0 as <-. exists s'. rewrite lookup_insert_eq. split_and!; [done|lia|].
    intros Ha. destruct (Hx Ha) as [[Hb Hc]|Hc]; [specialize (H2 Hb)|]; lia.
  - exists s0. rewrite lookup_insert_ne by done. split_and!; auto.
Qed.

(** The messages after a step of [x], when new messages are in [P]. *)
Lemma travels_update g g' x s s' (P : name * clusterMsg -> Prop) p : servers g !! x = Some s -> servers g' = <[x := s']> (servers g) ->
  (forall p, p ∈ wire g' \/ p ∈ sndbuf s' -> p ∈ wire g \/ p ∈ sndbuf s \/ P p) -> travels g' p -> travels g p \/ P p.
Proof.
  intros Hs Hg Hp [H|(y & s0 & H0 & H)].
  - destruct (Hp p (or_introl H)) as [?|[?|?]]; [left; by left|left; right; eauto|by right].
  - rewrite Hg in H0. apply lookup_insert_Some in H0 as [[<- <-]|[Hne H0]]; [|left; right; eauto].
    destruct (Hp p (or_intror H)) as [?|[?|?]]; [left; by left|left; right; eauto|by right].
Qed.

Lemma tally_other g g' y s : tally g' y = tally g y -> (y ∈ asking g' <-> y ∈ asking g) -> (forall v, v ∈ consumed g -> v ∈ consumed g') ->
  tally_ok g y s -> tally_ok g' y s.
Proof. intros Ht Ha Hc [A1 A2 A3 A4 A5]. split; rewrite ?Ht; try done; [auto| |]; rewrite Ha; auto. Qed.

Lemma claim_plain p : plain p -> claim p = None.
Proof. unfold claim. by intros [->| ->]. Qed.

(** The network after a step of [x] that goes through clusterHandleSlaveFailover
    and writes [sent] to the links. *)
Definition flushed (x : name) (s' : clusterState) (sent kept : list (name * clusterMsg)) (g : network) : network :=
  mkNet (<[x := set_sndbuf kept s']> (servers g)) (wire g ++ sent) (granted g ++ acks sent) (consumed g) (tally g) (asking g) (wins g) (early g).

Lemma record_consumed x s o g : consumed (record_outcome x s o g) = consumed g.
Proof. by destruct o. Qed.

Lemma fupd_same f x l : fupd f x l x = l.
Proof. unfold fupd. by rewrite decide_True. Qed.

(** The messages that a call with outcome [o] can send. *)
Definition sends (s : clusterState) (p : name * clusterMsg) : Prop := plain p \/ request_of (myself s) (currentEpoch s + 1) p.

Lemma summary_sends s s' o : summary s s' o -> keeps (sends s) s s' /\ (o <> Asked -> keeps plain s s').
Proof.
  destruct o; cbn; intros [K _]; split; intros; try done; (eapply keeps_weaken; [|exact K]); unfold sends; auto.
Qed.

Lemma summary_request s s' o : summary s s' o -> last_request s' = if decide (o = Asked) then currentEpoch s + 1 else last_request s.
Proof. destruct o; cbn; unfold same_votes; intuition. Qed.

Lemma flushed_limit g x s s' o sent kept p c e : votes_ok g -> ballot_ok g -> servers g !! x = Some s -> summary s s' o -> sndbuf s' ≡ₚ sent ++ kept ->
  travels (record_outcome x s o (flushed x s' sent kept g)) p -> claim p = Some (c, e) -> limit (record_outcome x s o (flushed x s' sent kept g)) c e.
Proof.
  intros V [E L _ T _] Hs Sm Hb Ht Hc. set (g' := record_outcome _ _ _ _) in *.
  assert (Hg : servers g' = <[x := set_sndbuf kept s']> (servers g)) by (unfold g'; by rewrite record_servers).
  destruct (E x s Hs) as [E1 E2]. pose proof (so_my _ _ (vo_server _ V _ _ Hs)) as Hmy.
  destruct (summary_sends s s' o Sm) as [[_ _ Ke (l & Kl & KP) Kd _] Kpl].
  assert (Hd : (disk s).1 <= (disk s').1) by (destruct Kd as [->|[? _]]; lia).
  pose proof (summary_request s s' o Sm) as Hr.
  assert (Hlim : forall c e, limit g c e -> limit g' c e).
  { intros c0 e0. apply (limit_update g g' x s (set_sndbuf kept s')); [done|done| | |]; clear Hg Kpl.
    - cbn. case_decide; lia.
    - intros y Hne. unfold g'. clear -Hne. destruct o; cbn; set_solver.
    - intros Hx. cbn. case_decide; [right; lia|left]. split; [|lia]. unfold g' in Hx. clear -Hx H. destruct o; cbn in Hx; set_solver. }
  eapply (travels_update g g' x s (set_sndbuf kept s') (fun p => p ∈ l)) in Ht as [Ht|Hp]; [eauto| |done|done|].
  - rewrite Forall_forall in KP. destruct (decide (o = Asked)) as [->|Ho].
    + destruct (KP p Hp) as [Hpl|(Hty & Hse & Hep)]; [by rewrite claim_plain in Hc|]. unfold claim in Hc. rewrite Hty, Hse, Hep, Hmy in Hc.
      injection Hc as <- <-. cbn in Hr. exists (set_sndbuf kept s'). rewrite Hg, lookup_insert_eq. cbn. split_and!; [done|lia|lia].
    + destruct (Kpl Ho) as [_ _ _ (l' & Kl' & KP') _ _]. rewrite Kl in Kl'. apply app_inv_head in Kl' as <-. rewrite Forall_forall in KP'.
      by rewrite claim_plain in Hc by auto.
  - intros q. unfold g'. rewrite record_wire. cbn. intros Hq.
    assert (q ∈ wire g \/ q ∈ sndbuf s') as [?|Hq']; [|by left|rewrite Kl in Hq'; set_solver].
    rewrite Hb. set_solver.
Qed.

Lemma tally_same g g' x s s' : same_votes s s' -> tally g' x = tally g x -> asking g' = asking g -> consumed g' = consumed g ->
  tally_ok g x s -> tally_ok g' x s'.
Proof. intros (H1 & H2 & H3) Ht Ha Hc [A1 A2 A3 A4 A5]. split; rewrite ?Ht, ?Ha, ?Hc, ?H1, ?H2, ?H3; auto. Qed.

Lemma flushed_tally g x s s' o sent kept : 0 <= currentEpoch s -> tally_ok g x s -> summary s s' o ->
  tally_ok (record_outcome x s o (flushed x s' sent kept g)) x (set_sndbuf kept s').
Proof.
  intros Hc T Sm. destruct o; cbn in Sm; try (apply (tally_same g _ x s); [apply Sm|done..]).
  - destruct Sm as (_ & S1 & S2 & S3). split; cbn; rewrite ?fupd_same; [by rewrite S2|constructor|set_solver|set_solver|done].
  - destruct Sm as (_ & S1 & S2 & S3 & S4 & S5). destruct T as [T1 T2 T3 T4 T5].
    assert (x ∉ asking g) as Hn by (intros Ha; by destruct (T4 Ha)). rewrite (T5 Hn) in *.
    split; cbn; rewrite ?(T5 Hn); [congruence|constructor|set_solver|lia|set_solver].
Qed.

Lemma flushed_ballot g x s s' o sent kept : votes_ok g -> ballot_ok g -> servers g !! x = Some s -> summary s s' o -> sndbuf s' ≡ₚ sent ++ kept ->
  ballot_ok (record_outcome x s o (flushed x s' sent kept g)).
Proof.
  intros V B Hs Sm Hb. pose proof B as [E _ Po T W]. destruct (E x s Hs) as [E1 E2]. destruct (T x s Hs) as [T1 T2 T3 T4 T5].
  assert (Hidle : failover_auth_sent (auth s) = 0 -> x ∉ asking g) by (intros H0 Ha; by destruct (T4 Ha)).
  split.
  - intros y s0. rewrite record_servers. cbn. rewrite lookup_insert_Some. intros [[<- <-]|[_ H]]; [|by apply (E y)]. cbn.
    destruct (summary_sends s s' o Sm) as [[_ _ Ke _ Kd _] _]. split; [|destruct Kd as [->|[? _]]; lia].
    rewrite (summary_request s s' o Sm). case_decide as Ho; [subst o; destruct Sm as (_ & ? & _); lia|lia].
  - intros p c e. by apply flushed_limit.
  - rewrite record_wire, record_consumed, record_granted. cbn. rewrite acks_app, <- Po. solve_Permutation.
  - intros y s0. rewrite record_servers. cbn [servers flushed]. rewrite lookup_insert_Some. intros [[<- <-]|[Hne H]].
    + apply flushed_tally; [lia|by apply T|done].
    + apply (tally_other g); [| | |by apply T].
      * destruct o; cbn; unfold fupd; try rewrite decide_False by done; done.
      * destruct o; cbn; set_solver.
      * rewrite record_consumed. done.
  - assert (forall w, w ∈ wins g -> win_ok (record_outcome x s o (flushed x s' sent kept g)) w) as Hold.
    { intros w Hw. destruct (W w Hw) as (W1 & W2 & W3). split_and!; auto. rewrite record_granted. cbn. set_solver. }
    destruct o; try exact Hold. intros w. cbn [record_outcome wins flushed]. intros [->|Hw]%elem_of_cons; [|by apply Hold].
    cbn in Sm. split_and!; cbn.
    + intuition lia.
    + done.
    + intros v Hv. apply elem_of_app. left. rewrite <- Po. apply elem_of_app. right. auto.
Qed.

(** What processing a message does to the election of the server. *)
Record received (g : network) (x : name) (msg : clusterMsg) (s s' : clusterState) : Prop := {
  r_epoch : currentEpoch s <= currentEpoch s';
  r_disk : (disk s).1 <= (disk s').1 <= currentEpoch s';
  r_last : last_request s' = last_request s;
  r_sent : failover_auth_sent (auth s') = failover_auth_sent (auth s);
  r_buf : exists l, sndbuf s' = sndbuf s ++ l /\ forall p c e, p ∈ l -> claim p = Some (c, e) -> limit g c e;
  r_count : failover_auth_count (auth s') = failover_auth_count (auth s) \/
    failover_auth_count (auth s') = failover_auth_count (auth s) + 1 /\ m_type msg = FAILOVER_AUTH_ACK /\
    last_request s <= Z.max 0 (m_currentEpoch msg) }.

Lemma limit_le g c e e' : e' <= e -> limit g c e -> limit g c e'.
Proof. intros He (s & H1 & H2 & H3). exists s. split_and!; [done|lia|intros; specialize (H3 ltac:(done)); lia]. Qed.

Lemma packet_received e msg g x s s' : votes_ok g -> ballot_ok g -> (x, msg) ∈ wire g -> servers g !! x = Some s ->
  clusterProcessPacket e msg s = Some s' -> received g x msg s s'.
Proof.
  intros V B Hw Hs Hp. destruct (b_epoch _ B x s Hs) as [_ Hd]. pose proof (vo_server _ V _ _ Hs) as [_ Hv _ _].
  destruct (packet_ok e msg s s' (proj2 Hv) Hp) as [[Ht [A1 A2 A3 A4 (l & A5 & A6) A7 A8 A9]]|(K & H1 & H2 & H3)].
  - assert (limit g (m_sender msg) (m_currentEpoch msg)) as Hlim
      by (apply (b_limit _ B (x, msg)); [by left|unfold claim; cbn; by rewrite Ht]).
    split; rewrite ?A7, ?A9; try done; [lia|lia| |by left]. exists l. split; [done|]. intros p c ep Hp' Hc.
    destruct A6 as [->|(m & -> & M1 & M2 & M3)]; [by apply elem_of_nil in Hp'|]. apply list_elem_of_singleton in Hp' as ->.
    unfold claim in Hc. cbn in Hc. rewrite M1, M3 in Hc. injection Hc as <- <-. eapply limit_le; [|exact Hlim]. lia.
  - destruct K as [_ _ Ke (l & Kl & KP) Kd _]. split; try done.
    + destruct Kd as [->|[? _]]; lia.
    + exists l. split; [done|]. intros p c ep Hp' Hc. rewrite Forall_forall in KP. by rewrite claim_plain in Hc by auto.
    + destruct H3 as [H3|(? & ? & ?)]; [by left|right]. done.
Qed.

(** A vote on the wire was not counted before. *)
Lemma fresh_vote g v x s : votes_ok g -> ballot_ok g -> servers g !! x = Some s -> (v, last_request s, x) ∈ acks (wire g) -> v ∉ tally g x.
Proof.
  intros V B Hs Hw Ht. apply (t_voters _ _ _ (b_tally _ B x s Hs)) in Ht. pose proof (granted_nodup g V) as Hn.
  rewrite <- (b_pool _ B), map_app in Hn. apply NoDup_app in Hn as (_ & Hn & _).
  apply (Hn (v, last_request s)); apply list_elem_of_fmap; by exists (v, last_request s, x).
Qed.

Lemma acks_one x m : m_type m = FAILOVER_AUTH_ACK -> acks [(x, m)] = [(m_sender m, m_currentEpoch m, x)].
Proof. intros H. unfold acks, ack. cbn. by rewrite decide_True. Qed.

(** The network after [x] processed a message. *)
Definition delivered (x : name) (msg : clusterMsg) (s s' : clusterState) (pre post : list (name * clusterMsg)) (g : network) : network :=
  mkNet (<[x := s']> (servers g)) (pre ++ post) (granted g) (consumed g ++ acks [(x, msg)])
    (if decide (failover_auth_count (auth s') = failover_auth_count (auth s)) then tally g else fupd (tally g) x (m_sender msg :: tally g x))
    (asking g) (wins g) (early g).

Lemma delivered_tally x msg s s' pre post g : votes_ok g -> ballot_ok g -> wire g = pre ++ (x, msg) :: post -> servers g !! x = Some s ->
  received g x msg s s' -> (m_type msg = FAILOVER_AUTH_ACK -> x ∈ asking g) -> tally_ok (delivered x msg s s' pre post g) x s'.
Proof.
  intros V B Hw Hs R Hst. pose proof (b_tally _ B x s Hs) as T. pose proof T as [T1 T2 T3 T4 T5]. destruct R as [_ _ R3 R4 _ R6].
  destruct R6 as [R6|(R6 & Ht & Hle)].
  - split; cbn; rewrite ?decide_True, ?R3, ?R4 by done; auto; [congruence|]. intros v Hv. apply elem_of_app. left. auto.
  - specialize (Hst Ht). destruct (T4 Hst) as [T6 T7].
    assert (m_currentEpoch msg = last_request s) as He.
    { destruct (b_limit _ B (x, msg) x (m_currentEpoch msg)) as (s0 & H0 & _ & H2).
      - left. rewrite Hw. apply elem_of_app. right. constructor.
      - unfold claim. cbn. by rewrite Ht.
      - rewrite Hs in H0. injection H0 as <-. specialize (H2 Hst). lia. }
    assert (m_sender msg ∉ tally g x) as Hn.
    { eapply fresh_vote; eauto. rewrite Hw, acks_app. apply elem_of_app. right. change ((x, msg) :: post) with ([(x, msg)] ++ post).
      rewrite acks_app, (acks_one x msg Ht), He. apply elem_of_app. left. constructor. }
    split; cbn [delivered tally consumed asking]; rewrite ?decide_False, ?fupd_same, ?R3, ?R4 by lia.
    + rewrite R6, T1. unfold zlen. cbn. lia.
    + by constructor.
    + intros v [->|Hv]%elem_of_cons; apply elem_of_app; [right; rewrite (acks_one x msg Ht), He; constructor|left; auto].
    + auto.
    + done.
Qed.

Lemma delivered_ballot x msg s s' pre post g : votes_ok g -> ballot_ok g -> wire g = pre ++ (x, msg) :: post -> servers g !! x = Some s ->
  received g x msg s s' -> (m_type msg = FAILOVER_AUTH_ACK -> x ∈ asking g) -> ballot_ok (delivered x msg s s' pre post g).
Proof.
  intros V B Hw Hs R Hst. pose proof (delivered_tally x msg s s' pre post g V B Hw Hs R Hst) as Tx.
  pose proof B as [E L Po T W]. destruct R as [R1 R2 R3 R4 (l & R5 & R5') R6]. destruct (E x s Hs) as [E1 E2]. split.
  - intros y s0. cbn. rewrite lookup_insert_Some. intros [[<- <-]|[_ H]]; [rewrite R3; lia|by apply (E y)].
  - intros p c e Ht Hc.
    apply (limit_update g _ x s s'); [done|done|rewrite R3; lia|done|intros Ha; left; rewrite R3; by split|].
    eapply (travels_update g _ x s s' (fun p => p ∈ l)) in Ht as [Ht|Ht]; [eauto|eauto|done|done|].
    intros q. cbn. rewrite Hw, R5. set_solver.
  - cbn. rewrite <- Po, Hw, !acks_app. change ((x, msg) :: post) with ([(x, msg)] ++ post). rewrite acks_app. solve_Permutation.
  - intros y s0. cbn [delivered servers]. rewrite lookup_insert_Some. intros [[<- <-]|[Hne H]]; [done|].
    apply (tally_other g); [|done| |by apply T].
    + cbn. case_decide; [done|]. unfold fupd. by rewrite decide_False.
    + cbn. set_solver.
  - exact W.
Qed.

Lemma dropped_ballot p pre post g : ballot_ok g -> wire g = pre ++ p :: post ->
  ballot_ok (mkNet (servers g) (pre ++ post) (granted g) (consumed g ++ acks [p]) (tally g) (asking g) (wins g) (early g)).
Proof.
  intros [E L Po T W] Hw. split.
  - exact E.
  - intros q c e Ht Hc. apply (L q c e); [|done]. destruct Ht as [Ht|Ht]; [left|by right]. cbn in Ht. rewrite Hw. set_solver.
  - cbn. rewrite <- Po, Hw, !acks_app. change (p :: post) with ([p] ++ post). rewrite acks_app. solve_Permutation.
  - intros x s Hs. eapply tally_other; [| | |by apply T]; cbn; [done|done|set_solver].
  - exact W.
Qed.

Lemma acks_filter x (l : list (name * clusterMsg)) : acks (filter (fun p => p.1 <> x) l) ++ acks (filter (fun p => p.1 = x) l) ≡ₚ acks l.
Proof.
  rewrite <- acks_app. apply acks_perm. induction l as [|p l IH]; [done|]. rewrite !filter_cons. destruct (decide (p.1 = x)) as [Hp|Hp].
  - rewrite decide_False by auto. rewrite <- Permutation_middle. by rewrite IH.
  - rewrite decide_True by done. cbn. by rewrite IH.
Qed.

Definition restarted (x : name) (m : gmap name clusterNode) (o : gmap Z name) (sent : Z) (s : clusterState) (g : network) : network :=
  mkNet (<[x := clusterInit x m o sent (disk s)]> (servers g)) (filter (fun p => p.1 <> x) (wire g)) (granted g)
    (consumed g ++ acks (filter (fun p => p.1 = x) (wire g))) (fupd (tally g) x []) (asking g ∖ {[x]}) (wins g) (early g).

Lemma restarted_ballot x m o sent s g : votes_ok g -> ballot_ok g -> servers g !! x = Some s -> last_request s <= (disk s).1 ->
  ballot_ok (restarted x m o sent s g).
Proof.
  intros V [E L Po T W] Hs Hr. pose proof (vo_server _ V _ _ Hs) as [_ _ Sd _]. destruct (E x s Hs) as [E1 E2]. split.
  - intros y s0. cbn. rewrite lookup_insert_Some. intros [[<- <-]|[_ H]]; [|by apply (E y)]. cbn. unfold clusterGetMaxEpoch. cbn. lia.
  - intros p c e Ht Hc.
    apply (limit_update g _ x s (clusterInit x m o sent (disk s))); [done|done|unfold clusterInit; cbn [set_epoch auth disk failover_auth_epoch]; lia|cbn; set_solver|cbn; set_solver|].
    eapply (travels_update g _ x s _ (fun p => False)) in Ht as [Ht|[]]; [eauto|done|done|].
    intros q. cbn. rewrite list_elem_of_filter. set_solver.
  - cbn. rewrite <- Po, <- (acks_filter x (wire g)). solve_Permutation.
  - intros y s0. cbn [restarted servers]. rewrite lookup_insert_Some. intros [[<- <-]|[Hne H]].
    + split; cbn; rewrite ?fupd_same; [done|constructor|set_solver|set_solver|done].
    + apply (tally_other g); [|cbn; set_solver|cbn; set_solver|by apply T]. cbn. unfold fupd. by rewrite decide_False.
  - exact W.
Qed.

(** The early votes are history only. *)
Definition set_early (l : list vote) (g : network) : network :=
  mkNet (servers g) (wire g) (granted g) (consumed g) (tally g) (asking g) (wins g) l.

Lemma early_ballot l g : ballot_ok g -> ballot_ok (set_early l g).
Proof. intros [E L Po T W]. split; [exact E|exact L|exact Po| |exact W]. intros x s Hs. by destruct (T x s Hs). Qed.

(** A step of a server outside elections. *)
Lemma quiet_ballot g x s s' : votes_ok g -> ballot_ok g -> servers g !! x = Some s -> both plain s s' -> ballot_ok (set_server x s' g).
Proof.
  intros V B Hs Hb. apply both_votes in Hb. pose proof (flushed_ballot g x s s' NoFailover [] (sndbuf s') V B Hs Hb) as H. cbn in H.
  unfold flushed in H. rewrite set_sndbuf_same, !app_nil_r in H. by apply H.
Qed.

Lemma step_ballot g g' : bounded g -> votes_ok g -> ballot_ok g -> step true true g g' -> ballot_ok g'.
Proof.
  intros Bd V B H. destruct H as [e x msg pre post g s s' Hw Hs Hp Hst|p pre post g Hw|e u x g s s' o Hs Hc|e x g s s' o sent kept Hs Hc Hb|
    x g s sent kept Hs Hb|x g s s' b Hs Hc|x y g s s' Hs Hc|x g s s' Hs Hr|x m o sent g s Hs Hr _].
  - apply delivered_ballot; auto. eapply packet_received; eauto. rewrite Hw. apply elem_of_app. right. constructor.
  - by apply dropped_ballot.
  - destruct (bounded_at g x s Bd V Hs) as [Hb Hv].
    pose proof (flushed_ballot g x s s' o [] (sndbuf s') V B Hs (cron_ok e u s s' o Hb Hv Hc)) as H.
    unfold flushed in H. rewrite set_sndbuf_same, !app_nil_r in H. by apply H.
  - destruct (bounded_at g x s Bd V Hs) as [Hb' Hv]. apply flushed_ballot; auto. by apply (sleep_ok e).
  - apply (early_ballot (early g ++ acks sent) (flushed x s sent kept g)).
    apply (flushed_ballot g x s s NoFailover sent kept V B Hs); [|done]. apply both_votes. split; [apply keeps_refl|done].
  - destruct (bounded_at g x s Bd V Hs) as [Hb Hv]. eapply quiet_ballot; eauto using bump_both.
  - destruct (bounded_at g x s Bd V Hs) as [Hb Hv]. eapply quiet_ballot; eauto using collision_both.
  - eapply quiet_ballot; eauto using reconfigured_keeps.
  - apply restarted_ballot; auto.
Qed.

Lemma initial_ballot g : initial g -> ballot_ok g.
Proof.
  intros (_ & Hw & Hg & Hc & Ht & Ha & Hn & _ & Hm). split.
  - intros x s Hs. destruct (Hm x s Hs) as (_ & H2 & H3 & _ & _ & H6 & H7 & _). lia.
  - intros p c e [H|(y & s & Hs & H)] _.
    + rewrite Hw in H. by apply elem_of_nil in H.
    + destruct (Hm y s Hs) as (_ & _ & _ & _ & H5 & _). rewrite H5 in H. by apply elem_of_nil in H.
  - by rewrite Hw, Hc, Hg.
  - intros x s Hs. destruct (Hm x s Hs) as (_ & _ & _ & H4 & _). split; rewrite ?Ht, ?Ha; [done|constructor|set_solver|set_solver|done].
  - intros w. rewrite Hn. intros H. by apply elem_of_nil in H.
Qed.

Lemma reachable_ballot g0 g : initial g0 -> reachable true true g0 g -> votes_ok g /\ ballot_ok g.
Proof.
  intros Hi Hr. enough (bounded g /\ votes_ok g /\ ballot_ok g) by tauto. induction Hr as [|g g' _ (IHb & IHv & IHt) Hst Hb].
  - split_and!; [apply Hi|by apply initial_votes|by apply initial_ballot].
  - split_and!; [done|exact (step_votes true g g' IHb IHv Hst)|by apply (step_ballot g)].
Qed.

(** Two majorities of a set have a common member. *)
Lemma quorums_meet (V : gset name) (l k : list name) : NoDup l -> NoDup k -> (forall v, v ∈ l \/ v ∈ k -> v ∈ V) ->
  Z.of_nat (size V) / 2 + 1 <= zlen l -> Z.of_nat (size V) / 2 + 1 <= zlen k -> exists v, v ∈ l /\ v ∈ k.
Proof.
  intros Nl Nk HV Hl Hk. destruct (decide (Exists (fun v => v ∈ k) l)) as [He|He]; [by apply Exists_exists in He|].
  assert (forall v, v ∈ l -> v ∉ k) as Hd by (intros v Hvl Hvk; apply He, Exists_exists; eauto).
  assert (length (l ++ k) <= size V)%nat as Hlen.
  { rewrite <- (size_list_to_set (C := gset name)) by (apply NoDup_app; split_and!; auto). apply subseteq_size.
    intros v. rewrite elem_of_list_to_set, elem_of_app. auto. }
  rewrite length_app in Hlen. unfold zlen in *. dlia.
Qed.

Lemma nodup_fst (l : list vote) v e c c' : NoDup (map fst l) -> (v, e, c) ∈ l -> (v, e, c') ∈ l -> c = c'.
Proof.
  induction l as [|[[y e0] c0] l IH]; intros Hnd H1 H2; [by apply elem_of_nil in H1|]. cbn in Hnd. apply NoDup_cons in Hnd as [Hn Hnd].
  assert (forall c, (y, e0, c) ∉ l) as Hl by (intros c1 Hc; apply Hn, list_elem_of_fmap; by exists (y, e0, c1)).
  apply elem_of_cons in H1 as [H1|H1], H2 as [H2|H2]; [congruence| | |auto].
  - injection H1 as -> -> ->. by destruct (Hl c').
  - injection H2 as -> -> ->. by destruct (Hl c).
Qed.

(** C35: elections have one winner per epoch, when votes are only processed
    while the replica waits for votes, and a server restarts only when the
    epoch of its last request and the votes it wrote early are saved: if two replicas won an election of the
    same epoch, and the voters that they counted are among the same masters,
    whose number is the size of the cluster for both, then they are the same
    replica. *)
Theorem cluster_unique_winner g0 g w w' (V : gset name) : initial g0 -> reachable true true g0 g -> w ∈ wins g -> w' ∈ wins g ->
  w_epoch w = w_epoch w' -> (forall v, v ∈ w_votes w \/ v ∈ w_votes w' -> v ∈ V) ->
  w_size w = Z.of_nat (size V) -> w_size w' = Z.of_nat (size V) -> w_node w = w_node w'.
Proof.
  intros Hi Hr Hw Hw' He HV Hz Hz'. destruct (reachable_ballot g0 g Hi Hr) as [Vo B].
  destruct (b_wins _ B w Hw) as (A1 & A2 & A3), (b_wins _ B w' Hw') as (B1 & B2 & B3). rewrite Hz in A1. rewrite Hz' in B1.
  destruct (quorums_meet V (w_votes w) (w_votes w') A2 B2 HV A1 B1) as (v & H1 & H2).
  pose proof (granted_nodup g Vo) as Hn. specialize (A3 v H1). specialize (B3 v H2). rewrite <- He in B3. by eapply nodup_fst.
Qed.

(** ** Executions *)

(** A step with its inputs: messages are named by their position on the wire,
    and the end of an iteration writes all that waits, as does an early write. *)
Inductive event := Deliver (e : env) (i : nat) | Drop (i : nat) | Cron (e : env) (x : name) | Sleep (e : env) (x : name) | Write (x : name) | Restart (x : name).

Definition exec (strict careful : bool) (ev : event) (g : network) : option network :=
  match ev with
  | Deliver e i =>
      '(x, msg) ← wire g !! i;
      s ← servers g !! x;
      s' ← clusterProcessPacket e msg s;
      if strict && bool_decide (m_type msg = FAILOVER_AUTH_ACK) && negb (bool_decide (x ∈ asking g)) then None
      else Some (delivered x msg s s' (take i (wire g)) (drop (S i) (wire g)) g)
  | Drop i =>
      p ← wire g !! i;
      Some (mkNet (servers g) (take i (wire g) ++ drop (S i) (wire g)) (granted g) (consumed g ++ acks [p]) (tally g) (asking g) (wins g) (early g))
  | Cron e x =>
      s ← servers g !! x;
      '(s', o) ← clusterCron e false s;
      Some (record_outcome x s o (set_server x s' g))
  | Sleep e x =>
      s ← servers g !! x;
      '(s', o) ← clusterBeforeSleep e s;
      Some (record_outcome x s o (flushed x s' (sndbuf s') [] g))
  | Write x =>
      s ← servers g !! x;
      Some (set_early (early g ++ acks (sndbuf s)) (flushed x s (sndbuf s) [] g))
  | Restart x =>
      s ← servers g !! x;
      if strict && ((disk s).1 <? last_request s) || careful && existsb (fun v => (v.1.1 =? x) && ((disk s).2 <? v.1.2)) (early g) then None
      else Some (restarted x (nodes s) (slot_owner s) 0 s g)
  end.

Definition bounded_b (g : network) : bool := forallb (fun p => currentEpoch p.2 <? 2 ^ 64 - 1) (map_to_list (servers g)).

Fixpoint run (strict careful : bool) (l : list event) (g : network) : option network :=
  match l with
  | [] => Some g
  | ev :: l => g ← exec strict careful ev g; if bounded_b g then run strict careful l g else None
  end.

Lemma bounded_b_ok g : bounded_b g = true -> bounded g.
Proof.
  unfold bounded_b. intros H x s Hs. rewrite forallb_forall in H. apply elem_of_map_to_list, list_elem_of_In in Hs. apply H in Hs. cbn in Hs. lia.
Qed.

Lemma exec_step strict careful ev g g' : exec strict careful ev g = Some g' -> step strict careful g g'.
Proof.
  destruct ev as [e i|i|e x|e x|x|x]; cbn; intros H.
  - apply bind_Some in H as ([x msg] & Hw & H). apply bind_Some in H as (s & Hs & H). apply bind_Some in H as (s' & Hp & H).
    destruct (_ && _ && _) eqn:E; [done|]. injection H as <-. eapply step_deliver; [|exact Hs|exact Hp|].
    + by rewrite take_drop_middle.
    + intros -> Ht. rewrite (bool_decide_eq_true_2 _ Ht) in E. cbn in E. by apply negb_false_iff, bool_decide_eq_true in E.
  - apply bind_Some in H as (p & Hw & H). injection H as <-. apply step_drop. by rewrite take_drop_middle.
  - apply bind_Some in H as (s & Hs & H). apply bind_Some in H as ([s' o] & Hc & H). injection H as <-. by eapply step_cron.
  - apply bind_Some in H as (s & Hs & H). apply bind_Some in H as ([s' o] & Hc & H). injection H as <-. eapply step_sleep; [exact Hs|exact Hc|].
    by rewrite app_nil_r.
  - apply bind_Some in H as (s & Hs & H). injection H as <-. apply (step_write strict careful x g s (sndbuf s) []); [done|]. by rewrite app_nil_r.
  - apply bind_Some in H as (s & Hs & H). destruct (_ || _) eqn:E; [done|]. apply orb_false_iff in E as [E1 E2]. injection H as <-.
    apply step_restart; [done| |].
    + intros ->. cbn in E1. lia.
    + intros -> v Hv Hx. cbn in E2. apply not_true_iff_false in E2. apply Z.le_ngt. intros Hlt. apply E2, existsb_exists. exists v.
      split; [by apply list_elem_of_In|]. rewrite Hx, Z.eqb_refl. cbn. lia.
Qed.

Lemma run_reachable strict careful l g0 g g' : reachable strict careful g0 g -> run strict careful l g = Some g' -> reachable strict careful g0 g'.
Proof.
  revert g. induction l as [|ev l IH]; intros g Hr H; cbn in H; [by injection H as <-|]. apply bind_Some in H as (g1 & E & H).
  destruct (bounded_b g1) eqn:Eb; [|done]. eapply IH; [|exact H]. eapply reach_step; [exact Hr|by eapply exec_step|by apply bounded_b_ok].
Qed.

(** Two masters 1 and 2, a failed master 3, and its replicas 4 and 5. *)
Definition demo_node (x : name) : clusterNode :=
  if x <=? 3 then mkNode (if x =? 3 then Z.lor CLUSTER_NODE_MASTER CLUSTER_NODE_FAIL else CLUSTER_NODE_MASTER) 1 {[x]} 1
    (if x =? 3 then [4; 5] else []) None 0 0 (negb (x =? 3))
  else mkNode CLUSTER_NODE_SLAVE 0 ∅ 0 [] (Some 3) 0 0 true.
Definition demo_server (x : name) : clusterState :=
  mkCluster x 1 0 true 3
    (list_to_map (map (fun y => (y, if y =? x then set_flags (Z.lor (flags (demo_node y)) CLUSTER_NODE_MYSELF) (demo_node y) else demo_node y)) [1; 2; 3; 4; 5]))
    (list_to_map [(1, 1); (2, 2); (3, 3)]) (mkElection 0 0 0 0 0) (mkManual 0 None (-1) false) 0 0 0 [] (1, 0).
Definition demo : network :=
  mkNet (list_to_map (map (fun x => (x, demo_server x)) [1; 2; 4; 5])) [] [] [] (fun _ => []) ∅ [] [].
Definition at_time (t : Z) : env := mkEnv t 0 false 0 0 0 0 0 1000 0 10 false false false.

Lemma initial_demo : initial demo.
Proof.
  split_and!; try done; apply (bool_decide_unpack _); vm_compute; exact I.
Qed.

(** What a run leaves. *)
Lemma run_demo strict careful l (votes : list vote) (w : list win) :
  option_map (fun g => (granted g, wins g)) (run strict careful l demo) = Some (votes, w) ->
  exists g, reachable strict careful demo g /\ granted g = votes /\ wins g = w.
Proof.
  intros H. destruct (run strict careful l demo) as [g|] eqn:E; [|done]. injection H as <- <-. exists g. split_and!; [|done|done].
  eapply run_reachable; [apply reach_start|exact E].
Qed.

(** Replica 4 asks for votes and the two masters vote for it. *)
Definition asks : list event := [Cron (at_time 10000) 4; Sleep (at_time 10001) 4; Cron (at_time 10600) 4; Sleep (at_time 10601) 4].
Definition votes : list event :=
  [Deliver (at_time 10700) 3; Deliver (at_time 10700) 2; Deliver (at_time 10700) 1; Deliver (at_time 10700) 0;
   Sleep (at_time 10701) 1; Sleep (at_time 10701) 2].
Definition wins_run : list event := asks ++ votes ++ [Deliver (at_time 10800) 0; Deliver (at_time 10800) 0; Sleep (at_time 10801) 4].

(** The votes are not read; master 1 restarts, and votes in the next election. *)
Definition restart_run : list event :=
  asks ++ votes ++ [Restart 1; Cron (at_time 14600) 4; Cron (at_time 15200) 4; Sleep (at_time 15200) 4; Deliver (at_time 15700) 5; Sleep (at_time 15700) 1].

(** The votes arrive after the next election of replica 4 was scheduled, which
    asks for votes and wins before any master knows of it; replica 5 is
    elected in the meantime. *)
Definition stale_run : list event :=
  asks ++ votes ++
  [Cron (at_time 14600) 4; Deliver (at_time 14700) 0; Deliver (at_time 14700) 0; Sleep (at_time 14701) 4;
   Cron (at_time 15200) 4; Cron (at_time 15300) 4;
   Cron (at_time 15000) 5; Cron (at_time 15600) 5; Sleep (at_time 15601) 5;
   Deliver (at_time 15700) 4; Deliver (at_time 15700) 3; Sleep (at_time 15701) 1; Sleep (at_time 15701) 2;
   Deliver (at_time 15800) 3; Deliver (at_time 15800) 3; Sleep (at_time 15801) 5].

Lemma cluster_vote_once_witness : exists g, reachable false true demo g /\ granted g = [(1, 2, 4); (2, 2, 4); (1, 3, 4)] /\ NoDup (map fst (granted g)).
Proof.
  destruct (run_demo false true restart_run [(1, 2, 4); (2, 2, 4); (1, 3, 4)] []) as (g & Hr & Hg & _); [vm_compute; reflexivity|].
  exists g. split_and!; [done|done|]. exact (cluster_vote_once false demo g initial_demo Hr).
Defined.

Lemma cluster_unique_winner_witness : exists g w, reachable true true demo g /\ w ∈ wins g /\ w = mkWin 4 2 [2; 1] 3 /\ w_node w = w_node w.
Proof.
  destruct (run_demo true true wins_run [(1, 2, 4); (2, 2, 4)] [mkWin 4 2 [2; 1] 3]) as (g & Hr & _ & Hw); [vm_compute; reflexivity|].
  exists g, (mkWin 4 2 [2; 1] 3). assert (mkWin 4 2 [2; 1] 3 ∈ wins g) as Hin by (rewrite Hw; constructor). split_and!; [done|done|done|].
  apply (cluster_unique_winner demo g _ _ {[1; 2; 3]} initial_demo Hr Hin Hin); [done| |done|done].
  cbn. set_solver.
Defined.

(** C36: votes that arrive late are counted in an election they were not given
    for: there is an execution, without a restart, in which two replicas win
    the same epoch, each with the votes of two of the three masters, and the
    first of them was given no vote for that epoch. *)
Theorem stale_votes_two_winners : exists g w w', initial demo /\ reachable false true demo g /\ w ∈ wins g /\ w' ∈ wins g /\
  w_epoch w = w_epoch w' /\ w_node w <> w_node w' /\ w_size w = 3 /\ w_size w' = 3 /\
  (forall v, v ∈ w_votes w \/ v ∈ w_votes w' -> v = 1 \/ v = 2) /\ (forall v, (v, w_epoch w, w_node w) ∉ granted g).
Proof.
  destruct (run_demo false true stale_run [(1, 2, 4); (2, 2, 4); (1, 3, 5); (2, 3, 5)] [mkWin 5 3 [2; 1] 3; mkWin 4 3 [2; 1] 3])
    as (g & Hr & Hg & Hw); [vm_compute; reflexivity|].
  exists g, (mkWin 4 3 [2; 1] 3), (mkWin 5 3 [2; 1] 3). rewrite Hg, Hw. cbn.
  split_and!; [exact initial_demo|exact Hr|set_solver|set_solver|done|done|done|done|set_solver|set_solver].
Qed.



End Election.
