(* ===== verification/Slots.v ===== *)
(** * Hash slots of the cluster (src/redis-stable/src/cluster.c)

    A server keeps the assignment of the slots twice: the array of the owners
    ([slot_owner]) and the bitmap of each node with its count.  This file
    proves that the operations on slots keep them equal, and that a replica
    that wins an election takes all the slots of its master and no other. *)
From stdpp Require Import base list gmap.
From S2P Require Import Prelude Cluster.

Module Slots.
Import Cluster.

(** The owner of a slot is the one node whose bit is set, and counts count. *)
Record slots_ok (s : clusterState) : Prop := {
  s_owner : forall j x, slot_owner s !! j = Some x <-> exists n, nodes s !! x = Some n /\ j ∈ slots n;
  s_count : forall x n, nodes s !! x = Some n -> numslots n = Z.of_nat (size (slots n));
  s_range : forall x n j, nodes s !! x = Some n -> j ∈ slots n -> 0 <= j < CLUSTER_SLOTS }.

(** The nodes are the same but for their slots and for flags that are added. *)
Definition like (n n' : clusterNode) : Prop :=
  slaveof n' = slaveof n /\ slaves n' = slaves n /\ configEpoch n' = configEpoch n /\ (nodeIsMaster n = true -> nodeIsMaster n' = true).
Definition frame (s s' : clusterState) : Prop :=
  myself s' = myself s /\ forall x n, nodes s !! x = Some n -> exists n', nodes s' !! x = Some n' /\ like n n'.

Lemma like_refl n : like n n.
Proof. done. Qed.

Lemma frame_refl s : frame s s.
Proof. split; [done|]. intros x n H. exists n. by split. Qed.

Lemma frame_trans s1 s2 s3 : frame s1 s2 -> frame s2 s3 -> frame s1 s3.
Proof.
  intros [A1 A2] [B1 B2]. split; [congruence|]. intros x n Hn. destruct (A2 x n Hn) as (n' & H1 & L1). destruct (B2 x n' H1) as (n'' & H2 & L2).
  exists n''. split; [done|]. unfold like in *. intuition congruence.
Qed.

Lemma frame_insert s s' x n n' : nodes s !! x = Some n -> like n n' -> myself s' = myself s -> nodes s' = <[x := n']> (nodes s) -> frame s s'.
Proof.
  intros Hn L Hm Hs. split; [done|]. intros y k Hk. rewrite Hs. destruct (decide (y = x)) as [->|Hne].
  - rewrite Hn in Hk. injection Hk as <-. exists n'. by rewrite lookup_insert_eq.
  - exists k. by rewrite lookup_insert_ne.
Qed.

Lemma master_lor f g : has f CLUSTER_NODE_MASTER = true -> has (Z.lor f g) CLUSTER_NODE_MASTER = true.
Proof.
  unfold has. rewrite !negb_true_iff, !Z.eqb_neq. intros H H'. apply H. rewrite Z.land_lor_distr_l in H'. by apply Z.lor_eq_0_iff in H' as [? _].
Qed.

(** ** One slot *)

Lemma set_bit_ok x j s n : nodes s !! x = Some n -> j ∉ slots n ->
  exists n', clusterNodeSetSlotBit x j s = Some (set_nodes (<[x := n']> (nodes s)) s) /\
    slots n' = {[j]} ∪ slots n /\ numslots n' = numslots n + 1 /\ like n n'.
Proof.
  intros Hn Hj. unfold clusterNodeSetSlotBit, node_of, upd_node. rewrite Hn. cbn [mbind option_bind]. rewrite bool_decide_eq_false_2 by done.
  destruct (_ && _).
  - cbn [nodes set_nodes]. rewrite lookup_insert_eq. cbn [mbind option_bind].
    eexists. rewrite insert_insert_eq. split; [done|]. split_and!; [done|done|]. split_and!; try done. apply master_lor.
  - eexists. split; [done|]. split_and!; done.
Qed.

Lemma clear_bit_ok x j s n : nodes s !! x = Some n -> j ∈ slots n ->
  exists n', clusterNodeClearSlotBit x j s = Some (set_nodes (<[x := n']> (nodes s)) s, true) /\
    slots n' = slots n ∖ {[j]} /\ numslots n' = numslots n - 1 /\ like n n'.
Proof.
  intros Hn Hj. unfold clusterNodeClearSlotBit, node_of, upd_node. rewrite Hn. cbn [mbind option_bind].
  rewrite bool_decide_eq_true_2 by done. eexists. split; [done|]. split_and!; done.
Qed.

Lemma size_add (X : gset Z) j : j ∉ X -> Z.of_nat (size ({[j]} ∪ X)) = Z.of_nat (size X) + 1.
Proof. intros H. rewrite size_union by set_solver. rewrite size_singleton. lia. Qed.

Lemma size_del (X : gset Z) j : j ∈ X -> Z.of_nat (size (X ∖ {[j]})) = Z.of_nat (size X) - 1.
Proof.
  intros H. pose proof (size_add (X ∖ {[j]}) j ltac:(set_solver)) as Hs. rewrite <- (union_difference_singleton_L j X H) in Hs. lia.
Qed.

(** Assigning a free slot. *)
Lemma add_slot_ok x j s n : slots_ok s -> nodes s !! x = Some n -> 0 <= j < CLUSTER_SLOTS -> slot_owner s !! j = None ->
  exists s', clusterAddSlot x j s = Some (s', true) /\ slots_ok s' /\ frame s s' /\ slot_owner s' = <[j := x]> (slot_owner s).
Proof.
  intros [O C R] Hn Hj Hf.
  assert (forall y k, nodes s !! y = Some k -> j ∉ slots k) as Hfree
    by (intros y k Hk Hin; assert (slot_owner s !! j = Some y) by (apply O; eauto); congruence).
  destruct (set_bit_ok x j s n Hn (Hfree x n Hn)) as (n' & E & Hs & Hc & L). unfold clusterAddSlot. rewrite Hf, E. cbn [mbind option_bind].
  eexists. split; [done|]. split_and!; [|by eapply frame_insert|done]. split; cbn.
  - intros i y. destruct (decide (i = j)) as [->|Hi].
    + rewrite lookup_insert_eq. split.
      * intros [= <-]. exists n'. rewrite lookup_insert_eq, Hs. set_solver.
      * intros (k & Hk & Hin). apply lookup_insert_Some in Hk as [[<- <-]|[Hne Hk]]; [done|]. by destruct (Hfree y k Hk).
    + rewrite lookup_insert_ne by done. rewrite O. split; intros (k & Hk & Hin).
      * destruct (decide (y = x)) as [->|Hne]; [exists n'; rewrite lookup_insert_eq; split; [done|]; rewrite Hn in Hk; injection Hk as <-; set_solver|].
        exists k. by rewrite lookup_insert_ne.
      * apply lookup_insert_Some in Hk as [[<- <-]|[Hne Hk]]; [exists n; split; [done|set_solver]|eauto].
  - intros y k Hk. apply lookup_insert_Some in Hk as [[<- <-]|[Hne Hk]]; [|eauto]. rewrite Hc, Hs, size_add, (C x n Hn); eauto.
  - intros y k i Hk Hi. apply lookup_insert_Some in Hk as [[<- <-]|[Hne Hk]]; [|eauto]. rewrite Hs in Hi.
    apply elem_of_union in Hi as [->%elem_of_singleton|Hi]; eauto.
Qed.

(** Freeing a slot: the assertion of the code holds. *)
Lemma del_slot_ok x j s : slots_ok s -> slot_owner s !! j = Some x ->
  exists s', clusterDelSlot j s = Some (s', true) /\ slots_ok s' /\ frame s s' /\ slot_owner s' = delete j (slot_owner s).
Proof.
  intros [O C R] Hj. destruct (proj1 (O j x) Hj) as (n & Hn & Hin).
  destruct (clear_bit_ok x j s n Hn Hin) as (n' & E & Hs & Hc & L). unfold clusterDelSlot. rewrite Hj, E. cbn [mbind option_bind].
  eexists. split; [done|]. split_and!; [|by eapply frame_insert|done]. split; cbn.
  - intros i y. destruct (decide (i = j)) as [->|Hi].
    + rewrite lookup_delete_eq. split; [done|]. intros (k & Hk & Hi). apply lookup_insert_Some in Hk as [[<- <-]|[Hne Hk]]; [set_solver|].
      assert (slot_owner s !! j = Some y) by (apply O; eauto). congruence.
    + rewrite lookup_delete_ne by done. rewrite O. split; intros (k & Hk & Hk').
      * destruct (decide (y = x)) as [->|Hne]; [exists n'; rewrite lookup_insert_eq; split; [done|]; rewrite Hn in Hk; injection Hk as <-; set_solver|].
        exists k. by rewrite lookup_insert_ne.
      * apply lookup_insert_Some in Hk as [[<- <-]|[Hne Hk]]; [exists n; split; [done|set_solver]|eauto].
  - intros y k Hk. apply lookup_insert_Some in Hk as [[<- <-]|[Hne Hk]]; [|eauto]. rewrite Hc, Hs, size_del, (C x n Hn); eauto.
  - intros y k i Hk Hi. apply lookup_insert_Some in Hk as [[<- <-]|[Hne Hk]]; [|eauto]. rewrite Hs in Hi. set_solver.
Qed.

(** ** All the slots of a master *)

Lemma elem_of_count_up j a n : j ∈ count_up a n <-> a <= j < a + Z.of_nat n.
Proof.
  revert a. induction n as [|n IH]; intros a; cbn [count_up]; [rewrite elem_of_nil; lia|]. rewrite elem_of_cons, IH. lia.
Qed.

Lemma take_slot_ok m j s me old : slots_ok s -> nodes s !! myself s = Some me -> nodes s !! m = Some old -> 0 <= j < CLUSTER_SLOTS ->
  exists s', take_slot m j s = Some s' /\ slots_ok s' /\ frame s s' /\
    slot_owner s' = if decide (slot_owner s !! j = Some m) then <[j := myself s]> (slot_owner s) else slot_owner s.
Proof.
  intros Ok Hme Hm Hj. unfold take_slot, node_of. rewrite Hm. cbn [mbind option_bind].
  assert (j ∈ slots old <-> slot_owner s !! j = Some m) as Hin by (rewrite (s_owner _ Ok); split; [eauto|intros (n & ? & ?); congruence]).
  case_decide as Hd.
  - rewrite bool_decide_eq_true_2 by tauto. destruct (del_slot_ok m j s Ok Hd) as (s1 & E1 & Ok1 & [F1 F1'] & O1). rewrite E1. cbn [mbind option_bind].
    destruct (F1' _ _ Hme) as (me1 & Hme1 & _). rewrite F1.
    destruct (add_slot_ok (myself s) j s1 me1 Ok1 Hme1 Hj) as (s2 & E2 & Ok2 & F2 & O2); [by rewrite O1, lookup_delete_eq|].
    rewrite E2. cbn [mbind option_bind]. exists s2. split_and!; [done|done|by eapply frame_trans; [split|]|].
    by rewrite O2, O1, insert_delete_eq.
  - rewrite bool_decide_eq_false_2 by tauto. exists s. split_and!; [done|done|apply frame_refl|done].
Qed.

Lemma take_slots_ok m l s me old : slots_ok s -> nodes s !! myself s = Some me -> nodes s !! m = Some old -> m <> myself s ->
  (forall j, j ∈ l -> 0 <= j < CLUSTER_SLOTS) ->
  exists s', for_slots l (take_slot m) s = Some s' /\ slots_ok s' /\ frame s s' /\
    forall j, slot_owner s' !! j = if decide (j ∈ l /\ slot_owner s !! j = Some m) then Some (myself s) else slot_owner s !! j.
Proof.
  revert s me old. induction l as [|i l IH]; intros s me old Ok Hme Hm Hne Hl; cbn [for_slots].
  - exists s. split_and!; [done|done|apply frame_refl|]. intros j. by rewrite decide_False by (intros [?%elem_of_nil _]; done).
  - destruct (take_slot_ok m i s me old Ok Hme Hm) as (s1 & E1 & Ok1 & F1 & O1); [apply Hl; constructor|]. rewrite E1. cbn [mbind option_bind].
    pose proof F1 as [Fm Fn]. destruct (Fn _ _ Hme) as (me1 & Hme1 & _), (Fn _ _ Hm) as (old1 & Hold1 & _). rewrite <- Fm in Hme1.
    destruct (IH s1 me1 old1 Ok1 Hme1 Hold1) as (s2 & E2 & Ok2 & F2 & O2); [congruence|intros j Hj; apply Hl; by constructor|].
    exists s2. split_and!; [done|done|by eapply frame_trans|]. intros j. rewrite O2, O1, Fm.
    destruct (decide (slot_owner s !! i = Some m)) as [Hi|Hi].
    + destruct (decide (j = i)) as [->|Hji].
      * rewrite lookup_insert_eq. rewrite (decide_True _ _ (P := i ∈ i :: l /\ _)) by (split; [constructor|done]). by case_decide.
      * rewrite lookup_insert_ne by done. do 2 case_decide; set_solver.
    + do 2 case_decide; set_solver.
Qed.

(** ** Failover *)

(** Two states with the same slots. *)
Definition same_slots (s s' : clusterState) : Prop :=
  slot_owner s' = slot_owner s /\ forall x, (fun n => (slots n, numslots n)) <$> nodes s' !! x = (fun n => (slots n, numslots n)) <$> nodes s !! x.

Lemma same_slots_trans s1 s2 s3 : same_slots s1 s2 -> same_slots s2 s3 -> same_slots s1 s3.
Proof. intros [A1 A2] [B1 B2]. split; [congruence|]. intros x. by rewrite B2, A2. Qed.

Lemma same_slots_node s s' x n : same_slots s s' -> nodes s' !! x = Some n ->
  exists n0, nodes s !! x = Some n0 /\ slots n0 = slots n /\ numslots n0 = numslots n.
Proof.
  intros [_ H] Hn. specialize (H x). rewrite Hn in H. cbn in H. destruct (nodes s !! x) as [n0|]; [|done]. cbn in H. injection H as H1 H2. eauto.
Qed.

Lemma same_slots_sym s s' : same_slots s s' -> same_slots s' s.
Proof. intros [A B]. split; [done|]. intros x. by rewrite B. Qed.

Lemma same_slots_ok s s' : same_slots s s' -> slots_ok s -> slots_ok s'.
Proof.
  intros S [O C R]. split.
  - intros j x. rewrite (proj1 S), O. split; intros (n & Hn & Hj).
    + destruct (same_slots_node s' s x n (same_slots_sym _ _ S) Hn) as (n0 & H0 & H1 & _). exists n0. by rewrite H1.
    + destruct (same_slots_node s s' x n S Hn) as (n0 & H0 & H1 & _). exists n0. by rewrite H1.
  - intros x n Hn. destruct (same_slots_node s s' x n S Hn) as (n0 & H0 & <- & <-). eauto.
  - intros x n j Hn. destruct (same_slots_node s s' x n S Hn) as (n0 & H0 & <- & _). eauto.
Qed.

Lemma upd_node_slots x f s n : nodes s !! x = Some n -> (forall n, slots (f n) = slots n /\ numslots (f n) = numslots n) ->
  upd_node x f s = Some (set_nodes (<[x := f n]> (nodes s)) s) /\ same_slots s (set_nodes (<[x := f n]> (nodes s)) s).
Proof.
  intros Hn Hf. unfold upd_node. rewrite Hn. split; [done|]. split; [done|]. intros y. cbn. destruct (decide (y = x)) as [->|Hne].
  - rewrite lookup_insert_eq, Hn. cbn. by rewrite (proj1 (Hf n)), (proj2 (Hf n)).
  - by rewrite lookup_insert_ne.
Qed.

Lemma elem_of_slot_range j : j ∈ slot_range <-> 0 <= j < CLUSTER_SLOTS.
Proof. unfold slot_range. rewrite elem_of_count_up, Z2Nat.id by done. done. Qed.

#[local] Opaque slot_range.

Lemma master_flag f : has (Z.lor f CLUSTER_NODE_MASTER) CLUSTER_NODE_MASTER = true.
Proof.
  unfold has. rewrite negb_true_iff, Z.eqb_neq, Z.land_lor_distr_l, Z.lor_comm. intros H. by apply Z.lor_eq_0_iff in H as [H _].
Qed.

(** A replica becomes a master; its slots come later. *)
Lemma set_master_ok s me m old : nodes s !! myself s = Some me -> nodeIsMaster me = false -> slaveof me = Some m -> m <> myself s ->
  nodes s !! m = Some old ->
  exists s' me' old', clusterSetNodeAsMaster (myself s) s = Some s' /\ same_slots s s' /\ myself s' = myself s /\
    nodes s' !! myself s = Some me' /\ nodeIsMaster me' = true /\ slaveof me' = None /\ nodes s' !! m = Some old'.
Proof.
  intros Hme Hma Hsl Hne Hm. unfold clusterSetNodeAsMaster, node_of. rewrite Hme. cbn [mbind option_bind]. rewrite Hma, Hsl.
  unfold clusterNodeRemoveSlave. match goal with |- context [upd_node m ?g s] => set (f := g) end.
  destruct (upd_node_slots m f s old Hm) as [E1 S1].
  { intros n. unfold f. destruct (list_find _ _) as [[j y]|]; [|done]. by destruct (_ =? _)%nat. }
  rewrite E1. cbn [mbind option_bind]. set (s1 := set_nodes _ s) in *. rewrite bool_decide_eq_true_2 by done. cbn [mbind option_bind].
  assert (nodes s1 !! myself s = Some me) as Hme1 by (unfold s1; cbn; by rewrite lookup_insert_ne).
  match goal with |- context [upd_node (myself s) ?g s1] => set (f2 := g) end. destruct (upd_node_slots (myself s) f2 s1 me Hme1) as [E2 S2]; [done|].
  rewrite E2. cbn [mbind option_bind]. set (s2 := set_nodes _ s1) in *.
  exists (clusterDoBeforeSleep (Z.lor CLUSTER_TODO_SAVE_CONFIG CLUSTER_TODO_UPDATE_STATE) s2), (f2 me), (f old).
  split_and!; [done|exact (same_slots_trans _ _ _ S1 S2)|done|cbn; by rewrite lookup_insert_eq|apply master_flag|done|].
  cbn. rewrite lookup_insert_ne by done. by rewrite lookup_insert_eq.
Qed.

Lemma covered_total l s : slots_ok s -> exists b, covered l s = Some b.
Proof.
  intros Ok. induction l as [|j l [b IH]]; cbn [covered]; [eauto|]. destruct (slot_owner s !! j) as [x|] eqn:E; [|eauto].
  apply (s_owner _ Ok) in E as (n & Hn & _). unfold node_of. rewrite Hn. cbn [mbind option_bind]. destruct (has _ _); eauto.
Qed.

Lemma set_state_slots b k f m s : slots_ok s -> slots_ok (set_state b k f m s).
Proof. intros [O C R]. by split. Qed.

Lemma update_state_total e s me : slots_ok s -> nodes s !! myself s = Some me ->
  exists s', clusterUpdateState e s = Some s' /\ nodes s' = nodes s /\ slot_owner s' = slot_owner s /\ myself s' = myself s.
Proof.
  intros Ok Hme. unfold clusterUpdateState. set (s0 := set_todo _ s).
  assert (node_of (myself s0) s0 = Some me) as -> by exact Hme. cbn [mbind option_bind]. destruct (_ && _ && _); [eauto|].
  set (s1 := set_state _ _ _ _ s0).
  assert (exists b, (if cluster_require_full_coverage e then covered slot_range s1 else Some true) = Some b) as (b & ->).
  { destruct (cluster_require_full_coverage e); [|eauto]. apply covered_total. unfold s1. apply set_state_slots. destruct Ok. by split. }
  cbn [mbind option_bind]. destruct (Bool.eqb _ _); [eauto|]. destruct (_ && _ && _); eauto.
Qed.

Lemma pong_total e s me : nodes s !! myself s = Some me -> slaveof me = None ->
  exists l, clusterBroadcastPong e false s = Some (set_sndbuf l s).
Proof.
  intros Hme Hsl. unfold clusterBroadcastPong, clusterBuildMessageHdr, node_of. rewrite Hme. cbn [mbind option_bind]. rewrite Hsl.
  cbn [mbind option_bind]. eauto.
Qed.

Lemma bind_to {A B} (x : option A) (f : A -> option B) a r : x = Some a -> f a = r -> x ≫= f = r.
Proof. by intros ->. Qed.

Lemma replace_master_eq e s me m s1 s2 s3 s4 : nodes s !! myself s = Some me -> nodeIsMaster me = false -> slaveof me = Some m ->
  clusterSetNodeAsMaster (myself s) s = Some s1 -> for_slots slot_range (take_slot m) s1 = Some s2 -> clusterUpdateState e s2 = Some s3 ->
  clusterBroadcastPong e false (clusterSaveConfig s3) = Some s4 -> clusterFailoverReplaceYourMaster e s = Some (resetManualFailover s4).
Proof.
  intros Hme Hma Hsl E1 E2 E3 E4. unfold clusterFailoverReplaceYourMaster. eapply bind_to; [exact Hme|]. cbv beta. rewrite Hsl, Hma.
  eapply bind_to; [exact E1|]. eapply bind_to; [exact E2|]. eapply bind_to; [exact E3|]. by eapply bind_to; [exact E4|].
Qed.

(** C38: a replica that replaces its failed master is a master that serves
    all the slots of the old one and those of nobody else, the old master
    serves none, and the two records of the assignment still agree; no
    assertion fails on the way. *)
Theorem failover_takes_slots e s me m old : slots_ok s -> nodes s !! myself s = Some me -> nodeIsMaster me = false ->
  slaveof me = Some m -> m <> myself s -> nodes s !! m = Some old ->
  exists s' me' old', clusterFailoverReplaceYourMaster e s = Some s' /\ slots_ok s' /\
    (forall j, slot_owner s' !! j = if decide (slot_owner s !! j = Some m) then Some (myself s) else slot_owner s !! j) /\
    nodes s' !! myself s = Some me' /\ nodeIsMaster me' = true /\ slaveof me' = None /\ slots me' = slots me ∪ slots old /\
    nodes s' !! m = Some old' /\ slots old' = ∅.
Proof.
  intros Ok Hme Hma Hsl Hne Hm.
  destruct (set_master_ok s me m old Hme Hma Hsl Hne Hm) as (s1 & me1 & old1 & E1 & S1 & My1 & Hme1 & Ma1 & Sl1 & Hm1).
  pose proof (same_slots_ok _ _ S1 Ok) as Ok1. rewrite <- My1 in Hme1.
  destruct (take_slots_ok m slot_range s1 me1 old1 Ok1 Hme1 Hm1) as (s2 & E2 & Ok2 & [My2 F2] & O2); [congruence| |].
  { intros j. by rewrite elem_of_slot_range. }
  destruct (F2 _ _ Hme1) as (me2 & Hme2 & Ls2 & _ & _ & Lm2), (F2 _ _ Hm1) as (old2 & Hm2 & _). rewrite <- My2 in Hme2.
  destruct (update_state_total e s2 me2 Ok2 Hme2) as (s3 & E3 & N3 & O3 & My3).
  destruct (pong_total e (clusterSaveConfig s3) me2) as (l & E4); [cbn; congruence|congruence|].
  assert (forall j, slot_owner s2 !! j = if decide (slot_owner s !! j = Some m) then Some (myself s) else slot_owner s !! j) as O.
  { intros j. rewrite O2, (proj1 S1), My1. destruct (decide (slot_owner s !! j = Some m)) as [Hj|Hj]; [|by rewrite decide_False by tauto].
    rewrite decide_True; [done|]. split; [|done]. apply (s_owner _ Ok) in Hj as (n & Hn & Hin). apply (s_range _ Ok m n j Hn) in Hin. by apply elem_of_slot_range. }
  exists (resetManualFailover (set_sndbuf l (clusterSaveConfig s3))), me2, old2. cbn [slot_owner nodes resetManualFailover set_mf set_sndbuf clusterSaveConfig set_disk set_todo].
  assert (slots_ok s3) as Ok3 by (apply (same_slots_ok s2); [split; [done|by rewrite N3]|done]).
  assert (forall y n j, nodes s2 !! y = Some n -> j ∈ slots n <-> slot_owner s2 !! j = Some y) as Hs2
    by (intros y n j Hn; rewrite (s_owner _ Ok2); split; [eauto|intros (n' & ? & ?); congruence]).
  assert (forall y n j, nodes s !! y = Some n -> j ∈ slots n <-> slot_owner s !! j = Some y) as Hs0
    by (intros y n j Hn; rewrite (s_owner _ Ok); split; [eauto|intros (n' & ? & ?); congruence]).
  rewrite My2, My1 in Hme2. split_and!; [by eapply replace_master_eq| |by rewrite O3|by rewrite N3|auto|congruence| |by rewrite N3|].
  - by destruct Ok3 as [X Y Z]; split.
  - apply set_eq. intros j. rewrite elem_of_union, (Hs2 _ _ j Hme2), (Hs0 _ _ j Hme), (Hs0 _ _ j Hm), O. case_decide; intuition congruence.
  - apply set_eq. intros j. rewrite (Hs2 _ _ j Hm2), O, elem_of_empty. case_decide; intuition congruence.
Qed.

(** A failed master 3 with the slot 7, and its replica 4. *)
Definition slots_demo : clusterState :=
  mkCluster 4 5 0 true 1
    (list_to_map [(3, mkNode (Z.lor CLUSTER_NODE_MASTER CLUSTER_NODE_FAIL) 1 ∅ 0 [4] None 0 0 false);
                  (4, mkNode (Z.lor CLUSTER_NODE_SLAVE CLUSTER_NODE_MYSELF) 0 ∅ 0 [] (Some 3) 0 0 true)])
    ∅ (mkElection 0 0 0 0 0) (mkManual 0 None (-1) false) 0 0 0 [] (5, 0).

Lemma slots_demo_ok : slots_ok slots_demo.
Proof.
  assert (forall x n, nodes slots_demo !! x = Some n -> slots n = ∅ /\ numslots n = 0) as H.
  { intros x n. cbn. rewrite lookup_insert_Some. intros [[_ <-]|[_ H]]; [done|]. apply lookup_insert_Some in H as [[_ <-]|[_ H]]; [done|].
    by rewrite lookup_empty in H. }
  split.
  - intros j x. cbn [slot_owner slots_demo]. rewrite lookup_empty. split; [done|]. intros (n & [Hn _]%H & Hj). rewrite Hn in Hj. set_solver.
  - intros x n [-> ->]%H. done.
  - intros x n j [Hn _]%H Hj. rewrite Hn in Hj. set_solver.
Qed.

Lemma failover_takes_slots_witness : exists s s', clusterAddSlot 3 7 slots_demo = Some (s, true) /\
  clusterFailoverReplaceYourMaster (mkEnv 9000 0 false 0 0 0 0 0 1000 0 10 false true false) s = Some s' /\ slot_owner s' !! 7 = Some 4.
Proof.
  destruct (add_slot_ok 3 7 slots_demo _ slots_demo_ok eq_refl) as (s & E & Ok & _ & O); [done|done|].
  assert (E' := E). vm_compute in E'. injection E' as <-.
  eapply (failover_takes_slots (mkEnv 9000 0 false 0 0 0 0 0 1000 0 10 false true false)) in Ok as (s' & me' & old' & H1 & H2 & H3 & _);
    [|reflexivity|reflexivity|reflexivity|done|reflexivity].
  eexists _, s'. split_and!; [exact E|exact H1|]. rewrite H3. reflexivity.
Defined.

End Slots.
