(* ===== verification/Sds.v ===== *)
(** * Dynamic strings (src/redis-stable/src/sds.c, sds.h)

    A string is a pointer [off] into a block of memory [blk]: before it a header
    with the length used, the length allocated and the type of the header, in
    fields as wide as the type says, and after it the bytes and a terminator.
    All accesses are bounds checked, so that [None] is an access outside the
    block or a failed assertion.

    The allocator is a parameter: a request for [n] bytes is given a block of
    [usable n], filled with [junk]; in the builds with jemalloc, [usable] is also
    what je_nallocx predicts.  Allocation succeeds, so sdstrynewlen is
    sdsnewlen.  The formatting with the printf of the C library is left out.

    Also the resizing of the query buffer of a client (server.c), the caller of
    [sdsResize]. *)
From stdpp Require Import base list.
From S2P Require Import Prelude.

Module Sds.

Record sds := mkSds { blk : list Z; off : Z }.

(** [s[i]], and the bytes from there. *)
Definition get (s : sds) (i : Z) : option Z := ld8 (blk s) (off s + i).
Definition load (s : sds) (i n : Z) : option (list Z) := ldn (blk s) (off s + i) n.
Definition store (s : sds) (i : Z) (bs : list Z) : option sds := b ← stn (blk s) (off s + i) bs; Some (mkSds b (off s)).
Definition set (s : sds) (i v : Z) : option sds := store s i [v].

(** ** Headers *)

Definition SDS_TYPE_5 : Z := 0.
Definition SDS_TYPE_8 : Z := 1.
Definition SDS_TYPE_16 : Z := 2.
Definition SDS_TYPE_32 : Z := 3.
Definition SDS_TYPE_64 : Z := 4.
Definition SDS_TYPE_MASK : Z := 7.
Definition SDS_TYPE_BITS : Z := 3.
Definition SDS_MAX_PREALLOC : Z := 1024 * 1024.
Definition SDS_TYPE_5_LEN (f : Z) : Z := Z.shiftr f SDS_TYPE_BITS.

(** The width in bytes of the fields of a header, but for [SDS_TYPE_5]. *)
Definition field_width (type : Z) : option nat :=
  if type =? SDS_TYPE_8 then Some 1%nat else if type =? SDS_TYPE_16 then Some 2%nat
  else if type =? SDS_TYPE_32 then Some 4%nat else if type =? SDS_TYPE_64 then Some 8%nat else None.

(** The fields [len] and [alloc] of SDS_HDR(T,s). *)
Definition hdr_len (w : nat) (s : sds) : option Z := b ← load s (- (2 * Z.of_nat w + 1)) (Z.of_nat w); Some (le_dec b).
Definition hdr_alloc (w : nat) (s : sds) : option Z := b ← load s (- (Z.of_nat w + 1)) (Z.of_nat w); Some (le_dec b).
Definition set_hdr_len (w : nat) (v : Z) (s : sds) : option sds := store s (- (2 * Z.of_nat w + 1)) (le_enc w v).
Definition set_hdr_alloc (w : nat) (v : Z) (s : sds) : option sds := store s (- (Z.of_nat w + 1)) (le_enc w v).

Definition type_of (flags : Z) : Z := Z.land flags SDS_TYPE_MASK.

Definition sdslen (s : sds) : option Z :=
  flags ← get s (-1);
  if type_of flags =? SDS_TYPE_5 then Some (SDS_TYPE_5_LEN flags)
  else match field_width (type_of flags) with Some w => hdr_len w s | None => Some 0 end.

(** The difference of two 32-bit fields wraps to 32 bits, those of narrower
    fields are computed in an int. *)
Definition field_sub (w : nat) (a b : Z) : Z := if (w =? 4)%nat then u32 (a - b) else u64 (a - b).

Definition sdsavail (s : sds) : option Z :=
  flags ← get s (-1);
  if type_of flags =? SDS_TYPE_5 then Some 0
  else match field_width (type_of flags) with
       | Some w => a ← hdr_alloc w s; l ← hdr_len w s; Some (field_sub w a l)
       | None => Some 0
       end.

Definition sdssetlen (s : sds) (newlen : Z) : option sds :=
  flags ← get s (-1);
  if type_of flags =? SDS_TYPE_5 then set s (-1) (u8 (Z.lor SDS_TYPE_5 (Z.shiftl newlen SDS_TYPE_BITS)))
  else match field_width (type_of flags) with Some w => set_hdr_len w newlen s | None => Some s end.

Definition sdsinclen (s : sds) (inc : Z) : option sds :=
  flags ← get s (-1);
  if type_of flags =? SDS_TYPE_5 then set s (-1) (u8 (Z.lor SDS_TYPE_5 (Z.shiftl (u8 (SDS_TYPE_5_LEN flags + inc)) SDS_TYPE_BITS)))
  else match field_width (type_of flags) with Some w => l ← hdr_len w s; set_hdr_len w (l + inc) s | None => Some s end.

Definition sdsalloc (s : sds) : option Z :=
  flags ← get s (-1);
  if type_of flags =? SDS_TYPE_5 then Some (SDS_TYPE_5_LEN flags)
  else match field_width (type_of flags) with Some w => hdr_alloc w s | None => Some 0 end.

Definition sdssetalloc (s : sds) (newlen : Z) : option sds :=
  flags ← get s (-1);
  if type_of flags =? SDS_TYPE_5 then Some s
  else match field_width (type_of flags) with Some w => set_hdr_alloc w newlen s | None => Some s end.

Definition sdsHdrSize (type : Z) : Z :=
  let t := type_of type in
  if t =? SDS_TYPE_5 then 1 else if t =? SDS_TYPE_8 then 3 else if t =? SDS_TYPE_16 then 5
  else if t =? SDS_TYPE_32 then 9 else if t =? SDS_TYPE_64 then 17 else 0.

Definition sdsReqType (string_size : Z) : Z :=
  if string_size <? Z.shiftl 1 5 then SDS_TYPE_5
  else if string_size <? Z.shiftl 1 8 then SDS_TYPE_8
  else if string_size <? Z.shiftl 1 16 then SDS_TYPE_16
  else if string_size <? Z.shiftl 1 32 then SDS_TYPE_32
  else SDS_TYPE_64.

Definition sdsTypeMaxSize (type : Z) : Z :=
  if type =? SDS_TYPE_5 then Z.shiftl 1 5 - 1
  else if type =? SDS_TYPE_8 then Z.shiftl 1 8 - 1
  else if type =? SDS_TYPE_16 then Z.shiftl 1 16 - 1
  else if type =? SDS_TYPE_32 then Z.shiftl 1 32 - 1
  else u64 (-1).

Definition assert_ (b : bool) : option unit := if b then Some tt else None.

(** What a new string is made from: bytes, NULL, or SDS_NOINIT. *)
Inductive init := Init (bs : list Z) | Zeros | NoInit.

Section code.

Context (usable : Z -> Z) (junk : Z).
(** Whether the build has jemalloc. *)
Context (jemalloc : bool).

Definition s_malloc (n : Z) : list Z := replicate (Z.to_nat (usable n)) junk.
Definition s_realloc (sh : list Z) (n : Z) : list Z := realloc junk sh (usable n).

(** What is left of a block after the header and the terminator, as far as
    the type of the header can tell. *)
Definition cap_usable (n hdrlen type : Z) : Z :=
  let u := u64 (n - hdrlen - 1) in if sdsTypeMaxSize type <? u then sdsTypeMaxSize type else u.

(** ** Creation *)

Definition _sdsnewlen (i : init) (initlen : Z) : option sds :=
  let type := sdsReqType initlen in
  let type := if (type =? SDS_TYPE_5) && (initlen =? 0) then SDS_TYPE_8 else type in
  let hdrlen := sdsHdrSize type in
  _ ← assert_ (initlen <? u64 (initlen + hdrlen + 1));
  let sh := s_malloc (u64 (hdrlen + initlen + 1)) in
  sh ← (match i with Zeros => stn sh 0 (replicate (Z.to_nat (u64 (hdrlen + initlen + 1))) 0) | _ => Some sh end);
  let s := mkSds sh hdrlen in
  let cap := cap_usable (zlen sh) hdrlen type in
  s ← (match field_width type with
       | None => set s (-1) (u8 (Z.lor type (Z.shiftl initlen SDS_TYPE_BITS)))
       | Some w => s ← set_hdr_len w initlen s; s ← set_hdr_alloc w cap s; set s (-1) type
       end);
  s ← (match i with
       | Init bs => if initlen =? 0 then Some s else bs ← ldn bs 0 initlen; store s 0 bs
       | _ => Some s
       end);
  set s initlen 0.

Definition sdsnewlen (i : init) (initlen : Z) : option sds := _sdsnewlen i initlen.
Definition sdsempty : option sds := sdsnewlen (Init []) 0.
(** From a C string, or NULL. *)
Definition sdsnew (i : option (list Z)) : option sds :=
  match i with Some bs => sdsnewlen (Init bs) (zlen bs) | None => sdsnewlen Zeros 0 end.
Definition sdsdup (s : sds) : option sds := l ← sdslen s; bs ← load s 0 l; sdsnewlen (Init bs) l.

(** strlen: the bytes before the first terminator. *)
Fixpoint strlen_from (bs : list Z) : option Z :=
  match bs with [] => None | b :: bs => if b =? 0 then Some 0 else n ← strlen_from bs; Some (n + 1) end.
Definition strlen (s : sds) : option Z := strlen_from (drop (Z.to_nat (off s)) (blk s)).

Definition sdsupdatelen (s : sds) : option sds := n ← strlen s; sdssetlen s n.
Definition sdsclear (s : sds) : option sds := s ← sdssetlen s 0; set s 0 0.

(** ** Growth *)

Definition _sdsMakeRoomFor (s : sds) (addlen : Z) (greedy : bool) : option sds :=
  avail ← sdsavail s;
  flags ← get s (-1);
  let oldtype := type_of flags in
  if addlen <=? avail then Some s else
  len ← sdslen s;
  let reqlen := u64 (len + addlen) in
  _ ← assert_ (len <? reqlen);
  let newlen := if greedy then u64 (if reqlen <? SDS_MAX_PREALLOC then reqlen * 2 else reqlen + SDS_MAX_PREALLOC) else reqlen in
  let type := sdsReqType newlen in
  let type := if type =? SDS_TYPE_5 then SDS_TYPE_8 else type in
  let hdrlen := sdsHdrSize type in
  _ ← assert_ (reqlen <? u64 (hdrlen + newlen + 1));
  s ← (if oldtype =? type then
         Some (mkSds (s_realloc (blk s) (u64 (hdrlen + newlen + 1))) hdrlen)
       else
         bs ← load s 0 (u64 (len + 1));
         s ← store (mkSds (s_malloc (u64 (hdrlen + newlen + 1))) hdrlen) 0 bs;
         s ← set s (-1) type;
         sdssetlen s len);
  sdssetalloc s (cap_usable (zlen (blk s)) hdrlen type).

Definition sdsMakeRoomFor (s : sds) (addlen : Z) : option sds := _sdsMakeRoomFor s addlen true.
Definition sdsMakeRoomForNonGreedy (s : sds) (addlen : Z) : option sds := _sdsMakeRoomFor s addlen false.

Definition sdsResize (s : sds) (size : Z) (would_regrow : bool) : option sds :=
  flags ← get s (-1);
  let oldtype := type_of flags in
  let oldhdrlen := sdsHdrSize oldtype in
  len ← sdslen s;
  a ← sdsalloc s;
  if a =? size then Some s else
  let len := if size <? len then size else len in
  let type := sdsReqType size in
  let type := if would_regrow && (type =? SDS_TYPE_5) then SDS_TYPE_8 else type in
  let hdrlen := sdsHdrSize type in
  let use_realloc := (oldtype =? type) || ((type <? oldtype) && (SDS_TYPE_8 <? type)) in
  let newlen := u64 (if use_realloc then oldhdrlen + size + 1 else hdrlen + size + 1) in
  let alloc_already_optimal := jemalloc && (usable newlen =? zlen (blk s)) in
  s ← (if use_realloc && negb alloc_already_optimal then Some (mkSds (s_realloc (blk s) newlen) oldhdrlen)
       else if negb alloc_already_optimal then
         bs ← load s 0 len;
         s ← store (mkSds (s_malloc newlen) hdrlen) 0 bs;
         set s (-1) type
       else Some s);
  s ← set s len 0;
  s ← sdssetlen s len;
  sdssetalloc s size.

Definition sdsRemoveFreeSpace (s : sds) (would_regrow : bool) : option sds := l ← sdslen s; sdsResize s l would_regrow.

Definition sdsAllocSize (s : sds) : option Z := a ← sdsalloc s; flags ← get s (-1); Some (u64 (sdsHdrSize flags + a + 1)).

Definition sdsIncrLen (s : sds) (incr : Z) : option sds :=
  flags ← get s (-1);
  if type_of flags =? SDS_TYPE_5 then
    let oldlen := SDS_TYPE_5_LEN flags in
    _ ← assert_ (((0 <? incr) && (oldlen + incr <? 32)) || ((incr <? 0) && (u32 (- incr) <=? oldlen)));
    s ← set s (-1) (u8 (Z.lor SDS_TYPE_5 (Z.shiftl (oldlen + incr) SDS_TYPE_BITS)));
    set s (u64 (oldlen + incr)) 0
  else
    match field_width (type_of flags) with
    | None => set s 0 0
    | Some w =>
        a ← hdr_alloc w s; l ← hdr_len w s;
        _ ← assert_ (((0 <=? incr) &&
                        (if (w =? 8)%nat then u64 incr <=? u64 (a - l) else if (w =? 4)%nat then u32 incr <=? u32 (a - l) else incr <=? a - l)) ||
                     ((incr <? 0) && ((if (w =? 8)%nat then u64 (- incr) else u32 (- incr)) <=? l)));
        let len := (l + incr) mod 256 ^ Z.of_nat w in
        s ← set_hdr_len w len s;
        set s len 0
    end.

Definition sdsgrowzero (s : sds) (len : Z) : option sds :=
  curlen ← sdslen s;
  if len <=? curlen then Some s else
  s ← sdsMakeRoomFor s (u64 (len - curlen));
  s ← store s curlen (replicate (Z.to_nat (u64 (len - curlen + 1))) 0);
  sdssetlen s len.

(** ** Concatenation and copy *)

Definition sdscatlen (s : sds) (t : list Z) : option sds :=
  curlen ← sdslen s;
  s ← sdsMakeRoomFor s (zlen t);
  s ← store s curlen t;
  s ← sdssetlen s (u64 (curlen + zlen t));
  set s (u64 (curlen + zlen t)) 0.

(** Of C strings and of the bytes of another string. *)
Definition sdscat (s : sds) (t : list Z) : option sds := sdscatlen s t.
Definition sdscatsds (s t : sds) : option sds := l ← sdslen t; bs ← load t 0 l; sdscatlen s bs.

Definition sdscpylen (s : sds) (t : list Z) : option sds :=
  a ← sdsalloc s;
  s ← (if a <? zlen t then l ← sdslen s; sdsMakeRoomFor s (u64 (zlen t - l)) else Some s);
  s ← store s 0 t;
  s ← set s (zlen t) 0;
  sdssetlen s (zlen t).

Definition sdscpy (s : sds) (t : list Z) : option sds := sdscpylen s t.

(** ** Numbers *)

Definition SDS_LLSTR_SIZE : Z := 21.

(** The digits of [v], the last one first, from [p] on. *)
Fixpoint put_digits (fuel : nat) (buf : list Z) (p v : Z) : option (list Z * Z) :=
  match fuel with
  | O => None
  | S fuel =>
      buf ← st8 buf p (48 + v mod 10);
      if v / 10 =? 0 then Some (buf, p + 1) else put_digits fuel buf (p + 1) (v / 10)
  end.

(** Reverse the bytes between two positions. *)
Fixpoint reverse_bytes (fuel : nat) (buf : list Z) (s p : Z) : option (list Z) :=
  if s <? p then
    match fuel with
    | O => None
    | S fuel =>
        aux ← ld8 buf s; c ← ld8 buf p;
        buf ← st8 buf s c;
        buf ← st8 buf p aux;
        reverse_bytes fuel buf (s + 1) (p - 1)
    end
  else Some buf.

(** Returns the length and the buffer; [SDS_LLSTR_SIZE] iterations are enough
    for 64 bits. *)
Definition sdsll2str (buf : list Z) (value : Z) : option (Z * list Z) :=
  let v := if value <? 0 then (if value =? INT64_MIN then u64 (INT64_MAX + 1) else u64 (- value)) else value in
  '(buf, p) ← put_digits (Z.to_nat SDS_LLSTR_SIZE) buf 0 v;
  '(buf, p) ← (if value <? 0 then buf ← st8 buf p 45; Some (buf, p + 1) else Some (buf, p));
  buf ← st8 buf p 0;
  buf ← reverse_bytes (Z.to_nat SDS_LLSTR_SIZE) buf 0 (p - 1);
  Some (p, buf).

Definition sdsull2str (buf : list Z) (v : Z) : option (Z * list Z) :=
  '(buf, p) ← put_digits (Z.to_nat SDS_LLSTR_SIZE) buf 0 v;
  buf ← st8 buf p 0;
  buf ← reverse_bytes (Z.to_nat SDS_LLSTR_SIZE) buf 0 (p - 1);
  Some (p, buf).

(** The array [buf] of the callers. *)
Definition llstr_buf : list Z := replicate (Z.to_nat SDS_LLSTR_SIZE) junk.

Definition sdsfromlonglong (value : Z) : option sds := '(len, buf) ← sdsll2str llstr_buf value; sdsnewlen (Init buf) len.

(** ** Formatting *)

(** The variable arguments: a C string, an sds, and integers of the four types. *)
Inductive fmt_arg := ArgStr (bs : list Z) | ArgSds (t : sds) | ArgInt (v : Z) | ArgLL (v : Z) | ArgUint (v : Z) | ArgULL (v : Z).

(** Append bytes at [i]: make room for them, copy them, add their length. *)
Definition fmt_bytes (s : sds) (i : Z) (bs : list Z) : option (sds * Z) :=
  avail ← sdsavail s;
  s ← (if avail <? zlen bs then sdsMakeRoomFor s (zlen bs) else Some s);
  s ← store s i bs;
  s ← sdsinclen s (zlen bs);
  Some (s, i + zlen bs).
Definition fmt_char (s : sds) (i c : Z) : option (sds * Z) := s ← set s i c; s ← sdsinclen s 1; Some (s, i + 1).

(** The bytes of an argument for the character [next] of its specifier;
    [None] when the argument has another type. *)
Definition fmt_value (next : Z) (a : fmt_arg) : option (list Z) :=
  let num (r : option (Z * list Z)) : option (list Z) := '(l, buf) ← r; ldn buf 0 l in
  match a with
  | ArgStr bs => if next =? 115 then Some bs else None
  | ArgSds t => if next =? 83 then l ← sdslen t; load t 0 l else None
  | ArgInt v => if next =? 105 then num (sdsll2str llstr_buf v) else None
  | ArgLL v => if next =? 73 then num (sdsll2str llstr_buf v) else None
  | ArgUint v => if next =? 117 then num (sdsull2str llstr_buf v) else None
  | ArgULL v => if next =? 85 then num (sdsull2str llstr_buf v) else None
  end.

Definition takes_arg (next : Z) : bool :=
  (next =? 115) || (next =? 83) || (next =? 105) || (next =? 73) || (next =? 117) || (next =? 85).

Fixpoint fmt_loop (f : list Z) (ap : list fmt_arg) (s : sds) (i : Z) : option (sds * Z) :=
  match f with
  | [] => Some (s, i)
  | c :: f =>
      avail ← sdsavail s;
      s ← (if avail =? 0 then sdsMakeRoomFor s 1 else Some s);
      if c =? 37 then
        match f with
        | [] => Some (s, i)
        | next :: f =>
            if takes_arg next then
              match ap with
              | [] => None
              | a :: ap => bs ← fmt_value next a; '(s, i) ← fmt_bytes s i bs; fmt_loop f ap s i
              end
            else '(s, i) ← fmt_char s i next; fmt_loop f ap s i
        end
      else '(s, i) ← fmt_char s i c; fmt_loop f ap s i
  end.

(** [fmt] is a C string: it has no null byte. *)
Definition sdscatfmt (s : sds) (fmt : list Z) (ap : list fmt_arg) : option sds :=
  initlen ← sdslen s;
  s ← sdsMakeRoomFor s (u64 (zlen fmt * 2));
  '(s, i) ← fmt_loop fmt ap s initlen;
  set s i 0.

(** ** Substrings *)

(** strchr finds the terminator of the set too. *)
Definition strchr (cset : list Z) (c : Z) : bool := (c =? 0) || existsb (Z.eqb c) cset.

Fixpoint trim_left (fuel : nat) (s : sds) (cset : list Z) (sp end_ : Z) : option Z :=
  if sp <=? end_ then
    c ← get s sp;
    if strchr cset c then match fuel with O => None | S fuel => trim_left fuel s cset (sp + 1) end_ end else Some sp
  else Some sp.
Fixpoint trim_right (fuel : nat) (s : sds) (cset : list Z) (sp ep : Z) : option Z :=
  if sp <? ep then
    c ← get s ep;
    if strchr cset c then match fuel with O => None | S fuel => trim_right fuel s cset sp (ep - 1) end else Some ep
  else Some ep.

Definition move (s : sds) (dst src n : Z) : option sds := b ← memmove (blk s) (off s + dst) (off s + src) n; Some (mkSds b (off s)).

Definition sdstrim (s : sds) (cset : list Z) : option sds :=
  l ← sdslen s;
  let end_ := l - 1 in
  sp ← trim_left (Z.to_nat l) s cset 0 end_;
  ep ← trim_right (Z.to_nat l) s cset sp end_;
  let len := ep - sp + 1 in
  s ← (if 0 =? sp then Some s else move s 0 sp len);
  s ← set s len 0;
  sdssetlen s len.

Definition sdssubstr (s : sds) (start len : Z) : option sds :=
  oldlen ← sdslen s;
  let '(start, len) := if oldlen <=? start then (0, 0) else (start, len) in
  let len := if u64 (oldlen - start) <? len then u64 (oldlen - start) else len in
  s ← (if len =? 0 then Some s else move s 0 start len);
  s ← set s len 0;
  sdssetlen s len.

Definition sdsrange (s : sds) (start end_ : Z) : option sds :=
  len ← sdslen s;
  if len =? 0 then Some s else
  let start := if start <? 0 then s64 (len + start) else start in
  let end_ := if end_ <? 0 then s64 (len + end_) else end_ in
  let newlen := if end_ <? start then 0 else u64 (end_ - start + 1) in
  sdssubstr s (u64 start) newlen.

(** ** Characters *)

Definition tolower (c : Z) : Z := if (65 <=? c) && (c <=? 90) then c + 32 else c.
Definition toupper (c : Z) : Z := if (97 <=? c) && (c <=? 122) then c - 32 else c.

(** A loop over the characters of the string from [j] on. *)
Fixpoint map_loop (n : nat) (f : Z -> Z) (j : Z) (s : sds) : option sds :=
  match n with
  | O => Some s
  | S n => c ← get s j; s ← set s j (f c); map_loop n f (j + 1) s
  end.
Definition sdstolower (s : sds) : option sds := len ← sdslen s; map_loop (Z.to_nat len) tolower 0 s.
Definition sdstoupper (s : sds) : option sds := len ← sdslen s; map_loop (Z.to_nat len) toupper 0 s.

(** The character that replaces [c]; [from] and [to] have [setlen] bytes. *)
Fixpoint mapped (from to : list Z) (c : Z) : Z :=
  match from, to with
  | x :: from, y :: to => if c =? x then y else mapped from to c
  | _, _ => c
  end.
Definition sdsmapchars (s : sds) (from to : list Z) : option sds := l ← sdslen s; map_loop (Z.to_nat l) (mapped from to) 0 s.

(** ** Splitting and joining *)

(** The double of an int; an overflow is undefined. *)
Definition int_double (n : Z) : option Z := if n * 2 <=? 2 ^ 31 - 1 then Some (n * 2) else None.

(** The tokens are an array of [slots] entries. *)
Fixpoint split_loop (fuel : nat) (s sep : list Z) (j start slots : Z) (tokens : list sds) : option (Z * list sds * Z) :=
  if j <? zlen s - (zlen sep - 1) then
    match fuel with
    | O => None
    | S fuel =>
        slots ← (if slots <? zlen tokens + 2 then int_double slots else Some slots);
        b ← ldn s j (zlen sep);
        if bool_decide (b = sep) then
          _ ← assert_ (zlen tokens <? slots);
          bs ← ldn s start (j - start);
          t ← sdsnewlen (Init bs) (j - start);
          split_loop fuel s sep (j + zlen sep - 1 + 1) (j + zlen sep) slots (tokens ++ [t])
        else split_loop fuel s sep (j + 1) start slots tokens
    end
  else Some (start, tokens, slots).

(** The inner [None] is NULL. *)
Definition sdssplitlen (s sep : list Z) : option (option (list sds)) :=
  if (zlen sep <? 1) || (zlen s <=? 0) then Some None else
  '(start, tokens, slots) ← split_loop (length s) s sep 0 0 5 [];
  _ ← assert_ (zlen tokens <? slots);
  bs ← ldn s start (zlen s - start);
  t ← sdsnewlen (Init bs) (zlen s - start);
  Some (Some (tokens ++ [t])).

Fixpoint join_loop (argv : list (list Z)) (sep : list Z) (join : sds) : option sds :=
  match argv with
  | [] => Some join
  | a :: argv =>
      join ← sdscatlen join a;
      join ← (match argv with [] => Some join | _ => sdscatlen join sep end);
      join_loop argv sep join
  end.
Definition sdsjoin (argv : list (list Z)) (sep : list Z) : option sds := join ← sdsempty; join_loop argv sep join.

(** The bytes of each string of the array. *)
Fixpoint all_bytes (argv : list sds) : option (list (list Z)) :=
  match argv with [] => Some [] | t :: argv => l ← sdslen t; bs ← load t 0 l; r ← all_bytes argv; Some (bs :: r) end.
Definition sdsjoinsds (argv : list sds) (sep : list Z) : option sds := args ← all_bytes argv; join ← sdsempty; join_loop args sep join.

(** ** The query buffer of a client *)

Definition PROTO_RESIZE_THRESHOLD : Z := 1024 * 32.

(** The fields of a client that the resizing reads and writes. *)
Record client := mkClient { querybuf : sds; querybuf_peak : Z; bulklen : Z; lastinteraction : Z }.

(** Called by the cron of the clients, at the time [unixtime]. *)
Definition clientsCronResizeQueryBuffer (unixtime : Z) (c : client) : option client :=
  querybuf_size ← sdsalloc (querybuf c);
  let idletime := unixtime - lastinteraction c in
  avail ← sdsavail (querybuf c);
  buf ← (if 1024 * 4 <? avail then
           if 2 <? idletime then sdsRemoveFreeSpace (querybuf c) true
           else if (PROTO_RESIZE_THRESHOLD <? querybuf_size) && (querybuf_peak c <? querybuf_size / 2) then
             l ← sdslen (querybuf c);
             let resize := if l <? querybuf_peak c then querybuf_peak c else l in
             let resize := if negb (bulklen c =? -1) && (resize <? u64 (bulklen c)) then bulklen c else resize in
             sdsResize (querybuf c) resize true
           else Some (querybuf c)
         else Some (querybuf c));
  l ← sdslen buf;
  let peak := if negb (bulklen c =? -1) && (l <? u64 (bulklen c)) then bulklen c else l in
  Some (mkClient buf peak (bulklen c) (lastinteraction c)).


End code.

End Sds.
