(* ===== verification/SdsOps.v ===== *)
(** * The operations of dynamic strings on their contents

    What a block that holds a string looks like ([form], [holds]), and what the
    operations of Sds.v do to the bytes. *)
From stdpp Require Import base list.
From S2P Require Import Prelude Util Sds.

Module SdsOps.
Import Sds.

(** ** Headers *)

Definition ty (t : Z) : Prop := t = 0 \/ t = 1 \/ t = 2 \/ t = 3 \/ t = 4.

(** The fields of a type that has them. *)
Record wide (t : Z) (w : nat) : Prop := {
  w_field : field_width t = Some w;
  w_hdr : sdsHdrSize t = 2 * Z.of_nat w + 1;
  w_max : sdsTypeMaxSize t = 256 ^ Z.of_nat w - 1;
  w_type : type_of t = t;
  w_t : 1 <= t <= 4;
  w_w : (w = 1 \/ w = 2 \/ w = 4 \/ w = 8)%nat }.

Lemma ty_cases t : ty t -> t = 0 \/ exists w, wide t w.
Proof.
  intros [->|[->|[->|[->| ->]]]]; [by left| | | |]; right; [exists 1%nat|exists 2%nat|exists 4%nat|exists 8%nat]; (split; [done..|lia|lia]).
Qed.

Lemma ty_max t : ty t -> 31 <= sdsTypeMaxSize t < 2 ^ 64.
Proof. intros [->|[->|[->|[->| ->]]]]; cbv; split; congruence. Qed.
Lemma ty_hdr t : ty t -> 1 <= sdsHdrSize t <= 17.
Proof. intros [->|[->|[->|[->| ->]]]]; cbv; split; congruence. Qed.
Lemma ty_hdr_flags t f : type_of f = t -> sdsHdrSize f = sdsHdrSize t.
Proof. intros <-. unfold sdsHdrSize, type_of. by rewrite <- Z.land_assoc, Z.land_diag. Qed.

Lemma req_type n : 0 <= n < 2 ^ 64 -> ty (sdsReqType n) /\ n <= sdsTypeMaxSize (sdsReqType n).
Proof.
  intros Hn. unfold sdsReqType, ty. change (Z.shiftl 1 5) with 32. change (Z.shiftl 1 8) with 256. change (Z.shiftl 1 16) with 65536. change (Z.shiftl 1 32) with (2 ^ 32).
  repeat case_if E; (split; [auto|]);
    [change (sdsTypeMaxSize SDS_TYPE_5) with 31|change (sdsTypeMaxSize SDS_TYPE_8) with 255|change (sdsTypeMaxSize SDS_TYPE_16) with 65535
    |change (sdsTypeMaxSize SDS_TYPE_32) with (2 ^ 32 - 1)|change (sdsTypeMaxSize SDS_TYPE_64) with (2 ^ 64 - 1)]; lia.
Qed.

(** The bytes of a header. *)
Definition hdr (t n a : Z) : list Z := match field_width t with Some w => le_enc w n ++ le_enc w a ++ [t] | None => [n * 8] end.

Lemma zlen_hdr t n a : ty t -> zlen (hdr t n a) = sdsHdrSize t.
Proof.
  intros [->|(w & W)]%ty_cases; [done|]. unfold hdr. rewrite (w_field _ _ W), (w_hdr _ _ W), !zlen_app, !zlen_le_enc. change (zlen [t]) with 1. lia.
Qed.

Lemma five_type n : type_of (n * 8) = 0.
Proof.
  unfold type_of. change SDS_TYPE_MASK with (Z.ones 3). rewrite Z.land_ones by lia. change (2 ^ 3) with 8. apply Z.mod_mul. lia.
Qed.
Lemma five_len n : SDS_TYPE_5_LEN (n * 8) = n.
Proof. unfold SDS_TYPE_5_LEN, SDS_TYPE_BITS. rewrite Z.shiftr_div_pow2 by lia. change (2 ^ 3) with 8. apply Z.div_mul. lia. Qed.
Lemma five_byte n : 0 <= n <= 31 -> u8 (Z.lor SDS_TYPE_5 (Z.shiftl n SDS_TYPE_BITS)) = n * 8.
Proof.
  intros Hn. unfold SDS_TYPE_5, SDS_TYPE_BITS. rewrite Z.lor_0_l, Z.shiftl_mul_pow2 by lia. change (2 ^ 3) with 8. apply wrap_small. change (2 ^ 8) with 256. lia.
Qed.

(** ** Blocks with a header *)

Lemma stn_prefix H X i bs X' : stn X i bs = Some X' -> stn (H ++ X) (zlen H + i) bs = Some (H ++ X').
Proof.
  intros (H1 & H2 & ->)%stn_Some. destruct (split_at X i) as (A & Y & -> & HA); [pose proof (zlen_nonneg bs); lia|]. rewrite zlen_app in H2.
  destruct (split_at Y (zlen bs)) as (B & C & -> & HB); [pose proof (zlen_nonneg bs); lia|].
  rewrite (stn_at _ (H ++ A) B C) by (rewrite ?zlen_app, <- ?app_assoc; done || lia). f_equal. rewrite <- !app_assoc. f_equal. unfold zlen in *.
  rewrite take_app_length' by lia. f_equal. f_equal. rewrite app_assoc, drop_app_length'; [done|]. rewrite length_app. lia.
Qed.

(** A header of the type [t], with the fields [J], and what follows. *)
Record pre (s : sds) (t f : Z) (J X : list Z) : Prop := {
  p_ty : ty t;
  p_off : off s = sdsHdrSize t;
  p_blk : blk s = (J ++ [f]) ++ X;
  p_hdr : zlen J + 1 = sdsHdrSize t;
  p_flags : type_of f = t;
  p_wide : t <> 0 -> f = t }.

(** The header says [n] and [a], and [X] follows. *)
Record form (s : sds) (t n a : Z) (X : list Z) : Prop := {
  f_ty : ty t;
  f_off : off s = sdsHdrSize t;
  f_blk : blk s = hdr t n a ++ X;
  f_len : 0 <= n <= sdsTypeMaxSize t;
  f_alloc : 0 <= a <= sdsTypeMaxSize t;
  f_five : t = 0 -> a = n }.

Lemma ld8_form s t n a X i c : form s t n a X -> 0 <= i -> ld8 X i = Some c -> get s i = Some c.
Proof.
  intros F Hi Hc. unfold get. rewrite (f_off _ _ _ _ _ F), (f_blk _ _ _ _ _ F). apply ld8_ldn. apply ld8_ldn in Hc. apply ldn_split in Hc as (A & C & -> & HA & _).
  rewrite app_assoc. apply (ldn_at' _ (hdr t n a ++ A) [c] C); [by rewrite <- !app_assoc|rewrite zlen_app, (zlen_hdr t n a (f_ty _ _ _ _ _ F)); lia|done].
Qed.

Lemma load_form s t n a X i k bs : form s t n a X -> ldn X i k = Some bs -> load s i k = Some bs.
Proof.
  intros F H. unfold load. rewrite (f_off _ _ _ _ _ F), (f_blk _ _ _ _ _ F). apply ldn_split in H as (A & C & -> & HA & Hk).
  apply (ldn_at' _ (hdr t n a ++ A) bs C); [by rewrite <- !app_assoc|rewrite zlen_app, (zlen_hdr t n a (f_ty _ _ _ _ _ F)); lia|lia].
Qed.

Lemma store_form s t n a X i bs X' : form s t n a X -> stn X i bs = Some X' -> exists s', store s i bs = Some s' /\ form s' t n a X'.
Proof.
  intros F H. unfold store. rewrite (f_off _ _ _ _ _ F), (f_blk _ _ _ _ _ F). pose proof (zlen_hdr t n a (f_ty _ _ _ _ _ F)) as Hh.
  rewrite <- Hh, (stn_prefix _ _ _ _ _ H).
  bnd. eexists. split; [done|]. destruct F. by split.
Qed.

Lemma form_pre s t n a X : form s t n a X -> exists f J, pre s t f J X /\ (t = 0 -> f = n * 8) /\ (forall w, wide t w -> J = le_enc w n ++ le_enc w a).
Proof.
  intros [T O B _ _ _]. destruct (ty_cases t T) as [->|(w & W)].
  - exists (n * 8), []. split_and!; [|done|intros w W; pose proof (w_t _ _ W); lia]. split; try done. apply five_type.
  - pose proof (w_t _ _ W). unfold hdr in B. rewrite (w_field _ _ W) in B. exists t, (le_enc w n ++ le_enc w a). split_and!; [|lia|].
    + split; try done; [by rewrite B, <- !app_assoc| |apply W]. rewrite zlen_app, !zlen_le_enc, (w_hdr _ _ W). lia.
    + intros w' W'. pose proof (w_field _ _ W). pose proof (w_field _ _ W'). congruence.
Qed.

Lemma flags_pre s t f J X : pre s t f J X -> get s (-1) = Some f.
Proof. intros [T O B H _ _]. unfold get. rewrite O, B, <- H. apply (ld8_at _ J f X); [by rewrite <- app_assoc|lia]. Qed.

Lemma form_flags s t n a X : form s t n a X -> exists f, get s (-1) = Some f /\ type_of f = t /\ (t = 0 -> f = n * 8).
Proof. intros F. destruct (form_pre _ _ _ _ _ F) as (f & J & P & H & _). exists f. split_and!; [by eapply flags_pre|apply P|done]. Qed.

(** Overwriting a part of the fields. *)
Lemma store_pre s t f J X A B C B' i : pre s t f J X -> J = A ++ B ++ C -> zlen B' = zlen B -> i = zlen A - sdsHdrSize t -> exists s', store s i B' = Some s' /\ pre s' t f (A ++ B' ++ C) X.
Proof.
  intros [T O E H F1 F2] -> HB ->. unfold store. rewrite O, E.
  rewrite (stn_at _ A B (C ++ [f] ++ X)) by (rewrite <- ?app_assoc; done || lia). bnd. eexists. split; [done|].
  split; try done; [by rewrite <- !app_assoc|]. cbn in H |- *. rewrite !zlen_app in *. lia.
Qed.
Lemma store_flags s t f J X t' f' : pre s t f J X -> ty t' -> sdsHdrSize t' = sdsHdrSize t -> type_of f' = t' -> (t' <> 0 -> f' = t') -> exists s', set s (-1) f' = Some s' /\ pre s' t' f' J X.
Proof.
  intros [T O E H F1 F2] T' Hh Hf Hw. unfold set, store. rewrite O, E. rewrite (stn_at _ J [f] X) by (rewrite <- ?app_assoc; done || lia). bnd. eexists. split; [done|].
  split; try done; [by rewrite <- !app_assoc|lia].
Qed.
Lemma store_pre_data s t f J X i bs X' : pre s t f J X -> stn X i bs = Some X' -> exists s', store s i bs = Some s' /\ pre s' t f J X'.
Proof.
  intros [T O E H F1 F2] Hx. unfold store. rewrite O, E. assert (zlen (J ++ [f]) = sdsHdrSize t) as Hl by (rewrite zlen_app; done).
  rewrite <- Hl. rewrite (stn_prefix _ _ _ _ _ Hx). bnd. eexists. split; [done|]. by split.
Qed.

(** ** The fields *)

Lemma five_or_wide t : ty t -> (t = 0 /\ (t =? SDS_TYPE_5) = true) \/ exists w, wide t w /\ (t =? SDS_TYPE_5) = false.
Proof. intros [->|(w & W)]%ty_cases; [by left|right]. exists w. split; [done|]. pose proof (w_t _ _ W). unfold SDS_TYPE_5. lia. Qed.

Lemma setlen_pre s t f J X n : pre s t f J X -> 0 <= n <= sdsTypeMaxSize t -> exists s' f' J', sdssetlen s n = Some s' /\ pre s' t f' J' X /\
  (t = 0 -> f' = n * 8) /\ (forall w J1 J2, wide t w -> J = J1 ++ J2 -> zlen J1 = Z.of_nat w -> J' = le_enc w n ++ J2).
Proof.
  intros P Hn. unfold sdssetlen. rewrite (flags_pre _ _ _ _ _ P). bnd. rewrite (p_flags _ _ _ _ _ P).
  destruct (five_or_wide t (p_ty _ _ _ _ _ P)) as [[-> ->]|(w & W & ->)].
  - change (sdsTypeMaxSize 0) with 31 in Hn. rewrite five_byte by done. destruct (store_flags s 0 f J X 0 (n * 8) P) as (s' & -> & P'); [by left|done|apply five_type|done|].
    exists s', (n * 8), J. split_and!; try done. intros w J1 J2 W. pose proof (w_t _ _ W). lia.
  - rewrite (w_field _ _ W). pose proof (p_hdr _ _ _ _ _ P) as Hh. rewrite (w_hdr _ _ W) in Hh.
    destruct (split_at J (Z.of_nat w)) as (J1 & J2 & -> & HJ1); [lia|]. unfold set_hdr_len.
    destruct (store_pre s t f (J1 ++ J2) X [] J1 J2 (le_enc w n) (- (2 * Z.of_nat w + 1)) P) as (s' & -> & P'); [done|by rewrite zlen_le_enc|rewrite (w_hdr _ _ W); change (zlen []) with 0; lia|].
    exists s', f, (le_enc w n ++ J2). split_and!; [done|done|pose proof (w_t _ _ W); lia|]. intros w' K1 K2 W' E HK. assert (w' = w) as -> by (pose proof (w_field _ _ W); pose proof (w_field _ _ W'); congruence).
    f_equal. apply app_inj_1 in E as [_ ->]; [done|]. unfold zlen in *. lia.
Qed.

Lemma pre_form s t f J X n a : pre s t f J X -> 0 <= n <= sdsTypeMaxSize t -> 0 <= a <= sdsTypeMaxSize t -> (t = 0 -> f = n * 8 /\ a = n) ->
  (forall w, wide t w -> J = le_enc w n ++ le_enc w a) -> form s t n a X.
Proof.
  intros [T O B H F1 F2] Hn Ha H5 Hw. split; try done; [|intros ->; by destruct H5]. unfold hdr. destruct (ty_cases t T) as [->|(w & W)].
  - destruct (H5 eq_refl) as [-> _]. cbn in H. assert (J = []) as -> by (destruct J; [done|]; rewrite zlen_cons in H; pose proof (zlen_nonneg J); change (sdsHdrSize 0) with 1 in H; lia). done.
  - rewrite (w_field _ _ W), B, (Hw w W). rewrite F2 by (pose proof (w_t _ _ W); lia). by rewrite <- !app_assoc.
Qed.

(** The field [alloc] after it is set. *)
Definition alloc_of (t n a : Z) : Z := if t =? 0 then n else a.

Lemma setalloc_pre s t f J X n a : pre s t f J X -> 0 <= n <= sdsTypeMaxSize t -> 0 <= a <= sdsTypeMaxSize t -> (t = 0 -> f = n * 8) ->
  (forall w, wide t w -> exists J2, J = le_enc w n ++ J2) -> exists s', sdssetalloc s a = Some s' /\ form s' t n (alloc_of t n a) X.
Proof.
  intros P Hn Ha H5 Hw. unfold sdssetalloc. rewrite (flags_pre _ _ _ _ _ P). bnd. rewrite (p_flags _ _ _ _ _ P). unfold alloc_of.
  destruct (five_or_wide t (p_ty _ _ _ _ _ P)) as [[-> ->]|(w & W & ->)].
  - exists s. split; [done|]. apply (pre_form s 0 f J X n n P); [done|done|auto|]. intros w W. pose proof (w_t _ _ W). lia.
  - rewrite (w_field _ _ W). destruct (Hw w W) as (J2 & ->). pose proof (p_hdr _ _ _ _ _ P) as Hh. rewrite zlen_app, zlen_le_enc, (w_hdr _ _ W) in Hh. pose proof (w_t _ _ W) as Ht.
    unfold set_hdr_alloc. destruct (store_pre s t f (le_enc w n ++ J2) X (le_enc w n) J2 [] (le_enc w a) (- (Z.of_nat w + 1)) P) as (s' & -> & P');
      [by rewrite app_nil_r|rewrite zlen_le_enc; lia|rewrite zlen_le_enc, (w_hdr _ _ W); lia|]. rewrite app_nil_r in P'.
    exists s'. split; [done|]. assert (t =? 0 = false) as -> by lia. apply (pre_form s' t f _ X n a P'); [done|done|lia|]. intros w' W'.
    assert (w' = w) as -> by (pose proof (w_field _ _ W); pose proof (w_field _ _ W'); congruence). done.
Qed.

Lemma fresh_form s t f J X n a : pre s t f J X -> 0 <= n <= sdsTypeMaxSize t -> 0 <= a <= sdsTypeMaxSize t ->
  exists s1 s2, sdssetlen s n = Some s1 /\ sdssetalloc s1 a = Some s2 /\ form s2 t n (alloc_of t n a) X /\ zlen (blk s1) = zlen (blk s).
Proof.
  intros P Hn Ha. destruct (setlen_pre s t f J X n P Hn) as (s1 & f1 & J1 & H1 & P1 & H5 & Hw). exists s1.
  destruct (setalloc_pre s1 t f1 J1 X n a P1 Hn Ha H5) as (s2 & H2 & F).
  { intros w W. pose proof (p_hdr _ _ _ _ _ P) as Hh. rewrite (w_hdr _ _ W) in Hh. destruct (split_at J (Z.of_nat w)) as (K1 & K2 & -> & HK); [lia|]. exists K2. by apply (Hw w K1 K2 W). }
  exists s2. split_and!; [done|done|done|]. rewrite (p_blk _ _ _ _ _ P1), (p_blk _ _ _ _ _ P), !zlen_app. pose proof (p_hdr _ _ _ _ _ P). pose proof (p_hdr _ _ _ _ _ P1).
  change (zlen [f]) with 1. change (zlen [f1]) with 1. lia.
Qed.

Lemma setlen_form s t n a X n' : form s t n a X -> 0 <= n' <= sdsTypeMaxSize t -> exists s', sdssetlen s n' = Some s' /\ form s' t n' (alloc_of t n' a) X.
Proof.
  intros F Hn. destruct (form_pre _ _ _ _ _ F) as (f & J & P & _ & Hw). destruct (setlen_pre s t f J X n' P Hn) as (s1 & f1 & J1 & H1 & P1 & H5 & Hw1). exists s1. split; [done|].
  unfold alloc_of. destruct (t =? 0) eqn:E; bool_hyps.
  - subst t. apply (pre_form s1 0 f1 J1 X n' n' P1); auto. intros w W. pose proof (w_t _ _ W). lia.
  - apply (pre_form s1 t f1 J1 X n' a P1); [done|apply F|done|]. intros w W. apply (Hw1 w _ _ W (Hw w W)). apply zlen_le_enc.
Qed.

Lemma setalloc_form s t n a X a' : form s t n a X -> 0 <= a' <= sdsTypeMaxSize t -> exists s', sdssetalloc s a' = Some s' /\ form s' t n (alloc_of t n a') X.
Proof.
  intros F Ha. destruct (form_pre _ _ _ _ _ F) as (f & J & P & H5 & Hw). apply (setalloc_pre s t f J X n a' P (f_len _ _ _ _ _ F) Ha H5). intros w W. eexists. by apply Hw.
Qed.

Lemma field_le w v : (w = 1 \/ w = 2 \/ w = 4 \/ w = 8)%nat -> 0 <= v <= 256 ^ Z.of_nat w - 1 -> le_dec (le_enc w v) = v.
Proof. intros _ Hv. rewrite le_dec_enc. apply Z.mod_small. lia. Qed.

Lemma fields_form s t n a X w : form s t n a X -> wide t w -> hdr_len w s = Some n /\ hdr_alloc w s = Some a.
Proof.
  intros F W. destruct F as [T O B Hn Ha _]. unfold hdr in B. rewrite (w_field _ _ W) in B. rewrite (w_max _ _ W) in Hn, Ha. rewrite (w_hdr _ _ W) in O. unfold hdr_len, hdr_alloc, load. rewrite O, B. split.
  - rewrite (ldn_at' _ [] (le_enc w n) (le_enc w a ++ [t] ++ X)); [bnd; by rewrite field_le by (done || apply W)|by rewrite <- !app_assoc|change (zlen []) with 0; lia|by rewrite zlen_le_enc].
  - rewrite (ldn_at' _ (le_enc w n) (le_enc w a) ([t] ++ X)); [bnd; by rewrite field_le by (done || apply W)|by rewrite <- !app_assoc|rewrite zlen_le_enc; lia|by rewrite zlen_le_enc].
Qed.

Lemma len_form s t n a X : form s t n a X -> sdslen s = Some n.
Proof.
  intros F. destruct (form_flags _ _ _ _ _ F) as (f & Hf & Ht & H5). unfold sdslen. rewrite Hf. bnd. rewrite Ht.
  destruct (five_or_wide t (f_ty _ _ _ _ _ F)) as [[E ->]|(w & W & ->)]; [by rewrite (H5 E), five_len|]. rewrite (w_field _ _ W). by destruct (fields_form _ _ _ _ _ _ F W).
Qed.
Lemma alloc_form s t n a X : form s t n a X -> sdsalloc s = Some a.
Proof.
  intros F. destruct (form_flags _ _ _ _ _ F) as (f & Hf & Ht & H5). unfold sdsalloc. rewrite Hf. bnd. rewrite Ht.
  destruct (five_or_wide t (f_ty _ _ _ _ _ F)) as [[E ->]|(w & W & ->)]; [by rewrite (H5 E), five_len, (f_five _ _ _ _ _ F E)|]. rewrite (w_field _ _ W). by destruct (fields_form _ _ _ _ _ _ F W).
Qed.
Lemma field_sub_small w a b : (w = 1 \/ w = 2 \/ w = 4 \/ w = 8)%nat -> 0 <= b <= a -> a <= 256 ^ Z.of_nat w - 1 -> field_sub w a b = a - b.
Proof. unfold field_sub. intros [->|[->|[->| ->]]] Hb Ha; cbn [Nat.eqb]; apply wrap_small; cbn in Ha; lia. Qed.
Lemma avail_form s t n a X : form s t n a X -> n <= a -> sdsavail s = Some (a - n).
Proof.
  intros F Hna. destruct (form_flags _ _ _ _ _ F) as (f & Hf & Ht & H5). unfold sdsavail. rewrite Hf. bnd. rewrite Ht.
  destruct (five_or_wide t (f_ty _ _ _ _ _ F)) as [[E ->]|(w & W & ->)]; [rewrite (f_five _ _ _ _ _ F E); f_equal; lia|]. rewrite (w_field _ _ W).
  destruct (fields_form _ _ _ _ _ _ F W) as [-> ->]. bnd. destruct F as [_ _ _ Hn Ha _]. rewrite (w_max _ _ W) in Hn, Ha. rewrite field_sub_small; [done|apply W|lia|lia].
Qed.

(** ** Strings *)

(** [s] holds the bytes [l], followed by [c], and has room for [a]; a string
    is followed by a null byte. *)
Definition held (c : Z) (s : sds) (l : list Z) (a : Z) : Prop := exists t r, form s t (zlen l) a (l ++ c :: r) /\ zlen l <= a /\ a <= zlen l + zlen r.
Definition holds (s : sds) (l : list Z) (a : Z) : Prop := held 0 s l a.

Lemma holds_len c s l a : held c s l a -> sdslen s = Some (zlen l).
Proof. intros (t & r & F & _). by eapply len_form. Qed.
Lemma holds_alloc c s l a : held c s l a -> sdsalloc s = Some a.
Proof. intros (t & r & F & _). by eapply alloc_form. Qed.
Lemma holds_avail c s l a : held c s l a -> sdsavail s = Some (a - zlen l).
Proof. intros (t & r & F & H & _). by eapply avail_form. Qed.
Lemma holds_load c s l a : held c s l a -> load s 0 (zlen l) = Some l.
Proof. intros (t & r & F & _). eapply load_form; [done|]. by apply (ldn_at' _ [] l (c :: r)). Qed.
Lemma holds_room c s l a : held c s l a -> zlen l <= a.
Proof. by intros (t & r & F & H & _). Qed.

(** The end of most operations: the terminator and the new length, in the two
    orders. *)
Lemma finish s t n a l c r : form s t n a (l ++ c :: r) -> zlen l <= a -> a <= zlen l + zlen r ->
  (exists s1 s2, set s (zlen l) 0 = Some s1 /\ sdssetlen s1 (zlen l) = Some s2 /\ holds s2 l (alloc_of t (zlen l) a)) /\
  (exists s1 s2, sdssetlen s (zlen l) = Some s1 /\ set s1 (zlen l) 0 = Some s2 /\ holds s2 l (alloc_of t (zlen l) a)).
Proof.
  intros F H1 H2. assert (stn (l ++ c :: r) (zlen l) [0] = Some (l ++ 0 :: r)) as Hst by by apply (stn_at _ l [c] r).
  assert (0 <= zlen l <= sdsTypeMaxSize t) as Hl by (pose proof (f_alloc _ _ _ _ _ F); pose proof (zlen_nonneg l); lia).
  assert (forall s', form s' t (zlen l) (alloc_of t (zlen l) a) (l ++ 0 :: r) -> holds s' l (alloc_of t (zlen l) a)) as Hh.
  { intros s' F'. exists t, r. split; [done|]. unfold alloc_of. pose proof (zlen_nonneg r). destruct (t =? 0); lia. }
  split.
  - destruct (store_form _ _ _ _ _ _ _ _ F Hst) as (s1 & G1 & F1). destruct (setlen_form _ _ _ _ _ (zlen l) F1 Hl) as (s2 & G2 & F2). exists s1, s2. split_and!; [done|done|auto].
  - destruct (setlen_form _ _ _ _ _ (zlen l) F Hl) as (s1 & G1 & F1). destruct (store_form _ _ _ _ _ _ _ _ F1 Hst) as (s2 & G2 & F2). exists s1, s2. split_and!; [done|done|auto].
Qed.

Section alloc.

(** Blocks are at least as long as requested, and their lengths are of 64 bits. *)
Context (usable : Z -> Z) (junk : Z).
Context (usable_ok : forall n, 0 <= n < 2 ^ 63 -> n <= usable n < 2 ^ 64).

Lemma u64_small x : 0 <= x < 2 ^ 64 -> u64 x = x.
Proof. apply wrap_small. Qed.

Lemma cap_ok u t m : ty t -> 0 <= m <= sdsTypeMaxSize t -> sdsHdrSize t + m + 1 <= u < 2 ^ 64 ->
  m <= cap_usable u (sdsHdrSize t) t <= sdsTypeMaxSize t /\ cap_usable u (sdsHdrSize t) t + sdsHdrSize t + 1 <= u.
Proof. intros T Hm Hu. pose proof (ty_hdr t T). unfold cap_usable. rewrite u64_small by lia. case_if E; lia. Qed.

Lemma zlen_replicate (n : Z) (c : Z) : 0 <= n -> zlen (replicate (Z.to_nat n) c) = n.
Proof. intros Hn. unfold zlen. rewrite length_replicate. lia. Qed.

(** A block split at a header. *)
Lemma block_pre (b : list Z) t : ty t -> sdsHdrSize t <= zlen b -> exists J f X, b = (J ++ [f]) ++ X /\ zlen J + 1 = sdsHdrSize t /\ zlen X = zlen b - sdsHdrSize t.
Proof.
  intros T Hb. pose proof (ty_hdr t T). destruct (split_at b (sdsHdrSize t)) as (A & X & -> & HA); [lia|]. rewrite zlen_app in *.
  destruct (split_at A (sdsHdrSize t - 1)) as (J & f' & -> & HJ); [lia|]. rewrite zlen_app in HA. destruct f' as [|f [|g f']].
  - change (zlen []) with 0 in HA. lia.
  - exists J, f, X. split_and!; [done|lia|rewrite !zlen_app; change (zlen [f]) with 1; lia].
  - rewrite !zlen_cons in HA. pose proof (zlen_nonneg f'). lia.
Qed.

(** The type of a new header. *)
Definition new_type (n : Z) : Z := if (sdsReqType n =? SDS_TYPE_5) && (n =? 0) then SDS_TYPE_8 else sdsReqType n.
Lemma new_type_ok n : 0 <= n < 2 ^ 64 -> ty (new_type n) /\ n <= sdsTypeMaxSize (new_type n).
Proof. intros Hn. unfold new_type. case_if E; [split; [right; by left|subst n; done]|by apply req_type]. Qed.

(** The header of a new string. *)
Lemma new_hdr (b X : list Z) J f t n a : b = (J ++ [f]) ++ X -> zlen J + 1 = sdsHdrSize t -> ty t -> 0 <= n <= sdsTypeMaxSize t -> 0 <= a <= sdsTypeMaxSize t ->
  exists s', (match field_width t with
              | None => set (mkSds b (sdsHdrSize t)) (-1) (u8 (Z.lor t (Z.shiftl n SDS_TYPE_BITS)))
              | Some w => s ← set_hdr_len w n (mkSds b (sdsHdrSize t)); s ← set_hdr_alloc w a s; set s (-1) t
              end) = Some s' /\ form s' t n (alloc_of t n a) X.
Proof.
  intros Hb HJ T Hn Ha. destruct (ty_cases t T) as [->|(w & W)].
  - change (field_width 0) with (@None nat). cbv iota. change (sdsTypeMaxSize 0) with 31 in Hn. change (u8 (Z.lor 0 (Z.shiftl n SDS_TYPE_BITS))) with (u8 (Z.lor SDS_TYPE_5 (Z.shiftl n SDS_TYPE_BITS))). rewrite (five_byte n Hn).
    assert (J = []) as -> by (destruct J; [done|]; rewrite zlen_cons in HJ; pose proof (zlen_nonneg J); change (sdsHdrSize 0) with 1 in HJ; lia).
    unfold set, store. cbn [blk off]. rewrite (stn_at _ [] [f] X) by (done || by rewrite Hb). bnd. eexists. split; [done|]. by split.
  - rewrite (w_field _ _ W). rewrite (w_hdr _ _ W) in HJ |- *. destruct (split_at J (Z.of_nat w)) as (J1 & J2 & -> & HJ1); [lia|]. rewrite zlen_app in HJ.
    unfold set_hdr_len, set_hdr_alloc, set, store. cbn [blk off]. rewrite (stn_at _ [] J1 (J2 ++ [f] ++ X)) by (first [by rewrite Hb, <- !app_assoc|rewrite ?zlen_le_enc; change (zlen []) with 0; lia]). bnd. cbn [blk off].
    rewrite (stn_at _ (le_enc w n) J2 ([f] ++ X)) by (first [done|rewrite ?zlen_le_enc; lia]). bnd. cbn [blk off].
    rewrite (stn_at _ (le_enc w n ++ le_enc w a) [f] X) by (first [by rewrite <- !app_assoc|rewrite ?zlen_app, ?zlen_le_enc; done || lia]). bnd. eexists. split; [done|].
    pose proof (w_t _ _ W). unfold alloc_of. assert (t =? 0 = false) as -> by lia. split; try done; [cbn; by rewrite (w_hdr _ _ W)| |lia]. unfold hdr. rewrite (w_field _ _ W). cbn. by rewrite <- !app_assoc.
Qed.

(** The contents of a new string. *)
Definition new_bytes (i : init) (n : Z) : list Z :=
  match i with Init bs => bs | Zeros => replicate (Z.to_nat n) 0 | NoInit => replicate (Z.to_nat n) junk end.

Lemma stn_head (X bs : list Z) : zlen bs <= zlen X -> exists C, stn X 0 bs = Some (bs ++ C) /\ zlen C = zlen X - zlen bs.
Proof.
  intros Hl. destruct (split_at X (zlen bs)) as (B & C & -> & HB); [pose proof (zlen_nonneg bs); lia|]. exists C. rewrite zlen_app. split; [by apply (stn_at _ [] B C)|lia].
Qed.

Lemma replicate_split (c : Z) (n k : Z) : 0 <= k <= n -> replicate (Z.to_nat n) c = replicate (Z.to_nat k) c ++ replicate (Z.to_nat (n - k)) c.
Proof. intros Hk. rewrite <- replicate_add. f_equal. lia. Qed.

Lemma rep_block c h u : 1 <= h <= u -> exists (J : list Z) (f : Z), replicate (Z.to_nat u) c = (J ++ [f]) ++ replicate (Z.to_nat (u - h)) c /\ zlen J + 1 = h.
Proof.
  intros Hh. exists (replicate (Z.to_nat (h - 1)) c), c. rewrite zlen_replicate by lia. split; [|lia]. change [c] with (replicate (Z.to_nat 1) c).
  rewrite <- !replicate_add. f_equal. lia.
Qed.

(** The block of a new string: room for a header of [h] bytes, and what follows. *)
Lemma new_block i h n : 0 <= n < 2 ^ 62 -> 1 <= h <= 17 ->
  let m := s_malloc usable junk (h + n + 1) in
  exists sh J f X, (match i with Zeros => stn m 0 (replicate (Z.to_nat (h + n + 1)) 0) | _ => Some m end) = Some sh /\
    sh = (J ++ [f]) ++ X /\ zlen J + 1 = h /\ zlen sh = usable (h + n + 1) /\ (match i with Init _ => True | _ => exists Y, X = new_bytes i n ++ Y end).
Proof.
  intros Hn Hh m. pose proof (usable_ok (h + n + 1) ltac:(lia)) as Hu. unfold m, s_malloc. set (u := usable _) in *.
  destruct (rep_block junk h u ltac:(lia)) as (J & f & E1 & E2). destruct i as [bs| |].
  - eexists _, J, f, _. split_and!; [done|done|done|apply zlen_replicate; lia|done].
  - destruct (stn_head (replicate (Z.to_nat u) junk) (replicate (Z.to_nat (h + n + 1)) 0)) as (C & -> & HC); [rewrite !zlen_replicate; lia|].
    rewrite !zlen_replicate in HC by lia. destruct (rep_block 0 h (h + n + 1) ltac:(lia)) as (J' & f' & E1' & E2').
    eexists _, J', f', _. split_and!; [done|by rewrite E1', <- app_assoc|done|rewrite zlen_app, HC, zlen_replicate; lia|].
    cbn [new_bytes]. rewrite (replicate_split 0 (h + n + 1 - h) n ltac:(lia)), <- app_assoc. by eexists.
  - eexists _, J, f, _. split_and!; [done|done|done|apply zlen_replicate; lia|]. cbn [new_bytes]. rewrite (replicate_split junk (u - h) n ltac:(lia)). by eexists.
Qed.

(** The bytes of a new string. *)
Lemma new_data i n s t a X : form s t n a X -> n + 1 <= zlen X -> 0 <= n -> (forall bs, i = Init bs -> zlen bs = n) -> (match i with Init _ => True | _ => exists Y, X = new_bytes i n ++ Y end) ->
  exists s2 c r, (match i with Init bs => if n =? 0 then Some s else bs ← ldn bs 0 n; store s 0 bs | _ => Some s end) = Some s2 /\
    form s2 t n a (new_bytes i n ++ c :: r) /\ zlen (new_bytes i n) = n /\ zlen r = zlen X - n - 1.
Proof.
  intros F HzX H0 Hi HX.
  assert (forall (b Y : list Z), zlen b = n -> X = b ++ Y -> exists c r, X = b ++ c :: r /\ zlen r = zlen X - n - 1) as Hcut.
  { intros b [|c r] Hb ->; [rewrite app_nil_r in HzX; lia|]. exists c, r. rewrite zlen_app, zlen_cons. split; [done|lia]. }
  destruct i as [bs| |]; cbn [new_bytes] in *.
  - specialize (Hi bs eq_refl). destruct (n =? 0) eqn:E0; bool_hyps.
    + assert (bs = []) as -> by (destruct bs; [done|]; rewrite zlen_cons in Hi; pose proof (zlen_nonneg bs); lia).
      destruct (Hcut [] X) as (c & r & -> & E); [done|done|]. by exists s, c, r.
    + assert (ldn bs 0 n = Some bs) as -> by (apply (ldn_at' _ [] bs []); [by rewrite app_nil_r|done|lia]). bnd. destruct (stn_head X bs) as (C & Hst & HC); [lia|].
      destruct (store_form _ _ _ _ _ _ _ _ F Hst) as (s2 & -> & F2). destruct C as [|c r]; [change (zlen (@nil Z)) with 0 in HC; lia|]. exists s2, c, r. rewrite zlen_cons in HC. split_and!; [done|done|done|lia].
  - destruct HX as [Y HX]. destruct (Hcut _ _ (zlen_replicate n 0 ltac:(lia)) HX) as (c & r & E & Er). exists s, c, r. rewrite <- E. split_and!; try done. apply zlen_replicate. lia.
  - destruct HX as [Y HX]. destruct (Hcut _ _ (zlen_replicate n junk ltac:(lia)) HX) as (c & r & E & Er). exists s, c, r. rewrite <- E. split_and!; try done. apply zlen_replicate. lia.
Qed.

Lemma newlen_ok i n : 0 <= n < 2 ^ 62 -> (forall bs, i = Init bs -> zlen bs = n) -> exists s a, sdsnewlen usable junk i n = Some s /\ holds s (new_bytes i n) a.
Proof.
  intros Hn Hi. unfold sdsnewlen, _sdsnewlen. change (if (sdsReqType n =? SDS_TYPE_5) && (n =? 0) then SDS_TYPE_8 else sdsReqType n) with (new_type n).
  destruct (new_type_ok n ltac:(lia)) as [T Hmax]. set (t := new_type n) in *. pose proof (ty_hdr t T) as Hh. rewrite !u64_small by lia.
  assert (n <? n + sdsHdrSize t + 1 = true) as -> by lia. cbn [assert_]. bnd. pose proof (usable_ok (sdsHdrSize t + n + 1) ltac:(lia)) as Hu.
  destruct (new_block i (sdsHdrSize t) n Hn Hh) as (sh & J & f & X & -> & Hsh & HJ & Hz & HX). bnd. rewrite Hz. set (u := usable _) in *.
  destruct (cap_ok u t n T ltac:(lia) ltac:(lia)) as [C1 C2]. set (cap := cap_usable u (sdsHdrSize t) t) in *.
  destruct (new_hdr sh X J f t n cap Hsh HJ T ltac:(lia) ltac:(lia)) as (s1 & -> & F1). bnd.
  assert (zlen X = u - sdsHdrSize t) as HzX by (rewrite Hsh, !zlen_app in Hz; change (zlen [f]) with 1 in Hz; lia).
  destruct (new_data i n s1 t _ X F1 ltac:(lia) ltac:(lia) Hi HX) as (s2 & c & r & -> & F2 & Hnb & Hr). bnd.
  assert (alloc_of t n cap = n \/ alloc_of t n cap = cap) as Ha by (unfold alloc_of; destruct (t =? 0); auto).
  assert (stn (new_bytes i n ++ c :: r) n [0] = Some (new_bytes i n ++ 0 :: r)) as Hst by by apply (stn_at _ (new_bytes i n) [c] r).
  destruct (store_form _ _ _ _ _ _ _ _ F2 Hst) as (s3 & G3 & F3). exists s3, (alloc_of t n cap). split; [exact G3|]. exists t, r. rewrite Hnb. split_and!; [done|lia|lia].
Qed.

(** A new block with the data [bs] and a type. *)
Lemma fresh_copy t m bs : ty t -> 0 <= m < 2 ^ 62 + 2 ^ 21 -> zlen bs <= m + 1 ->
  exists s1 s2 J C, store (mkSds (s_malloc usable junk (sdsHdrSize t + m + 1)) (sdsHdrSize t)) 0 bs = Some s1 /\ set s1 (-1) t = Some s2 /\
    pre s2 t t J (bs ++ C) /\ zlen C = usable (sdsHdrSize t + m + 1) - sdsHdrSize t - zlen bs.
Proof.
  intros T Hm Hb. pose proof (ty_hdr t T) as Hh. pose proof (usable_ok (sdsHdrSize t + m + 1) ltac:(lia)) as Hu. unfold s_malloc. set (u := usable _) in *.
  destruct (rep_block junk (sdsHdrSize t) u ltac:(lia)) as (J & f & -> & HJ). set (X := replicate _ _). assert (zlen X = u - sdsHdrSize t) as HX by (apply zlen_replicate; lia).
  destruct (stn_head X bs) as (C & Hst & HC); [lia|]. unfold set, store. cbn [blk off].
  assert (sdsHdrSize t + 0 = zlen (J ++ [f]) + 0) as -> by (rewrite zlen_app; change (zlen [f]) with 1; lia). rewrite (stn_prefix _ _ _ _ _ Hst). bnd. exists (mkSds ((J ++ [f]) ++ bs ++ C) (sdsHdrSize t)). cbn [blk off].
  rewrite (stn_at _ J [f] (bs ++ C)) by (first [by rewrite <- !app_assoc|done|lia]). bnd. eexists _, J, C. split; [done|]. split; [done|]. split; [|lia].
  assert (type_of t = t) as Ht by (by destruct T as [->|[->|[->|[->| ->]]]]). split; try done. by rewrite <- !app_assoc.
Qed.

(** The size asked for when a string grows. *)
Definition grown (greedy : bool) (n : Z) : Z := if greedy then (if n <? SDS_MAX_PREALLOC then n * 2 else n + SDS_MAX_PREALLOC) else n.
Lemma grown_ok greedy n : 0 < n < 2 ^ 62 -> n <= grown greedy n < 2 ^ 62 + 2 ^ 21.
Proof. intros Hn. unfold grown, SDS_MAX_PREALLOC. destruct greedy; [|lia]. case_if E; lia. Qed.

Lemma up_type n : 0 <= n < 2 ^ 64 -> let t := if sdsReqType n =? SDS_TYPE_5 then SDS_TYPE_8 else sdsReqType n in ty t /\ n <= sdsTypeMaxSize t /\ t <> 0.
Proof.
  intros Hn. destruct (req_type n Hn) as [T H]. cbv zeta. case_if E; [|split_and!; done]. split_and!; [right; by left| |done]. rewrite E in H.
  change (sdsTypeMaxSize SDS_TYPE_5) with 31 in H. change (sdsTypeMaxSize SDS_TYPE_8) with 255. lia.
Qed.

(** After the block has the room for [m] bytes, the field [alloc] is set. *)
Lemma set_room c s t n a X l r m : form s t n a X -> X = l ++ c :: r -> n = zlen l -> t <> 0 -> n <= m -> m <= sdsTypeMaxSize t -> sdsHdrSize t + m + 1 <= zlen (blk s) < 2 ^ 64 ->
  exists s' a', sdssetalloc s (cap_usable (zlen (blk s)) (sdsHdrSize t) t) = Some s' /\ held c s' l a' /\ m <= a'.
Proof.
  intros F -> -> Ht Hn Hm Hz. pose proof (f_ty _ _ _ _ _ F) as T. pose proof (zlen_nonneg l). destruct (cap_ok (zlen (blk s)) t m T ltac:(lia) ltac:(lia)) as [C1 C2].
  destruct (setalloc_form _ _ _ _ _ (cap_usable (zlen (blk s)) (sdsHdrSize t) t) F ltac:(lia)) as (s' & G & F'). exists s'. unfold alloc_of in F'.
  assert (t =? 0 = false) as E0 by lia. rewrite E0 in F'. eexists. split; [exact G|]. split; [|exact (proj1 C1)]. exists t, r. split_and!; [done|lia|].
  assert (zlen (blk s) = sdsHdrSize t + zlen l + 1 + zlen r) as E by (rewrite (f_blk _ _ _ _ _ F), zlen_app, (zlen_hdr _ _ _ T), zlen_app, zlen_cons; lia). lia.
Qed.

Lemma make_room_ok c s l a addlen greedy : held c s l a -> 0 <= addlen -> zlen l + addlen < 2 ^ 62 ->
  exists s' a', _sdsMakeRoomFor usable junk s addlen greedy = Some s' /\ held c s' l a' /\ zlen l + addlen <= a'.
Proof.
  intros H H0 Hb. pose proof (holds_avail _ _ _ _ H) as Hav. pose proof (holds_len _ _ _ _ H) as Hl. pose proof H as (t & r & F & R1 & R2). pose proof (zlen_nonneg l) as Hz.
  destruct (form_flags _ _ _ _ _ F) as (f & Hf & Ht & _). unfold _sdsMakeRoomFor. rewrite Hav, Hf. bnd. rewrite Ht. destruct (addlen <=? a - zlen l) eqn:Ea; bool_hyps.
  { exists s, a. split_and!; [done|done|lia]. }
  rewrite Hl. bnd. rewrite !(u64_small (zlen l + addlen)) by lia. assert (zlen l <? zlen l + addlen = true) as -> by lia. cbn [assert_]. bnd.
  set (q := zlen l + addlen) in *. pose proof (grown_ok greedy q ltac:(lia)) as Hg.
  assert ((if greedy then u64 (if q <? SDS_MAX_PREALLOC then q * 2 else q + SDS_MAX_PREALLOC) else q) = grown greedy q) as ->.
  { unfold grown in *. destruct greedy; [|done]. apply u64_small. lia. }
  set (m := grown greedy q) in *. destruct (up_type m ltac:(lia)) as (T & Hm & T0). cbv zeta in T, Hm, T0. set (t' := if sdsReqType m =? SDS_TYPE_5 then SDS_TYPE_8 else sdsReqType m) in *.
  pose proof (ty_hdr t' T) as Hh. rewrite !u64_small by lia. assert (q <? sdsHdrSize t' + m + 1 = true) as -> by lia. cbn [assert_]. bnd.
  pose proof (usable_ok (sdsHdrSize t' + m + 1) ltac:(lia)) as Hu. destruct (t =? t') eqn:Et; bool_hyps.
  - clear Ht. subst t. destruct F as [_ O B F1 F2 _]. unfold s_realloc. rewrite B. replace (hdr t' (zlen l) a ++ l ++ c :: r) with ((hdr t' (zlen l) a ++ l ++ [c]) ++ r) by (by rewrite <- !app_assoc).
    destruct (realloc_at junk (hdr t' (zlen l) a ++ l ++ [c]) r (usable (sdsHdrSize t' + m + 1))) as (r' & Er & Hr').
    { rewrite !zlen_app, zlen_hdr by done. change (zlen [c]) with 1. lia. }
    rewrite Er. set (s1 := mkSds _ _). assert (form s1 t' (zlen l) a (l ++ c :: r')) as Fs by (split; try done; cbn; by rewrite <- !app_assoc). bnd.
    assert (zlen (blk s1) = usable (sdsHdrSize t' + m + 1)) as Hz1 by (cbn; rewrite zlen_app; lia).
    destruct (set_room c s1 t' (zlen l) a _ l r' m Fs eq_refl eq_refl T0) as (s2 & a2 & G1 & G2 & G3); [lia|lia|lia|]. exists s2, a2. split_and!; [exact G1|done|lia].
  - rewrite (load_form _ _ _ _ _ 0 (zlen l + 1) (l ++ [c]) F) by (apply (ldn_at' _ [] (l ++ [c]) r); [by rewrite <- app_assoc|done|by rewrite zlen_app]). bnd.
    destruct (fresh_copy t' m (l ++ [c]) T ltac:(lia)) as (s1 & s2 & J & C & -> & G2 & P & HC); [rewrite zlen_app; change (zlen [c]) with 1; lia|]. bnd. rewrite G2. bnd.
    rewrite <- app_assoc in P. cbn [app] in P. rewrite zlen_app in HC. change (zlen [c]) with 1 in HC.
    destruct (cap_ok (usable (sdsHdrSize t' + m + 1)) t' m T ltac:(lia) ltac:(lia)) as [C1 C2]. set (cap := cap_usable _ _ _) in *.
    destruct (fresh_form s2 t' t' J _ (zlen l) cap P ltac:(lia) ltac:(lia)) as (s3 & s4 & -> & G4 & F4 & Hz4). bnd.
    assert (zlen (blk s3) = usable (sdsHdrSize t' + m + 1)) as ->.
    { rewrite Hz4, (p_blk _ _ _ _ _ P), !zlen_app, !zlen_cons, zlen_nil. pose proof (p_hdr _ _ _ _ _ P). lia. }
    exists s4, cap. unfold alloc_of in F4. assert (t' =? 0 = false) as E0 by lia. rewrite E0 in F4. split_and!; [exact G4|exists t', C; split_and!; [done|lia|lia]|lia].
Qed.

Lemma max_mono t t' : ty t -> ty t' -> t' <= t -> sdsTypeMaxSize t' <= sdsTypeMaxSize t.
Proof. intros [->|[->|[->|[->| ->]]]] [->|[->|[->|[->| ->]]]] H; first [lia|by vm_compute]. Qed.

(** The end of a resizing. *)
Lemma resize_end s t n a l c r size : form s t n a (l ++ c :: r) -> zlen l <= size <= sdsTypeMaxSize t -> size <= zlen l + zlen r ->
  exists s1 s2 s3 a', set s (zlen l) 0 = Some s1 /\ sdssetlen s1 (zlen l) = Some s2 /\ sdssetalloc s2 size = Some s3 /\ holds s3 l a'.
Proof.
  intros F H1 H2. pose proof (zlen_nonneg l) as Hl. pose proof (zlen_nonneg r) as Hr. assert (stn (l ++ c :: r) (zlen l) [0] = Some (l ++ 0 :: r)) as Hst by by apply (stn_at _ l [c] r).
  destruct (store_form _ _ _ _ _ _ _ _ F Hst) as (s1 & G1 & F1). destruct (setlen_form _ _ _ _ _ (zlen l) F1 ltac:(lia)) as (s2 & G2 & F2).
  destruct (setalloc_form _ _ _ _ _ size F2 ltac:(lia)) as (s3 & G3 & F3). eexists s1, s2, s3, _. split_and!; [done|done|done|]. exists t, r. split; [done|]. unfold alloc_of. destruct (t =? 0); lia.
Qed.

(** The bytes of a block, cut after some bytes of the string. *)
Lemma cut_at (l r : list Z) k : 0 <= k <= zlen l -> exists c r', l ++ 0 :: r = take (Z.to_nat k) l ++ c :: r' /\ zlen (take (Z.to_nat k) l) = k /\ zlen r' = zlen l + zlen r - k.
Proof.
  intros Hk. destruct (split_at l k) as (A & B & -> & HA); [done|]. assert (take (Z.to_nat k) (A ++ B) = A) as -> by (apply take_app_length'; unfold zlen in *; lia).
  rewrite zlen_app in *. destruct B as [|c B]; [exists 0, r|exists c, (B ++ 0 :: r)]; rewrite <- app_assoc; (split; [done|]).
  - change (zlen (@nil Z)) with 0. lia.
  - rewrite zlen_app, !zlen_cons. lia.
Qed.

(** The type of the header that a resized string should have. *)
Lemma want_type n (b : bool) : 0 <= n < 2 ^ 64 -> let t := if b && (sdsReqType n =? SDS_TYPE_5) then SDS_TYPE_8 else sdsReqType n in ty t /\ n <= sdsTypeMaxSize t.
Proof. intros Hn. cbv zeta. destruct b; cbn [andb]; [|by apply req_type]. destruct (up_type n Hn) as (H1 & H2 & _). by split. Qed.

(** With jemalloc the block and the header are kept when the block already has
    the size that a new one would be given. *)
Definition keeps_block (jemalloc : bool) (s : sds) (size : Z) (wr : bool) : bool :=
  match get s (-1) with
  | None => false
  | Some flags =>
      let t := type_of flags in
      let t' := if wr && (sdsReqType size =? SDS_TYPE_5) then SDS_TYPE_8 else sdsReqType size in
      let use := (t =? t') || ((t' <? t) && (SDS_TYPE_8 <? t')) in
      jemalloc && (usable (if use then sdsHdrSize t + size + 1 else sdsHdrSize t' + size + 1) =? zlen (blk s))
  end.
(** Then the new size has to fit in the header that is kept and in the block. *)
Definition resize_fits (jemalloc : bool) (s : sds) (size : Z) (wr : bool) : bool :=
  negb (keeps_block jemalloc s size wr) ||
  match get s (-1) with None => false | Some flags => (size <=? sdsTypeMaxSize (type_of flags)) && (off s + size + 1 <=? zlen (blk s)) end.

Lemma room_fits jemalloc s l a size wr : holds s l a -> size <= a -> resize_fits jemalloc s size wr = true.
Proof.
  intros (t & r & F & R1 & R2) Hs. destruct (form_flags _ _ _ _ _ F) as (f & Hf & Ht & _). unfold resize_fits. rewrite Hf, Ht. apply orb_true_intro. right.
  rewrite (f_off _ _ _ _ _ F), (f_blk _ _ _ _ _ F), zlen_app, (zlen_hdr t (zlen l) a (f_ty _ _ _ _ _ F)), zlen_app, zlen_cons. pose proof (f_alloc _ _ _ _ _ F). lia.
Qed.

Lemma resize_ok jemalloc s l a size wr : holds s l a -> 0 <= size < 2 ^ 62 -> zlen l < 2 ^ 62 -> resize_fits jemalloc s size wr = true ->
  exists s' a', sdsResize usable junk jemalloc s size wr = Some s' /\ holds s' (take (Z.to_nat size) l) a'.
Proof.
  intros H Hs Hln Hj. pose proof H as (t & r & F & R1 & R2). pose proof (f_ty _ _ _ _ _ F) as T. pose proof (ty_hdr t T) as Hh. pose proof (zlen_nonneg l) as Hl. pose proof (zlen_nonneg r) as Hr.
  destruct (form_flags _ _ _ _ _ F) as (f & Hf & Ht & _). unfold resize_fits, keeps_block in Hj. rewrite Hf, Ht in Hj. unfold sdsResize. rewrite Hf. bnd. rewrite (holds_len _ _ _ _ H), (holds_alloc _ _ _ _ H), Ht. bnd.
  destruct (a =? size) eqn:Ea; bool_hyps. { exists s, a. split; [done|]. rewrite take_ge; [done|]. unfold zlen in *. lia. }
  set (k := if size <? zlen l then size else zlen l). assert (0 <= k <= zlen l /\ k <= size /\ (size <= zlen l -> k = size)) as (Hk1 & Hk2 & Hk3) by (unfold k; case_if E; lia).
  assert (take (Z.to_nat size) l = take (Z.to_nat k) l) as -> by (unfold k; case_if E; [done|]; unfold zlen in *; rewrite !take_ge; [done|lia|lia]).
  destruct (want_type size wr ltac:(lia)) as [T' Hm]. cbv zeta in T', Hm. set (t' := if wr && (sdsReqType size =? SDS_TYPE_5) then SDS_TYPE_8 else sdsReqType size) in *. pose proof (ty_hdr t' T') as Hh'.
  cbv zeta in Hj. fold t' in Hj. set (use := (t =? t') || ((t' <? t) && (SDS_TYPE_8 <? t'))) in *. rewrite u64_small by (destruct use; lia).
  destruct (cut_at l r k Hk1) as (c & r' & Hx & Hzk & Hr'). set (l' := take (Z.to_nat k) l) in *.
  assert (use = true -> size <= sdsTypeMaxSize t) as Hmt by (intros E; pose proof (max_mono t t' T T'); unfold use in E; lia).
  destruct (jemalloc && (_ =? zlen (blk s))) eqn:Eo; [|destruct use eqn:Eu]; cbn [negb andb]; rewrite ?andb_false_r.
  - (* the block is kept *)
    cbn [negb orb] in Hj. apply andb_prop in Hj as [Hj1 Hj2]. bool_hyps. rewrite (f_off _ _ _ _ _ F), (f_blk _ _ _ _ _ F), zlen_app, (zlen_hdr t (zlen l) a T), zlen_app, zlen_cons in Hj2.
    bnd. rewrite Hx in F. rewrite <- Hzk in *.
    destruct (resize_end s t (zlen l) a l' c r' size F ltac:(lia) ltac:(lia)) as (s1 & s2 & s3 & a' & -> & G2 & G3 & Hh3). bnd. rewrite G2. bnd. by exists s3, a'.
  - (* the block is reallocated *)
    bnd. unfold s_realloc. pose proof (usable_ok (sdsHdrSize t + size + 1) ltac:(lia)) as Hu. set (u := usable _) in *. rewrite (f_blk _ _ _ _ _ F), Hx, app_assoc.
    destruct (realloc_at junk (hdr t (zlen l) a ++ l') (c :: r') u) as (S' & -> & HS); [rewrite zlen_app, zlen_hdr by done; lia|]. rewrite zlen_app, zlen_hdr in HS by done.
    destruct S' as [|c' S']; [change (zlen (@nil Z)) with 0 in HS; lia|]. rewrite zlen_cons in HS. set (s0 := mkSds _ _).
    assert (form s0 t (zlen l) a (l' ++ c' :: S')) as F0 by (destruct F; split; try done; cbn; by rewrite <- app_assoc). rewrite <- Hzk in *.
    destruct (resize_end s0 t (zlen l) a l' c' S' size F0 ltac:(lia) ltac:(lia)) as (s1 & s2 & s3 & a' & -> & G2 & G3 & Hh3). bnd. rewrite G2. bnd. by exists s3, a'.
  - (* the string is copied *)
    rewrite (load_form _ _ _ _ _ 0 k l' F) by (rewrite Hx; apply (ldn_at' _ [] l' (c :: r')); done || lia). bnd. pose proof (usable_ok (sdsHdrSize t' + size + 1) ltac:(lia)) as Hu.
    destruct (fresh_copy t' size l' T' ltac:(lia) ltac:(lia)) as (s1 & s2 & J & C & -> & G2 & P & HC). bnd. rewrite G2. bnd. destruct C as [|c' C]; [change (zlen (@nil Z)) with 0 in HC; lia|].
    rewrite zlen_cons in HC. assert (stn (l' ++ c' :: C) k [0] = Some (l' ++ 0 :: C)) as Hst by by apply (stn_at _ l' [c'] C).
    destruct (store_pre_data _ _ _ _ _ _ _ _ P Hst) as (s3 & G3 & P3). unfold set. rewrite G3. bnd.
    destruct (fresh_form s3 t' t' J _ k size P3 ltac:(lia) ltac:(lia)) as (s4 & s5 & -> & G5 & F5 & _). bnd. rewrite G5. eexists _, _. split; [done|].
    exists t', C. rewrite Hzk. split; [done|]. unfold alloc_of. pose proof (zlen_nonneg C). destruct (t' =? 0); lia.
Qed.

(** ** Writing bytes *)

Lemma store_at s t n a l Y bs : form s t n a (l ++ Y) -> zlen bs <= zlen Y -> exists s' C, store s (zlen l) bs = Some s' /\ form s' t n a (l ++ bs ++ C) /\ zlen C = zlen Y - zlen bs.
Proof.
  intros F Hb. destruct (split_at Y (zlen bs)) as (B & C & -> & HB); [pose proof (zlen_nonneg bs); lia|]. rewrite zlen_app.
  destruct (store_form _ _ _ _ _ (zlen l) bs (l ++ bs ++ C) F) as (s' & G & F'); [by apply (stn_at _ l B C)|]. exists s', C. split_and!; [done|done|lia].
Qed.

(** Bytes are written after the first [l], and a terminator after them. *)
Lemma write_ok s t n a l Y bs : form s t n a (l ++ Y) -> zlen l + zlen bs <= a -> a + 1 <= zlen l + zlen Y ->
  exists s1, store s (zlen l) bs = Some s1 /\
    (exists s2 s3 a', sdssetlen s1 (zlen l + zlen bs) = Some s2 /\ set s2 (zlen l + zlen bs) 0 = Some s3 /\ holds s3 (l ++ bs) a') /\
    (exists s2 s3 a', set s1 (zlen l + zlen bs) 0 = Some s2 /\ sdssetlen s2 (zlen l + zlen bs) = Some s3 /\ holds s3 (l ++ bs) a').
Proof.
  intros F H1 H2. destruct (store_at _ _ _ _ l Y bs F) as (s1 & C & G1 & F1 & HC); [lia|]. exists s1. split; [done|].
  destruct C as [|c C]; [change (zlen (@nil Z)) with 0 in HC; lia|]. rewrite zlen_cons in HC. rewrite app_assoc in F1.
  destruct (finish s1 t n a (l ++ bs) c C F1) as [(s2 & s3 & K1 & K2 & K3) (s4 & s5 & K4 & K5 & K6)]; [rewrite zlen_app; lia|rewrite zlen_app; lia|]. rewrite zlen_app in *.
  split; [by eexists s4, s5, _|by eexists s2, s3, _].
Qed.

Lemma catlen_ok s l a t : holds s l a -> zlen l + zlen t < 2 ^ 62 -> exists s' a', sdscatlen usable junk s t = Some s' /\ holds s' (l ++ t) a'.
Proof.
  intros H Hb. pose proof (zlen_nonneg l). pose proof (zlen_nonneg t). unfold sdscatlen. rewrite (holds_len _ _ _ _ H). bnd. unfold sdsMakeRoomFor.
  destruct (make_room_ok 0 s l a (zlen t) true H ltac:(lia) Hb) as (s1 & a1 & -> & (ty & r & F & R1 & R2) & Hr). bnd. rewrite !u64_small by lia.
  destruct (write_ok s1 ty (zlen l) a1 l (0 :: r) t F ltac:(lia)) as (s2 & -> & (s3 & s4 & a4 & G3 & G4 & H4) & _); [rewrite zlen_cons; lia|]. bnd. rewrite G3. bnd. rewrite G4. by exists s4, a4.
Qed.

Lemma cpylen_ok s l a t : holds s l a -> zlen t < 2 ^ 62 -> exists s' a', sdscpylen usable junk s t = Some s' /\ holds s' t a'.
Proof.
  intros H Hb. pose proof (zlen_nonneg l). pose proof (zlen_nonneg t). unfold sdscpylen. rewrite (holds_alloc _ _ _ _ H). bnd.
  assert (exists s1 a1, (if a <? zlen t then l' ← sdslen s; sdsMakeRoomFor usable junk s (u64 (zlen t - l')) else Some s) = Some s1 /\ holds s1 l a1 /\ zlen t <= a1) as (s1 & a1 & -> & (ty & r & F & R1 & R2) & Hr).
  { case_if E; [|by exists s, a]. rewrite (holds_len _ _ _ _ H). bnd. pose proof (holds_room _ _ _ _ H). rewrite u64_small by lia.
    destruct (make_room_ok 0 s l a (zlen t - zlen l) true H ltac:(lia) ltac:(lia)) as (s1 & a1 & G1 & Hs1 & Hr). exists s1, a1. split_and!; [done|done|lia]. }
  bnd. destruct (write_ok s1 ty (zlen l) a1 [] (l ++ 0 :: r) t F) as (s2 & G2 & _ & (s3 & s4 & a4 & G3 & G4 & H4)); [change (zlen (@nil Z)) with 0; lia|rewrite zlen_app, zlen_cons; change (zlen (@nil Z)) with 0; lia|].
  change (zlen (@nil Z)) with 0 in *. rewrite Z.add_0_l in *. rewrite G2. bnd. rewrite G3. bnd. rewrite G4. by exists s4, a4.
Qed.

Lemma growzero_ok s l a n : holds s l a -> 0 <= n < 2 ^ 62 -> exists s' a', sdsgrowzero usable junk s n = Some s' /\ holds s' (l ++ replicate (Z.to_nat (n - zlen l)) 0) a'.
Proof.
  intros H Hn. pose proof (zlen_nonneg l). unfold sdsgrowzero. rewrite (holds_len _ _ _ _ H). bnd. case_if E.
  { exists s, a. split; [done|]. replace (Z.to_nat (n - zlen l)) with 0%nat by lia. cbn. by rewrite app_nil_r. }
  rewrite !u64_small by lia. unfold sdsMakeRoomFor. destruct (make_room_ok 0 s l a (n - zlen l) true H ltac:(lia) ltac:(lia)) as (s1 & a1 & -> & (ty & r & F & R1 & R2) & Hr). bnd.
  set (zs := replicate (Z.to_nat (n - zlen l)) 0). assert (replicate (Z.to_nat (n - zlen l + 1)) 0 = zs ++ [0]) as ->.
  { unfold zs. rewrite (replicate_split 0 (n - zlen l + 1) (n - zlen l)) by lia. do 2 f_equal. replace (Z.to_nat _) with 1%nat by lia. done. }
  assert (zlen zs = n - zlen l) as Hzs by (apply zlen_replicate; lia).
  destruct (store_at s1 ty (zlen l) a1 l (0 :: r) (zs ++ [0]) F) as (s2 & C & -> & F2 & HC); [rewrite zlen_app, !zlen_cons, zlen_nil; lia|]. bnd.
  rewrite zlen_app, !zlen_cons, zlen_nil in HC. pose proof (f_alloc _ _ _ _ _ F2).
  destruct (setlen_form _ _ _ _ _ n F2 ltac:(lia)) as (s3 & -> & F3). eexists _, _. split; [done|]. exists ty, C. rewrite zlen_app, Hzs. rewrite <- !app_assoc in F3 |- *. cbn [app] in F3 |- *.
  replace (zlen l + (n - zlen l)) with n by lia. split; [done|]. unfold alloc_of. pose proof (zlen_nonneg C). destruct (ty =? 0); lia.
Qed.

Lemma clear_ok s l a : holds s l a -> exists s' a', sdsclear s = Some s' /\ holds s' [] a'.
Proof.
  intros (t & r & F & R1 & R2). unfold sdsclear. assert (exists c r', l ++ 0 :: r = [] ++ c :: r' /\ zlen r' = zlen l + zlen r) as (c & r' & E & Hr).
  { destruct l as [|c l]; [by exists 0, r|exists c, (l ++ 0 :: r)]. rewrite zlen_app, !zlen_cons. split; [done|lia]. }
  rewrite E in F. pose proof (zlen_nonneg l). destruct (finish s t (zlen l) a [] c r' F) as [_ (s1 & s2 & G1 & G2 & H2)]; [change (zlen (@nil Z)) with 0; lia|change (zlen (@nil Z)) with 0; lia|].
  change (zlen (@nil Z)) with 0 in *. rewrite G1. bnd. rewrite G2. by eexists _, _.
Qed.

Lemma sdsdup_ok s l a : holds s l a -> zlen l < 2 ^ 62 -> exists s' a', sdsdup usable junk s = Some s' /\ holds s' l a'.
Proof.
  intros H Hb. unfold sdsdup. rewrite (holds_len _ _ _ _ H). bnd. rewrite (holds_load _ _ _ _ H). bnd. pose proof (zlen_nonneg l).
  apply (newlen_ok (Init l) (zlen l)); [lia|]. by intros bs [= ->].
Qed.

(** ** Substrings *)

(** The first [zlen l] bytes become the string, when some of the rest is left. *)
Lemma keep_ok s t n a l c r : form s t n a (l ++ c :: r) -> zlen l <= a -> a <= zlen l + zlen r -> exists s', (s ← set s (zlen l) 0; sdssetlen s (zlen l)) = Some s' /\ exists a', holds s' l a'.
Proof. intros F H1 H2. destruct (finish s t n a l c r F H1 H2) as [(s1 & s2 & G1 & G2 & H) _]. exists s2. rewrite G1. bnd. split; [done|by eexists]. Qed.

Lemma zlen_0_nil {A} (l : list A) : zlen l = 0 -> l = [].
Proof. destruct l; [done|]. rewrite zlen_cons. pose proof (zlen_nonneg l). lia. Qed.

(** A part of the string is moved to its start, unless it is there. *)
Lemma move_ok (g : bool) s t n a l r i k : form s t n a (l ++ 0 :: r) -> n = zlen l -> 0 <= i -> 0 <= k -> i + k <= zlen l -> zlen l <= a -> a <= zlen l + zlen r -> (g = true -> i = 0 \/ k = 0) ->
  exists s', (s ← (if g then Some s else move s 0 i k); s ← set s k 0; sdssetlen s k) = Some s' /\ exists a', holds s' (take (Z.to_nat k) (drop (Z.to_nat i) l)) a'.
Proof.
  intros F -> Hi Hk Hik H1 H2 Hg. destruct (split_at l i) as (A & B & -> & HA); [lia|]. rewrite zlen_app in *. destruct (split_at B k) as (K & C & -> & HK); [lia|]. rewrite zlen_app in *.
  assert (drop (Z.to_nat i) (A ++ K ++ C) = K ++ C) as -> by (apply drop_app_length'; unfold zlen in *; lia). assert (take (Z.to_nat k) (K ++ C) = K) as -> by (apply take_app_length'; unfold zlen in *; lia).
  pose proof (zlen_nonneg A). pose proof (zlen_nonneg C). pose proof (zlen_nonneg r).
  assert (exists s1 c r', (if g then Some s else move s 0 i k) = Some s1 /\ form s1 t (zlen A + (zlen K + zlen C)) a (K ++ c :: r') /\ zlen r' = zlen A + zlen C + zlen r) as (s1 & c & r' & -> & F1 & Hr').
  { destruct g.
    - assert (exists Y, (A ++ K ++ C) ++ 0 :: r = K ++ Y /\ zlen Y = zlen A + zlen C + 1 + zlen r) as (Y & E & HY).
      { destruct (Hg eq_refl) as [E|E].
        - assert (A = []) as -> by (apply zlen_0_nil; lia). exists (C ++ 0 :: r). split; [cbn [app]; by rewrite <- app_assoc|rewrite zlen_app, zlen_cons, zlen_nil; lia].
        - assert (K = []) as -> by (apply zlen_0_nil; lia). exists (A ++ C ++ 0 :: r). split; [cbn [app]; by rewrite <- app_assoc|rewrite !zlen_app, zlen_cons; lia]. }
      rewrite E in F. destruct Y as [|c Y]; [rewrite zlen_nil in HY; lia|]. rewrite zlen_cons in HY. exists s, c, Y. split_and!; [done|done|lia].
    - destruct F as [T O B0 L1 L2 L3]. unfold move. rewrite O, B0.
      destruct (memmove_at (hdr t (zlen A + (zlen K + zlen C)) a ++ (A ++ K ++ C) ++ 0 :: r) (hdr t (zlen A + (zlen K + zlen C)) a) A K (C ++ 0 :: r) (sdsHdrSize t + 0) (sdsHdrSize t + i) k)
        as (X & S' & -> & HX & HS); [by rewrite <- !app_assoc|rewrite zlen_hdr by done; lia|lia|rewrite zlen_hdr, zlen_app, zlen_cons by done; lia|]. rewrite zlen_hdr in HX, HS by done. rewrite zlen_app, zlen_cons in HS.
      assert (X = []) as -> by (apply zlen_0_nil; lia). bnd. destruct S' as [|c S']; [rewrite zlen_nil in HS; lia|]. rewrite zlen_cons in HS.
      eexists _, c, S'. split; [done|]. split; [by split|lia]. }
  bnd. rewrite <- HK. apply (keep_ok s1 t _ a K c r' F1); lia.
Qed.

Lemma substr_ok s l a start len : holds s l a -> zlen l < 2 ^ 62 -> 0 <= start -> 0 <= len -> exists s' a', sdssubstr s start len = Some s' /\ holds s' (take (Z.to_nat len) (drop (Z.to_nat start) l)) a'.
Proof.
  intros H Hb Hs Hn. unfold sdssubstr. rewrite (holds_len _ _ _ _ H). bnd. destruct H as (t & r & F & R1 & R2). pose proof (zlen_nonneg l) as Hl.
  assert (exists i k, (if zlen l <=? start then (0, 0) else (start, len)) = (i, (if zlen l <=? start then 0 else len)) /\ 0 <= i <= zlen l /\ k = (if u64 (zlen l - i) <? (if zlen l <=? start then 0 else len) then u64 (zlen l - i) else (if zlen l <=? start then 0 else len)) /\
    0 <= k /\ i + k <= zlen l /\ take (Z.to_nat k) (drop (Z.to_nat i) l) = take (Z.to_nat len) (drop (Z.to_nat start) l)) as (i & k & -> & Hi & Hke & Hk & Hik & <-).
  { destruct (zlen l <=? start) eqn:E; bool_hyps.
    - exists 0, 0. rewrite u64_small by lia. split_and!; try lia; [done|case_if E'; lia|]. rewrite (drop_ge l (Z.to_nat start)) by (unfold zlen in *; lia). by rewrite take_nil.
    - eexists start, _. split; [done|]. rewrite u64_small by lia. split_and!; [lia|lia|done|case_if E'; lia|case_if E'; lia|]. case_if E'; [|done].
      rewrite !take_ge; [done|rewrite length_drop; unfold zlen in *; lia..]. }
  cbv beta iota zeta. rewrite <- Hke. destruct (move_ok (k =? 0) s t (zlen l) a l r i k F eq_refl (proj1 Hi) Hk Hik R1 R2) as (s' & -> & a' & H'); [intros E; right; lia|]. by exists s', a'.
Qed.

(** Where a range of indexes is. *)
Definition range_of (l : list Z) (start end_ : Z) : list Z :=
  let start := if start <? 0 then zlen l + start else start in
  let end_ := if end_ <? 0 then zlen l + end_ else end_ in
  if (start <? 0) || (end_ <? start) then [] else take (Z.to_nat (end_ - start + 1)) (drop (Z.to_nat start) l).

Lemma sdsrange_ok s l a start end_ : holds s l a -> zlen l < 2 ^ 62 -> in_s 64 start -> in_s 64 end_ -> exists s' a', sdsrange s start end_ = Some s' /\ holds s' (range_of l start end_) a'.
Proof.
  intros H Hb Hs He. unfold sdsrange. rewrite (holds_len _ _ _ _ H). bnd. pose proof (zlen_nonneg l) as Hl. unfold in_s in Hs, He. change (2 ^ (64 - 1)) with (2 ^ 63) in *. case_if E.
  { exists s, a. split; [done|]. assert (l = []) as -> by by apply zlen_0_nil. unfold range_of. rewrite drop_nil, take_nil. by destruct (_ || _). }
  assert (forall i, - 2 ^ 63 <= i < 2 ^ 63 -> (if i <? 0 then s64 (zlen l + i) else i) = (if i <? 0 then zlen l + i else i)) as Hi.
  { intros i Hi. case_if E'; [|done]. apply swrap_small; [done|]. unfold in_s. change (2 ^ (64 - 1)) with (2 ^ 63). lia. }
  rewrite !Hi by done. unfold range_of. set (i := if start <? 0 then zlen l + start else start). set (j := if end_ <? 0 then zlen l + end_ else end_).
  assert (- 2 ^ 63 <= i < 2 ^ 63 /\ - 2 ^ 63 <= j < 2 ^ 63) as [Bi Bj] by (unfold i, j; split; case_if E'; lia). destruct (i <? 0) eqn:Ei; bool_hyps; cbn [orb].
  - assert (u64 i = i + 2 ^ 64) as -> by (unfold wrap; rewrite <- (Z_mod_plus_full i 1), Z.mul_1_l, Z.mod_small; lia).
    destruct (substr_ok s l a (i + 2 ^ 64) (if j <? i then 0 else u64 (j - i + 1)) H Hb) as (s' & a' & G & H'); [lia|case_if E'; [done|]; apply wrap_range; lia|].
    exists s', a'. split; [done|]. rewrite drop_ge, take_nil in H' by (unfold zlen in *; lia). done.
  - rewrite u64_small by lia. destruct (j <? i) eqn:Ej; bool_hyps.
    + destruct (substr_ok s l a i 0 H Hb) as (s' & a' & G & H'); [lia|lia|]. by exists s', a'.
    + rewrite u64_small by lia. apply (substr_ok s l a i (j - i + 1) H Hb); lia.
Qed.

(** ** Trimming *)

Fixpoint strip (f : Z -> bool) (l : list Z) : list Z := match l with [] => [] | c :: r => if f c then strip f r else l end.
Definition strip_end (f : Z -> bool) (l : list Z) : list Z := reverse (strip f (reverse l)).

Lemma strip_suffix f l : exists A, l = A ++ strip f l.
Proof. induction l as [|c l [A IH]]; [by exists []|]. cbn. destruct (f c); [exists (c :: A); cbn; by f_equal|by exists []]. Qed.
Lemma strip_end_prefix f l : exists A, l = strip_end f l ++ A.
Proof. destruct (strip_suffix f (reverse l)) as [A E]. exists (reverse A). unfold strip_end. rewrite <- reverse_app, <- E. by rewrite reverse_involutive. Qed.
Lemma strip_head f l : strip f l = [] \/ exists c r, strip f l = c :: r /\ f c = false.
Proof. induction l as [|c l IH]; [by left|]. cbn. destruct (f c) eqn:E; [done|right; eauto]. Qed.
Lemma strip_end_snoc f l c : strip_end f (l ++ [c]) = if f c then strip_end f l else l ++ [c].
Proof. unfold strip_end. rewrite reverse_snoc. cbn [strip]. destruct (f c); [done|]. by rewrite reverse_cons, reverse_involutive. Qed.

Lemma get_at s t n a P c Q i : form s t n a (P ++ c :: Q) -> i = zlen P -> get s i = Some c.
Proof. intros F ->. eapply ld8_form; [done|apply zlen_nonneg|]. by apply (ld8_at _ P c Q). Qed.

Lemma trim_left_ok s t n a cset Q : forall P Y fuel, form s t n a (P ++ Q ++ Y) -> (length Q <= fuel)%nat ->
  trim_left fuel s cset (zlen P) (zlen P + zlen Q - 1) = Some (zlen P + zlen Q - zlen (strip (strchr cset) Q)).
Proof.
  induction Q as [|c Q IH]; intros P Y fuel F Hf.
  { assert (zlen P <=? zlen P + zlen (@nil Z) - 1 = false) as E by (rewrite zlen_nil; lia). destruct fuel; cbn [trim_left strip]; rewrite E; rewrite zlen_nil; do 2 f_equal; lia. }
  assert (zlen P <=? zlen P + zlen (c :: Q) - 1 = true) as E by (rewrite zlen_cons; pose proof (zlen_nonneg Q); lia).
  cbn [length] in Hf. destruct fuel as [|fuel]; [lia|]. cbn [trim_left]. rewrite E, (get_at s t n a P c (Q ++ Y) _ F eq_refl). bnd. cbn [strip].
  destruct (strchr cset c); [|f_equal; lia]. specialize (IH (P ++ [c]) Y fuel). rewrite <- app_assoc in IH. specialize (IH F ltac:(lia)). rewrite zlen_app, zlen_cons, zlen_nil in IH. rewrite zlen_cons.
  replace (zlen P + (1 + zlen Q) - 1) with (zlen P + (1 + 0) + zlen Q - 1) by lia. rewrite Z.add_0_r in IH |- *. rewrite IH. f_equal. lia.
Qed.

Lemma trim_right_ok s t n a cset P c Q : strchr cset c = false -> forall Y fuel, form s t n a (P ++ (c :: Q) ++ Y) -> (length Q <= fuel)%nat ->
  trim_right fuel s cset (zlen P) (zlen P + zlen Q) = Some (zlen P + zlen (strip_end (strchr cset) (c :: Q)) - 1).
Proof.
  intros Hc. induction Q as [|d Q IH] using rev_ind; intros Y fuel F Hf.
  { assert (zlen P <? zlen P + zlen (@nil Z) = false) as E by (rewrite zlen_nil; lia). assert (strip_end (strchr cset) [c] = [c]) as -> by (unfold strip_end; cbn; by rewrite Hc).
    rewrite zlen_cons, zlen_nil. destruct fuel; cbn [trim_right]; rewrite E || (rewrite zlen_nil in E; rewrite E); f_equal; lia. }
  rewrite length_app in Hf. cbn [length] in Hf. destruct fuel as [|fuel]; [lia|]. rewrite zlen_app. change (zlen [d]) with 1. cbn [trim_right].
  pose proof (zlen_nonneg Q) as HQ. assert (zlen P <? zlen P + (zlen Q + 1) = true) as -> by lia.
  replace (P ++ (c :: Q ++ [d]) ++ Y) with ((P ++ c :: Q) ++ d :: Y) in F by (rewrite <- !app_assoc; cbn; by rewrite <- app_assoc).
  rewrite (get_at s t n a (P ++ c :: Q) d Y _ F) by (rewrite zlen_app, zlen_cons; lia). bnd. change (c :: Q ++ [d]) with ((c :: Q) ++ [d]). rewrite strip_end_snoc. destruct (strchr cset d).
  - replace (zlen P + (zlen Q + 1) - 1) with (zlen P + zlen Q) by lia. apply (IH (d :: Y)); [by rewrite <- app_assoc in F|lia].
  - rewrite zlen_app, zlen_cons. change (zlen [d]) with 1. f_equal. lia.
Qed.

Definition trimmed (cset l : list Z) : list Z := strip_end (strchr cset) (strip (strchr cset) l).

Lemma trim_ok s l a cset : holds s l a -> exists s' a', sdstrim s cset = Some s' /\ holds s' (trimmed cset l) a'.
Proof.
  intros H. unfold sdstrim. rewrite (holds_len _ _ _ _ H). bnd. destruct H as (t & r & F & R1 & R2).
  pose proof (trim_left_ok s t (zlen l) a cset l [] (0 :: r) (Z.to_nat (zlen l)) F) as HL. rewrite zlen_nil, !Z.add_0_l in HL. rewrite HL by (unfold zlen; lia). bnd. unfold trimmed.
  destruct (strip_suffix (strchr cset) l) as [A EA]. destruct (strip_head (strchr cset) l) as [EB|(c & B & EB & Hc)]; rewrite EB in *.
  - rewrite app_nil_r in EA. subst A. rewrite zlen_nil, Z.sub_0_r. cbn [strip_end strip].
    assert (trim_right (Z.to_nat (zlen l)) s cset (zlen l) (zlen l - 1) = Some (zlen l - 1)) as -> by (destruct (Z.to_nat (zlen l)); cbn [trim_right]; assert (zlen l <? zlen l - 1 = false) as -> by lia; done). bnd.
    replace (zlen l - 1 - zlen l + 1) with 0 by lia. pose proof (zlen_nonneg l).
    destruct (move_ok (0 =? zlen l) s t (zlen l) a l r (zlen l) 0 F eq_refl) as (s' & -> & a' & H'); [lia|lia|lia|done|done|right; done|]. exists s', a'. split; [done|]. by rewrite take_0 in H'.
  - assert (zlen l = zlen A + (1 + zlen B)) as Hl by (rewrite EA, zlen_app, zlen_cons; lia). rewrite zlen_cons. replace (zlen l - (1 + zlen B)) with (zlen A) by lia. replace (zlen l - 1) with (zlen A + zlen B) by lia.
    rewrite EA, <- app_assoc in F. rewrite (trim_right_ok s t _ a cset A c B Hc (0 :: r) (Z.to_nat (zlen l)) F) by (unfold zlen in *; lia). bnd.
    destruct (strip_end_prefix (strchr cset) (c :: B)) as [D ED]. set (M := strip_end (strchr cset) (c :: B)) in *. assert (zlen M + zlen D = 1 + zlen B) as HM by (rewrite <- zlen_app, <- ED, zlen_cons; done).
    pose proof (zlen_nonneg A). pose proof (zlen_nonneg M). pose proof (zlen_nonneg D). replace (zlen A + zlen M - 1 - zlen A + 1) with (zlen M) by lia. rewrite app_assoc, <- EA in F.
    destruct (move_ok (0 =? zlen A) s t (zlen l) a l r (zlen A) (zlen M) F eq_refl) as (s' & -> & a' & H'); [lia|lia|lia|done|done|intros E; left; lia|]. exists s', a'. split; [done|].
    rewrite EA, ED, drop_app_length', take_app_length' in H' by (unfold zlen in *; lia). done.
Qed.

(** ** Characters *)

Lemma map_loop_ok f Q : forall P Y s t n a, form s t n a (P ++ Q ++ Y) -> exists s', map_loop (length Q) f (zlen P) s = Some s' /\ form s' t n a (P ++ map f Q ++ Y).
Proof.
  induction Q as [|c Q IH]; intros P Y s t n a F; [by exists s|]. cbn [map_loop length map]. rewrite (get_at s t n a P c (Q ++ Y) _ F eq_refl). bnd. unfold set.
  destruct (store_form _ _ _ _ _ (zlen P) [f c] (P ++ f c :: Q ++ Y) F) as (s1 & -> & F1); [by apply (stn_at _ P [c] (Q ++ Y))|]. bnd.
  destruct (IH (P ++ [f c]) Y s1 t n a) as (s' & G & F'); [by rewrite <- app_assoc|]. rewrite zlen_app in G. exists s'. split; [done|]. by rewrite <- app_assoc in F'.
Qed.

Lemma mapped_ok f s l a : holds s l a -> exists s', (len ← sdslen s; map_loop (Z.to_nat len) f 0 s) = Some s' /\ holds s' (map f l) a.
Proof.
  intros H. rewrite (holds_len _ _ _ _ H). bnd. destruct H as (t & r & F & R). destruct (map_loop_ok f l [] (0 :: r) s t (zlen l) a F) as (s' & G & F'). rewrite zlen_nil in G.
  exists s'. unfold zlen at 1. rewrite Nat2Z.id. split; [done|]. exists t, r. assert (zlen (map f l) = zlen l) as -> by (unfold zlen; by rewrite length_map). done.
Qed.

(** ** Lengths *)

(** A C string: what comes before the first null byte. *)
Fixpoint c_string (l : list Z) : list Z := match l with [] => [] | c :: r => if c =? 0 then [] else c :: c_string r end.

Lemma strlen_ok l r : exists Y, strlen_from (l ++ 0 :: r) = Some (zlen (c_string l)) /\ l ++ 0 :: r = c_string l ++ 0 :: Y.
Proof.
  induction l as [|c l [Y [IH1 IH2]]]; [by exists r|]. cbn. destruct (c =? 0) eqn:E; bool_hyps; [subst c; by eexists|]. rewrite IH1. bnd. exists Y. rewrite zlen_cons. split; [f_equal; lia|cbn; by f_equal].
Qed.

Lemma updatelen_ok s l a : holds s l a -> exists s' a', sdsupdatelen s = Some s' /\ holds s' (c_string l) a'.
Proof.
  intros (t & r & F & R1 & R2). unfold sdsupdatelen, strlen. rewrite (f_off _ _ _ _ _ F), (f_blk _ _ _ _ _ F).
  pose proof (zlen_hdr t (zlen l) a (f_ty _ _ _ _ _ F)) as Hh. rewrite drop_app_length' by (unfold zlen in *; lia). destruct (strlen_ok l r) as (Y & -> & E). bnd.
  assert (zlen l + zlen r = zlen (c_string l) + zlen Y) as Hz by (apply (f_equal zlen) in E; rewrite !zlen_app, !zlen_cons in E; lia). rewrite E in F.
  assert (zlen (c_string l) <= zlen l) as Hc.
  { clear. induction l as [|c l IH]; [done|]. cbn. destruct (c =? 0); [apply zlen_nonneg|]. rewrite !zlen_cons. lia. }
  pose proof (f_alloc _ _ _ _ _ F). pose proof (zlen_nonneg (c_string l)). destruct (setlen_form _ _ _ _ _ (zlen (c_string l)) F ltac:(lia)) as (s' & -> & F'). eexists _, _. split; [done|].
  exists t, Y. split; [done|]. unfold alloc_of. pose proof (zlen_nonneg Y). destruct (t =? 0); lia.
Qed.

(** The new length, when it is in the room of the string. *)
Lemma incr_eq s t n a X incr : form s t n a X -> 0 <= n + incr <= a -> n <= a -> in_s 64 incr -> (t = 0 -> incr < 0) ->
  sdsIncrLen s incr = (s1 ← sdssetlen s (n + incr); set s1 (n + incr) 0).
Proof.
  intros F Hi Hna Hs H5. unfold in_s in Hs. change (2 ^ (64 - 1)) with (2 ^ 63) in Hs. destruct (form_flags _ _ _ _ _ F) as (f & Hf & Ht & Hf5). unfold sdsIncrLen, sdssetlen. rewrite Hf. bnd. rewrite Ht.
  assert (forall w x, 0 <= w -> 0 <= x -> wrap w x <= x) as Hw by (intros w x Hw Hx; unfold wrap; apply Z.mod_le; lia).
  pose proof (f_len _ _ _ _ _ F) as Hn. pose proof (f_alloc _ _ _ _ _ F) as Ha. destruct (five_or_wide t (f_ty _ _ _ _ _ F)) as [[E ->]|(w & W & ->)].
  - rewrite (Hf5 E), five_len. specialize (H5 E). rewrite E in Hn, Ha. change (sdsTypeMaxSize 0) with 31 in Hn, Ha. pose proof (Hw 32 (- incr) ltac:(lia) ltac:(lia)).
    assert ((0 <? incr) && (n + incr <? 32) || (incr <? 0) && (u32 (- incr) <=? n) = true) as -> by lia. cbn [assert_]. bnd. by rewrite (u64_small (n + incr)) by lia.
  - rewrite (w_field _ _ W). destruct (fields_form _ _ _ _ _ _ F W) as [-> ->]. bnd. rewrite (w_max _ _ W) in Hn, Ha. rewrite (Z.mod_small (n + incr)) by lia.
    assert ((0 <=? incr) && (if (w =? 8)%nat then u64 incr <=? u64 (a - n) else if (w =? 4)%nat then u32 incr <=? u32 (a - n) else incr <=? a - n) ||
      (incr <? 0) && ((if (w =? 8)%nat then u64 (- incr) else u32 (- incr)) <=? n) = true) as ->; [|done].
    destruct (decide (0 <= incr)) as [Hp|Hp].
    + apply orb_true_intro. left. apply andb_true_intro. split; [lia|].
      destruct (w_w _ _ W) as [->|[->|[->| ->]]]; cbn [Nat.eqb]; cbn in Hn, Ha; rewrite ?wrap_small by lia; lia.
    + apply orb_true_intro. right. apply andb_true_intro. split; [lia|]. destruct (w =? 8)%nat; [pose proof (Hw 64 (- incr) ltac:(lia) ltac:(lia))|pose proof (Hw 32 (- incr) ltac:(lia) ltac:(lia))]; lia.
Qed.

Lemma shorten_ok s l a incr : holds s l a -> incr < 0 -> 0 <= zlen l + incr -> zlen l < 2 ^ 62 -> exists s' a', sdsIncrLen s incr = Some s' /\ holds s' (take (Z.to_nat (zlen l + incr)) l) a'.
Proof.
  intros (t & r & F & R1 & R2) Hi Hl Hb. destruct (cut_at l r (zlen l + incr)) as (c & r' & E & Hz & Hr); [lia|].
  rewrite (incr_eq _ _ _ _ _ incr F) by (first [lia|done|unfold in_s; change (2 ^ (64 - 1)) with (2 ^ 63); lia]). rewrite E in F. set (l' := take _ l) in *. rewrite <- Hz in *.
  destruct (finish s t _ a l' c r' F ltac:(lia) ltac:(lia)) as [_ (s1 & s2 & -> & G2 & H)]. bnd. rewrite G2. by eexists _, _.
Qed.

(** Bytes are written in the room that was made for them. *)
Lemma fill_ok s l a room greedy bs : holds s l a -> 0 < room -> zlen bs <= room -> zlen l + room < 2 ^ 62 ->
  exists s' a', (s ← _sdsMakeRoomFor usable junk s room greedy; s ← store s (zlen l) bs; sdsIncrLen s (zlen bs)) = Some s' /\ holds s' (l ++ bs) a'.
Proof.
  intros H Hr Hbs Hb. pose proof (zlen_nonneg l). pose proof (zlen_nonneg bs). destruct (make_room_ok 0 s l a room greedy H ltac:(lia) Hb) as (s1 & a1 & -> & (t & r & F & R1 & R2) & Ha). bnd.
  destruct (store_at s1 t (zlen l) a1 l (0 :: r) bs F) as (s2 & C & -> & F2 & HC); [rewrite zlen_cons; lia|]. bnd. rewrite zlen_cons in HC. destruct C as [|c C]; [rewrite zlen_nil in HC; lia|]. rewrite zlen_cons in HC.
  rewrite (incr_eq _ _ _ _ _ (zlen bs) F2); [|lia|lia|unfold in_s; change (2 ^ (64 - 1)) with (2 ^ 63); lia|intros E; pose proof (f_five _ _ _ _ _ F2 E); lia].
  rewrite app_assoc in F2. destruct (finish s2 t _ a1 (l ++ bs) c C F2) as [_ (s3 & s4 & G3 & G4 & H4)]; [rewrite zlen_app; lia|rewrite zlen_app; lia|].
  rewrite zlen_app in *. rewrite G3. bnd. rewrite G4. by eexists _, _.
Qed.

(** ** Numbers *)

(** The digits of a number, and a number in decimal. *)
Fixpoint num_digits (fuel : nat) (v : Z) : list Z :=
  match fuel with O => [] | S fuel => if v / 10 =? 0 then [48 + v mod 10] else num_digits fuel (v / 10) ++ [48 + v mod 10] end.
Definition digits20 : Z -> list Z := num_digits 20.
Definition decimal_of (v : Z) : list Z := if v <? 0 then 45 :: digits20 (- v) else digits20 v.

Lemma num_digits_ok fuel : forall v, 0 <= v < 10 ^ Z.of_nat fuel -> 0 < Z.of_nat fuel -> Util.canonical (num_digits fuel v) /\ Util.dval (num_digits fuel v) = v /\ 1 <= zlen (num_digits fuel v) <= Z.of_nat fuel.
Proof.
  induction fuel as [|fuel IH]; intros v Hv Hf; [lia|]. cbn [num_digits]. assert (0 <= v mod 10 < 10) as Hm by (apply Z.mod_pos_bound; lia). pose proof (Z.div_mod v 10 ltac:(lia)) as Hd. case_if E.
  - split_and!; [|unfold Util.dval; cbn; lia|rewrite zlen_cons, zlen_nil; lia|rewrite zlen_cons, zlen_nil; lia]. split; [constructor; [unfold Util.is_digit; lia|constructor]|].
    destruct (decide (v mod 10 = 0)) as [E0|E0]; [left; by rewrite E0|right]. eexists _, _. split; [done|lia].
  - assert (0 <= v / 10 < 10 ^ Z.of_nat fuel) as Hq by (split; [apply Z.div_pos; lia|apply Z.div_lt_upper_bound; [lia|]; rewrite Nat2Z.inj_succ, Z.pow_succ_r in Hv by lia; lia]).
    destruct fuel as [|fuel']; [change (10 ^ Z.of_nat 0) with 1 in Hq; lia|]. destruct (IH (v / 10) Hq ltac:(lia)) as ((C1 & C2) & D & Z1 & Z2). set (ds := num_digits (S fuel') (v / 10)) in *.
    split_and!; [|rewrite Util.dval_app, D; change (zlen [48 + v mod 10]) with 1; unfold Util.dval; cbn; lia|rewrite zlen_app, zlen_cons, zlen_nil; lia|rewrite zlen_app, zlen_cons, zlen_nil; lia].
    split; [apply Forall_app; split; [done|constructor; [unfold Util.is_digit; lia|constructor]]|]. right. destruct C2 as [C2|(c & r & C2 & C3)].
    + rewrite C2 in D. unfold Util.dval in D. cbn in D. lia.
    + rewrite C2. by exists c, (r ++ [48 + v mod 10]).
Qed.

Lemma digits20_ok v : 0 <= v < 10 ^ 20 -> Util.canonical (digits20 v) /\ Util.dval (digits20 v) = v /\ 1 <= zlen (digits20 v) <= 20.
Proof. intros Hv. exact (num_digits_ok 20 v Hv eq_refl). Qed.

Lemma decimal_of_ok v : - 2 ^ 63 <= v < 2 ^ 64 -> Util.decimal (decimal_of v) v /\ zlen (decimal_of v) <= 20.
Proof.
  intros Hv. assert (2 ^ 64 < 10 ^ 20 /\ 2 ^ 63 < 10 ^ 19) as [P1 P2] by (by vm_compute). unfold decimal_of. case_if E.
  - destruct (digits20_ok (- v) ltac:(lia)) as (C & D & Z1 & Z2). split; [right; exists (digits20 (- v)); split; [reflexivity|split; [exact C|split; [|exact D]]]|].
    + intros E'. rewrite E' in D. change (Util.dval [48]) with 0 in D. lia.
    + rewrite zlen_cons. assert (zlen (digits20 (- v)) <= 19); [|lia]. destruct C as [Cd [C2|(c & r & C2 & C3)]]; [rewrite C2; done|].
      rewrite C2 in *. pose proof (Util.dval_head_ge c r Cd C3) as Hge. rewrite D in Hge. assert (zlen r < 19) by (apply Util.pow10_lt_inv; lia). rewrite zlen_cons. lia.
  - destruct (digits20_ok v ltac:(lia)) as (C & D & Z1 & Z2). split; [left; by split|exact Z2].
Qed.

Lemma put_digits_ok fuel : forall v A Y, 0 <= v < 10 ^ Z.of_nat fuel -> 0 < Z.of_nat fuel -> zlen (num_digits fuel v) <= zlen Y ->
  exists Y', put_digits fuel (A ++ Y) (zlen A) v = Some (A ++ reverse (num_digits fuel v) ++ Y', zlen A + zlen (num_digits fuel v)) /\ zlen Y' = zlen Y - zlen (num_digits fuel v).
Proof.
  induction fuel as [|fuel IH]; intros v A Y Hv Hf Hy; [lia|]. cbn [put_digits num_digits] in *. assert (Y <> []) as Hne.
  { intros ->. change (zlen (@nil Z)) with 0 in Hy. destruct (v / 10 =? 0); rewrite ?zlen_app, zlen_cons, zlen_nil in Hy; [lia|]. pose proof (zlen_nonneg (num_digits fuel (v / 10))). lia. }
  destruct Y as [|y Y]; [done|]. unfold st8. rewrite (stn_at _ A [y] Y [48 + v mod 10]) by done. bnd. case_if E.
  - exists Y. rewrite !zlen_cons, zlen_nil. split; [done|lia].
  - assert (0 <= v / 10 < 10 ^ Z.of_nat fuel) as Hq by (split; [apply Z.div_pos; lia|apply Z.div_lt_upper_bound; [lia|]; rewrite Nat2Z.inj_succ, Z.pow_succ_r in Hv by lia; lia]).
    destruct fuel as [|fuel']; [change (10 ^ Z.of_nat 0) with 1 in Hq; lia|]. rewrite zlen_app, !zlen_cons, zlen_nil in Hy.
    destruct (IH (v / 10) (A ++ [48 + v mod 10]) Y Hq ltac:(lia) ltac:(lia)) as (Y' & G & HY). rewrite zlen_app in G. change (zlen [48 + v mod 10]) with 1 in G. rewrite <- !app_assoc in G. cbn [app] in G |- *. rewrite G.
    exists Y'. rewrite reverse_snoc, zlen_app, !zlen_cons, zlen_nil. split; [|lia]. do 2 f_equal. lia.
Qed.

Lemma reverse_bytes_ok k : forall A M C fuel, (length M <= k)%nat -> (length M <= fuel)%nat -> reverse_bytes fuel (A ++ M ++ C) (zlen A) (zlen A + zlen M - 1) = Some (A ++ reverse M ++ C).
Proof.
  induction k as [|k IH]; intros A M C fuel Hk Hf.
  { destruct M; [|cbn in Hk; lia]. assert (zlen A <? zlen A + zlen (@nil Z) - 1 = false) as E by (rewrite zlen_nil; lia). destruct fuel; cbn [reverse_bytes]; by rewrite E. }
  destruct M as [|x M]. { assert (zlen A <? zlen A + zlen (@nil Z) - 1 = false) as E by (rewrite zlen_nil; lia). destruct fuel; cbn [reverse_bytes]; by rewrite E. }
  destruct M as [|y M _] using rev_ind. { assert (zlen A <? zlen A + zlen [x] - 1 = false) as E by (rewrite zlen_cons, zlen_nil; lia). destruct fuel; cbn [reverse_bytes]; by rewrite E. }
  cbn [length] in Hk, Hf. rewrite length_app in Hk, Hf. cbn [length] in Hk, Hf. destruct fuel as [|fuel]; [lia|]. cbn [reverse_bytes]. rewrite zlen_cons, zlen_app. change (zlen [y]) with 1.
  pose proof (zlen_nonneg M). assert (zlen A <? zlen A + (1 + (zlen M + 1)) - 1 = true) as -> by lia. replace (A ++ (x :: M ++ [y]) ++ C) with (A ++ x :: M ++ y :: C) by (cbn; by rewrite <- app_assoc).
  rewrite (ld8_at (A ++ x :: M ++ y :: C) A x (M ++ y :: C) (zlen A) eq_refl eq_refl). bnd. rewrite (ld8_at _ (A ++ x :: M) y C) by (first [by rewrite <- app_assoc|rewrite zlen_app, zlen_cons; lia]). bnd. unfold st8.
  rewrite (stn_at _ A [x] (M ++ y :: C) [y]) by done. bnd. rewrite (stn_at _ (A ++ y :: M) [y] C [x]) by (first [by rewrite <- app_assoc|rewrite zlen_app, zlen_cons; lia|done]). bnd.
  specialize (IH (A ++ [y]) M (x :: C) fuel ltac:(lia) ltac:(lia)). rewrite zlen_app in IH. change (zlen [y]) with 1 in IH. rewrite <- !app_assoc in IH |- *. cbn [app] in IH |- *.
  replace (zlen A + (1 + (zlen M + 1)) - 1 - 1) with (zlen A + 1 + zlen M - 1) by lia. rewrite IH. rewrite reverse_cons, reverse_app. cbn. by rewrite <- !app_assoc.
Qed.

(** What the conversions leave in the buffer: the terminator and the bytes in
    their order. *)
Lemma end_number A B : zlen A <= 20 -> 1 <= zlen B -> exists C, (buf ← st8 (A ++ B) (zlen A) 0; buf ← reverse_bytes (Z.to_nat SDS_LLSTR_SIZE) buf 0 (zlen A - 1); Some (zlen A, buf)) = Some (zlen A, reverse A ++ C).
Proof.
  intros HA HB. destruct B as [|b B]; [rewrite zlen_nil in HB; lia|]. unfold st8. rewrite (stn_at _ A [b] B [0]) by done. bnd.
  pose proof (reverse_bytes_ok (length A) [] A ([0] ++ B) (Z.to_nat SDS_LLSTR_SIZE) ltac:(lia) ltac:(unfold SDS_LLSTR_SIZE, zlen in *; lia)) as Hr. change (zlen (@nil Z)) with 0 in Hr. rewrite Z.add_0_l in Hr. cbn [app] in Hr |- *. rewrite Hr. by exists (0 :: B).
Qed.

Lemma digits21 v : 0 <= v < 10 ^ 20 -> num_digits 21 v = digits20 v.
Proof.
  intros Hv. destruct (digits20_ok v Hv) as (C & D & _). destruct (num_digits_ok 21 v) as (C' & D' & _); [|done|apply Util.canonical_inj; congruence].
  change (Z.of_nat 21) with 21. assert (10 ^ 20 < 10 ^ 21) by (by vm_compute). lia.
Qed.

Lemma put_all v buf : 0 <= v < 10 ^ 20 -> zlen buf = 21 -> exists Y, put_digits (Z.to_nat SDS_LLSTR_SIZE) buf 0 v = Some (reverse (digits20 v) ++ Y, zlen (digits20 v)) /\ zlen Y = 21 - zlen (digits20 v).
Proof.
  intros Hv Hb. destruct (digits20_ok v Hv) as (_ & _ & Z1 & Z2). change (Z.to_nat SDS_LLSTR_SIZE) with 21%nat.
  assert (10 ^ 20 < 10 ^ 21) as Hlt by (by vm_compute). destruct (put_digits_ok 21 v [] buf) as (Y & G & HY); [change (Z.of_nat 21) with 21; lia|done|rewrite (digits21 v Hv); lia|].
  rewrite (digits21 v Hv) in G, HY. exists Y. split; [exact G|lia].
Qed.

Lemma ll2str_ok buf v : zlen buf = 21 -> in_s 64 v -> exists C, sdsll2str buf v = Some (zlen (decimal_of v), decimal_of v ++ C).
Proof.
  intros Hb Hv. unfold in_s in Hv. change (2 ^ (64 - 1)) with (2 ^ 63) in Hv. assert (2 ^ 63 < 10 ^ 19 /\ 10 ^ 19 < 10 ^ 20) as [P1 P2] by (by vm_compute).
  unfold sdsll2str. assert ((if v <? 0 then if v =? INT64_MIN then u64 (INT64_MAX + 1) else u64 (- v) else v) = Z.abs v) as ->.
  { unfold INT64_MIN, INT64_MAX. case_if E; [case_if E'|]; [subst v; done|rewrite u64_small; lia|lia]. }
  destruct (put_all (Z.abs v) buf ltac:(lia) Hb) as (Y & -> & HY). bnd. destruct (decimal_of_ok v ltac:(lia)) as [_ Hd]. unfold decimal_of in *. destruct (v <? 0) eqn:Ev; bool_hyps.
  - rewrite Z.abs_neq in * by lia. rewrite zlen_cons in Hd. destruct Y as [|y Y]; [rewrite zlen_nil in HY; lia|]. rewrite zlen_cons in HY.
    assert (zlen (reverse (digits20 (- v))) = zlen (digits20 (- v))) as Hr by (unfold zlen; by rewrite length_reverse).
    assert (st8 (reverse (digits20 (- v)) ++ y :: Y) (zlen (digits20 (- v))) 45 = Some (reverse (digits20 (- v)) ++ [45] ++ Y)) as -> by (apply (stn_at _ (reverse (digits20 (- v))) [y] Y [45]); (reflexivity || by rewrite Hr)).
    bnd. rewrite app_assoc.
    assert (zlen (digits20 (- v)) + 1 = zlen (reverse (digits20 (- v)) ++ [45])) as -> by (rewrite zlen_app, Hr; reflexivity).
    destruct (end_number (reverse (digits20 (- v)) ++ [45]) Y) as (C & ->); [rewrite zlen_app, Hr; change (zlen [45]) with 1; lia|lia|]. exists C. rewrite reverse_snoc, reverse_involutive, zlen_cons, zlen_app, Hr. change (zlen [45]) with 1. do 2 f_equal. lia.
  - rewrite Z.abs_eq in * by lia. assert (zlen (reverse (digits20 v)) = zlen (digits20 v)) as Hr by (unfold zlen; by rewrite length_reverse). bnd. rewrite <- Hr.
    destruct (end_number (reverse (digits20 v)) Y) as (C & ->); [lia|lia|]. exists C. by rewrite reverse_involutive.
Qed.

Lemma ull2str_ok buf v : zlen buf = 21 -> in_u 64 v -> exists C, sdsull2str buf v = Some (zlen (decimal_of v), decimal_of v ++ C).
Proof.
  intros Hb Hv. unfold in_u in Hv. assert (2 ^ 64 < 10 ^ 20) as P1 by (by vm_compute). unfold sdsull2str. destruct (put_all v buf ltac:(lia) Hb) as (Y & -> & HY). bnd.
  destruct (decimal_of_ok v ltac:(lia)) as [_ Hd]. unfold decimal_of in *. assert (v <? 0 = false) as Ev by lia. rewrite Ev in *.
  assert (zlen (reverse (digits20 v)) = zlen (digits20 v)) as Hr by (unfold zlen; by rewrite length_reverse). rewrite <- Hr.
  destruct (end_number (reverse (digits20 v)) Y) as (C & ->); [lia|lia|]. exists C. by rewrite reverse_involutive.
Qed.

Lemma zlen_buf : zlen (llstr_buf junk) = 21.
Proof. unfold llstr_buf. by rewrite zlen_replicate. Qed.

Lemma fromlonglong_ok v : in_s 64 v -> exists s a, sdsfromlonglong usable junk v = Some s /\ holds s (decimal_of v) a.
Proof.
  intros Hv. unfold sdsfromlonglong. destruct (ll2str_ok _ v zlen_buf Hv) as (C & ->). bnd. assert (- 2 ^ 63 <= v < 2 ^ 64) as Hv' by (unfold in_s in Hv; change (2 ^ (64 - 1)) with (2 ^ 63) in Hv; lia).
  destruct (decimal_of_ok v Hv') as [_ Hd]. pose proof (zlen_nonneg (decimal_of v)). set (d := decimal_of v) in *.
  assert (sdsnewlen usable junk (Init (d ++ C)) (zlen d) = sdsnewlen usable junk (Init d) (zlen d)) as ->.
  { unfold sdsnewlen, _sdsnewlen. assert (ldn (d ++ C) 0 (zlen d) = ldn d 0 (zlen d)) as ->; [|done].
    rewrite (ldn_at' d [] d []) by (done || by rewrite app_nil_r). by rewrite (ldn_at' (d ++ C) [] d C). }
  apply (newlen_ok (Init d) (zlen d)); [lia|]. by intros bs [= ->].
Qed.

(** ** Formatting *)

(** Arguments with the bytes of the strings, and the text a format makes of
    them; [None] when they are not those the format asks for. *)
Inductive farg := FStr (bs : list Z) | FSds (bs : list Z) | FInt (v : Z) | FLL (v : Z) | FUint (v : Z) | FULL (v : Z).

Definition arg_text (next : Z) (a : farg) : option (list Z) :=
  match a with
  | FStr bs => if next =? 115 then Some bs else None
  | FSds bs => if next =? 83 then Some bs else None
  | FInt v => if next =? 105 then Some (decimal_of v) else None
  | FLL v => if next =? 73 then Some (decimal_of v) else None
  | FUint v => if next =? 117 then Some (decimal_of v) else None
  | FULL v => if next =? 85 then Some (decimal_of v) else None
  end.

Fixpoint formatted (f : list Z) (ap : list farg) : option (list Z) :=
  match f with
  | [] => Some []
  | c :: f =>
      if c =? 37 then
        match f with
        | [] => Some []
        | next :: f =>
            if takes_arg next then
              match ap with [] => None | a :: ap => bs ← arg_text next a; r ← formatted f ap; Some (bs ++ r) end
            else r ← formatted f ap; Some (next :: r)
        end
      else r ← formatted f ap; Some (c :: r)
  end.

(** An argument of the code and what it stands for. *)
Definition arg_ok (x : fmt_arg) (a : farg) : Prop :=
  match x, a with
  | ArgStr bs, FStr bs' => bs = bs'
  | ArgSds t, FSds bs => exists al, holds t bs al
  | ArgInt v, FInt v' => v = v' /\ in_s 32 v
  | ArgLL v, FLL v' => v = v' /\ in_s 64 v
  | ArgUint v, FUint v' => v = v' /\ in_u 32 v
  | ArgULL v, FULL v' => v = v' /\ in_u 64 v
  | _, _ => False
  end.

Lemma load_number (d C : list Z) : ldn (d ++ C) 0 (zlen d) = Some d.
Proof. by apply (ldn_at' _ [] d C). Qed.

Lemma fmt_value_ok x a next bs : arg_ok x a -> arg_text next a = Some bs -> fmt_value junk next x = Some bs.
Proof.
  intros Hx Ha. assert (forall v, in_s 32 v -> in_s 64 v) as Hs by (unfold in_s; intros v; change (2 ^ (32 - 1)) with (2 ^ 31); change (2 ^ (64 - 1)) with (2 ^ 63); lia).
  assert (forall v, in_u 32 v -> in_u 64 v) as Hu by (unfold in_u; lia).
  destruct x, a; cbn [arg_ok] in Hx; try contradiction; unfold arg_text, fmt_value in *.
  - by rewrite Hx.
  - destruct (next =? 83); [|congruence]. destruct Hx as [al Hx]. injection Ha as <-. rewrite (holds_len _ _ _ _ Hx). bnd. exact (holds_load _ _ _ _ Hx).
  - destruct (next =? 105); [|congruence]. destruct Hx as [<- Hx]. destruct (ll2str_ok _ v zlen_buf (Hs v Hx)) as (C & ->). bnd. rewrite load_number. exact Ha.
  - destruct (next =? 73); [|congruence]. destruct Hx as [<- Hx]. destruct (ll2str_ok _ v zlen_buf Hx) as (C & ->). bnd. rewrite load_number. exact Ha.
  - destruct (next =? 117); [|congruence]. destruct Hx as [<- Hx]. destruct (ull2str_ok _ v zlen_buf (Hu v Hx)) as (C & ->). bnd. rewrite load_number. exact Ha.
  - destruct (next =? 85); [|congruence]. destruct Hx as [<- Hx]. destruct (ull2str_ok _ v zlen_buf Hx) as (C & ->). bnd. rewrite load_number. exact Ha.
Qed.

Lemma inclen_eq s t n a X inc : form s t n a X -> 0 <= inc -> n + inc <= a -> sdsinclen s inc = sdssetlen s (n + inc).
Proof.
  intros F Hi Hn. destruct (form_flags _ _ _ _ _ F) as (f & Hf & Ht & Hf5). unfold sdsinclen, sdssetlen. rewrite Hf. bnd. rewrite Ht.
  pose proof (f_alloc _ _ _ _ _ F) as Ha. pose proof (f_len _ _ _ _ _ F) as Hl. destruct (five_or_wide t (f_ty _ _ _ _ _ F)) as [[E ->]|(w & W & ->)].
  - rewrite (Hf5 E), five_len. rewrite E in Ha. change (sdsTypeMaxSize 0) with 31 in Ha. rewrite (wrap_small 8 (n + inc)) by (change (2 ^ 8) with 256; lia). done.
  - rewrite (w_field _ _ W). destruct (fields_form _ _ _ _ _ _ F W) as [-> _]. done.
Qed.

(** Bytes are added in the room of the string, without the terminator. *)
Lemma append_bytes c s l a bs : held c s l a -> zlen l + zlen bs <= a -> exists s' c' a', (s ← store s (zlen l) bs; sdsinclen s (zlen bs)) = Some s' /\ held c' s' (l ++ bs) a'.
Proof.
  intros (t & r & F & R1 & R2) Hr. pose proof (zlen_nonneg bs). destruct (store_at s t (zlen l) a l (c :: r) bs F) as (s1 & C & -> & F1 & HC); [rewrite zlen_cons; lia|]. bnd. rewrite zlen_cons in HC.
  rewrite (inclen_eq _ _ _ _ _ (zlen bs) F1) by lia. pose proof (f_alloc _ _ _ _ _ F1). pose proof (zlen_nonneg l). destruct (setlen_form _ _ _ _ _ (zlen l + zlen bs) F1 ltac:(lia)) as (s2 & -> & F2).
  destruct C as [|c' C]; [change (zlen (@nil Z)) with 0 in HC; lia|]. rewrite zlen_cons in HC. eexists _, c', _. split; [done|]. exists t, C. rewrite zlen_app, <- app_assoc. split; [exact F2|].
  unfold alloc_of. pose proof (zlen_nonneg C). destruct (t =? 0); lia.
Qed.

Lemma fmt_bytes_ok c s l a bs : held c s l a -> zlen l + zlen bs < 2 ^ 62 -> exists s' c' a', fmt_bytes usable junk s (zlen l) bs = Some (s', zlen l + zlen bs) /\ held c' s' (l ++ bs) a'.
Proof.
  intros H Hb. pose proof (zlen_nonneg bs). unfold fmt_bytes. rewrite (holds_avail _ _ _ _ H). bnd.
  assert (exists s1 a1, (if a - zlen l <? zlen bs then sdsMakeRoomFor usable junk s (zlen bs) else Some s) = Some s1 /\ held c s1 l a1 /\ zlen l + zlen bs <= a1) as (s1 & a1 & -> & H1 & R1).
  { case_if E; [unfold sdsMakeRoomFor; apply (make_room_ok c s l a); done|]. exists s, a. split_and!; [done|done|lia]. }
  bnd. destruct (append_bytes c s1 l a1 bs H1 R1) as (s2 & c' & a' & G & H2). destruct (store s1 (zlen l) bs) as [s3|] eqn:E; [|discriminate G]. cbn in G |- *. rewrite G. cbn. by eexists _, c', a'.
Qed.

Lemma fmt_char_ok c s l a b : held c s l a -> zlen l + 1 <= a -> exists s' c' a', fmt_char s (zlen l) b = Some (s', zlen l + 1) /\ held c' s' (l ++ [b]) a'.
Proof.
  intros H Hr. unfold fmt_char, set. destruct (append_bytes c s l a [b] H Hr) as (s2 & c' & a' & G & H2). destruct (store s (zlen l) [b]) as [s3|] eqn:E; [|discriminate G].
  cbn in G |- *. change (Z.of_nat 1) with 1 in G. change (zlen [b]) with 1 in G. rewrite G. cbn. by eexists _, c', a'.
Qed.

Lemma room_one c s l a : held c s l a -> zlen l + 1 < 2 ^ 62 ->
  exists s1 a1, (avail ← sdsavail s; if avail =? 0 then sdsMakeRoomFor usable junk s 1 else Some s) = Some s1 /\ held c s1 l a1 /\ zlen l + 1 <= a1.
Proof.
  intros H Hb. rewrite (holds_avail _ _ _ _ H). bnd. pose proof (holds_room _ _ _ _ H). case_if E; [unfold sdsMakeRoomFor; apply (make_room_ok c s l a); (done || lia)|].
  exists s, a. split_and!; [done|done|lia].
Qed.

Lemma fmt_loop_ok k : forall f ap aq bs c s l a, (length f <= k)%nat -> Forall2 arg_ok ap aq -> formatted f aq = Some bs -> held c s l a -> zlen l + zlen bs + 1 < 2 ^ 62 ->
  exists s' c' a', fmt_loop usable junk f ap s (zlen l) = Some (s', zlen l + zlen bs) /\ held c' s' (l ++ bs) a'.
Proof.
  assert (forall (l : list Z) x r, zlen (l ++ x) + zlen r = zlen l + zlen (x ++ r)) as Hz by (intros; rewrite !zlen_app; lia).
  induction k as [|k IH]; intros f ap aq bs c s l a Hk Hap Hf H Hb.
  { destruct f; [|cbn in Hk; lia]. cbn in Hf. injection Hf as <-. change (zlen (@nil Z)) with 0. rewrite Z.add_0_r, app_nil_r. by eexists _, c, a. }
  destruct f as [|x f]; [cbn in Hf; injection Hf as <-; change (zlen (@nil Z)) with 0; rewrite Z.add_0_r, app_nil_r; by eexists _, c, a|].
  cbn [formatted fmt_loop length] in Hf, Hk |- *. pose proof (zlen_nonneg bs). destruct (room_one c s l a H ltac:(lia)) as (s1 & a1 & G1 & H1 & R1).
  destruct (sdsavail s) as [av|]; [|discriminate G1]. cbn [mbind option_bind] in G1. bnd. rewrite G1. bnd.
  assert (forall b f' ap' aq' r, (length f' <= k)%nat -> Forall2 arg_ok ap' aq' -> formatted f' aq' = Some r -> bs = b :: r ->
    exists s' c' a', ('(s, i) ← fmt_char s1 (zlen l) b; fmt_loop usable junk f' ap' s i) = Some (s', zlen l + zlen bs) /\ held c' s' (l ++ bs) a') as Hchar.
  { intros b f' ap' aq' r Hk' Hap' Hr ->. destruct (fmt_char_ok c s1 l a1 b H1 R1) as (s2 & c2 & a2 & -> & H2). bnd. change (b :: r) with ([b] ++ r) in *. specialize (Hz l [b] r).
    destruct (IH f' ap' aq' r c2 s2 (l ++ [b]) a2 Hk' Hap' Hr H2 ltac:(lia)) as (s3 & c3 & a3 & G3 & H3). rewrite Hz, zlen_app in G3. rewrite <- app_assoc in H3. by eexists _, c3, a3. }
  case_if E; [|destruct (formatted f aq) as [r|] eqn:Er; [|discriminate Hf]; injection Hf as <-; apply (Hchar x f ap aq r); (done || lia)].
  destruct f as [|next f]; [injection Hf as <-; change (zlen (@nil Z)) with 0; rewrite Z.add_0_r, app_nil_r; by eexists _, c, a1|]. cbn [length] in Hk.
  destruct (takes_arg next); [|destruct (formatted f aq) as [r|] eqn:Er; [|discriminate Hf]; injection Hf as <-; apply (Hchar next f ap aq r); (done || lia)].
  destruct Hap as [|x' y ap aq Hxy Hap]; [discriminate Hf|]. destruct (arg_text next y) as [bs1|] eqn:Ea; [|discriminate Hf]. cbn [mbind option_bind] in Hf. destruct (formatted f aq) as [r|] eqn:Er; [|discriminate Hf]. injection Hf as <-.
  rewrite (fmt_value_ok x' y next bs1 Hxy Ea). bnd. specialize (Hz l bs1 r). rewrite zlen_app in *. pose proof (zlen_nonneg r) as Hr0. destruct (fmt_bytes_ok c s1 l a1 bs1 H1 ltac:(lia)) as (s2 & c2 & a2 & -> & H2). bnd.
  destruct (IH f ap aq r c2 s2 (l ++ bs1) a2 ltac:(lia) Hap Er H2 ltac:(rewrite zlen_app; lia)) as (s3 & c3 & a3 & G3 & H3). rewrite zlen_app in G3. rewrite <- app_assoc in H3. rewrite G3. eexists _, c3, a3. split; [do 2 f_equal; lia|done].
Qed.

Lemma catfmt_ok s l a fmt ap aq bs : holds s l a -> Forall2 arg_ok ap aq -> formatted fmt aq = Some bs -> zlen l + zlen bs + 2 * zlen fmt + 1 < 2 ^ 62 ->
  exists s' a', sdscatfmt usable junk s fmt ap = Some s' /\ holds s' (l ++ bs) a'.
Proof.
  intros H Hap Hf Hb. pose proof (zlen_nonneg l) as Hl0. pose proof (zlen_nonneg bs) as Hb0. pose proof (zlen_nonneg fmt) as Hf0. unfold sdscatfmt. rewrite (holds_len _ _ _ _ H). bnd. rewrite u64_small by lia. unfold sdsMakeRoomFor at 1.
  destruct (make_room_ok 0 s l a (zlen fmt * 2) true H ltac:(lia) ltac:(lia)) as (s1 & a1 & -> & H1 & _). bnd.
  destruct (fmt_loop_ok (length fmt) fmt ap aq bs 0 s1 l a1 ltac:(lia) Hap Hf H1 ltac:(lia)) as (s2 & c & a2 & -> & (t & r & F & R1 & R2)). bnd. rewrite <- zlen_app.
  destruct (store_form s2 t _ a2 _ (zlen (l ++ bs)) [0] ((l ++ bs) ++ [0] ++ r) F) as (s3 & G3 & F3); [by apply (stn_at _ (l ++ bs) [c] r)|]. unfold set. rewrite G3. exists s3, a2. split; [done|]. by exists t, r.
Qed.

(** ** Splitting and joining *)

(** Strings with a separator between them. *)
Fixpoint joined (sep : list Z) (args : list (list Z)) : list Z :=
  match args with [] => [] | a :: args => a ++ match args with [] => [] | _ => sep ++ joined sep args end end.

Lemma join_loop_ok sep args : forall s l a, holds s l a -> zlen l + zlen (joined sep args) < 2 ^ 62 -> exists s' a', join_loop usable junk args sep s = Some s' /\ holds s' (l ++ joined sep args) a'.
Proof.
  induction args as [|x args IH]; intros s l a H Hb; [exists s, a; by rewrite app_nil_r|]. cbn [join_loop joined] in *. rewrite zlen_app in Hb.
  pose proof (zlen_nonneg x) as Hx. assert (0 <= zlen (match args with [] => [] | _ => sep ++ joined sep args end)) as Hr by apply zlen_nonneg.
  destruct (catlen_ok s l a x H ltac:(lia)) as (s1 & a1 & -> & H1). bnd. destruct args as [|y args]; [bnd; cbn [join_loop]; rewrite app_nil_r; by exists s1, a1|].
  rewrite zlen_app in Hb. pose proof (zlen_nonneg sep). pose proof (zlen_nonneg (joined sep (y :: args))) as Hj.
  destruct (catlen_ok s1 (l ++ x) a1 sep H1 ltac:(rewrite zlen_app; lia)) as (s2 & a2 & -> & H2). bnd.
  destruct (IH s2 ((l ++ x) ++ sep) a2 H2 ltac:(rewrite !zlen_app; lia)) as (s3 & a3 & G & H3). exists s3, a3. split; [exact G|]. by rewrite <- !app_assoc in H3.
Qed.

(** Each string of an array holds its bytes. *)
Definition all_hold : list sds -> list (list Z) -> Prop := Forall2 (fun t bs => exists a, holds t bs a).

Lemma all_bytes_ok toks args : all_hold toks args -> all_bytes toks = Some args.
Proof. induction 1 as [|t bs toks args [a H] _ IH]; [done|]. cbn [all_bytes]. rewrite (holds_len _ _ _ _ H). bnd. rewrite (holds_load _ _ _ _ H). bnd. by rewrite IH. Qed.

Lemma joinsds_ok sep toks args : all_hold toks args -> zlen (joined sep args) < 2 ^ 62 -> exists s a, sdsjoinsds usable junk toks sep = Some s /\ holds s (joined sep args) a.
Proof.
  intros H Hb. unfold sdsjoinsds, sdsempty. rewrite (all_bytes_ok _ _ H). bnd. destruct (newlen_ok (Init []) 0) as (s & a & -> & Hs); [lia|by intros bs [= <-]|]. bnd.
  apply (join_loop_ok sep args s [] a Hs). change (zlen (@nil Z)) with 0. lia.
Qed.

(** [sep] occurs in [t]. *)
Definition occurs (sep t : list Z) : Prop := exists P Q, t = P ++ sep ++ Q.
(** The occurrences in [T ++ R] are all in [R]. *)
Definition clear (sep T R : list Z) : Prop := forall P Q, T ++ R = P ++ sep ++ Q -> (length T <= length P)%nat.

Lemma clear_token sep T R : sep <> [] -> clear sep T (sep ++ R) -> ~ occurs sep T.
Proof.
  intros Hs Hc (P & Q & ->). specialize (Hc P (Q ++ sep ++ R)). rewrite !length_app in Hc. destruct sep; [done|]. cbn [length] in Hc. specialize (Hc ltac:(by rewrite <- !app_assoc)). lia.
Qed.
Lemma clear_end sep T R : (length R < length sep)%nat -> clear sep T R -> ~ occurs sep (T ++ R).
Proof. intros Hl Hc (P & Q & E). specialize (Hc P Q E). apply (f_equal length) in E. rewrite !length_app in E. lia. Qed.
Lemma clear_step sep T c R : clear sep T (c :: R) -> (forall Q, c :: R <> sep ++ Q) -> clear sep (T ++ [c]) R.
Proof.
  intros Hc Hn P Q E. rewrite <- app_assoc in E. pose proof (Hc P Q E) as H. rewrite length_app. cbn [length]. destruct (decide (length T = length P)) as [El|El]; [|lia].
  apply app_inj_1 in E as [_ E]; [|done]. by destruct (Hn Q).
Qed.

(** What precedes the token that is read: the tokens before it, each with a
    separator. *)
Definition ended (sep : list Z) (args : list (list Z)) : list Z := concat (map (fun t => t ++ sep) args).
Lemma joined_snoc sep args t : joined sep (args ++ [t]) = ended sep args ++ t.
Proof.
  induction args as [|x args IH]; [cbn; by rewrite app_nil_r|]. unfold ended in *. cbn [app joined map concat]. rewrite IH. destruct args; cbn [app]; by rewrite <- !app_assoc.
Qed.

Lemma ended_tokens sep args toks : 1 <= zlen sep -> all_hold toks args -> zlen toks <= zlen (ended sep args).
Proof.
  intros Hs H. induction H as [|t bs toks args _ _ IH]; [done|]. unfold ended in *. cbn [map concat]. rewrite zlen_cons, !zlen_app. pose proof (zlen_nonneg bs). lia.
Qed.

Lemma split_loop_ok sep fuel : sep <> [] -> forall args toks slots T R, all_hold toks args -> zlen toks < slots -> 2 <= slots -> (length R <= fuel)%nat ->
  clear sep T R -> Forall (fun t => ~ occurs sep t) args -> zlen (ended sep args ++ T ++ R) < 2 ^ 30 ->
  exists args' toks' slots' T', split_loop usable junk fuel (ended sep args ++ T ++ R) sep (zlen (ended sep args) + zlen T) (zlen (ended sep args)) slots toks = Some (zlen (ended sep args'), toks', slots') /\
    all_hold toks' args' /\ zlen toks' < slots' /\ Forall (fun t => ~ occurs sep t) (args' ++ [T']) /\ ended sep args ++ T ++ R = ended sep args' ++ T'.
Proof.
  intros Hsep. assert (1 <= zlen sep) as Hs1 by (destruct sep; [done|rewrite zlen_cons; pose proof (zlen_nonneg sep); lia]).
  induction fuel as [|fuel IH]; intros args toks slots T R Hh Hsl Hs2 Hf Hc Hno Hb.
  { destruct R; [|cbn in Hf; lia]. cbn [split_loop]. rewrite !zlen_app. change (zlen (@nil Z)) with 0.
    assert (zlen (ended sep args) + zlen T <? zlen (ended sep args) + (zlen T + 0) - (zlen sep - 1) = false) as -> by lia. exists args, toks, slots, T. rewrite app_nil_r. split_and!; try done.
    apply Forall_app. split; [done|]. constructor; [|constructor]. rewrite <- (app_nil_r T). apply clear_end; [|done]. destruct sep; [done|cbn; lia]. }
  cbn [split_loop]. destruct (zlen (ended sep args) + zlen T <? zlen (ended sep args ++ T ++ R) - (zlen sep - 1)) eqn:E; bool_hyps; rewrite !zlen_app in E.
  2: { exists args, toks, slots, (T ++ R). split_and!; try done. apply Forall_app. split; [done|]. constructor; [|constructor]. apply clear_end; [unfold zlen in E; lia|done]. }
  assert (exists sl, (if slots <? zlen toks + 2 then int_double slots else Some slots) = Some sl /\ zlen toks + 2 <= sl) as (sl & -> & Hsl').
  { pose proof (ended_tokens sep args toks Hs1 Hh). rewrite !zlen_app in Hb. pose proof (zlen_nonneg T). unfold int_double. case_if E2; [|exists slots; split; [done|lia]].
    assert (slots * 2 <=? 2 ^ 31 - 1 = true) as -> by lia. eexists. split; [done|lia]. }
  bnd. destruct (split_at R (zlen sep)) as (B & C & -> & HB); [lia|]. rewrite (ldn_at' (ended sep args ++ T ++ B ++ C) (ended sep args ++ T) B C (zlen (ended sep args) + zlen T) (zlen sep)); [|by rewrite <- !app_assoc|rewrite zlen_app; lia|lia]. bnd.
  pose proof (zlen_nonneg (ended sep args)). pose proof (zlen_nonneg T). pose proof (zlen_nonneg toks). pose proof (zlen_nonneg C). rewrite !zlen_app in Hb. case_bool_decide as EB.
  - subst B. assert (zlen toks <? sl = true) as -> by lia. cbn [assert_]. bnd. replace (zlen (ended sep args) + zlen T - zlen (ended sep args)) with (zlen T) by lia.
    rewrite (ldn_at' _ (ended sep args) T (sep ++ C)) by done. bnd. destruct (newlen_ok (Init T) (zlen T)) as (t & a & -> & Ht); [lia|by intros bs [= <-]|]. bnd.
    assert (ended sep (args ++ [T]) = ended sep args ++ T ++ sep) as Ee by (unfold ended; rewrite map_app, concat_app; cbn; by rewrite app_nil_r).
    destruct (IH (args ++ [T]) (toks ++ [t]) sl [] C) as (args' & toks' & sl' & T' & G & R1 & R2 & R3 & R4).
    + apply Forall2_app; [done|]. constructor; [by exists a|constructor].
    + rewrite zlen_app. change (zlen [t]) with 1. lia.
    + lia.
    + rewrite length_app in Hf. unfold zlen in Hs1. lia.
    + intros P Q _. cbn. lia.
    + apply Forall_app. split; [done|]. constructor; [by apply (clear_token sep T C)|constructor].
    + rewrite Ee. cbn [app]. rewrite !zlen_app. lia.
    + exists args', toks', sl', T'. rewrite Ee in G, R4. cbn [app] in G, R4. rewrite <- !app_assoc in G, R4. change (zlen (@nil Z)) with 0 in G. rewrite !zlen_app in G.
      split_and!; [|done..]. rewrite <- G. f_equal; lia.
  - destruct B as [|c B]; [change (zlen (@nil Z)) with 0 in HB; lia|]. destruct (IH args toks sl (T ++ [c]) (B ++ C)) as (args' & toks' & sl' & T' & G & R1 & R2 & R3 & R4); try done; try lia.
    + cbn [app length] in Hf. lia.
    + apply clear_step; [done|]. intros Q EQ. apply EB. change (c :: B ++ C) with ((c :: B) ++ C) in EQ. apply app_inj_1 in EQ as [-> _]; [done|]. unfold zlen in HB. lia.
    + rewrite <- app_assoc, !zlen_app. change (zlen [c]) with 1. rewrite zlen_cons in Hb. lia.
    + exists args', toks', sl', T'. rewrite <- app_assoc, zlen_app in G. rewrite <- app_assoc in R4. cbn [app] in G, R4 |- *. split_and!; [|done..]. rewrite <- G. f_equal; change (zlen [c]) with 1; lia.
Qed.

Lemma splitlen_ok s sep : sep <> [] -> s <> [] -> zlen s < 2 ^ 30 ->
  exists toks args, sdssplitlen usable junk s sep = Some (Some toks) /\ all_hold toks args /\ joined sep args = s /\ Forall (fun t => ~ occurs sep t) args.
Proof.
  intros Hsep Hs Hb. unfold sdssplitlen. assert (forall l : list Z, l <> [] -> 1 <= zlen l) as Hl by (intros [|x l] Hx; [done|rewrite zlen_cons; pose proof (zlen_nonneg l); lia]).
  pose proof (Hl sep Hsep). pose proof (Hl s Hs). assert ((zlen sep <? 1) || (zlen s <=? 0) = false) as -> by lia.
  destruct (split_loop_ok sep (length s) Hsep [] [] 5 [] s) as (args & toks & slots & T & G & Hh & Hsl & Hno & E); [constructor|done|lia|done|intros P Q _; cbn; lia|constructor|done|].
  change (ended sep []) with (@nil Z) in G, E. cbn [app] in G, E. change (zlen (@nil Z) + zlen (@nil Z)) with 0 in G. change (zlen (@nil Z)) with 0 in G. rewrite G. bnd. assert (zlen toks <? slots = true) as -> by lia. cbn [assert_]. bnd.
  assert (zlen s - zlen (ended sep args) = zlen T) as -> by (rewrite E at 1; rewrite zlen_app; lia). rewrite (ldn_at' s (ended sep args) T []) by (rewrite ?app_nil_r; done). bnd.
  pose proof (zlen_nonneg T). pose proof (zlen_nonneg (ended sep args)). rewrite E, zlen_app in Hb. destruct (newlen_ok (Init T) (zlen T)) as (t & a & -> & Ht); [lia|by intros bs [= <-]|]. bnd.
  exists (toks ++ [t]), (args ++ [T]). split_and!; [done|apply Forall2_app; [done|constructor; [by exists a|constructor]]|by rewrite joined_snoc|done].
Qed.


End alloc.


End SdsOps.
