(* ===== verification/SdsRun.v ===== *)
(** * Sequences of operations on dynamic strings (src/redis-stable/src/sds.c)

    A dynamic string behaves like a string of bytes: the operations of Sds.v run
    in sequence on a block of memory ([sds_run]), and the same operations run on
    the bytes ([text_run]).  Splitting and joining are inverse to each other.
    With jemalloc, [sdsResize] can leave a header that does not fit. *)
From stdpp Require Import base list.
From S2P Require Import Prelude Util Sds SdsOps.

Module SdsRun.
Import Sds SdsOps.

(** [SRead] is how the server reads from a socket: room is made for [room]
    bytes, fewer may be written there, and sdsIncrLen adds their length.
    [SShorten] is sdsIncrLen with a negative increment; after [SDup] the
    operations go on with the copy. *)
Inductive sds_op :=
  | SCat (bs : list Z)
  | SCatSds (bs : list Z)
  | SCatFmt (fmt : list Z) (args : list farg)
  | SCpy (bs : list Z)
  | SGrowZero (n : Z)
  | SRead (room : Z) (greedy : bool) (bs : list Z)
  | SShorten (n : Z)
  | SUpdateLen
  | SClear
  | STrim (cset : list Z)
  | SSubstr (start len : Z)
  | SRange (start end_ : Z)
  | SLower
  | SUpper
  | SMapChars (from to : list Z)
  | SMakeRoom (n : Z) (greedy : bool)
  | SResize (size : Z) (would_regrow : bool)
  | SRemoveFree (would_regrow : bool)
  | SDup.

(** ** On bytes *)

Definition when (b : bool) (l : list Z) : option (list Z) := if b then Some l else None.
Definition below (n : Z) : bool := (0 <=? n) && (n <? 2 ^ 62).
Definition is_s64 (n : Z) : bool := (- 2 ^ 63 <=? n) && (n <? 2 ^ 63).
(** The integers of the arguments of a format have their types. *)
Definition arg_range (a : farg) : bool :=
  match a with
  | FStr _ => true
  | FSds bs => zlen bs <? 2 ^ 62
  | FInt v => (- 2 ^ 31 <=? v) && (v <? 2 ^ 31)
  | FLL v => is_s64 v
  | FUint v => (0 <=? v) && (v <? 2 ^ 32)
  | FULL v => (0 <=? v) && (v <? 2 ^ 64)
  end.

(** [None] where the caller breaks the contract of the operation. *)
Definition text_exec (o : sds_op) (l : list Z) : option (list Z) :=
  match o with
  | SCat bs | SCatSds bs => Some (l ++ bs)
  | SCatFmt fmt args =>
      bs ← formatted fmt args;
      when (forallb arg_range args && (zlen l + zlen bs + 2 * zlen fmt + 1 <? 2 ^ 62)) (l ++ bs)
  | SCpy bs => Some bs
  | SGrowZero n => when (below n) (l ++ replicate (Z.to_nat (n - zlen l)) 0)
  | SRead room _ bs => when ((0 <? room) && (zlen bs <=? room) && below (zlen l + room)) (l ++ bs)
  | SShorten n => when ((0 <? n) && (n <=? zlen l)) (take (Z.to_nat (zlen l - n)) l)
  | SUpdateLen => Some (c_string l)
  | SClear => Some []
  | STrim cset => Some (trimmed cset l)
  | SSubstr start len => when ((0 <=? start) && (0 <=? len)) (take (Z.to_nat len) (drop (Z.to_nat start) l))
  | SRange start end_ => when (is_s64 start && is_s64 end_) (range_of l start end_)
  | SLower => Some (map tolower l)
  | SUpper => Some (map toupper l)
  | SMapChars from to => Some (map (mapped from to) l)
  | SMakeRoom n _ => when ((0 <=? n) && below (zlen l + n)) l
  | SResize size _ => when (below size) (take (Z.to_nat size) l)
  | SRemoveFree _ => Some l
  | SDup => Some l
  end.

(** The strings stay below 2^62 bytes. *)
Fixpoint text_run (os : list sds_op) (l : list Z) : option (list Z) :=
  match os with
  | [] => Some l
  | o :: os => l ← text_exec o l; if zlen l <? 2 ^ 62 then text_run os l else None
  end.

(** ** On blocks of memory *)

Section exec.

Context (usable : Z -> Z) (junk : Z) (jemalloc : bool).

Definition make_arg (a : farg) : option fmt_arg :=
  match a with
  | FStr bs => Some (ArgStr bs)
  | FSds bs => t ← sdsnewlen usable junk (Init bs) (zlen bs); Some (ArgSds t)
  | FInt v => Some (ArgInt v)
  | FLL v => Some (ArgLL v)
  | FUint v => Some (ArgUint v)
  | FULL v => Some (ArgULL v)
  end.

Definition sds_exec (o : sds_op) (s : sds) : option sds :=
  match o with
  | SCat bs => sdscatlen usable junk s bs
  | SCatSds bs => t ← sdsnewlen usable junk (Init bs) (zlen bs); sdscatsds usable junk s t
  | SCatFmt fmt args => ap ← mapM make_arg args; sdscatfmt usable junk s fmt ap
  | SCpy bs => sdscpylen usable junk s bs
  | SGrowZero n => sdsgrowzero usable junk s n
  | SRead room greedy bs =>
      len ← sdslen s;
      s ← _sdsMakeRoomFor usable junk s room greedy;
      s ← store s len bs;
      sdsIncrLen s (zlen bs)
  | SShorten n => sdsIncrLen s (- n)
  | SUpdateLen => sdsupdatelen s
  | SClear => sdsclear s
  | STrim cset => sdstrim s cset
  | SSubstr start len => sdssubstr s start len
  | SRange start end_ => sdsrange s start end_
  | SLower => sdstolower s
  | SUpper => sdstoupper s
  | SMapChars from to => sdsmapchars s from to
  | SMakeRoom n greedy => _sdsMakeRoomFor usable junk s n greedy
  | SResize size would_regrow => sdsResize usable junk jemalloc s size would_regrow
  | SRemoveFree would_regrow => sdsRemoveFreeSpace usable junk jemalloc s would_regrow
  | SDup => sdsdup usable junk s
  end.

Fixpoint sds_run (os : list sds_op) (s : sds) : option sds :=
  match os with [] => Some s | o :: os => s ← sds_exec o s; sds_run os s end.

(** No resizing of the run keeps a block or a header that the new size does not
    fit in: those are the resizings, in builds with jemalloc, that find the
    block in the size class of the new size. *)
Fixpoint resizes_fit (os : list sds_op) (s : sds) : bool :=
  match os with
  | [] => true
  | o :: os =>
      match o with SResize size would_regrow => resize_fits usable jemalloc s size would_regrow | _ => true end &&
      match sds_exec o s with Some s => resizes_fit os s | None => true end
  end.

End exec.

(** The string of [s]: its length, its bytes, its terminator, and what it has
    room for, which is inside the block. *)
Record contains (s : sds) (l : list Z) : Prop := {
  c_len : sdslen s = Some (zlen l);
  c_bytes : load s 0 (zlen l) = Some l;
  c_end : get s (zlen l) = Some 0;
  c_room : exists a, sdsalloc s = Some a /\ sdsavail s = Some (a - zlen l) /\ zlen l <= a /\ off s + a + 1 <= zlen (blk s) /\
    sdsAllocSize s = Some (u64 (off s + a + 1))
}.

(** ** The simulation *)

Section proofs.

Context (usable : Z -> Z) (junk : Z) (jemalloc : bool).
Context (usable_ok : forall n, 0 <= n < 2 ^ 63 -> n <= usable n < 2 ^ 64).

Lemma holds_contains s l a : holds s l a -> contains s l.
Proof.
  intros H. split; [by eapply holds_len|by eapply holds_load|destruct H as (t & r & F & _); by apply (get_at s t (zlen l) a l 0 r)|]. exists a.
  split_and!; [by eapply holds_alloc|by eapply holds_avail|by eapply holds_room| |]; destruct H as (t & r & F & R1 & R2).
  - rewrite (f_off _ _ _ _ _ F), (f_blk _ _ _ _ _ F), zlen_app, (zlen_hdr t (zlen l) a (f_ty _ _ _ _ _ F)), zlen_app, zlen_cons. lia.
  - unfold sdsAllocSize. rewrite (alloc_form _ _ _ _ _ F). bnd. destruct (form_flags _ _ _ _ _ F) as (f & -> & Ht & _). bnd. by rewrite (ty_hdr_flags t f Ht), (f_off _ _ _ _ _ F).
Qed.

Lemma make_args_ok args : forallb arg_range args = true -> exists ap, mapM (make_arg usable junk) args = Some ap /\ Forall2 arg_ok ap args.
Proof.
  induction args as [|x args IH]; intros H; [by exists []|]. cbn [forallb] in H. apply andb_prop in H as [Hx H]. destruct (IH H) as (ap & E & Hap).
  assert (exists y, make_arg usable junk x = Some y /\ arg_ok y x) as (y & Ey & Hy).
  { destruct x as [bs|bs|v|v|v|v]; cbn [make_arg arg_range] in *; unfold is_s64 in *; bool_hyps; try (eexists; split; [done|]; unfold arg_ok, in_s, in_u; lia).
    - by eexists.
    - pose proof (zlen_nonneg bs). destruct (newlen_ok usable junk usable_ok (Init bs) (zlen bs)) as (t & a & -> & Ht); [lia|by intros bs' [= <-]|]. bnd. eexists. split; [done|]. by exists a. }
  exists (y :: ap). split; [|by constructor]. cbn. rewrite Ey. cbn. by rewrite E.
Qed.

Lemma sds_exec_ok o s l a l' : holds s l a -> zlen l < 2 ^ 62 -> text_exec o l = Some l' -> zlen l' < 2 ^ 62 ->
  (match o with SResize size wr => resize_fits usable jemalloc s size wr | _ => true end) = true -> exists s' a', sds_exec usable junk jemalloc o s = Some s' /\ holds s' l' a'.
Proof.
  assert (forall b x, when b x = Some l' -> b = true /\ x = l') as Hw by (intros [] x; [by intros [= ->]|done]). assert (forall n, is_s64 n = true -> in_s 64 n) as H64 by (unfold is_s64, in_s; intros; bool_hyps; done).
  intros H Hl Ht Hl' Hfit. pose proof (zlen_nonneg l) as Hl0. destruct o; cbn [text_exec sds_exec] in *.
  - injection Ht as <-. rewrite zlen_app in Hl'. by apply (catlen_ok usable junk usable_ok s l a).
  - injection Ht as <-. rewrite zlen_app in Hl'. pose proof (zlen_nonneg bs). destruct (newlen_ok usable junk usable_ok (Init bs) (zlen bs)) as (t & a2 & -> & H2); [lia|by intros bs' [= <-]|]. bnd.
    unfold sdscatsds. rewrite (holds_len _ _ _ _ H2). bnd. rewrite (holds_load _ _ _ _ H2). by apply (catlen_ok usable junk usable_ok s l a).
  - destruct (formatted fmt args) as [bs|] eqn:Ef; [|discriminate Ht]. apply Hw in Ht as [Hb <-]. apply andb_prop in Hb as [Ha Hb]. bool_hyps.
    destruct (make_args_ok args Ha) as (ap & -> & Hap). bnd. by apply (catfmt_ok usable junk usable_ok s l a fmt ap args bs).
  - injection Ht as <-. by apply (cpylen_ok usable junk usable_ok s l a).
  - apply Hw in Ht as [Hb <-]. unfold below in Hb. bool_hyps. by apply (growzero_ok usable junk usable_ok s l a).
  - apply Hw in Ht as [Hb <-]. unfold below in Hb. bool_hyps. rewrite (holds_len _ _ _ _ H). bnd. by apply (fill_ok usable junk usable_ok s l a).
  - apply Hw in Ht as [Hb <-]. bool_hyps. apply (shorten_ok s l a (- n)); [done|lia|lia|done].
  - injection Ht as <-. by apply (updatelen_ok s l a).
  - injection Ht as <-. by apply (clear_ok s l a).
  - injection Ht as <-. by apply (trim_ok s l a).
  - apply Hw in Ht as [Hb <-]. bool_hyps. by apply (substr_ok s l a).
  - apply Hw in Ht as [Hb <-]. apply andb_prop in Hb as [H1 H2]. by apply (sdsrange_ok s l a); auto.
  - injection Ht as <-. destruct (mapped_ok tolower s l a H) as (s' & G & H'). by exists s', a.
  - injection Ht as <-. destruct (mapped_ok toupper s l a H) as (s' & G & H'). by exists s', a.
  - injection Ht as <-. destruct (mapped_ok (mapped from to) s l a H) as (s' & G & H'). by exists s', a.
  - apply Hw in Ht as [Hb <-]. unfold below in Hb. bool_hyps. destruct (make_room_ok usable junk usable_ok 0 s l a n greedy H ltac:(lia) ltac:(lia)) as (s' & a' & G & H' & _). by exists s', a'.
  - apply Hw in Ht as [Hb <-]. unfold below in Hb. bool_hyps. by apply (resize_ok usable junk usable_ok jemalloc s l a).
  - injection Ht as <-. unfold sdsRemoveFreeSpace. rewrite (holds_len _ _ _ _ H). bnd. destruct (resize_ok usable junk usable_ok jemalloc s l a (zlen l) would_regrow H ltac:(lia) Hl (room_fits usable jemalloc s l a (zlen l) would_regrow H (holds_room _ _ _ _ H))) as (s' & a' & G & H').
    rewrite take_ge in H' by (unfold zlen; lia). by exists s', a'.
  - injection Ht as <-. by apply (sdsdup_ok usable junk usable_ok s l a).
Qed.

Lemma sds_run_ok os : forall s l a l', holds s l a -> zlen l < 2 ^ 62 -> text_run os l = Some l' -> resizes_fit usable junk jemalloc os s = true -> exists s' a', sds_run usable junk jemalloc os s = Some s' /\ holds s' l' a'.
Proof.
  induction os as [|o os IH]; intros s l a l' H Hl Ht Hfit; cbn [text_run sds_run resizes_fit] in *; [injection Ht as <-; by exists s, a|]. apply andb_prop in Hfit as [Hf Hfit]. destruct (text_exec o l) as [l1|] eqn:E; [|discriminate Ht]. cbn [mbind option_bind] in Ht.
  destruct (zlen l1 <? 2 ^ 62) eqn:E1; [|discriminate Ht]. bool_hyps. destruct (sds_exec_ok o s l a l1 H Hl E E1 Hf) as (s1 & a1 & G & H1). rewrite G in Hfit |- *. bnd. by apply (IH s1 l1 a1).
Qed.

End proofs.

(** C14: Dynamic strings refine strings of bytes.  From a new string, any
    sequence of appends (of bytes, strings and formats), copies, reads into the
    room of the string, truncations, trims, substrings, case and character
    mappings, growth, resizing, and copies of the string, runs without an access
    outside the block or a failed assertion; the string has at the end the bytes
    that the same operations give on byte strings, terminated, with the room it
    claims inside its block.  The strings stay below 2^62 bytes, the allocator is
    any that gives at least what is asked for, and one case of sdsResize is
    excluded: in a build with jemalloc, a resizing that keeps the block because
    it has the size class of the new size, although the new size does not fit in
    the header it keeps or in the block after it.  The last theorem is what
    happens then. *)
Theorem sds_simulates usable junk jemalloc i os l :
  (forall n, 0 <= n < 2 ^ 63 -> n <= usable n < 2 ^ 64) -> zlen i < 2 ^ 62 -> text_run os i = Some l ->
  exists s0, sdsnewlen usable junk (Init i) (zlen i) = Some s0 /\ contains s0 i /\
    (resizes_fit usable junk jemalloc os s0 = true -> exists s, sds_run usable junk jemalloc os s0 = Some s /\ contains s l).
Proof.
  intros Hu Hi Ht. pose proof (zlen_nonneg i). destruct (newlen_ok usable junk Hu (Init i) (zlen i)) as (s0 & a0 & G0 & H0); [lia|by intros bs [= <-]|].
  exists s0. split_and!; [done|by eapply holds_contains|]. intros Hf. destruct (sds_run_ok usable junk jemalloc Hu os s0 i a0 l H0 Hi Ht Hf) as (s & a & G & H'). exists s. split; [done|by eapply holds_contains].
Qed.

(** The size classes of jemalloc. *)
Definition size_class (n : Z) : Z :=
  if n <=? 8 then 8 else let d := if n <=? 128 then 16 else 2 ^ (Z.log2 (n - 1) - 2) in (n + d - 1) / d * d.

Lemma size_class_ok n : 0 <= n < 2 ^ 63 -> n <= size_class n < 2 ^ 64.
Proof.
  intros Hn. unfold size_class. case_if E; [lia|]. assert (forall d, 0 < d < 2 ^ 63 -> n <= (n + d - 1) / d * d < 2 ^ 64) as Hd.
  { intros d Hd. pose proof (Z.div_mod (n + d - 1) d ltac:(lia)). pose proof (Z.mod_pos_bound (n + d - 1) d ltac:(lia)). lia. }
  cbv zeta. case_if E1; [apply Hd; lia|]. apply Hd. assert (7 <= Z.log2 (n - 1) < 63) as Hl by (split; [change 7 with (Z.log2 128); apply Z.log2_le_mono; lia|apply Z.log2_lt_pow2; lia]).
  split; [apply Z.pow_pos_nonneg; lia|apply Z.pow_lt_mono_r; lia].
Qed.

(** A run with every operation. *)
Definition sds_demo : list sds_op :=
  [SCpy [104; 105]; SClear; SCat [97; 98; 99; 32]; SCatSds [68; 69]; SCatFmt [45; 37; 105; 37; 83; 37] [FInt (-42); FSds [120; 121]]; SUpper; SLower; SMapChars [97; 98] [98; 97];
   SMakeRoom 300 true; SRead 10 false [32; 33; 32]; STrim [32]; SRange 0 (-2); SSubstr 1 100; SShorten 1; SGrowZero 40; SUpdateLen; SDup; SResize 300 true; SResize 9 false; SRemoveFree true; SCat [33]].

(** The run in a build with jemalloc, from the string x, gives ac de--42! *)
Lemma sds_simulates_witness : exists s0 s, sdsnewlen size_class 170 (Init [120]) (zlen [120]) = Some s0 /\ sds_run size_class 170 true sds_demo s0 = Some s /\
  contains s [97; 99; 32; 100; 101; 45; 45; 52; 50; 33].
Proof.
  destruct (sds_simulates size_class 170 true [120] sds_demo [97; 99; 32; 100; 101; 45; 45; 52; 50; 33] size_class_ok) as (s0 & G & _ & H); [done|by vm_compute|].
  assert (match sdsnewlen size_class 170 (Init [120]) (zlen [120]) with Some s => resizes_fit size_class 170 true sds_demo s | None => true end = true) as Hf by (by vm_compute).
  rewrite G in Hf. destruct (H Hf) as (s & G' & C). exists s0, s. split_and!; assumption.
Defined.

(** ** Splitting and joining *)

(** C39: Splitting a string at a separator and joining the tokens gives the
    string back.  sdssplitlen returns for every non-empty string and separator, of
    lengths for which the ints of the code do not overflow; no token contains the
    separator, and sdsjoinsds of the tokens with it is a string with the bytes
    that were split. *)
Theorem sdssplitlen_joins usable junk s sep :
  (forall n, 0 <= n < 2 ^ 63 -> n <= usable n < 2 ^ 64) -> sep <> [] -> s <> [] -> zlen s < 2 ^ 30 -> zlen sep < 2 ^ 31 ->
  exists toks args j, sdssplitlen usable junk s sep = Some (Some toks) /\ Forall2 contains toks args /\ Forall (fun t => ~ occurs sep t) args /\
    sdsjoinsds usable junk toks sep = Some j /\ contains j s.
Proof.
  intros Hu Hsep Hs Hb _. destruct (splitlen_ok usable junk Hu s sep Hsep Hs Hb) as (toks & args & G & Hh & E & Hno). destruct (joinsds_ok usable junk Hu sep toks args Hh ltac:(rewrite E; lia)) as (j & a & Gj & Hj).
  exists toks, args, j. rewrite E in Hj. split_and!; [done| |done|done|by eapply holds_contains]. eapply Forall2_impl; [exact Hh|]. intros t bs [a' Ht]. by eapply holds_contains.
Qed.

(** A string with six separators, which make the array of tokens grow. *)
Lemma sdssplitlen_joins_witness : exists toks args j, sdssplitlen size_class 0 [97; 44; 32; 44; 44; 32; 98; 44; 32; 44; 32; 99; 44; 32; 44; 32; 100] [44; 32] = Some (Some toks) /\
  Forall2 contains toks args /\ Forall (fun t => ~ occurs [44; 32] t) args /\ sdsjoinsds size_class 0 toks [44; 32] = Some j /\
  contains j [97; 44; 32; 44; 44; 32; 98; 44; 32; 44; 32; 99; 44; 32; 44; 32; 100].
Proof. apply sdssplitlen_joins; [exact size_class_ok|done..]. Defined.

(** ** The query buffer *)

Lemma no_jemalloc_fits usable s size wr : resize_fits usable false s size wr = true.
Proof. unfold resize_fits, keeps_block. by destruct (get s (-1)). Qed.

(** Without jemalloc the resizing keeps the bytes of the buffer, and the new
    peak is what is in use or awaited. *)
Lemma querybuf_kept usable junk unixtime c l a : (forall n, 0 <= n < 2 ^ 63 -> n <= usable n < 2 ^ 64) -> holds (querybuf c) l a ->
  zlen l < 2 ^ 62 -> 0 <= querybuf_peak c < 2 ^ 62 -> bulklen c = -1 \/ 0 <= bulklen c < 2 ^ 62 ->
  exists c', clientsCronResizeQueryBuffer usable junk false unixtime c = Some c' /\ contains (querybuf c') l /\ querybuf_peak c' = Z.max (zlen l) (bulklen c).
Proof.
  intros Hu H Hl Hp Hk. pose proof (zlen_nonneg l) as Hl0. unfold clientsCronResizeQueryBuffer. rewrite (holds_alloc _ _ _ _ H). bnd. rewrite (holds_avail _ _ _ _ H). bnd.
  assert (forall size, zlen l <= size < 2 ^ 62 -> exists s a', sdsResize usable junk false (querybuf c) size true = Some s /\ holds s l a') as Hr.
  { intros size Hs. destruct (resize_ok usable junk Hu false (querybuf c) l a size true H ltac:(lia) Hl (no_jemalloc_fits usable (querybuf c) size true)) as (s & a' & G & Hh). rewrite take_ge in Hh by (unfold zlen in *; lia). by exists s, a'. }
  assert (forall b, b = bulklen c -> (negb (b =? -1)) = true -> u64 b = b) as Hu64 by (intros b -> Hb; apply wrap_small; bool_hyps; lia).
  match goal with |- context [mbind _ ?e] => assert (exists s a', e = Some s /\ holds s l a') as (s & a' & -> & Hs) end.
  { repeat case_if E; try (by exists (querybuf c), a).
    - unfold sdsRemoveFreeSpace. rewrite (holds_len _ _ _ _ H). bnd. apply Hr. lia.
    - rewrite (holds_len _ _ _ _ H). bnd. apply Hr. destruct (bulklen c =? -1) eqn:Eb; bool_hyps; cbn [negb andb]; [repeat case_if E'; lia|]. rewrite (Hu64 (bulklen c)) by (done || lia). repeat case_if E'; lia. }
  bnd. rewrite (holds_len _ _ _ _ Hs). bnd. eexists. split; [done|]. split; [by eapply holds_contains|]. cbn [querybuf_peak].
  destruct (bulklen c =? -1) eqn:Eb; bool_hyps; cbn [negb andb]; [lia|]. rewrite (Hu64 (bulklen c)) by (done || lia). case_if E; lia.
Qed.

(** ** Resizing beyond the header *)

(** The type of the header is too small for [size], so the string should move. *)
Lemma too_large_type t size : ty t -> 0 <= size < 2 ^ 62 -> sdsTypeMaxSize t < size ->
  let t' := sdsReqType size in ty t' /\ (t =? t') || ((t' <? t) && (SDS_TYPE_8 <? t')) = false /\ t' <> SDS_TYPE_5.
Proof.
  intros T Hs Hm t'. destruct (req_type size ltac:(lia)) as [T' Hm']. fold t' in T', Hm'. pose proof (ty_max t T). split; [done|]. split.
  - pose proof (max_mono t t' T T') as Hmono. apply orb_false_intro; [destruct (t =? t') eqn:E; [apply Z.eqb_eq in E; rewrite E in Hm; lia|done]|].
    destruct (t' <? t) eqn:E; [|done]. bool_hyps. lia.
  - intros E. rewrite E in Hm'. change (sdsTypeMaxSize SDS_TYPE_5) with 31 in Hm'. lia.
Qed.

Lemma le_enc_mod w : forall v, le_enc w (v mod 256 ^ Z.of_nat w) = le_enc w v.
Proof.
  induction w as [|w IH]; intros v; [done|]. rewrite Nat2Z.inj_succ, Z.pow_succ_r by lia. pose proof (Z.pow_pos_nonneg 256 (Z.of_nat w) ltac:(lia) ltac:(lia)).
  rewrite Z.rem_mul_r by lia. cbn [le_enc]. rewrite (Z.mul_comm 256), Z.mod_add, Z.mod_mod, Z.div_add by lia. rewrite (Z.div_small (v mod 256)) by (apply Z.mod_pos_bound; lia). by rewrite Z.add_0_l, IH.
Qed.

Lemma setalloc_truncates s t w n a X size : form s t n a X -> wide t w -> sdssetalloc s size = sdssetalloc s (size mod 256 ^ Z.of_nat w).
Proof.
  intros F W. destruct (form_flags _ _ _ _ _ F) as (f & Hf & Ht & _). unfold sdssetalloc. rewrite Hf. bnd. rewrite Ht. destruct (t =? SDS_TYPE_5); [done|]. rewrite (w_field _ _ W). unfold set_hdr_alloc.
  by rewrite le_enc_mod.
Qed.

(** What is left of a size in a field of [w] bytes. *)
Definition truncated (size : Z) (w : nat) : Z := size mod 256 ^ Z.of_nat w.

(** C40: With jemalloc, sdsResize can leave a string that claims room it does not
    have.  When the block of a string already has the size class of the new size,
    the block is kept and so is the header, also when the new size needs a header
    with larger fields: then the new size is truncated to the field.  If what is
    left of it is less than the length, the free space of the string wraps
    around to [v], sdsMakeRoomFor does nothing for up to [v] bytes, and the
    bytes that an append of them copies after the string go past the end of the
    block.  The query buffers of clients are resized this way while a large
    argument is awaited. *)
Theorem sdsResize_overflow usable junk s l a r t w size wr :
  form s t (zlen l) a (l ++ 0 :: r) -> wide t w -> zlen l <= a -> a <= zlen l + zlen r ->
  sdsTypeMaxSize t < size < 2 ^ 62 -> truncated size w < zlen l -> usable (sdsHdrSize (sdsReqType size) + size + 1) = zlen (blk s) ->
  exists s' v, sdsResize usable junk true s size wr = Some s' /\ zlen (blk s') = zlen (blk s) /\ off s' = off s /\
    sdslen s' = Some (zlen l) /\ sdsalloc s' = Some (truncated size w) /\
    sdsavail s' = Some v /\ v = 2 ^ (if (w =? 4)%nat then 32 else 64) - (zlen l - truncated size w) /\
    forall bs, zlen bs <= v -> sdsMakeRoomFor usable junk s' (zlen bs) = Some s' /\
      (zlen (blk s') < off s' + zlen l + zlen bs -> store s' (zlen l) bs = None /\ sdscatlen usable junk s' bs = None).
Proof.
  intros F W R1 R2 Hs Hmod Hu. unfold truncated in *. pose proof (f_ty _ _ _ _ _ F) as T. pose proof (zlen_nonneg l) as Hl. pose proof (f_alloc _ _ _ _ _ F) as Ha. pose proof (f_len _ _ _ _ _ F) as Hn.
  destruct (too_large_type t size T ltac:(lia) ltac:(lia)) as (T' & Huse & Ht5). cbv zeta in T', Huse, Ht5. pose proof (ty_hdr _ T') as Hh'. destruct (form_flags _ _ _ _ _ F) as (f & Hf & Ht & _).
  assert (0 <= size mod 256 ^ Z.of_nat w < 256 ^ Z.of_nat w) as Hb by (apply Z.mod_pos_bound; apply Z.pow_pos_nonneg; lia). set (b := size mod 256 ^ Z.of_nat w) in *.
  unfold sdsResize. rewrite Hf. bnd. rewrite (len_form _ _ _ _ _ F), (alloc_form _ _ _ _ _ F), Ht. bnd. replace (a =? size) with false by lia. cbv iota.
  replace (size <? zlen l) with false by lia. replace (wr && (sdsReqType size =? SDS_TYPE_5)) with false by (destruct wr; [cbn; lia|done]). cbv iota zeta. rewrite Huse, u64_small, Hu, Z.eqb_refl by lia. cbn [andb negb].
  destruct (store_form _ _ _ _ _ (zlen l) [0] (l ++ 0 :: r) F) as (s1 & G1 & F1); [by apply (stn_at _ l [0] r)|]. bnd. unfold set. rewrite G1. bnd.
  destruct (setlen_form _ _ _ _ _ (zlen l) F1 Hn) as (s2 & -> & F2). bnd. rewrite (setalloc_truncates _ _ _ _ _ _ size F2 W). fold b.
  destruct (setalloc_form _ _ _ _ _ b F2 ltac:(rewrite (w_max _ _ W); lia)) as (s3 & -> & F3). pose proof (w_t _ _ W) as Hw0.
  assert (alloc_of t (zlen l) b = b) as Eb by (unfold alloc_of; replace (t =? 0) with false by lia; done). rewrite Eb in F3.
  assert (zlen (blk s3) = zlen (blk s)) as Hz by (rewrite (f_blk _ _ _ _ _ F3), (f_blk _ _ _ _ _ F), !zlen_app, !zlen_hdr by done; lia).
  assert (off s3 = off s) as Ho by (rewrite (f_off _ _ _ _ _ F3), (f_off _ _ _ _ _ F); done).
  assert (sdsavail s3 = Some (2 ^ (if (w =? 4)%nat then 32 else 64) - (zlen l - b))) as Hav.
  { destruct (form_flags _ _ _ _ _ F3) as (f3 & Hf3 & Ht3 & _). unfold sdsavail. rewrite Hf3. bnd. rewrite Ht3. replace (t =? SDS_TYPE_5) with false by (unfold SDS_TYPE_5; lia).
    rewrite (w_field _ _ W). destruct (fields_form _ _ _ _ _ _ F3 W) as [-> ->]. bnd. f_equal. rewrite (w_max _ _ W) in Hn. unfold field_sub.
    destruct (w_w _ _ W) as [->|[->|[->| ->]]]; cbn [Nat.eqb] in *; cbn in Hn; unfold wrap;
      match goal with |- _ mod ?m = _ => replace (b - zlen l) with (m - (zlen l - b) + (-1) * m) by lia; rewrite Z.mod_add, Z.mod_small by lia; done end. }
  exists s3, (2 ^ (if (w =? 4)%nat then 32 else 64) - (zlen l - b)). split_and!; [done|done|done|by eapply len_form|by eapply alloc_form|done|done|]. intros bs Hbs.
  assert (sdsMakeRoomFor usable junk s3 (zlen bs) = Some s3) as Hm.
  { unfold sdsMakeRoomFor, _sdsMakeRoomFor. rewrite Hav. bnd. destruct (form_flags _ _ _ _ _ F3) as (f3 & -> & _). bnd. by replace (zlen bs <=? _) with true by lia. }
  split; [done|]. intros Hover. assert (store s3 (zlen l) bs = None) as Hst.
  { unfold store. destruct (stn _ _ _) as [b'|] eqn:E; [|done]. apply stn_Some in E as (_ & E & _). lia. }
  split; [done|]. unfold sdscatlen. rewrite (len_form _ _ _ _ _ F3). bnd. rewrite Hm. bnd. by rewrite Hst.
Qed.

(** A string of 253 bytes gets a block of 320, for which its header can tell 255:
    resized to 300 it claims 44, and an append of 100 bytes leaves the block. *)
Definition string_253 : list Z := replicate 253 97.
Lemma sdsResize_overflow_witness :
  exists s s' v, sdsnewlen size_class 0 (Init string_253) 253 = Some s /\ sdsResize size_class 0 true s 300 true = Some s' /\ zlen (blk s') = zlen (blk s) /\ off s' = off s /\
    sdslen s' = Some (zlen string_253) /\ sdsalloc s' = Some (truncated 300 1) /\ sdsavail s' = Some v /\ v = 2 ^ 64 - (zlen string_253 - truncated 300 1) /\
    forall bs, zlen bs <= v -> sdsMakeRoomFor size_class 0 s' (zlen bs) = Some s' /\
      (zlen (blk s') < off s' + zlen string_253 + zlen bs -> store s' (zlen string_253) bs = None /\ sdscatlen size_class 0 s' bs = None).
Proof.
  exists (mkSds (hdr 1 253 255 ++ string_253 ++ 0 :: replicate 63 0) 3).
  destruct (sdsResize_overflow size_class 0 (mkSds (hdr 1 253 255 ++ string_253 ++ 0 :: replicate 63 0) 3) string_253 255 (replicate 63 0) 1 1 300 true) as (s' & v & H).
  - split; try done; cbv; auto; split; congruence.
  - split; try done; lia.
  - by vm_compute.
  - by vm_compute.
  - by vm_compute.
  - by vm_compute.
  - by vm_compute.
  - exists s', v. split; [by vm_compute|exact H].
Defined.

(** The cron resizes a query buffer in this way. *)
Lemma querybuf_resized usable junk unixtime c l a t w r : form (querybuf c) t (zlen l) a (l ++ 0 :: r) -> wide t w -> zlen l <= a -> 1024 * 4 < a - zlen l ->
  unixtime - lastinteraction c <= 2 -> PROTO_RESIZE_THRESHOLD < a -> querybuf_peak c < a / 2 -> Z.max (zlen l) (querybuf_peak c) < bulklen c < 2 ^ 62 -> 0 <= querybuf_peak c ->
  clientsCronResizeQueryBuffer usable junk true unixtime c =
    (s ← sdsResize usable junk true (querybuf c) (bulklen c) true; len ← sdslen s; Some (mkClient s (if len <? bulklen c then bulklen c else len) (bulklen c) (lastinteraction c))).
Proof.
  intros F W R1 Ha Hi Hp Hk Hb Hp0. pose proof (zlen_nonneg l). unfold clientsCronResizeQueryBuffer. rewrite (alloc_form _ _ _ _ _ F), (avail_form _ _ _ _ _ F R1), (len_form _ _ _ _ _ F). bnd.
  replace (1024 * 4 <? a - zlen l) with true by lia. replace (2 <? unixtime - lastinteraction c) with false by lia. replace (PROTO_RESIZE_THRESHOLD <? a) with true by lia. replace (querybuf_peak c <? a / 2) with true by lia. cbn [andb].
  rewrite (u64_small (bulklen c)) by lia. replace (bulklen c =? -1) with false by lia. cbn [negb andb]. replace ((if zlen l <? querybuf_peak c then querybuf_peak c else zlen l) <? bulklen c) with true by (case_if E; lia). done.
Qed.

End SdsRun.
