(* ===== verification/Quicklist.v ===== *)
(** * Quicklist (src/redis-stable/src/quicklist.c)

    A list of strings as a doubly linked list of nodes, each of which holds a
    listpack of several elements or one large element; the nodes far from the
    two ends are compressed.  A node is an address in a heap, with the links,
    the sizes and the flags of the code.  [None] is a null or dangling pointer
    that is followed, a failed assertion, or bytes read as what they are not.

    The quicklist calls two other components, which it knows by their
    interfaces: [Packed] has the operations of the listpack and [Compression]
    those of LZF.  What they promise is in [PackedLaws] and
    [CompressionLaws].

    Left out: bookmarks (they are set only by the active defragmentation of
    memory), the debug output, and the fields of the test builds. *)
From stdpp Require Import base list gmap.
From S2P Require Import Prelude Util.

Module Quicklist.

(** ** Interfaces *)

(** The operations of listpack.h.  A pointer into a listpack is an offset.
    The inner option of a result is the null pointer that is returned when
    the listpack would be too large; lpGetValue returns the place and length of
    a string, or an integer. *)
Class Packed := {
  lpNew : Z -> option (list Z);
  lpPrepend : list Z -> list Z -> option (option (list Z));
  lpAppend : list Z -> list Z -> option (option (list Z));
  lpInsertString : list Z -> list Z -> Z -> Z -> option (option (list Z));
  lpReplace : list Z -> Z -> list Z -> option (option (list Z * option Z));
  lpDelete : list Z -> Z -> option (option (list Z * option Z));
  lpDeleteRange : list Z -> Z -> Z -> option (list Z);
  lpSeek : list Z -> Z -> option (option Z);
  lpNext : list Z -> Z -> option (option Z);
  lpPrev : list Z -> Z -> option (option Z);
  lpGetValue : list Z -> Z -> option (Z * Z + Z);
  lpCompare : list Z -> Z -> list Z -> option bool;
  lpLength : list Z -> option (Z * list Z);
  lpBytes : list Z -> option Z;
  lpMerge : list Z -> list Z -> option (option (list Z) * option (list Z) * option (list Z)) }.

Definition LP_BEFORE : Z := 0.
Definition LP_AFTER : Z := 1.

(** The operations of lzf.h.  The first argument numbers the calls: the
    table that the compressor does not initialise and the address of its input
    can be others in each call. *)
Class Compression := {
  lzf_compress : nat -> list Z -> list Z -> option (Z * list Z);
  lzf_decompress : list Z -> list Z -> option (Z * list Z) }.

(** ** Data *)

Abbreviation addr := positive.

Definition QUICKLIST_NODE_ENCODING_RAW : Z := 1.
Definition QUICKLIST_NODE_ENCODING_LZF : Z := 2.
Definition QUICKLIST_NODE_CONTAINER_PLAIN : Z := 1.
Definition QUICKLIST_NODE_CONTAINER_PACKED : Z := 2.
Definition QUICKLIST_HEAD : Z := 0.
Definition QUICKLIST_TAIL : Z := -1.
Definition AL_START_HEAD : Z := 0.
Definition AL_START_TAIL : Z := 1.

(** What the entry of a node points to: nothing, bytes, or a quicklistLZF. *)
Inductive node_entry := Null | Bytes (b : list Z) | Lzf (sz : Z) (compressed : list Z).

Record quicklistNode := mkNode {
  prev : option addr; next : option addr; entry : node_entry; sz : Z; count : Z; encoding : Z; container : Z;
  recompress : bool; dont_compress : bool }.

Definition set_prev (p : option addr) (n : quicklistNode) : quicklistNode :=
  mkNode p (next n) (entry n) (sz n) (count n) (encoding n) (container n) (recompress n) (dont_compress n).
Definition set_next (p : option addr) (n : quicklistNode) : quicklistNode :=
  mkNode (prev n) p (entry n) (sz n) (count n) (encoding n) (container n) (recompress n) (dont_compress n).
Definition set_entry (e : node_entry) (k : Z) (enc : Z) (n : quicklistNode) : quicklistNode :=
  mkNode (prev n) (next n) e k (count n) enc (container n) (recompress n) (dont_compress n).
Definition set_count (c : Z) (n : quicklistNode) : quicklistNode :=
  mkNode (prev n) (next n) (entry n) (sz n) (u16 c) (encoding n) (container n) (recompress n) (dont_compress n).
Definition set_recompress (b : bool) (n : quicklistNode) : quicklistNode :=
  mkNode (prev n) (next n) (entry n) (sz n) (count n) (encoding n) (container n) b (dont_compress n).
Definition set_dont_compress (b : bool) (n : quicklistNode) : quicklistNode :=
  mkNode (prev n) (next n) (entry n) (sz n) (count n) (encoding n) (container n) (recompress n) b.

Definition QL_NODE_IS_PLAIN (n : quicklistNode) : bool := container n =? QUICKLIST_NODE_CONTAINER_PLAIN.

(** The list with its heap; [calls] counts the calls of the compressor. *)
Record quicklist := mkList {
  head : option addr; tail : option addr; qcount : Z; len : Z; fill : Z; compress : Z; heap : gmap addr quicklistNode; calls : nat }.

Definition set_ends (h t : option addr) (n : Z) (q : quicklist) : quicklist :=
  mkList h t (qcount q) n (fill q) (compress q) (heap q) (calls q).
Definition set_qcount (c : Z) (q : quicklist) : quicklist :=
  mkList (head q) (tail q) c (len q) (fill q) (compress q) (heap q) (calls q).
Definition set_heap (h : gmap addr quicklistNode) (q : quicklist) : quicklist :=
  mkList (head q) (tail q) (qcount q) (len q) (fill q) (compress q) h (calls q).
Definition set_calls (k : nat) (q : quicklist) : quicklist :=
  mkList (head q) (tail q) (qcount q) (len q) (fill q) (compress q) (heap q) k.

Definition node (a : addr) (q : quicklist) : option quicklistNode := heap q !! a.
Definition put (a : addr) (n : quicklistNode) (q : quicklist) : quicklist := set_heap (<[a := n]> (heap q)) q.
Definition upd (a : addr) (f : quicklistNode -> quicklistNode) (q : quicklist) : option quicklist := n ← node a q; Some (put a (f n) q).
Definition upd_opt (a : option addr) (f : quicklistNode -> quicklistNode) (q : quicklist) : option quicklist :=
  match a with None => Some q | Some a => upd a f q end.
(** A node that is allocated. *)
Definition alloc (n : quicklistNode) (q : quicklist) : addr * quicklist :=
  let a := fresh (dom (heap q)) in (a, put a n q).

(** The bytes of a node that is not compressed. *)
Definition raw (n : quicklistNode) : option (list Z) := match entry n with Bytes b => Some b | _ => None end.
Definition assert_ (b : bool) : option unit := if b then Some tt else None.

Definition SIZE_SAFETY_LIMIT : Z := 8192.
Definition SIZE_ESTIMATE_OVERHEAD : Z := 8.
Definition MIN_COMPRESS_BYTES : Z := 48.
Definition MIN_COMPRESS_IMPROVE : Z := 8.
Definition optimization_level : list Z := [4096; 8192; 16384; 32768; 65536].
Definition COMPRESS_MAX : Z := Z.shiftl 1 16 - 1.
Definition FILL_MAX : Z := Z.shiftl 1 15 - 1.

Definition quicklistCreate : quicklist := mkList None None 0 0 (-2) 0 ∅ 0.
Definition quicklistSetCompressDepth (c : Z) (q : quicklist) : quicklist :=
  let c := if COMPRESS_MAX <? c then COMPRESS_MAX else if c <? 0 then 0 else c in
  mkList (head q) (tail q) (qcount q) (len q) (fill q) c (heap q) (calls q).
Definition quicklistSetFill (f : Z) (q : quicklist) : quicklist :=
  let f := if FILL_MAX <? f then FILL_MAX else if f <? -5 then -5 else f in
  mkList (head q) (tail q) (qcount q) (len q) f (compress q) (heap q) (calls q).
Definition quicklistSetOptions (f depth : Z) (q : quicklist) : quicklist := quicklistSetCompressDepth depth (quicklistSetFill f q).
Definition quicklistNew (f c : Z) : quicklist := quicklistSetOptions f c quicklistCreate.

Definition quicklistCreateNode : quicklistNode :=
  mkNode None None Null 0 0 QUICKLIST_NODE_ENCODING_RAW QUICKLIST_NODE_CONTAINER_PACKED false false.

Definition quicklistCount (q : quicklist) : Z := qcount q.

(** The threshold of the elements that get a node of their own; the result is
    whether it was set. *)
Definition quicklistisSetPackedThreshold (k : Z) (packed_threshold : Z) : Z * bool :=
  if Z.shiftl 1 32 - Z.shiftl 1 20 <? k then (packed_threshold, false)
  else (if k =? 0 then Z.shiftl 1 30 else k, true).

Section code.

Context `{Packed, Compression}.

(** The value of the static variable, and the contents of fresh memory. *)
Context (packed_threshold : Z) (junk : Z).

Definition isLargeElement (size : Z) : bool := packed_threshold <=? size.

(** ** Compression *)

Definition __quicklistCompressNode (a : addr) (q : quicklist) : option quicklist :=
  n ← node a q;
  if dont_compress n then Some q else
  _ ← assert_ (bool_decide (prev n <> None) && bool_decide (next n <> None));
  let n := set_recompress false n in
  if sz n <? MIN_COMPRESS_BYTES then Some (put a n q) else
  b ← raw n;
  inb ← ldn b 0 (sz n);
  '(lsz, out) ← lzf_compress (calls q) inb (replicate (Z.to_nat (sz n)) junk);
  let q := set_calls (S (calls q)) q in
  if (lsz =? 0) || (sz n <=? lsz + MIN_COMPRESS_IMPROVE) then Some (put a n q) else
  c ← ldn out 0 lsz;
  Some (put a (set_entry (Lzf lsz c) (sz n) QUICKLIST_NODE_ENCODING_LZF n) q).

Definition quicklistCompressNode (a : option addr) (q : quicklist) : option quicklist :=
  match a with
  | None => Some q
  | Some a => n ← node a q; if encoding n =? QUICKLIST_NODE_ENCODING_RAW then __quicklistCompressNode a q else Some q
  end.

Definition __quicklistDecompressNode (a : addr) (q : quicklist) : option quicklist :=
  n ← node a q;
  let n := set_recompress false n in
  match entry n with
  | Lzf lsz c =>
      inb ← ldn c 0 lsz;
      '(r, d) ← lzf_decompress inb (replicate (Z.to_nat (sz n)) junk);
      if r =? 0 then Some (put a n q) else Some (put a (set_entry (Bytes d) (sz n) QUICKLIST_NODE_ENCODING_RAW n) q)
  | _ => None
  end.

Definition quicklistDecompressNode (a : option addr) (q : quicklist) : option quicklist :=
  match a with
  | None => Some q
  | Some a => n ← node a q; if encoding n =? QUICKLIST_NODE_ENCODING_LZF then __quicklistDecompressNode a q else Some q
  end.

Definition quicklistDecompressNodeForUse (a : addr) (q : quicklist) : option quicklist :=
  n ← node a q;
  if encoding n =? QUICKLIST_NODE_ENCODING_LZF then q ← __quicklistDecompressNode a q; upd a (set_recompress true) q else Some q.

(** The loop of __quicklistCompress: [inl] when it returns, [inr] with the
    two nodes reached and whether the node was met. *)
Fixpoint compress_loop (depth : nat) (a : option addr) (forward reverse : addr) (in_depth : bool) (q : quicklist)
    : option (quicklist + quicklist * option addr * option addr * bool) :=
  match depth with
  | O => Some (inr (q, Some forward, Some reverse, in_depth))
  | S depth =>
      q ← quicklistDecompressNode (Some forward) q;
      q ← quicklistDecompressNode (Some reverse) q;
      let in_depth := in_depth || bool_decide (Some forward = a) || bool_decide (Some reverse = a) in
      f ← node forward q;
      if bool_decide (forward = reverse) || bool_decide (next f = Some reverse) then Some (inl q) else
      r ← node reverse q;
      match next f, prev r with
      | Some forward, Some reverse => compress_loop depth a forward reverse in_depth q
      | f, r => match depth with O => Some (inr (q, f, r, in_depth)) | _ => None end
      end
  end.

Definition __quicklistCompress (a : option addr) (q : quicklist) : option quicklist :=
  if len q =? 0 then Some q else
  ha ← head q; ta ← tail q;
  h ← node ha q; t ← node ta q;
  _ ← assert_ (negb (recompress h) && negb (recompress t));
  if (compress q =? 0) || (len q <? compress q * 2) then Some q else
  r ← compress_loop (Z.to_nat (compress q)) a ha ta false q;
  match r with
  | inl q => Some q
  | inr (q, forward, reverse, in_depth) =>
      q ← (if (in_depth : bool) then Some q else quicklistCompressNode a q);
      q ← quicklistCompressNode forward q;
      quicklistCompressNode reverse q
  end.

Definition quicklistCompress (a : addr) (q : quicklist) : option quicklist :=
  n ← node a q; if recompress n then quicklistCompressNode (Some a) q else __quicklistCompress (Some a) q.

Definition quicklistRecompressOnly (a : addr) (q : quicklist) : option quicklist :=
  n ← node a q; if recompress n then quicklistCompressNode (Some a) q else Some q.

(** ** Nodes *)

(** The links of a new node next to [old]. *)
Definition link_node (old : option addr) (new : addr) (after : bool) (q : quicklist) : option quicklist :=
  if after then
    q ← upd new (set_prev old) q;
    q ← (match old with
         | None => Some q
         | Some o =>
             n ← node o q;
             q ← upd new (set_next (next n)) q;
             q ← upd_opt (next n) (set_prev (Some new)) q;
             upd o (set_next (Some new)) q
         end);
    Some (if bool_decide (tail q = old) then set_ends (head q) (Some new) (len q) q else q)
  else
    q ← upd new (set_next old) q;
    q ← (match old with
         | None => Some q
         | Some o =>
             n ← node o q;
             q ← upd new (set_prev (prev n)) q;
             q ← upd_opt (prev n) (set_next (Some new)) q;
             upd o (set_prev (Some new)) q
         end);
    Some (if bool_decide (head q = old) then set_ends (Some new) (tail q) (len q) q else q).

Definition __quicklistInsertNode (old : option addr) (new : addr) (after : bool) (q : quicklist) : option quicklist :=
  q ← link_node old new after q;
  let q := if len q =? 0 then set_ends (Some new) (Some new) (len q) q else q in
  let q := set_ends (head q) (tail q) (len q + 1) q in
  q ← (match old with None => Some q | Some o => quicklistCompress o q end);
  quicklistCompress new q.

Definition _quicklistInsertNodeBefore (old : option addr) (new : addr) : quicklist -> option quicklist := __quicklistInsertNode old new false.
Definition _quicklistInsertNodeAfter (old : option addr) (new : addr) : quicklist -> option quicklist := __quicklistInsertNode old new true.

Definition _quicklistNodeSizeMeetsOptimizationRequirement (size f : Z) : bool :=
  if 0 <=? f then false else
  match optimization_level !! Z.to_nat (- f - 1) with Some limit => size <=? limit | None => false end.

Definition sizeMeetsSafetyLimit (size : Z) : bool := size <=? SIZE_SAFETY_LIMIT.

Definition _quicklistNodeAllowInsert (n : option quicklistNode) (f size : Z) : bool :=
  match n with
  | None => false
  | Some n =>
      if QL_NODE_IS_PLAIN n || isLargeElement size then false else
      let new_sz := u64 (sz n + size + SIZE_ESTIMATE_OVERHEAD) in
      if _quicklistNodeSizeMeetsOptimizationRequirement new_sz f then true
      else if negb (sizeMeetsSafetyLimit new_sz) then false
      else count n <? f
  end.

Definition _quicklistNodeAllowMerge (a b : option quicklistNode) (f : Z) : bool :=
  match a, b with
  | Some a, Some b =>
      if QL_NODE_IS_PLAIN a || QL_NODE_IS_PLAIN b then false else
      let merge_sz := u32 (sz a + sz b - 11) in
      if _quicklistNodeSizeMeetsOptimizationRequirement merge_sz f then true
      else if negb (sizeMeetsSafetyLimit merge_sz) then false
      else count a + count b <=? f
  | _, _ => false
  end.

(** Store a listpack in a node, with quicklistNodeUpdateSz, which follows the
    pointer. *)
Definition store_lp (a : addr) (lp : option (list Z)) (q : quicklist) : option quicklist :=
  lp ← lp; k ← lpBytes lp; upd a (fun n => set_entry (Bytes lp) k (encoding n) n) q.

(** Store the result of a call on the listpack of a node. *)
Definition on_lp (a : addr) (f : list Z -> option (option (list Z))) (q : quicklist) : option quicklist :=
  n ← node a q; lp ← raw n; lp ← f lp; store_lp a lp q.

(** A node with a listpack of one element. *)
Definition node_of_value (value : list Z) : option quicklistNode :=
  lp ← lpNew 0; lp ← lpPrepend lp value; lp ← lp; k ← lpBytes lp;
  Some (set_entry (Bytes lp) k QUICKLIST_NODE_ENCODING_RAW quicklistCreateNode).

Definition __quicklistCreatePlainNode (value : list Z) : quicklistNode :=
  mkNode None None (Bytes value) (zlen value) 1 QUICKLIST_NODE_ENCODING_RAW QUICKLIST_NODE_CONTAINER_PLAIN false false.

Definition __quicklistInsertPlainNode (old : option addr) (value : list Z) (after : bool) (q : quicklist) : option quicklist :=
  let '(a, q) := alloc (__quicklistCreatePlainNode value) q in
  q ← __quicklistInsertNode old a after q;
  Some (set_qcount (qcount q + 1) q).

(** One more element in a node and in the list. *)
Definition incr_count (a : addr) (q : quicklist) : option quicklist := upd a (fun n => set_count (count n + 1) n) q.

(** The boolean is whether there is a new head. *)
Definition quicklistPushHead (value : list Z) (q : quicklist) : option (quicklist * bool) :=
  let orig_head := head q in
  if isLargeElement (zlen value) then
    q ← __quicklistInsertPlainNode (head q) value false q; Some (q, true)
  else
    n ← (match head q with None => Some None | Some a => n ← node a q; Some (Some n) end);
    q ← (if _quicklistNodeAllowInsert n (fill q) (zlen value) then
           a ← head q; on_lp a (fun lp => lpPrepend lp value) q
         else
           n ← node_of_value value;
           let '(a, q) := alloc n q in _quicklistInsertNodeBefore (head q) a q);
    let q := set_qcount (qcount q + 1) q in
    a ← head q;
    q ← incr_count a q;
    Some (q, negb (bool_decide (orig_head = head q))).

Definition quicklistPushTail (value : list Z) (q : quicklist) : option (quicklist * bool) :=
  let orig_tail := tail q in
  if isLargeElement (zlen value) then
    q ← __quicklistInsertPlainNode (tail q) value true q; Some (q, true)
  else
    n ← (match tail q with None => Some None | Some a => n ← node a q; Some (Some n) end);
    q ← (if _quicklistNodeAllowInsert n (fill q) (zlen value) then
           a ← tail q; on_lp a (fun lp => lpAppend lp value) q
         else
           n ← (lp ← lpNew 0; lp ← lpAppend lp value; lp ← lp; k ← lpBytes lp;
                Some (set_entry (Bytes lp) k QUICKLIST_NODE_ENCODING_RAW quicklistCreateNode));
           let '(a, q) := alloc n q in _quicklistInsertNodeAfter (tail q) a q);
    let q := set_qcount (qcount q + 1) q in
    a ← tail q;
    q ← incr_count a q;
    Some (q, negb (bool_decide (orig_tail = tail q))).

(** Append a node made of a listpack. *)
Definition quicklistAppendListpack (zl : list Z) (q : quicklist) : option quicklist :=
  '(c, zl) ← lpLength zl;
  k ← lpBytes zl;
  let n := set_count c (set_entry (Bytes zl) k QUICKLIST_NODE_ENCODING_RAW quicklistCreateNode) in
  let '(a, q) := alloc n q in
  q ← _quicklistInsertNodeAfter (tail q) a q;
  n ← node a q;
  Some (set_qcount (qcount q + count n) q).

Definition quicklistAppendPlainNode (data : list Z) (q : quicklist) : option quicklist :=
  let '(a, q) := alloc (__quicklistCreatePlainNode data) q in
  q ← _quicklistInsertNodeAfter (tail q) a q;
  Some (set_qcount (qcount q + 1) q).

Definition __quicklistDelNode (a : addr) (q : quicklist) : option quicklist :=
  n ← node a q;
  q ← upd_opt (next n) (set_prev (prev n)) q;
  q ← upd_opt (prev n) (set_next (next n)) q;
  let q := if bool_decide (Some a = tail q) then set_ends (head q) (prev n) (len q) q else q in
  let q := if bool_decide (Some a = head q) then set_ends (next n) (tail q) (len q) q else q in
  let q := set_qcount (qcount q - count n) (set_ends (head q) (tail q) (len q - 1) q) in
  q ← __quicklistCompress None q;
  Some (set_heap (delete a (heap q)) q).

(** Delete the element at [p] of a node: whether the node is gone, and the
    next offset in its listpack. *)
Definition quicklistDelIndex (a : addr) (p : option Z) (q : quicklist) : option (quicklist * bool * option Z) :=
  n ← node a q;
  if QL_NODE_IS_PLAIN n then q ← __quicklistDelNode a q; Some (q, true, p) else
  lp ← raw n; p ← p;
  r ← lpDelete lp p;
  '(lp, p) ← r;
  q ← upd a (fun n => set_count (count n - 1) (set_entry (Bytes lp) (sz n) (encoding n) n)) q;
  n ← node a q;
  '(q, gone) ← (if count n =? 0 then q ← __quicklistDelNode a q; Some (q, true)
                else q ← store_lp a (Some lp) q; Some (q, false));
  Some (set_qcount (qcount q - 1) q, gone, p).

(** ** Iterators *)

(** [zi] is the offset of the current element in the listpack of the node (0
    for a plain node). *)
Record quicklistIter := mkIter { current : option addr; zi : option Z; offset : Z; direction : Z }.

(** The value of an entry is its bytes or an integer. *)
Record quicklistEntry := mkEntry { e_node : option addr; e_zi : option Z; e_value : list Z + Z; e_offset : Z }.

(** initEntry *)
Definition initEntry : quicklistEntry := mkEntry None None (inr (-123456789)) 123456789.
Definition resetIterator (it : quicklistIter) : quicklistIter := mkIter None None (offset it) (direction it).

Definition quicklistGetIterator (dir : Z) (q : quicklist) : quicklistIter :=
  if dir =? AL_START_HEAD then mkIter (head q) None 0 dir else mkIter (tail q) None (-1) dir.

Definition quicklistSetDirection (dir : Z) (it : quicklistIter) : quicklistIter := mkIter (current it) (zi it) (offset it) dir.

(** The search for the node of an index: the node and what was skipped. *)
Fixpoint seek_node (fuel : nat) (seek_forward : bool) (seek_index : Z) (a : option addr) (accum : Z) (q : quicklist)
    : option (option (addr * Z)) :=
  match a with
  | None => Some None
  | Some a =>
      n ← node a q;
      if seek_index <? u64 (accum + count n) then Some (Some (a, accum)) else
      match fuel with
      | O => None
      | S fuel => seek_node fuel seek_forward seek_index (if seek_forward then next n else prev n) (u64 (accum + count n)) q
      end
  end.

Definition quicklistGetIteratorAtIdx (dir idx : Z) (q : quicklist) : option (option quicklistIter) :=
  let forward := negb (idx <? 0) in
  let index := u64 (if forward then idx else - idx - 1) in
  if qcount q <=? index then Some None else
  let flip := Z.quot (qcount q - 1) 2 <? index in
  let seek_forward := if flip then negb forward else forward in
  let seek_index := if flip then u64 (qcount q - 1 - index) else index in
  r ← seek_node (Z.to_nat (len q)) seek_forward seek_index (if seek_forward then head q else tail q) 0 q;
  match r with
  | None => Some None
  | Some (a, accum) =>
      n ← node a q;
      let accum := if Bool.eqb seek_forward forward then accum else u64 (qcount q - count n - accum) in
      let it := quicklistGetIterator dir q in
      Some (Some (mkIter (Some a) (zi it) (s64 (u64 (if forward then index - accum else - index - 1 + accum))) (direction it)))
  end.

Definition quicklistReleaseIterator (it : quicklistIter) (q : quicklist) : option quicklist :=
  match current it with None => Some q | Some a => quicklistCompress a q end.

(** The boolean is whether there is an element. *)
Fixpoint quicklistNext (fuel : nat) (it : quicklistIter) (q : quicklist) : option (quicklist * quicklistIter * quicklistEntry * bool) :=
  match current it with
  | None => Some (q, it, initEntry, false)
  | Some a =>
      n ← node a q;
      let plain := QL_NODE_IS_PLAIN n in
      '(q, it) ← (match zi it with
                  | None =>
                      q ← quicklistDecompressNodeForUse a q;
                      n ← node a q;
                      lp ← raw n;
                      z ← (if plain then Some (Some 0) else lpSeek lp (offset it));
                      Some (q, mkIter (current it) z (offset it) (direction it))
                  | Some p =>
                      if plain then Some (q, mkIter (current it) None (offset it) (direction it)) else
                      lp ← raw n;
                      z ← (if direction it =? AL_START_HEAD then lpNext lp p else lpPrev lp p);
                      Some (q, mkIter (current it) z (offset it + (if direction it =? AL_START_HEAD then 1 else -1)) (direction it))
                  end);
      match zi it with
      | Some p =>
          n ← node a q;
          lp ← raw n;
          v ← (if plain then b ← ldn lp 0 (sz n); Some (inl b)
               else r ← lpGetValue lp p; match r with inl (place, k) => b ← ldn lp place k; Some (inl b) | inr v => Some (inr v) end);
          Some (q, it, mkEntry (Some a) (Some p) v (offset it), true)
      | None =>
          q ← quicklistCompress a q;
          n ← node a q;
          let it := if direction it =? AL_START_HEAD then mkIter (next n) None 0 (direction it) else mkIter (prev n) None (-1) (direction it) in
          match fuel with O => None | S fuel => quicklistNext fuel it q end
      end
  end.

(** Enough for all the nodes of the list. *)
Definition next_fuel (q : quicklist) : nat := S (Z.to_nat (len q)).

Definition quicklistGetIteratorEntryAtIdx (idx : Z) (q : quicklist) : option (quicklist * option (quicklistIter * quicklistEntry)) :=
  r ← quicklistGetIteratorAtIdx AL_START_TAIL idx q;
  match r with
  | None => Some (q, None)
  | Some it =>
      '(q, it, e, found) ← quicklistNext (next_fuel q) it q;
      _ ← assert_ found;
      Some (q, Some (it, e))
  end.

Definition quicklistCompare (e : quicklistEntry) (s : list Z) (q : quicklist) : option bool :=
  a ← e_node e; n ← node a q;
  if QL_NODE_IS_PLAIN n then match e_value e with inl b => Some (bool_decide (b = s)) | inr _ => None end
  else lp ← raw n; p ← e_zi e; lpCompare lp p s.

(** Delete the entry an iterator is at. *)
Definition quicklistDelEntry (it : quicklistIter) (e : quicklistEntry) (q : quicklist) : option (quicklist * quicklistIter) :=
  a ← e_node e; n ← node a q;
  '(q, deleted_node, _) ← quicklistDelIndex a (e_zi e) q;
  Some (q, if (deleted_node : bool) then
             if direction it =? AL_START_HEAD then mkIter (next n) None 0 (direction it) else mkIter (prev n) None (-1) (direction it)
           else mkIter (current it) None (offset it) (direction it)).

(** ** Merging and splitting nodes *)

(** Returns the node that is kept. *)
Definition _quicklistListpackMerge (a b : addr) (q : quicklist) : option (quicklist * option addr) :=
  q ← quicklistDecompressNode (Some a) q;
  q ← quicklistDecompressNode (Some b) q;
  na ← node a q; nb ← node b q;
  la ← raw na; lb ← raw nb;
  '(merged, la, lb) ← lpMerge la lb;
  match merged with
  | None => Some (q, None)
  | Some _ =>
      let entry_of (lp : option (list Z)) (n : quicklistNode) : quicklistNode :=
        set_entry (match lp with None => Null | Some lp => Bytes lp end) (sz n) (encoding n) n in
      let q := put a (entry_of la na) (put b (entry_of lb nb) q) in
      '(nokeep, keep) ← (match la, lb with None, _ => Some (a, b) | _, None => Some (b, a) | _, _ => None end);
      n ← node keep q; lp ← raw n;
      '(c, lp) ← lpLength lp;
      q ← upd keep (set_count c) q;
      q ← store_lp keep (Some lp) q;
      q ← upd nokeep (set_count 0) q;
      q ← __quicklistDelNode nokeep q;
      q ← quicklistCompress keep q;
      Some (q, Some keep)
  end.

Definition node_opt (a : option addr) (q : quicklist) : option (option quicklistNode) :=
  match a with None => Some None | Some a => n ← node a q; Some (Some n) end.
Definition prev_of (a : option addr) (q : quicklist) : option (option addr) :=
  match a with None => Some None | Some a => n ← node a q; Some (prev n) end.
Definition next_of (a : option addr) (q : quicklist) : option (option addr) :=
  match a with None => Some None | Some a => n ← node a q; Some (next n) end.

(** Merge two nodes that may be null, when their sizes allow it; the result
    is whether they are merged, and the node kept. *)
Definition try_merge (a b : option addr) (q : quicklist) : option (quicklist * bool * option addr) :=
  na ← node_opt a q; nb ← node_opt b q;
  if _quicklistNodeAllowMerge na nb (fill q) then
    a ← a; b ← b; '(q, keep) ← _quicklistListpackMerge a b q; Some (q, true, keep)
  else Some (q, false, None).

Definition _quicklistMergeNodes (center : addr) (q : quicklist) : option quicklist :=
  p ← prev_of (Some center) q; pp ← prev_of p q;
  n ← next_of (Some center) q; nn ← next_of n q;
  '(q, _, _) ← try_merge pp p q;
  '(q, _, _) ← try_merge n nn q;
  p ← prev_of (Some center) q;
  '(q, merged, keep) ← try_merge p (Some center) q;
  target ← (if (merged : bool) then keep else Some center);
  n ← next_of (Some target) q;
  '(q, _, _) ← try_merge (Some target) n q;
  Some q.

(** The new node has the elements after the offset, or before it. *)
Definition _quicklistSplitNode (a : addr) (off : Z) (after : bool) (q : quicklist) : option (quicklist * quicklistNode) :=
  n ← node a q;
  lp ← raw n;
  copy ← ldn lp 0 (sz n);
  let off := if off <? 0 then count n + off else off in
  let orig_start := if after then off + 1 else 0 in
  let orig_extent := u64 (if after then -1 else off) in
  let new_start := if after then 0 else off in
  let new_extent := u64 (if after then off + 1 else -1) in
  lp ← lpDeleteRange lp orig_start orig_extent;
  '(c, lp) ← lpLength lp;
  q ← upd a (set_count c) q;
  q ← store_lp a (Some lp) q;
  new ← lpDeleteRange copy new_start new_extent;
  '(c, new) ← lpLength new;
  k ← lpBytes new;
  Some (q, set_count c (set_entry (Bytes new) k QUICKLIST_NODE_ENCODING_RAW quicklistCreateNode)).

(** ** Insertion next to an entry *)

(** Add an element to the listpack of a node, which is decompressed for it. *)
Definition add_to_node (a : addr) (f : list Z -> option (option (list Z))) (q : quicklist) : option quicklist :=
  q ← quicklistDecompressNodeForUse a q;
  q ← on_lp a f q;
  q ← incr_count a q;
  quicklistRecompressOnly a q.

Definition _quicklistInsert (it : quicklistIter) (e : quicklistEntry) (value : list Z) (after : bool) (q : quicklist)
    : option (quicklist * quicklistIter) :=
  match e_node e with
  | None =>
      if isLargeElement (zlen value) then q ← __quicklistInsertPlainNode (tail q) value after q; Some (q, it) else
      lp ← lpNew 0; lp ← lpPrepend lp value; lp ← lp;
      let '(a, q) := alloc (set_entry (Bytes lp) 0 QUICKLIST_NODE_ENCODING_RAW quicklistCreateNode) q in
      q ← __quicklistInsertNode None a after q;
      q ← incr_count a q;
      Some (set_qcount (qcount q + 1) q, it)
  | Some a =>
      n ← node a q;
      np ← node_opt (prev n) q; nn ← node_opt (next n) q;
      let full := negb (_quicklistNodeAllowInsert (Some n) (fill q) (zlen value)) in
      let at_tail := after && ((e_offset e =? count n - 1) || (e_offset e =? -1)) in
      let avail_next := at_tail && _quicklistNodeAllowInsert nn (fill q) (zlen value) in
      let at_head := negb after && ((e_offset e =? 0) || (e_offset e =? - count n)) in
      let avail_prev := at_head && _quicklistNodeAllowInsert np (fill q) (zlen value) in
      if isLargeElement (zlen value) then
        if QL_NODE_IS_PLAIN n || (at_tail && after) || (at_head && negb after) then
          q ← __quicklistInsertPlainNode (Some a) value after q; Some (q, it)
        else
          q ← quicklistDecompressNodeForUse a q;
          '(q, new) ← _quicklistSplitNode a (e_offset e) after q;
          let '(na, q) := alloc new q in
          let '(ea, q) := alloc (__quicklistCreatePlainNode value) q in
          q ← __quicklistInsertNode (Some a) ea after q;
          q ← __quicklistInsertNode (Some ea) na after q;
          Some (set_qcount (qcount q + 1) q, it)
      else
      q ← (if negb full && after then
             p ← e_zi e; add_to_node a (fun lp => lpInsertString lp value p LP_AFTER) q
           else if negb full && negb after then
             p ← e_zi e; add_to_node a (fun lp => lpInsertString lp value p LP_BEFORE) q
           else if full && at_tail && avail_next && after then
             b ← next n;
             q ← add_to_node b (fun lp => lpPrepend lp value) q;
             quicklistRecompressOnly a q
           else if full && at_head && avail_prev && negb after then
             b ← prev n;
             q ← add_to_node b (fun lp => lpAppend lp value) q;
             quicklistRecompressOnly a q
           else if full && ((at_tail && negb avail_next && after) || (at_head && negb avail_prev && negb after)) then
             new ← node_of_value value;
             let '(b, q) := alloc (set_count 1 new) q in
             __quicklistInsertNode (Some a) b after q
           else if full then
             q ← quicklistDecompressNodeForUse a q;
             '(q, new) ← _quicklistSplitNode a (e_offset e) after q;
             let '(b, q) := alloc new q in
             q ← on_lp b (fun lp => if after then lpPrepend lp value else lpAppend lp value) q;
             q ← incr_count b q;
             q ← __quicklistInsertNode (Some a) b after q;
             _quicklistMergeNodes a q
           else Some q);
      Some (set_qcount (qcount q + 1) q, resetIterator it)
  end.

Definition quicklistInsertBefore (it : quicklistIter) (e : quicklistEntry) (value : list Z) := _quicklistInsert it e value false.
Definition quicklistInsertAfter (it : quicklistIter) (e : quicklistEntry) (value : list Z) := _quicklistInsert it e value true.

(** ** Replacing *)

Definition quicklistReplaceEntry (it : quicklistIter) (e : quicklistEntry) (data : list Z) (q : quicklist) : option (quicklist * quicklistIter) :=
  a ← e_node e;
  n ← node a q;
  q ← (if negb (QL_NODE_IS_PLAIN n) && negb (isLargeElement (zlen data)) then
         lp ← raw n; p ← e_zi e;
         r ← lpReplace lp p data;
         q ← store_lp a (fst <$> r) q;
         quicklistCompress a q
       else if QL_NODE_IS_PLAIN n then
         if isLargeElement (zlen data) then
           q ← upd a (set_entry (Bytes data) (zlen data) (encoding n)) q;
           quicklistCompress a q
         else
           '(q, _) ← quicklistInsertAfter it e data q;
           __quicklistDelNode a q
       else
         q ← upd a (set_dont_compress true) q;
         '(q, _) ← quicklistInsertAfter it e data q;
         n ← node a q;
         if count n =? 1 then __quicklistDelNode a q
         else
           lp ← raw n;
           p ← lpSeek lp (-1);
           '(q, _, _) ← quicklistDelIndex a p q;
           q ← upd a (set_dont_compress false) q;
           q ← quicklistCompress a q;
           n ← node a q;
           b ← next n;
           quicklistCompress b q);
  Some (q, resetIterator it).

Definition quicklistReplaceAtIndex (idx : Z) (data : list Z) (q : quicklist) : option (quicklist * bool) :=
  '(q, r) ← quicklistGetIteratorEntryAtIdx idx q;
  match r with
  | None => Some (q, false)
  | Some (it, e) =>
      '(q, it) ← quicklistReplaceEntry it e data q;
      q ← quicklistReleaseIterator it q;
      Some (q, true)
  end.

(** ** Deleting a range *)

Fixpoint del_range_loop (fuel : nat) (a : option addr) (off extent : Z) (q : quicklist) : option quicklist :=
  if extent =? 0 then Some q else
  match fuel with
  | O => None
  | S fuel =>
      a ← a; n ← node a q;
      let '(del, delete_entire_node) :=
        if (off =? 0) && (count n <=? extent) then (count n, true)
        else if (0 <=? off) && (count n <=? extent + off) then (count n - off, false)
        else if off <? 0 then (if extent <? - off then extent else - off, false)
        else (extent, false) in
      q ← (if delete_entire_node || QL_NODE_IS_PLAIN n then __quicklistDelNode a q
           else
             q ← quicklistDecompressNodeForUse a q;
             n' ← node a q; lp ← raw n';
             lp ← lpDeleteRange lp off del;
             q ← store_lp a (Some lp) q;
             q ← upd a (fun n => set_count (count n - del) n) q;
             let q := set_qcount (qcount q - del) q in
             n' ← node a q;
             if count n' =? 0 then __quicklistDelNode a q else quicklistRecompressOnly a q);
      del_range_loop fuel (next n) 0 (extent - del) q
  end.

(** The boolean is whether something was deleted. *)
Definition quicklistDelRange (start cnt : Z) (q : quicklist) : option (quicklist * bool) :=
  if cnt <=? 0 then Some (q, false) else
  let extent :=
    if (0 <=? start) && (u64 (qcount q - start) <? cnt) then u64 (qcount q - start)
    else if (start <? 0) && (- start <? cnt) then - start
    else cnt in
  r ← quicklistGetIteratorAtIdx AL_START_TAIL start q;
  match r with
  | None => Some (q, false)
  | Some it =>
      q ← quicklistReleaseIterator it q;
      q ← del_range_loop (Z.to_nat (len q)) (current it) (offset it) extent q;
      Some (q, true)
  end.

(** ** The ends of the list *)

(** The element popped, if any. *)
Definition quicklistPopCustom (where_ : Z) (q : quicklist) : option (quicklist * option (list Z + Z)) :=
  if qcount q =? 0 then Some (q, None) else
  match (if where_ =? QUICKLIST_HEAD then head q else tail q) with
  | None => Some (q, None)
  | Some a =>
      n ← node a q;
      _ ← assert_ (negb (encoding n =? QUICKLIST_NODE_ENCODING_LZF));
      lp ← raw n;
      if QL_NODE_IS_PLAIN n then
        data ← ldn lp 0 (sz n);
        '(q, _, _) ← quicklistDelIndex a None q;
        Some (q, Some (inl data))
      else
        p ← lpSeek lp (if where_ =? QUICKLIST_HEAD then 0 else -1);
        p' ← p;
        r ← lpGetValue lp p';
        v ← (match r with inl (place, k) => b ← ldn lp place k; Some (inl b) | inr v => Some (inr v) end);
        '(q, _, _) ← quicklistDelIndex a p q;
        Some (q, Some v)
  end.

Definition quicklistPush (value : list Z) (where_ : Z) (q : quicklist) : option quicklist :=
  let ok (a : option addr) : option unit :=
    match a with None => Some tt | Some a => n ← node a q; assert_ (negb (encoding n =? QUICKLIST_NODE_ENCODING_LZF)) end in
  _ ← ok (head q);
  _ ← ok (tail q);
  '(q, _) ← (if where_ =? QUICKLIST_HEAD then quicklistPushHead value q else quicklistPushTail value q);
  Some q.

Definition quicklistRotatePlain (q : quicklist) : option quicklist :=
  new_head ← tail q; h ← head q;
  n ← node new_head q;
  new_tail ← prev n;
  q ← upd h (set_prev (Some new_head)) q;
  q ← upd new_tail (set_next None) q;
  q ← upd new_head (set_next (Some h)) q;
  q ← upd new_head (set_prev None) q;
  Some (set_ends (Some new_head) (Some new_tail) (len q) q).

(** The value pushed on the head is the bytes read from the tail, or the
    integer printed. *)
Definition quicklistRotate (q : quicklist) : option quicklist :=
  if qcount q <=? 1 then Some q else
  a ← tail q; n ← node a q;
  if QL_NODE_IS_PLAIN n then quicklistRotatePlain q else
  lp ← raw n;
  p ← lpSeek lp (-1);
  p' ← p;
  r ← lpGetValue lp p';
  value ← (match r with
           | inl (place, k) => ldn lp place k
           | inr v => '(k, b) ← Util.ll2string (replicate 32 0) 32 v; ldn b 0 k
           end);
  '(q, _) ← quicklistPushHead value q;
  a ← tail q; n ← node a q;
  p ← (if len q =? 1 then lp ← raw n; lpSeek lp (-1) else Some p);
  '(q, _, _) ← quicklistDelIndex a p q;
  Some q.

(** The node of a copy: it has its own bytes. *)
Definition copy_node (n : quicklistNode) : option quicklistNode :=
  e ← (if encoding n =? QUICKLIST_NODE_ENCODING_LZF then
         match entry n with Lzf k c => c ← ldn c 0 k; Some (Lzf k c) | _ => None end
       else if encoding n =? QUICKLIST_NODE_ENCODING_RAW then b ← raw n; b ← ldn b 0 (sz n); Some (Bytes b)
       else Some Null);
  Some (mkNode None None e (sz n) (count n) (encoding n) (container n) false false).

Fixpoint dup_loop (fuel : nat) (current : option addr) (orig copy : quicklist) : option quicklist :=
  match current with
  | None => Some copy
  | Some a =>
      n ← node a orig;
      new ← copy_node n;
      let copy := set_qcount (qcount copy + count new) copy in
      let '(b, copy) := alloc new copy in
      copy ← _quicklistInsertNodeAfter (tail copy) b copy;
      match fuel with O => None | S fuel => dup_loop fuel (next n) orig copy end
  end.

(** The copy has a heap of its own; the calls of the compressor go on. *)
Definition quicklistDup (orig : quicklist) : option quicklist :=
  dup_loop (Z.to_nat (len orig)) (head orig) orig (set_calls (calls orig) (quicklistNew (fill orig) (compress orig))).

(** Free the nodes: what is left of the heap, and the count. *)
Fixpoint release_loop (n : nat) (a : option addr) (q : quicklist) : option quicklist :=
  match n with
  | O => Some q
  | S n =>
      a ← a; x ← node a q;
      let q := set_heap (delete a (heap q)) (set_qcount (qcount q - count x) q) in
      release_loop n (next x) (set_ends (head q) (tail q) (len q - 1) q)
  end.
Definition quicklistRelease (q : quicklist) : option quicklist := release_loop (Z.to_nat (len q)) (head q) q.

End code.

End Quicklist.
