(* ===== verification/QuicklistLinks.v ===== *)
(** * The links of a quicklist

    The heap of a quicklist as a chain: the addresses of its nodes in order
    with their contents, and the loose nodes that are allocated and not in the
    list.  The lemmas say what an update, the insertion and the removal of a
    node do to the chain. *)
From stdpp Require Import base list gmap.
From S2P Require Import Prelude Quicklist.

Module QuicklistLinks.
Import Quicklist.

Abbreviation cell := (addr * quicklistNode)%type.

Definition first_of (xs : list cell) (nn : option addr) : option addr := match xs with [] => nn | (a, _) :: _ => Some a end.
Definition last_of (pp : option addr) (xs : list cell) : option addr := foldl (fun _ x => Some x.1) pp xs.

(** A node with its links. *)
Definition relink (p s : option addr) (n : quicklistNode) : quicklistNode := set_prev p (set_next s n).

Fixpoint seg (h : gmap addr quicklistNode) (pp : option addr) (xs : list cell) (nn : option addr) : Prop :=
  match xs with
  | [] => True
  | (a, n) :: xs => h !! a = Some (relink pp (first_of xs nn) n) /\ seg h (Some a) xs nn
  end.

Lemma chain_first_app xs ys nn : first_of (xs ++ ys) nn = first_of xs (first_of ys nn).
Proof. by destruct xs as [|[]]. Qed.
Lemma chain_last_app xs ys pp : last_of pp (xs ++ ys) = last_of (last_of pp xs) ys.
Proof. apply foldl_app. Qed.

Lemma seg_app h pp xs ys nn : seg h pp (xs ++ ys) nn <-> seg h pp xs (first_of ys nn) /\ seg h (last_of pp xs) ys nn.
Proof. revert pp. induction xs as [|[a n] xs IH]; intros pp; cbn; [tauto|]. rewrite chain_first_app, IH. tauto. Qed.

Lemma seg_ext h h' pp xs nn : (forall a, a ∈ xs.*1 -> h' !! a = h !! a) -> seg h pp xs nn -> seg h' pp xs nn.
Proof.
  revert pp. induction xs as [|[a n] xs IH]; intros pp Hx; cbn; [done|]. intros [H1 H2]. split.
  - rewrite Hx; [done|]. cbn. constructor.
  - apply IH; [|done]. intros b Hb. apply Hx. cbn. by constructor.
Qed.

Lemma seg_insert h a n pp xs nn : a ∉ xs.*1 -> seg h pp xs nn -> seg (<[a := n]> h) pp xs nn.
Proof. intros Ha. apply seg_ext. intros b Hb. rewrite lookup_insert_ne; [done|]. by intros ->. Qed.

(** The chain [xs] of a list and the loose nodes [ex]. *)
Record linked (q : quicklist) (xs ex : list cell) : Prop := {
  l_seg : seg (heap q) None xs None;
  l_ex : forall a n, (a, n) ∈ ex -> heap q !! a = Some n;
  l_nodup : NoDup (xs.*1 ++ ex.*1);
  l_dom : forall a, is_Some (heap q !! a) -> a ∈ xs.*1 ++ ex.*1;
  l_head : head q = first_of xs None;
  l_tail : tail q = last_of None xs;
  l_len : len q = zlen xs }.

(** The neighbours of the node [i]. *)
Definition before (xs : list cell) (i : nat) : option addr := last_of None (take i xs).
Definition behind (xs : list cell) (i : nat) : option addr := first_of (drop (S i) xs) None.

Lemma take_drop_cell (xs : list cell) i x : xs !! i = Some x -> xs = take i xs ++ x :: drop (S i) xs.
Proof. intros H. by rewrite take_drop_middle. Qed.

Lemma linked_lookup q xs ex i a n : linked q xs ex -> xs !! i = Some (a, n) -> node a q = Some (relink (before xs i) (behind xs i) n).
Proof.
  intros [S _ _ _ _ _ _] Hi. rewrite (take_drop_cell xs i _ Hi), seg_app in S. destruct S as [_ S]. cbn in S. by destruct S as [S _].
Qed.

Lemma before_eq (xs : list cell) i : (i <= length xs)%nat -> before xs i = match i with O => None | S j => fst <$> xs !! j end.
Proof.
  intros Hi. unfold before. destruct i as [|j]; [done|]. destruct (lookup_lt_is_Some_2 xs j Hi) as [[a n] Hj].
  by rewrite (take_S_r xs j _ Hj), chain_last_app, Hj.
Qed.

Lemma behind_eq (xs : list cell) i : behind xs i = fst <$> xs !! (S i).
Proof.
  unfold behind. destruct (xs !! S i) as [[a n]|] eqn:E; [by rewrite (drop_S xs _ _ E)|].
  apply lookup_ge_None in E. by rewrite drop_ge.
Qed.

Lemma cell_inj q xs ex i j a n n' : linked q xs ex -> xs !! i = Some (a, n) -> xs !! j = Some (a, n') -> i = j.
Proof.
  intros [_ _ Hn _ _ _ _] Hi Hj. apply NoDup_app in Hn as (Hn & _). eapply (NoDup_lookup xs.*1); [done| |]; rewrite list_lookup_fmap.
  - by rewrite Hi.
  - by rewrite Hj.
Qed.

Lemma insert_addrs (xs : list cell) i a n n' : xs !! i = Some (a, n) -> (<[i := (a, n')]> xs).*1 = xs.*1.
Proof.
  intros Hi. rewrite list_fmap_insert. apply list_insert_id. by rewrite list_lookup_fmap, Hi.
Qed.

Lemma first_of_insert (xs : list cell) i a n n' nn : xs !! i = Some (a, n) -> first_of (<[i := (a, n')]> xs) nn = first_of xs nn.
Proof. destruct xs as [|[b m] xs], i; try done. cbn. by intros [= -> ->]. Qed.

Lemma last_of_fmap pp (xs ys : list cell) : xs.*1 = ys.*1 -> last_of pp xs = last_of pp ys.
Proof.
  revert pp ys. induction xs as [|x xs IH]; intros pp [|y ys] H; try done. cbn in H. injection H as H1 H2.
  unfold last_of in *. cbn [foldl]. rewrite H1. by apply IH.
Qed.

Lemma first_of_fmap (xs ys : list cell) nn : xs.*1 = ys.*1 -> first_of xs nn = first_of ys nn.
Proof. destruct xs as [|[] ?], ys as [|[] ?]; try done. cbn. by intros [= -> _]. Qed.

(** The fields that are not links. *)
Definition same_params (q q' : quicklist) : Prop := fill q' = fill q /\ compress q' = compress q /\ qcount q' = qcount q.

Lemma linked_put q xs ex i a n n' k : linked q xs ex -> xs !! i = Some (a, n) ->
  linked (set_calls k (put a (relink (before xs i) (behind xs i) n') q)) (<[i := (a, n')]> xs) ex.
Proof.
  intros [S E N D H1 H2 H3] Hi. pose proof (insert_addrs xs i a n n' Hi) as Ha. split; cbn; rewrite ?Ha; auto.
  - assert (xs.*1 = (take i xs).*1 ++ a :: (drop (Datatypes.S i) xs).*1) as Hxs
      by (rewrite (take_drop_cell xs i _ Hi) at 1; by rewrite fmap_app).
    rewrite Hxs in N. rewrite <- !app_assoc in N. cbn in N. apply NoDup_app in N as (_ & N1 & N2). apply NoDup_cons in N2 as [N3 _].
    rewrite (take_drop_cell xs i _ Hi), seg_app in S. destruct S as [S1 S2]. cbn in S2. destruct S2 as [S2 S3].
    rewrite insert_take_drop by (by eapply lookup_lt_Some). rewrite seg_app. cbn. split_and!.
    + apply seg_insert; [|done]. intros Hx. apply (N1 a Hx). constructor.
    + by rewrite lookup_insert_eq.
    + apply seg_insert; [|done]. intros Hx. apply N3. apply elem_of_app. by left.
  - intros b m Hb. rewrite lookup_insert_ne; [auto|]. intros <-. apply NoDup_app in N as (_ & N & _). apply (N a).
    + apply list_elem_of_fmap. exists (a, n). split; [done|]. by eapply list_elem_of_lookup_2.
    + apply list_elem_of_fmap. by exists (a, m).
  - intros b Hb. destruct (decide (a = b)) as [<-|Hne].
    + apply elem_of_app. left. apply list_elem_of_fmap. exists (a, n). split; [done|]. by eapply list_elem_of_lookup_2.
    + rewrite lookup_insert_ne in Hb by done. auto.
  - by rewrite (first_of_insert xs i a n n').
  - rewrite (last_of_fmap _ (<[i := (a, n')]> xs) xs); [done|]. done.
  - unfold zlen in *. by rewrite length_insert.
Qed.

(** A function on nodes that does not change the links. *)
Definition keeps_links (f : quicklistNode -> quicklistNode) : Prop := forall p s n, f (relink p s n) = relink p s (f n).

Lemma linked_upd q xs ex i a n f : linked q xs ex -> xs !! i = Some (a, n) -> keeps_links f ->
  exists q', upd a f q = Some q' /\ linked q' (<[i := (a, f n)]> xs) ex /\ same_params q q' /\ calls q' = calls q.
Proof.
  intros L Hi Hf. unfold upd. rewrite (linked_lookup _ _ _ _ _ _ L Hi). bnd. eexists. split; [done|]. rewrite Hf. split; [|done].
  exact (linked_put q xs ex i a n (f n) (calls q) L Hi).
Qed.

(** A new node. *)
Lemma linked_alloc q xs ex n : linked q xs ex -> (alloc n q).1 ∉ xs.*1 ++ ex.*1 /\ linked (alloc n q).2 xs (((alloc n q).1, n) :: ex).
Proof.
  intros [S E N D H1 H2 H3]. unfold alloc. cbn. set (a := fresh (dom (heap q))).
  assert (heap q !! a = None) as Ha by (apply not_elem_of_dom, is_fresh).
  assert (a ∉ xs.*1 ++ ex.*1) as Hn.
  { rewrite elem_of_app. intros [Hx|Hx].
    - clear -S Ha Hx. assert (forall pp, seg (heap q) pp xs None -> False) as Hs; [|by apply (Hs None)]. clear S.
      induction xs as [|[b m] xs IH]; intros pp S; [by apply elem_of_nil in Hx|]. cbn in *. destruct S as [S1 S2].
      apply elem_of_cons in Hx as [->|Hx]; [congruence|]. by apply (IH Hx (Some b)).
    - apply list_elem_of_fmap in Hx as ([b m] & Hab & Hm). cbn in Hab. rewrite Hab, (E _ _ Hm) in Ha. done. }
  split; [done|]. split; cbn; auto.
  - apply seg_insert; [|done]. intros Hx. apply Hn, elem_of_app. by left.
  - intros b m [Hb|Hb]%elem_of_cons; [injection Hb as -> ->; by rewrite lookup_insert_eq|].
    rewrite lookup_insert_ne; [auto|]. intros <-. apply Hn, elem_of_app. right. apply list_elem_of_fmap. by exists (a, m).
  - by rewrite <- Permutation_middle, NoDup_cons.
  - intros b Hb. rewrite <- Permutation_middle. destruct (decide (a = b)) as [<-|Hne]; [constructor|]. rewrite lookup_insert_ne in Hb by done.
    constructor. auto.
Qed.

(** ** Insertion of a loose node *)

Lemma last_cases (pre : list cell) : pre = [] \/ exists pre' p np, pre = pre' ++ [(p, np)].
Proof. destruct pre as [|x pre _] using rev_ind; [by left|]. right. destruct x as [p np]. eauto. Qed.

Lemma addrs_middle (pre post ex : list cell) x : (pre ++ x :: post).*1 ++ ex.*1 ≡ₚ x.1 :: (pre ++ post).*1 ++ ex.*1.
Proof. rewrite !fmap_app, fmap_cons, <- !app_assoc. cbn. by rewrite <- Permutation_middle. Qed.

Lemma addrs_loose (pre post ex : list cell) x : (pre ++ x :: post).*1 ++ ex.*1 ≡ₚ (pre ++ post).*1 ++ (x :: ex).*1.
Proof. rewrite addrs_middle. cbn. by rewrite <- Permutation_middle. Qed.

(** The heap after a node was put between [pre] and [post]: the new node has
    its links, and so have its neighbours. *)
Definition placed (h h' : gmap addr quicklistNode) (pre post : list cell) (new : addr) (n : quicklistNode) : Prop :=
  h' !! new = Some (relink (last_of None pre) (first_of post None) n) /\
  (forall a m, last pre = Some (a, m) -> h' !! a = set_next (Some new) <$> h !! a) /\
  (forall a m, first_of post None = Some a -> (a, m) ∈ post -> h' !! a = set_prev (Some new) <$> h !! a) /\
  (forall a, a <> new -> last_of None pre <> Some a -> first_of post None <> Some a -> h' !! a = h !! a).

Lemma last_of_last pp pre a n : last pre = Some (a, n) -> last_of pp pre = Some a.
Proof. intros (pre' & ->)%last_Some. by rewrite chain_last_app. Qed.

Lemma last_of_in pre a : last_of None pre = Some a -> a ∈ pre.*1.
Proof.
  destruct (last_cases pre) as [->|(pre' & p & np & ->)]; [done|]. rewrite chain_last_app. cbn. intros [= ->].
  rewrite fmap_app. apply elem_of_app. right. constructor.
Qed.

Lemma first_of_in post a : first_of post None = Some a -> a ∈ post.*1.
Proof. destruct post as [|[x nx] post]; [done|]. cbn. intros [= ->]. constructor. Qed.

Lemma nodup_middle (xs ys : list addr) a : NoDup (xs ++ a :: ys) <-> a ∉ xs /\ a ∉ ys /\ NoDup (xs ++ ys).
Proof. rewrite <- Permutation_middle, NoDup_cons, elem_of_app. tauto. Qed.

Lemma placed_seg h h' pre post new n : placed h h' pre post new n -> seg h None (pre ++ post) None ->
  NoDup ((pre ++ post).*1) -> new ∉ (pre ++ post).*1 -> seg h' None (pre ++ (new, n) :: post) None.
Proof.
  intros (H1 & H2 & H3 & H4) S N Hn. rewrite seg_app in S |- *. destruct S as [S1 S2]. rewrite fmap_app in N, Hn.
  apply not_elem_of_app in Hn as [Hn1 Hn2]. cbn. split_and!; [|done|].
  - destruct (last_cases pre) as [->|(pre' & p & np & ->)]; [done|]. rewrite seg_app in S1 |- *. cbn in S1 |- *.
    rewrite last_snoc in H2. rewrite chain_last_app in H4. cbn in H4. rewrite fmap_app in N, Hn1. cbn in N, Hn1.
    rewrite <- app_assoc in N. cbn in N. apply nodup_middle in N as (N1 & N2 & N3). apply NoDup_app in N3 as (_ & N3 & _).
    split_and!; [|by rewrite (H2 p np eq_refl), (proj1 (proj2 S1))|done].
    eapply seg_ext; [|apply S1]. intros a Ha. apply H4.
    + intros ->. apply Hn1, elem_of_app. by left.
    + intros [= ->]. done.
    + intros Hf%first_of_in. by apply (N3 a).
  - destruct post as [|[x nx] post]; [done|]. cbn in S2, N, Hn2 |- *. apply nodup_middle in N as (N1 & N2 & N3).
    apply NoDup_app in N3 as (_ & N3 & _). split.
    + rewrite (H3 x nx eq_refl), (proj1 S2); [done|constructor].
    + eapply seg_ext; [|apply S2]. intros a Ha. apply H4.
      * intros ->. apply Hn2. by constructor.
      * intros Hl%last_of_in. by apply (N3 a).
      * intros [= ->]. done.
Qed.

(** The links of the list with a new node. *)
Lemma placed_linked q q' pre post new n ex : linked q (pre ++ post) ((new, n) :: ex) -> placed (heap q) (heap q') pre post new n ->
  (forall a, is_Some (heap q' !! a) -> is_Some (heap q !! a)) ->
  head q' = first_of (pre ++ (new, n) :: post) None -> tail q' = last_of None (pre ++ (new, n) :: post) -> len q' = len q + 1 ->
  linked q' (pre ++ (new, n) :: post) ex.
Proof.
  intros [S E N D H1 H2 H3] P Hd Hh Ht Hl. pose proof (addrs_loose pre post ex (new, n)) as Hp.
  rewrite <- Hp in N. rewrite addrs_middle in N. cbn [fst] in N. apply NoDup_cons in N as [Nn N]. split; auto.
  - eapply placed_seg; [done|done| |]; [by apply NoDup_app in N as (N & _)|by apply not_elem_of_app in Nn as [Nn _]].
  - intros a m Ha. rewrite <- (E a m); [|by constructor]. assert (a ∈ ex.*1) as Hx by (apply list_elem_of_fmap; by exists (a, m)).
    apply NoDup_app in N as (_ & N & _). apply P; [by intros ->; apply Nn, elem_of_app; right| |].
    + intros Hc%last_of_in. apply (N a); [|done]. rewrite fmap_app. apply elem_of_app. by left.
    + intros Hc%first_of_in. apply (N a); [|done]. rewrite fmap_app. apply elem_of_app. by right.
  - rewrite addrs_middle. by apply NoDup_cons.
  - intros a Ha. rewrite Hp. auto.
  - rewrite Hl, H3. unfold zlen. rewrite !length_app. cbn. lia.
Qed.

Lemma upd_at a f q n : node a q = Some n -> upd a f q = Some (put a (f n) q).
Proof. unfold upd. by intros ->. Qed.

Lemma node_put_eq a n q : node a (put a n q) = Some n.
Proof. unfold node, put. cbn. by rewrite lookup_insert_eq. Qed.
Lemma node_put_ne a b n q : a <> b -> node b (put a n q) = node b q.
Proof. intros H. unfold node, put. cbn. by rewrite lookup_insert_ne. Qed.

(** What does not change when nodes are updated. *)
Definition framed (q q' : quicklist) : Prop :=
  (forall a, is_Some (heap q' !! a) -> is_Some (heap q !! a)) /\ head q' = head q /\ tail q' = tail q /\ len q' = len q /\
  same_params q q' /\ calls q' = calls q.

Lemma framed_refl q : framed q q.
Proof. by split_and!. Qed.
Lemma framed_trans q q1 q2 : framed q q1 -> framed q1 q2 -> framed q q2.
Proof.
  intros (H1 & H2 & H3 & H4 & (H5 & H6 & H7) & H8) (G1 & G2 & G3 & G4 & (G5 & G6 & G7) & G8). split_and!; [auto|congruence..| |congruence].
  split_and!; congruence.
Qed.

Lemma upd_framed a f q q' : upd a f q = Some q' -> framed q q'.
Proof.
  unfold upd. intros H. inv_bind. split_and!; try done. intros b. unfold put. cbn. destruct (decide (a = b)) as [<-|Hne].
  - unfold node in E. by rewrite E, lookup_insert_eq.
  - by rewrite lookup_insert_ne.
Qed.

Lemma upd_opt_framed a f q q' : upd_opt a f q = Some q' -> framed q q'.
Proof. destruct a; cbn; [apply upd_framed|]. intros [= <-]. apply framed_refl. Qed.

(** The new end of a list. *)
Lemma link_framed old new after q q' : link_node old new after q = Some q' -> exists q1, framed q q1 /\ heap q' = heap q1 /\
  head q' = (if negb after && bool_decide (head q = old) then Some new else head q) /\
  tail q' = (if after && bool_decide (tail q = old) then Some new else tail q) /\
  len q' = len q /\ same_params q q' /\ calls q' = calls q.
Proof.
  intros H. enough (exists q1, framed q q1 /\ q' = (if after then if bool_decide (tail q1 = old) then set_ends (head q1) (Some new) (len q1) q1 else q1
    else if bool_decide (head q1 = old) then set_ends (Some new) (tail q1) (len q1) q1 else q1)) as (q1 & F & ->).
  { exists q1. split; [done|]. destruct F as (F1 & F2 & F3 & F4 & F5 & F6).
    destruct after; cbn; repeat case_bool_decide; cbn; split_and!; try done; try congruence; apply F5. }
  destruct after, old as [o|]; cbn [link_node] in H; inv_bind; eexists; (split; [|reflexivity]);
    repeat match goal with
    | Hu : upd _ _ _ = Some _ |- _ => apply upd_framed in Hu
    | Hu : upd_opt _ _ _ = Some _ |- _ => apply upd_opt_framed in Hu
    end; eauto using framed_trans.
Qed.

(** The heap as a function, for a few updates. *)
Ltac look := unfold put; cbn; repeat first [rewrite lookup_insert_eq | rewrite lookup_insert_ne by congruence].

Lemma link_after q pre post o no new n ex : linked q ((pre ++ [(o, no)]) ++ post) ((new, n) :: ex) ->
  exists q', link_node (Some o) new true q = Some q' /\ placed (heap q) (heap q') (pre ++ [(o, no)]) post new n.
Proof.
  intros [S E N D H1 H2 H3].
  assert (node new q = Some n) as Hnew by (apply E; constructor).
  rewrite !seg_app in S. destruct S as [[S1 [So _]] S2]. cbn in So, S2. rewrite chain_last_app in S2. cbn in S2.
  assert (new <> o /\ first_of post None <> Some o /\ first_of post None <> Some new) as (Hno & Hpo & Hpn).
  { clear -N. rewrite !fmap_app in N. cbn in N. rewrite <- !app_assoc in N. cbn in N. apply nodup_middle in N as (N1 & N2 & N3).
    rewrite app_assoc in N3. apply nodup_middle in N3 as (N3 & _). split_and!.
    - intros ->. apply N2, elem_of_app. right. constructor.
    - intros Hf%first_of_in. apply N2, elem_of_app. by left.
    - intros Hf%first_of_in. apply N3, elem_of_app. by right. }
  unfold link_node. rewrite (upd_at _ _ _ _ Hnew). bnd. rewrite node_put_ne by done. unfold node at 1. rewrite So. bnd. cbn [next relink set_prev set_next].
  rewrite (upd_at _ _ _ _ (node_put_eq _ _ _)). bnd.
  destruct post as [|[x nx] post]; cbn [first_of upd_opt] in *; bnd.
  - erewrite upd_at; [|by rewrite !node_put_ne by done]. bnd. eexists. split; [done|].
    split_and!; intros; destruct (bool_decide _); rewrite ?last_snoc, ?chain_last_app in *; cbn in *; simplify_eq; look; by rewrite ?So.
  - erewrite upd_at; [|rewrite !node_put_ne by congruence; exact (proj1 S2)]. bnd.
    erewrite upd_at; [|by rewrite !node_put_ne by congruence]. bnd. eexists. split; [done|].
    split_and!; intros; destruct (bool_decide _); rewrite ?last_snoc, ?chain_last_app in *; cbn in *; simplify_eq; look; by rewrite ?So, ?(proj1 S2).
Qed.

Lemma link_before q pre post o no new n ex : linked q (pre ++ (o, no) :: post) ((new, n) :: ex) ->
  exists q', link_node (Some o) new false q = Some q' /\ placed (heap q) (heap q') pre ((o, no) :: post) new n.
Proof.
  intros [S E N D H1 H2 H3].
  assert (node new q = Some n) as Hnew by (apply E; constructor).
  rewrite seg_app in S. destruct S as [S1 [So S2]]. cbn in S1.
  assert (new <> o /\ last_of None pre <> Some o /\ last_of None pre <> Some new) as (Hno & Hpo & Hpn).
  { clear -N. rewrite !fmap_app in N. cbn in N. rewrite <- !app_assoc in N. cbn in N. apply nodup_middle in N as (N1 & N2 & N3).
    rewrite app_assoc in N3. apply nodup_middle in N3 as (N3 & _). split_and!.
    - intros ->. apply N2, elem_of_app. right. constructor.
    - intros Hf%last_of_in. done.
    - intros Hf%last_of_in. apply N3, elem_of_app. by left. }
  unfold link_node. rewrite (upd_at _ _ _ _ Hnew). bnd. rewrite node_put_ne by done. unfold node at 1. rewrite So. bnd. cbn [prev relink set_prev set_next].
  rewrite (upd_at _ _ _ _ (node_put_eq _ _ _)). bnd.
  destruct (last_cases pre) as [->|(pre' & p & np & ->)].
  - cbn [last_of foldl upd_opt] in *. bnd. erewrite upd_at; [|by rewrite !node_put_ne by done]. bnd. eexists. split; [done|].
    split_and!; intros; destruct (bool_decide _); cbn in *; simplify_eq; look; by rewrite ?So.
  - rewrite seg_app in S1. rewrite !chain_last_app in *. cbn in S1, S2, Hpo, Hpn. cbn [last_of foldl fst upd_opt].
    erewrite upd_at; [|rewrite !node_put_ne by congruence; exact (proj1 (proj2 S1))]. bnd.
    erewrite upd_at; [|by rewrite !node_put_ne by congruence]. bnd. eexists. split; [done|].
    split_and!; intros; destruct (bool_decide _); rewrite ?last_snoc, ?chain_last_app in *; cbn in *; simplify_eq; look; by rewrite ?So, ?(proj1 (proj2 S1)).
Qed.

(** Where a node is inserted: after [old], or before it, or in the empty
    list. *)
Definition spot (after : bool) (old : option addr) (pre post : list cell) : Prop :=
  old = (if after then last_of None pre else first_of post None) /\ (old = None -> pre = [] /\ post = []).

Lemma last_of_post pp post a : a ∉ post.*1 -> last_of pp post = Some a -> post = [].
Proof.
  destruct (last_cases post) as [->|(post' & p & np & ->)]; [done|]. rewrite chain_last_app, fmap_app. cbn. intros Ha [= ->].
  destruct Ha. apply elem_of_app. right. constructor.
Qed.

Lemma first_of_pre nn pre a : a ∉ pre.*1 -> first_of pre nn = Some a -> pre = [].
Proof. destruct pre as [|[x nx] pre]; [done|]. cbn. intros Ha [= ->]. destruct Ha. constructor. Qed.

Lemma insert_links q pre post old new n ex after : linked q (pre ++ post) ((new, n) :: ex) -> spot after old pre post -> relink None None n = n ->
  exists q1, link_node old new after q = Some q1 /\ same_params q q1 /\ calls q1 = calls q /\
    let q2 := if len q1 =? 0 then set_ends (Some new) (Some new) (len q1) q1 else q1 in
    linked (set_ends (head q2) (tail q2) (len q2 + 1) q2) (pre ++ (new, n) :: post) ex.
Proof.
  intros L [Ho He] Hr. pose proof L as [S E N D H1 H2 H3].
  assert (exists q1, link_node old new after q = Some q1 /\ placed (heap q) (heap q1) pre post new n) as (q1 & Hq1 & P).
  { destruct old as [o|]; [destruct after|].
    - destruct (last_cases pre) as [->|(pre' & p & np & ->)]; [done|]. rewrite chain_last_app in Ho. injection Ho as ->. by apply (link_after _ _ _ _ _ _ _ ex).
    - destruct post as [|[x nx] post]; [done|]. injection Ho as ->. by apply (link_before _ _ _ _ _ _ _ ex).
    - destruct (He eq_refl) as [-> ->]. unfold link_node. assert (node new q = Some n) as Hn by (apply E; constructor).
      destruct after; rewrite (upd_at _ _ _ _ Hn); bnd; eexists; (split; [done|]); destruct (bool_decide _); (split_and!; [cbn; rewrite lookup_insert_eq; by rewrite <- Hr|done|done|]); intros a Ha _ _; cbn; by rewrite lookup_insert_ne. }
  destruct (link_framed _ _ _ _ _ Hq1) as (q0 & F & Hh & Hh1 & Ht1 & Hl & Hp & Hc).
  exists q1. split_and!; [done|done|done|]. rewrite Hl.
  apply (placed_linked q); [done|..].
  - by destruct (len q =? 0).
  - intros a. destruct (len q =? 0); cbn; rewrite Hh; apply F.
  - destruct (len q =? 0) eqn:E0; cbn; bool_hyps.
    + rewrite H3 in E0. assert (pre = []) as -> by (by destruct pre; [|unfold zlen in E0; cbn in E0; lia]). done.
    + rewrite Hh1, H1. clear Ht1 Hh1. destruct pre as [|[x nx] pre]; cbn.
      * destruct after; [|by rewrite Ho, bool_decide_eq_true_2].
        cbn in Ho. subst old. destruct (He eq_refl) as [_ ->]. by destruct E0.
      * destruct after; cbn; [done|]. case_bool_decide as Hb; [|done]. exfalso. rewrite Ho in Hb. symmetry in Hb. apply first_of_in in Hb.
        cbn in N. rewrite fmap_app in N. cbn in N. apply NoDup_cons in N as [N _]. apply N, elem_of_app. left. apply elem_of_app. by right.
  - destruct (len q =? 0) eqn:E0; cbn; bool_hyps.
    + rewrite H3 in E0. assert (pre ++ post = []) as [-> ->]%app_eq_nil by (by destruct (pre ++ post); [|unfold zlen in E0; cbn in E0; lia]). done.
    + rewrite Ht1, H2. clear Ht1 Hh1. rewrite chain_last_app. change ((new, n) :: post) with ([(new, n)] ++ post). rewrite !chain_last_app. cbn.
      destruct (last_cases post) as [->|(post' & p & np & ->)].
      * cbn. destruct after; cbn; [by rewrite Ho, bool_decide_eq_true_2|]. cbn in Ho. subst old. destruct (He eq_refl) as [-> _]. by destruct E0.
      * rewrite !chain_last_app. cbn. destruct after; cbn; [|done]. case_bool_decide as Hb; [|done]. exfalso. rewrite Ho in Hb. symmetry in Hb.
        apply last_of_in in Hb. rewrite fmap_app in N. apply NoDup_app in N as (N & _). apply NoDup_app in N as (_ & N & _). apply (N p Hb).
        rewrite fmap_app. apply elem_of_app. right. constructor.
  - by destruct (len q =? 0); cbn; rewrite ?Hl.
Qed.

(** ** Removal of a node *)

Lemma linked_free q xs a n ex : linked q xs ((a, n) :: ex) -> linked (set_heap (delete a (heap q)) q) xs ex.
Proof.
  intros [S E N D H1 H2 H3]. cbn in N. rewrite <- Permutation_middle in N. apply NoDup_cons in N as [Na N]. apply not_elem_of_app in Na as [Na Nx].
  split; cbn; auto.
  - eapply seg_ext; [|exact S]. intros b Hb. apply lookup_delete_ne. by intros ->.
  - intros b m Hb. rewrite lookup_delete_ne; [apply E; by constructor|]. intros ->. apply Nx, list_elem_of_fmap. by exists (b, m).
  - intros b. destruct (decide (a = b)) as [->|Hne]; [rewrite lookup_delete_eq; by intros [? ?]|]. rewrite lookup_delete_ne by done. intros Hb%D.
    cbn in Hb. rewrite <- Permutation_middle in Hb. apply elem_of_cons in Hb as [->|Hb]; done.
Qed.

Lemma unlink_ok q pre post a n ex : linked q (pre ++ (a, n) :: post) ex ->
  exists q1 q2, upd_opt (first_of post None) (set_prev (last_of None pre)) q = Some q1 /\
    upd_opt (last_of None pre) (set_next (first_of post None)) q1 = Some q2 /\ same_params q q2 /\ calls q2 = calls q /\
    let q3 := if bool_decide (Some a = tail q2) then set_ends (head q2) (last_of None pre) (len q2) q2 else q2 in
    let q4 := if bool_decide (Some a = head q3) then set_ends (first_of post None) (tail q3) (len q3) q3 else q3 in
    forall c, linked (set_qcount c (set_ends (head q4) (tail q4) (len q4 - 1) q4)) (pre ++ post) ((a, relink (last_of None pre) (first_of post None) n) :: ex).
Proof.
  intros L. pose proof L as [S E N D H1 H2 H3]. rewrite seg_app in S. destruct S as [S1 [Sa S2]]. cbn [first_of] in S1.
  set (p := last_of None pre) in *. set (s := first_of post None) in *.
  assert (NoDup (a :: (pre.*1 ++ post.*1) ++ ex.*1)) as Nd by (rewrite <- fmap_app; by rewrite <- (addrs_middle pre post ex (a, n))).
  apply NoDup_cons in Nd as [Na Nd]. rewrite !not_elem_of_app in Na. destruct Na as [[Na1 Na2] Na3].
  apply NoDup_app in Nd as (Nd & Nx & Ne). pose proof Nd as Nd'. apply NoDup_app in Nd as (Nd1 & Nd2 & Nd3).
  assert (forall b, s = Some b -> b ∈ post.*1) as Hs by (intros b; apply first_of_in).
  assert (forall b, p = Some b -> b ∈ pre.*1) as Hp by (intros b; apply last_of_in).
  assert (exists q1, upd_opt s (set_prev p) q = Some q1 /\ seg (heap q1) p post None /\ (forall b, s <> Some b -> heap q1 !! b = heap q !! b))
    as (q1 & Hq1 & T1 & T2).
  { unfold s. destruct post as [|[x nx] post]; [by exists q|]. cbn in S2. destruct S2 as [S2 S3]. cbn. rewrite (upd_at _ _ _ _ S2). eexists. split; [done|].
    cbn. split; [split|].
    - by rewrite lookup_insert_eq.
    - apply seg_insert; [|done]. cbn in Nd3. by apply NoDup_cons in Nd3 as [Nd3 _].
    - intros b Hb. apply lookup_insert_ne. congruence. }
  assert (exists q2, upd_opt p (set_next s) q1 = Some q2 /\ seg (heap q2) None pre s /\ (forall b, p <> Some b -> heap q2 !! b = heap q1 !! b))
    as (q2 & Hq2 & T3 & T4).
  { assert (seg (heap q1) None pre (Some a)) as S1'
      by (eapply seg_ext; [|exact S1]; intros b Hb; apply T2; intros Hc%Hs; by apply (Nd2 b)).
    clear S1. unfold p in *. destruct (last_cases pre) as [->|(pre' & x & nx & ->)]; [by exists q1|]. rewrite seg_app in S1'. destruct S1' as [S4 [S5 _]].
    rewrite chain_last_app. cbn in S4, S5 |- *. rewrite S5. eexists. split; [done|]. cbn. rewrite seg_app. cbn. split; [split_and!|].
    - apply seg_insert; [|done]. rewrite fmap_app in Nd1. cbn in Nd1. by apply nodup_middle in Nd1 as (Nd1 & _).
    - by rewrite lookup_insert_eq.
    - done.
    - intros b Hb. apply lookup_insert_ne. congruence. }
  exists q1, q2. apply upd_opt_framed in Hq1 as F1. apply upd_opt_framed in Hq2 as F2. pose proof (framed_trans _ _ _ F1 F2) as (F3 & F4 & F5 & F6 & F7 & F8).
  split_and!; [done|done|done|done|]. intros q3 q4 c.
  assert (heap q4 = heap q2 /\ head q4 = first_of (pre ++ post) None /\ tail q4 = last_of None (pre ++ post) /\ len q4 = len q) as (G1 & G2 & G3 & G4).
  { assert (heap q3 = heap q2 /\ head q3 = head q2 /\ tail q3 = last_of None (pre ++ post) /\ len q3 = len q) as (I1 & I2 & I3 & I4).
    { unfold q3. rewrite F5, H2, chain_last_app. change ((a, n) :: post) with ([(a, n)] ++ post). rewrite !chain_last_app. cbn. fold p.
      case_bool_decide as Hb; cbn; split_and!; try done.
      - symmetry in Hb. apply last_of_post in Hb as ->; done.
      - rewrite F5, H2, chain_last_app. change ((a, n) :: post) with ([(a, n)] ++ post). rewrite !chain_last_app. cbn.
        destruct (last_cases post) as [->|(post' & y & ny & ->)]; [done|]. by rewrite !chain_last_app. }
    unfold q4. rewrite I2, F4, H1, chain_first_app. cbn. case_bool_decide as Hb; cbn; split_and!; try done.
    - symmetry in Hb. by apply first_of_pre in Hb as ->.
    - rewrite I2, F4, H1, chain_first_app. cbn. destruct pre; [done|]. by rewrite chain_first_app. }
  assert (forall b, b ∉ pre.*1 -> b ∉ post.*1 -> heap q2 !! b = heap q !! b) as Hh
    by (intros b Hb1 Hb2; rewrite T4, T2; [done| |]; intros ?; [by apply Hb2, Hs|by apply Hb1, Hp]).
  split; cbn; rewrite ?G1; auto.
  - rewrite seg_app. split; [done|]. eapply seg_ext; [|exact T1]. intros b Hb. apply T4. intros Hc%Hp. by apply (Nd2 b).
  - intros b m Hb. apply elem_of_cons in Hb as [[= -> ->]|Hb].
    + rewrite Hh by done. by rewrite Sa.
    + assert (b ∈ ex.*1) as Hx by (apply list_elem_of_fmap; by exists (b, m)). rewrite Hh; [by apply E| |]; intros Hc; apply (Nx b); try done; apply elem_of_app; auto.
  - rewrite <- (addrs_loose pre post ex (a, n)). done.
  - intros b Hb. rewrite <- (addrs_loose pre post ex (a, n)). apply D. by apply F3.
  - rewrite G4, H3. unfold zlen. rewrite !length_app. cbn. lia.
Qed.

(** An update of a loose node. *)
Lemma loose_upd q xs a n ex f : linked q xs ((a, n) :: ex) -> exists q', upd a f q = Some q' /\ linked q' xs ((a, f n) :: ex) /\ same_params q q'.
Proof.
  intros [S E N D H1 H2 H3]. assert (node a q = Some n) as Ha by (apply E; constructor). exists (put a (f n) q). split_and!; [by apply upd_at| |done..].
  cbn in N. pose proof N as N'. rewrite <- Permutation_middle in N. apply NoDup_cons in N as [Na N]. apply not_elem_of_app in Na as [Na Nx].
  split; cbn; auto.
  - by apply seg_insert.
  - intros b m [[= -> ->]|Hb]%elem_of_cons; [by rewrite lookup_insert_eq|]. rewrite lookup_insert_ne; [apply E; by constructor|].
    intros ->. apply Nx, list_elem_of_fmap. by exists (b, m).
  - intros b Hb. apply D. destruct (decide (a = b)) as [<-|Hne]; [unfold node in Ha; by rewrite Ha|]. by rewrite lookup_insert_ne in Hb.
Qed.

End QuicklistLinks.
