(* ===== verification/QuicklistNodes.v ===== *)
(** * The nodes of a quicklist: their contents and their compression

    What the quicklist relies on of the listpack and of LZF ([PackedLaws],
    [CompressionLaws]), what a node stores, and the specification of the
    functions that compress and decompress nodes, link and unlink them.  A
    list is safe when the nodes at the depth [compress] from the two ends are
    not compressed and not marked to be compressed again; every function
    keeps a list safe, and what its nodes store. *)
From stdpp Require Import base list gmap.
From S2P Require Import Prelude Util ListpackRun Quicklist QuicklistLinks.

Module QuicklistNodes.
Import Quicklist QuicklistLinks.

(** ** What the other components promise *)

(** An element: bytes, fewer than 4 GB. *)
Definition elem (s : list Z) : Prop := Forall is_byte s /\ zlen s < 2 ^ 32 - 5.

(** [packs lp l]: the bytes [lp] are a listpack of the strings [l]; it has
    [lp_size l] bytes, and perhaps more that are not used.  [lp_ptr l i] is the
    pointer to the element [i]. *)
Class PackedLaws `{Packed} := {
  packs : list Z -> list (list Z) -> Prop;
  lp_size : list (list Z) -> Z;
  lp_ptr : list (list Z) -> nat -> Z;
  size_app l k : lp_size (l ++ k) = lp_size l + lp_size k - 7;
  size_nil : lp_size [] = 7;
  size_one s : elem s -> 9 <= lp_size [s] <= zlen s + 17;
  packs_elem lp l : packs lp l -> Forall elem l;
  packs_size lp l : packs lp l -> lp_size l < 2 ^ 32 /\ lp_size l <= zlen lp;
  packs_cut lp l : packs lp l -> packs (take (Z.to_nat (lp_size l)) lp) l;
  bytes_law lp l : packs lp l -> lpBytes lp = Some (lp_size l);
  length_law lp l : packs lp l -> exists lp', lpLength lp = Some (zlen l, lp') /\ packs lp' l;
  new_law : exists lp, lpNew 0 = Some lp /\ packs lp [];
  prepend_law lp l s : packs lp l -> elem s -> lp_size (s :: l) < 2 ^ 32 -> exists lp', lpPrepend lp s = Some (Some lp') /\ packs lp' (s :: l);
  append_law lp l s : packs lp l -> elem s -> lp_size (l ++ [s]) < 2 ^ 32 -> exists lp', lpAppend lp s = Some (Some lp') /\ packs lp' (l ++ [s]);
  insert_law lp l i s after : packs lp l -> elem s -> (i < length l)%nat -> lp_size (s :: l) < 2 ^ 32 ->
    exists lp', lpInsertString lp s (lp_ptr l i) (if (after : bool) then LP_AFTER else LP_BEFORE) = Some (Some lp') /\
      packs lp' (if after then take (S i) l ++ s :: drop (S i) l else take i l ++ s :: drop i l);
  replace_law lp l i s : packs lp l -> elem s -> (i < length l)%nat -> lp_size (<[i := s]> l) < 2 ^ 32 ->
    exists lp' p, lpReplace lp (lp_ptr l i) s = Some (Some (lp', p)) /\ packs lp' (<[i := s]> l);
  delete_law lp l i : packs lp l -> (i < length l)%nat -> exists lp' p, lpDelete lp (lp_ptr l i) = Some (Some (lp', p)) /\ packs lp' (delete i l);
  delete_range_law lp l index num : packs lp l -> in_s 64 index -> 0 <= num < 2 ^ 64 ->
    exists lp', lpDeleteRange lp index num = Some lp' /\
      packs lp' (match ListpackRun.locate l index with None => l | Some i => take i l ++ drop (i + Z.to_nat num) l end);
  seek_law lp l index : packs lp l -> lpSeek lp index = Some (lp_ptr l <$> ListpackRun.locate l index);
  next_law lp l i : packs lp l -> (i < length l)%nat -> lpNext lp (lp_ptr l i) = Some (if (S i <? length l)%nat then Some (lp_ptr l (S i)) else None);
  prev_law lp l i : packs lp l -> (i < length l)%nat -> lpPrev lp (lp_ptr l i) = Some (match i with O => None | S j => Some (lp_ptr l j) end);
  get_law lp l i x : packs lp l -> l !! i = Some x -> exists r, lpGetValue lp (lp_ptr l i) = Some r /\
    match r with inl (p, k) => ldn lp p k = Some x | inr v => in_s 64 v /\ x = ListpackRun.numeral v end;
  merge_law a b l k : packs a l -> packs b k -> lp_size (l ++ k) < 2 ^ 32 - 1 -> exists m, packs m (l ++ k) /\
    (lpMerge a b = Some (Some m, Some m, None) \/ lpMerge a b = Some (Some m, None, Some m)) }.

(** What the compressor wrote decompresses to its input; a result of 0 says
    that nothing was compressed. *)
Class CompressionLaws `{Compression} := {
  lzf_law k inb out : 48 <= zlen inb < 2 ^ 32 ->
    exists n out', lzf_compress k inb out = Some (n, out') /\
      (n <> 0 -> exists c, 0 < n /\ ldn out' 0 n = Some c /\ forall buf, zlen buf = zlen inb -> lzf_decompress c buf = Some (zlen inb, inb)) }.

Section nodes.

Context {PK : Packed} {PL : PackedLaws} {CP : Compression} {CL : CompressionLaws}.
Context (junk : Z).

(** ** What a node stores *)

(** The bytes of a node, compressed or not. *)
Definition bytes_in (n : quicklistNode) (b : list Z) : Prop :=
  (entry n = Bytes b /\ encoding n = QUICKLIST_NODE_ENCODING_RAW) \/
  (encoding n = QUICKLIST_NODE_ENCODING_LZF /\ recompress n = false /\ exists k c c' r, entry n = Lzf k c /\ ldn c 0 k = Some c' /\ r <> 0 /\
     lzf_decompress c' (replicate (Z.to_nat (sz n)) junk) = Some (r, b)).

(** The strings of the bytes of a node. *)
Definition shaped (n : quicklistNode) (b : list Z) (l : list (list Z)) : Prop :=
  (container n = QUICKLIST_NODE_CONTAINER_PACKED /\ packs b l /\ sz n = lp_size l /\ l <> []) \/
  (container n = QUICKLIST_NODE_CONTAINER_PLAIN /\ l = [b] /\ sz n = zlen b /\ elem b).

Definition stored (n : quicklistNode) (l : list (list Z)) : Prop := exists b, bytes_in n b /\ shaped n b l /\ 0 <= sz n < 2 ^ 32.

(** A node with another encoding. *)
Record same_data (n n' : quicklistNode) : Prop := {
  s_count : count n' = count n;
  s_sz : sz n' = sz n;
  s_container : container n' = container n;
  s_dont : dont_compress n' = dont_compress n;
  s_stored l : stored n l -> stored n' l;
  s_raw : dont_compress n = true -> encoding n = QUICKLIST_NODE_ENCODING_RAW -> encoding n' = QUICKLIST_NODE_ENCODING_RAW }.
Definition recode (n n' : quicklistNode) : Prop := same_data n n' /\ (recompress n' = true -> recompress n = true).
Definition recoded (x y : cell) : Prop := y.1 = x.1 /\ recode x.2 y.2.

Lemma same_data_trans n n1 n2 : same_data n n1 -> same_data n1 n2 -> same_data n n2.
Proof. intros [] []. split; try congruence; [auto|]. intros Hd He. apply s_raw1; [congruence|auto]. Qed.
#[export] Instance recode_pre : PreOrder recode.
Proof.
  split.
  - intros n. split; [by split|done].
  - intros n n1 n2 [H1 H2] [G1 G2]. split; [by eapply same_data_trans|auto].
Qed.
#[export] Instance recoded_pre : PreOrder recoded.
Proof.
  split.
  - intros x. by split.
  - intros x y z [H1 H2] [G1 G2]. split; [congruence|by etrans].
Qed.

Lemma recoded_addrs xs ys : Forall2 recoded xs ys -> ys.*1 = xs.*1.
Proof. induction 1 as [|x y xs ys [H _] _ IH]; [done|]. cbn. by rewrite H, IH. Qed.

Lemma recoded_at xs i a n n' : xs !! i = Some (a, n) -> recode n n' -> Forall2 recoded xs (<[i := (a, n')]> xs).
Proof.
  intros Hi Hr. rewrite insert_take_drop by (by eapply lookup_lt_Some). rewrite <- (take_drop_middle xs i (a, n) Hi) at 1.
  apply Forall2_app; [done|]. constructor; [by split|done].
Qed.

Lemma raw_stored n l : stored n l -> encoding n = QUICKLIST_NODE_ENCODING_RAW -> exists b, entry n = Bytes b /\ shaped n b l /\ 0 <= sz n < 2 ^ 32.
Proof. intros (b & [[H1 H2]|[H1 _]] & H3 & H4) He; [by exists b|]. by rewrite He in H1. Qed.

Lemma stored_enc n l : stored n l -> encoding n = QUICKLIST_NODE_ENCODING_RAW \/ encoding n = QUICKLIST_NODE_ENCODING_LZF /\ recompress n = false.
Proof. intros (b & [[H1 H2]|(H1 & H2 & _)] & _); auto. Qed.

Lemma shaped_size n b l : shaped n b l -> sz n <= zlen b.
Proof. intros [(_ & H1 & H2 & _)|(_ & _ & H & _)]; [|lia]. pose proof (packs_size _ _ H1). lia. Qed.

(** ** Compression of one node *)

Lemma compress_raw q xs ex i a n l : linked q xs ex -> xs !! i = Some (a, n) -> stored n l -> encoding n = QUICKLIST_NODE_ENCODING_RAW ->
  (0 < i)%nat -> (S i < length xs)%nat ->
  exists q' n', __quicklistCompressNode junk a q = Some q' /\ linked q' (<[i := (a, n')]> xs) ex /\ same_params q q' /\ recode n n' /\
    recompress n' = dont_compress n && recompress n.
Proof.
  intros L Hi Hs He H0 H1. destruct (raw_stored n l Hs He) as (b & Hb & Hsh & Hsz). pose proof (shaped_size _ _ _ Hsh) as Hle.
  unfold __quicklistCompressNode. rewrite (linked_lookup _ _ _ _ _ _ L Hi). bnd. cbn [dont_compress relink set_prev set_next].
  destruct (dont_compress n) eqn:Ed.
  { exists q, n. rewrite list_insert_id by done. by split_and!. }
  replace (bool_decide _ && bool_decide _) with true; cycle 1.
  { cbn. rewrite behind_eq, before_eq by (apply lookup_lt_Some in Hi; lia). destruct i as [|i]; [lia|].
    destruct (lookup_lt_is_Some_2 xs i) as [x ->]; [lia|]. destruct (lookup_lt_is_Some_2 xs (S (S i))) as [y ->]; [lia|]. done. }
  cbn [assert_]. bnd.
  assert (forall k e en, (forall l', stored n l' -> stored (set_recompress false (set_entry e (sz n) en n)) l') ->
    exists q' n', Some (set_calls k (put a (relink (before xs i) (behind xs i) (set_recompress false (set_entry e (sz n) en n))) q)) = Some q' /\
      linked q' (<[i := (a, n')]> xs) ex /\ same_params q q' /\ recode n n' /\ recompress n' = false && recompress n) as Hput.
  { intros k e en Hst. eexists _, (set_recompress false (set_entry e (sz n) en n)). split; [done|]. split; [by eapply linked_put|]. split; [done|]. split; [|done].
    split; [|done]. split; try done. cbn. congruence. }
  assert (forall l', stored n l' -> stored (set_recompress false (set_entry (entry n) (sz n) (encoding n) n)) l') as Hsame.
  { intros l' (b' & Hb' & Hsh'). exists b'. split; [|done]. destruct Hb' as [Hb'|(H2 & H3 & H4)]; [by left|right]. by split_and!. }
  specialize (Hput) as Hput'. specialize (Hput (calls q) (entry n) (encoding n) Hsame).
  change (set_recompress false (relink (before xs i) (behind xs i) n)) with (relink (before xs i) (behind xs i) (set_recompress false (set_entry (entry n) (sz n) (encoding n) n))).
  cbn [sz relink set_prev set_next set_recompress set_entry]. case_if Es.
  { exact Hput. }
  unfold raw at 1. cbn [entry relink set_prev set_next set_recompress set_entry]. rewrite Hb. bnd.
  destruct (ldn_is_Some b 0 (sz n)) as [inb Hin]; [lia..|]. rewrite Hin. bnd.
  pose proof (ldn_zlen _ _ _ _ Hin) as Hz. unfold MIN_COMPRESS_BYTES in Es.
  destruct (lzf_law (calls q) inb (replicate (Z.to_nat (sz n)) junk)) as (k & out & Hc & Hr); [lia|]. rewrite Hc. bnd.
  destruct (_ || _) eqn:Ek.
  { rewrite <- Hb. exact (Hput' (S (calls q)) (entry n) (encoding n) Hsame). }
  apply orb_false_iff in Ek as [Ek _]. apply Z.eqb_neq in Ek. destruct (Hr Ek) as (c & Hk & Hld & Hd). rewrite Hld. bnd.
  apply (Hput' (S (calls q)) (Lzf k c) QUICKLIST_NODE_ENCODING_LZF). intros l' Hs'. destruct (raw_stored n l' Hs' He) as (b' & Hb' & Hsh' & _).
  rewrite Hb in Hb'. injection Hb' as <-. exists inb. split_and!; [| |cbn; lia|cbn; lia].
  - right. split_and!; try done. exists k, c, c, (zlen inb). split_and!; [done| |lia|].
    + pose proof (ldn_zlen _ _ _ _ Hld) as Hzc. apply (ldn_at' _ [] c []); [by rewrite app_nil_r|done|done].
    + cbn. apply Hd. unfold zlen at 1. rewrite length_replicate. lia.
  - apply ldn_Some in Hin as (_ & _ & _ & ->). rewrite drop_0. destruct Hsh' as [(G1 & G2 & G3 & G4)|(G1 & G2 & G3 & G4)]; [left|right]; cbn.
    + split_and!; try done. rewrite G3. by apply packs_cut.
    + rewrite G3. unfold zlen. by rewrite Nat2Z.id, take_ge by lia.
Qed.

Lemma compress_at q xs ex i a n l : linked q xs ex -> xs !! i = Some (a, n) -> stored n l -> (0 < i)%nat -> (S i < length xs)%nat ->
  exists q' n', quicklistCompressNode junk (Some a) q = Some q' /\ linked q' (<[i := (a, n')]> xs) ex /\ same_params q q' /\ recode n n' /\
    recompress n' = dont_compress n && recompress n.
Proof.
  intros L Hi Hs H0 H1. unfold quicklistCompressNode. rewrite (linked_lookup _ _ _ _ _ _ L Hi). bnd. cbn [encoding relink set_prev set_next].
  destruct (stored_enc n l Hs) as [He|[He Hr]]; rewrite He; cbn.
  - by eapply compress_raw.
  - exists q, n. rewrite list_insert_id by done. rewrite Hr, andb_false_r. by split_and!.
Qed.

(** A node that is decompressed. *)
Lemma decompress_at q xs ex i a n l : linked q xs ex -> xs !! i = Some (a, n) -> stored n l ->
  exists q' n', quicklistDecompressNode junk (Some a) q = Some q' /\ linked q' (<[i := (a, n')]> xs) ex /\ same_params q q' /\ recode n n' /\
    encoding n' = QUICKLIST_NODE_ENCODING_RAW.
Proof.
  intros L Hi Hs. unfold quicklistDecompressNode, __quicklistDecompressNode. rewrite (linked_lookup _ _ _ _ _ _ L Hi). bnd. cbn [encoding relink set_prev set_next].
  destruct (stored_enc n l Hs) as [He|[He Hr]]; rewrite He.
  { exists q, n. rewrite list_insert_id by done. by split_and!. }
  rewrite Z.eqb_refl. bnd. cbn [entry sz relink set_prev set_next set_recompress].
  destruct Hs as (b & [[_ Hb]|(_ & _ & k & c & c' & r & H2 & H3 & H4 & H5)] & Hsh & Hsz); [by rewrite He in Hb|]. rewrite H2, H3. bnd. rewrite H5. bnd.
  apply Z.eqb_neq in H4 as H4'. rewrite H4'.
  eexists _, (set_entry (Bytes b) (sz n) QUICKLIST_NODE_ENCODING_RAW (set_recompress false n)). split; [done|].
  split; [exact (linked_put q xs ex i a n (set_entry (Bytes b) (sz n) QUICKLIST_NODE_ENCODING_RAW (set_recompress false n)) (calls q) L Hi)|]. split_and!; try done. split; [|done]. split; try done.
  intros l' (b' & [[_ Hb']|(_ & _ & k' & c1 & c2 & r' & G2 & G3 & G4 & G5)] & Hsh' & Hsz'); [by rewrite He in Hb'|].
  rewrite H2 in G2. injection G2 as <- <-. rewrite H3 in G3. injection G3 as <-. rewrite H5 in G5. injection G5 as <- <-.
  exists b. split_and!; [by left|exact Hsh'|cbn; lia|cbn; lia].
Qed.

(** ** The two ends *)

Definition shallow (c : Z) (m i : nat) : Prop := c = 0 \/ Z.of_nat i < c \/ Z.of_nat m - Z.of_nat i <= c.

Definition safe (c : Z) (xs : list cell) : Prop := forall i a n, xs !! i = Some (a, n) -> shallow c (length xs) i ->
  encoding n = QUICKLIST_NODE_ENCODING_RAW /\ recompress n = false.

Definition sound (x : cell) : Prop := exists l, stored x.2 l.

(** The nodes may be compressed otherwise, and nothing else changes. *)
Record moved (q : quicklist) (xs : list cell) (q' : quicklist) (ys ex : list cell) : Prop := {
  m_linked : linked q' ys ex;
  m_recoded : Forall2 recoded xs ys;
  m_params : same_params q q' }.

Lemma moved_refl q xs ex : linked q xs ex -> moved q xs q xs ex.
Proof. intros L. by split. Qed.

Lemma same_params_trans q q1 q2 : same_params q q1 -> same_params q1 q2 -> same_params q q2.
Proof. intros (?&?&?) (?&?&?). split_and!; congruence. Qed.

Lemma moved_trans q xs q1 ys q2 zs ex : moved q xs q1 ys ex -> moved q1 ys q2 zs ex -> moved q xs q2 zs ex.
Proof. intros [L1 R1 P1] [L2 R2 P2]. split; [done|by etrans|by eapply same_params_trans]. Qed.

Lemma recoded_lookup xs ys i a n : Forall2 recoded xs ys -> xs !! i = Some (a, n) -> exists n', ys !! i = Some (a, n') /\ recode n n'.
Proof. intros F Hi. destruct (Forall2_lookup_l _ _ _ _ _ F Hi) as ([b n'] & Hy & Hb & Hr). cbn in *. subst b. by exists n'. Qed.

Lemma recoded_lookup_r xs ys i a n' : Forall2 recoded xs ys -> ys !! i = Some (a, n') -> exists n, xs !! i = Some (a, n) /\ recode n n'.
Proof. intros F Hi. destruct (Forall2_lookup_r _ _ _ _ _ F Hi) as ([b n] & Hy & Hb & Hr). cbn in *. subst b. by exists n. Qed.

Lemma recoded_sound xs ys : Forall2 recoded xs ys -> Forall sound xs -> Forall sound ys.
Proof. induction 1 as [|x y xs ys [_ [Hr _]] _ IH]; [done|]. intros [[l Hl] Hs]%Forall_cons. constructor; [exists l; by apply Hr|auto]. Qed.

Lemma sound_at xs i a n : Forall sound xs -> xs !! i = Some (a, n) -> exists l, stored n l.
Proof. intros F Hi. exact (Forall_lookup_1 _ _ _ _ F Hi). Qed.

(** The nodes that are not compressed stay so. *)
Definition rawer (xs ys : list cell) : Prop := forall i a n n', xs !! i = Some (a, n) -> ys !! i = Some (a, n') ->
  encoding n = QUICKLIST_NODE_ENCODING_RAW -> encoding n' = QUICKLIST_NODE_ENCODING_RAW.

Lemma thaw q xs ex i a n : linked q xs ex -> Forall sound xs -> xs !! i = Some (a, n) ->
  exists q' ys, quicklistDecompressNode junk (Some a) q = Some q' /\ moved q xs q' ys ex /\ rawer xs ys /\
    (exists n', ys !! i = Some (a, n') /\ encoding n' = QUICKLIST_NODE_ENCODING_RAW).
Proof.
  intros L Hs Hi. destruct (sound_at xs i a n Hs Hi) as [l Hl]. destruct (decompress_at q xs ex i a n l L Hi Hl) as (q' & n' & H1 & H2 & H3 & H4 & H5).
  pose proof (lookup_lt_Some _ _ _ Hi) as Hlt. exists q', (<[i := (a, n')]> xs). split_and!; [done|split; [done|by eapply recoded_at|done]| |].
  - intros j b m m' Hm Hm' He. destruct (decide (i = j)) as [<-|Hne]; [rewrite list_lookup_insert_eq in Hm' by done; congruence|].
    rewrite list_lookup_insert_ne in Hm' by done. congruence.
  - exists n'. by rewrite list_lookup_insert_eq.
Qed.

Lemma rawer_trans xs ys zs : Forall2 recoded xs ys -> rawer xs ys -> rawer ys zs -> rawer xs zs.
Proof.
  intros R H1 H2 i a n n' Hn Hn' He. destruct (recoded_lookup xs ys i a n R Hn) as (m & Hm & _). eauto.
Qed.

(** The positions that the loop visits. *)
Definition visited (m i c j : nat) : Prop := (i <= j < c)%nat \/ (m - c <= j < m - i)%nat.

Definition loop_result (i c : nat) (a : option addr) (ind : bool) (q : quicklist) (xs ex : list cell)
    (res : quicklist + quicklist * option addr * option addr * bool) : Prop :=
  let m := length xs in
  match res with
  | inl q' => exists ys, moved q xs q' ys ex /\ rawer xs ys /\
      forall j b n, ys !! j = Some (b, n) -> (i <= j < m - i)%nat -> encoding n = QUICKLIST_NODE_ENCODING_RAW
  | inr (q', f, r, ind') => exists ys, moved q xs q' ys ex /\ rawer xs ys /\ (c < m - c)%nat /\
      f = fst <$> xs !! c /\ r = fst <$> xs !! (m - 1 - c)%nat /\
      (forall j b n, ys !! j = Some (b, n) -> visited m i c j -> encoding n = QUICKLIST_NODE_ENCODING_RAW) /\
      (ind' = false -> ind = false /\ forall j b n, xs !! j = Some (b, n) -> visited m i c j -> a <> Some b)
  end.

Lemma addr_at xs ys i : Forall2 recoded xs ys -> fst <$> ys !! i = fst <$> xs !! i.
Proof. intros R. rewrite <- !list_lookup_fmap. by rewrite (recoded_addrs xs ys R). Qed.

Lemma loop_ok d : forall i c q xs ex a f r fn rn ind, linked q xs ex -> Forall sound xs -> (i + d = c)%nat -> (2 * c <= length xs)%nat ->
  (i + i < length xs)%nat -> xs !! i = Some (f, fn) -> xs !! (length xs - 1 - i)%nat = Some (r, rn) ->
  exists res, compress_loop junk d a f r ind q = Some res /\ loop_result i c a ind q xs ex res.
Proof.
  induction d as [|d IH]; intros i c q xs ex a f r fn rn ind L Hs Hc Hm Hi Hf Hr.
  { eexists. split; [done|]. assert (i = c) as <- by lia. exists xs. split_and!.
    - by apply moved_refl.
    - intros j b n n' Hn Hn'. by simplify_eq.
    - lia.
    - by rewrite Hf.
    - by rewrite Hr.
    - intros j b n _ [Hj|Hj]; lia.
    - intros Hind. split; [done|]. intros j b n _ [Hj|Hj]; lia. }
  cbn [compress_loop].
  destruct (thaw q xs ex i f fn L Hs Hf) as (q1 & xs1 & Hq1 & M1 & W1 & (fn1 & Hf1 & Ef1)). rewrite Hq1. bnd.
  pose proof (m_recoded _ _ _ _ _ M1) as R1. pose proof (recoded_sound _ _ R1 Hs) as Hs1.
  destruct (recoded_lookup _ _ _ _ _ R1 Hr) as (rn1 & Hr1 & _).
  destruct (thaw q1 xs1 ex _ r rn1 (m_linked _ _ _ _ _ M1) Hs1 Hr1) as (q2 & xs2 & Hq2 & M2 & W2 & (rn2 & Hr2 & Er2)). rewrite Hq2. bnd.
  pose proof (moved_trans _ _ _ _ _ _ _ M1 M2) as M. pose proof (rawer_trans _ _ _ R1 W1 W2) as W. pose proof (m_recoded _ _ _ _ _ M) as R.
  pose proof (m_linked _ _ _ _ _ M) as L2. pose proof (recoded_sound _ _ R Hs) as Hs2. pose proof (Forall2_length _ _ _ R) as Hlen.
  destruct (recoded_lookup _ _ _ _ _ (m_recoded _ _ _ _ _ M2) Hf1) as (fn2 & Hf2 & _).
  assert (encoding fn2 = QUICKLIST_NODE_ENCODING_RAW) as Ef2 by eauto.
  rewrite (linked_lookup _ _ _ _ _ _ L2 Hf2). bnd. cbn [next relink set_prev set_next]. rewrite behind_eq, (addr_at _ _ _ R).
  destruct (bool_decide (f = r) || _) eqn:Eb.
  { eexists. split; [done|]. exists xs2. split_and!; [done|done|]. intros j b n Hj Hij.
    assert (length xs - 1 - i = i \/ length xs - 1 - i = S i)%nat as Hend.
    { apply orb_true_iff in Eb as [Eb|Eb]; apply bool_decide_eq_true in Eb.
      - subst r. left. exact (cell_inj _ _ _ _ _ _ _ _ L Hr Hf).
      - destruct (xs !! S i) as [[b' n1]|] eqn:Ei; [|done]. injection Eb as ->. right. exact (cell_inj _ _ _ _ _ _ _ _ L Hr Ei). }
    assert (j = i \/ j = length xs - 1 - i)%nat as [->| ->] by lia; congruence. }
  apply orb_false_iff in Eb as [Eb1 Eb2]. apply bool_decide_eq_false in Eb1, Eb2.
  assert (length xs - 1 - i <> i)%nat as Hne1 by (intros He; rewrite He in Hr; congruence).
  assert (length xs - 1 - i <> S i)%nat as Hne2 by (intros He; rewrite He in Hr; rewrite Hr in Eb2; done).
  rewrite (linked_lookup _ _ _ _ _ _ L2 Hr2). bnd. cbn [prev relink set_prev set_next]. rewrite before_eq by lia.
  destruct (lookup_lt_is_Some_2 xs (S i)) as [[f' fn'] Hf']; [lia|]. destruct (lookup_lt_is_Some_2 xs (length xs - 1 - S i)) as [[r' rn'] Hr']; [lia|].
  rewrite Hf'. cbn [fmap option_fmap option_map fst]. replace (length xs - 1 - i)%nat with (S (length xs - 1 - S i))%nat by lia. rewrite (addr_at _ _ _ R), Hr'.
  cbn [fmap option_fmap option_map fst].
  destruct (recoded_lookup _ _ _ _ _ R Hf') as (fm & Hfm & _). destruct (recoded_lookup _ _ _ _ _ R Hr') as (rm & Hrm & _).
  destruct (IH (S i) c q2 xs2 ex a f' r' fm rm (ind || bool_decide (Some f = a) || bool_decide (Some r = a))) as (res & Hres & Hl); try done; [lia|lia|lia|by rewrite <- Hlen|].
  exists res. split; [done|]. clear Hres IH. destruct res as [q'|[[[q' fa] ra] ind']]; cbn [loop_result] in Hl |- *; rewrite <- ?Hlen in Hl.
  - destruct Hl as (ys & My & Wy & Hj). exists ys. split_and!; [by eapply moved_trans|by eapply rawer_trans|]. intros j b n Hn Hij.
    destruct (decide (j = i \/ j = length xs - 1 - i)%nat) as [Hji|Hji]; [|eapply Hj; [done|lia]].
    destruct (recoded_lookup_r _ _ _ _ _ (m_recoded _ _ _ _ _ My) Hn) as (n2 & Hn2 & _).
    apply (Wy j b n2 n Hn2 Hn). destruct Hji as [->| ->]; congruence.
  - destruct Hl as (ys & My & Wy & Hcm & -> & -> & Hj & Hin). exists ys. rewrite !(addr_at _ _ _ R).
    split_and!; [by eapply moved_trans|by eapply rawer_trans|lia|done|done| |].
    + intros j b n Hn Hv. destruct (decide (j = i \/ j = length xs - 1 - i)%nat) as [Hji|Hji]; [|eapply Hj; [done|unfold visited in *; lia]].
      destruct (recoded_lookup_r _ _ _ _ _ (m_recoded _ _ _ _ _ My) Hn) as (n2 & Hn2 & _).
      apply (Wy j b n2 n Hn2 Hn). destruct Hji as [->| ->]; congruence.
    + intros Hi'. destruct (Hin Hi') as [Hb Ha]. apply orb_false_iff in Hb as [[Hb1 Hb2]%orb_false_iff Hb3]. apply bool_decide_eq_false in Hb2, Hb3.
      split; [done|]. intros j b n Hn Hv. destruct (decide (j = i)) as [->|]; [simplify_eq; congruence|].
      destruct (decide (j = length xs - 1 - i)%nat) as [->|]; [simplify_eq; congruence|].
      destruct (recoded_lookup _ _ _ _ _ R Hn) as (n2 & Hn2 & _). eapply Ha; [exact Hn2|unfold visited in *; lia].
Qed.

(** A node away from the ends is compressed. *)
Lemma freeze q xs ex c k a n : linked q xs ex -> Forall sound xs -> safe c xs -> 0 <= c -> xs !! k = Some (a, n) -> ~ shallow c (length xs) k ->
  exists q' ys, quicklistCompressNode junk (Some a) q = Some q' /\ moved q xs q' ys ex /\ safe c ys /\
    exists n', ys !! k = Some (a, n') /\ recompress n' = dont_compress n && recompress n.
Proof.
  intros L Hs Hc H0 Hk Hd. destruct (sound_at xs k a n Hs Hk) as [l Hl]. unfold shallow in Hd. pose proof (lookup_lt_Some _ _ _ Hk) as Hlt.
  destruct (compress_at q xs ex k a n l L Hk Hl) as (q' & n' & H1 & H2 & H3 & H4 & H5); [lia..|].
  exists q', (<[k := (a, n')]> xs). split_and!; [done|split; [done|by eapply recoded_at|done]| |].
  - intros j b m Hj Hsh. rewrite length_insert in Hsh. destruct (decide (k = j)) as [<-|Hne]; [by destruct Hd|].
    rewrite list_lookup_insert_ne in Hj by done. eauto.
  - exists n'. by rewrite list_lookup_insert_eq.
Qed.

(** What __quicklistCompress relies on: when it does not look at the ends
    they are as they should be, and no node that it can meet there is marked. *)
Definition ready (c : Z) (xs : list cell) : Prop :=
  (forall i a n, xs !! i = Some (a, n) -> shallow c (length xs) i -> recompress n = false) /\
  (c = 0 \/ zlen xs < 2 * c -> safe c xs).

Lemma safe_ready c xs : safe c xs -> ready c xs.
Proof. intros Hs. split; [|done]. intros i a n Hi Hsh. by apply (Hs i a n). Qed.

Lemma end_flag c xs i a n : ready c xs -> 0 <= c -> xs !! i = Some (a, n) -> i = 0%nat \/ i = (length xs - 1)%nat -> recompress n = false.
Proof.
  intros [Hr _] H0 Hi He. apply (Hr i a n Hi). unfold shallow. pose proof (lookup_lt_Some _ _ _ Hi). destruct (decide (c = 0)); [by left|right]. lia.
Qed.

Lemma linked_ends q xs ex : linked q xs ex -> xs <> [] -> exists h hn t tn, xs !! 0%nat = Some (h, hn) /\ xs !! (length xs - 1)%nat = Some (t, tn) /\
  head q = Some h /\ tail q = Some t.
Proof.
  intros [_ _ _ _ Hh Ht _] Hne. destruct xs as [|[h hn] xs'] eqn:E; [done|]. rewrite <- E in *.
  destruct (last_cases xs) as [->|(pre & t & tn & Hx)]; [done|]. exists h, hn, t, tn. rewrite Hh, Ht. split_and!.
  - by rewrite E.
  - rewrite Hx, length_app, lookup_app_r by (cbn; lia). cbn. by replace (length pre + 1 - 1 - length pre)%nat with 0%nat by lia.
  - by rewrite E.
  - by rewrite Hx, chain_last_app.
Qed.

Lemma after_loop q xs ex c ys q' : ready c xs -> moved q xs q' ys ex ->
  (forall j b n, ys !! j = Some (b, n) -> shallow c (length xs) j -> encoding n = QUICKLIST_NODE_ENCODING_RAW) -> safe c ys.
Proof.
  intros [Hr _] M Hj i b n Hi Hsh. rewrite <- (Forall2_length _ _ _ (m_recoded _ _ _ _ _ M)) in Hsh. split; [by eapply Hj|].
  destruct (recoded_lookup_r _ _ _ _ _ (m_recoded _ _ _ _ _ M) Hi) as (n0 & Hn0 & [_ Hf]). specialize (Hr i b n0 Hn0 Hsh).
  destruct (recompress n); [|done]. by rewrite Hf in Hr.
Qed.

Lemma compress_all q xs ex a : linked q xs ex -> Forall sound xs -> 0 <= compress q -> ready (compress q) xs ->
  (forall b, a = Some b -> exists k n, xs !! k = Some (b, n)) ->
  exists q' ys, __quicklistCompress junk a q = Some q' /\ moved q xs q' ys ex /\ safe (compress q) ys.
Proof.
  intros L Hs H0 Hr Ha. unfold __quicklistCompress. rewrite (l_len _ _ _ L).
  destruct (zlen xs =? 0) eqn:E0; bool_hyps.
  { exists q, xs. split_and!; [done|by apply moved_refl|]. intros i b n Hi. apply lookup_lt_Some in Hi. unfold zlen in E0. lia. }
  destruct (linked_ends q xs ex L) as (h & hn & t & tn & Hh & Ht & -> & ->); [by intros ->|]. bnd.
  rewrite (linked_lookup _ _ _ _ _ _ L Hh), (linked_lookup _ _ _ _ _ _ L Ht). bnd. cbn [recompress relink set_prev set_next].
  rewrite (end_flag _ _ _ _ _ Hr H0 Hh), (end_flag _ _ _ _ _ Hr H0 Ht) by auto. cbn [negb andb assert_]. bnd.
  destruct (_ || _) eqn:Ec.
  { exists q, xs. split_and!; [done|by apply moved_refl|]. apply Hr. apply orb_true_iff in Ec as [Ec|Ec]; bool_hyps; [by left|right; lia]. }
  apply orb_false_iff in Ec as [Ec1 Ec2]. bool_hyps. set (c := compress q) in *. set (cn := Z.to_nat c).
  assert (c = Z.of_nat cn) as Hcn by (unfold cn; lia). unfold zlen in *. 
  destruct (loop_ok cn 0 cn q xs ex a h t hn tn false L Hs) as (res & -> & Hl); [lia|lia|lia|done|by rewrite Nat.sub_0_r|]. bnd.
  destruct res as [q1|[[[q1 f] r] ind]]; cbn [loop_result] in Hl.
  - destruct Hl as (ys & M & W & Hj). exists q1, ys. split_and!; [done|done|]. apply (after_loop q xs ex c ys q1); try done.
    intros j b n Hn Hsh. apply (Hj j b n Hn). apply lookup_lt_Some in Hn. rewrite <- (Forall2_length _ _ _ (m_recoded _ _ _ _ _ M)) in Hn. lia.
  - destruct Hl as (ys & M & W & Hcm & -> & -> & Hj & Hin). pose proof (m_recoded _ _ _ _ _ M) as R. pose proof (Forall2_length _ _ _ R) as Hlen.
    assert (safe c ys) as S1.
    { apply (after_loop q xs ex c ys q1); try done. intros j b n Hn Hsh. apply (Hj j b n Hn). unfold shallow, visited in *. apply lookup_lt_Some in Hn. lia. }
    pose proof (recoded_sound _ _ R Hs) as Hs1.
    assert (exists q2 zs, (if ind then Some q1 else quicklistCompressNode junk a q1) = Some q2 /\ moved q1 ys q2 zs ex /\ safe c zs) as (q2 & zs & -> & M2 & S2).
    { destruct ind; [exists q1, ys; split_and!; [done|apply moved_refl, M|done]|]. destruct (Hin eq_refl) as [_ Hd]. destruct a as [a|]; cycle 1.
      { exists q1, ys. split_and!; [done|apply moved_refl, M|done]. }
      destruct (Ha a eq_refl) as (k & n & Hk). destruct (recoded_lookup _ _ _ _ _ R Hk) as (n1 & Hk1 & _).
      destruct (freeze q1 ys ex c k a n1 (m_linked _ _ _ _ _ M) Hs1 S1 H0 Hk1) as (q2 & zs & H1 & H2 & H3 & _); [|by exists q2, zs].
      rewrite <- Hlen. intros Hsh. apply (Hd k a n Hk); [|done]. unfold shallow, visited in *. apply lookup_lt_Some in Hk. lia. }
    bnd. pose proof (m_recoded _ _ _ _ _ M2) as R2. pose proof (Forall2_length _ _ _ R2) as Hlen2. pose proof (recoded_sound _ _ R2 Hs1) as Hs2.
    destruct (lookup_lt_is_Some_2 xs cn) as [[f fn] Hf]; [lia|]. destruct (lookup_lt_is_Some_2 xs (length xs - 1 - cn)) as [[r rn] Hrn]; [lia|].
    rewrite Hf, Hrn. cbn [fmap option_fmap option_map fst].
    assert (Forall2 recoded xs zs) as R02 by by etrans.
    destruct (recoded_lookup _ _ _ _ _ R02 Hf) as (fn2 & Hf2 & _).
    destruct (freeze q2 zs ex c cn f fn2 (m_linked _ _ _ _ _ M2) Hs2 S2 H0 Hf2) as (q3 & ws & -> & M3 & S3 & _); [unfold shallow; lia|]. bnd.
    pose proof (m_recoded _ _ _ _ _ M3) as R3. pose proof (Forall2_length _ _ _ R3) as Hlen3. pose proof (recoded_sound _ _ R3 Hs2) as Hs3.
    assert (Forall2 recoded xs ws) as R03 by by etrans. destruct (recoded_lookup _ _ _ _ _ R03 Hrn) as (rn3 & Hr3 & _).
    destruct (freeze q3 ws ex c (length xs - 1 - cn) r rn3 (m_linked _ _ _ _ _ M3) Hs3 S3 H0 Hr3) as (q4 & us & -> & M4 & S4 & _); [unfold shallow; lia|].
    exists q4, us. split_and!; [done| |done]. eauto using moved_trans.
Qed.

(** quicklistCompress: a node that is marked is away from the ends. *)
Lemma compress_any q xs ex k a n : linked q xs ex -> Forall sound xs -> 0 <= compress q -> safe (compress q) xs -> xs !! k = Some (a, n) ->
  exists q' ys, quicklistCompress junk a q = Some q' /\ moved q xs q' ys ex /\ safe (compress q) ys /\
    exists n', ys !! k = Some (a, n') /\ (dont_compress n = false -> recompress n' = false).
Proof.
  intros L Hs H0 Hsf Hk. unfold quicklistCompress. rewrite (linked_lookup _ _ _ _ _ _ L Hk). bnd. cbn [recompress relink set_prev set_next].
  destruct (recompress n) eqn:Er.
  - destruct (freeze q xs ex (compress q) k a n) as (q' & ys & H1 & H2 & H3 & n' & H4 & H5); try done.
    { intros Hsh. destruct (Hsf k a n Hk Hsh). congruence. }
    exists q', ys. split_and!; try done. exists n'. split; [done|]. rewrite H5. by intros ->.
  - destruct (compress_all q xs ex (Some a)) as (q' & ys & H1 & H2 & H3); try done; [by apply safe_ready|intros b [= ->]; eauto|].
    exists q', ys. split_and!; try done. destruct (recoded_lookup _ _ _ _ _ (m_recoded _ _ _ _ _ H2) Hk) as (n' & H4 & _ & H5). exists n'. split; [done|]. intros _.
    destruct (recompress n'); [|done]. by rewrite H5 in Er.
Qed.

Lemma recompress_any q xs ex k a n : linked q xs ex -> Forall sound xs -> 0 <= compress q -> safe (compress q) xs -> xs !! k = Some (a, n) ->
  exists q' ys, quicklistRecompressOnly junk a q = Some q' /\ moved q xs q' ys ex /\ safe (compress q) ys /\
    exists n', ys !! k = Some (a, n') /\ (dont_compress n = false -> recompress n' = false).
Proof.
  intros L Hs H0 Hsf Hk. unfold quicklistRecompressOnly. rewrite (linked_lookup _ _ _ _ _ _ L Hk). bnd. cbn [recompress relink set_prev set_next].
  destruct (recompress n) eqn:Er.
  - destruct (freeze q xs ex (compress q) k a n) as (q' & ys & H1 & H2 & H3 & n' & H4 & H5); try done.
    { intros Hsh. destruct (Hsf k a n Hk Hsh). congruence. }
    exists q', ys. split_and!; try done. exists n'. split; [done|]. rewrite H5. by intros ->.
  - exists q, xs. split_and!; [done|by apply moved_refl|done|]. eauto.
Qed.

(** ** Linking and unlinking *)

Definition unmarked (x : cell) : Prop := recompress x.2 = false.

Lemma lookup_middle (pre post : list cell) x k y : (pre ++ x :: post) !! k = Some y ->
  k = length pre /\ y = x \/ exists j, (pre ++ post) !! j = Some y /\ (j <= k)%nat /\ (k <= S j)%nat.
Proof.
  intros Hk. destruct (decide (k < length pre)%nat) as [Hlt|Hge].
  - rewrite lookup_app_l in Hk by done. right. exists k. by rewrite lookup_app_l by done; split_and!; [|lia|lia].
  - rewrite lookup_app_r in Hk by lia. destruct (k - length pre)%nat as [|j] eqn:E; [left; cbn in Hk; split; [lia|congruence]|]. right.
    exists (length pre + j)%nat. rewrite lookup_app_r by lia. replace (length pre + j - length pre)%nat with j by lia. split_and!; [done|lia|lia].
Qed.

Lemma safe_insert c pre post x : safe c (pre ++ post) -> encoding x.2 = QUICKLIST_NODE_ENCODING_RAW -> recompress x.2 = false -> safe c (pre ++ x :: post).
Proof.
  intros Hs He Hr k a n Hk Hsh. apply lookup_middle in Hk as [[-> <-]|(j & Hj & Hle & Hge)]; [done|]. apply (Hs j a n Hj).
  unfold shallow in *. rewrite length_app in *. cbn in Hsh. lia.
Qed.

Lemma safe_delete c pre post x : safe c (pre ++ x :: post) -> Forall unmarked (pre ++ post) -> ready c (pre ++ post).
Proof.
  intros Hs Hu. split.
  - intros i a n Hi _. exact (Forall_lookup_1 _ _ _ _ Hu Hi).
  - intros Hc i a n Hi Hsh. assert (exists k, (pre ++ x :: post) !! k = Some (a, n)) as [k Hk].
    { destruct (decide (i < length pre)%nat) as [Hlt|Hge]; [exists i; by rewrite lookup_app_l in * by done|].
      exists (S i). rewrite lookup_app_r in Hi |- * by lia. by replace (S i - length pre)%nat with (S (i - length pre)) by lia. }
    apply (Hs k a n Hk). apply lookup_lt_Some in Hk, Hi. unfold shallow, zlen in *. rewrite length_app in *. cbn in *. lia.
Qed.

Lemma insert_node q pre post old new n ex after : linked q (pre ++ post) ((new, n) :: ex) -> spot after old pre post -> relink None None n = n ->
  Forall sound (pre ++ post) -> sound (new, n) -> encoding n = QUICKLIST_NODE_ENCODING_RAW -> recompress n = false ->
  0 <= compress q -> safe (compress q) (pre ++ post) ->
  exists q' ys, __quicklistInsertNode junk old new after q = Some q' /\ moved q (pre ++ (new, n) :: post) q' ys ex /\ safe (compress q) ys /\
    forall k o no no', old = Some o -> (pre ++ (new, n) :: post) !! k = Some (o, no) -> ys !! k = Some (o, no') -> dont_compress no = false ->
      recompress no' = false.
Proof.
  intros L Hsp Hrl Hs Hn He Hr H0 Hsf. destruct (insert_links q pre post old new n ex after L Hsp Hrl) as (q1 & Hq1 & P1 & _ & L1).
  unfold __quicklistInsertNode. rewrite Hq1. bnd. cbv zeta in L1 |- *.
  set (q2 := set_ends (head _) (tail _) (len _ + 1) _) in *. set (xs := pre ++ (new, n) :: post) in *.
  assert (same_params q q2) as P2 by (unfold q2; destruct (len q1 =? 0); exact P1). assert (compress q2 = compress q) as Hc by apply P2.
  assert (Forall sound xs) as Hsx by (unfold xs; rewrite Forall_app, Forall_cons in *; tauto).
  assert (safe (compress q2) xs) as Hsx2 by (rewrite Hc; by apply safe_insert).
  assert (xs !! length pre = Some (new, n)) as Hnew by (unfold xs; by rewrite list_lookup_middle).
  assert (exists q3 ys, (match old with None => Some q2 | Some o => quicklistCompress junk o q2 end) = Some q3 /\ moved q2 xs q3 ys ex /\ safe (compress q2) ys /\
    forall k o no no', old = Some o -> xs !! k = Some (o, no) -> ys !! k = Some (o, no') -> dont_compress no = false -> recompress no' = false)
    as (q3 & ys & -> & M3 & S3 & F3).
  { destruct old as [o|]; [|exists q2, xs; split_and!; [done|by apply moved_refl|done|done]].
    assert (exists k no, xs !! k = Some (o, no)) as (k & no & Hk).
    { destruct Hsp as [Ho _]. destruct after.
      - destruct (last_cases pre) as [->|(pre' & p & np & Hpre)]; [done|]. rewrite Hpre, chain_last_app in Ho. injection Ho as ->.
        exists (length pre'), np. unfold xs. rewrite Hpre, <- app_assoc. cbn. by rewrite list_lookup_middle.
      - destruct post as [|[x nx] post]; [done|]. injection Ho as ->. exists (S (length pre)), nx. unfold xs.
        rewrite lookup_app_r by lia. by replace (S (length pre) - length pre)%nat with 1%nat by lia. }
    destruct (compress_any q2 xs ex k o no) as (q3 & ys & H1 & H2 & H3 & n' & H4 & H5); try done; [lia|].
    exists q3, ys. split_and!; try done. intros k' o' no1 no2 [= <-] Hk1 Hk2 Hd.
    assert (k' = k) as -> by exact (cell_inj _ _ _ _ _ _ _ _ L1 Hk1 Hk). simplify_eq. auto. }
  bnd. destruct (recoded_lookup _ _ _ _ _ (m_recoded _ _ _ _ _ M3) Hnew) as (n3 & Hn3 & _).
  assert (compress q3 = compress q) as Hc3 by (rewrite <- Hc; apply M3).
  destruct (compress_any q3 ys ex (length pre) new n3) as (q4 & zs & H1 & H2 & H3 & _);
    [apply M3|eapply recoded_sound; [apply M3|done]|lia|by rewrite Hc3, <- Hc|done|].
  exists q4, zs. split_and!; [done| |by rewrite Hc3 in H3|].
  - destruct (moved_trans _ _ _ _ _ _ _ M3 H2) as [G1 G2 G3]. split; [done|done|by eapply same_params_trans].
  - intros k o no no' Ho Hk Hk' Hd. destruct (recoded_lookup _ _ _ _ _ (m_recoded _ _ _ _ _ M3) Hk) as (no3 & Hk3 & Hr3).
    destruct (recoded_lookup _ _ _ _ _ (m_recoded _ _ _ _ _ H2) Hk3) as (no4 & Hk4 & _ & Hr4).
    specialize (F3 k o no no3 Ho Hk Hk3 Hd). rewrite Hk' in Hk4. injection Hk4 as <-. destruct (recompress no'); [|done]. by rewrite Hr4 in F3.
Qed.

Lemma delete_node q pre post a n ex : linked q (pre ++ (a, n) :: post) ex -> Forall sound (pre ++ post) -> Forall unmarked (pre ++ post) ->
  0 <= compress q -> safe (compress q) (pre ++ (a, n) :: post) ->
  exists q' ys, __quicklistDelNode junk a q = Some q' /\ linked q' ys ex /\ Forall2 recoded (pre ++ post) ys /\ safe (compress q) ys /\
    fill q' = fill q /\ compress q' = compress q /\ qcount q' = qcount q - count n.
Proof.
  intros L Hs Hu H0 Hsf. unfold __quicklistDelNode.
  assert ((pre ++ (a, n) :: post) !! length pre = Some (a, n)) as Ha by by rewrite list_lookup_middle.
  assert (node a q = Some (relink (last_of None pre) (first_of post None) n)) as ->.
  { destruct L as [S _ _ _ _ _ _]. rewrite seg_app in S. by destruct S as [_ [S _]]. }
  bnd. cbn [prev next count relink set_prev set_next].
  destruct (unlink_ok q pre post a n ex L) as (q1 & q2 & -> & Hq2 & P2 & _ & L2). bnd. rewrite Hq2. bnd. cbv zeta in L2 |- *.
  set (q3 := if bool_decide (Some a = tail q2) then _ else q2) in *. set (q4 := if bool_decide (Some a = head q3) then _ else q3) in *.
  specialize (L2 (qcount (set_ends (head q4) (tail q4) (len q4 - 1) q4) - count n)).
  assert (same_params q q4) as (P4 & P5 & P6).
  { unfold q4, q3. destruct (bool_decide _), (bool_decide _); exact P2. }
  set (q5 := set_qcount _ _) in *.
  destruct (compress_all q5 (pre ++ post) _ None L2 Hs) as (q6 & ys & -> & M & S6); [cbn; lia|cbn; rewrite P5; by eapply safe_delete|done|]. bnd.
  cbn in S6. rewrite P5 in S6. eexists _, ys. split; [done|]. destruct (m_params _ _ _ _ _ M) as (Q1 & Q2 & Q3). cbn in Q1, Q2, Q3.
  split_and!; [eapply linked_free, M|apply M|done|cbn; congruence|cbn; congruence|cbn; rewrite Q3; congruence].
Qed.

End nodes.
End QuicklistNodes.
