(* ===== verification/QuicklistOps.v ===== *)
(** * The operations of a quicklist on its contents

    What a list holds ([whole], [focus]), and what the operations on a node, at
    the ends, at an index and over a range do to it. *)
From stdpp Require Import base list gmap.
From S2P Require Import Prelude Util ListpackRun Quicklist QuicklistLinks QuicklistNodes.

Module QuicklistOps.
Import Quicklist QuicklistLinks QuicklistNodes.

Section ops.

Context {PK : Packed} {PL : PackedLaws} {CP : Compression} {CL : CompressionLaws}.
Context (junk : Z).

(** ** Lists and nodes *)

(** A node with its strings; the count is a 16-bit field. *)
Definition good (x : cell) (l : list (list Z)) : Prop := stored junk x.2 l /\ count x.2 = zlen l /\ zlen l <= 32768.
Definition quiet (x : cell) : Prop := recompress x.2 = false /\ dont_compress x.2 = false.
Definition params_ok (q : quicklist) : Prop := 0 <= compress q /\ -5 <= fill q <= 32767 /\ compress q <= 65535.

(** The nodes [xs] of a list hold [ls], and no node is in use. *)
Record whole (q : quicklist) (xs : list cell) (ls : list (list (list Z))) (ex : list cell) : Prop := {
  w_linked : linked q xs ex;
  w_good : Forall2 good xs ls;
  w_safe : safe (compress q) xs;
  w_quiet : Forall quiet xs;
  w_params : params_ok q }.

(** The node [a] is in use: nothing is said about what it holds.  [Q] holds of
    the other nodes. *)
Record focusQ (Q : cell -> Prop) (q : quicklist) (pre : list cell) (a : addr) (n : quicklistNode) (post : list cell) (lpre lpost : list (list (list Z))) (ex : list cell) : Prop := {
  f_linked : linked q (pre ++ (a, n) :: post) ex;
  f_pre : Forall2 good pre lpre;
  f_post : Forall2 good post lpost;
  f_safe : safe (compress q) (pre ++ (a, n) :: post);
  f_quiet : Forall Q (pre ++ post);
  f_params : params_ok q }.
#[local] Arguments f_linked {Q} _ _ _ _ _ _ _ _ _.
#[local] Arguments f_pre {Q} _ _ _ _ _ _ _ _ _.
#[local] Arguments f_post {Q} _ _ _ _ _ _ _ _ _.
#[local] Arguments f_safe {Q} _ _ _ _ _ _ _ _ _.
#[local] Arguments f_quiet {Q} _ _ _ _ _ _ _ _ _.
#[local] Arguments f_params {Q} _ _ _ _ _ _ _ _ _.
Local Notation focus := (focusQ quiet).

(** A property of nodes that does not depend on how they are compressed. *)
Class Stable (Q : cell -> Prop) : Prop := stable xs ys : Forall Q xs -> Forall2 (QuicklistNodes.recoded junk) xs ys -> Forall Q ys.

Local Notation recoded := (QuicklistNodes.recoded junk).
Local Notation recode := (QuicklistNodes.recode junk).
Local Notation moved := (QuicklistNodes.moved junk).

Lemma good_recoded x y l : good x l -> recoded x y -> good y l.
Proof. intros (H1 & H2 & H3) (_ & [G1 G2 G3 G4 G5] & _). split_and!; [auto|congruence|done]. Qed.
Lemma goods_recoded xs ys ls : Forall2 good xs ls -> Forall2 recoded xs ys -> Forall2 good ys ls.
Proof.
  intros H. revert ys. induction H as [|x l xs ls Hx _ IH]; intros ys R; [by apply Forall2_nil_inv_l in R as ->|].
  apply Forall2_cons_inv_l in R as (y & ys' & Hy & R & ->). constructor; [by eapply good_recoded|auto].
Qed.
Lemma quiet_recoded x y : quiet x -> recoded x y -> quiet y.
Proof. intros [H1 H2] (_ & [G1 G2 G3 G4 G5] & G6). split; [|congruence]. destruct (recompress y.2); [|done]. by rewrite G6 in H1. Qed.
#[export] Instance quiets_recoded : Stable quiet.
Proof. intros xs ys H R. revert H. induction R as [|x y xs ys Hx _ IH]; [done|]. intros [H1 H2]%Forall_cons. constructor; [by eapply quiet_recoded|auto]. Qed.

Lemma goods_sound xs ls : Forall2 good xs ls -> Forall (sound junk) xs.
Proof. induction 1 as [|x l xs ls [H _] _ IH]; constructor; [by exists l|done]. Qed.
Lemma quiet_unmarked xs : Forall quiet xs -> Forall unmarked xs.
Proof. intros Hq. eapply Forall_impl; [exact Hq|]. by intros x [? _]. Qed.

Lemma params_moved q q' : params_ok q -> same_params q q' -> params_ok q'.
Proof. intros [H1 H2] (G1 & G2 & _). unfold params_ok. by rewrite G1, G2. Qed.

Lemma whole_focus q pre a n post ls ex : whole q (pre ++ (a, n) :: post) ls ex ->
  exists lpre l lpost, ls = lpre ++ l :: lpost /\ focus q pre a n post lpre lpost ex /\ good (a, n) l /\ quiet (a, n).
Proof.
  intros [H1 H2 H3 H4 H5]. apply Forall2_app_inv_l in H2 as (lpre & l2 & G1 & G2 & ->). apply Forall2_cons_inv_l in G2 as (l & lpost & G2 & G3 & ->).
  apply Forall_app in H4 as [Q1 [Q2 Q3]%Forall_cons]. exists lpre, l, lpost. split_and!; try done. split; try done. by apply Forall_app.
Qed.

Lemma focus_whole q pre a n post lpre lpost l ex : focus q pre a n post lpre lpost ex -> good (a, n) l -> quiet (a, n) ->
  whole q (pre ++ (a, n) :: post) (lpre ++ l :: lpost) ex.
Proof.
  intros [H1 H2 H3 H4 H5 H6] Hg Hq. apply Forall_app in H5 as [Q1 Q2]. split; try done.
  - apply Forall2_app; [done|]. by constructor.
  - apply Forall_app. split; [done|]. by constructor.
Qed.

(** The nodes and strings of a list with one in the middle. *)
Lemma recoded_middle pre (a : addr) n post ys : Forall2 recoded (pre ++ (a, n) :: post) ys ->
  exists pre' n' post', ys = pre' ++ (a, n') :: post' /\ Forall2 recoded pre pre' /\ recode n n' /\ Forall2 recoded post post' /\ length pre' = length pre.
Proof.
  intros R. apply Forall2_app_inv_l in R as (pre' & ys2 & R1 & R2 & ->). apply Forall2_cons_inv_l in R2 as ([b n'] & post' & [Hb Hr] & R3 & ->).
  cbn in Hb, Hr. subst b. exists pre', n', post'. by rewrite (Forall2_length _ _ _ R1).
Qed.

Lemma focus_sound `{Stable Q} q pre a n post lpre lpost ex : focusQ Q q pre a n post lpre lpost ex -> Forall (sound junk) (pre ++ post).
Proof. intros [_ H2 H3 _ _ _]. apply Forall_app. split; by eapply goods_sound. Qed.
Lemma focus_sounds `{Stable Q} q pre a n post lpre lpost ex l : focusQ Q q pre a n post lpre lpost ex -> stored junk n l -> Forall (sound junk) (pre ++ (a, n) :: post).
Proof. intros F Hs. pose proof (focus_sound _ _ _ _ _ _ _ _ F) as Hx. apply Forall_app in Hx as [H1 H2]. apply Forall_app. split; [done|]. constructor; [by exists l|done]. Qed.

Lemma focus_node `{Stable Q} q pre a n post lpre lpost ex : focusQ Q q pre a n post lpre lpost ex -> node a q = Some (relink (last_of None pre) (first_of post None) n).
Proof. intros [[S _ _ _ _ _ _] _ _ _ _ _]. rewrite seg_app in S. by destruct S as [_ [S _]]. Qed.

(** The list after a function that only compresses. *)
Lemma focus_moved `{Stable Q} q pre a n post lpre lpost ex q' ys : focusQ Q q pre a n post lpre lpost ex -> moved q (pre ++ (a, n) :: post) q' ys ex -> safe (compress q) ys ->
  exists pre' n' post', ys = pre' ++ (a, n') :: post' /\ length pre' = length pre /\ recode n n' /\ focusQ Q q' pre' a n' post' lpre lpost ex /\
    Forall2 recoded pre pre' /\ Forall2 recoded post post'.
Proof.
  intros [H1 H2 H3 H4 H5 H6] M Hs. destruct (recoded_middle _ _ _ _ _ (m_recoded _ _ _ _ _ _ M)) as (pre' & n' & post' & -> & R1 & R2 & R3 & Hl).
  exists pre', n', post'. split_and!; try done. split; [apply M|by eapply goods_recoded|by eapply goods_recoded| | |eapply params_moved; [done|apply M]].
  - destruct (m_params _ _ _ _ _ _ M) as (_ & -> & _). done.
  - eapply stable; [done|]. by apply Forall2_app.
Qed.

(** *** A node is opened, changed, and closed *)

Lemma insert_middle (pre post : list cell) x y : <[length pre := y]> (pre ++ x :: post) = pre ++ y :: post.
Proof. rewrite insert_app_r_alt by done. by rewrite Nat.sub_diag. Qed.

Lemma lookup_mid (pre post : list cell) x : (pre ++ x :: post) !! length pre = Some x.
Proof. by rewrite list_lookup_middle. Qed.

Lemma upd_focus `{Stable Q} q pre a n post lpre lpost ex f : focusQ Q q pre a n post lpre lpost ex -> keeps_links f ->
  (encoding n = QUICKLIST_NODE_ENCODING_RAW -> encoding (f n) = QUICKLIST_NODE_ENCODING_RAW) ->
  (recompress n = false -> recompress (f n) = false \/ ~ shallow (compress q) (length (pre ++ (a, n) :: post)) (length pre)) ->
  exists q', upd a f q = Some q' /\ focusQ Q q' pre a (f n) post lpre lpost ex /\ same_params q q'.
Proof.
  intros [H1 H2 H3 H4 H5 H6] Hf He Hr.
  destruct (linked_upd q _ ex (length pre) a n f H1 (lookup_mid _ _ _) Hf) as (q' & Hq & L & P & _). rewrite insert_middle in L.
  exists q'. split_and!; [done| |done]. split; try done; [|by eapply params_moved]. destruct P as (_ & Hc & _). rewrite Hc.
  intros i b m Hi Hsh. assert (length (pre ++ (a, f n) :: post) = length (pre ++ (a, n) :: post)) as Hl by by rewrite !length_app.
  rewrite Hl in Hsh. destruct (decide (i = length pre)) as [->|Hne].
  - rewrite lookup_mid in Hi. injection Hi as <- <-. destruct (H4 _ a n (lookup_mid _ _ _) Hsh) as [G1 G2]. split; [auto|]. by destruct (Hr G2).
  - rewrite <- insert_middle with (x := (a, n)), list_lookup_insert_ne in Hi by done. by eapply H4.
Qed.

Lemma open_node `{Stable Q} q pre a n post lpre lpost l ex : focusQ Q q pre a n post lpre lpost ex -> good (a, n) l ->
  exists q' n', quicklistDecompressNodeForUse junk a q = Some q' /\ focusQ Q q' pre a n' post lpre lpost ex /\ good (a, n') l /\
    encoding n' = QUICKLIST_NODE_ENCODING_RAW /\ same_data junk n n' /\ same_params q q'.
Proof.
  intros F (Hs & Hc & Hb). pose proof F as [H1 H2 H3 H4 H5 H6]. unfold quicklistDecompressNodeForUse. rewrite (focus_node _ _ _ _ _ _ _ _ F). bnd.
  cbn [encoding relink set_prev set_next]. destruct (stored_enc _ n l Hs) as [He|[He Hr]]; rewrite He.
  { exists q, n. split_and!; try done. }
  rewrite Z.eqb_refl. destruct (decompress_at junk q _ ex (length pre) a n l H1 (lookup_mid _ _ _) Hs) as (q1 & n1 & G1 & G2 & G3 & G4 & G5).
  rewrite insert_middle in G2. unfold quicklistDecompressNode in G1. rewrite (focus_node _ _ _ _ _ _ _ _ F) in G1. cbn [mbind option_bind encoding relink set_prev set_next] in G1.
  rewrite He, Z.eqb_refl in G1. rewrite G1. bnd.
  assert (~ shallow (compress q) (length (pre ++ (a, n) :: post)) (length pre)) as Hd.
  { intros Hsh. destruct (H4 _ a n (lookup_mid _ _ _) Hsh) as [G6 _]. by rewrite He in G6. }
  destruct (linked_upd q1 _ ex (length pre) a n1 (set_recompress true) G2 (lookup_mid _ _ _)) as (q2 & Hq & L & P & _); [done|]. rewrite insert_middle in L.
  rewrite Hq. exists q2, (set_recompress true n1). destruct G4 as [[D1 D2 D3 D4 D5] _]. pose proof (same_params_trans _ _ _ G3 P) as P2.
  assert (forall l', stored junk n l' -> stored junk (set_recompress true n1) l') as Hst.
  { intros l' Hl'. destruct (raw_stored _ n1 l' (D5 _ Hl') G5) as (b & Hb1 & Hb2 & Hb3). exists b. split_and!; [by left|exact Hb2|apply Hb3|apply Hb3]. }
  split_and!; [done| | |done|by split|done].
  - split; try done; [|by eapply params_moved]. destruct P2 as (_ & -> & _). intros i b m Hi Hsh.
    assert (length (pre ++ (a, set_recompress true n1) :: post) = length (pre ++ (a, n) :: post)) as Hl by by rewrite !length_app. rewrite Hl in Hsh.
    destruct (decide (i = length pre)) as [->|Hne]; [done|]. rewrite <- insert_middle with (x := (a, n)), list_lookup_insert_ne in Hi by done. by eapply H4.
  - split_and!; [by apply Hst|cbn; by rewrite D1|done].
Qed.

(** The two ways of closing a node. *)
Lemma close_node q pre a n post lpre lpost l ex : focus q pre a n post lpre lpost ex -> good (a, n) l ->
  exists q' pre' n' post', quicklistCompress junk a q = Some q' /\ focus q' pre' a n' post' lpre lpost ex /\ good (a, n') l /\ length pre' = length pre /\
    recode n n' /\ (dont_compress n = false -> quiet (a, n')) /\ same_params q q' /\
    Forall2 recoded pre pre' /\ Forall2 recoded post post'.
Proof.
  intros F Hg. pose proof F as [H1 H2 H3 H4 H5 H6]. pose proof (focus_sounds _ _ _ _ _ _ _ _ l F (proj1 Hg)) as Hs.
  destruct (compress_any junk q _ ex (length pre) a n H1 Hs (proj1 H6) H4 (lookup_mid _ _ _)) as (q' & ys & G1 & G2 & G3 & n' & G4 & G5).
  destruct (focus_moved _ _ _ _ _ _ _ _ _ _ F G2 G3) as (pre' & n1 & post' & -> & Hl & Hr & F' & R1 & R2).
  rewrite <- Hl, lookup_mid in G4. injection G4 as ->. exists q', pre', n', post'. split_and!; try done; [by eapply good_recoded| |apply G2].
  intros Hd. split; [auto|]. cbn. destruct Hr as [[] _]. congruence.
Qed.

Lemma reclose_node `{Stable Q} q pre a n post lpre lpost l ex : focusQ Q q pre a n post lpre lpost ex -> good (a, n) l ->
  exists q' pre' n' post', quicklistRecompressOnly junk a q = Some q' /\ focusQ Q q' pre' a n' post' lpre lpost ex /\ good (a, n') l /\ length pre' = length pre /\
    recode n n' /\ (dont_compress n = false -> quiet (a, n')) /\ same_params q q' /\
    Forall2 recoded pre pre' /\ Forall2 recoded post post'.
Proof.
  intros F Hg. pose proof F as [H1 H2 H3 H4 H5 H6]. pose proof (focus_sounds _ _ _ _ _ _ _ _ l F (proj1 Hg)) as Hs.
  destruct (recompress_any junk q _ ex (length pre) a n H1 Hs (proj1 H6) H4 (lookup_mid _ _ _)) as (q' & ys & G1 & G2 & G3 & n' & G4 & G5).
  destruct (focus_moved _ _ _ _ _ _ _ _ _ _ F G2 G3) as (pre' & n1 & post' & -> & Hl & Hr & F' & R1 & R2).
  rewrite <- Hl, lookup_mid in G4. injection G4 as ->. exists q', pre', n', post'. split_and!; try done; [by eapply good_recoded| |apply G2].
  intros Hd. split; [auto|]. cbn. destruct Hr as [[] _]. congruence.
Qed.

(** A node is removed. *)
Lemma remove_node q pre a n post lpre lpost ex : focus q pre a n post lpre lpost ex ->
  exists q' pre' post', __quicklistDelNode junk a q = Some q' /\ whole q' (pre' ++ post') (lpre ++ lpost) ex /\
    Forall2 recoded pre pre' /\ Forall2 recoded post post' /\
    fill q' = fill q /\ compress q' = compress q /\ qcount q' = qcount q - count n.
Proof.
  intros F. pose proof F as [H1 H2 H3 H4 H5 H6].
  destruct (delete_node junk q pre post a n ex H1 (focus_sound _ _ _ _ _ _ _ _ F) (quiet_unmarked _ H5) (proj1 H6) H4) as (q' & ys & G1 & G2 & G3 & G4 & G5 & G6 & G7).
  pose proof G3 as R. apply Forall2_app_inv_l in G3 as (pre' & post' & R1 & R2 & ->).
  exists q', pre', post'. split_and!; try done. split; [done| |by rewrite G6| |].
  - apply Forall2_app; by eapply goods_recoded.
  - by eapply quiets_recoded.
  - unfold params_ok. by rewrite G5, G6.
Qed.

(** *** A new node *)

Definition unlinked (n : quicklistNode) : Prop :=
  relink None None n = n /\ encoding n = QUICKLIST_NODE_ENCODING_RAW /\ recompress n = false /\ dont_compress n = false.

(** A node is put between [pre] and [post], when none is in use. *)
Lemma place_node q pre post lpre lpost old new nn l ex after : linked q (pre ++ post) ((new, nn) :: ex) -> Forall2 good pre lpre -> Forall2 good post lpost ->
  safe (compress q) (pre ++ post) -> Forall quiet (pre ++ post) -> params_ok q -> spot after old pre post -> unlinked nn -> stored junk nn l ->
  exists q' pre' n' post', __quicklistInsertNode junk old new after q = Some q' /\ focus q' pre' new n' post' lpre lpost ex /\
    length pre' = length pre /\ length post' = length post /\ recode nn n' /\ quiet (new, n') /\ same_params q q'.
Proof.
  intros L G1 G2 Hsf Hq Hp Hsp (U1 & U2 & U3 & U4) Hst.
  destruct (insert_node junk q pre post old new nn ex after) as (q' & ys & Hq' & M & S' & _); try done;
    [apply Forall_app; split; by eapply goods_sound|by exists l|apply Hp|].
  destruct (recoded_middle _ _ _ _ _ (m_recoded _ _ _ _ _ _ M)) as (pre' & n' & post' & -> & R1 & R2 & R3 & Hl).
  exists q', pre', n', post'. split_and!; try done; [|by rewrite (Forall2_length _ _ _ R3)|by apply (quiet_recoded (new, nn) (new, n'))|apply M].
  destruct (m_params _ _ _ _ _ _ M) as (P1 & P2 & P3). split; [apply M|by eapply goods_recoded|by eapply goods_recoded|by rewrite P2| |].
  - eapply quiets_recoded; [exact Hq|]. by apply Forall2_app.
  - by eapply params_moved; [|apply M].
Qed.

(** A node is put beside one that may be in use. *)
Definition beside (after : bool) (x y : cell) : list cell := if after then [x; y] else [y; x].

Lemma insert_beside q pre a n post l new nn k ex (after : bool) : linked q (pre ++ (a, n) :: post) ((new, nn) :: ex) -> Forall (sound junk) (pre ++ post) ->
  safe (compress q) (pre ++ (a, n) :: post) -> params_ok q -> stored junk n l -> unlinked nn -> stored junk nn k ->
  exists q' pre' n' nn' post', __quicklistInsertNode junk (Some a) new after q = Some q' /\ linked q' (pre' ++ beside after (a, n') (new, nn') ++ post') ex /\
    Forall2 recoded pre pre' /\ Forall2 recoded post post' /\ recode n n' /\ recode nn nn' /\
    safe (compress q') (pre' ++ beside after (a, n') (new, nn') ++ post') /\ quiet (new, nn') /\
    (dont_compress n = false -> quiet (a, n')) /\ same_params q q'.
Proof.
  intros H1 Hs0 H4 H6 Hg (U1 & U2 & U3 & U4) Hst.
  assert (Forall (sound junk) (pre ++ (a, n) :: post)) as Hs
    by (apply Forall_app in Hs0 as [Hs1 Hs2]; apply Forall_app; split; [done|]; constructor; [by exists l|done]).
  set (p1 := if after then pre ++ [(a, n)] else pre). set (p2 := if after then post else (a, n) :: post).
  assert (pre ++ (a, n) :: post = p1 ++ p2) as Hx by (unfold p1, p2; destruct after; [by rewrite <- app_assoc|done]). rewrite Hx in H1, H4, Hs.
  destruct (insert_node junk q p1 p2 (Some a) new nn ex after) as (q' & ys & Hq' & M & S' & Hf); try done.
  { unfold spot, p1, p2. destruct after; [by rewrite chain_last_app|done]. }
  { by exists k. } { apply H6. }
  assert (p1 ++ (new, nn) :: p2 = pre ++ beside after (a, n) (new, nn) ++ post) as Hy by (unfold p1, p2; destruct after; cbn; [by rewrite <- app_assoc|done]).
  rewrite Hy in Hf. pose proof (m_recoded _ _ _ _ _ _ M) as R. rewrite Hy in R.
  assert (exists pre' n' nn' post', ys = pre' ++ beside after (a, n') (new, nn') ++ post' /\ Forall2 recoded pre pre' /\ Forall2 recoded post post' /\
    recode n n' /\ recode nn nn') as (pre' & n' & nn' & post' & -> & R1 & R2 & R3 & R4).
  { apply Forall2_app_inv_l in R as (pre' & ys2 & R1 & R2 & ->). destruct after; cbn in R2;
      apply Forall2_cons_inv_l in R2 as ([b1 m1] & ys3 & [Hb1 Hm1] & R2 & ->); apply Forall2_cons_inv_l in R2 as ([b2 m2] & post' & [Hb2 Hm2] & R2 & ->);
      cbn in *; subst b1 b2; [exists pre', m1, m2, post'|exists pre', m2, m1, post']; by split_and!. }
  pose proof (Forall2_length _ _ _ R1) as Hlen. destruct (m_params _ _ _ _ _ _ M) as (P1 & P2 & P3).
  exists q', pre', n', nn', post'. split_and!; try done; [apply M|by rewrite P2|by apply (quiet_recoded (new, nn) (new, nn'))|].
  intros Hd. split; [|cbn; destruct R3 as [[] _]; congruence]. cbn.
  apply (Hf (length pre + if after then 0 else 1)%nat a n n' eq_refl); [| |done].
  - rewrite lookup_app_r by lia. replace (length pre + _ - length pre)%nat with (if after then 0 else 1)%nat by lia. by destruct after.
  - rewrite Hlen, lookup_app_r by lia. replace (length pre' + _ - length pre')%nat with (if after then 0 else 1)%nat by lia. by destruct after.
Qed.

(** ** Sizes *)

(** A bound of the size of a list as one listpack. *)
Definition weight (l : list (list Z)) : Z := 7 + foldr (fun s k => zlen s + 10 + k) 0 l.

Lemma weight_app l k : weight (l ++ k) = weight l + weight k - 7.
Proof. unfold weight. induction l as [|s l IH]; cbn; lia. Qed.
Lemma weight_cons s l : weight (s :: l) = zlen s + 10 + weight l.
Proof. unfold weight. cbn. lia. Qed.
Lemma weight_pos l : 7 + 10 * zlen l <= weight l.
Proof. induction l as [|s l IH]; [done|]. rewrite weight_cons, zlen_cons. pose proof (zlen_nonneg s). lia. Qed.

Lemma size_cons s l : lp_size (s :: l) = lp_size [s] + lp_size l - 7.
Proof. change (s :: l) with ([s] ++ l). by rewrite size_app. Qed.

Lemma size_bounds l : Forall elem l -> 7 + 2 * zlen l <= lp_size l <= weight l.
Proof.
  induction 1 as [|s l Hs _ IH]; [rewrite size_nil; done|]. rewrite size_cons, weight_cons, zlen_cons. pose proof (size_one s Hs). lia.
Qed.

(** The strings of the nodes. *)
Lemma stored_elem n l : stored junk n l -> Forall elem l.
Proof. intros (b & _ & [(_ & Hp & _)|(_ & -> & _ & He)] & _); [by eapply packs_elem|]. by constructor. Qed.

Lemma goods_elem xs ls : Forall2 good xs ls -> Forall elem (concat ls).
Proof. induction 1 as [|x l xs ls [Hg _] _ IH]; [constructor|]. cbn. apply Forall_app. split; [by eapply stored_elem|done]. Qed.

Lemma weight_concat pre l post : weight (concat (pre ++ l :: post)) = weight (concat pre) + weight l + weight (concat post) - 14.
Proof. rewrite concat_app. cbn. rewrite !weight_app. lia. Qed.

(** ** Listpacks of nodes *)

Lemma is_plain_false n l : stored junk n l -> QL_NODE_IS_PLAIN n = false -> container n = QUICKLIST_NODE_CONTAINER_PACKED.
Proof. intros (b & _ & [(Hc & _)|(Hc & _)] & _) Hp; [done|]. unfold QL_NODE_IS_PLAIN in Hp. by rewrite Hc in Hp. Qed.

Lemma packed_raw n l : stored junk n l -> encoding n = QUICKLIST_NODE_ENCODING_RAW -> container n = QUICKLIST_NODE_CONTAINER_PACKED ->
  exists lp, entry n = Bytes lp /\ packs lp l /\ sz n = lp_size l /\ l <> [].
Proof. intros Hs He Hc. destruct (raw_stored _ n l Hs He) as (b & Hb & [(_ & H1 & H2 & H3)|(Hc' & _)] & _); [by exists b|]. by rewrite Hc in Hc'. Qed.

Lemma plain_raw n l : stored junk n l -> encoding n = QUICKLIST_NODE_ENCODING_RAW -> QL_NODE_IS_PLAIN n = true ->
  exists b, entry n = Bytes b /\ l = [b] /\ sz n = zlen b.
Proof.
  intros Hs He Hc. unfold QL_NODE_IS_PLAIN in Hc. apply Z.eqb_eq in Hc.
  destruct (raw_stored _ n l Hs He) as (b & Hb & [(Hc' & _)|(_ & H1 & H2 & _)] & _); [by rewrite Hc in Hc'|by exists b].
Qed.

(** A node that is not compressed and holds a listpack. *)
Definition with_lp (lp : list Z) (l : list (list Z)) (n : quicklistNode) : quicklistNode := set_entry (Bytes lp) (lp_size l) QUICKLIST_NODE_ENCODING_RAW n.

Lemma with_lp_stored lp l n : packs lp l -> l <> [] -> container n = QUICKLIST_NODE_CONTAINER_PACKED -> stored junk (with_lp lp l n) l.
Proof.
  intros Hp Hl Hc. pose proof (packs_size _ _ Hp) as [H1 _]. pose proof (size_bounds l (packs_elem _ _ Hp)) as [H2 _]. pose proof (zlen_nonneg l).
  exists lp. split_and!; [by left|by left|cbn; lia|cbn; lia].
Qed.

Lemma store_ok `{Stable Q} q pre a n post lpre lpost ex lp l : focusQ Q q pre a n post lpre lpost ex -> packs lp l -> encoding n = QUICKLIST_NODE_ENCODING_RAW ->
  exists q', store_lp a (Some lp) q = Some q' /\ focusQ Q q' pre a (with_lp lp l n) post lpre lpost ex /\ same_params q q'.
Proof.
  intros F Hp He. unfold store_lp. bnd. rewrite (bytes_law _ _ Hp). bnd.
  destruct (upd_focus q pre a n post lpre lpost ex (fun n => set_entry (Bytes lp) (lp_size l) (encoding n) n) F) as (q' & H1 & H2 & H3); [done|done|by left|].
  exists q'. split_and!; [done| |done]. unfold with_lp. by rewrite <- He.
Qed.

Lemma on_lp_ok `{Stable Q} q pre a n post lpre lpost ex f l l' : focusQ Q q pre a n post lpre lpost ex -> stored junk n l -> encoding n = QUICKLIST_NODE_ENCODING_RAW ->
  container n = QUICKLIST_NODE_CONTAINER_PACKED -> (forall lp, packs lp l -> exists lp', f lp = Some (Some lp') /\ packs lp' l') ->
  exists q' lp', on_lp a f q = Some q' /\ focusQ Q q' pre a (with_lp lp' l' n) post lpre lpost ex /\ packs lp' l' /\ same_params q q'.
Proof.
  intros F Hs He Hc Hf. destruct (packed_raw n l Hs He Hc) as (lp & H1 & H2 & _ & _). destruct (Hf lp H2) as (lp' & H3 & H4).
  destruct (store_ok q pre a n post lpre lpost ex lp' l' F H4 He) as (q' & H5 & H6 & H7). exists q', lp'. split_and!; try done.
  unfold on_lp. rewrite (focus_node _ _ _ _ _ _ _ _ F). bnd. unfold raw. cbn [entry relink set_prev set_next]. rewrite H1. bnd. rewrite H3. bnd. done.
Qed.

Lemma set_count_good a n l : stored junk n l -> zlen l <= 32768 -> good (a, set_count (zlen l) n) l.
Proof.
  intros Hs Hl. split_and!; [|cbn; apply wrap_small; pose proof (zlen_nonneg l); lia|done].
  destruct Hs as (b & Hb & Hsh & Hz). exists b. by split_and!; try apply Hz.
Qed.

Lemma count_ok `{Stable Q} q pre a n post lpre lpost ex l (f : Z -> Z) : focusQ Q q pre a n post lpre lpost ex -> stored junk n l -> zlen l <= 32768 -> f (count n) = zlen l ->
  exists q', upd a (fun n => set_count (f (count n)) n) q = Some q' /\ focusQ Q q' pre a (set_count (zlen l) n) post lpre lpost ex /\
    good (a, set_count (zlen l) n) l /\ same_params q q'.
Proof.
  intros F Hs Hl Hf. destruct (upd_focus q pre a n post lpre lpost ex (fun n => set_count (f (count n)) n) F) as (q' & H1 & H2 & H3); [done|done|by left|].
  exists q'. rewrite Hf in H2. split_and!; try done; by apply set_count_good.
Qed.

Lemma focus_qcount q pre a n post lpre lpost ex c : focus q pre a n post lpre lpost ex -> focus (set_qcount c q) pre a n post lpre lpost ex.
Proof. intros [[]]. by split. Qed.
Lemma whole_qcount q xs ls ex c : whole q xs ls ex -> whole (set_qcount c q) xs ls ex.
Proof. intros [[]]. by split. Qed.

Lemma whole_alloc q xs ls ex n : whole q xs ls ex -> whole (alloc n q).2 xs ls (((alloc n q).1, n) :: ex).
Proof. intros [H1 H2 H3 H4 H5]. split; try done. by apply linked_alloc. Qed.
Lemma focus_alloc q pre a n post lpre lpost ex m : focus q pre a n post lpre lpost ex -> focus (alloc m q).2 pre a n post lpre lpost (((alloc m q).1, m) :: ex).
Proof. intros [H1 H2 H3 H4 H5 H6]. split; try done. by apply linked_alloc. Qed.

(** New nodes. *)
Lemma new_stored lp l : packs lp l -> l <> [] ->
  let n := with_lp lp l quicklistCreateNode in unlinked n /\ stored junk n l /\ count n = 0 /\ container n = QUICKLIST_NODE_CONTAINER_PACKED.
Proof. intros Hp Hl. split_and!; try done. by apply with_lp_stored. Qed.

Lemma weight_one s : elem s -> weight [s] < 2 ^ 32 -> lp_size [s] < 2 ^ 32.
Proof. intros Hs Hw. pose proof (size_bounds [s] ltac:(by constructor)). lia. Qed.

Lemma node_of_value_ok s : elem s -> weight [s] < 2 ^ 32 -> exists lp, packs lp [s] /\ node_of_value s = Some (with_lp lp [s] quicklistCreateNode).
Proof.
  intros Hs Hw. destruct new_law as (lp0 & H1 & H2). destruct (prepend_law lp0 [] s H2 Hs (weight_one s Hs Hw)) as (lp & H3 & H4).
  exists lp. split; [done|]. unfold node_of_value. rewrite H1. bnd. rewrite H3. bnd. rewrite (bytes_law _ _ H4). done.
Qed.

Lemma plain_stored s : elem s -> zlen s < 2 ^ 32 -> unlinked (__quicklistCreatePlainNode s) /\ stored junk (__quicklistCreatePlainNode s) [s] /\
  forall a, good (a, __quicklistCreatePlainNode s) [s].
Proof.
  intros Hs Hz. assert (stored junk (__quicklistCreatePlainNode s) [s]) as Hst.
  { exists s. split_and!; [by left|by right|apply zlen_nonneg|done]. }
  by split_and!.
Qed.

(** ** What fits in a node *)

Context (packed_threshold : Z).

Lemma meets_level size f : _quicklistNodeSizeMeetsOptimizationRequirement size f = true -> size <= 65536.
Proof.
  unfold _quicklistNodeSizeMeetsOptimizationRequirement. destruct (_ <=? f); [done|]. destruct (_ !! _) as [limit|] eqn:E; [|done].
  intros Hs. bool_hyps. apply list_elem_of_lookup_2 in E. unfold optimization_level in E. rewrite !elem_of_cons in E.
  destruct E as [->|[->|[->|[->|[->|E]]]]]; try lia. by apply elem_of_nil in E.
Qed.

(** A node that takes an element is a listpack with room for it. *)
Lemma allow_insert n l f s a : good (a, n) l -> elem s -> weight [s] < 2 ^ 32 -> _quicklistNodeAllowInsert packed_threshold (Some n) f (zlen s) = true ->
  container n = QUICKLIST_NODE_CONTAINER_PACKED /\ isLargeElement packed_threshold (zlen s) = false /\ zlen l + 1 <= 32768 /\ lp_size (s :: l) < 2 ^ 32.
Proof.
  intros (Hs & Hc & Hl) He Hw. unfold _quicklistNodeAllowInsert. destruct (_ || _) eqn:Ep; [done|]. apply orb_false_iff in Ep as [Ep El]. cbn in Hs, Hc.
  pose proof (is_plain_false n l Hs Ep) as Hcn. pose proof Hs as (b & _ & [(_ & Hp & Hz & _)|(Hx & _)] & Hsz); [|by rewrite Hcn in Hx].
  rewrite weight_cons in Hw. change (weight []) with 7 in Hw. pose proof (zlen_nonneg s). unfold SIZE_ESTIMATE_OVERHEAD.
  rewrite (wrap_small 64) by lia. intros Ha.
  assert (sz n + zlen s + 8 <= 65536) as Hle.
  { destruct (_quicklistNodeSizeMeetsOptimizationRequirement _ _) eqn:Em; [by apply meets_level in Em|]. unfold sizeMeetsSafetyLimit, SIZE_SAFETY_LIMIT in Ha.
    destruct (_ <=? 8192) eqn:E8; [bool_hyps; lia|done]. }
  pose proof (size_bounds l (packs_elem _ _ Hp)). pose proof (size_one s He). rewrite size_cons. split_and!; try done; lia.
Qed.

(** ** The two ends *)

Definition Rep (q : quicklist) (l : list (list Z)) : Prop := exists xs ls, whole q xs ls [] /\ concat ls = l /\ qcount q = zlen l.

Lemma whole_nil q ls ex : whole q [] ls ex -> ls = [].
Proof. intros [_ H _ _ _]. by apply Forall2_nil_inv_l in H. Qed.

Lemma whole_spot_head q xs ls ex : whole q xs ls ex -> spot false (head q) [] xs.
Proof. intros [[_ _ _ _ H _ _] _ _ _ _]. split; [done|]. rewrite H. by destruct xs as [|[]]. Qed.
Lemma whole_spot_tail q xs ls ex : whole q xs ls ex -> spot true (tail q) xs [].
Proof. intros [[_ _ _ _ _ H _] _ _ _ _]. split; [done|]. rewrite H. destruct (last_cases xs) as [->|(p & a & n & ->)]; [done|]. by rewrite chain_last_app. Qed.

(** A new node at one of the two ends. *)
Lemma push_node q xs ls after n l : whole q xs ls [] -> unlinked n -> stored junk n l ->
  exists q' ys n', __quicklistInsertNode junk (if (after : bool) then tail q else head q) (alloc n q).1 after (alloc n q).2 = Some q' /\
    (if after then focus q' ys (alloc n q).1 n' [] ls [] [] /\ tail q' = Some (alloc n q).1
     else focus q' [] (alloc n q).1 n' ys [] ls [] /\ head q' = Some (alloc n q).1) /\
    recode n n' /\ quiet ((alloc n q).1, n') /\ same_params q q'.
Proof.
  intros W Hu Hst. pose proof (whole_spot_head _ _ _ _ W) as S1. pose proof (whole_spot_tail _ _ _ _ W) as S2. pose proof (whole_alloc _ _ _ _ n W) as [L G S Q P].
  destruct after.
  - destruct (place_node (alloc n q).2 xs [] ls [] (tail q) (alloc n q).1 n l [] true) as (q' & ys & n' & post' & H1 & H2 & H3 & H4 & H5 & H6 & H7);
      rewrite ?app_nil_r; try done.
    destruct post'; [|done]. exists q', ys, n'. split_and!; try done. pose proof (l_tail _ _ _ (f_linked _ _ _ _ _ _ _ _ H2)) as Ht. by rewrite chain_last_app in Ht.
  - destruct (place_node (alloc n q).2 [] xs [] ls (head q) (alloc n q).1 n l [] false) as (q' & ys & n' & post' & H1 & H2 & H3 & H4 & H5 & H6 & H7); try done.
    destruct ys; [|done]. exists q', post', n'. split_and!; try done. exact (l_head _ _ _ (f_linked _ _ _ _ _ _ _ _ H2)).
Qed.

Lemma focus_head q pre a n post lpre lpost ex : focus q pre a n post lpre lpost ex -> head q = first_of pre (Some a).
Proof. intros [[_ _ _ _ H _ _] _ _ _ _ _]. by rewrite H, chain_first_app. Qed.
Lemma focus_tail q pre a n post lpre lpost ex : focus q pre a n post lpre lpost ex -> tail q = last_of (Some a) post.
Proof. intros [[_ _ _ _ _ H _] _ _ _ _ _]. rewrite H, chain_last_app. change ((a, n) :: post) with ([(a, n)] ++ post). by rewrite chain_last_app. Qed.

(** The node [a] and the list get one more element. *)
Lemma count_up q pre a n post lpre lpost ex l : focus q pre a n post lpre lpost ex -> stored junk n l -> count n + 1 = zlen l -> zlen l <= 32768 -> quiet (a, n) ->
  exists q' n', incr_count a (set_qcount (qcount q + 1) q) = Some q' /\ whole q' (pre ++ (a, n') :: post) (lpre ++ l :: lpost) ex /\ qcount q' = qcount q + 1.
Proof.
  intros F Hs Hc Hl Hq. destruct (count_ok (set_qcount (qcount q + 1) q) pre a n post lpre lpost ex l (fun c => c + 1)) as (q' & H1 & H2 & H3 & H4);
    [by apply focus_qcount|done|done|done|]. exists q', (set_count (zlen l) n). split_and!; [done|by apply focus_whole|apply H4].
Qed.

(** The listpack of a node that is not in use gets one more element. *)
Lemma grow_quiet q pre a n post lpre lpost ex l l' f : focus q pre a n post lpre lpost ex -> good (a, n) l -> quiet (a, n) ->
  encoding n = QUICKLIST_NODE_ENCODING_RAW -> container n = QUICKLIST_NODE_CONTAINER_PACKED ->
  (forall lp, packs lp l -> exists lp', f lp = Some (Some lp') /\ packs lp' l') -> zlen l' = zlen l + 1 -> zlen l' <= 32768 ->
  exists q1 q2 n', on_lp a f q = Some q1 /\ head q1 = head q /\ tail q1 = tail q /\ qcount q1 = qcount q /\ incr_count a (set_qcount (qcount q + 1) q1) = Some q2 /\
    whole q2 (pre ++ (a, n') :: post) (lpre ++ l' :: lpost) ex /\ qcount q2 = qcount q + 1.
Proof.
  intros F (Hs & Hc & Hl) Hq He Hcn Hf H1 H2. destruct (on_lp_ok q pre a n post lpre lpost ex f l l' F Hs He Hcn Hf) as (q1 & lp' & G1 & G2 & G3 & G4 & G5 & G6).
  assert (l' <> []) as Hne by (intros ->; unfold zlen in *; cbn in *; lia).
  destruct (count_up q1 pre a (with_lp lp' l' n) post lpre lpost ex l' G2) as (q2 & n' & K1 & K2 & K3); [by apply with_lp_stored|cbn in *; lia|done|done|].
  rewrite G6 in K1, K3. exists q1, q2, n'. split_and!; try done.
  - by rewrite (focus_head _ _ _ _ _ _ _ _ F), (focus_head _ _ _ _ _ _ _ _ G2).
  - by rewrite (focus_tail _ _ _ _ _ _ _ _ F), (focus_tail _ _ _ _ _ _ _ _ G2).
Qed.

Lemma zlen_concat_mid (pre post : list (list (list Z))) l : zlen (concat (pre ++ l :: post)) = zlen (concat pre) + zlen l + zlen (concat post).
Proof. rewrite concat_app. cbn. rewrite !zlen_app. lia. Qed.

Lemma weight_ge l s : weight [s] <= weight (s :: l) /\ weight [s] <= weight (l ++ [s]) /\ zlen s < weight [s].
Proof.
  rewrite weight_app, (weight_cons s l), weight_cons. change (weight []) with 7. pose proof (weight_pos l). pose proof (zlen_nonneg l). lia.
Qed.

(** The node at an end is not compressed. *)
Lemma end_raw c xs i a n : safe c xs -> 0 <= c -> xs !! i = Some (a, n) -> i = 0%nat \/ i = (length xs - 1)%nat -> encoding n = QUICKLIST_NODE_ENCODING_RAW.
Proof.
  intros Hs H0 Hi He. apply (Hs i a n Hi). unfold shallow. pose proof (lookup_lt_Some _ _ _ Hi). destruct (decide (c = 0)); [by left|right]. lia.
Qed.

Lemma push_plain q l s after : Rep q l -> elem s -> zlen s < 2 ^ 32 ->
  exists q', __quicklistInsertPlainNode junk (if (after : bool) then tail q else head q) s after q = Some q' /\ Rep q' (if after then l ++ [s] else s :: l).
Proof.
  intros (xs & ls & W & Hl & Hc) Hs Hz. destruct (plain_stored s Hs Hz) as (Hu & Hst & Hg).
  destruct (push_node q xs ls after _ [s] W Hu Hst) as (q' & ys & n' & H1 & H2 & H3 & H4 & (P1 & P2 & P3)).
  unfold __quicklistInsertPlainNode. destruct (alloc _ _) as [a q1] eqn:Ea. cbn [fst snd] in *. rewrite H1. bnd. eexists. split; [done|].
  assert (good (a, n') [s]) as Hg' by (by eapply good_recoded; [apply (Hg a)|split]).
  destruct after; destruct H2 as [F _].
  - exists (ys ++ [(a, n')]), (ls ++ [[s]]). split_and!; [by apply whole_qcount, focus_whole|rewrite concat_app; cbn; by rewrite Hl|].
    cbn. rewrite P3, zlen_app, zlen_cons, Hc. done.
  - exists ((a, n') :: ys), ([s] :: ls). split_and!; [apply whole_qcount; by apply (focus_whole q' [] a n' ys [] ls [s])|cbn; by rewrite Hl|].
    cbn. rewrite P3, zlen_cons, Hc. lia.
Qed.

Lemma push_head_ok q l s : Rep q l -> elem s -> weight (s :: l) < 2 ^ 32 -> exists q' b, quicklistPushHead packed_threshold junk s q = Some (q', b) /\ Rep q' (s :: l).
Proof.
  intros R Hs Hw. pose proof (weight_ge l s) as (W1 & _ & W2). unfold quicklistPushHead. destruct (isLargeElement _ _) eqn:El.
  { destruct (push_plain q l s false R Hs) as (q' & -> & R'); [lia|]. bnd. eauto. }
  destruct R as (xs & ls & W & Hl & Hc).
  assert (exists n0, (match head q with None => Some None | Some a => n ← node a q; Some (Some n) end) = Some n0 /\
    (_quicklistNodeAllowInsert packed_threshold n0 (fill q) (zlen s) = true -> exists a n post, xs = (a, n) :: post /\ n0 = Some (relink None (first_of post None) n))) as (n0 & -> & Hn0).
  { destruct xs as [|[a n] post]; destruct W as [L _ _ _ _]; rewrite (l_head _ _ _ L); cbn [first_of]; [by exists None|].
    pose proof (linked_lookup q _ [] 0 a n L eq_refl) as ->. bnd. eexists. split; [done|]. intros _. by exists a, n, post. }
  bnd. destruct (_quicklistNodeAllowInsert _ _ _ _) eqn:Ea.
  - destruct (Hn0 eq_refl) as (a & n & post & -> & ->). destruct (whole_focus q [] a n post ls [] W) as (lpre & l0 & lpost & -> & F & Hg & Hq).
    pose proof (f_pre _ _ _ _ _ _ _ _ F) as Hpre. apply Forall2_nil_inv_l in Hpre as ->.
    destruct (allow_insert n l0 (fill q) s a Hg Hs) as (A1 & A2 & A3 & A4); [lia|done|].
    pose proof (focus_head _ _ _ _ _ _ _ _ F) as Hh. rewrite Hh. cbn [first_of]. bnd.
    destruct (grow_quiet q [] a n post [] lpost [] l0 (s :: l0) (fun lp => lpPrepend lp s) F Hg Hq) as (q1 & q2 & n' & G1 & G2 & G3 & G4 & G5 & G6 & G7);
      [by eapply (end_raw _ _ 0); [apply F|apply F| |left]|done| |rewrite zlen_cons; lia|rewrite zlen_cons; lia|].
    { intros lp Hp. apply prepend_law; auto. }
    rewrite G1. bnd. cbn [head set_qcount]. rewrite G2, Hh. cbn [first_of]. bnd. rewrite G4, G5. bnd. eexists _, _. split; [done|].
    exists ((a, n') :: post), ((s :: l0) :: lpost). split_and!; [done|cbn in Hl |- *; by rewrite Hl|rewrite G7, Hc, zlen_cons; lia].
  - destruct (node_of_value_ok s Hs) as (lp & Hp & ->); [lia|]. bnd. destruct (new_stored lp [s] Hp) as (Hu & Hst & Hc0 & _); [done|].
    destruct (push_node q xs ls false _ [s] W Hu Hst) as (q' & ys & n' & H1 & [F Hh] & H3 & H4 & (P1 & P2 & P3)).
    destruct (alloc _ _) as [a q1] eqn:Eal. cbn [fst snd] in *. unfold _quicklistInsertNodeBefore.
    assert (head q1 = head q) as -> by (unfold alloc in Eal; injection Eal as _ <-; done). rewrite H1. bnd. cbn [head set_qcount]. rewrite Hh. bnd.
    destruct H3 as [[D1 D2 D3 D4 D5] _].
    destruct (count_up q' [] a n' ys [] ls [] [s] F) as (q2 & n2 & K1 & K2 & K3); [by apply D5|by rewrite D1, Hc0|done|done|]. rewrite K1. bnd.
    eexists _, _. split; [done|]. exists ((a, n2) :: ys), ([s] :: ls). split_and!; [done|cbn; by rewrite Hl|rewrite K3, P3, Hc, zlen_cons; lia].
Qed.

Lemma focus_end_raw q pre a n post lpre lpost ex : focus q pre a n post lpre lpost ex -> pre = [] \/ post = [] -> encoding n = QUICKLIST_NODE_ENCODING_RAW.
Proof.
  intros F Hp. eapply (end_raw _ _ (length pre)); [apply F|apply F|apply lookup_mid|]. destruct Hp as [->| ->]; [by left|right]. rewrite length_app. cbn. lia.
Qed.

Lemma push_tail_ok q l s : Rep q l -> elem s -> weight (l ++ [s]) < 2 ^ 32 -> exists q' b, quicklistPushTail packed_threshold junk s q = Some (q', b) /\ Rep q' (l ++ [s]).
Proof.
  intros R Hs Hw. pose proof (weight_ge l s) as (_ & W1 & W2). unfold quicklistPushTail. destruct (isLargeElement _ _) eqn:El.
  { destruct (push_plain q l s true R Hs) as (q' & -> & R'); [lia|]. bnd. eauto. }
  destruct R as (xs & ls & W & Hl & Hc).
  assert (exists n0, (match tail q with None => Some None | Some a => n ← node a q; Some (Some n) end) = Some n0 /\
    (_quicklistNodeAllowInsert packed_threshold n0 (fill q) (zlen s) = true -> exists a n pre, xs = pre ++ [(a, n)] /\ n0 = Some (relink (last_of None pre) None n))) as (n0 & -> & Hn0).
  { destruct (last_cases xs) as [->|(pre & a & n & ->)]; destruct W as [L _ _ _ _]; rewrite (l_tail _ _ _ L); [by exists None|]. rewrite chain_last_app. cbn [last_of foldl fst].
    destruct L as [S _ _ _ _ _ _]. rewrite seg_app in S. destruct S as [_ [S _]]. unfold node. rewrite S. bnd. eexists. split; [done|]. intros _. by exists a, n, pre. }
  bnd. destruct (_quicklistNodeAllowInsert _ _ _ _) eqn:Ea.
  - destruct (Hn0 eq_refl) as (a & n & pre & -> & ->). destruct (whole_focus q pre a n [] ls [] W) as (lpre & l0 & lpost & -> & F & Hg & Hq).
    pose proof (f_post _ _ _ _ _ _ _ _ F) as Hpost. apply Forall2_nil_inv_l in Hpost as ->.
    destruct (allow_insert n l0 (fill q) s a Hg Hs) as (A1 & A2 & A3 & A4); [lia|done|].
    pose proof (focus_tail _ _ _ _ _ _ _ _ F) as Hh. rewrite Hh. cbn [last_of foldl]. bnd. assert (zlen (l0 ++ [s]) = zlen l0 + 1) as Hz by by rewrite zlen_app.
    destruct (grow_quiet q pre a n [] lpre [] [] l0 (l0 ++ [s]) (fun lp => lpAppend lp s) F Hg Hq) as (q1 & q2 & n' & G1 & G2 & G3 & G4 & G5 & G6 & G7);
      [by eapply focus_end_raw; [done|right]|done| |lia|lia|].
    { intros lp Hp. apply append_law; [done|done|]. rewrite size_app. rewrite size_cons in A4. lia. }
    rewrite G1. bnd. cbn [tail set_qcount]. rewrite G3, Hh. cbn [last_of foldl]. bnd. rewrite G4, G5. bnd. eexists _, _. split; [done|].
    exists (pre ++ [(a, n')]), (lpre ++ [l0 ++ [s]]). split_and!; [done| |rewrite G7, Hc, zlen_app; done].
    rewrite <- Hl, !concat_app. cbn. by rewrite !app_nil_r, app_assoc.
  - destruct new_law as (lp0 & E1 & E2). destruct (append_law lp0 [] s E2 Hs) as (lp & E3 & Hp); [apply (weight_one s Hs); lia|].
    rewrite E1. bnd. rewrite E3. bnd. rewrite (bytes_law _ _ Hp). bnd.
    destruct (new_stored lp [s] Hp) as (Hu & Hst & Hc0 & _); [done|].
    destruct (push_node q xs ls true _ [s] W Hu Hst) as (q' & ys & n' & H1 & [F Hh] & H3 & H4 & (P1 & P2 & P3)). unfold with_lp in *.
    destruct (alloc _ _) as [a q1] eqn:Eal. cbn [fst snd] in *. unfold _quicklistInsertNodeAfter.
    assert (tail q1 = tail q) as -> by (unfold alloc in Eal; injection Eal as _ <-; done). rewrite H1. bnd. cbn [tail set_qcount]. rewrite Hh. bnd.
    destruct H3 as [[D1 D2 D3 D4 D5] _].
    destruct (count_up q' ys a n' [] ls [] [] [s] F) as (q2 & n2 & K1 & K2 & K3); [by apply D5|by rewrite D1, Hc0|done|done|]. rewrite K1. bnd.
    eexists _, _. split; [done|]. exists (ys ++ [(a, n2)]), (ls ++ [[s]]). split_and!; [done|rewrite concat_app; cbn; by rewrite Hl|rewrite K3, P3, Hc, zlen_app; done].
Qed.

(** ** Removal of an element *)

(** A node loses the element [i]. *)
Lemma del_index_ok q pre a n post lpre lpost ex l i p : focus q pre a n post lpre lpost ex -> good (a, n) l -> encoding n = QUICKLIST_NODE_ENCODING_RAW -> (i < length l)%nat ->
  (QL_NODE_IS_PLAIN n = false -> p = Some (lp_ptr l i)) ->
  exists q' gone p', quicklistDelIndex junk a p q = Some (q', gone, p') /\ qcount q' = qcount q - 1 /\
    if (gone : bool) then length l = 1%nat /\ exists pre' post', whole q' (pre' ++ post') (lpre ++ lpost) ex /\ Forall2 recoded pre pre' /\ Forall2 recoded post post'
    else exists n', focus q' pre a n' post lpre lpost ex /\ good (a, n') (delete i l) /\ encoding n' = QUICKLIST_NODE_ENCODING_RAW /\
      recompress n' = recompress n /\ dont_compress n' = dont_compress n /\ container n' = container n.
Proof.
  intros F (Hs & Hc & Hl) He Hi Hp. unfold quicklistDelIndex. rewrite (focus_node _ _ _ _ _ _ _ _ F). bnd. cbn [count fst snd] in Hc, Hs.
  change (QL_NODE_IS_PLAIN (relink _ _ n)) with (QL_NODE_IS_PLAIN n). destruct (QL_NODE_IS_PLAIN n) eqn:Ep.
  - destruct (plain_raw n l Hs He Ep) as (b & _ & Hlb & _). destruct (remove_node _ _ _ _ _ _ _ _ F) as (q' & pre' & post' & -> & H2 & H3 & H4 & H5 & H6 & H7). bnd.
    exists q', true, p. split_and!; [done|rewrite H7, Hc, Hlb; done|by rewrite Hlb|]. by exists pre', post'.
  - pose proof (is_plain_false n l Hs Ep) as Hcn. destruct (packed_raw n l Hs He Hcn) as (lp & H1 & H2 & H3 & H4). unfold raw. cbn [entry relink set_prev set_next].
    rewrite H1, (Hp eq_refl). bnd. destruct (delete_law lp l i H2 Hi) as (lp' & p' & H5 & H6). rewrite H5. bnd.
    destruct (upd_focus q pre a n post lpre lpost ex (fun n => set_count (count n - 1) (set_entry (Bytes lp') (sz n) (encoding n) n)) F) as (q1 & K1 & K2 & K3); [done|done|by left|].
    rewrite K1. bnd. rewrite (focus_node _ _ _ _ _ _ _ _ K2). bnd. cbn [count relink set_prev set_next set_count set_entry].
    assert (u16 (count n - 1) = zlen (delete i l)) as Hcd.
    { rewrite Hc. unfold zlen in *. rewrite length_delete by (by apply lookup_lt_is_Some_2). rewrite (wrap_small 16); lia. }
    rewrite Hcd. destruct (_ =? 0) eqn:E0; bool_hyps.
    + destruct (remove_node _ _ _ _ _ _ _ _ K2) as (q' & pre' & post' & -> & G2 & G3 & G4 & G5 & G6 & G7). bnd. eexists _, true, p'. split; [done|].
      cbn in G7. rewrite Hcd, E0 in G7. destruct K3 as (_ & _ & K3).
      split; [cbn; lia|]. split; [unfold zlen in E0; rewrite length_delete in E0 by (by apply lookup_lt_is_Some_2); lia|]. exists pre', post'. split; [|done]. by apply whole_qcount.
    + destruct (store_ok _ _ _ _ _ _ _ _ _ _ K2 H6 He) as (q2 & -> & F2 & P2). bnd. eexists _, false, p'. split; [done|].
      destruct K3 as (_ & _ & K3). destruct P2 as (_ & _ & P2). split; [cbn; lia|]. eexists. split; [by apply focus_qcount|]. split; [|done]. split_and!.
      * apply with_lp_stored; [done|intros Hn; by rewrite Hn in E0|done].
      * cbn. exact Hcd.
      * unfold zlen in *. rewrite length_delete by (by apply lookup_lt_is_Some_2). lia.
Qed.

(** The string of a value that was read. *)
Definition text (v : list Z + Z) : list Z := match v with inl b => b | inr v => ListpackRun.numeral v end.

Lemma stored_ne n l : stored junk n l -> l <> [].
Proof. by intros (b & _ & [(_ & _ & _ & Hl)|(_ & -> & _)] & _). Qed.

Lemma locate_at (l : list (list Z)) i : (i < length l)%nat -> ListpackRun.locate l (Z.of_nat i) = Some i /\ ListpackRun.locate l (Z.of_nat i - zlen l) = Some i.
Proof.
  intros Hi. unfold ListpackRun.locate, Listpack.Listpack.norm_index, zlen. split.
  - replace (Z.of_nat i <? 0) with false by lia. replace (_ && _) with true by lia. f_equal. lia.
  - replace (Z.of_nat i - Z.of_nat (length l) <? 0) with true by lia. replace (_ && _) with true by lia. f_equal. lia.
Qed.

(** The value at a position of a node that is not compressed. *)
Definition read_at (n : quicklistNode) (p : Z) : option (list Z + Z) :=
  lp ← raw n; if QL_NODE_IS_PLAIN n then b ← ldn lp 0 (sz n); Some (inl b)
              else r ← lpGetValue lp p; match r with inl (place, k) => b ← ldn lp place k; Some (inl b) | inr v => Some (inr v) end.

Lemma read_ok n l i x p : stored junk n l -> encoding n = QUICKLIST_NODE_ENCODING_RAW -> l !! i = Some x -> (QL_NODE_IS_PLAIN n = false -> p = lp_ptr l i) ->
  exists v, read_at n p = Some v /\ text v = x.
Proof.
  intros Hs He Hi Hp. unfold read_at, raw. destruct (QL_NODE_IS_PLAIN n) eqn:Ep.
  - destruct (plain_raw n l Hs He Ep) as (b & Hb & -> & Hz). rewrite Hb. bnd. destruct i; [|done]. injection Hi as ->.
    rewrite (ldn_at' x [] x [] 0 (sz n)); [bnd; by exists (inl x)|by rewrite app_nil_r|done|done].
  - destruct (packed_raw n l Hs He (is_plain_false n l Hs Ep)) as (lp & H1 & H2 & _). rewrite H1, (Hp eq_refl). bnd.
    destruct (get_law lp l i x H2 Hi) as (r & -> & Hr). bnd. destruct r as [[pl k]|v]; [rewrite Hr; bnd; by exists (inl x)|]. exists (inr v). split; [done|]. by destruct Hr.
Qed.

Lemma del_index_quiet q pre a n post lpre lpost ex l i p : focus q pre a n post lpre lpost ex -> good (a, n) l -> quiet (a, n) ->
  encoding n = QUICKLIST_NODE_ENCODING_RAW -> (i < length l)%nat -> (QL_NODE_IS_PLAIN n = false -> p = Some (lp_ptr l i)) ->
  exists q' gone p' xs' ls', quicklistDelIndex junk a p q = Some (q', gone, p') /\ qcount q' = qcount q - 1 /\
    whole q' xs' ls' ex /\ concat ls' = concat lpre ++ delete i l ++ concat lpost.
Proof.
  intros F Hg Hq He Hi Hp. destruct (del_index_ok q pre a n post lpre lpost ex l i p F Hg He Hi Hp) as (q' & gone & p' & H1 & H2 & H3).
  exists q', gone, p'. destruct gone.
  - destruct H3 as (Hl & pre' & post' & W & _). exists (pre' ++ post'), (lpre ++ lpost). split_and!; try done. rewrite concat_app.
    destruct l as [|x [|y l]]; [done| |done]. by destruct i; [|cbn in Hi; lia].
  - destruct H3 as (n' & F' & Hg' & _ & Hr & Hd & _). exists (pre ++ (a, n') :: post), (lpre ++ delete i l :: lpost). split_and!; try done.
    + apply focus_whole; [done|done|]. split; cbn; [rewrite Hr|rewrite Hd]; apply Hq.
    + by rewrite concat_app.
Qed.

Lemma pop_ok q l (hd : bool) x l' : Rep q l -> l = (if hd then x :: l' else l' ++ [x]) ->
  exists q' v, quicklistPopCustom junk (if hd then QUICKLIST_HEAD else QUICKLIST_TAIL) q = Some (q', Some v) /\ text v = x /\ Rep q' l'.
Proof.
  intros (xs & ls & W & Hl & Hc) Hx. assert (zlen l = zlen l' + 1) as Hz by (rewrite Hx; destruct hd; rewrite ?zlen_app, zlen_cons, ?zlen_nil; lia).
  pose proof (zlen_nonneg l'). unfold quicklistPopCustom. rewrite Hc. replace (zlen l =? 0) with false by lia.
  assert (exists pre a n post, xs = pre ++ (a, n) :: post /\ (if hd then pre = [] else post = [])) as (pre & a & n & post & -> & Hend).
  { assert (xs <> []) as Hne by (intros ->; rewrite (whole_nil _ _ _ W) in Hl; cbn in Hl; subst; by destruct hd, l').
    destruct hd; [destruct xs as [|[a n] post]; [done|by exists [], a, n, post]|]. destruct (last_cases xs) as [->|(pre & a & n & ->)]; [done|by exists pre, a, n, []]. }
  destruct (whole_focus q pre a n post ls [] W) as (lpre & l0 & lpost & -> & F & Hg & Hq).
  assert (encoding n = QUICKLIST_NODE_ENCODING_RAW) as He by (eapply focus_end_raw; [done|]; destruct hd; auto).
  replace ((if hd then QUICKLIST_HEAD else QUICKLIST_TAIL) =? QUICKLIST_HEAD) with hd by (by destruct hd).
  replace (if hd then head q else tail q) with (Some a); cycle 1.
  { destruct hd; subst; [by rewrite (focus_head _ _ _ _ _ _ _ _ F)|by rewrite (focus_tail _ _ _ _ _ _ _ _ F)]. }
  rewrite (focus_node _ _ _ _ _ _ _ _ F). bnd. cbn [encoding relink set_prev set_next]. rewrite He. cbn [assert_]. bnd.
  assert (l0 <> []) as Hne by exact (stored_ne n l0 (proj1 Hg)). set (i := if hd then 0%nat else (length l0 - 1)%nat).
  assert (i < length l0)%nat as Hi by (unfold i; destruct l0; [done|]; destruct hd; cbn; lia).
  assert (l0 !! i = Some x /\ concat lpre ++ delete i l0 ++ concat lpost = l') as [Hix Hdel].
  { pose proof (f_pre _ _ _ _ _ _ _ _ F) as H1. pose proof (f_post _ _ _ _ _ _ _ _ F) as H2. rewrite concat_app in Hl. cbn in Hl. unfold i. destruct hd; subst.
    - apply Forall2_nil_inv_l in H1 as ->. destruct l0 as [|y l0]; [done|]. cbn in Hx |- *. by injection Hx as -> ->.
    - apply Forall2_nil_inv_l in H2 as ->. cbn in Hx |- *. rewrite app_nil_r in Hx |- *. destruct l0 as [|y l0 _] using rev_ind; [done|].
      rewrite app_assoc in Hx. apply app_inj_tail in Hx as [<- ->]. rewrite length_app. cbn. replace (length l0 + 1 - 1)%nat with (length l0) by lia.
      rewrite list_lookup_middle by done. split; [done|]. f_equal. rewrite delete_take_drop, take_app_length, drop_ge by (rewrite length_app; cbn; lia). by rewrite app_nil_r. }
  destruct (read_ok n l0 i x (lp_ptr l0 i) (proj1 Hg) He Hix) as (v & Hv & Ht); [done|]. unfold read_at in Hv.
  change (raw (relink _ _ n)) with (raw n). change (QL_NODE_IS_PLAIN (relink _ _ n)) with (QL_NODE_IS_PLAIN n). cbn [sz relink set_prev set_next].
  destruct (QL_NODE_IS_PLAIN n) eqn:Ep.
  - destruct (raw n) as [b|]; [|done]. cbn in Hv |- *. destruct (ldn b 0 (sz n)) as [d|]; [|done]. cbn in Hv |- *. injection Hv as <-.
    destruct (del_index_quiet q pre a n post lpre lpost [] l0 i None F Hg Hq He Hi) as (q' & gone & p' & xs' & ls' & -> & G2 & G3 & G4); [by rewrite Ep|]. cbn.
    exists q', (inl d). split_and!; [done|done|]. exists xs', ls'. split_and!; [done|by rewrite G4|lia].
  - destruct (packed_raw n l0 (proj1 Hg) He (is_plain_false n l0 (proj1 Hg) Ep)) as (lp & H1 & H2 & _). unfold raw in Hv |- *. rewrite H1 in Hv |- *. bnd. cbn [mbind option_bind] in Hv.
    assert (ListpackRun.locate l0 (if hd then 0 else -1) = Some i) as Hloc.
    { destruct hd; [exact (proj1 (locate_at l0 i Hi))|]. replace (-1) with (Z.of_nat i - zlen l0); [apply locate_at, Hi|].
      unfold zlen, i in *. lia. }
    rewrite (seek_law lp l0 _ H2), Hloc. cbn [fmap option_fmap option_map]. bnd.
    destruct (lpGetValue lp (lp_ptr l0 i)) as [r|]; [|done]. bnd. cbn [mbind option_bind] in Hv.
    destruct (del_index_quiet q pre a n post lpre lpost [] l0 i (Some (lp_ptr l0 i)) F Hg Hq He Hi) as (q' & gone & p' & xs' & ls' & Hd & G2 & G3 & G4); [done|].
    rewrite Hv. bnd. rewrite Hd. bnd. exists q', v. split_and!; [done|done|]. exists xs', ls'. split_and!; [done|by rewrite G4|lia].
Qed.

(** ** Positions *)

Lemma seek_forward_ok q si : forall fuel pre post lpre lpost, whole q (pre ++ post) (lpre ++ lpost) [] -> length pre = length lpre ->
  (length post <= fuel)%nat -> zlen (concat (lpre ++ lpost)) < 2 ^ 32 -> zlen (concat lpre) <= si < zlen (concat (lpre ++ lpost)) ->
  exists pre' a n post' lpre' l lpost', pre ++ post = pre' ++ (a, n) :: post' /\ lpre ++ lpost = lpre' ++ l :: lpost' /\ length pre' = length lpre' /\
    seek_node fuel true si (first_of post None) (zlen (concat lpre)) q = Some (Some (a, zlen (concat lpre'))) /\
    zlen (concat lpre') <= si < zlen (concat lpre') + zlen l.
Proof.
  induction fuel as [|fuel IH]; intros pre post lpre lpost W Hlen Hf Hb Hsi.
  all: pose proof (w_good _ _ _ _ W) as Hg; apply Forall2_app_inv in Hg as [Hg1 Hg2]; [|done].
  all: destruct post as [|[a n] post]; [apply Forall2_nil_inv_l in Hg2 as ->; rewrite app_nil_r in Hsi; lia|cbn in Hf; try lia].
  apply Forall2_cons_inv_l in Hg2 as (l & lpost' & Hg2 & Hg3 & ->). pose proof (zlen_concat_mid lpre lpost' l) as Hz.
  pose proof (zlen_nonneg (concat lpre)). pose proof (zlen_nonneg (concat lpost')). pose proof (zlen_nonneg l).
  destruct (whole_focus q pre a n post _ [] W) as (lp1 & l1 & lp2 & He & F & (_ & Hc & _) & _).
  assert (lp1 = lpre /\ l1 = l) as [-> ->].
  { pose proof (f_pre _ _ _ _ _ _ _ _ F) as Hp%Forall2_length. apply app_inj_1 in He as [<- [= <- <-]]; [done|]. congruence. }
  cbn [seek_node first_of]. rewrite (focus_node _ _ _ _ _ _ _ _ F). bnd. cbn [count next relink set_prev set_next]. cbn in Hc. rewrite Hc, (wrap_small 64) by lia.
  destruct (si <? _) eqn:E; bool_hyps.
  - exists pre, a, n, post, lpre, l, lpost'. split_and!; try done; lia.
  - assert (zlen (concat (lpre ++ [l])) = zlen (concat lpre) + zlen l) as Hz1 by (rewrite zlen_concat_mid; cbn [concat]; rewrite zlen_nil; lia). rewrite <- Hz1.
    assert (pre ++ (a, n) :: post = (pre ++ [(a, n)]) ++ post) as E1 by by rewrite <- app_assoc. assert (lpre ++ l :: lpost' = (lpre ++ [l]) ++ lpost') as E2 by by rewrite <- app_assoc.
    rewrite E1, E2 in W |- *. rewrite E2 in Hb, Hsi. apply (IH (pre ++ [(a, n)]) post (lpre ++ [l]) lpost'); try done; [by rewrite !length_app, Hlen|lia|lia].
Qed.

Lemma seek_backward_ok q si : forall fuel pre post lpre lpost, whole q (pre ++ post) (lpre ++ lpost) [] -> length pre = length lpre ->
  (length pre <= fuel)%nat -> zlen (concat (lpre ++ lpost)) < 2 ^ 32 -> zlen (concat lpost) <= si < zlen (concat (lpre ++ lpost)) ->
  exists pre' a n post' lpre' l lpost', pre ++ post = pre' ++ (a, n) :: post' /\ lpre ++ lpost = lpre' ++ l :: lpost' /\ length pre' = length lpre' /\
    seek_node fuel false si (last_of None pre) (zlen (concat lpost)) q = Some (Some (a, zlen (concat lpost'))) /\
    zlen (concat lpost') <= si < zlen (concat lpost') + zlen l.
Proof.
  induction fuel as [|fuel IH]; intros pre post lpre lpost W Hlen Hf Hb Hsi.
  all: pose proof (w_good _ _ _ _ W) as Hg; apply Forall2_app_inv in Hg as [Hg1 Hg2]; [|done].
  all: destruct (last_cases pre) as [->|(pre' & a & n & ->)]; [apply Forall2_nil_inv_l in Hg1 as ->; cbn in Hsi; lia|rewrite length_app in Hf; cbn in Hf; try lia].
  apply Forall2_app_inv_l in Hg1 as (lpre' & l2 & Hg1 & Hg3 & ->). apply Forall2_cons_inv_l in Hg3 as (l & l3 & Hg3 & ->%Forall2_nil_inv_l & ->).
  pose proof (Forall2_length _ _ _ Hg1) as Hlen'. rewrite <- !app_assoc in *. cbn [app] in *. pose proof (zlen_concat_mid lpre' lpost l) as Hz.
  pose proof (zlen_nonneg (concat lpre')). pose proof (zlen_nonneg (concat lpost)). pose proof (zlen_nonneg l).
  destruct (whole_focus q pre' a n post _ [] W) as (lp1 & l1 & lp2 & He & F & (_ & Hc & _) & _).
  assert (lp1 = lpre' /\ l1 = l) as [-> ->].
  { pose proof (f_pre _ _ _ _ _ _ _ _ F) as Hp%Forall2_length. apply app_inj_1 in He as [<- [= <- <-]]; [done|]. congruence. }
  rewrite chain_last_app. cbn [seek_node last_of foldl fst]. rewrite (focus_node _ _ _ _ _ _ _ _ F). bnd. cbn [count prev relink set_prev set_next]. cbn in Hc. rewrite Hc, (wrap_small 64) by lia.
  destruct (si <? _) eqn:E; bool_hyps.
  - exists pre', a, n, post, lpre', l, lpost. split_and!; try done; lia.
  - replace (zlen (concat lpost) + zlen l) with (zlen (concat (l :: lpost))) by (cbn; rewrite zlen_app; lia).
    apply (IH pre' ((a, n) :: post) lpre' (l :: lpost)); try done; [lia|]. cbn. rewrite zlen_app. lia.
Qed.

(** An iterator at an index: the node that has it, and the position there. *)
Lemma iterator_at_ok q xs ls dir idx : whole q xs ls [] -> qcount q = zlen (concat ls) -> zlen (concat ls) < 2 ^ 32 -> in_s 64 idx ->
  match ListpackRun.locate (concat ls) idx with
  | None => quicklistGetIteratorAtIdx dir idx q = Some None
  | Some i => exists pre a n post lpre l lpost o, xs = pre ++ (a, n) :: post /\ ls = lpre ++ l :: lpost /\ focus q pre a n post lpre lpost [] /\ good (a, n) l /\ quiet (a, n) /\
      i = (length (concat lpre) + o)%nat /\ (o < length l)%nat /\
      quicklistGetIteratorAtIdx dir idx q = Some (Some (mkIter (Some a) None (if idx <? 0 then Z.of_nat o - zlen l else Z.of_nat o) dir))
  end.
Proof.
  intros W Hc Hb Hidx. unfold quicklistGetIteratorAtIdx. rewrite Hc. set (L := concat ls) in *. unfold in_s in Hidx.
  set (index := if idx <? 0 then - idx - 1 else idx).
  assert (u64 (if negb (idx <? 0) then idx else - idx - 1) = index) as ->.
  { unfold index. destruct (idx <? 0) eqn:E; bool_hyps; cbn [negb]; apply wrap_small; lia. }
  assert (0 <= index) by (unfold index; destruct (idx <? 0) eqn:E; bool_hyps; lia).
  unfold ListpackRun.locate, Listpack.Listpack.norm_index. set (i := if idx <? 0 then zlen L + idx else idx).
  destruct ((0 <=? i) && (i <? zlen L)) eqn:Ei; cycle 1.
  { replace (zlen L <=? index) with true; [done|]. symmetry. apply Z.leb_le. apply andb_false_iff in Ei. unfold i, index in *. destruct (idx <? 0) eqn:E; bool_hyps; destruct Ei; bool_hyps; lia. }
  bool_hyps. replace (zlen L <=? index) with false by (symmetry; apply Z.leb_gt; unfold i, index in *; destruct (idx <? 0) eqn:E; bool_hyps; lia).
  cbv zeta. set (fwd := negb (idx <? 0)). set (flip := _ <? index). set (sf := if flip then negb fwd else fwd). set (si := if flip then _ else index).
  assert (si = if flip then zlen L - 1 - index else index) as Hsi.
  { unfold si. destruct flip; [|done]. apply wrap_small. unfold index, i in *. destruct (idx <? 0) eqn:E; bool_hyps; lia. }
  assert (si = (if sf then i else zlen L - 1 - i) /\ 0 <= si < zlen L) as [Hsi' Hsr].
  { rewrite Hsi. unfold sf, fwd, index, i in *. destruct flip, (idx <? 0) eqn:E; bool_hyps; cbn; lia. }
  assert (exists pre a n post lpre l lpost, xs = pre ++ (a, n) :: post /\ ls = lpre ++ l :: lpost /\ length pre = length lpre /\
    let acc := if sf then zlen (concat lpre) else zlen (concat lpost) in
    seek_node (Z.to_nat (len q)) sf si (if sf then head q else tail q) 0 q = Some (Some (a, acc)) /\ acc <= si < acc + zlen l) as (pre & a & n & post & lpre & l & lpost & Hxs & Hls & Hlen & Hseek & Hacc).
  { pose proof (w_linked _ _ _ _ W) as K. rewrite (l_len _ _ _ K), (l_head _ _ _ K), (l_tail _ _ _ K). unfold zlen at 3. rewrite Nat2Z.id. destruct sf.
    - destruct (seek_forward_ok q si (length xs) [] xs [] ls W) as (pre & a & n & post & lpre & l & lpost & K1 & K2 & K3 & K4 & K5); try done.
      exists pre, a, n, post, lpre, l, lpost. cbv zeta. split; [done|]. split; [done|]. split; [done|]. split; [exact K4|exact K5].
    - destruct (seek_backward_ok q si (length xs) xs [] ls []) as (pre & a & n & post & lpre & l & lpost & K1 & K2 & K3 & K4 & K5); rewrite ?app_nil_r in *; try done.
      { exact (Forall2_length _ _ _ (w_good _ _ _ _ W)). }
      exists pre, a, n, post, lpre, l, lpost. cbv zeta. split; [done|]. split; [done|]. split; [done|]. split; [exact K4|exact K5]. }
  rewrite Hseek. bnd. rewrite Hxs, Hls in W. destruct (whole_focus q pre a n post _ [] W) as (lp1 & l1 & lp2 & He & F & Hg & Hq).
  assert (lp1 = lpre /\ l1 = l /\ lp2 = lpost) as (-> & -> & ->).
  { pose proof (f_pre _ _ _ _ _ _ _ _ F) as Hp%Forall2_length. apply app_inj_1 in He as [<- [= <- <-]]; [done|]. congruence. }
  pose proof (zlen_concat_mid lpre lpost l) as Hz. rewrite <- Hls in Hz. fold L in Hz. pose proof (zlen_nonneg (concat lpre)). pose proof (zlen_nonneg (concat lpost)).
  exists pre, a, n, post, lpre, l, lpost, (Z.to_nat (i - zlen (concat lpre))).
  assert (0 <= i - zlen (concat lpre) < zlen l) as Ho by (destruct sf; lia). split_and!; try done; [unfold zlen in *; lia|unfold zlen in *; lia|].
  rewrite (focus_node _ _ _ _ _ _ _ _ F). bnd. cbn [count relink set_prev set_next]. pose proof Hg as (_ & Hcn & _). cbn in Hcn. rewrite Hcn.
  assert ((if Bool.eqb sf fwd then if sf then zlen (concat lpre) else zlen (concat lpost) else u64 (zlen L - zlen l - (if sf then zlen (concat lpre) else zlen (concat lpost)))) =
    (if fwd then zlen (concat lpre) else zlen (concat lpost))) as ->.
  { destruct sf, fwd; cbn [Bool.eqb]; try done; rewrite (wrap_small 64); lia. }
  assert (s64 (u64 (if fwd then index - (if fwd then zlen (concat lpre) else zlen (concat lpost)) else - index - 1 + (if fwd then zlen (concat lpre) else zlen (concat lpost)))) =
    (if idx <? 0 then Z.of_nat (Z.to_nat (i - zlen (concat lpre))) - zlen l else Z.of_nat (Z.to_nat (i - zlen (concat lpre))))) as ->.
  { unfold fwd. rewrite (swrap_wrap 64), (swrap_small 64) by (try done; unfold in_s, i, index in *; destruct (idx <? 0) eqn:E; bool_hyps; cbn [negb]; lia).
    unfold i, index in *. destruct (idx <? 0) eqn:E; bool_hyps; cbn [negb]; lia. }
  unfold quicklistGetIterator. by destruct (dir =? AL_START_HEAD).
Qed.

(** ** Iterators *)

Lemma next_eq fuel it q : quicklistNext junk fuel it q =
  match current it with
  | None => Some (q, it, initEntry, false)
  | Some a =>
      n ← node a q;
      let plain := QL_NODE_IS_PLAIN n in
      '(q, it) ← (match zi it with
                  | None =>
                      q ← quicklistDecompressNodeForUse junk a q;
                      n ← node a q;
                      lp ← raw n;
                      z ← (if plain then Some (Some 0) else lpSeek lp (offset it));
                      Some (q, mkIter (current it) z (offset it) (direction it))
                  | Some p =>
                      if plain then Some (q, mkIter (current it) None (offset it) (direction it)) else
                      lp ← raw n;
                      z ← (if direction it =? AL_START_HEAD then lpNext lp p else lpPrev lp p);
                      Some (q, mkIter (current it) z (offset it + (if direction it =? AL_START_HEAD then 1 else -1)) (direction it))
                  end);
      match zi it with
      | Some p =>
          n ← node a q;
          lp ← raw n;
          v ← (if plain then b ← ldn lp 0 (sz n); Some (inl b)
               else r ← lpGetValue lp p; match r with inl (place, k) => b ← ldn lp place k; Some (inl b) | inr v => Some (inr v) end);
          Some (q, it, mkEntry (Some a) (Some p) v (offset it), true)
      | None =>
          q ← quicklistCompress junk a q;
          n ← node a q;
          let it := if direction it =? AL_START_HEAD then mkIter (next n) None 0 (direction it) else mkIter (prev n) None (-1) (direction it) in
          match fuel with O => None | S fuel => quicklistNext junk fuel it q end
      end
  end.
Proof. by destruct fuel. Qed.

(** An iterator is at the element [i] of the list: the node of the element is
    in use, and is not compressed. *)
Definition at_elem (q : quicklist) (it : quicklistIter) (ls : list (list (list Z))) (dir : Z) (i : nat) : Prop :=
  exists pre a n post lpre l lpost o p off, ls = lpre ++ l :: lpost /\ focus q pre a n post lpre lpost [] /\ good (a, n) l /\
    encoding n = QUICKLIST_NODE_ENCODING_RAW /\ dont_compress n = false /\ it = mkIter (Some a) (Some p) off dir /\ (o < length l)%nat /\
    i = (length (concat lpre) + o)%nat /\ (QL_NODE_IS_PLAIN n = false -> p = lp_ptr l o) /\ (off = Z.of_nat o \/ off = Z.of_nat o - zlen l).

Lemma read_entry n l i x p (K : list Z + Z -> option (quicklist * quicklistIter * quicklistEntry * bool)) :
  stored junk n l -> encoding n = QUICKLIST_NODE_ENCODING_RAW -> l !! i = Some x -> (QL_NODE_IS_PLAIN n = false -> p = lp_ptr l i) ->
  exists v, text v = x /\
    (lp ← raw n; v ← (if QL_NODE_IS_PLAIN n then b ← ldn lp 0 (sz n); Some (inl b)
       else r ← lpGetValue lp p; match r with inl (place, k) => b ← ldn lp place k; Some (inl b) | inr v => Some (inr v) end); K v) = K v.
Proof.
  intros Hs He Hi Hp. destruct (read_ok n l i x p Hs He Hi Hp) as (v & Hv & Ht). exists v. split; [done|]. unfold read_at in Hv.
  destruct (raw n) as [lp|]; [|done]. bnd. cbn [mbind option_bind] in Hv. destruct (QL_NODE_IS_PLAIN n); rewrite Hv; done.
Qed.

Lemma lookup_concat (lpre lpost : list (list (list Z))) l o : (o < length l)%nat -> concat (lpre ++ l :: lpost) !! (length (concat lpre) + o)%nat = l !! o.
Proof. intros Ho. rewrite concat_app, lookup_app_r by lia. cbn. rewrite lookup_app_l by lia. f_equal. lia. Qed.

(** The first element that an iterator reads in a node. *)
Lemma next_fresh q pre a n post lpre l lpost o off dir fuel : focus q pre a n post lpre lpost [] -> good (a, n) l -> quiet (a, n) -> (o < length l)%nat ->
  off = Z.of_nat o \/ off = Z.of_nat o - zlen l ->
  exists q' it e, quicklistNext junk fuel (mkIter (Some a) None off dir) q = Some (q', it, e, true) /\
    at_elem q' it (lpre ++ l :: lpost) dir (length (concat lpre) + o) /\ qcount q' = qcount q /\
    concat (lpre ++ l :: lpost) !! (length (concat lpre) + o)%nat = Some (text (e_value e)) /\ e = mkEntry (current it) (zi it) (e_value e) (offset it).
Proof.
  intros F Hg Hq Ho Hoff. rewrite next_eq. cbn [current zi offset direction]. rewrite (focus_node _ _ _ _ _ _ _ _ F). bnd. cbv zeta.
  change (QL_NODE_IS_PLAIN (relink _ _ n)) with (QL_NODE_IS_PLAIN n).
  destruct (open_node q pre a n post lpre lpost l [] F Hg) as (q' & n' & H1 & F' & Hg' & He & [D1 D2 D3 D4 D5] & P). rewrite H1. bnd.
  assert (QL_NODE_IS_PLAIN n = QL_NODE_IS_PLAIN n') as Hpl by (unfold QL_NODE_IS_PLAIN; by rewrite D3). rewrite Hpl.
  rewrite (focus_node _ _ _ _ _ _ _ _ F'). bnd. change (raw (relink _ _ n')) with (raw n').
  destruct (raw_stored _ n' l (proj1 Hg') He) as (b & Hb & _). assert (raw n' = Some b) as Hraw by (unfold raw; by rewrite Hb). rewrite Hraw. bnd.
  set (p := if QL_NODE_IS_PLAIN n' then 0 else lp_ptr l o).
  assert ((if QL_NODE_IS_PLAIN n' then Some (Some 0) else lpSeek b off) = Some (Some p)) as ->.
  { unfold p. destruct (QL_NODE_IS_PLAIN n') eqn:Ep; [done|].
    destruct (packed_raw n' l (proj1 Hg') He (is_plain_false n' l (proj1 Hg') Ep)) as (lp & E1 & E2 & _). rewrite Hb in E1. injection E1 as <-.
    rewrite (seek_law b l off E2). destruct (locate_at l o Ho) as [L1 L2]. by destruct Hoff as [->| ->]; rewrite ?L1, ?L2. }
  bnd. cbn [zi]. rewrite (focus_node _ _ _ _ _ _ _ _ F'). bnd. change (raw (relink _ _ n')) with (raw n'). cbn [sz relink set_prev set_next offset].
  destruct (lookup_lt_is_Some_2 l o Ho) as [x Hx].
  destruct (read_entry n' l o x p (fun v => Some (q', mkIter (Some a) (Some p) off dir, mkEntry (Some a) (Some p) v off, true)) (proj1 Hg') He Hx) as (v & Hv & ->).
  { unfold p. by intros ->. }
  eexists q', _, _. split; [done|]. split_and!; [|apply P|rewrite lookup_concat by done; by rewrite Hx, <- Hv|done].
  exists pre, a, n', post, lpre, l, lpost, o, p, off. split_and!; try done; [rewrite D4; apply Hq|]. unfold p. by intros ->.
Qed.

Lemma release_ok q it ls dir i : at_elem q it ls dir i -> exists q' xs, quicklistReleaseIterator junk it q = Some q' /\ whole q' xs ls [] /\ qcount q' = qcount q.
Proof.
  intros (pre & a & n & post & lpre & l & lpost & o & p & off & -> & F & Hg & He & Hd & -> & _). unfold quicklistReleaseIterator. cbn [current].
  destruct (close_node q pre a n post lpre lpost l [] F Hg) as (q' & pre' & n' & post' & H1 & F' & Hg' & _ & _ & Hq & P & _). exists q', (pre' ++ (a, n') :: post').
  split_and!; [done|by apply focus_whole; [..|apply Hq]|apply P].
Qed.

(** What a call of quicklistNext gives: the element at [i], or the end. *)
Definition stepped (c : option (quicklist * quicklistIter * quicklistEntry * bool)) (q : quicklist) (ls : list (list (list Z))) (dir : Z) (i : option nat) : Prop :=
  exists q' it e, qcount q' = qcount q /\
    match i with
    | Some i => c = Some (q', it, e, true) /\ at_elem q' it ls dir i /\ concat ls !! i = Some (text (e_value e)) /\ e = mkEntry (current it) (zi it) (e_value e) (offset it)
    | None => c = Some (q', it, e, false) /\ current it = None /\ exists xs, whole q' xs ls []
    end.

Definition dir_of (hd : bool) : Z := if hd then AL_START_HEAD else AL_START_TAIL.
(** The position after [i]. *)
Definition succ_pos (hd : bool) (m i : nat) : option nat := if hd then if (S i <? m)%nat then Some (S i) else None else match i with O => None | S i => Some i end.

(** The iterator leaves a node. *)
Lemma leave_node q pre a n post lpre lpost l fuel (hd : bool) : focus q pre a n post lpre lpost [] -> good (a, n) l -> dont_compress n = false ->
  stepped (q ← quicklistCompress junk a q; n ← node a q;
           let it := if dir_of hd =? AL_START_HEAD then mkIter (next n) None 0 (dir_of hd) else mkIter (prev n) None (-1) (dir_of hd) in
           quicklistNext junk fuel it q) q (lpre ++ l :: lpost) (dir_of hd)
    (succ_pos hd (length (concat (lpre ++ l :: lpost))) (if hd then length (concat lpre) + length l - 1 else length (concat lpre))%nat).
Proof.
  intros F Hg Hd. destruct (close_node q pre a n post lpre lpost l [] F Hg) as (q1 & pre' & n' & post' & H1 & F' & Hg' & _ & _ & Hq & (_ & _ & P) & _). specialize (Hq Hd).
  rewrite H1. bnd. rewrite (focus_node _ _ _ _ _ _ _ _ F'). bnd. cbv zeta. cbn [prev next relink set_prev set_next].
  pose proof (focus_whole _ _ _ _ _ _ _ _ _ F' Hg' Hq) as W. pose proof (stored_ne _ _ (proj1 Hg)) as Hne.
  assert (length (concat (lpre ++ l :: lpost)) = length (concat lpre) + length l + length (concat lpost))%nat as Hlen by (rewrite concat_app; cbn; rewrite !length_app; lia).
  assert (0 < length l)%nat by (destruct l; [done|cbn; lia]).
  destruct hd; cbn [dir_of succ_pos]; change (AL_START_HEAD =? AL_START_HEAD) with true; change (AL_START_TAIL =? AL_START_HEAD) with false; cbv iota.
  - pose proof (f_post _ _ _ _ _ _ _ _ F') as Hpost. destruct post' as [|[b m] post']; cbn [first_of].
    + apply Forall2_nil_inv_l in Hpost as ->. cbn [concat length] in Hlen. replace (S _ <? _)%nat with false by (symmetry; apply Nat.ltb_ge; lia).
      rewrite next_eq. cbn [current]. eexists q1, _, _. split; [done|]. split; [done|]. split; [done|]. eauto.
    + apply Forall2_cons_inv_l in Hpost as (l2 & lpost2 & Hg2 & _ & ->). assert (0 < length l2)%nat by (destruct l2; [by destruct (stored_ne _ _ (proj1 Hg2))|cbn; lia]).
      cbn [concat] in Hlen. rewrite length_app in Hlen. replace (S _ <? _)%nat with true by (symmetry; apply Nat.ltb_lt; lia).
      assert (pre' ++ (a, n') :: (b, m) :: post' = (pre' ++ [(a, n')]) ++ (b, m) :: post') as E1 by by rewrite <- app_assoc.
      assert (lpre ++ l :: l2 :: lpost2 = (lpre ++ [l]) ++ l2 :: lpost2) as E2 by by rewrite <- app_assoc. rewrite E1, E2 in W. rewrite E2.
      destruct (whole_focus _ _ _ _ _ _ _ W) as (lp1 & l1 & lp2 & He & F2 & Hg3 & Hq3).
      assert (lp1 = lpre ++ [l] /\ l1 = l2 /\ lp2 = lpost2) as (-> & -> & ->).
      { pose proof (f_pre _ _ _ _ _ _ _ _ F2) as Hp%Forall2_length. pose proof (f_pre _ _ _ _ _ _ _ _ F') as Hp'%Forall2_length. rewrite length_app in Hp.
        apply app_inj_1 in He as [<- [= <- <-]]; [done|]. rewrite length_app. cbn in *. lia. }
      destruct (next_fresh q1 _ b m post' _ l2 lpost2 0 0 AL_START_HEAD fuel F2 Hg3 Hq3) as (q' & it & e & K1 & K2 & K3 & K4 & K5); [lia|by left|].
      assert (length (concat (lpre ++ [l])) + 0 = S (length (concat lpre) + length l - 1))%nat as Hi by (rewrite concat_app; cbn; rewrite app_nil_r, length_app; lia).
      rewrite Hi in K2, K4. exists q', it, e. split_and!; try done. congruence.
  - pose proof (f_pre _ _ _ _ _ _ _ _ F') as Hpre. destruct (last_cases pre') as [->|(pp & b & m & ->)].
    + apply Forall2_nil_inv_l in Hpre as ->. cbn. rewrite next_eq. cbn [current]. eexists q1, _, _. split; [done|]. split; [done|]. split; [done|]. eauto.
    + rewrite chain_last_app. cbn [last_of foldl fst]. apply Forall2_app_inv_l in Hpre as (lpp & l3 & Hp1 & Hp2 & ->).
      apply Forall2_cons_inv_l in Hp2 as (l2 & l4 & Hg2 & ->%Forall2_nil_inv_l & ->). assert (0 < length l2)%nat by (destruct l2; [by destruct (stored_ne _ _ (proj1 Hg2))|cbn; lia]).
      rewrite <- !app_assoc in W. rewrite <- app_assoc. cbn [app] in W |- *.
      destruct (whole_focus _ _ _ _ _ _ _ W) as (lp1 & l1 & lp2 & He & F2 & Hg3 & Hq3).
      assert (lp1 = lpp /\ l1 = l2 /\ lp2 = l :: lpost) as (-> & -> & ->).
      { pose proof (f_pre _ _ _ _ _ _ _ _ F2) as Hp%Forall2_length. apply Forall2_length in Hp1. apply app_inj_1 in He as [<- [= <- <-]]; [done|]. congruence. }
      destruct (next_fresh q1 _ b m _ _ l2 _ (length l2 - 1) (-1) AL_START_TAIL fuel F2 Hg3 Hq3) as (q' & it & e & K1 & K2 & K3 & K4 & K5); [lia|right; unfold zlen; lia|].
      assert (length (concat (lpp ++ [l2])) = S (length (concat lpp) + (length l2 - 1)))%nat as -> by (rewrite concat_app; cbn; rewrite app_nil_r, length_app; lia).
      exists q', it, e. split_and!; try done. congruence.
Qed.

Lemma next_step q it ls i fuel (hd : bool) : at_elem q it ls (dir_of hd) i -> stepped (quicklistNext junk (S fuel) it q) q ls (dir_of hd) (succ_pos hd (length (concat ls)) i).
Proof.
  intros (pre & a & n & post & lpre & l & lpost & o & p & off & -> & F & Hg & He & Hd & -> & Ho & -> & Hp & Hoff).
  rewrite next_eq. cbn [current zi offset direction]. rewrite (focus_node _ _ _ _ _ _ _ _ F). bnd. cbv zeta.
  change (QL_NODE_IS_PLAIN (relink _ _ n)) with (QL_NODE_IS_PLAIN n). change (raw (relink _ _ n)) with (raw n).
  assert (length (concat (lpre ++ l :: lpost)) = length (concat lpre) + length l + length (concat lpost))%nat as Hlen by (rewrite concat_app; cbn; rewrite !length_app; lia).
  assert (forall off' (o' : nat), QL_NODE_IS_PLAIN n = false -> (o' < length l)%nat -> off' = Z.of_nat o' \/ off' = Z.of_nat o' - zlen l ->
    stepped (m ← node a q; lp ← raw m; v ← (if QL_NODE_IS_PLAIN n then b ← ldn lp 0 (sz m); Some (inl b)
       else r ← lpGetValue lp (lp_ptr l o'); match r with inl (place, k) => b ← ldn lp place k; Some (inl b) | inr v => Some (inr v) end);
       Some (q, mkIter (Some a) (Some (lp_ptr l o')) off' (dir_of hd), mkEntry (Some a) (Some (lp_ptr l o')) v off', true))
      q (lpre ++ l :: lpost) (dir_of hd) (Some (length (concat lpre) + o')%nat)) as Hin.
  { intros off' o' Ep Ho' Hoff'. rewrite (focus_node _ _ _ _ _ _ _ _ F). bnd. change (raw (relink _ _ n)) with (raw n). cbn [sz relink set_prev set_next]. destruct (lookup_lt_is_Some_2 l o' Ho') as [x Hx].
    destruct (read_entry n l o' x (lp_ptr l o') (fun v => Some (q, mkIter (Some a) (Some (lp_ptr l o')) off' (dir_of hd), mkEntry (Some a) (Some (lp_ptr l o')) v off', true)) (proj1 Hg) He Hx)
      as (v & Hv & ->); [done|]. eexists q, _, _. split; [done|]. split_and!; [done| |rewrite lookup_concat by done; by rewrite Hx, <- Hv|done].
    exists pre, a, n, post, lpre, l, lpost, o', (lp_ptr l o'), off'. by split_and!. }
  pose proof (leave_node q pre a n post lpre lpost l fuel hd F Hg Hd) as Hout.
  destruct (QL_NODE_IS_PLAIN n) eqn:Ep.
  { destruct (plain_raw n l (proj1 Hg) He Ep) as (b & _ & -> & _). bnd. cbn [zi direction]. cbn in Ho. assert (o = 0%nat) as -> by lia.
    rewrite Nat.add_0_r. cbn [length] in Hout. destruct hd; [|exact Hout]. by replace (length (concat lpre) + 1 - 1)%nat with (length (concat lpre)) in Hout by lia. }
  destruct (packed_raw n l (proj1 Hg) He (is_plain_false n l (proj1 Hg) Ep)) as (lp & E1 & E2 & _).
  assert (raw n = Some lp) as Hraw by (unfold raw; by rewrite E1). rewrite Hraw. bnd. rewrite (Hp eq_refl).
  destruct hd; cbn [dir_of succ_pos] in *.
  - change (AL_START_HEAD =? AL_START_HEAD) with true in *. cbv iota in *. rewrite (next_law lp l o E2 Ho). bnd. cbn [zi offset direction].
    destruct (S o <? length l)%nat eqn:Es.
    + apply Nat.ltb_lt in Es. replace (S _ <? _)%nat with true by (symmetry; apply Nat.ltb_lt; lia). rewrite <- Nat.add_succ_r. apply Hin; [done|done|destruct Hoff; [left|right]; lia].
    + apply Nat.ltb_ge in Es. by replace (length (concat lpre) + o)%nat with (length (concat lpre) + length l - 1)%nat by lia.
  - change (AL_START_TAIL =? AL_START_HEAD) with false in *. cbv iota in *. rewrite (prev_law lp l o E2 Ho). bnd. cbn [zi offset direction].
    destruct o as [|o].
    + by rewrite Nat.add_0_r.
    + rewrite Nat.add_succ_r. apply Hin; [done|lia|destruct Hoff; [left|right]; lia].
Qed.

(** The element at an index. *)
Lemma entry_at_ok q xs ls idx : whole q xs ls [] -> qcount q = zlen (concat ls) -> zlen (concat ls) < 2 ^ 32 -> in_s 64 idx ->
  match ListpackRun.locate (concat ls) idx with
  | None => quicklistGetIteratorEntryAtIdx junk idx q = Some (q, None)
  | Some i => exists q' it e, quicklistGetIteratorEntryAtIdx junk idx q = Some (q', Some (it, e)) /\ at_elem q' it ls AL_START_TAIL i /\ qcount q' = qcount q /\
      concat ls !! i = Some (text (e_value e)) /\ e = mkEntry (current it) (zi it) (e_value e) (offset it)
  end.
Proof.
  intros W Hc Hb Hi. pose proof (iterator_at_ok q xs ls AL_START_TAIL idx W Hc Hb Hi) as H1. unfold quicklistGetIteratorEntryAtIdx.
  destruct (ListpackRun.locate _ _) as [i|]; [|by rewrite H1].
  destruct H1 as (pre & a & n & post & lpre & l & lpost & o & -> & -> & F & Hg & Hq & -> & Ho & ->). bnd.
  destruct (next_fresh q pre a n post lpre l lpost o (if idx <? 0 then Z.of_nat o - zlen l else Z.of_nat o) AL_START_TAIL (next_fuel q) F Hg Hq Ho) as (q' & it & e & K1 & K2 & K3 & K4 & K5).
  { destruct (idx <? 0); auto. }
  rewrite K1. bnd. exists q', it, e. by split_and!.
Qed.

End ops.
End QuicklistOps.
