(* ===== verification/QuicklistInsert.v ===== *)
(** * Insertion and replacement in a quicklist

    quicklistInsertBefore, quicklistInsertAfter and quicklistReplaceAtIndex:
    the node takes the element, or a neighbour does, or a new node does, or the
    node is split; after a split neighbours are merged when they fit. *)
From stdpp Require Import base list gmap.
From S2P Require Import Prelude Util ListpackRun Quicklist QuicklistLinks QuicklistNodes QuicklistOps.

Module QuicklistInsert.
Import Quicklist QuicklistLinks QuicklistNodes QuicklistOps.

Section insert.

Context {PK : Packed} {PL : PackedLaws} {CP : Compression} {CL : CompressionLaws}.
Context (junk packed_threshold : Z).

Local Notation stored := (QuicklistNodes.stored junk).
Local Notation recoded := (QuicklistNodes.recoded junk).
Local Notation recode := (QuicklistNodes.recode junk).
Local Notation good := (QuicklistOps.good junk).
Local Notation whole := (QuicklistOps.whole junk).
Local Notation focusQ := (QuicklistOps.focusQ junk).
Local Notation focus := (QuicklistOps.focusQ junk quiet).

(** ** Splitting a node *)

Definition kept {A} (after : bool) (o : nat) (l : list A) : list A := if after then take (S o) l else drop o l.
Definition cut {A} (after : bool) (o : nat) (l : list A) : list A := if after then drop (S o) l else take o l.

Lemma kept_range (l : list (list Z)) o (after : bool) : (o < length l)%nat -> zlen l <= 32768 ->
  (match ListpackRun.locate l (if after then Z.of_nat o + 1 else 0) with
   | None => l | Some i => take i l ++ drop (i + Z.to_nat (u64 (if after then -1 else Z.of_nat o))) l end) = kept after o l /\
  (match ListpackRun.locate l (if after then 0 else Z.of_nat o) with
   | None => l | Some i => take i l ++ drop (i + Z.to_nat (u64 (if after then Z.of_nat o + 1 else -1))) l end) = cut after o l.
Proof.
  intros Ho Hl. unfold zlen in Hl. assert (u64 (-1) = 2 ^ 64 - 1) as Hm by done.
  assert (ListpackRun.locate l 0 = Some 0%nat) as L0 by exact (proj1 (locate_at l 0 ltac:(lia))). unfold kept, cut.
  destruct after; remember (u64 (-1)) as big eqn:Hbig; clear Hbig.
  - rewrite L0. rewrite (wrap_small 64) by lia. cbn [take app].
    assert (Z.to_nat (Z.of_nat o + 1) = S o) as -> by lia. split; [|done].
    destruct (decide (S o < length l)%nat) as [Hlt|Hge].
    + replace (Z.of_nat o + 1) with (Z.of_nat (S o)) by lia. rewrite (proj1 (locate_at l (S o) Hlt)). rewrite (drop_ge l) by lia. by rewrite app_nil_r.
    + replace (Z.of_nat o + 1) with (Z.of_nat (S o)) by lia. unfold ListpackRun.locate, Listpack.Listpack.norm_index, zlen.
      replace (Z.of_nat (S o) <? 0) with false by lia. replace (_ && _) with false by lia. by rewrite take_ge by lia.
  - rewrite L0, (proj1 (locate_at l o Ho)). rewrite (wrap_small 64) by lia. rewrite Nat2Z.id. split; [done|].
    rewrite (drop_ge l) by lia. by rewrite app_nil_r.
Qed.

Lemma split_ok q pre a n post lpre lpost ex l o off (after : bool) : focus q pre a n post lpre lpost ex -> good (a, n) l ->
  encoding n = QUICKLIST_NODE_ENCODING_RAW -> container n = QUICKLIST_NODE_CONTAINER_PACKED -> (o < length l)%nat -> off = Z.of_nat o \/ off = Z.of_nat o - zlen l ->
  cut after o l <> [] ->
  exists q' n' new, _quicklistSplitNode a off after q = Some (q', new) /\ focus q' pre a n' post lpre lpost ex /\ good (a, n') (kept after o l) /\
    encoding n' = QUICKLIST_NODE_ENCODING_RAW /\ container n' = QUICKLIST_NODE_CONTAINER_PACKED /\ recompress n' = recompress n /\ dont_compress n' = dont_compress n /\
    unlinked new /\ (forall b, good (b, new) (cut after o l)) /\ container new = QUICKLIST_NODE_CONTAINER_PACKED /\ same_params q q'.
Proof.
  intros F (Hs & Hc & Hl) He Hcn Ho Hoff Hcut. cbn in Hs, Hc. destruct (packed_raw junk n l Hs He Hcn) as (lp & H1 & H2 & H3 & H4).
  unfold _quicklistSplitNode. rewrite (focus_node _ _ _ _ _ _ _ _ _ F). bnd. cbn [count sz relink set_prev set_next].
  change (raw (relink _ _ n)) with (raw n). unfold raw. rewrite H1. bnd. pose proof (packs_size _ _ H2) as [_ Hsz]. pose proof Hs as (_ & _ & _ & Hsz0).
  destruct (ldn_is_Some lp 0 (sz n)) as [copy Hcopy]; [lia..|]. rewrite Hcopy. bnd. cbv zeta.
  assert (packs copy l) as Hp2 by (apply ldn_Some in Hcopy as (_ & _ & _ & ->); rewrite drop_0, H3; by apply packs_cut).
  assert ((if off <? 0 then count n + off else off) = Z.of_nat o) as ->.
  { rewrite Hc. unfold zlen in *. destruct Hoff as [->| ->]; [by replace (_ <? 0) with false by lia|]. replace (_ <? 0) with true by lia. lia. }
  destruct (kept_range l o after Ho Hl) as [K1 K2].
  assert (zlen (kept after o l) <= 32768 /\ zlen (cut after o l) <= 32768 /\ kept after o l <> []) as (B1 & B2 & B3).
  { unfold zlen, kept, cut in *. split_and!; [destruct after; rewrite ?length_take, ?length_drop; lia..|]. intros E%(f_equal length). destruct after; rewrite ?length_take, ?length_drop in E; cbn [length] in E; lia. }
  destruct (delete_range_law lp l (if after then Z.of_nat o + 1 else 0) (u64 (if after then -1 else Z.of_nat o)) H2) as (lp1 & -> & P1);
    [unfold in_s; unfold zlen in Hl; destruct after; lia|apply (wrap_range 64); done|]. rewrite K1 in P1. bnd.
  destruct (length_law lp1 _ P1) as (lp2 & -> & P2). bnd.
  destruct (upd_focus junk q pre a n post lpre lpost ex (set_count (zlen (kept after o l))) F) as (q1 & -> & F1 & Q1); [done|done|by left|]. bnd.
  destruct (store_ok junk q1 _ _ _ _ _ _ _ lp2 _ F1 P2) as (q2 & -> & F2 & Q2); [done|]. bnd.
  destruct (delete_range_law copy l (if after then 0 else Z.of_nat o) (u64 (if after then Z.of_nat o + 1 else -1)) Hp2) as (lp3 & -> & P3);
    [unfold in_s; unfold zlen in Hl; destruct after; lia|apply (wrap_range 64); done|]. rewrite K2 in P3. bnd.
  destruct (length_law lp3 _ P3) as (lp4 & -> & P4). bnd. rewrite (bytes_law _ _ P4). bnd.
  eexists q2, _, _. split; [done|]. split_and!; try done.
  - split_and!; [by apply with_lp_stored|cbn; apply wrap_small; pose proof (zlen_nonneg (kept after o l)); lia|done].
  - intros b. apply set_count_good; [|done]. by apply with_lp_stored.
  - eapply same_params_trans; done.
Qed.

(** ** New nodes beside a node in use *)

Lemma recoded_goods q pre a n post lpre lpost ex pre' post' : focus q pre a n post lpre lpost ex -> Forall2 recoded pre pre' -> Forall2 recoded post post' ->
  Forall2 good pre' lpre /\ Forall2 good post' lpost /\ Forall quiet pre' /\ Forall quiet post'.
Proof.
  intros [_ H2 H3 _ H5 _] R1 R2. apply Forall_app in H5 as [Q1 Q2]. split_and!;
    [by eapply goods_recoded|by eapply goods_recoded|by eapply quiets_recoded; [|exact R1]|by eapply quiets_recoded; [|exact R2]].
Qed.

Definition on_left {A} (after : bool) (l k : list A) : list A := if after then l else l ++ k.
Definition on_right {A} (after : bool) (k l : list A) : list A := if after then k ++ l else l.

Lemma beside_one q pre a n post lpre lpost l new nn k ex (after : bool) : focus q pre a n post lpre lpost ((new, nn) :: ex) -> good (a, n) l -> unlinked nn -> good (new, nn) k ->
  exists q' pre' n' post', __quicklistInsertNode junk (Some a) new after q = Some q' /\
    focus q' pre' a n' post' (on_left after lpre [k]) (on_right after [k] lpost) ex /\ good (a, n') l /\ recode n n' /\
    (dont_compress n = false -> quiet (a, n')) /\ same_params q q'.
Proof.
  intros F Hg Hu Hk. pose proof F as [H1 H2 H3 H4 H5 H6].
  destruct (insert_beside junk q pre a n post l new nn k ex after H1 (focus_sound _ _ _ _ _ _ _ _ _ F) H4 H6 (proj1 Hg) Hu (proj1 Hk))
    as (q' & pre' & n' & nn' & post' & G1 & G2 & G3 & G4 & G5 & G6 & G7 & G8 & G9 & G10).
  destruct (recoded_goods _ _ _ _ _ _ _ _ _ _ F G3 G4) as (K1 & K2 & K3 & K4). assert (good (new, nn') k) as Hk' by (by eapply good_recoded; [exact Hk|split]).
  exists q', (on_left after pre' [(new, nn')]), n', (on_right after [(new, nn')] post'). split_and!; try done; [|by eapply good_recoded; [exact Hg|split]].
  unfold on_left, on_right. destruct after; cbn [beside] in *; cbn [app] in *.
  - split; try done; [by constructor|apply Forall_app; split; [done|by constructor]|by eapply params_moved].
  - split; try done; try (by rewrite <- app_assoc); [by apply Forall2_app; [|constructor]| |by eapply params_moved].
    rewrite <- app_assoc. apply Forall_app. split; [done|]. by constructor.
Qed.

Lemma beside_two q pre a n post lpre lpost l x nx kx y ny ky ex (after : bool) : focus q pre a n post lpre lpost ((x, nx) :: (y, ny) :: ex) -> good (a, n) l ->
  unlinked nx -> good (x, nx) kx -> unlinked ny -> good (y, ny) ky ->
  exists q1 q' pre' n' post', __quicklistInsertNode junk (Some a) x after q = Some q1 /\ __quicklistInsertNode junk (Some x) y after q1 = Some q' /\
    focus q' pre' a n' post' (on_left after lpre [ky; kx]) (on_right after [kx; ky] lpost) ex /\ good (a, n') l /\ recode n n' /\
    (dont_compress n = false -> quiet (a, n')) /\ same_params q q'.
Proof.
  intros F Hg Hux Hkx Huy Hky. pose proof F as [H1 H2 H3 H4 H5 H6].
  destruct (insert_beside junk q pre a n post l x nx kx _ after H1 (focus_sound _ _ _ _ _ _ _ _ _ F) H4 H6 (proj1 Hg) Hux (proj1 Hkx))
    as (q1 & pre' & n' & nx' & post' & G1 & G2 & G3 & G4 & G5 & G6 & G7 & G8 & G9 & G10).
  destruct (recoded_goods _ _ _ _ _ _ _ _ _ _ F G3 G4) as (K1 & K2 & K3 & K4). assert (good (x, nx') kx) as Hkx' by (by eapply good_recoded; [exact Hkx|split]).
  assert (good (a, n') l) as Hg' by (by eapply good_recoded; [exact Hg|split]).
  assert (Forall (sound junk) pre' /\ Forall (sound junk) post') as [S1 S2] by (split; by eapply goods_sound). assert (sound junk (a, n')) as Sa by (exists l; apply Hg').
  set (p1 := if after then pre' ++ [(a, n')] else pre'). set (p2 := if after then post' else (a, n') :: post').
  assert (pre' ++ beside after (a, n') (x, nx') ++ post' = p1 ++ (x, nx') :: p2) as Hx by (unfold p1, p2; destruct after; cbn; [by rewrite <- app_assoc|done]). rewrite Hx in G2, G7.
  destruct (insert_beside junk q1 p1 x nx' p2 kx y ny ky ex after G2) as (q2 & p1' & nx2 & ny' & p2' & I1 & I2 & I3 & I4 & I5 & I6 & I7 & I8 & I9 & I10);
    [|done|by eapply params_moved|apply Hkx'|done|apply Hky|].
  { unfold p1, p2. destruct after; rewrite ?Forall_app, ?Forall_cons, ?Forall_nil; tauto. }
  assert (good (x, nx2) kx) as Hkx2 by (by eapply good_recoded; [exact Hkx'|split]). assert (good (y, ny') ky) as Hky2 by (by eapply good_recoded; [exact Hky|split]).
  assert (quiet (x, nx2)) as Hq2 by (eapply quiet_recoded; [exact G8|split; [done|exact I5]]).
  assert (exists pre2 n2 post2, Forall2 recoded pre' pre2 /\ recode n' n2 /\ Forall2 recoded post' post2 /\
    p1' ++ beside after (x, nx2) (y, ny') ++ p2' = on_left after pre2 [(y, ny'); (x, nx2)] ++ (a, n2) :: on_right after [(x, nx2); (y, ny')] post2) as (pre2 & n2 & post2 & R1 & R2 & R3 & Heq).
  { unfold p1, p2 in *. destruct after; cbn [beside on_left on_right].
    - apply Forall2_app_inv_l in I3 as (pre2 & l2 & R1 & R2 & ->). apply Forall2_cons_inv_l in R2 as ([b n2] & l3 & [Hb Hr] & ->%Forall2_nil_inv_l & ->).
      cbn in Hb, Hr. subst b. exists pre2, n2, p2'. split_and!; try done. by rewrite <- app_assoc.
    - apply Forall2_cons_inv_l in I4 as ([b n2] & post2 & [Hb Hr] & R2 & ->). cbn in Hb, Hr. subst b. exists p1', n2, post2. split_and!; try done. by rewrite <- app_assoc. }
  rewrite Heq in I2, I7. exists q1, q2, (on_left after pre2 [(y, ny'); (x, nx2)]), n2, (on_right after [(x, nx2); (y, ny')] post2).
  assert (Forall2 good pre2 lpre /\ Forall2 good post2 lpost /\ Forall quiet pre2 /\ Forall quiet post2) as (J1 & J2 & J3 & J4)
    by (split_and!; [by eapply goods_recoded|by eapply goods_recoded|by eapply quiets_recoded; [|exact R1]|by eapply quiets_recoded; [|exact R3]]).
  split_and!; try done.
  - split; try done; [| | |eapply params_moved; [|done]; by eapply params_moved].
    + unfold on_left. destruct after; [done|]. apply Forall2_app; [done|]. constructor; [done|]. by constructor.
    + unfold on_right. destruct after; [|done]. constructor; [done|]. by constructor.
    + unfold on_left, on_right. destruct after; rewrite ?Forall_app, ?Forall_cons, ?Forall_nil; tauto.
  - by eapply good_recoded; [exact Hg'|split].
  - by etrans.
  - intros Hd. eapply quiet_recoded; [apply G9, Hd|split; [done|exact R2]].
  - by eapply same_params_trans.
Qed.

(** ** Insertion at an element *)

Lemma edge_tests n (l : list (list Z)) o off : count n = zlen l -> (o < length l)%nat -> off = Z.of_nat o \/ off = Z.of_nat o - zlen l ->
  (off =? count n - 1) || (off =? -1) = (S o =? length l)%nat /\ (off =? 0) || (off =? - count n) = (o =? 0)%nat.
Proof.
  intros -> Ho Hoff. unfold zlen in *. split.
  - destruct (Nat.eqb_spec (S o) (length l)); [apply orb_true_iff|apply orb_false_iff]; rewrite ?Z.eqb_eq, ?Z.eqb_neq; lia.
  - destruct (Nat.eqb_spec o 0); [apply orb_true_iff|apply orb_false_iff]; rewrite ?Z.eqb_eq, ?Z.eqb_neq; lia.
Qed.

Lemma node_neighbours q pre a n post ex : linked q (pre ++ (a, n) :: post) ex ->
  node_opt (last_of None pre) q = Some (match last pre with None => None | Some (b, m) => Some (relink (last_of None (removelast pre)) (Some a) m) end) /\
  node_opt (first_of post None) q = Some (match post with [] => None | (b, m) :: post' => Some (relink (Some a) (first_of post' None) m) end).
Proof.
  intros [S _ _ _ _ _ _]. rewrite seg_app in S. destruct S as [S1 [Sa S2]]. split.
  - destruct (last_cases pre) as [->|(pp & b & m & ->)]; [done|]. rewrite chain_last_app, last_snoc, removelast_last. cbn [last_of foldl fst node_opt].
    rewrite seg_app in S1. destruct S1 as [_ [S1 _]]. unfold node. rewrite S1. done.
  - destruct post as [|[b m] post]; [done|]. cbn [first_of node_opt]. unfold node. by rewrite (proj1 S2).
Qed.

(** Where the elements of a node go. *)
Definition inserted (after : bool) (o : nat) (l : list (list Z)) (lpre lpost : list (list (list Z))) (s : list Z) (lpre' lpost' : list (list (list Z))) : Prop :=
  if after then lpre' = lpre /\ lpost' <> [] /\ concat lpost' = s :: drop (S o) l ++ concat lpost
  else lpost' = lpost /\ concat lpre' = concat lpre ++ take o l ++ [s].

(** A large element gets a node of its own. *)
Lemma insert_large q pre a n post lpre lpost l o off it p v s (after : bool) : focus q pre a n post lpre lpost [] -> good (a, n) l ->
  encoding n = QUICKLIST_NODE_ENCODING_RAW -> (o < length l)%nat -> off = Z.of_nat o \/ off = Z.of_nat o - zlen l -> elem s -> zlen s < 2 ^ 32 ->
  isLargeElement packed_threshold (zlen s) = true ->
  exists q' pre' n' post' lpre' lpost', _quicklistInsert packed_threshold junk it (mkEntry (Some a) (Some p) v off) s after q = Some (q', it) /\
    focus q' pre' a n' post' lpre' lpost' [] /\ good (a, n') (kept after o l) /\ inserted after o l lpre lpost s lpre' lpost' /\
    container n' = container n /\ dont_compress n' = dont_compress n /\ (dont_compress n = true -> encoding n' = QUICKLIST_NODE_ENCODING_RAW) /\
    (dont_compress n = false -> quiet (a, n')) /\ qcount q' = qcount q + 1.
Proof.
  intros F Hg He Ho Hoff Hs Hz HL. pose proof Hg as (Hst & Hc & Hl). cbn in Hst, Hc. destruct (plain_stored junk s Hs Hz) as (Hu & Hst1 & Hg1).
  unfold _quicklistInsert. cbn [e_node e_offset e_zi]. rewrite (focus_node _ _ _ _ _ _ _ _ _ F). bnd. cbn [prev next count relink set_prev set_next].
  destruct (node_neighbours q pre a n post [] (f_linked _ _ _ _ _ _ _ _ _ _ F)) as [-> ->]. bnd. cbv zeta. rewrite HL.
  destruct (edge_tests n l o off Hc Ho Hoff) as [-> ->]. change (QL_NODE_IS_PLAIN (relink _ _ n)) with (QL_NODE_IS_PLAIN n).
  destruct (QL_NODE_IS_PLAIN n || _ || _) eqn:Ed.
  - assert (kept after o l = l /\ cut after o l = []) as [Hk Hcut].
    { assert (if after then S o = length l else o = 0%nat) as Hedge.
      { apply orb_true_iff in Ed as [Ed|Ed]; [apply orb_true_iff in Ed as [Ed|Ed]|].
        - destruct (plain_raw junk n l Hst He Ed) as (b & _ & -> & _). cbn in Ho. destruct after; cbn; lia.
        - destruct after; [|done]. cbn [andb negb] in Ed. rewrite andb_true_r in Ed. by apply Nat.eqb_eq.
        - destruct after; [by rewrite andb_comm in Ed|]. cbn in Ed. rewrite andb_true_r in Ed. by apply Nat.eqb_eq. }
      unfold kept, cut. destruct after; [rewrite take_ge, drop_ge by lia|rewrite Hedge]; done. }
    rewrite Hk. unfold __quicklistInsertPlainNode. destruct (alloc _ _) as [x q0] eqn:Ea. pose proof (focus_alloc _ _ _ _ _ _ _ _ _ (__quicklistCreatePlainNode s) F) as F0.
    rewrite Ea in F0. cbn [fst snd] in F0. destruct (beside_one q0 pre a n post lpre lpost l x _ [s] [] after F0 Hg Hu (Hg1 x)) as (q' & pre' & n' & post' & G1 & G2 & G3 & G4 & G5 & G6).
    rewrite G1. bnd. eexists _, pre', n', post', _, _. split; [done|]. split; [by apply focus_qcount|]. destruct G4 as [[D1 D2 D3 D4 D5 D6] _]. split_and!; try done; auto.
    + unfold inserted, on_left, on_right, cut in *. destruct after; [split; [done|]; split; [done|]; by rewrite Hcut|]. split; [done|]. rewrite concat_app, Hcut. done.
    + cbn. destruct G6 as (_ & _ & ->). unfold alloc in Ea. by injection Ea as _ <-.
  - apply orb_false_iff in Ed as [[Ep Et]%orb_false_iff Eh]. pose proof (is_plain_false junk n l Hst Ep) as Hcn.
    destruct (open_node junk q pre a n post lpre lpost l [] F Hg) as (q1 & n1 & -> & F1 & Hg1' & He1 & [D1 D2 D3 D4 D5 D6] & P1). bnd.
    assert (cut after o l <> []) as Hcut.
    { unfold cut. intros E%(f_equal length). destruct after; cbn [andb negb] in Et, Eh; rewrite ?andb_true_r in *; rewrite ?length_take, ?length_drop in E; cbn [length] in E; [apply Nat.eqb_neq in Et|apply Nat.eqb_neq in Eh]; lia. }
    destruct (split_ok q1 pre a n1 post lpre lpost [] l o off after F1 Hg1' He1) as (q2 & n2 & new & -> & F2 & Hg2 & He2 & Hc2 & Hr2 & Hd2 & Hun & Hgn & Hcnn & P2); [congruence|done|done|done|]. bnd.
    destruct (alloc new q2) as [na q3] eqn:Ea. pose proof (focus_alloc _ _ _ _ _ _ _ _ _ new F2) as F3. rewrite Ea in F3. cbn [fst snd] in F3.
    destruct (alloc _ q3) as [ea q4] eqn:Eb. pose proof (focus_alloc _ _ _ _ _ _ _ _ _ (__quicklistCreatePlainNode s) F3) as F4. rewrite Eb in F4. cbn [fst snd] in F4.
    destruct (beside_two q4 pre a n2 post lpre lpost _ ea _ [s] na new _ [] after F4 Hg2 Hu (Hg1 ea) Hun (Hgn na)) as (q5 & q' & pre' & n' & post' & G1 & G2 & G3 & G4 & G5 & G6 & G7).
    rewrite G1. bnd. rewrite G2. bnd. eexists _, pre', n', post', _, _. split; [done|]. split; [by apply focus_qcount|].
    destruct G5 as [[E1 E2 E3 E4 E5 E6] _]. split_and!; try done; try congruence.
    + unfold inserted, on_left, on_right, cut. destruct after; [done|]. split; [done|]. by rewrite concat_app.
    + intros Hd. apply E6; [congruence|done].
    + intros Hd. apply G6. congruence.
    + cbn. destruct G7 as (_ & _ & ->). unfold alloc in Ea, Eb. injection Ea as _ <-. injection Eb as _ <-. cbn. destruct P1 as (_ & _ & <-), P2 as (_ & _ & <-). done.
Qed.

(** ** Merging nodes *)

Lemma allow_merge na nb la lb f : stored na la -> stored nb lb -> lp_size la + lp_size lb - 11 < 2 ^ 32 -> _quicklistNodeAllowMerge (Some na) (Some nb) f = true ->
  container na = QUICKLIST_NODE_CONTAINER_PACKED /\ container nb = QUICKLIST_NODE_CONTAINER_PACKED /\ zlen (la ++ lb) <= 32768 /\ lp_size (la ++ lb) < 2 ^ 32 - 1.
Proof.
  intros Ha Hb Hw. unfold _quicklistNodeAllowMerge. destruct (_ || _) eqn:Ep; [done|]. apply orb_false_iff in Ep as [Ep1 Ep2].
  pose proof (is_plain_false _ _ _ Ha Ep1) as Hca. pose proof (is_plain_false _ _ _ Hb Ep2) as Hcb.
  pose proof Ha as (ba & _ & [(_ & Pa & Za & _)|(Hx & _)] & _); [|by rewrite Hca in Hx]. pose proof Hb as (bb & _ & [(_ & Pb & Zb & _)|(Hx & _)] & _); [|by rewrite Hcb in Hx].
  pose proof (size_bounds la (packs_elem _ _ Pa)) as [B1 _]. pose proof (size_bounds lb (packs_elem _ _ Pb)) as [B2 _]. pose proof (zlen_nonneg la). pose proof (zlen_nonneg lb).
  cbv zeta. rewrite Za, Zb, (wrap_small 32) by lia. intros Hm. assert (lp_size la + lp_size lb - 11 <= 65536) as Hle.
  { destruct (_quicklistNodeSizeMeetsOptimizationRequirement _ _) eqn:Em; [by apply meets_level in Em|]. unfold sizeMeetsSafetyLimit, SIZE_SAFETY_LIMIT in Hm.
    destruct (_ <=? 8192) eqn:E8; [bool_hyps; lia|done]. }
  rewrite zlen_app, size_app. split_and!; try done; lia.
Qed.

Definition awake (x : cell) : Prop := encoding x.2 = QUICKLIST_NODE_ENCODING_RAW /\ recompress x.2 = false.

Lemma safe_change c pre mid mid' post : safe c (pre ++ mid ++ post) -> length mid' = length mid -> Forall awake mid' -> safe c (pre ++ mid' ++ post).
Proof.
  intros Hs Hl Hm i a n Hi Hsh. rewrite !length_app, Hl, <- !length_app in Hsh.
  destruct (decide (i < length pre)%nat) as [H1|H1]; [apply (Hs i a n); [|done]; by rewrite lookup_app_l in Hi |- * by done|].
  rewrite lookup_app_r in Hi by lia. destruct (decide (i - length pre < length mid')%nat) as [H2|H2].
  - rewrite lookup_app_l in Hi by done. exact (Forall_lookup_1 _ _ _ _ Hm Hi).
  - rewrite lookup_app_r in Hi by lia. apply (Hs i a n); [|done]. rewrite lookup_app_r by lia. rewrite lookup_app_r by lia. by rewrite <- Hl.
Qed.

Definition couple {A} (left : bool) (x y : A) : list A := if left then [x; y] else [y; x].

(** An update of one of the two nodes. *)
Lemma upd_pair q pre k nk z nz post (left : bool) f : linked q (pre ++ couple left (k, nk) (z, nz) ++ post) [] -> keeps_links f ->
  (exists q', upd k f q = Some q' /\ linked q' (pre ++ couple left (k, f nk) (z, nz) ++ post) [] /\ same_params q q') /\
  (exists q', upd z f q = Some q' /\ linked q' (pre ++ couple left (k, nk) (z, f nz) ++ post) [] /\ same_params q q').
Proof.
  intros L Hf. assert (forall (a : addr) m p1 p2, pre ++ couple left (k, nk) (z, nz) ++ post = p1 ++ (a, m) :: p2 ->
    exists q', upd a f q = Some q' /\ linked q' (p1 ++ (a, f m) :: p2) [] /\ same_params q q') as Hu.
  { intros a m p1 p2 E. rewrite E in L. destruct (linked_upd q _ [] (length p1) a m f L (lookup_mid _ _ _) Hf) as (q' & H1 & H2 & H3 & _).
    rewrite insert_middle in H2. by exists q'. }
  unfold couple in *. destruct left; cbn [app] in *; split.
  - by apply (Hu k nk pre ((z, nz) :: post)).
  - destruct (Hu z nz (pre ++ [(k, nk)]) post) as (q' & H1 & H2 & H3); [by rewrite <- app_assoc|]. rewrite <- app_assoc in H2. by exists q'.
  - destruct (Hu k nk (pre ++ [(z, nz)]) post) as (q' & H1 & H2 & H3); [by rewrite <- app_assoc|]. rewrite <- app_assoc in H2. by exists q'.
  - by apply (Hu z nz pre ((k, nk) :: post)).
Qed.

Lemma pair_node q pre k nk z nz post (left : bool) : linked q (pre ++ couple left (k, nk) (z, nz) ++ post) [] -> exists p s, node k q = Some (relink p s nk).
Proof.
  intros L. destruct left; cbn [couple app] in L.
  - eexists _, _. exact (linked_lookup _ _ _ _ _ _ L (lookup_mid _ _ _)).
  - replace (pre ++ (z, nz) :: (k, nk) :: post) with ((pre ++ [(z, nz)]) ++ (k, nk) :: post) in L by by rewrite <- app_assoc.
    eexists _, _. exact (linked_lookup _ _ _ _ _ _ L (lookup_mid _ _ _)).
Qed.

(** The node [k] has the listpack of both, and [z] is removed. *)
Lemma merge_finish q pre k nk z nz post lpre lpost m L (left : bool) : linked q (pre ++ couple left (k, nk) (z, nz) ++ post) [] ->
  Forall2 good pre lpre -> Forall2 good post lpost -> safe (compress q) (pre ++ couple left (k, nk) (z, nz) ++ post) -> Forall quiet pre -> Forall quiet post ->
  quiet (k, nk) -> quiet (z, nz) -> encoding nk = QUICKLIST_NODE_ENCODING_RAW -> encoding nz = QUICKLIST_NODE_ENCODING_RAW -> container nk = QUICKLIST_NODE_CONTAINER_PACKED ->
  entry nk = Bytes m -> packs m L -> L <> [] -> zlen L <= 32768 -> params_ok q ->
  exists q' pre' nk' post',
    (n ← node k q; lp ← raw n; '(c, lp) ← lpLength lp; q ← upd k (set_count c) q; q ← store_lp k (Some lp) q; q ← upd z (set_count 0) q;
     q ← __quicklistDelNode junk z q; q ← quicklistCompress junk k q; Some (q, Some k)) = Some (q', Some k) /\
    whole q' (pre' ++ (k, nk') :: post') (lpre ++ L :: lpost) [] /\ pre'.*1 = pre.*1 /\ post'.*1 = post.*1 /\ qcount q' = qcount q.
Proof.
  intros K G1 G2 Hsf Q1 Q2 Qk Qz Ek Ez Hc He Hp Hne Hl Hpar. destruct (pair_node _ _ _ _ _ _ _ _ K) as (p & s & ->). bnd.
  change (raw (relink p s nk)) with (raw nk). unfold raw. rewrite He. bnd. destruct (length_law m L Hp) as (m' & -> & Hp'). bnd.
  destruct (upd_pair _ _ _ _ _ _ _ _ (set_count (zlen L)) K) as [(q1 & -> & K1 & P1) _]; [done|]. bnd.
  unfold store_lp. bnd. rewrite (bytes_law _ _ Hp'). bnd.
  destruct (upd_pair _ _ _ _ _ _ _ _ (fun n => set_entry (Bytes m') (lp_size L) (encoding n) n) K1) as [(q2 & -> & K2 & P2) _]; [done|]. bnd.
  destruct (upd_pair _ _ _ _ _ _ _ _ (set_count 0) K2) as [_ (q3 & -> & K3 & P3)]; [done|]. bnd.
  set (nk' := set_entry _ _ _ _) in K2, K3. set (nz' := set_count 0 nz) in K3.
  assert (same_params q q3) as P by (eapply same_params_trans; [|exact P3]; by eapply same_params_trans).
  assert (good (k, nk') L) as Hgk.
  { unfold nk'. cbn [encoding set_count]. rewrite Ek. split_and!; [by apply (with_lp_stored junk m' L (set_count (zlen L) nk))|cbn; apply wrap_small; pose proof (zlen_nonneg L); lia|done]. }
  assert (safe (compress q3) (pre ++ couple left (k, nk') (z, nz') ++ post)) as Hsf'.
  { destruct P as (_ & -> & _). eapply safe_change; [exact Hsf|by destruct left|]. unfold awake. destruct left; repeat constructor; cbn; try done; try apply Qk; apply Qz. }
  assert (exists p1 p2 l1 l2, pre ++ couple left (k, nk') (z, nz') ++ post = p1 ++ (z, nz') :: p2 /\ p1 ++ p2 = pre ++ (k, nk') :: post /\ l1 ++ l2 = lpre ++ L :: lpost /\
    Forall2 good p1 l1 /\ Forall2 good p2 l2) as (p1 & p2 & l1 & l2 & E1 & E2 & E3 & F1 & F2).
  { unfold couple. destruct left; [exists (pre ++ [(k, nk')]), post, (lpre ++ [L]), lpost|exists pre, ((k, nk') :: post), lpre, (L :: lpost)]; cbn [app];
      rewrite <- ?app_assoc; split_and!; try done; [apply Forall2_app; [done|by constructor]|by constructor]. }
  assert (focus q3 p1 z nz' p2 l1 l2 []) as F.
  { split; [by rewrite <- E1|done|done|by rewrite <- E1| |by eapply params_moved]. rewrite E2. apply Forall_app. split; [done|]. by constructor; [|done]. }
  destruct (remove_node _ _ _ _ _ _ _ _ _ F) as (q4 & p1' & p2' & -> & W & R1 & R2 & _ & _ & Hq4). bnd. rewrite E3 in W.
  assert (Forall2 recoded (pre ++ (k, nk') :: post) (p1' ++ p2')) as R by (rewrite <- E2; by apply Forall2_app).
  destruct (recoded_middle _ _ _ _ _ _ R) as (pre' & nk2 & post' & E4 & R3 & R4 & R5 & Hlen). rewrite E4 in W.
  destruct (whole_focus _ _ _ _ _ _ _ _ W) as (lp1 & l & lp2 & He' & F4 & Hg4 & Hq).
  destruct (close_node _ _ _ _ _ _ _ _ _ _ F4 Hg4) as (q5 & pre5 & n5 & post5 & -> & F5 & Hg5 & _ & _ & Hq5 & P5 & R6 & R7). bnd.
  exists q5, pre5, n5, post5. rewrite He'. split_and!; [done|apply focus_whole; [done|done|apply Hq5, Hq]| | |].
  - by rewrite (recoded_addrs _ _ _ R6), (recoded_addrs _ _ _ R3).
  - by rewrite (recoded_addrs _ _ _ R7), (recoded_addrs _ _ _ R5).
  - destruct P5 as (_ & _ & ->). rewrite Hq4. destruct P as (_ & _ & ->). cbn. change (u16 0) with 0. lia.
Qed.

Lemma decompress_focus q pre a n post lpre lpost l ex : focus q pre a n post lpre lpost ex -> good (a, n) l -> quiet (a, n) ->
  exists q' n', quicklistDecompressNode junk (Some a) q = Some q' /\ focus q' pre a n' post lpre lpost ex /\ good (a, n') l /\ quiet (a, n') /\
    encoding n' = QUICKLIST_NODE_ENCODING_RAW /\ container n' = container n /\ qcount q' = qcount q.
Proof.
  intros F Hg Hq. pose proof F as [H1 H2 H3 H4 H5 H6].
  destruct (decompress_at junk q _ ex (length pre) a n l H1 (lookup_mid _ _ _) (proj1 Hg)) as (q' & n' & G1 & G2 & G3 & G4 & G5). rewrite insert_middle in G2.
  assert (quiet (a, n')) as Hq' by (eapply quiet_recoded; [exact Hq|by split]).
  exists q', n'. split_and!; try done; [|by eapply good_recoded; [exact Hg|split]|by apply G4|apply G3].
  split; try done; [|by eapply params_moved]. destruct G3 as (_ & -> & _). apply (safe_change _ pre [(a, n)] [(a, n')] post); [done|done|]. constructor; [|done]. split; [done|apply Hq'].
Qed.

Lemma put_two q pre a na b nb post fa fb ma mb : linked q (pre ++ (a, na) :: (b, nb) :: post) [] -> keeps_links fa -> keeps_links fb ->
  node a q = Some ma -> node b q = Some mb -> linked (put a (fa ma) (put b (fb mb) q)) (pre ++ (a, fa na) :: (b, fb nb) :: post) [].
Proof.
  intros L Ha Hb Hma Hmb. assert (b <> a) as Hne.
  { pose proof (l_nodup _ _ _ L) as N. rewrite fmap_app, app_nil_r in N. cbn in N. apply nodup_middle in N as (_ & N & _). intros ->. apply N. constructor. }
  destruct (upd_pair q pre a na b nb post true fb L Hb) as [_ (q1 & H1 & L1 & _)]. rewrite (upd_at _ _ _ _ Hmb) in H1. injection H1 as <-.
  destruct (upd_pair _ pre a na b (fb nb) post true fa L1 Ha) as [(q2 & H2 & L2 & _) _]. rewrite (upd_at _ _ _ ma) in H2; [by injection H2 as <-|]. by rewrite node_put_ne.
Qed.

Lemma merge_ok q pre a na b nb post lpre la lb lpost : whole q (pre ++ (a, na) :: (b, nb) :: post) (lpre ++ la :: lb :: lpost) [] -> length pre = length lpre ->
  container na = QUICKLIST_NODE_CONTAINER_PACKED -> container nb = QUICKLIST_NODE_CONTAINER_PACKED -> zlen (la ++ lb) <= 32768 -> lp_size (la ++ lb) < 2 ^ 32 - 1 ->
  exists q' k pre' nk post', _quicklistListpackMerge junk a b q = Some (q', Some k) /\ whole q' (pre' ++ (k, nk) :: post') (lpre ++ (la ++ lb) :: lpost) [] /\
    pre'.*1 = pre.*1 /\ post'.*1 = post.*1 /\ qcount q' = qcount q.
Proof.
  intros W Hlen Ca Cb Hz Hsz. unfold _quicklistListpackMerge.
  destruct (whole_focus _ _ _ _ _ _ _ _ W) as (lp1 & l1 & lp2 & He & F & Hga & Hqa).
  assert (lp1 = lpre /\ l1 = la /\ lp2 = lb :: lpost) as (-> & -> & ->).
  { pose proof (f_pre _ _ _ _ _ _ _ _ _ _ F) as Hp%Forall2_length. apply app_inj_1 in He as [<- [= <- <-]]; [done|congruence]. }
  destruct (decompress_focus _ _ _ _ _ _ _ _ _ F Hga Hqa) as (q1 & na1 & -> & F1 & Hga1 & Hqa1 & Ea1 & Ca1 & Q1). bnd.
  pose proof (focus_whole _ _ _ _ _ _ _ _ _ _ F1 Hga1 Hqa1) as W1.
  replace (pre ++ (a, na1) :: (b, nb) :: post) with ((pre ++ [(a, na1)]) ++ (b, nb) :: post) in W1 by by rewrite <- app_assoc.
  replace (lpre ++ la :: lb :: lpost) with ((lpre ++ [la]) ++ lb :: lpost) in W1 by by rewrite <- app_assoc.
  destruct (whole_focus _ _ _ _ _ _ _ _ W1) as (lp1 & l1 & lp2 & He1 & F2 & Hgb & Hqb).
  assert (lp1 = lpre ++ [la] /\ l1 = lb /\ lp2 = lpost) as (-> & -> & ->).
  { pose proof (f_pre _ _ _ _ _ _ _ _ _ _ F2) as Hp%Forall2_length. rewrite length_app in Hp. cbn in Hp. apply app_inj_1 in He1 as [<- [= <- <-]]; [done|]. rewrite length_app. cbn. lia. }
  destruct (decompress_focus _ _ _ _ _ _ _ _ _ F2 Hgb Hqb) as (q2 & nb1 & -> & F3 & Hgb1 & Hqb1 & Eb1 & Cb1 & Q2). bnd.
  pose proof F3 as [L3 G3 G4 S3 U3 P3]. rewrite <- app_assoc in L3, S3. cbn [app] in L3, S3.
  apply Forall2_app_inv_l in G3 as (x1 & x2 & G5 & G6 & Hx). apply Forall2_cons_inv_l in G6 as (x3 & x4 & _ & ->%Forall2_nil_inv_l & ->). apply app_inj_tail in Hx as [<- <-].
  apply Forall_app in U3 as [[U1 U2]%Forall_app U3].
  pose proof (linked_lookup _ _ _ _ _ _ L3 (lookup_mid _ _ _)) as Hna. rewrite Hna. bnd. rewrite (focus_node _ _ _ _ _ _ _ _ _ F3). bnd.
  change (raw (relink ?p ?s ?n)) with (raw n). destruct (packed_raw junk na1 la (proj1 Hga1) Ea1) as (ba & Ba & Pa & _ & Na); [congruence|].
  destruct (packed_raw junk nb1 lb (proj1 Hgb1) Eb1) as (bb & Bb & Pb & _ & Nb); [congruence|].
  assert (raw na1 = Some ba) as -> by (unfold raw; by rewrite Ba). assert (raw nb1 = Some bb) as -> by (unfold raw; by rewrite Bb). bnd.
  set (fe := fun (e : node_entry) (n : quicklistNode) => set_entry e (sz n) (encoding n) n).
  pose proof (fun e1 e2 => put_two q2 pre a na1 b nb1 post (fe e1) (fe e2) _ _ L3 ltac:(done) ltac:(done) Hna (focus_node _ _ _ _ _ _ _ _ _ F3)) as L4.
  assert (forall e1 e2, safe (compress q2) (pre ++ (a, fe e1 na1) :: (b, fe e2 nb1) :: post)) as S4.
  { intros e1 e2. apply (safe_change _ pre [(a, na1); (b, nb1)] [(a, fe e1 na1); (b, fe e2 nb1)] post S3 eq_refl).
    repeat constructor; cbn; try done; [apply Hqa1|apply Hqb1]. }
  destruct (merge_law ba bb la lb Pa Pb Hsz) as (m & Pm & [Hm|Hm]); rewrite Hm; bnd; cbv beta iota zeta.
  - destruct (merge_finish _ pre a (fe (Bytes m) na1) b (fe Null nb1) post lpre lpost m (la ++ lb) true (L4 (Bytes m) Null)) as (q' & pre' & nk & post' & M1 & M2 & M3 & M4 & M5);
      try done; [apply S4|cbn; congruence|intros E; by apply app_eq_nil in E as [? ?]|].
    exists q', a, pre', nk, post'. split_and!; try done. rewrite M5. cbn. congruence.
  - destruct (merge_finish _ pre b (fe (Bytes m) nb1) a (fe Null na1) post lpre lpost m (la ++ lb) false (L4 Null (Bytes m))) as (q' & pre' & nk & post' & M1 & M2 & M3 & M4 & M5);
      try done; [apply S4|cbn; congruence|intros E; by apply app_eq_nil in E as [? ?]|].
    exists q', b, pre', nk, post'. split_and!; try done. rewrite M5. cbn. congruence.
Qed.

Definition front (B : list addr) : option addr := match B with [] => None | b :: _ => Some b end.

Lemma last_of_addrs pre : last_of None pre = last (pre.*1).
Proof. destruct (last_cases pre) as [->|(p & a & n & ->)]; [done|]. rewrite chain_last_app, fmap_app. cbn [fmap list_fmap fst]. by rewrite last_snoc. Qed.
Lemma first_of_addrs post : first_of post None = front (post.*1).
Proof. by destruct post as [|[]]. Qed.

Lemma around q xs ls A c B : whole q xs ls [] -> xs.*1 = A ++ c :: B -> prev_of (Some c) q = Some (last A) /\ next_of (Some c) q = Some (front B).
Proof.
  intros W E. apply fmap_app_inv in E as (pre & r & -> & E & ->). destruct r as [|[c' n] post]; [done|]. cbn in E. injection E as -> ->.
  destruct (whole_focus _ _ _ _ _ _ _ _ W) as (lpre & l & lpost & -> & F & _). unfold prev_of, next_of. rewrite (focus_node _ _ _ _ _ _ _ _ _ F). bnd.
  cbn [prev next relink set_prev set_next]. by rewrite last_of_addrs, first_of_addrs.
Qed.

Lemma known q xs ls a : whole q xs ls [] -> (forall x, a = Some x -> x ∈ xs.*1) -> exists n, node_opt a q = Some n /\ (n = None -> a = None).
Proof.
  intros W Ha. destruct a as [a|]; [|by exists None]. specialize (Ha a eq_refl). apply list_elem_of_fmap in Ha as ([b n] & -> & Hn).
  apply list_elem_of_lookup in Hn as [i Hi]. cbn [node_opt fst]. rewrite (linked_lookup _ _ _ _ _ _ (w_linked _ _ _ _ _ W) Hi). bnd. by eexists.
Qed.

Lemma merge_none q xs ls a b : whole q xs ls [] -> (forall x, a = Some x -> x ∈ xs.*1) -> (forall x, b = Some x -> x ∈ xs.*1) -> a = None \/ b = None ->
  try_merge junk a b q = Some (q, false, None).
Proof.
  intros W Ha Hb Hn. unfold try_merge. destruct (known q xs ls a W Ha) as (na & Ena & _). destruct (known q xs ls b W Hb) as (nb & Enb & _). rewrite Ena, Enb. bnd.
  destruct Hn as [->| ->]; [injection Ena as <-; done|]. injection Enb as <-. by destruct na.
Qed.

(** A list whose contents are the same in other nodes. *)
Definition repacked (q : quicklist) (ls : list (list (list Z))) (q' : quicklist) (A : list addr) : Prop :=
  exists xs' ls', whole q' xs' ls' [] /\ concat ls' = concat ls /\ qcount q' = qcount q /\ xs'.*1 = A.

Lemma merge_step q xs ls A x y B : whole q xs ls [] -> xs.*1 = A ++ x :: y :: B -> weight (concat ls) < 2 ^ 32 ->
  exists q' r keep, try_merge junk (Some x) (Some y) q = Some (q', r, keep) /\
    if (r : bool) then exists k, keep = Some k /\ repacked q ls q' (A ++ k :: B) else q' = q.
Proof.
  intros W E Hw. apply fmap_app_inv in E as (pre & r & -> & E & ->). destruct r as [|[x' nx] [|[y' ny] post]]; [done|done|]. cbn in E. injection E as -> -> ->.
  destruct (whole_focus _ _ _ _ _ _ _ _ W) as (lpre & lx & lpost' & -> & F & Hgx & Hqx).
  pose proof (f_post _ _ _ _ _ _ _ _ _ _ F) as Hp. apply Forall2_cons_inv_l in Hp as (ly & lpost & Hgy & Hpost & ->).
  unfold try_merge. cbn [node_opt]. rewrite (focus_node _ _ _ _ _ _ _ _ _ F). bnd.
  destruct (node_neighbours _ _ _ _ _ _ (f_linked _ _ _ _ _ _ _ _ _ _ F)) as [_ Hy]. cbn [first_of node_opt] in Hy. rewrite Hy. bnd.
  change (_quicklistNodeAllowMerge (Some (relink ?p ?s nx)) (Some (relink ?p' ?s' ny)) (fill q)) with (_quicklistNodeAllowMerge (Some nx) (Some ny) (fill q)).
  destruct (_quicklistNodeAllowMerge _ _ _) eqn:Em; [|by exists q, false, None].
  assert (lp_size lx + lp_size ly - 11 < 2 ^ 32) as Hsz.
  { rewrite weight_concat in Hw. cbn [concat] in Hw. rewrite weight_app in Hw. pose proof (weight_pos (concat lpre)). pose proof (weight_pos (concat lpost)).
    pose proof (size_bounds lx (stored_elem _ _ _ (proj1 Hgx))). pose proof (size_bounds ly (stored_elem _ _ _ (proj1 Hgy))).
    pose proof (zlen_nonneg (concat lpre)). pose proof (zlen_nonneg (concat lpost)). lia. }
  destruct (allow_merge nx ny lx ly (fill q) (proj1 Hgx) (proj1 Hgy) Hsz Em) as (C1 & C2 & C3 & C4).
  destruct (merge_ok q pre x' nx y' ny post lpre lx ly lpost W) as (q' & k & pre' & nk & post' & -> & W' & A1 & A2 & Q1); try done.
  { exact (Forall2_length _ _ _ (f_pre _ _ _ _ _ _ _ _ _ _ F)). }
  bnd. exists q', true, (Some k). split; [done|]. exists k. split; [done|]. eexists _, _. split; [exact W'|]. split_and!; [|done|by rewrite fmap_app, A1; cbn; rewrite A2].
  rewrite !concat_app. cbn. by rewrite <- !app_assoc.
Qed.

Lemma repacked_refl q xs ls : whole q xs ls [] -> repacked q ls q (xs.*1).
Proof. intros W. exists xs, ls. by split_and!. Qed.

Lemma merge_left q xs ls A c B : whole q xs ls [] -> weight (concat ls) < 2 ^ 32 -> xs.*1 = A ++ c :: B ->
  exists pp q1 r keep A1, prev_of (last A) q = Some pp /\ try_merge junk pp (last A) q = Some (q1, r, keep) /\ repacked q ls q1 (A1 ++ c :: B).
Proof.
  intros W Hw E. destruct A as [|p A' _] using rev_ind.
  { exists None, q, false, None, []. split_and!; [done|by eapply merge_none; [done|..|left]|]. rewrite <- E. by apply repacked_refl. }
  rewrite last_snoc. assert (xs.*1 = A' ++ p :: c :: B) as E' by by rewrite E, <- app_assoc. destruct (around q xs ls A' p (c :: B) W E') as [Hpp _].
  destruct A' as [|pp A'' _] using rev_ind.
  { exists None, q, false, None, ([] ++ [p]). split_and!; [done| |rewrite <- E; by apply repacked_refl]. eapply (merge_none _ xs ls); try done; [|by left]. intros x [= <-]. rewrite E. constructor. }
  rewrite last_snoc in Hpp. destruct (merge_step q xs ls A'' pp p (c :: B) W) as (q1 & r & keep & H1 & H2); [by rewrite E', <- app_assoc|done|].
  destruct r.
  - destruct H2 as (k & -> & H2). exists (Some pp), q1, true, (Some k), (A'' ++ [k]). split_and!; try done. by rewrite <- app_assoc.
  - subst q1. exists (Some pp), q, false, keep, ((A'' ++ [pp]) ++ [p]). split_and!; try done. rewrite <- E. by apply repacked_refl.
Qed.

Lemma merge_right q xs ls A c B nn : whole q xs ls [] -> weight (concat ls) < 2 ^ 32 -> xs.*1 = A ++ c :: B -> nn = match B with _ :: b :: _ => Some b | _ => None end ->
  exists q1 r keep B1, try_merge junk (front B) nn q = Some (q1, r, keep) /\ repacked q ls q1 (A ++ c :: B1).
Proof.
  intros W Hw E ->. pose proof (repacked_refl q xs ls W) as R. rewrite E in R. destruct B as [|n [|m B]]; cbn [front].
  - exists q, false, None, []. split; [|done]. by eapply merge_none; [done|..|left].
  - exists q, false, None, [n]. split; [|done]. eapply (merge_none _ xs ls); try done; [|by right]. intros x [= <-]. rewrite E. apply elem_of_app. right. do 2 constructor.
  - destruct (merge_step q xs ls (A ++ [c]) n m B W) as (q1 & r & keep & H1 & H2); [by rewrite E, <- app_assoc|done|]. destruct r.
    + destruct H2 as (k & -> & H2). exists q1, true, (Some k), (k :: B). split; [done|]. by rewrite <- app_assoc in H2.
    + subst q1. by exists q, false, keep, (n :: m :: B).
Qed.

(** The centre is merged with the node before it, and the result with the
    node after it. *)
Lemma merge_centre q xs ls A c B : whole q xs ls [] -> weight (concat ls) < 2 ^ 32 -> xs.*1 = A ++ c :: B ->
  exists q1 r keep target A1, try_merge junk (last A) (Some c) q = Some (q1, r, keep) /\ (if (r : bool) then keep else Some c) = Some target /\
    repacked q ls q1 (A1 ++ target :: B).
Proof.
  intros W Hw E. pose proof (repacked_refl q xs ls W) as R. rewrite E in R. destruct A as [|p A' _] using rev_ind.
  { exists q, false, None, c, []. split_and!; [|done|done]. eapply (merge_none _ xs ls); try done; [|by left]. intros x [= <-]. rewrite E. constructor. }
  rewrite last_snoc. destruct (merge_step q xs ls A' p c B W) as (q1 & r & keep & H1 & H2); [by rewrite E, <- app_assoc|done|]. destruct r.
  - destruct H2 as (k & -> & H2). by exists q1, true, (Some k), k, A'.
  - subst q1. by exists q, false, keep, c, (A' ++ [p]).
Qed.

Lemma merge_last q xs ls A c B : whole q xs ls [] -> weight (concat ls) < 2 ^ 32 -> xs.*1 = A ++ c :: B ->
  exists q1 r keep C, try_merge junk (Some c) (front B) q = Some (q1, r, keep) /\ repacked q ls q1 C.
Proof.
  intros W Hw E. pose proof (repacked_refl q xs ls W) as R. destruct B as [|n B]; cbn [front].
  - exists q, false, None, (xs.*1). split; [|done]. eapply (merge_none _ xs ls); try done; [|by right]. intros x [= <-]. rewrite E. apply elem_of_app. right. constructor.
  - destruct (merge_step q xs ls A c n B W E Hw) as (q1 & r & keep & H1 & H2). destruct r; [|by subst q1; exists q, false, keep, (xs.*1)].
    destruct H2 as (k & -> & H2). by exists q1, true, (Some k), (A ++ k :: B).
Qed.

Lemma merge_nodes_ok q xs ls c : whole q xs ls [] -> weight (concat ls) < 2 ^ 32 -> c ∈ xs.*1 ->
  exists q' A, _quicklistMergeNodes junk c q = Some q' /\ repacked q ls q' A.
Proof.
  intros W Hw Hc. apply list_elem_of_split in Hc as (A & B & E). unfold _quicklistMergeNodes. destruct (around q xs ls A c B W E) as [-> ->]. bnd.
  destruct (merge_left q xs ls A c B W Hw E) as (pp & q1 & r1 & k1 & A1 & -> & H1 & (xs1 & ls1 & W1 & C1 & Q1 & E1)). bnd.
  assert (exists nn, next_of (front B) q = Some nn /\ nn = match B with _ :: b :: _ => Some b | _ => None end) as (nn & -> & Hnn).
  { destruct B as [|n B]; [by exists None|]. destruct (around q xs ls (A ++ [c]) n B W) as [_ Hn]; [by rewrite E, <- app_assoc|]. cbn [front]. rewrite Hn. eexists. split; [done|]. by destruct B. }
  bnd. rewrite H1. bnd.
  destruct (merge_right q1 xs1 ls1 A1 c B nn W1) as (q2 & r2 & k2 & B1 & -> & (xs2 & ls2 & W2 & C2 & Q2 & E2)); [congruence|done|done|]. bnd.
  destruct (around q2 xs2 ls2 A1 c B1 W2 E2) as [-> _]. bnd.
  destruct (merge_centre q2 xs2 ls2 A1 c B1 W2) as (q3 & r3 & k3 & tg & A3 & -> & Htg & (xs3 & ls3 & W3 & C3 & Q3 & E3)); [congruence|done|]. bnd. rewrite Htg. bnd.
  destruct (around q3 xs3 ls3 A3 tg B1 W3 E3) as [_ ->]. bnd.
  destruct (merge_last q3 xs3 ls3 A3 tg B1 W3) as (q4 & r4 & k4 & D & -> & (xs4 & ls4 & W4 & C4 & Q4 & E4)); [congruence|done|]. bnd.
  exists q4, D. split; [done|]. exists xs4, ls4. split_and!; [done|congruence|congruence|done].
Qed.

(** ** One more element in a node *)

#[local] Instance true_stable : Stable junk (fun _ => True).
Proof. intros xs ys _ _. apply Forall_true. done. Qed.

Lemma add_ok {Q : cell -> Prop} {SQ : Stable junk Q} q pre a n post lpre lpost ex l l' f : focusQ Q q pre a n post lpre lpost ex -> good (a, n) l -> container n = QUICKLIST_NODE_CONTAINER_PACKED ->
  dont_compress n = false -> (forall lp, packs lp l -> exists lp', f lp = Some (Some lp') /\ packs lp' l') -> zlen l' = zlen l + 1 -> zlen l' <= 32768 ->
  exists q' pre' n' post', add_to_node junk a f q = Some q' /\ focusQ Q q' pre' a n' post' lpre lpost ex /\ good (a, n') l' /\ quiet (a, n') /\ qcount q' = qcount q /\
    Forall2 recoded pre pre' /\ Forall2 recoded post post'.
Proof.
  intros F Hg Hc Hd Hf H1 H2. unfold add_to_node. pose proof Hg as (Hst & Hcn & Hl). cbn in Hcn.
  destruct (open_node junk q pre a n post lpre lpost l ex F Hg) as (q1 & n1 & -> & F1 & Hg1 & He1 & [D1 D2 D3 D4 D5 D6] & (_ & _ & P1)). bnd.
  destruct (on_lp_ok junk q1 pre a n1 post lpre lpost ex f l l' F1 (proj1 Hg1) He1) as (q2 & lp' & -> & F2 & Hp & (_ & _ & P2)); [congruence|done|]. bnd.
  assert (l' <> []) as Hne by (intros ->; rewrite zlen_nil in H1; pose proof (zlen_nonneg l); lia).
  destruct (count_ok junk q2 pre a _ post lpre lpost ex l' (fun c => c + 1) F2) as (q3 & G1 & F3 & Hg3 & (_ & _ & P3)); [apply with_lp_stored; [done|done|congruence]|done|cbn; lia|].
  unfold incr_count. rewrite G1. bnd.
  destruct (reclose_node junk q3 pre a _ post lpre lpost l' ex F3 Hg3) as (q4 & pre' & n' & post' & G2 & F4 & Hg4 & _ & _ & Hq & (_ & _ & P4) & R1 & R2).
  exists q4, pre', n', post'. split_and!; try done; [apply Hq; cbn; congruence|congruence].
Qed.

(** The node before or after the one at the edge takes the element, or a new
    node does. *)
Lemma insert_edge q pre a n post lpre lpost l s (after : bool) : focus q pre a n post lpre lpost [] -> good (a, n) l -> dont_compress n = false -> elem s -> weight [s] < 2 ^ 32 ->
  let nn := match post with [] => None | (b, m) :: post' => Some (relink (Some a) (first_of post' None) m) end in
  let np := match last pre with None => None | Some (b, m) => Some (relink (last_of None (removelast pre)) (Some a) m) end in
  let avail := _quicklistNodeAllowInsert packed_threshold (if after then nn else np) (fill q) (zlen s) in
  exists q' pre' n' post' lpre' lpost',
    (if avail then
       b ← (if after then first_of post None else last_of None pre);
       q ← add_to_node junk b (fun lp => if after then lpPrepend lp s else lpAppend lp s) q;
       quicklistRecompressOnly junk a q
     else new ← node_of_value s; let '(b, q) := alloc (set_count 1 new) q in __quicklistInsertNode junk (Some a) b after q) = Some q' /\
    focus q' pre' a n' post' lpre' lpost' [] /\ good (a, n') l /\ quiet (a, n') /\ qcount q' = qcount q /\ container n' = container n /\
    (if after then lpre' = lpre /\ lpost' <> [] /\ concat lpost' = s :: concat lpost else lpost' = lpost /\ concat lpre' = concat lpre ++ [s]).
Proof.
  intros F Hg Hd Hs Hw. cbv zeta. destruct (_quicklistNodeAllowInsert _ _ _ _) eqn:Ea; cycle 1.
  - destruct (node_of_value_ok s Hs Hw) as (lp & Hp & ->). bnd. destruct (new_stored junk lp [s] Hp) as (Hu & Hst & _); [done|].
    set (new := set_count 1 _). destruct (alloc new q) as [b q0] eqn:Eal. pose proof (focus_alloc _ _ _ _ _ _ _ _ _ new F) as F0. rewrite Eal in F0. cbn [fst snd] in F0.
    destruct (beside_one q0 pre a n post lpre lpost l b new [s] [] after F0 Hg) as (q' & pre' & n' & post' & G1 & G2 & G3 & [[] _] & G5 & (_ & _ & G6)); [done|by apply set_count_good|].
    exists q', pre', n', post', (on_left after lpre [[s]]), (on_right after [[s]] lpost). split_and!; try done; [auto| |].
    + rewrite G6. unfold alloc in Eal. by injection Eal as _ <-.
    + unfold on_left, on_right. destruct after; [done|]. split; [done|]. by rewrite concat_app.
  - pose proof F as [L G1 G2 S U P]. apply Forall_app in U as [U1 U2]. destruct after.
    + destruct post as [|[b m] post]; [done|]. apply Forall2_cons_inv_l in G2 as (lb & lpost2 & Hgb & G2 & ->). apply Forall_cons in U2 as [Ub U2].
      destruct (allow_insert junk packed_threshold m lb (fill q) s b Hgb Hs Hw Ea) as (A1 & A2 & A3 & A4). cbn [first_of]. bnd.
      assert (focusQ (fun _ => True) q (pre ++ [(a, n)]) b m post (lpre ++ [l]) lpost2 []) as F1.
      { split; rewrite <- ?app_assoc; try done; [by apply Forall2_app; [|constructor]|by apply Forall_true]. }
      destruct (add_ok q _ b m post _ _ [] lb (s :: lb) (fun lp => lpPrepend lp s) F1 Hgb A1 (proj2 Ub)) as (q1 & p1 & m' & post' & -> & F2 & Hgb' & Hqb & Q1 & R1 & R2);
        [intros lp Hp; by apply prepend_law|rewrite zlen_cons; lia|rewrite zlen_cons; lia|]. bnd.
      apply Forall2_app_inv_l in R1 as (pre' & l2 & R1 & R3 & ->). apply Forall2_cons_inv_l in R3 as ([a' n'] & l3 & [Ha' Hn'] & ->%Forall2_nil_inv_l & ->). cbn in Ha', Hn'. subst a'.
      destruct F2 as [L2 _ _ S2 _ P2]. rewrite <- app_assoc in L2, S2. cbn [app] in L2, S2.
      assert (focus q1 pre' a n' ((b, m') :: post') lpre ((s :: lb) :: lpost2) []) as F3.
      { destruct (recoded_goods _ _ _ _ _ _ _ _ pre' ((b, m) :: post) F R1) as (K1 & _ & K3 & _); [done|]. split; try done.
        - constructor; [done|]. by eapply goods_recoded.
        - apply Forall_app. split; [done|]. constructor; [done|]. by eapply quiets_recoded; [|exact R2]. }
      assert (good (a, n') l) as Hg' by (by eapply good_recoded; [exact Hg|split]).
      destruct (reclose_node junk q1 _ _ _ _ _ _ l [] F3 Hg') as (q2 & pre2 & n2 & post2 & G3 & F4 & Hg4 & _ & [[] _] & Hq & (_ & _ & Q2) & _).
      destruct Hn' as [[] _]. exists q2, pre2, n2, post2, lpre, ((s :: lb) :: lpost2). split_and!; try done; [apply Hq; congruence|congruence|congruence].
    + destruct (last_cases pre) as [->|(pp & b & m & ->)]; [done|]. apply Forall2_app_inv_l in G1 as (lpp & l2 & G1 & G3 & ->).
      apply Forall2_cons_inv_l in G3 as (lb & l3 & Hgb & ->%Forall2_nil_inv_l & ->). apply Forall_app in U1 as [U1 [Ub _]%Forall_cons]. rewrite last_snoc, removelast_last in Ea.
      destruct (allow_insert junk packed_threshold m lb (fill q) s b Hgb Hs Hw Ea) as (A1 & A2 & A3 & A4). rewrite chain_last_app. cbn [last_of foldl fst]. bnd.
      assert (focusQ (fun _ => True) q pp b m ((a, n) :: post) lpp (l :: lpost) []) as F1.
      { rewrite <- app_assoc in L, S. cbn [app] in L, S. split; try done; [by constructor|by apply Forall_true]. }
      assert (zlen (lb ++ [s]) = zlen lb + 1) as Hz by by rewrite zlen_app.
      destruct (add_ok q _ b m _ _ _ [] lb (lb ++ [s]) (fun lp => lpAppend lp s) F1 Hgb A1 (proj2 Ub)) as (q1 & pp' & m' & p2 & -> & F2 & Hgb' & Hqb & Q1 & R1 & R2);
        [intros lp Hp; apply append_law; [done|done|rewrite size_app; rewrite size_cons in A4; lia]|done|lia|]. bnd.
      apply Forall2_cons_inv_l in R2 as ([a' n'] & post' & [Ha' Hn'] & R2 & ->). cbn in Ha', Hn'. subst a'.
      destruct F2 as [L2 _ _ S2 _ P2].
      assert (focus q1 (pp' ++ [(b, m')]) a n' post' (lpp ++ [lb ++ [s]]) lpost []) as F3.
      { split; rewrite <- ?app_assoc; try done.
        - apply Forall2_app; [by eapply goods_recoded|by constructor].
        - by eapply goods_recoded.
        - apply Forall_app. split; [by eapply quiets_recoded; [|exact R1]|]. constructor; [done|]. by eapply quiets_recoded; [|exact R2]. }
      assert (good (a, n') l) as Hg' by (by eapply good_recoded; [exact Hg|split]).
      destruct (reclose_node junk q1 _ _ _ _ _ _ l [] F3 Hg') as (q2 & pre2 & n2 & post2 & G3 & F4 & Hg4 & _ & [[] _] & Hq & (_ & _ & Q2) & _).
      destruct Hn' as [[] _]. exists q2, pre2, n2, post2, (lpp ++ [lb ++ [s]]), lpost. split_and!; try done; [apply Hq; congruence|congruence|congruence|].
      rewrite !concat_app. cbn. by rewrite !app_nil_r, app_assoc.
Qed.

(** The same for a node that is not yet in the list. *)
Lemma focus_loose q pre a n post lpre lpost b m ex f : focus q pre a n post lpre lpost ((b, m) :: ex) ->
  exists q', upd b f q = Some q' /\ focus q' pre a n post lpre lpost ((b, f m) :: ex) /\ same_params q q'.
Proof.
  intros [H1 H2 H3 H4 H5 H6]. destruct (loose_upd q _ b m ex f H1) as (q' & G1 & G2 & G3). exists q'. split_and!; [done| |done].
  split; try done; [|by eapply params_moved]. destruct G3 as (_ & -> & _). done.
Qed.

Lemma loose_add q pre a n post lpre lpost b m ex k k' g : focus q pre a n post lpre lpost ((b, m) :: ex) -> good (b, m) k -> unlinked m ->
  container m = QUICKLIST_NODE_CONTAINER_PACKED -> (forall lp, packs lp k -> exists lp', g lp = Some (Some lp') /\ packs lp' k') -> zlen k' = zlen k + 1 -> zlen k' <= 32768 ->
  exists q1 q2 m', on_lp b g q = Some q1 /\ incr_count b q1 = Some q2 /\ focus q2 pre a n post lpre lpost ((b, m') :: ex) /\ good (b, m') k' /\ unlinked m' /\ qcount q2 = qcount q.
Proof.
  intros F (Hst & Hc & Hl) (U1 & U2 & U3 & U4) Hcn Hg H1 H2. cbn in Hst, Hc. destruct (packed_raw junk m k Hst U2 Hcn) as (lp & B1 & B2 & _). destruct (Hg lp B2) as (lp' & B3 & B4).
  unfold on_lp. assert (node b q = Some m) as -> by (apply (l_ex _ _ _ (f_linked _ _ _ _ _ _ _ _ _ _ F)); constructor). bnd. unfold raw. rewrite B1. bnd. rewrite B3. bnd.
  unfold store_lp. bnd. rewrite (bytes_law _ _ B4). bnd.
  destruct (focus_loose q pre a n post lpre lpost b m ex (fun n => set_entry (Bytes lp') (lp_size k') (encoding n) n) F) as (q1 & -> & F1 & (_ & _ & P1)).
  destruct (focus_loose q1 pre a n post lpre lpost b _ ex (fun n => set_count (count n + 1) n) F1) as (q2 & G2 & F2 & (_ & _ & P2)).
  assert (k' <> []) as Hne by (intros ->; rewrite zlen_nil in H1; pose proof (zlen_nonneg k); lia).
  eexists q1, q2, _. split_and!; [done|done|exact F2| | |congruence].
  - cbn [encoding count set_entry]. rewrite U2, Hc, <- H1. apply set_count_good; [|done]. by apply (with_lp_stored junk lp' k' m).
  - split_and!; try done. by rewrite <- U1.
Qed.

(** The list with one more element. *)
Definition with_elem (after : bool) (i : nat) (s : list Z) (l : list (list Z)) : list (list Z) :=
  let j := if after then S i else i in take j l ++ s :: drop j l.

Lemma with_elem_concat (lpre lpost : list (list (list Z))) l o s (after : bool) : (o < length l)%nat ->
  with_elem after (length (concat lpre) + o) s (concat (lpre ++ l :: lpost)) = concat lpre ++ with_elem after o s l ++ concat lpost.
Proof.
  intros Ho. unfold with_elem. rewrite concat_app. cbn. set (j := if after then S o else o).
  assert ((if after then S (length (concat lpre) + o) else length (concat lpre) + o) = length (concat lpre) + j)%nat as -> by (unfold j; destruct after; lia).
  assert (j <= length l)%nat by (unfold j; destruct after; lia).
  rewrite take_app_add, drop_app_add, take_app_le, drop_app_le by done. by rewrite <- !app_assoc.
Qed.

Lemma kept_cut (l : list (list Z)) o s (after : bool) : with_elem after o s l = if after then kept after o l ++ s :: cut after o l else cut after o l ++ s :: kept after o l.
Proof. unfold with_elem, kept, cut. by destruct after. Qed.

(** What a cut takes from a node weighs no more than the node. *)
Lemma weight_cut after o l : weight (cut after o l) <= weight l.
Proof.
  unfold cut. pose proof (weight_app (take (if after then S o else o) l) (drop (if after then S o else o) l)) as E. rewrite take_drop in E.
  pose proof (weight_pos (take (if after then S o else o) l)). pose proof (weight_pos (drop (if after then S o else o) l)).
  pose proof (zlen_nonneg (take (if after then S o else o) l)). pose proof (zlen_nonneg (drop (if after then S o else o) l)). destruct after; lia.
Qed.

Lemma weight_inside (lpre lpost : list (list (list Z))) l s : weight l + weight [s] - 7 <= weight (s :: concat (lpre ++ l :: lpost)).
Proof.
  rewrite (weight_cons s (concat _)), weight_concat, (weight_cons s []). change (weight []) with 7. pose proof (weight_pos (concat lpre)). pose proof (weight_pos (concat lpost)).
  pose proof (zlen_nonneg (concat lpre)). pose proof (zlen_nonneg (concat lpost)). lia.
Qed.

(** An insertion inside a full node, which is split. *)
Lemma insert_inside q pre a n post lpre lpost l o off s (after : bool) : focus q pre a n post lpre lpost [] -> good (a, n) l ->
  dont_compress n = false -> QL_NODE_IS_PLAIN n = false -> (o < length l)%nat -> off = Z.of_nat o \/ off = Z.of_nat o - zlen l ->
  elem s -> weight (s :: concat (lpre ++ l :: lpost)) < 2 ^ 32 -> (if after then (S o =? length l)%nat else (o =? 0)%nat) = false ->
  exists q', (q ← quicklistDecompressNodeForUse junk a q;
      '(q, new) ← _quicklistSplitNode a off after q;
      let '(b, q) := alloc new q in
      q ← on_lp b (fun lp => if after then lpPrepend lp s else lpAppend lp s) q;
      q ← incr_count b q;
      q ← __quicklistInsertNode junk (Some a) b after q;
      _quicklistMergeNodes junk a q) = Some q' /\ qcount q' = qcount q /\
    exists xs ls, whole q' xs ls [] /\ concat ls = concat lpre ++ with_elem after o s l ++ concat lpost.
Proof.
  intros F Hg Hd Ep Ho Hoff Hs Hw Ee. pose proof Hg as (Hst & Hc & Hl). cbn in Hst, Hc.
  assert (cut after o l <> [] /\ zlen (cut after o l) + 1 <= 32768) as [Hcut Hcz].
  { unfold cut, zlen in *. split.
    - intros E%(f_equal length). destruct after; apply Nat.eqb_neq in Ee; rewrite ?length_take, ?length_drop in E; cbn [length] in E; lia.
    - destruct after; apply Nat.eqb_neq in Ee; rewrite ?length_take, ?length_drop; lia. }
  assert (weight (s :: cut after o l) < 2 ^ 32) as Hwc
    by (pose proof (weight_cut after o l); pose proof (weight_inside lpre lpost l s) as E; rewrite (weight_cons s []) in E; change (weight []) with 7 in E; rewrite weight_cons; lia).
  destruct (open_node junk q pre a n post lpre lpost l [] F Hg) as (q1 & n1 & G1 & F1 & Hg1 & He1 & [D1 D2 D3 D4 D5 D6] & (_ & _ & P1)).
  destruct (split_ok q1 pre a n1 post lpre lpost [] l o off after F1 Hg1 He1) as (q2 & n2 & new & G2 & F2 & Hg2 & He2 & Hc2 & Hr2 & Hd2 & Hun & Hgn & Hcnn & (_ & _ & P2));
    [rewrite D3; by eapply is_plain_false|done|done|done|].
  destruct (alloc new q2) as [b q3] eqn:Eal. pose proof (focus_alloc _ _ _ _ _ _ _ _ _ new F2) as F3. rewrite Eal in F3. cbn [fst snd] in F3.
  set (k' := if after then s :: cut after o l else cut after o l ++ [s]).
  assert (zlen k' = zlen (cut after o l) + 1) as Hk' by (unfold k'; destruct after; rewrite ?zlen_app, ?zlen_cons, ?zlen_nil; lia).
  assert (lp_size (s :: cut after o l) < 2 ^ 32) as Hsz.
  { assert (Forall elem (s :: cut after o l)) as He' by (constructor; [done|]; exact (stored_elem _ _ _ (proj1 (Hgn b)))). pose proof (size_bounds _ He'). lia. }
  destruct (loose_add q3 pre a n2 post lpre lpost b new [] (cut after o l) k' (fun lp => if after then lpPrepend lp s else lpAppend lp s) F3 (Hgn b) Hun Hcnn)
    as (q4 & q5 & m' & G3 & G4 & F5 & Hg5 & Hu5 & P5); [|done|lia|].
  { intros lp Hlp. unfold k'. destruct after; [by apply prepend_law|]. apply append_law; [done|done|]. rewrite size_cons in Hsz. rewrite size_app. lia. }
  destruct (beside_one q5 pre a n2 post lpre lpost (kept after o l) b m' k' [] after F5 Hg2 Hu5 Hg5) as (q6 & pre6 & n6 & post6 & G6 & F6 & Hg6 & _ & Hq6 & (_ & _ & P6)).
  pose proof (focus_whole _ _ _ _ _ _ _ _ _ _ F6 Hg6 (Hq6 ltac:(congruence))) as W6.
  assert (concat (on_left after lpre [k'] ++ kept after o l :: on_right after [k'] lpost) = concat lpre ++ with_elem after o s l ++ concat lpost) as Hcc.
  { rewrite kept_cut. unfold k', on_left, on_right. destruct after; rewrite !concat_app; cbn; rewrite <- ?app_assoc; cbn; rewrite <- ?app_assoc; done. }
  destruct (merge_nodes_ok q6 _ _ a W6) as (q7 & A & G7 & (xs7 & ls7 & W7 & C7 & P7 & _)).
  { rewrite Hcc. rewrite !weight_app. unfold with_elem. rewrite weight_app, weight_cons.
    pose proof (weight_app (take (if after then S o else o) l) (drop (if after then S o else o) l)) as Hwt. rewrite take_drop in Hwt.
    rewrite weight_cons, weight_concat in Hw. lia. }
  { rewrite fmap_app. apply elem_of_app. right. cbn. constructor. }
  assert (qcount q3 = qcount q2) as P3 by (unfold alloc in Eal; by injection Eal as _ <-).
  exists q7. split_and!; [|congruence|exists xs7, ls7; split; [done|by rewrite C7]].
  rewrite G1; bnd; rewrite G2; bnd; rewrite Eal, G3; bnd; rewrite G4; bnd; rewrite G6; bnd; rewrite G7; done.
Qed.

Lemma insert_small q pre a n post lpre lpost l o off it p v s (after : bool) : focus q pre a n post lpre lpost [] -> good (a, n) l ->
  encoding n = QUICKLIST_NODE_ENCODING_RAW -> dont_compress n = false -> (o < length l)%nat -> off = Z.of_nat o \/ off = Z.of_nat o - zlen l ->
  (QL_NODE_IS_PLAIN n = false -> p = lp_ptr l o) -> elem s -> weight (s :: concat (lpre ++ l :: lpost)) < 2 ^ 32 -> isLargeElement packed_threshold (zlen s) = false ->
  exists q', _quicklistInsert packed_threshold junk it (mkEntry (Some a) (Some p) v off) s after q = Some (q', resetIterator it) /\ qcount q' = qcount q + 1 /\
    (exists xs ls, whole q' xs ls [] /\ concat ls = concat lpre ++ with_elem after o s l ++ concat lpost) /\
    (QL_NODE_IS_PLAIN n = true -> exists pre' n' post' lpre' lpost', focus q' pre' a n' post' lpre' lpost' [] /\ good (a, n') l /\
       (if after then lpre' = lpre /\ concat lpost' = s :: concat lpost else lpost' = lpost /\ concat lpre' = concat lpre ++ [s])).
Proof.
  intros F Hg He Hd Ho Hoff Hp Hs Hw HL. pose proof Hg as (Hst & Hc & Hl). cbn in Hst, Hc.
  assert (weight [s] < 2 ^ 32) as Hw1 by (pose proof (weight_ge (concat (lpre ++ l :: lpost)) s); lia).
  unfold _quicklistInsert. cbn [e_node e_offset e_zi]. rewrite (focus_node _ _ _ _ _ _ _ _ _ F). bnd. cbn [prev next count relink set_prev set_next].
  destruct (node_neighbours q pre a n post [] (f_linked _ _ _ _ _ _ _ _ _ _ F)) as [-> ->]. bnd. cbv zeta. rewrite HL.
  destruct (edge_tests n l o off Hc Ho Hoff) as [-> ->].
  change (_quicklistNodeAllowInsert packed_threshold (Some (relink ?x ?y n)) ?f ?k) with (_quicklistNodeAllowInsert packed_threshold (Some n) f k).
  destruct (_quicklistNodeAllowInsert packed_threshold (Some n) (fill q) (zlen s)) eqn:Ea.
  - (* the node takes it *)
    destruct (allow_insert junk packed_threshold n l (fill q) s a Hg Hs Hw1 Ea) as (A1 & A2 & A3 & A4).
    assert (QL_NODE_IS_PLAIN n = false) as Epl by (unfold QL_NODE_IS_PLAIN; by rewrite A1).
    assert (zlen (with_elem after o s l) = zlen l + 1) as Hz.
    { unfold with_elem, zlen. rewrite length_app. cbn [length]. rewrite length_take, length_drop. destruct after; lia. }
    destruct (add_ok q pre a n post lpre lpost [] l (with_elem after o s l) (fun lp => lpInsertString lp s p (if after then LP_AFTER else LP_BEFORE)) F Hg A1 Hd)
      as (q' & pre' & n' & post' & G1 & F' & Hg' & Hq & Q1 & _); [|done|lia|].
    { intros lp Hlp. rewrite (Hp Epl). destruct (insert_law lp l o s after Hlp Hs Ho A4) as (lp' & K1 & K2). exists lp'. split; [done|]. unfold with_elem. by destruct after. }
    exists (set_qcount (qcount q' + 1) q'). split_and!; [|cbn; lia| |by rewrite Epl].
    + destruct after; cbn [negb andb]; rewrite G1; done.
    + eexists _, _. split; [apply whole_qcount, focus_whole; done|]. by rewrite concat_app.
  - cbn [negb andb]. destruct (if after then (S o =? length l)%nat else (o =? 0)%nat) eqn:Ee.
    + (* at an edge of the node *)
      destruct (insert_edge q pre a n post lpre lpost l s after F Hg Hd Hs Hw1) as (q' & pre' & n' & post' & lpre' & lpost' & G1 & F' & Hg' & Hq & Q1 & _ & Hc').
      assert (with_elem after o s l = if after then l ++ [s] else s :: l) as Hwe.
      { unfold with_elem. destruct after; [apply Nat.eqb_eq in Ee; rewrite Ee, take_ge, drop_ge by lia|apply Nat.eqb_eq in Ee as ->]; done. }
      exists (set_qcount (qcount q' + 1) q'). split_and!; [|cbn; lia| |].
      * destruct after; cbn [negb andb] in *; rewrite Ee in *; cbn [negb andb orb] in *.
        -- match type of G1 with (if ?b then _ else _) = _ => destruct b end; cbn [negb andb orb] in *; rewrite G1; done.
        -- match type of G1 with (if ?b then _ else _) = _ => destruct b end; cbn [negb andb orb] in *; rewrite G1; done.
      * eexists _, _. split; [apply whole_qcount, focus_whole; done|]. rewrite concat_app, Hwe. cbn. destruct after; destruct Hc' as [-> Hc']; [destruct Hc' as [_ ->]; by rewrite <- app_assoc|].
        rewrite Hc', <- app_assoc. done.
      * intros _. exists pre', n', post', lpre', lpost'. split_and!; [by apply focus_qcount|done|]. by destruct after; destruct Hc' as [-> Hc']; [destruct Hc'|].
    + (* in the middle *)
      assert (QL_NODE_IS_PLAIN n = false) as Ep.
      { destruct (QL_NODE_IS_PLAIN n) eqn:Ep; [|done]. destruct (plain_raw junk n l Hst He Ep) as (b & _ & -> & _). cbn in Ho. assert (o = 0%nat) as -> by lia. by destruct after. }
      destruct (insert_inside q pre a n post lpre lpost l o off s after F Hg Hd Ep Ho Hoff Hs Hw Ee) as (q7 & G7 & P7 & xs7 & ls7 & W7 & C7).
      exists (set_qcount (qcount q7 + 1) q7). split_and!; [|cbn; by rewrite P7|exists xs7, ls7; split; [by apply whole_qcount|done]|by rewrite Ep].
      destruct after; cbn [negb andb orb]; rewrite Ee; cbn [negb andb orb]; rewrite ?andb_false_r; cbn [negb andb orb]; by rewrite G7.
Qed.

Lemma insert_ok q it ls dir i v s (after : bool) : at_elem junk q it ls dir i -> elem s -> weight (s :: concat ls) < 2 ^ 32 ->
  exists q1 it' q' xs ls', _quicklistInsert packed_threshold junk it (mkEntry (current it) (zi it) v (offset it)) s after q = Some (q1, it') /\
    quicklistReleaseIterator junk it' q1 = Some q' /\ whole q' xs ls' [] /\ concat ls' = with_elem after i s (concat ls) /\ qcount q' = qcount q + 1.
Proof.
  intros (pre & a & n & post & lpre & l & lpost & o & p & off & -> & F & Hg & He & Hd & -> & Ho & -> & Hp & Hoff) Hs Hw. cbn [current zi offset].
  rewrite with_elem_concat by done. destruct (isLargeElement packed_threshold (zlen s)) eqn:HL.
  - destruct (insert_large q pre a n post lpre lpost l o off (mkIter (Some a) (Some p) off dir) p v s after F Hg He Ho Hoff Hs) as
      (q1 & pre' & n' & post' & lpre' & lpost' & G1 & F1 & Hg1 & Hin & _ & Hd1 & _ & Hq & Q1); [pose proof (weight_ge (concat (lpre ++ l :: lpost)) s); lia|done|].
    destruct (close_node junk q1 _ _ _ _ _ _ _ [] F1 Hg1) as (q' & pre2 & n2 & post2 & G2 & F2 & Hg2 & _ & _ & Hq2 & (_ & _ & Q2) & _).
    exists q1, (mkIter (Some a) (Some p) off dir), q', (pre2 ++ (a, n2) :: post2), (lpre' ++ kept after o l :: lpost'). split_and!; try done; [apply focus_whole; [done|done|apply Hq2; congruence]| |congruence].
    rewrite concat_app, kept_cut. cbn [concat]. unfold inserted, kept, cut in *. destruct after.
    + destruct Hin as (-> & _ & ->). by rewrite <- !app_assoc.
    + destruct Hin as (-> & ->). by rewrite <- !app_assoc.
  - destruct (insert_small q pre a n post lpre lpost l o off (mkIter (Some a) (Some p) off dir) p v s after F Hg He Hd Ho Hoff Hp Hs Hw HL) as (q' & G1 & Q1 & (xs & ls' & W & C) & _).
    by exists q', (resetIterator (mkIter (Some a) (Some p) off dir)), q', xs, ls'.
Qed.

(** ** Replacement *)

Lemma insert_concat (lpre lpost : list (list (list Z))) l o s : (o < length l)%nat ->
  <[(length (concat lpre) + o)%nat := s]> (concat (lpre ++ l :: lpost)) = concat lpre ++ <[o := s]> l ++ concat lpost.
Proof. intros Ho. rewrite concat_app. cbn. rewrite insert_app_r. by rewrite insert_app_l. Qed.

(** A listpack node: the element is replaced there. *)
Lemma replace_packed q pre a n post lpre lpost l o s : focus q pre a n post lpre lpost [] -> good (a, n) l -> encoding n = QUICKLIST_NODE_ENCODING_RAW -> dont_compress n = false ->
  (o < length l)%nat -> QL_NODE_IS_PLAIN n = false -> elem s -> weight (s :: concat (lpre ++ l :: lpost)) < 2 ^ 32 ->
  exists q' xs ls, (lp ← raw n; r ← lpReplace lp (lp_ptr l o) s; q ← store_lp a (fst <$> r) q; quicklistCompress junk a q) = Some q' /\
    whole q' xs ls [] /\ concat ls = concat lpre ++ <[o := s]> l ++ concat lpost /\ qcount q' = qcount q.
Proof.
  intros F Hg He Hd Ho Ep Hs Hw. pose proof Hg as (Hst & Hc & Hl). cbn in Hst, Hc. pose proof (is_plain_false junk n l Hst Ep) as Hcn.
  destruct (packed_raw junk n l Hst He Hcn) as (lp & B1 & B2 & _ & Hne). unfold raw. rewrite B1. bnd.
  assert (Forall elem (<[o := s]> l)) as Hel by (apply Forall_insert; [by eapply packs_elem|done]).
  assert (weight (<[o := s]> l) <= weight (s :: l)) as Hwl.
  { rewrite insert_take_drop by done. rewrite weight_app, !weight_cons. pose proof (weight_app (take o l) (drop o l)) as E. rewrite take_drop in E.
    destruct (drop o l) as [|x r] eqn:Ed; [apply (f_equal length) in Ed; rewrite length_drop in Ed; cbn [length] in Ed; lia|].
    assert (drop (S o) l = r) as -> by (rewrite <- Nat.add_1_r, <- drop_drop, Ed; done). rewrite weight_cons in E. pose proof (zlen_nonneg x). lia. }
  destruct (replace_law lp l o s B2 Hs Ho) as (lp' & p' & B3 & B4).
  { pose proof (size_bounds _ Hel). rewrite weight_cons in Hw, Hwl. rewrite weight_concat in Hw. pose proof (weight_pos (concat lpre)). pose proof (weight_pos (concat lpost)).
    pose proof (zlen_nonneg (concat lpre)). pose proof (zlen_nonneg (concat lpost)). lia. }
  rewrite B3. bnd. cbn [fmap option_fmap option_map fst].
  destruct (store_ok junk q pre a n post lpre lpost [] lp' _ F B4 He) as (q1 & -> & F1 & (_ & _ & P1)). bnd.
  assert (<[o := s]> l <> []) as Hne' by (intros E%(f_equal length); rewrite length_insert in E; cbn [length] in E; lia).
  assert (good (a, with_lp lp' (<[o := s]> l) n) (<[o := s]> l)) as Hg1.
  { unfold zlen in *. split_and!; [by apply with_lp_stored|cbn; unfold zlen; by rewrite length_insert|unfold zlen; by rewrite length_insert]. }
  destruct (close_node junk q1 _ _ _ _ _ _ _ [] F1 Hg1) as (q' & pre2 & n2 & post2 & G2 & F2 & Hg2 & _ & _ & Hq2 & (_ & _ & Q2) & _).
  eexists q', _, _. split_and!; [done|apply focus_whole; [done|done|by apply Hq2]| |congruence]. by rewrite concat_app.
Qed.

(** A plain node gets another large element. *)
Lemma replace_plain q pre a n post lpre lpost l s : focus q pre a n post lpre lpost [] -> good (a, n) l -> encoding n = QUICKLIST_NODE_ENCODING_RAW -> dont_compress n = false ->
  QL_NODE_IS_PLAIN n = true -> elem s -> zlen s < 2 ^ 32 ->
  exists q' xs ls, (q ← upd a (set_entry (Bytes s) (zlen s) (encoding n)) q; quicklistCompress junk a q) = Some q' /\
    whole q' xs ls [] /\ concat ls = concat lpre ++ [s] ++ concat lpost /\ qcount q' = qcount q.
Proof.
  intros F (Hst & Hc & Hl) He Hd Ep Hs Hz. cbn in Hst, Hc. destruct (plain_raw junk n l Hst He Ep) as (b & B1 & -> & B2).
  destruct (upd_focus junk q pre a n post lpre lpost [] (set_entry (Bytes s) (zlen s) (encoding n)) F) as (q1 & -> & F1 & (_ & _ & P1)); [done|done|by left|]. bnd.
  assert (good (a, set_entry (Bytes s) (zlen s) (encoding n) n) [s]) as Hg1.
  { split_and!; [|exact Hc|done]. exists s. split_and!; [by left| |apply zlen_nonneg|done]. right. unfold QL_NODE_IS_PLAIN in Ep. apply Z.eqb_eq in Ep. by split_and!. }
  destruct (close_node junk q1 _ _ _ _ _ _ _ [] F1 Hg1) as (q' & pre2 & n2 & post2 & G2 & F2 & Hg2 & _ & _ & Hq2 & (_ & _ & Q2) & _).
  eexists q', _, _. split_and!; [done|apply focus_whole; [done|done|by apply Hq2]| |congruence]. by rewrite concat_app.
Qed.

(** A large element takes the place of one of a listpack: the node is split
    after the old element, which is then the last of the node. *)
Lemma drop_last q pre a n post lpre lpost l o s x : focus q pre a n post lpre lpost [] -> good (a, n) (take (S o) l) -> encoding n = QUICKLIST_NODE_ENCODING_RAW ->
  container n = QUICKLIST_NODE_CONTAINER_PACKED -> l !! o = Some x -> lpost <> [] -> concat lpost = s ->
  exists q' xs ls, (n ← node a q;
    if count n =? 1 then __quicklistDelNode junk a q
    else
      lp ← raw n;
      p ← lpSeek lp (-1);
      '(q, _, _) ← quicklistDelIndex junk a p q;
      q ← upd a (set_dont_compress false) q;
      q ← quicklistCompress junk a q;
      n ← node a q;
      b ← next n;
      quicklistCompress junk b q) = Some q' /\ whole q' xs ls [] /\ concat ls = concat lpre ++ take o l ++ s /\ qcount q' = qcount q - 1.
Proof.
  intros F Hg He Hcn Hx Hne <-. pose proof Hg as (Hst & Hc & Hl). cbn in Hst, Hc. pose proof (lookup_lt_Some _ _ _ Hx) as Ho.
  assert (take (S o) l = take o l ++ [x]) as Ht by by apply take_S_r. assert (length (take (S o) l) = S o) as Hlen by (rewrite length_take; lia).
  rewrite (focus_node _ _ _ _ _ _ _ _ _ F). bnd. cbn [count relink set_prev set_next]. rewrite Hc. unfold zlen. rewrite Hlen.
  destruct (_ =? 1) eqn:E1; bool_hyps.
  - destruct (remove_node _ _ _ _ _ _ _ _ _ F) as (q' & pre' & post' & G1 & W & _ & _ & _ & _ & Hq). eexists q', _, _. split_and!; [done|done| |].
    + assert (o = 0%nat) as -> by lia. by rewrite concat_app.
    + rewrite Hq, Hc. unfold zlen. rewrite Hlen. lia.
  - destruct (packed_raw junk n _ Hst He Hcn) as (lp & B1 & B2 & _). change (raw (relink _ _ n)) with (raw n). unfold raw. rewrite B1. bnd.
    rewrite (seek_law lp _ (-1) B2). replace (-1) with (Z.of_nat o - zlen (take (S o) l)) by (unfold zlen; rewrite Hlen; lia).
    rewrite (proj2 (locate_at (take (S o) l) o ltac:(lia))). cbn [fmap option_fmap option_map]. bnd.
    destruct (del_index_ok junk q pre a n post lpre lpost [] _ o (Some (lp_ptr (take (S o) l) o)) F Hg He) as (q1 & gone & p' & -> & Q1 & H1); [lia|done|]. bnd.
    destruct gone; [destruct H1 as [H1 _]; lia|]. destruct H1 as (n1 & F1 & Hg1 & He1 & Hr1 & Hd1 & Hc1).
    assert (delete o (take (S o) l) = take o l) as Hdel.
    { rewrite Ht, delete_take_drop. rewrite take_app_length' by (rewrite length_take; lia). rewrite drop_ge by (rewrite length_app, length_take; cbn; lia). by rewrite app_nil_r. }
    rewrite Hdel in Hg1.
    destruct (upd_focus junk q1 pre a n1 post lpre lpost [] (set_dont_compress false) F1) as (q2 & -> & F2 & (_ & _ & P2)); [done|done|by left|]. bnd.
    assert (good (a, set_dont_compress false n1) (take o l)) as Hg2.
    { destruct Hg1 as (K1 & K2 & K3). split_and!; [|done|done]. destruct K1 as (b & Hb & Hsh & Hz). exists b. by split_and!; try apply Hz. }
    destruct (close_node junk q2 _ _ _ _ _ _ _ [] F2 Hg2) as (q3 & pre3 & n3 & post3 & -> & F3 & Hg3 & _ & _ & Hq3 & (_ & _ & P3) & _). bnd.
    rewrite (focus_node _ _ _ _ _ _ _ _ _ F3). bnd. cbn [next relink set_prev set_next]. pose proof (f_post _ _ _ _ _ _ _ _ _ _ F3) as Hpost.
    destruct post3 as [|[b m] post3]; [by apply Forall2_nil_inv_l in Hpost as ->|]. cbn [first_of]. bnd.
    pose proof (focus_whole _ _ _ _ _ _ _ _ _ _ F3 Hg3 (Hq3 eq_refl)) as W3. change ((a, n3) :: (b, m) :: post3) with ([(a, n3)] ++ (b, m) :: post3) in W3. rewrite app_assoc in W3.
    destruct (whole_focus _ _ _ _ _ _ _ _ W3) as (lp1 & l1 & lp2 & E3 & F4 & Hg4 & Hq4).
    destruct (close_node junk q3 _ _ _ _ _ _ _ [] F4 Hg4) as (q4 & pre4 & n4 & post4 & G4 & F5 & Hg5 & _ & _ & Hq5 & (_ & _ & P4) & _).
    eexists q4, _, _. split_and!; [exact G4|apply focus_whole; [done|done|apply Hq5, Hq4]| |congruence]. rewrite <- E3, concat_app. done.
Qed.

Lemma replace_ok q it ls dir i v s : at_elem junk q it ls dir i -> elem s -> weight (s :: concat ls) < 2 ^ 32 ->
  exists q' it' xs ls', quicklistReplaceEntry packed_threshold junk it (mkEntry (current it) (zi it) v (offset it)) s q = Some (q', it') /\ current it' = None /\
    whole q' xs ls' [] /\ concat ls' = <[i := s]> (concat ls) /\ qcount q' = qcount q.
Proof.
  intros (pre & a & n & post & lpre & l & lpost & o & p & off & -> & F & Hg & He & Hd & -> & Ho & -> & Hp & Hoff) Hs Hw. cbn [current zi offset].
  rewrite insert_concat by done. set (it := mkIter (Some a) (Some p) off dir). assert (zlen s < 2 ^ 32) as Hz by (pose proof (weight_ge (concat (lpre ++ l :: lpost)) s); lia).
  unfold quicklistReplaceEntry. cbn [e_node e_zi]. bnd. rewrite (focus_node _ _ _ _ _ _ _ _ _ F). bnd. change (QL_NODE_IS_PLAIN (relink _ _ n)) with (QL_NODE_IS_PLAIN n).
  change (raw (relink _ _ n)) with (raw n). cbn [encoding relink set_prev set_next].
  assert (forall (c : option quicklist) , (exists q' xs ls', c = Some q' /\ whole q' xs ls' [] /\ concat ls' = concat lpre ++ <[o := s]> l ++ concat lpost /\ qcount q' = qcount q) ->
    exists q' it' xs ls', (q ← c; Some (q, resetIterator it)) = Some (q', it') /\ current it' = None /\ whole q' xs ls' [] /\ concat ls' = concat lpre ++ <[o := s]> l ++ concat lpost /\
      qcount q' = qcount q) as Hfin.
  { intros c (q' & xs & ls' & -> & H). by exists q', (resetIterator it), xs, ls'. }
  apply Hfin. clear Hfin. pose proof Hg as (Hst & Hc & Hl). cbn in Hst, Hc.
  destruct (QL_NODE_IS_PLAIN n) eqn:Ep; [destruct (plain_raw junk n l Hst He Ep) as (b & _ & -> & _)|]; destruct (isLargeElement packed_threshold (zlen s)) eqn:HL; cbn [negb andb].
  - destruct (replace_plain q pre a n post lpre lpost [b] s F Hg He Hd Ep Hs Hz) as (q' & xs & ls' & G1 & W & C & Q1). exists q', xs, ls'. split_and!; try done.
    cbn in Ho. assert (o = 0%nat) as -> by lia. done.
  - destruct (insert_small q pre a n post lpre lpost [b] o off it p v s true F Hg He Hd Ho Hoff) as (q1 & G1 & Q1 & _ & Hpl); [by rewrite Ep|done|done|done|].
    unfold quicklistInsertAfter. rewrite G1. bnd. destruct (Hpl Ep) as (pre' & n' & post' & lpre' & lpost' & F1 & Hg1 & -> & C1).
    destruct (remove_node _ _ _ _ _ _ _ _ _ F1) as (q' & p1 & p2 & G2 & W & _ & _ & _ & _ & Q2). eexists q', _, _. split_and!; [done|exact W| |].
    + rewrite concat_app, C1. cbn in Ho. assert (o = 0%nat) as -> by lia. done.
    + rewrite Q2, Q1. destruct Hg1 as (_ & Hc1 & _). cbn in Hc1. rewrite Hc1. change (zlen [b]) with 1. lia.
  - destruct (upd_focus junk q pre a n post lpre lpost [] (set_dont_compress true) F) as (q1 & -> & F1 & (_ & _ & P1)); [done|done|by left|]. bnd.
    assert (good (a, set_dont_compress true n) l) as Hg1 by (split_and!; [|done|done]; destruct Hst as (b & Hb & Hsh & Hzz); exists b; by split_and!; try apply Hzz).
    destruct (insert_large q1 pre a _ post lpre lpost l o off it p v s true F1 Hg1 He Ho Hoff Hs Hz HL) as (q2 & pre' & n' & post' & lpre' & lpost' & G2 & F2 & Hg2 & Hin & Hcn & Hd2 & He2 & _ & Q2).
    unfold quicklistInsertAfter. rewrite G2. bnd. destruct Hin as (-> & Hne & C2). destruct (lookup_lt_is_Some_2 l o Ho) as [x Hx].
    destruct (drop_last q2 pre' a n' post' lpre lpost' l o (s :: drop (S o) l ++ concat lpost) x F2 Hg2 (He2 eq_refl)) as (q3 & xs & ls' & G3 & W3 & C3 & Q3); [by rewrite Hcn; eapply is_plain_false|done|done|done|].
    exists q3, xs, ls'. split_and!; [exact G3|done| |rewrite Q3, Q2, P1; lia]. rewrite C3, insert_take_drop by done. by rewrite <- app_assoc.
  - rewrite (Hp eq_refl). destruct (replace_packed q pre a n post lpre lpost l o s F Hg He Hd Ho Ep Hs Hw) as (q' & xs & ls' & G1 & W & C & Q1). by exists q', xs, ls'.
Qed.

End insert.
End QuicklistInsert.
