(* ===== verification/QuicklistRange.v ===== *)
(** * Deleting a range of a quicklist

    quicklistDelRange removes whole nodes and parts of nodes. *)
From stdpp Require Import base list gmap.
From S2P Require Import Prelude Util ListpackRun Quicklist QuicklistLinks QuicklistNodes QuicklistOps.

Module QuicklistRange.
Import Quicklist QuicklistLinks QuicklistNodes QuicklistOps.

Section range.

Context {PK : Packed} {PL : PackedLaws} {CP : Compression} {CL : CompressionLaws}.
Context (junk : Z).

Local Notation recoded := (QuicklistNodes.recoded junk).
Local Notation good := (QuicklistOps.good junk).
Local Notation whole := (QuicklistOps.whole junk).
Local Notation focus := (QuicklistOps.focusQ junk quiet).

(** A list without a range. *)
Definition without (o e : nat) (l : list (list Z)) : list (list Z) := take o l ++ drop (o + e) l.

Lemma zlen_without o e l : (o + e <= length l)%nat -> zlen (without o e l) = zlen l - Z.of_nat e.
Proof. intros Ho. unfold without, zlen. rewrite length_app, length_take, length_drop. lia. Qed.

(** Part of a node. *)
Lemma del_part q pre a n post lpre lpost l o off del : focus q pre a n post lpre lpost [] -> good (a, n) l -> quiet (a, n) -> QL_NODE_IS_PLAIN n = false ->
  (o < length l)%nat -> off = Z.of_nat o \/ off = Z.of_nat o - zlen l -> (o + del <= length l)%nat ->
  exists q', (q ← quicklistDecompressNodeForUse junk a q;
    n' ← node a q; lp ← raw n';
    lp ← lpDeleteRange lp off (Z.of_nat del);
    q ← store_lp a (Some lp) q;
    q ← upd a (fun n => set_count (count n - Z.of_nat del) n) q;
    let q := set_qcount (qcount q - Z.of_nat del) q in
    n' ← node a q;
    if count n' =? 0 then __quicklistDelNode junk a q else quicklistRecompressOnly junk a q) = Some q' /\ qcount q' = qcount q - Z.of_nat del /\
    exists pre' post', Forall2 recoded post post' /\ Forall2 good pre' (if decide (without o del l = []) then lpre else lpre ++ [without o del l]) /\
      whole q' (pre' ++ post') ((if decide (without o del l = []) then lpre else lpre ++ [without o del l]) ++ lpost) [].
Proof.
  intros F Hg Hq Ep Ho Hoff Hdel. pose proof Hg as (Hst & Hc & Hl). cbn in Hst, Hc. pose proof (is_plain_false junk n l Hst Ep) as Hcn.
  destruct (open_node junk q pre a n post lpre lpost l [] F Hg) as (q1 & n1 & -> & F1 & Hg1 & He1 & [D1 D2 D3 D4 D5 D6] & (_ & _ & P1)). bnd.
  rewrite (focus_node _ _ _ _ _ _ _ _ _ F1). bnd. change (raw (relink _ _ n1)) with (raw n1).
  destruct (packed_raw junk n1 l (proj1 Hg1) He1) as (lp & B1 & B2 & _); [congruence|]. unfold raw. rewrite B1. bnd.
  unfold zlen in Hl. destruct (delete_range_law lp l off (Z.of_nat del) B2) as (lp' & -> & B3); [unfold in_s, zlen in *; lia|lia|]. bnd.
  assert (ListpackRun.locate l off = Some o) as Hloc by (destruct (locate_at l o Ho) as [L1 L2]; destruct Hoff as [->| ->]; done). rewrite Hloc, Nat2Z.id in B3. fold (without o del l) in B3.
  destruct (store_ok junk q1 pre a n1 post lpre lpost [] lp' _ F1 B3 He1) as (q2 & -> & F2 & (_ & _ & P2)). bnd.
  destruct (upd_focus junk q2 pre a _ post lpre lpost [] (fun n => set_count (count n - Z.of_nat del) n) F2) as (q3 & -> & F3 & (_ & _ & P3)); [done|done|by left|]. bnd. cbv zeta.
  apply (focus_qcount junk _ _ _ _ _ _ _ _ (qcount q3 - Z.of_nat del)) in F3. rewrite (focus_node _ _ _ _ _ _ _ _ _ F3). bnd.
  pose proof (zlen_without o del l Hdel) as Hz. cbn [count relink set_prev set_next set_count with_lp set_entry]. rewrite D1, Hc, <- Hz.
  rewrite (wrap_small 16) by (rewrite Hz; unfold zlen; lia). destruct (_ =? 0) eqn:E0; bool_hyps.
  - assert (without o del l = []) as Hnil by (clear -E0; destruct (without o del l) as [|x r]; [done|]; rewrite zlen_cons in E0; pose proof (zlen_nonneg r); lia).
    destruct (remove_node _ _ _ _ _ _ _ _ _ F3) as (q' & pre' & post' & -> & W & R1 & R2 & _ & _ & Hqc). exists q'. split; [done|].
    split; [rewrite Hqc; cbn [count set_count with_lp set_entry qcount set_qcount]; rewrite D1, Hc, <- Hz, (wrap_small 16) by (rewrite Hz; unfold zlen; lia); lia|].
    exists pre', post'. rewrite decide_True by done. split_and!; [done| |done]. by eapply goods_recoded; [apply F3|].
  - assert (without o del l <> []) as Hne by (intros E; by rewrite E in E0).
    assert (good (a, set_count (count (with_lp lp' (without o del l) n1) - Z.of_nat del) (with_lp lp' (without o del l) n1)) (without o del l)) as Hg3.
    { cbn [count with_lp set_entry]. rewrite D1, Hc, <- Hz. apply set_count_good; [apply with_lp_stored; [done|done|congruence]|rewrite Hz; unfold zlen; lia]. }
    destruct (reclose_node junk _ _ _ _ _ _ _ _ [] F3 Hg3) as (q' & pre' & n' & post' & -> & F4 & Hg4 & _ & _ & Hq4 & (_ & _ & P4) & R1 & R2). exists q'. split; [done|].
    split; [rewrite P4; cbn [qcount set_qcount]; lia|]. exists (pre' ++ [(a, n')]), post'. rewrite decide_False by done. split; [done|]. split.
    + apply Forall2_app; [apply F4|by constructor].
    + rewrite <- !app_assoc. apply focus_whole; [done|done|]. apply Hq4. cbn. rewrite D4. apply Hq.
Qed.

Lemma without_app o e l R : (o <= length l)%nat -> without o e (l ++ R) = without o (e `min` (length l - o)) l ++ without 0 (e - (e `min` (length l - o))) R.
Proof.
  intros Ho. unfold without. rewrite take_app_le by done. rewrite take_0, Nat.add_0_l, <- app_assoc. cbn [app]. f_equal.
  destruct (decide (e <= length l - o)%nat) as [Hle|Hgt].
  - rewrite Nat.min_l, drop_app_le by lia. by rewrite Nat.sub_diag, drop_0.
  - rewrite Nat.min_r, (drop_ge l), drop_app_ge by lia. cbn [app]. f_equal. lia.
Qed.

(** How much of a node is deleted. *)
Lemma del_amount n (l : list (list Z)) o off e : count n = zlen l -> (o < length l)%nat -> off = Z.of_nat o \/ off = Z.of_nat o - zlen l -> (0 < e)%nat ->
  (if (off =? 0) && (count n <=? Z.of_nat e) then (count n, true)
   else if (0 <=? off) && (count n <=? Z.of_nat e + off) then (count n - off, false)
   else if off <? 0 then (if Z.of_nat e <? - off then Z.of_nat e else - off, false)
   else (Z.of_nat e, false)) = (Z.of_nat (e `min` (length l - o)), (o =? 0)%nat && (off =? 0) && (length l <=? e)%nat).
Proof.
  intros -> Ho Hoff He. unfold zlen in *. destruct Hoff as [->| ->].
  - destruct (decide (o = 0)%nat) as [->|Hne].
    + rewrite Z.eqb_refl, Nat.eqb_refl. cbn [andb]. destruct (decide (length l <= e)%nat).
      * replace (_ <=? _) with true by lia. replace (length l <=? e)%nat with true by (symmetry; by apply Nat.leb_le). f_equal. lia.
      * replace (Z.of_nat (length l) <=? Z.of_nat e) with false by lia. replace (length l <=? e)%nat with false by (symmetry; apply Nat.leb_gt; lia).
        replace (_ && _) with false by lia. replace (_ <? 0) with false by lia. f_equal. lia.
    + replace (Z.of_nat o =? 0) with false by lia. rewrite andb_false_r. cbn [andb]. replace (0 <=? Z.of_nat o) with true by lia. cbn [andb].
      destruct (_ <=? _) eqn:E; bool_hyps; [f_equal; lia|]. replace (_ <? 0) with false by lia. f_equal. lia.
  - replace (Z.of_nat o - Z.of_nat (length l) =? 0) with false by lia. rewrite andb_false_r. cbn [andb]. replace (0 <=? _) with false by lia. cbn [andb].
    replace (_ <? 0) with true by lia. destruct (_ <? _) eqn:E; bool_hyps; f_equal; lia.
Qed.

Lemma del_loop_ok : forall fuel q pre post lpre lpost o off e, whole q (pre ++ post) (lpre ++ lpost) [] -> Forall2 good pre lpre -> (length post <= fuel)%nat ->
  (e = 0%nat \/ exists l rest, lpost = l :: rest /\ (o < length l)%nat /\ (off = Z.of_nat o \/ off = Z.of_nat o - zlen l)) -> (o + e <= length (concat lpost))%nat ->
  exists q' xs ls, del_range_loop junk fuel (first_of post None) off (Z.of_nat e) q = Some q' /\ whole q' xs ls [] /\
    concat ls = concat lpre ++ without o e (concat lpost) /\ qcount q' = qcount q - Z.of_nat e.
Proof.
  induction fuel as [|fuel IH]; intros q pre post lpre lpost o off e W Hpre Hf Hpos Hle.
  all: destruct (decide (e = 0%nat)) as [->|He0]; [eexists q, _, _; split_and!; [done|done|rewrite concat_app; unfold without; by rewrite Nat.add_0_r, take_drop|lia]|].
  all: destruct Hpos as [->|(l & rest & -> & Ho & Hoff)]; [done|].
  all: pose proof (w_good _ _ _ _ _ W) as Hg; apply Forall2_app_inv in Hg as [_ Hg2]; [|exact (Forall2_length _ _ _ Hpre)].
  all: apply Forall2_cons_inv_r in Hg2 as ([a n] & post' & Hgn & Hpost & ->); cbn [length] in Hf; try lia.
  destruct (whole_focus _ _ _ _ _ _ _ _ W) as (lp1 & l1 & lp2 & Heq & F & Hg & Hq).
  assert (lp1 = lpre /\ l1 = l /\ lp2 = rest) as (-> & -> & ->).
  { pose proof (f_pre _ _ _ _ _ _ _ _ _ _ F) as Hp%Forall2_length. apply Forall2_length in Hpre. apply app_inj_1 in Heq as [<- [= <- <-]]; [done|congruence]. }
  cbn [del_range_loop first_of]. replace (Z.of_nat e =? 0) with false by lia. bnd. rewrite (focus_node _ _ _ _ _ _ _ _ _ F). bnd. cbn [count next relink set_prev set_next].
  pose proof Hg as (Hst & Hc & Hl). cbn in Hst, Hc. rewrite (del_amount n l o off e Hc Ho Hoff) by lia. set (del := (e `min` (length l - o))%nat).
  change (QL_NODE_IS_PLAIN (relink _ _ n)) with (QL_NODE_IS_PLAIN n). cbv beta iota.
  (* one node *)
  assert (exists q1 pre1 post1 lpre1, (if (o =? 0)%nat && (off =? 0) && (length l <=? e)%nat || QL_NODE_IS_PLAIN n then __quicklistDelNode junk a q
     else q ← quicklistDecompressNodeForUse junk a q; n' ← node a q; lp ← raw n'; lp ← lpDeleteRange lp off (Z.of_nat del); q ← store_lp a (Some lp) q;
       q ← upd a (fun n => set_count (count n - Z.of_nat del) n) q; let q := set_qcount (qcount q - Z.of_nat del) q in
       n' ← node a q; if count n' =? 0 then __quicklistDelNode junk a q else quicklistRecompressOnly junk a q) = Some q1 /\ qcount q1 = qcount q - Z.of_nat del /\
     Forall2 recoded post' post1 /\ Forall2 good pre1 lpre1 /\ concat lpre1 = concat lpre ++ without o del l /\ whole q1 (pre1 ++ post1) (lpre1 ++ rest) [])
    as (q1 & pre1 & post1 & lpre1 & G0 & Q1 & R1 & Hg1 & C1 & W1).
  { destruct (_ || _) eqn:Ed.
    - assert (o = 0%nat /\ del = length l) as [-> Hdel].
      { apply orb_true_iff in Ed as [Ed|Ed].
        - apply andb_prop in Ed as [[E1 _]%andb_prop E2]. apply Nat.eqb_eq in E1. apply Nat.leb_le in E2. unfold del. lia.
        - assert (length l = 1%nat) as Hl1.
          { destruct Hst as (b & _ & [(Hcn & _)|(_ & -> & _)] & _); [|done]. unfold QL_NODE_IS_PLAIN in Ed. by rewrite Hcn in Ed. }
          unfold del. lia. }
      destruct (remove_node _ _ _ _ _ _ _ _ _ F) as (q1 & pre1 & post1 & G1 & W1 & R1 & R2 & _ & _ & Q1). exists q1, pre1, post1, lpre. split_and!; try done.
      + rewrite Q1, Hc, Hdel. done.
      + by eapply goods_recoded.
      + unfold without. rewrite Hdel, Nat.add_0_l, drop_all. by rewrite app_nil_r.
    - apply orb_false_iff in Ed as [_ Ep].
      destruct (del_part q pre a n post' lpre rest l o off del F Hg Hq Ep Ho Hoff) as (q1 & G1 & Q1 & pre1 & post1 & R1 & Hg1 & W1); [unfold del; lia|].
      eexists q1, pre1, post1, _. split_and!; [exact G1|done|done|exact Hg1| |exact W1].
      destruct (decide _) as [E|_]; [by rewrite E, app_nil_r|]. rewrite concat_app. cbn. by rewrite app_nil_r. }
  cbv zeta in G0. rewrite G0. bnd. replace (Z.of_nat e - Z.of_nat del) with (Z.of_nat (e - del)) by (unfold del; lia).
  rewrite <- (first_of_fmap post1 post' None (recoded_addrs _ _ _ R1)).
  cbn [concat] in Hle |- *. rewrite length_app in Hle.
  destruct (IH q1 pre1 post1 lpre1 rest 0%nat 0 (e - del)%nat W1 Hg1) as (q' & xs & ls & G2 & W2 & C2 & Q2).
  - rewrite <- (Forall2_length _ _ _ R1). lia.
  - destruct (decide (e - del = 0)%nat) as [|Hne]; [by left|right]. destruct rest as [|l2 rest]; [cbn in Hle; unfold del in *; lia|]. exists l2, rest. split_and!; [done| |by left].
    apply Forall2_cons_inv_r in Hpost as ([b m] & p2 & Hg2 & _ & _). pose proof (stored_ne _ _ _ (proj1 Hg2)). destruct l2; [done|cbn; lia].
  - unfold del. lia.
  - exists q', xs, ls. split_and!; [done|done| |rewrite Q2, Q1; unfold del; lia]. rewrite C2, C1, <- app_assoc. f_equal. symmetry. apply without_app. lia.
Qed.

Lemma del_range_ok q xs ls start cnt : whole q xs ls [] -> qcount q = zlen (concat ls) -> zlen (concat ls) < 2 ^ 32 -> in_s 64 start -> in_s 64 cnt ->
  exists q' b xs' ls', quicklistDelRange junk start cnt q = Some (q', b) /\ whole q' xs' ls' [] /\ qcount q' = zlen (concat ls') /\
    (b, concat ls') = match ListpackRun.locate (concat ls) start with
                      | Some i => if cnt <=? 0 then (false, concat ls) else (true, without i (Z.to_nat cnt `min` (length (concat ls) - i)) (concat ls))
                      | None => (false, concat ls)
                      end.
Proof.
  intros W Hc Hb Hs Hcnt. unfold quicklistDelRange. unfold in_s in Hs, Hcnt. destruct (cnt <=? 0) eqn:E0; bool_hyps.
  { exists q, false, xs, ls. split_and!; try done. by destruct (ListpackRun.locate _ _). }
  cbv zeta. set (extent := if _ && _ then _ else _). pose proof (iterator_at_ok junk q xs ls AL_START_TAIL start W Hc Hb Hs) as Hi.
  destruct (ListpackRun.locate (concat ls) start) as [i|] eqn:El; cycle 1.
  { rewrite Hi. bnd. by exists q, false, xs, ls. }
  destruct Hi as (pre & a & n & post & lpre & l & lpost & o & -> & -> & F & Hg & Hq & -> & Ho & ->). bnd.
  set (L := concat (lpre ++ l :: lpost)) in *. set (i := (length (concat lpre) + o)%nat) in *.
  assert (length L = length (concat lpre) + length (concat (l :: lpost)))%nat as HL by (unfold L; by rewrite concat_app, length_app).
  assert (length (concat (l :: lpost)) = length l + length (concat lpost))%nat as HL2 by (cbn; by rewrite length_app).
  assert (extent = Z.of_nat (Z.to_nat cnt `min` (length L - i))) as ->.
  { unfold extent. clear extent. rewrite Hc. unfold ListpackRun.locate, Listpack.Listpack.norm_index in El. destruct (_ && _) eqn:E in El; [|done]. injection El as El. bool_hyps. unfold zlen in *.
    destruct (decide (0 <= start)) as [Hpos|Hneg].
    - replace (start <? 0) with false in * by lia. replace (0 <=? start) with true by lia. cbn [andb]. rewrite (wrap_small 64) by lia. destruct (_ <? cnt) eqn:E1; bool_hyps; lia.
    - replace (start <? 0) with true in * by lia. replace (0 <=? start) with false by lia. cbn [andb]. destruct (_ <? cnt) eqn:E1; bool_hyps; lia. }
  unfold quicklistReleaseIterator. cbn [current offset].
  destruct (close_node junk q pre a n post lpre lpost l [] F Hg) as (q1 & pre1 & n1 & post1 & -> & F1 & Hg1 & Hl1 & _ & Hq1 & (_ & _ & Q1) & _). bnd.
  pose proof (focus_whole _ _ _ _ _ _ _ _ _ _ F1 Hg1 (Hq1 (proj2 Hq))) as W1. pose proof (w_linked _ _ _ _ _ W1) as K1.
  destruct (del_loop_ok (Z.to_nat (len q1)) q1 pre1 ((a, n1) :: post1) lpre (l :: lpost) o (if start <? 0 then Z.of_nat o - zlen l else Z.of_nat o) (Z.to_nat cnt `min` (length L - i)) W1)
    as (q' & xs' & ls' & G2 & W2 & C2 & Q2).
  - apply F1.
  - rewrite (l_len _ _ _ K1). unfold zlen. rewrite Nat2Z.id, length_app. lia.
  - right. exists l, lpost. split_and!; [done|done|]. destruct (start <? 0); auto.
  - unfold i. lia.
  - cbn [first_of] in G2. rewrite G2. bnd. exists q', true, xs', ls'. split_and!; try done.
    + rewrite Q2, Q1, Hc, C2. fold L. rewrite zlen_app, zlen_without by (unfold i; lia). unfold zlen. lia.
    + f_equal. rewrite C2. unfold L at 3, without, i. rewrite concat_app. rewrite take_app_add, <- Nat.add_assoc, drop_app_add. by rewrite <- app_assoc.
Qed.

End range.
End QuicklistRange.
