(* ===== verification/QuicklistDup.v ===== *)
(** * Copying and releasing a quicklist

    While a copy is made its nodes are compressed as they are in the original,
    whatever their place, until it has as many nodes as the depth of the
    compression needs.  Releasing a list leaves no node. *)
From stdpp Require Import base list gmap.
From S2P Require Import Prelude Quicklist QuicklistLinks QuicklistNodes QuicklistOps.

Module QuicklistDup.
Import Quicklist QuicklistLinks QuicklistNodes QuicklistOps.

Section dup.

Context {PK : Packed} {PL : PackedLaws} {CP : Compression} {CL : CompressionLaws}.
Context (junk : Z).

Local Notation good := (QuicklistOps.good junk).
Local Notation whole := (QuicklistOps.whole junk).
Local Notation sound := (QuicklistNodes.sound junk).
Local Notation moved := (QuicklistNodes.moved junk).
Local Notation Rep := (QuicklistOps.Rep junk).

Definition short (c : Z) (xs : list cell) : Prop := c = 0 \/ zlen xs < 2 * c.
#[local] Instance short_dec c xs : Decision (short c xs).
Proof. unfold short. apply _. Defined.

(** Compressing from a node when no node is in use: nothing happens to a short
    list, and a longer one becomes safe. *)
Lemma compress_quiet q xs ex k a n : linked q xs ex -> Forall sound xs -> Forall quiet xs -> 0 <= compress q -> xs !! k = Some (a, n) ->
  exists q' ys, quicklistCompress junk a q = Some q' /\ moved q xs q' ys ex /\ (short (compress q) xs -> q' = q /\ ys = xs) /\ (~ short (compress q) xs -> safe (compress q) ys).
Proof.
  intros L Hs Hq H0 Hk. assert (forall i b m, xs !! i = Some (b, m) -> recompress m = false) as Hr by (intros i b m Hi; apply (Forall_lookup_1 _ _ _ _ Hq Hi)).
  unfold quicklistCompress. rewrite (linked_lookup _ _ _ _ _ _ L Hk). bnd. cbn [recompress relink set_prev set_next]. rewrite (Hr _ _ _ Hk).
  destruct (decide (short (compress q) xs)) as [Hsh|Hsh].
  - exists q, xs. split_and!; [|by apply moved_refl|done|done]. unfold __quicklistCompress. rewrite (l_len _ _ _ L).
    destruct (zlen xs =? 0); [done|]. destruct (linked_ends q xs ex L) as (h & hn & t & tn & Hh & Ht & -> & ->); [by intros ->|]. bnd.
    rewrite (linked_lookup _ _ _ _ _ _ L Hh), (linked_lookup _ _ _ _ _ _ L Ht). bnd. cbn [recompress relink set_prev set_next].
    rewrite (Hr _ _ _ Hh), (Hr _ _ _ Ht). cbn [negb andb assert_]. bnd. assert ((compress q =? 0) || (zlen xs <? compress q * 2) = true) as -> by (unfold short in Hsh; lia). done.
  - destruct (compress_all junk q xs ex (Some a)) as (q' & ys & H1 & H2 & H3); try done; [split; [intros; by eapply Hr|done]|intros b [= <-]; eauto|].
    exists q', ys. by split_and!.
Qed.

(** A node is put at the end of a list, as it is. *)
Lemma append_copy q xs b n ex l : linked q xs ((b, n) :: ex) -> Forall sound xs -> Forall quiet xs -> 0 <= compress q ->
  relink None None n = n -> stored junk n l -> quiet (b, n) ->
  exists q' ys, _quicklistInsertNodeAfter junk (tail q) b q = Some q' /\ moved q (xs ++ [(b, n)]) q' ys ex /\
    (short (compress q) (xs ++ [(b, n)]) -> ys = xs ++ [(b, n)]) /\ (~ short (compress q) (xs ++ [(b, n)]) -> safe (compress q) ys).
Proof.
  intros L Hs Hq H0 Hrl Hst Hqn. set (zs := xs ++ [(b, n)]).
  assert (spot true (tail q) xs []) as Hsp.
  { split; [apply L|]. rewrite (l_tail _ _ _ L). destruct (last_cases xs) as [->|(p & a & m & ->)]; [done|]. by rewrite chain_last_app. }
  assert (linked q (xs ++ []) ((b, n) :: ex)) as L' by by rewrite app_nil_r.
  destruct (insert_links q xs [] (tail q) b n ex true L' Hsp Hrl) as (q1 & Hq1 & P1 & _ & L1).
  unfold _quicklistInsertNodeAfter, __quicklistInsertNode. rewrite Hq1. bnd. cbv zeta in L1 |- *.
  set (q2 := set_ends (head _) (tail _) (len _ + 1) _) in *. assert (same_params q q2) as P2 by (unfold q2; destruct (len q1 =? 0); exact P1).
  assert (compress q2 = compress q) as Hc by apply P2. fold zs in L1.
  assert (Forall sound zs) as Hsz by (apply Forall_app; split; [done|]; constructor; [by exists l|done]).
  assert (Forall quiet zs) as Hqz by (apply Forall_app; split; [done|]; by constructor).
  assert (exists q3 ys, (match tail q with None => Some q2 | Some o => quicklistCompress junk o q2 end) = Some q3 /\ moved q2 zs q3 ys ex /\
    (short (compress q2) zs -> q3 = q2 /\ ys = zs)) as (q3 & ys & -> & M3 & S3).
  { rewrite (l_tail _ _ _ L). destruct (last_cases xs) as [->|(p & a & m & Hx)]; [exists q2, zs; split_and!; [done|by apply moved_refl|done]|].
    rewrite Hx, chain_last_app. cbn [last_of foldl fst].
    destruct (compress_quiet q2 zs ex (length p) a m L1 Hsz Hqz) as (q3 & ys & G1 & G2 & G3 & _); [lia|unfold zs; rewrite Hx, <- app_assoc; by apply list_lookup_middle|].
    by exists q3, ys. }
  bnd. pose proof (m_recoded _ _ _ _ _ _ M3) as R3. pose proof (Forall2_length _ _ _ R3) as Hl3. assert (compress q3 = compress q) as Hc3 by (rewrite <- Hc; apply M3).
  assert (zs !! length xs = Some (b, n)) as Hn by (unfold zs; by rewrite list_lookup_middle). destruct (recoded_lookup _ _ _ _ _ _ R3 Hn) as (n3 & Hn3 & _).
  destruct (compress_quiet q3 ys ex (length xs) b n3 (m_linked _ _ _ _ _ _ M3)) as (q4 & ws & G1 & G2 & G3 & G4);
    [by eapply recoded_sound|by eapply quiets_recoded|lia|done|].
  assert (zlen ys = zlen zs) as Hz by (unfold zlen; lia). exists q4, ws. split_and!; [done| | |].
  - destruct (moved_trans _ _ _ _ _ _ _ _ M3 G2) as [K1 K2 K3]. split; [done|done|by eapply same_params_trans].
  - intros Hsh. rewrite Hc in S3. destruct (S3 Hsh) as [-> ->]. rewrite Hc in G3. by apply G3.
  - intros Hsh. rewrite Hc3 in G4. apply G4. unfold short in *. by rewrite Hz.
Qed.

Lemma ldn_whole b : ldn b 0 (zlen b) = Some b.
Proof. pose proof (ldn_at [] b []) as H. by rewrite app_nil_r in H. Qed.

(** A copied node. *)
Lemma copy_good a b n l p x : good (a, n) l -> exists n', copy_node (relink p x n) = Some n' /\ relink None None n' = n' /\ good (b, n') l /\ quiet (b, n') /\
  encoding n' = encoding n /\ count n' = count n.
Proof.
  intros ((bs & Hb & Hsh & Hz) & Hc & Hl). cbn [snd] in *. unfold copy_node. cbn [encoding entry sz count container relink set_prev set_next].
  destruct Hb as [[He Hen]|(Hen & _ & k & c & c' & r & He & Hld & Hr & Hd)]; rewrite Hen.
  - change (QUICKLIST_NODE_ENCODING_RAW =? QUICKLIST_NODE_ENCODING_LZF) with false. change (QUICKLIST_NODE_ENCODING_RAW =? QUICKLIST_NODE_ENCODING_RAW) with true. cbv iota.
    assert (raw (relink p x n) = Some bs) as -> by (unfold raw; cbn [entry relink set_prev set_next]; by rewrite He). bnd.
    assert (exists d, ldn bs 0 (sz n) = Some d /\ ((container n = QUICKLIST_NODE_CONTAINER_PACKED /\ packs d l /\ sz n = lp_size l /\ l <> []) \/
      (container n = QUICKLIST_NODE_CONTAINER_PLAIN /\ l = [d] /\ sz n = zlen d /\ elem d))) as (d & -> & Hd).
    { destruct Hsh as [(S1 & S2 & S3 & S4)|(S1 & S2 & S3 & S4)]; [|exists bs; rewrite S3; split; [apply ldn_whole|right; by split_and!]].
      destruct (packs_size _ _ S2) as [Z1 Z2]. destruct (ldn_is_Some bs 0 (sz n)) as [d Hd]; [lia|lia|lia|]. exists d. split; [done|left]. split_and!; try done.
      apply ldn_Some in Hd as (_ & _ & _ & ->). rewrite drop_0, S3. by apply packs_cut. }
    bnd. eexists. split; [done|]. split_and!; try done. split_and!; try done. exists d. split_and!; [by left|exact Hd|apply Hz|apply Hz].
  - change (QUICKLIST_NODE_ENCODING_LZF =? QUICKLIST_NODE_ENCODING_LZF) with true. cbv iota. rewrite He, Hld. bnd. eexists. split; [done|]. split_and!; try done. split_and!; try done.
    exists bs. split_and!; [|exact Hsh|apply Hz|apply Hz]. right. split_and!; [done|done|]. exists k, c', c', r. split_and!; try done.
    pose proof (ldn_zlen _ _ _ _ Hld) as <-. apply ldn_whole.
Qed.

(** A copy [q'] of the nodes [zs]. *)
Record copied (f c : Z) (q' : quicklist) (xs zs : list cell) (ls : list (list (list Z))) : Prop := {
  k_linked : linked q' xs [];
  k_good : Forall2 good xs ls;
  k_quiet : Forall quiet xs;
  k_params : fill q' = f /\ compress q' = c /\ qcount q' = zlen (concat ls);
  k_short : short c xs -> Forall2 (fun x z : cell => encoding x.2 = encoding z.2) xs zs;
  k_deep : ~ short c xs -> safe c xs }.

Lemma copy_next f c q' xs zs ls a n l p x : copied f c q' xs zs ls -> 0 <= c -> good (a, n) l ->
  exists new q'' xs', copy_node (relink p x n) = Some new /\
    (let q1 := set_qcount (qcount q' + count new) q' in let '(b, q2) := alloc new q1 in _quicklistInsertNodeAfter junk (tail q2) b q2) = Some q'' /\
    copied f c q'' xs' (zs ++ [(a, n)]) (ls ++ [l]).
Proof.
  intros [L G Q (P1 & P2 & P3) Ks Kd] H0 Hg. set (b := fresh (dom (heap q'))).
  destruct (copy_good a b n l p x Hg) as (new & -> & C1 & C2 & C3 & C4 & C5). exists new. cbv zeta. set (q1 := set_qcount _ q').
  destruct (alloc new q1) as [b' q2] eqn:Ea. assert (b' = b /\ linked q2 xs [(b, new)]) as [-> L2].
  { assert (linked q1 xs []) as L1 by (destruct L; by split). destruct (linked_alloc q1 xs [] new L1) as [_ L2]. rewrite Ea in L2. cbn [fst snd] in L2.
    unfold alloc in Ea. injection Ea as <- <-. done. }
  assert (fill q2 = f /\ compress q2 = c /\ qcount q2 = qcount q' + count new) as (R1 & R2 & R3) by (pose proof (f_equal snd Ea) as Eq; cbn [snd] in Eq; by rewrite <- Eq).
  destruct (append_copy q2 xs b new [] l L2) as (q3 & ys & G1 & [G2 G3 (V1 & V2 & V3)] & G5 & G6); [by eapply goods_sound|done|lia|done|apply C2|done|].
  rewrite R2 in G5, G6. exists q3, ys. split_and!; [done|done|].
  pose proof (Forall2_length _ _ _ G3) as Hl. assert (zlen ys = zlen (xs ++ [(b, new)])) as Hz by (unfold zlen; lia).
  split; [done| | |split_and!; [congruence|congruence|]| |].
  - eapply goods_recoded; [|exact G3]. apply Forall2_app; [done|]. by constructor.
  - eapply quiets_recoded; [|exact G3]. apply Forall_app. split; [done|]. by constructor.
  - rewrite V3, R3, P3, C5. destruct Hg as (_ & Hg & _). cbn in Hg. rewrite Hg, concat_app, zlen_app. cbn. by rewrite app_nil_r.
  - intros Hsh. assert (short c (xs ++ [(b, new)])) as Hsh' by (unfold short in *; by rewrite <- Hz). rewrite (G5 Hsh').
    apply Forall2_app; [|by constructor]. apply Ks. unfold short in *. rewrite zlen_app in Hsh'. change (zlen [(b, new)]) with 1 in Hsh'. lia.
  - intros Hsh. apply G6. unfold short in *. by rewrite <- Hz.
Qed.

Lemma dup_loop_ok q f c : 0 <= c -> forall post pre lpre lpost xs q', seg (heap q) (last_of None pre) post None -> Forall2 good post lpost -> copied f c q' xs pre lpre ->
  exists q'' ys, dup_loop junk (length post) (first_of post None) q q' = Some q'' /\ copied f c q'' ys (pre ++ post) (lpre ++ lpost).
Proof.
  intros H0. induction post as [|[a n] post IH]; intros pre lpre lpost xs q' S G K.
  { apply Forall2_nil_inv_l in G as ->. exists q', xs. rewrite !app_nil_r. by split. }
  apply Forall2_cons_inv_l in G as (l & lpost' & Hg & G & ->). destruct S as [S1 S2]. cbn [dup_loop first_of length]. unfold node. rewrite S1. bnd.
  destruct (copy_next f c q' xs pre lpre a n l (last_of None pre) (first_of post None) K H0 Hg) as (new & q'' & xs' & -> & G1 & K'). bnd. cbv zeta in G1.
  destruct (alloc new _) as [b q2]. rewrite G1. bnd. cbn [next relink set_prev set_next].
  destruct (IH (pre ++ [(a, n)]) (lpre ++ [l]) lpost' xs' q'') as (q3 & ys & H1 & H2); [by rewrite chain_last_app|done|done|].
  exists q3, ys. rewrite <- !app_assoc in H2. by split.
Qed.

(** A copy has the same strings. *)
Lemma dup_ok q l : Rep q l -> exists q', quicklistDup junk q = Some q' /\ Rep q' l /\ fill q' = fill q /\ compress q' = compress q.
Proof.
  intros (xs & ls & [L G S Q (P1 & P2 & P4)] & Hl & Hc). unfold quicklistDup. rewrite (l_len _ _ _ L), (l_head _ _ _ L). unfold zlen. rewrite Nat2Z.id.
  set (q0 := set_calls _ _). assert (copied (fill q) (compress q) q0 [] [] []) as K0.
  { assert (fill q0 = fill q /\ compress q0 = compress q) as [E1 E2].
    { unfold q0, quicklistNew, quicklistSetOptions, quicklistSetCompressDepth, quicklistSetFill. change FILL_MAX with 32767. change COMPRESS_MAX with 65535. cbn [fill compress set_calls].
      split; destruct (_ <? _) eqn:?; bool_hyps; try lia; destruct (_ <? _) eqn:?; bool_hyps; lia. }
    split; [|constructor|constructor|done| |intros _ i a n Hi; done].
    - split; try done; [intros a n H; by apply elem_of_nil in H|constructor|]. intros a [n Ha]. cbn in Ha. by rewrite lookup_empty in Ha.
    - constructor. }
  destruct (dup_loop_ok q (fill q) (compress q) P1 xs [] [] ls [] q0 (l_seg _ _ _ L) G K0) as (q' & ys & H1 & [L' G' Q' (F1 & F2 & F3) Ks Kd]).
  exists q'. split_and!; [done| |done|done]. exists ys, ls. split_and!; [|done|by rewrite F3, <- Hl]. split; try done; [|unfold params_ok; lia].
  rewrite F2. destruct (decide (short (compress q) ys)) as [Hs|Hs]; [|by apply Kd]. intros i a n Hi _.
  destruct (Forall2_lookup_l _ _ _ _ _ (Ks Hs) Hi) as ([b m] & Hm & He). cbn in He.
  split; [rewrite He; apply (S i b m Hm)|apply (Forall_lookup_1 _ _ _ _ Q' Hi)].
  pose proof (Forall2_length _ _ _ (Ks Hs)) as Hlen. cbn in Hlen. unfold short, shallow, zlen in *. apply lookup_lt_Some in Hi. lia.
Qed.

(** Releasing a list frees its nodes, each once. *)
Lemma release_loop_ok xs : forall pp ls q, seg (heap q) pp xs None -> NoDup xs.*1 -> Forall2 good xs ls ->
  exists q', release_loop (length xs) (first_of xs None) q = Some q' /\ (forall a, is_Some (heap q' !! a) -> is_Some (heap q !! a) /\ a ∉ xs.*1) /\
    qcount q' = qcount q - zlen (concat ls) /\ len q' = len q - zlen xs.
Proof.
  induction xs as [|[a n] xs IH]; intros pp ls q S N G.
  { apply Forall2_nil_inv_l in G as ->. exists q. split_and!; [done| |change (zlen (concat [])) with 0; lia|change (zlen []) with 0; lia]. intros a Ha. split; [done|apply not_elem_of_nil]. }
  apply Forall2_cons_inv_l in G as (l & ls' & (_ & Hc & _) & G & ->). destruct S as [S1 S2]. cbn in N. apply NoDup_cons in N as [N1 N2]. cbn [release_loop first_of length]. bnd.
  assert (node a q = Some (relink pp (first_of xs None) n)) as -> by exact S1. bnd. cbn [next count relink set_prev set_next]. set (q1 := set_ends _ _ _ _).
  destruct (IH (Some a) ls' q1) as (q' & H1 & H2 & H3 & H4); [|done|done|].
  { eapply seg_ext; [|exact S2]. intros b Hb. cbn. rewrite lookup_delete_ne; [done|]. by intros ->. }
  exists q'. split_and!; [done| | |].
  - intros b Hb. destruct (H2 b Hb) as [K1 K2]. cbn in K1. destruct (decide (a = b)) as [->|Hne]; [rewrite lookup_delete_eq in K1; by destruct K1|].
    rewrite lookup_delete_ne in K1 by done. split; [done|]. cbn. apply not_elem_of_cons. by split.
  - rewrite H3. cbn. rewrite zlen_app. cbn in Hc. lia.
  - rewrite H4. cbn. rewrite zlen_cons. lia.
Qed.

Lemma release_all_ok q l : Rep q l -> exists q', quicklistRelease q = Some q' /\ heap q' = ∅ /\ qcount q' = 0 /\ len q' = 0.
Proof.
  intros (xs & ls & [L G _ _ _] & Hl & Hc). unfold quicklistRelease. rewrite (l_len _ _ _ L), (l_head _ _ _ L). unfold zlen. rewrite Nat2Z.id.
  pose proof (l_nodup _ _ _ L) as N. cbn in N. rewrite app_nil_r in N.
  destruct (release_loop_ok xs None ls q (l_seg _ _ _ L) N G) as (q' & -> & H2 & H3 & H4). exists q'. rewrite (l_len _ _ _ L) in H4. rewrite Hc, Hl in H3. split_and!; [done| |lia|lia].
  apply map_empty. intros a. apply eq_None_not_Some. intros Ha. destruct (H2 a Ha) as [K1 K2]. apply K2. pose proof (l_dom _ _ _ L a K1) as D. cbn in D. by rewrite app_nil_r in D.
Qed.


End dup.
End QuicklistDup.
