(* ===== verification/QuicklistLists.v ===== *)
(** * The listpack and LZF of a quicklist

    The listpacks of Listpack.v and the compressor of Lzf.v have the operations
    the quicklist calls, and keep the promises it relies on, over every
    allocator that grants at least the requested sizes, and over every content
    of the compressor's uninitialised table in each of its calls. *)
From stdpp Require Import base list gmap.
From S2P Require Import Prelude Util Listpack ListpackRun Lzf Quicklist QuicklistNodes.

Module QuicklistLists.
Import Util Listpack ListpackRun QuicklistNodes.

(** ** The operations *)

Definition only_lp (r : option (option (list Z * option Z))) : option (option (list Z)) :=
  match r with Some (Some (lp, _)) => Some (Some lp) | Some None => Some None | None => None end.
Definition value_of (r : option lpret) : option (Z * Z + Z) :=
  match r with Some (RetStr q n) => Some (inl (q, n)) | Some (RetInt v) => Some (inr v) | _ => None end.
Definition as_bool (r : option Z) : option bool := match r with Some r => Some (negb (r =? 0)) | None => None end.

Section instances.

Context (usable : Z -> Z) (junk : Z).
Context (base : nat -> Z) (htab : nat -> Z -> Z).

Definition listpacks : Quicklist.Packed := {|
  Quicklist.lpNew := lpNew usable junk;
  Quicklist.lpPrepend lp s := only_lp (lpPrepend usable junk lp s);
  Quicklist.lpAppend lp s := only_lp (lpAppend usable junk lp s);
  Quicklist.lpInsertString lp s p w := only_lp (lpInsertString usable junk lp s p w);
  Quicklist.lpReplace lp p s := lpReplace usable junk lp p s;
  Quicklist.lpDelete lp p := lpDelete usable junk lp p;
  Quicklist.lpDeleteRange := lpDeleteRange usable junk;
  Quicklist.lpSeek := lpSeek;
  Quicklist.lpNext := lpNext;
  Quicklist.lpPrev := lpPrev;
  Quicklist.lpGetValue lp p := value_of (lpGetValue lp p);
  Quicklist.lpCompare lp p s := as_bool (lpCompare lp p s);
  Quicklist.lpLength := lpLength;
  Quicklist.lpBytes := lpBytes;
  Quicklist.lpMerge a b := lpMerge usable junk (Some a) (Some b) false |}.

Definition lzf : Quicklist.Compression := {|
  Quicklist.lzf_compress k := Lzf.lzf_compress (base k) (htab k);
  Quicklist.lzf_decompress := Lzf.lzf_decompress |}.

(** ** Their laws *)

Context (usable_ge : forall n, 0 <= n -> n <= usable n).
Context (base_ok : forall k, 8192 <= base k < 2 ^ 63) (htab_ok : forall k, Lzf.htab_ok (htab k)).

Definition size_of (l : list (list Z)) : Z := pos (map enc_data l) + 1.

Lemma size_of_app l k : size_of (l ++ k) = size_of l + size_of k - 7.
Proof. unfold size_of, pos, LP_HDR_SIZE. rewrite map_app, zlen_body_app. lia. Qed.

Lemma size_of_one s : elem s -> 9 <= size_of [s] <= zlen s + 17.
Proof.
  intros Hs. unfold size_of, pos, LP_HDR_SIZE, body. cbn [map concat]. rewrite app_nil_r, zlen_entry. pose proof (zlen_nonneg s).
  assert (1 <= zlen (enc_data s) /\ zlen (enc_data s) + backlen_size (zlen (enc_data s)) <= zlen s + 10) as [H1 H2];
    [|pose proof (backlen_size_range (zlen (enc_data s))); lia].
  unfold enc_data. destruct (lpStringToInt64 s) as [v|] eqn:E.
  - rewrite stringToInt64_eq in E. apply string2ll_spec in E as [_ Hv]. destruct (enc_int_spec v Hv) as (_ & _ & Hz). split; [lia|].
    assert (backlen_size (zlen (lpEncodeIntegerGetType v)) = 1) as -> by (unfold lpEncodeBacklen; by if_lia). lia.
  - pose proof (backlen_size_range (zlen (str_hdr (zlen s) ++ s))). rewrite zlen_app, zlen_str_hdr in *. unfold hdr_len in *. repeat case_if E'; lia.
Qed.

(** A call that returns a pointer returns the listpack. *)
Lemma put_some lp c p lp' : (r ← c; Some (put lp r)) = Some (RPtr (Some p), lp') -> c = Some (Some (lp', Some p)).
Proof. destruct c as [[[x y]|]|]; cbn; [|done|done]. by intros [= -> ->]. Qed.

Lemma fits_size l : size_of l < 2 ^ 32 -> fits l = true.
Proof. intros Hl. unfold fits. by apply Z.ltb_lt. Qed.

Lemma packed_end lp l l' i (c : option (option (list Z * option Z))) o : bytes_of lp l -> op_ok o -> lp_exec usable junk o lp = (r ← c; Some (put lp r)) ->
  list_exec o l = written l l' i -> size_of l' < 2 ^ 32 -> exists lp' p, c = Some (Some (lp', p)) /\ bytes_of lp' l'.
Proof.
  intros Hl Ho He Hw Hs. destruct (exec_ok usable junk usable_ge o lp l Hl Ho) as (lp' & H1 & H2). rewrite Hw in H1, H2. unfold written in *. rewrite (fits_size _ Hs) in H1, H2.
  rewrite He in H1. apply put_some in H1. by exists lp', (Some (ptr_of l' i)).
Qed.

Lemma packed_at lp l i w s : bytes_of lp l -> elem s -> (i < length l)%nat -> w = LP_BEFORE \/ w = LP_AFTER \/ w = LP_REPLACE -> size_of (list_after w i s l) < 2 ^ 32 ->
  exists lp' p, lpInsert usable junk lp (Some s) None (zlen s) (ptr_of l i) w = Some (Some (lp', p)) /\ bytes_of lp' (list_after w i s l).
Proof.
  intros [Hr He] Hs Hi Hw Hz.
  destruct (insert_at usable junk lp (map enc_data l) i w _ _ _ _ usable_ge Hr (writes_string s Hs)) as [_ H2]; [by rewrite length_map|done|].
  rewrite <- map_after in H2. destruct (H2 Hz) as (lp' & H3 & H4 & _). eexists lp', _. split; [exact H3|]. split; [done|]. by apply elem_ok_after.
Qed.

Lemma locate_pos (l : list (list Z)) i : (i < length l)%nat -> locate l (Z.of_nat i) = Some i.
Proof. intros Hi. unfold locate, norm_index, zlen. replace (_ <? 0) with false by lia. replace (_ && _) with true by lia. f_equal. lia. Qed.

Lemma value_ok lp l i x : bytes_of lp l -> l !! i = Some x -> exists r, value_of (lpGetValue lp (ptr_of l i)) = Some r /\
  match r with inl (p, k) => ldn lp p k = Some x | inr v => in_s 64 v /\ x = numeral v end.
Proof.
  intros [Hr He] Hx. assert (elem_ok x) as Hok by (by eapply Forall_lookup_1). rewrite (split_at_elem l i x Hx) in Hr.
  destruct (get_spec _ _ _ _ Hr) as (r & H1 & H2 & H3). destruct (enc_data_spec x Hok) as (Hd & Hden & _).
  unfold denotes, lpGet in Hden. rewrite H1 in Hden. cbn [mbind option_bind] in Hden. unfold lpGetValue, lpGet, ptr_of, elem_ptr. rewrite H2. bnd.
  destruct r as [q n|v|b n]; cbn [shift_ret value_of]; [| |done].
  - destruct H3 as (bs & K1 & K2). rewrite Hden in K1. injection K1 as <-. assert (0 <= n < 2 ^ 32).
    { apply ldn_Some in K2 as (_ & Hn & Hle & _). apply ldn_zlen in Hden. destruct Hok as [_ Hok]. lia. }
    exists (inl (pos (take i (map enc_data l)) + q, n)). split; [by rewrite (wrap_small 32)|done].
  - exists (inr v). split; [done|]. split; [done|]. destruct (numeral_spec v H3) as (_ & _ & Hn). by eapply decimal_inj.
Qed.

Lemma packed_cut lp l : bytes_of lp l -> bytes_of (take (Z.to_nat (size_of l)) lp) l.
Proof.
  intros [Hr He]. split; [|done]. pose proof (rep_eof _ _ Hr) as (_ & _ & Hlt & _). destruct (rep_cut _ _ Hr) as (n & sl & -> & Hd & Hn). exists n, [].
  assert (take (Z.to_nat (size_of l)) (with_hdr (pos (map enc_data l) + 1) n (body (map enc_data l)) ++ [LP_EOF] ++ sl) =
    with_hdr (pos (map enc_data l) + 1) n (body (map enc_data l)) ++ [LP_EOF]) as ->.
  { rewrite app_assoc, take_app_length'; [done|]. rewrite length_app. cbn [length]. pose proof (zlen_with_hdr (pos (map enc_data l) + 1) n (body (map enc_data l))) as Hz.
    unfold size_of, pos, LP_HDR_SIZE, zlen in *. lia. }
  rewrite with_hdr_app. unfold pos, LP_HDR_SIZE in *. split_and!; [f_equal; lia|lia|done|done].
Qed.

#[export] Instance listpack_laws : @PackedLaws listpacks.
Proof.
  unshelve refine (@Build_PackedLaws listpacks bytes_of size_of ptr_of _ _ _ _ _ _ _ _ _ _ _ _ _ _ _ _ _ _ _ _);
    cbn [listpacks Quicklist.lpNew Quicklist.lpPrepend Quicklist.lpAppend Quicklist.lpInsertString Quicklist.lpReplace Quicklist.lpDelete Quicklist.lpDeleteRange
      Quicklist.lpSeek Quicklist.lpNext Quicklist.lpPrev Quicklist.lpGetValue Quicklist.lpLength Quicklist.lpBytes Quicklist.lpMerge].
  - apply size_of_app.
  - done.
  - apply size_of_one.
  - by intros lp l [_ ?].
  - intros lp l [Hr _]. pose proof (rep_eof _ _ Hr) as (_ & _ & H1 & H2 & _). done.
  - apply packed_cut.
  - intros lp l [Hr _]. by pose proof (rep_eof _ _ Hr) as (_ & ? & _).
  - intros lp l [Hr He]. destruct (length_spec _ _ Hr) as (lp' & H1 & H2 & _). exists lp'. unfold zlen in *. rewrite length_map in H1. by split.
  - destruct (new_spec usable junk usable_ge 0) as (lp & H1 & H2); [done|]. exists lp. by split.
  - intros lp l s Hl Hs Hz. destruct (packed_end lp l (s :: l) 0 (lpPrepend usable junk lp s) (OPrepend s)) as (lp' & p & -> & ?); try done. by exists lp'.
  - intros lp l s Hl Hs Hz. destruct (packed_end lp l (l ++ [s]) (length l) (lpAppend usable junk lp s) (OAppend s)) as (lp' & p & -> & ?); try done. by exists lp'.
  - intros lp l i s after Hl Hs Hi Hz. destruct (packed_at lp l i (if after then LP_AFTER else LP_BEFORE) s Hl Hs Hi) as (lp' & p & H1 & H2); [by destruct after; auto| |].
    + assert (size_of (list_after (if after then LP_AFTER else LP_BEFORE) i s l) = size_of (s :: l)) as ->; [|done].
      change (s :: l) with ([s] ++ l). rewrite size_of_app. unfold list_after.
      assert (forall j, size_of (take j l ++ s :: drop j l) = size_of [s] + size_of l - 7) as Hj.
      { intros j. change (s :: drop j l) with ([s] ++ drop j l). rewrite !size_of_app. pose proof (size_of_app (take j l) (drop j l)) as E. rewrite take_drop in E. lia. }
      destruct after; cbn; apply Hj.
    + exists lp'. unfold lpInsertString. destruct after; cbn in H1 |- *; rewrite H1; split; try done; exact H2.
  - intros lp l i s Hl Hs Hi Hz. destruct (packed_at lp l i LP_REPLACE s Hl Hs Hi) as (lp' & p & H1 & H2); [auto|done|]. by exists lp', p.
  - intros lp l i [Hr He] Hi. destruct (lookup_lt_is_Some_2 l i Hi) as [x Hx]. rewrite (split_at_elem l i x Hx) in Hr.
    destruct (delete_spec usable junk usable_ge lp (take i (map enc_data l)) (enc_data x) (drop (S i) (map enc_data l)) Hr) as (lp' & H1 & H2).
    eexists lp', _. split; [exact H1|]. split; [by rewrite map_delete_mid|by apply Forall_delete].
  - intros lp l index num Hl Hi Hn. destruct (range_ok usable junk usable_ge lp l index num Hl Hi Hn) as (lp' & H1 & H2). cbn [lp_exec list_exec fst snd] in H1, H2.
    destruct (lpDeleteRange usable junk lp index num) as [x|]; [|done]. cbn in H1. injection H1 as ->. by exists lp'.
  - intros lp l index Hl. by apply seek_map.
  - intros lp l i Hl Hi. destruct (next_ok usable junk lp l (Z.of_nat i) Hl) as (lp' & H1 & _). cbn [lp_exec list_exec] in H1. unfold at_elem in H1.
    rewrite (seek_map lp l _ Hl), (locate_pos l i Hi) in H1. cbn [fmap option_fmap option_map mbind option_bind fst snd] in H1.
    destruct (lpNext lp (ptr_of l i)) as [r|]; [|done]. cbn in H1. injection H1 as -> _. done.
  - intros lp l i Hl Hi. destruct (prev_ok usable junk lp l (Z.of_nat i) Hl) as (lp' & H1 & _). cbn [lp_exec list_exec] in H1. unfold at_elem in H1.
    rewrite (seek_map lp l _ Hl), (locate_pos l i Hi) in H1. cbn [fmap option_fmap option_map mbind option_bind fst snd] in H1.
    destruct (lpPrev lp (ptr_of l i)) as [r|]; [|done]. cbn in H1. injection H1 as -> _. done.
  - apply value_ok.
  - intros a b l k [Ha Ea] [Hb Eb] Hz. destruct (merge_spec usable junk usable_ge a b _ _ Ha Hb) as (m & H1 & H2).
    { rewrite <- map_app. unfold UINT32_MAX. unfold size_of in Hz. lia. }
    exists m. split; [split; [by rewrite map_app|by apply Forall_app]|]. rewrite H2. destruct (_ <=? _); auto.
Qed.

#[export] Instance lzf_laws : @CompressionLaws lzf.
Proof.
  split. intros k inb out Hin. cbn.
  destruct (Lzf.lzf_compress_decompress (base k) (htab k) inb out) as (n & out' & H1 & _ & H2 & _ & H3); [lia|apply base_ok|pose proof (base_ok k); lia|apply htab_ok|].
  exists n, out'. split; [done|]. intros Hn. destruct (H3 Hn) as (c & H4 & H5). exists c. split_and!; [lia|done|]. intros buf Hb. rewrite H5 by lia.
  rewrite drop_ge by (unfold zlen in Hb; lia). by rewrite app_nil_r.
Qed.

End instances.
End QuicklistLists.
