(* ===== verification/QuicklistRun.v ===== *)
(** * Sequences of quicklist operations (src/redis-stable/src/quicklist.c)

    A quicklist behaves like a list of strings: the operations of Quicklist.v
    run in sequence on the heap of nodes ([ql_run]), over the listpacks of
    Listpack.v and the compressor of Lzf.v, and the same operations run on a
    list of strings ([strings_run]). *)
From stdpp Require Import base list gmap.
From S2P Require Import Prelude Util Listpack ListpackRun Lzf Quicklist QuicklistLinks QuicklistNodes QuicklistOps QuicklistInsert QuicklistRange QuicklistDup QuicklistLists.

Module QuicklistRun.
Import Quicklist QuicklistLinks QuicklistNodes QuicklistOps QuicklistInsert QuicklistRange QuicklistDup.

(** The ends and directions are booleans: the head, or from it, is [true].
    [QAppend] makes a node of its own, as when a dump is loaded, and after
    [QDup] the operations go on with the copy. *)
Inductive ql_op :=
  | QPush (hd : bool) (s : list Z)
  | QAppend (s : list Z)
  | QPop (hd : bool)
  | QIndex (index : Z)
  | QRange (hd : bool) (index : Z) (n : nat)
  | QInsert (after : bool) (index : Z) (s : list Z)
  | QReplace (index : Z) (s : list Z)
  | QDelete (index : Z)
  | QDelRange (start cnt : Z)
  | QDup
  | QCount.

Inductive ql_result := RDone | RVal (s : option (list Z)) | RVals (l : list (list Z)) | RBool (b : bool) | RNum (n : Z).

Definition op_ok (o : ql_op) : Prop :=
  match o with
  | QPush _ s | QAppend s => Forall is_byte s
  | QInsert _ index s | QReplace index s => in_s 64 index /\ Forall is_byte s
  | QIndex index | QRange _ index _ | QDelete index => in_s 64 index
  | QDelRange start cnt => in_s 64 start /\ in_s 64 cnt
  | QPop _ | QDup | QCount => True
  end.

(** ** On lists of strings *)

(** The list with the new element, as one listpack, is below 4 GB. *)
Definition fits (o : ql_op) (l : list (list Z)) : bool :=
  match o with QPush _ s | QAppend s | QInsert _ _ s | QReplace _ s => weight (s :: l) <? 2 ^ 32 | _ => true end.

Definition strings_exec (o : ql_op) (l : list (list Z)) : ql_result * list (list Z) :=
  match o with
  | QPush hd s => (RDone, if hd then s :: l else l ++ [s])
  | QAppend s => (RDone, l ++ [s])
  | QPop hd => if hd then (RVal (l !! 0%nat), drop 1 l) else (RVal (last l), take (length l - 1) l)
  | QIndex index => (RVal (i ← ListpackRun.locate l index; l !! i), l)
  | QRange hd index n =>
      (RVals (match ListpackRun.locate l index with None => [] | Some i => take n (if hd then drop i l else reverse (take (S i) l)) end), l)
  | QInsert after index s =>
      match ListpackRun.locate l index with None => (RBool false, l) | Some i => (RBool true, with_elem after i s l) end
  | QReplace index s => match ListpackRun.locate l index with None => (RBool false, l) | Some i => (RBool true, <[i := s]> l) end
  | QDelete index => match ListpackRun.locate l index with None => (RBool false, l) | Some i => (RBool true, delete i l) end
  | QDelRange start cnt =>
      match ListpackRun.locate l start with
      | None => (RBool false, l)
      | Some i => if cnt <=? 0 then (RBool false, l) else (RBool true, take i l ++ drop (i + Z.to_nat cnt) l)
      end
  | QDup => (RDone, l)
  | QCount => (RNum (zlen l), l)
  end.

Fixpoint strings_run (os : list ql_op) (l : list (list Z)) : list ql_result * list (list Z) :=
  match os with
  | [] => ([], l)
  | o :: os => let '(r, l) := strings_exec o l in let '(rs, l) := strings_run os l in (r :: rs, l)
  end.

Fixpoint run_fits (os : list ql_op) (l : list (list Z)) : bool :=
  match os with [] => true | o :: os => fits o l && run_fits os (strings_exec o l).2 end.

(** ** On quicklists *)

Section exec.

Context {PK : Packed} {CP : Compression}.
Context (packed_threshold junk : Z).

(** At most [n] elements from an iterator. *)
Fixpoint iterate (n : nat) (it : quicklistIter) (q : quicklist) : option (list (list Z) * quicklistIter * quicklist) :=
  match n with
  | O => Some ([], it, q)
  | S n =>
      '(q, it, e, found) ← quicklistNext junk (next_fuel q) it q;
      if (found : bool) then '(vs, it, q) ← iterate n it q; Some (text (e_value e) :: vs, it, q) else Some ([], it, q)
  end.

(** What is done at the element of an index. *)
Definition at_index (index : Z) (other : ql_result) (q : quicklist) (k : quicklistIter -> quicklistEntry -> quicklist -> option (ql_result * quicklist * quicklistIter))
    : option (ql_result * quicklist) :=
  '(q, r) ← quicklistGetIteratorEntryAtIdx junk index q;
  match r with
  | None => Some (other, q)
  | Some (it, e) => '(r, q, it) ← k it e q; q ← quicklistReleaseIterator junk it q; Some (r, q)
  end.

Definition ql_exec (o : ql_op) (q : quicklist) : option (ql_result * quicklist) :=
  match o with
  | QPush hd s => q ← quicklistPush packed_threshold junk s (if hd then QUICKLIST_HEAD else QUICKLIST_TAIL) q; Some (RDone, q)
  | QAppend s => q ← quicklistAppendPlainNode junk s q; Some (RDone, q)
  | QPop hd => '(q, v) ← quicklistPopCustom junk (if hd then QUICKLIST_HEAD else QUICKLIST_TAIL) q; Some (RVal (text <$> v), q)
  | QIndex index => at_index index (RVal None) q (fun it e q => Some (RVal (Some (text (e_value e))), q, it))
  | QRange hd index n =>
      r ← quicklistGetIteratorAtIdx (dir_of hd) index q;
      match r with
      | None => Some (RVals [], q)
      | Some it => '(vs, it, q) ← iterate n it q; q ← quicklistReleaseIterator junk it q; Some (RVals vs, q)
      end
  | QInsert after index s =>
      at_index index (RBool false) q (fun it e q => '(q, it) ← (if after then quicklistInsertAfter packed_threshold junk it e s q else quicklistInsertBefore packed_threshold junk it e s q);
        Some (RBool true, q, it))
  | QReplace index s => '(q, b) ← quicklistReplaceAtIndex packed_threshold junk index s q; Some (RBool b, q)
  | QDelete index => at_index index (RBool false) q (fun it e q => '(q, it) ← quicklistDelEntry junk it e q; Some (RBool true, q, it))
  | QDelRange start cnt => '(q, b) ← quicklistDelRange junk start cnt q; Some (RBool b, q)
  | QDup => q ← quicklistDup junk q; Some (RDone, q)
  | QCount => Some (RNum (quicklistCount q), q)
  end.

Fixpoint ql_run (os : list ql_op) (q : quicklist) : option (list ql_result * quicklist) :=
  match os with
  | [] => Some ([], q)
  | o :: os => '(r, q) ← ql_exec o q; '(rs, q) ← ql_run os q; Some (r :: rs, q)
  end.

End exec.

(** ** The simulation *)

Section proofs.

Context {PK : Packed} {PL : PackedLaws} {CP : Compression} {CL : CompressionLaws}.
Context (packed_threshold junk : Z).

Local Notation whole := (QuicklistOps.whole junk).
Local Notation focus := (QuicklistOps.focusQ junk quiet).
Local Notation good := (QuicklistOps.good junk).
Local Notation Rep := (QuicklistOps.Rep junk).

(** An iterator that can be released. *)
Definition releasable (q : quicklist) (it : quicklistIter) (ls : list (list (list Z))) : Prop :=
  match current it with
  | None => exists xs, whole q xs ls []
  | Some a => exists pre n post lpre l lpost, ls = lpre ++ l :: lpost /\ focus q pre a n post lpre lpost [] /\ good (a, n) l /\ dont_compress n = false
  end.

Lemma at_elem_releasable q it ls dir i : at_elem junk q it ls dir i -> releasable q it ls.
Proof.
  intros (pre & a & n & post & lpre & l & lpost & o & p & off & -> & F & Hg & He & Hd & -> & _). by exists pre, n, post, lpre, l, lpost.
Qed.

Lemma release_any q it ls : releasable q it ls -> exists q' xs, quicklistReleaseIterator junk it q = Some q' /\ whole q' xs ls [] /\ qcount q' = qcount q.
Proof.
  unfold releasable, quicklistReleaseIterator. destruct (current it) as [a|]; [|intros [xs W]; by exists q, xs].
  intros (pre & n & post & lpre & l & lpost & -> & F & Hg & Hd).
  destruct (close_node junk q pre a n post lpre lpost l [] F Hg) as (q' & pre' & n' & post' & H1 & F' & Hg' & _ & _ & Hq & P & _). exists q', (pre' ++ (a, n') :: post').
  split_and!; [done|by apply focus_whole; [..|apply Hq]|apply P].
Qed.

(** The elements an iterator gives. *)
Definition following (hd : bool) (i : nat) (l : list (list Z)) : list (list Z) := if hd then drop (S i) l else reverse (take i l).

Lemma following_succ hd l i : (i < length l)%nat ->
  following hd i l = match succ_pos hd (length l) i with None => [] | Some j => match l !! j with None => [] | Some x => x :: following hd j l end end.
Proof.
  intros Hi. unfold following, succ_pos. destruct hd.
  - destruct (S i <? length l)%nat eqn:E; [apply Nat.ltb_lt in E|apply Nat.ltb_ge in E; by rewrite drop_ge].
    destruct (lookup_lt_is_Some_2 l (S i) E) as [x Hx]. by rewrite Hx, (drop_S _ _ _ Hx).
  - destruct i as [|i]; [done|]. destruct (lookup_lt_is_Some_2 l i ltac:(lia)) as [x Hx]. by rewrite Hx, (take_S_r _ _ _ Hx), reverse_app.
Qed.

Lemma succ_lt hd m i j : (i < m)%nat -> succ_pos hd m i = Some j -> (j < m)%nat.
Proof. unfold succ_pos. intros Hi. destruct hd; [destruct (S i <? m)%nat eqn:E; [|done]; apply Nat.ltb_lt in E; by intros [= <-]|]. destruct i; [done|]. intros [= <-]. lia. Qed.

Lemma iterate_ok n : forall q it ls i hd, at_elem junk q it ls (dir_of hd) i -> (i < length (concat ls))%nat ->
  exists it' q', iterate junk n it q = Some (take n (following hd i (concat ls)), it', q') /\ releasable q' it' ls /\ qcount q' = qcount q.
Proof.
  induction n as [|n IH]; intros q it ls i hd Ha Hi; cbn [iterate].
  { exists it, q. split_and!; [done|by eapply at_elem_releasable|done]. }
  destruct (next_step junk q it ls i (Z.to_nat (len q)) hd Ha) as (q1 & it1 & e & Q1 & H1). unfold next_fuel. rewrite (following_succ hd _ i Hi).
  destruct (succ_pos hd (length (concat ls)) i) as [j|] eqn:Ej.
  - destruct H1 as (-> & Ha1 & Hv & _). bnd. destruct (IH q1 it1 ls j hd Ha1 (succ_lt _ _ _ _ Hi Ej)) as (it' & q' & -> & R & Q2). bnd. rewrite Hv. exists it', q'. split_and!; [done|done|congruence].
  - destruct H1 as (-> & Hc & W). bnd. exists it1, q1. split_and!; [by rewrite take_nil|unfold releasable; by rewrite Hc|done].
Qed.

Lemma range_read q xs ls hd idx n : whole q xs ls [] -> qcount q = zlen (concat ls) -> zlen (concat ls) < 2 ^ 32 -> in_s 64 idx ->
  exists q' xs', ql_exec packed_threshold junk (QRange hd idx n) q = Some ((strings_exec (QRange hd idx n) (concat ls)).1, q') /\ whole q' xs' ls [] /\ qcount q' = qcount q.
Proof.
  intros W Hc Hb Hi. cbn [ql_exec strings_exec fst]. pose proof (iterator_at_ok junk q xs ls (dir_of hd) idx W Hc Hb Hi) as H1.
  destruct (ListpackRun.locate (concat ls) idx) as [i|] eqn:El; [|rewrite H1; bnd; by exists q, xs].
  destruct H1 as (pre & a & m & post & lpre & l & lpost & o & -> & -> & F & Hg & Hq & -> & Ho & ->). bnd.
  assert (length (concat lpre) + o < length (concat (lpre ++ l :: lpost)))%nat as Hlt by (rewrite concat_app; cbn; rewrite !length_app; lia).
  set (L := concat (lpre ++ l :: lpost)) in *. set (i := (length (concat lpre) + o)%nat) in *.
  assert (exists it' q', iterate junk n (mkIter (Some a) None (if idx <? 0 then Z.of_nat o - zlen l else Z.of_nat o) (dir_of hd)) q =
    Some (take n (if hd then drop i L else reverse (take (S i) L)), it', q') /\ releasable q' it' (lpre ++ l :: lpost) /\ qcount q' = qcount q) as (it' & q1 & -> & R & Q1).
  { destruct n as [|n]; cbn [iterate].
    - eexists _, q. split; [done|]. split; [|done]. exists pre, m, post, lpre, l, lpost. split_and!; try done. apply Hq.
    - destruct (next_fresh junk q pre a m post lpre l lpost o (if idx <? 0 then Z.of_nat o - zlen l else Z.of_nat o) (dir_of hd) (next_fuel q) F Hg Hq Ho) as (q1 & it & e & -> & Ha & Q1 & Hv & _);
        [destruct (idx <? 0); auto|]. bnd. fold L i in Ha, Hv. destruct (iterate_ok n q1 it _ i hd Ha Hlt) as (it' & q' & -> & R & Q2). bnd. fold L.
      exists it', q'. split_and!; [|done|congruence]. do 3 f_equal. unfold following. destruct hd; [by rewrite (drop_S _ _ _ Hv)|].
      rewrite (take_S_r _ _ _ Hv), reverse_app. done. }
  bnd. destruct (release_any q1 it' _ R) as (q' & xs' & -> & W' & Q2). bnd. exists q', xs'. split_and!; [done|done|congruence].
Qed.

(** The element at an index is deleted. *)
Lemma del_entry_ok q it ls hd i v : at_elem junk q it ls (dir_of hd) i ->
  exists q' it' ls', quicklistDelEntry junk it (mkEntry (current it) (zi it) v (offset it)) q = Some (q', it') /\ releasable q' it' ls' /\ concat ls' = delete i (concat ls) /\ qcount q' = qcount q - 1.
Proof.
  intros (pre & a & n & post & lpre & l & lpost & o & p & off & -> & F & Hg & He & Hd & -> & Ho & -> & Hp & Hoff). cbn [current zi offset].
  assert (delete (length (concat lpre) + o)%nat (concat (lpre ++ l :: lpost)) = concat lpre ++ delete o l ++ concat lpost) as Hdel.
  { rewrite concat_app. cbn. rewrite !delete_take_drop, take_app_add, take_app_le by lia. rewrite <- Nat.add_succ_r, drop_app_add, drop_app_le by lia. by rewrite <- !app_assoc. }
  rewrite Hdel. unfold quicklistDelEntry. cbn [e_node e_zi]. bnd. rewrite (focus_node _ _ _ _ _ _ _ _ _ F). bnd. cbn [prev next relink set_prev set_next current offset direction].
  destruct (del_index_ok junk q pre a n post lpre lpost [] l o (Some p) F Hg He Ho) as (q1 & gone & p' & -> & Q1 & H1); [intros E; by rewrite (Hp E)|]. bnd. destruct gone.
  - destruct H1 as (Hl & pre' & post' & W & R1 & R2). assert (delete o l = []) as -> by (destruct l as [|x [|y l]]; [done| |done]; by destruct o; [|cbn in Ho; lia]).
    assert (forall (b : option addr) z d, b = first_of post None \/ b = last_of None pre -> releasable q1 (mkIter b None z d) (lpre ++ lpost)) as Hrel.
    { intros b z d Hb. unfold releasable. cbn [current]. destruct b as [b|]; [|by exists (pre' ++ post')].
      assert (b ∈ (pre' ++ post').*1) as Hin.
      { rewrite fmap_app, (recoded_addrs _ _ _ R1), (recoded_addrs _ _ _ R2). apply elem_of_app. destruct Hb as [Hb|Hb]; symmetry in Hb; [right; by apply first_of_in|left; by apply last_of_in]. }
      apply list_elem_of_split in Hin as (A & B & E). apply fmap_app_inv in E as (p1 & r & -> & E & Hx). destruct r as [|[b' m] p2]; [done|]. cbn in E. injection E as -> ->.
      rewrite Hx in W. destruct (whole_focus _ _ _ _ _ _ _ _ W) as (lp1 & l1 & lp2 & E & F1 & Hg1 & Hq1). exists p1, m, p2, lp1, l1, lp2. split_and!; try done. apply Hq1. }
    eexists q1, _, (lpre ++ lpost). split; [done|]. split_and!; [|by rewrite concat_app|done]. destruct (dir_of hd =? AL_START_HEAD); apply Hrel; auto.
  - destruct H1 as (n' & F1 & Hg1 & _ & _ & Hd1 & _). eexists q1, _, (lpre ++ delete o l :: lpost). split; [done|]. split_and!; [|by rewrite concat_app|done].
    exists pre, n', post, lpre, (delete o l), lpost. split_and!; try done. congruence.
Qed.

Lemma push_ok q l s hd : Rep q l -> elem s -> weight (s :: l) < 2 ^ 32 ->
  exists q', quicklistPush packed_threshold junk s (if (hd : bool) then QUICKLIST_HEAD else QUICKLIST_TAIL) q = Some q' /\ Rep q' (if hd then s :: l else l ++ [s]).
Proof.
  intros R Hs Hw. unfold quicklistPush. cbv zeta. pose proof R as (xs & ls & W & _).
  assert (forall a, a = head q \/ a = tail q -> (match a with None => Some tt | Some a => n ← node a q; assert_ (negb (encoding n =? QUICKLIST_NODE_ENCODING_LZF)) end) = Some tt) as Hraw.
  { intros a Ha. destruct a as [a|]; [|done]. pose proof (w_linked _ _ _ _ _ W) as L.
    assert (xs <> []) as Hne by (intros ->; rewrite (l_head _ _ _ L), (l_tail _ _ _ L) in Ha; by destruct Ha).
    destruct (linked_ends _ _ _ L Hne) as (h & hn & t & tn & H1 & H2 & H3 & H4). rewrite H3, H4 in Ha.
    destruct Ha as [[= ->]|[= ->]]; [rewrite (linked_lookup _ _ _ _ _ _ L H1)|rewrite (linked_lookup _ _ _ _ _ _ L H2)]; bnd; cbn [encoding relink set_prev set_next].
    - rewrite (end_raw _ _ _ _ _ (w_safe _ _ _ _ _ W) (proj1 (w_params _ _ _ _ _ W)) H1); [done|by left].
    - rewrite (end_raw _ _ _ _ _ (w_safe _ _ _ _ _ W) (proj1 (w_params _ _ _ _ _ W)) H2); [done|by right]. }
  rewrite !Hraw by auto. bnd. destruct hd; cbn [Z.eqb QUICKLIST_HEAD QUICKLIST_TAIL].
  - destruct (push_head_ok junk packed_threshold q l s R Hs Hw) as (q' & b & -> & R'). bnd. by exists q'.
  - destruct (push_tail_ok junk packed_threshold q l s R Hs) as (q' & b & -> & R'); [rewrite weight_app, weight_cons; rewrite weight_cons in Hw; change (weight []) with 7; lia|]. bnd. by exists q'.
Qed.

(** *** The size of the list *)

Lemma weight_split j (l : list (list Z)) : weight l = weight (take j l) + weight (drop j l) - 7.
Proof. by rewrite <- weight_app, take_drop. Qed.

Lemma weight_drop j k (l : list (list Z)) : (j <= k)%nat -> weight (take j l ++ drop k l) <= weight l.
Proof.
  intros Hj. rewrite weight_app, (weight_split j l). replace k with (j + (k - j))%nat by lia. rewrite <- drop_drop, (weight_split (k - j) (drop j l)).
  pose proof (weight_pos (take (k - j) (drop j l))). pose proof (zlen_nonneg (take (k - j) (drop j l))). lia.
Qed.

Lemma weight_with after i s (l : list (list Z)) : weight (with_elem after i s l) = weight (s :: l).
Proof. unfold with_elem. set (j := if after then S i else i). rewrite weight_app, !weight_cons, (weight_split j l). lia. Qed.

Lemma weight_replace i s (l : list (list Z)) : (i < length l)%nat -> weight (<[i := s]> l) <= weight (s :: l).
Proof. intros Hi. rewrite insert_take_drop by done. rewrite weight_app, !weight_cons. pose proof (weight_drop i (S i) l ltac:(lia)) as Hw. rewrite weight_app in Hw. lia. Qed.

Lemma weight_end l s : weight (l ++ [s]) = weight (s :: l).
Proof. rewrite weight_app, !weight_cons. change (weight []) with 7. lia. Qed.

Lemma weight_strings o l : weight l < 2 ^ 32 -> fits o l = true -> weight (strings_exec o l).2 < 2 ^ 32.
Proof.
  intros Hl Hf. destruct o as [hd s|s|hd|index|hd index n|after index s|index s|index|start cnt| |]; cbn [strings_exec fits snd] in *; bool_hyps; try done.
  - destruct hd; [done|]. by rewrite weight_end.
  - by rewrite weight_end.
  - destruct hd; cbn [snd].
    + pose proof (weight_drop 0 1 l ltac:(lia)). rewrite take_0 in H. cbn [app] in H. lia.
    + pose proof (weight_drop (length l - 1) (length l) l ltac:(lia)). rewrite drop_all, app_nil_r in H. lia.
  - destruct (ListpackRun.locate l index); cbn [snd]; [by rewrite weight_with|done].
  - destruct (ListpackRun.locate l index) as [i|] eqn:E; cbn [snd]; [|done]. pose proof (weight_replace i s l (ListpackRun.locate_lt _ _ _ E)). lia.
  - destruct (ListpackRun.locate l index) as [i|]; cbn [snd]; [|done]. rewrite delete_take_drop. pose proof (weight_drop i (S i) l ltac:(lia)). lia.
  - destruct (ListpackRun.locate l start) as [i|]; cbn [snd]; [|done]. destruct (cnt <=? 0); cbn [snd]; [done|]. pose proof (weight_drop i (i + Z.to_nat cnt) l ltac:(lia)). lia.
Qed.

(** *** Every operation *)

(** An operation at the element of an index. *)
Lemma at_index_ok q xs ls index other k r l' : whole q xs ls [] -> qcount q = zlen (concat ls) -> zlen (concat ls) < 2 ^ 32 -> in_s 64 index ->
  (forall i q1 it v, ListpackRun.locate (concat ls) index = Some i -> at_elem junk q1 it ls AL_START_TAIL i -> qcount q1 = qcount q -> concat ls !! i = Some (text v) ->
     exists q2 it2 q3 xs3 ls3, k it (mkEntry (current it) (zi it) v (offset it)) q1 = Some (r i, q2, it2) /\ quicklistReleaseIterator junk it2 q2 = Some q3 /\
       whole q3 xs3 ls3 [] /\ concat ls3 = l' i /\ qcount q3 = zlen (l' i)) ->
  exists q', at_index junk index other q k = Some (match ListpackRun.locate (concat ls) index with None => other | Some i => r i end, q') /\
    Rep q' (match ListpackRun.locate (concat ls) index with None => concat ls | Some i => l' i end).
Proof.
  intros W Hc Hb Hi Hk. unfold at_index. pose proof (entry_at_ok junk q xs ls index W Hc Hb Hi) as H1. destruct (ListpackRun.locate (concat ls) index) as [i|].
  - destruct H1 as (q1 & it & e & -> & Ha & Q1 & Hv & He). bnd. destruct (Hk i q1 it (e_value e) eq_refl Ha Q1 Hv) as (q2 & it2 & q3 & xs3 & ls3 & G1 & G2 & G3 & G4 & G5).
    rewrite <- He in G1. rewrite G1. bnd. rewrite G2. bnd. exists q3. split; [done|]. exists xs3, ls3. split_and!; [done|done|by rewrite G5, <- G4].
  - rewrite H1. bnd. exists q. split; [done|]. by exists xs, ls.
Qed.

Definition refines (o : ql_op) (q : quicklist) (l : list (list Z)) : Prop :=
  exists q', ql_exec packed_threshold junk o q = Some ((strings_exec o l).1, q') /\ Rep q' (strings_exec o l).2.

Lemma pop_refines q l hd : Rep q l -> refines (QPop hd) q l.
Proof.
  intros R. unfold refines. cbn [ql_exec strings_exec]. destruct (decide (l = [])) as [->|Hne].
  - pose proof R as (xs & ls & W & Hl & Hc). unfold quicklistPopCustom. rewrite Hc. change (zlen [] =? 0) with true. cbv iota. bnd. exists q. by destruct hd.
  - assert (exists x l', l = if hd then x :: l' else l' ++ [x]) as (x & l' & Hx).
    { destruct hd; [destruct l as [|x l']; [done|by exists x, l']|]. destruct l as [|x l' _] using rev_ind; [done|by exists x, l']. }
    destruct (pop_ok junk q l hd x l' R Hx) as (q' & v & -> & <- & R'). bnd. exists q'. rewrite Hx. destruct hd; cbn [fst snd].
    + done.
    + rewrite last_snoc, length_app. cbn [length]. rewrite take_app_length' by lia. done.
Qed.

Lemma insert_refines q l after index s : Rep q l -> in_s 64 index -> elem s -> weight (s :: l) < 2 ^ 32 -> zlen l < 2 ^ 32 -> refines (QInsert after index s) q l.
Proof.
  intros (xs & ls & W & <- & Hc) Hi Hs Hw Hb. unfold refines. cbn [ql_exec strings_exec].
  destruct (at_index_ok q xs ls index (RBool false) (fun it e q => '(q, it) ← (if after then quicklistInsertAfter packed_threshold junk it e s q else quicklistInsertBefore packed_threshold junk it e s q);
    Some (RBool true, q, it)) (fun _ => RBool true) (fun i => with_elem after i s (concat ls)) W Hc Hb Hi) as (q' & G1 & G2).
  - intros i q1 it v Hl Ha Q1 _. destruct (insert_ok junk packed_threshold q1 it ls AL_START_TAIL i v s after Ha Hs Hw) as (q2 & it2 & q3 & xs3 & ls3 & K1 & K2 & K3 & K4 & K5).
    exists q2, it2, q3, xs3, ls3. split_and!; [|done|done|done|].
    + assert ((if after then quicklistInsertAfter packed_threshold junk it (mkEntry (current it) (zi it) v (offset it)) s q1 else
        quicklistInsertBefore packed_threshold junk it (mkEntry (current it) (zi it) v (offset it)) s q1) = Some (q2, it2)) as -> by (by destruct after). done.
    + rewrite K5, Q1, Hc. unfold with_elem. apply ListpackRun.locate_lt in Hl. rewrite zlen_app, zlen_cons. unfold zlen. rewrite length_take, length_drop. destruct after; lia.
  - rewrite G1. exists q'. by destruct (ListpackRun.locate _ _).
Qed.

Lemma replace_refines q l index s : Rep q l -> in_s 64 index -> elem s -> weight (s :: l) < 2 ^ 32 -> zlen l < 2 ^ 32 -> refines (QReplace index s) q l.
Proof.
  intros (xs & ls & W & <- & Hc) Hi Hs Hw Hb. unfold refines. cbn [ql_exec strings_exec]. unfold quicklistReplaceAtIndex.
  pose proof (entry_at_ok junk q xs ls index W Hc Hb Hi) as H1. destruct (ListpackRun.locate (concat ls) index) as [i|].
  - destruct H1 as (q1 & it & e & -> & Ha & Q1 & Hv & He). bnd. rewrite He.
    destruct (replace_ok junk packed_threshold q1 it ls AL_START_TAIL i (e_value e) s Ha Hs Hw) as (q' & it' & xs' & ls' & -> & G2 & G3 & G4 & G5). bnd.
    unfold quicklistReleaseIterator. rewrite G2. bnd. exists q'. split; [done|]. exists xs', ls'. split_and!; [done|done|]. cbn [snd]. rewrite G5, Q1, Hc. unfold zlen. by rewrite length_insert.
  - rewrite H1. bnd. exists q. split; [done|]. by exists xs, ls.
Qed.

Lemma append_plain_eq s q : quicklistAppendPlainNode junk s q = __quicklistInsertPlainNode junk (tail q) s true q.
Proof. done. Qed.

(** Deleting more than what is left is deleting what is left. *)
Lemma without_min (l : list (list Z)) i k : (i < length l)%nat -> take i l ++ drop (i + Nat.min k (length l - i)) l = take i l ++ drop (i + k) l.
Proof. intros Hi. destruct (decide (k <= length l - i)%nat); [by rewrite Nat.min_l|]. rewrite Nat.min_r by lia. by rewrite !drop_ge by lia. Qed.

Lemma del_range_refines q l start cnt : Rep q l -> zlen l < 2 ^ 32 -> in_s 64 start -> in_s 64 cnt -> refines (QDelRange start cnt) q l.
Proof.
  intros (xs & ls & W & <- & Hc) Hb Hs Hcn. unfold refines. cbn [ql_exec strings_exec].
  destruct (del_range_ok junk q xs ls start cnt W Hc Hb Hs Hcn) as (q' & b & xs' & ls' & -> & G1 & G2 & G3). bnd. exists q'.
  assert (forall r l', (b, concat ls') = (r, l') -> Some (RBool b, q') = Some (RBool r, q') /\ Rep q' l') as Hend
    by (intros r l' [= -> <-]; split; [done|by exists xs', ls']).
  destruct (ListpackRun.locate (concat ls) start) as [i|] eqn:El; [|by apply Hend]. apply ListpackRun.locate_lt in El.
  destruct (cnt <=? 0); apply Hend; [done|]. rewrite G3. unfold without. by rewrite without_min.
Qed.

Lemma exec_refines o q l : Rep q l -> weight l < 2 ^ 32 -> op_ok o -> fits o l = true -> refines o q l.
Proof.
  intros R Hl Ho Hf. assert (zlen l < 2 ^ 32) as Hb by (pose proof (weight_pos l); pose proof (zlen_nonneg l); lia).
  assert (forall s, Forall is_byte s -> weight (s :: l) < 2 ^ 32 -> elem s) as Helem
    by (intros s Hs Hw; split; [done|]; pose proof (weight_ge l s); rewrite weight_cons in Hw; pose proof (weight_pos l); pose proof (zlen_nonneg l); lia).
  destruct o as [hd s|s|hd|index|hd index n|after index s|index s|index|start cnt| |]; cbn [op_ok fits] in Ho, Hf; bool_hyps.
  - destruct (push_ok q l s hd R (Helem s Ho Hf) Hf) as (q' & G1 & G2). exists q'. cbn [ql_exec strings_exec fst snd]. by rewrite G1.
  - destruct (push_plain junk q l s true R (Helem s Ho Hf)) as (q' & G1 & G2); [destruct (Helem s Ho Hf); lia|]. exists q'. cbn [ql_exec strings_exec fst snd].
    by rewrite append_plain_eq, G1.
  - by apply pop_refines.
  - destruct R as (xs & ls & W & <- & Hc). unfold refines. cbn [ql_exec strings_exec fst snd].
    destruct (at_index_ok q xs ls index (RVal None) (fun it e q => Some (RVal (Some (text (e_value e))), q, it)) (fun i => RVal (concat ls !! i)) (fun _ => concat ls) W Hc Hb Ho) as (q' & G1 & G2).
    + intros i q1 it v _ Ha Q1 Hv. destruct (release_any q1 it ls (at_elem_releasable _ _ _ _ _ Ha)) as (q3 & xs3 & K1 & K2 & K3).
      exists q1, it, q3, xs3, ls. split_and!; try done; [by rewrite Hv|congruence].
    + exists q'. split; [rewrite G1; by destruct (ListpackRun.locate _ _)|]. by destruct (ListpackRun.locate _ _).
  - destruct R as (xs & ls & W & <- & Hc). destruct (range_read q xs ls hd index n W Hc Hb Ho) as (q' & xs' & G1 & G2 & G3).
    exists q'. split; [done|]. exists xs', ls. split_and!; [done|done|]. cbn [strings_exec snd]. congruence.
  - destruct Ho as [Hi Hs]. by apply insert_refines; auto.
  - destruct Ho as [Hi Hs]. by apply replace_refines; auto.
  - destruct R as (xs & ls & W & <- & Hc). unfold refines. cbn [ql_exec strings_exec].
    destruct (at_index_ok q xs ls index (RBool false) (fun it e q => '(q, it) ← quicklistDelEntry junk it e q; Some (RBool true, q, it)) (fun _ => RBool true) (fun i => delete i (concat ls)) W Hc Hb Ho) as (q' & G1 & G2).
    + intros i q1 it v Hl' Ha Q1 _. destruct (del_entry_ok q1 it ls false i v Ha) as (q2 & it2 & ls2 & K1 & K2 & K3 & K4).
      destruct (release_any q2 it2 ls2 K2) as (q3 & xs3 & K5 & K6 & K7). exists q2, it2, q3, xs3, ls2. split_and!; try done; [by rewrite K1|].
      rewrite K7, K4, Q1, Hc. apply ListpackRun.locate_lt in Hl'. unfold zlen. rewrite length_delete by (by apply lookup_lt_is_Some_2). lia.
    + rewrite G1. exists q'. by destruct (ListpackRun.locate _ _).
  - destruct Ho as [Hs Hcn]. by apply del_range_refines.
  - destruct (dup_ok junk q l R) as (q' & G1 & G2 & _). exists q'. cbn [ql_exec strings_exec fst snd]. by rewrite G1.
  - exists q. split; [|done]. destruct R as (xs & ls & W & <- & Hc). cbn [ql_exec strings_exec fst]. unfold quicklistCount. by rewrite Hc.
Qed.

Lemma run_refines os : forall q l, Rep q l -> weight l < 2 ^ 32 -> Forall op_ok os -> run_fits os l = true ->
  exists q', ql_run packed_threshold junk os q = Some ((strings_run os l).1, q') /\ Rep q' (strings_run os l).2.
Proof.
  induction os as [|o os IH]; intros q l R Hl Ho Hf; cbn [ql_run strings_run run_fits] in *; [by exists q|]. apply Forall_cons in Ho as [Ho Hos]. apply andb_prop in Hf as [Hf Hfs].
  destruct (exec_refines o q l R Hl Ho Hf) as (q1 & G1 & R1). rewrite G1. bnd. pose proof (weight_strings o l Hl Hf) as Hw. destruct (strings_exec o l) as [r l1]. cbn [fst snd] in *.
  destruct (IH q1 l1 R1 Hw Hos Hfs) as (q' & -> & R'). bnd. destruct (strings_run os l1) as [rs l2]. by exists q'.
Qed.

(** A new list. *)
Lemma new_refines f c : Rep (quicklistNew f c) [].
Proof.
  exists [], []. split_and!; [|done|done]. split; [|constructor| |constructor|].
  - split; try done; [intros a n H; by apply elem_of_nil in H|constructor|]. intros a [n Ha]. cbn in Ha. by rewrite lookup_empty in Ha.
  - intros i a n Hi. done.
  - unfold params_ok, quicklistNew, quicklistSetOptions, quicklistSetCompressDepth, quicklistSetFill, COMPRESS_MAX, FILL_MAX. cbn [fill compress].
    change (Z.shiftl 1 16 - 1) with 65535. change (Z.shiftl 1 15 - 1) with 32767. repeat case_if E; lia.
Qed.

End proofs.

(** ** The theorem, over the listpacks and the compressor of the repository *)

Import QuicklistLists.

(** C13: a quicklist behaves like a list of strings.  From a new list with any
    fill factor, compression depth and threshold for large elements, every
    sequence of pushes and pops at the two ends, reads at an index, iterations
    in both directions, insertions before and after an element, replacements,
    deletions of elements and ranges, copies of the list and counts returns
    without an access out of bounds or a failed assertion, and gives the
    strings, counts and answers of the same operations on a list; releasing it
    at the end frees every node once.  It holds for every allocator that grants at
    least the requested sizes and whatever the compressor finds in its
    uninitialised table in each call, as long as the list would fit, as one
    listpack, in 4 GB. *)
Theorem quicklist_simulates (usable : Z -> Z) (junk : Z) (base : nat -> Z) (htab : nat -> Z -> Z) (f c packed_threshold : Z) (os : list ql_op) :
  (forall n, 0 <= n -> n <= usable n) -> (forall k, 8192 <= base k < 2 ^ 63) -> (forall k, Lzf.htab_ok (htab k)) ->
  Forall op_ok os -> run_fits os [] = true ->
  exists q' q'', @ql_run (listpacks usable junk) (lzf base htab) packed_threshold junk os (quicklistNew f c) = Some ((strings_run os []).1, q') /\
    quicklistCount q' = zlen (strings_run os []).2 /\ quicklistRelease q' = Some q'' /\ heap q'' = ∅.
Proof.
  intros Hu Hb Hh Ho Hf.
  destruct (@run_refines (listpacks usable junk) (listpack_laws usable junk Hu) (lzf base htab) (lzf_laws base htab Hb Hh) packed_threshold junk os (quicklistNew f c) [] (new_refines junk f c) eq_refl Ho Hf) as (q' & H1 & R).
  destruct (release_all_ok junk q' _ R) as (q'' & H2 & H3 & _). destruct R as (_ & _ & _ & _ & R). exists q', q''. by split_and!.
Qed.

(** *** Witness *)

Definition str (n c : Z) : list Z := replicate (Z.to_nat n) c.
Definition ql_ops : list ql_op :=
  [QPush false (str 50 97); QPush false (str 50 98); QPush true (str 50 99); QPush false [49; 50]; QPush false (str 80 100); QPush true (str 50 101); QPush false (str 50 102);
   QPush false (str 50 103); QInsert true 2 (str 90 104); QInsert false 3 [120]; QInsert true (-2) [121]; QReplace 4 (str 70 105); QReplace 1 [122]; QIndex (-4);
   QRange true 0 4; QAppend (str 55 106); QDup; QRange false (-1) 3; QDelete 5; QDelRange 2 3; QPop true; QPop false; QCount].

(** Some node of the list is compressed. *)
Definition has_lzf (q : quicklist) : bool := existsb (fun p => encoding p.2 =? QUICKLIST_NODE_ENCODING_LZF) (map_to_list (heap q)).

Lemma quicklist_simulates_witness :
  (exists rs q, @ql_run (listpacks Listpack.Listpack.round8 170) (lzf (fun _ => 8192) (fun _ _ => 0)) 60 170 (take 10 ql_ops) (quicklistNew 2 1) = Some (rs, q) /\ has_lzf q = true) /\
  last (strings_run ql_ops []).1 = Some (RNum 6) /\
  exists q' q'', @ql_run (listpacks Listpack.Listpack.round8 170) (lzf (fun _ => 8192) (fun _ _ => 0)) 60 170 ql_ops (quicklistNew 2 1) = Some ((strings_run ql_ops []).1, q') /\
    quicklistCount q' = zlen (strings_run ql_ops []).2 /\ quicklistRelease q' = Some q'' /\ heap q'' = ∅.
Proof.
  split; [vm_compute; eexists _, _; split; reflexivity|]. split; [by vm_compute|].
  apply (quicklist_simulates Listpack.Listpack.round8 170 (fun _ => 8192) (fun _ _ => 0) 2 1 60 ql_ops Listpack.Listpack.round8_ge); [intros k; lia|intros k i; lia| |by vm_compute].
  assert (forall s, forallb (fun c => (0 <=? c) && (c <? 256)) s = true -> Forall is_byte s) as He.
  { intros s Hs. apply Forall_forall. intros c Hc%list_elem_of_In. rewrite forallb_forall in Hs. apply Hs in Hc. unfold is_byte. lia. }
  repeat (apply Forall_cons; split; [cbn [op_ok]; unfold in_s; split_and?; first [apply He; reflexivity | lia | done]|]). constructor.
Defined.

(** ** Rotation *)

Section rotation.

Context {PK : Packed} {CP : Compression} (packed_threshold junk : Z).

(** The tail becomes the head, with its contents and those of the other nodes
    as they are. *)
Lemma rotate_plain_links q h hn mid p pn t tn ex : linked q ((h, hn) :: mid ++ [(p, pn); (t, tn)]) ex ->
  exists q', quicklistRotatePlain q = Some q' /\ linked q' ((t, tn) :: (h, hn) :: mid ++ [(p, pn)]) ex /\ same_params q q'.
Proof.
  intros L. pose proof L as [Hs He Hn Hd Hh Ht Hl]. assert (tail q = Some t) as Ht' by (rewrite Ht; cbn; by rewrite foldl_app).
  assert (h <> t /\ p <> t /\ h <> p /\ t ∉ mid.*1 /\ h ∉ mid.*1 /\ p ∉ mid.*1) as (N1 & N2 & N3 & N4 & N5 & N6).
  { apply NoDup_app in Hn as (Hn & _). cbn in Hn. rewrite fmap_app in Hn. apply NoDup_cons in Hn as [H1 Hn]. apply NoDup_app in Hn as (_ & H2 & H3). cbn in H3. apply NoDup_cons in H3 as [H3 _]. set_solver. }
  cbn [seg] in Hs. destruct Hs as [S1 Hs]. apply seg_app in Hs as [S2 S3]. cbn [seg first_of] in S2, S3. destruct S3 as (S3 & S4 & _).
  unfold quicklistRotatePlain. rewrite Ht', Hh. cbn [first_of]. bnd. unfold node at 1. rewrite S4. bnd. cbn [prev relink set_prev set_next].
  rewrite (upd_at h _ q _ S1). bnd. rewrite (upd_at p _ _ (relink (last_of (Some h) mid) (Some t) pn)) by (rewrite node_put_ne by done; exact S3). bnd.
  rewrite (upd_at t _ _ (relink (Some p) None tn)) by (rewrite !node_put_ne by done; exact S4). bnd. rewrite (upd_at t _ _ _ (node_put_eq _ _ _)). bnd.
  eexists. split; [done|]. split; [|done]. split; cbn [heap put set_heap set_ends head tail len].
  - cbn [seg]. rewrite lookup_insert_eq, !lookup_insert_ne, lookup_insert_eq by done. split; [done|]. split; [by destruct mid as [|[]]|].
    apply seg_app. split.
    + cbn [first_of]. do 2 (apply seg_insert; [done|]). do 2 (apply seg_insert; [done|]). done.
    + cbn [seg first_of]. by rewrite !lookup_insert_ne, lookup_insert_eq by done.
  - intros b m Hb. assert (b ∉ ((h, hn) :: mid ++ [(p, pn); (t, tn)]).*1) as Hnb.
    { intros Hin. apply NoDup_app in Hn as (_ & Hn & _). apply (Hn b Hin). apply list_elem_of_fmap. by exists (b, m). }
    cbn in Hnb. rewrite fmap_app in Hnb. rewrite !lookup_insert_ne by set_solver. by apply He.
  - revert Hn. apply NoDup_Permutation_proper, Permutation_app_tail. cbn. rewrite !fmap_app. cbn. solve_Permutation.
  - intros b Hb. assert (b ∈ ((h, hn) :: mid ++ [(p, pn); (t, tn)]).*1 ++ ex.*1) as Hin.
    { destruct (decide (b = t)) as [->|]; [cbn; rewrite fmap_app; set_solver|]. destruct (decide (b = p)) as [->|]; [cbn; rewrite fmap_app; set_solver|]. destruct (decide (b = h)) as [->|]; [cbn; set_solver|].
      rewrite !lookup_insert_ne in Hb by done. by apply Hd. }
    revert Hin. cbn. rewrite !fmap_app. cbn. set_solver.
  - done.
  - cbn. by rewrite foldl_app.
  - rewrite Hl, !zlen_cons, !zlen_app, !zlen_cons. lia.
Qed.

(** What quicklistPopCustom asserts of the node it pops from, and quicklistPush
    of the two ends. *)
Definition end_assertion (n : quicklistNode) : bool := negb (encoding n =? QUICKLIST_NODE_ENCODING_LZF).

(** C15: quicklistRotate can leave a compressed tail.  In any list of three
    nodes or more whose last element is large, in a node of its own, and whose
    last but one node is compressed, the rotation makes that node the tail as it
    is: the order of the elements is right, but the condition that the tail is
    not compressed, which quicklistPopCustom at the tail and quicklistPush assert,
    is false, and these calls fail. *)
Theorem rotate_strands_tail q h hn mid p pn t tn ex :
  linked q ((h, hn) :: mid ++ [(p, pn); (t, tn)]) ex -> 1 < qcount q -> QL_NODE_IS_PLAIN tn = true -> encoding pn = QUICKLIST_NODE_ENCODING_LZF ->
  exists q', quicklistRotate packed_threshold junk q = Some q' /\ linked q' ((t, tn) :: (h, hn) :: mid ++ [(p, pn)]) ex /\
    (exists n, tail q' = Some p /\ node p q' = Some n /\ end_assertion n = false) /\
    quicklistPopCustom junk QUICKLIST_TAIL q' = None /\ forall s where_, quicklistPush packed_threshold junk s where_ q' = None.
Proof.
  intros L Hc Hp He. destruct (rotate_plain_links q h hn mid p pn t tn ex L) as (q' & G & L' & (_ & _ & Q')). exists q'.
  assert (node t q = Some (relink (Some p) None tn)) as Hnt by (destruct L as [Hs _ _ _ _ _ _]; cbn [seg] in Hs; destruct Hs as [_ Hs]; apply seg_app in Hs as [_ (_ & Hs & _)]; exact Hs).
  assert (tail q = Some t) as Htq by (rewrite (l_tail _ _ _ L); cbn; by rewrite foldl_app).
  assert (tail q' = Some p) as Ht by (rewrite (l_tail _ _ _ L'); cbn; by rewrite foldl_app).
  assert (exists n, node p q' = Some n /\ encoding n = QUICKLIST_NODE_ENCODING_LZF) as (n & Hn & En).
  { destruct L' as [Hs _ _ _ _ _ _]. cbn [seg] in Hs. destruct Hs as (_ & _ & Hs). apply seg_app in Hs as [_ (Hs & _)]. eexists. split; [exact Hs|done]. }
  assert (assert_ (negb (encoding n =? QUICKLIST_NODE_ENCODING_LZF)) = None) as Ha by (by rewrite En).
  split_and!; [|done|by exists n; unfold end_assertion; rewrite En| |].
  - unfold quicklistRotate. replace (qcount q <=? 1) with false by lia. rewrite Htq. bnd. rewrite Hnt. bnd. cbn [relink set_prev set_next]. by replace (QL_NODE_IS_PLAIN _) with true by done.
  - unfold quicklistPopCustom. rewrite Q'. replace (qcount q =? 0) with false by lia. cbn [Z.eqb QUICKLIST_TAIL QUICKLIST_HEAD]. rewrite Ht, Hn. bnd. by rewrite Ha.
  - intros s w. unfold quicklistPush. cbv zeta. rewrite Ht, Hn. bnd. rewrite Ha. by destruct (match head q' with None => _ | Some _ => _ end).
Qed.

End rotation.

(** Three elements of 80 bytes, in nodes of their own, with a compression depth
    of 1. *)
Definition three_large : option (list ql_result * quicklist) :=
  @ql_run (listpacks Listpack.Listpack.round8 170) (lzf (fun _ => 8192) (fun _ _ => 0)) 60 170 (map (QPush false) [str 80 97; str 80 98; str 80 99]) (quicklistNew (-2) 1).
Definition three_list : quicklist := Eval vm_compute in match three_large with Some (_, q) => q | None => quicklistNew 0 0 end.
Definition three_node (a : addr) : quicklistNode := Eval vm_compute in default quicklistCreateNode (node a three_list).

Lemma rotate_strands_tail_witness :
  (exists rs, three_large = Some (rs, three_list)) /\
  exists q', @quicklistRotate (listpacks Listpack.Listpack.round8 170) (lzf (fun _ => 8192) (fun _ _ => 0)) 60 170 three_list = Some q' /\
    linked q' [(3%positive, three_node 3); (1%positive, three_node 1); (2%positive, three_node 2)] [] /\
    (exists n, tail q' = Some 2%positive /\ node 2 q' = Some n /\ end_assertion n = false) /\
    @quicklistPopCustom (listpacks Listpack.Listpack.round8 170) (lzf (fun _ => 8192) (fun _ _ => 0)) 170 QUICKLIST_TAIL q' = None /\
    forall s where_, @quicklistPush (listpacks Listpack.Listpack.round8 170) (lzf (fun _ => 8192) (fun _ _ => 0)) 60 170 s where_ q' = None.
Proof.
  split; [eexists; vm_compute; reflexivity|].
  apply (@rotate_strands_tail (listpacks Listpack.Listpack.round8 170) (lzf (fun _ => 8192) (fun _ _ => 0)) 60 170 three_list 1 (three_node 1) [] 2 (three_node 2) 3 (three_node 3) []); [|by vm_compute..].
  split; [by vm_compute|intros a n Ha; by apply elem_of_nil in Ha| | |by vm_compute..].
  - vm_compute. repeat constructor; set_solver.
  - intros a Ha%elem_of_dom. assert (dom (heap three_list) = {[1%positive; 2%positive; 3%positive]}) as E by (by vm_compute). rewrite E in Ha. set_solver.
Defined.

End QuicklistRun.
